(* ===== verification/_CoqProject ===== *)
-Q . S2P
Prelude.v
Bytes.v
Rabin.v
Mrc.v
MrcLevels.v
MrcTree.v
MrcResolve.v
MrcCandidates.v
MrcTheorems.v
Hashtable.v
Protocol.v
ChunkCache.v
Sender.v
Rearrange.v
Hrw.v
Peer.v
Reassemble.v
Receiver.v
ChunkRequest.v
Disk.v
Node.v
NodeTheorems.v
Ils.v
IlsTheorems.v
IlsRequests.v
Connection.v
ConnectionTheorems.v
NameSchedule.v
Stream.v
Transfer.v
HcHash.v
HcList.v
HcHashtab.v
HcIndex.v
HcLog.v
HcLocks.v
HcWriter.v
HcHoc.v
HcElevator.v
HcLexer.v
HcRequest.v
HcHead.v
HcResponse.v
HcBody.v
HcPolicy.v
HcForward.v
HcDate.v
HcStored.v
