(* ===== verification/Prelude.v ===== *)
(** * Waprox and HashCache: a verification library

    The repository holds two programs that work together.  Waprox ([src/waprox]) is a proxy for long, thin links.  Two proxies sit at
    the ends of a link; a user connects to one, which carries the user's stream
    to the other as chunk names, sending the bytes of a chunk only when the
    other side is not believed to have them.  Chunks are found again by their
    digests in caches of the proxies near the receiver.  This library models
    the C code of the proxy and proves what its parts promise.

    HashCache ([src/HashCache]) is the web cache that stores the chunks: a proxy
    that keeps objects in a circular log over raw disks, with a small index in
    memory.  The storage side of it is modelled in the files whose names start
    with [Hc].

    ** The program, and where its parts are

    - a stream is cut at content-defined boundaries: [Rabin]
      (rabinfinger2.c), at several resolutions: [Mrc], [MrcLevels], [MrcTree],
      [MrcResolve], [MrcCandidates], [MrcTheorems] (mrc_tree.c);
    - the chunks of one cut become a message, and wait for their acknowledgement:
      [Sender] ([ProcessOneRabinChunking2] in waprox.c);
    - messages between proxies, their fields and their framing: [Protocol]
      (protocol.c, protocol.h) over the byte buffers of [Bytes] (with util.c);
    - the caches and the hints about other caches: [ChunkCache] (chunkcache.c),
      over the hash table of [Hashtable] (hashtable.c);
    - the other proxies, whether they live, and which of them stores a chunk:
      [Hrw] and [Peer] (peer.c);
    - the receiving half of a connection: [Reassemble], with its theorems in
      [Receiver] (reassemble.c, [ProcessNameTreeDelivery2]);
    - the connections of users, their windows and how they close: [Connection]
      and [ConnectionTheorems] (connection.c, waprox.c); the turns in which they
      send: [NameSchedule] ([ScheduleNameDelivery]);
    - the connection between two proxies that carries these messages: [Stream]
      ([ProcessControlData], [EventReadCB]);
    - chunks that are asked for, and the choice between disk and network for each:
      [ChunkRequest] (chunkrequest.c), [Ils], [IlsTheorems], [IlsRequests]
      (ils.c);
    - the client of the disk cache: [Disk] (disk.c), and the exchange of chunks
      between proxies: [Node], [NodeTheorems] (the handlers of waprox.c);
    - two proxies together: [Transfer].

    And of HashCache ([src/HashCache/src]):

    - the hash functions: [HcHash] (lookupa.c, basic_mmh.c), and the containers:
      [HcList] (list.c) at the level of its pointers, [HcHashtab] (hashtab.c);
    - the index, sets of eight ways with packed clocks: [HcIndex] (index.c and the
      searches of proxy.c and loop.c); who uses an entry: [HcLocks] (locks.c);
    - the circular log and the search for an object: [HcLog] (hcfs.c, the end of
      [joinFlow]);
    - how complete objects are laid out and written: [HcWriter]
      ([formDiskBatches], [checkBatchWritesNow] in proxy.c);
    - blocks in memory: [HcHoc] (hoc.c); the schedule of each disk: [HcElevator]
      (elevator.c);
    - HTTP: the lexer [HcLexer], requests [HcRequest] with the text of their heads
      in [HcHead], responses [HcResponse] with what becomes of their entities in
      [HcBody], and locators and the caching policy in [HcPolicy] (http.c,
      httpHeaders.c); the heads that the proxy sends on and writes to the log:
      [HcForward] ([formSendRequestHeader], [formWriteHeader] and their parts in
      proxy.c), with the dates in them in [HcDate] and what is read back in
      [HcStored].

    [Rearrange] holds what both programs need of permutations.

    The configuration of waprox is that of its Makefile: NODELAY, NO_PEEK,
    REASSEMBLE_OPTIMIZE, ILS, ILS_NOHISTORY, NAME_SCHEDULE and LAZY_PUT are
    defined, assertions are compiled in; RESPONSE_FIFO, FAST_RECONSTRUCT,
    INTEGRITY_CHECK, FULL_MRC_TREE and SCTP are not.  HashCache is built for 32
    bits, with FULL, COMPLETE_LOG, USE_HOC, USE_DIRTY_CACHE, 8 ways and blocks of
    2048 bytes.

    ** How the code is modelled

    A routine is a function of the state it reads, with the names of the C code.
    It returns in the monad [outcome] of this file: [Done] with the new state, or
    the fault that stops the process - a failed assertion, [NiceExit], an access
    outside of an array.  Machine integers are [Z] with the wrap-around written
    ([u8] to [i32]); doubles and floats are those of [SpecFloat], at their
    precision.  Buffers are lists of bytes; what [malloc] returns has unknown
    contents, and [malloc] is taken to succeed.  Structures are records, linked
    lists are lists, and a pointer to a structure is its index, descriptor or
    address where the code shares it.  [while] loops and recursion without a
    bound of their own take fuel: the length of what they consume, or the counter
    they count, and the theorems show that it suffices ([OutOfFuel] is never
    reached).  A hash table is used through the class [Table], whose laws say that
    it is a finite map, and which [Hashtable] implements for the code's table.

    Code that is not in the repository is an argument: the digest (class
    [Digest]: a fixed length is all that is known of it), the hash and the
    rotation of rendezvous hashing, the clock, the descriptors that [socket]
    calls return, and the cuts the network makes in a stream.

    ** What the theorems show

    - Transfer: [users_stream_is_transferred], that the bytes one user writes are
      those the other user reads, over all of the parts above; and
      [Sender.sender_receiver_roundtrip], the same for one chunk.
    - Chunking: the fingerprint is the remainder of a polynomial, and rolling it
      is recomputing it; boundaries are exactly the matching positions; the
      chunks of a level partition the stream, the tree contains them, the hits are
      the hints, and the candidates are again a partition.  A run of equal bytes
      overruns the array of boundaries.
    - Messages: builders and readers are inverse, messages are framed, requests
      merge; the flow of control messages may be cut anywhere
      ([Stream.control_flow_any_segmentation]), and a message longer than the
      buffer closes it.
    - Caches: the hash table is a finite map, the memory cache and the hints are
      first in first out within their bounds, the temporary cache counts
      references, and an acknowledgement releases those of its buffers.
    - Peers: rendezvous hashing takes the peer of largest weight and moves only
      the chunks of peers that go away; the sort terminates and sorts; a node
      check counts the live ones, and unknown peers make it abort.
    - Receiver: data leave in order, as the longest complete prefix.
    - Connections: [ProcessUserData] sends a prefix within the window,
      acknowledgements give the window back, the scheduling terminates and sends
      everything; the count of blocked connections drifts, and a closed
      connection can come back, which stops the process.
    - Disk and node: requests are conserved and served in strict priority; a
      chunk asked for arrives, directly or forwarded; a request relayed behind
      the node's own is never answered.
    - Load shedding: the schedule terminates and balances, and every name that is
      not in memory is requested exactly once.
    - HashCache containers: the doubly linked list is a sequence and the chained
      table a finite map, whatever operations are run; [mix] is reversible.
    - HashCache index and log: the packed ranks stay a permutation, a new object
      takes the least recent way without a lock, allocations of a version never
      overlap, what [checkVersion] accepts was not overwritten (on one disk), a
      batch is read where it was written, and a stored object is found exactly
      while it is recent, current and written; what the [char] fields of an entry
      cannot hold is never found.
    - HashCache writing: batches are laid out as their tails say, flushed in place,
      with entries of their own; the loop ends and loses no block; a restart of
      the log inside a flush loses objects.
    - HashCache memory and disks: the hot object cache serves every sequence and
      keeps what is being read; the elevator loses no request and sends all of
      them; what it merges goes wrong.
    - HashCache and HTTP: the lexer returns, unless a header is folded; the head of
      a request is read as it was written, whatever pieces it comes in, down to
      the server, port and path; an entity of known length and a chunked one are
      handed on unchanged and are complete with their last byte, if the chunks
      are not cut at the wrong place; a response is served from the cache by a
      rule that is stated.  Some headers and chunk sizes make the proxy turn for
      ever.  The head of a request that the proxy sends on asks for the same as
      the one it received, and the head it writes to the log is read back, with
      the dates that [HcDate] describes.

    ** What is not modelled

    Sockets, the event loop of [main.c] and [WaproxMain], timers, traces and
    statistics are I/O; the helper processes for DNS and disk, and the HTTP
    header parser that chooses a target, are left out with them, as are writing
    the queued bytes to a socket ([Write]) and the puts in the background.  The
    branches that the Makefile does not compile (the full tree, chunk peeks,
    SCTP, integrity checks) are not modelled.  Of HashCache the handling of
    requests and responses over sockets and helpers (proxy.c, loop.c), the
    resolver and the pools of connections and buffers are not modelled: they move
    pointers between queues, descriptors and processes.  Of HTTP the error pages of
    the proxy and the lists that only serve to free blocks are left out; [mktime] depends on the time zone and is an argument.  The vendored Polygraph and the measurement
    tools of the repository are left out. *)

From Stdlib Require Import ZArith Lia.
From stdpp Require Import base list option numbers sorting.

#[global] Open Scope Z_scope.
#[export] Set Warnings "-clear-no-such-hyp".

(** ** Outcomes

    A C routine of waprox either returns, or stops the process: [assert] is
    compiled in (the Makefile leaves [-DNDEBUG] commented out), [NiceExit] and
    [EXIT_TRACE] terminate, and an access outside of an array is undefined.
    A routine that can stop is a computation in the [outcome] monad. *)

Inductive fault :=
  | AssertFailed
  | NiceExit
  | OutOfBounds
  | OutOfFuel.

Inductive outcome (A : Type) :=
  | Done (a : A)
  | Fault (f : fault).
Arguments Done {_} _.
Arguments Fault {_} _.

#[export] Instance fault_eq_dec : EqDecision fault.
Proof. solve_decision. Defined.

#[export] Instance outcome_ret : MRet outcome := @Done.
#[export] Instance outcome_bind : MBind outcome :=
  λ A B f m, match m with Done a => f a | Fault e => Fault e end.
#[export] Instance outcome_fmap : FMap outcome :=
  λ A B f m, match m with Done a => Done (f a) | Fault e => Fault e end.

(** [assert(b)]. *)
Definition c_assert (b : bool) : outcome unit :=
  if b then Done tt else Fault AssertFailed.

(** Reading and writing an array cell. *)
Definition get {A} (l : list A) (i : nat) : outcome A :=
  match l !! i with Some x => Done x | None => Fault OutOfBounds end.

Definition put {A} (l : list A) (i : nat) (x : A) : outcome (list A) :=
  if decide (i < length l)%nat then Done (<[i := x]> l) else Fault OutOfBounds.

Definition update {A} (l : list A) (i : nat) (f : A → A) : outcome (list A) :=
  x ← get l i; put l i (f x).

(** A [for] loop over a list of items, threading a state. *)
Fixpoint foldM {A S} (f : S → A → outcome S) (s : S) (l : list A) : outcome S :=
  match l with
  | [] => Done s
  | a :: l' => s' ← f s a; foldM f s' l'
  end.

Lemma bind_Done {A B} (m : outcome A) (f : A → outcome B) y :
  (m ≫= f) = Done y ↔ ∃ x, m = Done x ∧ f x = Done y.
Proof.
  destruct m as [a|e]; cbn; split.
  - intros H. by exists a.
  - by intros (x & [= ->] & H).
  - discriminate.
  - by intros (x & [=] & _).
Qed.

Lemma fmap_Done {A B} (m : outcome A) (f : A → B) y :
  (f <$> m) = Done y ↔ ∃ x, m = Done x ∧ y = f x.
Proof.
  destruct m as [a|e]; cbn; split.
  - intros [= <-]. by exists a.
  - by intros (x & [= ->] & ->).
  - discriminate.
  - by intros (x & [=] & _).
Qed.

Lemma c_assert_Done b u : c_assert b = Done u ↔ b = true.
Proof. by destruct b, u. Qed.

Lemma get_Done {A} (l : list A) i x : get l i = Done x ↔ l !! i = Some x.
Proof. unfold get. destruct (l !! i); split; congruence. Qed.

Lemma put_Done {A} (l : list A) i x l' :
  put l i x = Done l' ↔ (i < length l)%nat ∧ l' = <[i := x]> l.
Proof.
  unfold put. case_decide; split; [by intros [= <-]|by intros [_ ->]|done|].
  by intros [? _].
Qed.

Lemma update_Done {A} (l : list A) i f l' :
  update l i f = Done l' ↔ ∃ x, l !! i = Some x ∧ l' = <[i := f x]> l.
Proof.
  unfold update. rewrite bind_Done. split.
  - intros (x & Hx%get_Done & [_ ->]%put_Done). eauto.
  - intros (x & Hx & ->). exists x. rewrite get_Done, put_Done.
    eauto using lookup_lt_Some.
Qed.

Lemma get_insert_eq {A} (l : list A) i x y : l !! i = Some y → get (<[i := x]> l) i = Done x.
Proof. intros Hy. apply get_Done, list_lookup_insert_eq. by eapply lookup_lt_Some. Qed.
Lemma get_insert_ne {A} (l : list A) i j x : i ≠ j → get (<[i := x]> l) j = get l j.
Proof. intros Hne. unfold get. by rewrite list_lookup_insert_ne. Qed.

(** Turns a hypothesis that a computation returned into what each of its steps
    returned. *)
Ltac inv_done :=
  repeat match goal with
  | H : (_ ≫= _) = Done _ |- _ =>
      let x := fresh "x" in let Hx := fresh "H" in
      apply bind_Done in H as (x & Hx & H); cbn beta in H
  | H : (_ <$> _) = Done _ |- _ =>
      let x := fresh "x" in apply fmap_Done in H as (x & H & ?)
  | H : c_assert _ = Done _ |- _ => apply c_assert_Done in H
  | H : get _ _ = Done _ |- _ => apply get_Done in H
  | H : put _ _ _ = Done _ |- _ => apply put_Done in H as [? ?]
  | H : update _ _ _ = Done _ |- _ => apply update_Done in H as (? & ? & ?)
  | H : mret _ = Done _ |- _ => injection H as H
  | H : Done _ = Done _ |- _ => injection H as H
  | H : Fault _ = Done _ |- _ => discriminate H
  | H : andb _ _ = true |- _ => apply andb_prop in H as [? ?]
  | H : bool_decide _ = true |- _ => apply bool_decide_eq_true_1 in H
  | H : negb _ = true |- _ => apply negb_true_iff in H
  | H : unit |- _ => destruct H
  end.

Section foldM.
Context {A S : Type} (f : S → A → outcome S).

Lemma foldM_app s l1 l2 :
  foldM f s (l1 ++ l2) = (s' ← foldM f s l1; foldM f s' l2).
Proof.
  revert s. induction l1 as [|a l1 IH]; intros s; [done|]. cbn.
  destruct (f s a); cbn; [apply IH | done].
Qed.

(** Loop rule: an invariant over the processed prefix. *)
Lemma foldM_inv (P : list A → S → Prop) s l s' :
  P [] s →
  (∀ l1 a l2 s1 s2, l = l1 ++ a :: l2 → P l1 s1 → f s1 a = Done s2 →
     P (l1 ++ [a]) s2) →
  foldM f s l = Done s' → P l s'.
Proof.
  intros H0 Hstep. revert s' H0 Hstep. induction l as [|a l IH] using rev_ind;
    intros s' H0 Hstep Hf; [cbn in Hf; inv_done; by subst|].
  rewrite foldM_app in Hf. inv_done. cbn in Hf. inv_done. subst.
  eapply (Hstep l a []); [done| |eassumption].
  apply IH; [done| |done]. intros l1 b l2 s1 s2 -> HP Hs.
  eapply (Hstep l1 b (l2 ++ [a])); [by rewrite <-app_assoc|done|done].
Qed.

(** Total loop rule: the invariant also shows that the body returns. *)
Lemma foldM_total (P : list A → S → Prop) s l :
  P [] s →
  (∀ l1 a l2 s1, l = l1 ++ a :: l2 → P l1 s1 →
     ∃ s2, f s1 a = Done s2 ∧ P (l1 ++ [a]) s2) →
  ∃ s', foldM f s l = Done s' ∧ P l s'.
Proof.
  induction l as [|a l IH] using rev_ind; intros H0 Hstep; [by exists s|].
  destruct IH as (s1 & Hs1 & HP); [done| |].
  { intros l1 b l2 s1 -> HP. eapply (Hstep l1 b (l2 ++ [a])); [|done].
    by rewrite <-app_assoc. }
  destruct (Hstep l a [] s1) as (s2 & Hs2 & HP2); [done|done|].
  exists s2. rewrite foldM_app, Hs1. cbn. by rewrite Hs2.
Qed.
End foldM.

(** ** Machine integers

    [int], [unsigned int], [u_int64] and [u_char] values are elements of [Z];
    the wrap-around is written where the code computes. *)

Definition u8 (z : Z) : Z := z mod 2 ^ 8.
Definition u16 (z : Z) : Z := z mod 2 ^ 16.
Definition u32 (z : Z) : Z := z mod 2 ^ 32.
Definition u64 (z : Z) : Z := z mod 2 ^ 64.
(** Conversion of a 32-bit pattern to [int] (two's complement). *)
Definition i32 (z : Z) : Z := (z + 2 ^ 31) mod 2 ^ 32 - 2 ^ 31.
Definition i64 (z : Z) : Z := (z + 2 ^ 63) mod 2 ^ 64 - 2 ^ 63.
Definition i8 (z : Z) : Z := (z + 2 ^ 7) mod 2 ^ 8 - 2 ^ 7.

Lemma u8_range z : 0 ≤ u8 z < 2 ^ 8.
Proof. apply Z.mod_pos_bound. lia. Qed.
Lemma u16_range z : 0 ≤ u16 z < 2 ^ 16.
Proof. apply Z.mod_pos_bound. lia. Qed.
Lemma u32_range z : 0 ≤ u32 z < 2 ^ 32.
Proof. apply Z.mod_pos_bound. lia. Qed.
Lemma u64_range z : 0 ≤ u64 z < 2 ^ 64.
Proof. apply Z.mod_pos_bound. lia. Qed.
Lemma i32_range z : - 2 ^ 31 ≤ i32 z < 2 ^ 31.
Proof. unfold i32. pose proof (Z.mod_pos_bound (z + 2 ^ 31) (2 ^ 32)). lia. Qed.

Lemma u8_id z : 0 ≤ z < 2 ^ 8 → u8 z = z.
Proof. apply Z.mod_small. Qed.
Lemma u16_id z : 0 ≤ z < 2 ^ 16 → u16 z = z.
Proof. apply Z.mod_small. Qed.
Lemma u32_id z : 0 ≤ z < 2 ^ 32 → u32 z = z.
Proof. apply Z.mod_small. Qed.
Lemma u64_id z : 0 ≤ z < 2 ^ 64 → u64 z = z.
Proof. apply Z.mod_small. Qed.
Lemma i32_id z : - 2 ^ 31 ≤ z < 2 ^ 31 → i32 z = z.
Proof. intros. unfold i32. rewrite Z.mod_small; lia. Qed.
Lemma i64_id z : - 2 ^ 63 ≤ z < 2 ^ 63 → i64 z = z.
Proof. intros. unfold i64. rewrite Z.mod_small; lia. Qed.
Lemma i32_u32 z : i32 (u32 z) = i32 z.
Proof. unfold i32, u32. by rewrite Zplus_mod_idemp_l. Qed.

Create Rewrite HintDb wrap.
#[export] Hint Rewrite u8_id u16_id u32_id u64_id i32_id i64_id using lia : wrap.

(** A byte. *)
Definition is_byte (b : Z) : Prop := 0 ≤ b < 256.
#[export] Instance is_byte_dec b : Decision (is_byte b).
Proof. unfold is_byte. apply _. Defined.

(** ** Generic lemmas on lists *)

Definition sum_Z (l : list Z) : Z := foldr Z.add 0 l.

Lemma sum_Z_app l1 l2 : sum_Z (l1 ++ l2) = sum_Z l1 + sum_Z l2.
Proof. induction l1 as [|x l1 IH]; cbn; [done|]. unfold sum_Z in *. lia. Qed.

Lemma sum_Z_nonneg l : Forall (λ x, 0 ≤ x) l → 0 ≤ sum_Z l.
Proof. induction 1; cbn; [lia|]. unfold sum_Z in *. lia. Qed.

Lemma sum_Z_perm l1 l2 : l1 ≡ₚ l2 → sum_Z l1 = sum_Z l2.
Proof. induction 1; cbn; unfold sum_Z in *; lia. Qed.

Lemma sum_Z_insert l i x y :
  l !! i = Some x → sum_Z (<[i := y]> l) = sum_Z l - x + y.
Proof.
  intros Hi. rewrite <-(take_drop_middle l i x Hi) at 2.
  rewrite insert_take_drop by eauto using lookup_lt_Some.
  rewrite !sum_Z_app. cbn. unfold sum_Z. lia.
Qed.

Lemma drop_S_tail {A} (l : list A) n : drop (S n) l = tail (drop n l).
Proof. revert n. induction l as [|x l IH]; intros [|n]; [done..|]. apply IH. Qed.

Lemma lookup_fmap_seq {A} (f : nat → A) n i :
  (i < n)%nat → (f <$> seq 0 n) !! i = Some (f i).
Proof. intros Hi. by rewrite list_lookup_fmap, lookup_seq_lt. Qed.

(** ** Bits *)

(** [for (i = hi; i >= lo; i--)]: the values of [i], in the order of the loop. *)
Definition downto (hi lo : nat) : list nat := reverse (seq lo (S hi - lo)).

Lemma downto_S hi lo : (lo ≤ S hi)%nat → downto (S hi) lo = S hi :: downto hi lo.
Proof.
  intros. unfold downto. rewrite <-reverse_snoc. f_equal.
  replace (S (S hi) - lo)%nat with (S (S hi - lo)) by lia.
  rewrite seq_S. do 2 f_equal. lia.
Qed.

Lemma downto_lt hi lo : (hi < lo)%nat → downto hi lo = [].
Proof. intros. unfold downto. by replace (S hi - lo)%nat with 0%nat by lia. Qed.

(** [x & (1 << i)] as a test. *)
Lemma land_pow2_eqb x i :
  0 ≤ i → (Z.land x (Z.shiftl 1 i) =? 0) = negb (Z.testbit x i).
Proof.
  intros Hi. rewrite Z.shiftl_1_l. destruct (Z.testbit x i) eqn:E; cbn.
  - apply Z.eqb_neq. intros H0. apply (f_equal (λ z, Z.testbit z i)) in H0.
    rewrite Z.land_spec, Z.pow2_bits_true, E, Z.bits_0 in H0 by done. done.
  - apply Z.eqb_eq, Z.bits_inj'. intros n Hn.
    rewrite Z.land_spec, Z.pow2_bits_eqb, Z.bits_0 by done.
    destruct (Z.eqb_spec i n) as [<-|]; [by rewrite E|by rewrite andb_false_r].
Qed.

Lemma bits_lt x n :
  0 ≤ n → 0 ≤ x < 2 ^ n ↔ 0 ≤ x ∧ (∀ m, n ≤ m → Z.testbit x m = false).
Proof.
  intros Hn. split.
  - intros [Hx Hlt]. split; [done|]. intros m Hm.
    destruct (decide (x = 0)) as [->|]; [apply Z.bits_0|].
    apply Z.bits_above_log2; [done|].
    apply Z.log2_lt_pow2 in Hlt; lia.
  - intros [Hx Hb]. split; [done|].
    destruct (decide (x = 0)) as [->|]; [apply Z.pow_pos_nonneg; lia|].
    assert (0 < x) by lia. apply Z.log2_lt_pow2; [done|]. apply Z.lt_nge.
    intros Hge. specialize (Hb _ Hge). by rewrite Z.bit_log2 in Hb.
Qed.

Lemma lxor_range x y n :
  0 ≤ n → 0 ≤ x < 2 ^ n → 0 ≤ y < 2 ^ n → 0 ≤ Z.lxor x y < 2 ^ n.
Proof.
  intros Hn Hx Hy.
  apply bits_lt in Hx as [Hx0 Hx]; [|lia]. apply bits_lt in Hy as [Hy0 Hy]; [|lia].
  apply bits_lt; [done|]. split; [by apply Z.lxor_nonneg|].
  intros m Hm. by rewrite Z.lxor_spec, Hx, Hy.
Qed.

(** Cancelling the leading bit. *)
Lemma lxor_cancel_top x y n :
  0 ≤ n → 0 ≤ x < 2 ^ (n + 1) → 0 ≤ y < 2 ^ (n + 1) →
  Z.testbit x n = Z.testbit y n → 0 ≤ Z.lxor x y < 2 ^ n.
Proof.
  intros Hn Hx Hy Hb.
  apply bits_lt in Hx as [Hx0 Hx]; [|lia]. apply bits_lt in Hy as [Hy0 Hy]; [|lia].
  apply bits_lt; [done|]. split; [by apply Z.lxor_nonneg|].
  intros m Hm. rewrite Z.lxor_spec.
  destruct (decide (m = n)) as [->|]; [by rewrite Hb, xorb_nilpotent|].
  by rewrite Hx, Hy by lia.
Qed.

Lemma top_bit_false x n :
  0 ≤ n → 0 ≤ x < 2 ^ (n + 1) → Z.testbit x n = false → 0 ≤ x < 2 ^ n.
Proof.
  intros Hn Hx Hb. rewrite <-(Z.lxor_0_r x). apply lxor_cancel_top; [done|done| |].
  - pose proof (Z.pow_pos_nonneg 2 (n + 1)). lia.
  - by rewrite Z.bits_0.
Qed.

Lemma testbit_ge x n : 0 ≤ x → 0 ≤ n → Z.testbit x n = true → 2 ^ n ≤ x.
Proof.
  intros Hx Hn Hb. destruct (Z.lt_ge_cases x (2 ^ n)) as [Hlt|]; [|done].
  assert (0 ≤ x < 2 ^ n) as Hr by done. apply bits_lt in Hr as [_ Hr]; [|done].
  by rewrite Hr in Hb.
Qed.

Lemma testbit_u64 x n :
  0 ≤ n → Z.testbit (u64 x) n = (n <? 64) && Z.testbit x n.
Proof.
  intros. unfold u64. destruct (Z.ltb_spec n 64).
  - by rewrite Z.mod_pow2_bits_low.
  - by rewrite Z.mod_pow2_bits_high by lia.
Qed.

(** Equality of integers, bit by bit. *)
Ltac bitwise :=
  apply Z.bits_inj'; intros ?n ?Hn;
  repeat first
    [ rewrite Z.lxor_spec | rewrite Z.lor_spec | rewrite Z.land_spec
    | rewrite Z.bits_0 | rewrite testbit_u64 by lia
    | rewrite Z.shiftl_spec by lia | rewrite Z.shiftr_spec by lia ].

Lemma u64_lxor x y : u64 (Z.lxor x y) = Z.lxor (u64 x) (u64 y).
Proof.
  bitwise. by destruct (n <? 64), (Z.testbit x n), (Z.testbit y n).
Qed.

Lemma lxor_swap a b c d :
  Z.lxor (Z.lxor a b) (Z.lxor c d) = Z.lxor (Z.lxor a c) (Z.lxor b d).
Proof.
  bitwise. by destruct (Z.testbit a n), (Z.testbit b n), (Z.testbit c n), (Z.testbit d n).
Qed.

Lemma lxor_nilpotent_r x y : Z.lxor (Z.lxor x y) y = x.
Proof. by rewrite Z.lxor_assoc, Z.lxor_nilpotent, Z.lxor_0_r. Qed.

(** Array access with a C [int] index. *)
Definition get_at {A} (l : list A) (i : Z) : outcome A :=
  if i <? 0 then Fault OutOfBounds else get l (Z.to_nat i).

Lemma get_at_nat {A} (l : list A) (n : nat) : get_at l (Z.of_nat n) = get l n.
Proof.
  unfold get_at. rewrite (proj2 (Z.ltb_ge _ _)) by lia. by rewrite Nat2Z.id.
Qed.

Lemma StronglySorted_lookup_lt {A} (R : relation A) (l : list A) i j x y :
  StronglySorted R l → l !! i = Some x → l !! j = Some y → (i < j)%nat → R x y.
Proof.
  intros Hl. revert i j. induction Hl as [|a l Hl IH Ha]; intros i j Hi Hj Hlt; [done|].
  destruct j as [|j]; [lia|]. cbn in Hj. destruct i as [|i]; cbn in Hi.
  - injection Hi as <-. rewrite Forall_forall in Ha. by eapply Ha, list_elem_of_lookup_2.
  - apply (IH i j); [done|done|lia].
Qed.

Lemma StronglySorted_snoc {A} (R : relation A) (l : list A) x :
  StronglySorted R l → Forall (λ y, R y x) l → StronglySorted R (l ++ [x]).
Proof.
  induction 1 as [|a l Hl IH Ha]; intros Hx; cbn; [repeat constructor|].
  apply Forall_cons_1 in Hx as [Hax Hx]. constructor; [by apply IH|].
  apply Forall_app. split; [done|]. by constructor.
Qed.

Lemma StronglySorted_mono {A} (R S : relation A) (l : list A) :
  (∀ x y, R x y → S x y) → StronglySorted R l → StronglySorted S l.
Proof.
  intros HRS. induction 1 as [|a l Hl IH Ha]; constructor; [done|].
  eapply Forall_impl; [exact Ha|]. auto.
Qed.

Lemma elem_of_seq_iff i a n : i ∈ seq a n ↔ (a ≤ i < a + n)%nat.
Proof. rewrite elem_of_seq. lia. Qed.

Lemma length_omap_le {A B} (f : A → option B) (l : list A) : (length (omap f l) ≤ length l)%nat.
Proof.
  induction l as [|x l IH]; [done|]. cbn [omap list_omap length].
  change (length (omap f l) ≤ length l)%nat in IH. destruct (f x); cbn [length]; unfold omap in *; lia.
Qed.

Lemma omap_app_list {A B} (f : A → option B) (l1 l2 : list A) :
  omap f (l1 ++ l2) = omap f l1 ++ omap f l2.
Proof.
  induction l1 as [|x l1 IH]; [done|]. cbn. rewrite IH. by destruct (f x).
Qed.
