(* ===== verification/Bytes.v ===== *)
(** * Buffers, integers in memory, digests and times

    A C buffer is a list of bytes; reading or writing past its end is a fault.
    [be] and [le] are the bytes of an integer stored after [htonl]/[htons] and
    in the byte order of the machine (little-endian).  The file also models
    [CopyToMessage] and [CopyFromMessage] ([mrc_tree.c]) and the digest and
    time helpers of [util.c]. *)

From Stdlib Require Import ZArith Lia.
From stdpp Require Import base list option numbers.
From S2P Require Import Prelude.

(** ** Code outside of the repository

    [SHA1_LEN] comes from [czipdef.h], the digest from OpenSSL. *)

Class Digest := {
  SHA1_LEN : nat;
  Calc_SHA1Sig : list Z → list Z;
  digest_length : ∀ l, length (Calc_SHA1Sig l) = SHA1_LEN;
  digest_pos : (0 < SHA1_LEN)%nat
}.

(** ** Integers as bytes *)

Fixpoint be (n : nat) (v : Z) : list Z :=
  match n with
  | O => []
  | S n' => be n' (v / 256) ++ [v mod 256]
  end.
Definition un_be (l : list Z) : Z := foldl (λ a b, a * 256 + b) 0 l.

Definition le (n : nat) (v : Z) : list Z := reverse (be n v).
Definition un_le (l : list Z) : Z := un_be (reverse l).

Lemma length_be n v : length (be n v) = n.
Proof. revert v. induction n as [|n IH]; intros v; cbn; [done|]. rewrite length_app, IH. cbn. lia. Qed.

Lemma length_le n v : length (le n v) = n.
Proof. unfold le. by rewrite length_reverse, length_be. Qed.

Lemma be_bytes n v : Forall is_byte (be n v).
Proof.
  revert v. induction n as [|n IH]; intros v; cbn; [constructor|].
  apply Forall_app. split; [apply IH|]. repeat constructor; apply Z.mod_pos_bound; lia.
Qed.

Lemma un_be_snoc l b : un_be (l ++ [b]) = un_be l * 256 + b.
Proof. unfold un_be. by rewrite foldl_app. Qed.

Lemma un_be_be n v : 0 ≤ v < 256 ^ Z.of_nat n → un_be (be n v) = v.
Proof.
  revert v. induction n as [|n IH]; intros v Hv; cbn [be].
  - cbn in *. unfold un_be. cbn. lia.
  - rewrite un_be_snoc, IH.
    + pose proof (Z.div_mod v 256). lia.
    + replace (Z.of_nat (S n)) with (Z.of_nat n + 1) in Hv by lia.
      rewrite Z.pow_add_r in Hv by lia.
      split; [apply Z.div_pos; lia|]. apply Z.div_lt_upper_bound; lia.
Qed.

Lemma un_be_wrap n v : un_be (be n v) = v mod 256 ^ Z.of_nat n.
Proof.
  revert v. induction n as [|n IH]; intros v; cbn [be].
  - cbn. by rewrite Z.mod_1_r.
  - rewrite un_be_snoc, IH. replace (Z.of_nat (S n)) with (1 + Z.of_nat n) by lia.
    rewrite Z.pow_add_r, Z.pow_1_r by lia.
    rewrite Z.rem_mul_r by lia. lia.
Qed.

Lemma un_be_range l : Forall is_byte l → 0 ≤ un_be l < 256 ^ Z.of_nat (length l).
Proof.
  induction l as [|b l IH] using rev_ind; [done|].
  intros [Hl Hb]%Forall_app. apply Forall_cons_1 in Hb as [Hb _].
  rewrite un_be_snoc, length_app. cbn [length].
  replace (Z.of_nat (length l + 1)) with (Z.of_nat (length l) + 1) by lia.
  rewrite Z.pow_add_r by lia. specialize (IH Hl). unfold is_byte in Hb. lia.
Qed.

Lemma be_un_be l : Forall is_byte l → be (length l) (un_be l) = l.
Proof.
  induction l as [|b l IH] using rev_ind; [done|].
  intros [Hl Hb]%Forall_app. apply Forall_cons_1 in Hb as [Hb _].
  rewrite un_be_snoc, length_app, Nat.add_1_r. cbn [be]. unfold is_byte in Hb.
  rewrite Z.div_add_l, Z.div_small, Z.add_0_r, IH by (done || lia).
  by rewrite (Z.add_comm _ b), Z_mod_plus_full, Z.mod_small by lia.
Qed.

Lemma un_le_le n v : 0 ≤ v < 256 ^ Z.of_nat n → un_le (le n v) = v.
Proof. intros Hv. unfold un_le, le. rewrite reverse_involutive. by apply un_be_be. Qed.

(** A digest to evaluate at: the byte sum, in two bytes. *)
Definition toy_digest : Digest.
Proof.
  refine {| SHA1_LEN := 2; Calc_SHA1Sig := λ l, be 2 (Z.of_nat (length l) + 31 * sum_Z l) |}.
  - intros l. by rewrite length_be.
  - lia.
Defined.

(** ** Buffers *)

(** [memcpy] into a buffer. *)
Definition splice (buf : list Z) (off : nat) (bs : list Z) : list Z :=
  take off buf ++ bs ++ drop (off + length bs) buf.

Definition store (buf : list Z) (off : nat) (bs : list Z) : outcome (list Z) :=
  if (off + length bs <=? length buf)%nat then Done (splice buf off bs)
  else Fault OutOfBounds.

Definition slice (buf : list Z) (off n : nat) : list Z := take n (drop off buf).

Definition load (buf : list Z) (off n : nat) : outcome (list Z) :=
  if (off + n <=? length buf)%nat then Done (slice buf off n) else Fault OutOfBounds.

(** [malloc]: the contents are those of the memory before. *)
Definition malloc (mem : nat → Z) (n : nat) : list Z := mem <$> seq 0 n.

Definition load_u8 (buf : list Z) (off : nat) : outcome Z :=
  l ← load buf off 1; Done (un_be l).
Definition ntohs_at (buf : list Z) (off : nat) : outcome Z :=
  l ← load buf off 2; Done (un_be l).
Definition ntohl_at (buf : list Z) (off : nat) : outcome Z :=
  l ← load buf off 4; Done (un_be l).
Definition int_at (buf : list Z) (off : nat) : outcome Z :=
  l ← load buf off 4; Done (i32 (un_le l)).

Lemma length_splice buf off bs :
  (off + length bs ≤ length buf)%nat → length (splice buf off bs) = length buf.
Proof.
  intros H. unfold splice. rewrite !length_app, length_take, length_drop. lia.
Qed.

Lemma store_Done buf off bs :
  (off + length bs ≤ length buf)%nat → store buf off bs = Done (splice buf off bs).
Proof. intros H. unfold store. by apply Nat.leb_le in H as ->. Qed.

Lemma store_fails buf off bs :
  (length buf < off + length bs)%nat → store buf off bs = Fault OutOfBounds.
Proof. intros H. unfold store. by apply Nat.leb_gt in H as ->. Qed.

Lemma load_Done buf off n :
  (off + n ≤ length buf)%nat → load buf off n = Done (slice buf off n).
Proof. intros H. unfold load. by apply Nat.leb_le in H as ->. Qed.

Lemma length_slice buf off n : (off + n ≤ length buf)%nat → length (slice buf off n) = n.
Proof. intros H. unfold slice. rewrite length_take, length_drop. lia. Qed.

Lemma slice_splice_eq buf off bs n :
  (off + length bs ≤ length buf)%nat → n = length bs → slice (splice buf off bs) off n = bs.
Proof.
  intros H ->. unfold slice, splice.
  rewrite drop_app_length' by (rewrite length_take; lia). by rewrite take_app_length.
Qed.

(** Reading next to what was written. *)
Lemma slice_splice_lt buf off bs o n :
  (off + length bs ≤ length buf)%nat → (o + n ≤ off)%nat →
  slice (splice buf off bs) o n = slice buf o n.
Proof.
  intros H Hlt. unfold slice, splice. rewrite drop_app_le by (rewrite length_take; lia).
  rewrite take_app_le by (rewrite length_drop, length_take; lia).
  rewrite !take_drop_commute, take_take. do 2 f_equal. lia.
Qed.

Lemma slice_splice_ge buf off bs o n :
  (off + length bs ≤ length buf)%nat → (off + length bs ≤ o)%nat →
  slice (splice buf off bs) o n = slice buf o n.
Proof.
  intros H Hge. unfold slice, splice. rewrite app_assoc.
  rewrite drop_app_ge by (rewrite length_app, length_take; lia).
  rewrite drop_drop, length_app, length_take. do 2 f_equal. lia.
Qed.

Lemma slice_full buf n : n = length buf → slice buf 0 n = buf.
Proof. intros ->. unfold slice. by rewrite drop_0, firstn_all. Qed.

Lemma slice_app_l l1 l2 off n :
  (off + n ≤ length l1)%nat → slice (l1 ++ l2) off n = slice l1 off n.
Proof.
  intros H. unfold slice. rewrite drop_app_le by lia.
  by rewrite take_app_le by (rewrite length_drop; lia).
Qed.

Lemma slice_app_r l1 l2 off n :
  (length l1 ≤ off)%nat → slice (l1 ++ l2) off n = slice l2 (off - length l1) n.
Proof. intros H. unfold slice. by rewrite drop_app_ge by lia. Qed.

Lemma slice_0_length l n : n = length l → slice l 0 n = l.
Proof. apply slice_full. Qed.

Lemma slice_slice l o1 n1 o2 n2 :
  (o2 + n2 ≤ n1)%nat → slice (slice l o1 n1) o2 n2 = slice l (o1 + o2) n2.
Proof.
  intros H. unfold slice. rewrite (take_drop_commute _ n2 o2), take_take.
  replace ((o2 + n2) `min` n1)%nat with (o2 + n2)%nat by lia.
  by rewrite <-take_drop_commute, drop_drop.
Qed.

Lemma slice_split l off n m :
  slice l off (n + m) = slice l off n ++ slice l (off + n) m.
Proof.
  unfold slice. rewrite <-drop_drop.
  by rewrite take_take_drop.
Qed.

Lemma length_malloc mem n : length (malloc mem n) = n.
Proof. unfold malloc. by rewrite length_fmap, length_seq. Qed.

Create Rewrite HintDb mem.
#[export] Hint Rewrite length_be length_le length_malloc : mem.

(** Lengths of buffers under stores. *)
Ltac mem_len :=
  repeat (rewrite length_splice by mem_len);
  repeat rewrite ?length_be, ?length_le, ?length_malloc, ?length_app, ?length_cons,
    ?length_nil in *;
  cbn [length] in *; lia.

(** Evaluates a read of a buffer that was built by stores. *)
Ltac mem_read :=
  repeat first
    [ rewrite slice_splice_eq by mem_len
    | rewrite slice_splice_lt by mem_len
    | rewrite slice_splice_ge by mem_len ].

(** ** [CopyToMessage], [CopyFromMessage] *)

(** The buffer and its length so far. *)
Definition CopyToMessage (buffer : list Z) (buflen : nat) (msg : list Z)
    : outcome (list Z * nat) :=
  _ ← c_assert (0 <? length msg)%nat;
  buffer' ← store buffer buflen msg;
  Done (buffer', (buflen + length msg)%nat).

(** The bytes read and the next offset; lengths are C [int]s. *)
Definition CopyFromMessage (msglen : Z) (buffer : list Z) (offset : Z)
    : outcome (list Z * Z) :=
  _ ← c_assert (0 <=? offset);
  _ ← c_assert (0 <? msglen);
  bs ← load buffer (Z.to_nat offset) (Z.to_nat msglen);
  Done (bs, i32 (offset + msglen)).

Lemma CopyFromMessage_Done msglen buffer offset :
  0 ≤ offset → 0 < msglen → offset + msglen ≤ Z.of_nat (length buffer) →
  offset + msglen < 2 ^ 31 →
  CopyFromMessage msglen buffer offset =
    Done (slice buffer (Z.to_nat offset) (Z.to_nat msglen), offset + msglen).
Proof.
  intros Ho Hm Hb Hi. unfold CopyFromMessage.
  replace (0 <=? offset) with true by (symmetry; apply Z.leb_le; lia).
  replace (0 <? msglen) with true by (symmetry; apply Z.ltb_lt; lia).
  cbn [c_assert mbind outcome_bind]. rewrite load_Done by lia.
  cbn [mbind outcome_bind]. by rewrite i32_id by lia.
Qed.
