(* ===== verification/Rabin.v ===== *)
(** * Rabin fingerprints and content-defined chunking

    Models [src/waprox/rabinfinger2.c]: polynomials over GF(2) as 64-bit
    integers, the two tables of [InitializeRabin], the sliding window of
    [ConcatByte] and the boundary scan of [GetRabinChunkSizeEx].  The
    theorems show that [GetFingerprint] is reduction modulo the polynomial,
    that the rolling fingerprint depends on the last [region_size] bytes only,
    and that the scan finds exactly the positions whose window matches. *)

From Stdlib Require Import ZArith Lia.
From stdpp Require Import base list option numbers sorting.
From S2P Require Import Prelude.

(** ** Polynomial arithmetic *)

Definition MSB64 : Z := 0x8000000000000000.
Definition IRREDUCIBLE_POLY : Z := 0x946d1d8dcfee41e5.

Definition chunk_sizes : list Z :=
  [32; 64; 128; 256; 512; 1024; 2*1024; 4*1024; 8*1024; 16*1024; 32*1024;
   64*1024; 128*1024].
Definition masks : list Z :=
  [32-1; 64-1; 128-1; 256-1; 512-1; 1024-1; 2*1024-1; 4*1024-1; 8*1024-1;
   16*1024-1; 32*1024-1; 64*1024-1; 128*1024-1].

Fixpoint GetDegree_loop (k : nat) (poly : Z) : nat :=
  match k with
  | O => O
  | S k' =>
      if Z.land poly (Z.shiftl 1 (Z.of_nat k)) =? 0
      then GetDegree_loop k' poly else k
  end.
Definition GetDegree (poly : Z) : nat := GetDegree_loop 63 poly.

(** The body of the loop over the bits of [h]. *)
Definition fold_high (poly : Z) (hl : Z * Z) (i : nat) : Z * Z :=
  if Z.land hl.1 (Z.shiftl 1 (Z.of_nat i)) =? 0 then hl
  else (Z.lxor hl.1 (Z.shiftr poly (63 - Z.of_nat i)),
        Z.lxor hl.2 (u64 (Z.shiftl poly (Z.of_nat i + 1)))).

(** The body of the loop over the bits of [l]. *)
Definition fold_low (poly : Z) (l : Z) (i : nat) : Z :=
  if Z.land l (Z.shiftl 1 (Z.of_nat i)) =? 0 then l
  else Z.lxor l (Z.shiftr poly (63 - Z.of_nat i)).

Definition GetFingerprint (h l poly : Z) : Z :=
  let k := GetDegree poly in
  let poly := u64 (Z.shiftl poly (63 - Z.of_nat k)) in
  let '(_, l) :=
    if h =? 0 then (h, l) else
      let h := if Z.land h MSB64 =? 0 then h else Z.lxor h poly in
      foldl (fold_high poly) (h, l) (downto 62 0) in
  foldl (fold_low poly) l (downto 63 k).

Definition MultiplyPoly (x y : Z) : Z * Z :=
  let il := if Z.land x 1 =? 0 then 0 else y in
  foldl (λ hl i,
    if Z.land x (Z.shiftl 1 (Z.of_nat i)) =? 0 then hl
    else (Z.lxor hl.1 (Z.shiftr y (64 - Z.of_nat i)),
          Z.lxor hl.2 (u64 (Z.shiftl y (Z.of_nat i)))))
    (0, il) (downto 63 1).

(** ** Rabin state *)

Record RABINPOLY := {
  moduloT : list Z;
  regionT : list Z;
  region_buf : list Z;
  region_size : nat;
  region_pos : nat;
  shift : Z;
  ir_poly : Z
}.

Record RabinCtx := {
  rp : RABINPOLY;
  mask : Z;
  finger : Z;
  bsize : Z;
  min_size : nat;
  max_size : Z
}.

Record RabinBoundary := { offset : Z; bfinger : Z }.

Definition ConcatByte (rp : RABINPOLY) (finger b : Z) : outcome (RABINPOLY * Z) :=
  old ← get (region_buf rp) (region_pos rp);
  r ← get (regionT rp) (Z.to_nat old);
  let finger := Z.lxor finger r in
  buf ← put (region_buf rp) (region_pos rp) b;
  let rp' := {| moduloT := moduloT rp; regionT := regionT rp; region_buf := buf;
                region_size := region_size rp;
                region_pos := (S (region_pos rp) `mod` region_size rp)%nat;
                shift := shift rp; ir_poly := ir_poly rp |} in
  m ← get (moduloT rp) (Z.to_nat (Z.shiftr finger (shift rp)));
  Done (rp', Z.lxor (Z.lor (u64 (Z.shiftl finger 8)) b) m).

Definition ZeroRegionBuf (rp : RABINPOLY) : RABINPOLY :=
  {| moduloT := moduloT rp; regionT := regionT rp;
     region_buf := replicate 256 0; region_size := region_size rp;
     region_pos := region_pos rp; shift := shift rp; ir_poly := ir_poly rp |}.

(** The tables that [InitializeRabin] computes for the degree [k]. *)
Definition modulo_entry (poly T : Z) (k : nat) (i : nat) : Z :=
  let '(h, l) := MultiplyPoly (Z.of_nat i) T in
  Z.lor (GetFingerprint h l poly) (u64 (Z.shiftl (Z.of_nat i) (Z.of_nat k))).

Definition region_entry (poly sizeshift : Z) (i : nat) : Z :=
  let '(h, l) := MultiplyPoly (Z.of_nat i) sizeshift in
  GetFingerprint h l poly.

(** One turn of the loop that computes [sizeshift]. *)
Definition sizeshift_step (moduloT : list Z) (shift : Z) (s : Z) : outcome Z :=
  m ← get moduloT (Z.to_nat (Z.shiftr s shift));
  Done (Z.lxor (u64 (Z.shiftl s 8)) m).

Definition InitializeRabin (rp : RABINPOLY) (size : nat) : outcome RABINPOLY :=
  if negb (ir_poly rp =? 0) then Done rp else
  let poly := IRREDUCIBLE_POLY in
  let k := GetDegree poly in
  let shift := Z.of_nat k - 8 in
  let T := GetFingerprint 0 (Z.shiftl 1 63) poly in
  let moduloT := modulo_entry poly T k <$> seq 0 256 in
  sizeshift ← foldM (λ s _, sizeshift_step moduloT shift s) 1 (seq 1 (size - 1));
  Done {| moduloT := moduloT;
          regionT := region_entry poly sizeshift <$> seq 0 256;
          region_buf := region_buf rp; region_size := size; region_pos := 0;
          shift := shift; ir_poly := poly |}.

(** The index of the bracket of [chunk_sizes] a block size falls into; the C
    code stops the process ([EXIT_TRACE]) when there is none. *)
Fixpoint bracket (sizes : list Z) (b_size : Z) (i : nat) : outcome nat :=
  match sizes with
  | lo :: ((hi :: _) as rest) =>
      if (lo <=? b_size) && (b_size <? hi) then Done i else bracket rest b_size (S i)
  | _ => Fault NiceExit
  end.

Definition GetMRCIndex (b_size : Z) : outcome nat := bracket chunk_sizes b_size 0.
Definition GetNormalizedSize (b_size : Z) : outcome Z :=
  i ← bracket chunk_sizes b_size 0; get chunk_sizes i.
Definition GetMRCMask (b_size : Z) : outcome Z :=
  i ← GetMRCIndex b_size; get masks i.

Definition InitRabinCtx (rctx : RabinCtx) (bsz : Z) (window min : nat) (max : Z)
    : outcome RabinCtx :=
  n ← GetNormalizedSize bsz;
  let rp0 := {| moduloT := moduloT (rp rctx); regionT := regionT (rp rctx);
                region_buf := region_buf (rp rctx);
                region_size := region_size (rp rctx);
                region_pos := region_pos (rp rctx);
                shift := shift (rp rctx); ir_poly := 0 |} in
  rp' ← InitializeRabin rp0 window;
  Done {| rp := rp'; mask := u32 (n - 1); finger := 0; bsize := n;
          min_size := min; max_size := max |}.

(** ** The boundary scan

    [cap] is the number of cells of the caller's [outBoundaries] array; a
    store past its end is out of bounds.  The loop state is the Rabin state,
    the fingerprint and the boundaries stored so far. *)

Definition matches (m f : Z) : bool := Z.land f m =? m.

Definition store_boundary (cap : nat) (bs : list RabinBoundary) (b : RabinBoundary)
    : outcome (list RabinBoundary) :=
  if (length bs <? cap)%nat then Done (bs ++ [b]) else Fault OutOfBounds.

Fixpoint scan (cap : nat) (min_mask max_mask srclen : Z) (rp : RABINPOLY) (f : Z)
    (bs : list RabinBoundary) (p : Z) (src : list Z)
    : outcome (RABINPOLY * Z * list RabinBoundary) :=
  match src with
  | [] => Done (rp, f, bs)
  | b :: src' =>
      '(rp, f) ← ConcatByte rp f b;
      bs ← (if matches min_mask f
            then store_boundary cap bs {| offset := p + 1; bfinger := f |}
            else Done bs);
      if negb (max_mask =? 0) && matches max_mask f then
        _ ← c_assert (matches min_mask f);
        _ ← c_assert (p + 1 <=? srclen);
        last ← get bs (length bs - 1);
        _ ← c_assert (offset last =? p + 1);
        Done (rp, f, bs)
      else scan cap min_mask max_mask srclen rp f bs (p + 1) src'
  end.

Definition set_rp (rctx : RabinCtx) (rp' : RABINPOLY) (f : Z) : RabinCtx :=
  {| rp := rp'; mask := mask rctx; finger := f; bsize := bsize rctx;
     min_size := min_size rctx; max_size := max_size rctx |}.

(** Returns the context, the boundaries and the size of the chunk. *)
Definition GetRabinChunkSizeEx (cap : nat) (rctx : RabinCtx) (src : list Z)
    (srclen : Z) (min_mask max_mask : Z) (resetRegionBuffer : bool)
    : outcome (RabinCtx * list RabinBoundary * Z) :=
  let rctx := if resetRegionBuffer
              then set_rp rctx (ZeroRegionBuf (rp rctx)) 0 else rctx in
  let srclen := Z.min srclen (max_size rctx) in
  let bytes := drop (min_size rctx) (take (Z.to_nat srclen) src) in
  '(rp', f, bs) ← scan cap min_mask max_mask srclen (rp rctx) (finger rctx) []
                    (Z.of_nat (min_size rctx)) bytes;
  bs ← (if decide (bs = [])
        then store_boundary cap bs {| offset := srclen; bfinger := f |}
        else Done bs);
  last ← get bs (length bs - 1);
  Done (set_rp rctx rp' f, bs, offset last).

(** ** Congruence modulo a polynomial

    [gf2_cong p a b]: [b] is obtained from [a] by adding multiples of [p] in
    GF(2)[x], the integer's bits being the coefficients. *)

Inductive gf2_cong (p a : Z) : Z → Prop :=
  | cong_refl : gf2_cong p a a
  | cong_step b n : 0 ≤ n → gf2_cong p a b → gf2_cong p a (Z.lxor b (Z.shiftl p n)).

Section congruence.
Context (p : Z).

Lemma cong_trans a b c : gf2_cong p a b → gf2_cong p b c → gf2_cong p a c.
Proof. intros Hab. induction 1 as [|d n Hn _ IH]; [done|]. by apply cong_step. Qed.

Lemma cong_add a b c : gf2_cong p a b → gf2_cong p (Z.lxor a c) (Z.lxor b c).
Proof.
  induction 1 as [|b n Hn _ IH]; [constructor|].
  rewrite (Z.lxor_assoc b), (Z.lxor_comm (p ≪ n)), <-Z.lxor_assoc. by apply cong_step.
Qed.

Lemma cong_lxor a b c d :
  gf2_cong p a b → gf2_cong p c d → gf2_cong p (Z.lxor a c) (Z.lxor b d).
Proof.
  intros Hab Hcd. eapply cong_trans; [by apply cong_add|].
  rewrite !(Z.lxor_comm b). by apply cong_add.
Qed.

Lemma cong_shiftl a b n :
  0 ≤ n → gf2_cong p a b → gf2_cong p (Z.shiftl a n) (Z.shiftl b n).
Proof.
  intros Hn. induction 1 as [|b m Hm _ IH]; [constructor|].
  rewrite Z.shiftl_lxor, Z.shiftl_shiftl by done. apply cong_step; [lia|done].
Qed.

Lemma cong_sym a b : gf2_cong p a b → gf2_cong p b a.
Proof.
  induction 1 as [|b n Hn _ IH]; [constructor|].
  eapply cong_trans; [|exact IH].
  rewrite <-(lxor_nilpotent_r b (Z.shiftl p n)) at 2.
  apply cong_step; [done|constructor].
Qed.

#[global] Instance gf2_cong_equiv : Equivalence (gf2_cong p).
Proof.
  split; [exact (cong_refl p) | exact cong_sym | exact cong_trans].
Qed.

#[global] Instance lxor_proper :
  Proper (gf2_cong p ==> gf2_cong p ==> gf2_cong p) Z.lxor.
Proof. intros a b Hab c d Hcd. by apply cong_lxor. Qed.
End congruence.

(** ** Degree and reduction *)

Lemma GetDegree_loop_spec k p :
  0 < p < 2 ^ (Z.of_nat k + 1) →
  let d := GetDegree_loop k p in
  (d ≤ k)%nat ∧ p < 2 ^ (Z.of_nat d + 1) ∧ Z.testbit p (Z.of_nat d) = true.
Proof.
  induction k as [|k IH]; intros [Hp0 Hp].
  - cbn in *. assert (p = 1) as -> by lia. by split_and!.
  - cbn [GetDegree_loop]. rewrite land_pow2_eqb by lia.
    destruct (Z.testbit p (Z.of_nat (S k))) eqn:E; cbn -[Z.of_nat Z.pow]; [by auto|].
    destruct (top_bit_false p (Z.of_nat (S k))); [lia|lia|done|].
    replace (Z.of_nat (S k)) with (Z.of_nat k + 1) in * by lia. destruct IH as (H1 & H2 & H3); [lia|]. auto with lia.
Qed.

(** What the reductions need of the shifted polynomial. *)
Definition monic64 (q : Z) : Prop := 0 ≤ q < 2 ^ 64 ∧ Z.testbit q 63 = true.

Lemma shifted_monic poly :
  0 < poly < 2 ^ 64 →
  let k := Z.of_nat (GetDegree poly) in
  0 ≤ k ≤ 63 ∧ u64 (Z.shiftl poly (63 - k)) = Z.shiftl poly (63 - k) ∧
  monic64 (Z.shiftl poly (63 - k)).
Proof.
  intros Hp. destruct (GetDegree_loop_spec 63 poly Hp) as (Hk & Hlt & Hb).
  fold (GetDegree poly) in *. intros k. subst k.
  set (k := Z.of_nat (GetDegree poly)) in *.
  assert (0 ≤ Z.shiftl poly (63 - k) < 2 ^ 64) as Hr.
  { rewrite Z.shiftl_mul_pow2 by lia.
    replace (2 ^ 64) with (2 ^ (k + 1) * 2 ^ (63 - k))
      by (rewrite <-Z.pow_add_r by lia; f_equal; lia). nia. }
  split_and!; [lia|lia|by apply u64_id|]. split; [done|].
  rewrite Z.shiftl_spec by lia. by replace (63 - (63 - k)) with k by lia.
Qed.

(** A 64-bit polynomial shifted left, as the two words of the C code. *)
Lemma shiftl_words y i :
  0 ≤ y < 2 ^ 64 → 0 ≤ i ≤ 64 →
  Z.shiftl y i = Z.lxor (Z.shiftl (Z.shiftr y (64 - i)) 64) (u64 (Z.shiftl y i)).
Proof.
  intros Hr Hi. apply bits_lt in Hr as [_ Hr]; [|lia]. bitwise.
  destruct (Z.ltb_spec n 64) as [Hlt|Hge]; cbn.
  - by rewrite (Z.testbit_neg_r _ (n - 64)), xorb_false_l by lia.
  - rewrite xorb_false_r, Z.shiftr_spec by lia. f_equal. lia.
Qed.

Definition value (hl : Z * Z) : Z := Z.lxor (Z.shiftl hl.1 64) hl.2.

Section reduction.
Context (q : Z) (Hq : monic64 q).

Lemma shiftr_top i :
  0 ≤ i ≤ 63 → 0 ≤ Z.shiftr q (63 - i) < 2 ^ (i + 1) ∧
               Z.testbit (Z.shiftr q (63 - i)) i = true.
Proof.
  destruct Hq as [[Hq0 Hq1] Hb]. intros Hi. split; [split|].
  - by apply Z.shiftr_nonneg.
  - rewrite Z.shiftr_div_pow2 by lia. apply Z.div_lt_upper_bound; [lia|].
    rewrite <-Z.pow_add_r by lia. by replace (63 - i + (i + 1)) with 64 by lia.
  - rewrite Z.shiftr_spec by lia. by replace (i + (63 - i)) with 63 by lia.
Qed.

(** Clearing bit [i] of a value below [2^(i+1)]. *)
Lemma clear_bit x i :
  0 ≤ i ≤ 63 → 0 ≤ x < 2 ^ (i + 1) →
  let x' := if Z.land x (Z.shiftl 1 i) =? 0 then x else Z.lxor x (Z.shiftr q (63 - i)) in
  0 ≤ x' < 2 ^ i.
Proof.
  intros Hi Hx. destruct (shiftr_top i Hi) as [Hr Hb].
  rewrite land_pow2_eqb by lia. cbn. destruct (Z.testbit x i) eqn:E; cbn.
  - apply lxor_cancel_top; [lia|done|done|congruence].
  - by apply top_bit_false; [lia|..].
Qed.

Lemma fold_high_step p n hl i :
  q = Z.shiftl p n → 0 ≤ n → (i ≤ 62)%nat →
  0 ≤ hl.1 < 2 ^ (Z.of_nat i + 1) → 0 ≤ hl.2 < 2 ^ 64 →
  let hl' := fold_high q hl i in
  0 ≤ hl'.1 < 2 ^ Z.of_nat i ∧ 0 ≤ hl'.2 < 2 ^ 64 ∧
  gf2_cong p (value hl) (value hl').
Proof.
  intros Hpq Hn Hi Hh Hl. pose proof (clear_bit hl.1 (Z.of_nat i)) as Hc.
  cbn in Hc. unfold fold_high. cbn.
  destruct (_ =? 0) in Hc |- *; [split_and!; [apply Hc; lia..|lia|lia|constructor]|].
  cbn. split_and!; [apply Hc; lia..| | |].
  1,2: apply (lxor_range _ _ 64); [done..|apply u64_range].
  unfold value. cbn. destruct Hq as [Hr _].
  replace (63 - Z.of_nat i) with (64 - (Z.of_nat i + 1)) by lia.
  rewrite Z.shiftl_lxor, lxor_swap, <-shiftl_words by (done || lia).
  rewrite Hpq, Z.shiftl_shiftl by done. apply cong_step; [lia|constructor].
Qed.

Lemma fold_high_correct p n m hl :
  q = Z.shiftl p n → 0 ≤ n → (m ≤ 62)%nat →
  0 ≤ hl.1 < 2 ^ (Z.of_nat m + 1) → 0 ≤ hl.2 < 2 ^ 64 →
  let hl' := foldl (fold_high q) hl (downto m 0) in
  hl'.1 = 0 ∧ 0 ≤ hl'.2 < 2 ^ 64 ∧ gf2_cong p (value hl) (value hl').
Proof.
  intros Hpq Hn. revert hl. induction m as [|m IH]; intros hl Hm Hh Hl.
  - destruct (fold_high_step p n hl 0) as (H1 & H2 & H3); [done|done|lia|done|done|].
    cbn. cbn in H1. split_and!; [lia|lia|lia|done].
  - rewrite downto_S by lia. cbn [foldl].
    destruct (fold_high_step p n hl (S m)) as (H1 & H2 & H3); [done|done|lia|done|done|].
    destruct (IH (fold_high q hl (S m))) as (H4 & H5 & H6); [lia| |done|].
    { by replace (Z.of_nat m + 1) with (Z.of_nat (S m)) by lia. }
    split_and!; [done|lia|lia|]. by eapply cong_trans.
Qed.

Lemma fold_low_correct p k m l :
  q = Z.shiftl p (63 - Z.of_nat k) → (k ≤ S m)%nat → (m ≤ 63)%nat →
  0 ≤ l < 2 ^ (Z.of_nat m + 1) →
  let l' := foldl (fold_low q) l (downto m k) in
  0 ≤ l' < 2 ^ Z.of_nat k ∧ gf2_cong p l l'.
Proof.
  intros Hpq. revert l. induction m as [|m IH]; intros l Hk Hm Hl.
  - destruct k as [|[|k]]; [|by cbn|lia]. cbn. pose proof (clear_bit l 0) as Hc.
    split; [apply Hc; lia|]. unfold fold_low. cbn.
    destruct (_ =? 0); [constructor|]. rewrite Hpq, Z.shiftr_shiftl_l by lia.
    apply cong_step; [lia|constructor].
  - destruct (decide (k = S (S m))) as [->|Hne].
    { rewrite downto_lt by lia. cbn. split; [|constructor].
      by replace (Z.of_nat (S (S m))) with (Z.of_nat (S m) + 1) by lia. }
    rewrite downto_S by lia. cbn [foldl].
    pose proof (clear_bit l (Z.of_nat (S m))) as Hc. cbn zeta in Hc.
    assert (0 ≤ fold_low q l (S m) < 2 ^ Z.of_nat (S m)) as Hf by (apply Hc; lia).
    destruct (IH (fold_low q l (S m))) as [H1 H2]; [lia|lia| |].
    { by replace (Z.of_nat m + 1) with (Z.of_nat (S m)) by lia. }
    split; [done|]. eapply cong_trans; [|exact H2]. unfold fold_low.
    destruct (_ =? 0); [constructor|]. rewrite Hpq, Z.shiftr_shiftl_l by lia.
    apply cong_step; [lia|constructor].
Qed.
End reduction.

(** Carry-less multiplication by a list of coefficients, lowest first. *)
Fixpoint gf2_mul (p : Z) (cs : list bool) : Z :=
  match cs with
  | [] => 0
  | c :: cs' => Z.lxor (if c then p else 0) (Z.shiftl (gf2_mul p cs') 1)
  end.

Fixpoint toggle (n : nat) (cs : list bool) : list bool :=
  match n, cs with
  | O, [] => [true]
  | O, c :: cs' => negb c :: cs'
  | S n', [] => false :: toggle n' []
  | S n', c :: cs' => c :: toggle n' cs'
  end.

Lemma gf2_mul_toggle p n cs :
  gf2_mul p (toggle n cs) = Z.lxor (gf2_mul p cs) (Z.shiftl p (Z.of_nat n)).
Proof.
  revert cs. induction n as [|n IH]; intros [|c cs]; cbn [toggle gf2_mul].
  - by rewrite Z.shiftl_0_r, Z.lxor_0_l, Z.shiftl_0_l, Z.lxor_0_r.
  - rewrite Z.shiftl_0_r. destruct c; cbn [negb].
    + by rewrite (Z.lxor_comm p), lxor_nilpotent_r, Z.lxor_0_l.
    + by rewrite Z.lxor_0_l, Z.lxor_comm.
  - rewrite IH. cbn. rewrite !Z.lxor_0_l, Z.shiftl_shiftl by lia. f_equal. lia.
  - rewrite IH, Z.shiftl_lxor, Z.shiftl_shiftl, Z.lxor_assoc by lia.
    do 3 f_equal. lia.
Qed.

Lemma gf2_cong_mul p a b : gf2_cong p a b → ∃ cs, Z.lxor a b = gf2_mul p cs.
Proof.
  induction 1 as [|b n Hn _ [cs IH]]; [exists []; by rewrite Z.lxor_nilpotent|].
  exists (toggle (Z.to_nat n) cs).
  by rewrite gf2_mul_toggle, <-IH, Z2Nat.id, Z.lxor_assoc.
Qed.

Lemma gf2_mul_nonneg p cs : 0 ≤ p → 0 ≤ gf2_mul p cs.
Proof.
  intros Hp. induction cs as [|c cs IH]; cbn; [done|].
  apply Z.lxor_nonneg. rewrite Z.shiftl_nonneg. destruct c; lia.
Qed.

(** A multiple of a polynomial of degree [d] is zero or has degree at least [d]. *)
Lemma gf2_mul_degree p d cs :
  0 ≤ d → 2 ^ d ≤ p < 2 ^ (d + 1) → gf2_mul p cs = 0 ∨ 2 ^ d ≤ gf2_mul p cs.
Proof.
  intros Hd Hp. induction cs as [|c cs [IH|IH]]; cbn; [by left| |].
  - rewrite IH, Z.shiftl_0_l, Z.lxor_0_r. destruct c; [right; lia|by left].
  - right. pose proof (gf2_mul_nonneg p cs) as Hnn. set (x := gf2_mul p cs) in *.
    assert (0 < 2 ^ d) by (apply Z.pow_pos_nonneg; lia).
    assert (d ≤ Z.log2 x) as Hlog by (apply Z.log2_le_pow2; lia).
    assert (2 ^ (Z.log2 x + 1) ≤ Z.lxor (if c then p else 0) (Z.shiftl x 1)) as Hge.
    { apply testbit_ge; [apply Z.lxor_nonneg; rewrite Z.shiftl_nonneg; destruct c; lia|lia|].
      rewrite Z.lxor_spec, Z.shiftl_spec by lia.
      replace (Z.log2 x + 1 - 1) with (Z.log2 x) by lia. rewrite Z.bit_log2 by lia.
      assert (0 ≤ (if c then p else 0) < 2 ^ (d + 1)) as Hc by (destruct c; lia).
      apply bits_lt in Hc as [_ Hc]; [|lia]. by rewrite Hc by lia. }
    etransitivity; [|exact Hge]. apply Z.pow_le_mono_r; lia.
Qed.

(** Residues below the degree are canonical. *)
Lemma gf2_cong_unique p d a b :
  0 ≤ d → 2 ^ d ≤ p < 2 ^ (d + 1) → 0 ≤ a < 2 ^ d → 0 ≤ b < 2 ^ d →
  gf2_cong p a b → a = b.
Proof.
  intros Hd Hp Ha Hb [cs Hcs]%gf2_cong_mul. apply Z.lxor_eq. rewrite Hcs.
  destruct (gf2_mul_degree p d cs) as [?|?]; [done|done|done|].
  pose proof (lxor_range a b d). lia.
Qed.

(** [GetFingerprint] is reduction of a 128-bit polynomial. *)
Lemma GetFingerprint_reduces h l poly :
  0 ≤ h < 2 ^ 64 → 0 ≤ l < 2 ^ 64 → 0 < poly < 2 ^ 64 →
  0 ≤ GetFingerprint h l poly < 2 ^ Z.of_nat (GetDegree poly) ∧
  gf2_cong poly (Z.lxor (Z.shiftl h 64) l) (GetFingerprint h l poly).
Proof.
  intros Hh Hl Hp. pose proof (shifted_monic poly Hp) as (Hk & Hsh & Hmon).
  unfold GetFingerprint. set (k := GetDegree poly) in *. rewrite Hsh.
  set (q := Z.shiftl poly (63 - Z.of_nat k)) in *.
  assert (∀ l1, 0 ≤ l1 < 2 ^ 64 → gf2_cong poly (Z.lxor (Z.shiftl h 64) l) l1 →
    0 ≤ foldl (fold_low q) l1 (downto 63 k) < 2 ^ Z.of_nat k ∧
    gf2_cong poly (Z.lxor (Z.shiftl h 64) l) (foldl (fold_low q) l1 (downto 63 k)))
    as Hlow.
  { intros l1 Hl1 Hc.
    destruct (fold_low_correct q Hmon poly k 63 l1) as [H1 H2]; [done|lia|lia|done|].
    split; [done|]. by eapply cong_trans. }
  destruct (Z.eqb_spec h 0) as [->|Hne].
  { apply Hlow; [done|]. rewrite Z.shiftl_0_l, Z.lxor_0_l. constructor. }
  set (h1 := if Z.land h MSB64 =? 0 then h else Z.lxor h q).
  assert (0 ≤ h1 < 2 ^ 63 ∧ gf2_cong poly (Z.lxor (Z.shiftl h 64) l) (value (h1, l)))
    as [Hh1 Hc1].
  { pose proof (clear_bit q Hmon h 63) as Hc. cbn zeta in Hc.
    rewrite Z.sub_diag, Z.shiftr_0_r in Hc. subst h1. change MSB64 with (Z.shiftl 1 63).
    split; [apply Hc; lia|]. unfold value. cbn -[Z.shiftl].
    destruct (_ =? 0); [constructor|].
    rewrite Z.shiftl_lxor, Z.lxor_assoc, (Z.lxor_comm (Z.shiftl q 64)), <-Z.lxor_assoc.
    unfold q. rewrite Z.shiftl_shiftl by lia. apply cong_step; [lia|constructor]. }
  destruct (fold_high_correct q Hmon poly (63 - Z.of_nat k) 62 (h1, l))
    as (H1 & H2 & H3); [done|lia|lia|done|done|].
  destruct (foldl (fold_high q) (h1, l) (downto 62 0)) as [h2 l2]. cbn in H1, H2. subst h2.
  apply Hlow; [done|]. eapply cong_trans; [exact Hc1|]. by unfold value in H3.
Qed.

(** ** Multiplication *)

Definition bits (x : Z) (n : nat) : list bool :=
  (λ i, Z.testbit x (Z.of_nat i)) <$> seq 0 n.

Lemma bits_S x n : bits x (S n) = bits x n ++ [Z.testbit x (Z.of_nat n)].
Proof. unfold bits. by rewrite seq_S, fmap_app. Qed.

Lemma length_bits x n : length (bits x n) = n.
Proof. unfold bits. by rewrite length_fmap, length_seq. Qed.

Lemma gf2_mul_snoc y cs c :
  gf2_mul y (cs ++ [c]) =
    Z.lxor (gf2_mul y cs) (if c then Z.shiftl y (Z.of_nat (length cs)) else 0).
Proof.
  induction cs as [|d cs IH]; cbn [app gf2_mul length].
  - rewrite Z.shiftl_0_l, Z.lxor_0_r, Z.lxor_0_l. cbn. by rewrite Z.shiftl_0_r.
  - rewrite IH, Z.shiftl_lxor, Z.lxor_assoc. do 2 f_equal.
    destruct c; [|by rewrite Z.shiftl_0_l].
    rewrite Z.shiftl_shiftl by lia. f_equal. lia.
Qed.

Lemma gf2_mul_cong p y y' cs :
  gf2_cong p y y' → gf2_cong p (gf2_mul y cs) (gf2_mul y' cs).
Proof.
  intros Hy. induction cs as [|c cs IH]; cbn; [constructor|].
  apply cong_lxor; [destruct c; [done|constructor]|]. by apply cong_shiftl.
Qed.

(** Multiplying by a power of [x] is a shift. *)
Lemma gf2_mul_pow2 j x n :
  0 ≤ j → 0 ≤ x < 2 ^ Z.of_nat n → gf2_mul (2 ^ j) (bits x n) = Z.shiftl x j.
Proof.
  intros Hj. revert x. induction n as [|n IH]; intros x Hx.
  - cbn in *. assert (x = 0) as -> by lia. by rewrite Z.shiftl_0_l.
  - rewrite bits_S, gf2_mul_snoc, length_bits.
    destruct (Z.testbit x (Z.of_nat n)) eqn:E.
    + set (x' := Z.lxor x (2 ^ Z.of_nat n)).
      assert (0 ≤ x' < 2 ^ Z.of_nat n) as Hx'.
      { replace (Z.of_nat (S n)) with (Z.of_nat n + 1) in Hx by lia.
        apply lxor_cancel_top; [lia|done| |by rewrite E, Z.pow2_bits_true by lia].
        rewrite Z.pow_add_r by lia. pose proof (Z.pow_pos_nonneg 2 (Z.of_nat n)). lia. }
      assert (bits x n = bits x' n) as ->.
      { unfold bits. apply list_fmap_ext. intros i k [-> Hi]%lookup_seq. cbn. subst x'.
        rewrite Z.lxor_spec, Z.pow2_bits_false, xorb_false_r by lia. done. }
      rewrite IH by done. subst x'.
      rewrite <-!Z.shiftl_1_l, Z.shiftl_lxor, !Z.shiftl_shiftl, (Z.add_comm j) by lia.
      apply lxor_nilpotent_r.
    + rewrite Z.lxor_0_r. apply IH. apply top_bit_false; [lia| |done].
      by replace (Z.of_nat n + 1) with (Z.of_nat (S n)) by lia.
Qed.

Definition multiply_step (x y : Z) (hl : Z * Z) (i : nat) : Z * Z :=
  if Z.land x (Z.shiftl 1 (Z.of_nat i)) =? 0 then hl
  else (Z.lxor hl.1 (Z.shiftr y (64 - Z.of_nat i)),
        Z.lxor hl.2 (u64 (Z.shiftl y (Z.of_nat i)))).

Definition words (hl : Z * Z) : Prop := 0 ≤ hl.1 < 2 ^ 64 ∧ 0 ≤ hl.2 < 2 ^ 64.

Lemma multiply_step_spec x y hl i :
  0 ≤ y < 2 ^ 64 → (i ≤ 63)%nat → words hl →
  words (multiply_step x y hl i) ∧
  value (multiply_step x y hl i) =
    Z.lxor (value hl) (if Z.testbit x (Z.of_nat i) then Z.shiftl y (Z.of_nat i) else 0).
Proof.
  intros Hy Hi [Hh Hl]. unfold multiply_step. rewrite land_pow2_eqb by lia.
  destruct (Z.testbit x (Z.of_nat i)); cbn -[Z.pow];
    [|by rewrite Z.lxor_0_r].
  split.
  - split; cbn -[Z.pow]; apply lxor_range; try done; try apply u64_range.
    rewrite Z.shiftr_div_pow2 by lia. split; [apply Z.div_pos; lia|].
    apply Z.div_lt_upper_bound; [lia|]. nia.
  - unfold value. cbn -[Z.pow].
    by rewrite Z.shiftl_lxor, lxor_swap, <-shiftl_words by (done || lia).
Qed.

Lemma multiply_loop x y hl n :
  0 ≤ y < 2 ^ 64 → (n ≤ 63)%nat → words hl →
  let hl' := foldl (multiply_step x y) hl (downto n 1) in
  words hl' ∧
  Z.lxor (value hl') (gf2_mul y (bits x 1)) =
    Z.lxor (value hl) (gf2_mul y (bits x (S n))).
Proof.
  intros Hy. revert hl. induction n as [|n IH]; intros hl Hn Hw; [done|].
  rewrite downto_S by lia. cbn [foldl].
  destruct (multiply_step_spec x y hl (S n)) as [Hw1 Hv]; [done|lia|done|].
  destruct (IH (multiply_step x y hl (S n))) as [Hw2 IH']; [lia|done|]. split; [done|].
  rewrite IH', Hv, (bits_S x (S n)), gf2_mul_snoc, length_bits.
  rewrite Z.lxor_assoc. f_equal. apply Z.lxor_comm.
Qed.

(** [MultiplyPoly] is the 128-bit carry-less product. *)
Lemma MultiplyPoly_value x y :
  0 ≤ y < 2 ^ 64 →
  words (MultiplyPoly x y) ∧ value (MultiplyPoly x y) = gf2_mul y (bits x 64).
Proof.
  intros Hy. unfold MultiplyPoly. fold (multiply_step x y).
  set (il := if Z.land x 1 =? 0 then 0 else y).
  assert (il = gf2_mul y (bits x 1)) as Hil.
  { subst il. change 1 with (Z.shiftl 1 0) at 1.
    rewrite land_pow2_eqb by lia. cbn [bits seq fmap list_fmap gf2_mul].
    rewrite Z.shiftl_0_l, Z.lxor_0_r. change (Z.of_nat 0) with 0.
    by destruct (Z.testbit x 0). }
  destruct (multiply_loop x y (0, il) 63) as [Hw Hv]; [done|lia| |].
  { split; cbn; [lia|]. subst il. destruct (_ =? 0); lia. }
  split; [done|]. rewrite <-Hil in Hv. unfold value at 2 in Hv. cbn [fst snd] in Hv.
  rewrite Z.shiftl_0_l, Z.lxor_0_l, (Z.lxor_comm il) in Hv.
  by apply (f_equal (λ z, Z.lxor z il)) in Hv; rewrite !lxor_nilpotent_r in Hv.
Qed.

(** ** The tables of [InitializeRabin] *)

#[local] Abbreviation P := IRREDUCIBLE_POLY.

Lemma P_degree : GetDegree P = 63%nat.
Proof. reflexivity. Qed.

Lemma P_range : 2 ^ 63 ≤ P < 2 ^ 64.
Proof. unfold IRREDUCIBLE_POLY. lia. Qed.

(** A value is the residue [r] of [a]. *)
Definition residue (a r : Z) : Prop := 0 ≤ r < 2 ^ 63 ∧ gf2_cong P a r.

Lemma residue_unique a r1 r2 : residue a r1 → residue a r2 → r1 = r2.
Proof.
  intros [H1 C1] [H2 C2]. pose proof P_range.
  apply (gf2_cong_unique P 63); [lia|lia|done|done|].
  by rewrite <-C1.
Qed.

Lemma residue_self a : 0 ≤ a < 2 ^ 63 → residue a a.
Proof. by split. Qed.

Lemma residue_lxor a b r s :
  residue a r → residue b s → residue (Z.lxor a b) (Z.lxor r s).
Proof.
  intros [H1 C1] [H2 C2]. split; [by apply lxor_range|]. by rewrite C1, C2.
Qed.

Lemma GetFingerprint_residue h l :
  0 ≤ h < 2 ^ 64 → 0 ≤ l < 2 ^ 64 →
  residue (Z.lxor (Z.shiftl h 64) l) (GetFingerprint h l P).
Proof.
  intros Hh Hl. pose proof P_range.
  destruct (GetFingerprint_reduces h l P) as [H1 H2]; [done|done|lia|].
  by rewrite P_degree in H1.
Qed.

(** The residue of a byte times a residue of [x^j]. *)
Lemma region_entry_residue i j s :
  (i < 256)%nat → 0 ≤ j → residue (2 ^ j) s →
  residue (Z.shiftl (Z.of_nat i) j) (region_entry P s i).
Proof.
  intros Hi Hj [Hs Hc]. unfold region_entry.
  destruct (MultiplyPoly_value (Z.of_nat i) s) as [[Hh Hl] Hv]; [lia|].
  destruct (MultiplyPoly (Z.of_nat i) s) as [h l]. cbn -[Z.pow] in Hh, Hl.
  destruct (GetFingerprint_residue h l Hh Hl) as [H1 H2]. split; [done|].
  rewrite <-H2. change (value (h, l)) with (Z.lxor (Z.shiftl h 64) l) in Hv. rewrite Hv.
  rewrite <-(gf2_mul_pow2 j _ 64) by lia. by apply gf2_mul_cong.
Qed.

Definition T : Z := GetFingerprint 0 (Z.shiftl 1 63) P.

Lemma T_residue : residue (2 ^ 63) T.
Proof.
  rewrite <-Z.shiftl_1_l, <-(Z.lxor_0_l (Z.shiftl 1 63)), <-(Z.shiftl_0_l 64).
  apply GetFingerprint_residue; [lia|]. split; [discriminate|reflexivity].
Qed.

Lemma modulo_entry_eq poly t k i :
  modulo_entry poly t k i =
    Z.lor (region_entry poly t i) (u64 (Z.shiftl (Z.of_nat i) (Z.of_nat k))).
Proof. unfold modulo_entry, region_entry. by destruct (MultiplyPoly _ _). Qed.

(** A residue below bit 63 and a word without bits below bit 63. *)
Lemma lor_disjoint r i :
  0 ≤ r < 2 ^ 63 → Z.lor r (u64 (Z.shiftl i 63)) = Z.lxor r (u64 (Z.shiftl i 63)).
Proof.
  intros Hr. apply bits_lt in Hr as [_ Hr]; [|lia]. bitwise.
  destruct (Z.leb_spec 63 n).
  - rewrite Hr by done. by rewrite xorb_false_l.
  - rewrite (Z.testbit_neg_r _ (n - 63)) by lia.
    by rewrite andb_false_r, orb_false_r, xorb_false_r.
Qed.

(** An entry of [moduloT]: the residue of [i * x^63], and the bit of [i] that
    stays in the 64-bit word when a fingerprint is shifted. *)
Lemma modulo_entry_spec i :
  (i < 256)%nat →
  ∃ r, residue (Z.shiftl (Z.of_nat i) 63) r ∧
       modulo_entry P T 63 i = Z.lxor r (u64 (Z.shiftl (Z.of_nat i) 63)).
Proof.
  intros Hi. exists (region_entry P T i).
  pose proof (region_entry_residue i 63 T Hi ltac:(lia) T_residue) as Hr.
  split; [done|]. rewrite modulo_entry_eq. apply lor_disjoint, Hr.
Qed.

Definition modulo_table : list Z := modulo_entry P T 63 <$> seq 0 256.

(** [(finger << 8 | b) ^ moduloT[finger >> shift]]. *)
Definition shift_in (f b : Z) : Z :=
  Z.lxor (Z.lor (u64 (Z.shiftl f 8)) b)
    (modulo_entry P T 63 (Z.to_nat (Z.shiftr f 55))).

Lemma shiftr_55 f : 0 ≤ f < 2 ^ 63 → (Z.to_nat (Z.shiftr f 55) < 256)%nat.
Proof.
  intros Hf. rewrite Z.shiftr_div_pow2 by lia.
  assert (f / 2 ^ 55 < 256); [|lia]. apply Z.div_lt_upper_bound; lia.
Qed.

(** Shifting a byte in multiplies by [x^8] and adds the byte, modulo [P]. *)
Lemma shift_in_residue a f b :
  residue a f → is_byte b → residue (Z.lxor (Z.shiftl a 8) b) (shift_in f b).
Proof.
  intros [Hf Hc] Hb. unfold shift_in. pose proof (shiftr_55 f Hf) as Hi.
  destruct (modulo_entry_spec _ Hi) as (r & [Hr Hrc] & ->).
  rewrite Z2Nat.id in Hrc |- * by (apply Z.shiftr_nonneg; lia).
  set (lo := Z.shiftl (Z.land f (Z.ones 55)) 8).
  assert (Z.lxor (Z.lor (u64 (Z.shiftl f 8)) b) (Z.lxor r (u64 (Z.shiftl (Z.shiftr f 55) 63)))
    = Z.lxor (Z.lxor lo b) r) as ->.
  { subst lo. assert (0 ≤ b < 2 ^ 8) as Hb8 by (unfold is_byte in Hb; lia).
    apply bits_lt in Hb8 as [_ Hb8]; [|lia].
    apply bits_lt in Hf as [_ Hf]; [|lia]. bitwise.
    destruct (Z.ltb_spec n 8).
    { rewrite !(Z.testbit_neg_r _ (n - 8)), !(Z.testbit_neg_r _ (n - 63)) by lia.
      rewrite !andb_false_r. by destruct (Z.testbit b n), (Z.testbit r n). }
    rewrite Hb8, orb_false_r, xorb_false_r by lia.
    destruct (Z.ltb_spec n 63).
    { rewrite (Z.testbit_neg_r _ (n - 63)), Z.ones_spec_low by lia.
      rewrite andb_false_r, andb_true_r, xorb_false_r.
      by replace (n <? 64) with true by (symmetry; apply Z.ltb_lt; lia). }
    rewrite Z.ones_spec_high, andb_false_r, xorb_false_l, Z.shiftr_spec by lia.
    replace (n - 63 + 55) with (n - 8) by lia.
    by destruct (n <? 64), (Z.testbit f (n - 8)), (Z.testbit r n). }
  assert (Z.shiftl f 8 = Z.lxor lo (Z.shiftl (Z.shiftr f 55) 63)) as Hsplit.
  { subst lo. bitwise. destruct (Z.ltb_spec n 8).
    { by rewrite !(Z.testbit_neg_r _ (n - 8)), (Z.testbit_neg_r _ (n - 63)) by lia. }
    destruct (Z.ltb_spec n 63).
    { by rewrite (Z.testbit_neg_r _ (n - 63)), Z.ones_spec_low, andb_true_r, xorb_false_r by lia. }
    rewrite Z.ones_spec_high, andb_false_r, xorb_false_l, Z.shiftr_spec by lia.
    f_equal. lia. }
  assert (0 ≤ lo < 2 ^ 63) as Hlo.
  { subst lo. rewrite Z.land_ones, Z.shiftl_mul_pow2 by lia.
    pose proof (Z.mod_pos_bound f (2 ^ 55)). lia. }
  split.
  - apply lxor_range; [lia| |done]. apply lxor_range; [lia|done|]. unfold is_byte in Hb. lia.
  - rewrite (cong_shiftl P _ _ 8 ltac:(lia) Hc), Hsplit, Hrc.
    rewrite !Z.lxor_assoc, (Z.lxor_comm r). reflexivity.
Qed.

(** ** The sliding window *)

(** The polynomial a list of bytes spells, first byte highest. *)
Definition spell (l : list Z) : Z := foldl (λ v b, Z.lxor (Z.shiftl v 8) b) 0 l.

(** The reference fingerprint of a list of bytes. *)
Definition fingerprint (l : list Z) : Z := foldl shift_in 0 l.

Lemma spell_snoc l b : spell (l ++ [b]) = Z.lxor (Z.shiftl (spell l) 8) b.
Proof. unfold spell. by rewrite foldl_app. Qed.

Lemma spell_cons b l :
  spell (b :: l) = Z.lxor (Z.shiftl b (8 * Z.of_nat (length l))) (spell l).
Proof.
  induction l as [|c l IH] using rev_ind.
  - cbn. by rewrite Z.shiftl_0_l, Z.shiftl_0_r, Z.lxor_0_l, Z.lxor_0_r.
  - rewrite app_comm_cons, !spell_snoc, IH, Z.shiftl_lxor, Z.lxor_assoc.
    f_equal. rewrite Z.shiftl_shiftl by lia. f_equal. rewrite length_app. cbn. lia.
Qed.

Lemma fingerprint_residue l :
  Forall is_byte l → residue (spell l) (fingerprint l).
Proof.
  induction l as [|b l IH] using rev_ind; intros Hl; [by apply residue_self|].
  apply Forall_app in Hl as [Hl Hb]. apply Forall_cons_1 in Hb as [Hb _].
  rewrite spell_snoc. unfold fingerprint. rewrite foldl_app.
  apply shift_in_residue; [by apply IH|done].
Qed.

(** The bytes of the window, oldest first. *)
Definition window (rp : RABINPOLY) : list Z :=
  let w := take (region_size rp) (region_buf rp) in
  drop (region_pos rp) w ++ take (region_pos rp) w.

(** What [InitializeRabin] establishes and [ConcatByte] keeps. *)
Record rabin_ok (w : nat) (rp : RABINPOLY) : Prop := {
  ok_modulo : moduloT rp = modulo_table;
  ok_region : ∃ s, residue (2 ^ (8 * Z.of_nat (w - 1))) s ∧
                   regionT rp = region_entry P s <$> seq 0 256;
  ok_shift : shift rp = 55;
  ok_size : region_size rp = w;
  ok_window : (0 < w ≤ 256)%nat;
  ok_pos : (region_pos rp < w)%nat;
  ok_buf : length (region_buf rp) = 256%nat;
  ok_bytes : Forall is_byte (region_buf rp)
}.

Lemma length_window w rp : rabin_ok w rp → length (window rp) = w.
Proof.
  intros []. unfold window. rewrite length_app, length_drop, !length_take. lia.
Qed.

Lemma window_bytes w rp : rabin_ok w rp → Forall is_byte (window rp).
Proof.
  intros []. unfold window. apply Forall_app.
  split; [apply Forall_drop|apply Forall_take]; by apply Forall_take.
Qed.

(** Writing the oldest cell of a ring and moving the position. *)
Lemma ring_step {A} (l : list A) p x b :
  l !! p = Some x →
  let l' := <[p := b]> l in let p' := (S p `mod` length l)%nat in
  ∃ rest, drop p l ++ take p l = x :: rest ∧ drop p' l' ++ take p' l' = rest ++ [b].
Proof.
  intros Hp. pose proof (lookup_lt_Some _ _ _ Hp) as Hlt. cbn zeta.
  exists (drop (S p) l ++ take p l). split; [by rewrite (drop_S _ x)|].
  destruct (decide (S p = length l)) as [He|Hne].
  - rewrite He, Nat.Div0.mod_same, drop_0, take_0, app_nil_r, drop_all, app_nil_l.
    rewrite insert_take_drop, He, drop_all by done. done.
  - rewrite Nat.mod_small by lia. rewrite drop_insert_lt by lia.
    rewrite <-app_assoc. f_equal.
    rewrite (take_S_r _ p b) by (by apply list_lookup_insert_eq).
    by rewrite take_insert_ge by lia.
Qed.

(** The state [ConcatByte] leaves: the byte stored, the position moved. *)
Definition advanced (rp : RABINPOLY) (b : Z) : RABINPOLY :=
  {| moduloT := moduloT rp; regionT := regionT rp;
     region_buf := <[region_pos rp := b]> (region_buf rp);
     region_size := region_size rp;
     region_pos := (S (region_pos rp) `mod` region_size rp)%nat;
     shift := shift rp; ir_poly := ir_poly rp |}.

Lemma ConcatByte_lookups rp f b old r m :
  region_buf rp !! region_pos rp = Some old →
  regionT rp !! Z.to_nat old = Some r →
  moduloT rp !! Z.to_nat (Z.shiftr (Z.lxor f r) (shift rp)) = Some m →
  ConcatByte rp f b =
    Done (advanced rp b, Z.lxor (Z.lor (u64 (Z.shiftl (Z.lxor f r) 8)) b) m).
Proof.
  intros Hold Hr Hm. pose proof (lookup_lt_Some _ _ _ Hold).
  unfold ConcatByte, get, put, mbind, outcome_bind.
  rewrite Hold, Hr, decide_True by done. cbn [moduloT shift]. by rewrite Hm.
Qed.

Lemma advanced_ok w rp b : rabin_ok w rp → is_byte b → rabin_ok w (advanced rp b).
Proof.
  intros [] Hb. split; cbn [advanced moduloT regionT shift region_size region_pos region_buf];
    try done.
  - rewrite ok_size0. apply Nat.mod_upper_bound. lia.
  - by rewrite length_insert.
  - by apply Forall_insert.
Qed.

Lemma advanced_window w rp b :
  rabin_ok w rp →
  ∃ old, region_buf rp !! region_pos rp = Some old ∧ is_byte old ∧
         window rp = old :: tail (window rp) ∧
         window (advanced rp b) = tail (window rp) ++ [b].
Proof.
  intros []. unfold window.
  cbn [advanced region_buf region_pos region_size]. rewrite ok_size0.
  destruct (lookup_lt_is_Some_2 (region_buf rp) (region_pos rp)) as [old Hold]; [lia|].
  destruct (ring_step (take w (region_buf rp)) (region_pos rp) old b) as (rest & E1 & E2).
  { by rewrite lookup_take_lt. }
  rewrite length_take, Nat.min_l in E2 by lia. rewrite take_insert_lt by lia.
  rewrite E1, E2. exists old. split_and!; [done| |done|done].
  eapply Forall_lookup_1; [exact ok_bytes0|done].
Qed.

(** [ConcatByte] drops the oldest byte of the window, appends the new one, and
    turns the residue of the old window into the residue of the new one. *)
Lemma ConcatByte_window w rp f b :
  rabin_ok w rp → residue (spell (window rp)) f → is_byte b →
  ∃ f', ConcatByte rp f b = Done (advanced rp b, f') ∧
        residue (spell (window (advanced rp b))) f'.
Proof.
  intros Hok Hf Hb. destruct (advanced_window w rp b Hok) as (old & Hold & Hob & Ew & Ew').
  pose proof (length_window w rp Hok) as Hlen.
  destruct Hok as [Hm (s & Hs & Hr) Hsh _ Hw _ _ _]. unfold is_byte in Hob.
  set (rest := tail (window rp)) in *. rewrite Ew in Hf, Hlen. cbn in Hlen.
  assert (residue (spell rest) (Z.lxor f (region_entry P s (Z.to_nat old)))) as Hf1.
  { pose proof (region_entry_residue (Z.to_nat old) (8 * Z.of_nat (w - 1)) s) as He.
    rewrite Z2Nat.id in He by lia. rewrite spell_cons in Hf.
    replace (length rest) with (w - 1)%nat in Hf by lia.
    pose proof (residue_lxor _ _ _ _ Hf (He ltac:(lia) ltac:(lia) Hs)) as Hx.
    by rewrite (Z.lxor_comm (Z.shiftl _ _)), lxor_nilpotent_r in Hx. }
  exists (shift_in (Z.lxor f (region_entry P s (Z.to_nat old))) b). split.
  - apply (ConcatByte_lookups rp f b old); [done| |].
    + rewrite Hr. apply lookup_fmap_seq. lia.
    + rewrite Hm, Hsh. by apply lookup_fmap_seq, shiftr_55, Hf1.
  - rewrite Ew', spell_snoc. by apply shift_in_residue.
Qed.

(** ** Feeding a history of bytes *)

(** The last [w] bytes of a history that starts with a zeroed window. *)
Definition last_bytes (w : nat) (hist : list Z) : list Z :=
  drop (length hist) (replicate w 0 ++ hist).

Lemma last_bytes_nil w : last_bytes w [] = replicate w 0.
Proof. unfold last_bytes. by rewrite drop_0, app_nil_r. Qed.

Lemma last_bytes_snoc w hist b :
  (0 < w)%nat → last_bytes w (hist ++ [b]) = tail (last_bytes w hist) ++ [b].
Proof.
  intros Hw. unfold last_bytes. rewrite length_app, app_assoc, Nat.add_1_r.
  rewrite drop_app_le by (rewrite length_app, length_replicate; lia). f_equal.
  apply drop_S_tail.
Qed.

(** The window of a long history holds its last [w] bytes and nothing else. *)
Lemma last_bytes_suffix w hist l : length l = w → last_bytes w (hist ++ l) = l.
Proof.
  intros Hl. unfold last_bytes. rewrite app_assoc, length_app, drop_app_length'; [done|].
  rewrite length_app, length_replicate. lia.
Qed.

(** The invariant that ties the rolling state to the history. *)
Record rolling (w : nat) (hist : list Z) (rp : RABINPOLY) (f : Z) : Prop := {
  roll_ok : rabin_ok w rp;
  roll_window : window rp = last_bytes w hist;
  roll_finger : f = fingerprint (last_bytes w hist)
}.

Lemma rolling_residue w hist rp f :
  rolling w hist rp f → residue (spell (window rp)) f.
Proof.
  intros [Hok Hw ->]. rewrite <-Hw. by eapply fingerprint_residue, window_bytes.
Qed.

Lemma rolling_step w hist rp f b :
  rolling w hist rp f → is_byte b →
  ConcatByte rp f b =
    Done (advanced rp b, fingerprint (last_bytes w (hist ++ [b]))) ∧
  rolling w (hist ++ [b]) (advanced rp b) (fingerprint (last_bytes w (hist ++ [b]))).
Proof.
  intros Hroll Hb. pose proof (rolling_residue _ _ _ _ Hroll) as Hres.
  destruct Hroll as [Hok Hw _].
  destruct (ConcatByte_window w rp f b Hok Hres Hb) as (f' & Hc & Hf').
  destruct (advanced_window w rp b Hok) as (old & _ & _ & _ & Ew).
  pose proof (advanced_ok w rp b Hok Hb) as Hok'.
  assert (window (advanced rp b) = last_bytes w (hist ++ [b])) as Ew'.
  { rewrite Ew, last_bytes_snoc, Hw; [done|]. apply Hok. }
  assert (f' = fingerprint (last_bytes w (hist ++ [b]))) as ->.
  { eapply residue_unique; [exact Hf'|]. rewrite <-Ew'.
    by eapply fingerprint_residue, window_bytes. }
  by split.
Qed.

Lemma fingerprint_zeros n : fingerprint (replicate n 0) = 0.
Proof. induction n as [|n IH]; [done|]. exact IH. Qed.

Lemma ZeroRegionBuf_rolling w rp : rabin_ok w rp → rolling w [] (ZeroRegionBuf rp) 0.
Proof.
  intros []. split.
  - split; cbn [ZeroRegionBuf moduloT regionT shift region_size region_pos region_buf];
      try done. by apply Forall_replicate.
  - rewrite last_bytes_nil. unfold window.
    cbn [ZeroRegionBuf region_size region_buf region_pos].
    rewrite take_replicate, drop_replicate, take_replicate, <-replicate_add.
    f_equal. lia.
  - by rewrite last_bytes_nil, fingerprint_zeros.
Qed.

(** [InitializeRabin] *)
Lemma sizeshift_loop n :
  ∃ s, foldM (λ s _, sizeshift_step modulo_table 55 s) 1 (seq 1 n) = Done s ∧
       residue (2 ^ (8 * Z.of_nat n)) s.
Proof.
  induction n as [|n (s & Hs & Hr)]; [exists 1; by split|].
  exists (shift_in s 0). rewrite seq_S, foldM_app, Hs. cbn [foldM mbind outcome_bind].
  unfold sizeshift_step, get, modulo_table.
  rewrite (lookup_fmap_seq _ _ _ (shiftr_55 s (proj1 Hr))). cbn [mbind outcome_bind].
  split.
  - unfold shift_in. by rewrite Z.lor_0_r.
  - replace (2 ^ (8 * Z.of_nat (S n))) with (Z.lxor (Z.shiftl (2 ^ (8 * Z.of_nat n)) 8) 0).
    + by apply shift_in_residue.
    + rewrite Z.lxor_0_r, Z.shiftl_mul_pow2, <-Z.pow_add_r by lia. f_equal. lia.
Qed.

Lemma InitializeRabin_ok rp w :
  ir_poly rp = 0 → (0 < w ≤ 256)%nat → length (region_buf rp) = 256%nat →
  Forall is_byte (region_buf rp) →
  ∃ rp', InitializeRabin rp w = Done rp' ∧ rabin_ok w rp'.
Proof.
  intros Hp Hw Hlen Hby. destruct (sizeshift_loop (w - 1)) as (s & Hs & Hr).
  unfold InitializeRabin. rewrite Hp, P_degree. fold T. fold modulo_table.
  change (Z.of_nat 63 - 8) with 55. rewrite Hs. cbn [negb Z.eqb mbind outcome_bind].
  eexists. split; [reflexivity|].
  split; cbn [moduloT regionT shift region_size region_pos region_buf]; try done.
  - by exists s.
  - lia.
Qed.

(** ** The boundary scan *)

(** The fingerprint after each byte of [src], the window having seen [hist]. *)
Fixpoint fingers (w : nat) (hist src : list Z) : list Z :=
  match src with
  | [] => []
  | b :: src' => fingerprint (last_bytes w (hist ++ [b])) :: fingers w (hist ++ [b]) src'
  end.

(** The prefix of a list up to and with its first element that satisfies [stop]. *)
Fixpoint upto {A} (stop : A → bool) (l : list A) : list A :=
  match l with
  | [] => []
  | x :: l' => if stop x then [x] else x :: upto stop l'
  end.

(** The boundaries of the positions whose fingerprint matches [m]. *)
Fixpoint boundaries (m p : Z) (fs : list Z) : list RabinBoundary :=
  match fs with
  | [] => []
  | f :: fs' =>
      (if matches m f then [{| offset := p + 1; bfinger := f |}] else []) ++
      boundaries m (p + 1) fs'
  end.

Definition stops (max_mask f : Z) : bool := negb (max_mask =? 0) && matches max_mask f.

(** A chunk boundary is a boundary of every finer mask. *)
Definition nested (min_mask max_mask : Z) : Prop := Z.land min_mask max_mask = min_mask.

Lemma nested_matches min_mask max_mask f :
  nested min_mask max_mask → matches max_mask f = true → matches min_mask f = true.
Proof.
  unfold nested, matches. rewrite !Z.eqb_eq. intros Hn Hf.
  rewrite <-Hn at 1. by rewrite (Z.land_comm min_mask), Z.land_assoc, Hf, Z.land_comm.
Qed.

Lemma store_boundary_ok cap bs b :
  (length bs < cap)%nat → store_boundary cap bs b = Done (bs ++ [b]).
Proof. intros Hlt. unfold store_boundary. by apply Nat.ltb_lt in Hlt as ->. Qed.

Lemma store_boundary_full cap bs b :
  (cap ≤ length bs)%nat → store_boundary cap bs b = Fault OutOfBounds.
Proof. intros Hge. unfold store_boundary. by apply Nat.ltb_ge in Hge as ->. Qed.

Lemma get_last {A} (l : list A) x : get (l ++ [x]) (length (l ++ [x]) - 1) = Done x.
Proof.
  unfold get. rewrite length_app, Nat.add_sub, lookup_app_r, Nat.sub_diag; done.
Qed.

(** What the state is after a scan of [src]. *)
Definition scanned (w : nat) (hist : list Z) (r : outcome (RABINPOLY * Z * list RabinBoundary))
    (n : nat) (src : list Z) (bs : list RabinBoundary) : Prop :=
  ∃ rp f, r = Done (rp, f, bs) ∧ rolling w (hist ++ take n src) rp f.

Lemma scan_spec w cap min_mask max_mask srclen rp f hist bs p src :
  nested min_mask max_mask → rolling w hist rp f → Forall is_byte src →
  p + Z.of_nat (length src) ≤ srclen →
  let fs := upto (stops max_mask) (fingers w hist src) in
  let new := boundaries min_mask p fs in
  (length bs + length new ≤ cap)%nat →
  scanned w hist (scan cap min_mask max_mask srclen rp f bs p src) (length fs) src
    (bs ++ new).
Proof.
  intros Hn. revert rp f hist bs p. induction src as [|b src IH];
    intros rp f hist bs p Hroll Hsrc Hp; cbn [fingers upto boundaries scan].
  { intros _. exists rp, f. cbn. by rewrite !app_nil_r. }
  apply Forall_cons_1 in Hsrc as [Hb Hsrc]. cbn [length] in Hp.
  destruct (rolling_step w hist rp f b Hroll Hb) as [-> Hroll'].
  set (f' := fingerprint (last_bytes w (hist ++ [b]))) in *.
  cbn [mbind outcome_bind]. change (negb (max_mask =? 0) && matches max_mask f') with (stops max_mask f').
  set (new := if matches min_mask f' then [{| offset := p + 1; bfinger := f' |}] else []).
  intros Hcap.
  assert ((length bs + length new ≤ cap)%nat) as Hcap1.
  { subst new. destruct (stops max_mask f'); cbn [boundaries] in Hcap;
      rewrite length_app in Hcap; lia. }
  assert ((if matches min_mask f'
           then store_boundary cap bs {| offset := p + 1; bfinger := f' |}
           else Done bs) = Done (bs ++ new)) as ->.
  { subst new. destruct (matches min_mask f'); cbn in Hcap1; [|by rewrite app_nil_r].
    apply store_boundary_ok. lia. }
  cbn [mbind outcome_bind]. destruct (stops max_mask f') eqn:Es.
  - assert (matches min_mask f' = true) as Hm.
    { apply andb_prop in Es as [_ Es]. by eapply nested_matches. }
    subst new. rewrite Hm. cbn [boundaries].
    replace (p + 1 <=? srclen) with true by (symmetry; apply Z.leb_le; lia).
    cbn [c_assert mbind outcome_bind]. rewrite get_last. cbn [mbind outcome_bind offset].
    rewrite Z.eqb_refl. cbn. exists (advanced rp b), f'. by rewrite Hm.
  - destruct (IH (advanced rp b) f' (hist ++ [b]) (bs ++ new) (p + 1))
      as (rp2 & f2 & Hs & Hr2); [done|done|lia| |].
    { cbn [boundaries] in Hcap. rewrite length_app in Hcap |- *. fold new in Hcap. lia. }
    exists rp2, f2. cbn [boundaries]. fold new. rewrite Hs, app_assoc. split; [done|].
    cbn [length take]. by rewrite <-app_assoc in Hr2.
Qed.

(** ** [GetRabinChunkSizeEx] *)

(** The bytes the scan looks at. *)
Definition scan_bytes (rctx : RabinCtx) (src : list Z) (srclen : Z) : list Z :=
  drop (min_size rctx) (take (Z.to_nat (Z.min srclen (max_size rctx))) src).

(** The boundaries a scan from a zeroed window yields, as a function of the
    bytes alone. *)
Definition chunk_boundaries (w : nat) (rctx : RabinCtx) (src : list Z)
    (srclen min_mask max_mask : Z) : list RabinBoundary :=
  let fs := upto (stops max_mask) (fingers w [] (scan_bytes rctx src srclen)) in
  let bs := boundaries min_mask (Z.of_nat (min_size rctx)) fs in
  if decide (bs = [])
  then [{| offset := Z.min srclen (max_size rctx); 
         bfinger := fingerprint (last_bytes w (take (length fs) (scan_bytes rctx src srclen))) |}]
  else bs.


Definition last_offset (bs : list RabinBoundary) : Z :=
  match list.last bs with Some b => offset b | None => 0 end.

Lemma get_last_offset bs :
  bs ≠ [] → ∃ b, get bs (length bs - 1) = Done b ∧ offset b = last_offset bs.
Proof.
  intros Hne. destruct (exists_last Hne) as (bs' & b & ->).
  exists b. split; [apply get_last|]. unfold last_offset. by rewrite last_snoc.
Qed.

(** With room for the boundaries, the scan of a reset context returns exactly
    the matching positions up to the first chunk boundary. *)
Lemma GetRabinChunkSizeEx_boundaries w cap rctx src srclen min_mask max_mask :
  rabin_ok w (rp rctx) → nested min_mask max_mask → Forall is_byte src →
  0 ≤ srclen ≤ Z.of_nat (length src) → 
  Z.of_nat (min_size rctx) ≤ Z.min srclen (max_size rctx) →
  let bs := chunk_boundaries w rctx src srclen min_mask max_mask in
  (length bs ≤ cap)%nat →
  ∃ rctx', GetRabinChunkSizeEx cap rctx src srclen min_mask max_mask true =
             Done (rctx', bs, last_offset bs) ∧
           rabin_ok w (rp rctx').
Proof.
  intros Hok Hn Hsrc Hlen Hmin bs Hcap. unfold GetRabinChunkSizeEx.
  cbn [set_rp finger min_size max_size rp].
  set (bytes := scan_bytes rctx src srclen).
  destruct (scan_spec w cap min_mask max_mask (Z.min srclen (max_size rctx))
    (ZeroRegionBuf (rp rctx)) 0 [] [] (Z.of_nat (min_size rctx)) bytes)
    as (rp' & f' & Hs & Hroll).
  - done.
  - by apply ZeroRegionBuf_rolling.
  - unfold bytes, scan_bytes. by apply Forall_drop, Forall_take.
  - unfold bytes, scan_bytes. rewrite length_drop, length_take. lia.
  - subst bs. unfold chunk_boundaries in Hcap. fold bytes in Hcap.
    case_decide as E; [rewrite E; cbn; lia|done].
  - fold bytes. unfold scan_bytes in Hs. fold (scan_bytes rctx src srclen) in Hs.
    fold bytes in Hs. change (drop (min_size rctx) _) with bytes. rewrite Hs.
    cbn [mbind outcome_bind app]. subst bs. unfold chunk_boundaries in *. fold bytes in Hcap |- *.
    pose proof (roll_finger _ _ _ _ Hroll) as Hf. cbn [app] in Hf.
    case_decide as E.
    + rewrite E, store_boundary_ok by (cbn in Hcap |- *; lia).
      eexists. cbn. rewrite Hf. split; [done|apply Hroll].
    + destruct (get_last_offset _ E) as (b & Hb & Ho).
      cbn [mbind outcome_bind]. rewrite Hb. cbn [mbind outcome_bind]. rewrite Ho.
      eexists. split; [done|apply Hroll].
Qed.

Lemma GetNormalizedSize_total bsz :
  32 ≤ bsz < 128 * 1024 → ∃ n, GetNormalizedSize bsz = Done n ∧ n ≤ bsz < 2 * n.
Proof.
  intros Hb. unfold GetNormalizedSize, chunk_sizes. cbn [bracket].
  repeat match goal with
  | |- context [(?lo <=? bsz) && (bsz <? ?hi)] =>
      destruct (Z.leb_spec lo bsz); [|lia]; destruct (Z.ltb_spec bsz hi);
      cbn [andb mbind outcome_bind];
      [eexists; split; [reflexivity|lia]|]
  end. lia.
Qed.

(** ** Facts about the boundaries *)

Lemma fingers_lookup w hist src i :
  (i < length src)%nat →
  fingers w hist src !! i = Some (fingerprint (last_bytes w (hist ++ take (S i) src))).
Proof.
  revert hist i. induction src as [|b src IH]; intros hist i Hi; [cbn in Hi; lia|].
  destruct i as [|i]; cbn [fingers lookup list_lookup take]; [done|].
  rewrite IH by (cbn in Hi; lia). by rewrite <-app_assoc.
Qed.

Lemma length_fingers w hist src : length (fingers w hist src) = length src.
Proof. revert hist. induction src; intros; cbn; auto. Qed.

Lemma upto_prefix {A} (stop : A → bool) l : upto stop l `prefix_of` l.
Proof.
  induction l as [|x l IH]; cbn; [done|].
  destruct (stop x); [by exists l|by apply prefix_cons].
Qed.

Lemma upto_reaches {A} (stop : A → bool) l i x :
  l !! i = Some x → (∀ j y, (j < i)%nat → l !! j = Some y → stop y = false) →
  upto stop l !! i = Some x.
Proof.
  revert i. induction l as [|y l IH]; intros i Hi Hj; [done|]. cbn [upto].
  destruct i as [|i]; [by destruct (stop y)|].
  rewrite (Hj 0%nat y) by (done || lia). cbn. apply IH; [done|].
  intros j z Hlt Hz. apply (Hj (S j)); [lia|done].
Qed.

Lemma elem_of_boundaries m p fs b :
  b ∈ boundaries m p fs ↔
  ∃ i : nat, fs !! i = Some (bfinger b) ∧ matches m (bfinger b) = true ∧
             offset b = p + Z.of_nat i + 1.
Proof.
  revert p. induction fs as [|f fs IH]; intros p; cbn [boundaries].
  { split; [by intros ?%elem_of_nil|]. by intros (i & ? & _). }
  rewrite elem_of_app, IH. split.
  - intros [Hb|(i & Hi & Hm & Ho)].
    + destruct (matches m f) eqn:E; [|by apply elem_of_nil in Hb].
      apply list_elem_of_singleton in Hb as ->. exists 0%nat. cbn. split_and!; [done|done|lia].
    + exists (S i). cbn. split_and!; [done|done|lia].
  - intros ([|i] & Hi & Hm & Ho).
    + left. cbn in Hi. injection Hi as ->. rewrite Hm. apply list_elem_of_singleton.
      destruct b. cbn in *. f_equal. lia.
    + right. exists i. split_and!; [done|done|lia].
Qed.

Definition before (a b : RabinBoundary) : Prop := offset a < offset b.

Lemma boundaries_sorted m p fs : StronglySorted before (boundaries m p fs).
Proof.
  revert p. induction fs as [|f fs IH]; intros p; cbn [boundaries]; [constructor|].
  destruct (matches m f); cbn [app]; [|apply IH]. constructor; [apply IH|].
  apply Forall_forall. intros b (i & _ & _ & Ho)%elem_of_boundaries. unfold before. cbn. lia.
Qed.

Lemma length_boundaries m p fs : (length (boundaries m p fs) ≤ length fs)%nat.
Proof.
  revert p. induction fs as [|f fs IH]; intros p; cbn [boundaries]; [done|].
  rewrite length_app. specialize (IH (p + 1)). destruct (matches m f); cbn; lia.
Qed.

Lemma length_upto_fingers w hist src stop :
  (length (upto stop (fingers w hist src)) ≤ length src)%nat.
Proof.
  rewrite <-(length_fingers w hist src). apply prefix_length, upto_prefix.
Qed.

(** ** Properties *)

(** C3: [GetFingerprint h l poly] is the remainder of the 128-bit polynomial
    [h * x^64 + l] in the division by [poly]: it is congruent to it, its degree
    is below that of [poly], and it is the only such value. *)
Theorem GetFingerprint_remainder (h l poly : Z) :
  0 ≤ h < 2 ^ 64 → 0 ≤ l < 2 ^ 64 → 0 < poly < 2 ^ 64 →
  let r := GetFingerprint h l poly in let d := Z.of_nat (GetDegree poly) in
  0 ≤ r < 2 ^ d ∧ gf2_cong poly (Z.lxor (Z.shiftl h 64) l) r ∧
  (∀ r', 0 ≤ r' < 2 ^ d → gf2_cong poly (Z.lxor (Z.shiftl h 64) l) r' → r' = r).
Proof.
  intros Hh Hl Hp r d.
  destruct (GetFingerprint_reduces h l poly Hh Hl Hp) as [Hr Hc].
  split_and!; [apply Hr|apply Hr|exact Hc|]. intros r' Hr' Hc'.
  destruct (GetDegree_loop_spec 63 poly Hp) as (_ & Hlt & Hb).
  apply (gf2_cong_unique poly d); [lia| |done|done|].
  - split; [apply testbit_ge; [lia|lia|done]|done].
  - by rewrite <-Hc'.
Qed.

Lemma GetFingerprint_remainder_witness :
  GetFingerprint 1 5 0x11b = 0x48 ∧
  gf2_cong 0x11b (Z.lxor (Z.shiftl 1 64) 5) 0x48.
Proof.
  split; [reflexivity|].
  exact (proj1 (proj2 (GetFingerprint_remainder 1 5 0x11b ltac:(lia) ltac:(lia) ltac:(lia)))).
Defined.

(** C4: a context that [InitRabinCtx] set up and [ZeroRegionBuf] reset accepts
    any bytes: [ConcatByte] never leaves its tables, and the fingerprint it
    returns is a function of the last [window] bytes alone, whatever came
    before them - the residue of the polynomial these bytes spell. *)
Theorem rolling_fingerprint (rctx : RabinCtx) (bsz max : Z) (w min : nat) (src : list Z) :
  length (region_buf (rp rctx)) = 256%nat → Forall is_byte (region_buf (rp rctx)) →
  32 ≤ bsz < 128 * 1024 → (0 < w ≤ 256)%nat → Forall is_byte src →
  ∃ rctx' rp' f,
    InitRabinCtx rctx bsz w min max = Done rctx' ∧
    foldM (λ s b, ConcatByte s.1 s.2 b) (ZeroRegionBuf (rp rctx'), 0) src = Done (rp', f) ∧
    window rp' = last_bytes w src ∧
    f = fingerprint (last_bytes w src) ∧
    0 ≤ f < 2 ^ 63 ∧ gf2_cong IRREDUCIBLE_POLY (spell (last_bytes w src)) f.
Proof.
  intros Hlen Hby Hbsz Hw Hsrc. unfold InitRabinCtx.
  set (rp0 := Build_RABINPOLY _ _ _ _ _ _ 0).
  destruct (InitializeRabin_ok rp0 w eq_refl Hw Hlen Hby) as (rp1 & Hi & Hok).
  destruct (GetNormalizedSize_total bsz Hbsz) as (n & -> & _). cbn [mbind outcome_bind].
  rewrite Hi. cbn [mbind outcome_bind].
  destruct (foldM_total (λ s b, ConcatByte s.1 s.2 b) (λ l s, rolling w l s.1 s.2)
    (ZeroRegionBuf rp1, 0) src) as ([rp2 f] & Hf & Hr); cbn [fst snd].
  - by apply ZeroRegionBuf_rolling.
  - intros l1 b l2 [rp2 f] -> Hr. cbn [fst snd] in *.
    assert (is_byte b) as Hb by (decompose_Forall; done).
    destruct (rolling_step _ _ _ _ b Hr Hb) as [-> Hr']. eauto.
  - eexists _, rp2, f. split; [reflexivity|]. cbn [rp]. split; [exact Hf|].
    destruct (rolling_residue _ _ _ _ Hr) as [Hrange Hc].
    destruct Hr as [_ Hwin Hfin]. cbn [fst snd] in *. rewrite Hwin in Hc.
    split_and!; [done|done|apply Hrange..|done].
Qed.

(** A context to evaluate the properties at. *)
Definition blank_ctx : RabinCtx :=
  {| rp := {| moduloT := []; regionT := []; region_buf := replicate 256 0;
              region_size := 0; region_pos := 0; shift := 0; ir_poly := 0 |};
     mask := 0; finger := 0; bsize := 0; min_size := 0; max_size := 0 |}.

Lemma rolling_fingerprint_witness :
  ∃ rctx' rp' f,
    InitRabinCtx blank_ctx 64 16 0 (128 * 1024) = Done rctx' ∧
    foldM (λ s b, ConcatByte s.1 s.2 b) (ZeroRegionBuf (rp rctx'), 0) [7; 255; 3] =
      Done (rp', f) ∧
    window rp' = last_bytes 16 [7; 255; 3] ∧
    f = fingerprint (last_bytes 16 [7; 255; 3]) ∧
    0 ≤ f < 2 ^ 63 ∧ gf2_cong IRREDUCIBLE_POLY (spell (last_bytes 16 [7; 255; 3])) f.
Proof.
  apply (rolling_fingerprint blank_ctx 64 (128 * 1024) 16 0).
  - reflexivity.
  - apply Forall_replicate. split; [lia|reflexivity].
  - lia.
  - lia.
  - repeat constructor; unfold is_byte; lia.
Defined.

(** What a scan needs of the context and of its arguments. *)
Record scan_pre (w : nat) (rctx : RabinCtx) (src : list Z) (srclen min_mask max_mask : Z)
    : Prop := {
  pre_ok : rabin_ok w (rp rctx);
  pre_nested : nested min_mask max_mask;
  pre_bytes : Forall is_byte src;
  pre_len : 0 ≤ srclen ≤ Z.of_nat (length src);
  pre_min : Z.of_nat (min_size rctx) ≤ Z.min srclen (max_size rctx)
}.

(** [b] is the boundary after the byte at index [i] of the scanned bytes. *)
Definition boundary_at (w : nat) (rctx : RabinCtx) (bytes : list Z) (i : nat)
    (b : RabinBoundary) : Prop :=
  (i < length bytes)%nat ∧ offset b = Z.of_nat (min_size rctx) + Z.of_nat i + 1 ∧
  bfinger b = fingerprint (last_bytes w (take (S i) bytes)).

Lemma chunk_boundaries_sorted w rctx src srclen mn mx :
  StronglySorted before (chunk_boundaries w rctx src srclen mn mx).
Proof.
  unfold chunk_boundaries. case_decide; [repeat constructor|apply boundaries_sorted].
Qed.

Lemma chunk_boundaries_sound w rctx src srclen mn mx b :
  b ∈ chunk_boundaries w rctx src srclen mn mx →
  (∃ i, boundary_at w rctx (scan_bytes rctx src srclen) i b ∧ matches mn (bfinger b) = true) ∨
  offset b = Z.min srclen (max_size rctx).
Proof.
  unfold chunk_boundaries. set (bytes := scan_bytes rctx src srclen).
  case_decide as E.
  { intros ->%list_elem_of_singleton. by right. }
  intros (i & Hi & Hm & Ho)%elem_of_boundaries. left. exists i. split; [|done].
  pose proof (prefix_lookup_Some _ _ _ _ Hi (upto_prefix _ _)) as Hf.
  pose proof (lookup_lt_Some _ _ _ Hf) as Hlt. rewrite length_fingers in Hlt.
  rewrite fingers_lookup in Hf by done. injection Hf as Hf. split_and!; [done|lia|done].
Qed.

Lemma chunk_boundaries_complete w rctx src srclen mn mx b i :
  boundary_at w rctx (scan_bytes rctx src srclen) i b → matches mn (bfinger b) = true →
  (∀ j c, (j < i)%nat → boundary_at w rctx (scan_bytes rctx src srclen) j c →
     stops mx (bfinger c) = false) →
  b ∈ chunk_boundaries w rctx src srclen mn mx.
Proof.
  intros (Hlt & Ho & Hf) Hm Hj. unfold chunk_boundaries.
  set (bytes := scan_bytes rctx src srclen) in *.
  assert (b ∈ boundaries mn (Z.of_nat (min_size rctx)) (upto (stops mx) (fingers w [] bytes)))
    as Hb.
  { apply elem_of_boundaries. exists i. split_and!; [|done|lia].
    apply upto_reaches; [by rewrite fingers_lookup, Hf|].
    intros j y Hji Hy. pose proof (lookup_lt_Some _ _ _ Hy) as Hjl.
    rewrite length_fingers in Hjl. rewrite fingers_lookup in Hy by done. injection Hy as <-.
    refine (Hj j {| offset := _; bfinger := _ |} Hji _). by split_and!. }
  case_decide as E; [|done]. rewrite E in Hb. by apply elem_of_nil in Hb.
Qed.

Lemma length_chunk_boundaries w rctx src srclen mn mx :
  (length (chunk_boundaries w rctx src srclen mn mx) ≤
   Nat.max 1 (length (scan_bytes rctx src srclen)))%nat.
Proof.
  unfold chunk_boundaries. case_decide; [cbn; lia|].
  pose proof (length_boundaries mn (Z.of_nat (min_size rctx))
    (upto (stops mx) (fingers w [] (scan_bytes rctx src srclen)))).
  pose proof (length_upto_fingers w [] (scan_bytes rctx src srclen) (stops mx)). lia.
Qed.


(** A context as [InitRabinCtx] leaves it, for the window of waprox. *)
Definition mrc_ctx : RabinCtx :=
  match InitRabinCtx blank_ctx 64 16 0 (128 * 1024) with Done c => c | Fault _ => blank_ctx end.

Lemma mrc_ctx_ok : rabin_ok 16 (rp mrc_ctx) ∧ min_size mrc_ctx = 0%nat ∧ max_size mrc_ctx = 131072.
Proof.
  unfold mrc_ctx, InitRabinCtx. set (rp0 := Build_RABINPOLY _ _ _ _ _ _ 0).
  destruct (InitializeRabin_ok rp0 16 eq_refl) as (rp1 & Hi & Hok); [lia|done| |].
  { by apply Forall_replicate. }
  destruct (GetNormalizedSize_total 64) as (n & -> & _); [lia|]. cbn [mbind outcome_bind].
  rewrite Hi. cbn. by split_and!.
Qed.

(** ** The boundary array of the caller *)

Lemma scan_overflows w cap mn mx srclen rp f hist bs p src :
  nested mn mx → rolling w hist rp f → Forall is_byte src →
  p + Z.of_nat (length src) ≤ srclen → (length bs ≤ cap)%nat →
  (cap < length bs + length (boundaries mn p (upto (stops mx) (fingers w hist src))))%nat →
  scan cap mn mx srclen rp f bs p src = Fault OutOfBounds.
Proof.
  intros Hn. revert rp f hist bs p. induction src as [|b src IH];
    intros rp f hist bs p Hroll Hsrc Hp Hle; cbn [fingers upto boundaries scan].
  { cbn. lia. }
  apply Forall_cons_1 in Hsrc as [Hb Hsrc]. cbn [length] in Hp.
  destruct (rolling_step w hist rp f b Hroll Hb) as [-> Hroll'].
  set (f' := fingerprint (last_bytes w (hist ++ [b]))) in *. cbn [mbind outcome_bind].
  intros Hcap. destruct (matches mn f') eqn:Em.
  - destruct (decide (length bs = cap)) as [He|Hne].
    { by rewrite store_boundary_full by lia. }
    rewrite store_boundary_ok by lia. cbn [mbind outcome_bind].
    change (negb (mx =? 0) && matches mx f') with (stops mx f').
    destruct (stops mx f') eqn:Es; cbn [boundaries] in Hcap; rewrite Em in Hcap;
      cbn [app length] in Hcap; [lia|].
    apply (IH _ _ (hist ++ [b])); [done|done|lia|rewrite length_app; cbn; lia|].
    rewrite length_app. cbn [length]. lia.
  - cbn [mbind outcome_bind].
    change (negb (mx =? 0) && matches mx f') with (stops mx f').
    assert (stops mx f' = false) as Es.
    { destruct (stops mx f') eqn:Es; [|done]. apply andb_prop in Es as [_ Es].
      by rewrite (nested_matches _ _ _ Hn Es) in Em. }
    rewrite Es in Hcap |- *. cbn [boundaries] in Hcap. rewrite Em in Hcap.
    by apply (IH _ _ (hist ++ [b])); [done|done|lia|lia|].
Qed.

Lemma upto_all {A} (stop : A → bool) l :
  Forall (λ x, stop x = false) l → upto stop l = l.
Proof. induction 1 as [|x l Hx _ IH]; cbn; [done|]. by rewrite Hx, IH. Qed.

Lemma length_boundaries_all m p fs :
  Forall (λ f, matches m f = true) fs → length (boundaries m p fs) = length fs.
Proof.
  intros Hf. revert p. induction Hf as [|f fs Hm _ IH]; intros p; cbn; [done|].
  rewrite Hm. cbn. by rewrite IH.
Qed.

Lemma boundaries_app m p fs1 fs2 :
  boundaries m p (fs1 ++ fs2) =
    boundaries m p fs1 ++ boundaries m (p + Z.of_nat (length fs1)) fs2.
Proof.
  revert p. induction fs1 as [|f fs1 IH]; intros p; cbn [app boundaries length].
  - by rewrite Z.add_0_r.
  - rewrite IH, <-app_assoc. do 3 f_equal. lia.
Qed.

Lemma fingers_app w hist src1 src2 :
  fingers w hist (src1 ++ src2) = fingers w hist src1 ++ fingers w (hist ++ src1) src2.
Proof.
  revert hist. induction src1 as [|b src1 IH]; intros hist; cbn [app fingers].
  - by rewrite app_nil_r.
  - by rewrite IH, <-app_assoc.
Qed.

(** The windows of a run of one byte value, once the zeros have left. *)
Lemma fingers_run w b k n :
  (w ≤ S k)%nat →
  fingers w (replicate k b) (replicate n b) = replicate n (fingerprint (replicate w b)).
Proof.
  revert k. induction n as [|n IH]; intros k Hk; cbn [replicate fingers]; [done|].
  change [b] with (replicate 1 b). rewrite <-replicate_add, Nat.add_1_r, IH by lia.
  f_equal. replace (S k) with (S k - w + w)%nat by lia. rewrite replicate_add.
  by rewrite last_bytes_suffix by apply length_replicate.
Qed.

(** The number of boundaries is not bounded by the caller's array. On a run
    of one byte value whose window fingerprint matches [mn] but not [mx],
    every position past the first window is a boundary and the scan does not
    stop: a run longer than the array (of [g_ChunkSize] cells in [DoPreMRC])
    makes [GetRabinChunkSizeEx] write past its end. *)
Theorem constant_run_overflows (w cap n : nat) (rctx : RabinCtx) (b mn mx : Z) :
  rabin_ok w (rp rctx) → nested mn mx → is_byte b →
  min_size rctx = 0%nat → Z.of_nat n ≤ max_size rctx →
  matches mn (fingerprint (replicate w b)) = true →
  Forall (λ f, stops mx f = false) (fingers w [] (replicate w b)) →
  (cap + w ≤ n)%nat →
  GetRabinChunkSizeEx cap rctx (replicate n b) (Z.of_nat n) mn mx true = Fault OutOfBounds.
Proof.
  intros Hok Hn Hb Hmin Hmax Hm Hs Hcap. unfold GetRabinChunkSizeEx.
  cbn [set_rp finger min_size max_size rp]. rewrite Hmin, Z.min_l, Nat2Z.id by done.
  rewrite drop_0, take_ge by (rewrite length_replicate; lia).
  pose proof (ok_window _ _ Hok) as Hw.
  rewrite (scan_overflows w cap mn mx (Z.of_nat n) _ 0 []); [done|done| | | | |].
  - by apply ZeroRegionBuf_rolling.
  - by apply Forall_replicate.
  - rewrite length_replicate. lia.
  - cbn. lia.
  - replace n with ((w - 1) + (n - (w - 1)))%nat by lia.
    rewrite replicate_add, fingers_app, app_nil_l, fingers_run by lia.
    rewrite upto_all.
    + rewrite boundaries_app, length_app.
      rewrite (length_boundaries_all _ _ (replicate _ _)) by (by apply Forall_replicate).
      rewrite length_replicate. cbn. lia.
    + replace (replicate w b) with (replicate (w - 1) b ++ replicate 1 b) in Hs
        by (rewrite <-replicate_add; f_equal; lia).
      rewrite fingers_app, app_nil_l, fingers_run in Hs by lia. apply Forall_app in Hs as [Hs1 Hs2].
      apply Forall_app. split; [done|]. apply Forall_replicate. cbn in Hs2.
      by apply Forall_cons_1 in Hs2 as [? _].
Qed.

(** A run of the byte 2, with the default sizes (64 and 1024) and an array of
    1024 cells. *)
Lemma constant_run_overflows_witness :
  GetRabinChunkSizeEx 1024 mrc_ctx (replicate 1040 2) 1040 63 1023 true = Fault OutOfBounds.
Proof.
  destruct mrc_ctx_ok as (Hok & Hmin & Hmax).
  apply (constant_run_overflows 16 1024 1040); [exact Hok|reflexivity|unfold is_byte; lia
    |exact Hmin|rewrite Hmax; lia|vm_compute; reflexivity| |lia].
  vm_compute. repeat constructor.
Defined.

