(* ===== verification/Mrc.v ===== *)
(** * Multi-resolution chunking

    Models the active path of [src/waprox/mrc_tree.c]: [DoPreMRC] cuts a
    buffer at every level of resolution, [MakeTree] links each chunk to the
    chunk that contains it, [ResolveWithHint] marks the chunks the peer is
    believed to have, [FlushChildren] and [GetCandidateList2] choose the chunks
    to send.  The static arrays of the C file ([pNames], [pli],
    [pRealBoundary]) are lists of their allocated size; a pointer into the
    source buffer is an offset. *)

From Stdlib Require Import ZArith Lia.
From stdpp Require Import base list option numbers sorting.
From S2P Require Import Prelude Bytes Rabin.

(** ** Data *)

Definition WAPROX_MIN_CHUNK_SIZE : Z := 30.
Definition WAPROX_RABIN_WINDOW : nat := 16.
Definition WAPROX_MRC_MIN : nat := 0.
Definition WAPROX_MRC_MAX : Z := 128 * 1024.
Definition MAX_CHUNK_SIZE : Z := 64 * 1024 * 5.

Inductive chunkType := chunk_name | chunk_both | chunk_index | chunk_raw.

#[export] Instance chunkType_eq_dec : EqDecision chunkType.
Proof. solve_decision. Defined.

(** [char* pChunk]: an offset into the source buffer, or memory of its own. *)
Inductive chunk_ptr :=
  | NULL
  | Psrc (off : Z)
  | Own (content : list Z).

Record OneChunkName := {
  cn_type : chunkType;
  cn_length : Z;
  cn_sha1name : list Z;
  cn_pChunk : chunk_ptr;
  cn_freeChunk : bool;
  cn_rindex : Z;
  cn_index : Z;
  cn_parentIdx : Z;
  cn_level : Z;
  cn_isHit : bool;
  cn_isSha1Ready : bool;
  cn_isCandidate : bool;
  cn_offset : Z;
  cn_fromPeer : bool
}.

Record MRCPerLevelInfo := { numNames : nat; firstIndex : nat }.

Record OneCandidate := {
  ca_index : Z;
  ca_offset : Z;
  ca_length : Z;
  ca_isHit : bool;
  ca_sha1name : list Z
}.

(** The globals the chunking depends on. *)
Record MRCParams := {
  g_ChunkSize : Z;
  g_MinChunkSize : Z;
  g_NumMRCWays : Z;
  g_maxLevel : nat;
  g_maxNames : nat
}.

(** ** [InitMRCParams]

    The loop that counts the levels; the sum it keeps in [g_maxNames] is
    overwritten after the loop. *)

Fixpoint count_levels (fuel : nat) (chunkSize ways min : Z) (level : nat) : outcome nat :=
  match fuel with
  | O => Fault OutOfFuel
  | S fuel =>
      let chunkSize := Z.quot chunkSize ways in
      if chunkSize <? min then Done level
      else count_levels fuel chunkSize ways min (S level)
  end.

Definition InitMRCParams (fuel : nat) (chunkSize minSize ways : Z) : outcome MRCParams :=
  maxLevel ← (if 1 <? ways then count_levels fuel chunkSize ways minSize 1 else Done 1%nat);
  Done {| g_ChunkSize := chunkSize; g_MinChunkSize := minSize; g_NumMRCWays := ways;
          g_maxLevel := maxLevel; g_maxNames := (Z.to_nat chunkSize * maxLevel)%nat |}.

(** ** Setters of the fields that change after a chunk is initialised *)

Definition InitOneChunk (name : OneChunkName) : OneChunkName :=
  {| cn_type := chunk_name; cn_length := 0; cn_sha1name := cn_sha1name name;
     cn_pChunk := NULL; cn_freeChunk := false; cn_rindex := -1; cn_index := 0;
     cn_parentIdx := -1; cn_level := 0; cn_isHit := false; cn_isSha1Ready := false;
     cn_isCandidate := false; cn_offset := 0; cn_fromPeer := false |}.

Definition set_chunk (c : OneChunkName) (length index level : Z) (p : chunk_ptr) (offset : Z)
    : OneChunkName :=
  {| cn_type := chunk_name; cn_length := length; cn_sha1name := cn_sha1name c;
     cn_pChunk := p; cn_freeChunk := cn_freeChunk c; cn_rindex := cn_rindex c;
     cn_index := index; cn_parentIdx := cn_parentIdx c; cn_level := level;
     cn_isHit := cn_isHit c; cn_isSha1Ready := cn_isSha1Ready c;
     cn_isCandidate := cn_isCandidate c; cn_offset := offset;
     cn_fromPeer := cn_fromPeer c |}.

Definition set_parentIdx (p : Z) (c : OneChunkName) : OneChunkName :=
  {| cn_type := cn_type c; cn_length := cn_length c; cn_sha1name := cn_sha1name c;
     cn_pChunk := cn_pChunk c; cn_freeChunk := cn_freeChunk c; cn_rindex := cn_rindex c;
     cn_index := cn_index c; cn_parentIdx := p; cn_level := cn_level c;
     cn_isHit := cn_isHit c; cn_isSha1Ready := cn_isSha1Ready c;
     cn_isCandidate := cn_isCandidate c; cn_offset := cn_offset c;
     cn_fromPeer := cn_fromPeer c |}.

Definition set_sha1name (ready : bool) (sha1name : list Z) (c : OneChunkName) : OneChunkName :=
  {| cn_type := cn_type c; cn_length := cn_length c; cn_sha1name := sha1name;
     cn_pChunk := cn_pChunk c; cn_freeChunk := cn_freeChunk c; cn_rindex := cn_rindex c;
     cn_index := cn_index c; cn_parentIdx := cn_parentIdx c; cn_level := cn_level c;
     cn_isHit := cn_isHit c; cn_isSha1Ready := ready;
     cn_isCandidate := cn_isCandidate c; cn_offset := cn_offset c;
     cn_fromPeer := cn_fromPeer c |}.

Definition set_isHit (hit : bool) (c : OneChunkName) : OneChunkName :=
  {| cn_type := cn_type c; cn_length := cn_length c; cn_sha1name := cn_sha1name c;
     cn_pChunk := cn_pChunk c; cn_freeChunk := cn_freeChunk c; cn_rindex := cn_rindex c;
     cn_index := cn_index c; cn_parentIdx := cn_parentIdx c; cn_level := cn_level c;
     cn_isHit := hit; cn_isSha1Ready := cn_isSha1Ready c;
     cn_isCandidate := cn_isCandidate c; cn_offset := cn_offset c;
     cn_fromPeer := cn_fromPeer c |}.

Definition set_isCandidate (b : bool) (c : OneChunkName) : OneChunkName :=
  {| cn_type := cn_type c; cn_length := cn_length c; cn_sha1name := cn_sha1name c;
     cn_pChunk := cn_pChunk c; cn_freeChunk := cn_freeChunk c; cn_rindex := cn_rindex c;
     cn_index := cn_index c; cn_parentIdx := cn_parentIdx c; cn_level := cn_level c;
     cn_isHit := cn_isHit c; cn_isSha1Ready := cn_isSha1Ready c;
     cn_isCandidate := b; cn_offset := cn_offset c;
     cn_fromPeer := cn_fromPeer c |}.

(** ** [DoPreMRC] *)

(** The variables of the loops over levels and boundaries. *)
Record PreState := {
  ps_names : list OneChunkName;
  ps_real : list bool;
  ps_pli : list MRCPerLevelInfo;
  ps_index : nat;
  ps_lastOffset : Z;
  ps_buffer : Z
}.

(** One turn of [for (i = 0; i < numBoundaries; i++)]. *)
Definition boundary_step (bs : list RabinBoundary) (rb_size chunkSize : Z) (level : nat)
    (st : PreState) (i : nat) : outcome PreState :=
  b ← get bs i;
  if matches (chunkSize - 1) (bfinger b) || (S i =? length bs)%nat then
    let length_ := offset b - ps_lastOffset st in
    real ← get (ps_real st) i;
    if (length_ <=? WAPROX_MIN_CHUNK_SIZE) && negb real then Done st
    else
      _ ← (if (level =? 0)%nat then c_assert (length_ =? rb_size) else Done tt);
      old ← get (ps_names st) (ps_index st);
      _ ← c_assert (0 <? length_);
      let c := set_chunk (InitOneChunk old) length_ (Z.of_nat (ps_index st))
                 (Z.of_nat level) (Psrc (ps_buffer st)) (ps_lastOffset st) in
      names ← put (ps_names st) (ps_index st) c;
      real' ← put (ps_real st) i true;
      pli ← update (ps_pli st) level
              (λ p, {| numNames := S (numNames p); firstIndex := firstIndex p |});
      Done {| ps_names := names; ps_real := real'; ps_pli := pli;
              ps_index := S (ps_index st); ps_lastOffset := offset b;
              ps_buffer := ps_buffer st + length_ |}
  else Done st.

(** The body of [while (chunkSize >= g_MinChunkSize)]. *)
Definition level_step (bs : list RabinBoundary) (rb_size chunkSize : Z) (level : nat)
    (st : PreState) : outcome PreState :=
  pli ← put (ps_pli st) level {| numNames := 0; firstIndex := ps_index st |};
  foldM (boundary_step bs rb_size chunkSize level)
    {| ps_names := ps_names st; ps_real := ps_real st; ps_pli := pli;
       ps_index := ps_index st; ps_lastOffset := 0; ps_buffer := 0 |}
    (seq 0 (length bs)).

(** The loop; returns the state and the number of levels. *)
Fixpoint level_loop (fuel : nat) (bs : list RabinBoundary) (rb_size minSize ways chunkSize : Z)
    (level : nat) (st : PreState) : outcome (PreState * nat) :=
  if minSize <=? chunkSize then
    match fuel with
    | O => Fault OutOfFuel
    | S fuel =>
        st ← level_step bs rb_size chunkSize level st;
        if ways =? 1 then Done (st, S level)
        else level_loop fuel bs rb_size minSize ways (Z.quot chunkSize ways) (S level) st
    end
  else Done (st, level).

(** What [DoPreMRC] returns: the context, the names, their number, the size of
    the chunk, the number of levels and the table of the levels. *)
Record PreMRC := {
  pm_rctx : RabinCtx;
  pm_names : list OneChunkName;
  pm_numNames : nat;
  pm_rb_size : Z;
  pm_maxLevel : nat;
  pm_pli : list MRCPerLevelInfo
}.

Definition DoPreMRC (g : MRCParams) (names0 : list OneChunkName) (pli0 : list MRCPerLevelInfo)
    (rctx : RabinCtx) (psrc : list Z) (buf_len : Z) : outcome PreMRC :=
  if WAPROX_MIN_CHUNK_SIZE <=? Z.of_nat WAPROX_RABIN_WINDOW then Fault NiceExit else
  let rabin_buffer_len := Z.min buf_len MAX_CHUNK_SIZE in
  min_mask ← GetMRCMask (g_MinChunkSize g);
  max_mask ← GetMRCMask (g_ChunkSize g);
  '(rctx, bs, rb_size) ←
    GetRabinChunkSizeEx (Z.to_nat (g_ChunkSize g)) rctx psrc rabin_buffer_len
      min_mask max_mask true;
  _ ← c_assert (0 <? rb_size);
  _ ← c_assert (rb_size <=? rabin_buffer_len);
  _ ← c_assert (0 <? length bs)%nat;
  last ← get bs (length bs - 1);
  _ ← c_assert (offset last =? rb_size);
  real ← put (replicate (g_maxNames g) false) (length bs - 1) true;
  '(st, level) ←
    level_loop (S (g_maxLevel g)) bs rb_size (g_MinChunkSize g) (g_NumMRCWays g)
      (g_ChunkSize g) 0
      {| ps_names := names0; ps_real := real; ps_pli := pli0; ps_index := 0;
         ps_lastOffset := 0; ps_buffer := 0 |};
  _ ← c_assert (0 <? ps_index st)%nat;
  Done {| pm_rctx := rctx; pm_names := ps_names st; pm_numNames := ps_index st;
          pm_rb_size := rb_size; pm_maxLevel := level; pm_pli := ps_pli st |}.

(** ** [MakeTree] *)

Definition GetTreeLevel2 (names : list OneChunkName) (index : Z) : outcome Z :=
  c ← get_at names index; Done (cn_level c).

Definition GetParent2 (names : list OneChunkName) (index : Z) : outcome Z :=
  if index =? 0 then Done 0 else c ← get_at names index; Done (cn_parentIdx c).

(** [while (TRUE)]: the children of one parent. Returns the names and the
    next child with the length of the children so far. *)
Fixpoint child_loop (fuel : nat) (numNames : nat) (names : list OneChunkName)
    (parentIndex : nat) (parentLength : Z) (childIndex : nat) (childLength : Z)
    : outcome (list OneChunkName * nat * Z) :=
  match fuel with
  | O => Fault OutOfFuel
  | S fuel =>
      _ ← c_assert (childIndex <? numNames)%nat;
      c ← get names childIndex;
      let childLength := childLength + cn_length c in
      names ← put names childIndex (set_parentIdx (Z.of_nat parentIndex) c);
      if childLength =? parentLength then Done (names, S childIndex, childLength)
      else child_loop fuel numNames names parentIndex parentLength (S childIndex) childLength
  end.

(** One turn of the loop over the chunks of a level: the names, the child
    index, the child length and the parent length. *)
Definition parent_step (numNames : nat) (st : list OneChunkName * nat * Z * Z)
    (parentIndex : nat) : outcome (list OneChunkName * nat * Z * Z) :=
  let '(names, childIndex, childLength, parentLength) := st in
  _ ← c_assert (parentIndex <? numNames)%nat;
  p ← get names parentIndex;
  let parentLength := parentLength + cn_length p in
  '(names, childIndex, childLength) ←
    child_loop (S numNames) numNames names parentIndex parentLength childIndex childLength;
  Done (names, childIndex, childLength, parentLength).

Definition MakeTree (levInfo : list MRCPerLevelInfo) (maxLevel : nat)
    (pNames : list OneChunkName) (numNames_ : nat) : outcome (list OneChunkName) :=
  foldM (λ names i,
      li ← get levInfo i;
      lj ← get levInfo (S i);
      '(names, _, _, _) ←
        foldM (parent_step numNames_) (names, firstIndex lj, 0, 0)
          (seq (firstIndex li) (numNames li));
      Done names)
    pNames (seq 0 (maxLevel - 1)).

(** ** [ResolveWithHint] *)

Section resolve.
Context `{Digest}.
(** The hint tables, as [GetSendHint] and [GetDiskHint] look them up. *)
Context (GetSendHint GetDiskHint : list Z → bool).

(** The bytes a chunk pointer gives access to. *)
Definition chunk_bytes (psrc : list Z) (c : OneChunkName) : outcome (list Z) :=
  match cn_pChunk c with
  | NULL => Fault OutOfBounds
  | Psrc off => if off <? 0 then Fault OutOfBounds
                else load psrc (Z.to_nat off) (Z.to_nat (cn_length c))
  | Own content => load content 0 (Z.to_nat (cn_length c))
  end.

Definition CheckNameHint (psrc : list Z) (isSender : bool) (cur : OneChunkName)
    : outcome OneChunkName :=
  bytes ← chunk_bytes psrc cur;
  let sha1name := Calc_SHA1Sig bytes in
  let hint := if isSender then GetSendHint sha1name else GetDiskHint sha1name in
  Done (set_isHit hint (set_sha1name true sha1name cur)).

(** The decision for one chunk, given its parent. *)
Definition resolve_chunk (psrc : list Z) (isSender : bool) (newIdx : nat)
    (cur par : OneChunkName) : outcome OneChunkName :=
  if cn_length cur <=? WAPROX_MIN_CHUNK_SIZE then
    cur ← CheckNameHint psrc isSender cur; Done (set_isHit true cur)
  else if (newIdx =? 0)%nat then CheckNameHint psrc isSender cur
  else if cn_isHit par then Done (set_isHit true cur)
  else if cn_length par =? cn_length cur then
    _ ← c_assert (cn_isSha1Ready par);
    _ ← c_assert (negb (cn_isHit par));
    Done (set_sha1name true (cn_sha1name par) (set_isHit (cn_isHit par) cur))
  else CheckNameHint psrc isSender cur.

(** One turn of the loop over the chunks of a level: the names, the offset and
    the number of hits. *)
Definition resolve_step (numNames_ : nat) (psrc : list Z) (buf_len : Z) (isSender : bool)
    (st : list OneChunkName * Z * nat) (newIdx : nat)
    : outcome (list OneChunkName * Z * nat) :=
  let '(names, offset, numHits) := st in
  _ ← c_assert (newIdx <? numNames_)%nat;
  parent ← GetParent2 names (Z.of_nat newIdx);
  cur ← get names newIdx;
  par ← get_at names parent;
  _ ← c_assert (offset + cn_length cur <=? buf_len);
  _ ← c_assert (offset =? cn_offset cur);
  cur' ← resolve_chunk psrc isSender newIdx cur par;
  names ← put names newIdx cur';
  Done (names, offset + cn_length cur, if cn_isHit cur' then S numHits else numHits).

(** The loop over the levels; returns the names and the lowest level reached. *)
Fixpoint resolve_levels (numNames_ : nat) (psrc : list Z) (buf_len : Z) (isSender : bool)
    (pli : list MRCPerLevelInfo) (names : list OneChunkName) (lowLevel : nat)
    (levels : list nat) : outcome (list OneChunkName * nat) :=
  match levels with
  | [] => Done (names, lowLevel)
  | i :: levels =>
      li ← get pli i;
      '(names, _, numHits) ←
        foldM (resolve_step numNames_ psrc buf_len isSender) (names, 0, 0%nat)
          (seq (firstIndex li) (numNames li));
      if (numHits =? numNames li)%nat then Done (names, i)
      else resolve_levels numNames_ psrc buf_len isSender pli names i levels
  end.

Definition ResolveWithHint (pNames : list OneChunkName) (numNames_ : nat)
    (psrc : list Z) (buf_len : Z) (pli : list MRCPerLevelInfo) (maxLevel : nat)
    (isSender : bool) : outcome (list OneChunkName * nat) :=
  resolve_levels numNames_ psrc buf_len isSender pli pNames 0 (seq 0 maxLevel).
End resolve.

(** ** Candidates *)

(** The counting loop of [FlushChildren]. *)
Definition flush_count (names : list OneChunkName) (parent : Z)
    (st : nat * nat) (child : nat) : outcome (nat * nat) :=
  let '(hit_count, candidate_count) := st in
  p ← GetParent2 names (Z.of_nat child);
  _ ← c_assert (parent =? p);
  c ← get names child;
  Done ((if cn_isHit c then S hit_count else hit_count),
        (if cn_isCandidate c then S candidate_count else candidate_count)).

Definition set_candidates (b : bool) (names : list OneChunkName) (stack : list nat)
    : outcome (list OneChunkName) :=
  foldM (λ names i, update names i (set_isCandidate b)) names stack.

Definition FlushChildren (names : list OneChunkName) (stack : list nat)
    : outcome (list OneChunkName) :=
  let sp := length stack in
  _ ← c_assert (1 <=? sp)%nat;
  first ← get stack 0;
  parent ← GetParent2 names (Z.of_nat first);
  '(hit_count, candidate_count) ← foldM (flush_count names parent) (0%nat, 0%nat) stack;
  if (candidate_count <? sp)%nat then Done names
  else
    _ ← c_assert (candidate_count =? sp)%nat;
    _ ← (if parent <? 0 then Fault OutOfBounds else Done tt);
    if (hit_count =? 0)%nat || (hit_count =? sp)%nat then
      names ← set_candidates false names stack;
      update names (Z.to_nat parent) (set_isCandidate true)
    else
      names ← set_candidates true names stack;
      update names (Z.to_nat parent) (set_isCandidate false).

(** One turn of the loop over the chunks of a level: the names and the stack. *)
Definition bottom_up_step (maxNames numNames_ base numChunks : nat)
    (st : list OneChunkName * list nat) (j : nat)
    : outcome (list OneChunkName * list nat) :=
  let '(names, stack) := st in
  let child := (base + j)%nat in
  parent ← GetParent2 names (Z.of_nat child);
  _ ← c_assert (child <? numNames_)%nat;
  _ ← c_assert (parent <? Z.of_nat numNames_);
  _ ← c_assert (parent <=? Z.of_nat child);
  let stack := stack ++ [child] in
  _ ← c_assert (length stack <? maxNames)%nat;
  if (S j =? numChunks)%nat then
    names ← FlushChildren names stack; Done (names, [])
  else
    nextParent ← GetParent2 names (Z.of_nat (S child));
    if negb (nextParent =? parent) then
      names ← FlushChildren names stack; Done (names, [])
    else Done (names, stack).

Definition bottom_up_level (maxNames numNames_ : nat) (pli : list MRCPerLevelInfo)
    (names : list OneChunkName) (i : nat) : outcome (list OneChunkName) :=
  li ← get pli i;
  '(names, _) ←
    foldM (bottom_up_step maxNames numNames_ (firstIndex li) (numNames li)) (names, [])
      (seq 0 (numNames li));
  Done names.

(** [CompareOneChunkName] orders the candidates by offset. *)
Definition CompareOneChunkName (c1 c2 : OneChunkName) : Z :=
  if cn_offset c1 <? cn_offset c2 then -1
  else if cn_offset c2 <? cn_offset c1 then 1 else 0.

Definition chunk_le (c1 c2 : OneChunkName) : Prop := CompareOneChunkName c1 c2 ≤ 0.
#[export] Instance chunk_le_dec c1 c2 : Decision (chunk_le c1 c2).
Proof. unfold chunk_le. apply _. Defined.

Definition candidate_of (c : OneChunkName) : OneCandidate :=
  {| ca_index := cn_index c; ca_offset := cn_offset c; ca_length := cn_length c;
     ca_isHit := cn_isHit c; ca_sha1name := cn_sha1name c |}.

(** [malloc] and [qsort] of the candidates are a sort of the filtered array. *)
Definition GetCandidateList2 (g : MRCParams) (pNames : list OneChunkName) (numNames_ : nat)
    (pli : list MRCPerLevelInfo) (lowLevel : nat)
    : outcome (list OneChunkName * list OneCandidate) :=
  li ← get pli lowLevel;
  _ ← c_assert (numNames li <=? numNames_)%nat;
  names ← set_candidates true pNames (seq (firstIndex li) (numNames li));
  names ← (if g_NumMRCWays g =? 1 then
             _ ← c_assert (lowLevel =? 0)%nat; Done names
           else foldM (bottom_up_level (g_maxNames g) numNames_ pli) names
                  (downto lowLevel 0));
  let candidates := filter (λ c, cn_isCandidate c = true) (take numNames_ names) in
  _ ← c_assert (forallb cn_isSha1Ready candidates);
  let sorted := merge_sort chunk_le candidates in
  root ← get names 0;
  _ ← c_assert (sum_Z (cn_length <$> sorted) =? cn_length root);
  Done (names, candidate_of <$> sorted).
