(* ===== verification/MrcLevels.v ===== *)
(** * The levels of a multi-resolution tree

    [DoPreMRC] cuts a chunk at every resolution.  The cuts of a level are the
    end offsets of its chunks; this file shows that the routine returns, that
    the chunks of each level cover the whole buffer, and that every cut of a
    level is a cut of the next one. *)

From Stdlib Require Import ZArith Lia.
From stdpp Require Import base list option numbers sorting.
From S2P Require Import Prelude Bytes Rabin Mrc.

(** ** The chunks of a level *)

(** A chunk as [DoPreMRC] fills it. *)
Record fresh_chunk (idx lvl : nat) (a e : Z) (c : OneChunkName) : Prop := {
  fc_offset : cn_offset c = a;
  fc_length : cn_length c = e - a;
  fc_pos : a < e;
  fc_index : cn_index c = Z.of_nat idx;
  fc_level : cn_level c = Z.of_nat lvl;
  fc_pChunk : cn_pChunk c = Psrc a;
  fc_isHit : cn_isHit c = false;
  fc_ready : cn_isSha1Ready c = false;
  fc_candidate : cn_isCandidate c = false
}.

(** The chunks from index [idx] on have their ends at [cuts]. *)
Fixpoint nodes_at (names : list OneChunkName) (idx lvl : nat) (a : Z) (cuts : list Z) : Prop :=
  match cuts with
  | [] => True
  | e :: cuts' =>
      (∃ c, names !! idx = Some c ∧ fresh_chunk idx lvl a e c) ∧
      nodes_at names (S idx) lvl e cuts'
  end.

Definition last_cut (a : Z) (cuts : list Z) : Z := default a (list.last cuts).

Lemma last_cut_cons a e cuts : last_cut a (e :: cuts) = last_cut e cuts.
Proof. unfold last_cut. rewrite last_cons. by destruct (list.last cuts). Qed.

Lemma last_cut_snoc a cuts e : last_cut a (cuts ++ [e]) = e.
Proof. unfold last_cut. by rewrite last_snoc. Qed.

Lemma nodes_at_snoc names idx lvl a cuts e c :
  nodes_at names idx lvl a cuts →
  names !! (idx + length cuts)%nat = Some c →
  fresh_chunk (idx + length cuts) lvl (last_cut a cuts) e c →
  nodes_at names idx lvl a (cuts ++ [e]).
Proof.
  revert idx a. induction cuts as [|e' cuts IH]; intros idx a; cbn [nodes_at app length].
  - rewrite Nat.add_0_r. intros _ Hc Hf. split; [|done]. by exists c.
  - intros [Hx Hn] Hc Hf. split; [done|]. rewrite last_cut_cons in Hf.
    rewrite Nat.add_succ_r in Hc, Hf. by apply IH.
Qed.

Lemma last_cut_app a c1 c2 : last_cut a (c1 ++ c2) = last_cut (last_cut a c1) c2.
Proof.
  revert a. induction c1 as [|e c1 IH]; intros a; cbn [app]; [done|].
  by rewrite !last_cut_cons.
Qed.

Lemma nodes_at_app names idx lvl a c1 c2 :
  nodes_at names idx lvl a (c1 ++ c2) →
  nodes_at names idx lvl a c1 ∧
  nodes_at names (idx + length c1) lvl (last_cut a c1) c2.
Proof.
  revert idx a. induction c1 as [|e c1 IH]; intros idx a; cbn [app nodes_at length].
  - by rewrite Nat.add_0_r.
  - intros [Hx Hn]. rewrite last_cut_cons, Nat.add_succ_r.
    destruct (IH _ _ Hn) as [H1 H2]. by split.
Qed.

(** Only the entries from [idx] on matter. *)
Lemma nodes_at_agree names names' idx lvl a cuts :
  (∀ i, (idx ≤ i < idx + length cuts)%nat → names' !! i = names !! i) →
  nodes_at names idx lvl a cuts → nodes_at names' idx lvl a cuts.
Proof.
  revert idx a. induction cuts as [|e cuts IH]; intros idx a Hag; cbn [nodes_at]; [done|].
  intros [(c & Hc & Hf) Hn]. split.
  - exists c. split; [|done]. rewrite Hag; [done|cbn; lia].
  - apply IH; [|done]. intros i Hi. apply Hag. cbn. lia.
Qed.

Lemma nodes_at_insert names idx lvl a cuts i c :
  (idx + length cuts ≤ i)%nat → nodes_at names idx lvl a cuts →
  nodes_at (<[i := c]> names) idx lvl a cuts.
Proof.
  intros Hi. apply nodes_at_agree. intros j Hj. apply list_lookup_insert_ne. lia.
Qed.

(** ** The boundaries of a chunk *)

Section levels.
Context (bs : list RabinBoundary) (rb_size : Z) (maxNames maxLevel : nat).

(** What the scan gives. *)
Record boundaries_ok : Prop := {
  bo_sorted : StronglySorted before bs;
  bo_pos : ∀ b, b ∈ bs → 0 < offset b;
  bo_last : ∃ bs' b, bs = bs' ++ [b] ∧ offset b = rb_size;
  bo_room : (maxLevel * length bs ≤ maxNames)%nat
}.
Context (Hbs : boundaries_ok).

Lemma bs_last_index m b :
  bs !! m = Some b → S m = length bs → offset b = rb_size.
Proof using Hbs.
  destruct (bo_last Hbs) as (bs' & b' & -> & Ho). rewrite length_app. cbn.
  intros Hb Hm. assert (m = length bs') as -> by lia.
  rewrite lookup_app_r, Nat.sub_diag in Hb by done. by injection Hb as <-.
Qed.

Lemma bs_increasing i j b c :
  bs !! i = Some b → bs !! j = Some c → (i < j)%nat → offset b < offset c.
Proof using Hbs.
  intros Hi Hj Hlt. exact (StronglySorted_lookup_lt before bs i j b c (bo_sorted Hbs) Hi Hj Hlt).
Qed.
(** ** The loop over the boundaries *)

(** The state during the loop of level [lvl], which started at index [idx0]
    with names [names0], flags [real0] and [pli0]: [i] boundaries are done. *)
Record level_inv (chunkSize : Z) (lvl idx0 : nat) (names0 : list OneChunkName)
    (real0 : list bool) (pli0 : list MRCPerLevelInfo) (i : nat) (st : PreState)
    (cuts : list Z) : Prop := {
  li_names : length (ps_names st) = maxNames;
  li_agree : ∀ k, (k < idx0)%nat → ps_names st !! k = names0 !! k;
  li_nodes : nodes_at (ps_names st) idx0 lvl 0 cuts;
  li_index : ps_index st = (idx0 + length cuts)%nat;
  li_count : (length cuts ≤ i)%nat;
  li_lastOffset : ps_lastOffset st = last_cut 0 cuts;
  li_buffer : ps_buffer st = last_cut 0 cuts;
  li_pli : ps_pli st = <[lvl := {| numNames := length cuts; firstIndex := idx0 |}]> pli0;
  li_real : length (ps_real st) = length real0;
  li_sorted : StronglySorted Z.lt cuts;
  li_sound : ∀ e, e ∈ cuts → ∃ m b, (m < i)%nat ∧ bs !! m = Some b ∧ offset b = e ∧
    ps_real st !! m = Some true ∧
    (matches (chunkSize - 1) (bfinger b) = true ∨ S m = length bs);
  li_complete : ∀ m b, (m < i)%nat → bs !! m = Some b → real0 !! m = Some true →
    matches (chunkSize - 1) (bfinger b) = true ∨ S m = length bs → offset b ∈ cuts;
  li_real_mono : ∀ m, real0 !! m = Some true → ps_real st !! m = Some true;
  li_real_new : ∀ m, (i ≤ m)%nat → ps_real st !! m = real0 !! m
}.

Lemma last_cut_lt chunkSize lvl idx0 names0 real0 pli0 i st cuts b :
  level_inv chunkSize lvl idx0 names0 real0 pli0 i st cuts →
  bs !! i = Some b → Forall (λ e, e < offset b) cuts ∧ last_cut 0 cuts < offset b.
Proof using Hbs.
  intros Hinv Hb.
  assert (Forall (λ e, e < offset b) cuts) as Hall.
  { apply Forall_forall. intros e He.
    destruct (li_sound _ _ _ _ _ _ _ _ _ Hinv e He) as (m & c & Hm & Hc & <- & _).
    by eapply bs_increasing. }
  split; [done|]. unfold last_cut. destruct (list.last cuts) as [e|] eqn:E; cbn.
  - rewrite Forall_forall in Hall. apply Hall. apply last_Some in E as [cuts1 ->]. apply elem_of_app. right. by left.
  - apply (bo_pos Hbs). by eapply list_elem_of_lookup_2.
Qed.

(** A turn that keeps nothing. *)
Lemma level_inv_skip chunkSize lvl idx0 names0 real0 pli0 i st cuts b :
  level_inv chunkSize lvl idx0 names0 real0 pli0 i st cuts → bs !! i = Some b →
  (real0 !! i = Some true →
   ¬ (matches (chunkSize - 1) (bfinger b) = true ∨ S i = length bs)) →
  level_inv chunkSize lvl idx0 names0 real0 pli0 (S i) st cuts.
Proof.
  intros [] Hb Hno. split; try done.
  - lia.
  - intros e He. destruct (li_sound0 e He) as (m & c & Hm & H). exists m, c. auto with lia.
  - intros m c Hm Hc Hr Hk. destruct (decide (m = i)) as [->|].
    + rewrite Hb in Hc. injection Hc as <-. by destruct (Hno Hr).
    + apply (li_complete0 m); [lia|done..].
  - intros m Hm. apply li_real_new0. lia.
Qed.

(** A turn that keeps the boundary. *)
Lemma level_inv_keep chunkSize lvl idx0 names0 real0 pli0 i st cuts b old :
  level_inv chunkSize lvl idx0 names0 real0 pli0 i st cuts → bs !! i = Some b →
  (lvl < length pli0)%nat → (idx0 + i < maxNames)%nat → (i < length real0)%nat →
  matches (chunkSize - 1) (bfinger b) = true ∨ S i = length bs →
  level_inv chunkSize lvl idx0 names0 real0 pli0 (S i)
    {| ps_names := <[ps_index st :=
         set_chunk (InitOneChunk old) (offset b - ps_lastOffset st)
           (Z.of_nat (ps_index st)) (Z.of_nat lvl) (Psrc (ps_buffer st))
           (ps_lastOffset st)]> (ps_names st);
       ps_real := <[i := true]> (ps_real st);
       ps_pli := <[lvl := {| numNames := S (length cuts); firstIndex := idx0 |}]> (ps_pli st);
       ps_index := S (ps_index st); ps_lastOffset := offset b;
       ps_buffer := ps_buffer st + (offset b - ps_lastOffset st) |}
    (cuts ++ [offset b]).
Proof using Hbs.
  intros Hinv Hb Hl Hn Hi Hm. destruct (last_cut_lt _ _ _ _ _ _ _ _ _ _ Hinv Hb) as [Hall Hlt].
  destruct Hinv. split; cbn [ps_names ps_real ps_pli ps_index ps_lastOffset ps_buffer].
  - by rewrite length_insert.
  - intros k Hk. rewrite list_lookup_insert_ne by lia. by apply li_agree0.
  - eapply nodes_at_snoc.
    + apply nodes_at_insert; [lia|done].
    + rewrite li_index0. apply list_lookup_insert_eq. lia.
    + rewrite li_lastOffset0, li_buffer0. split; cbn; lia || done.
  - rewrite length_app. cbn. lia.
  - rewrite length_app. cbn. lia.
  - by rewrite last_cut_snoc.
  - rewrite last_cut_snoc, li_lastOffset0, li_buffer0. lia.
  - rewrite li_pli0, list_insert_insert_eq, length_app. do 2 f_equal. cbn. lia.
  - by rewrite length_insert.
  - by apply StronglySorted_snoc.
  - intros e [He|He]%elem_of_app.
    + destruct (li_sound0 e He) as (m & c & Hmi & Hc & Ho & Hr & Hk).
      exists m, c. split_and!; [lia|done|done| |done]. rewrite list_lookup_insert_ne by lia. done.
    + apply list_elem_of_singleton in He as ->. exists i, b. split_and!; [lia|done|done| |done].
      apply list_lookup_insert_eq. lia.
  - intros m c Hmi Hc Hr Hk. apply elem_of_app. destruct (decide (m = i)) as [->|].
    + right. rewrite Hb in Hc. injection Hc as <-. by apply list_elem_of_singleton.
    + left. apply (li_complete0 m); [lia|done..].
  - intros m Hr. destruct (decide (m = i)) as [->|].
    + apply list_lookup_insert_eq. lia.
    + rewrite list_lookup_insert_ne by lia. by apply li_real_mono0.
  - intros m Hmi. rewrite list_lookup_insert_ne by lia. apply li_real_new0. lia.
Qed.

(** At level 0 only the last boundary is kept. *)
Definition level_cond (chunkSize : Z) (lvl : nat) : Prop :=
  lvl = 0%nat → ∀ m b, bs !! m = Some b → matches (chunkSize - 1) (bfinger b) = true →
  S m = length bs.

Lemma boundary_step_inv chunkSize lvl idx0 names0 real0 pli0 i st cuts :
  level_inv chunkSize lvl idx0 names0 real0 pli0 i st cuts → (i < length bs)%nat →
  (lvl < length pli0)%nat → (idx0 + i < maxNames)%nat → length real0 = maxNames →
  level_cond chunkSize lvl →
  ∃ st' cuts', boundary_step bs rb_size chunkSize lvl st i = Done st' ∧
    level_inv chunkSize lvl idx0 names0 real0 pli0 (S i) st' cuts'.
Proof using Hbs.
  intros Hinv Hi Hl Hn Hr0 Hcond.
  destruct (lookup_lt_is_Some_2 bs i Hi) as [b Hb].
  destruct (last_cut_lt _ _ _ _ _ _ _ _ _ _ Hinv Hb) as [Hall Hlt].
  pose proof Hinv as Hinv'. destruct Hinv'.
  unfold boundary_step, get. rewrite Hb. cbn [mbind outcome_bind].
  destruct (matches (chunkSize - 1) (bfinger b) || (S i =? length bs)%nat) eqn:Ec.
  2: { exists st, cuts. split; [done|]. apply orb_false_iff in Ec as [E1 E2].
       apply Nat.eqb_neq in E2. eapply level_inv_skip; [done|done|].
       intros _ [E|E]; [congruence|lia]. }
  assert (matches (chunkSize - 1) (bfinger b) = true ∨ S i = length bs) as Hk.
  { apply orb_true_iff in Ec as [E|E]; [by left|right; by apply Nat.eqb_eq]. }
  destruct (lookup_lt_is_Some_2 (ps_real st) i) as [r Hr]; [lia|].
  rewrite Hr. cbn [mbind outcome_bind].
  destruct ((offset b - ps_lastOffset st <=? WAPROX_MIN_CHUNK_SIZE) && negb r) eqn:Es.
  { exists st, cuts. split; [done|]. apply andb_prop in Es as [_ Er].
    apply negb_true_iff in Er as ->. eapply level_inv_skip; [done|done|].
    rewrite li_real_new0 in Hr by lia. by rewrite Hr. }
  assert ((if (lvl =? 0)%nat then c_assert (offset b - ps_lastOffset st =? rb_size)
           else Done tt) = Done tt) as ->.
  { destruct (Nat.eqb_spec lvl 0) as [->|]; [|done].
    assert (S i = length bs) as Hlast by (destruct Hk; [by eapply Hcond|done]).
    assert (cuts = []) as ->.
    { destruct cuts as [|e cuts]; [done|].
      destruct (li_sound0 e) as (m & c & Hm & Hc & _ & _ & Hk'); [by left|].
      destruct Hk' as [Hk'|]; [|lia]. pose proof (Hcond eq_refl m c Hc Hk'). lia. }
    rewrite li_lastOffset0. cbn. rewrite (bs_last_index i b Hb Hlast).
    by rewrite Z.sub_0_r, Z.eqb_refl. }
  destruct (lookup_lt_is_Some_2 (ps_names st) (ps_index st)) as [old Hold]; [lia|].
  cbn [mbind outcome_bind]. rewrite Hold. cbn [mbind outcome_bind].
  replace (0 <? offset b - ps_lastOffset st) with true by (symmetry; apply Z.ltb_lt; lia).
  cbn [c_assert mbind outcome_bind]. unfold put, update, get, put.
  rewrite decide_True by lia. cbn [mbind outcome_bind].
  rewrite decide_True by lia. cbn [mbind outcome_bind].
  assert (ps_pli st !! lvl = Some {| numNames := length cuts; firstIndex := idx0 |}) as ->
    by (rewrite li_pli0; by apply list_lookup_insert_eq).
  cbn [mbind outcome_bind].
  rewrite decide_True by (rewrite li_pli0, length_insert; done). cbn [mbind outcome_bind].
  eexists _, (cuts ++ [offset b]). split; [reflexivity|]. cbn [numNames firstIndex].
  eapply level_inv_keep; [done|done|done|done|lia|done].
Qed.

(** The cuts of one level. *)
Record cuts_ok (cuts : list Z) : Prop := {
  co_sorted : StronglySorted Z.lt cuts;
  co_pos : ∀ e, e ∈ cuts → 0 < e;
  co_last : ∃ cuts', cuts = cuts' ++ [rb_size]
}.

Lemma level_step_cuts chunkSize lvl st :
  length (ps_names st) = maxNames → length (ps_real st) = maxNames →
  (lvl < length (ps_pli st))%nat → (ps_index st + length bs ≤ maxNames)%nat →
  level_cond chunkSize lvl → ps_real st !! (length bs - 1)%nat = Some true →
  ∃ st' cuts, level_step bs rb_size chunkSize lvl st = Done st' ∧ cuts_ok cuts ∧
    level_inv chunkSize lvl (ps_index st) (ps_names st) (ps_real st) (ps_pli st)
      (length bs) st' cuts.
Proof using Hbs.
  intros Hnames Hreal Hlvl Hroom Hcond Hlast. unfold level_step, put.
  rewrite decide_True by done. cbn [mbind outcome_bind].
  destruct (foldM_total (boundary_step bs rb_size chunkSize lvl)
    (λ l st', ∃ cuts, level_inv chunkSize lvl (ps_index st) (ps_names st) (ps_real st)
                        (ps_pli st) (length l) st' cuts)
    {| ps_names := ps_names st; ps_real := ps_real st;
       ps_pli := <[lvl := {| numNames := 0; firstIndex := ps_index st |}]> (ps_pli st);
       ps_index := ps_index st; ps_lastOffset := 0; ps_buffer := 0 |}
    (seq 0 (length bs))) as (st' & He & cuts & Hinv).
  - exists []. split; cbn; try done.
    + constructor.
    + by intros e ?%elem_of_nil.
    + intros m b Hm. lia.
  - intros l1 i l2 st1 Hl [cuts Hinv].
    assert (i = length l1 ∧ (i < length bs)%nat) as [-> Hi].
    { assert (seq 0 (length bs) !! length l1 = Some i) as Hlk
        by (rewrite Hl, lookup_app_r, Nat.sub_diag; done).
      apply lookup_seq in Hlk as [-> ?]. lia. }
    destruct (boundary_step_inv _ _ _ _ _ _ _ _ _ Hinv Hi Hlvl) as (st2 & cuts2 & E & Hinv2);
      [lia|done|done|].
    exists st2. split; [done|]. exists cuts2. rewrite length_app, Nat.add_1_r. done.
  - rewrite length_seq in Hinv. exists st', cuts. split; [done|]. split; [|done].
    destruct Hinv. split; [done| |].
    + intros e He2. destruct (li_sound0 e He2) as (m & b & _ & Hb & <- & _).
      apply (bo_pos Hbs). by eapply list_elem_of_lookup_2.
    + destruct (bo_last Hbs) as (bs' & b & Hbeq & Ho).
      assert (bs !! (length bs - 1)%nat = Some b) as Hb.
      { rewrite Hbeq, length_app, Nat.add_sub, lookup_app_r, Nat.sub_diag; done. }
      assert (length bs = S (length bs')) as Hlen by (rewrite Hbeq, length_app; cbn; lia).
      assert (rb_size ∈ cuts) as Hin.
      { rewrite <-Ho. apply (li_complete0 (length bs - 1)%nat); [lia|done|done|right; lia]. }
      destruct (exists_last (l := cuts)) as (cuts' & e & Heq).
      { intros ->. by apply elem_of_nil in Hin. }
      exists cuts'. rewrite Heq. do 2 f_equal.
      assert (e ∈ cuts) as Hein by (rewrite Heq; apply elem_of_app; right; by left).
      destruct (li_sound0 e Hein) as (m & c & Hm & Hc & <- & _).
      rewrite Heq in Hin. apply elem_of_app in Hin as [Hin|Hin].
      * destruct (decide (m = length bs - 1)%nat) as [->|].
        { rewrite Hb in Hc. by injection Hc as <-. }
        apply list_elem_of_lookup_1 in Hin as [k Hk].
        pose proof (lookup_lt_Some _ _ _ Hk) as Hklt.
        pose proof (bs_increasing m _ c b Hc Hb ltac:(lia)) as H1.
        rewrite Heq in li_sorted0.
        pose proof (StronglySorted_lookup_lt _ _ k (length cuts') _ _ li_sorted0
          (lookup_app_l_Some _ _ _ _ Hk) (list_lookup_middle cuts' [] _ _ eq_refl) Hklt). lia.
      * by apply list_elem_of_singleton in Hin.
Qed.
(** ** The loop over the levels *)

(** The index of the first chunk of level [k]. *)
Definition first_of (cutss : list (list Z)) (k : nat) : nat :=
  sum_list_with length (take k cutss).

Record loop_inv (chunkSize : Z) (st : PreState) (cutss : list (list Z)) : Prop := {
  lp_names : length (ps_names st) = maxNames;
  lp_real : length (ps_real st) = maxNames;
  lp_pli : length (ps_pli st) = maxLevel;
  lp_index : ps_index st = sum_list_with length cutss;
  lp_room : (ps_index st ≤ length cutss * length bs)%nat;
  lp_levels : ∀ k cuts, cutss !! k = Some cuts →
    cuts_ok cuts ∧
    ps_pli st !! k = Some {| numNames := length cuts; firstIndex := first_of cutss k |} ∧
    nodes_at (ps_names st) (first_of cutss k) k 0 cuts;
  lp_root : ∀ cuts, cutss !! 0%nat = Some cuts → cuts = [rb_size];
  lp_chain : ∀ k c1 c2, cutss !! k = Some c1 → cutss !! S k = Some c2 → c1 ⊆ c2;
  lp_last : ps_real st !! (length bs - 1)%nat = Some true;
  lp_kept : ∀ cuts e, list.last cutss = Some cuts → e ∈ cuts →
    ∃ m b, bs !! m = Some b ∧ offset b = e ∧ ps_real st !! m = Some true ∧
           (matches (chunkSize - 1) (bfinger b) = true ∨ S m = length bs)
}.

Lemma sum_list_with_snoc (cutss : list (list Z)) cuts :
  sum_list_with length (cutss ++ [cuts]) = (sum_list_with length cutss + length cuts)%nat.
Proof. rewrite sum_list_with_app. cbn. lia. Qed.

Lemma first_of_snoc cutss cuts k :
  (k ≤ length cutss)%nat → first_of (cutss ++ [cuts]) k = first_of cutss k.
Proof. intros Hk. unfold first_of. by rewrite take_app_le. Qed.

Lemma first_of_all cutss : first_of cutss (length cutss) = sum_list_with length cutss.
Proof. unfold first_of. by rewrite firstn_all. Qed.

Lemma first_of_S cutss k cuts :
  cutss !! k = Some cuts → first_of cutss (S k) = (first_of cutss k + length cuts)%nat.
Proof.
  intros Hk. unfold first_of. rewrite (take_S_r _ _ _ Hk). apply sum_list_with_snoc.
Qed.

Lemma first_of_mono cutss i j : (i ≤ j)%nat → (first_of cutss i ≤ first_of cutss j)%nat.
Proof.
  intros Hij. unfold first_of. replace j with (i + (j - i))%nat by lia.
  rewrite <-take_take_drop, sum_list_with_app. lia.
Qed.

Lemma first_of_le cutss k cuts :
  cutss !! k = Some cuts → (first_of cutss k + length cuts ≤ sum_list_with length cutss)%nat.
Proof.
  intros Hk. rewrite <-(first_of_S _ _ _ Hk), <-first_of_all.
  apply first_of_mono. apply lookup_lt_Some in Hk. lia.
Qed.

(** A level whose only cut is the end. *)
Lemma root_cuts chunkSize names0 real0 pli0 st cuts :
  level_inv chunkSize 0 0 names0 real0 pli0 (length bs) st cuts → cuts_ok cuts →
  level_cond chunkSize 0 → cuts = [rb_size].
Proof using Hbs.
  intros Hinv Hok Hcond. destruct (co_last _ Hok) as [cuts' ->].
  destruct cuts' as [|e cuts']; [done|]. exfalso.
  destruct (li_sound _ _ _ _ _ _ _ _ _ Hinv e) as (m & b & _ & Hb & He & _ & Hk);
    [by left|].
  assert (offset b = rb_size) as Ho.
  { apply (bs_last_index m b Hb). destruct Hk; [by eapply Hcond|done]. }
  pose proof (co_sorted _ Hok) as Hs. cbn in Hs. inversion_clear Hs as [|? ? _ Hall].
  rewrite Forall_forall in Hall. specialize (Hall rb_size).
  assert (e < rb_size); [|lia]. apply Hall, elem_of_app. right. by left.
Qed.

Lemma loop_step chunkSize chunkSize' st cutss :
  loop_inv chunkSize st cutss → (length cutss < maxLevel)%nat →
  level_cond chunkSize (length cutss) →
  (∀ f, matches (chunkSize - 1) f = true → matches (chunkSize' - 1) f = true) →
  ∃ st' cuts, level_step bs rb_size chunkSize (length cutss) st = Done st' ∧
    loop_inv chunkSize' st' (cutss ++ [cuts]).
Proof using Hbs.
  intros Hinv Hlt Hcond Hnest. destruct Hinv. pose proof (bo_room Hbs) as Hroom.
  destruct (level_step_cuts chunkSize (length cutss) st) as (st' & cuts & He & Hok & Hl);
    [done|done|lia| |done|done|].
  { assert (S (length cutss) * length bs ≤ maxLevel * length bs)%nat
      by (apply Nat.mul_le_mono_r; lia). lia. }
  exists st', cuts. split; [done|].
  assert (cutss = [] → cuts = [rb_size]) as Hroot.
  { intros ->. cbn in lp_index0. rewrite lp_index0 in Hl. by eapply root_cuts. }
  destruct Hl. split.
  - done.
  - by rewrite li_real0.
  - by rewrite li_pli0, length_insert.
  - by rewrite li_index0, lp_index0, sum_list_with_snoc.
  - rewrite length_app. cbn. lia.
  - intros k c Hk. destruct (decide (k = length cutss)) as [->|Hne].
    + rewrite lookup_app_r, Nat.sub_diag in Hk by done. injection Hk as <-.
      rewrite first_of_snoc, first_of_all, <-lp_index0 by done. split_and!; [done| |done].
      rewrite li_pli0. apply list_lookup_insert_eq. lia.
    + pose proof (lookup_lt_Some _ _ _ Hk) as Hklt. rewrite length_app in Hklt. cbn in Hklt.
      rewrite lookup_app_l in Hk by lia. rewrite first_of_snoc by lia.
      destruct (lp_levels0 k c Hk) as (H1 & H2 & H3). split_and!; [done| |].
      * rewrite li_pli0, list_lookup_insert_ne by lia. done.
      * eapply nodes_at_agree; [|exact H3]. intros i Hi. apply li_agree0.
        pose proof (first_of_le cutss k c Hk). lia.
  - intros c Hc. destruct cutss as [|c0 cutss]; cbn in Hc; [|by apply lp_root0].
    injection Hc as <-. by apply Hroot.
  - intros k c1 c2 Hk1 Hk2. destruct (decide (S k = length cutss)) as [Heq|Hne].
    + rewrite lookup_app_l in Hk1 by lia.
      rewrite Heq, lookup_app_r, Nat.sub_diag in Hk2 by done. injection Hk2 as <-.
      intros e Hin. destruct (lp_kept0 c1 e) as (m & b & Hb & <- & Hr & Hm); [|done|].
      { rewrite last_lookup, <-Heq. done. }
      apply (li_complete0 m); [by eapply lookup_lt_Some|done|done|done].
    + apply lookup_lt_Some in Hk2 as Hk2'. rewrite length_app in Hk2'. cbn in Hk2'.
      rewrite lookup_app_l in Hk1, Hk2 by lia. by eapply lp_chain0.
  - by apply li_real_mono0.
  - intros c e Hc Hin. rewrite last_snoc in Hc. injection Hc as <-.
    destruct (li_sound0 e Hin) as (m & b & _ & Hb & Ho & Hr & Hk).
    exists m, b. split_and!; [done|done|done|]. destruct Hk; [left|right]; auto.
Qed.
End levels.

(** ** Powers of two *)

Lemma mask_pow2 a b f :
  0 ≤ a ≤ b → matches (2 ^ b - 1) f = true → matches (2 ^ a - 1) f = true.
Proof.
  intros Hab. apply nested_matches. unfold nested.
  rewrite !Z.sub_1_r, <-!Z.ones_equiv. apply Z.bits_inj'. intros n Hn.
  rewrite Z.land_spec, !Z.testbit_ones_nonneg by lia.
  destruct (Z.ltb_spec n a), (Z.ltb_spec n b); cbn; lia || done.
Qed.

Lemma quot_pow2 k w : 0 ≤ w ≤ k → Z.quot (2 ^ k) (2 ^ w) = 2 ^ (k - w).
Proof.
  intros H. rewrite Z.quot_div_nonneg by (pose proof (Z.pow_pos_nonneg 2 w); pose proof (Z.pow_pos_nonneg 2 k); lia).
  by rewrite Z.pow_sub_r by lia.
Qed.

Lemma quot_pow2_zero k w : 0 ≤ k < w → Z.quot (2 ^ k) (2 ^ w) = 0.
Proof.
  intros H. rewrite Z.quot_small; [done|]. split; [apply Z.pow_nonneg; lia|].
  apply Z.pow_lt_mono_r; lia.
Qed.

(** ** Counting the levels *)

Lemma count_levels_ge fuel cs ways min l n :
  count_levels fuel cs ways min l = Done n → (l ≤ n)%nat.
Proof.
  revert cs l. induction fuel as [|fuel IH]; intros cs l; cbn [count_levels]; [done|].
  destruct (_ <? min); [intros [= ->]; lia|]. intros Hn%IH. lia.
Qed.

(** A chunk size shrinks at every turn, so [chunkSize] turns are enough. *)
Lemma count_levels_total fuel cs ways min l :
  0 ≤ cs < Z.of_nat fuel → 1 < ways → 0 < min → ∃ n, count_levels fuel cs ways min l = Done n.
Proof.
  revert cs l. induction fuel as [|fuel IH]; intros cs l Hcs Hw Hm; [lia|].
  cbn [count_levels]. destruct (Z.ltb_spec (Z.quot cs ways) min); [eauto|].
  assert (0 ≤ Z.quot cs ways) by (apply Z.quot_pos; lia).
  assert (cs ≠ 0) by (intros ->; rewrite Z.quot_0_l in *; lia).
  apply IH; [|done|done]. pose proof (Z.quot_lt cs ways). lia.
Qed.

(** With a minimum of zero the loop does not end. *)
Lemma count_levels_diverges fuel cs ways min l :
  0 ≤ cs → 1 < ways → min ≤ 0 → count_levels fuel cs ways min l = Fault OutOfFuel.
Proof.
  revert cs l. induction fuel as [|fuel IH]; intros cs l Hcs Hw Hm; [done|].
  cbn [count_levels]. assert (0 ≤ Z.quot cs ways) by (apply Z.quot_pos; lia).
  rewrite (proj2 (Z.ltb_ge _ _)) by lia. by apply IH.
Qed.

Section loop.
Context (bs : list RabinBoundary) (rb_size : Z) (maxNames maxLevel : nat).
Context (Hbs : boundaries_ok bs rb_size maxNames maxLevel).

Lemma level_loop_ok fc fuel k w min st cutss :
  0 ≤ k → 0 < w → 0 < min ≤ 2 ^ k →
  count_levels fc (2 ^ k) (2 ^ w) min (S (length cutss)) = Done maxLevel →
  (maxLevel ≤ fuel + length cutss)%nat →
  loop_inv bs rb_size maxNames maxLevel (2 ^ k) st cutss →
  level_cond bs (2 ^ k) (length cutss) →
  ∃ st' cs' cutss',
    level_loop fuel bs rb_size min (2 ^ w) (2 ^ k) (length cutss) st = Done (st', maxLevel) ∧
    length cutss' = maxLevel ∧ loop_inv bs rb_size maxNames maxLevel cs' st' cutss'.
Proof using Hbs.
  revert fuel k st cutss. induction fc as [|fc IH];
    intros fuel k st cutss Hk Hw Hm Hcount Hfuel Hinv Hcond; [done|].
  assert (S (length cutss) ≤ maxLevel)%nat as Hlt by (by eapply count_levels_ge).
  destruct fuel as [|fuel]; [lia|]. cbn [level_loop].
  rewrite (proj2 (Z.leb_le _ _)) by lia.
  assert ((2 ^ w =? 1) = false) as Hw1.
  { apply Z.eqb_neq. assert (1 < 2 ^ w) by (apply Z.pow_gt_1; lia). lia. }
  cbn [count_levels] in Hcount.
  destruct (Z.le_gt_cases w k) as [Hwk|Hwk].
  - rewrite quot_pow2 in Hcount |- * by lia.
    destruct (loop_step _ _ _ _ Hbs (2 ^ k) (2 ^ (k - w)) st cutss Hinv)
      as (st' & cuts & -> & Hinv'); [lia|done|intros f; apply mask_pow2; lia|].
    cbn [mbind outcome_bind]. rewrite Hw1.
    assert (length (cutss ++ [cuts]) = S (length cutss)) as Hlen
      by (rewrite length_app; cbn; lia).
    destruct (Z.ltb_spec (2 ^ (k - w)) min) as [Hlt'|Hge].
    + injection Hcount as Hcount. exists st', (2 ^ (k - w)), (cutss ++ [cuts]).
      split; [|split; [lia|done]].
      destruct fuel; cbn [level_loop]; rewrite (proj2 (Z.leb_gt _ _)) by lia; by subst.
    + rewrite <-Hlen. apply (IH fuel (k - w) st' (cutss ++ [cuts]));
        [lia|done|lia|by rewrite Hlen|rewrite Hlen; lia|done|].
      unfold level_cond. rewrite Hlen. done.
  - rewrite quot_pow2_zero in Hcount |- * by lia.
    rewrite (proj2 (Z.ltb_lt _ _)) in Hcount by lia. injection Hcount as Hcount.
    destruct (loop_step _ _ _ _ Hbs (2 ^ k) (2 ^ 0) st cutss Hinv)
      as (st' & cuts & -> & Hinv'); [lia|done|intros f; apply mask_pow2; lia|].
    cbn [mbind outcome_bind]. rewrite Hw1. exists st', (2 ^ 0), (cutss ++ [cuts]).
    split; [|split; [rewrite length_app; cbn; lia|done]].
    destruct fuel; cbn [level_loop]; rewrite (proj2 (Z.leb_gt _ _)) by lia; by subst.
Qed.

(** One resolution only. *)
Lemma level_loop_single fuel k min st :
  0 ≤ k → min ≤ 2 ^ k → maxLevel = 1%nat →
  loop_inv bs rb_size maxNames maxLevel (2 ^ k) st [] → level_cond bs (2 ^ k) 0 →
  ∃ st' cs' cutss',
    level_loop (S fuel) bs rb_size min 1 (2 ^ k) 0 st = Done (st', maxLevel) ∧
    length cutss' = maxLevel ∧ loop_inv bs rb_size maxNames maxLevel cs' st' cutss'.
Proof using Hbs.
  intros Hk Hm Hl Hinv Hcond. cbn [level_loop]. rewrite (proj2 (Z.leb_le _ _)) by lia.
  destruct (loop_step _ _ _ _ Hbs (2 ^ k) (2 ^ k) st [] Hinv)
    as (st' & cuts & He & Hinv'); [cbn; lia|done|done|].
  cbn [length] in He. rewrite He. cbn [mbind outcome_bind]. rewrite Z.eqb_refl.
  exists st', (2 ^ k), ([] ++ [cuts]).
  split_and!; [by rewrite Hl|by rewrite Hl|done].
Qed.
End loop.

(** ** [DoPreMRC] *)

Lemma GetMRCMask_pow2 b :
  32 ≤ b < 2 ^ 17 →
  ∃ j, GetMRCMask b = Done (2 ^ j - 1) ∧ 5 ≤ j ≤ 16 ∧ 2 ^ j ≤ b < 2 ^ (j + 1).
Proof.
  intros Hb. unfold GetMRCMask, GetMRCIndex.
  let l := eval cbv in chunk_sizes in change chunk_sizes with l. cbn [bracket].
  repeat match goal with
  | |- context [(?lo <=? b) && (b <? ?hi)] =>
      destruct (Z.leb_spec lo b); [|lia]; destruct (Z.ltb_spec b hi);
      cbn [andb mbind outcome_bind];
      [exists (Z.log2 lo); cbn -[Z.pow]; split; [reflexivity|]; cbn; lia|]
  end. lia.
Qed.

Lemma GetMRCMask_exact k : 5 ≤ k ≤ 16 → GetMRCMask (2 ^ k) = Done (2 ^ k - 1).
Proof.
  intros Hk. assert (2 ^ 5 ≤ 2 ^ k) by (apply Z.pow_le_mono_r; lia).
  assert (2 ^ k < 2 ^ 17) by (apply Z.pow_lt_mono_r; lia).
  destruct (GetMRCMask_pow2 (2 ^ k)) as (j & -> & Hj & Hl & Hu); [lia|].
  assert (j ≤ k) by (apply (Z.pow_le_mono_r_iff 2); lia).
  assert (k < j + 1) by (apply (Z.pow_lt_mono_r_iff 2); lia).
  by replace j with k by lia.
Qed.

(** What the configuration must satisfy: the chunk size and the number of ways
    are powers of two. *)
Record params_ok (g : MRCParams) : Prop := {
  po_k : ∃ k, 5 ≤ k ≤ 16 ∧ g_ChunkSize g = 2 ^ k;
  po_w : ∃ w, 0 ≤ w ∧ g_NumMRCWays g = 2 ^ w;
  po_min : 32 ≤ g_MinChunkSize g ≤ g_ChunkSize g;
  po_init : ∃ fuel, InitMRCParams fuel (g_ChunkSize g) (g_MinChunkSize g) (g_NumMRCWays g) = Done g
}.

(** What the context and the buffer must satisfy; [mc_room] says that the
    boundaries fit the array of [DoPreMRC]. *)
Record mrc_call_ok (g : MRCParams) (rctx : RabinCtx) (psrc : list Z) (buf_len : Z) : Prop := {
  mc_rabin : rabin_ok WAPROX_RABIN_WINDOW (rp rctx);
  mc_min : min_size rctx = WAPROX_MRC_MIN;
  mc_max : max_size rctx = WAPROX_MRC_MAX;
  mc_bytes : Forall is_byte psrc;
  mc_len : 0 < buf_len ≤ Z.of_nat (length psrc);
  mc_room : ∀ mn, GetMRCMask (g_MinChunkSize g) = Done mn →
    Z.of_nat (length (chunk_boundaries WAPROX_RABIN_WINDOW rctx psrc
      (Z.min buf_len MAX_CHUNK_SIZE) mn (g_ChunkSize g - 1))) ≤ g_ChunkSize g
}.

(** The levels [DoPreMRC] returns. *)
Record levels_ok (names : list OneChunkName) (pli : list MRCPerLevelInfo) (rb_size : Z)
    (numNames_ maxLevel : nat) (cutss : list (list Z)) : Prop := {
  lo_len : length cutss = maxLevel;
  lo_pos : (0 < maxLevel)%nat;
  lo_num : numNames_ = sum_list_with length cutss;
  lo_room : (numNames_ ≤ length names)%nat;
  lo_cuts : ∀ k cuts, cutss !! k = Some cuts → cuts_ok rb_size cuts;
  lo_pli : ∀ k cuts, cutss !! k = Some cuts →
    pli !! k = Some {| numNames := length cuts; firstIndex := first_of cutss k |};
  lo_nodes : ∀ k cuts, cutss !! k = Some cuts → nodes_at names (first_of cutss k) k 0 cuts;
  lo_root : cutss !! 0%nat = Some [rb_size];
  lo_chain : ∀ k c1 c2, cutss !! k = Some c1 → cutss !! S k = Some c2 → c1 ⊆ c2
}.

Lemma chunk_boundaries_stop w rctx src srclen mn mx m b :
  chunk_boundaries w rctx src srclen mn mx !! m = Some b → stops mx (bfinger b) = true →
  S m = length (chunk_boundaries w rctx src srclen mn mx).
Proof.
  unfold chunk_boundaries. set (fs := fingers _ _ _). case_decide as E.
  { destruct m; [done|]. intros [=]. }
  clear E. generalize (Z.of_nat (min_size rctx)) as p. revert m.
  induction fs as [|f fs IH]; intros m p Hm Hs; cbn [upto boundaries] in *; [done|].
  destruct (stops mx f) eqn:Ef; cbn [boundaries] in *.
  - destruct (matches mn f); cbn in *; [by destruct m|done].
  - destruct (matches mn f); cbn [app length] in *; [|by eapply IH].
    destruct m as [|m]; cbn in Hm; [injection Hm as <-; cbn in Hs; congruence|].
    f_equal. by eapply IH.
Qed.

Lemma chunk_boundaries_range w rctx src srclen mn mx b :
  min_size rctx = 0%nat → 0 < Z.min srclen (max_size rctx) →
  b ∈ chunk_boundaries w rctx src srclen mn mx →
  0 < offset b ≤ Z.min srclen (max_size rctx).
Proof.
  intros Hmin Hpos Hb. destruct (chunk_boundaries_sound _ _ _ _ _ _ _ Hb)
    as [(i & (Hi & Ho & _) & _)|Ho]; [|lia].
  unfold scan_bytes in Hi. rewrite length_drop, length_take in Hi. lia.
Qed.

Lemma chunk_boundaries_ok w rctx src srclen mn mx maxNames maxLevel :
  min_size rctx = 0%nat → 0 < Z.min srclen (max_size rctx) →
  let bs := chunk_boundaries w rctx src srclen mn mx in
  (maxLevel * length bs ≤ maxNames)%nat →
  boundaries_ok bs (last_offset bs) maxNames maxLevel ∧
  0 < last_offset bs ≤ Z.min srclen (max_size rctx) ∧ bs ≠ [].
Proof.
  intros Hmin Hpos bs Hroom.
  assert (bs ≠ []) as Hne by (unfold bs, chunk_boundaries; by case_decide).
  destruct (exists_last Hne) as (bs' & b & Heq).
  assert (last_offset bs = offset b) as Hlast
    by (unfold last_offset; by rewrite Heq, last_snoc).
  split_and!; [| | |done].
  - split; [apply chunk_boundaries_sorted| |by exists bs', b|done].
    intros c Hc. apply (chunk_boundaries_range w rctx src srclen mn mx); done.
  - rewrite Hlast. apply (chunk_boundaries_range w rctx src srclen mn mx); [done|done|].
    fold bs. rewrite Heq. apply elem_of_app. right. by left.
  - rewrite Hlast. apply (chunk_boundaries_range w rctx src srclen mn mx); [done|done|].
    fold bs. rewrite Heq. apply elem_of_app. right. by left.
Qed.

Lemma loop_inv_init bs rb_size maxNames maxLevel cs names0 pli0 :
  length names0 = maxNames → length pli0 = maxLevel →
  (length bs - 1 < maxNames)%nat →
  loop_inv bs rb_size maxNames maxLevel cs
    {| ps_names := names0; ps_real := <[(length bs - 1)%nat := true]> (replicate maxNames false);
       ps_pli := pli0; ps_index := 0; ps_lastOffset := 0; ps_buffer := 0 |} [].
Proof.
  intros Hn Hp Hl. split; cbn [ps_names ps_real ps_pli ps_index]; try done.
  - by rewrite length_insert, length_replicate.
  - apply list_lookup_insert_eq. by rewrite length_replicate.
Qed.

Lemma loop_inv_levels bs rb_size maxNames maxLevel cs st cutss :
  loop_inv bs rb_size maxNames maxLevel cs st cutss → length cutss = maxLevel →
  (0 < maxLevel)%nat → (maxLevel * length bs ≤ maxNames)%nat →
  levels_ok (ps_names st) (ps_pli st) rb_size (ps_index st) maxLevel cutss.
Proof.
  intros [] Hlen Hpos Hroom. split; try done.
  - rewrite lp_names0. rewrite Hlen in lp_room0. lia.
  - intros k cuts Hk. apply (lp_levels0 k cuts Hk).
  - intros k cuts Hk. apply (lp_levels0 k cuts Hk).
  - intros k cuts Hk. apply (lp_levels0 k cuts Hk).
  - destruct cutss as [|cuts cutss]; [cbn in Hlen; lia|]. cbn. f_equal. by apply lp_root0.
Qed.

Lemma InitMRCParams_inv fuel cs mn ways g :
  InitMRCParams fuel cs mn ways = Done g →
  (1 ≤ g_maxLevel g)%nat ∧ g_maxNames g = (Z.to_nat cs * g_maxLevel g)%nat ∧
  (if 1 <? ways then count_levels fuel cs ways mn 1 else Done 1%nat) = Done (g_maxLevel g).
Proof.
  unfold InitMRCParams. intros Hinit. inv_done. subst g. cbn [g_maxLevel g_maxNames].
  split_and!; [|done|done]. destruct (1 <? ways); [by eapply count_levels_ge|].
  by injection H as <-.
Qed.

(** The loop over the levels, for a configuration that [InitMRCParams] accepts. *)
Lemma level_loop_params g bs rb_size st :
  params_ok g → boundaries_ok bs rb_size (g_maxNames g) (g_maxLevel g) →
  loop_inv bs rb_size (g_maxNames g) (g_maxLevel g) (g_ChunkSize g) st [] →
  level_cond bs (g_ChunkSize g) 0 →
  ∃ st' cs' cutss',
    level_loop (S (g_maxLevel g)) bs rb_size (g_MinChunkSize g) (g_NumMRCWays g)
      (g_ChunkSize g) 0 st = Done (st', g_maxLevel g) ∧
    length cutss' = g_maxLevel g ∧ (0 < g_maxLevel g)%nat ∧
    loop_inv bs rb_size (g_maxNames g) (g_maxLevel g) cs' st' cutss'.
Proof.
  intros [(k & Hk & Hcs) (w & Hw & Hways) Hmin (fuel & Hinit)] Hbs Hinv Hcond.
  apply InitMRCParams_inv in Hinit as (Hl1 & _ & Hinit). rewrite Hcs, Hways in *.
  destruct (decide (w = 0)) as [->|Hne].
  - cbn in Hinit. injection Hinit as Hl.
    destruct (level_loop_single _ _ _ _ Hbs (g_maxLevel g) k (g_MinChunkSize g) st)
      as (st' & cs' & cutss' & He & H1 & H2); [lia|lia|done|done|done|].
    exists st', cs', cutss'. split_and!; [done|done|lia|done].
  - assert (1 < 2 ^ w) by (apply Z.pow_gt_1; lia).
    rewrite (proj2 (Z.ltb_lt _ _)) in Hinit by lia.
    destruct (level_loop_ok _ _ _ _ Hbs fuel (S (g_maxLevel g)) k w (g_MinChunkSize g) st [])
      as (st' & cs' & cutss' & He & H1 & H2); [lia|lia|lia|done|cbn; lia|done|done|].
    exists st', cs', cutss'. split_and!; [done|done|lia|done].
Qed.

Lemma DoPreMRC_levels g names0 pli0 rctx psrc buf_len :
  params_ok g → mrc_call_ok g rctx psrc buf_len →
  length names0 = g_maxNames g → length pli0 = g_maxLevel g →
  ∃ pm cutss, DoPreMRC g names0 pli0 rctx psrc buf_len = Done pm ∧
    levels_ok (pm_names pm) (pm_pli pm) (pm_rb_size pm) (pm_numNames pm) (pm_maxLevel pm) cutss ∧
    0 < pm_rb_size pm ≤ buf_len ∧ pm_maxLevel pm = g_maxLevel g ∧
    length (pm_names pm) = g_maxNames g ∧ rabin_ok WAPROX_RABIN_WINDOW (rp (pm_rctx pm)) ∧
    length (pm_pli pm) = g_maxLevel g.
Proof.
  intros Hg Hc Hnames Hpli. pose proof Hg as Hg'. pose proof Hc as Hc'.
  destruct Hg as [(k & Hk & Hcs) (w & Hw & Hways) Hmin (fuel & Hinit)].
  apply InitMRCParams_inv in Hinit as (Hlvl & HmaxN & _).
  assert (2 ^ k < 2 ^ 17) by (apply Z.pow_lt_mono_r; lia).
  destruct (GetMRCMask_pow2 (g_MinChunkSize g)) as (j & Hmask & Hj & Hjl & _); [lia|].
  destruct Hc. specialize (mc_room0 _ Hmask).
  set (srclen := Z.min buf_len MAX_CHUNK_SIZE) in *.
  set (bs := chunk_boundaries WAPROX_RABIN_WINDOW rctx psrc srclen (2 ^ j - 1) (g_ChunkSize g - 1)) in *.
  unfold MAX_CHUNK_SIZE, WAPROX_MRC_MAX, WAPROX_MRC_MIN in *.
  destruct (chunk_boundaries_ok WAPROX_RABIN_WINDOW rctx psrc srclen (2 ^ j - 1)
    (g_ChunkSize g - 1) (g_maxNames g) (g_maxLevel g)) as (Hbs & Hrb & Hne);
    [done|lia| |fold bs in Hbs, Hrb, Hne].
  { fold bs. rewrite HmaxN, Nat.mul_comm. apply Nat.mul_le_mono_r. lia. }
  assert (0 < length bs)%nat by (destruct bs; [done|cbn; lia]).
  assert (level_cond bs (g_ChunkSize g) 0) as Hcond.
  { intros _ m b Hb Hm. eapply chunk_boundaries_stop; [exact Hb|]. unfold stops.
    rewrite Hm, andb_true_r. apply negb_true_iff, Z.eqb_neq. lia. }
  destruct (GetRabinChunkSizeEx_boundaries WAPROX_RABIN_WINDOW (Z.to_nat (g_ChunkSize g))
    rctx psrc srclen (2 ^ j - 1) (g_ChunkSize g - 1)) as (rctx' & Hscan & Hok');
    [done| |done|lia|lia|fold bs; lia|].
  { unfold nested. rewrite Hcs. assert (j ≤ k) by (apply (Z.pow_le_mono_r_iff 2); lia).
    rewrite !Z.sub_1_r, <-!Z.ones_equiv. apply Z.bits_inj'. intros n Hn.
    rewrite Z.land_spec, !Z.testbit_ones_nonneg by lia.
    destruct (Z.ltb_spec n j), (Z.ltb_spec n k); cbn; lia || done. }
  fold bs in Hscan. unfold DoPreMRC.
  change (WAPROX_MIN_CHUNK_SIZE <=? Z.of_nat WAPROX_RABIN_WINDOW) with false.
  cbn [negb]. fold srclen. rewrite Hmask, Hcs, GetMRCMask_exact, <-Hcs by done.
  cbn [mbind outcome_bind]. fold srclen. unfold MAX_CHUNK_SIZE. fold srclen.
  rewrite Hscan. cbn [mbind outcome_bind].
  rewrite (proj2 (Z.ltb_lt 0 _)) by lia. rewrite (proj2 (Z.leb_le _ _)) by lia.
  rewrite (proj2 (Nat.ltb_lt 0 _)) by lia. cbn [c_assert mbind outcome_bind].
  destruct (get_last_offset bs Hne) as (b & -> & Ho). cbn [mbind outcome_bind].
  rewrite Ho, Z.eqb_refl. cbn [c_assert mbind outcome_bind].
  assert (length bs - 1 < g_maxNames g)%nat.
  { pose proof (bo_room _ _ _ _ Hbs) as Hroom. nia. }
  unfold put. rewrite decide_True by (by rewrite length_replicate). cbn [mbind outcome_bind].
  destruct (level_loop_params g bs (last_offset bs) {| ps_names := names0;
    ps_real := <[(length bs - 1)%nat := true]> (replicate (g_maxNames g) false);
    ps_pli := pli0; ps_index := 0; ps_lastOffset := 0; ps_buffer := 0 |} Hg' Hbs)
    as (st' & cs' & cutss & -> & Hlen & Hpos & Hinv); [by apply loop_inv_init|done|].
  cbn [mbind outcome_bind].
  pose proof (loop_inv_levels _ _ _ _ _ _ _ Hinv Hlen Hpos (bo_room _ _ _ _ Hbs)) as Hlv.
  assert (0 < ps_index st')%nat as Hidx.
  { rewrite (lo_num _ _ _ _ _ _ Hlv). pose proof (lo_root _ _ _ _ _ _ Hlv) as Hroot.
    pose proof (first_of_le _ _ _ Hroot). cbn in *. lia. }
  rewrite (proj2 (Nat.ltb_lt _ _)) by done. cbn [c_assert mbind outcome_bind].
  eexists _, cutss. split; [reflexivity|]. cbn [pm_names pm_pli pm_rb_size pm_numNames pm_maxLevel pm_rctx].
  split_and!; [done|lia|lia|done| |done|]; by destruct Hinv.
Qed.
