(* ===== verification/MrcTree.v ===== *)
(** * The tree of chunks

    [MakeTree] gives each chunk of a level the index of the chunk of the level
    above that contains it.  The chunks of a level that share a parent are a
    group: the groups split the cuts of the level at the cuts of the level
    above. *)

From Stdlib Require Import ZArith Lia.
From stdpp Require Import base list option numbers sorting.
From S2P Require Import Prelude Bytes Rabin Mrc MrcLevels.

(** ** Sibling groups *)

(** Splits a list of cuts after the cut [e]. *)
Fixpoint split_upto (e : Z) (l : list Z) : list Z * list Z :=
  match l with
  | [] => ([], [])
  | x :: l' => if x =? e then ([x], l')
               else let '(a, b) := split_upto e l' in (x :: a, b)
  end.

Lemma split_upto_spec e l :
  e ∈ l →
  l = (split_upto e l).1 ++ (split_upto e l).2 ∧
  ∃ g, (split_upto e l).1 = g ++ [e] ∧ e ∉ g.
Proof.
  induction l as [|x l IH]; intros He; [by apply elem_of_nil in He|]. cbn [split_upto].
  destruct (Z.eqb_spec x e) as [->|Hne].
  - split; [done|]. exists []. split; [done|apply not_elem_of_nil].
  - apply elem_of_cons in He as [|He]; [done|].
    destruct (IH He) as (Hl & g & Hg & Hn). destruct (split_upto e l) as [a b]. cbn in *.
    split; [by rewrite <-Hl|]. exists (x :: g). split; [by rewrite Hg|].
    intros [Hx|Hx]%elem_of_cons; [congruence|done].
Qed.

(** The chunks from index [idx] on, group by group, have the parents [p],
    [p + 1], ... *)
Fixpoint parents_at (names : list OneChunkName) (idx p : nat) (groups : list (list Z)) : Prop :=
  match groups with
  | [] => True
  | g :: groups' =>
      (∀ i, (idx ≤ i < idx + length g)%nat →
         ∃ c, names !! i = Some c ∧ cn_parentIdx c = Z.of_nat p) ∧
      parents_at names (idx + length g) (S p) groups'
  end.

(** Each group ends where its parent ends. *)
Definition group_of (e : Z) (g : list Z) : Prop := ∃ g', g = g' ++ [e].

Lemma parents_at_agree names names' idx p groups :
  (∀ i, (idx ≤ i < idx + sum_list_with length groups)%nat → names' !! i = names !! i) →
  parents_at names idx p groups → parents_at names' idx p groups.
Proof.
  revert idx p. induction groups as [|g groups IH]; intros idx p Hag; cbn [parents_at]; [done|].
  cbn in Hag. intros [Hg Hgs]. split.
  - intros i Hi. destruct (Hg i Hi) as (c & Hc & Hp). exists c. rewrite Hag by lia. done.
  - apply IH; [|done]. intros i Hi. apply Hag. lia.
Qed.

(** ** Arrays that differ in the parents only *)

Definition same_but_parent (c c' : OneChunkName) : Prop := ∃ p, c' = set_parentIdx p c.

Lemma same_but_parent_refl c : same_but_parent c c.
Proof. exists (cn_parentIdx c). by destruct c. Qed.

Lemma fresh_set_parentIdx idx lvl a e p c :
  fresh_chunk idx lvl a e c → fresh_chunk idx lvl a e (set_parentIdx p c).
Proof. intros []. by split. Qed.

Lemma nodes_at_sim names names' idx lvl a cuts :
  Forall2 same_but_parent names names' →
  nodes_at names idx lvl a cuts → nodes_at names' idx lvl a cuts.
Proof.
  intros Hsim. revert idx a. induction cuts as [|e cuts IH]; intros idx a; cbn [nodes_at]; [done|].
  intros [(c & Hc & Hf) Hn]. split; [|by apply IH].
  destruct (Forall2_lookup_l _ _ _ _ _ Hsim Hc) as (c' & Hc' & p & ->).
  exists (set_parentIdx p c). split; [done|]. by apply fresh_set_parentIdx.
Qed.

Lemma sim_insert names i c p :
  names !! i = Some c → Forall2 same_but_parent names (<[i := set_parentIdx p c]> names).
Proof.
  intros Hi. apply Forall2_same_length_lookup_2; [by rewrite length_insert|].
  intros j x y Hx Hy. destruct (decide (i = j)) as [<-|Hne].
  - rewrite Hi in Hx. injection Hx as <-.
    rewrite list_lookup_insert_eq in Hy by (by eapply lookup_lt_Some).
    injection Hy as <-. by exists p.
  - rewrite list_lookup_insert_ne in Hy by done. rewrite Hx in Hy. injection Hy as <-.
    apply same_but_parent_refl.
Qed.

Lemma parent_sim_trans l1 l2 l3 :
  Forall2 same_but_parent l1 l2 → Forall2 same_but_parent l2 l3 → Forall2 same_but_parent l1 l3.
Proof.
  intros H1. revert l3. induction H1 as [|x y l1 l2 [p ->] _ IH]; intros l3 H2;
    inversion_clear H2 as [|? z ? l3' [q ->] H3]; constructor; [by exists q|by apply IH].
Qed.

Lemma parent_sim_refl l : Forall2 same_but_parent l l.
Proof. apply Forall_Forall2_diag, Forall_forall. intros c _. apply same_but_parent_refl. Qed.

(** ** The loop over the children of a chunk *)

Lemma child_loop_group fuel numNames_ names pidx e idx lvl a g :
  nodes_at names idx lvl a (g ++ [e]) → e ∉ g →
  (length g < fuel)%nat → (idx + length g < numNames_)%nat →
  ∃ names', child_loop fuel numNames_ names pidx e idx a =
              Done (names', (idx + length (g ++ [e]))%nat, e) ∧
    Forall2 same_but_parent names names' ∧
    (∀ i, (idx ≤ i < idx + length (g ++ [e]))%nat →
       ∃ c, names' !! i = Some c ∧ cn_parentIdx c = Z.of_nat pidx) ∧
    (∀ i, (i < idx ∨ idx + length (g ++ [e]) ≤ i)%nat → names' !! i = names !! i).
Proof.
  revert names idx a g. induction fuel as [|fuel IH]; intros names idx a g Hn He Hf Hroom; [lia|].
  cbn [child_loop]. rewrite (proj2 (Nat.ltb_lt _ _)) by lia. cbn [c_assert mbind outcome_bind].
  destruct g as [|x g]; cbn [app nodes_at] in Hn;
    destruct Hn as [(c & Hc & [Ho Hl Hp _ _ _ _ _ _]) Hn];
    pose proof (lookup_lt_Some _ _ _ Hc) as Hlt;
    unfold get at 1, put at 1; rewrite Hc; cbn [mbind outcome_bind];
    rewrite decide_True by done; cbn [mbind outcome_bind].
  - replace (a + cn_length c) with e by lia. rewrite Z.eqb_refl.
    exists (<[idx := set_parentIdx (Z.of_nat pidx) c]> names). cbn [app length].
    split_and!; [do 3 f_equal; lia|by apply sim_insert| |].
    + intros i Hi. assert (i = idx) as -> by lia.
      exists (set_parentIdx (Z.of_nat pidx) c). by rewrite list_lookup_insert_eq.
    + intros i Hi. apply list_lookup_insert_ne. lia.
  - replace (a + cn_length c) with x by lia.
    assert (x ≠ e) as Hxe by (intros ->; apply He; by left).
    rewrite (proj2 (Z.eqb_neq _ _)) by done.
    set (names1 := <[idx := set_parentIdx (Z.of_nat pidx) c]> names).
    pose proof (sim_insert _ _ _ (Z.of_nat pidx) Hc) as Hsim1. fold names1 in Hsim1.
    destruct (IH names1 (S idx) x g) as (names' & -> & Hsim & Hin & Hout).
    + by eapply nodes_at_sim.
    + intros Hg. apply He. by right.
    + cbn in Hf. lia.
    + cbn in Hroom. lia.
    + exists names'. cbn [app length] in *. split_and!.
      * do 3 f_equal; lia.
      * by eapply parent_sim_trans.
      * intros i Hi. destruct (decide (i = idx)) as [->|Hne]; [|apply Hin; lia].
        exists (set_parentIdx (Z.of_nat pidx) c). rewrite Hout by lia.
        split; [by apply list_lookup_insert_eq|done].
      * intros i Hi. rewrite Hout by lia. apply list_lookup_insert_ne. lia.
Qed.

(** ** The loop over the chunks of a level *)

Lemma parent_loop numNames_ lvl coarse fine names pidx cidx a :
  nodes_at names pidx lvl a coarse → nodes_at names cidx (S lvl) a fine →
  StronglySorted Z.lt coarse → StronglySorted Z.lt fine →
  coarse ⊆ fine → last_cut a coarse = last_cut a fine → (coarse = [] → fine = []) →
  (pidx + length coarse ≤ cidx)%nat → (cidx + length fine ≤ numNames_)%nat →
  ∃ names' groups b,
    foldM (parent_step numNames_) (names, cidx, a, a) (seq pidx (length coarse)) =
      Done (names', (cidx + length fine)%nat, b, b) ∧
    concat groups = fine ∧ Forall2 group_of coarse groups ∧
    parents_at names' cidx pidx groups ∧ Forall2 same_but_parent names names' ∧
    (∀ i, (i < cidx ∨ cidx + length fine ≤ i)%nat → names' !! i = names !! i).
Proof.
  revert fine names pidx cidx a. induction coarse as [|e coarse IH];
    intros fine names pidx cidx a Hp Hc Hsc Hsf Hsub Hlast Hnil Hdis Hroom.
  { rewrite (Hnil eq_refl) in *. exists names, [], a. cbn. rewrite Nat.add_0_r.
    split_and!; [done|done|constructor|done|apply parent_sim_refl|done]. }
  destruct (split_upto_spec e fine) as (Hsplit & g & Hg & Heg); [apply Hsub; by left|].
  set (rest := (split_upto e fine).2) in *. rewrite Hg in Hsplit.
  cbn [nodes_at] in Hp. destruct Hp as [(c & Hpc & [Ho Hl Hpos _ _ _ _ _ _]) Hp].
  rewrite Hsplit in Hroom. rewrite !length_app in Hroom. cbn [length] in Hroom, Hdis.
  assert (nodes_at names cidx (S lvl) a (g ++ [e]) ∧
          nodes_at names (cidx + length (g ++ [e])) (S lvl) e rest) as [Hc1 Hc2].
  { rewrite Hsplit in Hc. apply nodes_at_app in Hc. by rewrite last_cut_snoc in Hc. }
  cbn [length seq foldM]. unfold parent_step at 2.
  rewrite (proj2 (Nat.ltb_lt _ _)) by lia. cbn [c_assert mbind outcome_bind].
  unfold get. rewrite Hpc. cbn [mbind outcome_bind].
  replace (a + cn_length c) with e by lia.
  destruct (child_loop_group (S numNames_) numNames_ names pidx e cidx (S lvl) a g)
    as (names1 & -> & Hsim & Hin & Hout); [done|done|lia|lia|].
  cbn [mbind outcome_bind].
  destruct (IH rest names1 (S pidx) (cidx + length (g ++ [e]))%nat e)
    as (names2 & groups & b & -> & Hgr & Hf2 & Hpar & Hsim2 & Hout2).
  - by eapply nodes_at_sim.
  - by eapply nodes_at_sim.
  - by inversion Hsc.
  - rewrite Hsplit in Hsf. by apply StronglySorted_app_1_r in Hsf.
  - intros x Hx. assert (x ∈ fine) as Hxf by (apply Hsub; by right).
    rewrite Hsplit in Hxf. apply elem_of_app in Hxf as [Hxf|]; [|done]. exfalso.
    inversion_clear Hsc as [|? ? _ Hall]. rewrite Forall_forall in Hall. specialize (Hall x Hx).
    rewrite Hsplit in Hsf. apply StronglySorted_app_1_l in Hsf.
    apply elem_of_app in Hxf as [Hxg|Hxe]; [|apply list_elem_of_singleton in Hxe; lia].
    pose proof (StronglySorted_app_1_elem_of _ _ _ x e Hsf Hxg ltac:(by left)). lia.
  - rewrite Hsplit, last_cut_app, last_cut_snoc in Hlast. by rewrite last_cut_cons in Hlast.
  - intros ->. rewrite Hsplit, last_cut_app, last_cut_snoc in Hlast.
    rewrite last_cut_cons in Hlast. cbn in Hlast.
    destruct rest as [|x rest]; [done|]. exfalso.
    rewrite Hsplit in Hsf.
    assert (last_cut e (x :: rest) ∈ x :: rest) as Hin2.
    { destruct (exists_last (l := x :: rest)) as (r & y & ->); [done|].
      rewrite last_cut_snoc. apply elem_of_app. right. by left. }
    pose proof (StronglySorted_app_1_elem_of _ _ _ e (last_cut e (x :: rest)) Hsf
      ltac:(apply elem_of_app; right; by left) Hin2). cbn in Hlast. lia.
  - rewrite length_app. cbn. lia.
  - rewrite length_app. cbn. lia.
  - exists names2, ((g ++ [e]) :: groups), b. split_and!.
    + rewrite Hsplit, !length_app. do 4 f_equal. lia.
    + cbn. rewrite Hgr. by rewrite <-Hsplit.
    + constructor; [by exists g|done].
    + cbn [parents_at]. split; [|done]. intros i Hi.
      rewrite Hout2 by lia. by apply Hin.
    + by eapply parent_sim_trans.
    + intros i Hi. rewrite Hsplit, length_app in Hi. rewrite Hout2, Hout by lia. done.
Qed.

(** ** [MakeTree] *)

(** The chunks of level [S l] are grouped under those of level [l]. *)
Definition grouped (names : list OneChunkName) (cutss : list (list Z)) (l : nat) : Prop :=
  ∀ c1 c2, cutss !! l = Some c1 → cutss !! S l = Some c2 →
  ∃ groups, concat groups = c2 ∧ Forall2 group_of c1 groups ∧
    parents_at names (first_of cutss (S l)) (first_of cutss l) groups.

Lemma levels_ok_sim names names' pli rb num maxLevel cutss :
  Forall2 same_but_parent names names' →
  levels_ok names pli rb num maxLevel cutss → levels_ok names' pli rb num maxLevel cutss.
Proof.
  intros Hsim []. split; try done.
  - by rewrite <-(Forall2_length _ _ _ Hsim).
  - intros k cuts Hk. eapply nodes_at_sim; [exact Hsim|by apply lo_nodes].
Qed.

Lemma sum_length_concat (groups : list (list Z)) :
  sum_list_with length groups = length (concat groups).
Proof. induction groups as [|g gs IH]; cbn; [done|]. by rewrite length_app, IH. Qed.

Lemma cuts_last_cut rb cuts a : cuts_ok rb cuts → last_cut a cuts = rb.
Proof. intros [_ _ [cuts' ->]]. apply last_cut_snoc. Qed.

Lemma MakeTree_groups names pli rb num maxLevel cutss :
  levels_ok names pli rb num maxLevel cutss →
  ∃ names', MakeTree pli maxLevel names num = Done names' ∧
    Forall2 same_but_parent names names' ∧
    levels_ok names' pli rb num maxLevel cutss ∧ (∀ l, grouped names' cutss l).
Proof.
  intros Hlv. unfold MakeTree.
  destruct (foldM_total (λ names i,
      li ← get pli i;
      lj ← get pli (S i);
      '(names, _, _, _) ←
        foldM (parent_step num) (names, firstIndex lj, 0, 0)
          (seq (firstIndex li) (numNames li));
      Done names)
    (λ done names', Forall2 same_but_parent names names' ∧
       ∀ l, (l < length done)%nat → grouped names' cutss l)
    names (seq 0 (maxLevel - 1))) as (names' & -> & Hsim & Hgr).
  - split; [apply parent_sim_refl|]. cbn. lia.
  - intros l1 i l2 names1 Hl [Hsim Hgr].
    assert (i = length l1 ∧ (i < maxLevel - 1)%nat) as [-> Hi].
    { assert (seq 0 (maxLevel - 1) !! length l1 = Some i) as Hlk
        by (rewrite Hl, lookup_app_r, Nat.sub_diag; done).
      apply lookup_seq in Hlk as [-> ?]. lia. }
    set (i := length l1) in *.
    pose proof (levels_ok_sim _ _ _ _ _ _ _ Hsim Hlv) as [].
    destruct (lookup_lt_is_Some_2 cutss i) as [c1 Hc1]; [lia|].
    destruct (lookup_lt_is_Some_2 cutss (S i)) as [c2 Hc2]; [lia|].
    pose proof (lo_cuts _ _ Hc1) as Hk1. pose proof (lo_cuts _ _ Hc2) as Hk2.
    destruct (parent_loop num i c1 c2 names1 (first_of cutss i) (first_of cutss (S i)) 0)
      as (names2 & groups & b & He & Hcat & Hf2 & Hpar & Hsim2 & Hout).
    + by apply lo_nodes.
    + by apply lo_nodes.
    + apply Hk1.
    + apply Hk2.
    + by eapply lo_chain.
    + by rewrite (cuts_last_cut rb c1), (cuts_last_cut rb c2).
    + intros ->. by destruct (co_last _ _ Hk1) as [[] ?].
    + by rewrite (first_of_S _ _ _ Hc1).
    + rewrite lo_num. by eapply first_of_le.
    + exists names2. unfold get. rewrite (lo_pli _ _ Hc1), (lo_pli _ _ Hc2).
      cbn [mbind outcome_bind numNames firstIndex]. rewrite He. cbn [mbind outcome_bind].
      split; [done|]. split; [by eapply parent_sim_trans|]. intros l Hl'.
      rewrite length_app in Hl'. cbn in Hl'. fold i in Hl'.
      destruct (decide (l = i)) as [->|Hne].
      * intros d1 d2 Hd1 Hd2. exists groups.
        rewrite Hc1 in Hd1. rewrite Hc2 in Hd2. injection Hd1 as <-. injection Hd2 as <-. done.
      * intros d1 d2 Hd1 Hd2. destruct (Hgr l ltac:(lia) d1 d2 Hd1 Hd2) as (gs & Hg1 & Hg2 & Hg3).
        exists gs. split_and!; [done|done|]. eapply parents_at_agree; [|exact Hg3].
        intros k Hk. apply Hout. left. rewrite sum_length_concat, Hg1 in Hk.
        rewrite <-(first_of_S _ _ _ Hd2) in Hk.
        pose proof (first_of_mono cutss (S (S l)) (S i)). lia.
  - exists names'. split_and!; [done|done|by eapply levels_ok_sim|].
    rewrite length_seq in Hgr. intros l c1 c2 Hc1 Hc2. eapply Hgr; [|done|done].
    apply lookup_lt_Some in Hc2. pose proof (lo_len _ _ _ _ _ _ Hlv). lia.
Qed.
