(* ===== verification/MrcResolve.v ===== *)
(** * Resolving a tree against the hint table

    [ResolveWithHint] walks the tree from the root and marks the chunks that
    the peer is believed to have.  It computes the digest of a chunk only when
    its parent is a miss, and copies it when the chunk is as long as its
    parent; the theorem shows that every digest it leaves is the digest of the
    bytes of the chunk. *)

From Stdlib Require Import ZArith Lia.
From stdpp Require Import base list option numbers sorting.
From S2P Require Import Prelude Bytes Rabin Mrc MrcLevels MrcTree.

(** ** The tree as an array *)

Record tree_ok (psrc : list Z) (names : list OneChunkName) (pli : list MRCPerLevelInfo)
    (rb : Z) (num maxLevel : nat) (cutss : list (list Z)) : Prop := {
  tk_levels : levels_ok names pli rb num maxLevel cutss;
  tk_grouped : ∀ l, grouped names cutss l;
  tk_bytes : 0 < rb ≤ Z.of_nat (length psrc)
}.

Lemma nodes_at_lookup names idx lvl a cuts i :
  nodes_at names idx lvl a cuts → (i < length cuts)%nat →
  ∃ c e, names !! (idx + i)%nat = Some c ∧ cuts !! i = Some e ∧
    fresh_chunk (idx + i) lvl (last_cut a (take i cuts)) e c.
Proof.
  revert idx a i. induction cuts as [|e cuts IH]; intros idx a i Hn Hi; [cbn in Hi; lia|].
  cbn [nodes_at] in Hn. destruct Hn as [(c & Hc & Hf) Hn]. destruct i as [|i].
  - rewrite Nat.add_0_r. exists c, e. by cbn.
  - destruct (IH (S idx) e i Hn) as (c' & e' & H1 & H2 & H3); [cbn in Hi; lia|].
    exists c', e'. rewrite Nat.add_succ_r. cbn [take]. rewrite last_cut_cons. done.
Qed.

Lemma nodes_at_range names idx lvl a cuts i :
  nodes_at names idx lvl a cuts → (i < length cuts)%nat →
  ∃ c, names !! (idx + i)%nat = Some c ∧ a ≤ cn_offset c ∧ 0 < cn_length c ∧
    cn_offset c + cn_length c ≤ last_cut a cuts.
Proof.
  revert idx a i. induction cuts as [|e cuts IH]; intros idx a i Hn Hi; [cbn in Hi; lia|].
  cbn [nodes_at] in Hn. destruct Hn as [(c & Hc & []) Hn]. rewrite last_cut_cons.
  assert (e ≤ last_cut e cuts) as Hle.
  { destruct cuts as [|e' cuts]; [cbn; lia|].
    destruct (IH (S idx) e 0%nat Hn) as (c' & _ & H1 & H2 & H3); [cbn; lia|]. lia. }
  destruct i as [|i].
  - rewrite Nat.add_0_r. exists c. split_and!; [done|lia|lia|lia].
  - destruct (IH (S idx) e i Hn) as (c' & H1 & H2 & H3 & H4); [cbn in Hi; lia|].
    exists c'. rewrite Nat.add_succ_r. split_and!; [done|lia|lia|lia].
Qed.

(** The node at index [c] lies within the node at index [p]. *)
Definition contained (c p : OneChunkName) : Prop :=
  cn_offset p ≤ cn_offset c ∧ cn_offset c + cn_length c ≤ cn_offset p + cn_length p.

Lemma groups_parent names lvl lvl' coarse groups idx p a i :
  parents_at names idx p groups → Forall2 group_of coarse groups →
  nodes_at names p lvl a coarse → nodes_at names idx lvl' a (concat groups) →
  (i < length (concat groups))%nat →
  ∃ c q cp, names !! (idx + i)%nat = Some c ∧ cn_parentIdx c = Z.of_nat q ∧
    (p ≤ q < p + length coarse)%nat ∧ names !! q = Some cp ∧ contained c cp.
Proof.
  revert coarse idx p a i. induction groups as [|g groups IH];
    intros coarse idx p a i Hpar Hf2 Hp Hc Hi; [cbn in Hi; lia|].
  inversion Hf2 as [|e ? coarse' ? [g' Hg] Hf2']; subst.
  cbn [parents_at] in Hpar. destruct Hpar as [Hpg Hpar].
  cbn [nodes_at] in Hp. destruct Hp as [(cp & Hcp & Hfp) Hp].
  cbn [concat] in Hc, Hi |- *. apply nodes_at_app in Hc as [Hc1 Hc2].
  rewrite length_app in Hi. destruct (decide (i < length (g' ++ [e]))%nat) as [Hlt|Hge].
  - destruct (Hpg (idx + i)%nat) as (c & Hc & Hpi); [lia|].
    destruct (nodes_at_range _ _ _ _ _ i Hc1 Hlt) as (c' & Hc' & H1 & H2 & H3).
    rewrite Hc in Hc'. injection Hc' as <-. rewrite last_cut_snoc in H3.
    exists c, p, cp. cbn [length]. destruct Hfp. split_and!; [done|done|lia|lia|done|split; lia].
  - rewrite last_cut_snoc in Hc2.
    destruct (IH coarse' (idx + length (g' ++ [e]))%nat (S p) e (i - length (g' ++ [e]))%nat)
      as (c & q & cp' & H1 & H2 & H3 & H4 & H5); [done|done|done|done|lia|].
    replace (idx + length (g' ++ [e]) + (i - length (g' ++ [e])))%nat with (idx + i)%nat in H1 by lia.
    exists c, q, cp'. cbn [length]. split_and!; [done|done|lia|lia|done|done].
Qed.

(** The level of an index. *)
Lemma index_level cutss i :
  (i < sum_list_with length cutss)%nat →
  ∃ k cuts, cutss !! k = Some cuts ∧ (first_of cutss k ≤ i < first_of cutss k + length cuts)%nat.
Proof.
  induction cutss as [|cuts cutss IH] using rev_ind; [cbn; lia|].
  rewrite sum_list_with_snoc. intros Hi.
  destruct (decide (i < sum_list_with length cutss)%nat) as [Hlt|Hge].
  - destruct (IH Hlt) as (k & c & Hk & Hr). exists k, c.
    pose proof (lookup_lt_Some _ _ _ Hk). rewrite lookup_app_l, first_of_snoc by lia. done.
  - exists (length cutss), cuts. rewrite lookup_app_r, Nat.sub_diag by done.
    rewrite first_of_snoc, first_of_all by done. split; [done|lia].
Qed.

Section tree.
Context {psrc : list Z} {names : list OneChunkName} {pli : list MRCPerLevelInfo}.
Context {rb : Z} {num maxLevel : nat} {cutss : list (list Z)}.
Context (Htree : tree_ok psrc names pli rb num maxLevel cutss).

(** A node of the tree before it is resolved. *)
Record node_ok (i : nat) (c : OneChunkName) : Prop := {
  nk_index : cn_index c = Z.of_nat i;
  nk_pChunk : cn_pChunk c = Psrc (cn_offset c);
  nk_offset : 0 ≤ cn_offset c;
  nk_length : 0 < cn_length c;
  nk_end : cn_offset c + cn_length c ≤ rb;
  nk_isHit : cn_isHit c = false;
  nk_ready : cn_isSha1Ready c = false;
  nk_candidate : cn_isCandidate c = false
}.

Lemma node_info i : (i < num)%nat → ∃ c, names !! i = Some c ∧ node_ok i c.
Proof using Htree.
  destruct Htree as [Hlv _ _]. intros Hi. rewrite (lo_num _ _ _ _ _ _ Hlv) in Hi.
  destruct (index_level cutss i Hi) as (k & cuts & Hk & Hr).
  pose proof (lo_nodes _ _ _ _ _ _ Hlv k cuts Hk) as Hn.
  destruct (nodes_at_range _ _ _ _ _ (i - first_of cutss k) Hn) as (c & Hc & H1 & H2 & H3); [lia|].
  destruct (nodes_at_lookup _ _ _ _ _ (i - first_of cutss k) Hn) as (c' & e & Hc' & _ & []); [lia|].
  rewrite Hc in Hc'. injection Hc' as <-.
  replace (first_of cutss k + (i - first_of cutss k))%nat with i in * by lia.
  rewrite (cuts_last_cut rb) in H3 by (by eapply lo_cuts). exists c. split; [done|].
  split; try done. by rewrite fc_pChunk, fc_offset.
Qed.

(** The level of a node. *)
Lemma node_level i :
  (i < num)%nat → ∃ k cuts c, cutss !! k = Some cuts ∧ names !! i = Some c ∧
    cn_level c = Z.of_nat k ∧ (first_of cutss k ≤ i < first_of cutss k + length cuts)%nat.
Proof using Htree.
  destruct Htree as [Hlv _ _]. intros Hi. rewrite (lo_num _ _ _ _ _ _ Hlv) in Hi.
  destruct (index_level cutss i Hi) as (k & cuts & Hk & Hr).
  pose proof (lo_nodes _ _ _ _ _ _ Hlv k cuts Hk) as Hn.
  destruct (nodes_at_lookup _ _ _ _ _ (i - first_of cutss k) Hn) as (c & e & Hc & _ & []); [lia|].
  replace (first_of cutss k + (i - first_of cutss k))%nat with i in * by lia.
  by exists k, cuts, c.
Qed.

Lemma root_info : ∃ c, names !! 0%nat = Some c ∧ cn_offset c = 0 ∧ cn_length c = rb.
Proof using Htree.
  destruct Htree as [Hlv _ _].
  pose proof (lo_nodes _ _ _ _ _ _ Hlv _ _ (lo_root _ _ _ _ _ _ Hlv)) as Hn.
  cbn [nodes_at] in Hn. destruct Hn as [(c & Hc & []) _]. exists c.
  split_and!; [done|done|lia].
Qed.

(** The parent of a node comes before it and contains it. *)
Lemma parent_info i :
  (0 < i < num)%nat →
  ∃ c p cp, names !! i = Some c ∧ cn_parentIdx c = Z.of_nat p ∧ (p < i)%nat ∧
    names !! p = Some cp ∧ contained c cp.
Proof using Htree.
  destruct Htree as [Hlv Hgr _]. intros Hi.
  destruct (index_level cutss i) as (k & cuts & Hk & Hr);
    [rewrite <-(lo_num _ _ _ _ _ _ Hlv); lia|].
  destruct k as [|k].
  { rewrite (lo_root _ _ _ _ _ _ Hlv) in Hk. injection Hk as <-.
    change (first_of cutss 0) with 0%nat in Hr. cbn in Hr. lia. }
  destruct (lookup_lt_is_Some_2 cutss k) as [c1 Hc1]; [apply lookup_lt_Some in Hk; lia|].
  destruct (Hgr k c1 cuts Hc1 Hk) as (groups & Hcat & Hf2 & Hpar). subst cuts.
  destruct (groups_parent names k (S k) c1 groups (first_of cutss (S k)) (first_of cutss k) 0
    (i - first_of cutss (S k))) as (c & q & cp & H1 & H2 & H3 & H4 & H5);
    [done|done|by eapply lo_nodes|by eapply lo_nodes|lia|].
  replace (first_of cutss (S k) + (i - first_of cutss (S k)))%nat with i in H1 by lia.
  exists c, q, cp. rewrite (first_of_S _ _ _ Hc1) in Hr. split_and!; [done|done|lia|done|done].
Qed.
End tree.

(** ** The result of the resolution *)

Definition same_shape (c c' : OneChunkName) : Prop :=
  cn_offset c' = cn_offset c ∧ cn_length c' = cn_length c ∧ cn_index c' = cn_index c ∧
  cn_parentIdx c' = cn_parentIdx c ∧ cn_pChunk c' = cn_pChunk c ∧
  cn_isCandidate c' = cn_isCandidate c ∧ cn_level c' = cn_level c.

Lemma same_shape_refl c : same_shape c c.
Proof. done. Qed.

Lemma shape_insert names0 names i c c' :
  Forall2 same_shape names0 names → names !! i = Some c → same_shape c c' →
  Forall2 same_shape names0 (<[i := c']> names).
Proof.
  intros Hsim Hi Hs. apply Forall2_same_length_lookup_2.
  { rewrite length_insert. by eapply Forall2_length. }
  intros j x y Hx Hy. destruct (decide (i = j)) as [<-|Hne].
  - rewrite list_lookup_insert_eq in Hy by (by eapply lookup_lt_Some). injection Hy as <-.
    pose proof (Forall2_lookup_lr _ _ _ _ _ _ Hsim Hx Hi) as Hxc.
    destruct Hs as (? & ? & ? & ? & ? & ? & ?), Hxc as (? & ? & ? & ? & ? & ? & ?).
    by split_and!; etransitivity.
  - rewrite list_lookup_insert_ne in Hy by done. by eapply Forall2_lookup_lr.
Qed.

Definition small (c : OneChunkName) : bool := cn_length c <=? WAPROX_MIN_CHUNK_SIZE.

(** The bytes of a chunk. *)
Definition bytes_of (psrc : list Z) (c : OneChunkName) : list Z :=
  slice psrc (Z.to_nat (cn_offset c)) (Z.to_nat (cn_length c)).

Section resolve.
Context `{Digest} (GetSendHint GetDiskHint : list Z → bool).

Definition hint_of (isSender : bool) : list Z → bool :=
  if isSender then GetSendHint else GetDiskHint.

(** A resolved chunk. *)
Record chunk_resolved (psrc : list Z) (isSender : bool) (i : nat) (c par : OneChunkName)
    : Prop := {
  cr_ready : cn_isSha1Ready c = true →
    cn_sha1name c = Calc_SHA1Sig (bytes_of psrc c) ∧
    cn_isHit c = small c || hint_of isSender (cn_sha1name c);
  cr_not_ready : cn_isSha1Ready c = false → i ≠ 0%nat ∧ cn_isHit par = true;
  cr_inherit : i ≠ 0%nat → cn_isHit par = true → cn_isHit c = true
}.

Lemma CheckNameHint_ok psrc isSender c :
  cn_pChunk c = Psrc (cn_offset c) → 0 ≤ cn_offset c → 0 < cn_length c →
  cn_offset c + cn_length c ≤ Z.of_nat (length psrc) →
  CheckNameHint GetSendHint GetDiskHint psrc isSender c =
    Done (set_isHit (hint_of isSender (Calc_SHA1Sig (bytes_of psrc c)))
            (set_sha1name true (Calc_SHA1Sig (bytes_of psrc c)) c)).
Proof.
  intros Hp H0 H1 H2. unfold CheckNameHint, chunk_bytes. rewrite Hp.
  rewrite (proj2 (Z.ltb_ge _ _)) by lia. rewrite load_Done by lia.
  cbn [mbind outcome_bind]. unfold hint_of. by destruct isSender.
Qed.

(** One chunk, whose parent is resolved. *)
Lemma resolve_chunk_ok psrc isSender i cur par :
  cn_pChunk cur = Psrc (cn_offset cur) → 0 ≤ cn_offset cur → 0 < cn_length cur →
  cn_offset cur + cn_length cur ≤ Z.of_nat (length psrc) →
  cn_isSha1Ready cur = false →
  (i ≠ 0%nat → contained cur par) →
  (i ≠ 0%nat → cn_isHit par = false → cn_isSha1Ready par = true ∧
     cn_sha1name par = Calc_SHA1Sig (bytes_of psrc par) ∧
     cn_isHit par = small par || hint_of isSender (cn_sha1name par)) →
  ∃ cur', resolve_chunk GetSendHint GetDiskHint psrc isSender i cur par = Done cur' ∧
    same_shape cur cur' ∧ chunk_resolved psrc isSender i cur' par.
Proof.
  intros Hp H0 H1 H2 Hr Hcont Hpar. unfold resolve_chunk.
  rewrite CheckNameHint_ok by done.
  destruct (Z.leb_spec (cn_length cur) WAPROX_MIN_CHUNK_SIZE) as [Hsm|Hsm].
  { cbn [mbind outcome_bind]. eexists. split; [done|]. split; [done|].
    split; cbn; try done. intros _. split; [done|]. unfold small. cbn.
    by rewrite (proj2 (Z.leb_le _ _)). }
  assert (small cur = false) as Hs by (by apply Z.leb_gt).
  destruct (Nat.eqb_spec i 0) as [->|Hi].
  { eexists. split; [done|]. split; [done|]. split; cbn; try done.
    intros _. split; [done|]. unfold small in *. cbn. by rewrite Hs. }
  destruct (cn_isHit par) eqn:Eh.
  { eexists. split; [done|]. split; [done|]. split; cbn; try done. by rewrite Hr. }
  destruct (Hpar Hi eq_refl) as (Hr1 & Hr2 & Hr3).
  destruct (Z.eqb_spec (cn_length par) (cn_length cur)) as [He|Hne].
  - rewrite Hr1. cbn [negb c_assert mbind outcome_bind]. eexists. split; [done|]. split; [done|].
    assert (bytes_of psrc cur = bytes_of psrc par) as Hb.
    { unfold bytes_of. destruct (Hcont Hi). do 2 f_equal; lia. }
    split; cbn; [|done|intros _ Hx; congruence]. intros _.
    unfold bytes_of, small in *. cbn. rewrite Hb, Hs.
    split; [done|]. rewrite He, Hs in Hr3. done.
  - eexists. split; [done|]. split; [done|].
    split; cbn; [|done|intros _ Hx; congruence].
    intros _. split; [done|]. unfold small in *. cbn. by rewrite Hs.
Qed.

(** ** The loops *)

Section loops.
Context (psrc : list Z) (names0 : list OneChunkName) (pli : list MRCPerLevelInfo).
Context (rb : Z) (num maxLevel : nat) (cutss : list (list Z)) (isSender : bool).
Context (Htree : tree_ok psrc names0 pli rb num maxLevel cutss).

(** The array once the chunks before [n] are resolved. *)
Record resolved_upto (n : nat) (names : list OneChunkName) : Prop := {
  ru_shape : Forall2 same_shape names0 names;
  ru_rest : ∀ i, (n ≤ i)%nat → names !! i = names0 !! i;
  ru_done : ∀ i, (i < n)%nat → ∃ c p par,
    names !! i = Some c ∧ GetParent2 names (Z.of_nat i) = Done (Z.of_nat p) ∧
    (p ≤ i)%nat ∧ (i ≠ 0 → p < i)%nat ∧ names !! p = Some par ∧
    chunk_resolved psrc isSender i c par
}.

Lemma GetParent2_lookup names i c p :
  names !! i = Some c → (i ≠ 0%nat → cn_parentIdx c = Z.of_nat p) → (i = 0%nat → p = 0%nat) →
  GetParent2 names (Z.of_nat i) = Done (Z.of_nat p).
Proof.
  intros Hc Hp H0. unfold GetParent2. destruct (Z.eqb_spec (Z.of_nat i) 0).
  - by rewrite (H0 ltac:(lia)).
  - rewrite get_at_nat. unfold get. rewrite Hc. cbn. rewrite Hp by lia. done.
Qed.

Lemma GetParent2_insert names i j c c' :
  names !! j = Some c → cn_parentIdx c' = cn_parentIdx c →
  GetParent2 (<[j := c']> names) (Z.of_nat i) = GetParent2 names (Z.of_nat i).
Proof.
  intros Hc Hp. unfold GetParent2. destruct (_ =? 0); [done|].
  rewrite !get_at_nat. unfold get. destruct (decide (i = j)) as [->|Hne].
  - rewrite list_lookup_insert_eq by (by eapply lookup_lt_Some). rewrite Hc. cbn. by rewrite Hp.
  - by rewrite list_lookup_insert_ne.
Qed.

Lemma chunk_resolved_root c par par' :
  chunk_resolved psrc isSender 0 c par → chunk_resolved psrc isSender 0 c par'.
Proof. intros [H1 H2 H3]. split; [done| |done]. intros Hr. by destruct (H2 Hr). Qed.

(** A miss that is resolved has its digest. *)
Lemma resolved_miss i c par :
  chunk_resolved psrc isSender i c par → cn_isHit c = false → cn_isSha1Ready c = true ∧
  cn_sha1name c = Calc_SHA1Sig (bytes_of psrc c) ∧
  cn_isHit c = small c || hint_of isSender (cn_sha1name c).
Proof.
  intros [H1 H2 H3] Hm. destruct (cn_isSha1Ready c) eqn:E.
  - split; [done|]. by apply H1.
  - destruct (H2 eq_refl) as [Hi Hp]. rewrite H3 in Hm; done.
Qed.

Lemma resolve_step_ok n names offset hits c0 :
  resolved_upto n names → (n < num)%nat → names0 !! n = Some c0 → cn_offset c0 = offset →
  ∃ names' hits', resolve_step GetSendHint GetDiskHint num psrc rb isSender (names, offset, hits) n =
    Done (names', offset + cn_length c0, hits') ∧ resolved_upto (S n) names'.
Proof using Htree.
  intros Hru Hn Hc0 Ho. destruct (node_info Htree n Hn) as (c0' & Hc0' & []).
  rewrite Hc0 in Hc0'. injection Hc0' as <-.
  pose proof (tk_bytes _ _ _ _ _ _ _ Htree) as Hrb.
  assert (names !! n = Some c0) as Hcur by (by rewrite (ru_rest _ _ Hru)).
  assert (∃ p par, GetParent2 names (Z.of_nat n) = Done (Z.of_nat p) ∧ (p ≤ n)%nat ∧
    (n ≠ 0 → p < n)%nat ∧ names !! p = Some par ∧
    (n ≠ 0%nat → contained c0 par) ∧ (n ≠ 0%nat → cn_isHit par = false →
       cn_isSha1Ready par = true ∧ cn_sha1name par = Calc_SHA1Sig (bytes_of psrc par) ∧
       cn_isHit par = small par || hint_of isSender (cn_sha1name par)))
    as (p & par & Hgp & Hpn & Hpn' & Hpar & Hcont & Hmiss).
  { destruct (decide (n = 0%nat)) as [->|Hne].
    - exists 0%nat, c0. rewrite (GetParent2_lookup _ _ _ 0%nat Hcur) by done. by split_and!.
    - destruct (parent_info Htree n) as (c & p & cp & H1 & H2 & H3 & H4 & H5); [lia|].
      rewrite Hc0 in H1. injection H1 as <-.
      destruct (Forall2_lookup_l _ _ _ _ _ (ru_shape _ _ Hru) H4) as (par & Hpar & Hsh).
      exists p, par. rewrite (GetParent2_lookup _ _ _ p Hcur) by (done || lia).
      split_and!; [done|lia|lia|done| |].
      + intros _. unfold contained, same_shape in *.
        destruct Hsh as (Hs1 & Hs2 & _). rewrite Hs1, Hs2. done.
      + intros _ Hm. destruct (ru_done _ _ Hru p H3) as (c & q & pp & Hc & _ & _ & _ & _ & Hres).
        rewrite Hpar in Hc. injection Hc as <-. by eapply resolved_miss. }
  destruct (resolve_chunk_ok psrc isSender n c0 par) as (cur' & Hres & Hsh & Hcr);
    [done|done|done|lia|done|done|done|].
  unfold resolve_step. rewrite (proj2 (Nat.ltb_lt _ _)) by done.
  cbn [c_assert mbind outcome_bind]. rewrite Hgp. cbn [mbind outcome_bind].
  rewrite get_at_nat. unfold get. rewrite Hcur, Hpar. cbn [mbind outcome_bind].
  rewrite (proj2 (Z.leb_le _ _)), Ho, Z.eqb_refl by lia. cbn [c_assert mbind outcome_bind].
  rewrite Hres. cbn [mbind outcome_bind]. unfold put.
  rewrite decide_True by (by eapply lookup_lt_Some). cbn [mbind outcome_bind].
  eexists _, _. split; [reflexivity|].
  pose proof (lookup_lt_Some _ _ _ Hcur) as Hlt. split.
  - eapply shape_insert; [apply Hru|done|done].
  - intros i Hi. rewrite list_lookup_insert_ne by lia. apply (ru_rest _ _ Hru). lia.
  - intros i Hi. assert (cn_parentIdx cur' = cn_parentIdx c0) as Hpi by apply Hsh.
    rewrite (GetParent2_insert names i n c0 cur' Hcur Hpi).
    destruct (decide (i = n)) as [->|Hne].
    + rewrite list_lookup_insert_eq by done. destruct (decide (n = 0%nat)) as [->|Hn0].
      * exists cur', p, cur'. assert (p = 0%nat) as -> by lia.
        split_and!; [done|done|done|done|by apply list_lookup_insert_eq|].
        by eapply chunk_resolved_root.
      * exists cur', p, par. split_and!; [done|done|done|done| |done].
        rewrite list_lookup_insert_ne by lia. done.
    + destruct (ru_done _ _ Hru i ltac:(lia)) as (c & q & pp & H1 & H2 & H3 & H4 & H5 & H6).
      exists c, q, pp. rewrite !list_lookup_insert_ne by lia. done.
Qed.

(** The chunks of one level. *)
Lemma resolve_level_ok k cuts names :
  cutss !! k = Some cuts → resolved_upto (first_of cutss k) names →
  ∃ names' offset hits,
    foldM (resolve_step GetSendHint GetDiskHint num psrc rb isSender) (names, 0, 0%nat)
      (seq (first_of cutss k) (length cuts)) = Done (names', offset, hits) ∧
    resolved_upto (first_of cutss (S k)) names'.
Proof using Htree.
  intros Hk Hru. pose proof (tk_levels _ _ _ _ _ _ _ Htree) as Hlv.
  pose proof (lo_nodes _ _ _ _ _ _ Hlv k cuts Hk) as Hn.
  pose proof (first_of_le _ _ _ Hk) as Hle. rewrite <-(lo_num _ _ _ _ _ _ Hlv) in Hle.
  destruct (foldM_total (resolve_step GetSendHint GetDiskHint num psrc rb isSender)
    (λ l st, resolved_upto (first_of cutss k + length l) st.1.1 ∧
             st.1.2 = last_cut 0 (take (length l) cuts))
    (names, 0, 0%nat) (seq (first_of cutss k) (length cuts)))
    as ([[names' offset] hits] & He & Hru' & _).
  - cbn. by rewrite Nat.add_0_r.
  - intros l1 i l2 [[names1 offset] hits] Hl [Hr Ho]. cbn [fst snd] in *.
    assert (i = first_of cutss k + length l1 ∧ (length l1 < length cuts)%nat)%nat as [-> Hi].
    { assert (seq (first_of cutss k) (length cuts) !! length l1 = Some i) as Hlk
        by (rewrite Hl, lookup_app_r, Nat.sub_diag; done).
      apply lookup_seq in Hlk. lia. }
    destruct (nodes_at_lookup _ _ _ _ _ (length l1) Hn Hi) as (c & e & Hc & Hce & []).
    destruct (resolve_step_ok (first_of cutss k + length l1) names1 offset hits c)
      as (names2 & hits' & Hst & Hr2); [done|lia|done|congruence|].
    eexists. split; [exact Hst|]. cbn [fst snd].
    rewrite length_app, Nat.add_1_r, Nat.add_succ_r. split; [done|].
    rewrite (take_S_r _ _ _ Hce), last_cut_snoc. lia.
  - exists names', offset, hits. split; [done|]. cbn [fst snd] in Hru'.
    rewrite length_seq in Hru'. by rewrite (first_of_S _ _ _ Hk).
Qed.

Lemma resolve_levels_ok n k low names :
  (k + n = maxLevel)%nat → resolved_upto (first_of cutss k) names →
  (0 < n)%nat →
  ∃ names' lowLevel,
    resolve_levels GetSendHint GetDiskHint num psrc rb isSender pli names low (seq k n) =
      Done (names', lowLevel) ∧
    (lowLevel < maxLevel)%nat ∧ resolved_upto (first_of cutss (S lowLevel)) names'.
Proof using Htree.
  revert k low names. induction n as [|n IH]; intros k low names Hkn Hru Hpos; [lia|].
  cbn [seq resolve_levels]. pose proof (tk_levels _ _ _ _ _ _ _ Htree) as Hlv.
  destruct (lookup_lt_is_Some_2 cutss k) as [cuts Hk];
    [rewrite (lo_len _ _ _ _ _ _ Hlv); lia|].
  unfold get. rewrite (lo_pli _ _ _ _ _ _ Hlv _ _ Hk). cbn [mbind outcome_bind numNames firstIndex].
  destruct (resolve_level_ok k cuts names Hk Hru) as (names' & offset & hits & -> & Hru').
  cbn [mbind outcome_bind]. destruct (_ =? _)%nat.
  { exists names', k. split_and!; [done|lia|done]. }
  destruct n as [|n].
  - exists names', k. split_and!; [done|lia|done].
  - apply (IH (S k)); [lia|done|lia].
Qed.

Lemma ResolveWithHint_ok :
  ∃ names' lowLevel,
    ResolveWithHint GetSendHint GetDiskHint names0 num psrc rb pli maxLevel isSender =
      Done (names', lowLevel) ∧
    (lowLevel < maxLevel)%nat ∧ resolved_upto (first_of cutss (S lowLevel)) names'.
Proof using Htree.
  apply resolve_levels_ok; [done| |].
  - split; [|done|].
    + apply Forall_Forall2_diag, Forall_forall. done.
    + intros i Hi. change (first_of cutss 0) with 0%nat in Hi. lia.
  - apply (lo_pos _ _ _ _ _ _ (tk_levels _ _ _ _ _ _ _ Htree)).
Qed.
End loops.
End resolve.
