(* ===== verification/MrcCandidates.v ===== *)
(** * Choosing the chunks to send

    [GetCandidateList2] starts from the chunks of the lowest resolved level
    and merges siblings bottom-up ([FlushChildren]): siblings that are all hits
    or all misses are replaced by their parent.  The theorems show that what
    remains is a partition of the buffer, in order, by chunks whose digest has
    been computed. *)

From Stdlib Require Import ZArith Lia.
From stdpp Require Import base list option numbers sorting.
From S2P Require Import Prelude Bytes Rabin Mrc MrcLevels MrcTree MrcResolve.

(** ** The flags of an array as functions of the index *)

Definition hitb (names : list OneChunkName) (i : nat) : bool :=
  match names !! i with Some c => cn_isHit c | None => false end.
Definition readyb (names : list OneChunkName) (i : nat) : bool :=
  match names !! i with Some c => cn_isSha1Ready c | None => false end.
Definition candb (names : list OneChunkName) (i : nat) : bool :=
  match names !! i with Some c => cn_isCandidate c | None => false end.

(** Arrays that differ in the candidate flags only. *)
Definition same_but_candidate (c c' : OneChunkName) : Prop := ∃ b, c' = set_isCandidate b c.
Abbreviation sim := (Forall2 same_but_candidate).

Lemma sbc_refl c : same_but_candidate c c.
Proof. exists (cn_isCandidate c). by destruct c. Qed.

Lemma sim_refl l : sim l l.
Proof. apply Forall_Forall2_diag, Forall_forall. intros c _. apply sbc_refl. Qed.

Lemma sim_trans l1 l2 l3 : sim l1 l2 → sim l2 l3 → sim l1 l3.
Proof.
  intros H1. revert l3. induction H1 as [|x y l1 l2 [p ->] _ IH]; intros l3 H2;
    inversion_clear H2 as [|? z ? l3' [q ->] H3]; constructor; [by exists q|by apply IH].
Qed.

Lemma sim_lookup l l' i c : sim l l' → l !! i = Some c → ∃ b, l' !! i = Some (set_isCandidate b c).
Proof.
  intros Hs Hi. destruct (Forall2_lookup_l _ _ _ _ _ Hs Hi) as (c' & Hc' & b & ->). by exists b.
Qed.

Lemma sim_hitb l l' i : sim l l' → hitb l' i = hitb l i.
Proof.
  intros Hs. unfold hitb. destruct (l !! i) as [c|] eqn:E.
  - by destruct (sim_lookup _ _ _ _ Hs E) as [b ->].
  - apply lookup_ge_None in E. rewrite (Forall2_length _ _ _ Hs) in E.
    apply lookup_ge_None in E. by rewrite E.
Qed.

Lemma sim_GetParent2 l l' i : sim l l' → GetParent2 l' i = GetParent2 l i.
Proof.
  intros Hs. unfold GetParent2, get_at, get. destruct (i =? 0), (i <? 0); try done.
  destruct (l !! Z.to_nat i) as [c|] eqn:E.
  - by destruct (sim_lookup _ _ _ _ Hs E) as [b ->].
  - apply lookup_ge_None in E. rewrite (Forall2_length _ _ _ Hs) in E.
    apply lookup_ge_None in E. by rewrite E.
Qed.

Lemma update_candidate names i b :
  (i < length names)%nat →
  ∃ names', update names i (set_isCandidate b) = Done names' ∧ sim names names' ∧
    ∀ j, candb names' j = if decide (j = i) then b else candb names j.
Proof.
  intros Hi. destruct (lookup_lt_is_Some_2 names i Hi) as [c Hc].
  exists (<[i := set_isCandidate b c]> names). split_and!.
  - apply update_Done. by exists c.
  - apply Forall2_same_length_lookup_2; [by rewrite length_insert|].
    intros j x y Hx Hy. destruct (decide (i = j)) as [<-|Hne].
    + rewrite Hc in Hx. injection Hx as <-. rewrite list_lookup_insert_eq in Hy by done.
      injection Hy as <-. by exists b.
    + rewrite list_lookup_insert_ne, Hx in Hy by done. injection Hy as <-. apply sbc_refl.
  - intros j. unfold candb. case_decide as E.
    + subst j. by rewrite list_lookup_insert_eq.
    + by rewrite list_lookup_insert_ne.
Qed.

Lemma set_candidates_ok names b stack :
  Forall (λ i, i < length names)%nat stack →
  ∃ names', set_candidates b names stack = Done names' ∧ sim names names' ∧
    ∀ j, candb names' j = if decide (j ∈ stack) then b else candb names j.
Proof.
  revert names. induction stack as [|i stack IH]; intros names Hst.
  - exists names. split_and!; [done|apply sim_refl|]. intros j.
    by rewrite decide_False by apply not_elem_of_nil.
  - apply Forall_cons_1 in Hst as [Hi Hst].
    destruct (update_candidate names i b Hi) as (n1 & H1 & S1 & C1).
    destruct (IH n1) as (n2 & H2 & S2 & C2).
    { by rewrite <-(Forall2_length _ _ _ S1). }
    exists n2. unfold set_candidates in *. cbn [foldM]. rewrite H1. cbn [mbind outcome_bind].
    split_and!; [done|by eapply sim_trans|]. intros j. rewrite C2, C1.
    destruct (decide (j ∈ stack)) as [Hj|Hj].
    + by rewrite decide_True by (by right).
    + case_decide as E; [subst; by rewrite decide_True by left|].
      rewrite decide_False; [done|]. by intros [?|?]%elem_of_cons.
Qed.

(** ** [FlushChildren] *)

Definition count (f : nat → bool) (l : list nat) : nat := length (List.filter f l).

Lemma count_cons f x l : count f (x :: l) = ((if f x then 1 else 0) + count f l)%nat.
Proof. unfold count. cbn. by destruct (f x). Qed.

Lemma count_le f l : (count f l ≤ length l)%nat.
Proof. induction l as [|x l IH]; [done|]. rewrite count_cons. cbn. destruct (f x); lia. Qed.

Lemma count_all f l : count f l = length l ↔ forallb f l = true.
Proof.
  induction l as [|x l IH]; [done|]. rewrite count_cons. cbn. pose proof (count_le f l).
  destruct (f x); cbn; rewrite <-?IH; split; (lia || done).
Qed.

Lemma count_none f l : count f l = 0%nat ↔ forallb (λ i, negb (f i)) l = true.
Proof.
  induction l as [|x l IH]; [done|]. rewrite count_cons. cbn.
  destruct (f x); cbn; rewrite <-?IH; split; (lia || done).
Qed.

Lemma flush_count_loop names p stack h c :
  (∀ i, i ∈ stack → GetParent2 names (Z.of_nat i) = Done p ∧ (i < length names)%nat) →
  foldM (flush_count names p) (h, c) stack =
    Done ((h + count (hitb names) stack)%nat, (c + count (candb names) stack)%nat).
Proof.
  revert h c. induction stack as [|i stack IH]; intros h c Hst.
  { cbn. by rewrite !Nat.add_0_r. }
  destruct (Hst i) as [Hp Hi]; [by left|].
  destruct (lookup_lt_is_Some_2 names i Hi) as [x Hx].
  cbn [foldM]. unfold flush_count at 2. rewrite Hp. cbn [mbind outcome_bind].
  rewrite Z.eqb_refl. cbn [c_assert mbind outcome_bind]. unfold get. rewrite Hx.
  cbn [mbind outcome_bind]. rewrite IH by (intros j Hj; apply Hst; by right).
  rewrite !count_cons. unfold hitb at 2, candb at 2. rewrite Hx.
  do 2 f_equal; [destruct (cn_isHit x)|destruct (cn_isCandidate x)]; lia.
Qed.

(** The siblings of [stack] are replaced by their parent. *)
Definition merged (names : list OneChunkName) (stack : list nat) : bool :=
  forallb (candb names) stack &&
  (forallb (λ i, negb (hitb names i)) stack || forallb (hitb names) stack).

Lemma FlushChildren_ok names stack p :
  stack ≠ [] → (p < length names)%nat → candb names p = false ∨ stack = [p] →
  (∀ i, i ∈ stack → GetParent2 names (Z.of_nat i) = Done (Z.of_nat p) ∧ (i < length names)%nat) →
  ∃ names', FlushChildren names stack = Done names' ∧ sim names names' ∧
    ∀ j, candb names' j =
      if merged names stack then
        if decide (j = p) then true else if decide (j ∈ stack) then false else candb names j
      else candb names j.
Proof.
  intros Hne Hp Hcp Hst. destruct stack as [|i0 stack']; [done|].
  set (stack := i0 :: stack') in *. unfold FlushChildren.
  rewrite (proj2 (Nat.leb_le _ _)) by (cbn; lia). cbn [c_assert mbind outcome_bind].
  change (get stack 0) with (Done i0). cbn [mbind outcome_bind].
  rewrite (proj1 (Hst i0 ltac:(by left))). cbn [mbind outcome_bind].
  rewrite flush_count_loop by done. cbn [mbind outcome_bind]. rewrite !Nat.add_0_l.
  pose proof (count_le (candb names) stack) as Hle.
  assert (Forall (λ i, i < length names)%nat stack) as Hrange.
  { apply Forall_forall. intros i Hi. by apply Hst. }
  destruct (Nat.ltb_spec (count (candb names) stack) (length stack)) as [Hlt|Hge].
  { exists names. split_and!; [done|apply sim_refl|]. intros j. unfold merged.
    destruct (forallb (candb names) stack) eqn:E; [|done]. apply count_all in E. lia. }
  assert (forallb (candb names) stack = true) as Hall by (apply count_all; lia).
  rewrite (proj2 (Nat.eqb_eq (count (candb names) stack) (length stack))) by lia.
  cbn [c_assert mbind outcome_bind]. rewrite (proj2 (Z.ltb_ge _ _)) by lia. cbn [mbind outcome_bind]. rewrite Nat2Z.id.
  assert ((count (hitb names) stack =? 0)%nat || (count (hitb names) stack =? length stack)%nat =
    merged names stack) as ->.
  { unfold merged. rewrite Hall. cbn [andb]. f_equal; apply eq_bool_prop_intro;
      rewrite !Is_true_true, Nat.eqb_eq; [apply count_none|apply count_all]. }
  destruct (merged names stack) eqn:Em.
  - destruct (set_candidates_ok names false stack Hrange) as (n1 & -> & S1 & C1).
    cbn [mbind outcome_bind].
    destruct (update_candidate n1 p true) as (n2 & -> & S2 & C2);
      [by rewrite <-(Forall2_length _ _ _ S1)|].
    exists n2. split_and!; [done|by eapply sim_trans|]. intros j. rewrite C2, C1. done.
  - destruct (set_candidates_ok names true stack Hrange) as (n1 & -> & S1 & C1).
    cbn [mbind outcome_bind].
    destruct (update_candidate n1 p false) as (n2 & -> & S2 & C2);
      [by rewrite <-(Forall2_length _ _ _ S1)|].
    exists n2. split_and!; [done|by eapply sim_trans|]. intros j. rewrite C2, C1.
    assert (candb names p = false) as Hcp'.
    { destruct Hcp as [|Hs]; [done|]. exfalso. rewrite Hs in Em, Hall. unfold merged in Em.
      rewrite Hall in Em. cbn in Em. by destruct (hitb names p). }
    case_decide as E; [by subst|]. case_decide as E2; [|done].
    rewrite forallb_forall in Hall. symmetry. apply Hall. by apply list_elem_of_In.
Qed.

(** ** Covers *)

(** The chunks [g] are consecutive from offset [a] to offset [b]. *)
Fixpoint covers (names : list OneChunkName) (a : Z) (g : list nat) (b : Z) : Prop :=
  match g with
  | [] => a = b
  | i :: g' => ∃ c, names !! i = Some c ∧ cn_offset c = a ∧ 0 < cn_length c ∧
                    covers names (a + cn_length c) g' b
  end.

Lemma covers_app names a g1 m g2 b :
  covers names a g1 m → covers names m g2 b → covers names a (g1 ++ g2) b.
Proof.
  revert a. induction g1 as [|i g1 IH]; intros a; cbn [covers app]; [by intros ->|].
  intros (c & H1 & H2 & H3 & H4) Hb. exists c. split_and!; [done|done|done|]. by apply IH.
Qed.

(** The set of candidates that stands for node [n]: the node itself, or
    deeper chunks whose digest is known; a hit always stands for itself. *)
Record node_cover (st : list OneChunkName) (num nxt n : nat) (g : list nat) : Prop := {
  nc_covers : ∃ c, st !! n = Some c ∧
    covers st (cn_offset c) g (cn_offset c + cn_length c);
  nc_hit : hitb st n = true → g = [n];
  nc_ready : ∀ x, x ∈ g → x ≠ n → readyb st x = true;
  nc_deep : g = [n] ∨ ∀ x, x ∈ g → (nxt ≤ x)%nat;
  nc_range : ∀ x, x ∈ g → (x < num)%nat
}.

Lemma Forall2_concat_elem {A B} (R : A → list B → Prop) l cov x :
  Forall2 R l cov → x ∈ concat cov →
  ∃ j n g, l !! j = Some n ∧ cov !! j = Some g ∧ R n g ∧ x ∈ g.
Proof.
  induction 1 as [|n g l cov Hr _ IH]; cbn; [by intros ?%elem_of_nil|].
  intros [Hx|Hx]%elem_of_app.
  - by exists 0%nat, n, g.
  - destruct (IH Hx) as (j & n' & g' & H1 & H2 & H3 & H4). by exists (S j), n', g'.
Qed.

Lemma elem_of_concat_lookup {B} (cov : list (list B)) j g x :
  cov !! j = Some g → x ∈ g → x ∈ concat cov.
Proof.
  revert j. induction cov as [|g' cov IH]; intros j Hj Hx; [done|].
  cbn. apply elem_of_app. destruct j as [|j]; cbn in Hj; [injection Hj as ->; by left|].
  right. by eapply IH.
Qed.

Lemma concat_singletons {A} (l : list A) cov :
  Forall2 (λ n g, g = [n]) l cov → concat cov = l.
Proof. induction 1 as [|n g l cov -> _ IH]; cbn; [done|]. by rewrite IH. Qed.

Lemma covers_sim names names' a g b : sim names names' → covers names a g b → covers names' a g b.
Proof.
  intros Hs. revert a. induction g as [|i g IH]; intros a; cbn [covers]; [done|].
  intros (c & Hc & Ho & Hl & Hg). destruct (sim_lookup _ _ _ _ Hs Hc) as [bb Hc'].
  eexists. split_and!; [exact Hc'|done|done|]. by apply IH.
Qed.

(** ** Siblings *)

(** Groups of consecutive nodes from [idx] on, of the given sizes, with the
    parents [p], [p + 1], ... *)
Fixpoint siblings (st : list OneChunkName) (idx p : nat) (sizes : list nat) : Prop :=
  match sizes with
  | [] => True
  | k :: sizes' =>
      (0 < k)%nat ∧
      (∀ n, (idx ≤ n < idx + k)%nat → GetParent2 st (Z.of_nat n) = Done (Z.of_nat p)) ∧
      (∃ cp, st !! p = Some cp ∧
         covers st (cn_offset cp) (seq idx k) (cn_offset cp + cn_length cp)) ∧
      (∀ n, (idx ≤ n < idx + k)%nat → hitb st p = true → hitb st n = true) ∧
      (∀ n, (idx ≤ n < idx + k)%nat → hitb st p = false → readyb st n = true) ∧
      siblings st (idx + k) (S p) sizes'
  end.

Section level.
Context (st : list OneChunkName) (maxN num base total : nat).
Context (Hnum : (num ≤ length st)%nat).

(** One turn of the loop that only pushes. *)
Lemma push_step names stack j p :
  sim st names → GetParent2 st (Z.of_nat (base + j)) = Done (Z.of_nat p) →
  GetParent2 st (Z.of_nat (S (base + j))) = Done (Z.of_nat p) →
  (base + j < num)%nat → (p ≤ base + j)%nat → (length stack + 1 < maxN)%nat →
  S j ≠ total →
  bottom_up_step maxN num base total (names, stack) j =
    Done (names, stack ++ [(base + j)%nat]).
Proof.
  intros Hs Hp Hp' Hlt Hle Hsp Ht. unfold bottom_up_step.
  rewrite !(sim_GetParent2 st names) by done. rewrite Hp. cbn [mbind outcome_bind].
  rewrite (proj2 (Nat.ltb_lt (base + j) num)) by lia.
  rewrite (proj2 (Z.ltb_lt _ _)), (proj2 (Z.leb_le _ _)) by lia.
  rewrite (proj2 (Nat.ltb_lt _ maxN)) by (rewrite length_app; cbn; lia).
  cbn [c_assert mbind outcome_bind]. rewrite (proj2 (Nat.eqb_neq _ _)) by done.
  rewrite Hp'. cbn [mbind outcome_bind]. by rewrite Z.eqb_refl.
Qed.

(** The turn that ends a group. *)
Lemma flush_step names stack j p :
  sim st names → GetParent2 st (Z.of_nat (base + j)) = Done (Z.of_nat p) →
  (S j = total ∨ GetParent2 st (Z.of_nat (S (base + j))) = Done (Z.of_nat (S p))) →
  (base + j < num)%nat → (p ≤ base + j)%nat → (length stack + 1 < maxN)%nat →
  bottom_up_step maxN num base total (names, stack) j =
    (names' ← FlushChildren names (stack ++ [(base + j)%nat]); Done (names', [])).
Proof.
  intros Hs Hp Hp' Hlt Hle Hsp. unfold bottom_up_step.
  rewrite !(sim_GetParent2 st names) by done. rewrite Hp. cbn [mbind outcome_bind].
  rewrite (proj2 (Nat.ltb_lt (base + j) num)) by lia.
  rewrite (proj2 (Z.ltb_lt _ _)), (proj2 (Z.leb_le _ _)) by lia.
  rewrite (proj2 (Nat.ltb_lt _ maxN)) by (rewrite length_app; cbn; lia).
  cbn [c_assert mbind outcome_bind]. destruct (Nat.eqb_spec (S j) total) as [|Hne]; [done|].
  destruct Hp' as [|Hp']; [done|]. rewrite Hp'. cbn [mbind outcome_bind].
  rewrite (proj2 (Z.eqb_neq _ _)) by lia. done.
Qed.

(** The loop over one group. *)
Lemma group_loop names j0 k p :
  sim st names → (0 < k)%nat → (p ≤ base + j0)%nat → (base + j0 + k ≤ num)%nat →
  (k < maxN)%nat → (j0 + k ≤ total)%nat →
  (∀ n, (base + j0 ≤ n < base + j0 + k)%nat →
     GetParent2 st (Z.of_nat n) = Done (Z.of_nat p)) →
  (j0 + k = total ∨ GetParent2 st (Z.of_nat (base + j0 + k)) = Done (Z.of_nat (S p)))%nat →
  foldM (bottom_up_step maxN num base total) (names, []) (seq j0 k) =
    (names' ← FlushChildren names (seq (base + j0) k); Done (names', [])).
Proof.
  intros Hs Hk Hp Hnm Hmax Ht Hpar Hlast. destruct k as [|k]; [lia|].
  assert (∀ t, (t ≤ k)%nat →
    foldM (bottom_up_step maxN num base total) (names, []) (seq j0 t) =
      Done (names, seq (base + j0) t)) as Hpush.
  { induction t as [|t IH]; intros Hlt; [done|].
    rewrite seq_S, foldM_app, IH by lia. cbn [foldM mbind outcome_bind].
    rewrite (push_step names _ (j0 + t) p); [|done|apply Hpar; lia|apply Hpar; lia|lia|lia
      |rewrite length_seq; lia|lia].
    cbn [mbind outcome_bind]. rewrite seq_S. do 4 f_equal. lia. }
  rewrite seq_S, foldM_app, Hpush by done. cbn [foldM mbind outcome_bind].
  rewrite (flush_step names _ (j0 + k) p); [|done|apply Hpar; lia| |lia|lia
    |rewrite length_seq; lia].
  - rewrite (seq_S k (base + j0)), Nat.add_assoc. by destruct (FlushChildren _ _).
  - destruct Hlast as [|Hl]; [left; lia|right]. rewrite <-Hl. do 2 f_equal. lia.
Qed.

(** ** One level *)

(** The candidates among the [num] chunks of the tree are those of [l]; the
    rest of the static array is stale. *)
Definition candidates_are (names : list OneChunkName) (l : list nat) : Prop :=
  ∀ i, (i < num)%nat → candb names i = true ↔ i ∈ l.

(** A node of a level is a candidate when it stands for itself. *)
Lemma cand_self names nxt a k cov other j n g :
  candidates_are names (other ++ concat cov) →
  Forall2 (node_cover st num nxt) (seq a k) cov → (a + k ≤ nxt)%nat → (a + k ≤ num)%nat →
  n ∉ other → seq a k !! j = Some n → cov !! j = Some g →
  candb names n = true ↔ g = [n].
Proof using.
  clear Hnum.
  intros Hc Hcov Hlt Hnm Hd Hn Hg.
  assert (n < num)%nat as Hnn by (apply lookup_seq in Hn; lia).
  rewrite (Hc n Hnn), elem_of_app. split.
  - intros [?|Hin]; [done|].
    destruct (Forall2_concat_elem _ _ _ _ Hcov Hin) as (j' & m & g' & Hm & Hg' & Hcv & Hx).
    apply lookup_seq in Hn as [-> Hj]. apply lookup_seq in Hm as [-> Hj'].
    destruct (nc_deep _ _ _ _ _ Hcv) as [->|Hd'].
    + apply list_elem_of_singleton in Hx. assert (j' = j) as -> by lia. congruence.
    + specialize (Hd' _ Hx). lia.
  - intros ->. right. eapply elem_of_concat_lookup; [done|by left].
Qed.

Lemma all_candidates names nxt a k cov other :
  candidates_are names (other ++ concat cov) →
  Forall2 (node_cover st num nxt) (seq a k) cov → (a + k ≤ nxt)%nat → (a + k ≤ num)%nat →
  (∀ n, n ∈ seq a k → n ∉ other) →
  forallb (candb names) (seq a k) = true ↔ Forall2 (λ n g, g = [n]) (seq a k) cov.
Proof using.
  clear Hnum.
  intros Hc Hcov Hlt Hnm Hd. rewrite forallb_forall. split.
  - intros Hall. apply Forall2_same_length_lookup_2; [by eapply Forall2_length|].
    intros j n g Hn Hg. eapply cand_self; [done|done|done|done| |done|done|].
    + apply Hd. by eapply list_elem_of_lookup_2.
    + apply Hall, list_elem_of_In. by eapply list_elem_of_lookup_2.
  - intros Hf n Hn%list_elem_of_In. pose proof Hn as Hn'.
    apply list_elem_of_lookup_1 in Hn as [j Hj].
    destruct (Forall2_lookup_l _ _ _ _ _ Hf Hj) as (g & Hg & ->).
    eapply cand_self; [done|done|done|done|by apply Hd|done|done|done].
Qed.

(** Siblings that are kept: the covers of the group make a cover of the parent. *)
Lemma covers_concat nxt a idx k cov b :
  covers st a (seq idx k) b → Forall2 (node_cover st num nxt) (seq idx k) cov →
  covers st a (concat cov) b.
Proof using.
  clear Hnum.
  revert a idx cov. induction k as [|k IH]; intros a idx cov Hc Hf; cbn [seq covers] in *.
  { inversion Hf. by cbn. }
  destruct Hc as (c & Hc & Ho & Hl & Hrest).
  inversion Hf as [|? g ? cov' Hg Hf']; subst. cbn.
  destruct (nc_covers _ _ _ _ _ Hg) as (c' & Hc' & Hcv). rewrite Hc in Hc'. injection Hc' as <-.
  eapply covers_app; [exact Hcv|]. by eapply IH.
Qed.

(** The effect of [FlushChildren] on one group, as a cover of the parent. *)
Lemma flush_cover names nxt lo idx p k cov other :
  sim st names → candidates_are names (other ++ concat cov) →
  Forall2 (node_cover st num nxt) (seq idx k) cov → (0 < k)%nat →
  (p < lo ≤ idx)%nat → (idx + k ≤ nxt)%nat → (idx + k ≤ num)%nat →
  (∀ n, (idx ≤ n < idx + k)%nat → GetParent2 st (Z.of_nat n) = Done (Z.of_nat p)) →
  (∃ cp, st !! p = Some cp ∧ covers st (cn_offset cp) (seq idx k) (cn_offset cp + cn_length cp)) →
  (∀ n, (idx ≤ n < idx + k)%nat → hitb st p = true → hitb st n = true) →
  (∀ n, (idx ≤ n < idx + k)%nat → hitb st p = false → readyb st n = true) →
  p ∉ other → (∀ n, n ∈ seq idx k → n ∉ other) →
  ∃ names' g, FlushChildren names (seq idx k) = Done names' ∧ sim st names' ∧
    node_cover st num lo p g ∧ candidates_are names' (other ++ g) ∧
    (∀ x, x ∈ g → x = p ∨ x ∈ concat cov).
Proof using Hnum.
  intros Hs Hc Hcov Hk Hp Hnxt Hn Hpar (cp & Hcp & Hcover) Hhit Hready Hpo Hso.
  pose proof (Forall2_length _ _ _ Hs) as Hlen.
  assert (∀ x, x ∈ concat cov → (lo ≤ x)%nat) as Hdeep.
  { intros x Hx. destruct (Forall2_concat_elem _ _ _ _ Hcov Hx) as (j & m & g & Hm & _ & Hcv & Hxg).
    apply lookup_seq in Hm as [-> ?].
    destruct (nc_deep _ _ _ _ _ Hcv) as [->|Hd]; [apply list_elem_of_singleton in Hxg; lia|].
    specialize (Hd x Hxg). lia. }
  destruct (FlushChildren_ok names (seq idx k) p) as (names' & He & Hs' & Hcand).
  { destruct k; [lia|done]. }
  { lia. }
  { left. destruct (candb names p) eqn:E; [|done]. apply Hc in E; [|lia].
    apply elem_of_app in E as [?|E]; [done|]. specialize (Hdeep p E). lia. }
  { intros i Hi%elem_of_seq_iff. rewrite (sim_GetParent2 st names) by done.
    split; [apply Hpar; lia|lia]. }
  pose proof (all_candidates names nxt idx k cov other Hc Hcov Hnxt Hn Hso) as Hall.
  destruct (merged names (seq idx k)) eqn:Em.
  - apply andb_prop in Em as [Ecand _]. apply Hall in Ecand as Hself.
    exists names', [p]. split_and!; [done|by eapply sim_trans| | |].
    + split; [|done| |by left|intros x ->%list_elem_of_singleton; lia].
      * exists cp. split; [done|]. cbn [covers]. exists cp. split_and!; [done|done| |done].
        destruct k as [|k]; [lia|]. cbn [seq covers] in Hcover.
        destruct Hcover as (c & _ & Ho & Hl & Hrest).
        assert (cn_offset cp + cn_length c ≤ cn_offset cp + cn_length cp); [|lia].
        clear -Hrest. revert Hrest. generalize (S idx) as i, (cn_offset cp + cn_length c) as a.
        generalize (cn_offset cp + cn_length cp) as b.
        induction k as [|k IH]; intros b i a; cbn [seq covers]; [lia|].
        intros (c' & _ & _ & Hl' & Hr). specialize (IH _ _ _ Hr). lia.
      * intros x Hx. by apply list_elem_of_singleton in Hx.
    + intros i Hi. rewrite Hcand, elem_of_app, list_elem_of_singleton.
      destruct (decide (i = p)) as [->|Hip]; [split; [by right|done]|].
      case_decide as Hst'.
      * split; [done|]. intros [Ho|?]; [|done]. by destruct (Hso i).
      * rewrite (Hc i Hi), elem_of_app, (concat_singletons _ _ Hself). tauto.
    + intros x Hx. left. by apply list_elem_of_singleton in Hx.
  - exists names', (concat cov). split_and!; [done|by eapply sim_trans| | |by right].
    + assert (hitb st p = false) as Hph.
      { destruct (hitb st p) eqn:E; [|done]. exfalso.
        assert (forallb (hitb names) (seq idx k) = true) as Hh.
        { apply forallb_forall. intros n Hin%list_elem_of_In%elem_of_seq_iff.
          rewrite (sim_hitb st names) by done. by apply Hhit. }
        assert (forallb (candb names) (seq idx k) = true) as Hca.
        { apply Hall. apply Forall2_same_length_lookup_2; [by eapply Forall2_length|].
          intros j n g Hj Hg. eapply nc_hit; [by eapply Forall2_lookup_lr|].
          apply lookup_seq in Hj as [-> ?]. apply Hhit; [lia|done]. }
        unfold merged in Em. rewrite Hca, Hh, orb_true_r in Em. done. }
      split.
      * exists cp. split; [done|]. by eapply covers_concat.
      * by rewrite Hph.
      * intros x Hx _.
        destruct (Forall2_concat_elem _ _ _ _ Hcov Hx) as (j & m & g & Hm & _ & Hcv & Hxg).
        apply lookup_seq in Hm as [-> ?].
        destruct (decide (x = (idx + j)%nat)) as [->|Hne]; [apply Hready; [lia|done]|].
        by eapply nc_ready.
      * by right.
      * intros x Hx.
        destruct (Forall2_concat_elem _ _ _ _ Hcov Hx) as (j & m & g & _ & _ & Hcv & Hxg).
        by eapply nc_range.
    + intros i Hi. rewrite Hcand. by apply Hc.
Qed.

(** The loop over the groups of a level. *)
Lemma level_groups sizes : ∀ names idx p j0 lo nxt cov other,
  sim st names → siblings st idx p sizes → (base + j0 = idx)%nat →
  (j0 + sum_list sizes = total)%nat → (idx + sum_list sizes ≤ nxt)%nat →
  (idx + sum_list sizes ≤ num)%nat → (p + length sizes ≤ lo ≤ idx)%nat →
  (∀ k, k ∈ sizes → k < maxN)%nat →
  Forall2 (node_cover st num nxt) (seq idx (sum_list sizes)) cov →
  candidates_are names (other ++ concat cov) →
  (∀ x, x ∈ other → (x < p ∨ lo ≤ x < idx ∨ nxt ≤ x)%nat) →
  ∃ names' cov',
    foldM (bottom_up_step maxN num base total) (names, []) (seq j0 (sum_list sizes)) =
      Done (names', []) ∧
    sim st names' ∧ Forall2 (node_cover st num lo) (seq p (length sizes)) cov' ∧
    candidates_are names' (other ++ concat cov').
Proof using Hnum.
  induction sizes as [|k sizes IH];
    intros names idx p j0 lo nxt cov other Hs Hsib Hidx Htot Hnxt Hnm Hlo Hsz Hcov Hc Ho.
  { inversion Hcov; subst. exists names, []. by split_and!. }
  cbn [siblings] in Hsib. destruct Hsib as (Hk & Hpar & Hcover & Hhit & Hready & Hsib).
  change (sum_list (k :: sizes)) with (k + sum_list sizes)%nat in *. cbn [length] in Hlo.
  rewrite seq_app in Hcov. apply Forall2_app_inv_l in Hcov as (cg & cr & Hcg & Hcr & ->).
  rewrite concat_app in Hc.
  destruct (flush_cover names nxt lo idx p k cg (other ++ concat cr))
    as (names1 & g & He & Hs1 & Hg & Hc1 & Hsub); try done; try lia.
  { intros i Hi. rewrite (Hc i Hi), !elem_of_app. tauto. }
  { rewrite elem_of_app. intros [Hx|Hx]; [specialize (Ho p Hx); lia|].
    destruct (Forall2_concat_elem _ _ _ _ Hcr Hx) as (j & m & g & Hm & _ & Hcv & Hxg).
    apply lookup_seq in Hm as [-> ?].
    destruct (nc_deep _ _ _ _ _ Hcv) as [->|Hd]; [apply list_elem_of_singleton in Hxg; lia|].
    specialize (Hd p Hxg). lia. }
  { intros n Hn%elem_of_seq_iff. rewrite elem_of_app. intros [Hx|Hx]; [specialize (Ho n Hx); lia|].
    destruct (Forall2_concat_elem _ _ _ _ Hcr Hx) as (j & m & g & Hm & _ & Hcv & Hxg).
    apply lookup_seq in Hm as [-> ?].
    destruct (nc_deep _ _ _ _ _ Hcv) as [->|Hd]; [apply list_elem_of_singleton in Hxg; lia|].
    specialize (Hd n Hxg). lia. }
  destruct (IH names1 (idx + k)%nat (S p) (j0 + k)%nat lo nxt cr (other ++ g))
    as (names2 & cov' & He2 & Hs2 & Hcov' & Hc2); try done; try lia.
  { intros k' Hk'. apply Hsz. by right. }
  { intros i Hi. rewrite (Hc1 i Hi), !elem_of_app. tauto. }
  { intros x [Hx|Hx]%elem_of_app; [specialize (Ho x Hx); lia|].
    destruct (Hsub x Hx) as [->|Hx']; [lia|].
    destruct (Forall2_concat_elem _ _ _ _ Hcg Hx') as (j & m & g' & Hm & _ & Hcv & Hxg).
    apply lookup_seq in Hm as [-> ?].
    destruct (nc_deep _ _ _ _ _ Hcv) as [->|Hd]; [apply list_elem_of_singleton in Hxg; lia|].
    specialize (Hd x Hxg). lia. }
  exists names2, (g :: cov'). split_and!; [| done| |].
  - rewrite seq_app, foldM_app, (group_loop names j0 k p); try done; try lia.
    + rewrite Hidx, He. cbn [mbind outcome_bind]. done.
    + apply Hsz. by left.
    + intros n Hn. apply Hpar. lia.
    + destruct sizes as [|k2 sizes]; [left; cbn in Htot; lia|right].
      cbn [siblings] in Hsib. destruct Hsib as (Hk2 & Hpar2 & _). rewrite Hidx. apply Hpar2. lia.
  - cbn [length seq]. by constructor.
  - intros i Hi. rewrite (Hc2 i Hi). cbn [concat]. rewrite !elem_of_app. tauto.
Qed.
End level.

(** ** From the tree to its siblings *)

Lemma nodes_covers names0 st idx lvl a cuts :
  Forall2 same_shape names0 st → nodes_at names0 idx lvl a cuts →
  covers st a (seq idx (length cuts)) (last_cut a cuts).
Proof.
  intros Hsh. revert idx a. induction cuts as [|e cuts IH]; intros idx a; [done|].
  cbn [nodes_at length seq covers]. intros [(c & Hc & []) Hn].
  destruct (Forall2_lookup_l _ _ _ _ _ Hsh Hc) as (c' & Hc' & (Ho & Hl & _)).
  exists c'. rewrite last_cut_cons. split_and!; [done|lia|lia|].
  replace (a + cn_length c') with e by lia. by apply IH.
Qed.

Lemma shape_GetParent2 names0 st i c p :
  Forall2 same_shape names0 st → names0 !! i = Some c → i ≠ 0%nat →
  cn_parentIdx c = Z.of_nat p → GetParent2 st (Z.of_nat i) = Done (Z.of_nat p).
Proof.
  intros Hsh Hc Hi Hp. destruct (Forall2_lookup_l _ _ _ _ _ Hsh Hc) as (c' & Hc' & (_ & _ & _ & Hp' & _)).
  eapply GetParent2_lookup; [done|congruence|done].
Qed.

Lemma siblings_of_groups names0 st lvl lvl' coarse groups idx p a :
  Forall2 same_shape names0 st → (0 < idx)%nat →
  parents_at names0 idx p groups → Forall2 group_of coarse groups →
  nodes_at names0 p lvl a coarse → nodes_at names0 idx lvl' a (concat groups) →
  (∀ n q, (idx ≤ n < idx + length (concat groups))%nat →
     GetParent2 st (Z.of_nat n) = Done (Z.of_nat q) →
     (hitb st q = true → hitb st n = true) ∧ (hitb st q = false → readyb st n = true)) →
  siblings st idx p (length <$> groups).
Proof.
  intros Hsh. revert coarse idx p a.
  induction groups as [|g groups IH]; intros coarse idx p a Hidx Hpar Hf2 Hp Hc Hres; [done|].
  inversion Hf2 as [|e ? coarse' ? [g' Hg] Hf2']; subst.
  cbn [parents_at] in Hpar. destruct Hpar as [Hpg Hpar].
  cbn [nodes_at] in Hp. destruct Hp as [(cp & Hcp & []) Hp].
  cbn [concat] in Hc, Hres. apply nodes_at_app in Hc as [Hc1 Hc2].
  rewrite last_cut_snoc in Hc2. rewrite length_app in Hres.
  assert (∀ n, (idx ≤ n < idx + length (g' ++ [e]))%nat →
    GetParent2 st (Z.of_nat n) = Done (Z.of_nat p)) as Hgp.
  { intros n Hn. destruct (Hpg n Hn) as (c & Hcn & Hpi).
    eapply shape_GetParent2; [done|done|lia|done]. }
  cbn [fmap list_fmap siblings]. split_and!.
  - rewrite length_app. cbn. lia.
  - done.
  - destruct (Forall2_lookup_l _ _ _ _ _ Hsh Hcp) as (cp' & Hcp' & (Ho & Hl & _)).
    exists cp'. split; [done|]. replace (cn_offset cp') with a by lia.
    replace (a + cn_length cp') with e by lia.
    pose proof (nodes_covers _ _ _ _ _ _ Hsh Hc1) as Hcov. by rewrite last_cut_snoc in Hcov.
  - intros n Hn. apply (Hres n p); [lia|by apply Hgp].
  - intros n Hn. apply (Hres n p); [lia|by apply Hgp].
  - eapply (IH coarse'); [lia|done|done|exact Hp|exact Hc2|].
    intros n q Hn. apply Hres. lia.
Qed.

(** ** Sorting the candidates *)

Lemma chunk_le_iff c1 c2 : chunk_le c1 c2 ↔ cn_offset c1 ≤ cn_offset c2.
Proof.
  unfold chunk_le, CompareOneChunkName.
  destruct (Z.ltb_spec (cn_offset c1) (cn_offset c2)); [lia|].
  destruct (Z.ltb_spec (cn_offset c2) (cn_offset c1)); lia.
Qed.

#[local] Instance chunk_le_trans : Transitive chunk_le.
Proof. intros x y z. rewrite !chunk_le_iff. lia. Qed.
#[local] Instance chunk_le_total : Total chunk_le.
Proof. intros x y. rewrite !chunk_le_iff. lia. Qed.

(** A filter of an array, by index. *)
Definition at_index {A} (f : A → bool) (l : list A) (i : nat) : bool :=
  match l !! i with Some x => f x | None => false end.

Lemma filter_index {A} (f : A → bool) (l : list A) :
  filter (λ x, f x = true) l =
    omap (λ i, l !! i) (filter (λ i, at_index f l i = true) (seq 0 (length l))).
Proof.
  induction l as [|x l IH] using rev_ind; [done|].
  rewrite filter_app, length_app, Nat.add_1_r, seq_S, filter_app, omap_app. f_equal.
  - rewrite IH. assert (∀ i, i ∈ seq 0 (length l) → (l ++ [x]) !! i = l !! i) as Hl.
    { intros i Hi%elem_of_seq. apply lookup_app_l. lia. }
    clear IH. induction (seq 0 (length l)) as [|i il IH]; [done|].
    assert (at_index f (l ++ [x]) i = at_index f l i) as Hat
      by (unfold at_index; by rewrite (Hl i) by left).
    rewrite !filter_cons, Hat.
    specialize (IH ltac:(intros j Hj; apply Hl; by right)).
    destruct (decide _) as [Hd|Hd]; [|done]. cbn [omap list_omap].
    rewrite (Hl i) by left. by rewrite IH.
  - rewrite Nat.add_0_l, !filter_cons, !filter_nil. unfold at_index.
    rewrite lookup_app_r, Nat.sub_diag by done. cbn [lookup list_lookup].
    destruct (decide (f x = true)); [|done]. cbn [omap list_omap].
    rewrite lookup_app_r, Nat.sub_diag by done. done.
Qed.

(** The chunks of a cover, in order. *)
Lemma covers_lookup names a g b :
  covers names a g b → ∃ cs, Forall2 (λ i c, names !! i = Some c) g cs ∧
    StronglySorted (λ c d, cn_offset c < cn_offset d) cs ∧
    (∀ c, c ∈ cs → a ≤ cn_offset c) ∧ sum_Z (cn_length <$> cs) = b - a ∧ a ≤ b.
Proof.
  revert a. induction g as [|i g IH]; intros a; cbn [covers].
  - intros ->. exists []. split_and!; [constructor|constructor|by intros c ?%elem_of_nil|cbn; lia|lia].
  - intros (c & Hc & Ho & Hl & Hg). destruct (IH _ Hg) as (cs & Hf & Hs & Ha & Hsum & Hle).
    exists (c :: cs). split_and!; [by constructor| | | |lia].
    + constructor; [done|]. apply Forall_forall. intros d Hd. specialize (Ha d Hd). lia.
    + intros d [->|Hd]%elem_of_cons; [lia|]. specialize (Ha d Hd). lia.
    + cbn. unfold sum_Z in Hsum. rewrite Hsum. lia.
Qed.

Lemma strictly_sorted_index cs i j (c d : OneChunkName) :
  StronglySorted (λ c d, cn_offset c < cn_offset d) cs →
  cs !! i = Some c → cs !! j = Some d → cn_offset c = cn_offset d → i = j.
Proof.
  intros Hs Hi Hj He. destruct (Nat.lt_trichotomy i j) as [Hlt|[|Hlt]]; [|done|].
  - pose proof (StronglySorted_lookup_lt _ _ _ _ _ _ Hs Hi Hj Hlt) as Hx. cbn in Hx. lia.
  - pose proof (StronglySorted_lookup_lt _ _ _ _ _ _ Hs Hj Hi Hlt) as Hx. cbn in Hx. lia.
Qed.

(** A cover has no duplicates. *)
Lemma cover_NoDup names a g b : covers names a g b → NoDup g.
Proof.
  intros Hcov. destruct (covers_lookup _ _ _ _ Hcov) as (cs & Hf & Hs & _).
  apply NoDup_alt. intros i j x Hi Hj.
  destruct (Forall2_lookup_l _ _ _ _ _ Hf Hi) as (c & Hc & Hxc).
  destruct (Forall2_lookup_l _ _ _ _ _ Hf Hj) as (d & Hd & Hxd).
  eapply strictly_sorted_index; [exact Hs|exact Hc|exact Hd|congruence].
Qed.

(** Filtering the candidates and sorting them gives the cover in order. *)
Lemma sorted_candidates names num a g b :
  covers names a g b → (∀ i, i ∈ g → i < num)%nat → (num ≤ length names)%nat →
  candidates_are num names g →
  ∃ cs, Forall2 (λ i c, names !! i = Some c) g cs ∧
    merge_sort chunk_le (filter (λ c, cn_isCandidate c = true) (take num names)) = cs ∧
    sum_Z (cn_length <$> cs) = b - a.
Proof.
  intros Hcov Hg Hnum Hcand. destruct (covers_lookup _ _ _ _ Hcov) as (cs & Hf & Hs & _ & Hsum & _).
  exists cs. split_and!; [done| |done].
  assert (NoDup g) as Hnd by (by eapply cover_NoDup).
  assert (omap (λ i, take num names !! i) g = cs) as Hom.
  { clear -Hf Hg Hnum. induction Hf as [|i c g cs Hi _ IH]; [done|]. cbn [omap list_omap].
    rewrite lookup_take_lt by (apply Hg; by left). rewrite Hi. f_equal. apply IH.
    intros j Hj. apply Hg. by right. }
  assert (filter (λ c, cn_isCandidate c = true) (take num names) ≡ₚ cs) as Hperm.
  { rewrite (filter_index cn_isCandidate), <-Hom. apply omap_Permutation.
    apply NoDup_Permutation; [apply NoDup_filter, NoDup_seq|done|].
    intros i. rewrite list_elem_of_filter, elem_of_seq, length_take. split.
    - intros [Hi Hr]. apply Hcand; [lia|]. unfold candb. unfold at_index in Hi.
      rewrite lookup_take_lt in Hi by lia. by destruct (names !! i).
    - intros Hi. pose proof (Hg i Hi) as Hlt. split; [|lia].
      apply Hcand in Hi; [|done]. unfold candb in Hi. unfold at_index.
      rewrite lookup_take_lt by lia. by destruct (names !! i). }
  eapply (StronglySorted_unique_strong chunk_le).
  - intros c d Hc Hd. rewrite !chunk_le_iff. intros H1 H2.
    rewrite merge_sort_Permutation, Hperm in Hc.
    apply list_elem_of_lookup_1 in Hc as [i Hi]. apply list_elem_of_lookup_1 in Hd as [j Hj].
    assert (i = j) as -> by (eapply strictly_sorted_index; [done|done|done|lia]). congruence.
  - apply StronglySorted_merge_sort; apply _.
  - eapply StronglySorted_mono; [|exact Hs]. intros c d Hcd. cbn in Hcd. rewrite chunk_le_iff. lia.
  - by rewrite merge_sort_Permutation.
Qed.

(** ** [bottom_up_level] on a resolved tree *)

Section candidates.
Context `{Digest} (GetSendHint GetDiskHint : list Z → bool).
Context (psrc : list Z) (names0 st : list OneChunkName) (pli : list MRCPerLevelInfo).
Context (rb : Z) (num maxLevel lowLevel maxN : nat) (cutss : list (list Z)) (isSender : bool).
Context (Htree : tree_ok psrc names0 pli rb num maxLevel cutss).
Context (Hlow : (lowLevel < maxLevel)%nat).
Context (Hres : resolved_upto GetSendHint GetDiskHint psrc names0 isSender
                  (first_of cutss (S lowLevel)) st).
Context (Hmax : (num ≤ maxN)%nat) (HmaxN : (2 ≤ maxN)%nat).

(** The state before the siblings of level [l] are merged. *)
Definition level_covered (l : nat) (names : list OneChunkName) : Prop :=
  sim st names ∧ ∃ cuts cov, cutss !! l = Some cuts ∧
    Forall2 (node_cover st num (first_of cutss (S l))) (seq (first_of cutss l) (length cuts)) cov ∧
    candidates_are num names (concat cov).

Lemma level_sizes l c1 c2 :
  cutss !! l = Some c1 → cutss !! S l = Some c2 → (S l ≤ lowLevel)%nat →
  ∃ sizes, siblings st (first_of cutss (S l)) (first_of cutss l) sizes ∧
    sum_list sizes = length c2 ∧ length sizes = length c1.
Proof using All.
  intros H1 H2 Hl. pose proof (tk_levels _ _ _ _ _ _ _ Htree) as Hlv.
  destruct (tk_grouped _ _ _ _ _ _ _ Htree l c1 c2 H1 H2) as (groups & Hcat & Hf2 & Hpar).
  exists (length <$> groups). split_and!.
  - eapply (siblings_of_groups names0); [apply Hres| |exact Hpar|exact Hf2
      |by apply (lo_nodes _ _ _ _ _ _ Hlv)|rewrite Hcat; by apply (lo_nodes _ _ _ _ _ _ Hlv)|].
    + rewrite (first_of_S _ _ _ H1).
      destruct (co_last _ _ (lo_cuts _ _ _ _ _ _ Hlv _ _ H1)) as [x ->].
      rewrite length_app. cbn. lia.
    + rewrite Hcat. intros n q Hn Hgp.
      destruct (ru_done _ _ _ _ _ _ _ Hres n) as (c & q' & par & Hc & Hgp' & _ & _ & Hpr & Hcr).
      { rewrite <-(first_of_S _ _ _ H2) in Hn.
        pose proof (first_of_mono cutss (S (S l)) (S lowLevel)). lia. }
      rewrite Hgp in Hgp'. injection Hgp' as Hq. assert (q' = q) as -> by lia.
      unfold hitb, readyb. rewrite Hc, Hpr. destruct Hcr.
      assert (n ≠ 0%nat).
      { rewrite (first_of_S _ _ _ H1) in Hn.
        destruct (co_last _ _ (lo_cuts _ _ _ _ _ _ Hlv _ _ H1)) as [x ->].
        rewrite length_app in Hn. cbn in Hn. lia. }
      split; [auto|]. intros Hh. destruct (cn_isSha1Ready c); [done|].
      destruct (cr_not_ready eq_refl). congruence.
  - rewrite <-Hcat. clear. induction groups as [|g gs IH]; [done|].
    cbn [fmap list_fmap concat]. rewrite length_app.
    change (length g + sum_list (length <$> gs) = length g + length (concat gs))%nat. lia.
  - rewrite length_fmap. symmetry. by eapply Forall2_length.
Qed.

Lemma num_le_st : (num ≤ length st)%nat.
Proof using All.
  rewrite <-(Forall2_length _ _ _ (ru_shape _ _ _ _ _ _ _ Hres)).
  apply (lo_room _ _ _ _ _ _ (tk_levels _ _ _ _ _ _ _ Htree)).
Qed.

Lemma bottom_up_level_S l names :
  (S l ≤ lowLevel)%nat → level_covered (S l) names →
  ∃ names', bottom_up_level maxN num pli names (S l) = Done names' ∧ level_covered l names'.
Proof using All.
  intros Hl (Hs & c2 & cov & Hc2 & Hcov & Hcand).
  pose proof (tk_levels _ _ _ _ _ _ _ Htree) as Hlv.
  destruct (lookup_lt_is_Some_2 cutss l) as [c1 Hc1]; [apply lookup_lt_Some in Hc2; lia|].
  destruct (level_sizes l c1 c2 Hc1 Hc2 Hl) as (sizes & Hsib & Hsum & Hlen).
  pose proof (first_of_le _ _ _ Hc2) as Hle. rewrite <-(lo_num _ _ _ _ _ _ Hlv) in Hle.
  assert (0 < first_of cutss (S l))%nat as Hpos.
  { rewrite (first_of_S _ _ _ Hc1).
    destruct (co_last _ _ (lo_cuts _ _ _ _ _ _ Hlv _ _ Hc1)) as [x ->].
    rewrite length_app. cbn. lia. }
  destruct (level_groups st maxN num (first_of cutss (S l)) (length c2) num_le_st sizes names
    (first_of cutss (S l)) (first_of cutss l) 0 (first_of cutss (S l)) (first_of cutss (S (S l)))
    cov []) as (names' & cov' & He & Hs' & Hcov' & Hc'); try done.
  - rewrite Hsum, (first_of_S _ _ _ Hc2). lia.
  - by rewrite Hsum.
  - rewrite Hlen, (first_of_S _ _ _ Hc1). lia.
  - intros k Hk. assert (k ≤ sum_list sizes)%nat; [|lia].
    clear -Hk. induction sizes as [|s sizes IH]; [by apply elem_of_nil in Hk|].
    change (sum_list (s :: sizes)) with (s + sum_list sizes)%nat.
    apply elem_of_cons in Hk as [->|Hk]; [lia|]. specialize (IH Hk). lia.
  - by rewrite Hsum.
  - by intros x Hx%elem_of_nil.
  - exists names'. unfold bottom_up_level, get.
    rewrite (lo_pli _ _ _ _ _ _ Hlv _ _ Hc2). cbn [mbind outcome_bind numNames firstIndex].
    rewrite Hsum in He. rewrite He. cbn [mbind outcome_bind]. split; [done|]. split; [done|].
    exists c1, cov'. rewrite <-Hlen. by split_and!.
Qed.

Lemma bottom_up_level_0 names :
  level_covered 0 names →
  ∃ names', bottom_up_level maxN num pli names 0 = Done names' ∧ level_covered 0 names'.
Proof using All.
  intros (Hs & c1 & cov & Hc1 & Hcov & Hcand).
  pose proof (tk_levels _ _ _ _ _ _ _ Htree) as Hlv.
  pose proof (lo_root _ _ _ _ _ _ Hlv) as Hroot. rewrite Hc1 in Hroot. injection Hroot as ->.
  pose proof (first_of_le _ _ _ Hc1) as Hle. rewrite <-(lo_num _ _ _ _ _ _ Hlv) in Hle.
  change (first_of cutss 0) with 0%nat in Hle. cbn [length] in Hle.
  pose proof num_le_st. pose proof (Forall2_length _ _ _ Hs) as Hlen.
  unfold bottom_up_level, get. rewrite (lo_pli _ _ _ _ _ _ Hlv _ _ Hc1).
  cbn [mbind outcome_bind numNames firstIndex length seq foldM].
  change (first_of cutss 0) with 0%nat.
  rewrite (flush_step st maxN num 0 1 num_le_st names [] 0 0); [|done|done|by left|lia|done|cbn; lia].
  cbn [app Nat.add]. destruct (FlushChildren_ok names [0%nat] 0) as (names' & -> & Hs' & Hc');
    [done|lia|by right| |].
  { intros i ->%list_elem_of_singleton. split; [done|lia]. }
  exists names'. cbn [mbind outcome_bind]. split; [done|]. split; [by eapply sim_trans|].
  exists [rb], cov. split_and!; [done|done|]. intros i Hi. rewrite Hc', <-(Hcand i Hi).
  unfold merged. cbn [forallb]. rewrite andb_true_r.
  destruct (candb names 0) eqn:E; cbn [andb]; [|done].
  destruct (_ || _); [|done]. case_decide as Hi1; [by subst|].
  case_decide as Hi2; [by apply list_elem_of_singleton in Hi2|done].
Qed.

Lemma bottom_up_ok l names :
  (l ≤ lowLevel)%nat → level_covered l names →
  ∃ names', foldM (bottom_up_level maxN num pli) names (downto l 0) = Done names' ∧
    level_covered 0 names'.
Proof using All.
  revert names. induction l as [|l IH]; intros names Hl Hcov.
  - destruct (bottom_up_level_0 names Hcov) as (names' & He & Hc).
    exists names'. cbn. rewrite He. by split.
  - rewrite downto_S by lia. cbn [foldM].
    destruct (bottom_up_level_S l names Hl Hcov) as (names1 & -> & Hc1).
    cbn [mbind outcome_bind]. apply IH; [lia|done].
Qed.

(** The chunks of the lowest resolved level cover themselves. *)
Lemma initial_covered names :
  sim st names →
  (∀ i, (i < num)%nat → candb names i = true ↔
     ∃ cuts, cutss !! lowLevel = Some cuts ∧ i ∈ seq (first_of cutss lowLevel) (length cuts)) →
  level_covered lowLevel names.
Proof using All.
  intros Hs Hc. pose proof (tk_levels _ _ _ _ _ _ _ Htree) as Hlv.
  destruct (lookup_lt_is_Some_2 cutss lowLevel) as [cuts Hcuts];
    [rewrite (lo_len _ _ _ _ _ _ Hlv); lia|].
  pose proof (first_of_le _ _ _ Hcuts) as Hle. rewrite <-(lo_num _ _ _ _ _ _ Hlv) in Hle.
  split; [done|]. set (s := seq (first_of cutss lowLevel) (length cuts)) in *.
  exists cuts, ((λ n, [n]) <$> s). split_and!; [done| |].
  - apply Forall2_fmap_r, Forall_Forall2_diag, Forall_forall.
    intros n Hn%elem_of_seq_iff. split; [|done| |by left|intros x ->%list_elem_of_singleton; lia].
    + destruct (node_info Htree n) as (c0 & Hc0 & []); [lia|].
      destruct (Forall2_lookup_l _ _ _ _ _ (ru_shape _ _ _ _ _ _ _ Hres) Hc0)
        as (c & Hcn & (Ho & Hl & _)).
      exists c. split; [done|]. exists c. split_and!; [done|done|lia|done].
    + intros x Hx. by apply list_elem_of_singleton in Hx.
  - intros i Hi. rewrite (concat_singletons s).
    + rewrite (Hc i Hi). split; [|by exists cuts]. intros (c' & Hc' & Hin).
      rewrite Hcuts in Hc'. by injection Hc' as <-.
    + apply Forall2_fmap_r, Forall_Forall2_diag, Forall_forall. done.
Qed.

Lemma st_not_candidate i : (i < num)%nat → candb st i = false.
Proof using Htree Hres.
  intros Hi. destruct (node_info Htree i) as (c0 & Hc0 & []); [done|].
  destruct (Forall2_lookup_l _ _ _ _ _ (ru_shape _ _ _ _ _ _ _ Hres) Hc0)
    as (c & Hcn & (_ & _ & _ & _ & _ & Hcand & _)).
  unfold candb. by rewrite Hcn, Hcand.
Qed.

(** A chunk of the resolved tree whose digest is known. *)
Lemma ready_chunk i c :
  (i < num)%nat → st !! i = Some c → (i = 0%nat ∨ cn_isSha1Ready c = true) →
  cn_isSha1Ready c = true ∧ cn_index c = Z.of_nat i ∧
  cn_sha1name c = Calc_SHA1Sig (bytes_of psrc c) ∧
  cn_isHit c = small c || hint_of GetSendHint GetDiskHint isSender (cn_sha1name c).
Proof using All.
  intros Hi Hc Hr. destruct (node_info Htree i) as (c0 & Hc0 & []); [done|].
  destruct (Forall2_lookup_lr _ _ _ _ _ _ (ru_shape _ _ _ _ _ _ _ Hres) Hc0 Hc)
    as (_ & _ & Hix & _).
  destruct (decide (i < first_of cutss (S lowLevel))%nat) as [Hlt|Hge].
  - destruct (ru_done _ _ _ _ _ _ _ Hres i Hlt) as (c' & p & par & Hc' & _ & _ & _ & _ & []).
    rewrite Hc in Hc'. injection Hc' as <-.
    assert (cn_isSha1Ready c = true) as Hready.
    { destruct (cn_isSha1Ready c) eqn:E; [done|]. destruct (cr_not_ready eq_refl) as [? _].
      by destruct Hr. }
    split_and!; [done|congruence|by apply cr_ready|by apply cr_ready].
  - exfalso. rewrite (ru_rest _ _ _ _ _ _ _ Hres i) in Hc by lia.
    rewrite Hc in Hc0. injection Hc0 as <-. destruct Hr as [->|Hr]; [|congruence].
    pose proof (tk_levels _ _ _ _ _ _ _ Htree) as Hlv.
    pose proof (first_of_S _ _ _ (lo_root _ _ _ _ _ _ Hlv)) as Hone.
    pose proof (first_of_mono cutss 1 (S lowLevel)). cbn [length] in Hone. lia.
Qed.

(** The misses of the levels that were resolved have their digest. *)
Lemma resolved_misses names l n :
  sim st names → take num names !! l = Some n → cn_level n ≤ Z.of_nat lowLevel →
  cn_isHit n = false → cn_isSha1Ready n = true.
Proof using All.
  intros Hs Hl Hlv Hmiss. apply lookup_take_Some in Hl as [Hl Hlt].
  destruct (Forall2_lookup_r _ _ _ _ _ Hs Hl) as (c & Hc & b & ->).
  cbn [set_isCandidate cn_level cn_isHit cn_isSha1Ready] in *.
  destruct (node_level Htree l Hlt) as (k & cuts & c0 & Hk & Hc0 & Hck & Hr).
  destruct (Forall2_lookup_lr _ _ _ _ _ _ (ru_shape _ _ _ _ _ _ _ Hres) Hc0 Hc)
    as (_ & _ & _ & _ & _ & _ & Hlvl).
  assert (l < first_of cutss (S lowLevel))%nat as Hlow'.
  { rewrite <-(first_of_S _ _ _ Hk) in Hr.
    pose proof (first_of_mono cutss (S k) (S lowLevel)). lia. }
  destruct (ru_done _ _ _ _ _ _ _ Hres l Hlow') as (c' & p & par & Hc' & _ & _ & _ & _ & Hcr).
  rewrite Hc in Hc'. injection Hc' as <-. by eapply resolved_miss.
Qed.

(** ** The candidates *)

(** The candidates are consecutive from offset [a] to offset [b]. *)
Fixpoint consecutive (a : Z) (l : list OneCandidate) (b : Z) : Prop :=
  match l with
  | [] => a = b
  | c :: l' => ca_offset c = a ∧ 0 < ca_length c ∧ consecutive (a + ca_length c) l' b
  end.

(** What a candidate says about the bytes it stands for. *)
Record candidate_ok (c : OneCandidate) : Prop := {
  co_sha1name : ca_sha1name c =
    Calc_SHA1Sig (slice psrc (Z.to_nat (ca_offset c)) (Z.to_nat (ca_length c)));
  co_isHit : ca_isHit c = (ca_length c <=? WAPROX_MIN_CHUNK_SIZE) ||
    hint_of GetSendHint GetDiskHint isSender (ca_sha1name c)
}.

Lemma covers_candidates names a g b cs :
  sim st names → covers st a g b → Forall2 (λ i c, names !! i = Some c) g cs →
  (∀ x, x ∈ g → (x < num)%nat) → (∀ x, x ∈ g → x ≠ 0%nat → readyb st x = true) →
  consecutive a (candidate_of <$> cs) b ∧
  Forall (λ c, cn_isSha1Ready c = true) cs ∧
  Forall candidate_ok (candidate_of <$> cs) ∧
  ca_index <$> (candidate_of <$> cs) = Z.of_nat <$> g ∧
  Forall (λ c, ∃ n, get_at names (ca_index c) = Done n ∧ c = candidate_of n) (candidate_of <$> cs).
Proof using All.
  intros Hs Hcov Hf Hr Hrdy. revert a Hcov.
  induction Hf as [|i c' g cs Hi Hf IH]; intros a Hcov; cbn [covers] in Hcov.
  { by repeat constructor. }
  destruct Hcov as (c & Hc & Ho & Hl & Hcov).
  destruct (sim_lookup _ _ _ _ Hs Hc) as [bb Hc']. rewrite Hi in Hc'. injection Hc' as ->.
  assert (i < num)%nat as Hin by (apply Hr; by left).
  destruct (ready_chunk i c) as (H1 & H2 & H3 & H4); [done|done| |].
  { destruct (decide (i = 0%nat)) as [|Hne]; [by left|right].
    specialize (Hrdy i ltac:(by left) Hne). unfold readyb in Hrdy. by rewrite Hc in Hrdy. }
  destruct (IH ltac:(intros x Hx; apply Hr; by right) ltac:(intros x Hx; apply Hrdy; by right) _ Hcov)
    as (I1 & I2 & I3 & I4 & I5).
  cbn [fmap list_fmap consecutive]. split_and!.
  - done.
  - done.
  - exact I1.
  - by constructor.
  - constructor; [|done]. by split.
  - cbn. by rewrite H2, I4.
  - constructor; [|done]. eexists. split; [|done]. cbn [candidate_of ca_index set_isCandidate cn_index].
    rewrite H2, get_at_nat. unfold get. by rewrite Hi.
Qed.

Lemma GetCandidateList2_ok g :
  g_maxNames g = maxN → (g_NumMRCWays g = 1 → maxLevel = 1%nat) →
  ∃ names' cands, GetCandidateList2 g st num pli lowLevel = Done (names', cands) ∧
    sim st names' ∧ consecutive 0 cands rb ∧ Forall candidate_ok cands ∧
    NoDup (ca_index <$> cands) ∧
    Forall (λ c, 0 ≤ ca_index c < Z.of_nat num) cands ∧
    Forall (λ c, ∃ n, get_at names' (ca_index c) = Done n ∧ c = candidate_of n) cands.
Proof using All.
  intros Hg Hone. pose proof (tk_levels _ _ _ _ _ _ _ Htree) as Hlv.
  destruct (lookup_lt_is_Some_2 cutss lowLevel) as [cuts Hcuts];
    [rewrite (lo_len _ _ _ _ _ _ Hlv); lia|].
  pose proof (first_of_le _ _ _ Hcuts) as Hle. rewrite <-(lo_num _ _ _ _ _ _ Hlv) in Hle.
  pose proof num_le_st. unfold GetCandidateList2, get.
  rewrite (lo_pli _ _ _ _ _ _ Hlv _ _ Hcuts). cbn [mbind outcome_bind numNames firstIndex].
  rewrite (proj2 (Nat.leb_le _ _)) by lia. cbn [c_assert mbind outcome_bind].
  destruct (set_candidates_ok st true (seq (first_of cutss lowLevel) (length cuts)))
    as (names1 & -> & Hs1 & Hc1).
  { apply Forall_forall. intros i Hi%elem_of_seq_iff. lia. }
  cbn [mbind outcome_bind].
  assert (level_covered lowLevel names1) as Hcov.
  { apply initial_covered; [done|]. intros i Hi. rewrite Hc1. case_decide as E.
    - split; [by exists cuts|done].
    - rewrite st_not_candidate by done. split; [done|]. intros (c' & Hc' & ?).
      rewrite Hcuts in Hc'. by injection Hc' as <-. }
  assert (∃ names2, (if g_NumMRCWays g =? 1 then
             _ ← c_assert (lowLevel =? 0)%nat; Done names1
           else foldM (bottom_up_level (g_maxNames g) num pli) names1 (downto lowLevel 0))
    = Done names2 ∧ level_covered 0 names2) as (names2 & -> & Hcov2).
  { destruct (Z.eqb_spec (g_NumMRCWays g) 1) as [E|E].
    - assert (lowLevel = 0%nat) as -> by (specialize (Hone E); lia). by exists names1.
    - rewrite Hg. by apply bottom_up_ok. }
  cbn [mbind outcome_bind]. destruct Hcov2 as (Hs2 & c0 & cov & Hc0 & Hf & Hcand).
  rewrite (lo_root _ _ _ _ _ _ Hlv) in Hc0. injection Hc0 as <-.
  cbn [length seq] in Hf. apply Forall2_cons_inv_l in Hf as (gr & cov' & Hnc & Hnil & ->).
  apply Forall2_nil_inv_l in Hnil as ->. cbn [concat] in Hcand. rewrite app_nil_r in Hcand.
  change (first_of cutss 0) with 0%nat in *. destruct Hnc as [(r & Hr & Hcv) _ Hrdy _ Hgn].
  destruct (root_info Htree) as (r0 & Hr0 & Ho & Hlen).
  destruct (Forall2_lookup_lr _ _ _ _ _ _ (ru_shape _ _ _ _ _ _ _ Hres) Hr0 Hr)
    as (Ho' & Hlen' & _).
  destruct (sim_lookup _ _ _ _ Hs2 Hr) as [b0 Hroot].
    pose proof (Forall2_length _ _ _ Hs2) as Hl2.
  destruct (sorted_candidates names2 num (cn_offset r) gr (cn_offset r + cn_length r))
    as (cs & Hcs & Hsort & Hsum); [by eapply covers_sim|done|lia|done|].
  destruct (covers_candidates names2 (cn_offset r) gr (cn_offset r + cn_length r) cs)
    as (K1 & K2 & K3 & K4 & K5); [done|done|done|done|done|].
  assert (forallb cn_isSha1Ready (filter (λ c, cn_isCandidate c = true) (take num names2)) = true)
    as ->.
  { apply forallb_forall. intros c Hc%list_elem_of_In.
    rewrite <-(merge_sort_Permutation chunk_le), Hsort in Hc.
    by rewrite Forall_forall in K2; apply K2. }
  rewrite Hsort, Hroot. cbn [c_assert mbind outcome_bind].
  assert ((sum_Z (cn_length <$> cs) =? cn_length (set_isCandidate b0 r)) = true) as ->.
  { apply Z.eqb_eq. cbn [set_isCandidate cn_length]. lia. }
  cbn [c_assert mbind outcome_bind].
  exists names2, (candidate_of <$> cs). split_and!; [done|done| |done| | |done].
  - rewrite Ho', Ho, Hlen', Hlen in K1. exact K1.
  - rewrite K4. apply NoDup_fmap; [apply _|]. by eapply cover_NoDup.
  - apply Forall_forall. intros c Hc.
    assert (ca_index c ∈ Z.of_nat <$> gr) as Hix by (rewrite <-K4; by apply list_elem_of_fmap_2).
    apply list_elem_of_fmap in Hix as (x & -> & Hx). specialize (Hgn x Hx). lia.
Qed.
End candidates.
