(* ===== verification/MrcTheorems.v ===== *)
(** * What multi-resolution chunking guarantees

    The correctness statements of [DoPreMRC], [MakeTree], [ResolveWithHint] and
    [GetCandidateList2], each run after the ones before it, the way
    [ProcessOneRabinChunking2] does. *)

From Stdlib Require Import ZArith Lia.
From stdpp Require Import base list option numbers sorting.
From S2P Require Import Prelude Bytes Rabin Mrc MrcLevels MrcTree MrcResolve MrcCandidates.

(** ** A configuration to evaluate at *)

Definition toy_params : MRCParams :=
  {| g_ChunkSize := 64; g_MinChunkSize := 32; g_NumMRCWays := 2;
     g_maxLevel := 2; g_maxNames := 128 |}.

Definition blank_name : OneChunkName :=
  {| cn_type := chunk_name; cn_length := 0; cn_sha1name := []; cn_pChunk := NULL;
     cn_freeChunk := false; cn_rindex := 0; cn_index := 0; cn_parentIdx := 0; cn_level := 0;
     cn_isHit := false; cn_isSha1Ready := false; cn_isCandidate := false; cn_offset := 0;
     cn_fromPeer := false |}.

Definition toy_names : list OneChunkName := replicate 128 blank_name.
Definition toy_pli : list MRCPerLevelInfo := replicate 2 {| numNames := 0; firstIndex := 0 |}.
Definition toy_src : list Z := (λ i, Z.of_nat (i * i + 7 * i) mod 256) <$> seq 0 120.

#[local] Existing Instance toy_digest.

Lemma toy_params_ok : params_ok toy_params.
Proof.
  split.
  - exists 6. split; [lia|reflexivity].
  - exists 1. split; [lia|reflexivity].
  - cbn. lia.
  - exists 3%nat. reflexivity.
Qed.

Lemma toy_call_ok : mrc_call_ok toy_params mrc_ctx toy_src 120.
Proof.
  destruct mrc_ctx_ok as (Hok & Hmin & Hmax). split.
  - exact Hok.
  - rewrite Hmin. reflexivity.
  - rewrite Hmax. reflexivity.
  - apply Forall_fmap, Forall_forall. intros i _. apply Z.mod_pos_bound. lia.
  - unfold toy_src. rewrite length_fmap, length_seq. lia.
  - intros mn Hmn. injection Hmn as <-. vm_compute. discriminate.
Qed.

(** ** The stages, composed *)

Section stages.
Context (g : MRCParams) (names0 : list OneChunkName) (pli0 : list MRCPerLevelInfo).
Context (rctx : RabinCtx) (psrc : list Z) (buf_len : Z).
Context (Hg : params_ok g) (Hc : mrc_call_ok g rctx psrc buf_len).
Context (Hnames : length names0 = g_maxNames g) (Hpli : length pli0 = g_maxLevel g).

Lemma premrc_tree :
  ∃ pm names cutss, DoPreMRC g names0 pli0 rctx psrc buf_len = Done pm ∧
    MakeTree (pm_pli pm) (pm_maxLevel pm) (pm_names pm) (pm_numNames pm) = Done names ∧
    tree_ok psrc names (pm_pli pm) (pm_rb_size pm) (pm_numNames pm) (pm_maxLevel pm) cutss ∧
    0 < pm_rb_size pm ≤ buf_len ∧ pm_maxLevel pm = g_maxLevel g ∧
    length names = g_maxNames g ∧ rabin_ok WAPROX_RABIN_WINDOW (rp (pm_rctx pm)) ∧
    length (pm_pli pm) = g_maxLevel g.
Proof using All.
  destruct (DoPreMRC_levels g names0 pli0 rctx psrc buf_len) as
    (pm & cutss & Hpm & Hlv & Hrb & Hml & Hlen & Hok & Hpl); [done..|].
  destruct (MakeTree_groups _ _ _ _ _ _ Hlv) as (names & Hmt & Hsim & Hlv' & Hgr).
  exists pm, names, cutss. split_and!; try done; try lia.
  - split; [done|done|]. pose proof (mc_len _ _ _ _ Hc). lia.
  - by rewrite <-(Forall2_length _ _ _ Hsim).
Qed.

Context `{Digest} (GetSendHint GetDiskHint : list Z → bool) (isSender : bool).

Lemma premrc_candidates :
  ∃ pm names names1 lowLevel names2 cands,
    DoPreMRC g names0 pli0 rctx psrc buf_len = Done pm ∧
    MakeTree (pm_pli pm) (pm_maxLevel pm) (pm_names pm) (pm_numNames pm) = Done names ∧
    ResolveWithHint GetSendHint GetDiskHint names (pm_numNames pm) psrc (pm_rb_size pm)
      (pm_pli pm) (pm_maxLevel pm) isSender = Done (names1, lowLevel) ∧
    GetCandidateList2 g names1 (pm_numNames pm) (pm_pli pm) lowLevel = Done (names2, cands) ∧
    0 < pm_rb_size pm ≤ buf_len ∧ (lowLevel < pm_maxLevel pm)%nat ∧
    rabin_ok WAPROX_RABIN_WINDOW (rp (pm_rctx pm)) ∧ length names2 = g_maxNames g ∧
    consecutive 0 cands (pm_rb_size pm) ∧
    Forall (candidate_ok GetSendHint GetDiskHint psrc isSender) cands ∧
    NoDup (ca_index <$> cands) ∧
    Forall (λ c, 0 ≤ ca_index c < Z.of_nat (pm_numNames pm)) cands ∧
    Forall (λ c, ∃ n, get_at names2 (ca_index c) = Done n ∧ c = candidate_of n) cands ∧
    (∀ l n, take (pm_numNames pm) names2 !! l = Some n → cn_level n ≤ Z.of_nat lowLevel →
       cn_isHit n = false → cn_isSha1Ready n = true) ∧
    (0 < pm_numNames pm ≤ g_maxNames g)%nat ∧ length (pm_pli pm) = g_maxLevel g.
Proof using All.
  destruct premrc_tree as (pm & names & cutss & Hpm & Hmt & Htree & Hrb & Hml & Hlen & Hok & Hpl).
  destruct (ResolveWithHint_ok GetSendHint GetDiskHint _ _ _ _ _ _ _ isSender Htree)
    as (names1 & low & Hrw & Hlow & Hres).
  pose proof (lo_room _ _ _ _ _ _ (tk_levels _ _ _ _ _ _ _ Htree)) as Hroom.
  assert (2 ≤ g_maxNames g)%nat as Hmax.
  { destruct Hg as [(k & Hk & Hcs) _ Hmin (fuel & Hi)].
    apply InitMRCParams_inv in Hi as (_ & Hm & _).
    rewrite <-Hml in Hm. assert (0 < pm_maxLevel pm)%nat by lia.
    rewrite Hm. assert (2 ≤ Z.to_nat (g_ChunkSize g))%nat by lia. nia. }
  destruct (GetCandidateList2_ok GetSendHint GetDiskHint psrc names names1 (pm_pli pm)
    (pm_rb_size pm) (pm_numNames pm) (pm_maxLevel pm) low (g_maxNames g) cutss isSender
    Htree Hlow Hres) with (g := g) as (names2 & cands & Hgc & Hsim & K1 & K2 & K3 & K4 & K5);
    [lia|done|done| |].
  { intros Hw. rewrite Hml. destruct Hg as [_ _ _ (fuel & Hi)].
    apply InitMRCParams_inv in Hi as (_ & _ & Hl). rewrite Hw in Hl.
    by injection Hl as <-. }
  exists pm, names, names1, low, names2, cands. split_and!; try done; try lia.
  - rewrite <-(Forall2_length _ _ _ Hsim), <-(Forall2_length _ _ _ (ru_shape _ _ _ _ _ _ _ Hres)).
    done.
  - assert (2 ≤ g_maxNames g ∧ pm_numNames pm ≤ g_maxNames g)%nat as [Hm2 Hmn] by lia.
    intros l n. exact (resolved_misses _ _ _ _ _ _ _ _ _ _ _ _ _ Htree Hlow Hres Hmn Hm2 names2 l n Hsim).
  - pose proof (tk_levels _ _ _ _ _ _ _ Htree) as Hlv. rewrite (lo_num _ _ _ _ _ _ Hlv).
    pose proof (first_of_le _ _ _ (lo_root _ _ _ _ _ _ Hlv)). cbn in *. lia.
Qed.
End stages.

(** ** The theorems *)

(** For a power-of-two configuration and a buffer whose boundaries fit,
    [DoPreMRC] returns: it cuts a prefix of the buffer, the chunks of each level
    partition this prefix in order, level 0 is the whole prefix, every cut of a
    level is a cut of the next one, and the rolling context stays usable. *)
Theorem DoPreMRC_partitions (g : MRCParams) (names0 : list OneChunkName)
    (pli0 : list MRCPerLevelInfo) (rctx : RabinCtx) (psrc : list Z) (buf_len : Z) :
  params_ok g → mrc_call_ok g rctx psrc buf_len →
  length names0 = g_maxNames g → length pli0 = g_maxLevel g →
  ∃ pm cutss, DoPreMRC g names0 pli0 rctx psrc buf_len = Done pm ∧
    levels_ok (pm_names pm) (pm_pli pm) (pm_rb_size pm) (pm_numNames pm) (pm_maxLevel pm) cutss ∧
    0 < pm_rb_size pm ≤ buf_len ∧ pm_maxLevel pm = g_maxLevel g ∧
    rabin_ok WAPROX_RABIN_WINDOW (rp (pm_rctx pm)).
Proof.
  intros Hg Hc Hn Hp.
  destruct (DoPreMRC_levels g names0 pli0 rctx psrc buf_len Hg Hc Hn Hp)
    as (pm & cutss & H1 & H2 & H3 & H4 & _ & H6 & _).
  by exists pm, cutss.
Qed.

Lemma DoPreMRC_partitions_witness :
  ∃ pm cutss, DoPreMRC toy_params toy_names toy_pli mrc_ctx toy_src 120 = Done pm ∧
    levels_ok (pm_names pm) (pm_pli pm) (pm_rb_size pm) (pm_numNames pm) (pm_maxLevel pm) cutss ∧
    0 < pm_rb_size pm ≤ 120 ∧ pm_maxLevel pm = 2%nat ∧
    rabin_ok WAPROX_RABIN_WINDOW (rp (pm_rctx pm)).
Proof.
  exact (DoPreMRC_partitions toy_params toy_names toy_pli mrc_ctx toy_src 120
    toy_params_ok toy_call_ok eq_refl eq_refl).
Defined.

(** [MakeTree] succeeds on what [DoPreMRC] returns, and links every chunk
    but the root to an earlier chunk whose byte range contains it. *)
Theorem MakeTree_contains (g : MRCParams) (names0 : list OneChunkName)
    (pli0 : list MRCPerLevelInfo) (rctx : RabinCtx) (psrc : list Z) (buf_len : Z) :
  params_ok g → mrc_call_ok g rctx psrc buf_len →
  length names0 = g_maxNames g → length pli0 = g_maxLevel g →
  ∃ pm names, DoPreMRC g names0 pli0 rctx psrc buf_len = Done pm ∧
    MakeTree (pm_pli pm) (pm_maxLevel pm) (pm_names pm) (pm_numNames pm) = Done names ∧
    ∀ i, (0 < i < pm_numNames pm)%nat → ∃ c p cp,
      names !! i = Some c ∧ cn_parentIdx c = Z.of_nat p ∧ (p < i)%nat ∧
      names !! p = Some cp ∧ cn_offset cp ≤ cn_offset c ∧
      cn_offset c + cn_length c ≤ cn_offset cp + cn_length cp.
Proof.
  intros Hg Hc Hn Hp.
  destruct (premrc_tree g names0 pli0 rctx psrc buf_len Hg Hc Hn Hp)
    as (pm & names & cutss & H1 & H2 & Htree & _).
  exists pm, names. split_and!; [done|done|]. intros i Hi.
  by destruct (parent_info Htree i Hi) as (c & p & cp & K1 & K2 & K3 & K4 & K5 & K6);
    exists c, p, cp.
Qed.

Lemma MakeTree_contains_witness :
  ∃ pm names, DoPreMRC toy_params toy_names toy_pli mrc_ctx toy_src 120 = Done pm ∧
    MakeTree (pm_pli pm) (pm_maxLevel pm) (pm_names pm) (pm_numNames pm) = Done names ∧
    ∀ i, (0 < i < pm_numNames pm)%nat → ∃ c p cp,
      names !! i = Some c ∧ cn_parentIdx c = Z.of_nat p ∧ (p < i)%nat ∧
      names !! p = Some cp ∧ cn_offset cp ≤ cn_offset c ∧
      cn_offset c + cn_length c ≤ cn_offset cp + cn_length cp.
Proof.
  exact (MakeTree_contains toy_params toy_names toy_pli mrc_ctx toy_src 120
    toy_params_ok toy_call_ok eq_refl eq_refl).
Defined.

(** [ResolveWithHint] never fails on the tree: the digest it leaves in a
    chunk of the levels it visited is the digest of the chunk's bytes, a hit is
    a small chunk or a hinted digest, every chunk below a hit is a hit, and a
    chunk without a digest is below a hit. *)
Theorem ResolveWithHint_resolves `{Digest} (GetSendHint GetDiskHint : list Z → bool)
    (psrc : list Z) (names : list OneChunkName) (pli : list MRCPerLevelInfo) (rb : Z)
    (num maxLevel : nat) (cutss : list (list Z)) (isSender : bool) :
  tree_ok psrc names pli rb num maxLevel cutss →
  ∃ names' lowLevel,
    ResolveWithHint GetSendHint GetDiskHint names num psrc rb pli maxLevel isSender =
      Done (names', lowLevel) ∧
    (lowLevel < maxLevel)%nat ∧
    ∀ i, (i < first_of cutss (S lowLevel))%nat → ∃ c p par,
      names' !! i = Some c ∧ GetParent2 names' (Z.of_nat i) = Done (Z.of_nat p) ∧
      names' !! p = Some par ∧
      (cn_isSha1Ready c = true →
         cn_sha1name c = Calc_SHA1Sig (bytes_of psrc c) ∧
         cn_isHit c = (cn_length c <=? WAPROX_MIN_CHUNK_SIZE) ||
           hint_of GetSendHint GetDiskHint isSender (cn_sha1name c)) ∧
      (cn_isSha1Ready c = false → i ≠ 0%nat ∧ cn_isHit par = true) ∧
      (i ≠ 0%nat → cn_isHit par = true → cn_isHit c = true).
Proof.
  intros Htree.
  destruct (ResolveWithHint_ok GetSendHint GetDiskHint _ _ _ _ _ _ _ isSender Htree)
    as (names' & low & H1 & H2 & H3).
  exists names', low. split_and!; [done|done|]. intros i Hi.
  destruct (ru_done _ _ _ _ _ _ _ H3 i Hi) as (c & p & par & K1 & K2 & _ & _ & K3 & []).
  by exists c, p, par.
Qed.

Lemma ResolveWithHint_resolves_witness :
  ∃ pm names cutss names' lowLevel,
    DoPreMRC toy_params toy_names toy_pli mrc_ctx toy_src 120 = Done pm ∧
    MakeTree (pm_pli pm) (pm_maxLevel pm) (pm_names pm) (pm_numNames pm) = Done names ∧
    tree_ok toy_src names (pm_pli pm) (pm_rb_size pm) (pm_numNames pm) (pm_maxLevel pm) cutss ∧
    ResolveWithHint (λ _, false) (λ _, false) names (pm_numNames pm) toy_src (pm_rb_size pm)
      (pm_pli pm) (pm_maxLevel pm) true = Done (names', lowLevel).
Proof.
  destruct (premrc_tree toy_params toy_names toy_pli mrc_ctx toy_src 120
    toy_params_ok toy_call_ok eq_refl eq_refl) as (pm & names & cutss & H1 & H2 & H3 & _).
  destruct (ResolveWithHint_resolves (λ _, false) (λ _, false) _ _ _ _ _ _ _ true H3)
    as (names' & low & H4 & _).
  exists pm, names, cutss, names', low. exact (conj H1 (conj H2 (conj H3 H4))).
Defined.

(** C6: the whole of the chunking succeeds and the candidates it returns cut
    the chunk into consecutive pieces: each has the digest of its own bytes, is
    a hit exactly when it is small or its digest is hinted, and is a different
    entry of the name array. *)
Theorem candidates_partition `{Digest} (g : MRCParams) (names0 : list OneChunkName)
    (pli0 : list MRCPerLevelInfo) (rctx : RabinCtx) (psrc : list Z) (buf_len : Z)
    (GetSendHint GetDiskHint : list Z → bool) (isSender : bool) :
  params_ok g → mrc_call_ok g rctx psrc buf_len →
  length names0 = g_maxNames g → length pli0 = g_maxLevel g →
  ∃ pm names names1 lowLevel names2 cands,
    DoPreMRC g names0 pli0 rctx psrc buf_len = Done pm ∧
    MakeTree (pm_pli pm) (pm_maxLevel pm) (pm_names pm) (pm_numNames pm) = Done names ∧
    ResolveWithHint GetSendHint GetDiskHint names (pm_numNames pm) psrc (pm_rb_size pm)
      (pm_pli pm) (pm_maxLevel pm) isSender = Done (names1, lowLevel) ∧
    GetCandidateList2 g names1 (pm_numNames pm) (pm_pli pm) lowLevel = Done (names2, cands) ∧
    consecutive 0 cands (pm_rb_size pm) ∧
    Forall (candidate_ok GetSendHint GetDiskHint psrc isSender) cands ∧
    NoDup (ca_index <$> cands) ∧
    Forall (λ c, ∃ n, get_at names2 (ca_index c) = Done n ∧ c = candidate_of n) cands.
Proof.
  intros Hg Hc Hn Hp.
  destruct (premrc_candidates g names0 pli0 rctx psrc buf_len Hg Hc Hn Hp
    GetSendHint GetDiskHint isSender) as (pm & n0 & n1 & low & n2 & cands & K).
  destruct K as (K1 & K2 & K3 & K4 & _ & _ & _ & _ & K9 & K10 & K11 & _ & K13 & _).
  by exists pm, n0, n1, low, n2, cands.
Qed.

Lemma candidates_partition_witness :
  ∃ pm names names1 lowLevel names2 cands,
    DoPreMRC toy_params toy_names toy_pli mrc_ctx toy_src 120 = Done pm ∧
    MakeTree (pm_pli pm) (pm_maxLevel pm) (pm_names pm) (pm_numNames pm) = Done names ∧
    ResolveWithHint (λ l, bool_decide (l = [1; 2])) (λ _, false) names (pm_numNames pm) toy_src
      (pm_rb_size pm) (pm_pli pm) (pm_maxLevel pm) true = Done (names1, lowLevel) ∧
    GetCandidateList2 toy_params names1 (pm_numNames pm) (pm_pli pm) lowLevel =
      Done (names2, cands) ∧
    consecutive 0 cands (pm_rb_size pm) ∧
    Forall (candidate_ok (λ l, bool_decide (l = [1; 2])) (λ _, false) toy_src true) cands ∧
    NoDup (ca_index <$> cands) ∧
    Forall (λ c, ∃ n, get_at names2 (ca_index c) = Done n ∧ c = candidate_of n) cands.
Proof.
  exact (candidates_partition toy_params toy_names toy_pli mrc_ctx toy_src 120
    (λ l, bool_decide (l = [1; 2])) (λ _, false) true toy_params_ok toy_call_ok eq_refl eq_refl).
Defined.
