(* ===== verification/Hashtable.v ===== *)
(** * The chained hash table

    Models [src/waprox/hashtable.c]: the table of prime size, the supplemental
    hash, expansion, insertion at the head of a chain, search and removal.  The
    theorems show that the table implements a finite map; the other components
    are verified against the interface [Table], which this file states and
    implements.  Memory is taken to be available: the branches for a failing
    [malloc] are not modelled. *)

From Stdlib Require Import ZArith Lia.
From stdpp Require Import base list option numbers gmap.
From S2P Require Import Prelude.

(** ** Sizes *)

Definition primes : list Z :=
  [53; 97; 193; 389; 769; 1543; 3079; 6151; 12289; 24593; 49157; 98317; 196613; 393241;
   786433; 1572869; 3145739; 6291469; 12582917; 25165843; 50331653; 100663319; 201326611;
   402653189; 805306457; 1610612741].
Definition prime_table_length : nat := length primes.

(** Rounding of a positive integer to the 24 significant bits of a [float]
    (to nearest, ties to even). *)
Definition round_float (x : Z) : Z :=
  let k := Z.log2 x - 23 in
  if k <=? 0 then x
  else
    let q := Z.shiftr x k in
    let r := x - Z.shiftl q k in
    let half := Z.shiftl 1 (k - 1) in
    let q := if (half <? r) || ((half =? r) && Z.odd q) then q + 1 else q in
    Z.shiftl q k.

(** [0.65] as a [float] is [10905190 / 2 ^ 24]; the product is rounded, then
    [ceil] is taken. *)
Definition max_load_factor : Z := 10905190.
Definition load_limit (size : Z) : Z :=
  (round_float (round_float size * max_load_factor) + (2 ^ 24 - 1)) / 2 ^ 24.

Definition indexFor (tablelength hashvalue : Z) : nat := Z.to_nat (hashvalue mod tablelength).

Section hashtable.
Context {K V : Type} (hashfn : K → Z) (eqfn : K → K → bool).

Record entry := { e_k : K; e_v : V; e_h : Z }.

Record hashtable := {
  tablelength : Z;
  table : list (list entry);
  entrycount : Z;
  loadlimit : Z;
  primeindex : nat
}.

(** [NULL] when the requested size is too large. *)
Definition create_hashtable (minsize : Z) : option hashtable :=
  if 2 ^ 30 <? minsize then None
  else
    let '(pindex, size) :=
      match list_find (λ p, minsize < p) primes with
      | Some (i, p) => (i, p)
      | None => (prime_table_length, 53)
      end in
    Some {| tablelength := size; table := replicate (Z.to_nat size) []; entrycount := 0;
            loadlimit := load_limit size; primeindex := pindex |}.

(** The supplemental hash. *)
Definition hash (k : K) : Z :=
  let i := u32 (hashfn k) in
  let i := u32 (i + (2 ^ 32 - 1 - u32 (Z.shiftl i 9))) in
  let i := Z.lxor i (Z.lor (Z.shiftr i 14) (u32 (Z.shiftl i 18))) in
  let i := u32 (i + u32 (Z.shiftl i 4)) in
  Z.lxor i (Z.lor (Z.shiftr i 10) (u32 (Z.shiftl i 22))).

(** An entry becomes the head of its chain. *)
Definition push_entry (size : Z) (t : list (list entry)) (e : entry) : list (list entry) :=
  alter (cons e) (indexFor size (e_h e)) t.

(** The chains are emptied from the head, one after the other. *)
Definition hashtable_expand (h : hashtable) : hashtable :=
  match primes !! S (primeindex h) with
  | None => h
  | Some newsize =>
      {| tablelength := newsize;
         table := foldl (push_entry newsize) (replicate (Z.to_nat newsize) []) (concat (table h));
         entrycount := entrycount h; loadlimit := load_limit newsize;
         primeindex := S (primeindex h) |}
  end.

Definition hashtable_count (h : hashtable) : Z := entrycount h.

Definition hashtable_insert (h : hashtable) (k : K) (v : V) : hashtable :=
  let count := u32 (entrycount h + 1) in
  let h := {| tablelength := tablelength h; table := table h; entrycount := count;
              loadlimit := loadlimit h; primeindex := primeindex h |} in
  let h := if loadlimit h <? count then hashtable_expand h else h in
  {| tablelength := tablelength h;
     table := push_entry (tablelength h) (table h) {| e_k := k; e_v := v; e_h := hash k |};
     entrycount := entrycount h; loadlimit := loadlimit h; primeindex := primeindex h |}.

(** The test of a chain element. *)
Definition entry_matches (hashvalue : Z) (k : K) (e : entry) : bool :=
  (hashvalue =? e_h e) && eqfn k (e_k e).

Definition chain (h : hashtable) (k : K) : list entry :=
  default [] (table h !! indexFor (tablelength h) (hash k)).

Definition hashtable_search (h : hashtable) (k : K) : option V :=
  e_v ∘ snd <$> list_find (λ e, Is_true (entry_matches (hash k) k e)) (chain h k).

Fixpoint remove_entry (hashvalue : Z) (k : K) (l : list entry) : list entry :=
  match l with
  | [] => []
  | e :: l' => if entry_matches hashvalue k e then l' else e :: remove_entry hashvalue k l'
  end.

(** Returns the table and the value that was removed. *)
Definition hashtable_remove (h : hashtable) (k : K) : hashtable * option V :=
  match hashtable_search h k with
  | None => (h, None)
  | Some v =>
      ({| tablelength := tablelength h;
          table := alter (remove_entry (hash k) k) (indexFor (tablelength h) (hash k)) (table h);
          entrycount := u32 (entrycount h - 1); loadlimit := loadlimit h;
          primeindex := primeindex h |}, Some v)
  end.

(** A change of a value through the pointer [hashtable_search] returned. *)
Fixpoint update_entry (f : V → V) (hashvalue : Z) (k : K) (l : list entry) : list entry :=
  match l with
  | [] => []
  | e :: l' =>
      if entry_matches hashvalue k e
      then {| e_k := e_k e; e_v := f (e_v e); e_h := e_h e |} :: l'
      else e :: update_entry f hashvalue k l'
  end.

Definition hashtable_modify (h : hashtable) (k : K) (f : V → V) : hashtable :=
  {| tablelength := tablelength h;
     table := alter (update_entry f (hash k) k) (indexFor (tablelength h) (hash k)) (table h);
     entrycount := entrycount h; loadlimit := loadlimit h; primeindex := primeindex h |}.
End hashtable.

(** ** The table as a finite map *)

Section correctness.
Context {K V : Type} `{Countable K} (hashfn : K → Z) (eqfn : K → K → bool).
Context (Heqfn : ∀ k1 k2, eqfn k1 k2 = true ↔ k1 = k2).
#[local] Abbreviation hash := (hash hashfn).
#[local] Abbreviation hashtable := (@hashtable K V).

(** Every entry is in the chain of its hash. *)
Record table_wf (size : Z) (t : list (list (@entry K V))) : Prop := {
  tw_size : 0 < size;
  tw_length : length t = Z.to_nat size;
  tw_chain : ∀ i l e, t !! i = Some l → e ∈ l → i = indexFor size (e_h e) ∧ e_h e = hash (e_k e);
  tw_nodup : ∀ i l, t !! i = Some l → NoDup (e_k <$> l)
}.

(** The binding of a key, in a chain. *)
Fixpoint assoc (k : K) (l : list (@entry K V)) : option V :=
  match l with
  | [] => None
  | e :: l' => if decide (e_k e = k) then Some (e_v e) else assoc k l'
  end.

Definition table_lookup (size : Z) (t : list (list (@entry K V))) (k : K) : option V :=
  assoc k (default [] (t !! indexFor size (hash k))).

Record represents (h : hashtable) (m : gmap K V) : Prop := {
  rp_wf : table_wf (tablelength h) (table h);
  rp_lookup : ∀ k, table_lookup (tablelength h) (table h) k = m !! k;
  rp_count : entrycount h = u32 (Z.of_nat (size m))
}.

Lemma indexFor_lt size hv : 0 < size → (indexFor size hv < Z.to_nat size)%nat.
Proof. intros Hs. unfold indexFor. pose proof (Z.mod_pos_bound hv size Hs). lia. Qed.

Lemma assoc_elem k v l : assoc k l = Some v → ∃ e, e ∈ l ∧ e_k e = k ∧ e_v e = v.
Proof.
  induction l as [|e l IH]; [done|]. cbn. case_decide as E.
  - intros [= <-]. exists e. split_and!; [by left|done|done].
  - intros Ha. destruct (IH Ha) as (e' & ? & ? & ?). exists e'. split_and!; [by right|done|done].
Qed.

Lemma chain_wf size t k e :
  table_wf size t → e ∈ default [] (t !! indexFor size (hash k)) → e_h e = hash (e_k e).
Proof.
  intros Ht He. destruct (t !! indexFor size (hash k)) as [l|] eqn:El; [|by apply elem_of_nil in He].
  by eapply tw_chain.
Qed.

(** The test of the C code finds the key. *)
Lemma entry_matches_iff k (e : @entry K V) :
  e_h e = hash (e_k e) → entry_matches eqfn (hash k) k e = bool_decide (e_k e = k).
Proof.
  intros He. unfold entry_matches. rewrite He. case_bool_decide as E.
  - subst. rewrite Z.eqb_refl. cbn. by apply Heqfn.
  - destruct (eqfn k (e_k e)) eqn:Ek; [|by rewrite andb_false_r].
    apply Heqfn in Ek. congruence.
Qed.

Lemma search_assoc k (l : list (@entry K V)) :
  (∀ e, e ∈ l → e_h e = hash (e_k e)) →
  e_v ∘ snd <$> list_find (λ e, Is_true (entry_matches eqfn (hash k) k e)) l = assoc k l.
Proof.
  induction l as [|e l IH]; intros Hl; [done|]. cbn [list_find assoc].
  assert (entry_matches eqfn (hash k) k e = bool_decide (e_k e = k)) as Hm
    by (apply entry_matches_iff, Hl; by left).
  specialize (IH ltac:(intros e' ?; apply Hl; by right)).
  destruct (decide (e_k e = k)) as [Ek|Ek].
  - rewrite bool_decide_true in Hm by done. rewrite decide_True by (by rewrite Hm). done.
  - rewrite bool_decide_false in Hm by done. rewrite decide_False by (rewrite Hm; by intros []).
    rewrite <-IH. by destruct (list_find _ l) as [[]|].
Qed.

(** The entries of the table. *)
Definition in_table (t : list (list (@entry K V))) (e : @entry K V) : Prop :=
  ∃ i l, t !! i = Some l ∧ e ∈ l.

Lemma assoc_iff k v (l : list (@entry K V)) :
  NoDup (e_k <$> l) → assoc k l = Some v ↔ ∃ e, e ∈ l ∧ e_k e = k ∧ e_v e = v.
Proof.
  intros Hnd. split; [apply assoc_elem|]. intros (e & He & Hk & Hv).
  induction l as [|e' l IH]; [by apply elem_of_nil in He|].
  cbn in Hnd. apply NoDup_cons in Hnd as [Hni Hnd]. cbn.
  apply elem_of_cons in He as [->|He]; [by rewrite decide_True, Hv|].
  rewrite decide_False; [by apply IH|]. intros Hk'. apply Hni. rewrite Hk', <-Hk.
  by apply list_elem_of_fmap_2.
Qed.

Lemma table_lookup_iff size t k v :
  table_wf size t →
  table_lookup size t k = Some v ↔ ∃ e, in_table t e ∧ e_k e = k ∧ e_v e = v.
Proof.
  intros Ht. unfold table_lookup.
  destruct (lookup_lt_is_Some_2 t (indexFor size (hash k))) as [l Hl].
  { rewrite (tw_length _ _ Ht). apply indexFor_lt, Ht. }
  rewrite Hl. cbn [default]. rewrite assoc_iff by (by eapply tw_nodup). split.
  - intros (e & He & Hk & Hv). exists e. split_and!; [by exists (indexFor size (hash k)), l|done|done].
  - intros (e & (i & l' & Hi & He) & Hk & Hv). exists e. split_and!; [|done|done].
    destruct (tw_chain _ _ Ht _ _ _ Hi He) as [Hi' Hh]. rewrite Hh, Hk in Hi'. subst i.
    rewrite Hl in Hi. by injection Hi as <-.
Qed.

Lemma table_lookup_None size t k :
  table_wf size t → table_lookup size t k = None ↔ ∀ e, in_table t e → e_k e ≠ k.
Proof.
  intros Ht. split.
  - intros Hn e He Hk. assert (table_lookup size t k = Some (e_v e)); [|congruence].
    apply table_lookup_iff; [done|]. by exists e.
  - intros Hall. destruct (table_lookup size t k) as [v|] eqn:E; [|done].
    apply table_lookup_iff in E as (e & He & Hk & _); [|done]. by destruct (Hall e He).
Qed.

Lemma push_entry_ok size t e :
  table_wf size t → e_h e = hash (e_k e) → (∀ e', in_table t e' → e_k e' ≠ e_k e) →
  table_wf size (push_entry size t e) ∧
  ∀ e', in_table (push_entry size t e) e' ↔ e' = e ∨ in_table t e'.
Proof.
  intros Ht He Hnew. set (i := indexFor size (e_h e)).
  destruct (lookup_lt_is_Some_2 t i) as [l Hl].
  { rewrite (tw_length _ _ Ht). apply indexFor_lt, Ht. }
  assert (∀ j, push_entry size t e !! j = if decide (j = i) then Some (e :: l) else t !! j) as Hlk.
  { intros j. unfold push_entry. fold i. case_decide as E.
    - subst j. by rewrite list_lookup_alter_eq, Hl.
    - by rewrite list_lookup_alter_ne. }
  split.
  - destruct Ht as [H1 H2 H3 H4]. split.
    + done.
    + unfold push_entry. by rewrite length_alter.
    + intros j l' e' Hj He'. rewrite Hlk in Hj. case_decide as E; [|by eapply H3].
      injection Hj as <-. apply elem_of_cons in He' as [->|He']; [by subst j|].
      subst j. by eapply H3.
    + intros j l' Hj. rewrite Hlk in Hj. case_decide as E; [|by eapply H4].
      injection Hj as <-. cbn. apply NoDup_cons. split; [|by eapply H4].
      intros (e' & Hk & He')%list_elem_of_fmap. symmetry in Hk. revert Hk. apply Hnew. by exists i, l.
  - intros e'. split.
    + intros (j & l' & Hj & He'). rewrite Hlk in Hj. case_decide as E; [|right; by exists j, l'].
      injection Hj as <-. apply elem_of_cons in He' as [->|He']; [by left|right; by exists i, l].
    + intros [->|(j & l' & Hj & He')].
      * exists i, (e :: l). rewrite Hlk, decide_True by done. split; [done|by left].
      * destruct (decide (j = i)) as [->|Hne].
        -- exists i, (e :: l). rewrite Hlk, decide_True by done. split; [done|].
           rewrite Hl in Hj. injection Hj as <-. by right.
        -- exists j, l'. by rewrite Hlk, decide_False.
Qed.

Lemma push_all size es : ∀ t,
  table_wf size t → Forall (λ e, e_h e = hash (e_k e)) es → NoDup (e_k <$> es) →
  (∀ e e', in_table t e → e' ∈ es → e_k e ≠ e_k e') →
  table_wf size (foldl (push_entry size) t es) ∧
  ∀ e, in_table (foldl (push_entry size) t es) e ↔ e ∈ es ∨ in_table t e.
Proof.
  induction es as [|e es IH]; intros t Ht Hh Hnd Hdis; cbn [foldl].
  { split; [done|]. intros e. split; [by right|]. by intros [?%elem_of_nil|]. }
  apply Forall_cons_1 in Hh as [He Hh]. cbn in Hnd. apply NoDup_cons in Hnd as [Hni Hnd].
  destruct (push_entry_ok size t e Ht He) as [Ht' Hin'].
  { intros e' He'. apply (Hdis e' e He'). by left. }
  destruct (IH _ Ht' Hh Hnd) as [Ht2 Hin2].
  { intros e1 e2 H1 H2. apply Hin' in H1 as [->|H1].
    - intros Hk. apply Hni. rewrite Hk. by apply list_elem_of_fmap_2.
    - apply Hdis; [done|by right]. }
  split; [done|]. intros e'. rewrite Hin2, Hin', elem_of_cons. tauto.
Qed.

Lemma empty_table_wf size : 0 < size → table_wf size (replicate (Z.to_nat size) []).
Proof.
  intros Hs. split; [done|by rewrite length_replicate| |].
  - intros i l e [-> _]%lookup_replicate He. by apply elem_of_nil in He.
  - intros i l [-> _]%lookup_replicate. apply NoDup_nil_2.
Qed.

Lemma empty_table n (e : @entry K V) : ¬ in_table (replicate n []) e.
Proof. intros (i & l & [-> _]%lookup_replicate & He). by apply elem_of_nil in He. Qed.

Lemma elem_of_concat_table t e : e ∈ concat t ↔ in_table t e.
Proof.
  rewrite list_elem_of_In, in_concat. split.
  - intros (l & Hl%list_elem_of_In & He%list_elem_of_In).
    apply list_elem_of_lookup in Hl as [i Hi]. by exists i, l.
  - intros (i & l & Hi & He). exists l. rewrite <-!list_elem_of_In. split; [|done].
    by eapply list_elem_of_lookup_2.
Qed.

Lemma hashtable_search_ok h m k :
  represents h m → hashtable_search hashfn eqfn h k = m !! k.
Proof.
  intros [Hwf Hl _]. rewrite <-Hl. apply search_assoc. intros e. by apply chain_wf.
Qed.

(** No key occurs twice in the whole table. *)
Lemma concat_NoDup_from (c : K → nat) (t : list (list (@entry K V))) : ∀ b,
  (∀ i l e, t !! i = Some l → e ∈ l → c (e_k e) = (b + i)%nat) →
  (∀ i l, t !! i = Some l → NoDup (e_k <$> l)) → NoDup (e_k <$> concat t).
Proof.
  induction t as [|l t IH]; intros b Hc Hnd; [apply NoDup_nil_2|]. cbn. rewrite fmap_app.
  apply NoDup_app. split_and!.
  - by apply (Hnd 0%nat).
  - intros k (e & -> & He)%list_elem_of_fmap (e' & Hk & He')%list_elem_of_fmap.
    apply elem_of_concat_table in He' as (i & l' & Hi & He').
    pose proof (Hc 0%nat l e eq_refl He). pose proof (Hc (S i) l' e' Hi He'). rewrite Hk in *. lia.
  - apply (IH (S b)).
    + intros i l' e Hi He. rewrite (Hc (S i) l' e Hi He). lia.
    + intros i l' Hi. by apply (Hnd (S i)).
Qed.

Lemma concat_NoDup size t : table_wf size t → NoDup (e_k <$> concat t).
Proof.
  intros [_ _ Hch Hnd]. apply (concat_NoDup_from (λ k, indexFor size (hash k)) t 0); [|done].
  intros i l e Hl He. destruct (Hch i l e Hl He) as [-> ->]. done.
Qed.

Lemma expand_wf h :
  table_wf (tablelength h) (table h) →
  table_wf (tablelength (hashtable_expand h)) (table (hashtable_expand h)) ∧
  (∀ k, table_lookup (tablelength (hashtable_expand h)) (table (hashtable_expand h)) k =
        table_lookup (tablelength h) (table h) k) ∧
  entrycount (hashtable_expand h) = entrycount h.
Proof.
  intros Ht. unfold hashtable_expand. destruct (primes !! S (primeindex h)) as [p|] eqn:Ep; [|done].
  cbn [tablelength table entrycount].
  assert (0 < p) as Hp.
  { apply list_elem_of_lookup_2 in Ep. revert p Ep. apply Forall_forall.
    repeat constructor. }
  destruct (push_all p (concat (table h)) (replicate (Z.to_nat p) [])) as [Hwf Hin].
  - by apply empty_table_wf.
  - apply Forall_forall. intros e He%elem_of_concat_table. destruct He as (i & l & Hi & He).
    by eapply tw_chain.
  - by eapply concat_NoDup.
  - intros e e' He. by apply empty_table in He.
  - split_and!; [done| |done]. intros k.
    assert (∀ e, in_table (foldl (push_entry p) (replicate (Z.to_nat p) []) (concat (table h))) e ↔
      in_table (table h) e) as Hsame.
    { intros e. rewrite Hin, elem_of_concat_table. split; [|by left].
      intros [?|He]; [done|]. by apply empty_table in He. }
    apply option_eq. intros v. rewrite !table_lookup_iff by done. by setoid_rewrite Hsame.
Qed.

Lemma create_hashtable_ok minsize :
  minsize ≤ 2 ^ 30 → ∃ h, create_hashtable minsize = Some h ∧ represents h ∅.
Proof.
  intros Hm. unfold create_hashtable. rewrite (proj2 (Z.ltb_ge _ _)) by lia.
  assert (∃ i p, (match list_find (λ p, minsize < p) primes with
      | Some (i, p) => (i, p) | None => (prime_table_length, 53) end) = (i, p) ∧ 0 < p)
    as (i & p & -> & Hp).
  { destruct (list_find (λ p, minsize < p) primes) as [[i p]|] eqn:E;
      [|by exists prime_table_length, 53].
    exists i, p. split; [done|]. apply list_find_Some in E as (Hi & _).
    apply list_elem_of_lookup_2 in Hi. revert p Hi. apply Forall_forall. repeat constructor. }
  eexists. split; [done|]. split; cbn [tablelength table entrycount].
  - by apply empty_table_wf.
  - intros k. rewrite lookup_empty. apply table_lookup_None; [by apply empty_table_wf|].
    intros e He. by apply empty_table in He.
  - by rewrite map_size_empty.
Qed.

Lemma hashtable_insert_ok h m k v :
  represents h m → m !! k = None →
  represents (hashtable_insert hashfn h k v) (<[k := v]> m).
Proof.
  intros [Ht Hl Hc] Hk. unfold hashtable_insert. set (count := u32 (entrycount h + 1)).
  set (h1 := {| tablelength := tablelength h; table := table h; entrycount := count;
                loadlimit := loadlimit h; primeindex := primeindex h |}).
  assert (∃ h2, (if loadlimit h1 <? count then hashtable_expand h1 else h1) = h2 ∧
    table_wf (tablelength h2) (table h2) ∧
    (∀ k, table_lookup (tablelength h2) (table h2) k = m !! k) ∧ entrycount h2 = count)
    as (h2 & -> & Ht2 & Hl2 & Hc2).
  { eexists. split; [done|]. destruct (loadlimit h1 <? count); [|by split_and!].
    destruct (expand_wf h1 Ht) as (E1 & E2 & E3). split_and!; [done| |done].
    intros k'. by rewrite E2. }
  set (e := {| e_k := k; e_v := v; e_h := hash k |}).
  destruct (push_entry_ok (tablelength h2) (table h2) e Ht2 eq_refl) as [Ht3 Hin].
  { apply (proj1 (table_lookup_None _ _ k Ht2)). by rewrite Hl2. }
  split; cbn [tablelength table entrycount]; [done| |].
  - intros k'. apply option_eq. intros v'. rewrite table_lookup_iff by done.
    destruct (decide (k' = k)) as [->|Hne].
    + rewrite lookup_insert_eq. split.
      * intros (e' & He' & Hk' & Hv'). apply Hin in He' as [->|He']; [cbn in Hv'; congruence|].
        exfalso. assert (table_lookup (tablelength h2) (table h2) k = Some v'); [|congruence].
        apply table_lookup_iff; [done|]. by exists e'.
      * intros [= <-]. exists e. rewrite Hin. split_and!; [by left|done|done].
    + rewrite lookup_insert_ne, <-Hl2, table_lookup_iff by done.
      split; intros (e' & He' & Hk' & Hv'); exists e'; (split_and!; [|done|done]).
      * apply Hin in He' as [->|He']; [|done]. by cbn in Hk'.
      * apply Hin. by right.
  - rewrite Hc2, map_size_insert_None by done. unfold count, u32. rewrite Hc. unfold u32.
    rewrite Zplus_mod_idemp_l. f_equal. lia.
Qed.

(** Removal and update of one chain. *)
Lemma assoc_remove k k' (l : list (@entry K V)) :
  NoDup (e_k <$> l) → (∀ e, e ∈ l → e_h e = hash (e_k e)) →
  assoc k' (remove_entry eqfn (hash k) k l) = (if decide (k' = k) then None else assoc k' l) ∧
  remove_entry eqfn (hash k) k l ⊆ l ∧ NoDup (e_k <$> remove_entry eqfn (hash k) k l).
Proof.
  induction l as [|e l IH]; intros Hnd Hh.
  { cbn. split_and!; [by destruct (decide _)|done|done]. }
  cbn in Hnd. apply NoDup_cons in Hnd as [Hni Hnd].
  destruct (IH Hnd ltac:(intros e' ?; apply Hh; by right)) as (I1 & I2 & I3).
  cbn [remove_entry]. rewrite entry_matches_iff by (apply Hh; by left).
  case_bool_decide as E.
  - split_and!; [|by intros ? ?; right|done]. cbn. case_decide as Ek; [|by rewrite decide_False by congruence].
    subst. destruct (assoc (e_k e) l) as [v|] eqn:Ea; [|done].
    apply assoc_elem in Ea as (e' & He' & Hk' & _). destruct Hni. rewrite <-Hk'.
    by apply list_elem_of_fmap_2.
  - split_and!.
    + cbn. rewrite I1. destruct (decide (e_k e = k')); [by rewrite decide_False by congruence|done].
    + intros e' [->|He']%elem_of_cons; [by left|right; by apply I2].
    + cbn. apply NoDup_cons. split; [|done]. intros (e' & Hk & He')%list_elem_of_fmap.
      apply Hni. rewrite Hk. apply list_elem_of_fmap_2. by apply I2.
Qed.

Lemma assoc_update f k k' (l : list (@entry K V)) :
  (∀ e, e ∈ l → e_h e = hash (e_k e)) →
  assoc k' (update_entry eqfn f (hash k) k l) =
    (if decide (k' = k) then f <$> assoc k' l else assoc k' l) ∧
  e_k <$> update_entry eqfn f (hash k) k l = e_k <$> l ∧
  (∀ e, e ∈ update_entry eqfn f (hash k) k l → ∃ e', e' ∈ l ∧ e_k e = e_k e' ∧ e_h e = e_h e').
Proof.
  induction l as [|e l IH]; intros Hh.
  { cbn. split_and!; [by destruct (decide _)|done|]. intros e He. by apply elem_of_nil in He. }
  destruct (IH ltac:(intros e' ?; apply Hh; by right)) as (I1 & I2 & I3).
  cbn [update_entry]. rewrite entry_matches_iff by (apply Hh; by left).
  case_bool_decide as E; cbn [assoc fmap list_fmap].
  - split_and!.
    + subst. cbn [e_k e_v]. destruct (decide (k' = e_k e)) as [->|Hne];
        [by rewrite !decide_True by done|by rewrite !decide_False by congruence].
    + done.
    + intros e' [->|He']%elem_of_cons; [exists e; split_and!; [by left|done|done]|].
      exists e'. split_and!; [by right|done|done].
  - split_and!.
    + rewrite I1. destruct (decide (e_k e = k')); [by rewrite decide_False by congruence|done].
    + by rewrite I2.
    + intros e' [->|He']%elem_of_cons; [exists e; split_and!; [by left|done|done]|].
      destruct (I3 e' He') as (e2 & ? & ? & ?). exists e2. split_and!; [by right|done|done].
Qed.

(** A change of the chain of [k] that keeps its keys in place. *)
Lemma alter_chain size t k (g : list (@entry K V) → list (@entry K V)) (f : option V → option V) :
  table_wf size t →
  (∀ l, t !! indexFor size (hash k) = Some l →
     NoDup (e_k <$> g l) ∧
     (∀ e, e ∈ g l → ∃ e', e' ∈ l ∧ e_k e = e_k e' ∧ e_h e = e_h e') ∧
     ∀ k', assoc k' (g l) = if decide (k' = k) then f (assoc k' l) else assoc k' l) →
  let t' := alter g (indexFor size (hash k)) t in
  table_wf size t' ∧
  ∀ k', table_lookup size t' k' =
    if decide (k' = k) then f (table_lookup size t k') else table_lookup size t k'.
Proof.
  intros Ht Hg t'. set (i := indexFor size (hash k)) in *.
  destruct (lookup_lt_is_Some_2 t i) as [l Hl].
  { rewrite (tw_length _ _ Ht). apply indexFor_lt, Ht. }
  destruct (Hg l Hl) as (G1 & G2 & G3).
  assert (∀ j, t' !! j = if decide (j = i) then Some (g l) else t !! j) as Hlk.
  { intros j. unfold t'. case_decide as E.
    - subst j. by rewrite list_lookup_alter_eq, Hl.
    - by rewrite list_lookup_alter_ne. }
  split.
  - destruct Ht as [H1 H2 H3 H4]. split; [done|unfold t'; by rewrite length_alter| |].
    + intros j l' e Hj He. rewrite Hlk in Hj. case_decide as E; [|by eapply H3].
      injection Hj as <-. subst j. destruct (G2 e He) as (e' & He' & Hk' & Hh').
      destruct (H3 i l e' Hl He') as [H5 H6]. rewrite Hh', Hk'. done.
    + intros j l' Hj. rewrite Hlk in Hj. case_decide as E; [by injection Hj as <-|by eapply H4].
  - intros k'. unfold table_lookup. rewrite Hlk. fold i.
    destruct (decide (indexFor size (hash k') = i)) as [Hi|Hi].
    + rewrite Hi, Hl. cbn [default]. apply G3.
    + rewrite decide_False; [done|]. by intros ->.
Qed.

Lemma hashtable_remove_ok h m k :
  represents h m →
  represents (hashtable_remove hashfn eqfn h k).1 (delete k m) ∧
  (hashtable_remove hashfn eqfn h k).2 = m !! k.
Proof.
  intros Hr. pose proof (hashtable_search_ok h m k Hr) as Hs. destruct Hr as [Ht Hl Hc].
  unfold hashtable_remove. rewrite Hs. destruct (m !! k) as [v|] eqn:Ek; cbn [fst snd].
  2:{ split; [|done]. rewrite delete_id by done. by split. }
  split; [|done].
  destruct (alter_chain (tablelength h) (table h) k (remove_entry eqfn (hash k) k) (λ _, None) Ht)
    as [Hwf Hlk].
  { intros l Hi. assert (∀ e, e ∈ l → e_h e = hash (e_k e)) as Hh
      by (intros e He; by eapply tw_chain).
    destruct (assoc_remove k k l ltac:(by eapply tw_nodup) Hh) as (_ & R2 & R3).
    split_and!; [done| |].
    - intros e He. exists e. split_and!; [by apply R2|done|done].
    - intros k'. by apply assoc_remove; [eapply tw_nodup|]. }
  split; cbn [tablelength table entrycount]; [done| |].
  - intros k'. rewrite Hlk, Hl. case_decide as E; [by subst; rewrite lookup_delete_eq|].
    by rewrite lookup_delete_ne.
  - rewrite Hc, map_size_delete_Some by (by exists v). unfold u32. rewrite Zminus_mod_idemp_l.
    f_equal. assert (0 < size m)%nat; [|lia].
    destruct (decide (size m = 0%nat)) as [E|]; [|lia]. apply map_size_empty_inv in E.
    by rewrite E, lookup_empty in Ek.
Qed.

Lemma hashtable_modify_ok h m k f :
  represents h m → represents (hashtable_modify hashfn eqfn h k f) (alter f k m).
Proof.
  intros [Ht Hl Hc].
  destruct (alter_chain (tablelength h) (table h) k (update_entry eqfn f (hash k) k) (fmap f) Ht)
    as [Hwf Hlk].
  { intros l Hi. assert (∀ e, e ∈ l → e_h e = hash (e_k e)) as Hh
      by (intros e He; by eapply tw_chain).
    destruct (assoc_update f k k l Hh) as (_ & U2 & U3).
    split_and!; [rewrite U2; by eapply tw_nodup|done|].
    intros k'. by apply assoc_update. }
  split; cbn [tablelength table entrycount hashtable_modify]; [done| |].
  - intros k'. rewrite Hlk, Hl. case_decide as E; [by subst; rewrite lookup_alter_eq|].
    by rewrite lookup_alter_ne.
  - rewrite Hc. do 2 f_equal. destruct (m !! k) as [v|] eqn:E.
    + assert (alter f k m = <[k := f v]> m) as ->.
      { apply map_eq. intros k'. destruct (decide (k' = k)) as [->|Hne].
        - by rewrite lookup_alter_eq, lookup_insert_eq, E.
        - by rewrite lookup_alter_ne, lookup_insert_ne. }
      by rewrite map_size_insert_Some.
    + assert (alter f k m = m) as ->; [|done]. apply map_eq. intros k'.
      destruct (decide (k' = k)) as [->|Hne]; [by rewrite lookup_alter_eq, E|by rewrite lookup_alter_ne].
Qed.
End correctness.

(** ** The interface

    What the other components use: operations on a table and the map it stands
    for. *)

Class Table (K V T : Type) `{Countable K} := {
  tbl_is : T → gmap K V → Prop;
  tbl_create : Z → option T;
  tbl_search : T → K → option V;
  tbl_insert : T → K → V → T;
  tbl_remove : T → K → T * option V;
  tbl_modify : T → K → (V → V) → T;
  tbl_count : T → Z;
  tbl_create_ok minsize :
    minsize ≤ 2 ^ 30 → ∃ t, tbl_create minsize = Some t ∧ tbl_is t ∅;
  tbl_search_ok t m k : tbl_is t m → tbl_search t k = m !! k;
  tbl_insert_ok t m k v : tbl_is t m → m !! k = None → tbl_is (tbl_insert t k v) (<[k := v]> m);
  tbl_remove_ok t m k :
    tbl_is t m → tbl_is (tbl_remove t k).1 (delete k m) ∧ (tbl_remove t k).2 = m !! k;
  tbl_modify_ok t m k f : tbl_is t m → tbl_is (tbl_modify t k f) (alter f k m);
  tbl_count_ok t m : tbl_is t m → tbl_count t = u32 (Z.of_nat (size m))
}.

(** [hashtable.c] with a hash function and an equality test on the keys. *)
Definition hashtable_Table {K V} `{Countable K} (hashfn : K → Z) (eqfn : K → K → bool)
    (Heq : ∀ k1 k2, eqfn k1 k2 = true ↔ k1 = k2) : Table K V (@hashtable K V).
Proof.
  refine {| tbl_is := represents hashfn; tbl_create := create_hashtable;
            tbl_search := hashtable_search hashfn eqfn;
            tbl_insert := hashtable_insert hashfn;
            tbl_remove := hashtable_remove hashfn eqfn;
            tbl_modify := hashtable_modify hashfn eqfn;
            tbl_count := hashtable_count |}.
  - apply create_hashtable_ok.
  - intros t m k. by apply hashtable_search_ok.
  - intros t m k v. by apply hashtable_insert_ok.
  - intros t m k. by apply hashtable_remove_ok.
  - intros t m k f. by apply hashtable_modify_ok.
  - intros t m Hr. by destruct Hr.
Defined.

(** ** The theorems *)

(** One step of a client. *)
Inductive table_op (K V : Type) :=
  | OpInsert (k : K) (v : V)
  | OpRemove (k : K)
  | OpModify (k : K) (f : V → V).
Arguments OpInsert {_ _} _ _.
Arguments OpRemove {_ _} _.
Arguments OpModify {_ _} _ _.

Section theorem.
Context {K V : Type} `{Countable K} (hashfn : K → Z) (eqfn : K → K → bool).

Definition run_table (h : @hashtable K V) (op : table_op K V) : @hashtable K V :=
  match op with
  | OpInsert k v => hashtable_insert hashfn h k v
  | OpRemove k => (hashtable_remove hashfn eqfn h k).1
  | OpModify k f => hashtable_modify hashfn eqfn h k f
  end.

(** The map; [None] when a client inserts a key that is there. *)
Definition run_map (m : gmap K V) (op : table_op K V) : option (gmap K V) :=
  match op with
  | OpInsert k v => match m !! k with None => Some (<[k := v]> m) | Some _ => None end
  | OpRemove k => Some (delete k m)
  | OpModify k f => Some (alter f k m)
  end.

Fixpoint run_maps (m : gmap K V) (ops : list (table_op K V)) : option (gmap K V) :=
  match ops with [] => Some m | op :: ops' => m' ← run_map m op; run_maps m' ops' end.
End theorem.

(** C7: the hash table implements a finite map: after any sequence of
    insertions of fresh keys, removals and changes, with the expansions they
    cause, a search finds exactly the binding of the map, a removal returns it,
    and the count is the number of bindings. *)
Theorem hashtable_refines_map {K V} `{Countable K} (hashfn : K → Z) (eqfn : K → K → bool)
    (minsize : Z) (h : @hashtable K V) (ops : list (table_op K V)) (m : gmap K V) :
  (∀ k1 k2, eqfn k1 k2 = true ↔ k1 = k2) →
  create_hashtable minsize = Some h → run_maps ∅ ops = Some m →
  let h' := foldl (run_table hashfn eqfn) h ops in
  (∀ k, hashtable_search hashfn eqfn h' k = m !! k) ∧
  (∀ k, (hashtable_remove hashfn eqfn h' k).2 = m !! k) ∧
  hashtable_count h' = u32 (Z.of_nat (size m)).
Proof.
  intros Heq Hh Hm. assert (represents hashfn h ∅) as Hr.
  { assert (minsize ≤ 2 ^ 30) as Hle.
    { unfold create_hashtable in Hh. destruct (Z.ltb_spec (2 ^ 30) minsize); [done|lia]. }
    destruct (create_hashtable_ok (V := V) hashfn minsize Hle) as (h' & Hh' & Hr). congruence. }
  clear Hh. cbn zeta. revert h Hr Hm. generalize (∅ : gmap K V) as m0.
  induction ops as [|op ops IH]; intros m0 h Hr Hm.
  - injection Hm as ->. cbn. split_and!; [intros k; by apply hashtable_search_ok
      |intros k; by apply hashtable_remove_ok|apply Hr].
  - cbn in Hm. destruct (run_map m0 op) as [m1|] eqn:E; [|done]. apply (IH m1); [|done].
    destruct op as [k v|k|k f]; cbn in E |- *.
    + destruct (m0 !! k) eqn:Ek; [done|]. injection E as <-. by apply hashtable_insert_ok.
    + injection E as <-. by apply hashtable_remove_ok.
    + injection E as <-. by apply hashtable_modify_ok.
Qed.

Lemma hashtable_refines_map_witness :
  ∃ (h : @hashtable Z Z) m,
    create_hashtable 60 = Some h ∧
    run_maps ∅ [OpInsert 5 1; OpInsert 102 2; OpModify 5 Z.succ; OpRemove 102] = Some m ∧
    hashtable_search (λ k, k) Z.eqb
      (foldl (run_table (λ k, k) Z.eqb) h
         [OpInsert 5 1; OpInsert 102 2; OpModify 5 Z.succ; OpRemove 102]) 5 = Some 2.
Proof.
  destruct (create_hashtable 60) as [h|] eqn:Eh; [|discriminate].
  destruct (run_maps ∅ [OpInsert 5 1; OpInsert 102 2; OpModify 5 Z.succ; OpRemove 102])
    as [m|] eqn:Em; [|discriminate].
  exists h, m. split; [reflexivity|]. split; [reflexivity|].
  rewrite (proj1 (hashtable_refines_map (λ k, k) Z.eqb 60 h _ m Z.eqb_eq Eh Em) 5).
  injection Em as <-. reflexivity.
Defined.
