(* ===== verification/Protocol.v ===== *)
(** * Messages

    Models [src/waprox/protocol.c] and the structures of [protocol.h]
    ([#pragma pack(1)]).  A message under construction is a buffer as [malloc]
    returned it, with unknown contents ([mem]); each field is a store at its
    offset.  The receiving side reads the same buffers field by field. *)

From Stdlib Require Import ZArith Lia.
From stdpp Require Import base list option numbers sets.
From S2P Require Import Prelude Bytes Rabin Mrc MrcLevels MrcTree MrcResolve MrcCandidates.

(** ** Constants *)

Definition MAGIC_WAHEADER : Z := 0x57.
Definition MAGIC_WAOPENCONNECTION : Z := 0x70.
Definition MAGIC_WANAMEDELIVERY : Z := 0x71.
Definition MAGIC_WACLOSECONNECTION : Z := 0x72.
Definition MAGIC_WANAMEACK : Z := 0x73.
Definition MAGIC_WARAWMESSAGE : Z := 0x74.
Definition MAGIC_WABODYREQUEST : Z := 0x80.
Definition MAGIC_WABODYRESPONSE : Z := 0x81.
Definition MAGIC_WAPEEKREQUEST : Z := 0x82.
Definition MAGIC_WAPEEKRESPONSE : Z := 0x83.
Definition MAGIC_WAPUTREQUEST : Z := 0x84.
Definition MAGIC_WAPUTRESPONSE : Z := 0x85.
Definition MAGIC_WAPING : Z := 0x90.

Definition TYPE_WAOPENCONNECTION : Z := 79.
Definition TYPE_WANAMEDELIVERY : Z := 78.
Definition TYPE_WACLOSECONNECTION : Z := 67.
Definition TYPE_WANAMEACK : Z := 65.
Definition TYPE_WARAWMESSAGE : Z := 77.
Definition TYPE_WABODYREQUEST : Z := 81.
Definition TYPE_WABODYRESPONSE : Z := 82.
Definition TYPE_WAPEEKREQUEST : Z := 69.
Definition TYPE_WAPEEKRESPONSE : Z := 75.
Definition TYPE_WAPUTREQUEST : Z := 85.
Definition TYPE_WAPUTRESPONSE : Z := 84.
Definition TYPE_WAPING : Z := 80.

Record ConnectionID := { srcIP : Z; srcPort : Z; dstIP : Z; dstPort : Z }.

#[export] Instance ConnectionID_eq_dec : EqDecision ConnectionID.
Proof. solve_decision. Defined.

(** Sizes of the packed structures, and the offsets of the fields used below.
    [struct timeval] has 16 bytes. *)
Definition sizeof_WAControlHeader : nat := 18.
Definition sizeof_WAOpenConnection : nat := 19.
Definition sizeof_WANameDelivery : nat := 23.
Definition sizeof_WAOneTree : nat := 5.
Definition sizeof_WACloseConnection : nat := 23.
Definition sizeof_WANameAck : nat := 23.
Definition sizeof_WARawMessage : nat := 23.
Definition sizeof_WAChunkHeader : nat := 6.
Definition sizeof_WABodyRequest : nat := 11.
Definition sizeof_WABodyResponse : nat := 11.
Definition sizeof_WAPeekRequest : nat := 11.
Definition sizeof_WAPeekResponse : nat := 11.
Definition sizeof_WAPutRequest : nat := 11.
Definition sizeof_WAPutResponse : nat := 11.
Definition sizeof_WAPing : nat := 30.

(** ** Headers *)

Definition FillControlHeader (sip sport dip dport : Z) (buffer : list Z) (type length : Z)
    : outcome (list Z) :=
  _ ← c_assert (negb (sip =? 0) && negb (sport =? 0) && negb (dip =? 0) && negb (dport =? 0));
  b ← store buffer 0 (be 1 MAGIC_WAHEADER);
  b ← store b 1 (be 1 type);
  b ← store b 2 (be 4 length);
  b ← store b 6 (be 4 sip);
  b ← store b 10 (be 2 sport);
  b ← store b 12 (be 4 dip);
  store b 16 (be 2 dport).

Definition FillChunkHeader (buffer : list Z) (type length : Z) : outcome (list Z) :=
  b ← store buffer 0 (be 1 MAGIC_WAHEADER);
  b ← store b 1 (be 1 type);
  store b 2 (be 4 length).

(** What [VerifyControlHeader] and [VerifyChunkHeader] return: the result and,
    when it is 1, the type. *)
Definition verify_header (size : nat) (types : list Z) (buffer : list Z)
    : outcome (Z * option Z) :=
  if (length buffer <? size)%nat then Done (0, None)
  else
    magic ← load_u8 buffer 0;
    if negb (magic =? MAGIC_WAHEADER) then Done (-1, None)
    else
      len ← ntohl_at buffer 2;
      if Z.of_nat (length buffer) <? len then Done (0, None)
      else
        t ← load_u8 buffer 1;
        if decide (t ∈ types) then Done (1, Some t) else Done (-1, None).

Definition VerifyControlHeader (buffer : list Z) : outcome (Z * option Z) :=
  verify_header sizeof_WAControlHeader
    [TYPE_WAOPENCONNECTION; TYPE_WANAMEDELIVERY; TYPE_WACLOSECONNECTION; TYPE_WANAMEACK;
     TYPE_WARAWMESSAGE] buffer.

Definition VerifyChunkHeader (buffer : list Z) : outcome (Z * option Z) :=
  verify_header sizeof_WAChunkHeader
    [TYPE_WABODYREQUEST; TYPE_WABODYRESPONSE; TYPE_WAPEEKREQUEST; TYPE_WAPEEKRESPONSE;
     TYPE_WAPUTREQUEST; TYPE_WAPUTRESPONSE] buffer.

Definition VerifyPing (buffer : list Z) : outcome (Z * option Z) :=
  if (length buffer <? sizeof_WAPing)%nat then Done (0, None)
  else
    magic ← load_u8 buffer 0;
    if negb (magic =? MAGIC_WAPING) then Done (-1, None)
    else
      isPing ← load_u8 buffer 1;
      if negb ((isPing =? 1) || (isPing =? 0)) then Done (-1, None)
      else Done (1, Some TYPE_WAPING).

(** ** Control messages *)

Definition BuildWAOpenConnection (mem : nat → Z) (sip sport dip dport : Z)
    : outcome (list Z) :=
  let b := malloc mem sizeof_WAOpenConnection in
  b ← store b 18 (be 1 MAGIC_WAOPENCONNECTION);
  FillControlHeader sip sport dip dport b TYPE_WAOPENCONNECTION
    (Z.of_nat sizeof_WAOpenConnection).

Definition BuildWANameAck (mem : nat → Z) (sip sport dip dport ack : Z) : outcome (list Z) :=
  let b := malloc mem sizeof_WANameAck in
  b ← store b 18 (be 1 MAGIC_WANAMEACK);
  b ← store b 19 (be 4 ack);
  FillControlHeader sip sport dip dport b TYPE_WANAMEACK (Z.of_nat sizeof_WANameAck).

Definition BuildWACloseConnection (mem : nat → Z) (sip sport dip dport bytesTX : Z)
    : outcome (list Z) :=
  let b := malloc mem sizeof_WACloseConnection in
  b ← store b 18 (be 1 MAGIC_WACLOSECONNECTION);
  b ← store b 19 (be 4 bytesTX);
  FillControlHeader sip sport dip dport b TYPE_WACLOSECONNECTION
    (Z.of_nat sizeof_WACloseConnection).

Definition BuildWARawMessage (mem : nat → Z) (sip sport dip dport : Z) (message : list Z)
    : outcome (list Z) :=
  _ ← c_assert (0 <? length message)%nat;
  let len := (sizeof_WARawMessage + length message)%nat in
  let b := malloc mem len in
  b ← store b 18 (be 1 MAGIC_WARAWMESSAGE);
  b ← store b 19 (be 4 (Z.of_nat (length message)));
  b ← store b sizeof_WARawMessage message;
  FillControlHeader sip sport dip dport b TYPE_WARAWMESSAGE (Z.of_nat len).

Definition BuildWANameTreeDelivery (mem : nat → Z) (sip sport dip dport numNames : Z)
    (pTree : list Z) : outcome (list Z) :=
  _ ← c_assert (0 <? length pTree)%nat;
  let len := (sizeof_WANameDelivery + sizeof_WAOneTree + length pTree)%nat in
  let b := malloc mem len in
  b ← store b 18 (be 1 MAGIC_WANAMEDELIVERY);
  b ← store b 19 (be 4 1);
  b ← store b 24 (be 4 numNames);
  b ← store b (sizeof_WANameDelivery + sizeof_WAOneTree) pTree;
  FillControlHeader sip sport dip dport b TYPE_WANAMEDELIVERY (Z.of_nat len).

(** ** Messages of the chunk flow *)

Section chunk_flow.
Context `{Digest} (mem : nat → Z).

Definition sizeof_WAOneChunk : nat := SHA1_LEN + 5.
Definition sizeof_WAOneRequest : nat := 4 + SHA1_LEN + 4.
Definition sizeof_WAOneResponse : nat := SHA1_LEN + 4.
Definition sizeof_WAOnePeekRequest : nat := SHA1_LEN.
Definition sizeof_WAOnePeekResponse : nat := SHA1_LEN + 1.
Definition sizeof_WAOnePutRequest : nat := SHA1_LEN + 4.
Definition sizeof_WAOnePutResponse : nat := SHA1_LEN.

(** [memcpy(p, sha1name, SHA1_LEN)]. *)
Definition copy_name (b : list Z) (off : nat) (sha1name : list Z) : outcome (list Z) :=
  name ← load sha1name 0 SHA1_LEN; store b off name.

(** [orgPxyAddr] is kept in network order: its four bytes are copied. *)
Definition BuildWABodyRequest (orgPxyAddr sha1name : list Z) (length_ : Z)
    : outcome (list Z) :=
  let len := (sizeof_WABodyRequest + sizeof_WAOneRequest)%nat in
  let b := malloc mem len in
  b ← store b 6 (be 1 MAGIC_WABODYREQUEST);
  b ← store b 7 (be 4 1);
  addr ← load orgPxyAddr 0 4;
  b ← store b sizeof_WABodyRequest addr;
  b ← copy_name b (sizeof_WABodyRequest + 4) sha1name;
  b ← store b (sizeof_WABodyRequest + 4 + SHA1_LEN) (be 4 length_);
  FillChunkHeader b TYPE_WABODYREQUEST (Z.of_nat len).

Definition BuildWABodyResponse (sha1name block : list Z) : outcome (list Z) :=
  _ ← c_assert (0 <? length block)%nat;
  let len := (sizeof_WABodyResponse + sizeof_WAOneResponse + length block)%nat in
  let b := malloc mem len in
  b ← store b 6 (be 1 MAGIC_WABODYRESPONSE);
  b ← store b 7 (be 4 1);
  b ← copy_name b sizeof_WABodyResponse sha1name;
  b ← store b (sizeof_WABodyResponse + SHA1_LEN) (be 4 (Z.of_nat (length block)));
  b ← store b (sizeof_WABodyResponse + sizeof_WAOneResponse) block;
  FillChunkHeader b TYPE_WABODYRESPONSE (Z.of_nat len).

Definition BuildWAPeekRequest (sha1name : list Z) : outcome (list Z) :=
  let len := (sizeof_WAPeekRequest + sizeof_WAOnePeekRequest)%nat in
  let b := malloc mem len in
  b ← store b 6 (be 1 MAGIC_WAPEEKREQUEST);
  b ← store b 7 (be 4 1);
  b ← copy_name b sizeof_WAPeekRequest sha1name;
  FillChunkHeader b TYPE_WAPEEKREQUEST (Z.of_nat len).

(** The buffer and the length the caller is told: the length is computed from
    the size of a [WAOneResponse], the buffer has a [WAOnePeekResponse]. *)
Definition BuildWAPeekResponse (sha1name : list Z) (isHit : Z) : outcome (list Z * Z) :=
  let b := malloc mem (sizeof_WAPeekResponse + sizeof_WAOnePeekResponse) in
  b ← store b 6 (be 1 MAGIC_WAPEEKRESPONSE);
  b ← store b 7 (be 4 1);
  b ← copy_name b sizeof_WAPeekResponse sha1name;
  b ← store b (sizeof_WAPeekResponse + SHA1_LEN) (be 1 isHit);
  let len := Z.of_nat (sizeof_WABodyResponse + sizeof_WAOneResponse) in
  b ← FillChunkHeader b TYPE_WAPEEKRESPONSE len;
  Done (b, len).

Definition BuildWAPutRequest (sha1name block : list Z) : outcome (list Z) :=
  _ ← c_assert (0 <? length block)%nat;
  let len := (sizeof_WAPutRequest + sizeof_WAOnePutRequest + length block)%nat in
  let b := malloc mem len in
  b ← store b 6 (be 1 MAGIC_WAPUTREQUEST);
  b ← store b 7 (be 4 1);
  b ← copy_name b sizeof_WAPutRequest sha1name;
  b ← store b (sizeof_WAPutRequest + SHA1_LEN) (be 4 (Z.of_nat (length block)));
  b ← store b (sizeof_WAPutRequest + sizeof_WAOnePutRequest) block;
  FillChunkHeader b TYPE_WAPUTREQUEST (Z.of_nat len).

Definition BuildWAPutResponse (sha1name : list Z) : outcome (list Z) :=
  let len := (sizeof_WAPutResponse + sizeof_WAOnePutResponse)%nat in
  let b := malloc mem len in
  b ← store b 6 (be 1 MAGIC_WAPUTRESPONSE);
  b ← store b 7 (be 4 1);
  b ← copy_name b sizeof_WAPutResponse sha1name;
  FillChunkHeader b TYPE_WAPUTRESPONSE (Z.of_nat len).

(** [serverAddr] and [timestamp] are copied as they are in memory. *)
Definition BuildWAPing (isPing : Z) (serverAddr timestamp : list Z)
    (networkBytes diskChunks : Z) : outcome (list Z) :=
  _ ← c_assert ((isPing =? 1) || (isPing =? 0));
  let b := malloc mem sizeof_WAPing in
  b ← store b 0 (be 1 MAGIC_WAPING);
  b ← store b 1 (be 1 isPing);
  addr ← load serverAddr 0 4;
  b ← store b 2 addr;
  ts ← load timestamp 0 16;
  b ← store b 6 ts;
  b ← store b 22 (be 4 networkBytes);
  store b 26 (be 4 diskChunks).

(** ** The name tree of a chunk *)

Definition has_content (c : OneCandidate) : bool :=
  negb (ca_isHit c) || (ca_length c <=? WAPROX_MIN_CHUNK_SIZE).

(** The message length and the number of items. *)
Definition GetCandidateMessageLength (candidateList : list OneCandidate)
    : outcome (Z * nat) :=
  '(_, newmsg_len, items) ←
    foldM (λ '(offset, newmsg_len, items) walk,
        _ ← c_assert (offset =? ca_offset walk);
        let newmsg_len := newmsg_len + Z.of_nat sizeof_WAOneChunk in
        let newmsg_len := if has_content walk then newmsg_len + ca_length walk
                          else newmsg_len in
        Done (offset + ca_length walk, newmsg_len, S items))
      (0, 0, 0%nat) candidateList;
  Done (newmsg_len, items).

(** The body of the loop over the candidates: the buffer, its length so far and
    the offset in the source. *)
Definition deliver_candidate (psrc : list Z) (pNames : list OneChunkName)
    (st : list Z * nat * Z) (walk : OneCandidate) : outcome (list Z * nat * Z) :=
  let '(b, actualLen, offset) := st in
  _ ← c_assert (offset =? ca_offset walk);
  c ← get_at pNames (ca_index walk);
  b ← copy_name b actualLen (cn_sha1name c);
  b ← store b (actualLen + SHA1_LEN) (be 4 (ca_length walk));
  b ← store b (actualLen + SHA1_LEN + 4) (be 1 (if ca_isHit walk then 0 else 1));
  let body := (actualLen + sizeof_WAOneChunk)%nat in
  if has_content walk then
    content ← load psrc (Z.to_nat offset) (Z.to_nat (ca_length walk));
    b ← store b body content;
    b ← store b (actualLen + SHA1_LEN + 4) (be 1 1);
    Done (b, (body + Z.to_nat (ca_length walk))%nat, offset + ca_length walk)
  else Done (b, body, offset + ca_length walk).

Definition BuildWANameTreeDelivery3 (sip sport dip dport : Z) (psrc : list Z)
    (pNames : list OneChunkName) (candidateList : list OneCandidate)
    (numCandidates : nat) (newmsg_len : Z) : outcome (list Z) :=
  let b := malloc mem (sizeof_WANameDelivery + sizeof_WAOneTree + Z.to_nat newmsg_len) in
  b ← store b 18 (be 1 MAGIC_WANAMEDELIVERY);
  b ← store b 19 (be 4 1);
  b ← store b (sizeof_WANameDelivery + 1) (be 4 (Z.of_nat numCandidates));
  b ← store b sizeof_WANameDelivery (be 1 1);
  '(b, actualLen, _) ←
    foldM (deliver_candidate psrc pNames)
      (b, (sizeof_WANameDelivery + sizeof_WAOneTree)%nat, 0) candidateList;
  b ← FillControlHeader sip sport dip dport b TYPE_WANAMEDELIVERY (Z.of_nat actualLen);
  Done (take actualLen b).

(** *** Reading it back *)

(** A [WAOneChunk] with the content that follows it. *)
Record WAOneChunk := {
  wc_sha1name : list Z;
  wc_length : Z;
  wc_content : option (list Z)
}.

(** The fields of one chunk of the tree, and the offset of the next. *)
Definition read_chunk (buffer : list Z) (offset : nat) : outcome (WAOneChunk * nat) :=
  sha1name ← load buffer offset SHA1_LEN;
  len ← ntohl_at buffer (offset + SHA1_LEN);
  let clength := i32 len in
  hasContent ← load_u8 buffer (offset + SHA1_LEN + 4);
  let offset := (offset + sizeof_WAOneChunk)%nat in
  if hasContent =? 1 then
    content ← load buffer offset (Z.to_nat clength);
    Done ({| wc_sha1name := sha1name; wc_length := clength; wc_content := Some content |},
          (offset + Z.to_nat clength)%nat)
  else
    Done ({| wc_sha1name := sha1name; wc_length := clength; wc_content := None |}, offset).

(** The loop over the names of a tree, with what the receiver does for each. *)
Definition read_names {S} (f : S → WAOneChunk → outcome S) (s : S) (buffer : list Z)
    (offset numNames : nat) : outcome (S * nat) :=
  foldM (λ '(s, offset) _,
      '(c, offset) ← read_chunk buffer offset;
      s ← f s c;
      Done (s, offset))
    (s, offset) (seq 0 numNames).

(** [ConnectionID] of the header, in host order. *)
Definition read_connID (buffer : list Z) : outcome ConnectionID :=
  sip ← ntohl_at buffer 6;
  sport ← ntohs_at buffer 10;
  dip ← ntohl_at buffer 12;
  dport ← ntohs_at buffer 16;
  Done {| srcIP := sip; srcPort := sport; dstIP := dip; dstPort := dport |}.

(** The part of [ProcessNameTreeDelivery2] that reads the message: the
    connection, the result of [f] over the names of the single tree and the
    length the receiver consumes. *)
Definition read_name_delivery {S} (f : S → WAOneChunk → outcome S) (s : S) (buffer : list Z)
    : outcome (ConnectionID * S * Z) :=
  tot_length ← ntohl_at buffer 2;
  numTrees ← ntohl_at buffer 19;
  _ ← c_assert (tot_length <=? Z.of_nat (length buffer));
  _ ← c_assert (i32 numTrees =? 1);
  cid ← read_connID buffer;
  _ ← c_assert (negb (srcIP cid =? 0) && negb (srcPort cid =? 0) &&
                negb (dstIP cid =? 0) && negb (dstPort cid =? 0));
  numNames ← ntohl_at buffer (sizeof_WANameDelivery + 1);
  '(s, offset) ← read_names f s buffer (sizeof_WANameDelivery + sizeof_WAOneTree)
                   (Z.to_nat (i32 numNames));
  _ ← c_assert (Z.of_nat offset =? tot_length);
  Done (cid, s, tot_length).
End chunk_flow.

(** ** Merging *)

Definition IsSameMessageType (msg1 msg2 : list Z) : outcome bool :=
  l1 ← ntohl_at msg1 2;
  _ ← c_assert (l1 =? Z.of_nat (length msg1));
  l2 ← ntohl_at msg2 2;
  _ ← c_assert (l2 =? Z.of_nat (length msg2));
  h1 ← load msg1 0 sizeof_WAChunkHeader;
  h2 ← load msg2 0 sizeof_WAChunkHeader;
  Done (bool_decide (h1 = h2)).

(** The three [MergeTwo...] functions differ in the structure: the offset of its
    counter and its size.  [realloc] keeps the bytes of [msg1]. *)
Definition merge_two (mem : nat → Z) (count size : nat) (msg1 msg2 : list Z)
    : outcome (list Z * Z) :=
  same ← IsSameMessageType msg1 msg2;
  if (same : bool) then
    n1 ← ntohl_at msg1 count;
    _ ← c_assert (1 <=? n1);
    n2 ← ntohl_at msg2 count;
    _ ← c_assert (1 <=? n2);
    _ ← c_assert (size <? length msg2)%nat;
    let bytesToAdd := (length msg2 - size)%nat in
    let b := msg1 ++ malloc mem bytesToAdd in
    payload ← load msg2 size bytesToAdd;
    b ← store b (length msg1) payload;
    b ← store b count (be 4 (n1 + n2));
    b ← store b 2 (be 4 (Z.of_nat (length msg1 + bytesToAdd)));
    Done (b, Z.of_nat bytesToAdd)
  else Done (msg1, 0).

Definition MergeTwoNameDelivery (mem : nat → Z) := merge_two mem 19 sizeof_WANameDelivery.
Definition MergeTwoBodyRequest (mem : nat → Z) := merge_two mem 7 sizeof_WABodyRequest.
Definition MergeTwoBodyResponse (mem : nat → Z) := merge_two mem 7 sizeof_WABodyResponse.

(** ** Stores, as concatenations *)

Lemma store_app p r off f :
  off = length p → (length f ≤ length r)%nat →
  store (p ++ r) off f = Done ((p ++ f) ++ drop (length f) r).
Proof.
  intros -> Hf. rewrite store_Done by (rewrite length_app; lia). unfold splice.
  rewrite take_app_length, drop_app_add. by rewrite <-app_assoc.
Qed.

Lemma store_mid p f r off f' :
  off = length p → length f' = length f → store (p ++ f ++ r) off f' = Done (p ++ f' ++ r).
Proof.
  intros -> Hf. rewrite store_app by (rewrite ?length_app; lia). rewrite Hf, drop_app_length.
  by rewrite <-app_assoc.
Qed.

Lemma load_mid p f r off n :
  off = length p → n = length f → load (p ++ f ++ r) off n = Done f.
Proof.
  intros -> ->. rewrite load_Done by (rewrite !length_app; lia). unfold slice.
  by rewrite drop_app_length, take_app_length.
Qed.

Lemma load_u8_mid p f r off v :
  f = be 1 v → off = length p → 0 ≤ v < 256 → load_u8 (p ++ f ++ r) off = Done v.
Proof.
  intros -> Ho Hv. unfold load_u8. rewrite load_mid by (rewrite ?length_be; done).
  cbn [mbind outcome_bind]. by rewrite un_be_be by (change (Z.of_nat 1) with 1; lia).
Qed.

Lemma ntohs_mid p f r off v :
  f = be 2 v → off = length p → 0 ≤ v < 2 ^ 16 → ntohs_at (p ++ f ++ r) off = Done v.
Proof.
  intros -> Ho Hv. unfold ntohs_at. rewrite load_mid by (rewrite ?length_be; done).
  cbn [mbind outcome_bind]. by rewrite un_be_be by (change (256 ^ Z.of_nat 2) with (2 ^ 16); lia).
Qed.

Lemma ntohl_mid p f r off v :
  f = be 4 v → off = length p → 0 ≤ v < 2 ^ 32 → ntohl_at (p ++ f ++ r) off = Done v.
Proof.
  intros -> Ho Hv. unfold ntohl_at. rewrite load_mid by (rewrite ?length_be; done).
  cbn [mbind outcome_bind]. by rewrite un_be_be by (change (256 ^ Z.of_nat 4) with (2 ^ 32); lia).
Qed.

Lemma ntohl_wrap p r off v : off = length p → ntohl_at (p ++ be 4 v ++ r) off = Done (u32 v).
Proof.
  intros Ho. unfold ntohl_at. rewrite load_mid by (rewrite ?length_be; done).
  cbn [mbind outcome_bind]. f_equal. apply un_be_wrap.
Qed.

(** ** The bytes of the messages *)

Definition conn_ok (c : ConnectionID) : Prop :=
  0 < srcIP c < 2 ^ 32 ∧ 0 < srcPort c < 2 ^ 16 ∧ 0 < dstIP c < 2 ^ 32 ∧ 0 < dstPort c < 2 ^ 16.

Definition control_header (c : ConnectionID) (type len : Z) : list Z :=
  be 1 MAGIC_WAHEADER ++ be 1 type ++ be 4 len ++
  be 4 (srcIP c) ++ be 2 (srcPort c) ++ be 4 (dstIP c) ++ be 2 (dstPort c).

Definition chunk_header (type len : Z) : list Z :=
  be 1 MAGIC_WAHEADER ++ be 1 type ++ be 4 len.

Lemma length_control_header c type len : length (control_header c type len) = 18%nat.
Proof. unfold control_header. by rewrite !length_app, !length_be. Qed.

Lemma length_chunk_header type len : length (chunk_header type len) = 6%nat.
Proof. unfold chunk_header. by rewrite !length_app, !length_be. Qed.

(** Runs a sequence of stores at consecutive offsets. *)
Ltac run_stores :=
  repeat (rewrite store_app;
    [|rewrite ?length_app, ?length_be, ?length_take, ?length_drop, ?length_malloc; cbn; lia
     |rewrite ?length_drop, ?length_app, ?length_be, ?length_malloc; cbn; lia];
    cbn [mbind outcome_bind]).

Lemma FillControlHeader_ok b type len c :
  conn_ok c → (18 ≤ length b)%nat →
  FillControlHeader (srcIP c) (srcPort c) (dstIP c) (dstPort c) b type len =
    Done (control_header c type len ++ drop 18 b).
Proof.
  intros (H1 & H2 & H3 & H4) Hb. unfold FillControlHeader.
  rewrite !(proj2 (Z.eqb_neq _ 0)) by lia. cbn [negb andb c_assert mbind outcome_bind].
  change b with ([] ++ b) at 1. run_stores. unfold control_header.
  rewrite !length_be, !drop_drop, <-!app_assoc. done.
Qed.

Lemma FillChunkHeader_ok b type len :
  (6 ≤ length b)%nat → FillChunkHeader b type len = Done (chunk_header type len ++ drop 6 b).
Proof.
  intros Hb. unfold FillChunkHeader. change b with ([] ++ b) at 1. run_stores.
  unfold chunk_header. rewrite !length_be, !drop_drop, <-!app_assoc. done.
Qed.

(** Evaluates a builder: [k] bytes of header, then stores in order. *)
Ltac build k :=
  match goal with |- context [malloc ?mem ?n] =>
    rewrite <-(take_drop k (malloc mem n)); run_stores
  end.

(** What the stores after the header left. *)
Ltac tidy :=
  rewrite ?drop_drop, <-?app_assoc;
  rewrite ?drop_app_length' by (rewrite length_take, length_malloc; lia);
  rewrite (drop_ge (malloc _ _)) by (rewrite ?length_malloc, ?length_be; cbn; lia);
  rewrite ?app_nil_r.

Lemma BuildWAOpenConnection_ok mem c :
  conn_ok c →
  BuildWAOpenConnection mem (srcIP c) (srcPort c) (dstIP c) (dstPort c) =
    Done (control_header c TYPE_WAOPENCONNECTION 19 ++ be 1 MAGIC_WAOPENCONNECTION).
Proof.
  intros Hc. unfold BuildWAOpenConnection, sizeof_WAOpenConnection. build 18%nat.
  rewrite FillControlHeader_ok by (done || rewrite !length_app, length_take, length_malloc; cbn; lia).
  by tidy.
Qed.

Lemma BuildWANameAck_ok mem c ack :
  conn_ok c →
  BuildWANameAck mem (srcIP c) (srcPort c) (dstIP c) (dstPort c) ack =
    Done (control_header c TYPE_WANAMEACK 23 ++ be 1 MAGIC_WANAMEACK ++ be 4 ack).
Proof.
  intros Hc. unfold BuildWANameAck, sizeof_WANameAck. build 18%nat.
  rewrite FillControlHeader_ok by (done || rewrite !length_app, length_take, length_malloc; cbn; lia).
  by tidy.
Qed.

Lemma BuildWACloseConnection_ok mem c bytesTX :
  conn_ok c →
  BuildWACloseConnection mem (srcIP c) (srcPort c) (dstIP c) (dstPort c) bytesTX =
    Done (control_header c TYPE_WACLOSECONNECTION 23 ++
          be 1 MAGIC_WACLOSECONNECTION ++ be 4 bytesTX).
Proof.
  intros Hc. unfold BuildWACloseConnection, sizeof_WACloseConnection. build 18%nat.
  rewrite FillControlHeader_ok by (done || rewrite !length_app, length_take, length_malloc; cbn; lia).
  by tidy.
Qed.

Lemma BuildWARawMessage_ok mem c message :
  conn_ok c → message ≠ [] →
  BuildWARawMessage mem (srcIP c) (srcPort c) (dstIP c) (dstPort c) message =
    Done (control_header c TYPE_WARAWMESSAGE (Z.of_nat (23 + length message)) ++
          be 1 MAGIC_WARAWMESSAGE ++ be 4 (Z.of_nat (length message)) ++ message).
Proof.
  intros Hc Hm. unfold BuildWARawMessage, sizeof_WARawMessage.
  assert (0 < length message)%nat by (destruct message; [done|cbn; lia]).
  rewrite (proj2 (Nat.ltb_lt _ _)) by done. cbn [c_assert mbind outcome_bind]. build 18%nat.
  rewrite FillControlHeader_ok by (done || rewrite !length_app, length_take, length_malloc; cbn; lia).
  by tidy.
Qed.

Section chunk_builders.
Context `{Digest} (mem : nat → Z).

Lemma copy_name_app p r off name :
  length name = SHA1_LEN → off = length p → (SHA1_LEN ≤ length r)%nat →
  copy_name (p ++ r) off name = Done ((p ++ name) ++ drop SHA1_LEN r).
Proof.
  intros Hn -> Hr. unfold copy_name. rewrite load_Done by lia. cbn [mbind outcome_bind].
  rewrite slice_full by done. by rewrite store_app, Hn by lia.
Qed.

(** The same, with a name among the fields. *)
Ltac run_names :=
  repeat (run_stores; try (rewrite copy_name_app;
    [|done
     |rewrite ?length_app, ?length_be, ?length_take, ?length_drop, ?length_malloc; cbn; lia
     |rewrite ?length_drop, ?length_app, ?length_be, ?length_malloc; cbn; lia];
    cbn [mbind outcome_bind])).

Ltac build_chunk :=
  match goal with |- context [malloc ?mem ?n] =>
    rewrite <-(take_drop 6 (malloc mem n)); run_names
  end;
  rewrite FillChunkHeader_ok by (rewrite !length_app, length_take, length_malloc; cbn; lia);
  tidy.

Lemma BuildWABodyRequest_ok addr name len :
  length addr = 4%nat → length name = SHA1_LEN →
  BuildWABodyRequest mem addr name len =
    Done (chunk_header TYPE_WABODYREQUEST (Z.of_nat (11 + (4 + SHA1_LEN + 4))) ++
          be 1 MAGIC_WABODYREQUEST ++ be 4 1 ++ addr ++ name ++ be 4 len).
Proof.
  intros Ha Hn. unfold BuildWABodyRequest, sizeof_WABodyRequest, sizeof_WAOneRequest.
  rewrite (load_Done addr), slice_full by lia. cbn [mbind outcome_bind]. by build_chunk.
Qed.

Lemma BuildWABodyResponse_ok name block :
  length name = SHA1_LEN → block ≠ [] →
  BuildWABodyResponse mem name block =
    Done (chunk_header TYPE_WABODYRESPONSE (Z.of_nat (11 + (SHA1_LEN + 4) + length block)) ++
          be 1 MAGIC_WABODYRESPONSE ++ be 4 1 ++ name ++ be 4 (Z.of_nat (length block)) ++ block).
Proof.
  intros Hn Hb. unfold BuildWABodyResponse, sizeof_WABodyResponse, sizeof_WAOneResponse.
  assert (0 < length block)%nat by (destruct block; [done|cbn; lia]).
  rewrite (proj2 (Nat.ltb_lt _ _)) by done. cbn [c_assert mbind outcome_bind]. by build_chunk.
Qed.

Lemma BuildWAPutRequest_ok name block :
  length name = SHA1_LEN → block ≠ [] →
  BuildWAPutRequest mem name block =
    Done (chunk_header TYPE_WAPUTREQUEST (Z.of_nat (11 + (SHA1_LEN + 4) + length block)) ++
          be 1 MAGIC_WAPUTREQUEST ++ be 4 1 ++ name ++ be 4 (Z.of_nat (length block)) ++ block).
Proof.
  intros Hn Hb. unfold BuildWAPutRequest, sizeof_WAPutRequest, sizeof_WAOnePutRequest.
  assert (0 < length block)%nat by (destruct block; [done|cbn; lia]).
  rewrite (proj2 (Nat.ltb_lt _ _)) by done. cbn [c_assert mbind outcome_bind]. by build_chunk.
Qed.

Lemma BuildWAPeekRequest_ok name :
  length name = SHA1_LEN →
  BuildWAPeekRequest mem name =
    Done (chunk_header TYPE_WAPEEKREQUEST (Z.of_nat (11 + SHA1_LEN)) ++
          be 1 MAGIC_WAPEEKREQUEST ++ be 4 1 ++ name).
Proof.
  intros Hn. unfold BuildWAPeekRequest, sizeof_WAPeekRequest, sizeof_WAOnePeekRequest.
  by build_chunk.
Qed.

Lemma BuildWAPutResponse_ok name :
  length name = SHA1_LEN →
  BuildWAPutResponse mem name =
    Done (chunk_header TYPE_WAPUTRESPONSE (Z.of_nat (11 + SHA1_LEN)) ++
          be 1 MAGIC_WAPUTRESPONSE ++ be 4 1 ++ name).
Proof.
  intros Hn. unfold BuildWAPutResponse, sizeof_WAPutResponse, sizeof_WAOnePutResponse.
  by build_chunk.
Qed.

Lemma BuildWAPeekResponse_ok name isHit :
  length name = SHA1_LEN →
  BuildWAPeekResponse mem name isHit =
    Done (chunk_header TYPE_WAPEEKRESPONSE (Z.of_nat (11 + (SHA1_LEN + 4))) ++
          be 1 MAGIC_WAPEEKRESPONSE ++ be 4 1 ++ name ++ be 1 isHit,
          Z.of_nat (11 + (SHA1_LEN + 4))).
Proof.
  intros Hn. unfold BuildWAPeekResponse, sizeof_WAPeekResponse, sizeof_WAOnePeekResponse,
    sizeof_WABodyResponse, sizeof_WAOneResponse.
  by build_chunk.
Qed.
End chunk_builders.

(** ** The name tree *)

Section name_tree.
Context `{Digest} (mem : nat → Z).

(** The bytes of a candidate. *)
Definition encode_candidate (psrc : list Z) (c : OneCandidate) : list Z :=
  ca_sha1name c ++ be 4 (ca_length c) ++ be 1 (if has_content c then 1 else 0) ++
  (if has_content c then slice psrc (Z.to_nat (ca_offset c)) (Z.to_nat (ca_length c)) else []).

(** The candidates [psrc] is cut into, with the names the array [pNames] has. *)
Record candidate_in (psrc : list Z) (pNames : list OneChunkName) (c : OneCandidate) : Prop := {
  ci_offset : 0 ≤ ca_offset c;
  ci_length : 0 < ca_length c < 2 ^ 31;
  ci_end : ca_offset c + ca_length c ≤ Z.of_nat (length psrc);
  ci_name : length (ca_sha1name c) = SHA1_LEN;
  ci_index : ∃ n, get_at pNames (ca_index c) = Done n ∧ cn_sha1name n = ca_sha1name c
}.

Lemma length_encode psrc names c :
  candidate_in psrc names c →
  Z.of_nat (length (encode_candidate psrc c)) =
    Z.of_nat sizeof_WAOneChunk + (if has_content c then ca_length c else 0).
Proof.
  intros []. unfold encode_candidate, sizeof_WAOneChunk. rewrite !length_app, !length_be, ci_name0.
  destruct (has_content c); [rewrite length_slice by lia|cbn]; lia.
Qed.

Lemma deliver_ok psrc pNames p r off walk :
  candidate_in psrc pNames walk → off = ca_offset walk →
  (length (encode_candidate psrc walk) ≤ length r)%nat →
  deliver_candidate psrc pNames (p ++ r, length p, off) walk =
    Done ((p ++ encode_candidate psrc walk) ++ drop (length (encode_candidate psrc walk)) r,
          (length p + length (encode_candidate psrc walk))%nat, off + ca_length walk).
Proof.
  intros Hin -> Hr. pose proof (length_encode _ _ _ Hin) as Hlen. destruct Hin.
  destruct ci_index0 as (n & Hn & Hname).
  unfold deliver_candidate. rewrite Z.eqb_refl, Hn. cbn [c_assert mbind outcome_bind]. rewrite Hname.
  unfold sizeof_WAOneChunk in *. set (name := ca_sha1name walk) in *.
  rewrite copy_name_app by (done || destruct (has_content walk); lia).
  cbn [mbind outcome_bind].
  rewrite store_app by (rewrite ?length_app, ?length_drop, ?length_be; destruct (has_content walk); lia).
  cbn [mbind outcome_bind].
  rewrite store_app by (rewrite ?length_app, ?length_drop, ?length_be; destruct (has_content walk); lia).
  cbn [mbind outcome_bind]. rewrite !length_be. unfold encode_candidate in *. fold name in Hr, Hlen |- *.
  destruct (has_content walk) eqn:Ehc.
  - set (content := slice psrc _ _) in *.
    assert (length content = Z.to_nat (ca_length walk)) as Hcl by (apply length_slice; lia).
    rewrite load_Done by lia. cbn [mbind outcome_bind]. fold content.
    rewrite store_app by (rewrite ?length_app, ?length_drop, ?length_be; lia).
    cbn [mbind outcome_bind]. rewrite <-!app_assoc.
    rewrite (app_assoc name (be 4 _)), (app_assoc p).
    rewrite store_mid by (rewrite ?length_app, ?length_be; lia). cbn [mbind outcome_bind].
    rewrite !drop_drop, <-!app_assoc, !length_app, !length_be, ci_name0, Hcl.
    do 3 f_equal. lia.
  - assert (ca_isHit walk = true) as ->.
    { unfold has_content in Ehc. apply orb_false_iff in Ehc as [E _]. by destruct (ca_isHit walk). }
    rewrite !drop_drop, <-!app_assoc, !length_app, !length_be, ci_name0. cbn [app length].
    do 3 f_equal.
Qed.

Lemma deliver_all psrc pNames cs : ∀ p r a b,
  consecutive a cs b → Forall (candidate_in psrc pNames) cs →
  (length (concat (encode_candidate psrc <$> cs)) ≤ length r)%nat →
  foldM (deliver_candidate psrc pNames) (p ++ r, length p, a) cs =
    Done ((p ++ concat (encode_candidate psrc <$> cs)) ++
            drop (length (concat (encode_candidate psrc <$> cs))) r,
          (length p + length (concat (encode_candidate psrc <$> cs)))%nat, b).
Proof.
  induction cs as [|c cs IH]; intros p r a b Hc Hin Hr.
  - cbn in *. subst. by rewrite app_nil_r, drop_0, Nat.add_0_r.
  - cbn [consecutive] in Hc. destruct Hc as (Ho & Hl & Hc).
    apply Forall_cons_1 in Hin as [Hi Hin].
    cbn [fmap list_fmap concat] in Hr |- *. rewrite length_app in Hr.
    cbn [foldM]. rewrite deliver_ok by (done || lia). cbn [mbind outcome_bind].
    rewrite <-length_app.
    rewrite (IH _ _ _ b) by (done || rewrite length_drop; lia).
    rewrite drop_drop, !length_app, <-!app_assoc. do 3 f_equal. lia.
Qed.

Lemma GetCandidateMessageLength_ok psrc pNames cs a b :
  consecutive a cs b → a = 0 → Forall (candidate_in psrc pNames) cs →
  GetCandidateMessageLength cs =
    Done (Z.of_nat (length (concat (encode_candidate psrc <$> cs))), length cs).
Proof.
  intros Hc Ha Hin. unfold GetCandidateMessageLength.
  assert (∀ a acc k, consecutive a cs b → foldM (λ '(offset, newmsg_len, items) walk,
        _ ← c_assert (offset =? ca_offset walk);
        let newmsg_len := newmsg_len + Z.of_nat sizeof_WAOneChunk in
        let newmsg_len := if has_content walk then newmsg_len + ca_length walk
                          else newmsg_len in
        Done (offset + ca_length walk, newmsg_len, S items)) (a, acc, k) cs =
    Done (b, acc + Z.of_nat (length (concat (encode_candidate psrc <$> cs))), (k + length cs)%nat))
    as Hgen.
  { clear Hc Ha a. induction Hin as [|c cs Hi Hin IH]; intros a acc k Hc; cbn [consecutive] in Hc.
    { subst. cbn. by rewrite Z.add_0_r, Nat.add_0_r. }
    destruct Hc as (Ho & Hl & Hc). cbn [foldM]. rewrite Ho, Z.eqb_refl. cbn [c_assert mbind outcome_bind].
    rewrite IH by done. pose proof (length_encode _ _ _ Hi) as He.
    cbn [fmap list_fmap concat length]. rewrite length_app, Nat.add_succ_r.
    do 3 f_equal. destruct (has_content c); lia. }
  rewrite Hgen by congruence. done.
Qed.

(** The message for a list of candidates. *)
Definition name_delivery (c : ConnectionID) (psrc : list Z) (cs : list OneCandidate) : list Z :=
  let body := concat (encode_candidate psrc <$> cs) in
  control_header c TYPE_WANAMEDELIVERY (Z.of_nat (28 + length body)) ++
  be 1 MAGIC_WANAMEDELIVERY ++ be 4 1 ++ be 1 1 ++ be 4 (Z.of_nat (length cs)) ++ body.

(** The first stores of [BuildWANameTreeDelivery3]. *)
Lemma tree_prefix n k (b := malloc mem (28 + n)) :
  (b ← store b 18 (be 1 MAGIC_WANAMEDELIVERY);
   b ← store b 19 (be 4 1);
   b ← store b (23 + 1) (be 4 k);
   store b 23 (be 1 1)) =
  Done ((take 18 b ++ be 1 MAGIC_WANAMEDELIVERY ++ be 4 1 ++ be 1 1 ++ be 4 k) ++ drop 28 b).
Proof.
  assert (length b = 28 + n)%nat as Hlen by apply length_malloc.
  rewrite <-(take_drop 18 b) at 1.
  rewrite store_app by (rewrite ?length_take, ?length_drop, ?length_be; lia). cbn [mbind outcome_bind].
  rewrite store_app by (rewrite ?length_app, ?length_take, ?length_drop, ?length_be; lia).
  cbn [mbind outcome_bind]. rewrite !drop_drop, !length_be.
  rewrite <-(take_drop 1 (drop _ b)), !drop_drop, (app_assoc _ (take 1 _)).
  rewrite store_app by (rewrite ?length_app, ?length_take, ?length_drop, ?length_be; lia).
  cbn [mbind outcome_bind]. rewrite drop_drop, length_be, <-!app_assoc.
  rewrite (app_assoc _ (be 4 1)), (app_assoc (take 18 b)).
  rewrite store_mid by (rewrite ?length_app, ?length_take, ?length_drop, ?length_be; lia).
  rewrite <-!app_assoc. done.
Qed.

Lemma BuildWANameTreeDelivery3_ok c psrc pNames cs b :
  conn_ok c → consecutive 0 cs b → Forall (candidate_in psrc pNames) cs →
  BuildWANameTreeDelivery3 mem (srcIP c) (srcPort c) (dstIP c) (dstPort c) psrc pNames cs
    (length cs) (Z.of_nat (length (concat (encode_candidate psrc <$> cs)))) =
    Done (name_delivery c psrc cs).
Proof.
  intros Hc Hcons Hin. unfold BuildWANameTreeDelivery3, sizeof_WANameDelivery, sizeof_WAOneTree.
  rewrite Nat2Z.id. change (23 + 5)%nat with 28%nat. set (body := concat _).
  pose proof (tree_prefix (length body) (Z.of_nat (length cs))) as Hp. cbn zeta in Hp.
  set (m := malloc mem _) in *.
  destruct (store m 18 _) as [m1|] eqn:E1; [|done]; cbn [mbind outcome_bind] in Hp |- *.
  destruct (store m1 19 _) as [m2|] eqn:E2; [|done]; cbn [mbind outcome_bind] in Hp |- *.
  destruct (store m2 _ _) as [m3|] eqn:E3; [|done]; cbn [mbind outcome_bind] in Hp |- *.
  rewrite Hp. cbn [mbind outcome_bind]. set (p := take 18 m ++ _).
  assert (length m = 28 + length body)%nat as Hm by apply length_malloc.
  assert (length p = 28)%nat as Hlp.
  { unfold p. rewrite !length_app, !length_be, length_take. lia. }
  rewrite <-Hlp at 1. rewrite (deliver_all psrc pNames cs p _ 0 b) by
    (done || rewrite length_drop; fold body; lia). fold body.
  cbn [mbind outcome_bind]. rewrite drop_drop, (drop_ge m) by lia. rewrite app_nil_r, Hlp.
  rewrite FillControlHeader_ok by (done || rewrite length_app; lia). cbn [mbind outcome_bind].
  rewrite take_ge by (rewrite length_app, length_drop, length_control_header, length_app; lia).
  unfold name_delivery. fold body. unfold p. rewrite <-!app_assoc.
  rewrite drop_app_length' by (rewrite length_take; lia). done.
Qed.

(** ** Reading a name tree *)

(** What the receiver sees of a candidate. *)
Definition chunk_of (psrc : list Z) (c : OneCandidate) : WAOneChunk :=
  {| wc_sha1name := ca_sha1name c; wc_length := ca_length c;
     wc_content := if has_content c
       then Some (slice psrc (Z.to_nat (ca_offset c)) (Z.to_nat (ca_length c))) else None |}.

Lemma read_chunk_ok psrc pNames c p r :
  candidate_in psrc pNames c →
  read_chunk (p ++ encode_candidate psrc c ++ r) (length p) =
    Done (chunk_of psrc c, (length p + length (encode_candidate psrc c))%nat).
Proof.
  intros Hin. pose proof (length_encode _ _ _ Hin) as Hlen. destruct Hin.
  unfold read_chunk, chunk_of, sizeof_WAOneChunk in *. unfold encode_candidate in *.
  set (name := ca_sha1name c) in *. rewrite <-!app_assoc.
  rewrite load_mid by done. cbn [mbind outcome_bind]. rewrite (app_assoc p).
  rewrite (ntohl_mid _ _ _ _ (ca_length c)) by (done || lia || rewrite length_app; lia).
  cbn [mbind outcome_bind]. rewrite i32_id by lia. rewrite (app_assoc (p ++ name)).
  rewrite (load_u8_mid _ _ _ _ (if has_content c then 1 else 0))
    by (done || (rewrite !length_app, length_be; lia) || destruct (has_content c); lia).
  cbn [mbind outcome_bind]. destruct (has_content c).
  - change (1 =? 1) with true. cbn iota. set (content := slice psrc _ _) in *.
    assert (length content = Z.to_nat (ca_length c)) as Hcl by (apply length_slice; lia).
    rewrite (app_assoc _ (be 1 1)).
    rewrite load_mid by (rewrite ?length_app, ?length_be; lia). cbn [mbind outcome_bind].
    do 2 f_equal. rewrite !length_app, !length_be. lia.
  - change (0 =? 1) with false. cbn iota. do 2 f_equal. rewrite !length_app, !length_be. cbn. lia.
Qed.

Lemma read_names_ok {S} (f : S → WAOneChunk → outcome S) psrc pNames cs : ∀ s p r,
  Forall (candidate_in psrc pNames) cs →
  read_names f s (p ++ concat (encode_candidate psrc <$> cs) ++ r) (length p) (length cs) =
    (s' ← foldM f s (chunk_of psrc <$> cs);
     Done (s', (length p + length (concat (encode_candidate psrc <$> cs)))%nat)).
Proof.
  unfold read_names. generalize 0%nat as i. induction cs as [|c cs IH]; intros i s p r Hin.
  { cbn. by rewrite Nat.add_0_r. }
  apply Forall_cons_1 in Hin as [Hi Hin]. cbn [fmap list_fmap concat length seq foldM].
  rewrite <-(app_assoc (encode_candidate _ _)), (read_chunk_ok _ _ _ _ _ Hi). cbn [mbind outcome_bind].
  destruct (f s (chunk_of psrc c)) as [s1|]; cbn [mbind outcome_bind]; [|done].
  rewrite (app_assoc p). rewrite <-length_app, (IH (Datatypes.S i) s1 _ r Hin).
  destruct (foldM f s1 _); cbn [mbind outcome_bind]; [|done].
  rewrite !length_app. do 2 f_equal. lia.
Qed.

Lemma read_connID_ok c type len r :
  conn_ok c → read_connID (control_header c type len ++ r) = Done c.
Proof.
  intros (H1 & H2 & H3 & H4). unfold read_connID, control_header. rewrite <-!app_assoc.
  rewrite (app_assoc (be 1 _)), (app_assoc (be 1 _ ++ _)).
  rewrite (ntohl_mid _ _ _ 6%nat (srcIP c)) by (done || lia). cbn [mbind outcome_bind].
  rewrite (app_assoc _ (be 4 (srcIP c))).
  rewrite (ntohs_mid _ _ _ 10%nat (srcPort c)) by (done || lia). cbn [mbind outcome_bind].
  rewrite (app_assoc _ (be 2 (srcPort c))).
  rewrite (ntohl_mid _ _ _ 12%nat (dstIP c)) by (done || lia). cbn [mbind outcome_bind].
  rewrite (app_assoc _ (be 4 (dstIP c))).
  rewrite (ntohs_mid _ _ _ 16%nat (dstPort c)) by (done || lia). cbn [mbind outcome_bind].
  by destruct c.
Qed.

Lemma header_length c type len r :
  0 ≤ len < 2 ^ 32 → ntohl_at (control_header c type len ++ r) 2 = Done len.
Proof.
  intros Hl. unfold control_header. rewrite <-!app_assoc, (app_assoc (be 1 _)).
  by rewrite (ntohl_mid _ _ _ _ len) by (done || lia).
Qed.

Lemma read_name_delivery_ok {S} (f : S → WAOneChunk → outcome S) s c psrc pNames cs :
  conn_ok c → Forall (candidate_in psrc pNames) cs →
  28 + Z.of_nat (length (concat (encode_candidate psrc <$> cs))) < 2 ^ 31 →
  read_name_delivery f s (name_delivery c psrc cs) =
    (s' ← foldM f s (chunk_of psrc <$> cs);
     Done (c, s', Z.of_nat (length (name_delivery c psrc cs)))).
Proof.
  intros Hc Hin Hlen. pose proof Hc as (H1 & H2 & H3 & H4).
  set (body := concat (encode_candidate psrc <$> cs)) in *.
  assert (length (name_delivery c psrc cs) = 28 + length body)%nat as Htot.
  { unfold name_delivery. rewrite !length_app, length_control_header, !length_be. done. }
  assert (length cs ≤ length body)%nat as Hn.
  { unfold body. clear -Hin. induction Hin as [|x l Hx _ IH]; [done|].
    cbn [fmap list_fmap concat length]. rewrite length_app.
    pose proof (length_encode _ _ _ Hx) as He. unfold sizeof_WAOneChunk in He.
    destruct Hx. destruct (has_content x); lia. }
  set (hdr := control_header c TYPE_WANAMEDELIVERY (Z.of_nat (28 + length body))).
  assert (length hdr = 18)%nat as Hh by apply length_control_header.
  assert (name_delivery c psrc cs = hdr ++ be 1 MAGIC_WANAMEDELIVERY ++ be 4 1 ++ be 1 1 ++
    be 4 (Z.of_nat (length cs)) ++ body) as Hm by done.
  set (msg := name_delivery c psrc cs) in *.
  assert (ntohl_at msg 2 = Done (Z.of_nat (28 + length body))) as Hlen2.
  { rewrite Hm. apply header_length. lia. }
  assert (ntohl_at msg 19 = Done 1) as Htrees.
  { rewrite Hm, (app_assoc hdr). apply ntohl_mid; [done|rewrite length_app, Hh; done|lia]. }
  assert (ntohl_at msg 24 = Done (Z.of_nat (length cs))) as Hnames.
  { rewrite Hm, (app_assoc hdr), (app_assoc (hdr ++ _)), (app_assoc ((hdr ++ _) ++ _)).
    apply ntohl_mid; [done|rewrite !length_app, !length_be, Hh; done|lia]. }
  assert (read_connID msg = Done c) as Hcid by (rewrite Hm; by apply read_connID_ok).
  unfold read_name_delivery. rewrite Htot, Hlen2, Htrees. cbn [mbind outcome_bind].
  rewrite (proj2 (Z.leb_le _ _)) by lia.
  change (i32 1 =? 1) with true. cbn [c_assert mbind outcome_bind].
  rewrite Hcid. cbn [mbind outcome_bind]. rewrite !(proj2 (Z.eqb_neq _ 0)) by lia.
  cbn [negb andb c_assert mbind outcome_bind].
  change (sizeof_WANameDelivery + 1)%nat with 24%nat. rewrite Hnames. cbn [mbind outcome_bind].
  rewrite i32_id, Nat2Z.id by lia. change (sizeof_WANameDelivery + sizeof_WAOneTree)%nat with 28%nat.
  rewrite Hm, (app_assoc hdr), (app_assoc (hdr ++ _)), (app_assoc ((hdr ++ _) ++ _)).
  rewrite (app_assoc (((hdr ++ _) ++ _) ++ _)). set (p := (((hdr ++ _) ++ _) ++ _) ++ _).
  assert (length p = 28)%nat as Hp by (unfold p; rewrite !length_app, Hh, !length_be; done).
  rewrite <-(app_nil_r body). rewrite <-Hp at 1. unfold body at 1.
  rewrite (read_names_ok f psrc pNames cs) by done. fold body.
  destruct (foldM f s _) as [s'|]; cbn [mbind outcome_bind]; [|done].
  by rewrite Hp, app_nil_r, Z.eqb_refl.
Qed.
End name_tree.

(** ** Framing *)

(** The receiver waits until the message is whole, then recognises it whatever
    follows. *)
Definition framed (verify : list Z → outcome (Z * option Z)) (t : Z) (msg : list Z) : Prop :=
  (∀ n, (n < length msg)%nat → verify (take n msg) = Done (0, None)) ∧
  (∀ rest, verify (msg ++ rest) = Done (1, Some t)).

Lemma verify_header_len size types b len t r :
  b = be 1 MAGIC_WAHEADER ++ be 1 t ++ be 4 len ++ r → (size ≤ length b)%nat →
  0 ≤ len < 2 ^ 32 → 0 ≤ t < 256 →
  verify_header size types b =
    if Z.of_nat (length b) <? len then Done (0, None)
    else if decide (t ∈ types) then Done (1, Some t) else Done (-1, None).
Proof.
  intros Hb Hs Hl Ht. unfold verify_header. rewrite (proj2 (Nat.ltb_ge _ _)) by lia.
  assert (load_u8 b 0 = Done MAGIC_WAHEADER) as ->.
  { rewrite Hb. by apply (load_u8_mid []). }
  assert (ntohl_at b 2 = Done len) as Hlen.
  { rewrite Hb, (app_assoc (be 1 _)). by apply ntohl_mid. }
  assert (load_u8 b 1 = Done t) as Hty.
  { rewrite Hb. by apply load_u8_mid. }
  cbn [mbind outcome_bind]. rewrite Z.eqb_refl. cbn [negb]. rewrite Hlen. cbn [mbind outcome_bind].
  destruct (_ <? _); [done|]. rewrite Hty. done.
Qed.

Lemma framed_header size types t msg r :
  msg = be 1 MAGIC_WAHEADER ++ be 1 t ++ be 4 (Z.of_nat (length msg)) ++ r →
  (6 ≤ size ≤ length msg)%nat → Z.of_nat (length msg) < 2 ^ 32 → t ∈ types → 0 ≤ t < 256 →
  framed (verify_header size types) t msg.
Proof.
  intros Hm Hs Hl Ht Hr. split.
  - intros n Hn. destruct (decide (n < size)%nat) as [Hlt|Hge].
    + unfold verify_header. rewrite length_take, (proj2 (Nat.ltb_lt _ _)) by lia. done.
    + rewrite (verify_header_len size types _ (Z.of_nat (length msg)) t (take (n - 6) r));
        [|rewrite Hm at 1|rewrite length_take; lia|lia|done].
      * rewrite length_take, (proj2 (Z.ltb_lt _ _)) by lia. done.
      * rewrite !take_app, !length_be.
        rewrite (take_ge (be 1 _)), (take_ge (be 1 t)), (take_ge (be 4 _)) by (rewrite length_be; lia).
        do 4 f_equal. lia.
  - intros rest.
    rewrite (verify_header_len size types _ (Z.of_nat (length msg)) t (r ++ rest));
      [|rewrite Hm at 1; by rewrite <-!app_assoc|rewrite length_app; lia|lia|done].
    rewrite length_app, (proj2 (Z.ltb_ge _ _)) by lia. by rewrite decide_True.
Qed.

Lemma framed_control c t len body :
  Z.of_nat (18 + length body) = len → len < 2 ^ 32 →
  t ∈ [TYPE_WAOPENCONNECTION; TYPE_WANAMEDELIVERY; TYPE_WACLOSECONNECTION; TYPE_WANAMEACK;
     TYPE_WARAWMESSAGE] →
  framed VerifyControlHeader t (control_header c t len ++ body).
Proof.
  intros Hlen Hl Ht. assert (0 ≤ t < 256).
  { repeat (apply elem_of_cons in Ht as [->|Ht]; [done|]). by apply elem_of_nil in Ht. }
  assert (length (control_header c t len ++ body) = 18 + length body)%nat as Hm
    by (by rewrite length_app, length_control_header).
  eapply framed_header; [|rewrite Hm; unfold sizeof_WAControlHeader; lia|lia|done|done].
  rewrite Hm, Hlen. unfold control_header. rewrite <-!app_assoc. reflexivity.
Qed.

Lemma framed_chunk t len body :
  Z.of_nat (6 + length body) = len → len < 2 ^ 32 →
  t ∈ [TYPE_WABODYREQUEST; TYPE_WABODYRESPONSE; TYPE_WAPEEKREQUEST; TYPE_WAPEEKRESPONSE;
     TYPE_WAPUTREQUEST; TYPE_WAPUTRESPONSE] →
  framed VerifyChunkHeader t (chunk_header t len ++ body).
Proof.
  intros Hlen Hl Ht. assert (0 ≤ t < 256).
  { repeat (apply elem_of_cons in Ht as [->|Ht]; [done|]). by apply elem_of_nil in Ht. }
  assert (length (chunk_header t len ++ body) = 6 + length body)%nat as Hm
    by (by rewrite length_app, length_chunk_header).
  eapply framed_header; [|rewrite Hm; unfold sizeof_WAChunkHeader; lia|lia|done|done].
  rewrite Hm, Hlen. unfold chunk_header. rewrite <-!app_assoc. reflexivity.
Qed.

(** ** Merging *)

Lemma merge_two_ok mem count h mid1 mid2 n1 n2 body1 body2 len
    (msg1 := h ++ be 4 len ++ mid1 ++ be 4 n1 ++ body1)
    (msg2 := h ++ be 4 len ++ mid2 ++ be 4 n2 ++ body2) :
  length h = 2%nat → length mid1 = length mid2 → count = (6 + length mid1)%nat →
  Z.of_nat (length msg1) = len → Z.of_nat (length msg2) = len → 0 ≤ len < 2 ^ 32 →
  1 ≤ n1 < 2 ^ 32 → 1 ≤ n2 < 2 ^ 32 → body2 ≠ [] →
  merge_two mem count (count + 4) msg1 msg2 =
    Done (h ++ be 4 (len + Z.of_nat (length body2)) ++ mid1 ++ be 4 (n1 + n2) ++ body1 ++ body2,
          Z.of_nat (length body2)).
Proof.
  intros Hh Hmid Hcount Hl1 Hl2 Hl Hn1 Hn2 Hb.
  assert (0 < length body2)%nat by (destruct body2; [done|cbn; lia]).
  assert (length msg2 = count + 4 + length body2)%nat as Hm2.
  { unfold msg2. rewrite !length_app, !length_be. lia. }
  unfold merge_two, IsSameMessageType, sizeof_WAChunkHeader.
  assert (ntohl_at msg1 2 = Done len) as -> by (by apply ntohl_mid).
  assert (ntohl_at msg2 2 = Done len) as -> by (by apply ntohl_mid).
  cbn [mbind outcome_bind]. rewrite Hl1, Hl2, Z.eqb_refl. cbn [c_assert mbind outcome_bind].
  assert (load msg1 0 6 = Done (h ++ be 4 len)) as ->.
  { unfold msg1. rewrite (app_assoc h). apply (load_mid []); [done|by rewrite length_app, Hh]. }
  assert (load msg2 0 6 = Done (h ++ be 4 len)) as ->.
  { unfold msg2. rewrite (app_assoc h). apply (load_mid []); [done|by rewrite length_app, Hh]. }
  cbn [mbind outcome_bind]. rewrite bool_decide_true by done.
  assert (ntohl_at msg1 count = Done n1) as ->.
  { unfold msg1. rewrite (app_assoc h), (app_assoc (h ++ _)).
    apply ntohl_mid; [done|rewrite !length_app, length_be; lia|lia]. }
  assert (ntohl_at msg2 count = Done n2) as ->.
  { unfold msg2. rewrite (app_assoc h), (app_assoc (h ++ _)).
    apply ntohl_mid; [done|rewrite !length_app, length_be; lia|lia]. }
  cbn [mbind outcome_bind]. rewrite !(proj2 (Z.leb_le 1 _)) by lia. cbn [c_assert mbind outcome_bind].
  rewrite (proj2 (Nat.ltb_lt _ _)) by lia. cbn [c_assert mbind outcome_bind].
  replace (length msg2 - (count + 4))%nat with (length body2) by lia.
  assert (load msg2 (count + 4) (length body2) = Done body2) as ->.
  { unfold msg2. rewrite <-(app_nil_r body2) at 1.
    rewrite (app_assoc h), (app_assoc (h ++ _)), (app_assoc ((h ++ _) ++ _)).
    apply load_mid; [rewrite !length_app, !length_be; lia|done]. }
  cbn [mbind outcome_bind]. rewrite store_app by (rewrite ?length_malloc; lia).
  cbn [mbind outcome_bind]. rewrite drop_ge by (rewrite length_malloc; lia). rewrite app_nil_r.
  assert (msg1 ++ body2 = ((h ++ be 4 len) ++ mid1) ++ be 4 n1 ++ body1 ++ body2) as ->.
  { unfold msg1. by rewrite <-!app_assoc. }
  rewrite store_mid by (rewrite ?length_app, ?length_be; lia). cbn [mbind outcome_bind].
  rewrite <-!app_assoc, store_mid by (rewrite ?length_be; lia). cbn [mbind outcome_bind].
  do 5 f_equal. lia.
Qed.

Lemma merge_two_other mem count size msg1 msg2 :
  take 6 msg1 ≠ take 6 msg2 →
  ntohl_at msg1 2 = Done (Z.of_nat (length msg1)) →
  ntohl_at msg2 2 = Done (Z.of_nat (length msg2)) →
  merge_two mem count size msg1 msg2 = Done (msg1, 0).
Proof.
  intros Hne H1 H2. unfold merge_two, IsSameMessageType, sizeof_WAChunkHeader.
  assert (∀ m v, ntohl_at m 2 = Done v → 6 ≤ length m)%nat as Hlen.
  { intros m v. unfold ntohl_at, load. destruct (Nat.leb_spec (2 + 4) (length m)); [done|done]. }
  pose proof (Hlen _ _ H1). pose proof (Hlen _ _ H2).
  rewrite H1, H2. cbn [mbind outcome_bind]. rewrite !Z.eqb_refl. cbn [c_assert mbind outcome_bind].
  rewrite (load_Done msg1 0 6), (load_Done msg2 0 6) by lia. cbn [mbind outcome_bind].
  unfold slice. rewrite !drop_0.
  by rewrite bool_decide_false.
Qed.

(** ** The theorems *)

(** C8: every message of the control flow starts with a header that names its
    connection, carries its fields in network order after it, and is framed:
    [VerifyControlHeader] waits for the whole message and then recognises it. *)
Theorem control_messages (mem : nat → Z) (c : ConnectionID) (ack bytesTX : Z)
    (message : list Z) :
  conn_ok c → message ≠ [] → Z.of_nat (23 + length message) < 2 ^ 32 →
  ∃ m1 m2 m3 m4,
    BuildWAOpenConnection mem (srcIP c) (srcPort c) (dstIP c) (dstPort c) = Done m1 ∧
    BuildWANameAck mem (srcIP c) (srcPort c) (dstIP c) (dstPort c) ack = Done m2 ∧
    BuildWACloseConnection mem (srcIP c) (srcPort c) (dstIP c) (dstPort c) bytesTX = Done m3 ∧
    BuildWARawMessage mem (srcIP c) (srcPort c) (dstIP c) (dstPort c) message = Done m4 ∧
    framed VerifyControlHeader TYPE_WAOPENCONNECTION m1 ∧ read_connID m1 = Done c ∧
    framed VerifyControlHeader TYPE_WANAMEACK m2 ∧ read_connID m2 = Done c ∧
    ntohl_at m2 19 = Done (u32 ack) ∧
    framed VerifyControlHeader TYPE_WACLOSECONNECTION m3 ∧ read_connID m3 = Done c ∧
    ntohl_at m3 19 = Done (u32 bytesTX) ∧
    framed VerifyControlHeader TYPE_WARAWMESSAGE m4 ∧ read_connID m4 = Done c ∧
    ntohl_at m4 19 = Done (Z.of_nat (length message)) ∧
    drop sizeof_WARawMessage m4 = message.
Proof.
  intros Hc Hm Hl. do 4 eexists. split; [by apply BuildWAOpenConnection_ok|].
  split; [by apply BuildWANameAck_ok|]. split; [by apply BuildWACloseConnection_ok|].
  split; [by apply BuildWARawMessage_ok|].
  pose proof (λ t, length_control_header c t) as Hlen.
  split_and!; try (by apply read_connID_ok);
    try (apply framed_control; [rewrite ?length_app, ?length_be; cbn; lia|cbn; lia|]; set_solver);
    rewrite (app_assoc (control_header _ _ _)).
  - apply ntohl_wrap. by rewrite length_app, Hlen.
  - apply ntohl_wrap. by rewrite length_app, Hlen.
  - apply ntohl_mid; [done|by rewrite length_app, Hlen|lia].
  - rewrite (app_assoc (_ ++ _)). apply drop_app_length'.
    by rewrite !length_app, Hlen, !length_be.
Qed.

Lemma control_messages_witness :
  ∃ m1 m2 m3 m4,
    BuildWAOpenConnection (λ _, 7) 1 2 3 4 = Done m1 ∧
    BuildWANameAck (λ _, 7) 1 2 3 4 99 = Done m2 ∧
    BuildWACloseConnection (λ _, 7) 1 2 3 4 5 = Done m3 ∧
    BuildWARawMessage (λ _, 7) 1 2 3 4 [8; 9] = Done m4 ∧
    framed VerifyControlHeader TYPE_WARAWMESSAGE m4.
Proof.
  destruct (control_messages (λ _, 7) {| srcIP := 1; srcPort := 2; dstIP := 3; dstPort := 4 |}
    99 5 [8; 9]) as (m1 & m2 & m3 & m4 & H1 & H2 & H3 & H4 & K).
  - unfold conn_ok. cbn. lia.
  - discriminate.
  - cbn. lia.
  - exists m1, m2, m3, m4. split_and!; [exact H1|exact H2|exact H3|exact H4|apply K].
Defined.

(** Every message of the chunk flow but one is framed by its header:
    [VerifyChunkHeader] waits for the whole message and then recognises it, and
    the name, the length and the block are where the receiver reads them. *)
Theorem chunk_messages `{Digest} (mem : nat → Z) (addr name block : list Z) (len : Z) :
  length addr = 4%nat → length name = SHA1_LEN → block ≠ [] →
  Z.of_nat (23 + SHA1_LEN + length block) < 2 ^ 32 →
  ∃ m1 m2 m3 m4 m5,
    BuildWABodyRequest mem addr name len = Done m1 ∧
    BuildWABodyResponse mem name block = Done m2 ∧
    BuildWAPeekRequest mem name = Done m3 ∧
    BuildWAPutRequest mem name block = Done m4 ∧
    BuildWAPutResponse mem name = Done m5 ∧
    framed VerifyChunkHeader TYPE_WABODYREQUEST m1 ∧
      drop sizeof_WABodyRequest m1 = addr ++ name ++ be 4 len ∧
    framed VerifyChunkHeader TYPE_WABODYRESPONSE m2 ∧
      drop sizeof_WABodyResponse m2 = name ++ be 4 (Z.of_nat (length block)) ++ block ∧
    framed VerifyChunkHeader TYPE_WAPEEKREQUEST m3 ∧ drop sizeof_WAPeekRequest m3 = name ∧
    framed VerifyChunkHeader TYPE_WAPUTREQUEST m4 ∧
      drop sizeof_WAPutRequest m4 = name ++ be 4 (Z.of_nat (length block)) ++ block ∧
    framed VerifyChunkHeader TYPE_WAPUTRESPONSE m5 ∧ drop sizeof_WAPutResponse m5 = name.
Proof.
  intros Ha Hn Hb Hl. do 5 eexists. split; [by apply BuildWABodyRequest_ok|].
  split; [by apply BuildWABodyResponse_ok|]. split; [by apply BuildWAPeekRequest_ok|].
  split; [by apply BuildWAPutRequest_ok|]. split; [by apply BuildWAPutResponse_ok|].
  split_and!; try (apply framed_chunk; [rewrite ?length_app, ?length_be; lia|lia|]; set_solver);
    rewrite (app_assoc (chunk_header _ _)), (app_assoc (_ ++ _));
    apply drop_app_length'; by rewrite !length_app, length_chunk_header, !length_be.
Qed.

Lemma chunk_messages_witness :
  let H := toy_digest in
  ∃ m1 m2 m3 m4 m5,
    BuildWABodyRequest (λ _, 7) [1; 2; 3; 4] [5; 6] 70000 = Done m1 ∧
    BuildWABodyResponse (λ _, 7) [5; 6] [8; 9] = Done m2 ∧
    BuildWAPeekRequest (λ _, 7) [5; 6] = Done m3 ∧
    BuildWAPutRequest (λ _, 7) [5; 6] [8; 9] = Done m4 ∧
    BuildWAPutResponse (λ _, 7) [5; 6] = Done m5 ∧
    drop sizeof_WABodyResponse m2 = [5; 6; 0; 0; 0; 2; 8; 9].
Proof.
  destruct (@chunk_messages toy_digest (λ _, 7) [1; 2; 3; 4] [5; 6] [8; 9] 70000)
    as (m1 & m2 & m3 & m4 & m5 & H1 & H2 & H3 & H4 & H5 & _ & _ & _ & K & _).
  - reflexivity.
  - reflexivity.
  - discriminate.
  - cbn. lia.
  - exists m1, m2, m3, m4, m5. exact (conj H1 (conj H2 (conj H3 (conj H4 (conj H5 K))))).
Defined.

(** The peek response is announced three bytes longer than it is: the
    receiver never accepts exactly the buffer that was allocated, so that the
    bytes sent run past the end of it. *)
Theorem peek_response_overrun `{Digest} (mem : nat → Z) (name : list Z) (isHit : Z) :
  length name = SHA1_LEN → Z.of_nat (15 + SHA1_LEN) < 2 ^ 32 →
  ∃ m len, BuildWAPeekResponse mem name isHit = Done (m, len) ∧
    len = Z.of_nat (length m + 3) ∧ VerifyChunkHeader m = Done (0, None).
Proof.
  intros Hn Hl. do 2 eexists. split; [by apply BuildWAPeekResponse_ok|].
  assert (∀ len, length (chunk_header TYPE_WAPEEKRESPONSE len ++
    be 1 MAGIC_WAPEEKRESPONSE ++ be 4 1 ++ name ++ be 1 isHit) = 12 + SHA1_LEN)%nat as Hlen.
  { intros len. rewrite !length_app, length_chunk_header, !length_be. lia. }
  split; [rewrite Hlen; lia|]. unfold VerifyChunkHeader, sizeof_WAChunkHeader.
  erewrite verify_header_len;
    [|unfold chunk_header; rewrite <-!app_assoc; reflexivity|rewrite Hlen; lia|lia|done].
  rewrite Hlen, (proj2 (Z.ltb_lt _ _)) by lia. done.
Qed.

Lemma peek_response_overrun_witness :
  let H := toy_digest in
  ∃ m len, BuildWAPeekResponse (λ _, 7) [5; 6] 1 = Done (m, len) ∧
    len = Z.of_nat (length m + 3) ∧ VerifyChunkHeader m = Done (0, None).
Proof. apply (@peek_response_overrun toy_digest (λ _, 7) [5; 6] 1); [reflexivity|cbn; lia]. Defined.

(** Merging two body requests of the same length gives the request that
    has the items of both, with the counter and the length of the whole; of
    different lengths, the first is left as it was. *)
Theorem merge_body_requests (mem : nat → Z) (n1 n2 : Z) (body1 body2 : list Z)
    (request : Z → list Z → list Z := λ n body,
       chunk_header TYPE_WABODYREQUEST (Z.of_nat (11 + length body)) ++
       be 1 MAGIC_WABODYREQUEST ++ be 4 n ++ body) :
  1 ≤ n1 < 2 ^ 32 → 1 ≤ n2 < 2 ^ 32 → body2 ≠ [] →
  Z.of_nat (11 + length body1) < 2 ^ 32 → Z.of_nat (11 + length body2) < 2 ^ 32 →
  MergeTwoBodyRequest mem (request n1 body1) (request n2 body2) =
    Done (if decide (length body1 = length body2)
          then (request (n1 + n2) (body1 ++ body2), Z.of_nat (length body2))
          else (request n1 body1, 0)).
Proof.
  intros Hn1 Hn2 Hb Hl1 Hl2. unfold request, MergeTwoBodyRequest, chunk_header.
  case_decide as E.
  - rewrite !E. change sizeof_WABodyRequest with (7 + 4)%nat. rewrite <-!app_assoc.
    rewrite !(app_assoc (be 1 MAGIC_WAHEADER) (be 1 TYPE_WABODYREQUEST)). set (h := be 1 _ ++ be 1 _).
    rewrite (merge_two_ok mem 7 h (be 1 MAGIC_WABODYREQUEST) (be 1 MAGIC_WABODYREQUEST) n1 n2);
      try done; rewrite ?length_app, ?length_be; try (cbn [length]; lia).
    + rewrite E. do 5 f_equal. lia.
    + change (length h) with 2%nat. lia.
  - assert (∀ l : nat, length (be 4 (Z.of_nat l)) = 4)%nat as H4 by (intros; apply length_be).
    apply merge_two_other.
    + rewrite <-!app_assoc, !(app_assoc (be 1 MAGIC_WAHEADER) (be 1 TYPE_WABODYREQUEST)).
      intros Ht. apply E.
      rewrite !(app_assoc (be 1 _ ++ be 1 _) (be 4 (Z.of_nat _))) in Ht.
      rewrite !take_app_length' in Ht by done. apply app_inv_head in Ht.
      apply (f_equal un_be) in Ht. rewrite !un_be_be in Ht by (cbn; lia). lia.
    + rewrite <-!app_assoc, (app_assoc (be 1 _) (be 1 _)).
      rewrite (ntohl_mid _ _ _ _ (Z.of_nat (11 + length body1))); [done|done|done|lia].
    + rewrite <-!app_assoc, (app_assoc (be 1 _) (be 1 _)).
      rewrite (ntohl_mid _ _ _ _ (Z.of_nat (11 + length body2))); [done|done|done|lia].
Qed.

Lemma merge_body_requests_witness :
  MergeTwoBodyRequest (λ _, 7)
    (chunk_header TYPE_WABODYREQUEST 13 ++ be 1 MAGIC_WABODYREQUEST ++ be 4 1 ++ [3; 4])
    (chunk_header TYPE_WABODYREQUEST 13 ++ be 1 MAGIC_WABODYREQUEST ++ be 4 1 ++ [5; 6]) =
  Done (chunk_header TYPE_WABODYREQUEST 15 ++ be 1 MAGIC_WABODYREQUEST ++ be 4 2 ++ [3; 4; 5; 6],
        2).
Proof.
  apply (merge_body_requests (λ _, 7) 1 1 [3; 4] [5; 6]); [lia|lia|discriminate|cbn; lia|cbn; lia].
Defined.
