(* ===== verification/ChunkCache.v ===== *)
(** * The chunk caches and the hint tables

    Models [src/waprox/chunkcache.c]: the hints about what the peer and the
    disk have (bounded, first in first out), the memory cache (bounded by its
    size, first in first out), the reference-counted temporary cache, the
    temporary disk cache, and the chunk buffers the sender keeps until they are
    acknowledged.  The hash tables are used through the interface [Table].
    A [sha1name] is the list of its [SHA1_LEN] bytes, so that the comparison of
    [chunk_keys_equal_fn] is equality. *)

From Stdlib Require Import ZArith Lia.
From stdpp Require Import base list option numbers gmap.
From S2P Require Import Prelude Bytes Rabin Mrc Hashtable.

(** ** Data *)

Record CacheKey := { ck_sha1name : list Z; ck_block_length : Z }.
Record CacheValue := { cv_pBlock : list Z; cv_block_length : Z; cv_ref_count : Z }.

Record ChunkBuffer := {
  cb_pMRC : list OneChunkName;
  cb_chunkList : list OneCandidate;
  cb_seq_no : Z;
  cb_length : Z;
  cb_lowLevel : Z
}.

Definition MAX_NAMES : Z := 1024 * 1024.

(** The hash of a name: the sum of its bytes, as an [int]. *)
Definition chunk_hash_from_key_fn (sha1name : list Z) : Z :=
  u32 (foldl (λ hash b, i32 (hash + b)) 0 sha1name).
Definition chunk_keys_equal_fn (key1 key2 : list Z) : bool := bool_decide (key1 = key2).

(** [chunkcache.c] creates its tables with [hashtable.c] and these functions. *)
#[export] Instance chunk_table V : Table (list Z) V (@hashtable (list Z) V) :=
  hashtable_Table chunk_hash_from_key_fn chunk_keys_equal_fn (λ k1 k2, bool_decide_eq_true _).

(** Sizes of the structures: [SHA1_LEN] bytes, an [unsigned int] and four
    pointers; a pointer and two [int]s. *)
Definition round_up (n m : nat) : nat := (n + (m - 1)) / m * m.
Definition sizeof_CacheKey `{Digest} : Z :=
  Z.of_nat (round_up (round_up SHA1_LEN 4 + 4) 8 + 32).
Definition sizeof_CacheValue : Z := 16.

Section cache.
Context `{Digest} {HT VT : Type} `{!Table (list Z) Z HT} `{!Table (list Z) CacheValue VT}.

(** The globals of the file; [helper_log] is what was sent to the disk helper. *)
Record cache := {
  send_hint_ht : HT;
  disk_hint_ht : HT;
  put_tmp_ht : VT;
  tmp_ht : VT;
  mem_ht : VT;
  g_CacheFifo : list CacheKey;
  g_NameFifo : list CacheKey;
  g_DiskFifo : list CacheKey;
  g_NumKeys : Z;
  g_CacheSize : Z;
  _maxCacheSize : Z;
  helper_log : list (list Z)
}.

Definition set_send (ht : HT) (fifo : list CacheKey) (c : cache) : cache :=
  {| send_hint_ht := ht; disk_hint_ht := disk_hint_ht c; put_tmp_ht := put_tmp_ht c;
     tmp_ht := tmp_ht c; mem_ht := mem_ht c; g_CacheFifo := g_CacheFifo c; g_NameFifo := fifo;
     g_DiskFifo := g_DiskFifo c; g_NumKeys := g_NumKeys c; g_CacheSize := g_CacheSize c;
     _maxCacheSize := _maxCacheSize c; helper_log := helper_log c |}.
Definition set_disk (ht : HT) (fifo : list CacheKey) (c : cache) : cache :=
  {| send_hint_ht := send_hint_ht c; disk_hint_ht := ht; put_tmp_ht := put_tmp_ht c;
     tmp_ht := tmp_ht c; mem_ht := mem_ht c; g_CacheFifo := g_CacheFifo c;
     g_NameFifo := g_NameFifo c; g_DiskFifo := fifo; g_NumKeys := g_NumKeys c;
     g_CacheSize := g_CacheSize c; _maxCacheSize := _maxCacheSize c;
     helper_log := helper_log c |}.
Definition set_put_tmp (ht : VT) (c : cache) : cache :=
  {| send_hint_ht := send_hint_ht c; disk_hint_ht := disk_hint_ht c; put_tmp_ht := ht;
     tmp_ht := tmp_ht c; mem_ht := mem_ht c; g_CacheFifo := g_CacheFifo c;
     g_NameFifo := g_NameFifo c; g_DiskFifo := g_DiskFifo c; g_NumKeys := g_NumKeys c;
     g_CacheSize := g_CacheSize c; _maxCacheSize := _maxCacheSize c;
     helper_log := helper_log c |}.
Definition set_tmp (ht : VT) (c : cache) : cache :=
  {| send_hint_ht := send_hint_ht c; disk_hint_ht := disk_hint_ht c; put_tmp_ht := put_tmp_ht c;
     tmp_ht := ht; mem_ht := mem_ht c; g_CacheFifo := g_CacheFifo c;
     g_NameFifo := g_NameFifo c; g_DiskFifo := g_DiskFifo c; g_NumKeys := g_NumKeys c;
     g_CacheSize := g_CacheSize c; _maxCacheSize := _maxCacheSize c;
     helper_log := helper_log c |}.
Definition set_mem (ht : VT) (fifo : list CacheKey) (keys size : Z) (c : cache) : cache :=
  {| send_hint_ht := send_hint_ht c; disk_hint_ht := disk_hint_ht c; put_tmp_ht := put_tmp_ht c;
     tmp_ht := tmp_ht c; mem_ht := ht; g_CacheFifo := fifo;
     g_NameFifo := g_NameFifo c; g_DiskFifo := g_DiskFifo c; g_NumKeys := keys;
     g_CacheSize := size; _maxCacheSize := _maxCacheSize c; helper_log := helper_log c |}.
Definition set_log (l : list (list Z)) (c : cache) : cache :=
  {| send_hint_ht := send_hint_ht c; disk_hint_ht := disk_hint_ht c; put_tmp_ht := put_tmp_ht c;
     tmp_ht := tmp_ht c; mem_ht := mem_ht c; g_CacheFifo := g_CacheFifo c;
     g_NameFifo := g_NameFifo c; g_DiskFifo := g_DiskFifo c; g_NumKeys := g_NumKeys c;
     g_CacheSize := g_CacheSize c; _maxCacheSize := _maxCacheSize c; helper_log := l |}.

(** [CreateCache], without the preloading of hints from a file. *)
Definition create_table {K V T} `{Table K V T} : outcome T :=
  match tbl_create 65536 with Some t => Done t | None => Fault NiceExit end.

Definition CreateCache (maxCacheSize : Z) : outcome cache :=
  h1 ← create_table;
  h2 ← create_table;
  t1 ← create_table;
  t2 ← create_table;
  t3 ← create_table;
  Done {| send_hint_ht := h1; disk_hint_ht := h2; put_tmp_ht := t1; tmp_ht := t2; mem_ht := t3;
          g_CacheFifo := []; g_NameFifo := []; g_DiskFifo := []; g_NumKeys := 0;
          g_CacheSize := 0; _maxCacheSize := maxCacheSize; helper_log := [] |}.

Definition NewKey (sha1name : list Z) (block_length : Z) : CacheKey :=
  {| ck_sha1name := sha1name; ck_block_length := block_length |}.

(** Returns the table and the key. *)
Definition _PutHT (ht : VT) (sha1name block_buffer : list Z) (block_length : Z)
    : outcome (VT * CacheKey) :=
  block ← load block_buffer 0 (Z.to_nat block_length);
  let value := {| cv_pBlock := block; cv_block_length := block_length; cv_ref_count := 1 |} in
  _ ← c_assert (bool_decide (tbl_search ht sha1name = None));
  Done (tbl_insert ht sha1name value, NewKey sha1name block_length).

Definition _RemoveHT (ht : VT) (sha1name : list Z) : outcome VT :=
  let '(ht, value) := tbl_remove ht sha1name in
  _ ← c_assert (match value with Some _ => true | None => false end);
  Done ht.

(** ** Hints *)

Definition GetSendHint (c : cache) (sha1name : list Z) : bool :=
  match tbl_search (send_hint_ht c) sha1name with Some _ => true | None => false end.
Definition GetDiskHint (c : cache) (sha1name : list Z) : bool :=
  match tbl_search (disk_hint_ht c) sha1name with Some _ => true | None => false end.

(** The two hint tables are handled by the same code. *)
Definition put_hint (ht : HT) (fifo : list CacheKey) (sha1name : list Z) (block_length : Z)
    : outcome (HT * list CacheKey) :=
  '(ht, fifo) ←
    (if MAX_NAMES <=? tbl_count ht then
       match fifo with
       | [] => Fault OutOfBounds
       | victim :: fifo' =>
           let '(ht, v_value) := tbl_remove ht (ck_sha1name victim) in
           _ ← c_assert (match v_value with Some _ => true | None => false end);
           Done (ht, fifo')
       end
     else Done (ht, fifo));
  let key := NewKey sha1name block_length in
  _ ← c_assert (bool_decide (tbl_search ht sha1name = None));
  Done (tbl_insert ht sha1name 0, fifo ++ [key]).

Definition PutSendHintNoDisk (c : cache) (sha1name : list Z) (block_length : Z) : outcome cache :=
  '(ht, fifo) ← put_hint (send_hint_ht c) (g_NameFifo c) sha1name block_length;
  Done (set_send ht fifo c).

Definition PutSendHint (g_GenerateNameHint : bool) (c : cache) (sha1name : list Z)
    (block_length : Z) : outcome cache :=
  c ← PutSendHintNoDisk c sha1name block_length;
  Done (if g_GenerateNameHint
        then set_log (helper_log c ++ [sha1name ++ le 4 block_length]) c else c).

Definition PutDiskHint (c : cache) (sha1name : list Z) (block_length : Z) : outcome cache :=
  '(ht, fifo) ← put_hint (disk_hint_ht c) (g_DiskFifo c) sha1name block_length;
  Done (set_disk ht fifo c).

(** ** Memory cache *)

Definition GetMemory (c : cache) (sha1name : list Z) : option CacheValue :=
  tbl_search (mem_ht c) sha1name.

(** The first loop of [CheckCache]: the victims, oldest first. *)
Fixpoint pick_victims (c : cache) (fifo : list CacheKey) (targetSize : Z)
    : outcome (list CacheKey) :=
  match fifo with
  | [] => Done []
  | walk :: fifo' =>
      if targetSize <=? 0 then Done []
      else
        match GetMemory c (ck_sha1name walk) with
        | None => Fault OutOfBounds
        | Some value =>
            rest ← pick_victims c fifo' (i32 (targetSize - cv_block_length value));
            Done (walk :: rest)
        end
  end.

(** [TAILQ_REMOVE] of the element with this name. *)
Fixpoint tailq_remove (sha1name : list Z) (fifo : list CacheKey) : list CacheKey :=
  match fifo with
  | [] => []
  | k :: fifo' => if decide (ck_sha1name k = sha1name) then fifo' else k :: tailq_remove sha1name fifo'
  end.

(** The body of the second loop. *)
Definition evict (c : cache) (walk : CacheKey) : outcome cache :=
  let fifo := tailq_remove (ck_sha1name walk) (g_CacheFifo c) in
  let keys := g_NumKeys c - 1 in
  _ ← c_assert (0 <=? keys);
  let size := i32 (g_CacheSize c - (sizeof_CacheKey + ck_block_length walk)) in
  _ ← c_assert (0 <=? size);
  ht ← _RemoveHT (mem_ht c) (ck_sha1name walk);
  Done (set_mem ht fifo keys size c).

(** [LIST_INSERT_HEAD] reverses the victims. *)
Definition CheckCache (c : cache) (neededSize : Z) : outcome cache :=
  if i32 (g_CacheSize c + neededSize) <=? _maxCacheSize c then Done c
  else
    let targetSize := i32 (neededSize * 2) in
    _ ← c_assert (0 <=? targetSize);
    victims ← pick_victims c (g_CacheFifo c) targetSize;
    foldM evict c (reverse victims).

Definition PutMemory (c : cache) (sha1name block_buffer : list Z) (block_length : Z)
    : outcome cache :=
  match GetMemory c sha1name with
  | Some _ => Done c
  | None =>
      let new_size := i32 (sizeof_CacheKey + sizeof_CacheValue + block_length) in
      c ← CheckCache c new_size;
      '(ht, key) ← _PutHT (mem_ht c) sha1name block_buffer block_length;
      Done (set_mem ht (g_CacheFifo c ++ [key]) (g_NumKeys c + 1)
              (i32 (g_CacheSize c + new_size)) c)
  end.

(** ** Temporary caches *)

Definition SearchCache (c : cache) (sha1name : list Z) : option CacheValue :=
  tbl_search (tmp_ht c) sha1name.

Definition set_ref_count (n : Z) (v : CacheValue) : CacheValue :=
  {| cv_pBlock := cv_pBlock v; cv_block_length := cv_block_length v; cv_ref_count := n |}.

(** [VerifySHA1] returns [TRUE]: integrity checks are compiled out. *)
Definition RefPutChunkCallback (c : cache) (sha1name buffer : list Z) (buf_len : Z)
    : outcome cache :=
  if buf_len =? 0 then Done c
  else
    match SearchCache c sha1name with
    | None =>
        _ ← c_assert (buf_len <=? MAX_CHUNK_SIZE);
        '(ht, _) ← _PutHT (tmp_ht c) sha1name buffer buf_len;
        Done (set_tmp ht c)
    | Some value =>
        _ ← c_assert (1 <=? cv_ref_count value);
        Done (set_tmp (tbl_modify (tmp_ht c) sha1name
                         (set_ref_count (i32 (cv_ref_count value + 1)))) c)
    end.

Definition RefFlushChunk (c : cache) (sha1name : list Z) : outcome cache :=
  match SearchCache c sha1name with
  | None => Fault AssertFailed
  | Some pValue =>
      _ ← c_assert (0 <? cv_block_length pValue);
      let ref_count := i32 (cv_ref_count pValue - 1) in
      let c := set_tmp (tbl_modify (tmp_ht c) sha1name (set_ref_count ref_count)) c in
      _ ← c_assert (0 <=? ref_count);
      if ref_count =? 0 then ht ← _RemoveHT (tmp_ht c) sha1name; Done (set_tmp ht c)
      else Done c
  end.

Definition GetTempDiskCache (c : cache) (sha1name : list Z) : option CacheValue :=
  tbl_search (put_tmp_ht c) sha1name.

Definition PutTempDiskCache (c : cache) (sha1name buffer : list Z) (buf_len : Z)
    : outcome cache :=
  if buf_len =? 0 then Done c
  else
    match GetTempDiskCache c sha1name with
    | None =>
        _ ← c_assert (buf_len <=? MAX_CHUNK_SIZE);
        '(ht, _) ← _PutHT (put_tmp_ht c) sha1name buffer buf_len;
        Done (set_put_tmp ht c)
    | Some _ => Fault NiceExit
    end.

Definition DeleteTempDiskCache (c : cache) (sha1name : list Z) : outcome cache :=
  match GetTempDiskCache c sha1name with
  | None => Fault AssertFailed
  | Some pValue =>
      _ ← c_assert (0 <? cv_block_length pValue);
      ht ← _RemoveHT (put_tmp_ht c) sha1name;
      Done (set_put_tmp ht c)
  end.

(** The cache and whether the chunk was found. *)
Definition MemoryCacheCallBack (c : cache) (sha1name : list Z) : outcome (cache * bool) :=
  match GetMemory c sha1name with
  | Some value =>
      c ← RefPutChunkCallback c sha1name (cv_pBlock value) (cv_block_length value);
      Done (c, true)
  | None => Done (c, false)
  end.

(** ** Chunk buffers *)

(** [PutTempCacheCandidateList] of [mrc_tree.c]. *)
Definition PutTempCacheCandidateList (c : cache) (chunkList : list OneCandidate)
    (buffer : list Z) (buflen : Z) : outcome cache :=
  '(c, offset) ←
    foldM (λ '(c, offset) walk,
        c ← RefPutChunkCallback c (ca_sha1name walk) (drop (Z.to_nat offset) buffer)
              (ca_length walk);
        let offset := offset + ca_length walk in
        _ ← c_assert (offset <=? buflen);
        Done (c, offset))
      (c, 0) chunkList;
  _ ← c_assert (offset =? buflen);
  Done c.

Definition CreateNewChunkBuffer (g : MRCParams) (length_ seq_no : Z) (pMRC : list OneChunkName)
    (numNames_ : nat) : outcome ChunkBuffer :=
  _ ← c_assert (0 <? length_);
  _ ← c_assert (0 <? numNames_)%nat;
  _ ← c_assert (numNames_ <=? g_maxNames g)%nat;
  _ ← (if (numNames_ <=? length pMRC)%nat then Done tt else Fault OutOfBounds);
  Done {| cb_pMRC := take numNames_ pMRC; cb_chunkList := []; cb_seq_no := seq_no;
          cb_length := length_; cb_lowLevel := -1 |}.

Definition CreateNewChunkBuffer2 (g : MRCParams) (c : cache) (pBlock : list Z)
    (length_ seq_no : Z) (pMRC : list OneChunkName) (numNames_ : nat)
    (list_ : list OneCandidate) (lowLevel : nat) : outcome (cache * ChunkBuffer) :=
  cb ← CreateNewChunkBuffer g length_ seq_no pMRC numNames_;
  c ← PutTempCacheCandidateList c list_ pBlock length_;
  Done (c, {| cb_pMRC := cb_pMRC cb; cb_chunkList := list_; cb_seq_no := cb_seq_no cb;
              cb_length := cb_length cb; cb_lowLevel := Z.of_nat lowLevel |}).

(** The loop that turns the names of the misses into hints. *)
Fixpoint update_hints (g_GenerateNameHint : bool) (lowLevel : Z) (c : cache)
    (names : list OneChunkName) : outcome cache :=
  match names with
  | [] => Done c
  | n :: names' =>
      if lowLevel <? cn_level n then Done c
      else
        c ← (if cn_isHit n then Done c
             else
               _ ← c_assert (cn_isSha1Ready n);
               if GetSendHint c (cn_sha1name n) then Done c
               else PutSendHint g_GenerateNameHint c (cn_sha1name n) (cn_length n));
        update_hints g_GenerateNameHint lowLevel c names'
  end.

Definition DestroyChunkBuffer2 (g_GenerateNameHint : bool) (c : cache) (cb : ChunkBuffer)
    (updateHint : bool) : outcome cache :=
  _ ← c_assert (0 <=? cb_lowLevel cb);
  c ← foldM (λ c walk, RefFlushChunk c (ca_sha1name walk)) c (cb_chunkList cb);
  if updateHint then update_hints g_GenerateNameHint (cb_lowLevel cb) c (cb_pMRC cb)
  else Done c.

(** Destroys the buffers up to [ack] (all of them when it is 0); returns the
    cache, the buffers that are left and the number destroyed. *)
Fixpoint DestroyChunkBufferList (g_GenerateNameHint : bool) (c : cache) (cbl : list ChunkBuffer)
    (ack : Z) (updateHint : bool) : outcome (cache * list ChunkBuffer * nat) :=
  match cbl with
  | [] => Done (c, [], 0%nat)
  | cb :: cbl' =>
      if (ack =? 0) || (u32 (cb_seq_no cb + cb_length cb) <=? u32 ack) then
        c ← DestroyChunkBuffer2 g_GenerateNameHint c cb updateHint;
        '(c, rest, n) ← DestroyChunkBufferList g_GenerateNameHint c cbl' ack updateHint;
        Done (c, rest, S n)
      else Done (c, cbl, 0%nat)
  end.
End cache.
Arguments cache : clear implicits.

(** ** The hint tables keep the last [MAX_NAMES] names *)

Definition key_names (fifo : list CacheKey) : list (list Z) := ck_sha1name <$> fifo.

Section hints.
Context {HT : Type} `{!Table (list Z) Z HT}.

Record hint_inv (ht : HT) (fifo : list CacheKey) : Prop := {
  hi_nodup : NoDup (key_names fifo);
  hi_table : ∃ m, tbl_is ht m ∧ dom m = list_to_set (C := gset (list Z)) (key_names fifo);
  hi_bound : Z.of_nat (length fifo) ≤ MAX_NAMES
}.

Lemma hint_count ht fifo : hint_inv ht fifo → tbl_count ht = Z.of_nat (length fifo).
Proof.
  intros [Hnd (m & Hm & Hd) Hb]. rewrite (tbl_count_ok _ _ Hm).
  assert (size m = length fifo) as ->.
  { rewrite <-size_dom, Hd, size_list_to_set by done. apply length_fmap. }
  apply u32_id. unfold MAX_NAMES in Hb. lia.
Qed.

Lemma hint_search ht fifo n :
  hint_inv ht fifo → (tbl_search ht n = None ↔ n ∉ key_names fifo).
Proof.
  intros [Hnd (m & Hm & Hd) _]. rewrite (tbl_search_ok _ _ _ Hm).
  rewrite <-not_elem_of_dom, Hd. set_solver.
Qed.

(** The names after one more. *)
Definition next_names (fifo : list CacheKey) (key : CacheKey) : list CacheKey :=
  (if MAX_NAMES <=? Z.of_nat (length fifo) then drop 1 fifo else fifo) ++ [key].

Lemma put_hint_ok ht fifo n len :
  hint_inv ht fifo → n ∉ key_names fifo →
  ∃ ht', put_hint ht fifo n len = Done (ht', next_names fifo (NewKey n len)) ∧
    hint_inv ht' (next_names fifo (NewKey n len)).
Proof.
  intros Hi Hn. pose proof (hint_count _ _ Hi) as Hc.
  assert (∃ ht1, (if MAX_NAMES <=? tbl_count ht then
       match fifo with
       | [] => Fault OutOfBounds
       | victim :: fifo' =>
           let '(ht, v_value) := tbl_remove ht (ck_sha1name victim) in
           _ ← c_assert (match v_value with Some _ => true | None => false end);
           Done (ht, fifo')
       end else Done (ht, fifo)) =
     Done (ht1, if MAX_NAMES <=? Z.of_nat (length fifo) then drop 1 fifo else fifo) ∧
     hint_inv ht1 (if MAX_NAMES <=? Z.of_nat (length fifo) then drop 1 fifo else fifo) ∧
     Z.of_nat (length (if MAX_NAMES <=? Z.of_nat (length fifo) then drop 1 fifo else fifo)) <
       MAX_NAMES) as (ht1 & He & Hi1 & Hlt).
  { rewrite Hc. destruct (Z.leb_spec MAX_NAMES (Z.of_nat (length fifo))) as [Hge|Hlt].
    2:{ by exists ht. }
    destruct Hi as [Hnd (m & Hm & Hd) Hb]. destruct fifo as [|v fifo]; [by cbn in Hge|].
    destruct (tbl_remove_ok _ _ (ck_sha1name v) Hm) as [Hm1 Hr].
    destruct (tbl_remove ht (ck_sha1name v)) as [ht1 val]. cbn [fst snd] in Hm1, Hr. subst val.
    assert (is_Some (m !! ck_sha1name v)) as [x ->].
    { apply elem_of_dom. rewrite Hd. cbn. set_solver. }
    cbn [c_assert mbind outcome_bind]. exists ht1. split; [done|]. cbn [drop].
    cbn in Hnd. apply NoDup_cons in Hnd as [Hni Hnd]. cbn [length] in Hb, Hge. rewrite drop_0.
    split; [|lia]. split; [done| |lia].
    exists (delete (ck_sha1name v) m). split; [done|]. rewrite dom_delete_L, Hd. cbn. set_solver. }
  unfold put_hint. rewrite He. cbn [mbind outcome_bind].
  set (f1 := if MAX_NAMES <=? Z.of_nat (length fifo) then drop 1 fifo else fifo) in *.
  assert (n ∉ key_names f1) as Hn1.
  { unfold f1. destruct (_ <=? _); [|done]. destruct fifo as [|v fifo]; [done|].
    cbn in Hn |- *. rewrite drop_0. set_solver. }
  rewrite bool_decide_true by (by apply (hint_search _ _ _ Hi1)). cbn [c_assert mbind outcome_bind].
  unfold next_names. fold f1. eexists. split; [done|].
  destruct Hi1 as [Hnd (m & Hm & Hd) Hb]. split.
  - unfold key_names. rewrite fmap_app. apply NoDup_app. split_and!; [done| |by apply NoDup_singleton].
    cbn. set_solver.
  - exists (<[n := 0]> m). split.
    + apply tbl_insert_ok; [done|]. apply not_elem_of_dom. rewrite Hd. set_solver.
    + rewrite dom_insert_L, Hd. unfold key_names. rewrite fmap_app, list_to_set_app_L. cbn. set_solver.
  - rewrite length_app. cbn. lia.
Qed.
End hints.

(** ** The memory cache *)

Section memory.
Context `{Digest} {HT VT : Type} `{!Table (list Z) Z HT} `{!Table (list Z) CacheValue VT}.
#[local] Abbreviation cache := (cache HT VT).

(** What the file accounts for an entry when it is added. *)
Definition entry_size (k : CacheKey) : Z :=
  sizeof_CacheKey + sizeof_CacheValue + ck_block_length k.

Definition value_for (k : CacheKey) (v : CacheValue) : Prop :=
  cv_block_length v = ck_block_length k ∧ Z.of_nat (length (cv_pBlock v)) = ck_block_length k.

(** [evicted] counts the evictions so far: each leaves [sizeof_CacheValue] bytes
    in [g_CacheSize]. *)
Record mem_inv (evicted : Z) (c : cache) : Prop := {
  mi_nodup : NoDup (key_names (g_CacheFifo c));
  mi_table : ∃ m, tbl_is (mem_ht c) m ∧
    dom m = list_to_set (C := gset (list Z)) (key_names (g_CacheFifo c)) ∧
    ∀ k, k ∈ g_CacheFifo c → ∃ v, m !! ck_sha1name k = Some v ∧ value_for k v;
  mi_lengths : Forall (λ k, 0 ≤ ck_block_length k) (g_CacheFifo c);
  mi_keys : g_NumKeys c = Z.of_nat (length (g_CacheFifo c));
  mi_size : g_CacheSize c = sum_Z (entry_size <$> g_CacheFifo c) + sizeof_CacheValue * evicted;
  mi_range : 0 ≤ evicted ∧ g_CacheSize c < 2 ^ 31
}.

Lemma sizeof_CacheKey_pos : 0 < sizeof_CacheKey.
Proof. unfold sizeof_CacheKey. lia. Qed.

Lemma entry_sizes_nonneg l : Forall (λ k, 0 ≤ ck_block_length k) l → 0 ≤ sum_Z (entry_size <$> l).
Proof.
  intros Hl. apply sum_Z_nonneg, Forall_fmap. eapply Forall_impl; [exact Hl|].
  intros k Hk. unfold entry_size, sizeof_CacheValue. cbn. pose proof sizeof_CacheKey_pos. cbn in Hk. lia.
Qed.

Lemma tailq_remove_middle l1 k l2 :
  NoDup (key_names (l1 ++ k :: l2)) → tailq_remove (ck_sha1name k) (l1 ++ k :: l2) = l1 ++ l2.
Proof.
  induction l1 as [|x l1 IH]; intros Hnd; cbn [app tailq_remove].
  - by rewrite decide_True.
  - cbn in Hnd. apply NoDup_cons in Hnd as [Hni Hnd]. rewrite decide_False.
    + by rewrite IH.
    + intros E. apply Hni. rewrite E. unfold key_names. rewrite fmap_app. cbn. set_solver.
Qed.

(** Evicting the newest of the victims that are left. *)
Lemma evict_ok e c vs v rest :
  mem_inv e c → g_CacheFifo c = vs ++ v :: rest →
  ∃ ht keys size, evict c v = Done (set_mem ht (vs ++ rest) keys size c) ∧
    mem_inv (e + 1) (set_mem ht (vs ++ rest) keys size c) ∧
    (∀ n, tbl_search ht n =
       if decide (n = ck_sha1name v) then None else tbl_search (mem_ht c) n) ∧
    size = g_CacheSize c - sizeof_CacheKey - ck_block_length v.
Proof.
  intros [Hnd (m & Hm & Hd & Hv) Hl Hk Hs [He Hr]] Hf. rewrite Hf in *.
  pose proof sizeof_CacheKey_pos as Hkp. unfold sizeof_CacheValue in *.
  apply Forall_app in Hl as [Hl1 Hl2]. apply Forall_cons_1 in Hl2 as [Hlv Hl2].
  pose proof (entry_sizes_nonneg _ Hl1) as Hn1. pose proof (entry_sizes_nonneg _ Hl2) as Hn2.
  rewrite fmap_app, sum_Z_app in Hs. cbn [fmap list_fmap] in Hs.
  change (sum_Z (entry_size v :: (entry_size <$> rest))) with
    (entry_size v + sum_Z (entry_size <$> rest)) in Hs.
  assert (entry_size v = sizeof_CacheKey + 16 + ck_block_length v) as Hev by done.
  unfold evict. rewrite Hf, tailq_remove_middle by done.
  rewrite Hk, length_app. cbn [length].
  rewrite (proj2 (Z.leb_le 0 (Z.of_nat (length vs + S (length rest)) - 1))) by lia.
  cbn [c_assert mbind outcome_bind]. rewrite i32_id by lia.
  rewrite (proj2 (Z.leb_le 0 _)) by lia. cbn [c_assert mbind outcome_bind]. unfold _RemoveHT.
  destruct (tbl_remove_ok _ _ (ck_sha1name v) Hm) as [Hm1 Hrv].
  destruct (tbl_remove (mem_ht c) (ck_sha1name v)) as [ht val]. cbn [fst snd] in Hm1, Hrv. subst val.
  destruct (Hv v) as (x & Hx & _); [set_solver|]. rewrite Hx. cbn [c_assert mbind outcome_bind].
  do 3 eexists. split; [done|].
  assert (ck_sha1name v ∉ key_names (vs ++ rest)) as Hnotin.
  { unfold key_names in *. rewrite fmap_app in *. cbn in Hnd. rewrite NoDup_app, NoDup_cons in Hnd.
    set_solver. }
  assert (∀ k, k ∈ vs ++ rest → ck_sha1name k ≠ ck_sha1name v) as Hother.
  { intros k Hin E. apply Hnotin. rewrite <-E. by apply list_elem_of_fmap_2. }
  split_and!; [| |lia].
  - split; cbn [set_mem g_CacheFifo mem_ht g_NumKeys g_CacheSize].
    + unfold key_names in *. rewrite fmap_app in *. cbn in Hnd.
      rewrite NoDup_app, NoDup_cons in Hnd. rewrite NoDup_app. set_solver.
    + exists (delete (ck_sha1name v) m). split_and!; [done| |].
      * rewrite dom_delete_L, Hd. unfold key_names in *. rewrite !fmap_app, !list_to_set_app_L.
        rewrite fmap_app in Hnotin. cbn. set_solver.
      * intros k Hin. destruct (Hv k) as (y & Hy & Hval); [set_solver|].
        exists y. split; [|done]. rewrite lookup_delete_ne; [done|]. intros E. by apply (Hother k).
    + by apply Forall_app.
    + rewrite length_app. lia.
    + rewrite fmap_app, sum_Z_app. unfold sizeof_CacheValue. lia.
    + lia.
  - intros n. rewrite (tbl_search_ok _ _ _ Hm1), (tbl_search_ok _ _ _ Hm).
    case_decide as E; [by subst; rewrite lookup_delete_eq|]. by rewrite lookup_delete_ne.
Qed.

Lemma evict_all e c vs rest :
  mem_inv e c → g_CacheFifo c = vs ++ rest →
  ∃ ht keys size, foldM evict c (reverse vs) = Done (set_mem ht rest keys size c) ∧
    mem_inv (e + Z.of_nat (length vs)) (set_mem ht rest keys size c) ∧
    (∀ n, tbl_search ht n =
       if decide (n ∈ key_names vs) then None else tbl_search (mem_ht c) n) ∧
    size = g_CacheSize c - sum_Z ((λ k, sizeof_CacheKey + ck_block_length k) <$> vs).
Proof.
  revert e c rest. induction vs as [|v vs IH] using rev_ind; intros e c rest Hinv Hf.
  - exists (mem_ht c), (g_NumKeys c), (g_CacheSize c). cbn in Hf. subst rest.
    replace (set_mem _ _ _ _ c) with c by (by destruct c). cbn. rewrite Z.add_0_r.
    split_and!; [done|done| |lia]. intros n. by rewrite decide_False by apply not_elem_of_nil.
  - rewrite <-app_assoc in Hf. cbn in Hf.
    destruct (evict_ok e c vs v rest Hinv Hf) as (ht & ks & sz & Hev & Hinv1 & Hs1 & Hsz).
    destruct (IH (e + 1) _ rest Hinv1 eq_refl) as (ht2 & ks2 & sz2 & Hev2 & Hinv2 & Hs2 & Hsz2).
    exists ht2, ks2, sz2. rewrite reverse_snoc. cbn [foldM]. rewrite Hev. cbn [mbind outcome_bind].
    rewrite Hev2. rewrite length_app, Nat2Z.inj_add. cbn [length].
    replace (e + (Z.of_nat (length vs) + Z.of_nat 1)) with (e + 1 + Z.of_nat (length vs)) by lia.
    split_and!; [done|exact Hinv2| |].
    + intros n. rewrite Hs2. cbn [set_mem mem_ht]. rewrite Hs1. unfold key_names. rewrite fmap_app. cbn.
      destruct (decide (n ∈ ck_sha1name <$> vs)) as [Hin|Hni].
      * rewrite decide_True by set_solver. done.
      * destruct (decide (n = ck_sha1name v)) as [->|Hne].
        -- rewrite decide_True by set_solver. done.
        -- rewrite decide_False by set_solver. done.
    + rewrite Hsz2. cbn [set_mem g_CacheSize]. rewrite Hsz, fmap_app, sum_Z_app. cbn. lia.
Qed.

(** The number of victims: the shortest prefix that frees [target] bytes. *)
Fixpoint num_victims (target : Z) (fifo : list CacheKey) : nat :=
  match fifo with
  | [] => 0
  | k :: fifo' =>
      if target <=? 0 then 0 else S (num_victims (target - ck_block_length k) fifo')
  end.

Lemma num_victims_le target fifo : (num_victims target fifo ≤ length fifo)%nat.
Proof.
  revert target. induction fifo as [|k fifo IH]; intros target; cbn; [lia|].
  destruct (_ <=? _); [lia|]. specialize (IH (target - ck_block_length k)). lia.
Qed.

Lemma num_victims_frees target fifo :
  Forall (λ k, 0 ≤ ck_block_length k) fifo →
  target ≤ sum_Z (ck_block_length <$> take (num_victims target fifo) fifo) ∨
  num_victims target fifo = length fifo.
Proof.
  revert target. induction fifo as [|k fifo IH]; intros target Hf; cbn; [by right|].
  apply Forall_cons_1 in Hf as [Hk Hf].
  destruct (Z.leb_spec target 0); cbn; [left; lia|].
  destruct (IH (target - ck_block_length k) Hf); [left|right]; unfold sum_Z in *; lia.
Qed.

Lemma pick_victims_ok (c : cache) fifo target :
  (∀ k, k ∈ fifo → ∃ v, GetMemory c (ck_sha1name k) = Some v ∧
     cv_block_length v = ck_block_length k) →
  Forall (λ k, 0 ≤ ck_block_length k < 2 ^ 31) fifo → - 2 ^ 31 ≤ target < 2 ^ 31 →
  pick_victims c fifo target = Done (take (num_victims target fifo) fifo).
Proof.
  intros Hv Hl. revert target. induction Hl as [|k fifo Hk Hl IH]; intros target Ht; [done|].
  cbn [pick_victims num_victims]. destruct (Z.leb_spec target 0); [done|].
  destruct (Hv k) as (v & -> & ->); [by left|]. rewrite i32_id by lia.
  rewrite IH; [done|intros k' ?; apply Hv; by right|lia].
Qed.

Lemma mem_inv_fifo e c k :
  mem_inv e c → k ∈ g_CacheFifo c →
  ∃ v, GetMemory c (ck_sha1name k) = Some v ∧ value_for k v.
Proof.
  intros [_ (m & Hm & _ & Hv) _ _ _ _] Hk. destruct (Hv k Hk) as (v & Hx & Hval).
  exists v. split; [|done]. unfold GetMemory. by rewrite (tbl_search_ok _ _ _ Hm).
Qed.

Lemma mem_inv_lengths e c :
  mem_inv e c → Forall (λ k, 0 ≤ ck_block_length k < 2 ^ 31) (g_CacheFifo c).
Proof.
  intros [_ _ Hl _ Hs [He Hr]]. rewrite Forall_forall in *. intros k Hk. split; [by apply Hl|].
  assert (entry_size k ≤ sum_Z (entry_size <$> g_CacheFifo c)) as Hle.
  { clear -Hk Hl. pose proof sizeof_CacheKey_pos as Hp. revert Hk.
    induction (g_CacheFifo c) as [|x l IH]; intros Hk; [by apply elem_of_nil in Hk|].
    assert (0 ≤ sum_Z (entry_size <$> l)) as Hn.
    { apply entry_sizes_nonneg, Forall_forall. intros y Hy. apply Hl. by right. }
    change (sum_Z (entry_size <$> (x :: l))) with (entry_size x + sum_Z (entry_size <$> l)).
    apply elem_of_cons in Hk as [->|Hk]; [lia|].
    assert (0 ≤ entry_size x).
    { unfold entry_size, sizeof_CacheValue. assert (0 ≤ ck_block_length x) by (apply Hl; by left). lia. }
    specialize (IH ltac:(intros y Hy; apply Hl; by right) Hk). lia. }
  assert (entry_size k = sizeof_CacheKey + 16 + ck_block_length k) by done.
  pose proof sizeof_CacheKey_pos.
  unfold sizeof_CacheValue in Hs. lia.
Qed.

(** The victims [PutMemory] evicts to make room for [new_size] bytes. *)
Definition victims (c : cache) (new_size : Z) : nat :=
  if g_CacheSize c + new_size <=? _maxCacheSize c then 0%nat
  else num_victims (new_size * 2) (g_CacheFifo c).

Lemma CheckCache_ok e c new_size :
  mem_inv e c → 0 ≤ new_size < 2 ^ 30 → g_CacheSize c + new_size < 2 ^ 31 →
  let j := victims c new_size in
  ∃ ht keys size, CheckCache c new_size = Done (set_mem ht (drop j (g_CacheFifo c)) keys size c) ∧
    mem_inv (e + Z.of_nat j) (set_mem ht (drop j (g_CacheFifo c)) keys size c) ∧
    (∀ n, tbl_search ht n = if decide (n ∈ key_names (take j (g_CacheFifo c)))
                            then None else GetMemory c n) ∧
    size = g_CacheSize c -
      sum_Z ((λ k, sizeof_CacheKey + ck_block_length k) <$> take j (g_CacheFifo c)).
Proof.
  intros Hinv Hn Hr j. unfold CheckCache.
  assert (0 ≤ g_CacheSize c) as H0.
  { destruct Hinv as [_ _ Hl _ Hs [He _]]. pose proof (entry_sizes_nonneg _ Hl).
    unfold sizeof_CacheValue in Hs. lia. }
  rewrite i32_id by lia. unfold victims in j.
  destruct (Z.leb_spec (g_CacheSize c + new_size) (_maxCacheSize c)).
  { exists (mem_ht c), (g_NumKeys c), (g_CacheSize c). subst j. rewrite drop_0, take_0.
    replace (set_mem _ _ _ _ c) with c by (by destruct c). cbn. rewrite Z.add_0_r.
    split_and!; [done|done| |lia]. intros n. by rewrite decide_False by apply not_elem_of_nil. }
  rewrite i32_id by lia. rewrite (proj2 (Z.leb_le 0 (new_size * 2))) by lia.
  cbn [c_assert mbind outcome_bind]. rewrite pick_victims_ok.
  2:{ intros k Hk. destruct (mem_inv_fifo _ _ _ Hinv Hk) as (v & Hv & Hl & _). by exists v. }
  2:{ by eapply mem_inv_lengths. }
  2: lia.
  cbn [mbind outcome_bind]. fold j.
  destruct (evict_all e c (take j (g_CacheFifo c)) (drop j (g_CacheFifo c)) Hinv)
    as (ht & ks & sz & He & Hi & Hs & Hsz); [by rewrite take_drop|].
  exists ht, ks, sz. rewrite length_take in Hi.
  replace (j `min` length (g_CacheFifo c))%nat with j in Hi; [by split_and!|].
  pose proof (num_victims_le (new_size * 2) (g_CacheFifo c)). lia.
Qed.

Lemma mem_inv_search e c n :
  mem_inv e c → (GetMemory c n = None ↔ n ∉ key_names (g_CacheFifo c)).
Proof.
  intros [_ (m & Hm & Hd & _) _ _ _ _]. unfold GetMemory. rewrite (tbl_search_ok _ _ _ Hm).
  rewrite <-not_elem_of_dom, Hd. set_solver.
Qed.

Lemma PutMemory_ok e c n block len
    (new_size := sizeof_CacheKey + sizeof_CacheValue + len) (j := victims c new_size) :
  mem_inv e c → GetMemory c n = None → 0 ≤ len ≤ Z.of_nat (length block) →
  new_size < 2 ^ 30 → g_CacheSize c + new_size < 2 ^ 31 →
  ∃ ht keys size, PutMemory c n block len =
      Done (set_mem ht (drop j (g_CacheFifo c) ++ [NewKey n len]) keys size c) ∧
    mem_inv (e + Z.of_nat j) (set_mem ht (drop j (g_CacheFifo c) ++ [NewKey n len]) keys size c) ∧
    (∀ n', tbl_search ht n' =
       if decide (n' = n) then Some {| cv_pBlock := slice block 0 (Z.to_nat len);
                                       cv_block_length := len; cv_ref_count := 1 |}
       else if decide (n' ∈ key_names (take j (g_CacheFifo c))) then None else GetMemory c n') ∧
    size = g_CacheSize c -
      sum_Z ((λ k, sizeof_CacheKey + ck_block_length k) <$> take j (g_CacheFifo c)) + new_size.
Proof.
  intros Hinv Hno Hlen Hns Hr. unfold PutMemory. rewrite Hno. fold new_size.
  pose proof sizeof_CacheKey_pos as Hkp. unfold sizeof_CacheValue in *.
  assert (0 ≤ new_size) by (unfold new_size; lia).
  rewrite i32_id by lia.
  destruct (CheckCache_ok e c new_size Hinv) as (ht & ks & sz & -> & Hi & Hs & Hsz); [lia|lia|].
  fold j in Hi, Hs, Hsz |- *. cbn [mbind outcome_bind set_mem mem_ht g_CacheFifo g_NumKeys g_CacheSize].
  unfold _PutHT. rewrite load_Done by lia. cbn [mbind outcome_bind].
  assert (tbl_search ht n = None) as Hno' by (rewrite Hs, Hno; by case_decide).
  rewrite bool_decide_true by done. cbn [c_assert mbind outcome_bind].
  destruct Hi as [Hnd (m & Hm & Hd & Hv) Hl Hk Hsize [He Hr']].
  cbn [set_mem mem_ht g_CacheFifo g_NumKeys g_CacheSize] in *.
  assert (m !! n = None) as Hmn by (by rewrite <-(tbl_search_ok _ _ _ Hm)).
  assert (0 ≤ sz ≤ g_CacheSize c).
  { pose proof (entry_sizes_nonneg _ Hl). unfold sizeof_CacheValue in Hsize.
    assert (0 ≤ sum_Z ((λ k, sizeof_CacheKey + ck_block_length k) <$> take j (g_CacheFifo c)));
      [|lia].
    apply sum_Z_nonneg, Forall_fmap, Forall_take. eapply Forall_impl; [apply (mem_inv_lengths _ _ Hinv)|].
    intros k. cbn. lia. }
  rewrite i32_id by lia. do 3 eexists. split; [done|]. split_and!; [| |lia].
  - split; cbn [set_mem mem_ht g_CacheFifo g_NumKeys g_CacheSize].
    + unfold key_names. rewrite fmap_app. apply NoDup_app. split_and!; [done| |apply NoDup_singleton].
      intros x Hx Hx'. cbn in Hx'. apply list_elem_of_singleton in Hx' as ->.
      apply not_elem_of_dom in Hmn. rewrite Hd in Hmn. set_solver.
    + exists (<[n := {| cv_pBlock := slice block 0 (Z.to_nat len); cv_block_length := len;
                        cv_ref_count := 1 |}]> m). split_and!.
      * by apply tbl_insert_ok.
      * rewrite dom_insert_L, Hd. unfold key_names. rewrite fmap_app, list_to_set_app_L. cbn. set_solver.
      * intros k Hin. apply elem_of_app in Hin as [Hin|Hin].
        -- destruct (Hv k Hin) as (v & Hv' & Hval). exists v. split; [|done].
           rewrite lookup_insert_ne; [done|]. intros ->. congruence.
        -- apply list_elem_of_singleton in Hin as ->. eexists.
           rewrite lookup_insert_eq. split; [done|]. split; [done|]. cbn.
           rewrite length_slice by lia. lia.
    + apply Forall_app. split; [done|]. repeat constructor. cbn. lia.
    + rewrite Hk, length_app. cbn [length]. lia.
    + rewrite fmap_app, sum_Z_app, Hsize. cbn. unfold entry_size, sizeof_CacheValue, new_size. cbn. lia.
    + lia.
  - intros n'. rewrite (tbl_search_ok _ _ _ (tbl_insert_ok _ _ _ _ Hm Hmn)).
    case_decide as E; [by subst; rewrite lookup_insert_eq|].
    rewrite lookup_insert_ne by done. rewrite <-(tbl_search_ok _ _ _ Hm). apply Hs.
Qed.
End memory.

(** ** The temporary cache counts references *)

(** The abstract cache: the references to a name, and its bytes. *)
Abbreviation refs := (gmap (list Z) (nat * list Z)).

Definition ref_count (R : refs) (n : list Z) : nat :=
  match R !! n with Some (k, _) => k | None => 0%nat end.

Definition ref_put (R : refs) (n block : list Z) : refs :=
  match R !! n with
  | None => <[n := (1%nat, block)]> R
  | Some (k, b) => <[n := (S k, b)]> R
  end.

Definition ref_flush (R : refs) (n : list Z) : refs :=
  match R !! n with
  | Some (S (S k), b) => <[n := (S k, b)]> R
  | _ => delete n R
  end.

Lemma ref_count_put R n n' block :
  ref_count (ref_put R n block) n' = (ref_count R n' + if decide (n' = n) then 1 else 0)%nat.
Proof.
  unfold ref_put, ref_count. case_decide as E.
  - subst. destruct (R !! n) as [[k b]|] eqn:Er; rewrite lookup_insert_eq; lia.
  - destruct (R !! n) as [[k b]|]; rewrite lookup_insert_ne by done; lia.
Qed.

Lemma ref_count_flush R n n' :
  ref_count (ref_flush R n) n' = (ref_count R n' - if decide (n' = n) then 1 else 0)%nat.
Proof.
  unfold ref_flush, ref_count. case_decide as E.
  - subst. destruct (R !! n) as [[[|[|k]] b]|] eqn:Er;
      rewrite ?lookup_insert_eq, ?lookup_delete_eq; lia.
  - destruct (R !! n) as [[[|[|k]] b]|];
      rewrite ?lookup_insert_ne, ?lookup_delete_ne by done; lia.
Qed.

Section temporary.
Context {HT VT : Type} `{!Table (list Z) Z HT} `{!Table (list Z) CacheValue VT}.
#[local] Abbreviation cache := (cache HT VT).

Definition ref_value (p : nat * list Z) : CacheValue :=
  {| cv_pBlock := p.2; cv_block_length := Z.of_nat (length p.2); cv_ref_count := Z.of_nat p.1 |}.

(** The temporary cache holds the referenced chunks; counts stay below the
    limit of an [int]. *)
Record tmp_is (c : cache) (R : refs) : Prop := {
  ti_table : tbl_is (tmp_ht c) (ref_value <$> R);
  ti_refs : ∀ n k b, R !! n = Some (k, b) → (0 < k)%nat ∧ b ≠ []
}.

Lemma SearchCache_ok c R n : tmp_is c R → SearchCache c n = ref_value <$> R !! n.
Proof. intros [Ht _]. unfold SearchCache. by rewrite (tbl_search_ok _ _ _ Ht), lookup_fmap. Qed.

Lemma RefPutChunkCallback_ok c R n buffer len :
  tmp_is c R → 0 < len ≤ Z.of_nat (length buffer) → len ≤ MAX_CHUNK_SIZE →
  Z.of_nat (ref_count R n) < 2 ^ 31 - 1 →
  ∃ ht, RefPutChunkCallback c n buffer len = Done (set_tmp ht c) ∧
    tmp_is (set_tmp ht c) (ref_put R n (slice buffer 0 (Z.to_nat len))).
Proof.
  intros Hi Hl Hm Hc. unfold RefPutChunkCallback.
  rewrite (proj2 (Z.eqb_neq _ _)) by lia. rewrite (SearchCache_ok c R n Hi).
  destruct Hi as [Ht Hr]. unfold ref_put, ref_count in *. destruct (R !! n) as [[k b]|] eqn:E.
  - cbn [fmap option_fmap option_map]. destruct (Hr n k b E) as [Hk Hb]. cbn [ref_value cv_ref_count fst snd].
    rewrite (proj2 (Z.leb_le _ _)) by lia. cbn [c_assert mbind outcome_bind]. rewrite i32_id by lia.
    eexists. split; [done|]. split.
    + cbn [set_tmp tmp_ht]. eapply (eq_rect _ (tbl_is _) (tbl_modify_ok _ _ _ _ Ht)).
      apply map_eq. intros n'. rewrite lookup_fmap. destruct (decide (n' = n)) as [->|Hne].
      * rewrite lookup_alter_eq, lookup_insert_eq, lookup_fmap, E. cbn. unfold ref_value, set_ref_count.
        cbn. do 2 f_equal. lia.
      * by rewrite lookup_alter_ne, lookup_insert_ne, lookup_fmap by done.
    + intros n' k' b'. destruct (decide (n' = n)) as [->|Hne].
      * rewrite lookup_insert_eq. intros [= <- <-]. split; [lia|done].
      * rewrite lookup_insert_ne by done. apply Hr.
  - cbn [fmap option_fmap option_map].
    rewrite (proj2 (Z.leb_le _ _)) by lia. cbn [c_assert mbind outcome_bind]. unfold _PutHT.
    rewrite load_Done by lia. cbn [mbind outcome_bind].
    assert ((ref_value <$> R) !! n = None) as Hn by (by rewrite lookup_fmap, E).
    rewrite (tbl_search_ok _ _ _ Ht), Hn, bool_decide_true by done.
    cbn [c_assert mbind outcome_bind]. eexists. split; [done|]. split.
    + cbn [set_tmp tmp_ht]. eapply (eq_rect _ (tbl_is _) (tbl_insert_ok _ _ _ _ Ht Hn)).
      rewrite fmap_insert. f_equal. unfold ref_value. cbn. f_equal.
      rewrite length_slice by lia. lia.
    + intros n' k' b'. destruct (decide (n' = n)) as [->|Hne].
      * rewrite lookup_insert_eq. intros [= <- <-]. split; [lia|]. intros Hb.
        apply (f_equal length) in Hb. rewrite length_slice in Hb by lia. cbn in Hb. lia.
      * rewrite lookup_insert_ne by done. apply Hr.
Qed.

Lemma RefFlushChunk_ok c R n :
  tmp_is c R → (0 < ref_count R n)%nat → Z.of_nat (ref_count R n) < 2 ^ 31 →
  ∃ ht, RefFlushChunk c n = Done (set_tmp ht c) ∧ tmp_is (set_tmp ht c) (ref_flush R n).
Proof.
  intros Hi Hc Hb. unfold RefFlushChunk. rewrite (SearchCache_ok c R n Hi).
  destruct Hi as [Ht Hr]. unfold ref_count in Hc, Hb. unfold ref_flush.
  destruct (R !! n) as [[k b]|] eqn:E; [|lia].
  destruct (Hr n k b E) as [Hk Hne]. cbn [fmap option_fmap option_map ref_value cv_block_length cv_ref_count fst snd].
  assert (0 < length b)%nat by (destruct b; [done|cbn; lia]).
  rewrite (proj2 (Z.ltb_lt _ _)) by lia. cbn [c_assert mbind outcome_bind]. rewrite i32_id by lia.
  rewrite (proj2 (Z.leb_le _ _)) by lia. cbn [c_assert mbind outcome_bind].
  cbn [set_tmp tmp_ht]. set (ht1 := tbl_modify _ _ _).
  pose proof (tbl_modify_ok _ _ n (set_ref_count (Z.of_nat k - 1)) Ht) as Ht1. fold ht1 in Ht1.
  destruct (Z.eqb_spec (Z.of_nat k - 1) 0) as [Hk1|Hk1].
  - assert (k = 1%nat) as -> by lia. unfold _RemoveHT.
    destruct (tbl_remove_ok _ _ n Ht1) as [Ht2 Hv]. destruct (tbl_remove ht1 n) as [ht2 v].
    cbn [fst snd] in Ht2, Hv. subst v. rewrite lookup_alter_eq, lookup_fmap, E.
    cbn [fmap option_fmap option_map c_assert mbind outcome_bind].
    exists ht2. split; [done|]. split.
    + cbn [set_tmp tmp_ht]. eapply (eq_rect _ (tbl_is _) Ht2). apply map_eq. intros n'.
      rewrite lookup_fmap. destruct (decide (n' = n)) as [->|Hn'].
      * by rewrite !lookup_delete_eq.
      * by rewrite !lookup_delete_ne, lookup_alter_ne, lookup_fmap by done.
    + intros n' k' b'. destruct (decide (n' = n)) as [->|Hn'].
      * by rewrite lookup_delete_eq.
      * rewrite lookup_delete_ne by done. apply Hr.
  - destruct k as [|[|k]]; [lia|lia|]. exists ht1. split; [done|]. split.
    + cbn [set_tmp tmp_ht]. eapply (eq_rect _ (tbl_is _) Ht1). apply map_eq. intros n'.
      rewrite lookup_fmap. destruct (decide (n' = n)) as [->|Hn'].
      * rewrite lookup_alter_eq, lookup_insert_eq, lookup_fmap, E. cbn. unfold ref_value, set_ref_count.
        cbn. do 2 f_equal. lia.
      * by rewrite lookup_alter_ne, lookup_insert_ne, lookup_fmap by done.
    + intros n' k' b'. destruct (decide (n' = n)) as [->|Hn'].
      * rewrite lookup_insert_eq. intros [= <- <-]. split; [lia|done].
      * rewrite lookup_insert_ne by done. apply Hr.
Qed.
End temporary.

(** ** Chunk buffers hold references *)

Definition occ (n : list Z) (cs : list OneCandidate) : nat :=
  length (filter (λ c, ca_sha1name c = n) cs).

Lemma occ_cons n c cs :
  occ n (c :: cs) = ((if decide (n = ca_sha1name c) then 1 else 0) + occ n cs)%nat.
Proof.
  unfold occ. rewrite filter_cons. destruct (decide (ca_sha1name c = n)) as [E|E].
  - by rewrite decide_True.
  - by rewrite decide_False by congruence.
Qed.

(** The references a list of buffers holds. *)
Definition held (n : list Z) (cbl : list ChunkBuffer) : nat :=
  sum_list_with (λ cb, occ n (cb_chunkList cb)) cbl.

Lemma held_cons n cb cbl : held n (cb :: cbl) = (occ n (cb_chunkList cb) + held n cbl)%nat.
Proof. done. Qed.

Section buffers.
Context {HT VT : Type} `{!Table (list Z) Z HT} `{!Table (list Z) CacheValue VT}.
#[local] Abbreviation cache := (cache HT VT).

(** A state that differs in the temporary cache and in the send hints only. *)
Definition tmp_and_hints (c c' : cache) : Prop :=
  ∃ t h fifo l, c' = set_log l (set_send h fifo (set_tmp t c)).

Lemma tmp_and_hints_refl c : tmp_and_hints c c.
Proof. exists (tmp_ht c), (send_hint_ht c), (g_NameFifo c), (helper_log c). by destruct c. Qed.

Lemma tmp_and_hints_trans c1 c2 c3 :
  tmp_and_hints c1 c2 → tmp_and_hints c2 c3 → tmp_and_hints c1 c3.
Proof.
  intros (t & h & f & l & ->) (t' & h' & f' & l' & ->). exists t', h', f', l'. done.
Qed.

Lemma flush_list_ok (c : cache) R cs :
  tmp_is c R → (∀ n, (occ n cs ≤ ref_count R n)%nat) → (∀ n, Z.of_nat (ref_count R n) < 2 ^ 31) →
  ∃ ht R', foldM (λ c walk, RefFlushChunk c (ca_sha1name walk)) c cs = Done (set_tmp ht c) ∧
    tmp_is (set_tmp ht c) R' ∧ ∀ n, ref_count R' n = (ref_count R n - occ n cs)%nat.
Proof.
  revert c R. induction cs as [|x cs IH]; intros c R Hi Hocc Hb.
  - exists (tmp_ht c), R. replace (set_tmp _ c) with c by (by destruct c).
    split_and!; [done|done|]. intros n. cbn. lia.
  - assert (∀ n, (if decide (n = ca_sha1name x) then 1 else 0) + occ n cs ≤ ref_count R n)%nat as Hocc'.
    { intros n. rewrite <-occ_cons. apply Hocc. }
    destruct (RefFlushChunk_ok c R (ca_sha1name x) Hi) as (ht & He & Hi1).
    { specialize (Hocc' (ca_sha1name x)). rewrite decide_True in Hocc' by done. lia. }
    { apply Hb. }
    destruct (IH _ _ Hi1) as (ht2 & R2 & He2 & Hi2 & Hc2).
    { intros n. rewrite ref_count_flush. specialize (Hocc' n). case_decide; lia. }
    { intros n. rewrite ref_count_flush. specialize (Hb n). lia. }
    exists ht2, R2. cbn [foldM]. rewrite He. cbn [mbind outcome_bind]. split_and!; [done|done|].
    intros n. rewrite Hc2, ref_count_flush, occ_cons. case_decide; lia.
Qed.

(** The candidates cut the buffer from [a] on. *)
Lemma put_list_ok (c : cache) R buffer buflen cs : ∀ (a : Z),
  tmp_is c R → 0 ≤ a → a + sum_Z (ca_length <$> cs) = buflen →
  buflen ≤ Z.of_nat (length buffer) → Forall (λ x, 0 < ca_length x ≤ MAX_CHUNK_SIZE) cs →
  (∀ n, Z.of_nat (ref_count R n + length cs) < 2 ^ 31) →
  ∃ ht R', foldM (λ '(c, offset) walk,
        c ← RefPutChunkCallback c (ca_sha1name walk) (drop (Z.to_nat offset) buffer)
              (ca_length walk);
        let offset := offset + ca_length walk in
        _ ← c_assert (offset <=? buflen);
        Done (c, offset)) (c, a) cs = Done (set_tmp ht c, buflen) ∧
    tmp_is (set_tmp ht c) R' ∧ ∀ n, ref_count R' n = (ref_count R n + occ n cs)%nat.
Proof.
  revert c R. induction cs as [|x cs IH]; intros c R a Hi Ha Hs Hb Hl Hc.
  - exists (tmp_ht c), R. replace (set_tmp _ c) with c by (by destruct c). cbn in *.
    split_and!; [do 2 f_equal; lia|done|]. intros n. lia.
  - apply Forall_cons_1 in Hl as [Hx Hl]. cbn [fmap list_fmap] in Hs.
    change (sum_Z (ca_length x :: (ca_length <$> cs))) with
      (ca_length x + sum_Z (ca_length <$> cs)) in Hs.
    assert (0 ≤ sum_Z (ca_length <$> cs)).
    { apply sum_Z_nonneg, Forall_fmap. eapply Forall_impl; [exact Hl|]. cbn. lia. }
    cbn [length] in Hc.
    destruct (RefPutChunkCallback_ok c R (ca_sha1name x) (drop (Z.to_nat a) buffer) (ca_length x) Hi)
      as (ht & He & Hi1); [rewrite length_drop; lia|lia|specialize (Hc (ca_sha1name x)); lia|].
    destruct (IH _ _ (a + ca_length x) Hi1) as (ht2 & R2 & He2 & Hi2 & Hc2); [lia|lia|lia|done| |].
    { intros n. rewrite ref_count_put. specialize (Hc n). case_decide; lia. }
    exists ht2, R2. cbn [foldM]. rewrite He. cbn [mbind outcome_bind].
    rewrite (proj2 (Z.leb_le _ _)) by lia. cbn [c_assert mbind outcome_bind].
    split_and!; [done|done|]. intros n. rewrite Hc2, ref_count_put, occ_cons. case_decide; lia.
Qed.

Lemma PutTempCacheCandidateList_ok (c : cache) R buffer buflen cs :
  tmp_is c R → sum_Z (ca_length <$> cs) = buflen →
  buflen ≤ Z.of_nat (length buffer) → Forall (λ x, 0 < ca_length x ≤ MAX_CHUNK_SIZE) cs →
  (∀ n, Z.of_nat (ref_count R n + length cs) < 2 ^ 31) →
  ∃ ht R', PutTempCacheCandidateList c cs buffer buflen = Done (set_tmp ht c) ∧
    tmp_is (set_tmp ht c) R' ∧ ∀ n, ref_count R' n = (ref_count R n + occ n cs)%nat.
Proof.
  intros Hi Hs Hb Hl Hc.
  destruct (put_list_ok c R buffer buflen cs 0 Hi) as (ht & R' & He & Ht & Hr); [lia|lia|done..|].
  exists ht, R'. unfold PutTempCacheCandidateList. cbv zeta in He. rewrite He. cbn [mbind outcome_bind].
  rewrite Z.eqb_refl. by split_and!.
Qed.

Lemma update_hints_ok gen low (c : cache) names :
  hint_inv (send_hint_ht c) (g_NameFifo c) →
  (∀ l n, names !! l = Some n → (∀ l' n', (l' ≤ l)%nat → names !! l' = Some n' → cn_level n' ≤ low) →
     cn_isHit n = false → cn_isSha1Ready n = true) →
  ∃ c', update_hints gen low c names = Done c' ∧ tmp_and_hints c c' ∧ tmp_ht c' = tmp_ht c ∧
    hint_inv (send_hint_ht c') (g_NameFifo c').
Proof.
  revert c. induction names as [|n names IH]; intros c Hi Hr.
  { exists c. split_and!; [done|apply tmp_and_hints_refl|done|done]. }
  cbn [update_hints]. destruct (Z.ltb_spec low (cn_level n)) as [Hlt|Hge].
  { exists c. split_and!; [done|apply tmp_and_hints_refl|done|done]. }
  assert (∃ c1, (if cn_isHit n then Done c else
        _ ← c_assert (cn_isSha1Ready n);
        if GetSendHint c (cn_sha1name n) then Done c
        else PutSendHint gen c (cn_sha1name n) (cn_length n)) = Done c1 ∧
     tmp_and_hints c c1 ∧ tmp_ht c1 = tmp_ht c ∧ hint_inv (send_hint_ht c1) (g_NameFifo c1))
    as (c1 & He & Hsame & Htmp & Hi1).
  { destruct (cn_isHit n) eqn:Eh; [exists c; split_and!; [done|apply tmp_and_hints_refl|done|done]|].
    rewrite (Hr 0%nat n eq_refl); [|intros l' n' Hl' Hn'|done].
    2:{ assert (l' = 0%nat) as -> by lia. cbn in Hn'. injection Hn' as <-. lia. }
    cbn [c_assert mbind outcome_bind]. unfold GetSendHint.
    destruct (tbl_search (send_hint_ht c) (cn_sha1name n)) eqn:Es;
      [exists c; split_and!; [done|apply tmp_and_hints_refl|done|done]|].
    apply (hint_search _ _ _ Hi) in Es.
    destruct (put_hint_ok _ _ _ (cn_length n) Hi Es) as (ht & He & Hi1).
    unfold PutSendHint, PutSendHintNoDisk. rewrite He. cbn [mbind outcome_bind].
    eexists. split; [done|]. destruct gen; cbn [set_send set_log tmp_ht send_hint_ht g_NameFifo];
      (split_and!; [|done|done]).
    - by eexists (tmp_ht c), ht, _, _.
    - eexists (tmp_ht c), ht, _, (helper_log c). done. }
  rewrite He. cbn [mbind outcome_bind].
  destruct (IH c1 Hi1) as (c2 & He2 & Hs2 & Ht2 & Hi2).
  { intros l n' Hl Hlow. apply (Hr (S l) n' Hl). intros l' n2 Hl' Hn2. destruct l' as [|l'].
    - cbn in Hn2. injection Hn2 as <-. lia.
    - apply (Hlow l' n2); [lia|done]. }
  exists c2. split_and!; [done|exact (tmp_and_hints_trans _ _ _ Hsame Hs2)|congruence|done].
Qed.

(** A buffer that [DestroyChunkBuffer2] accepts. *)
Record buffer_ok (cb : ChunkBuffer) : Prop := {
  bo_level : 0 ≤ cb_lowLevel cb;
  bo_ready : ∀ l n, cb_pMRC cb !! l = Some n →
    (∀ l' n', (l' ≤ l)%nat → cb_pMRC cb !! l' = Some n' → cn_level n' ≤ cb_lowLevel cb) →
    cn_isHit n = false → cn_isSha1Ready n = true
}.

Lemma DestroyChunkBuffer2_ok gen (c : cache) R cb upd :
  tmp_is c R → buffer_ok cb → hint_inv (send_hint_ht c) (g_NameFifo c) →
  (∀ n, (occ n (cb_chunkList cb) ≤ ref_count R n)%nat) →
  (∀ n, Z.of_nat (ref_count R n) < 2 ^ 31) →
  ∃ c' R', DestroyChunkBuffer2 gen c cb upd = Done c' ∧ tmp_and_hints c c' ∧ tmp_is c' R' ∧
    hint_inv (send_hint_ht c') (g_NameFifo c') ∧
    ∀ n, ref_count R' n = (ref_count R n - occ n (cb_chunkList cb))%nat.
Proof.
  intros Hi [Hlv Hrd] Hh Hocc Hb. unfold DestroyChunkBuffer2.
  rewrite (proj2 (Z.leb_le _ _)) by done. cbn [c_assert mbind outcome_bind].
  destruct (flush_list_ok c R _ Hi Hocc Hb) as (ht & R' & -> & Hi' & Hc'). cbn [mbind outcome_bind].
  assert (tmp_and_hints c (set_tmp ht c)) as Hsame.
  { exists ht, (send_hint_ht c), (g_NameFifo c), (helper_log c). by destruct c. }
  destruct upd.
  - destruct (update_hints_ok gen (cb_lowLevel cb) (set_tmp ht c) (cb_pMRC cb)) as
      (c2 & -> & Hs2 & Ht2 & Hh2); [done|exact Hrd|].
    exists c2, R'. split_and!; [done|exact (tmp_and_hints_trans _ _ _ Hsame Hs2)| |done|done].
    destruct Hi' as [H1 H2]. split; [by rewrite Ht2|done].
  - exists (set_tmp ht c), R'. by split_and!.
Qed.

(** A buffer that is not acknowledged. *)
Definition unacked (ack : Z) (cb : ChunkBuffer) : Prop :=
  ack ≠ 0 ∧ u32 ack < u32 (cb_seq_no cb + cb_length cb).

Lemma DestroyChunkBufferList_ok gen cbl : ∀ (c : cache) R ack upd,
  tmp_is c R → Forall buffer_ok cbl → hint_inv (send_hint_ht c) (g_NameFifo c) →
  (∀ n, (held n cbl ≤ ref_count R n)%nat) → (∀ n, Z.of_nat (ref_count R n) < 2 ^ 31) →
  ∃ c' R' k, DestroyChunkBufferList gen c cbl ack upd = Done (c', drop k cbl, k) ∧
    (k ≤ length cbl)%nat ∧ tmp_and_hints c c' ∧ tmp_is c' R' ∧
    hint_inv (send_hint_ht c') (g_NameFifo c') ∧
    (∀ n, ref_count R' n = (ref_count R n - held n (take k cbl))%nat) ∧
    Forall (λ cb, ¬ unacked ack cb) (take k cbl) ∧
    (∀ cb, head (drop k cbl) = Some cb → unacked ack cb).
Proof.
  induction cbl as [|cb cbl IH]; intros c R ack upd Hi Hok Hh Hheld Hb.
  { exists c, R, 0%nat. split_and!; try done; [apply tmp_and_hints_refl|].
    intros n. cbn. lia. }
  apply Forall_cons_1 in Hok as [Hcb Hok]. cbn [DestroyChunkBufferList].
  destruct ((ack =? 0) || (u32 (cb_seq_no cb + cb_length cb) <=? u32 ack)) eqn:E.
  - destruct (DestroyChunkBuffer2_ok gen c R cb upd Hi Hcb Hh) as (c1 & R1 & -> & Hs1 & Hi1 & Hh1 & Hc1).
    { intros n. specialize (Hheld n). rewrite held_cons in Hheld. lia. }
    { done. }
    cbn [mbind outcome_bind].
    destruct (IH c1 R1 ack upd Hi1 Hok Hh1) as (c2 & R2 & k & -> & Hk & Hs2 & Hi2 & Hh2 & Hc2 & Hf & Hhd).
    { intros n. specialize (Hheld n). rewrite held_cons in Hheld. rewrite Hc1. lia. }
    { intros n. rewrite Hc1. specialize (Hb n). lia. }
    cbn [mbind outcome_bind]. exists c2, R2, (S k). cbn [drop take length].
    split_and!; try done; try lia; [exact (tmp_and_hints_trans _ _ _ Hs1 Hs2)| |].
    + intros n. rewrite Hc2, Hc1, held_cons. lia.
    + constructor; [|done]. intros [Hne Hlt].
      apply orb_prop in E as [E|E]; [by apply Z.eqb_eq in E|apply Z.leb_le in E; lia].
  - apply orb_false_iff in E as [E1 E2]. apply Z.eqb_neq in E1. apply Z.leb_gt in E2.
    exists c, R, 0%nat. cbn [drop take]. split_and!; try done; try lia; [apply tmp_and_hints_refl| |].
    + intros n. cbn. lia.
    + intros cb' [= <-]. by split.
Qed.
End buffers.

(** ** The theorems *)

Section create.
Context {HT VT : Type} `{!Table (list Z) Z HT} `{!Table (list Z) CacheValue VT}.

Lemma create_table_ok {V T} `{!Table (list Z) V T} :
  ∃ t, create_table (T := T) = Done t ∧ tbl_is t ∅.
Proof.
  unfold create_table. destruct (tbl_create_ok 65536) as (t & -> & Ht); [lia|]. by exists t.
Qed.

(** A cache to start from. *)
Record cache_empty (max : Z) (c : cache HT VT) : Prop := {
  ce_send : hint_inv (send_hint_ht c) (g_NameFifo c);
  ce_disk : hint_inv (disk_hint_ht c) (g_DiskFifo c);
  ce_tmp : tmp_is c ∅;
  ce_put_tmp : tbl_is (put_tmp_ht c) ∅;
  ce_mem : ∀ `{Digest}, mem_inv 0 c;
  ce_fifos : g_CacheFifo c = [] ∧ g_NameFifo c = [] ∧ g_DiskFifo c = [] ∧ g_CacheSize c = 0;
  ce_max : _maxCacheSize c = max
}.

Lemma CreateCache_ok max : ∃ c : cache HT VT, CreateCache max = Done c ∧ cache_empty max c.
Proof.
  unfold CreateCache.
  destruct (create_table_ok (V := Z) (T := HT)) as (h & -> & Hh). cbn [mbind outcome_bind].
  destruct (create_table_ok (V := CacheValue) (T := VT)) as (t & -> & Ht). cbn [mbind outcome_bind].
  eexists. split; [done|].
  assert (hint_inv h []) as Hhi.
  { split; [apply NoDup_nil_2|by exists ∅|done]. }
  split; cbn; try done.
  intros ?. split; cbn; try done; [apply NoDup_nil_2|].
  exists ∅. split_and!; [done|done|]. intros k Hk. by apply elem_of_nil in Hk.
Qed.
End create.

Definition last_names (n : nat) (l : list (list Z)) : list (list Z) := drop (length l - n) l.

(** The send hints are the last [MAX_NAMES] distinct names that were put:
    putting a name that is not hinted never fails, drops the oldest name when
    the table is full, and the lookup answers for exactly these names. *)
Theorem PutSendHint_window {HT VT : Type} `{!Table (list Z) Z HT} `{!Table (list Z) CacheValue VT}
    (gen : bool) (c : cache HT VT) (n : list Z) (len : Z) :
  hint_inv (send_hint_ht c) (g_NameFifo c) → GetSendHint c n = false →
  ∃ c', PutSendHint gen c n len = Done c' ∧
    hint_inv (send_hint_ht c') (g_NameFifo c') ∧
    key_names (g_NameFifo c') = last_names (Z.to_nat MAX_NAMES) (key_names (g_NameFifo c) ++ [n]) ∧
    (∀ k, GetSendHint c' k = true ↔ k ∈ key_names (g_NameFifo c')) ∧
    tmp_ht c' = tmp_ht c ∧ mem_ht c' = mem_ht c.
Proof.
  intros Hi Hn. unfold GetSendHint in Hn.
  destruct (tbl_search (send_hint_ht c) n) eqn:Es; [done|]. apply (hint_search _ _ _ Hi) in Es.
  destruct (put_hint_ok _ _ _ len Hi Es) as (ht & He & Hi').
  unfold PutSendHint, PutSendHintNoDisk. rewrite He. cbn [mbind outcome_bind].
  set (c1 := set_send ht _ c). exists (if gen then set_log (helper_log c1 ++ [n ++ le 4 len]) c1 else c1).
  split; [by destruct gen|].
  assert (∀ k, tbl_search ht k = None ↔ k ∉ key_names (next_names (g_NameFifo c) (NewKey n len))) as Hs
    by (intros k; by apply hint_search).
  destruct Hi as [_ _ Hb].
  split_and!; [by destruct gen| | |by destruct gen|by destruct gen].
  - assert (key_names (next_names (g_NameFifo c) (NewKey n len)) =
      last_names (Z.to_nat MAX_NAMES) (key_names (g_NameFifo c) ++ [n])) as Heq; [|by destruct gen].
    unfold key_names, next_names, last_names. rewrite fmap_app, length_app, length_fmap. cbn [length].
    destruct (Z.leb_spec MAX_NAMES (Z.of_nat (length (g_NameFifo c)))).
    + replace (length (g_NameFifo c) + 1 - Z.to_nat MAX_NAMES)%nat with 1%nat by lia.
      destruct (g_NameFifo c); [by cbn in *|done].
    + by replace (length (g_NameFifo c) + 1 - Z.to_nat MAX_NAMES)%nat with 0%nat by lia.
  - intros k. assert (GetSendHint c1 k = true ↔ k ∈ key_names (g_NameFifo c1)) as Hk; [|by destruct gen].
    unfold GetSendHint. cbn [c1 set_send send_hint_ht g_NameFifo].
    destruct (tbl_search ht k) eqn:Ek.
    + split; [intros _|done]. destruct (decide (k ∈ key_names (next_names (g_NameFifo c) (NewKey n len))))
        as [|Hni]; [done|]. apply Hs in Hni. congruence.
    + apply Hs in Ek. split; [done|]. by intros ?.
Qed.

Lemma PutSendHint_window_witness :
  ∃ c c' : cache (@hashtable (list Z) Z) (@hashtable (list Z) CacheValue),
    CreateCache 1000 = Done c ∧ PutSendHint true c [1; 2] 70 = Done c' ∧
    key_names (g_NameFifo c') = [[1; 2]].
Proof.
  destruct (CreateCache_ok 1000) as (c & Hc & He). pose proof (ce_fifos _ _ He) as (_ & Hf & _ & _).
  assert (GetSendHint c [1; 2] = false) as Hn.
  { unfold GetSendHint. rewrite (proj2 (hint_search _ _ _ (ce_send _ _ He))); [done|].
    rewrite Hf. apply not_elem_of_nil. }
  destruct (PutSendHint_window true c [1; 2] 70 (ce_send _ _ He) Hn) as (c' & H1 & _ & H3 & _).
  exists c, c'. split; [exact Hc|]. split; [exact H1|]. rewrite H3, Hf. reflexivity.
Defined.

(** The memory cache is first in, first out: a chunk that is not cached is
    added last, the oldest chunks give way when the size exceeds the limit - as
    many as free twice the new size - every other chunk stays, and nothing
    fails. The size that is accounted exceeds the sizes of the entries by
    [sizeof(CacheValue)] bytes for every eviction there was, which is what it
    can exceed the limit by. *)
Theorem PutMemory_fifo `{Digest} {HT VT : Type} `{!Table (list Z) Z HT} `{!Table (list Z) CacheValue VT}
    (evicted : Z) (c : cache HT VT) (n block : list Z) (len : Z)
    (new_size := sizeof_CacheKey + sizeof_CacheValue + len) (j := victims c new_size) :
  mem_inv evicted c → GetMemory c n = None → 0 ≤ len ≤ Z.of_nat (length block) →
  new_size < 2 ^ 30 → g_CacheSize c + new_size < 2 ^ 31 →
  ∃ c', PutMemory c n block len = Done c' ∧ mem_inv (evicted + Z.of_nat j) c' ∧
    key_names (g_CacheFifo c') = key_names (drop j (g_CacheFifo c)) ++ [n] ∧
    (∀ n', GetMemory c' n' =
       if decide (n' = n) then Some {| cv_pBlock := slice block 0 (Z.to_nat len);
                                       cv_block_length := len; cv_ref_count := 1 |}
       else if decide (n' ∈ key_names (take j (g_CacheFifo c))) then None else GetMemory c n') ∧
    (g_CacheSize c ≤ _maxCacheSize c → 0 < len →
     g_CacheSize c' ≤ Z.max (_maxCacheSize c) (new_size + sizeof_CacheValue * (evicted + Z.of_nat j))).
Proof.
  intros Hinv Hno Hlen Hns Hr.
  destruct (PutMemory_ok evicted c n block len Hinv Hno Hlen Hns Hr)
    as (ht & ks & sz & He & Hi & Hs & Hsz).
  fold new_size in He, Hi, Hs, Hsz. fold j in He, Hi, Hs, Hsz.
  eexists. split; [exact He|]. split_and!; [exact Hi| |exact Hs|].
  - unfold key_names. cbn [set_mem g_CacheFifo]. by rewrite fmap_app.
  - cbn [set_mem g_CacheSize]. intros Hmax Hl0.
    assert (0 < new_size) by (unfold new_size, sizeof_CacheValue; pose proof sizeof_CacheKey_pos; lia).
    assert (∀ l, Forall (λ k, 0 ≤ ck_block_length k < 2 ^ 31) l →
      sum_Z (ck_block_length <$> l) ≤ sum_Z ((λ k, sizeof_CacheKey + ck_block_length k) <$> l)) as Hle.
    { intros l Hl. pose proof sizeof_CacheKey_pos. induction Hl as [|x l Hx _ IH]; [done|].
      cbn. unfold sum_Z in *. lia. }
    pose proof (mem_inv_lengths _ _ Hinv) as Hfl.
    unfold victims in j. destruct (Z.leb_spec (g_CacheSize c + new_size) (_maxCacheSize c)) as [Hf|Hf].
    { subst j. rewrite take_0 in Hsz. cbn in Hsz. lia. }
    destruct (num_victims_frees (new_size * 2) (g_CacheFifo c)) as [Hfree|Hall].
    + eapply Forall_impl; [exact Hfl|]. cbn. lia.
    + fold j in Hfree. specialize (Hle (take j (g_CacheFifo c)) ltac:(by apply Forall_take)). lia.
    + fold j in Hall. destruct Hi as [_ _ _ _ Hi _].
      cbn [set_mem g_CacheFifo g_CacheSize] in Hi. rewrite Hall, drop_all in Hi. rewrite Hi, Hall. cbn.
      unfold entry_size. cbn. fold new_size. lia.
Qed.

Lemma PutMemory_fifo_witness :
  let H := toy_digest in
  ∃ c c' : cache (@hashtable (list Z) Z) (@hashtable (list Z) CacheValue),
    CreateCache 1000 = Done c ∧ PutMemory c [1; 2] [7; 8; 9] 2 = Done c' ∧
    GetMemory c' [1; 2] =
      Some {| cv_pBlock := [7; 8]; cv_block_length := 2; cv_ref_count := 1 |}.
Proof.
  intros H. destruct (CreateCache_ok 1000) as (c & Hc & He).
  pose proof (ce_fifos _ _ He) as (Hf & _ & _ & Hsz). pose proof (ce_mem _ _ He) as Hm.
  assert (GetMemory c [1; 2] = None) as Hn.
  { apply (mem_inv_search 0 c); [exact Hm|]. rewrite Hf. apply not_elem_of_nil. }
  destruct (PutMemory_fifo 0 c [1; 2] [7; 8; 9] 2 Hm Hn) as (c' & H1 & _ & _ & H4 & _).
  - cbn. lia.
  - vm_compute. reflexivity.
  - rewrite Hsz. vm_compute. reflexivity.
  - exists c, c'. split; [exact Hc|]. split; [exact H1|]. rewrite H4. reflexivity.
Defined.

(** One use of the temporary cache. *)
Inductive tmp_op := TmpPut (n block : list Z) | TmpFlush (n : list Z).

Definition run_tmp {HT VT : Type} `{!Table (list Z) Z HT} `{!Table (list Z) CacheValue VT}
    (c : cache HT VT) (op : tmp_op) : outcome (cache HT VT) :=
  match op with
  | TmpPut n block => RefPutChunkCallback c n block (Z.of_nat (length block))
  | TmpFlush n => RefFlushChunk c n
  end.

(** The abstract cache; [None] when a name is flushed that nobody holds. *)
Definition run_refs (R : refs) (op : tmp_op) : option refs :=
  match op with
  | TmpPut n block => if decide (block = []) then Some R else Some (ref_put R n block)
  | TmpFlush n => if decide (ref_count R n = 0%nat) then None else Some (ref_flush R n)
  end.

Fixpoint run_all_refs (R : refs) (ops : list tmp_op) : option refs :=
  match ops with [] => Some R | op :: ops' => R' ← run_refs R op; run_all_refs R' ops' end.

(** C9: the temporary cache refines a map from names to a reference count and
    a block: any sequence of puts and flushes in which no name is flushed more
    often than it was put runs without failing; a name is found while it is
    held, with the block of the put that brought it in and its count. *)
Theorem temporary_cache_refines {HT VT : Type} `{!Table (list Z) Z HT}
    `{!Table (list Z) CacheValue VT} (ops : list tmp_op) (c : cache HT VT) (R R' : refs) :
  tmp_is c R → run_all_refs R ops = Some R' →
  Forall (λ op, match op with TmpPut _ b => Z.of_nat (length b) ≤ MAX_CHUNK_SIZE | _ => True end) ops →
  (∀ n, Z.of_nat (ref_count R n + length ops) < 2 ^ 31 - 1) →
  ∃ c', foldM run_tmp c ops = Done c' ∧ tmp_is c' R' ∧
    (∀ n, SearchCache c' n = ref_value <$> R' !! n) ∧
    mem_ht c' = mem_ht c ∧ send_hint_ht c' = send_hint_ht c.
Proof.
  revert c R. induction ops as [|op ops IH]; intros c R Hi Hrun Hl Hb.
  { injection Hrun as ->. exists c. split_and!; try done. intros n. by apply SearchCache_ok. }
  cbn [run_all_refs] in Hrun. destruct (run_refs R op) as [R1|] eqn:E; [|done]. cbn in Hrun.
  apply Forall_cons_1 in Hl as [Hop Hl]. cbn [length] in Hb.
  assert (∃ ht, run_tmp c op = Done (set_tmp ht c) ∧ tmp_is (set_tmp ht c) R1 ∧
    ∀ n, (ref_count R1 n ≤ S (ref_count R n))%nat) as (ht & He & Hi1 & Hc1).
  { destruct op as [n block|n]; cbn [run_tmp run_refs] in *.
    - case_decide as Hne; injection E as <-.
      + subst block. cbn. exists (tmp_ht c). replace (set_tmp _ c) with c by (by destruct c).
        split_and!; [done|done|]. intros n'. lia.
      + assert (0 < length block)%nat by (destruct block; [done|cbn; lia]).
        destruct (RefPutChunkCallback_ok c R n block (Z.of_nat (length block)) Hi)
          as (ht & He & Hi1); [lia|done|specialize (Hb n); lia|].
        rewrite Nat2Z.id, slice_full in Hi1 by done. exists ht. split_and!; [done|done|].
        intros n'. rewrite ref_count_put. case_decide; lia.
    - case_decide as Hne; [done|]. injection E as <-.
      destruct (RefFlushChunk_ok c R n Hi) as (ht & He & Hi1); [lia|specialize (Hb n); lia|].
      exists ht. split_and!; [done|done|]. intros n'. rewrite ref_count_flush. lia. }
  destruct (IH _ _ Hi1 Hrun Hl) as (c' & He' & Hi' & Hs & H1 & H2).
  { intros n. specialize (Hb n). specialize (Hc1 n). lia. }
  exists c'. cbn [foldM]. rewrite He. cbn [mbind outcome_bind]. by split_and!.
Qed.

Lemma temporary_cache_refines_witness :
  ∃ c c' : cache (@hashtable (list Z) Z) (@hashtable (list Z) CacheValue),
    CreateCache 1000 = Done c ∧
    foldM run_tmp c [TmpPut [1; 2] [7; 8]; TmpPut [1; 2] [7; 8]; TmpFlush [1; 2]] = Done c' ∧
    SearchCache c' [1; 2] =
      Some {| cv_pBlock := [7; 8]; cv_block_length := 2; cv_ref_count := 1 |}.
Proof.
  destruct (CreateCache_ok 1000) as (c & Hc & He).
  destruct (temporary_cache_refines [TmpPut [1; 2] [7; 8]; TmpPut [1; 2] [7; 8]; TmpFlush [1; 2]]
    c ∅ _ (ce_tmp _ _ He) eq_refl) as (c' & H1 & _ & H3 & _).
  - repeat constructor; discriminate.
  - intros n. vm_compute. reflexivity.
  - exists c, c'. split; [exact Hc|]. split; [exact H1|]. rewrite H3. reflexivity.
Defined.

(** An acknowledgement destroys exactly the leading chunk buffers it
    covers (all of them when it is 0), releases the references these held - no
    more and no less - and turns their misses into hints without failing. *)
Theorem DestroyChunkBufferList_releases {HT VT : Type} `{!Table (list Z) Z HT}
    `{!Table (list Z) CacheValue VT} (gen : bool) (cbl : list ChunkBuffer) (c : cache HT VT)
    (R : refs) (ack : Z) (upd : bool) :
  tmp_is c R → Forall buffer_ok cbl → hint_inv (send_hint_ht c) (g_NameFifo c) →
  (∀ n, (held n cbl ≤ ref_count R n)%nat) → (∀ n, Z.of_nat (ref_count R n) < 2 ^ 31) →
  ∃ c' R' k, DestroyChunkBufferList gen c cbl ack upd = Done (c', drop k cbl, k) ∧
    tmp_is c' R' ∧ hint_inv (send_hint_ht c') (g_NameFifo c') ∧
    (∀ n, ref_count R' n = (ref_count R n - held n (take k cbl))%nat) ∧
    (∀ n, (held n (drop k cbl) ≤ ref_count R' n)%nat) ∧
    Forall (λ cb, ¬ unacked ack cb) (take k cbl) ∧
    (∀ cb, head (drop k cbl) = Some cb → unacked ack cb).
Proof.
  intros Hi Hok Hh Hheld Hb.
  destruct (DestroyChunkBufferList_ok gen cbl c R ack upd Hi Hok Hh Hheld Hb)
    as (c' & R' & k & H1 & Hk & _ & H2 & H3 & H4 & H5 & H6).
  exists c', R', k. split_and!; try done. intros n. rewrite H4. specialize (Hheld n).
  rewrite <-(take_drop k cbl) in Hheld. unfold held in *. rewrite sum_list_with_app in Hheld. lia.
Qed.

Lemma DestroyChunkBufferList_releases_witness :
  ∃ (c c' : cache (@hashtable (list Z) Z) (@hashtable (list Z) CacheValue)) rest k,
    CreateCache 1000 = Done c ∧
    DestroyChunkBufferList true c
      [{| cb_pMRC := []; cb_chunkList := []; cb_seq_no := 0; cb_length := 10; cb_lowLevel := 0 |};
       {| cb_pMRC := []; cb_chunkList := []; cb_seq_no := 10; cb_length := 10; cb_lowLevel := 0 |}]
      10 true = Done (c', rest, k) ∧ k = 1%nat.
Proof.
  destruct (CreateCache_ok 1000) as (c & Hc & He).
  destruct (DestroyChunkBufferList_releases true
      [{| cb_pMRC := []; cb_chunkList := []; cb_seq_no := 0; cb_length := 10; cb_lowLevel := 0 |};
       {| cb_pMRC := []; cb_chunkList := []; cb_seq_no := 10; cb_length := 10; cb_lowLevel := 0 |}]
    c ∅ 10 true (ce_tmp _ _ He)) as (c' & R' & k & H1 & _ & _ & _ & _ & H6 & H7).
  - repeat constructor; cbn; done.
  - exact (ce_send _ _ He).
  - intros n. reflexivity.
  - intros n. vm_compute. reflexivity.
  - eexists c, c', _, k. split; [exact Hc|]. split; [exact H1|].
    destruct k as [|[|k]]; [|reflexivity|].
    + destruct (H7 _ eq_refl) as [_ Hlt]. vm_compute in Hlt. discriminate.
    + inversion_clear H6 as [|? ? _ H8]. cbn in H8. apply Forall_cons_1 in H8 as [H8 _].
      destruct H8. split; [discriminate|vm_compute; reflexivity].
Defined.
