(* ===== verification/Sender.v ===== *)
(** * The sender

    [ProcessOneRabinChunking2] of [src/waprox/waprox.c]: a chunk of the user's
    stream is cut, its candidates are chosen, the chunk buffer that holds them
    until they are acknowledged is created, and the name tree message is built.
    The main theorem is the round trip with the receiver's reading of it. *)

From Stdlib Require Import ZArith Lia.
From stdpp Require Import base list option numbers sets gmap.
From S2P Require Import Prelude Bytes Rabin Mrc MrcLevels MrcTree MrcResolve MrcCandidates.
From S2P Require Import MrcTheorems Protocol Hashtable ChunkCache.

Section sender.
Context `{Digest} {HT VT : Type} `{!Table (list Z) Z HT} `{!Table (list Z) CacheValue VT}.

(** The fields of [UserConnectionInfo] the function uses. *)
Record UserConnection := {
  uci_conn : ConnectionID;
  uci_rctx : RabinCtx;
  uci_numChunks : Z;
  uci_bytesTX : Z;
  uci_chunkBufferList : list ChunkBuffer;
  uci_numChunkBuffers : Z
}.

(** The globals: the caches and the static arrays of [mrc_tree.c]. *)
Record globals := {
  gl_cache : cache HT VT;
  gl_pNames : list OneChunkName;
  gl_pli : list MRCPerLevelInfo
}.

Definition ProcessOneRabinChunking2 (mem : nat → Z) (g : MRCParams) (g_SkipFirstChunk : bool)
    (gl : globals) (uci : UserConnection) (psrc : list Z) (buf_len : Z)
    : outcome (globals * UserConnection * list Z * Z) :=
  pm ← DoPreMRC g (gl_pNames gl) (gl_pli gl) (uci_rctx uci) psrc buf_len;
  _ ← c_assert (0 <? pm_numNames pm)%nat;
  _ ← c_assert (pm_rb_size pm <=? buf_len);
  let c := uci_conn uci in
  let uci := {| uci_conn := c; uci_rctx := pm_rctx pm; uci_numChunks := uci_numChunks uci + 1;
                uci_bytesTX := uci_bytesTX uci; uci_chunkBufferList := uci_chunkBufferList uci;
                uci_numChunkBuffers := uci_numChunkBuffers uci |} in
  if g_SkipFirstChunk && (uci_numChunks uci <=? 1) then
    chunk ← load psrc 0 (Z.to_nat (pm_rb_size pm));
    msg ← BuildWARawMessage mem (srcIP c) (srcPort c) (dstIP c) (dstPort c) chunk;
    Done ({| gl_cache := gl_cache gl; gl_pNames := pm_names pm; gl_pli := pm_pli pm |},
          uci, msg, pm_rb_size pm)
  else
    names ← MakeTree (pm_pli pm) (pm_maxLevel pm) (pm_names pm) (pm_numNames pm);
    '(names, lowLevel) ←
      ResolveWithHint (GetSendHint (gl_cache gl)) (GetDiskHint (gl_cache gl)) names
        (pm_numNames pm) psrc (pm_rb_size pm) (pm_pli pm) (pm_maxLevel pm) true;
    _ ← c_assert (lowLevel <? pm_maxLevel pm)%nat;
    '(names, candidateList) ← GetCandidateList2 g names (pm_numNames pm) (pm_pli pm) lowLevel;
    '(newmsg_len, numItems) ← GetCandidateMessageLength candidateList;
    '(cc, newChunk) ←
      CreateNewChunkBuffer2 g (gl_cache gl) psrc (pm_rb_size pm) (uci_bytesTX uci) names
        (pm_numNames pm) candidateList lowLevel;
    let uci := {| uci_conn := c; uci_rctx := uci_rctx uci; uci_numChunks := uci_numChunks uci;
                  uci_bytesTX := uci_bytesTX uci;
                  uci_chunkBufferList := uci_chunkBufferList uci ++ [newChunk];
                  uci_numChunkBuffers := uci_numChunkBuffers uci + 1 |} in
    msg ← BuildWANameTreeDelivery3 mem (srcIP c) (srcPort c) (dstIP c) (dstPort c) psrc names
            candidateList numItems newmsg_len;
    Done ({| gl_cache := cc; gl_pNames := names; gl_pli := pm_pli pm |}, uci, msg, pm_rb_size pm).

(** ** What the receiver can rebuild *)

(** [chunks] are the pieces of [psrc] from [a] to [b]: each carries the digest
    of its bytes, and the bytes themselves unless the hint table has its name
    and it is not a small chunk. *)
Fixpoint delivers (hinted : list Z → bool) (psrc : list Z) (a : Z) (chunks : list WAOneChunk)
    (b : Z) : Prop :=
  match chunks with
  | [] => a = b
  | c :: chunks' =>
      let piece := slice psrc (Z.to_nat a) (Z.to_nat (wc_length c)) in
      0 < wc_length c ∧ wc_sha1name c = Calc_SHA1Sig piece ∧
      wc_content c = (if (wc_length c <=? WAPROX_MIN_CHUNK_SIZE) || negb (hinted (wc_sha1name c))
                      then Some piece else None) ∧
      delivers hinted psrc (a + wc_length c) chunks' b
  end.

(** The bytes of the chunks, those without content being looked up by name. *)
Definition rebuild (find : list Z → list Z) (chunks : list WAOneChunk) : list Z :=
  concat ((λ c, match wc_content c with Some b => b | None => find (wc_sha1name c) end) <$> chunks).

Lemma delivers_rebuild hinted psrc chunks find : ∀ a b,
  delivers hinted psrc a chunks b → 0 ≤ a → b ≤ Z.of_nat (length psrc) →
  (∀ o n : nat, hinted (Calc_SHA1Sig (slice psrc o n)) = true →
     find (Calc_SHA1Sig (slice psrc o n)) = slice psrc o n) →
  a ≤ b ∧ rebuild find chunks = slice psrc (Z.to_nat a) (Z.to_nat (b - a)).
Proof.
  induction chunks as [|c chunks IH]; intros a b Hd Ha Hb Hf; cbn [delivers] in Hd.
  - subst. split; [lia|]. by rewrite Z.sub_diag.
  - destruct Hd as (Hl & Hs & Hc & Hd). destruct (IH _ _ Hd) as [Hle Hr]; [lia|done|done|].
    split; [lia|]. unfold rebuild in *. cbn [fmap list_fmap concat]. rewrite Hr.
    set (piece := slice psrc (Z.to_nat a) (Z.to_nat (wc_length c))) in *.
    assert ((match wc_content c with Some b => b | None => find (wc_sha1name c) end) = piece) as ->.
    { rewrite Hc. destruct (_ || _) eqn:E; [done|]. apply orb_false_iff in E as [_ E].
      apply negb_false_iff in E. rewrite Hs in E |- *. by apply Hf. }
    unfold piece. replace (Z.to_nat (b - a)) with (Z.to_nat (wc_length c) + Z.to_nat (b - (a + wc_length c)))%nat by lia.
    rewrite slice_split. do 2 f_equal. lia.
Qed.

(** ** Invariant of the sender *)

Record sender_ok (g : MRCParams) (gl : globals) (uci : UserConnection) (R : refs) : Prop := {
  so_names : length (gl_pNames gl) = g_maxNames g;
  so_pli : length (gl_pli gl) = g_maxLevel g;
  so_tmp : tmp_is (gl_cache gl) R;
  so_hints : hint_inv (send_hint_ht (gl_cache gl)) (g_NameFifo (gl_cache gl));
  so_buffers : Forall buffer_ok (uci_chunkBufferList uci);
  so_held : ∀ n, (held n (uci_chunkBufferList uci) ≤ ref_count R n)%nat;
  so_conn : conn_ok (uci_conn uci)
}.

Lemma consecutive_bounds cs : ∀ a b,
  consecutive a cs b → a ≤ b ∧
  Forall (λ c, a ≤ ca_offset c ∧ 0 < ca_length c ∧ ca_offset c + ca_length c ≤ b) cs ∧
  sum_Z (ca_length <$> cs) = b - a ∧ Z.of_nat (length cs) ≤ b - a.
Proof.
  induction cs as [|c cs IH]; intros a b; cbn [consecutive].
  - intros ->. split_and!; [lia|constructor|cbn; lia|cbn; lia].
  - intros (Ho & Hl & Hc). destruct (IH _ _ Hc) as (Hle & Hf & Hs & Hn).
    cbn [fmap list_fmap length]. change (sum_Z (ca_length c :: (ca_length <$> cs))) with
      (ca_length c + sum_Z (ca_length <$> cs)).
    split_and!; [lia| |lia|lia]. constructor; [lia|]. eapply Forall_impl; [exact Hf|]. cbn. lia.
Qed.

(** The candidates of a chunk are what the message builder expects. *)
Lemma candidates_in hint disk psrc names cs rb :
  consecutive 0 cs rb → rb ≤ Z.of_nat (length psrc) → rb < 2 ^ 31 →
  Forall (candidate_ok hint disk psrc true) cs →
  Forall (λ c, ∃ n, get_at names (ca_index c) = Done n ∧ c = candidate_of n) cs →
  Forall (candidate_in psrc names) cs.
Proof.
  intros Hc Hrb Hi Hok Hix. destruct (consecutive_bounds _ _ _ Hc) as (_ & Hf & _ & _).
  rewrite Forall_forall in *. intros c Hin. destruct (Hf c Hin) as (H1 & H2 & H3).
  destruct (Hok c Hin) as [Hn _]. destruct (Hix c Hin) as (n & Hg & ->).
  split; [lia|lia|lia| |by exists n]. rewrite Hn. apply digest_length.
Qed.

Lemma candidates_deliver hint disk psrc cs : ∀ a rb,
  consecutive a cs rb → Forall (candidate_ok hint disk psrc true) cs →
  delivers hint psrc a (chunk_of psrc <$> cs) rb.
Proof.
  induction cs as [|c cs IH]; intros a rb Hc Hok; cbn [consecutive] in Hc; [done|].
  destruct Hc as (<- & Hl & Hc). apply Forall_cons_1 in Hok as [[Hn Hh] Hok].
  cbn [fmap list_fmap delivers]. unfold chunk_of at 1 2 3 4 5 6 7.
  cbn [wc_length wc_sha1name wc_content]. split_and!; [done|done| |by apply IH].
  unfold has_content. rewrite Hh. cbn [hint_of].
  by destruct (ca_length c <=? WAPROX_MIN_CHUNK_SIZE), (hint (ca_sha1name c)).
Qed.

Lemma encode_size psrc names cs rb :
  consecutive 0 cs rb → Forall (candidate_in psrc names) cs →
  Z.of_nat (length (concat (encode_candidate psrc <$> cs))) ≤
    rb * (Z.of_nat SHA1_LEN + 6).
Proof.
  intros Hc Hin. destruct (consecutive_bounds _ _ _ Hc) as (_ & Hf & Hs & Hn).
  assert (Z.of_nat (length (concat (encode_candidate psrc <$> cs))) ≤
    Z.of_nat (length cs) * (Z.of_nat SHA1_LEN + 5) + sum_Z (ca_length <$> cs)) as Hle.
  { clear -Hin. induction Hin as [|c cs Hi _ IH]; [done|].
    cbn [fmap list_fmap concat length]. change (sum_Z (ca_length c :: (ca_length <$> cs))) with
      (ca_length c + sum_Z (ca_length <$> cs)).
    rewrite length_app. pose proof (length_encode _ _ _ Hi) as He. unfold sizeof_WAOneChunk in He.
    destruct Hi. destruct (has_content c); lia. }
  nia.
Qed.

Lemma DoPreMRC_size g names pli rctx psrc buf_len pm :
  DoPreMRC g names pli rctx psrc buf_len = Done pm → pm_rb_size pm ≤ MAX_CHUNK_SIZE.
Proof.
  unfold DoPreMRC. destruct (_ <=? _); [done|]. intros Hd. inv_done.
  destruct x1 as [[rctx' bs] rb]. inv_done. destruct x7 as [st' lv]. inv_done. subst pm.
  cbn [pm_rb_size]. rewrite Z.leb_le in *. lia.
Qed.

(** The work of the function from the candidates on. *)
Lemma chunk_buffer_ok g gl uci R pm names low cands psrc :
  sender_ok g gl uci R → consecutive 0 cands (pm_rb_size pm) →
  0 < pm_rb_size pm ≤ Z.of_nat (length psrc) → pm_rb_size pm ≤ MAX_CHUNK_SIZE →
  (0 < pm_numNames pm ≤ g_maxNames g)%nat → length names = g_maxNames g →
  (∀ l n, take (pm_numNames pm) names !! l = Some n → cn_level n ≤ Z.of_nat low →
     cn_isHit n = false → cn_isSha1Ready n = true) →
  (∀ n, Z.of_nat (ref_count R n) + MAX_CHUNK_SIZE < 2 ^ 31) →
  ∃ t cb R', CreateNewChunkBuffer2 g (gl_cache gl) psrc (pm_rb_size pm) (uci_bytesTX uci) names
      (pm_numNames pm) cands low = Done (set_tmp t (gl_cache gl), cb) ∧
    buffer_ok cb ∧ cb_chunkList cb = cands ∧ cb_seq_no cb = uci_bytesTX uci ∧
    cb_length cb = pm_rb_size pm ∧
    tmp_is (set_tmp t (gl_cache gl)) R' ∧
    ∀ n, ref_count R' n = (ref_count R n + occ n cands)%nat.
Proof.
  intros [_ _ Htmp _ _ _ _] Hcons Hrb Hmax Hnum Hlen Hready Hrefs.
  destruct (consecutive_bounds _ _ _ Hcons) as (_ & Hf & Hs & Hn).
  unfold CreateNewChunkBuffer2, CreateNewChunkBuffer.
  rewrite (proj2 (Z.ltb_lt 0 _)), (proj2 (Nat.ltb_lt 0 _)), (proj2 (Nat.leb_le _ (g_maxNames g))) by lia.
  rewrite (proj2 (Nat.leb_le _ (length names))) by lia.
  cbn [c_assert mbind outcome_bind cb_pMRC cb_seq_no cb_length].
  destruct (PutTempCacheCandidateList_ok (gl_cache gl) R psrc (pm_rb_size pm) cands Htmp)
    as (t & R' & He & Ht & Hc).
  - lia.
  - lia.
  - eapply Forall_impl; [exact Hf|]. cbn. lia.
  - intros n. specialize (Hrefs n). lia.
  - rewrite He. cbn [mbind outcome_bind].
    exists t. do 2 eexists. split; [done|]. cbn [cb_chunkList cb_seq_no cb_length].
    split_and!; [|done|done|done|exact Ht|exact Hc].
    split; cbn [cb_lowLevel cb_pMRC]; [lia|]. intros l n Hl Hlv. apply (Hready l n Hl).
    by apply (Hlv l n).
Qed.

Lemma sender_step mem g skip gl uci R psrc buf_len :
  skip = false ∨ 1 ≤ uci_numChunks uci →
  sender_ok g gl uci R → params_ok g → mrc_call_ok g (uci_rctx uci) psrc buf_len →
  (∀ n, Z.of_nat (ref_count R n) + MAX_CHUNK_SIZE < 2 ^ 31) →
  ∃ gl' uci' msg rb R' cands,
    ProcessOneRabinChunking2 mem g skip gl uci psrc buf_len = Done (gl', uci', msg, rb) ∧
    0 < rb ≤ buf_len ∧ rb ≤ MAX_CHUNK_SIZE ∧
    sender_ok g gl' uci' R' ∧ rabin_ok WAPROX_RABIN_WINDOW (rp (uci_rctx uci')) ∧
    msg = name_delivery (uci_conn uci) psrc cands ∧
    Forall (candidate_in psrc (gl_pNames gl')) cands ∧ consecutive 0 cands rb ∧
    Forall (candidate_ok (GetSendHint (gl_cache gl)) (GetDiskHint (gl_cache gl)) psrc true) cands ∧
    (∀ n, ref_count R' n = (ref_count R n + occ n cands)%nat).
Proof.
  intros Hskip Hok Hg Hc Hrefs. pose proof Hok as [Hnm Hpl _ Hhint Hbuf Hheld Hconn].
  destruct (premrc_candidates g (gl_pNames gl) (gl_pli gl) (uci_rctx uci) psrc buf_len Hg Hc Hnm Hpl
    (GetSendHint (gl_cache gl)) (GetDiskHint (gl_cache gl)) true) as
    (pm & n0 & n1 & low & n2 & cands & K1 & K2 & K3 & K4 & K5 & K6 & K7 & K8 & K9 & K10 & _ & _ & K13 &
     K14 & K15 & K16).
  pose proof (DoPreMRC_size _ _ _ _ _ _ _ K1) as Hmax.
  assert (buf_len ≤ Z.of_nat (length psrc)) as Hlen by (pose proof (mc_len _ _ _ _ Hc); lia).
  assert (pm_rb_size pm < 2 ^ 31) as Hi by (unfold MAX_CHUNK_SIZE in Hmax; lia).
  assert (Forall (candidate_in psrc n2) cands) as Hin.
  { eapply candidates_in; [exact K9|lia|exact Hi|exact K10|exact K13]. }
  destruct (chunk_buffer_ok g gl uci R pm n2 low cands psrc Hok K9) as
    (t & cb & R' & Hcb & B1 & B2 & B3 & B4 & B5 & B6); [lia|done|done|done|done|done|].
  unfold ProcessOneRabinChunking2. rewrite K1. cbn [mbind outcome_bind].
  rewrite (proj2 (Nat.ltb_lt 0 _)), (proj2 (Z.leb_le (pm_rb_size pm) buf_len)) by lia.
  cbn [c_assert mbind outcome_bind uci_numChunks uci_bytesTX uci_rctx uci_chunkBufferList
    uci_numChunkBuffers].
  assert (skip && (uci_numChunks uci + 1 <=? 1) = false) as ->.
  { destruct Hskip as [->| ]; [done|]. by rewrite (proj2 (Z.leb_gt _ _)), andb_false_r by lia. }
  rewrite K2. cbn [mbind outcome_bind]. rewrite K3. cbn [mbind outcome_bind].
  rewrite (proj2 (Nat.ltb_lt low _)) by done. cbn [c_assert mbind outcome_bind].
  rewrite K4. cbn [mbind outcome_bind].
  rewrite (GetCandidateMessageLength_ok psrc n2 cands 0 (pm_rb_size pm)) by done.
  cbn [mbind outcome_bind]. rewrite Hcb. cbn [mbind outcome_bind].
  rewrite (BuildWANameTreeDelivery3_ok mem (uci_conn uci) psrc n2 cands (pm_rb_size pm)) by done.
  cbn [mbind outcome_bind]. do 4 eexists. exists R', cands. split; [done|].
  cbn [gl_pNames uci_rctx]. split_and!; try done; try lia.
  split; cbn [gl_pNames gl_pli gl_cache uci_chunkBufferList uci_conn set_tmp send_hint_ht g_NameFifo];
    try done.
  - by apply Forall_app; split; [|constructor].
  - intros n. specialize (Hheld n). rewrite B6. unfold held in *. rewrite sum_list_with_app. cbn.
    rewrite B2. lia.
Qed.
End sender.
Arguments globals : clear implicits.
(** ** The theorem *)

Lemma foldM_collect {A} (l l0 : list A) :
  foldM (λ acc x, Done (acc ++ [x])) l0 l = Done (l0 ++ l).
Proof.
  revert l0. induction l as [|x l IH]; intros l0; cbn; [by rewrite app_nil_r|].
  by rewrite IH, <-app_assoc.
Qed.


#[local] Existing Instance toy_digest.

