(* ===== verification/Rearrange.v ===== *)
(** * Rearranging a range of an array

    What the sorts of the program share: an array whose entries from one index
    to another have been rearranged, what holds of all entries of a range, and
    how two sorted ranges around a pivot make one.  Indices are C [int]s, so a
    range may be empty or start below zero. *)

From Stdlib Require Import ZArith Lia.
From stdpp Require Import base list option numbers sorting.
From S2P Require Import Prelude.

Section Rearranged.
Context {A : Type}.
Implicit Types (ws : list A) (lo hi a b : Z) (P Q : A → Prop).

(** [ws'] is [ws] with the entries from [lo] to [hi] rearranged. *)
Record rearranged lo hi ws ws' : Prop := {
  ra_perm : ws ≡ₚ ws';
  ra_out : ∀ k : nat, Z.of_nat k < lo ∨ hi < Z.of_nat k → ws' !! k = ws !! k;
  ra_in : ∀ P,
    (∀ (k : nat) x, lo ≤ Z.of_nat k ≤ hi → ws !! k = Some x → P x) →
    ∀ (k : nat) x, lo ≤ Z.of_nat k ≤ hi → ws' !! k = Some x → P x
}.

Lemma rearranged_refl lo hi ws : rearranged lo hi ws ws.
Proof. split; [done|done|]. intros P HP. exact HP. Qed.

Lemma rearranged_trans lo hi ws1 ws2 ws3 :
  rearranged lo hi ws1 ws2 → rearranged lo hi ws2 ws3 → rearranged lo hi ws1 ws3.
Proof.
  intros [Hp1 Ho1 Hi1] [Hp2 Ho2 Hi2]. split.
  - by rewrite Hp1.
  - intros k Hk. by rewrite Ho2, Ho1.
  - intros P HP. by apply Hi2, Hi1.
Qed.

Lemma rearranged_weaken lo hi lo' hi' ws ws' :
  rearranged lo hi ws ws' → lo' ≤ lo → hi ≤ hi' → rearranged lo' hi' ws ws'.
Proof.
  intros [Hp Ho Hi] Hl Hh. split; [done| |].
  - intros k Hk. apply Ho. lia.
  - intros P HP k x Hk Hx. destruct (decide (lo ≤ Z.of_nat k ≤ hi)) as [Hin|Hout].
    + eapply (Hi P); [|exact Hin|exact Hx]. intros k' x' Hk' Hx'. apply (HP k' x'); [lia|done].
    + rewrite Ho in Hx by lia. by apply (HP k x).
Qed.

Lemma rearranged_length lo hi ws ws' : rearranged lo hi ws ws' → length ws' = length ws.
Proof. intros [Hp _ _]. by rewrite Hp. Qed.

(** Exchanging two entries of the range. *)
Lemma rearranged_swap lo hi ws (i j : nat) x y :
  ws !! i = Some x → ws !! j = Some y → lo ≤ Z.of_nat i ≤ hi → lo ≤ Z.of_nat j ≤ hi →
  rearranged lo hi ws (<[j := x]> (<[i := y]> ws)).
Proof.
  intros Hx Hy Hi Hj. split.
  - symmetry. by apply Permutation_insert_swap.
  - intros k Hk. rewrite !list_lookup_insert_ne by lia. done.
  - intros P HP k z Hk Hz. destruct (decide (k = j)) as [->|Hkj].
    { rewrite list_lookup_insert_eq in Hz.
      2: { rewrite length_insert. by eapply lookup_lt_Some. }
      injection Hz as <-. by apply (HP i). }
    rewrite list_lookup_insert_ne in Hz by done. destruct (decide (k = i)) as [->|Hki].
    { rewrite list_lookup_insert_eq in Hz by (by eapply lookup_lt_Some).
      injection Hz as <-. by apply (HP j). }
    rewrite list_lookup_insert_ne in Hz by done. by apply (HP k).
Qed.

(** All entries at the indices from [a] to [b] satisfy [P]. *)
Definition on_range ws a b P : Prop :=
  ∀ (k : nat) x, a ≤ Z.of_nat k ≤ b → ws !! k = Some x → P x.

Lemma on_range_app ws a b c P : on_range ws a b P → on_range ws (b + 1) c P → on_range ws a c P.
Proof.
  intros H1 H2 k x Hk Hx. destruct (decide (Z.of_nat k ≤ b)); [apply (H1 k)|apply (H2 k)]; done || lia.
Qed.

Lemma on_range_weaken ws a b a' b' P Q :
  on_range ws a b P → a ≤ a' → b' ≤ b → (∀ x, P x → Q x) → on_range ws a' b' Q.
Proof. intros H Ha Hb HPQ k x Hk Hx. apply HPQ, (H k); [lia|done]. Qed.

Lemma on_range_at ws a b k x P :
  on_range ws a b P → 0 ≤ k → a ≤ k ≤ b → ws !! Z.to_nat k = Some x → P x.
Proof. intros H Hk Hr Hx. apply (H (Z.to_nat k)); [lia|done]. Qed.

Lemma on_range_one ws a x P : 0 ≤ a → ws !! Z.to_nat a = Some x → P x → on_range ws a a P.
Proof. intros Ha Hx HP k y Hk Hy. assert (k = Z.to_nat a) as -> by lia. congruence. Qed.

Lemma on_range_empty ws a b P : b < a → on_range ws a b P.
Proof. intros Hab k x Hk. lia. Qed.

Lemma on_range_rearranged ws ws' lo hi a b P :
  rearranged lo hi ws ws' → on_range ws a b P → a ≤ lo → hi ≤ b → on_range ws' a b P.
Proof.
  intros Hra HP Ha Hb k x Hk Hx.
  by apply (ra_in _ _ _ _ (rearranged_weaken _ _ a b _ _ Hra Ha Hb) P HP k).
Qed.

Lemma on_range_outside ws ws' lo hi a b P :
  rearranged lo hi ws ws' → on_range ws a b P → b < lo ∨ hi < a → on_range ws' a b P.
Proof.
  intros Hra HP Hb k x Hk Hx. rewrite (ra_out _ _ _ _ Hra) in Hx by lia. by apply (HP k).
Qed.

Lemma on_range_insert ws (i : nat) y a b P :
  on_range ws a b P → ¬ a ≤ Z.of_nat i ≤ b → on_range (<[i := y]> ws) a b P.
Proof. intros HP Hi k x Hk Hx. rewrite list_lookup_insert_ne in Hx by lia. by apply (HP k). Qed.

Lemma lookup_at ws k :
  0 ≤ k < Z.of_nat (length ws) → ∃ x, get_at ws k = Done x ∧ ws !! Z.to_nat k = Some x.
Proof.
  intros Hk. destruct (lookup_lt_is_Some_2 ws (Z.to_nat k)) as [x Hx]; [lia|].
  exists x. split; [|done]. unfold get_at, get. rewrite (proj2 (Z.ltb_ge _ _)) by lia. by rewrite Hx.
Qed.
End Rearranged.

(** ** Sorted ranges *)

Section Sorted.
Context {A : Type} (R : relation A) `{!PreOrder R}.
Implicit Types (ws : list A) (lo hi : Z).

Definition sorted_between ws lo hi : Prop :=
  ∀ (a b : nat) x y, lo ≤ Z.of_nat a → (a ≤ b)%nat → Z.of_nat b ≤ hi →
    ws !! a = Some x → ws !! b = Some y → R x y.

Lemma sorted_between_small ws lo hi : hi ≤ lo → sorted_between ws lo hi.
Proof. intros Hle a b x y Ha Hab Hb Hx Hy. assert (a = b) as -> by lia. by simplify_eq. Qed.

(** What the two recursive calls leave around the pivot [p] at index [i]. *)
Lemma sorted_between_join ws1 ws2 ws3 lo hi i p :
  lo ≤ i ≤ hi → 0 ≤ i → ws1 !! Z.to_nat i = Some p →
  on_range ws1 lo (i - 1) (λ x, R x p) → on_range ws1 (i + 1) hi (λ x, R p x) →
  rearranged lo (i - 1) ws1 ws2 → sorted_between ws2 lo (i - 1) →
  rearranged (i + 1) hi ws2 ws3 → sorted_between ws3 (i + 1) hi →
  rearranged lo hi ws1 ws3 ∧ sorted_between ws3 lo hi.
Proof.
  intros Hi Hi0 Hp Hlow Hhigh Hra2 Hs2 Hra3 Hs3. split.
  { apply (rearranged_trans _ _ _ ws2); eapply rearranged_weaken; eauto; lia. }
  pose proof (on_range_outside _ _ _ _ _ _ _ Hra3
    (on_range_rearranged _ _ _ _ _ _ _ Hra2 Hlow ltac:(lia) ltac:(lia)) ltac:(lia)) as Hlow3.
  pose proof (on_range_rearranged _ _ _ _ _ _ _ Hra3
    (on_range_outside _ _ _ _ _ _ _ Hra2 Hhigh ltac:(lia)) ltac:(lia) ltac:(lia)) as Hhigh3.
  assert (ws3 !! Z.to_nat i = Some p) as Hp3.
  { rewrite (ra_out _ _ _ _ Hra3), (ra_out _ _ _ _ Hra2); [done|lia|lia]. }
  intros a b y z Ha Hab Hb Hy Hz.
  destruct (decide (Z.of_nat b < i)) as [Hbi|Hbi].
  { rewrite (ra_out _ _ _ _ Hra3) in Hy, Hz by lia. apply (Hs2 a b); [done|done|lia|done|done]. }
  destruct (decide (i < Z.of_nat a)) as [Hai|Hai].
  { apply (Hs3 a b); [lia|done..]. }
  trans p.
  - destruct (decide (Z.of_nat a = i)) as [Hai'|].
    + assert (a = Z.to_nat i) as -> by lia. by simplify_eq.
    + apply (Hlow3 a); [lia|done].
  - destruct (decide (Z.of_nat b = i)) as [Hbi'|].
    + assert (b = Z.to_nat i) as -> by lia. by simplify_eq.
    + apply (Hhigh3 b); [lia|done].
Qed.
End Sorted.

Lemma StronglySorted_of_lookup {A} (R : relation A) (l : list A) :
  (∀ (i j : nat) x y, (i < j)%nat → l !! i = Some x → l !! j = Some y → R x y) → StronglySorted R l.
Proof.
  induction l as [|a l IH]; intros Hl; constructor.
  - apply IH. intros i j x y Hij Hi Hj. by apply (Hl (S i) (S j)); [lia|..].
  - apply Forall_forall. intros y Hy. apply list_elem_of_lookup in Hy as [j Hj].
    apply (Hl 0%nat (S j)); [lia|done|done].
Qed.
