(* ===== verification/Hrw.v ===== *)
(** * Rendezvous hashing

    [src/waprox/peer.c]: the hash of a chunk name, the weight of a server for
    a chunk, and [quickSort], which orders the weights.  Indices are C [int]s:
    the sort is called with [right] one below [left], and its scans start one
    below their range. *)

From Stdlib Require Import ZArith Lia.
From stdpp Require Import base list option numbers.
From S2P Require Import Prelude Bytes Rearrange.

Record ServerWeight := { sw_index : Z; sw_weight : Z }.

#[export] Instance ServerWeight_eq_dec : EqDecision ServerWeight.
Proof. solve_decision. Defined.

(** [_rotl] is defined outside of the repository.  The characters of a name are
    signed. *)
Definition ChunkHashString `{Digest} (rotl : Z → Z → Z) (name : list Z) (hash : Z) : outcome Z :=
  foldM (λ hash i, c ← get name i; Done (u32 (hash + u32 (rotl hash 19 + i8 c)))) hash
    (seq 0 SHA1_LEN).

Definition WrandHash (url_hash svr_hash : Z) : Z :=
  let url_digest := Z.land url_hash 0x7FFFFFFF in
  let svr_digest := Z.land svr_hash 0x7FFFFFFF in
  Z.land
    (u32 (1103515245 * Z.lxor (u32 (1103515245 * svr_digest + 12345)) url_digest + 12345))
    0x7FFFFFFF.

(** ** [quickSort] *)

Definition swap (ws : list ServerWeight) (left right : Z) : outcome (list ServerWeight) :=
  temp ← get_at ws left;
  x ← get_at ws right;
  ws ← put ws (Z.to_nat left) x;
  put ws (Z.to_nat right) temp.

(** [while (ws[++i].weight > cur.weight);] *)
Fixpoint scan_up (fuel : nat) (ws : list ServerWeight) (i cur : Z) : outcome Z :=
  match fuel with
  | O => Fault OutOfFuel
  | S fuel =>
      let i := i + 1 in
      x ← get_at ws i;
      if cur <? sw_weight x then scan_up fuel ws i cur else Done i
  end.

(** [while (j > 0) { if (ws[--j].weight >= cur.weight) break; }] *)
Fixpoint scan_down (fuel : nat) (ws : list ServerWeight) (j cur : Z) : outcome Z :=
  if 0 <? j then
    match fuel with
    | O => Fault OutOfFuel
    | S fuel =>
        let j := j - 1 in
        x ← get_at ws j;
        if cur <=? sw_weight x then Done j else scan_down fuel ws j cur
    end
  else Done j.

(** The loop that partitions; it returns the array and [i]. *)
Fixpoint partition (fuel : nat) (ws : list ServerWeight) (i j cur : Z)
    : outcome (list ServerWeight * Z) :=
  match fuel with
  | O => Fault OutOfFuel
  | S fuel =>
      i ← scan_up (S (length ws)) ws i cur;
      j ← scan_down (length ws) ws j cur;
      if j <=? i then Done (ws, i)
      else
        ws ← swap ws i j;
        partition fuel ws i j cur
  end.

Fixpoint quickSort_fuel (fuel : nat) (ws : list ServerWeight) (left right : Z)
    : outcome (list ServerWeight) :=
  if left <? right then
    match fuel with
    | O => Fault OutOfFuel
    | S fuel =>
        cur ← get_at ws right;
        '(ws, i) ← partition (S (length ws)) ws (left - 1) right (sw_weight cur);
        ws ← swap ws i right;
        ws ← quickSort_fuel fuel ws left (i - 1);
        quickSort_fuel fuel ws (i + 1) right
    end
  else Done ws.

Definition quickSort (ws : list ServerWeight) (left right : Z) : outcome (list ServerWeight) :=
  quickSort_fuel (length ws) ws left right.

(** ** Correctness of the sort *)

Lemma swap_ok ws (i j : nat) x y lo hi :
  ws !! i = Some x → ws !! j = Some y → lo ≤ Z.of_nat i ≤ hi → lo ≤ Z.of_nat j ≤ hi →
  ∃ ws', swap ws (Z.of_nat i) (Z.of_nat j) = Done ws' ∧ rearranged lo hi ws ws' ∧
    ws' !! i = Some y ∧ ws' !! j = Some x ∧
    ∀ k, k ≠ i → k ≠ j → ws' !! k = ws !! k.
Proof.
  intros Hx Hy Hi Hj. pose proof (lookup_lt_Some _ _ _ Hx). pose proof (lookup_lt_Some _ _ _ Hy).
  exists (<[j := x]> (<[i := y]> ws)).
  split_and!; [|by apply rearranged_swap| | |].
  - unfold swap. rewrite !get_at_nat, !Nat2Z.id. unfold get. rewrite Hx, Hy. cbn [mbind outcome_bind].
    unfold put. rewrite decide_True by done. cbn [mbind outcome_bind].
    by rewrite decide_True by (rewrite length_insert; done).
  - destruct (decide (i = j)) as [<-|].
    + rewrite list_lookup_insert_eq; [congruence|]. by rewrite length_insert.
    + by rewrite list_lookup_insert_ne, list_lookup_insert_eq.
  - rewrite list_lookup_insert_eq; [done|]. by rewrite length_insert.
  - intros k Hki Hkj. by rewrite !list_lookup_insert_ne.
Qed.

(** All weights at the indices from [a] to [b] satisfy [P]. *)
Definition within (ws : list ServerWeight) (a b : Z) (P : Z → Prop) : Prop :=
  on_range ws a b (λ x, P (sw_weight x)).

Lemma within_app ws a b c P : within ws a b P → within ws (b + 1) c P → within ws a c P.
Proof. apply on_range_app. Qed.

Lemma within_weaken ws a b a' b' (P Q : Z → Prop) :
  within ws a b P → a ≤ a' → b' ≤ b → (∀ z, P z → Q z) → within ws a' b' Q.
Proof. intros H Ha Hb HPQ. by eapply on_range_weaken; eauto. Qed.

Lemma within_at ws a b (k : Z) x (P : Z → Prop) :
  within ws a b P → 0 ≤ k → a ≤ k ≤ b → ws !! Z.to_nat k = Some x → P (sw_weight x).
Proof. apply (on_range_at _ _ _ _ _ (λ x, P (sw_weight x))). Qed.

Lemma within_one ws a x (P : Z → Prop) :
  0 ≤ a → ws !! Z.to_nat a = Some x → P (sw_weight x) → within ws a a P.
Proof. apply (on_range_one _ _ _ (λ x, P (sw_weight x))). Qed.

Lemma scan_up_ok fuel ws i cur (hi : Z) :
  - 1 ≤ i < hi → hi < Z.of_nat (length ws) → within ws hi hi (λ w, w ≤ cur) →
  hi - i ≤ Z.of_nat fuel →
  ∃ i' x, scan_up fuel ws i cur = Done i' ∧ i < i' ≤ hi ∧
    within ws (i + 1) (i' - 1) (λ w, cur < w) ∧
    ws !! Z.to_nat i' = Some x ∧ sw_weight x ≤ cur.
Proof.
  revert i. induction fuel as [|fuel IH]; intros i Hi Hlen Hhi Hf; [lia|].
  cbn [scan_up]. destruct (lookup_at ws (i + 1)) as (x & Hg & Hx); [lia|].
  rewrite Hg. cbn [mbind outcome_bind]. destruct (Z.ltb_spec cur (sw_weight x)) as [Hlt|Hle].
  - assert (i + 1 < hi) as Hlt'.
    { destruct (decide (i + 1 = hi)) as [Heq|]; [|lia]. subst hi.
      pose proof (within_at _ _ _ (i + 1) x _ Hhi ltac:(lia) ltac:(lia) Hx). cbn in *. lia. }
    destruct (IH (i + 1)) as (i' & y & He & Hr & Hw & Hy); [lia|done|done|lia|].
    exists i', y. split_and!; [done|lia|lia| |apply Hy|apply Hy].
    apply (within_app _ _ (i + 1)); [|exact Hw]. by apply (within_one _ _ x); [lia|..].
  - exists (i + 1), x. split_and!; [done|lia|lia| |done|done]. intros k y Hk. lia.
Qed.

Lemma scan_down_ok fuel ws j cur :
  0 ≤ j ≤ Z.of_nat (length ws) → j ≤ Z.of_nat fuel →
  ∃ j', scan_down fuel ws j cur = Done j' ∧ 0 ≤ j' ≤ j ∧ (0 < j → j' < j) ∧
    within ws (j' + 1) (j - 1) (λ w, w < cur) ∧
    (j' = 0 ∨ ∃ x, ws !! Z.to_nat j' = Some x ∧ cur ≤ sw_weight x).
Proof.
  revert j. induction fuel as [|fuel IH]; intros j Hj Hf; cbn [scan_down].
  { assert (j = 0) as -> by lia. cbn. exists 0. split_and!; [done|lia|lia|lia|intros k y Hk; lia|by left]. }
  destruct (Z.ltb_spec 0 j).
  - destruct (lookup_at ws (j - 1)) as (x & Hg & Hx); [lia|]. rewrite Hg. cbn [mbind outcome_bind].
    destruct (Z.leb_spec cur (sw_weight x)) as [Hle|Hlt].
    + exists (j - 1). split_and!; [done|lia|lia|lia| |right; by exists x].
      intros k y Hk. lia.
    + destruct (IH (j - 1)) as (j' & He & Hr & _ & Hw & Hs); [lia|lia|].
      exists j'. split_and!; [done|lia|lia|lia| |done].
      apply (within_app _ _ (j - 1 - 1)); [exact Hw|]. replace (j - 1 - 1 + 1) with (j - 1) by lia.
      by apply (within_one _ _ x); [lia|..].
  - exists j. assert (j = 0) as -> by lia. split_and!; [done|lia|lia|lia|intros k y Hk; lia|by left].
Qed.

(** What [partition] leaves: larger weights before [i], smaller ones after it,
    and the last entry in place. *)
Lemma partition_ok fuel ws i j cur lo r p :
  0 ≤ lo → lo - 1 ≤ i < j → 0 < j ≤ r → r < Z.of_nat (length ws) →
  ws !! Z.to_nat r = Some p → sw_weight p = cur →
  within ws lo i (λ w, cur ≤ w) → within ws j r (λ w, w ≤ cur) →
  j ≤ Z.of_nat fuel →
  ∃ ws' i', partition fuel ws i j cur = Done (ws', i') ∧
    rearranged lo (r - 1) ws ws' ∧ lo ≤ i' ≤ r ∧
    within ws' lo (i' - 1) (λ w, cur ≤ w) ∧ within ws' i' r (λ w, w ≤ cur).
Proof.
  revert ws i j. induction fuel as [|fuel IH]; intros ws i j Hlo Hij Hj Hr Hp Hc Hup Hdown Hf; [lia|].
  cbn [partition].
  destruct (scan_up_ok (S (length ws)) ws i cur j) as (i1 & x & He1 & Hi1 & Hw1 & Hx & Hxc);
    [lia|lia|eapply within_weaken; [exact Hdown|lia|lia|done]|lia|].
  rewrite He1. cbn [mbind outcome_bind].
  destruct (scan_down_ok (length ws) ws j cur) as (j1 & He2 & Hj1 & Hj1' & Hw2 & Hs2); [lia|lia|].
  rewrite He2. cbn [mbind outcome_bind].
  destruct (Z.leb_spec j1 i1) as [Hle|Hgt].
  - exists ws, i1. split_and!; [done|apply rearranged_refl|lia|lia| |].
    + apply (within_app _ _ i); [done|]. eapply within_weaken; [exact Hw1|lia|lia|]. cbn. lia.
    + apply (within_app _ _ i1); [by apply (within_one _ _ x); [lia|..]|].
      apply (within_app _ _ (j - 1)); [|by replace (j - 1 + 1) with j by lia].
      eapply within_weaken; [exact Hw2|lia|lia|]. cbn. lia.
  - destruct Hs2 as [->|(y & Hy & Hyc)]; [lia|].
    assert (i1 = Z.of_nat (Z.to_nat i1)) as Hni by lia. assert (j1 = Z.of_nat (Z.to_nat j1)) as Hnj by lia.
    destruct (swap_ok ws (Z.to_nat i1) (Z.to_nat j1) x y lo (r - 1) Hx Hy) as
      (ws1 & He3 & Hra & Hgi & Hgj & Hne); [lia|lia|].
    rewrite Hni, Hnj, He3, <-Hni, <-Hnj. cbn [mbind outcome_bind].
    pose proof (rearranged_length _ _ _ _ Hra) as Hlen1.
    assert (∀ a b P, within ws a b P → (b < i1 ∨ i1 < a) → (b < j1 ∨ j1 < a) → within ws1 a b P) as Hkeep.
    { intros a b P HP Ha Hb k z Hk Hzk. rewrite Hne in Hzk by lia. by apply (HP k). }
    destruct (IH ws1 i1 j1) as (ws2 & i2 & He & Hra2 & Hi2 & Hw3 & Hw4);
      [done|lia|lia|lia| |done| | |lia|].
    + by rewrite Hne by lia.
    + apply (within_app _ _ (i1 - 1)).
      * apply (within_app _ _ i); [apply Hkeep; [done|lia|lia]|].
        apply Hkeep; [|lia|lia]. eapply within_weaken; [exact Hw1|lia|lia|]. cbn. lia.
      * replace (i1 - 1 + 1) with i1 by lia. by apply (within_one _ _ y); [lia|..].
    + apply (within_app _ _ j1); [by apply (within_one _ _ x); [lia|..]|].
      apply (within_app _ _ (j - 1)).
      * apply Hkeep; [|lia|lia]. eapply within_weaken; [exact Hw2|lia|lia|]. cbn. lia.
      * replace (j - 1 + 1) with j by lia. apply Hkeep; [done|lia|lia].
    + exists ws2, i2. split_and!; [done| |lia|lia|done|done].
      by apply (rearranged_trans _ _ _ ws1).
Qed.

(** Descending weights. *)
Definition heavier (x y : ServerWeight) : Prop := sw_weight y ≤ sw_weight x.
#[export] Instance heavier_preorder : PreOrder heavier.
Proof. split; [intros x|intros x y z]; unfold heavier; lia. Qed.

Lemma quickSort_fuel_ok fuel : ∀ ws lo r,
  0 ≤ lo → r < Z.of_nat (length ws) → r - lo ≤ Z.of_nat fuel →
  ∃ ws', quickSort_fuel fuel ws lo r = Done ws' ∧ rearranged lo r ws ws' ∧
    sorted_between heavier ws' lo r.
Proof.
  induction fuel as [|fuel IH]; intros ws lo r Hlo Hr Hf; cbn [quickSort_fuel].
  all: destruct (Z.ltb_spec lo r) as [Hlt|Hge].
  2,4: exists ws; split_and!; [done|apply rearranged_refl|by apply sorted_between_small; [apply _|]].
  { lia. }
  destruct (lookup_at ws r) as (p & Hg & Hp); [lia|]. rewrite Hg. cbn [mbind outcome_bind].
  destruct (partition_ok (S (length ws)) ws (lo - 1) r (sw_weight p) lo r p)
    as (ws1 & i & He & Hra & Hi & Hup & Hdown); try done; [lia|lia| | |lia|].
  { intros k x Hk. lia. }
  { apply (within_one _ _ p); [lia|done|lia]. }
  rewrite He. cbn [mbind outcome_bind]. pose proof (rearranged_length _ _ _ _ Hra) as Hl1.
  assert (ws1 !! Z.to_nat r = Some p) as Hp1 by (rewrite (ra_out _ _ _ _ Hra); [done|lia]).
  destruct (lookup_at ws1 i) as (x & _ & Hx); [lia|].
  assert (i = Z.of_nat (Z.to_nat i)) as Hni by lia. assert (r = Z.of_nat (Z.to_nat r)) as Hnr by lia.
  destruct (swap_ok ws1 (Z.to_nat i) (Z.to_nat r) x p i r Hx Hp1) as
    (ws2 & He2 & Hra2 & Hgi & Hgr & Hne); [lia|lia|].
  rewrite Hni, Hnr, He2, <-Hni, <-Hnr. cbn [mbind outcome_bind].
  pose proof (rearranged_length _ _ _ _ Hra2) as Hl2.
  destruct (IH ws2 lo (i - 1)) as (ws3 & He3 & Hra3 & Hs3); [done|lia|lia|].
  rewrite He3. cbn [mbind outcome_bind]. pose proof (rearranged_length _ _ _ _ Hra3) as Hl3.
  destruct (IH ws3 (i + 1) r) as (ws4 & He4 & Hra4 & Hs4); [lia|lia|lia|].
  destruct (sorted_between_join heavier ws2 ws3 ws4 lo r i p) as [Hra24 Hs]; try done; [lia| | |].
  - exact (on_range_outside _ _ _ _ _ _ _ Hra2 Hup ltac:(lia)).
  - apply (on_range_weaken _ i r _ _ (λ x, sw_weight x ≤ sw_weight p)); [|lia|lia|done].
    exact (on_range_rearranged _ _ _ _ _ _ _ Hra2 Hdown ltac:(lia) ltac:(lia)).
  - exists ws4. split_and!; [done| |done].
    apply (rearranged_trans _ _ _ ws2); [|done].
    apply (rearranged_trans _ _ _ ws1); eapply rearranged_weaken; eauto; lia.
Qed.

(** ** The theorem *)

Lemma quickSort_ok ws left right :
  0 ≤ left → right < Z.of_nat (length ws) →
  ∃ ws', quickSort ws left right = Done ws' ∧ rearranged left right ws ws' ∧
    sorted_between heavier ws' left right.
Proof. intros Hl Hr. apply quickSort_fuel_ok; lia. Qed.

(** [quickSort] returns for every range of the array, whatever the
    weights: its scans stay inside of the array, it terminates, it only
    rearranges the entries of the range, and leaves them in descending order
    of weight. *)
Theorem quickSort_sorts (ws : list ServerWeight) (left right : Z) :
  0 ≤ left → right < Z.of_nat (length ws) →
  ∃ ws', quickSort ws left right = Done ws' ∧ ws ≡ₚ ws' ∧
    (∀ k : nat, Z.of_nat k < left ∨ right < Z.of_nat k → ws' !! k = ws !! k) ∧
    (∀ (a b : nat) x y, left ≤ Z.of_nat a → (a ≤ b)%nat → Z.of_nat b ≤ right →
       ws' !! a = Some x → ws' !! b = Some y → sw_weight y ≤ sw_weight x).
Proof.
  intros Hl Hr. destruct (quickSort_ok ws left right Hl Hr) as (ws' & He & Hra & Hs).
  exists ws'. split_and!; [done|apply Hra|apply Hra|exact Hs].
Qed.

Lemma quickSort_sorts_witness :
  ∃ ws', quickSort ((λ '(i, w), {| sw_index := i; sw_weight := w |}) <$>
      [(0, 5); (1, 9); (2, 1); (3, 7); (4, 9); (5, 100)]) 0 4 = Done ws' ∧
    sw_weight <$> ws' = [9; 9; 7; 5; 1; 100].
Proof.
  destruct (quickSort_sorts ((λ '(i, w), {| sw_index := i; sw_weight := w |}) <$>
      [(0, 5); (1, 9); (2, 1); (3, 7); (4, 9); (5, 100)]) 0 4) as (ws' & He & _).
  - discriminate.
  - reflexivity.
  - exists ws'. split; [exact He|]. vm_compute in He. injection He as <-. reflexivity.
Defined.
