(* ===== verification/Peer.v ===== *)
(** * Peers

    Models [src/waprox/peer.c]: the table of peers, their liveness, the choice
    of the peer of a chunk by rendezvous hashing, the monitoring messages and
    the round-robin over the flows of a peer.  Reading the configuration, name
    resolution and the socket of a ping are not modelled. *)

From Stdlib Require Import ZArith Lia.
From stdpp Require Import base list option numbers gmap.
From S2P Require Import Prelude Bytes Hashtable Protocol Rearrange Hrw.

Definition MAX_PEER_SIZE : nat := 1024.
Definition MAX_PER_PEER_CONNS : nat := 10.

(** The fields of [PeerInfo] but the names and the lists of users; an address
    is its four bytes, a connection the number of its socket. *)
Record PeerInfo := {
  pi_idx : Z;
  pi_netAddr : list Z;
  pi_isAlive : bool;
  pi_isLocalHost : bool;
  pi_lastPingTime : Z;
  pi_addrHash : Z;
  pi_numRedirected : Z;
  pi_bytesRedirected : Z;
  pi_RTT : Z;
  pi_networkPendingBytes : Z;
  pi_diskPendingChunks : Z;
  pi_nameFlowID : Z;
  pi_chunkFlowID : Z;
  pi_chunkCI : list (option Z)
}.

(** A cell of the array as [calloc] leaves it. *)
Definition no_peer : PeerInfo :=
  {| pi_idx := 0; pi_netAddr := [0; 0; 0; 0]; pi_isAlive := false; pi_isLocalHost := false;
     pi_lastPingTime := 0; pi_addrHash := 0; pi_numRedirected := 0; pi_bytesRedirected := 0;
     pi_RTT := 0; pi_networkPendingBytes := 0; pi_diskPendingChunks := 0; pi_nameFlowID := 0;
     pi_chunkFlowID := 0; pi_chunkCI := replicate MAX_PER_PEER_CONNS None |}.

Definition set_alive (b : bool) (p : PeerInfo) : PeerInfo :=
  {| pi_idx := pi_idx p; pi_netAddr := pi_netAddr p; pi_isAlive := b;
     pi_isLocalHost := pi_isLocalHost p; pi_lastPingTime := pi_lastPingTime p;
     pi_addrHash := pi_addrHash p; pi_numRedirected := pi_numRedirected p;
     pi_bytesRedirected := pi_bytesRedirected p; pi_RTT := pi_RTT p;
     pi_networkPendingBytes := pi_networkPendingBytes p;
     pi_diskPendingChunks := pi_diskPendingChunks p; pi_nameFlowID := pi_nameFlowID p;
     pi_chunkFlowID := pi_chunkFlowID p; pi_chunkCI := pi_chunkCI p |}.
Definition set_ping_time (t : Z) (p : PeerInfo) : PeerInfo :=
  {| pi_idx := pi_idx p; pi_netAddr := pi_netAddr p; pi_isAlive := pi_isAlive p;
     pi_isLocalHost := pi_isLocalHost p; pi_lastPingTime := t;
     pi_addrHash := pi_addrHash p; pi_numRedirected := pi_numRedirected p;
     pi_bytesRedirected := pi_bytesRedirected p; pi_RTT := pi_RTT p;
     pi_networkPendingBytes := pi_networkPendingBytes p;
     pi_diskPendingChunks := pi_diskPendingChunks p; pi_nameFlowID := pi_nameFlowID p;
     pi_chunkFlowID := pi_chunkFlowID p; pi_chunkCI := pi_chunkCI p |}.
Definition set_load (rtt net disk : Z) (p : PeerInfo) : PeerInfo :=
  {| pi_idx := pi_idx p; pi_netAddr := pi_netAddr p; pi_isAlive := pi_isAlive p;
     pi_isLocalHost := pi_isLocalHost p; pi_lastPingTime := pi_lastPingTime p;
     pi_addrHash := pi_addrHash p; pi_numRedirected := pi_numRedirected p;
     pi_bytesRedirected := pi_bytesRedirected p; pi_RTT := rtt;
     pi_networkPendingBytes := net; pi_diskPendingChunks := disk;
     pi_nameFlowID := pi_nameFlowID p; pi_chunkFlowID := pi_chunkFlowID p;
     pi_chunkCI := pi_chunkCI p |}.
Definition set_redirected (n b : Z) (p : PeerInfo) : PeerInfo :=
  {| pi_idx := pi_idx p; pi_netAddr := pi_netAddr p; pi_isAlive := pi_isAlive p;
     pi_isLocalHost := pi_isLocalHost p; pi_lastPingTime := pi_lastPingTime p;
     pi_addrHash := pi_addrHash p; pi_numRedirected := n; pi_bytesRedirected := b;
     pi_RTT := pi_RTT p; pi_networkPendingBytes := pi_networkPendingBytes p;
     pi_diskPendingChunks := pi_diskPendingChunks p; pi_nameFlowID := pi_nameFlowID p;
     pi_chunkFlowID := pi_chunkFlowID p; pi_chunkCI := pi_chunkCI p |}.
Definition set_flows (name chunk : Z) (p : PeerInfo) : PeerInfo :=
  {| pi_idx := pi_idx p; pi_netAddr := pi_netAddr p; pi_isAlive := pi_isAlive p;
     pi_isLocalHost := pi_isLocalHost p; pi_lastPingTime := pi_lastPingTime p;
     pi_addrHash := pi_addrHash p; pi_numRedirected := pi_numRedirected p;
     pi_bytesRedirected := pi_bytesRedirected p; pi_RTT := pi_RTT p;
     pi_networkPendingBytes := pi_networkPendingBytes p;
     pi_diskPendingChunks := pi_diskPendingChunks p; pi_nameFlowID := name;
     pi_chunkFlowID := chunk; pi_chunkCI := pi_chunkCI p |}.
Definition new_peer (idx : Z) (netAddr : list Z) (p : PeerInfo) : PeerInfo :=
  {| pi_idx := idx; pi_netAddr := netAddr; pi_isAlive := true; pi_isLocalHost := false;
     pi_lastPingTime := pi_lastPingTime p; pi_addrHash := 0;
     pi_numRedirected := pi_numRedirected p; pi_bytesRedirected := pi_bytesRedirected p;
     pi_RTT := pi_RTT p; pi_networkPendingBytes := pi_networkPendingBytes p;
     pi_diskPendingChunks := pi_diskPendingChunks p; pi_nameFlowID := pi_nameFlowID p;
     pi_chunkFlowID := pi_chunkFlowID p; pi_chunkCI := pi_chunkCI p |}.

(** The hash of an address adds its characters as unsigned ones. *)
Definition hash_from_key_fn_addr (k : list Z) : Z := u32 (sum_Z k).
Definition keys_equal_fn_addr (key1 key2 : list Z) : bool := bool_decide (key1 = key2).

#[export] Instance addr_table :
  Table (list Z) nat (@hashtable (list Z) nat) :=
  hashtable_Table hash_from_key_fn_addr keys_equal_fn_addr (λ k1 k2, bool_decide_eq_true (k1 = k2)).

Section peer.
Context `{Digest} {AT : Type} `{!Table (list Z) nat AT}.

(** The globals; a pointer into [g_PeerInfo] is an index. *)
Record peers := {
  g_PeerInfo : list PeerInfo;
  g_NumPeers : Z;
  g_NumLivePeers : Z;
  g_FirstPeerIdx : Z;
  g_LocalInfo : option nat;
  g_Weights : list ServerWeight;
  peerAddrMap : AT
}.

Definition set_peers (l : list PeerInfo) (live : Z) (s : peers) : peers :=
  {| g_PeerInfo := l; g_NumPeers := g_NumPeers s; g_NumLivePeers := live;
     g_FirstPeerIdx := g_FirstPeerIdx s; g_LocalInfo := g_LocalInfo s;
     g_Weights := g_Weights s; peerAddrMap := peerAddrMap s |}.
Definition set_weights (ws : list ServerWeight) (s : peers) : peers :=
  {| g_PeerInfo := g_PeerInfo s; g_NumPeers := g_NumPeers s; g_NumLivePeers := g_NumLivePeers s;
     g_FirstPeerIdx := g_FirstPeerIdx s; g_LocalInfo := g_LocalInfo s;
     g_Weights := ws; peerAddrMap := peerAddrMap s |}.

Definition GetPeerInfoByAddr (s : peers) (addr : list Z) : option nat :=
  tbl_search (peerAddrMap s) addr.

(** The cell past the end of a full array is written before the assertion. *)
Definition AddUnknownPeerInfo (s : peers) (netAddr : list Z) : outcome (peers * nat) :=
  let idx := Z.to_nat (g_NumPeers s) in
  l ← update (g_PeerInfo s) idx (new_peer (g_NumPeers s) netAddr);
  let s := {| g_PeerInfo := l; g_NumPeers := g_NumPeers s + 1; g_NumLivePeers := g_NumLivePeers s;
              g_FirstPeerIdx := g_FirstPeerIdx s; g_LocalInfo := g_LocalInfo s;
              g_Weights := g_Weights s;
              peerAddrMap := tbl_insert (peerAddrMap s) netAddr idx |} in
  _ ← c_assert (g_NumPeers s <=? Z.of_nat MAX_PEER_SIZE);
  Done (s, idx).

(** [now] is what [timeex] returns. *)
Definition UpdatePeerLiveness (now : Z) (s : peers) (pi : nat) : outcome peers :=
  p ← get (g_PeerInfo s) pi;
  s ← (if pi_isAlive p then Done s
       else
         l ← update (g_PeerInfo s) pi (set_alive true);
         let s := set_peers l (g_NumLivePeers s + 1) s in
         _ ← c_assert (g_NumLivePeers s <=? g_NumPeers s);
         Done s);
  l ← update (g_PeerInfo s) pi (set_ping_time now);
  Done (set_peers l (g_NumLivePeers s) s).

(** The body of the loop of [CheckNodeStatus]; it also collects the peers a
    ping is sent to. *)
Definition check_node (ping_timeout now : Z) (st : peers * list nat) (i : nat)
    : outcome (peers * list nat) :=
  let '(s, pings) := st in
  p ← get (g_PeerInfo s) i;
  let pings := if negb (pi_isLocalHost p) && negb (Z.of_nat i =? g_FirstPeerIdx s)
               then pings ++ [i] else pings in
  if (pi_lastPingTime p + ping_timeout <=? now) && pi_isAlive p then
    l ← update (g_PeerInfo s) i (set_alive false);
    let s := set_peers l (g_NumLivePeers s - 1) s in
    _ ← c_assert (0 <=? g_NumLivePeers s);
    Done (s, pings)
  else Done (s, pings).

(** [PING_TIMEOUT] is [g_TimerInterval * 3]. *)
Definition CheckNodeStatus (g_TimerInterval now : Z) (s : peers) : outcome (peers * list nat) :=
  '(s, pings) ← foldM (check_node (g_TimerInterval * 3) now) (s, []) (seq 0 (Z.to_nat (g_NumPeers s)));
  match g_LocalInfo s with
  | None => Fault OutOfBounds
  | Some local =>
      s ← UpdatePeerLiveness now s local;
      s ← (if g_FirstPeerIdx s <? 0 then Fault OutOfBounds
           else UpdatePeerLiveness now s (Z.to_nat (g_FirstPeerIdx s)));
      Done (s, pings)
  end.

Definition PickDestinationProxy (s : peers) : outcome Z :=
  _ ← c_assert (negb (g_FirstPeerIdx s =? -1));
  Done (g_FirstPeerIdx s).

(** The body of the loop that collects the weights. *)
Definition collect_weight (s : peers) (local : Z) (chunkHash : Z)
    (st : list ServerWeight * nat) (i : nat) : outcome (list ServerWeight * nat) :=
  let '(weights, numReady) := st in
  if Z.of_nat i =? local then Done (weights, numReady)
  else
    p ← get (g_PeerInfo s) i;
    if pi_isAlive p then
      weights ← put weights numReady
                  {| sw_index := Z.of_nat i; sw_weight := WrandHash chunkHash (pi_addrHash p) |};
      Done (weights, S numReady)
    else Done (weights, numReady).

(** It returns the array of weights as well. *)
Definition RhrwPickPeer (rotl : Z → Z → Z) (s : peers) (chunkName : list Z)
    (weights : list ServerWeight) : outcome (list ServerWeight * Z) :=
  chunkHash ← ChunkHashString rotl chunkName 0;
  local ← match g_LocalInfo s with
          | None => if 0 <? g_NumPeers s then Fault OutOfBounds else Done (-1)
          | Some l => pi_idx <$> get (g_PeerInfo s) l
          end;
  '(weights, numReady) ← foldM (collect_weight s local chunkHash) (weights, 0%nat)
                           (seq 0 (Z.to_nat (g_NumPeers s)));
  if (numReady <? 1)%nat then Done (weights, -1)
  else if (numReady =? 1)%nat then
    w ← get weights 0; Done (weights, sw_index w)
  else
    weights ← quickSort weights 0 (Z.of_nat numReady - 1);
    w ← get weights 0;
    Done (weights, sw_index w).

Definition PickPeerToRedirect (rotl : Z → Z → Z) (s : peers) (sha1Name : list Z)
    : outcome (peers * Z) :=
  '(ws, idx) ← RhrwPickPeer rotl s sha1Name (g_Weights s);
  Done (set_weights ws s, idx).

(** [timersub], in seconds and microseconds. *)
Definition timersub (a b : Z * Z) : Z * Z :=
  let sec := a.1 - b.1 in
  let usec := a.2 - b.2 in
  if usec <? 0 then (sec - 1, usec + 1000000) else (sec, usec).

Definition long_at (buf : list Z) (off : nat) : outcome Z :=
  l ← load buf off 8;
  let v := un_le l in
  Done (if v <? 2 ^ 63 then v else v - 2 ^ 64).

(** A ping is answered with its own time stamp: the second result is the peer a
    pong is sent to, with the time stamp.  [curtime] is the current time. *)
Definition ProcessPing (now : Z) (curtime : Z * Z) (s : peers) (buffer : list Z)
    : outcome (peers * option (nat * list Z)) :=
  netAddr ← load buffer 2 4;
  match GetPeerInfoByAddr s netAddr with
  | None => Done (s, None)
  | Some pi =>
      s ← UpdatePeerLiveness now s pi;
      isPing ← load_u8 buffer 1;
      if negb (isPing =? 0) then
        p ← get (g_PeerInfo s) pi;
        if negb (pi_idx p =? g_FirstPeerIdx s) then
          ts ← load buffer 6 16;
          Done (s, Some (pi, ts))
        else Done (s, None)
      else
        net ← ntohl_at buffer 22;
        disk ← ntohl_at buffer 26;
        sec ← long_at buffer 6;
        usec ← long_at buffer 14;
        let result := timersub curtime (sec, usec) in
        let rtt := u32 (result.1 * 1000 + Z.quot result.2 1000) in
        l ← update (g_PeerInfo s) pi (set_load rtt net disk);
        Done (set_peers l (g_NumLivePeers s) s, None)
  end.

(** [netAddr] is the address [getpeername] returned. *)
Definition GetPeerIdxFromFD (s : peers) (netAddr : list Z) : outcome (peers * Z) :=
  '(s, pi) ← match GetPeerInfoByAddr s netAddr with
             | Some pi => Done (s, pi)
             | None => AddUnknownPeerInfo s netAddr
             end;
  p ← get (g_PeerInfo s) pi;
  Done (s, pi_idx p).

(** The loop of [GetNextChunkFlowID]: [flowID] and the peer's [chunkFlowID]. *)
Fixpoint next_flow (n : nat) (g_MaxPeerConns : Z) (chunkCI : list (option Z))
    (flowID chunkFlowID : Z) : outcome (Z * Z) :=
  match n with
  | O => Done (flowID, chunkFlowID)
  | S n =>
      let flowID := u32 (chunkFlowID + 1) mod g_MaxPeerConns in
      ci ← get_at chunkCI flowID;
      match ci with
      | Some _ => Done (flowID, flowID)
      | None => next_flow n g_MaxPeerConns chunkCI flowID flowID
      end
  end.

Definition GetNextChunkFlowID (g_MaxPeerConns : Z) (s : peers) (peerIdx : Z)
    : outcome (peers * Z) :=
  p ← get_at (g_PeerInfo s) peerIdx;
  '(flowID, cur) ← next_flow (Z.to_nat g_MaxPeerConns) g_MaxPeerConns (pi_chunkCI p) 0
                     (pi_chunkFlowID p);
  l ← update (g_PeerInfo s) (Z.to_nat peerIdx) (set_flows (pi_nameFlowID p) cur);
  _ ← c_assert ((0 <=? flowID) && (flowID <? g_MaxPeerConns));
  ci ← get_at (pi_chunkCI p) flowID;
  _ ← c_assert (bool_decide (is_Some ci));
  Done (set_peers l (g_NumLivePeers s) s, flowID).

Definition GetNextControlFlowID (g_MaxPeerConns : Z) (s : peers) (peerIdx : Z)
    : outcome (peers * Z) :=
  p ← get_at (g_PeerInfo s) peerIdx;
  let flowID := u32 (pi_nameFlowID p + 1) mod g_MaxPeerConns in
  l ← update (g_PeerInfo s) (Z.to_nat peerIdx) (set_flows flowID (pi_chunkFlowID p));
  _ ← c_assert ((0 <=? flowID) && (flowID <? g_MaxPeerConns));
  Done (set_peers l (g_NumLivePeers s) s, flowID).
End peer.
Arguments peers : clear implicits.

(** ** Correctness *)

Section correctness.
Context `{Digest} {AT : Type} `{!Table (list Z) nat AT}.

(** The array in use and the pointers into it. *)
Record peers_ok (s : peers AT) : Prop := {
  pk_len : length (g_PeerInfo s) = MAX_PEER_SIZE;
  pk_num : 0 ≤ g_NumPeers s ≤ Z.of_nat MAX_PEER_SIZE;
  pk_idx : ∀ (i : nat) p, Z.of_nat i < g_NumPeers s → g_PeerInfo s !! i = Some p → pi_idx p = Z.of_nat i;
  pk_free : ∀ i : nat, g_NumPeers s ≤ Z.of_nat i < Z.of_nat MAX_PEER_SIZE → g_PeerInfo s !! i = Some no_peer;
  pk_local : ∃ l : nat, g_LocalInfo s = Some l ∧ Z.of_nat l < g_NumPeers s;
  pk_first : 0 ≤ g_FirstPeerIdx s < g_NumPeers s;
  pk_weights : length (g_Weights s) = MAX_PEER_SIZE;
  pk_map : ∃ m, tbl_is (peerAddrMap s) m ∧ ∀ a i, m !! a = Some i → Z.of_nat i < g_NumPeers s
}.

(** A peer a chunk can be redirected to. *)
Definition eligible (s : peers AT) (i : nat) (p : PeerInfo) : Prop :=
  Z.of_nat i < g_NumPeers s ∧ g_PeerInfo s !! i = Some p ∧ pi_isAlive p = true ∧
  g_LocalInfo s ≠ Some i.

Definition weight_entry (s : peers AT) (local : Z) (h : Z) (i : nat) : option ServerWeight :=
  if Z.of_nat i =? local then None
  else
    p ← g_PeerInfo s !! i;
    if pi_isAlive p
    then Some {| sw_index := Z.of_nat i; sw_weight := WrandHash h (pi_addrHash p) |} else None.

Lemma collect_weights_ok (s : peers AT) local h weights n :
  (n ≤ length (g_PeerInfo s))%nat → (n ≤ length weights)%nat →
  ∃ ws, foldM (collect_weight s local h) (weights, 0%nat) (seq 0 n) =
      Done (ws, length (omap (weight_entry s local h) (seq 0 n))) ∧
    length ws = length weights ∧
    take (length (omap (weight_entry s local h) (seq 0 n))) ws = omap (weight_entry s local h) (seq 0 n).
Proof.
  intros Hn Hw.
  destruct (foldM_total (collect_weight s local h)
    (λ l '(ws, k), length ws = length weights ∧ k = length (omap (weight_entry s local h) l) ∧
       take k ws = omap (weight_entry s local h) l) (weights, 0%nat) (seq 0 n))
    as ([ws k] & He & Hl & -> & Ht).
  - done.
  - intros l1 a l2 [ws k] Hsplit (Hl & -> & Ht).
    assert (a < n)%nat as Ha.
    { apply elem_of_seq_iff with (a := 0%nat) (n := n). rewrite Hsplit. set_solver. }
    assert (length (omap (weight_entry s local h) l1) < n)%nat as Hlt.
    { pose proof (length_omap_le (weight_entry s local h) l1).
      apply (f_equal length) in Hsplit. rewrite length_seq, length_app in Hsplit. cbn in Hsplit. lia. }
    destruct (lookup_lt_is_Some_2 (g_PeerInfo s) a) as [p Hp]; [lia|].
    unfold collect_weight. rewrite omap_app_list. cbn [omap list_omap].
    set (L := omap (weight_entry s local h) l1) in *.
    assert (weight_entry s local h a = if Z.of_nat a =? local then None
      else if pi_isAlive p
      then Some {| sw_index := Z.of_nat a; sw_weight := WrandHash h (pi_addrHash p) |} else None) as ->.
    { unfold weight_entry. by rewrite Hp. }
    destruct (Z.of_nat a =? local); [eexists (_, _); by rewrite app_nil_r|].
    unfold get. rewrite Hp. cbn [mbind outcome_bind].
    destruct (pi_isAlive p); [|eexists (_, _); by rewrite app_nil_r].
    unfold put. rewrite decide_True by lia. cbn [mbind outcome_bind].
    eexists (_, _). split; [done|]. rewrite length_insert, length_app. cbn [length].
    split_and!; [done|lia|].
    rewrite (take_S_r _ _ {| sw_index := Z.of_nat a; sw_weight := WrandHash h (pi_addrHash p) |})
      by (apply list_lookup_insert_eq; lia).
    rewrite take_insert_ge by lia. by rewrite Ht.
  - exists ws. by split_and!.
Qed.

Lemma ChunkHashString_ok rotl name h :
  (SHA1_LEN ≤ length name)%nat → ∃ r, ChunkHashString rotl name h = Done r.
Proof.
  intros Hl. unfold ChunkHashString.
  edestruct (foldM_total (λ hash i, c ← get name i; Done (u32 (hash + u32 (rotl hash 19 + i8 c))))
    (λ _ _, True) h (seq 0 SHA1_LEN)) as (r & He & _); [done| |by exists r].
  intros l1 a l2 s1 Hs _. assert (a < SHA1_LEN)%nat as Ha.
  { apply elem_of_seq_iff with (a := 0%nat) (n := SHA1_LEN). rewrite Hs. set_solver. }
  destruct (lookup_lt_is_Some_2 name a) as [c Hc]; [lia|]. unfold get. rewrite Hc. by eexists.
Qed.

(** The head of the sorted weights is one of the entries, of the largest
    weight. *)
Lemma sorted_head ws (n : nat) :
  (1 < n)%nat → (n ≤ length ws)%nat →
  ∃ ws' e, quickSort ws 0 (Z.of_nat n - 1) = Done ws' ∧ get ws' 0 = Done e ∧
    length ws' = length ws ∧ e ∈ take n ws ∧ ∀ x, x ∈ take n ws → sw_weight x ≤ sw_weight e.
Proof.
  intros Hn Hl. destruct (quickSort_ok ws 0 (Z.of_nat n - 1)) as (ws' & He & Hra & Hs); [lia|lia|].
  pose proof (rearranged_length _ _ _ _ Hra) as Hl'.
  destruct (lookup_lt_is_Some_2 ws' 0) as [e Hget]; [lia|].
  assert (take n ws ≡ₚ take n ws') as Hp.
  { apply (Permutation_app_inv_r (drop n ws)). rewrite take_drop.
    assert (drop n ws = drop n ws') as ->.
    { apply list_eq. intros k. rewrite !lookup_drop. symmetry. apply (ra_out _ _ _ _ Hra). lia. }
    rewrite take_drop. apply Hra. }
  exists ws', e. unfold get. rewrite Hget. split_and!; try done.
  - rewrite Hp. apply list_elem_of_lookup. exists 0%nat. by rewrite lookup_take_lt by lia.
  - intros x. rewrite Hp. intros [k Hk]%list_elem_of_lookup.
    apply lookup_take_Some in Hk as [Hk Hkn]. by apply (Hs 0%nat k); [lia|lia|lia|..].
Qed.

Lemma weight_entry_eligible (s : peers AT) (l : nat) h i e :
  peers_ok s → g_LocalInfo s = Some l → Z.of_nat i < g_NumPeers s →
  weight_entry s (Z.of_nat l) h i = Some e ↔
  ∃ p, eligible s i p ∧ e = {| sw_index := Z.of_nat i; sw_weight := WrandHash h (pi_addrHash p) |}.
Proof.
  intros Hok Hl Hi. unfold weight_entry, eligible. rewrite Hl.
  destruct (Z.eqb_spec (Z.of_nat i) (Z.of_nat l)) as [Heq|Hne].
  { assert (i = l) as -> by lia. split; [done|]. by intros (p & (_ & _ & _ & Hn) & _). }
  destruct (g_PeerInfo s !! i) as [p|] eqn:Ep; cbn [mbind option_bind].
  - destruct (pi_isAlive p) eqn:Ea; split.
    + intros [= <-]. exists p. split_and!; try done. intros [= ->]. lia.
    + by intros (q & (_ & [= <-] & _) & ->).
    + done.
    + intros (q & (_ & [= <-] & Ha & _) & _). congruence.
  - split; [done|]. by intros (p & (_ & [=] & _) & _).
Qed.

(** The choice of [RhrwPickPeer]: an eligible peer of the largest weight. *)
Lemma RhrwPickPeer_ok (rotl : Z → Z → Z) (s : peers AT) name weights h :
  peers_ok s → length weights = MAX_PEER_SIZE → ChunkHashString rotl name 0 = Done h →
  ∃ ws idx, RhrwPickPeer rotl s name weights = Done (ws, idx) ∧ length ws = MAX_PEER_SIZE ∧
    ((idx = -1 ∧ ∀ i p, ¬ eligible s i p) ∨
     ∃ i p, idx = Z.of_nat i ∧ eligible s i p ∧
       ∀ j q, eligible s j q → WrandHash h (pi_addrHash q) ≤ WrandHash h (pi_addrHash p)).
Proof.
  intros Hok Hw Hh. pose proof Hok as [Hlen Hnum Hidx Hfree (l & Hl & Hll) Hfirst Hwl Hmap].
  unfold RhrwPickPeer. rewrite Hh, Hl. cbn [mbind outcome_bind].
  destruct (lookup_lt_is_Some_2 (g_PeerInfo s) l) as [pl Hpl]; [lia|].
  rewrite (proj2 (get_Done _ _ _) Hpl). cbn [fmap outcome_fmap mbind outcome_bind].
  rewrite (Hidx _ _ Hll Hpl).
  destruct (collect_weights_ok s (Z.of_nat l) h weights (Z.to_nat (g_NumPeers s)))
    as (ws & He & Hlw & Ht); [lia|lia|].
  rewrite He. cbn [mbind outcome_bind].
  set (L := omap (weight_entry s (Z.of_nat l) h) (seq 0 (Z.to_nat (g_NumPeers s)))) in *.
  assert (∀ e, e ∈ L ↔ ∃ i p, eligible s i p ∧
    e = {| sw_index := Z.of_nat i; sw_weight := WrandHash h (pi_addrHash p) |}) as HL.
  { intros e. unfold L. rewrite list_elem_of_omap. split.
    - intros (i & Hi%elem_of_seq_iff & Hei). exists i. apply weight_entry_eligible in Hei; [done..|lia].
    - intros (i & p & Hp & ->). exists i. assert (Z.of_nat i < g_NumPeers s) by apply Hp.
      split; [apply elem_of_seq_iff; lia|]. apply weight_entry_eligible; eauto. }
  assert (length L ≤ Z.to_nat (g_NumPeers s))%nat as HLn.
  { unfold L. etrans; [apply length_omap_le|]. by rewrite length_seq. }
  assert (∀ (ws' : list ServerWeight) e, length ws' = length ws → e ∈ L → (∀ x, x ∈ L → sw_weight x ≤ sw_weight e) →
    ∃ ws2 idx, Done (ws', sw_index e) = Done (ws2, idx) ∧ length ws2 = MAX_PEER_SIZE ∧
      ((idx = -1 ∧ ∀ i p, ¬ eligible s i p) ∨
       ∃ i p, idx = Z.of_nat i ∧ eligible s i p ∧
         ∀ j q, eligible s j q → WrandHash h (pi_addrHash q) ≤ WrandHash h (pi_addrHash p))) as Hfin.
  { intros ws' e Hws' (i & p & Hp & ->)%HL Hmax. eexists _, _. split; [done|]. split; [lia|]. right.
    exists i, p. split_and!; [done..|]. intros j q Hq.
    by apply (Hmax {| sw_index := Z.of_nat j; sw_weight := WrandHash h (pi_addrHash q) |}), HL; eauto. }
  destruct (Nat.ltb_spec (length L) 1).
  { exists ws, (-1). split_and!; [done|lia|]. left. split; [done|]. intros i p Hp.
    assert ({| sw_index := Z.of_nat i; sw_weight := WrandHash h (pi_addrHash p) |} ∈ L) as Hin
      by (apply HL; eauto).
    destruct L; [by apply elem_of_nil in Hin|cbn in *; lia]. }
  destruct (Nat.eqb_spec (length L) 1) as [Hone|Hmany].
  - destruct L as [|e [|]]; [done| |done]. destruct ws as [|w ws]; [cbn in *; lia|].
    cbn in Ht. injection Ht as ->. cbn [get lookup list_lookup mbind outcome_bind].
    apply Hfin; [done|by left|]. intros x ->%list_elem_of_singleton. lia.
  - destruct (sorted_head ws (length L)) as (ws' & e & Hq & Hg & Hlq & Hin & Hmax); [lia|lia|].
    rewrite Hq. cbn [mbind outcome_bind]. rewrite Hg. cbn [mbind outcome_bind]. rewrite Ht in Hin, Hmax.
    by apply Hfin.
Qed.

(** ** Liveness *)

Definition count_peers (f : PeerInfo → bool) (l : list PeerInfo) : Z :=
  sum_Z ((λ p, Z.b2z (f p)) <$> l).

Definition live_peers (s : peers AT) : Z := count_peers pi_isAlive (g_PeerInfo s).

Definition expired (ping_timeout now : Z) (p : PeerInfo) : bool :=
  (pi_lastPingTime p + ping_timeout <=? now) && pi_isAlive p.

Lemma count_peers_insert f l i p q :
  l !! i = Some p → count_peers f (<[i := q]> l) = count_peers f l - Z.b2z (f p) + Z.b2z (f q).
Proof.
  intros Hi. unfold count_peers. rewrite list_fmap_insert.
  apply sum_Z_insert. by rewrite list_lookup_fmap, Hi.
Qed.

Lemma count_peers_take_S f l k p :
  l !! k = Some p → count_peers f (take (S k) l) = count_peers f (take k l) + Z.b2z (f p).
Proof.
  intros Hk. unfold count_peers. rewrite (take_S_r _ _ _ Hk), fmap_app, sum_Z_app. cbn. lia.
Qed.

Lemma count_peers_mono (f g : PeerInfo → bool) l :
  (∀ p, f p = true → g p = true) → count_peers f l ≤ count_peers g l.
Proof.
  intros Hfg. unfold count_peers. induction l as [|p l IH]; cbn; [lia|]. unfold sum_Z in *.
  specialize (Hfg p). destruct (f p), (g p); cbn; [lia|by specialize (Hfg eq_refl)|lia|lia].
Qed.

Lemma count_peers_bounds f l : 0 ≤ count_peers f l ≤ Z.of_nat (length l).
Proof.
  unfold count_peers. induction l as [|p l IH]; cbn; [lia|]. unfold sum_Z in *.
  destruct (f p); cbn in *; lia.
Qed.

(** Only the cells in use count. *)
Lemma count_peers_used f l n :
  (∀ k p, (n ≤ k)%nat → l !! k = Some p → f p = false) → count_peers f l = count_peers f (take n l).
Proof.
  intros Hf. rewrite <-(take_drop n l) at 1. unfold count_peers. rewrite fmap_app, sum_Z_app.
  assert (sum_Z ((λ p, Z.b2z (f p)) <$> drop n l) = 0) as ->; [|lia].
  assert (Forall (λ p, f p = false) (drop n l)) as Hd.
  { apply Forall_lookup. intros k p Hk. rewrite lookup_drop in Hk. apply (Hf (n + k)%nat); [lia|done]. }
  induction Hd as [|p l' Hp _ IH]; cbn; [done|]. rewrite Hp. unfold sum_Z in *. cbn. lia.
Qed.

Lemma live_peers_bound s : peers_ok s → 0 ≤ live_peers s ≤ g_NumPeers s.
Proof.
  intros Hok. destruct Hok as [Hlen Hnum _ Hfree _ _ _ _]. unfold live_peers.
  rewrite (count_peers_used _ _ (Z.to_nat (g_NumPeers s))).
  - pose proof (count_peers_bounds pi_isAlive (take (Z.to_nat (g_NumPeers s)) (g_PeerInfo s))) as Hb.
    rewrite length_take in Hb. lia.
  - intros k p Hk Hp. pose proof (lookup_lt_Some _ _ _ Hp).
    rewrite (Hfree k) in Hp by lia. by simplify_eq.
Qed.

(** A change of the cells in use that keeps their indices. *)
Lemma peers_ok_set s l live :
  peers_ok s → length l = length (g_PeerInfo s) →
  (∀ i p, l !! i = Some p → ∃ q, g_PeerInfo s !! i = Some q ∧ pi_idx p = pi_idx q ∧
     (g_NumPeers s ≤ Z.of_nat i → p = q)) →
  peers_ok (set_peers l live s).
Proof.
  intros [Hlen Hnum Hidx Hfree Hlocal Hfirst Hw Hmap] Hl Hk. split; cbn; try done; [lia| |].
  - intros i p Hi Hp. destruct (Hk _ _ Hp) as (q & Hq & -> & _). by apply Hidx.
  - intros i Hi. destruct (lookup_lt_is_Some_2 l i) as [p Hp]; [lia|].
    destruct (Hk _ _ Hp) as (q & Hq & _ & Heq). rewrite Hp, Heq by lia. rewrite <-Hq. by apply Hfree.
Qed.

Lemma update_ok (l : list PeerInfo) i p f :
  l !! i = Some p → update l i f = Done (<[i := f p]> l).
Proof.
  intros Hp. apply update_Done. eauto.
Qed.

Lemma UpdatePeerLiveness_ok now s (i : nat) p :
  peers_ok s → g_PeerInfo s !! i = Some p → Z.of_nat i < g_NumPeers s →
  g_NumLivePeers s ≤ live_peers s →
  UpdatePeerLiveness now s i =
    Done (set_peers (<[i := set_ping_time now (set_alive true p)]> (g_PeerInfo s))
            (g_NumLivePeers s + (1 - Z.b2z (pi_isAlive p))) s) ∧
  peers_ok (set_peers (<[i := set_ping_time now (set_alive true p)]> (g_PeerInfo s))
            (g_NumLivePeers s + (1 - Z.b2z (pi_isAlive p))) s) ∧
  count_peers pi_isAlive (<[i := set_ping_time now (set_alive true p)]> (g_PeerInfo s)) =
    live_peers s + (1 - Z.b2z (pi_isAlive p)).
Proof.
  intros Hok Hp Hi Hlive. pose proof (lookup_lt_Some _ _ _ Hp) as Hlt.
  assert (peers_ok (set_peers (<[i := set_ping_time now (set_alive true p)]> (g_PeerInfo s))
            (g_NumLivePeers s + (1 - Z.b2z (pi_isAlive p))) s)) as Hok'.
  { apply peers_ok_set; [done|by rewrite length_insert|]. intros k q Hq.
    apply list_lookup_insert_Some in Hq as [(<- & <- & _)|[Hne Hq]].
    - exists p. split_and!; [done|done|lia].
    - by exists q. }
  assert (count_peers pi_isAlive (<[i := set_ping_time now (set_alive true p)]> (g_PeerInfo s)) =
    live_peers s + (1 - Z.b2z (pi_isAlive p))) as Hc.
  { rewrite (count_peers_insert _ _ _ _ _ Hp). unfold live_peers. cbn. lia. }
  split_and!; [|done|done].
  unfold UpdatePeerLiveness. rewrite (proj2 (get_Done _ _ _) Hp). cbn [mbind outcome_bind].
  destruct (pi_isAlive p) eqn:Ea; cbn [Z.b2z mbind outcome_bind].
  - rewrite (update_ok _ _ _ _ Hp). cbn [mbind outcome_bind].
    replace (g_NumLivePeers s + (1 - 1)) with (g_NumLivePeers s) by lia.
    replace (set_alive true p) with p; [done|]. destruct p. cbn in *. by subst.
  - rewrite (update_ok _ _ _ _ Hp). cbn [mbind outcome_bind set_peers g_NumLivePeers g_NumPeers g_PeerInfo].
    pose proof (live_peers_bound _ Hok') as Hb. unfold live_peers in Hb. cbn [set_peers g_PeerInfo g_NumPeers] in Hb.
    rewrite (proj2 (Z.leb_le _ _)) by (rewrite Hc in Hb; cbn in Hb; lia).
    cbn [c_assert mbind outcome_bind set_peers g_NumLivePeers g_PeerInfo].
    rewrite (update_ok _ _ (set_alive true p)) by (by rewrite list_lookup_insert_eq).
    cbn [mbind outcome_bind]. by rewrite list_insert_insert_eq.
Qed.

(** The array after the first [k] peers were checked. *)
Definition checked (ping_timeout now : Z) (k : nat) (l : list PeerInfo) : list PeerInfo :=
  ((λ p, if expired ping_timeout now p then set_alive false p else p) <$> take k l) ++ drop k l.

Definition pinged (s : peers AT) (i : nat) : bool :=
  match g_PeerInfo s !! i with
  | Some p => negb (pi_isLocalHost p) && negb (Z.of_nat i =? g_FirstPeerIdx s)
  | None => false
  end.

Lemma checked_S t now k l p :
  l !! k = Some p →
  checked t now k l !! k = Some p ∧
  checked t now (S k) l =
    <[k := if expired t now p then set_alive false p else p]> (checked t now k l).
Proof.
  intros Hk. pose proof (lookup_lt_Some _ _ _ Hk). unfold checked.
  assert (length ((λ p, if expired t now p then set_alive false p else p) <$> take k l) = k) as Hlen.
  { rewrite length_fmap, length_take. lia. }
  split.
  - rewrite lookup_app_r, Hlen, Nat.sub_diag, lookup_drop, Nat.add_0_r by lia. done.
  - rewrite insert_app_r_alt, Hlen, Nat.sub_diag by lia.
    rewrite (take_S_r _ _ _ Hk), fmap_app, <-app_assoc. cbn.
    by rewrite (drop_S _ _ _ Hk).
Qed.

Lemma check_nodes_ok t now (s : peers AT) (k : nat) :
  (k ≤ length (g_PeerInfo s))%nat → 0 ≤ g_NumLivePeers s →
  foldM (check_node t now) (s, []) (seq 0 k) =
    let e := count_peers (expired t now) (take k (g_PeerInfo s)) in
    if e <=? g_NumLivePeers s
    then Done (set_peers (checked t now k (g_PeerInfo s)) (g_NumLivePeers s - e) s,
               filter (λ i, pinged s i = true) (seq 0 k))
    else Fault AssertFailed.
Proof.
  intros Hk Hlive. induction k as [|k IH]; cbn zeta.
  { cbn. rewrite (proj2 (Z.leb_le _ _)) by done. rewrite Z.sub_0_r. by destruct s. }
  rewrite seq_S, Nat.add_0_l, foldM_app, IH by lia. cbn zeta.
  destruct (lookup_lt_is_Some_2 (g_PeerInfo s) k) as [p Hp]; [lia|].
  rewrite (count_peers_take_S _ _ _ _ Hp). destruct (checked_S t now _ _ _ Hp) as [Hc ->].
  destruct (Z.leb_spec (count_peers (expired t now) (take k (g_PeerInfo s))) (g_NumLivePeers s)) as [Hle|Hgt].
  - cbn [mbind outcome_bind foldM]. unfold check_node. cbn [set_peers g_PeerInfo].
    rewrite (proj2 (get_Done _ _ _) Hc). cbn [mbind outcome_bind set_peers g_FirstPeerIdx g_NumLivePeers].
    fold (expired t now p). rewrite (update_ok _ _ _ _ Hc). cbn [mbind outcome_bind].
    assert (filter (λ i, pinged s i = true) (seq 0 k ++ [k]) =
      if negb (pi_isLocalHost p) && negb (Z.of_nat k =? g_FirstPeerIdx s)
      then filter (λ i, pinged s i = true) (seq 0 k) ++ [k]
      else filter (λ i, pinged s i = true) (seq 0 k)) as ->.
    { rewrite filter_app. assert (pinged s k = negb (pi_isLocalHost p) && negb (Z.of_nat k =? g_FirstPeerIdx s)) as Hpk
        by (unfold pinged; by rewrite Hp).
      destruct (negb _ && negb _); [by rewrite filter_cons_True|].
      rewrite filter_cons_False, filter_nil, app_nil_r by congruence. done. }
    destruct (expired t now p); cbn [Z.b2z].
    + destruct (Z.leb_spec 0 (g_NumLivePeers s - count_peers (expired t now) (take k (g_PeerInfo s)) - 1)).
      * rewrite (proj2 (Z.leb_le _ _)) by lia. unfold set_peers. cbn. do 3 f_equal. lia.
      * by rewrite (proj2 (Z.leb_gt _ _)) by lia.
    + rewrite (proj2 (Z.leb_le _ _)) by lia. cbn [mbind outcome_bind].
      rewrite (list_insert_id _ _ _ Hc), Z.add_0_r. done.
  - rewrite (proj2 (Z.leb_gt _ _)); [done|]. destruct (expired t now p); cbn; lia.
Qed.

Lemma expired_alive t now l : count_peers (expired t now) l ≤ count_peers pi_isAlive l.
Proof. apply count_peers_mono. intros p [_ Hp]%andb_prop. done. Qed.

(** In the cells that are not in use nobody is alive. *)
Lemma expired_used t now (s : peers AT) :
  peers_ok s →
  count_peers (expired t now) (g_PeerInfo s) =
    count_peers (expired t now) (take (Z.to_nat (g_NumPeers s)) (g_PeerInfo s)).
Proof.
  intros Hok. apply count_peers_used. intros k p Hk Hp. pose proof (lookup_lt_Some _ _ _ Hp).
  destruct Hok as [Hlen Hnum _ Hfree _ _ _ _].
  rewrite (Hfree k) in Hp by lia. simplify_eq. unfold expired. cbn. by rewrite andb_false_r.
Qed.

Lemma checked_lookup t now k l i p :
  l !! i = Some p →
  checked t now k l !! i =
    Some (if decide (i < k)%nat then (if expired t now p then set_alive false p else p) else p).
Proof.
  intros Hi. pose proof (lookup_lt_Some _ _ _ Hi). unfold checked.
  assert (length ((λ p, if expired t now p then set_alive false p else p) <$> take k l) = (k `min` length l)%nat) as Hlen
    by (rewrite length_fmap, length_take; lia).
  case_decide.
  - rewrite lookup_app_l by lia. rewrite list_lookup_fmap, lookup_take_lt by lia. by rewrite Hi.
  - rewrite lookup_app_r, Hlen, lookup_drop by lia. rewrite <-Hi. f_equal. lia.
Qed.

Lemma count_alive_checked t now k l :
  count_peers pi_isAlive (checked t now k l) =
    count_peers pi_isAlive l - count_peers (expired t now) (take k l).
Proof.
  unfold checked. rewrite <-(take_drop k l) at 3. unfold count_peers.
  rewrite !fmap_app, !sum_Z_app.
  induction (take k l) as [|p l' IH]; cbn; [lia|]. unfold sum_Z in *.
  unfold expired at 1 3. destruct (pi_isAlive p) eqn:Ea, (pi_lastPingTime p + t <=? now); cbn in *;
    rewrite ?Ea; cbn; lia.
Qed.

Lemma checked_ok t now s live :
  peers_ok s → peers_ok (set_peers (checked t now (Z.to_nat (g_NumPeers s)) (g_PeerInfo s)) live s).
Proof.
  intros Hok. apply peers_ok_set; [done| |].
  - unfold checked. by rewrite length_app, length_fmap, <-length_app, take_drop.
  - intros i p Hp. assert (i < length (g_PeerInfo s))%nat as Hlt.
    { apply lookup_lt_Some in Hp. unfold checked in Hp.
      by rewrite length_app, length_fmap, <-length_app, take_drop in Hp. }
    destruct (lookup_lt_is_Some_2 _ _ Hlt) as [q Hq]. rewrite (checked_lookup _ _ _ _ _ _ Hq) in Hp.
    injection Hp as <-. exists q. split; [done|]. case_decide; [|done].
    split; [by destruct (expired t now q)|lia].
Qed.

Lemma touch_lookup now (l : list PeerInfo) (i j : nat) p q :
  l !! i = Some p → l !! j = Some q →
  ∃ p', <[j := set_ping_time now (set_alive true q)]> l !! i = Some p' ∧
    pi_addrHash p' = pi_addrHash p ∧ (pi_isAlive p' = true ↔ j = i ∨ pi_isAlive p = true).
Proof.
  intros Hp Hq. destruct (decide (j = i)) as [->|Hne].
  - eexists. rewrite list_lookup_insert_eq by eauto using lookup_lt_Some. simplify_eq.
    split_and!; [done|done|]. cbn. split; [by left|done].
  - exists p. rewrite list_lookup_insert_ne by done. split_and!; [done|done|].
    split; [by right|by intros [|]].
Qed.

(** The two peers that are kept alive: the local host and the destination. *)
Lemma keep_alive_ok now (s : peers AT) (l f : nat) :
  peers_ok s → g_NumLivePeers s = live_peers s → Z.of_nat l < g_NumPeers s → Z.of_nat f < g_NumPeers s →
  ∃ s', (s ← UpdatePeerLiveness now s l; UpdatePeerLiveness now s f) = Done s' ∧ peers_ok s' ∧
    g_NumLivePeers s' = live_peers s' ∧
    ∀ i p, g_PeerInfo s !! i = Some p → ∃ p', g_PeerInfo s' !! i = Some p' ∧
      pi_addrHash p' = pi_addrHash p ∧ (pi_isAlive p' = true ↔ f = i ∨ l = i ∨ pi_isAlive p = true).
Proof.
  intros Hok Hlive Hl Hf.
  destruct (lookup_lt_is_Some_2 (g_PeerInfo s) l) as [pl Hpl]; [destruct Hok; lia|].
  destruct (UpdatePeerLiveness_ok now s l pl Hok Hpl Hl) as (-> & Hok2 & Hc2); [lia|].
  cbn [mbind outcome_bind]. set (s2 := set_peers _ _ s) in *.
  assert (g_NumLivePeers s2 = live_peers s2) as Hlive2.
  { unfold live_peers at 1. unfold s2 at 2. cbn [set_peers g_PeerInfo]. rewrite Hc2. cbn. lia. }
  destruct (lookup_lt_is_Some_2 (g_PeerInfo s2) f) as [pf Hpf]; [rewrite (pk_len _ Hok2); destruct Hok; lia|].
  destruct (UpdatePeerLiveness_ok now s2 f pf Hok2 Hpf Hf) as (-> & Hok3 & Hc3); [lia|].
  eexists. split; [done|]. split_and!; [done| |].
  - unfold live_peers at 1. cbn [set_peers g_PeerInfo g_NumLivePeers]. rewrite Hc3. cbn in *. lia.
  - intros i p Hp. destruct (touch_lookup now _ i l p pl Hp Hpl) as (p2 & Hp2 & Hh2 & Ha2).
    destruct (touch_lookup now _ i f p2 pf Hp2 Hpf) as (p3 & Hp3 & Hh3 & Ha3).
    exists p3. split; [exact Hp3|]. split; [congruence|]. by rewrite Ha3, Ha2.
Qed.

(** One more peer that was not configured. *)
Lemma AddUnknownPeerInfo_ok (s : peers AT) a :
  peers_ok s → g_NumPeers s < Z.of_nat MAX_PEER_SIZE → GetPeerInfoByAddr s a = None →
  ∃ s', GetPeerIdxFromFD s a = Done (s', g_NumPeers s) ∧ peers_ok s' ∧
    g_NumPeers s' = g_NumPeers s + 1 ∧ g_NumLivePeers s' = g_NumLivePeers s ∧
    g_PeerInfo s' = <[Z.to_nat (g_NumPeers s) := new_peer (g_NumPeers s) a no_peer]> (g_PeerInfo s) ∧
    ∀ b, GetPeerInfoByAddr s' b = if decide (b = a) then Some (Z.to_nat (g_NumPeers s))
                                  else GetPeerInfoByAddr s b.
Proof.
  intros [Hlen Hnum Hidx Hfree (l & Hl & Hll) Hfirst Hw (m & Hm & Hmr)] Hmax Ha.
  unfold GetPeerIdxFromFD. rewrite Ha. unfold AddUnknownPeerInfo, GetPeerInfoByAddr in *.
  assert (g_PeerInfo s !! Z.to_nat (g_NumPeers s) = Some no_peer) as Hf by (apply Hfree; lia).
  rewrite (update_ok _ _ _ _ Hf). cbn [mbind outcome_bind g_NumPeers].
  rewrite (proj2 (Z.leb_le _ _)) by lia. cbn [c_assert mbind outcome_bind g_PeerInfo].
  pose proof (lookup_lt_Some _ _ _ Hf).
  rewrite (proj2 (get_Done _ _ _)) by (by apply list_lookup_insert_eq). cbn [mbind outcome_bind].
  assert (m !! a = None) as Hma by (by rewrite <-(tbl_search_ok _ _ _ Hm)).
  pose proof (tbl_insert_ok _ _ _ (Z.to_nat (g_NumPeers s)) Hm Hma) as Hm'.
  eexists. split; [done|]. split_and!; try done.
  - split; cbn [g_PeerInfo g_NumPeers g_NumLivePeers g_FirstPeerIdx g_LocalInfo g_Weights peerAddrMap];
      try done; [by rewrite length_insert|lia| | |exists l; split; [done|lia]|lia|].
    + intros i p Hi Hp. apply list_lookup_insert_Some in Hp as [(<- & <- & _)|[Hne Hp]]; [cbn; lia|].
      apply Hidx; [lia|done].
    + intros i Hi. rewrite list_lookup_insert_ne by lia. apply Hfree. lia.
    + eexists. split; [exact Hm'|]. intros b i Hb. apply lookup_insert_Some in Hb as [[<- <-]|[_ Hb]]; [lia|].
      apply Hmr in Hb. lia.
  - intros b. cbn [peerAddrMap]. rewrite (tbl_search_ok _ _ _ Hm'), (tbl_search_ok _ _ _ Hm).
    case_decide as Hba; [subst b; apply lookup_insert_eq|by apply lookup_insert_ne].
Qed.

(** Peers that connect without being configured. *)
Definition connect (s : peers AT) (netAddr : list Z) : outcome (peers AT) :=
  fst <$> GetPeerIdxFromFD s netAddr.

Lemma connect_all_ok t now addrs : ∀ s : peers AT,
  peers_ok s → NoDup addrs → (∀ a, a ∈ addrs → GetPeerInfoByAddr s a = None) →
  g_NumPeers s + Z.of_nat (length addrs) ≤ Z.of_nat MAX_PEER_SIZE → t ≤ now →
  ∃ s', foldM connect s addrs = Done s' ∧ peers_ok s' ∧ g_NumLivePeers s' = g_NumLivePeers s ∧
    live_peers s' = live_peers s + Z.of_nat (length addrs) ∧
    count_peers (expired t now) (g_PeerInfo s') =
      count_peers (expired t now) (g_PeerInfo s) + Z.of_nat (length addrs).
Proof.
  induction addrs as [|a addrs IH]; intros s Hok Hnd Hfr Hmax Ht.
  { exists s. cbn. split_and!; try done; lia. }
  apply NoDup_cons in Hnd as [Hni Hnd]. cbn [length] in *.
  destruct (AddUnknownPeerInfo_ok s a Hok) as (s1 & He & Hok1 & Hn1 & Hl1 & Hp1 & Hg1);
    [lia|apply Hfr; by left|].
  destruct (IH s1 Hok1 Hnd) as (s2 & He2 & Hok2 & Hl2 & Hc2 & Hx2); [|lia|done|].
  { intros b Hb. rewrite Hg1. case_decide as Hba; [subst; done|]. apply Hfr. by right. }
  assert (connect s a = Done s1) as He1 by (unfold connect; by rewrite He).
  exists s2. cbn [foldM]. rewrite He1. cbn [mbind outcome_bind].
  assert (g_PeerInfo s !! Z.to_nat (g_NumPeers s) = Some no_peer) as Hf.
  { destruct Hok. apply pk_free0. lia. }
  split_and!; [done|done|lia| |].
  - rewrite Hc2. unfold live_peers. rewrite Hp1, (count_peers_insert _ _ _ _ _ Hf). cbn. lia.
  - rewrite Hx2, Hp1, (count_peers_insert _ _ _ _ _ Hf). 
    assert (expired t now no_peer = false) as -> by apply andb_false_r.
    assert (expired t now (new_peer (g_NumPeers s) a no_peer) = true) as ->.
    { unfold expired. cbn. by rewrite (proj2 (Z.leb_le (0 + t) now)) by lia. }
    cbn. lia.
Qed.

(** The round-robin over the flows, without wrap-around. *)
Definition flow_after (n cur d : Z) : Z := (cur + d) mod n.

Lemma next_flow_ok n : ∀ (m : Z) (cis : list (option Z)) flow cur,
  0 < m ≤ Z.of_nat (length cis) → 0 ≤ cur < m → m < 2 ^ 31 →
  ∃ d : Z, 0 ≤ d ≤ Z.of_nat n ∧
    next_flow n m cis flow cur = Done (if decide (d = 0) then flow else flow_after m cur d, flow_after m cur d) ∧
    (∀ e, 0 < e < d → cis !! Z.to_nat (flow_after m cur e) = Some None) ∧
    ((∃ fd, cis !! Z.to_nat (flow_after m cur d) = Some (Some fd)) ∧ 0 < d ∨
     d = Z.of_nat n ∧ ∀ e, 0 < e ≤ d → cis !! Z.to_nat (flow_after m cur e) = Some None).
Proof.
  unfold flow_after. induction n as [|n IH]; intros m cis flow cur Hm Hc Hr.
  { exists 0. cbn. rewrite Z.add_0_r, Z.mod_small by lia. split_and!; try done; [lia..|].
    right. split; [done|]. lia. }
  cbn [next_flow]. rewrite u32_id by lia.
  pose proof (Z.mod_pos_bound (cur + 1) m) as Hb.
  destruct (lookup_lt_is_Some_2 cis (Z.to_nat ((cur + 1) mod m))) as [ci Hci]; [lia|].
  unfold get_at, get. rewrite (proj2 (Z.ltb_ge _ _)) by lia. rewrite Hci. cbn [mbind outcome_bind].
  destruct ci as [fd|].
  { exists 1. split_and!; [lia|lia|done|lia|]. left. split; [by exists fd|lia]. }
  destruct (IH m cis ((cur + 1) mod m) ((cur + 1) mod m)) as (d & Hd & He & Hn & Hor); [lia|lia|lia|].
  assert (∀ e, ((cur + 1) mod m + e) mod m = (cur + (e + 1)) mod m) as Hmod.
  { intros e. rewrite Zplus_mod_idemp_l. f_equal. lia. }
  exists (d + 1). rewrite He, Hmod, (decide_False (P := d + 1 = 0)) by lia. split_and!; [lia|lia| | |].
  - case_decide; [|done]. subst d. done.
  - intros e Hlt. destruct (decide (e = 1)) as [->|]; [done|].
    specialize (Hn (e - 1)). rewrite Hmod in Hn. replace (e - 1 + 1) with e in Hn by lia. apply Hn. lia.
  - rewrite Hmod in Hor. destruct Hor as [[Hf Hd0]|[-> Hn']]; [left; split; [done|lia]|right].
    split; [lia|]. intros e Hlt. destruct (decide (e = 1)) as [->|]; [done|].
    specialize (Hn' (e - 1)). rewrite Hmod in Hn'. replace (e - 1 + 1) with e in Hn' by lia. apply Hn'. lia.
Qed.
End correctness.

(** ** The theorems *)

(** Peers to evaluate at: the local host, the destination proxy and a third. *)
Definition toy_peer (idx : Z) (local : bool) (addrHash : Z) : PeerInfo :=
  {| pi_idx := idx; pi_netAddr := [10; 0; 0; idx]; pi_isAlive := true; pi_isLocalHost := local;
     pi_lastPingTime := 100; pi_addrHash := addrHash; pi_numRedirected := 0;
     pi_bytesRedirected := 0; pi_RTT := 0; pi_networkPendingBytes := 0;
     pi_diskPendingChunks := 0; pi_nameFlowID := 0; pi_chunkFlowID := 0;
     pi_chunkCI := [Some 7; None; Some 9; None; None; None; None; None; None; None] |}.
Definition toy_peers {AT : Type} (map : AT) (third : bool) : peers AT :=
  {| g_PeerInfo := [toy_peer 0 true 11; toy_peer 1 false 22;
                    set_alive third (toy_peer 2 false 33)] ++ replicate 1021 no_peer;
     g_NumPeers := 3; g_NumLivePeers := 2 + Z.b2z third; g_FirstPeerIdx := 1;
     g_LocalInfo := Some 0%nat;
     g_Weights := replicate MAX_PEER_SIZE {| sw_index := 0; sw_weight := 0 |};
     peerAddrMap := map |}.
Definition toy_rotl (x n : Z) : Z := u32 (Z.shiftl x n) + Z.shiftr x (32 - n).

Lemma toy_peers_map_ok {AT : Type} `{!Table (list Z) nat AT} (map : AT) (m : gmap (list Z) nat) (third : bool) :
  tbl_is map m → (∀ a i, m !! a = Some i → (i < 3)%nat) → peers_ok (toy_peers map third).
Proof.
  intros Hm Hi3. split; cbn [toy_peers g_PeerInfo g_NumPeers g_FirstPeerIdx g_LocalInfo g_Weights peerAddrMap].
  - by rewrite length_app, length_replicate.
  - unfold MAX_PEER_SIZE. lia.
  - intros [|[|[|i]]] p Hi Hp; cbn in Hp; [by simplify_eq..|by destruct third; simplify_eq|lia].
  - intros i Hi. unfold MAX_PEER_SIZE in Hi. rewrite lookup_app_r by (cbn; lia).
    apply lookup_replicate. cbn. split; [done|lia].
  - exists 0%nat. split; [done|lia].
  - lia.
  - by rewrite length_replicate.
  - exists m. split; [done|]. intros a i Ha. apply Hi3 in Ha. lia.
Qed.
Lemma toy_peers_ok {AT : Type} `{!Table (list Z) nat AT} (map : AT) (third : bool) :
  tbl_is map ∅ → peers_ok (toy_peers map third).
Proof. intros Hm. eapply toy_peers_map_ok; [exact Hm|]. by intros a i [=]. Qed.

(** C10: the peer of a chunk is chosen by rendezvous hashing: -1 exactly when
    no peer but the local one is alive, and otherwise a peer that is alive, is
    not the local one, and has the largest weight for the chunk's name among
    these.  Only the array of weights changes. *)
Theorem PickPeerToRedirect_max `{Digest} {AT : Type} `{!Table (list Z) nat AT}
    (rotl : Z → Z → Z) (s : peers AT) (sha1Name : list Z) :
  peers_ok s → (SHA1_LEN ≤ length sha1Name)%nat →
  ∃ h s' idx, ChunkHashString rotl sha1Name 0 = Done h ∧
    PickPeerToRedirect rotl s sha1Name = Done (s', idx) ∧ peers_ok s' ∧
    g_PeerInfo s' = g_PeerInfo s ∧ g_NumLivePeers s' = g_NumLivePeers s ∧
    (idx = -1 ↔ ∀ i p, ¬ eligible s i p) ∧
    (idx ≠ -1 → ∃ i p, idx = Z.of_nat i ∧ eligible s i p ∧
       ∀ j q, eligible s j q → WrandHash h (pi_addrHash q) ≤ WrandHash h (pi_addrHash p)).
Proof.
  intros Hok Hn. destruct (ChunkHashString_ok rotl sha1Name 0 Hn) as [h Hh].
  destruct (RhrwPickPeer_ok rotl s sha1Name (g_Weights s) h Hok (pk_weights _ Hok) Hh)
    as (ws & idx & He & Hl & Hor).
  exists h, (set_weights ws s), idx. unfold PickPeerToRedirect. rewrite He.
  split_and!; [done|done| |done|done| |].
  - by destruct Hok; split.
  - destruct Hor as [[-> Hn']|(i & p & -> & Hp & _)]; [done|]. split; [lia|].
    intros Hno. by destruct (Hno i p).
  - intros Hne. destruct Hor as [[-> _]|Hor]; done.
Qed.

#[local] Existing Instance toy_digest.

Lemma PickPeerToRedirect_max_witness :
  ∃ map s' idx,
    tbl_create 1024 = Some map ∧
    PickPeerToRedirect toy_rotl (toy_peers map true) [1; 2] = Done (s', idx) ∧ idx ≠ -1.
Proof.
  destruct (tbl_create_ok (T := @hashtable (list Z) nat) 1024 ltac:(lia)) as (map & Hc & Hm).
  destruct (PickPeerToRedirect_max toy_rotl (toy_peers map true) [1; 2])
    as (h & s' & idx & _ & H1 & _ & _ & _ & H2 & _).
  - exact (toy_peers_ok map true Hm).
  - cbn. lia.
  - exists map, s', idx. split; [exact Hc|]. split; [exact H1|]. intros Heq.
    apply (proj1 H2 Heq 1%nat (toy_peer 1 false 22)).
    split; [cbn; lia|]. split; [reflexivity|]. split; [reflexivity|]. discriminate.
Defined.

(** When peers go away, only their own chunks move: if the peer that was
    chosen for a chunk is still there, among peers that were all there before
    and none of which ties with it, it is chosen again. *)
Theorem PickPeerToRedirect_stable `{Digest} {AT : Type} `{!Table (list Z) nat AT}
    (rotl : Z → Z → Z) (s1 s2 s1' : peers AT) (sha1Name : list Z) (i : nat) (h : Z) :
  peers_ok s1 → peers_ok s2 → ChunkHashString rotl sha1Name 0 = Done h →
  PickPeerToRedirect rotl s1 sha1Name = Done (s1', Z.of_nat i) →
  (∀ j q, eligible s2 j q → ∃ q1, eligible s1 j q1 ∧ pi_addrHash q1 = pi_addrHash q) →
  (∃ p, eligible s2 i p ∧
     ∀ j q, eligible s2 j q → j ≠ i → WrandHash h (pi_addrHash q) ≠ WrandHash h (pi_addrHash p)) →
  ∃ s2', PickPeerToRedirect rotl s2 sha1Name = Done (s2', Z.of_nat i).
Proof.
  intros Hok1 Hok2 Hh Hpick Hsub (p & Hp & Htie). unfold PickPeerToRedirect in *.
  destruct (RhrwPickPeer_ok rotl s1 sha1Name (g_Weights s1) h Hok1 (pk_weights _ Hok1) Hh)
    as (ws1 & idx1 & He1 & _ & Hor1).
  destruct (RhrwPickPeer_ok rotl s2 sha1Name (g_Weights s2) h Hok2 (pk_weights _ Hok2) Hh)
    as (ws2 & idx2 & He2 & _ & Hor2).
  rewrite He1 in Hpick. injection Hpick as _ ->. rewrite He2. cbn [mbind outcome_bind].
  exists (set_weights ws2 s2). do 2 f_equal.
  destruct Hor1 as [[? _]|(i1 & p1 & Hi1 & Hp1 & Hmax1)]; [lia|]. assert (i1 = i) as -> by lia.
  destruct Hor2 as [[_ Hno]|(i2 & p2 & -> & Hp2 & Hmax2)]; [by destruct (Hno i p)|].
  destruct (decide (i2 = i)) as [->|Hne]; [done|]. destruct (Htie _ _ Hp2 Hne).
  pose proof (Hmax2 _ _ Hp) as Hle.
  destruct (Hsub _ _ Hp) as (q & Hq & Hqe). destruct (Hsub _ _ Hp2) as (q2 & Hq2 & Hq2e).
  pose proof (Hmax1 _ _ Hq2) as Hle1. rewrite Hq2e in Hle1.
  assert (q = p1) as ->; [|rewrite <-Hqe in *; lia].
  destruct Hq as (_ & Hq & _), Hp1 as (_ & Hp1 & _). congruence.
Qed.

Lemma toy_eligible {AT : Type} `{!Table (list Z) nat AT} (map : AT) (third : bool) j q :
  eligible (toy_peers map third) j q →
  j = 1%nat ∧ q = toy_peer 1 false 22 ∨ third = true ∧ j = 2%nat ∧ q = toy_peer 2 false 33.
Proof.
  intros (Hj & Hq & Ha & Hl). cbn in Hj, Hl. destruct j as [|[|[|j]]]; [done| | |lia].
  - left. cbn in Hq. by simplify_eq.
  - right. destruct third; cbn in Hq; simplify_eq; done.
Qed.

Lemma PickPeerToRedirect_stable_witness :
  ∃ map s2',
    tbl_create (T := @hashtable (list Z) nat) 1024 = Some map ∧
    PickPeerToRedirect toy_rotl (toy_peers map false) [1; 2] = Done (s2', 1).
Proof.
  destruct (tbl_create_ok (T := @hashtable (list Z) nat) 1024 ltac:(lia)) as (map & Hc & Hm).
  destruct (PickPeerToRedirect toy_rotl (toy_peers map true) [1; 2]) as [[s1' idx]|] eqn:E;
    vm_compute in E; [|discriminate].
  destruct (PickPeerToRedirect_stable toy_rotl (toy_peers map true) (toy_peers map false) s1' [1; 2]
              1 524291) as [s2' H2].
  - exact (toy_peers_ok map true Hm).
  - exact (toy_peers_ok map false Hm).
  - vm_compute. reflexivity.
  - injection E as E _. rewrite <-E. vm_compute. reflexivity.
  - intros j q [[-> ->]|[[=] _]]%toy_eligible. exists (toy_peer 1 false 22). split; [|reflexivity].
    split; [reflexivity|]. split; [reflexivity|]. split; [reflexivity|discriminate].
  - exists (toy_peer 1 false 22). split.
    + split; [reflexivity|]. split; [reflexivity|]. split; [reflexivity|discriminate].
    + intros j q [[-> ->]|[[=] _]]%toy_eligible Hne. by destruct Hne.
  - exists map, s2'. exact (conj Hc H2).
Defined.

(** Liveness. When the count of live peers is right, a check of the nodes
    returns and it is right again; afterwards a peer is alive exactly when it
    is the local host or the destination proxy, or was alive and was heard of
    within the time-out; and a ping goes to every peer but these two. *)
Theorem CheckNodeStatus_liveness {AT : Type} `{!Table (list Z) nat AT}
    (g_TimerInterval now : Z) (s : peers AT) :
  peers_ok s → g_NumLivePeers s = live_peers s →
  ∃ s' pings, CheckNodeStatus g_TimerInterval now s = Done (s', pings) ∧ peers_ok s' ∧
    g_NumLivePeers s' = live_peers s' ∧
    (∀ i p, g_PeerInfo s !! i = Some p → Z.of_nat i < g_NumPeers s →
       ∃ p', g_PeerInfo s' !! i = Some p' ∧ pi_addrHash p' = pi_addrHash p ∧
         (pi_isAlive p' = true ↔
            g_LocalInfo s = Some i ∨ g_FirstPeerIdx s = Z.of_nat i ∨
            pi_isAlive p = true ∧ now < pi_lastPingTime p + g_TimerInterval * 3)) ∧
    (∀ i, i ∈ pings ↔ ∃ p, g_PeerInfo s !! i = Some p ∧ Z.of_nat i < g_NumPeers s ∧
       pi_isLocalHost p = false ∧ g_FirstPeerIdx s ≠ Z.of_nat i).
Proof.
  intros Hok Hlive. set (t := g_TimerInterval * 3).
  pose proof Hok as [Hlen Hnum _ _ (l & Hl & Hll) Hfirst _ _]. pose proof (live_peers_bound _ Hok) as Hb.
  pose proof (expired_used t now s Hok) as Hused. pose proof (expired_alive t now (g_PeerInfo s)) as Hle.
  set (n := Z.to_nat (g_NumPeers s)) in *. rewrite Hused in Hle. unfold live_peers in Hlive, Hb.
  set (e := count_peers (expired t now) (take n (g_PeerInfo s))) in *.
  unfold CheckNodeStatus. fold t n. rewrite (check_nodes_ok t now s n) by lia. cbv zeta. fold e.
  rewrite (proj2 (Z.leb_le _ _)) by lia. cbn [mbind outcome_bind].
  set (s1 := set_peers (checked t now n (g_PeerInfo s)) (g_NumLivePeers s - e) s).
  assert (peers_ok s1) as Hok1 by (by apply checked_ok).
  destruct (keep_alive_ok now s1 l (Z.to_nat (g_FirstPeerIdx s)) Hok1) as (s' & He & Hok' & Hlive' & Hs');
    [|exact Hll|cbn; lia|].
  { unfold live_peers, s1. cbn [set_peers g_PeerInfo g_NumLivePeers]. rewrite count_alive_checked. lia. }
  assert (g_LocalInfo s1 = Some l) as -> by done. apply bind_Done in He as (s2 & He2 & He).
  rewrite He2. cbn [mbind outcome_bind]. assert (g_FirstPeerIdx s2 = g_FirstPeerIdx s) as Hf2.
  { unfold UpdatePeerLiveness in He2. inv_done. subst. destruct (pi_isAlive _); inv_done; by subst. }
  rewrite Hf2, (proj2 (Z.ltb_ge _ _)), He by lia. cbn [mbind outcome_bind].
  exists s', (filter (λ i, pinged s i = true) (seq 0 n)). split_and!; [done|done|done| |].
  - intros i p Hp Hi. pose proof (checked_lookup t now n _ _ _ Hp) as Hc. rewrite decide_True in Hc by lia.
    destruct (Hs' _ _ Hc) as (p' & Hp' & Hh' & Ha'). exists p'. split; [done|].
    split; [rewrite Hh'; by destruct (expired t now p)|]. rewrite Ha', Hl.
    assert (pi_isAlive (if expired t now p then set_alive false p else p) = true ↔
      pi_isAlive p = true ∧ now < pi_lastPingTime p + t) as ->.
    { unfold expired. destruct (Z.leb_spec (pi_lastPingTime p + t) now), (pi_isAlive p) eqn:Ea; cbn;
        rewrite ?Ea; intuition (congruence || lia). }
    assert (Some l = Some i ↔ l = i) as -> by (split; congruence).
    assert (g_FirstPeerIdx s = Z.of_nat i ↔ Z.to_nat (g_FirstPeerIdx s) = i) as -> by lia. tauto.
  - intros i. rewrite list_elem_of_filter, elem_of_seq_iff. unfold pinged, n.
    destruct (g_PeerInfo s !! i) as [p|] eqn:Ep.
    + rewrite andb_true_iff, !negb_true_iff, Z.eqb_neq. split.
      * intros [[Hlh Hf] Hi]. exists p. split_and!; [done|lia|done|lia].
      * intros (q & [= <-] & Hi & Hlh & Hf). split_and!; [done|lia|lia|lia].
    + split; [by intros [[=] _]|]. by intros (p & [=] & _).
Qed.

Lemma CheckNodeStatus_liveness_witness :
  ∃ map s' pings p',
    tbl_create (T := @hashtable (list Z) nat) 1024 = Some map ∧
    CheckNodeStatus 5 200 (toy_peers map true) = Done (s', pings) ∧
    g_PeerInfo s' !! 2%nat = Some p' ∧ pi_isAlive p' ≠ true.
Proof.
  destruct (tbl_create_ok (T := @hashtable (list Z) nat) 1024 ltac:(lia)) as (map & Hc & Hm).
  destruct (CheckNodeStatus_liveness 5 200 (toy_peers map true)) as (s' & pings & H1 & _ & _ & H2 & _).
  - exact (toy_peers_ok map true Hm).
  - vm_compute. reflexivity.
  - destruct (H2 2%nat (toy_peer 2 false 33) eq_refl) as (p' & H3 & _ & H4); [reflexivity|].
    exists map, s', pings, p'. split; [exact Hc|]. split; [exact H1|]. split; [exact H3|].
    intros [[=]|[[=]|[_ Hlt]]]%H4. vm_compute in Hlt. discriminate.
Defined.

(** The check of the nodes can stop the process.  A connection from an
    address that is not configured adds a live peer without counting it, and
    such a peer, never having sent a ping, expires at once: when more of them
    connected than there are live peers in the count, the next check fails its
    assertion that the count is not negative. *)
Theorem unknown_peers_abort {AT : Type} `{!Table (list Z) nat AT}
    (g_TimerInterval now : Z) (s : peers AT) (addrs : list (list Z)) :
  peers_ok s → g_NumLivePeers s = live_peers s → g_TimerInterval * 3 ≤ now →
  NoDup addrs → (∀ a, a ∈ addrs → GetPeerInfoByAddr s a = None) →
  g_NumPeers s + Z.of_nat (length addrs) ≤ Z.of_nat MAX_PEER_SIZE →
  g_NumLivePeers s < Z.of_nat (length addrs) →
  ∃ s', foldM connect s addrs = Done s' ∧ peers_ok s' ∧
    live_peers s' = g_NumLivePeers s' + Z.of_nat (length addrs) ∧
    CheckNodeStatus g_TimerInterval now s' = Fault AssertFailed.
Proof.
  intros Hok Hlive Ht Hnd Hfr Hmax Hmany. pose proof (live_peers_bound _ Hok) as Hb.
  destruct (connect_all_ok (g_TimerInterval * 3) now addrs s Hok Hnd Hfr Hmax Ht)
    as (s' & He & Hok' & Hl' & Hc' & Hx').
  exists s'. split_and!; [done|done|lia|]. unfold CheckNodeStatus.
  rewrite (check_nodes_ok _ _ s') by (destruct Hok'; lia). cbv zeta. rewrite <-expired_used, Hx' by done.
  pose proof (count_peers_bounds (expired (g_TimerInterval * 3) now) (g_PeerInfo s)).
  by rewrite (proj2 (Z.leb_gt _ _)) by lia.
Qed.

Lemma unknown_peers_abort_witness :
  ∃ (map : @hashtable (list Z) nat) s',
    tbl_create 1024 = Some map ∧
    foldM connect (toy_peers map false) [[10; 0; 0; 7]; [10; 0; 0; 8]; [10; 0; 0; 9]] = Done s' ∧
    CheckNodeStatus 5 200 s' = Fault AssertFailed.
Proof.
  destruct (tbl_create_ok (T := @hashtable (list Z) nat) 1024 ltac:(lia)) as (map & Hc & Hm).
  destruct (unknown_peers_abort 5 200 (toy_peers map false) [[10; 0; 0; 7]; [10; 0; 0; 8]; [10; 0; 0; 9]])
    as (s' & H1 & _ & _ & H2).
  - exact (toy_peers_ok map false Hm).
  - vm_compute. reflexivity.
  - vm_compute. discriminate.
  - repeat constructor; set_solver.
  - intros a _. unfold GetPeerInfoByAddr. cbn [toy_peers peerAddrMap].
    rewrite (tbl_search_ok _ _ _ Hm). reflexivity.
  - vm_compute. discriminate.
  - vm_compute. reflexivity.
  - exists map, s'. exact (conj Hc (conj H1 H2)).
Defined.

(** The flows of a peer are used in turn: the next flow is the first open
    one after the current flow, cyclically, and the choice stops the process
    exactly when no flow is open. *)
Theorem GetNextChunkFlowID_round_robin {AT : Type} `{!Table (list Z) nat AT}
    (m : Z) (s : peers AT) (peerIdx : nat) (p : PeerInfo) :
  peers_ok s → g_PeerInfo s !! peerIdx = Some p → Z.of_nat peerIdx < g_NumPeers s →
  0 < m ≤ Z.of_nat (length (pi_chunkCI p)) → m < 2 ^ 31 → 0 ≤ pi_chunkFlowID p < m →
  (∃ s' d fd, GetNextChunkFlowID m s (Z.of_nat peerIdx) = Done (s', flow_after m (pi_chunkFlowID p) d) ∧
     peers_ok s' ∧ 0 < d ≤ m ∧
     pi_chunkCI p !! Z.to_nat (flow_after m (pi_chunkFlowID p) d) = Some (Some fd) ∧
     (∀ e, 0 < e < d → pi_chunkCI p !! Z.to_nat (flow_after m (pi_chunkFlowID p) e) = Some None) ∧
     g_PeerInfo s' !! peerIdx =
       Some (set_flows (pi_nameFlowID p) (flow_after m (pi_chunkFlowID p) d) p)) ∨
  GetNextChunkFlowID m s (Z.of_nat peerIdx) = Fault AssertFailed ∧
    ∀ e, 0 < e ≤ m → pi_chunkCI p !! Z.to_nat (flow_after m (pi_chunkFlowID p) e) = Some None.
Proof.
  intros Hok Hp Hi Hm Hr Hc. unfold GetNextChunkFlowID.
  rewrite get_at_nat, (proj2 (get_Done _ _ _) Hp). cbn [mbind outcome_bind].
  destruct (next_flow_ok (Z.to_nat m) m (pi_chunkCI p) 0 (pi_chunkFlowID p) Hm Hc Hr)
    as (d & Hd & -> & Hn & Hor).
  cbn [mbind outcome_bind]. rewrite Nat2Z.id, (update_ok _ _ _ _ Hp). cbn [mbind outcome_bind].
  assert (0 < d) as Hd0 by (destruct Hor as [[_ ?]|[-> _]]; lia). rewrite decide_False by lia.
  pose proof (Z.mod_pos_bound (pi_chunkFlowID p + d) m ltac:(lia)) as Hb. fold (flow_after m (pi_chunkFlowID p) d) in Hb.
  rewrite (proj2 (Z.leb_le _ _)), (proj2 (Z.ltb_lt _ _)) by lia. cbn [andb c_assert mbind outcome_bind].
  unfold get_at at 1 2. rewrite (proj2 (Z.ltb_ge _ _)) by lia.
  destruct Hor as [[(fd & Hfd) _]|[-> Hnone]].
  - left. rewrite (proj2 (get_Done _ _ _) Hfd). cbn [mbind outcome_bind].
    rewrite bool_decide_eq_true_2 by done. cbn [c_assert mbind outcome_bind].
    eexists _, d, fd. split_and!; [done| |lia|lia|done|done|].
    + apply peers_ok_set; [done|by rewrite length_insert|]. intros k q Hq.
      apply list_lookup_insert_Some in Hq as [(<- & <- & _)|[Hne Hq]]; [|by exists q].
      exists p. split_and!; [done|done|lia].
    + cbn. apply list_lookup_insert_eq. by apply lookup_lt_Some in Hp.
  - right. rewrite (proj2 (get_Done _ _ _) (Hnone (Z.of_nat (Z.to_nat m)) ltac:(lia))).
    cbn [mbind outcome_bind]. split; [by rewrite bool_decide_eq_false_2 by (by intros [? ?])|].
    intros e He. apply Hnone. lia.
Qed.

Lemma GetNextChunkFlowID_round_robin_witness :
  ∃ (map : @hashtable (list Z) nat) s',
    tbl_create 1024 = Some map ∧ GetNextChunkFlowID 3 (toy_peers map true) 2 = Done (s', 2).
Proof.
  destruct (tbl_create_ok (T := @hashtable (list Z) nat) 1024 ltac:(lia)) as (map & Hc & Hm).
  destruct (GetNextChunkFlowID_round_robin 3 (toy_peers map true) 2 (toy_peer 2 false 33))
    as [(s' & d & fd & H1 & _ & Hd & Hfd & Hn & _)|[_ Hn]].
  - exact (toy_peers_ok map true Hm).
  - reflexivity.
  - reflexivity.
  - vm_compute. split; [reflexivity|discriminate].
  - reflexivity.
  - vm_compute. split; [discriminate|reflexivity].
  - exists map, s'. split; [exact Hc|]. assert (d = 1 ∨ d = 2 ∨ d = 3) as [->|[->| ->]] by lia.
    + vm_compute in Hfd. discriminate.
    + exact H1.
    + specialize (Hn 2 ltac:(lia)). vm_compute in Hn. discriminate.
  - specialize (Hn 2 ltac:(lia)). vm_compute in Hn. discriminate.
Defined.
