(* ===== verification/Reassemble.v ===== *)
(** * The receiver: reassembly of chunks

    Models [src/waprox/reassemble.c], [QueuePutMessage] of [mrc_tree.c] and the
    receiving side of the name tree messages in [waprox.c]
    ([ProcessNameTreeDelivery2], [UpdatePeekResult], [CheckPeek]), with the
    options of the Makefile: no chunk peeks, lazy puts, the optimised
    reassembly.  The chunks a connection waits for are looked up in the
    temporary cache of [ChunkCache].  Global statistics are not modelled. *)

From Stdlib Require Import ZArith Lia.
From stdpp Require Import base list option numbers gmap.
From S2P Require Import Prelude Bytes Rabin Mrc MrcLevels MrcTree MrcResolve MrcCandidates.
From S2P Require Import Hashtable Protocol ChunkCache Hrw Peer.

(** The parameters of [config.c] the receiver uses. *)
Record Config := {
  g_NoCache : bool;
  g_ClientChunking : bool;
  g_ServerChunking : bool;
  g_SkipFirstChunk : bool;
  g_PutQueueSize : Z
}.

Record ChunkNameInfo := {
  cni_isHit : bool;
  cni_inMemory : bool;
  cni_length : Z;
  cni_peerIdx : Z;
  cni_isNetwork : bool;
  cni_sha1name : list Z
}.

(** [ri_ptr] stands for the address of the structure: the ready list of a
    connection points to the members of its reassemble list. *)
Record ReassembleInfo := {
  ri_ptr : nat;
  ri_seq_no : Z;
  ri_numNames : Z;
  ri_numPeekResolved : Z;
  ri_getSent : bool;
  ri_nameList : list ChunkNameInfo
}.

(** The part of [UserConnectionInfo] that belongs to the receiving side;
    [rs_next] is the next address, [rs_sent] the data given to [SendData]. *)
Record RecvState := {
  rs_isForward : bool;
  rs_dstPxyIdx : Z;
  rs_seq_no : Z;
  rs_reassembleList : list ReassembleInfo;
  rs_readyList : list nat;
  rs_next : nat;
  rs_pendingNames : Z;
  rs_pendingBytes : Z;
  rs_numHits : Z;
  rs_numMisses : Z;
  rs_hitBytes : Z;
  rs_missBytes : Z;
  rs_sent : list (list Z)
}.

Definition set_lists (ris : list ReassembleInfo) (ready : list nat) (rs : RecvState) : RecvState :=
  {| rs_isForward := rs_isForward rs; rs_dstPxyIdx := rs_dstPxyIdx rs; rs_seq_no := rs_seq_no rs;
     rs_reassembleList := ris; rs_readyList := ready; rs_next := rs_next rs;
     rs_pendingNames := rs_pendingNames rs; rs_pendingBytes := rs_pendingBytes rs;
     rs_numHits := rs_numHits rs; rs_numMisses := rs_numMisses rs; rs_hitBytes := rs_hitBytes rs;
     rs_missBytes := rs_missBytes rs; rs_sent := rs_sent rs |}.
Definition set_seq (seq : Z) (next : nat) (rs : RecvState) : RecvState :=
  {| rs_isForward := rs_isForward rs; rs_dstPxyIdx := rs_dstPxyIdx rs; rs_seq_no := seq;
     rs_reassembleList := rs_reassembleList rs; rs_readyList := rs_readyList rs; rs_next := next;
     rs_pendingNames := rs_pendingNames rs; rs_pendingBytes := rs_pendingBytes rs;
     rs_numHits := rs_numHits rs; rs_numMisses := rs_numMisses rs; rs_hitBytes := rs_hitBytes rs;
     rs_missBytes := rs_missBytes rs; rs_sent := rs_sent rs |}.
Definition set_pending (names bytes : Z) (rs : RecvState) : RecvState :=
  {| rs_isForward := rs_isForward rs; rs_dstPxyIdx := rs_dstPxyIdx rs; rs_seq_no := rs_seq_no rs;
     rs_reassembleList := rs_reassembleList rs; rs_readyList := rs_readyList rs;
     rs_next := rs_next rs; rs_pendingNames := names; rs_pendingBytes := bytes;
     rs_numHits := rs_numHits rs; rs_numMisses := rs_numMisses rs; rs_hitBytes := rs_hitBytes rs;
     rs_missBytes := rs_missBytes rs; rs_sent := rs_sent rs |}.
Definition set_stats (hits misses hitb missb : Z) (rs : RecvState) : RecvState :=
  {| rs_isForward := rs_isForward rs; rs_dstPxyIdx := rs_dstPxyIdx rs; rs_seq_no := rs_seq_no rs;
     rs_reassembleList := rs_reassembleList rs; rs_readyList := rs_readyList rs;
     rs_next := rs_next rs; rs_pendingNames := rs_pendingNames rs;
     rs_pendingBytes := rs_pendingBytes rs; rs_numHits := hits; rs_numMisses := misses;
     rs_hitBytes := hitb; rs_missBytes := missb; rs_sent := rs_sent rs |}.
Definition set_sent (l : list (list Z)) (rs : RecvState) : RecvState :=
  {| rs_isForward := rs_isForward rs; rs_dstPxyIdx := rs_dstPxyIdx rs; rs_seq_no := rs_seq_no rs;
     rs_reassembleList := rs_reassembleList rs; rs_readyList := rs_readyList rs;
     rs_next := rs_next rs; rs_pendingNames := rs_pendingNames rs;
     rs_pendingBytes := rs_pendingBytes rs; rs_numHits := rs_numHits rs;
     rs_numMisses := rs_numMisses rs; rs_hitBytes := rs_hitBytes rs;
     rs_missBytes := rs_missBytes rs; rs_sent := l |}.

(** ** Names of a message *)

(** Returns the connection and the address of the new structure. *)
Definition CreateNewReassembleInfo (rs : RecvState) (seq_no : Z) : RecvState * nat :=
  let p := rs_next rs in
  let ri := {| ri_ptr := p; ri_seq_no := seq_no; ri_numNames := 0; ri_numPeekResolved := 0;
               ri_getSent := false; ri_nameList := [] |} in
  (set_seq (rs_seq_no rs) (S p)
     (set_lists (rs_reassembleList rs ++ [ri]) (rs_readyList rs) rs), p).

(** A pointer that is not in the list dangles. *)
Fixpoint update_ri (p : nat) (f : ReassembleInfo → outcome ReassembleInfo)
    (l : list ReassembleInfo) : outcome (list ReassembleInfo) :=
  match l with
  | [] => Fault OutOfBounds
  | ri :: l' =>
      if decide (ri_ptr ri = p) then ri ← f ri; Done (ri :: l')
      else l' ← update_ri p f l'; Done (ri :: l')
  end.

Definition with_ri (p : nat) (f : ReassembleInfo → outcome ReassembleInfo) (rs : RecvState)
    : outcome RecvState :=
  l ← update_ri p f (rs_reassembleList rs);
  Done (set_lists l (rs_readyList rs) rs).

(** The chunk name is filled in [ProcessNameTreeDelivery2], which appends it. *)
Definition AppendChunkName (rs : RecvState) (p : nat) (sha1name : list Z) (length_ : Z)
    (isHit : bool) : outcome RecvState :=
  _ ← c_assert (0 <? u32 length_);
  let cni := {| cni_isHit := isHit; cni_inMemory := false; cni_length := length_;
                cni_peerIdx := -1; cni_isNetwork := false; cni_sha1name := sha1name |} in
  let rs := set_pending (u32 (rs_pendingNames rs + 1)) (u32 (rs_pendingBytes rs + length_)) rs in
  with_ri p (λ ri, Done {| ri_ptr := ri_ptr ri; ri_seq_no := ri_seq_no ri;
                           ri_numNames := ri_numNames ri; ri_numPeekResolved := ri_numPeekResolved ri;
                           ri_getSent := ri_getSent ri; ri_nameList := ri_nameList ri ++ [cni] |}) rs.

(** A change of the chunk name that was appended last. *)
Definition update_last (f : ChunkNameInfo → ChunkNameInfo) (l : list ChunkNameInfo)
    : outcome (list ChunkNameInfo) :=
  match reverse l with [] => Fault OutOfBounds | c :: l' => Done (reverse l' ++ [f c]) end.

(** [UpdatePeekResult] for the last name, with the fields its caller set. *)
Definition UpdatePeekResult (rs : RecvState) (p : nat) (idx : Z) (isHit hasContent inMemory : bool)
    (length_ : Z) : outcome RecvState :=
  let rs :=
    if isHit && negb hasContent
    then set_stats (u32 (rs_numHits rs + 1)) (rs_numMisses rs)
           (u32 (rs_hitBytes rs + length_)) (rs_missBytes rs) rs
    else set_stats (rs_numHits rs) (u32 (rs_numMisses rs + 1))
           (rs_hitBytes rs) (u32 (rs_missBytes rs + length_)) rs in
  with_ri p (λ ri,
    names ← update_last (λ c, {| cni_isHit := isHit; cni_inMemory := inMemory;
              cni_length := cni_length c; cni_peerIdx := idx; cni_isNetwork := cni_isNetwork c;
              cni_sha1name := cni_sha1name c |}) (ri_nameList ri);
    let resolved := u32 (ri_numPeekResolved ri + 1) in
    _ ← c_assert (resolved <=? ri_numNames ri);
    Done {| ri_ptr := ri_ptr ri; ri_seq_no := ri_seq_no ri; ri_numNames := ri_numNames ri;
            ri_numPeekResolved := resolved; ri_getSent := ri_getSent ri; ri_nameList := names |}) rs.

Definition CheckPeek (rs : RecvState) (p : nat) : outcome RecvState :=
  match list_find (λ ri, ri_ptr ri = p) (rs_reassembleList rs) with
  | None => Fault OutOfBounds
  | Some (_, ri) =>
      if ri_numPeekResolved ri =? ri_numNames ri
      then Done (set_lists (rs_reassembleList rs) (rs_readyList rs ++ [p]) rs)
      else Done rs
  end.

(** ** The queue of puts *)

Record PutQueue := {
  g_PutMessageList : list (list Z * Z);
  g_NumPutMessages : Z;
  g_CurPutQueueSize : Z;
  g_TotalPutDiscarded : Z
}.

Section receiver.
Context `{Digest} {HT VT AT : Type} `{!Table (list Z) Z HT} `{!Table (list Z) CacheValue VT}
  `{!Table (list Z) nat AT}.
#[local] Abbreviation cache := (cache HT VT).

(** [root] is the first name of the chunk, when there is one. *)
Definition QueuePutMessage (g : Config) (c : cache) (q : PutQueue) (buffer : list Z)
    (dstPxyId seq_no : Z) (root : option ChunkNameInfo) : outcome PutQueue :=
  let buf_len := Z.of_nat (length buffer) in
  if g_SkipFirstChunk g && (seq_no =? 0) then Done q
  else
    let root_hit :=
      match root with
      | Some cni => (cni_length cni =? buf_len) && GetDiskHint c (cni_sha1name cni)
      | None => false
      end in
    if root_hit then Done q
    else
      let limit := u32 (i32 (g_PutQueueSize g * 1024 * 1024)) in
      if limit <? u32 (g_CurPutQueueSize q + buf_len) then
        Done {| g_PutMessageList := g_PutMessageList q; g_NumPutMessages := g_NumPutMessages q;
                g_CurPutQueueSize := g_CurPutQueueSize q;
                g_TotalPutDiscarded := u32 (g_TotalPutDiscarded q + buf_len) |}
      else
        let size := u32 (g_CurPutQueueSize q + buf_len) in
        _ ← c_assert (size <=? limit);
        Done {| g_PutMessageList := g_PutMessageList q ++ [(buffer, dstPxyId)];
                g_NumPutMessages := i32 (g_NumPutMessages q + 1);
                g_CurPutQueueSize := size; g_TotalPutDiscarded := g_TotalPutDiscarded q |}.

(** ** Reassembly *)

Definition add_ref (d : Z) (c : cache) (sha1name : list Z) : cache :=
  set_tmp (tbl_modify (tmp_ht c) sha1name (λ v, set_ref_count (i32 (cv_ref_count v + d)) v)) c.

(** The first loop of [CheckOneChunkTree]: the cache, [complete], [numChecked]
    and [buf_len]. *)
Fixpoint check_names (c : cache) (names : list ChunkNameInfo) (numChecked : nat) (buf_len : Z)
    : cache * bool * nat * Z :=
  match names with
  | [] => (c, true, numChecked, buf_len)
  | walk :: names' =>
      match SearchCache c (cni_sha1name walk) with
      | None => (c, false, numChecked, buf_len)
      | Some value =>
          let c := add_ref (-1) c (cni_sha1name walk) in
          let buf_len := i32 (buf_len + cv_block_length value) in
          if i32 (cv_ref_count value - 1) <? 0 then (c, false, S numChecked, buf_len)
          else check_names c names' (S numChecked) buf_len
      end
  end.

(** The second loop, over the names that were checked. *)
Definition recover_ref (c : cache) (walk : ChunkNameInfo) : outcome cache :=
  match SearchCache c (cni_sha1name walk) with
  | None => Fault AssertFailed
  | Some value =>
      let c := add_ref 1 c (cni_sha1name walk) in
      _ ← c_assert (0 <=? i32 (cv_ref_count value + 1));
      Done c
  end.

Definition CheckOneChunkTree (c : cache) (ri : ReassembleInfo) : outcome (cache * Z) :=
  let '(c, complete, numChecked, buf_len) := check_names c (ri_nameList ri) 0 0 in
  c ← foldM recover_ref c (take numChecked (ri_nameList ri));
  _ ← c_assert (numChecked <=? length (ri_nameList ri))%nat;
  Done (c, if complete then buf_len else 0).

(** The loop that copies the chunks: the cache, the connection and the bytes
    copied so far into the buffer of [buf_len] bytes. *)
Definition flush_name (buf_len : Z) (st : cache * RecvState * list Z) (walk : ChunkNameInfo)
    : outcome (cache * RecvState * list Z) :=
  let '(c, rs, chunkBuffer) := st in
  match SearchCache c (cni_sha1name walk) with
  | None => Fault AssertFailed
  | Some value =>
      _ ← c_assert (cv_block_length value =? u32 (cni_length walk));
      _ ← (if Z.of_nat (length chunkBuffer) + cv_block_length value <=? buf_len then Done tt
           else Fault OutOfBounds);
      block ← load (cv_pBlock value) 0 (Z.to_nat (cv_block_length value));
      let rs := set_pending (u32 (rs_pendingNames rs - 1))
                  (u32 (rs_pendingBytes rs - cv_block_length value)) rs in
      c ← RefFlushChunk c (cni_sha1name walk);
      Done (c, rs, chunkBuffer ++ block)
  end.

(** The last result is [TRUE] when the chunk was sent. *)
Definition ReconstructOneChunkTree (g : Config) (c : cache) (q : PutQueue) (rs : RecvState)
    (ri : ReassembleInfo) : outcome (cache * PutQueue * RecvState * bool) :=
  if negb (ri_getSent ri) then Done (c, q, rs, false)
  else
    match ri_nameList ri with
    | [] => Done (c, q, rs, false)
    | root :: _ =>
        '(c, buf_len) ← CheckOneChunkTree c ri;
        if buf_len =? 0 then Done (c, q, rs, false)
        else
          _ ← c_assert (buf_len <=? MAX_CHUNK_SIZE);
          '(c, rs, chunkBuffer) ← foldM (flush_name buf_len) (c, rs, []) (ri_nameList ri);
          _ ← c_assert (Z.of_nat (length chunkBuffer) =? buf_len);
          q ← (if negb (g_NoCache g) &&
                  ((g_ClientChunking g && negb (rs_isForward rs)) ||
                   (g_ServerChunking g && rs_isForward rs))
               then QueuePutMessage g c q chunkBuffer (rs_dstPxyIdx rs) (rs_seq_no rs) (Some root)
               else Done q);
          Done (c, q, set_sent (rs_sent rs ++ [chunkBuffer]) rs, true)
    end.

Definition DestroyReassembleInfo (ri : ReassembleInfo) : outcome unit :=
  c_assert (negb (length (ri_nameList ri) =? 0)%nat).

(** The loop of [ReconstructOriginalData]; a chunk that was sent leaves the
    head of the list. *)
Fixpoint reconstruct (g : Config) (c : cache) (q : PutQueue) (rs : RecvState)
    (l : list ReassembleInfo) : outcome (cache * PutQueue * RecvState) :=
  match l with
  | [] => Done (c, q, rs)
  | ri :: l' =>
      '(c, q, rs, sent) ← ReconstructOneChunkTree g c q rs ri;
      if (sent : bool) then
        let rs := set_lists l' (rs_readyList rs) rs in
        _ ← DestroyReassembleInfo ri;
        reconstruct g c q rs l'
      else Done (c, q, rs)
  end.

Definition ReconstructOriginalData (g : Config) (c : cache) (q : PutQueue) (rs : RecvState)
    : outcome (cache * PutQueue * RecvState) :=
  reconstruct g c q rs (rs_reassembleList rs).

(** ** A name tree message *)

(** The body of the loop of [ProcessNameTreeDelivery2] over the names. *)
Definition receive_chunk (rotl : Z → Z → Z) (p : nat) (st : cache * peers AT * RecvState)
    (chunk : WAOneChunk) : outcome (cache * peers AT * RecvState) :=
  let '(c, ps, rs) := st in
  let hasContent := match wc_content chunk with Some _ => true | None => false end in
  rs ← AppendChunkName rs p (wc_sha1name chunk) (wc_length chunk) hasContent;
  rs ← with_ri p (λ ri, Done {| ri_ptr := ri_ptr ri; ri_seq_no := ri_seq_no ri;
         ri_numNames := u32 (ri_numNames ri + 1); ri_numPeekResolved := ri_numPeekResolved ri;
         ri_getSent := ri_getSent ri; ri_nameList := ri_nameList ri |}) rs;
  '(ps, idx) ← PickPeerToRedirect rotl ps (wc_sha1name chunk);
  if idx =? -1 then Fault NiceExit
  else
    match wc_content chunk with
    | Some content =>
        c ← RefPutChunkCallback c (wc_sha1name chunk) content (wc_length chunk);
        rs ← UpdatePeekResult rs p idx true true true (wc_length chunk);
        Done (c, ps, rs)
    | None =>
        rs ← UpdatePeekResult rs p idx true false false (wc_length chunk);
        Done (c, ps, rs)
    end.

(** [ProcessNameTreeDelivery2] once the connection is found; the last result is
    the length of the message. *)
Definition deliver_names (rotl : Z → Z → Z) (c : cache) (ps : peers AT) (rs : RecvState)
    (buffer : list Z) : outcome (cache * peers AT * RecvState * Z) :=
  let '(rs, p) := CreateNewReassembleInfo rs (rs_seq_no rs) in
  let rs := set_seq (u32 (rs_seq_no rs + 1)) (rs_next rs) rs in
  '(_, (c, ps, rs), tot_length) ← read_name_delivery (receive_chunk rotl p) (c, ps, rs) buffer;
  rs ← CheckPeek rs p;
  Done (c, ps, rs, tot_length).
End receiver.

(** ** The check leaves the cache as it was *)

(** How often a name occurs. *)
Definition cnt (n : list Z) (names : list ChunkNameInfo) : nat :=
  length (filter (λ w, cni_sha1name w = n) names).

Lemma cnt_app n l1 l2 : cnt n (l1 ++ l2) = (cnt n l1 + cnt n l2)%nat.
Proof. unfold cnt. by rewrite filter_app, length_app. Qed.

Lemma cnt_cons n w l :
  cnt n (w :: l) = ((if decide (cni_sha1name w = n) then 1 else 0) + cnt n l)%nat.
Proof. unfold cnt. rewrite filter_cons. by case_decide. Qed.

Lemma cnt_le n l : (cnt n l ≤ length l)%nat.
Proof. apply length_filter. Qed.

Lemma cnt_take n l k : (cnt n (take k l) ≤ cnt n l)%nat.
Proof. rewrite <-(take_drop k l) at 2. rewrite cnt_app. lia. Qed.

Lemma cnt_self w l : w ∈ l → (0 < cnt (cni_sha1name w) l)%nat.
Proof.
  intros (l1 & l2 & ->)%list_elem_of_split. rewrite cnt_app, cnt_cons, decide_True by done. lia.
Qed.

(** The chunk is complete: every name is there, as often as it is needed. *)
Definition available (R : refs) (names : list ChunkNameInfo) : Prop :=
  Forall (λ w, (cnt (cni_sha1name w) names ≤ ref_count R (cni_sha1name w))%nat) names.
#[export] Instance available_dec R names : Decision (available R names).
Proof. unfold available. apply _. Defined.

Definition block_of (R : refs) (n : list Z) : list Z :=
  match R !! n with Some (_, b) => b | None => [] end.
(** The bytes of the chunk. *)
Definition blocks (R : refs) (names : list ChunkNameInfo) : list Z :=
  concat ((λ w, block_of R (cni_sha1name w)) <$> names).

(** The table when [l] was decremented. *)
Definition owed (R : refs) (l : list ChunkNameInfo) : gmap (list Z) CacheValue :=
  map_imap (λ n p, Some {| cv_pBlock := p.2; cv_block_length := Z.of_nat (length p.2);
                           cv_ref_count := Z.of_nat p.1 - Z.of_nat (cnt n l) |}) R.

Lemma owed_lookup R l n :
  owed R l !! n = (λ p, {| cv_pBlock := p.2; cv_block_length := Z.of_nat (length p.2);
                           cv_ref_count := Z.of_nat p.1 - Z.of_nat (cnt n l) |}) <$> R !! n.
Proof. unfold owed. rewrite map_lookup_imap. by destruct (R !! n). Qed.

Lemma owed_nil R : owed R [] = ref_value <$> R.
Proof.
  apply map_eq. intros n. rewrite owed_lookup, lookup_fmap. destruct (R !! n) as [[k b]|]; [|done].
  cbn. unfold ref_value. cbn. do 2 f_equal. lia.
Qed.

Lemma owed_cnt R l1 l2 : (∀ n, cnt n l1 = cnt n l2) → owed R l1 = owed R l2.
Proof. intros Hc. apply map_eq. intros n. by rewrite !owed_lookup, Hc. Qed.

Definition refs_small (R : refs) : Prop := ∀ n, Z.of_nat (ref_count R n) < 2 ^ 31.

(** A change of a count by [d] in the table with the debts [l]. *)
Lemma owed_alter R l l' n d :
  refs_small R → Z.of_nat (length l) < 2 ^ 31 → Z.of_nat (length l') < 2 ^ 31 →
  (∀ n', Z.of_nat (cnt n' l') = Z.of_nat (cnt n' l) - if decide (n' = n) then d else 0) →
  alter (λ v, set_ref_count (i32 (cv_ref_count v + d)) v) n (owed R l) = owed R l'.
Proof.
  intros Hr Hl Hl' Hc. apply map_eq. intros n'. rewrite owed_lookup. specialize (Hc n').
  destruct (decide (n' = n)) as [->|Hne].
  - rewrite lookup_alter_eq, owed_lookup. pose proof (Hr n) as Hrn. unfold ref_count in Hrn.
    pose proof (cnt_le n l). pose proof (cnt_le n l').
    destruct (R !! n) as [[k b]|]; [|done]. cbn. unfold set_ref_count. cbn. do 2 f_equal.
    rewrite i32_id; lia.
  - rewrite lookup_alter_ne, owed_lookup by done. destruct (R !! n') as [[k b]|]; [|done]. cbn.
    do 2 f_equal. lia.
Qed.

Section check.
Context {HT VT : Type} `{!Table (list Z) Z HT} `{!Table (list Z) CacheValue VT}.
#[local] Abbreviation cache := (cache HT VT).

Definition owes (c : cache) (R : refs) (l : list ChunkNameInfo) : Prop :=
  tbl_is (tmp_ht c) (owed R l).

Lemma tmp_is_owes (c : cache) R : tmp_is c R → owes c R [].
Proof. intros [Ht _]. unfold owes. by rewrite owed_nil. Qed.

Lemma owes_tmp_is (c : cache) R (c' : cache) : tmp_is c' R → owes c R [] → tmp_is c R.
Proof. intros [_ Hr] Ho. split; [|done]. by rewrite <-owed_nil. Qed.

Lemma owes_search (c : cache) R l n :
  owes c R l → SearchCache c n = (λ p, {| cv_pBlock := p.2; cv_block_length := Z.of_nat (length p.2);
                           cv_ref_count := Z.of_nat p.1 - Z.of_nat (cnt n l) |}) <$> R !! n.
Proof. intros Ho. unfold SearchCache. by rewrite (tbl_search_ok _ _ _ Ho), owed_lookup. Qed.

Lemma add_ref_owes (c : cache) R l l' n d :
  owes c R l → refs_small R → Z.of_nat (length l) < 2 ^ 31 → Z.of_nat (length l') < 2 ^ 31 →
  (∀ n', Z.of_nat (cnt n' l') = Z.of_nat (cnt n' l) - if decide (n' = n) then d else 0) →
  owes (add_ref d c n) R l'.
Proof.
  intros Ho Hr Hl Hl' Hc. unfold owes, add_ref. cbn [set_tmp tmp_ht].
  rewrite <-(owed_alter R l l' n d Hr Hl Hl' Hc). by apply tbl_modify_ok.
Qed.

(** A cache that differs in the temporary table only. *)
Definition same_but_tmp (c c' : cache) : Prop := ∃ ht, c' = set_tmp ht c.

Lemma same_but_tmp_refl (c : cache) : same_but_tmp c c.
Proof. exists (tmp_ht c). by destruct c. Qed.
Lemma same_but_tmp_trans (c1 c2 c3 : cache) : same_but_tmp c1 c2 → same_but_tmp c2 c3 → same_but_tmp c1 c3.
Proof. intros [h1 ->] [h2 ->]. by exists h2. Qed.
Lemma add_ref_same d (c : cache) n : same_but_tmp c (add_ref d c n).
Proof. by eexists. Qed.

Lemma check_names_ok R names : ∀ (c : cache) pre bl,
  owes c R pre → refs_small R → Z.of_nat (length (pre ++ names)) < 2 ^ 31 →
  0 ≤ bl → bl + Z.of_nat (length (blocks R names)) < 2 ^ 31 →
  (∀ n, (cnt n pre ≤ ref_count R n)%nat) →
  let ok := bool_decide (Forall (λ w, (cnt (cni_sha1name w) (pre ++ names) ≤ ref_count R (cni_sha1name w))%nat) names) in
  ∃ c' k bl', check_names c names (length pre) bl = (c', ok, (length pre + k)%nat, bl') ∧
    same_but_tmp c c' ∧ owes c' R (pre ++ take k names) ∧ (k ≤ length names)%nat ∧
    (∀ n, (cnt n (pre ++ take k names) ≤ S (ref_count R n))%nat) ∧
    (∀ w, w ∈ take k names → is_Some (R !! cni_sha1name w)) ∧
    (ok = true → bl' = bl + Z.of_nat (length (blocks R names))).
Proof.
  induction names as [|w names IH]; intros c pre bl Ho Hr Hlen Hbl Hb Hpre ok; cbn [check_names].
  { exists c, 0%nat, bl. cbn [take blocks fmap list_fmap concat length]. rewrite app_nil_r, Nat.add_0_r, Z.add_0_r.
    split_and!; [|apply same_but_tmp_refl|done|lia|intros n; specialize (Hpre n); lia|by intros w ?%not_elem_of_nil|done].
    subst ok. by rewrite bool_decide_eq_true_2. }
  rewrite length_app in Hlen. cbn [length] in Hlen.
  rewrite (owes_search c R pre _ Ho). set (n := cni_sha1name w) in *.
  assert (length (blocks R (w :: names)) = (length (block_of R n) + length (blocks R names))%nat) as Hbw.
  { unfold blocks. cbn [fmap list_fmap concat]. by rewrite length_app. }
  pose proof (Hpre n) as Hpn. pose proof (Hr n) as Hrn. unfold ref_count in Hpn, Hrn. unfold block_of in Hbw.
  assert (∀ n', cnt n' (pre ++ [w]) = (cnt n' pre + if decide (n' = n) then 1 else 0)%nat) as Hsnoc.
  { intros n'. rewrite cnt_app, cnt_cons. fold n. unfold cnt at 2. cbn.
    destruct (decide (n = n')), (decide (n' = n)); subst; try done; lia. }
  destruct (R !! n) as [[k b]|] eqn:En; cbn [fmap option_fmap option_map].
  2:{ exists c, 0%nat, bl. cbn [take]. rewrite app_nil_r, Nat.add_0_r.
      assert (ok = false) as ->.
      { apply bool_decide_eq_false_2. intros [Hw _]%Forall_cons_1. fold n in Hw.
        rewrite cnt_app, cnt_cons, decide_True in Hw by done. unfold ref_count in Hw. rewrite En in Hw. lia. }
      split_and!; [done|apply same_but_tmp_refl|done|lia|intros n'; specialize (Hpre n'); lia|by intros w' ?%not_elem_of_nil|done]. }
  cbn [fst snd cv_ref_count cv_block_length].
  rewrite (i32_id (Z.of_nat k - _ - 1)) by lia. rewrite (i32_id (bl + _)) by lia.
  assert (owes (add_ref (-1) c n) R (pre ++ [w])) as Ho1.
  { apply (add_ref_owes c R pre); [done|done|lia|rewrite length_app; cbn; lia|].
    intros n'. rewrite Hsnoc. case_decide; lia. }
  destruct (Z.ltb_spec (Z.of_nat k - Z.of_nat (cnt n pre) - 1) 0) as [Hneg|Hpos].
  { exists (add_ref (-1) c n), 1%nat, (bl + Z.of_nat (length b)). cbn [take].
    assert (ok = false) as ->.
    { apply bool_decide_eq_false_2. intros [Hw _]%Forall_cons_1. fold n in Hw.
      rewrite cnt_app, cnt_cons, decide_True in Hw by done. unfold ref_count in Hw. rewrite En in Hw. lia. }
    split_and!; [f_equal; f_equal; lia|apply add_ref_same|done|cbn; lia| | |done];
      [|intros w' ->%list_elem_of_singleton; fold n; by rewrite En].
    intros n'. rewrite Hsnoc. specialize (Hpre n'). case_decide; lia. }
  destruct (IH (add_ref (-1) c n) (pre ++ [w]) (bl + Z.of_nat (length b))) as
    (c' & k' & bl' & He & Hs & Ho' & Hk & Hc & Hin & Hl); [done|done| |lia|lia| |].
  { rewrite !length_app. cbn. lia. }
  { intros n'. rewrite Hsnoc. specialize (Hpre n'). case_decide; [|lia]. subst n'.
    unfold ref_count. rewrite En. lia. }
  exists c', (S k'), bl'. cbn [take length]. rewrite <-app_assoc in Ho', Hc. cbn [app] in Ho', Hc.
  rewrite length_app in He. cbn [length] in He.
  assert (ok = bool_decide (Forall (λ w0, (cnt (cni_sha1name w0) ((pre ++ [w]) ++ names) ≤
    ref_count R (cni_sha1name w0))%nat) names)) as Hok.
  { subst ok. rewrite <-app_assoc. cbn [app]. apply bool_decide_ext. rewrite Forall_cons.
    split; [by intros [_ ?]|]. intros Hf. split; [|done].
    destruct (decide (cnt n names = 0%nat)) as [Hz|Hz].
    - fold n. rewrite cnt_app, cnt_cons, decide_True, Hz by done. unfold ref_count. rewrite En. lia.
    - destruct (filter (λ w, cni_sha1name w = n) names) as [|w' l'] eqn:Ef; [unfold cnt in Hz; by rewrite Ef in Hz|].
      assert (w' ∈ filter (λ w, cni_sha1name w = n) names) as [Hw' Hin']%list_elem_of_filter by (rewrite Ef; left).
      rewrite Forall_forall in Hf. specialize (Hf w' Hin'). fold n. by rewrite Hw' in Hf. }
  rewrite Hok. replace (S (length pre)) with (length pre + 1)%nat by lia. rewrite He.
  split_and!; [f_equal; f_equal; lia| |done|lia|done|intros w' [->|?]%elem_of_cons; [fold n; by rewrite En|by apply Hin]|intros E; rewrite (Hl E); lia].
  eapply same_but_tmp_trans; [apply add_ref_same|done].
Qed.

Lemma recover_ok R l : ∀ c : cache,
  owes c R l → refs_small R → Z.of_nat (length l) < 2 ^ 31 →
  (∀ n, (cnt n l ≤ S (ref_count R n))%nat) → (∀ w, w ∈ l → is_Some (R !! cni_sha1name w)) →
  ∃ c', foldM recover_ref c l = Done c' ∧ same_but_tmp c c' ∧ owes c' R [].
Proof.
  induction l as [|w l IH]; intros c Ho Hr Hlen Hc Hin.
  { exists c. split_and!; [done|apply same_but_tmp_refl|done]. }
  cbn [length foldM] in *.
  set (n := cni_sha1name w). destruct (Hin w ltac:(by left)) as [[k b] Hk]. fold n in Hk.
  pose proof (Hc n) as Hcn. pose proof (Hr n) as Hrn. unfold ref_count in Hcn, Hrn. rewrite Hk in Hcn, Hrn.
  rewrite cnt_cons, decide_True in Hcn by done. pose proof (cnt_le n l).
  assert (recover_ref c w = Done (add_ref 1 c n)) as ->.
  { unfold recover_ref. rewrite (owes_search c R _ _ Ho). fold n. rewrite Hk.
    cbn [fmap option_fmap option_map fst snd cv_ref_count]. rewrite cnt_cons, decide_True by done.
    by rewrite i32_id, (proj2 (Z.leb_le _ _)) by lia. }
  cbn [mbind outcome_bind].
  destruct (IH (add_ref 1 c n)) as (c' & He & Hs & Ho'); [|done|lia| |intros; by apply Hin; right|].
  - apply (add_ref_owes c R (w :: l)); [done|done|cbn; lia|lia|]. intros n'. rewrite cnt_cons. fold n.
    destruct (decide (n = n')), (decide (n' = n)); subst; try done; lia.
  - intros n'. specialize (Hc n'). rewrite cnt_cons in Hc. lia.
  - exists c'. split_and!; [done| |done]. eapply same_but_tmp_trans; [apply add_ref_same|done].
Qed.

Lemma CheckOneChunkTree_ok (c : cache) R ri :
  tmp_is c R → refs_small R → Z.of_nat (length (ri_nameList ri)) < 2 ^ 31 →
  Z.of_nat (length (blocks R (ri_nameList ri))) < 2 ^ 31 →
  ∃ c', CheckOneChunkTree c ri =
      Done (c', if decide (available R (ri_nameList ri))
                then Z.of_nat (length (blocks R (ri_nameList ri))) else 0) ∧
    tmp_is c' R ∧ same_but_tmp c c'.
Proof.
  intros Ht Hr Hn Hb. unfold CheckOneChunkTree.
  destruct (check_names_ok R (ri_nameList ri) c [] 0 (tmp_is_owes c R Ht) Hr Hn) as
    (c1 & k & bl & He & Hs & Ho & Hk & Hc & Hin & Hl); [lia|lia|intros n; cbn; lia|].
  cbn [length app] in *. rewrite He. rewrite Nat.add_0_l in *. pose proof (length_take_le _ _ Hk) as Hlk.
  destruct (recover_ok R (take k (ri_nameList ri)) c1) as (c2 & He2 & Hs2 & Ho2);
    [done|done|lia|done|done|].
  rewrite He2. cbn [mbind outcome_bind]. rewrite (proj2 (Nat.leb_le _ _)) by done.
  cbn [c_assert mbind outcome_bind]. exists c2. split_and!.
  - do 2 f_equal. change (Forall _ _) with (available R (ri_nameList ri)) in *.
    destruct (decide _) as [Ha|Ha]; [rewrite bool_decide_eq_true_2 in * by done; rewrite Hl by done; lia|].
    by rewrite bool_decide_eq_false_2.
  - by eapply owes_tmp_is.
  - by eapply same_but_tmp_trans.
Qed.
End check.

(** ** What a complete chunk sends *)

(** The references that remain when the names are flushed. *)
Definition flush_refs (R : refs) (names : list ChunkNameInfo) : refs :=
  foldl (λ R w, ref_flush R (cni_sha1name w)) R names.

(** The cached bytes of a name have the length that came with it, and the
    chunk is not too long. *)
Record fits (R : refs) (ri : ReassembleInfo) : Prop := {
  fi_lengths : ∀ w, w ∈ ri_nameList ri → 0 < cni_length w < 2 ^ 32 ∧
    ∀ k b, R !! cni_sha1name w = Some (k, b) → Z.of_nat (length b) = cni_length w;
  fi_total : sum_Z (cni_length <$> ri_nameList ri) ≤ MAX_CHUNK_SIZE
}.

Lemma ref_flush_block R n n' k b :
  ref_flush R n !! n' = Some (k, b) → ∃ k', R !! n' = Some (k', b) ∧ (k ≤ k')%nat.
Proof.
  unfold ref_flush. destruct (R !! n) as [[[|[|j]] b']|] eqn:E; try by
    intros (_ & H)%lookup_delete_Some; eauto.
  destruct (decide (n = n')) as [<-|Hne].
  - rewrite lookup_insert_eq. intros [= <- <-]. eauto with lia.
  - rewrite lookup_insert_ne by done. eauto.
Qed.

Lemma fits_flush R n ri : fits R ri → fits (ref_flush R n) ri.
Proof.
  intros [Hl Ht]. split; [|done]. intros w Hw. destruct (Hl w Hw) as [H1 H2]. split; [done|].
  intros k b (k' & Hk & _)%ref_flush_block. by eapply H2.
Qed.

Lemma fits_flush_refs ri names : ∀ R, fits R ri → fits (flush_refs R names) ri.
Proof. induction names as [|w l IH]; intros R Hf; [done|]. cbn. by apply IH, fits_flush. Qed.

Lemma small_flush R n : refs_small R → refs_small (ref_flush R n).
Proof. intros Hr n'. specialize (Hr n'). rewrite ref_count_flush. lia. Qed.

Lemma small_flush_refs names : ∀ R, refs_small R → refs_small (flush_refs R names).
Proof. induction names as [|w l IH]; intros R Hf; [done|]. cbn. by apply IH, small_flush. Qed.

Lemma ref_count_flush_refs names : ∀ R n,
  ref_count (flush_refs R names) n = (ref_count R n - cnt n names)%nat.
Proof.
  induction names as [|w l IH]; intros R n; [unfold cnt; cbn; lia|].
  change (flush_refs R (w :: l)) with (flush_refs (ref_flush R (cni_sha1name w)) l).
  rewrite IH, ref_count_flush, cnt_cons. destruct (decide (n = _)), (decide (_ = n)); subst; try done; lia.
Qed.

Lemma fits_bounds R ri :
  fits R ri → Z.of_nat (length (ri_nameList ri)) ≤ MAX_CHUNK_SIZE ∧
    Z.of_nat (length (blocks R (ri_nameList ri))) ≤ MAX_CHUNK_SIZE.
Proof.
  intros [Hl Ht]. revert Hl Ht. generalize (ri_nameList ri). intros l Hl Ht.
  assert (Z.of_nat (length l) ≤ sum_Z (cni_length <$> l) ∧
    Z.of_nat (length (blocks R l)) ≤ sum_Z (cni_length <$> l)); [|lia]. clear Ht.
  induction l as [|w l IH]; [done|].
  destruct IH as [I1 I2]; [intros w' Hw'; apply Hl; by right|]. destruct (Hl w ltac:(by left)) as [H1 H2].
  unfold blocks in *. cbn [fmap list_fmap concat length].
  change (sum_Z (cni_length w :: (cni_length <$> l))) with (cni_length w + sum_Z (cni_length <$> l)).
  rewrite length_app. unfold block_of at 1. split; [lia|].
  destruct (R !! _) as [[k b]|] eqn:E; cbn [length]; [rewrite <-(H2 _ _ eq_refl)|]; lia.
Qed.

Lemma available_cons R w names :
  available R (w :: names) →
  available (ref_flush R (cni_sha1name w)) names ∧
  blocks (ref_flush R (cni_sha1name w)) names = blocks R names ∧ (0 < ref_count R (cni_sha1name w))%nat.
Proof.
  intros [Hw Ha]%Forall_cons_1. rewrite cnt_cons, decide_True in Hw by done.
  set (n := cni_sha1name w) in *.
  assert (available (ref_flush R n) names) as Hav.
  { unfold available. rewrite Forall_forall in Ha |- *. intros w' Hw'. specialize (Ha w' Hw').
    rewrite cnt_cons in Ha. fold n in Ha. rewrite ref_count_flush.
    destruct (decide (n = _)), (decide (_ = n)); subst; try done; lia. }
  split_and!; [done| |lia]. unfold blocks. f_equal. apply list_fmap_ext. intros i w' Hi.
  apply list_elem_of_lookup_2 in Hi. pose proof (cnt_self w' names Hi) as Hp.
  unfold available in Hav. rewrite Forall_forall in Hav. specialize (Hav w' Hi).
  unfold block_of. unfold ref_count in Hav.
  destruct (ref_flush R n !! cni_sha1name w') as [[k b]|] eqn:E; [|lia].
  apply ref_flush_block in E as (k' & -> & _). done.
Qed.

Section send.
Context {HT VT : Type} `{!Table (list Z) Z HT} `{!Table (list Z) CacheValue VT}.
#[local] Abbreviation cache := (cache HT VT).

(** The counters of a connection are unsigned integers. *)
Definition counters_ok (rs : RecvState) : Prop :=
  0 ≤ rs_pendingNames rs < 2 ^ 32 ∧ 0 ≤ rs_pendingBytes rs < 2 ^ 32.

Lemma set_pending_same (rs : RecvState) :
  set_pending (rs_pendingNames rs) (rs_pendingBytes rs) rs = rs.
Proof. by destruct rs. Qed.

Lemma u32_sub_sub a b c : u32 (u32 (a - b) - c) = u32 (a - (b + c)).
Proof. unfold u32. rewrite Zminus_mod_idemp_l. f_equal. lia. Qed.

Lemma flush_names_ok buf_len names : ∀ (c : cache) R rs acc,
  tmp_is c R → refs_small R → available R names → counters_ok rs →
  (∀ w, w ∈ names → 0 < cni_length w < 2 ^ 32 ∧
     ∀ k b, R !! cni_sha1name w = Some (k, b) → Z.of_nat (length b) = cni_length w) →
  Z.of_nat (length acc) + Z.of_nat (length (blocks R names)) ≤ buf_len →
  ∃ c', foldM (flush_name buf_len) (c, rs, acc) names =
      Done (c', set_pending (u32 (rs_pendingNames rs - Z.of_nat (length names)))
                  (u32 (rs_pendingBytes rs - Z.of_nat (length (blocks R names)))) rs,
            acc ++ blocks R names) ∧
    tmp_is c' (flush_refs R names) ∧ same_but_tmp c c'.
Proof.
  induction names as [|w names IH]; intros c R rs acc Ht Hr Ha [Hp1 Hp2] Hl Hb.
  { exists c. cbn. rewrite app_nil_r, !Z.sub_0_r, !u32_id, set_pending_same by done.
    split_and!; [done|done|apply same_but_tmp_refl]. }
  destruct (available_cons R w names Ha) as (Ha' & Hbl & Hpos). set (n := cni_sha1name w) in *.
  destruct (Hl w ltac:(by left)) as [Hw Hlen]. fold n in Hlen.
  pose proof (RefFlushChunk_ok c R n Ht Hpos (Hr n)) as (ht & Hfl & Ht').
  assert (blocks R (w :: names) = block_of R n ++ blocks R names) as Hbw by done.
  rewrite Hbw, length_app in Hb. cbn [foldM].
  destruct (R !! n) as [[k b]|] eqn:En; [|unfold ref_count in Hpos; rewrite En in Hpos; lia].
  specialize (Hlen _ _ eq_refl). assert (block_of R n = b) as Hbn by (unfold block_of; by rewrite En).
  rewrite Hbn in *.
  set (rs1 := set_pending (u32 (rs_pendingNames rs - 1)) (u32 (rs_pendingBytes rs - Z.of_nat (length b))) rs).
  assert (flush_name buf_len (c, rs, acc) w = Done (set_tmp ht c, rs1, acc ++ b)) as ->.
  { unfold flush_name. fold n. rewrite (SearchCache_ok c R n Ht), En.
    cbn [fmap option_fmap option_map ref_value cv_block_length cv_pBlock fst snd].
    rewrite (u32_id (cni_length w)), <-Hlen, Z.eqb_refl by lia. cbn [c_assert mbind outcome_bind].
    rewrite (proj2 (Z.leb_le _ _)) by lia. cbn [mbind outcome_bind].
    rewrite load_Done by lia. cbn [mbind outcome_bind]. rewrite Hfl. cbn [mbind outcome_bind].
    unfold slice. by rewrite drop_0, take_ge by lia. }
  cbn [mbind outcome_bind]. rewrite <-Hbl in Hb.
  destruct (IH (set_tmp ht c) (ref_flush R n) rs1 (acc ++ b)) as (c' & He & Hti & Hs);
    [done|by apply small_flush|done|split; apply u32_range| |rewrite length_app; lia|].
  { intros w' Hw'. destruct (Hl w' ltac:(by right)) as [H1 H2]. split; [done|].
    intros k' b' (k'' & Hk & _)%ref_flush_block. by eapply H2. }
  exists c'. split_and!; [|done|eapply same_but_tmp_trans; [by exists ht|done]].
  rewrite He, Hbw, <-app_assoc, Hbl, length_app. unfold rs1. cbn [set_pending rs_pendingNames rs_pendingBytes
    rs_isForward rs_dstPxyIdx rs_seq_no rs_reassembleList rs_readyList rs_next rs_numHits rs_numMisses
    rs_hitBytes rs_missBytes rs_sent length].
  rewrite !u32_sub_sub, Nat2Z.inj_add, Nat2Z.inj_succ, <-Z.add_1_l. done.
Qed.

Lemma QueuePutMessage_total g (c : cache) q buffer dst seq root :
  ∃ q', QueuePutMessage g c q buffer dst seq root = Done q'.
Proof.
  unfold QueuePutMessage. cbv zeta. destruct (_ && _); [eauto|].
  set (limit := u32 _). set (size := u32 _).
  assert (∃ q', (if limit <? size then Done {| g_PutMessageList := g_PutMessageList q;
      g_NumPutMessages := g_NumPutMessages q; g_CurPutQueueSize := g_CurPutQueueSize q;
      g_TotalPutDiscarded := u32 (g_TotalPutDiscarded q + Z.of_nat (length buffer)) |}
    else _ ← c_assert (size <=? limit);
      Done {| g_PutMessageList := g_PutMessageList q ++ [(buffer, dst)];
              g_NumPutMessages := i32 (g_NumPutMessages q + 1);
              g_CurPutQueueSize := size; g_TotalPutDiscarded := g_TotalPutDiscarded q |}) = Done q')
    as Hq.
  { destruct (Z.ltb_spec limit size); [eauto|]. rewrite (proj2 (Z.leb_le _ _)) by done. cbn. eauto. }
  destruct root as [cni|]; [|exact Hq]. destruct (_ && _); [eauto|exact Hq].
Qed.

(** The receiver may send the chunk. *)
Definition complete (R : refs) (ri : ReassembleInfo) : Prop :=
  ri_getSent ri = true ∧ ri_nameList ri ≠ [] ∧ available R (ri_nameList ri).
#[export] Instance complete_dec R ri : Decision (complete R ri).
Proof. unfold complete. apply _. Defined.

Lemma blocks_pos (c : cache) R names :
  tmp_is c R → names ≠ [] → available R names → (0 < length (blocks R names))%nat.
Proof.
  intros [_ Hr] Hne Ha. destruct names as [|w l]; [done|].
  destruct (available_cons R w l Ha) as (_ & _ & Hp). unfold ref_count in Hp.
  unfold blocks. cbn [fmap list_fmap concat]. rewrite length_app. unfold block_of at 1.
  destruct (R !! _) as [[k b]|] eqn:E; [|lia]. destruct (Hr _ _ _ E) as [_ Hb].
  destruct b; [done|]. cbn. lia.
Qed.

Definition after_send (R : refs) (ri : ReassembleInfo) (rs : RecvState) : RecvState :=
  set_sent (rs_sent rs ++ [blocks R (ri_nameList ri)])
    (set_pending (u32 (rs_pendingNames rs - Z.of_nat (length (ri_nameList ri))))
       (u32 (rs_pendingBytes rs - Z.of_nat (length (blocks R (ri_nameList ri))))) rs).

Lemma ReconstructOneChunkTree_ok g (c : cache) q rs R ri :
  tmp_is c R → refs_small R → counters_ok rs → fits R ri →
  ∃ c' q', ReconstructOneChunkTree g c q rs ri =
      (if decide (complete R ri) then Done (c', q', after_send R ri rs, true)
       else Done (c', q', rs, false)) ∧
    tmp_is c' (if decide (complete R ri) then flush_refs R (ri_nameList ri) else R) ∧
    same_but_tmp c c'.
Proof.
  intros Ht Hr Hc Hf. destruct (fits_bounds R ri Hf) as [Hb1 Hb2]. unfold MAX_CHUNK_SIZE in *.
  unfold ReconstructOneChunkTree. destruct (ri_getSent ri) eqn:Eg; cbn [negb].
  2:{ exists c, q. destruct (decide (complete R ri)) as [(H & _)|_]; [congruence|].
      split_and!; [done|done|apply same_but_tmp_refl]. }
  destruct (ri_nameList ri) as [|root l] eqn:El.
  { exists c, q. destruct (decide (complete R ri)) as [(_ & H & _)|_]; [congruence|].
    split_and!; [done|done|apply same_but_tmp_refl]. }
  rewrite <-El in *.
  destruct (CheckOneChunkTree_ok c R ri Ht Hr) as (c1 & He & Ht1 & Hs1); [lia|lia|].
  rewrite He. cbn [mbind outcome_bind]. destruct (decide (available R (ri_nameList ri))) as [Ha|Ha].
  2:{ exists c1, q. destruct (decide (complete R ri)) as [(_ & _ & H)|_]; [done|].
      split_and!; done. }
  assert (complete R ri) as Hcp by (unfold complete; rewrite El in *; done).
  destruct (decide (complete R ri)) as [_|Hn]; [|by exfalso].
  pose proof (blocks_pos c R (ri_nameList ri) Ht ltac:(rewrite El; done) Ha) as Hpos.
  rewrite (proj2 (Z.eqb_neq _ 0)) by lia. unfold MAX_CHUNK_SIZE.
  rewrite (proj2 (Z.leb_le _ _)) by lia. cbn [c_assert mbind outcome_bind].
  destruct (flush_names_ok (Z.of_nat (length (blocks R (ri_nameList ri)))) (ri_nameList ri) c1 R rs [])
    as (c2 & He2 & Ht2 & Hs2); [done..|apply Hf|cbn; lia|].
  rewrite He2. cbn [mbind outcome_bind app]. rewrite Z.eqb_refl. cbn [c_assert mbind outcome_bind].
  set (rs2 := set_pending _ _ rs).
  assert (∃ q', (if negb (g_NoCache g) && (g_ClientChunking g && negb (rs_isForward rs2) ||
      g_ServerChunking g && rs_isForward rs2)
      then QueuePutMessage g c2 q (blocks R (ri_nameList ri)) (rs_dstPxyIdx rs2) (rs_seq_no rs2) (Some root)
      else Done q) = Done q') as [q' ->].
  { destruct (_ && _); [apply QueuePutMessage_total|eauto]. }
  cbn [mbind outcome_bind]. exists c2, q'.
  split_and!; [done|done|eapply same_but_tmp_trans; done].
Qed.

(** ** The abstract receiver: the longest prefix of complete chunks *)
Fixpoint release (R : refs) (l : list ReassembleInfo) : refs * list ReassembleInfo * list ReassembleInfo :=
  match l with
  | [] => (R, [], [])
  | ri :: l' =>
      if decide (complete R ri) then
        let '(R', sent, kept) := release (flush_refs R (ri_nameList ri)) l' in (R', ri :: sent, kept)
      else (R, [], l)
  end.

(** The data of the chunks of a prefix. *)
Fixpoint data_of (R : refs) (l : list ReassembleInfo) : list (list Z) :=
  match l with
  | [] => []
  | ri :: l' => blocks R (ri_nameList ri) :: data_of (flush_refs R (ri_nameList ri)) l'
  end.

Lemma release_split R l : let '(_, sent, kept) := release R l in l = sent ++ kept.
Proof.
  revert R. induction l as [|ri l IH]; intros R; cbn; [done|]. case_decide; [|done].
  specialize (IH (flush_refs R (ri_nameList ri))). destruct (release _ l) as [[R' sent] kept]. by rewrite IH.
Qed.

Definition names_of (l : list ReassembleInfo) : nat := sum_list (length ∘ ri_nameList <$> l).

Lemma reconstruct_ok g l : ∀ (c : cache) q rs R,
  tmp_is c R → refs_small R → counters_ok rs → Forall (fits R) l → rs_reassembleList rs = l →
  let '(R', sent, kept) := release R l in
  ∃ c' q', reconstruct g c q rs l =
      Done (c', q', set_lists kept (rs_readyList rs)
        (set_sent (rs_sent rs ++ data_of R sent)
          (set_pending (u32 (rs_pendingNames rs - Z.of_nat (names_of sent)))
             (u32 (rs_pendingBytes rs - Z.of_nat (length (concat (data_of R sent))))) rs))) ∧
    tmp_is c' R' ∧ same_but_tmp c c'.
Proof.
  induction l as [|ri l IH]; intros c q rs R Ht Hr Hc Hf Hl; cbn [release reconstruct].
  { exists c, q. destruct Hc. cbn. rewrite !Z.sub_0_r, app_nil_r, !u32_id by done.
    split_and!; [|done|apply same_but_tmp_refl]. destruct rs. cbn in *. by subst. }
  apply Forall_cons_1 in Hf as [Hri Hf].
  destruct (ReconstructOneChunkTree_ok g c q rs R ri Ht Hr Hc Hri) as (c1 & q1 & He & Ht1 & Hs1).
  destruct (decide (complete R ri)) as [Hcp|Hn]; rewrite He; cbn [mbind outcome_bind].
  2:{ exists c1, q1. destruct Hc. cbn. rewrite !Z.sub_0_r, app_nil_r, !u32_id by done.
      split_and!; [|done|done]. destruct rs. cbn in *. by subst. }
  assert (negb (length (ri_nameList ri) =? 0)%nat = true) as Hnn.
  { destruct Hcp as (_ & Hne & _). by destruct (ri_nameList ri). }
  unfold DestroyReassembleInfo. rewrite Hnn. cbn [c_assert mbind outcome_bind].
  set (R1 := flush_refs R (ri_nameList ri)) in *.
  specialize (IH c1 q1 (set_lists l (rs_readyList (after_send R ri rs)) (after_send R ri rs)) R1).
  destruct (release R1 l) as [[R' sent] kept].
  destruct IH as (c' & q' & He' & Ht' & Hs'); [done|by apply small_flush_refs|split; apply u32_range| |done|].
  { eapply Forall_impl; [exact Hf|]. intros. by apply fits_flush_refs. }
  exists c', q'. split_and!; [|done|by eapply same_but_tmp_trans].
  rewrite He'. cbn [data_of concat]. unfold names_of, after_send. cbn [fmap list_fmap sum_list_with sum_list foldr compose
    set_lists set_pending set_sent rs_isForward rs_dstPxyIdx rs_seq_no rs_reassembleList rs_readyList rs_next
    rs_pendingNames rs_pendingBytes rs_numHits rs_numMisses rs_hitBytes rs_missBytes rs_sent].
  rewrite !u32_sub_sub, length_app, !Nat2Z.inj_add, <-app_assoc. done.
Qed.
End send.
