(* ===== verification/Receiver.v ===== *)
(** * The receiver: a name tree message, and what its chunks become

    The correctness of [deliver_names] and of [ReconstructOriginalData] of
    [Reassemble]: the names of a message are queued in the order of the
    message, the contents it carries are referenced in the temporary cache,
    the ready list of a connection never dangles, and data leave in order. *)

From Stdlib Require Import ZArith Lia.
From stdpp Require Import base list option numbers gmap.
From S2P Require Import Prelude Bytes Rabin Mrc MrcLevels MrcTree MrcResolve MrcCandidates MrcTheorems.
From S2P Require Import Hashtable Protocol ChunkCache Sender Hrw Peer Reassemble.

(** ** The connection's lists *)

(** The chunks of a connection have different addresses, their names are
    resolved, and the ready list holds, in order, the addresses of those whose
    requests were not sent. *)
Record recv_ok (rs : RecvState) : Prop := {
  rv_fresh : Forall (λ ri, (ri_ptr ri < rs_next rs)%nat) (rs_reassembleList rs);
  rv_nodup : NoDup (ri_ptr <$> rs_reassembleList rs);
  rv_resolved : Forall (λ ri, ri_numPeekResolved ri = ri_numNames ri) (rs_reassembleList rs);
  rv_ready : rs_readyList rs = ri_ptr <$> filter (λ ri, ri_getSent ri = false) (rs_reassembleList rs)
}.

Lemma update_ri_last p f l ri :
  ri_ptr ri = p → p ∉ (ri_ptr <$> l) →
  update_ri p f (l ++ [ri]) = (ri' ← f ri; Done (l ++ [ri'])).
Proof.
  intros Hp. induction l as [|x l IH]; intros Hn.
  - cbn. by rewrite decide_True.
  - cbn [app update_ri]. cbn in Hn. apply not_elem_of_cons in Hn as [Hx Hl].
    rewrite decide_False by done. rewrite IH by done. by destruct (f ri).
Qed.

Lemma with_ri_last p f rs l ri :
  rs_reassembleList rs = l ++ [ri] → ri_ptr ri = p → p ∉ (ri_ptr <$> l) →
  with_ri p f rs = (ri' ← f ri; Done (set_lists (l ++ [ri']) (rs_readyList rs) rs)).
Proof.
  intros He Hp Hn. unfold with_ri. rewrite He, update_ri_last by done. by destruct (f ri).
Qed.

(** What a chunk of the message becomes. *)
Definition named {AT} (ps : peers AT) (cni : ChunkNameInfo) (ch : WAOneChunk) : Prop :=
  cni_sha1name cni = wc_sha1name ch ∧ cni_length cni = wc_length ch ∧ cni_isHit cni = true ∧
  cni_inMemory cni = match wc_content ch with Some _ => true | None => false end ∧
  cni_isNetwork cni = false ∧ ∃ i p, cni_peerIdx cni = Z.of_nat i ∧ eligible ps i p.

(** The references of the contents of a message. *)
Definition put_contents (R : refs) (chunks : list WAOneChunk) : refs :=
  foldl (λ R ch, match wc_content ch with Some b => ref_put R (wc_sha1name ch) b | None => R end) R chunks.

(** A chunk as the sender makes them. *)
Definition chunk_ok `{Digest} (ch : WAOneChunk) : Prop :=
  0 < wc_length ch ≤ MAX_CHUNK_SIZE ∧ (SHA1_LEN ≤ length (wc_sha1name ch))%nat ∧
  ∀ b, wc_content ch = Some b → Z.of_nat (length b) = wc_length ch.

Section receive.
Context `{Digest} {HT VT AT : Type} `{!Table (list Z) Z HT} `{!Table (list Z) CacheValue VT}
  `{!Table (list Z) nat AT}.
#[local] Abbreviation cache := (cache HT VT).

Lemma pick_ok rotl (ps : peers AT) n :
  peers_ok ps → (∃ i p, eligible ps i p) → (SHA1_LEN ≤ length n)%nat →
  ∃ ws i p, PickPeerToRedirect rotl ps n = Done (set_weights ws ps, Z.of_nat i) ∧ eligible ps i p ∧
    peers_ok (set_weights ws ps).
Proof.
  intros Hok (i0 & p0 & He0) Hn. destruct (ChunkHashString_ok rotl n 0 Hn) as [h Hh].
  destruct (RhrwPickPeer_ok rotl ps n (g_Weights ps) h Hok (pk_weights _ Hok) Hh)
    as (ws & idx & He & Hl & Hor). unfold PickPeerToRedirect. rewrite He. cbn [mbind outcome_bind].
  destruct Hor as [[_ Hno]|(i & p & -> & Hp & _)]; [by destruct (Hno i0 p0)|].
  exists ws, i, p. split_and!; [done|done|]. by destruct Hok; split.
Qed.

(** The connection after a chunk was received. *)
Definition received (l : list ReassembleInfo) (ri : ReassembleInfo) (cni : ChunkNameInfo)
    (rs : RecvState) : RecvState :=
  let hasContent := cni_inMemory cni in
  set_lists (l ++ [{| ri_ptr := ri_ptr ri; ri_seq_no := ri_seq_no ri;
                      ri_numNames := u32 (ri_numNames ri + 1);
                      ri_numPeekResolved := u32 (ri_numPeekResolved ri + 1);
                      ri_getSent := ri_getSent ri; ri_nameList := ri_nameList ri ++ [cni] |}])
    (rs_readyList rs)
    (set_stats (if hasContent then rs_numHits rs else u32 (rs_numHits rs + 1))
       (if hasContent then u32 (rs_numMisses rs + 1) else rs_numMisses rs)
       (if hasContent then rs_hitBytes rs else u32 (rs_hitBytes rs + cni_length cni))
       (if hasContent then u32 (rs_missBytes rs + cni_length cni) else rs_missBytes rs)
       (set_pending (u32 (rs_pendingNames rs + 1)) (u32 (rs_pendingBytes rs + cni_length cni)) rs)).

Lemma update_last_snoc f l c : update_last f (l ++ [c]) = Done (l ++ [f c]).
Proof. unfold update_last. by rewrite reverse_snoc, reverse_involutive. Qed.

Lemma receive_chunk_ok rotl p (c : cache) R (ps : peers AT) rs ch l ri :
  tmp_is c R → peers_ok ps → (∃ i q, eligible ps i q) → chunk_ok ch →
  Z.of_nat (ref_count R (wc_sha1name ch)) < 2 ^ 31 - 1 →
  rs_reassembleList rs = l ++ [ri] → ri_ptr ri = p → p ∉ (ri_ptr <$> l) →
  ri_numPeekResolved ri = ri_numNames ri →
  ∃ c' ws cni, receive_chunk rotl p (c, ps, rs) ch = Done (c', set_weights ws ps, received l ri cni rs) ∧
    named ps cni ch ∧ peers_ok (set_weights ws ps) ∧
    tmp_is c' (put_contents R [ch]) ∧ same_but_tmp c c'.
Proof.
  intros Ht Hps Hel (Hlen & Hname & Hcont) Href Hl Hp Hnp Hres.
  destruct (pick_ok rotl ps (wc_sha1name ch) Hps Hel Hname) as (ws & i & q & Hpick & Hq & Hps').
  unfold MAX_CHUNK_SIZE in Hlen.
  set (cni := {| cni_isHit := true;
     cni_inMemory := match wc_content ch with Some _ => true | None => false end;
     cni_length := wc_length ch; cni_peerIdx := Z.of_nat i; cni_isNetwork := false;
     cni_sha1name := wc_sha1name ch |}).
  assert (named ps cni ch) as Hnamed by (unfold named; cbn; eauto 10).
  unfold receive_chunk, AppendChunkName. rewrite (u32_id (wc_length ch)), (proj2 (Z.ltb_lt _ _)) by lia.
  cbn [c_assert mbind outcome_bind].
  rewrite (with_ri_last p _ _ l ri) by done. cbn [mbind outcome_bind].
  erewrite (with_ri_last p _ _ l); [|reflexivity|exact Hp|exact Hnp]. cbn [mbind outcome_bind ri_ptr ri_seq_no
    ri_numNames ri_numPeekResolved ri_getSent ri_nameList].
  rewrite Hpick. cbn [mbind outcome_bind]. rewrite (proj2 (Z.eqb_neq _ _)) by lia.
  pose proof (λ A, u32_range A) as Hu.
  destruct (wc_content ch) as [b|] eqn:Eb.
  - specialize (Hcont _ eq_refl).
    destruct (RefPutChunkCallback_ok c R (wc_sha1name ch) b (wc_length ch) Ht) as (ht & Hput & Ht');
      [lia|unfold MAX_CHUNK_SIZE; lia|done|].
    rewrite Hput. cbn [mbind outcome_bind]. unfold UpdatePeekResult. cbn [andb negb].
    erewrite (with_ri_last p _ _ l); [|reflexivity|exact Hp|exact Hnp].
    cbn [mbind outcome_bind ri_ptr ri_seq_no ri_numNames ri_numPeekResolved ri_getSent ri_nameList].
    rewrite update_last_snoc. cbn [mbind outcome_bind cni_length cni_isNetwork cni_sha1name].
    rewrite Hres, Z.leb_refl. cbn [c_assert mbind outcome_bind].
    exists (set_tmp ht c), ws, cni. split_and!; [|done|done| |by exists ht].
    + unfold received. cbn. by rewrite Hres.
    + unfold put_contents. cbn. rewrite Eb. unfold slice in Ht'. rewrite drop_0, take_ge in Ht' by lia. done.
  - unfold UpdatePeekResult. cbn [andb negb].
    erewrite (with_ri_last p _ _ l); [|reflexivity|exact Hp|exact Hnp].
    cbn [mbind outcome_bind ri_ptr ri_seq_no ri_numNames ri_numPeekResolved ri_getSent ri_nameList].
    rewrite update_last_snoc. cbn [mbind outcome_bind cni_length cni_isNetwork cni_sha1name].
    rewrite Hres, Z.leb_refl. cbn [c_assert mbind outcome_bind].
    exists c, ws, cni. split_and!; [|done|done| |apply same_but_tmp_refl].
    + unfold received. cbn. by rewrite Hres.
    + unfold put_contents. cbn. by rewrite Eb.
Qed.

Definition next_ri (ri : ReassembleInfo) (cni : ChunkNameInfo) : ReassembleInfo :=
  {| ri_ptr := ri_ptr ri; ri_seq_no := ri_seq_no ri; ri_numNames := u32 (ri_numNames ri + 1);
     ri_numPeekResolved := u32 (ri_numPeekResolved ri + 1);
     ri_getSent := ri_getSent ri; ri_nameList := ri_nameList ri ++ [cni] |}.

Fixpoint receive_all (l : list ReassembleInfo) (ri : ReassembleInfo) (cnis : list ChunkNameInfo)
    (rs : RecvState) : RecvState :=
  match cnis with
  | [] => rs
  | cni :: cnis' => receive_all l (next_ri ri cni) cnis' (received l ri cni rs)
  end.

Lemma put_contents_cons R ch chs : put_contents R (ch :: chs) = put_contents (put_contents R [ch]) chs.
Proof. done. Qed.

Lemma put_contents_count R chs n : (ref_count (put_contents R chs) n ≤ ref_count R n + length chs)%nat.
Proof.
  revert R. induction chs as [|ch chs IH]; intros R; [cbn; lia|].
  rewrite put_contents_cons. etrans; [apply IH|]. unfold put_contents at 1. cbn [foldl length].
  destruct (wc_content ch) as [b|]; [|lia]. rewrite ref_count_put. case_decide; lia.
Qed.

Lemma named_weights (ps : peers AT) ws cni ch :
  named (set_weights ws ps) cni ch → named ps cni ch.
Proof. done. Qed.

Lemma receive_chunks_ok rotl p l chunks : ∀ (c : cache) R (ps : peers AT) rs ri,
  tmp_is c R → peers_ok ps → (∃ i q, eligible ps i q) → Forall chunk_ok chunks →
  (∀ n, Z.of_nat (ref_count R n) + Z.of_nat (length chunks) < 2 ^ 31) →
  rs_reassembleList rs = l ++ [ri] → ri_ptr ri = p → p ∉ (ri_ptr <$> l) →
  ri_numPeekResolved ri = ri_numNames ri →
  ∃ c' ws cnis, foldM (receive_chunk rotl p) (c, ps, rs) chunks =
      Done (c', set_weights ws ps, receive_all l ri cnis rs) ∧
    Forall2 (named ps) cnis chunks ∧ peers_ok (set_weights ws ps) ∧
    tmp_is c' (put_contents R chunks) ∧ same_but_tmp c c'.
Proof.
  induction chunks as [|ch chunks IH]; intros c R ps rs ri Ht Hps Hel Hck Href Hl Hp Hnp Hres.
  { exists c, (g_Weights ps), []. assert (set_weights (g_Weights ps) ps = ps) as -> by (by destruct ps).
    split_and!; [done|constructor|done|done|apply same_but_tmp_refl]. }
  apply Forall_cons_1 in Hck as [Hch Hck]. cbn [foldM length] in *.
  destruct (receive_chunk_ok rotl p c R ps rs ch l ri Ht Hps Hel Hch) as
    (c1 & ws1 & cni & He & Hn & Hps1 & Ht1 & Hs1); [|done..|].
  { specialize (Href (wc_sha1name ch)). lia. }
  rewrite He. cbn [mbind outcome_bind].
  destruct (IH c1 (put_contents R [ch]) (set_weights ws1 ps) (received l ri cni rs) (next_ri ri cni))
    as (c' & ws & cnis & He' & Hn' & Hps' & Ht' & Hs'); try done.
  { intros n. specialize (Href n). pose proof (put_contents_count R [ch] n) as Hle. cbn [length] in Hle. lia. }
  { cbn [next_ri ri_numPeekResolved ri_numNames]. by rewrite Hres. }
  exists c', ws, (cni :: cnis).
  split_and!; [done|by constructor|done|done|eapply same_but_tmp_trans; done].
Qed.

Lemma u32_add_add a b c : u32 (u32 (a + b) + c) = u32 (a + (b + c)).
Proof. unfold u32. rewrite Zplus_mod_idemp_l. f_equal. lia. Qed.

Lemma receive_all_fields l cnis : ∀ ri rs,
  rs_reassembleList rs = l ++ [ri] → ri_numPeekResolved ri = ri_numNames ri → counters_ok rs →
  0 ≤ ri_numNames ri → ri_numNames ri + Z.of_nat (length cnis) < 2 ^ 32 →
  let rs' := receive_all l ri cnis rs in
  rs_reassembleList rs' = l ++ [{| ri_ptr := ri_ptr ri; ri_seq_no := ri_seq_no ri;
     ri_numNames := ri_numNames ri + Z.of_nat (length cnis);
     ri_numPeekResolved := ri_numNames ri + Z.of_nat (length cnis);
     ri_getSent := ri_getSent ri; ri_nameList := ri_nameList ri ++ cnis |}] ∧
  rs_readyList rs' = rs_readyList rs ∧ rs_next rs' = rs_next rs ∧ rs_seq_no rs' = rs_seq_no rs ∧
  rs_sent rs' = rs_sent rs ∧ rs_isForward rs' = rs_isForward rs ∧ rs_dstPxyIdx rs' = rs_dstPxyIdx rs ∧
  rs_pendingNames rs' = u32 (rs_pendingNames rs + Z.of_nat (length cnis)) ∧
  rs_pendingBytes rs' = u32 (rs_pendingBytes rs + sum_Z (cni_length <$> cnis)).
Proof.
  induction cnis as [|cni cnis IH]; intros ri rs Hl Hres [Hc1 Hc2] H0 Hlt rs'.
  { subst rs'. cbn in *. rewrite !Z.add_0_r, app_nil_r, !u32_id by done.
    split_and!; try done. rewrite Hl. do 2 f_equal. destruct ri. cbn in *. by subst. }
  subst rs'. cbn [receive_all length] in *.
  destruct (IH (next_ri ri cni) (received l ri cni rs)) as (E1 & E2 & E3 & E4 & E5 & E6 & E7 & E8 & E9).
  - done.
  - cbn. by rewrite Hres.
  - split; apply u32_range.
  - cbn [next_ri ri_numNames]. pose proof (u32_range (ri_numNames ri + 1)). lia.
  - cbn [next_ri ri_numNames]. rewrite u32_id by lia. lia.
  - rewrite E1, E2, E3, E4, E5, E6, E7, E8, E9. cbn [next_ri ri_numNames ri_ptr ri_seq_no ri_getSent ri_nameList].
    rewrite u32_id by lia. split_and!; try done.
    + rewrite <-app_assoc. cbn [app]. do 3 f_equal; lia.
    + cbn [received set_lists set_stats set_pending rs_pendingNames]. rewrite u32_add_add. f_equal. lia.
    + cbn [received set_lists set_stats set_pending rs_pendingBytes]. rewrite u32_add_add. done.
Qed.

(** What [deliver_names] does with a message that lists [chunks]. *)
Record delivered (ps : peers AT) (R : refs) (chunks : list WAOneChunk) (rs : RecvState)
    (c' : cache) (rs' : RecvState) (ri : ReassembleInfo) : Prop := {
  de_list : rs_reassembleList rs' = rs_reassembleList rs ++ [ri];
  de_names : Forall2 (named ps) (ri_nameList ri) chunks;
  de_seq : ri_seq_no ri = rs_seq_no rs ∧ rs_seq_no rs' = u32 (rs_seq_no rs + 1);
  de_getSent : ri_getSent ri = false;
  de_tmp : tmp_is c' (put_contents R chunks);
  de_ok : recv_ok rs';
  de_counters : counters_ok rs';
  de_sent : rs_sent rs' = rs_sent rs;
  de_pendingNames : rs_pendingNames rs' = u32 (rs_pendingNames rs + Z.of_nat (length chunks));
  de_pendingBytes : rs_pendingBytes rs' = u32 (rs_pendingBytes rs + sum_Z (wc_length <$> chunks))
}.

Lemma named_lengths (ps : peers AT) cnis chunks :
  Forall2 (named ps) cnis chunks → cni_length <$> cnis = wc_length <$> chunks.
Proof. induction 1 as [|cni ch cnis chunks (_ & Hl & _) _ IH]; [done|]. cbn. by rewrite Hl, IH. Qed.

Lemma ptr_lookup l (ri : ReassembleInfo) :
  ri_ptr ri ∉ (ri_ptr <$> l) →
  list_find (λ x, ri_ptr x = ri_ptr ri) (l ++ [ri]) = Some (length l, ri).
Proof.
  intros Hn. apply list_find_Some. split_and!.
  - by rewrite lookup_app_r, Nat.sub_diag by lia.
  - done.
  - intros j y Hj Hlt. rewrite lookup_app_l in Hj by done. intros Heq. apply Hn. rewrite <-Heq.
    apply list_elem_of_fmap. exists y. split; [done|]. by eapply list_elem_of_lookup_2.
Qed.

Lemma recv_ok_snoc (rs rs' : RecvState) ri :
  recv_ok rs → rs_reassembleList rs' = rs_reassembleList rs ++ [ri] →
  ri_ptr ri = rs_next rs → rs_next rs' = S (rs_next rs) →
  ri_numPeekResolved ri = ri_numNames ri → ri_getSent ri = false →
  rs_readyList rs' = rs_readyList rs ++ [ri_ptr ri] → recv_ok rs'.
Proof.
  intros [Hf Hn Hr Hq] El Ep En Eres Eg Eq. split.
  - rewrite El. apply Forall_app. split; [|constructor; [lia|done]].
    eapply Forall_impl; [exact Hf|]. cbn. lia.
  - rewrite El, fmap_app. apply NoDup_app. split_and!; [done| |apply NoDup_singleton].
    intros x (ri' & -> & Hin)%list_elem_of_fmap. rewrite Forall_forall in Hf. specialize (Hf _ Hin).
    cbn. intros ?%list_elem_of_singleton. lia.
  - rewrite El. by apply Forall_app; repeat constructor.
  - rewrite Eq, El, filter_app, fmap_app, Hq. f_equal. by rewrite filter_cons, decide_True.
Qed.

Lemma deliver_loop rotl (c : cache) R (ps : peers AT) rs chunks :
  tmp_is c R → peers_ok ps → (∃ i q, eligible ps i q) → Forall chunk_ok chunks →
  (∀ n, Z.of_nat (ref_count R n) + Z.of_nat (length chunks) < 2 ^ 31) →
  recv_ok rs → counters_ok rs →
  let rs0 := set_seq (u32 (rs_seq_no rs + 1)) (S (rs_next rs)) (fst (CreateNewReassembleInfo rs (rs_seq_no rs))) in
  ∃ c' ws rs1 rs2 ri, foldM (receive_chunk rotl (rs_next rs)) (c, ps, rs0) chunks =
      Done (c', set_weights ws ps, rs1) ∧
    CheckPeek rs1 (rs_next rs) = Done rs2 ∧
    peers_ok (set_weights ws ps) ∧ delivered ps R chunks rs c' rs2 ri ∧ same_but_tmp c c'.
Proof.
  intros Ht Hps Hel Hck Href Hrs Hcnt rs0.
  set (ri0 := {| ri_ptr := rs_next rs; ri_seq_no := rs_seq_no rs; ri_numNames := 0;
    ri_numPeekResolved := 0; ri_getSent := false; ri_nameList := [] |}).
  assert (rs_next rs ∉ (ri_ptr <$> rs_reassembleList rs)) as Hnp.
  { intros (x & Hx & Hin)%list_elem_of_fmap. pose proof (rv_fresh _ Hrs) as Hf.
    rewrite Forall_forall in Hf. specialize (Hf _ Hin). cbn in Hf. lia. }
  destruct (receive_chunks_ok rotl (rs_next rs) (rs_reassembleList rs) chunks c R ps rs0 ri0)
    as (c' & ws & cnis & He & Hn & Hps' & Ht' & Hs'); try done.
  assert (length cnis = length chunks) as Hlen by (by eapply Forall2_length).
  specialize (Href []). destruct (receive_all_fields (rs_reassembleList rs) cnis ri0 rs0) as
    (E1 & E2 & E3 & E4 & E5 & E6 & E7 & E8 & E9); [done|done|done|cbn; lia|cbn; lia|].
  set (rs1 := receive_all _ ri0 cnis rs0) in *. cbn [ri0 ri_ptr ri_seq_no ri_numNames ri_getSent ri_nameList app] in E1.
  set (ri := {| ri_ptr := rs_next rs; ri_seq_no := rs_seq_no rs |}) in E1.
  exists c', ws, rs1, (set_lists (rs_reassembleList rs1) (rs_readyList rs1 ++ [rs_next rs]) rs1), ri.
  split_and!; [done| |done| |done].
  - unfold CheckPeek. rewrite E1. rewrite (ptr_lookup _ ri) by done. by rewrite Z.eqb_refl.
  - split; cbn [set_lists rs_reassembleList rs_readyList rs_seq_no rs_sent rs_pendingNames rs_pendingBytes];
      try done.
    + eapply (recv_ok_snoc rs _ ri); [done|exact E1|done|exact E3|done..|].
      cbn [set_lists rs_readyList]. by rewrite E2.
    + split; cbn [set_lists rs_pendingNames rs_pendingBytes]; rewrite ?E8, ?E9; apply u32_range.
    + by rewrite E8, Hlen.
    + by rewrite E9, (named_lengths _ _ _ Hn).
Qed.

Lemma deliver_names_message rotl (c : cache) R (ps : peers AT) rs cid psrc pNames cs :
  tmp_is c R → peers_ok ps → (∃ i q, eligible ps i q) → Forall chunk_ok (chunk_of psrc <$> cs) →
  (∀ n, Z.of_nat (ref_count R n) + Z.of_nat (length cs) < 2 ^ 31) →
  recv_ok rs → counters_ok rs →
  conn_ok cid → Forall (candidate_in psrc pNames) cs →
  28 + Z.of_nat (length (concat (encode_candidate psrc <$> cs))) < 2 ^ 31 →
  ∃ c' ws rs' ri, deliver_names rotl c ps rs (name_delivery cid psrc cs) =
      Done (c', set_weights ws ps, rs', Z.of_nat (length (name_delivery cid psrc cs))) ∧
    peers_ok (set_weights ws ps) ∧ delivered ps R (chunk_of psrc <$> cs) rs c' rs' ri ∧
    same_but_tmp c c'.
Proof.
  intros Ht Hps Hel Hck Href Hrs Hcnt Hcid Hin Hlen.
  destruct (deliver_loop rotl c R ps rs (chunk_of psrc <$> cs)) as
    (c' & ws & rs1 & rs2 & ri & He & Hpk & Hps' & Hd & Hs); try done.
  { intros n. by rewrite length_fmap. }
  exists c', ws, rs2, ri. split_and!; [|done|done|done].
  unfold deliver_names. cbn [CreateNewReassembleInfo set_lists set_seq rs_seq_no rs_next fst] in *.
  rewrite (read_name_delivery_ok _ _ _ _ _ _ Hcid Hin Hlen), He.
  cbn [mbind outcome_bind]. by rewrite Hpk.
Qed.
End receive.

(** ** Theorems *)

Lemma release_recv_ok R (rs rs' : RecvState) :
  recv_ok rs → let '(_, sent, kept) := release R (rs_reassembleList rs) in
  rs_reassembleList rs' = kept → rs_readyList rs' = rs_readyList rs → rs_next rs' = rs_next rs →
  recv_ok rs'.
Proof.
  intros [Hf Hn Hr Hq]. pose proof (release_split R (rs_reassembleList rs)) as Hs.
  assert (let '(_, sent, _) := release R (rs_reassembleList rs) in Forall (λ ri, ri_getSent ri = true) sent) as Hg.
  { clear. generalize (rs_reassembleList rs). intros l. revert R. induction l as [|ri l IH]; intros R; cbn; [done|].
    case_decide as Hc; [|done]. specialize (IH (flush_refs R (ri_nameList ri))).
    destruct (release _ l) as [[R' sent] kept]. constructor; [apply Hc|done]. }
  destruct (release R _) as [[R' sent] kept]. intros El Eq En. rewrite Hs in *.
  apply Forall_app in Hf as [_ Hf], Hr as [_ Hr]. rewrite fmap_app in Hn. apply NoDup_app in Hn as (_ & _ & Hn).
  split; rewrite ?El, ?Eq, ?En; try done. rewrite Hq, filter_app. f_equal.
  assert (filter (λ ri, ri_getSent ri = false) sent = []) as ->; [|done].
  clear -Hg. induction Hg as [|ri l Hr Hl IH]; [done|].
  rewrite filter_cons, decide_False; [done|]. by rewrite Hr.
Qed.


Definition toy_config : Config :=
  {| g_NoCache := false; g_ClientChunking := true; g_ServerChunking := true;
     g_SkipFirstChunk := false; g_PutQueueSize := 1 |}.
Definition toy_queue : PutQueue :=
  {| g_PutMessageList := []; g_NumPutMessages := 0; g_CurPutQueueSize := 0; g_TotalPutDiscarded := 0 |}.
Definition toy_cni (len : Z) : ChunkNameInfo :=
  {| cni_isHit := true; cni_inMemory := true; cni_length := len; cni_peerIdx := 1;
     cni_isNetwork := false; cni_sha1name := [1; 2] |}.
Definition toy_recv (len : Z) : RecvState :=
  {| rs_isForward := true; rs_dstPxyIdx := 1; rs_seq_no := 1;
     rs_reassembleList := [{| ri_ptr := 0; ri_seq_no := 0; ri_numNames := 1; ri_numPeekResolved := 1;
                              ri_getSent := true; ri_nameList := [toy_cni len] |}];
     rs_readyList := []; rs_next := 1; rs_pendingNames := 1; rs_pendingBytes := 3; rs_numHits := 0;
     rs_numMisses := 1; rs_hitBytes := 0; rs_missBytes := 3; rs_sent := [] |}.
Definition toy_refs : refs := {[ [1; 2] := (1%nat, [7; 8; 9]) ]}.

Lemma toy_refs_small : refs_small toy_refs.
Proof.
  intros n. unfold ref_count, toy_refs. destruct (decide (n = [1; 2])) as [->|Hne].
  - rewrite lookup_singleton_eq. done.
  - rewrite lookup_singleton_ne by done. done.
Qed.

(** A cache that holds [toy_refs]. *)
Lemma toy_cache_ok `{Digest} {HT VT : Type} `{!Table (list Z) Z HT} `{!Table (list Z) CacheValue VT} :
  ∃ c : cache HT VT, tmp_is c toy_refs.
Proof.
  destruct (CreateCache_ok 1000) as (c0 & Hc & He).
  destruct (RefPutChunkCallback_ok c0 ∅ [1; 2] [7; 8; 9] 3) as (ht & Hp & Ht).
  - exact (ce_tmp _ _ He).
  - cbn. lia.
  - unfold MAX_CHUNK_SIZE. lia.
  - done.
  - by exists (set_tmp ht c0).
Qed.

Lemma toy_complete len : complete toy_refs {| ri_ptr := 0; ri_seq_no := 0; ri_numNames := 1;
  ri_numPeekResolved := 1; ri_getSent := true; ri_nameList := [toy_cni len] |}.
Proof. split; [done|]. split; [done|]. by constructor. Qed.

#[local] Existing Instance toy_digest.


Lemma flush_refs_keeps n l : ∀ R k b,
  R !! n = Some (k, b) → (cnt n l < k)%nat → ∃ k', flush_refs R l !! n = Some (k', b).
Proof.
  induction l as [|x l IH]; intros R k b Hn Hlt; [eauto|]. rewrite cnt_cons in Hlt.
  change (flush_refs R (x :: l)) with (flush_refs (ref_flush R (cni_sha1name x)) l).
  assert (∃ j, ref_flush R (cni_sha1name x) !! n = Some (j, b) ∧ (cnt n l < j)%nat) as (j & Hj & Hle);
    [|by eapply IH].
  unfold ref_flush. case_decide as E.
  - rewrite E, Hn. destruct k as [|[|k]]; [lia|lia|]. rewrite lookup_insert_eq. eexists. split; [done|lia].
  - destruct (R !! cni_sha1name x) as [[[|[|j]] b']|];
      rewrite ?lookup_insert_ne, ?lookup_delete_ne by done; exists k; split; (done || lia).
Qed.

(** The receiver trusts the lengths it is told: when all names of a chunk
    are cached but the first block whose length is not the announced one comes
    after blocks that fit, the assertion on the length stops the process. *)
Theorem wrong_length_aborts {HT VT : Type} `{!Table (list Z) Z HT}
    `{!Table (list Z) CacheValue VT} (g : Config) (c : cache HT VT) (q : PutQueue) (rs : RecvState) (R : refs)
    (ri : ReassembleInfo) (l1 : list ChunkNameInfo) (w : ChunkNameInfo) (l2 : list ChunkNameInfo)
    (k : nat) (b : list Z) :
  tmp_is c R → refs_small R → counters_ok rs → complete R ri → ri_nameList ri = l1 ++ w :: l2 →
  Z.of_nat (length (ri_nameList ri)) < 2 ^ 31 →
  Z.of_nat (length (blocks R (ri_nameList ri))) ≤ MAX_CHUNK_SIZE →
  (∀ w', w' ∈ l1 → 0 < cni_length w' < 2 ^ 32 ∧
     ∀ k' b', R !! cni_sha1name w' = Some (k', b') → Z.of_nat (length b') = cni_length w') →
  R !! cni_sha1name w = Some (k, b) → Z.of_nat (length b) ≠ u32 (cni_length w) →
  ReconstructOneChunkTree g c q rs ri = Fault AssertFailed.
Proof.
  intros Ht Hr Hc (Hg & Hne & Ha) El Hlen Hb Hfit Hw Hbad. unfold MAX_CHUNK_SIZE in Hb.
  unfold ReconstructOneChunkTree. rewrite Hg. cbn [negb].
  destruct (CheckOneChunkTree_ok c R ri Ht Hr) as (c1 & He & Ht1 & Hs1); [lia|lia|].
  rewrite (decide_True (P:=available R _)) in He by done.
  pose proof (blocks_pos c R (ri_nameList ri) Ht Hne Ha) as Hpos.
  set (buf_len := Z.of_nat (length (blocks R (ri_nameList ri)))) in *.
  destruct (ri_nameList ri) as [|root l] eqn:En; [done|]. rewrite He. cbn [mbind outcome_bind].
  rewrite (proj2 (Z.eqb_neq _ 0)) by lia. unfold MAX_CHUNK_SIZE. rewrite (proj2 (Z.leb_le _ _)) by lia.
  cbn [c_assert mbind outcome_bind]. rewrite El, foldM_app.
  assert (available R l1) as Ha1.
  { unfold available in *. rewrite El in Ha. apply Forall_app in Ha as [Ha _].
    eapply Forall_impl; [exact Ha|]. cbn. intros x. rewrite cnt_app. lia. }
  destruct (flush_names_ok buf_len l1 c1 R rs []) as (c2 & He2 & Ht2 & _); try done.
  { subst buf_len. rewrite El. unfold blocks. rewrite fmap_app, concat_app, length_app. cbn. lia. }
  rewrite He2. cbn [mbind outcome_bind foldM].
  assert (∃ k', flush_refs R l1 !! cni_sha1name w = Some (k', b)) as [k' Hk'].
  { apply (flush_refs_keeps _ _ _ k b Hw). unfold available in Ha. rewrite El in Ha.
    apply Forall_app in Ha as [_ [Ha _]%Forall_cons_1].
    rewrite cnt_app, cnt_cons, decide_True in Ha by done. unfold ref_count in Ha. rewrite Hw in Ha. lia. }
  assert (∀ rs' acc, flush_name buf_len (c2, rs', acc) w = Fault AssertFailed) as Hfl.
  { intros rs' acc. unfold flush_name. rewrite (SearchCache_ok c2 _ _ Ht2), Hk'.
    cbn [fmap option_fmap option_map ref_value cv_block_length cv_pBlock fst snd].
    by rewrite (proj2 (Z.eqb_neq _ _)). }
  by rewrite Hfl.
Qed.

Lemma wrong_length_aborts_witness :
  ∃ c : cache (@hashtable (list Z) Z) (@hashtable (list Z) CacheValue),
    ReconstructOneChunkTree toy_config c toy_queue (toy_recv 4)
      {| ri_ptr := 0; ri_seq_no := 0; ri_numNames := 1; ri_numPeekResolved := 1; ri_getSent := true;
         ri_nameList := [toy_cni 4] |} = Fault AssertFailed.
Proof.
  destruct (toy_cache_ok (HT := @hashtable (list Z) Z) (VT := @hashtable (list Z) CacheValue)) as [c Hc].
  exists c. apply (wrong_length_aborts toy_config c toy_queue (toy_recv 4) toy_refs _ [] (toy_cni 4) [] 1 [7; 8; 9]).
  - exact Hc.
  - exact toy_refs_small.
  - split; cbn; lia.
  - exact (toy_complete 4).
  - reflexivity.
  - cbn. lia.
  - vm_compute. discriminate.
  - intros w' Hw'. by apply not_elem_of_nil in Hw'.
  - reflexivity.
  - vm_compute. discriminate.
Defined.
