(* ===== verification/ChunkRequest.v ===== *)
(** * Chunk requests in flight

    Models [src/waprox/chunkrequest.c]: the tables, by name, of the requests
    that wait for a response, and the load of the peers they add to.  The time
    a request was sent serves only a trace; [DestroyChunkRequestTable], which
    removes entries under a running iterator at shutdown, is not modelled. *)

From Stdlib Require Import ZArith Lia.
From stdpp Require Import base list option numbers gmap.
From S2P Require Import Prelude Bytes Hashtable Protocol ChunkCache Hrw Peer.

Record ChunkRequestInfo := {
  cri_isRedirected : bool;
  cri_pxyAddr : list Z;
  cri_cid : ConnectionID;
  cri_length : Z;
  cri_isNetwork : bool;
  cri_peerIdx : Z
}.

(** [pri_ri] and [pri_cni] are addresses. *)
Record PeekRequestInfo := {
  pri_cid : ConnectionID;
  pri_ri : nat;
  pri_cni : nat
}.

(** The bytes of a response around its block. *)
Definition PerChunkResponseOverhead `{Digest} : Z :=
  Z.of_nat (sizeof_WABodyResponse + sizeof_WAOneResponse).

(** The requests by name. *)
Abbreviation queues := (gmap (list Z) (list ChunkRequestInfo)).

Section requests.
Context `{Digest} {CT PT AT : Type} `{!Table (list Z) (list ChunkRequestInfo) CT}
  `{!Table (list Z) (list PeekRequestInfo) PT} `{!Table (list Z) nat AT}.

Record requests := {
  chunk_request_ht : CT;
  peek_request_ht : PT;
  g_NumChunkRequestsInFlight : Z;
  g_NumPeekRequestsInFlight : Z
}.

Definition set_chunk_requests (ht : CT) (n : Z) (rq : requests) : requests :=
  {| chunk_request_ht := ht; peek_request_ht := peek_request_ht rq;
     g_NumChunkRequestsInFlight := n; g_NumPeekRequestsInFlight := g_NumPeekRequestsInFlight rq |}.
Definition set_peek_requests (ht : PT) (n : Z) (rq : requests) : requests :=
  {| chunk_request_ht := chunk_request_ht rq; peek_request_ht := ht;
     g_NumChunkRequestsInFlight := g_NumChunkRequestsInFlight rq; g_NumPeekRequestsInFlight := n |}.

Definition CreateChunkRequestTable : outcome requests :=
  match tbl_create 65536, tbl_create 65536 with
  | Some t1, Some t2 =>
      Done {| chunk_request_ht := t1; peek_request_ht := t2;
              g_NumChunkRequestsInFlight := 0; g_NumPeekRequestsInFlight := 0 |}
  | _, _ => Fault NiceExit
  end.

Definition GetChunkRequestList (rq : requests) (sha1name : list Z) : option (list ChunkRequestInfo) :=
  tbl_search (chunk_request_ht rq) sha1name.
Definition GetPeekRequestList (rq : requests) (sha1name : list Z) : option (list PeekRequestInfo) :=
  tbl_search (peek_request_ht rq) sha1name.

(** The load a request adds to its peer. *)
Definition add_load (isNetwork : bool) (length_ : Z) (p : PeerInfo) : PeerInfo :=
  if isNetwork
  then set_load (pi_RTT p) (u32 (pi_networkPendingBytes p + (length_ + PerChunkResponseOverhead)))
         (pi_diskPendingChunks p) p
  else set_load (pi_RTT p) (pi_networkPendingBytes p) (u32 (pi_diskPendingChunks p + 1)) p.

Definition PutChunkRequest (rq : requests) (ps : peers AT) (sha1name : list Z) (cid : ConnectionID)
    (isRedirected : bool) (pxyAddr : list Z) (length_ peerIdx : Z) (isNetwork : bool)
    : outcome (requests * peers AT) :=
  let ht :=
    match GetChunkRequestList rq sha1name with
    | None => tbl_insert (chunk_request_ht rq) sha1name []
    | Some _ => chunk_request_ht rq
    end in
  _ ← c_assert (negb (peerIdx =? -1));
  let cri := {| cri_isRedirected := isRedirected; cri_pxyAddr := pxyAddr; cri_cid := cid;
                cri_length := length_; cri_isNetwork := isNetwork; cri_peerIdx := peerIdx |} in
  _ ← (if 0 <=? peerIdx then Done tt else Fault OutOfBounds);
  l ← update (g_PeerInfo ps) (Z.to_nat peerIdx) (add_load isNetwork length_);
  let ht := tbl_modify ht sha1name (λ q, q ++ [cri]) in
  Done (set_chunk_requests ht (i32 (g_NumChunkRequestsInFlight rq + 1)) rq,
        set_peers l (g_NumLivePeers ps) ps).

Definition PutPeekRequest (rq : requests) (ri cni : nat) (sha1name : list Z) (cid : ConnectionID)
    : requests :=
  let ht :=
    match GetPeekRequestList rq sha1name with
    | None => tbl_insert (peek_request_ht rq) sha1name []
    | Some _ => peek_request_ht rq
    end in
  let pri := {| pri_cid := cid; pri_ri := ri; pri_cni := cni |} in
  set_peek_requests (tbl_modify ht sha1name (λ q, q ++ [pri])) (i32 (g_NumPeekRequestsInFlight rq + 1)) rq.

(** The loop that frees a list: the counter is decremented for each entry. *)
Definition free_entry {A} (n : Z) (_ : A) : outcome Z :=
  _ ← c_assert (0 <=? i32 (n - 1));
  Done (i32 (n - 1)).

Definition DestroyChunkRequestList (rq : requests) (sha1name : list Z) : outcome requests :=
  match tbl_remove (chunk_request_ht rq) sha1name with
  | (_, None) => Fault NiceExit
  | (ht, Some l) =>
      n ← foldM free_entry (g_NumChunkRequestsInFlight rq) l;
      Done (set_chunk_requests ht n rq)
  end.

Definition DestroyPeekRequestList (rq : requests) (sha1name : list Z) : outcome requests :=
  match tbl_remove (peek_request_ht rq) sha1name with
  | (_, None) => Fault NiceExit
  | (ht, Some l) =>
      n ← foldM free_entry (g_NumPeekRequestsInFlight rq) l;
      Done (set_peek_requests ht n rq)
  end.

(** ** The invariant: the counter is the number of waiting requests *)

Definition waiting (Q : queues) (n : list Z) : list ChunkRequestInfo := default [] (Q !! n).
Definition num_waiting (Q : queues) : nat := map_fold (λ _ l k, length l + k)%nat 0%nat Q.

Definition queue_put (Q : queues) (n : list Z) (cri : ChunkRequestInfo) : queues :=
  <[n := waiting Q n ++ [cri]]> Q.

Record requests_ok (rq : requests) (Q : queues) : Prop := {
  ro_table : tbl_is (chunk_request_ht rq) Q;
  ro_lists : ∀ n l, Q !! n = Some l → l ≠ [];
  ro_count : g_NumChunkRequestsInFlight rq = Z.of_nat (num_waiting Q);
  ro_small : Z.of_nat (num_waiting Q) < 2 ^ 31
}.

Lemma num_waiting_insert Q n l :
  Q !! n = None → num_waiting (<[n := l]> Q) = (length l + num_waiting Q)%nat.
Proof. intros Hn. unfold num_waiting. rewrite map_fold_insert_L; [done|intros; lia|done]. Qed.

Lemma num_waiting_delete Q n : num_waiting Q = (length (waiting Q n) + num_waiting (delete n Q))%nat.
Proof.
  unfold waiting. destruct (Q !! n) as [l|] eqn:E; cbn [default].
  - rewrite <-(insert_delete_id Q n l E) at 1. by rewrite num_waiting_insert by apply lookup_delete_eq.
  - by rewrite delete_id.
Qed.

Lemma num_waiting_put Q n cri : num_waiting (queue_put Q n cri) = S (num_waiting Q).
Proof.
  unfold queue_put. rewrite <-insert_delete_eq, num_waiting_insert by apply lookup_delete_eq.
  rewrite (num_waiting_delete Q n), length_app. cbn. lia.
Qed.

Lemma waiting_put Q n cri n' :
  waiting (queue_put Q n cri) n' = waiting Q n' ++ (if decide (n' = n) then [cri] else []).
Proof.
  unfold queue_put, waiting. case_decide as E.
  - by rewrite E, lookup_insert_eq.
  - by rewrite lookup_insert_ne, app_nil_r.
Qed.

Lemma PutChunkRequest_ok rq (ps : peers AT) Q n cid redir addr len (i : nat) p net :
  requests_ok rq Q → g_PeerInfo ps !! i = Some p → Z.of_nat (num_waiting Q) + 1 < 2 ^ 31 →
  let cri := {| cri_isRedirected := redir; cri_pxyAddr := addr; cri_cid := cid;
                cri_length := len; cri_isNetwork := net; cri_peerIdx := Z.of_nat i |} in
  ∃ rq', PutChunkRequest rq ps n cid redir addr len (Z.of_nat i) net =
      Done (rq', set_peers (<[i := add_load net len p]> (g_PeerInfo ps)) (g_NumLivePeers ps) ps) ∧
    requests_ok rq' (queue_put Q n cri).
Proof.
  intros [Ht Hl Hc Hs] Hp Hb cri. unfold PutChunkRequest, GetChunkRequestList.
  rewrite (proj2 (Z.eqb_neq _ _)), (proj2 (Z.leb_le _ _)) by lia. cbn [negb c_assert mbind outcome_bind].
  rewrite Nat2Z.id, (proj2 (update_Done _ _ _ _) (ex_intro _ p (conj Hp eq_refl))). cbn [mbind outcome_bind].
  rewrite (tbl_search_ok _ _ _ Ht). set (ht := match Q !! n with Some _ => _ | None => _ end).
  assert (tbl_is (tbl_modify ht n (λ q, q ++ [cri])) (queue_put Q n cri)) as Ht'.
  { unfold queue_put, waiting. subst ht. destruct (Q !! n) as [l|] eqn:E; cbn [default].
    - eapply (eq_rect _ (tbl_is _) (tbl_modify_ok _ _ n _ Ht)). apply map_eq. intros n'.
      destruct (decide (n' = n)) as [->|Hne].
      + by rewrite lookup_alter_eq, lookup_insert_eq, E.
      + by rewrite lookup_alter_ne, lookup_insert_ne.
    - eapply (eq_rect _ (tbl_is _) (tbl_modify_ok _ _ n _ (tbl_insert_ok _ _ _ [] Ht E))).
      apply map_eq. intros n'. destruct (decide (n' = n)) as [->|Hne].
      + by rewrite lookup_alter_eq, !lookup_insert_eq.
      + by rewrite lookup_alter_ne, !lookup_insert_ne. }
  eexists. split; [done|]. split; cbn [set_chunk_requests chunk_request_ht g_NumChunkRequestsInFlight].
  - exact Ht'.
  - intros n' l. unfold queue_put. destruct (decide (n' = n)) as [->|Hne].
    + rewrite lookup_insert_eq. intros [= <-]. by destruct (waiting Q n).
    + rewrite lookup_insert_ne by done. apply Hl.
  - rewrite num_waiting_put, Hc, i32_id by lia. lia.
  - rewrite num_waiting_put. lia.
Qed.

Lemma free_entries_ok {A} (l : list A) n :
  Z.of_nat (length l) ≤ n < 2 ^ 31 → foldM free_entry n l = Done (n - Z.of_nat (length l)).
Proof.
  revert n. induction l as [|x l IH]; intros n Hn; cbn [foldM length] in *; [f_equal; lia|].
  assert (free_entry n x = Done (n - 1)) as ->.
  { unfold free_entry. by rewrite i32_id, (proj2 (Z.leb_le _ _)) by lia. }
  cbn [mbind outcome_bind]. rewrite IH by lia. f_equal. lia.
Qed.

Lemma DestroyChunkRequestList_ok rq Q n l :
  requests_ok rq Q → Q !! n = Some l →
  ∃ rq', DestroyChunkRequestList rq n = Done rq' ∧ requests_ok rq' (delete n Q).
Proof.
  intros [Ht Hl Hc Hs] Hn. unfold DestroyChunkRequestList.
  destruct (tbl_remove_ok _ _ n Ht) as [Ht' Hv]. destruct (tbl_remove _ n) as [ht v]. cbn [fst snd] in *.
  rewrite Hv, Hn. pose proof (num_waiting_delete Q n) as Hd. unfold waiting in Hd. rewrite Hn in Hd.
  change (default [] (Some l)) with l in Hd. rewrite free_entries_ok by lia. cbn [mbind outcome_bind].
  eexists. split; [done|]. split; cbn [set_chunk_requests chunk_request_ht g_NumChunkRequestsInFlight].
  - done.
  - intros n' l' [_ H']%lookup_delete_Some. by eapply Hl.
  - rewrite Hc. lia.
  - lia.
Qed.

Lemma CreateChunkRequestTable_ok : ∃ rq, CreateChunkRequestTable = Done rq ∧ requests_ok rq ∅.
Proof.
  unfold CreateChunkRequestTable.
  destruct (tbl_create_ok (K := list Z) (V := list ChunkRequestInfo) (T := CT) 65536 ltac:(lia)) as (t1 & -> & H1).
  destruct (tbl_create_ok (K := list Z) (V := list PeekRequestInfo) (T := PT) 65536 ltac:(lia)) as (t2 & -> & H2).
  eexists. split; [done|]. split; cbn; [done|done|done|by vm_compute].
Qed.
End requests.
Arguments requests : clear implicits.
