(* ===== verification/Disk.v ===== *)
(** * The disk cache client

    Models [src/waprox/disk.c] with [DestroyCacheConnectionInfo] of
    [connection.c] and [SHA1Str] of [util.c]: requests to the disk cache wait
    in two lists, one for gets and peeks and one for puts, until a connection
    is idle.  Making the connections and the keep-alive timer are I/O.  A
    connection is its index in [g_CacheConnections]. *)

From Stdlib Require Import ZArith Lia Ascii String.
From stdpp Require Import base list option numbers gmap.
From S2P Require Import Prelude Bytes Rabin Mrc Hashtable Protocol ChunkCache Hrw Peer.

(** ** Texts *)

Fixpoint bytes_of (s : string) : list Z :=
  match s with
  | EmptyString => []
  | String a s' => Z.of_N (N_of_ascii a) :: bytes_of s'
  end.

(** ["%d"]: an [int] has at most ten digits. *)
Fixpoint digits (fuel : nat) (n : Z) : list Z :=
  match fuel with
  | O => []
  | S f => (if n <? 10 then [] else digits f (n / 10)) ++ [48 + n mod 10]
  end.
Definition show_int (n : Z) : list Z := if n <? 0 then 45 :: digits 10 (- n) else digits 10 n.

Definition CRLF : list Z := [13; 10].

(** One digit of ["%02x"]. *)
Definition hex_digit (d : Z) : Z := if d <? 10 then 48 + d else 87 + d.
Definition SHA1Str (digest : list Z) : list Z :=
  concat ((λ b, [hex_digit (b / 16); hex_digit (b mod 16)]) <$> digest).

Lemma hex_digit_inj a b : 0 ≤ a < 16 → 0 ≤ b < 16 → hex_digit a = hex_digit b → a = b.
Proof. unfold hex_digit. destruct (Z.ltb_spec a 10), (Z.ltb_spec b 10); lia. Qed.

Lemma SHA1Str_inj d1 d2 :
  Forall (λ b, 0 ≤ b < 256) d1 → Forall (λ b, 0 ≤ b < 256) d2 → SHA1Str d1 = SHA1Str d2 → d1 = d2.
Proof.
  intros H1. revert d2. induction H1 as [|a d1 Ha _ IH]; intros d2 H2 He.
  - by destruct H2.
  - destruct H2 as [|b d2 Hb H2]; [done|]. unfold SHA1Str in He. cbn [fmap list_fmap concat app] in He.
    injection He as He1 He2 He3. rewrite (IH d2 H2 He3). f_equal.
    pose proof (Z.mod_pos_bound a 16 ltac:(lia)). pose proof (Z.mod_pos_bound b 16 ltac:(lia)).
    apply hex_digit_inj in He1; [|split; [apply Z.div_pos; lia|apply Z.div_lt_upper_bound; lia]..].
    apply hex_digit_inj in He2; [|lia..].
    pose proof (Z.div_mod a 16 ltac:(lia)). pose proof (Z.div_mod b 16 ltac:(lia)). lia.
Qed.

(** ** Transactions *)

Inductive processState :=
  ps_none | ps_keepalive | ps_nameTreeDelivery | ps_bodyRequest | ps_peekRequest | ps_putDisk | ps_userData.
Inductive hcMethod := hc_put | hc_get | hc_peek.

#[export] Instance processState_eq_dec : EqDecision processState.
Proof. solve_decision. Defined.
#[export] Instance hcMethod_eq_dec : EqDecision hcMethod.
Proof. solve_decision. Defined.

Definition GetHCMethodName (method : hcMethod) : list Z :=
  match method with
  | hc_put => bytes_of "PUT"
  | hc_get => bytes_of "GET"
  | hc_peek => bytes_of "PEEK"
  end.

(** A body request: the address is its four bytes. *)
Record WAOneRequest := {
  wr_orgPxyAddr : list Z;
  wr_sha1name : list Z;
  wr_length : Z
}.

(** The opaque value of a transaction: that of a body request (with the zeroed
    connection identifier left out), or of a peek request. *)
Inductive Opaque :=
  | NoOpaque
  | ChunkRequestOpaque (request : WAOneRequest) (prevPxyAddr : list Z)
  | PeekRequestOpaque (sha1name : list Z).

(** The connection a transaction is for; of a user connection, its identifier
    seen from the other side and its destination proxy. *)
Inductive Source :=
  | NoSource
  | UserSource (fd : Z) (cid : ConnectionID) (dstPxyIdx : Z)
  | ChunkSource (fd peerIdx : Z).

Record CacheTransactionInfo := {
  ti_cid : option ConnectionID;
  ti_sourceCI : Source;
  ti_sha1name : list Z;
  ti_chunkLen : Z;
  ti_pChunk : option (list Z);
  ti_dstPxyId : Z;
  ti_method : hcMethod;
  ti_ps : processState;
  ti_pOpaque : Opaque
}.

(** The time of the last access serves the keep-alive timer only. *)
Record CacheConnection := {
  cc_fd : Z;
  cc_pCurTrans : option CacheTransactionInfo
}.

(** The globals; [dk_sent] lists what was given to [SendData]. *)
Record disk := {
  g_FirstClassRequestList : list CacheTransactionInfo;
  g_SecondClassRequestList : list CacheTransactionInfo;
  g_NumPendingFirstTransactions : Z;
  g_NumPendingSecondTransactions : Z;
  g_CacheConnections : list (option CacheConnection);
  g_NumCacheConns : Z;
  dk_sent : list (Z * list Z)
}.

Definition set_lists (first second : list CacheTransactionInfo) (n1 n2 : Z) (d : disk) : disk :=
  {| g_FirstClassRequestList := first; g_SecondClassRequestList := second;
     g_NumPendingFirstTransactions := n1; g_NumPendingSecondTransactions := n2;
     g_CacheConnections := g_CacheConnections d; g_NumCacheConns := g_NumCacheConns d;
     dk_sent := dk_sent d |}.
Definition set_conns (conns : list (option CacheConnection)) (n : Z) (sent : list (Z * list Z)) (d : disk) : disk :=
  {| g_FirstClassRequestList := g_FirstClassRequestList d;
     g_SecondClassRequestList := g_SecondClassRequestList d;
     g_NumPendingFirstTransactions := g_NumPendingFirstTransactions d;
     g_NumPendingSecondTransactions := g_NumPendingSecondTransactions d;
     g_CacheConnections := conns; g_NumCacheConns := n; dk_sent := sent |}.

Definition InitDiskCache (d : disk) : disk :=
  set_lists [] [] (g_NumPendingFirstTransactions d) (g_NumPendingSecondTransactions d) d.

(** [MakeNewCacheConnection] with [CreateCacheConnectionInfo]; [fd] is the new
    socket. *)
Definition MakeNewCacheConnection (d : disk) (i : nat) (fd : Z) : outcome disk :=
  if fd =? -1 then Fault NiceExit
  else
    conns ← put (g_CacheConnections d) i (Some {| cc_fd := fd; cc_pCurTrans := None |});
    Done (set_conns conns (i32 (g_NumCacheConns d + 1)) (dk_sent d) d).

Definition is_idle (c : option CacheConnection) : bool :=
  match c with Some c => match cc_pCurTrans c with None => true | Some _ => false end | None => false end.

(** The array has [g_MaxCacheConns] cells that are used. *)
Definition GetIdleCacheConn (d : disk) : option nat :=
  fst <$> list_find (λ c, is_idle c = true) (g_CacheConnections d).

Definition CreateCacheTransactionInfo `{Digest} (method : hcMethod) (ps : processState) (dstPxyId : Z)
    (sha1name : list Z) (chunkLen : Z) (pChunk : option (list Z)) (sci : Source) (opaque : Opaque)
    : outcome CacheTransactionInfo :=
  cid ← match sci with
        | NoSource => Done None
        | UserSource _ cid _ => _ ← c_assert (bool_decide (ps = ps_nameTreeDelivery)); Done (Some cid)
        | ChunkSource _ _ =>
            _ ← c_assert (bool_decide (ps = ps_bodyRequest) || bool_decide (ps = ps_peekRequest));
            Done (Some {| srcIP := 0; srcPort := 0; dstIP := 0; dstPort := 0 |})
        end;
  name ← load sha1name 0 SHA1_LEN;
  chunk ← match pChunk with
          | None => Done None
          | Some b => _ ← c_assert (0 <? chunkLen); Some <$> load b 0 (Z.to_nat chunkLen)
          end;
  Done {| ti_cid := cid; ti_sourceCI := sci; ti_sha1name := name; ti_chunkLen := chunkLen;
          ti_pChunk := chunk; ti_dstPxyId := dstPxyId; ti_method := method; ti_ps := ps;
          ti_pOpaque := opaque |}.

Definition MAX_URL_LEN : Z := 256.

(** [sprintf] into a buffer of [n] bytes, the final 0 included. *)
Definition sprintf_into (n : Z) (text : list Z) : outcome (list Z) :=
  if Z.of_nat (length text) + 1 <=? n then Done text else Fault OutOfBounds.

Definition url_request (method : hcMethod) (sha1name : list Z) : list Z :=
  bytes_of "WAPROX-" ++ GetHCMethodName method ++ bytes_of " http://waprox-" ++ SHA1Str sha1name ++
  bytes_of " HTTP/1.1" ++ CRLF.

Definition IssueCacheRequest (d : disk) (i : nat) (ti : CacheTransactionInfo) : outcome disk :=
  conn ← get (g_CacheConnections d) i;
  match conn with
  | None => Fault OutOfBounds
  | Some conn =>
      _ ← c_assert (match cc_pCurTrans conn with None => true | Some _ => false end);
      request ←
        match ti_method ti with
        | hc_put =>
            _ ← c_assert (0 <? ti_chunkLen ti);
            match ti_pChunk ti with
            | None => Fault AssertFailed
            | Some b =>
                hdr ← sprintf_into (MAX_URL_LEN + ti_chunkLen ti)
                  (url_request hc_put (ti_sha1name ti) ++ bytes_of "Content-Length: " ++
                   show_int (ti_chunkLen ti) ++ CRLF ++ CRLF);
                _ ← (if Z.of_nat (length hdr) <=? MAX_URL_LEN then Done tt else Fault OutOfBounds);
                Done (hdr ++ b)
            end
        | hc_get =>
            _ ← c_assert (match ti_pChunk ti with None => true | Some _ => false end);
            sprintf_into MAX_URL_LEN (url_request hc_get (ti_sha1name ti) ++ CRLF)
        | hc_peek => sprintf_into MAX_URL_LEN (url_request hc_peek (ti_sha1name ti) ++ CRLF)
        end;
      let conns := <[i := Some {| cc_fd := cc_fd conn; cc_pCurTrans := Some ti |}]> (g_CacheConnections d) in
      Done (set_conns conns (g_NumCacheConns d) (dk_sent d ++ [(cc_fd conn, request)]) d)
  end.

Definition is_first_class (ti : CacheTransactionInfo) : bool :=
  match ti_method ti with hc_get | hc_peek => true | hc_put => false end.

Definition ScheduleCacheRequest (d : disk) (ti : CacheTransactionInfo) (addTail : bool) : disk :=
  if is_first_class ti then
    set_lists (if addTail then g_FirstClassRequestList d ++ [ti] else ti :: g_FirstClassRequestList d)
      (g_SecondClassRequestList d)
      (i32 (g_NumPendingFirstTransactions d + 1)) (g_NumPendingSecondTransactions d) d
  else
    set_lists (g_FirstClassRequestList d) (g_SecondClassRequestList d ++ [ti])
      (g_NumPendingFirstTransactions d) (i32 (g_NumPendingSecondTransactions d + 1)) d.

(** The loop over a list; [dec] counts an issued request, and the result has
    the requests that remain. *)
Fixpoint issue_list (dec : disk → outcome disk) (d : disk) (l : list CacheTransactionInfo)
    : outcome (disk * list CacheTransactionInfo) :=
  match l with
  | [] => Done (d, [])
  | walk :: l' =>
      match GetIdleCacheConn d with
      | None => Done (d, l)
      | Some ci =>
          d ← IssueCacheRequest d ci walk;
          d ← dec d;
          issue_list dec d l'
      end
  end.

Definition dec_first (d : disk) : outcome disk :=
  let n := i32 (g_NumPendingFirstTransactions d - 1) in
  _ ← c_assert (0 <=? n);
  Done (set_lists (g_FirstClassRequestList d) (g_SecondClassRequestList d) n
          (g_NumPendingSecondTransactions d) d).
Definition dec_second (d : disk) : outcome disk :=
  let n := i32 (g_NumPendingSecondTransactions d - 1) in
  _ ← c_assert (0 <=? n);
  Done (set_lists (g_FirstClassRequestList d) (g_SecondClassRequestList d)
          (g_NumPendingFirstTransactions d) n d).

Definition IssuePendingCacheRequests (d : disk) : outcome disk :=
  '(d, first) ← issue_list dec_first d (g_FirstClassRequestList d);
  let d := set_lists first (g_SecondClassRequestList d)
             (g_NumPendingFirstTransactions d) (g_NumPendingSecondTransactions d) d in
  '(d, second) ← issue_list dec_second d (g_SecondClassRequestList d);
  Done (set_lists (g_FirstClassRequestList d) second
          (g_NumPendingFirstTransactions d) (g_NumPendingSecondTransactions d) d).

Definition SendCacheRequest `{Digest} (d : disk) (method : hcMethod) (ps : processState)
    (sha1name : list Z) (length_ : Z) (pChunk : option (list Z)) (dstPxyId : Z) (sci : Source)
    (opaque : Opaque) : outcome disk :=
  cache_info ← CreateCacheTransactionInfo method ps dstPxyId sha1name length_ pChunk sci opaque;
  IssuePendingCacheRequests (ScheduleCacheRequest d cache_info true).

(** The connection [i] is closed: its transaction is scheduled again. *)
Definition DestroyCacheConnectionInfo (d : disk) (i : nat) : outcome disk :=
  conn ← get (g_CacheConnections d) i;
  match conn with
  | None => Fault OutOfBounds
  | Some conn =>
      let n := i32 (g_NumCacheConns d - 1) in
      _ ← c_assert (0 <=? n);
      let d := set_conns (<[i := None]> (g_CacheConnections d)) n (dk_sent d) d in
      match cc_pCurTrans conn with
      | Some ti => IssuePendingCacheRequests (ScheduleCacheRequest d ti false)
      | None => IssuePendingCacheRequests d
      end
  end.

(** ** Puts *)

Definition MAX_PUT_DISK_QUEUE : Z := 1024.

Section put.
Context `{Digest} {HT VT : Type} `{!Table (list Z) Z HT} `{!Table (list Z) CacheValue VT}.
#[local] Abbreviation cache := (cache HT VT).

Definition PutDone (c : cache) (sha1name : list Z) : outcome cache :=
  match GetTempDiskCache c sha1name with
  | Some _ => DeleteTempDiskCache c sha1name
  | None => Done c
  end.

Definition PutDisk (c : cache) (d : disk) (digest buffer : list Z) (buf_len : Z) : outcome (cache * disk) :=
  match GetTempDiskCache c digest with
  | Some _ => Done (c, d)
  | None =>
      if MAX_PUT_DISK_QUEUE <? g_NumPendingSecondTransactions d then Done (c, d)
      else
        c ← PutTempDiskCache c digest buffer buf_len;
        d ← SendCacheRequest d hc_put ps_none digest buf_len (Some buffer) (-1) NoSource NoOpaque;
        Done (c, d)
  end.
End put.

(** ** Strict priority, and no transaction is lost *)

(** The transactions of the connections. *)
Definition in_service (d : disk) : list CacheTransactionInfo :=
  omap (λ c, c ≫= cc_pCurTrans) (g_CacheConnections d).
Definition num_idle (l : list (option CacheConnection)) : nat := length (filter (λ c, is_idle c = true) l).
Definition num_conns (l : list (option CacheConnection)) : nat := length (filter is_Some l).
Definition queue (d : disk) : list CacheTransactionInfo :=
  g_FirstClassRequestList d ++ g_SecondClassRequestList d.

(** A transaction whose request can be written. *)
Record trans_ok (ti : CacheTransactionInfo) : Prop := {
  to_name : (length (ti_sha1name ti) ≤ 64)%nat;
  to_chunk : match ti_method ti with
             | hc_put => 0 < ti_chunkLen ti ∧ ∃ b, ti_pChunk ti = Some b
             | _ => ti_pChunk ti = None
             end
}.

Record disk_ok (d : disk) : Prop := {
  do_first : Forall (λ ti, trans_ok ti ∧ is_first_class ti = true) (g_FirstClassRequestList d);
  do_second : Forall (λ ti, trans_ok ti ∧ is_first_class ti = false) (g_SecondClassRequestList d);
  do_num1 : g_NumPendingFirstTransactions d = Z.of_nat (length (g_FirstClassRequestList d));
  do_num2 : g_NumPendingSecondTransactions d = Z.of_nat (length (g_SecondClassRequestList d));
  do_small : Z.of_nat (length (queue d)) + Z.of_nat (length (in_service d)) < 2 ^ 31 - 1;
  do_service : Forall trans_ok (in_service d);
  do_conns : g_NumCacheConns d = Z.of_nat (num_conns (g_CacheConnections d));
  do_array : Z.of_nat (length (g_CacheConnections d)) < 2 ^ 31
}.

Lemma length_digits fuel : ∀ n, (length (digits fuel n) ≤ fuel)%nat.
Proof.
  induction fuel as [|f IH]; intros n; cbn [digits]; [done|].
  rewrite length_app. cbn. specialize (IH (n / 10)). destruct (n <? 10); cbn; lia.
Qed.

Lemma length_SHA1Str d : length (SHA1Str d) = (2 * length d)%nat.
Proof. unfold SHA1Str. induction d as [|b d IH]; [done|]. cbn [fmap list_fmap concat]. rewrite length_app, IH. cbn. lia. Qed.

Lemma length_url m name : (length (url_request m name) ≤ 40 + 2 * length name)%nat.
Proof.
  unfold url_request. rewrite !length_app, length_SHA1Str. destruct m; cbn; lia.
Qed.

(** The request of a transaction. *)
Definition request_of (ti : CacheTransactionInfo) : list Z :=
  match ti_method ti with
  | hc_put => url_request hc_put (ti_sha1name ti) ++ bytes_of "Content-Length: " ++
              show_int (ti_chunkLen ti) ++ CRLF ++ CRLF ++ default [] (ti_pChunk ti)
  | m => url_request m (ti_sha1name ti) ++ CRLF
  end.

Lemma IssueCacheRequest_ok d i c ti :
  g_CacheConnections d !! i = Some (Some c) → cc_pCurTrans c = None → trans_ok ti →
  IssueCacheRequest d i ti =
    Done (set_conns (<[i := Some {| cc_fd := cc_fd c; cc_pCurTrans := Some ti |}]> (g_CacheConnections d))
            (g_NumCacheConns d) (dk_sent d ++ [(cc_fd c, request_of ti)]) d).
Proof.
  intros Hi Hc [Hn Hk]. unfold IssueCacheRequest. rewrite (proj2 (get_Done _ _ _) Hi).
  cbn [mbind outcome_bind]. rewrite Hc. cbn [c_assert mbind outcome_bind].
  pose proof (λ m, length_url m (ti_sha1name ti)) as Hu. unfold request_of.
  destruct (ti_method ti) eqn:Em.
  - destruct Hk as (Hl & b & Hb). rewrite (proj2 (Z.ltb_lt _ _)), Hb by done. cbn [c_assert mbind outcome_bind].
    set (hdr := url_request hc_put _ ++ _ ++ _ ++ _).
    assert (length hdr < 256)%nat as Hh.
    { subst hdr. rewrite !length_app. specialize (Hu hc_put). unfold show_int.
      pose proof (length_digits 10 (ti_chunkLen ti)) as Hd. rewrite (proj2 (Z.ltb_ge _ _)) by lia.
      revert Hd Hu. generalize (length (digits 10 (ti_chunkLen ti))) (length (url_request hc_put (ti_sha1name ti))).
      intros m k Hd Hu. cbn. lia. }
    unfold sprintf_into, MAX_URL_LEN. rewrite (proj2 (Z.leb_le _ _)) by lia. cbn [mbind outcome_bind].
    rewrite (proj2 (Z.leb_le _ _)) by lia. cbn [mbind outcome_bind default]. subst hdr.
    by rewrite <-!app_assoc.
  - rewrite Hk. cbn [c_assert mbind outcome_bind]. unfold sprintf_into, MAX_URL_LEN.
    specialize (Hu hc_get). rewrite (proj2 (Z.leb_le _ _)) by (rewrite length_app; change (length CRLF) with 2%nat; lia). done.
  - unfold sprintf_into, MAX_URL_LEN.
    specialize (Hu hc_peek). rewrite (proj2 (Z.leb_le _ _)) by (rewrite length_app; change (length CRLF) with 2%nat; lia). done.
Qed.

Lemma lookup_split {A} (l : list A) i x :
  l !! i = Some x → ∃ l1 l2, l = l1 ++ x :: l2 ∧ ∀ y, <[i := y]> l = l1 ++ y :: l2.
Proof.
  intros Hi. exists (take i l), (drop (S i) l). split; [by rewrite take_drop_middle|].
  intros y. by rewrite insert_take_drop by eauto using lookup_lt_Some.
Qed.

Lemma GetIdleCacheConn_Some d i :
  GetIdleCacheConn d = Some i →
  ∃ c, g_CacheConnections d !! i = Some (Some c) ∧ cc_pCurTrans c = None.
Proof.
  unfold GetIdleCacheConn. intros ([j c] & Hf & ->)%fmap_Some. cbn.
  apply list_find_Some in Hf as (Hj & Hc & _). destruct c as [c|]; [|done]. cbn in Hc.
  exists c. split; [done|]. by destruct (cc_pCurTrans c).
Qed.

Lemma GetIdleCacheConn_None d : GetIdleCacheConn d = None → num_idle (g_CacheConnections d) = 0%nat.
Proof.
  unfold GetIdleCacheConn. intros Hf%fmap_None. apply list_find_None in Hf. unfold num_idle.
  induction Hf as [|c l Hc Hl IH]; [done|]. by rewrite filter_cons, decide_False.
Qed.

Lemma occupy (l : list (option CacheConnection)) i c ti :
  l !! i = Some (Some c) → cc_pCurTrans c = None →
  let l' := <[i := Some {| cc_fd := cc_fd c; cc_pCurTrans := Some ti |}]> l in
  num_idle l = S (num_idle l') ∧ num_conns l' = num_conns l ∧ length l' = length l ∧
  omap (λ c, c ≫= cc_pCurTrans) l' ≡ₚ ti :: omap (λ c, c ≫= cc_pCurTrans) l.
Proof.
  intros Hi Hc l'. destruct (lookup_split _ _ _ Hi) as (l1 & l2 & -> & Hins). subst l'. rewrite Hins.
  unfold num_idle, num_conns. rewrite !filter_app, !filter_cons, !length_app. cbn [is_idle cc_pCurTrans].
  rewrite Hc. rewrite !(decide_True (P := true = true)), !(decide_False (P := false = true)) by done.
  rewrite !(decide_True (P := is_Some (Some _))) by done. cbn [length]. split_and!; [lia|lia|lia|].
  rewrite !omap_app. cbn [omap list_omap mbind option_bind cc_pCurTrans]. rewrite Hc. symmetry. apply Permutation_middle.
Qed.

(** [k] requests of a class were issued. *)
Definition dec_by (fc : bool) (k : nat) (d : disk) : disk :=
  set_lists (g_FirstClassRequestList d) (g_SecondClassRequestList d)
    (g_NumPendingFirstTransactions d - if fc then Z.of_nat k else 0)
    (g_NumPendingSecondTransactions d - if fc then 0 else Z.of_nat k) d.
Definition dec (fc : bool) : disk → outcome disk := if fc then dec_first else dec_second.
Definition pending (fc : bool) (d : disk) : Z :=
  if fc then g_NumPendingFirstTransactions d else g_NumPendingSecondTransactions d.

Lemma dec_ok fc d : 0 < pending fc d < 2 ^ 31 → dec fc d = Done (dec_by fc 1 d).
Proof.
  intros Hp. unfold dec, pending in *. destruct fc; [unfold dec_first|unfold dec_second];
    rewrite i32_id, (proj2 (Z.leb_le _ _)) by lia; cbn [c_assert mbind outcome_bind]; unfold dec_by;
    by rewrite Z.sub_0_r.
Qed.

Lemma issue_list_ok fc l : ∀ d,
  Forall trans_ok l → Z.of_nat (length l) ≤ pending fc d < 2 ^ 31 →
  ∃ conns reqs, let k := (length l `min` num_idle (g_CacheConnections d))%nat in
    issue_list (dec fc) d l =
      Done (dec_by fc k (set_conns conns (g_NumCacheConns d) (dk_sent d ++ reqs) d), drop k l) ∧
    reqs.*2 = request_of <$> take k l ∧
    num_idle conns = (num_idle (g_CacheConnections d) - k)%nat ∧
    num_conns conns = num_conns (g_CacheConnections d) ∧ length conns = length (g_CacheConnections d) ∧
    omap (λ c, c ≫= cc_pCurTrans) conns ≡ₚ take k l ++ in_service d.
Proof.
  induction l as [|ti l IH]; intros d Hl Hp.
  { exists (g_CacheConnections d), []. cbn. split_and!; [|done|lia|done..].
    f_equal. f_equal. unfold dec_by. destruct d, fc; cbn; by rewrite ?Z.sub_0_r, ?app_nil_r. }
  apply Forall_cons_1 in Hl as [Hti Hl]. cbn [length issue_list] in *.
  destruct (GetIdleCacheConn d) as [i|] eqn:Ei.
  2:{ rewrite (GetIdleCacheConn_None _ Ei). exists (g_CacheConnections d), []. rewrite Nat.min_0_r.
      split_and!; [|done|rewrite (GetIdleCacheConn_None _ Ei); lia|done..].
      f_equal. f_equal. unfold dec_by. destruct d, fc; cbn; by rewrite ?Z.sub_0_r, ?app_nil_r. }
  destruct (GetIdleCacheConn_Some _ _ Ei) as (c & Hc & Hn).
  rewrite (IssueCacheRequest_ok _ _ _ _ Hc Hn Hti). cbn [mbind outcome_bind].
  destruct (occupy _ _ _ ti Hc Hn) as (O1 & O2 & O3 & O4).
  set (conns1 := <[i := _]> _) in *. set (d1 := set_conns _ _ _ d).
  assert (pending fc d1 = pending fc d) as Hpd by (by destruct fc).
  rewrite dec_ok by lia. cbn [mbind outcome_bind].
  destruct (IH (dec_by fc 1 d1)) as (conns & reqs & He & R1 & R2 & R3 & R4 & R5); [done| |].
  { destruct fc; cbn in *; lia. }
  cbn [dec_by d1 set_conns set_lists g_CacheConnections g_NumCacheConns dk_sent] in *.
  exists conns, ((cc_fd c, request_of ti) :: reqs).
  rewrite O1. cbn [Nat.min drop take]. set (k := (length l `min` num_idle conns1)%nat) in *.
  split_and!.
  - rewrite He. rewrite <-app_assoc. cbn [app]. do 2 f_equal. subst d1 k. clear.
    generalize (length l `min` num_idle conns1)%nat. intros k. unfold dec_by, set_lists, set_conns.
    destruct d, fc; cbn -[Z.of_nat]; f_equal; lia.
  - cbn. by rewrite R1.
  - lia.
  - by rewrite R3, O2.
  - by rewrite R4, O3.
  - rewrite R5. unfold in_service. cbn [dec_by d1 set_conns set_lists g_CacheConnections]. rewrite O4. cbn [app].
    symmetry. apply Permutation_middle.
Qed.

Lemma take_min {A} (l : list A) k : take (length l `min` k) l = take k l.
Proof. destruct (le_lt_dec k (length l)); [by rewrite Nat.min_r by lia|rewrite !take_ge; [done|lia..]]. Qed.
Lemma drop_min {A} (l : list A) k : drop (length l `min` k) l = drop k l.
Proof. destruct (le_lt_dec k (length l)); [by rewrite Nat.min_r by lia|rewrite !drop_ge; [done|lia..]]. Qed.

Lemma take_app_min {A} (l1 l2 : list A) n :
  take n (l1 ++ l2) = take (length l1 `min` n) l1 ++ take (length l2 `min` (n - length l1 `min` n)) l2.
Proof. rewrite !take_min, take_app. do 2 f_equal. lia. Qed.

Lemma drop_app_min {A} (l1 l2 : list A) n :
  drop n (l1 ++ l2) = drop (length l1 `min` n) l1 ++ drop (length l2 `min` (n - length l1 `min` n)) l2.
Proof. rewrite !drop_min, drop_app. do 2 f_equal. lia. Qed.

(** What issuing the pending requests does: the first [n] of the two lists, the
    first class before the second, go to the idle connections. *)
Record issued (d d' : disk) : Prop := {
  is_queue : queue d' = drop (num_idle (g_CacheConnections d)) (queue d);
  is_sent : ∃ reqs, dk_sent d' = dk_sent d ++ reqs ∧
              reqs.*2 = request_of <$> take (num_idle (g_CacheConnections d)) (queue d);
  is_service : in_service d' ≡ₚ take (num_idle (g_CacheConnections d)) (queue d) ++ in_service d;
  is_idle' : num_idle (g_CacheConnections d') = (num_idle (g_CacheConnections d) - length (queue d))%nat;
  is_conns : num_conns (g_CacheConnections d') = num_conns (g_CacheConnections d);
  is_length : length (g_CacheConnections d') = length (g_CacheConnections d)
}.

Lemma IssuePendingCacheRequests_ok d :
  disk_ok d → ∃ d', IssuePendingCacheRequests d = Done d' ∧ disk_ok d' ∧ issued d d'.
Proof.
  intros [H1 H2 N1 N2 Hs Hsv Hn Ha]. unfold queue in Hs. rewrite length_app in Hs.
  pose proof (Forall_impl _ _ _ H1 (λ ti, proj1 (B:=_))) as T1.
  pose proof (Forall_impl _ _ _ H2 (λ ti, proj1 (B:=_))) as T2.
  unfold IssuePendingCacheRequests.
  destruct (issue_list_ok true (g_FirstClassRequestList d) d T1) as (c1 & r1 & E1 & A1 & A2 & A3 & A4 & A5);
    [cbn; lia|]. cbn [dec] in E1. rewrite E1. cbn [mbind outcome_bind].
  set (k1 := (length (g_FirstClassRequestList d) `min` num_idle (g_CacheConnections d))%nat) in *.
  set (d1 := set_lists (drop k1 _) _ _ _ _).
  destruct (issue_list_ok false (g_SecondClassRequestList d) d1 T2) as (c2 & r2 & E2 & B1 & B2 & B3 & B4 & B5);
    [cbn; lia|]. cbn [dec] in E2.
  change (g_SecondClassRequestList d1) with (g_SecondClassRequestList d). rewrite E2. cbn [mbind outcome_bind].
  change (g_CacheConnections d1) with c1 in *.
  set (k2 := (length (g_SecondClassRequestList d) `min` num_idle c1)%nat) in *.
  set (d' := {| g_FirstClassRequestList := drop k1 (g_FirstClassRequestList d);
    g_SecondClassRequestList := drop k2 (g_SecondClassRequestList d);
    g_NumPendingFirstTransactions := g_NumPendingFirstTransactions d - Z.of_nat k1;
    g_NumPendingSecondTransactions := g_NumPendingSecondTransactions d - Z.of_nat k2;
    g_CacheConnections := c2; g_NumCacheConns := g_NumCacheConns d; dk_sent := (dk_sent d ++ r1) ++ r2 |}).
  exists d'. split.
  { f_equal. subst d' d1. generalize k1 k2. intros. unfold dec_by, set_lists, set_conns. cbn -[Z.of_nat]. f_equal; lia. }
  clear E1 E2.
  assert (num_idle c1 = num_idle (g_CacheConnections d) - k1)%nat as Hi1 by done.
  assert (take (num_idle (g_CacheConnections d)) (queue d) =
    take k1 (g_FirstClassRequestList d) ++ take k2 (g_SecondClassRequestList d)) as Htake.
  { unfold queue. rewrite take_app_min. unfold k2. rewrite Hi1. done. }
  assert (drop (num_idle (g_CacheConnections d)) (queue d) =
    drop k1 (g_FirstClassRequestList d) ++ drop k2 (g_SecondClassRequestList d)) as Hdrop.
  { unfold queue. rewrite drop_app_min. unfold k2. rewrite Hi1. done. }
  assert (omap (λ c, c ≫= cc_pCurTrans) c2 ≡ₚ take (num_idle (g_CacheConnections d)) (queue d) ++ in_service d) as Hserv.
  { rewrite B5. unfold in_service. cbn [d1 dec_by set_lists set_conns g_CacheConnections]. rewrite A5, Htake, !app_assoc.
    unfold in_service. f_equiv. apply Permutation_app_comm. }
  pose proof (length_drop (g_FirstClassRequestList d) k1). pose proof (length_drop (g_SecondClassRequestList d) k2).
  split; split; subst d'; cbn [g_CacheConnections g_FirstClassRequestList g_SecondClassRequestList
    g_NumPendingFirstTransactions g_NumPendingSecondTransactions g_NumCacheConns dk_sent].
  - by apply Forall_drop.
  - by apply Forall_drop.
  - lia.
  - lia.
  - unfold queue. cbn. rewrite length_app. unfold in_service. cbn. rewrite Hserv, Htake, !length_app, !length_take.
    unfold in_service in *. lia.
  - unfold in_service. cbn. rewrite Hserv. apply Forall_app. split; [|done]. apply Forall_take. by apply Forall_app.
  - by rewrite B3, A3.
  - by rewrite B4, A4.
  - done.
  - exists (r1 ++ r2). rewrite <-app_assoc. split; [done|]. by rewrite fmap_app, A1, B1, Htake, fmap_app.
  - done.
  - unfold queue. rewrite B2, Hi1, length_app. lia.
  - by rewrite B3, A3.
  - by rewrite B4, A4.
Qed.

(** ** Runs of the disk client *)

(** The end of [ProcessCacheResponse]: the transaction of the connection is
    destroyed and the connection is available again. *)
Definition release_conn (d : disk) (i : nat) : outcome disk :=
  conn ← get (g_CacheConnections d) i;
  match conn with
  | None => Fault OutOfBounds
  | Some conn =>
      IssuePendingCacheRequests
        (set_conns (<[i := Some {| cc_fd := cc_fd conn; cc_pCurTrans := None |}]> (g_CacheConnections d))
           (g_NumCacheConns d) (dk_sent d) d)
  end.

Inductive disk_event :=
  | Submit (ti : CacheTransactionInfo)
  | Finish (i : nat)
  | Close (i : nat)
  | Connect (i : nat) (fd : Z).

Definition run_event (d : disk) (e : disk_event) : outcome disk :=
  match e with
  | Submit ti => IssuePendingCacheRequests (ScheduleCacheRequest d ti true)
  | Finish i => release_conn d i
  | Close i => DestroyCacheConnectionInfo d i
  | Connect i fd => MakeNewCacheConnection d i fd
  end.

(** When an event can happen, and the transactions it adds and ends. *)
Inductive happens (d : disk) : disk_event → list CacheTransactionInfo → list CacheTransactionInfo → Prop :=
  | happens_submit ti :
      trans_ok ti → Z.of_nat (length (queue d)) + Z.of_nat (length (in_service d)) < 2 ^ 31 - 2 →
      happens d (Submit ti) [ti] []
  | happens_finish i c ti :
      g_CacheConnections d !! i = Some (Some c) → cc_pCurTrans c = Some ti → happens d (Finish i) [] [ti]
  | happens_close i c : g_CacheConnections d !! i = Some (Some c) → happens d (Close i) [] []
  | happens_connect i fd :
      g_CacheConnections d !! i = Some None → fd ≠ -1 → happens d (Connect i fd) [] [].

(** A run, with what was submitted and what ended, and its last event. *)
Inductive disk_run (d0 : disk) : list CacheTransactionInfo → list CacheTransactionInfo →
    option disk_event → disk → Prop :=
  | run_start : disk_run d0 [] [] None d0
  | run_step sub fin last d e a b d' :
      disk_run d0 sub fin last d → happens d e a b → run_event d e = Done d' →
      disk_run d0 (sub ++ a) (fin ++ b) (Some e) d'.

Definition olist {A} (o : option A) : list A := match o with Some a => [a] | None => [] end.

Lemma set_cell (l : list (option CacheConnection)) i c x :
  l !! i = Some c →
  let f := λ c : option CacheConnection, c ≫= cc_pCurTrans in
  olist (f x) ++ omap f l ≡ₚ olist (f c) ++ omap f (<[i := x]> l) ∧
  (num_conns (<[i := x]> l) + (if c is Some _ then 1 else 0) = num_conns l + (if x is Some _ then 1 else 0))%nat.
Proof.
  intros Hi f. destruct (lookup_split _ _ _ Hi) as (l1 & l2 & -> & ->). split.
  - rewrite !omap_app. cbn [omap list_omap]. destruct (f x), (f c); cbn [olist app].
    + rewrite <-!Permutation_middle. apply perm_swap.
    + by rewrite <-Permutation_middle.
    + by rewrite <-Permutation_middle.
    + done.
  - unfold num_conns. rewrite !filter_app, !length_app, !filter_cons.
    destruct x, c; repeat case_decide; cbn [length]; try lia; try (by exfalso; eauto);
      try (match goal with H : is_Some None |- _ => by destruct H end).
Qed.

Lemma ScheduleCacheRequest_ok d ti addTail :
  disk_ok d → trans_ok ti → Z.of_nat (length (queue d)) + Z.of_nat (length (in_service d)) < 2 ^ 31 - 2 →
  disk_ok (ScheduleCacheRequest d ti addTail) ∧
  queue (ScheduleCacheRequest d ti addTail) ≡ₚ ti :: queue d ∧
  g_CacheConnections (ScheduleCacheRequest d ti addTail) = g_CacheConnections d.
Proof.
  intros [H1 H2 N1 N2 Hs Hsv Hn Ha] Ht Hb. unfold queue, in_service in *. rewrite length_app in Hb.
  unfold ScheduleCacheRequest. destruct (is_first_class ti) eqn:Ec.
  - assert ((if addTail then g_FirstClassRequestList d ++ [ti] else ti :: g_FirstClassRequestList d)
      ≡ₚ ti :: g_FirstClassRequestList d) as Hp by (destruct addTail; [by rewrite Permutation_app_comm|done]).
    set (first := if addTail then _ else _) in *. split_and!; [|cbn; by rewrite Hp|done].
    split; cbn [set_lists g_FirstClassRequestList g_SecondClassRequestList g_NumPendingFirstTransactions
      g_NumPendingSecondTransactions g_CacheConnections g_NumCacheConns]; try done.
    + rewrite Hp. by constructor.
    + rewrite i32_id, Hp by lia. cbn [length]. lia.
    + unfold queue, in_service. cbn. rewrite length_app, Hp. cbn [length]. lia.
  - split_and!; [| |done].
    + split; cbn [set_lists g_FirstClassRequestList g_SecondClassRequestList g_NumPendingFirstTransactions
        g_NumPendingSecondTransactions g_CacheConnections g_NumCacheConns]; try done.
      * apply Forall_app. split; [done|]. by apply Forall_singleton.
      * rewrite i32_id, length_app by lia. cbn [length]. lia.
      * unfold queue, in_service. cbn. rewrite !length_app. cbn [length]. lia.
    + cbn. rewrite app_assoc. by rewrite Permutation_app_comm.
Qed.

(** One event does not fault, keeps the invariant, loses nothing, and leaves no
    request waiting beside an idle connection, unless the event was a new
    connection. *)
Lemma run_event_ok d e a b :
  disk_ok d → happens d e a b →
  ∃ d', run_event d e = Done d' ∧ disk_ok d' ∧
    queue d ++ in_service d ++ a ≡ₚ queue d' ++ in_service d' ++ b ∧
    ((∀ i fd, e ≠ Connect i fd) → queue d' = [] ∨ num_idle (g_CacheConnections d') = 0%nat).
Proof.
  intros Hok Hh.
  assert (∀ d1 l1 l2, disk_ok d1 → queue d ++ in_service d ++ l1 ≡ₚ queue d1 ++ in_service d1 ++ l2 →
    ∃ d', IssuePendingCacheRequests d1 = Done d' ∧ disk_ok d' ∧
      queue d ++ in_service d ++ l1 ≡ₚ queue d' ++ in_service d' ++ l2 ∧
      ((∀ i fd, e ≠ Connect i fd) → queue d' = [] ∨ num_idle (g_CacheConnections d') = 0%nat)) as Hissue.
  { intros d1 l1 l2 Hok1 Hp. destruct (IssuePendingCacheRequests_ok d1 Hok1) as (d' & He & Hok' & Hi).
    exists d'. split_and!; [done|done| |].
    - rewrite Hp, (is_service _ _ Hi), (is_queue _ _ Hi), !app_assoc. do 2 f_equiv.
      rewrite (Permutation_app_comm (drop _ _)). by rewrite take_drop.
    - intros _. rewrite (is_queue _ _ Hi), (is_idle' _ _ Hi).
      destruct (le_lt_dec (length (queue d1)) (num_idle (g_CacheConnections d1))).
      + left. by apply drop_ge.
      + right. lia. }
  pose proof Hok as [H1 H2 N1 N2 Hs Hsv Hn Ha].
  destruct Hh as [ti Ht Hb|i c ti Hi Hc|i c Hi|i fd Hi Hfd]; cbn [run_event].
  - destruct (ScheduleCacheRequest_ok d ti true Hok Ht Hb) as (Hok1 & Hq & Hcn).
    apply Hissue; [done|]. unfold in_service. rewrite Hcn, Hq, app_nil_r, (Permutation_app_comm _ [ti]).
    cbn [app]. by rewrite Permutation_middle.
  - unfold release_conn. rewrite (proj2 (get_Done _ _ _) Hi). cbn [mbind outcome_bind].
    destruct (set_cell _ i _ (Some {| cc_fd := cc_fd c; cc_pCurTrans := None |}) Hi) as [Hp Hnc].
    cbn [mbind option_bind cc_pCurTrans] in Hp. rewrite Hc in Hp. cbn [olist app] in Hp.
    apply Hissue.
    + split; cbn [set_conns g_FirstClassRequestList g_SecondClassRequestList g_NumPendingFirstTransactions
        g_NumPendingSecondTransactions g_CacheConnections g_NumCacheConns]; try done.
      * unfold queue, in_service in *. cbn. rewrite Hp in Hs. cbn [length] in Hs. lia.
      * unfold in_service in *. cbn. rewrite Hp in Hsv. by apply Forall_cons_1 in Hsv as [_ ?].
      * rewrite Hn. lia.
      * by rewrite length_insert.
    + unfold in_service, queue. cbn [set_conns g_FirstClassRequestList g_SecondClassRequestList g_CacheConnections].
      rewrite Hp, app_nil_r. f_equiv. by rewrite Permutation_app_comm.
  - unfold DestroyCacheConnectionInfo. rewrite (proj2 (get_Done _ _ _) Hi). cbn [mbind outcome_bind].
    destruct (set_cell _ i _ None Hi) as [Hp Hnc]. cbn [mbind option_bind olist app] in Hp, Hnc.
    assert (num_conns (g_CacheConnections d) ≤ length (g_CacheConnections d))%nat by apply length_filter.
    rewrite i32_id, (proj2 (Z.leb_le _ _)) by lia. cbn [c_assert mbind outcome_bind].
    set (d1 := set_conns _ _ _ d).
    assert (length (olist (cc_pCurTrans c)) + length (in_service d1) = length (in_service d))%nat as Hl.
    { unfold in_service. cbn. by rewrite Hp, length_app. }
    assert (Forall trans_ok (olist (cc_pCurTrans c) ++ in_service d1)) as [Hf1 Hf2]%Forall_app.
    { unfold in_service in *. cbn. by rewrite <-Hp. }
    assert (disk_ok d1) as Hok1.
    { split; cbn [d1 set_conns g_FirstClassRequestList g_SecondClassRequestList g_NumPendingFirstTransactions
        g_NumPendingSecondTransactions g_CacheConnections g_NumCacheConns]; try done.
      - change (queue d1) with (queue d). lia.
      - lia.
      - by rewrite length_insert. }
    destruct (cc_pCurTrans c) as [ti|]; cbn [olist app length] in *.
    + apply Forall_cons_1 in Hf1 as [Hf1 _].
      destruct (ScheduleCacheRequest_ok d1 ti false Hok1 Hf1) as (Hok2 & Hq & Hcn).
      { change (queue d1) with (queue d). lia. }
      apply Hissue; [done|]. rewrite !app_nil_r, Hq. unfold in_service at 2. rewrite Hcn.
      cbn [app d1 set_conns g_CacheConnections]. unfold in_service. rewrite Hp. cbn [app].
      by rewrite Permutation_middle.
    + apply Hissue; [done|]. unfold in_service. cbn [d1 set_conns g_CacheConnections]. by rewrite Hp.
  - unfold MakeNewCacheConnection. rewrite (proj2 (Z.eqb_neq _ _)) by done.
    set (x := Some _). assert (put (g_CacheConnections d) i x = Done (<[i := x]> (g_CacheConnections d))) as ->.
    { apply put_Done. eauto using lookup_lt_Some. }
    cbn [mbind outcome_bind]. destruct (set_cell _ i _ x Hi) as [Hp Hnc].
    cbn [mbind option_bind olist app cc_pCurTrans x] in Hp, Hnc.
    assert (num_conns (<[i := x]> (g_CacheConnections d)) ≤ length (g_CacheConnections d))%nat.
    { rewrite <-(length_insert (g_CacheConnections d) i x). apply length_filter. }
    eexists. split; [done|]. split_and!.
    + split; cbn [set_conns g_FirstClassRequestList g_SecondClassRequestList g_NumPendingFirstTransactions
        g_NumPendingSecondTransactions g_CacheConnections g_NumCacheConns]; try done.
      * unfold queue, in_service in *. cbn. by rewrite <-Hp.
      * unfold in_service in *. cbn. by rewrite <-Hp.
      * rewrite i32_id by lia. lia.
      * by rewrite length_insert.
    + unfold in_service. cbn [set_conns g_CacheConnections]. by rewrite Hp.
    + intros Hne. by destruct (Hne i fd).
Qed.

(** ** Theorems *)

(** A request to the disk cache.  [SendCacheRequest] queues it and hands
    the waiting requests to the idle connections in strict priority: what is
    written is exactly the requests of the first transactions of the two lists
    taken together, gets and peeks before puts, one for every idle connection;
    so no put is written while a get or a peek still waits. *)
Theorem SendCacheRequest_strict_priority `{Digest} (d : disk) (method : hcMethod) (ps : processState)
    (sha1name : list Z) (length_ : Z) (pChunk : option (list Z)) (dstPxyId : Z) (sci : Source) (opaque : Opaque)
    (ti : CacheTransactionInfo) :
  disk_ok d → Z.of_nat (length (queue d)) + Z.of_nat (length (in_service d)) < 2 ^ 31 - 2 →
  CreateCacheTransactionInfo method ps dstPxyId sha1name length_ pChunk sci opaque = Done ti → trans_ok ti →
  let q := if is_first_class ti
           then (g_FirstClassRequestList d ++ [ti]) ++ g_SecondClassRequestList d
           else g_FirstClassRequestList d ++ g_SecondClassRequestList d ++ [ti] in
  let n := num_idle (g_CacheConnections d) in
  ∃ d' reqs, SendCacheRequest d method ps sha1name length_ pChunk dstPxyId sci opaque = Done d' ∧
    disk_ok d' ∧ dk_sent d' = dk_sent d ++ reqs ∧ reqs.*2 = request_of <$> take n q ∧
    queue d' = drop n q ∧
    (g_FirstClassRequestList d' ≠ [] → Forall (λ t, is_first_class t = true) (take n q)).
Proof.
  intros Hok Hb Hti Ht q n. unfold SendCacheRequest. rewrite Hti. cbn [mbind outcome_bind].
  destruct (ScheduleCacheRequest_ok d ti true Hok Ht Hb) as (Hok1 & _ & Hcn).
  set (d1 := ScheduleCacheRequest d ti true) in *.
  assert (queue d1 = q) as Hq.
  { subst d1 q. unfold ScheduleCacheRequest, queue. by destruct (is_first_class ti). }
  destruct (IssuePendingCacheRequests_ok d1 Hok1) as (d' & He & Hok' & Hi).
  destruct (is_sent _ _ Hi) as (reqs & Hr1 & Hr2). rewrite Hcn in Hr2.
  exists d', reqs. split_and!; [done|done| | | |].
  - rewrite Hr1. subst d1. unfold ScheduleCacheRequest. by destruct (is_first_class ti).
  - by rewrite Hr2, Hq.
  - by rewrite (is_queue _ _ Hi), Hcn, Hq.
  - intros Hne. pose proof (is_queue _ _ Hi) as Hd. rewrite Hcn in Hd. fold n in Hd. rewrite <-Hq.
    unfold queue in Hd at 2. rewrite drop_app in Hd. unfold queue. rewrite take_app.
    pose proof (do_second _ Hok1) as Hs1.
    destruct (le_lt_dec n (length (g_FirstClassRequestList d1))) as [Hle|Hlt].
    + replace (n - length (g_FirstClassRequestList d1))%nat with 0%nat by lia. cbn [take]. rewrite app_nil_r.
      apply Forall_take. eapply Forall_impl; [exact (do_first _ Hok1)|]. by intros t [_ ?].
    + exfalso. rewrite (drop_ge (g_FirstClassRequestList d1)) in Hd by lia. cbn [app] in Hd.
      destruct (g_FirstClassRequestList d') as [|t l] eqn:E; [done|].
      pose proof (do_first _ Hok') as Hf. rewrite E in Hf. apply Forall_cons_1 in Hf as [[_ Hf] _].
      assert (t ∈ drop (n - length (g_FirstClassRequestList d1)) (g_SecondClassRequestList d1)) as Hin.
      { rewrite <-Hd. unfold queue. rewrite E. by left. }
      apply (Forall_drop _ (n - length (g_FirstClassRequestList d1))) in Hs1.
      rewrite Forall_forall in Hs1. destruct (Hs1 _ Hin) as [_ Hs]. congruence.
Qed.

(** A disk client with one connection of two, which is idle. *)
Definition toy_disk : disk :=
  {| g_FirstClassRequestList := []; g_SecondClassRequestList := []; g_NumPendingFirstTransactions := 0;
     g_NumPendingSecondTransactions := 0;
     g_CacheConnections := [None; Some {| cc_fd := 5; cc_pCurTrans := None |}];
     g_NumCacheConns := 1; dk_sent := [] |}.
Definition toy_trans (m : hcMethod) : CacheTransactionInfo :=
  {| ti_cid := None; ti_sourceCI := NoSource; ti_sha1name := [1; 171];
     ti_chunkLen := 3; ti_pChunk := match m with hc_put => Some [7; 8; 9] | _ => None end;
     ti_dstPxyId := -1; ti_method := m; ti_ps := ps_none; ti_pOpaque := NoOpaque |}.

Lemma toy_disk_ok : disk_ok toy_disk.
Proof. split; cbn; try done; constructor. Qed.
Lemma toy_trans_ok m : trans_ok (toy_trans m).
Proof. split; [cbn; lia|]. destruct m; cbn; [split; [lia|by eexists]|done|done]. Qed.

#[local] Existing Instance toy_digest.

Lemma SendCacheRequest_strict_priority_witness :
  ∃ d', SendCacheRequest toy_disk hc_put ps_none [1; 171] 3 (Some [7; 8; 9]) (-1) NoSource NoOpaque = Done d' ∧
    dk_sent d' = [(5, bytes_of "WAPROX-PUT http://waprox-01ab HTTP/1.1" ++ CRLF ++
                      bytes_of "Content-Length: 3" ++ CRLF ++ CRLF ++ [7; 8; 9])].
Proof.
  destruct (SendCacheRequest_strict_priority toy_disk hc_put ps_none [1; 171] 3 (Some [7; 8; 9]) (-1) NoSource NoOpaque
    (toy_trans hc_put)) as (d' & reqs & H1 & _ & _ & _ & _ & _).
  - exact toy_disk_ok.
  - vm_compute. reflexivity.
  - reflexivity.
  - exact (toy_trans_ok hc_put).
  - exists d'. split; [exact H1|]. vm_compute in H1. injection H1 as <-. reflexivity.
Defined.

(** C12: runs of the disk client: submitted requests, finished requests,
    connections that close and connections that are made, in any order.  From a
    consistent state, every event that can happen runs without a fault; every
    transaction that was there or was submitted is waiting, in service or
    finished, exactly once, also when connections die with their transaction;
    and after every event but a new connection no request waits while a
    connection is idle. *)
Theorem disk_run_conserves (d0 d : disk) (sub fin : list CacheTransactionInfo) (last : option disk_event) :
  disk_ok d0 → disk_run d0 sub fin last d →
  disk_ok d ∧ queue d0 ++ in_service d0 ++ sub ≡ₚ queue d ++ in_service d ++ fin ∧
  (∀ e a b, happens d e a b → ∃ d', run_event d e = Done d') ∧
  match last with
  | Some (Connect _ _) | None => True
  | Some _ => queue d = [] ∨ num_idle (g_CacheConnections d) = 0%nat
  end.
Proof.
  intros Hok Hrun. cut (disk_ok d ∧ queue d0 ++ in_service d0 ++ sub ≡ₚ queue d ++ in_service d ++ fin ∧
    match last with Some (Connect _ _) | None => True
    | Some _ => queue d = [] ∨ num_idle (g_CacheConnections d) = 0%nat end).
  { intros (H1 & H2 & H3). split_and!; [done|done| |done].
    intros e a b Hh. destruct (run_event_ok d e a b H1 Hh) as (d' & He & _). eauto. }
  induction Hrun as [|sub fin last d e a b d' Hrun (IH1 & IH2 & _) Hh He]; [by rewrite !app_nil_r|].
  destruct (run_event_ok d e a b IH1 Hh) as (d'' & He' & Hok' & Hp & Hw). rewrite He' in He. injection He as ->.
  split_and!; [done| |].
  - rewrite (app_assoc (in_service d0)), (app_assoc (queue d0)), IH2, <-!app_assoc.
    rewrite (Permutation_app_comm fin a). rewrite (app_assoc (in_service d)), (app_assoc (queue d)).
    rewrite <-!app_assoc, (app_assoc (in_service d)), (app_assoc (queue d)), Hp.
    rewrite <-!app_assoc. do 2 f_equiv. apply Permutation_app_comm.
  - destruct e; try done; by apply Hw.
Qed.

Lemma disk_run_conserves_witness :
  ∃ d, run_event toy_disk (Submit (toy_trans hc_get)) = Done d ∧
    disk_run toy_disk ([] ++ [toy_trans hc_get]) ([] ++ []) (Some (Submit (toy_trans hc_get))) d ∧
    (queue d = [] ∨ num_idle (g_CacheConnections d) = 0%nat).
Proof.
  destruct (run_event_ok toy_disk _ _ _ toy_disk_ok
    (happens_submit toy_disk (toy_trans hc_get) (toy_trans_ok hc_get) ltac:(vm_compute; reflexivity)))
    as (d & He & _).
  pose proof (run_step _ _ _ _ _ _ _ _ _ (run_start toy_disk)
    (happens_submit toy_disk (toy_trans hc_get) (toy_trans_ok hc_get) ltac:(vm_compute; reflexivity)) He) as Hrun.
  exists d. split; [exact He|]. split; [exact Hrun|].
  exact (proj2 (proj2 (proj2 (disk_run_conserves _ _ _ _ _ toy_disk_ok Hrun)))).
Defined.

Section put_theorems.
Context `{Digest} {HT VT : Type} `{!Table (list Z) Z HT} `{!Table (list Z) CacheValue VT}.

(** The chunks whose put is in progress. *)
Definition puts_are (c : cache HT VT) (P : gmap (list Z) CacheValue) : Prop :=
  tbl_is (put_tmp_ht c) P ∧ ∀ n v, P !! n = Some v → 0 < cv_block_length v.

Lemma PutTempDiskCache_ok (c : cache HT VT) P n b len :
  puts_are c P → P !! n = None → 0 < len ≤ Z.of_nat (length b) → len ≤ MAX_CHUNK_SIZE →
  ∃ ht, PutTempDiskCache c n b len = Done (set_put_tmp ht c) ∧
    puts_are (set_put_tmp ht c) (<[n := {| cv_pBlock := slice b 0 (Z.to_nat len);
                                           cv_block_length := len; cv_ref_count := 1 |}]> P).
Proof.
  intros [Ht Hp] Hn Hl Hm. unfold PutTempDiskCache, GetTempDiskCache.
  rewrite (proj2 (Z.eqb_neq _ _)), (tbl_search_ok _ _ _ Ht), Hn, (proj2 (Z.leb_le _ _)) by lia.
  cbn [c_assert mbind outcome_bind]. unfold _PutHT. rewrite load_Done by lia. cbn [mbind outcome_bind].
  rewrite (tbl_search_ok _ _ _ Ht), Hn, bool_decide_true by done. cbn [c_assert mbind outcome_bind].
  eexists. split; [done|]. split; [by apply tbl_insert_ok|].
  intros n' v. destruct (decide (n = n')) as [->|Hne].
  - rewrite lookup_insert_eq. intros [= <-]. cbn. lia.
  - rewrite lookup_insert_ne by done. apply Hp.
Qed.

Lemma PutDone_ok (c : cache HT VT) P n :
  puts_are c P → ∃ c', PutDone c n = Done c' ∧ puts_are c' (delete n P).
Proof.
  intros [Ht Hp]. unfold PutDone, DeleteTempDiskCache, GetTempDiskCache. rewrite (tbl_search_ok _ _ _ Ht).
  destruct (P !! n) as [v|] eqn:E.
  2:{ exists c. split; [done|]. rewrite delete_id by done. done. }
  rewrite (proj2 (Z.ltb_lt _ _)) by eauto. cbn [c_assert mbind outcome_bind]. unfold _RemoveHT.
  destruct (tbl_remove_ok _ _ n Ht) as [Ht' Hv]. destruct (tbl_remove _ n) as [ht v']. cbn [fst snd] in *.
  rewrite Hv, E. cbn [c_assert mbind outcome_bind]. eexists. split; [done|]. split; [done|].
  intros n' v0 [_ Hv0]%lookup_delete_Some. eauto.
Qed.
End put_theorems.

(** A chunk that is put on disk can be read from memory from the call of
    [PutDisk] until [PutDone], a second put of the name in the meantime does
    nothing, and the other puts in progress are not touched. *)
Theorem PutDisk_until_PutDone `{Digest} {HT VT : Type} `{!Table (list Z) Z HT} `{!Table (list Z) CacheValue VT}
    (c : cache HT VT) (d : disk) (P : gmap (list Z) CacheValue) (n b : list Z) (len : Z) :
  puts_are c P → disk_ok d → Z.of_nat (length (queue d)) + Z.of_nat (length (in_service d)) < 2 ^ 31 - 2 →
  P !! n = None → 0 < len ≤ Z.of_nat (length b) → len ≤ MAX_CHUNK_SIZE →
  (SHA1_LEN ≤ length n)%nat → (SHA1_LEN ≤ 64)%nat → g_NumPendingSecondTransactions d ≤ MAX_PUT_DISK_QUEUE →
  ∃ c' d', PutDisk c d n b len = Done (c', d') ∧ disk_ok d' ∧
    GetTempDiskCache c' n = Some {| cv_pBlock := slice b 0 (Z.to_nat len); cv_block_length := len; cv_ref_count := 1 |} ∧
    (∀ b2 len2, PutDisk c' d' n b2 len2 = Done (c', d')) ∧
    ∃ c'', PutDone c' n = Done c'' ∧ GetTempDiskCache c'' n = None ∧
      ∀ n', n' ≠ n → GetTempDiskCache c'' n' = GetTempDiskCache c n'.
Proof.
  intros Hp Hok Hb Hn Hl Hm Hname Hsha Hq. unfold PutDisk, GetTempDiskCache.
  destruct (PutTempDiskCache_ok c P n b len Hp Hn Hl Hm) as (ht & He & Hp').
  rewrite (tbl_search_ok _ _ _ (proj1 Hp)), Hn, (proj2 (Z.ltb_ge _ _)) by done. rewrite He. cbn [mbind outcome_bind].
  assert (∃ ti, CreateCacheTransactionInfo hc_put ps_none (-1) n len (Some b) NoSource NoOpaque = Done ti ∧
    trans_ok ti) as (ti & Hti & Htok).
  { unfold CreateCacheTransactionInfo. cbn [mbind outcome_bind]. rewrite load_Done by lia. cbn [mbind outcome_bind].
    rewrite (proj2 (Z.ltb_lt _ _)) by lia. cbn [c_assert mbind outcome_bind]. rewrite load_Done by lia.
    cbn [fmap outcome_fmap mbind outcome_bind]. eexists. split; [done|]. split; cbn; [|split; [lia|by eexists]].
    rewrite length_slice by lia. done. }
  unfold SendCacheRequest. rewrite Hti. cbn [mbind outcome_bind].
  destruct (ScheduleCacheRequest_ok d ti true Hok Htok Hb) as (Hok1 & _).
  destruct (IssuePendingCacheRequests_ok _ Hok1) as (d' & Hd & Hok' & _). rewrite Hd. cbn [mbind outcome_bind].
  exists (set_put_tmp ht c), d'.
  assert (tbl_search (put_tmp_ht (set_put_tmp ht c)) n =
    Some {| cv_pBlock := slice b 0 (Z.to_nat len); cv_block_length := len; cv_ref_count := 1 |}) as Hs.
  { by rewrite (tbl_search_ok _ _ _ (proj1 Hp')), lookup_insert_eq. }
  split_and!; [done|done|done| |].
  - intros b2 len2. by rewrite Hs.
  - destruct (PutDone_ok _ _ n Hp') as (c'' & Hc & Hp''). exists c''. split; [done|].
    rewrite (tbl_search_ok _ _ _ (proj1 Hp'')), lookup_delete_eq. split; [done|].
    intros n' Hne. rewrite (tbl_search_ok _ _ _ (proj1 Hp'')), (tbl_search_ok _ _ _ (proj1 Hp)).
    by rewrite lookup_delete_ne, lookup_insert_ne.
Qed.

Lemma PutDisk_until_PutDone_witness :
  ∃ (c c' : cache (@hashtable (list Z) Z) (@hashtable (list Z) CacheValue)) d',
    CreateCache 1000 = Done c ∧ PutDisk c toy_disk [1; 171] [7; 8; 9] 3 = Done (c', d') ∧
    GetTempDiskCache c' [1; 171] = Some {| cv_pBlock := [7; 8; 9]; cv_block_length := 3; cv_ref_count := 1 |}.
Proof.
  destruct (CreateCache_ok 1000) as (c & Hc & He).
  destruct (PutDisk_until_PutDone c toy_disk ∅ [1; 171] [7; 8; 9] 3) as (c' & d' & H1 & _ & H2 & _).
  - split; [exact (ce_put_tmp _ _ He)|]. intros n v Hv. rewrite lookup_empty in Hv. discriminate.
  - exact toy_disk_ok.
  - vm_compute. reflexivity.
  - reflexivity.
  - cbn. lia.
  - unfold MAX_CHUNK_SIZE. lia.
  - cbn. lia.
  - vm_compute. lia.
  - vm_compute. discriminate.
  - exists c, c', d'. split; [exact Hc|]. split; [exact H1|exact H2].
Defined.
