(* ===== verification/Node.v ===== *)
(** * The node: exchange of chunks between proxies

    Models the handlers of [src/waprox/waprox.c] for the messages between
    proxies about chunks: body requests and responses, peek requests, puts.
    They compose the cache, the peers, the requests in flight and the disk
    client.  What is written to a connection between proxies is collected;
    sending it is I/O.  The global statistics are not modelled. *)

From Stdlib Require Import ZArith Lia.
From stdpp Require Import base list option numbers gmap.
From S2P Require Import Prelude Bytes Rabin Mrc Hashtable Protocol ChunkCache Hrw Peer.
From S2P Require Import ChunkRequest Disk.

(** What the node gets from its environment and its configuration: the
    rotation of 32-bit words of the platform, the time, the sockets that
    [MakeConnection] returns, the contents of fresh memory; one reading of the
    clock is used for the handling of one message. *)
Record Env := {
  ev_rotl : Z → Z → Z;
  ev_now : Z;
  ev_connect : nat → nat → Z;
  ev_mem : nat → Z;
  ev_MaxPeerConns : Z;
  ev_MemCacheOnly : bool;
  ev_NoCache : bool
}.

(** A connection between proxies that carries chunks. *)
Record ChunkConnection := {
  ck_fd : Z;
  ck_peerIdx : Z
}.

(** A message handed to [SendDataPrivate]. *)
Record Sent := {
  sn_fd : Z;
  sn_msg : list Z;
  sn_len : Z;
  sn_streamID : Z
}.

Definition set_chunkCI (l : list (option Z)) (p : PeerInfo) : PeerInfo :=
  {| pi_idx := pi_idx p; pi_netAddr := pi_netAddr p; pi_isAlive := pi_isAlive p;
     pi_isLocalHost := pi_isLocalHost p; pi_lastPingTime := pi_lastPingTime p;
     pi_addrHash := pi_addrHash p; pi_numRedirected := pi_numRedirected p;
     pi_bytesRedirected := pi_bytesRedirected p; pi_RTT := pi_RTT p;
     pi_networkPendingBytes := pi_networkPendingBytes p;
     pi_diskPendingChunks := pi_diskPendingChunks p; pi_nameFlowID := pi_nameFlowID p;
     pi_chunkFlowID := pi_chunkFlowID p; pi_chunkCI := l |}.

Section node.
Context `{Digest} {HT VT AT CT PT : Type} `{!Table (list Z) Z HT} `{!Table (list Z) CacheValue VT}
  `{!Table (list Z) nat AT} `{!Table (list Z) (list ChunkRequestInfo) CT}
  `{!Table (list Z) (list PeekRequestInfo) PT}.
Context (env : Env).
#[local] Abbreviation cache := (cache HT VT).
#[local] Abbreviation peers := (peers AT).
#[local] Abbreviation requests := (requests CT PT).

Record node := {
  nd_cache : cache;
  nd_peers : peers;
  nd_requests : requests;
  nd_disk : disk;
  nd_sent : list Sent;
  nd_TryReconstruction : bool
}.

Definition set_cache (c : cache) (nd : node) : node :=
  {| nd_cache := c; nd_peers := nd_peers nd; nd_requests := nd_requests nd; nd_disk := nd_disk nd;
     nd_sent := nd_sent nd; nd_TryReconstruction := nd_TryReconstruction nd |}.
Definition set_peers' (ps : peers) (nd : node) : node :=
  {| nd_cache := nd_cache nd; nd_peers := ps; nd_requests := nd_requests nd; nd_disk := nd_disk nd;
     nd_sent := nd_sent nd; nd_TryReconstruction := nd_TryReconstruction nd |}.
Definition set_requests (rq : requests) (nd : node) : node :=
  {| nd_cache := nd_cache nd; nd_peers := nd_peers nd; nd_requests := rq; nd_disk := nd_disk nd;
     nd_sent := nd_sent nd; nd_TryReconstruction := nd_TryReconstruction nd |}.
Definition set_disk (d : disk) (nd : node) : node :=
  {| nd_cache := nd_cache nd; nd_peers := nd_peers nd; nd_requests := nd_requests nd; nd_disk := d;
     nd_sent := nd_sent nd; nd_TryReconstruction := nd_TryReconstruction nd |}.
Definition add_sent (s : Sent) (nd : node) : node :=
  {| nd_cache := nd_cache nd; nd_peers := nd_peers nd; nd_requests := nd_requests nd; nd_disk := nd_disk nd;
     nd_sent := nd_sent nd ++ [s]; nd_TryReconstruction := nd_TryReconstruction nd |}.
Definition try_reconstruction (nd : node) : node :=
  {| nd_cache := nd_cache nd; nd_peers := nd_peers nd; nd_requests := nd_requests nd; nd_disk := nd_disk nd;
     nd_sent := nd_sent nd; nd_TryReconstruction := true |}.

(** A change of one peer; an index out of the array is undefined. *)
Definition update_peer (idx : Z) (f : PeerInfo → PeerInfo) (nd : node) : outcome node :=
  _ ← (if 0 <=? idx then Done tt else Fault OutOfBounds);
  l ← update (g_PeerInfo (nd_peers nd)) (Z.to_nat idx) f;
  Done (set_peers' (set_peers l (g_NumLivePeers (nd_peers nd)) (nd_peers nd)) nd).

(** ** Sending *)

(** The loop that makes the connections of a peer. *)
Definition connect_flow (peerIdx : nat) (l : list (option Z)) (i : nat) : outcome (list (option Z)) :=
  ci ← get l i;
  match ci with
  | Some _ => Done l
  | None =>
      let peerfd := ev_connect env peerIdx i in
      if peerfd =? -1 then Fault NiceExit else put l i (Some peerfd)
  end.

Definition WriteToChunkPeer (nd : node) (peerIdx : Z) (msg : list Z) (len streamID : Z) : outcome node :=
  _ ← c_assert (negb (peerIdx =? -1));
  _ ← c_assert (0 <? len);
  p ← get_at (g_PeerInfo (nd_peers nd)) peerIdx;
  first ← get (pi_chunkCI p) 0;
  nd ← match first with
       | Some _ => Done nd
       | None =>
           l ← foldM (connect_flow (Z.to_nat peerIdx)) (pi_chunkCI p) (seq 0 (Z.to_nat (ev_MaxPeerConns env)));
           update_peer peerIdx (set_chunkCI l) nd
       end;
  '(ps, flowID) ← GetNextChunkFlowID (ev_MaxPeerConns env) (nd_peers nd) peerIdx;
  p ← get_at (g_PeerInfo ps) peerIdx;
  ci ← get_at (pi_chunkCI p) flowID;
  match ci with
  | None => Fault OutOfBounds
  | Some fd =>
      ps ← UpdatePeerLiveness (ev_now env) ps (Z.to_nat peerIdx);
      Done (add_sent {| sn_fd := fd; sn_msg := msg; sn_len := len; sn_streamID := streamID |}
              (set_peers' ps nd))
  end.

(** The peer of an address; [NULL] is dereferenced when there is none. *)
Definition peer_by_addr (nd : node) (addr : list Z) : outcome nat :=
  match GetPeerInfoByAddr (nd_peers nd) addr with Some i => Done i | None => Fault OutOfBounds end.

(** ** Requests of other proxies *)

Definition PostProcessBodyRequest (nd : node) (ci : ChunkConnection) (isHit : bool)
    (request : WAOneRequest) (prevPxyAddr : list Z) (block : list Z) : outcome node :=
  let block_length := i32 (wr_length request) in
  _ ← c_assert (0 <? block_length);
  if isHit then
    block ← load block 0 (Z.to_nat block_length);
    response ← BuildWABodyResponse (ev_mem env) (wr_sha1name request) block;
    WriteToChunkPeer nd (ck_peerIdx ci) response (Z.of_nat (length response)) (ck_fd ci)
  else
    if bool_decide (GetPeerInfoByAddr (nd_peers nd) (wr_orgPxyAddr request) = g_LocalInfo (nd_peers nd))
    then Done nd
    else
      msg ← BuildWABodyRequest (ev_mem env) (wr_orgPxyAddr request) (wr_sha1name request) block_length;
      pi ← peer_by_addr nd (wr_orgPxyAddr request);
      p ← get (g_PeerInfo (nd_peers nd)) pi;
      nd ← WriteToChunkPeer nd (pi_idx p) msg (Z.of_nat (length msg)) (ck_fd ci);
      '(rq, ps) ← PutChunkRequest (nd_requests nd) (nd_peers nd) (wr_sha1name request)
                    {| srcIP := 0; srcPort := 0; dstIP := 0; dstPort := 0 |} true prevPxyAddr
                    block_length (pi_idx p) true;
      Done (set_requests rq (set_peers' ps nd)).

Definition read_request (buffer : list Z) (offset : nat) : outcome WAOneRequest :=
  addr ← load buffer offset 4;
  name ← load buffer (offset + 4) SHA1_LEN;
  len ← ntohl_at buffer (offset + 4 + SHA1_LEN);
  Done {| wr_orgPxyAddr := addr; wr_sha1name := name; wr_length := len |}.

(** The look-up in the temporary caches: a chunk of a put in progress is copied
    to the temporary cache. *)
Definition lookup_temp (nd : node) (sha1name : list Z) : outcome (node * option CacheValue) :=
  match SearchCache (nd_cache nd) sha1name with
  | Some v => Done (nd, Some v)
  | None =>
      match GetTempDiskCache (nd_cache nd) sha1name with
      | None => Done (nd, None)
      | Some v =>
          c ← RefPutChunkCallback (nd_cache nd) sha1name (cv_pBlock v) (cv_block_length v);
          match SearchCache c sha1name with
          | Some v => Done (set_cache c nd, Some v)
          | None => Fault AssertFailed
          end
      end
  end.

Definition ProcessOneBodyRequest (nd : node) (ci : ChunkConnection) (req : WAOneRequest) : outcome node :=
  let length_ := i32 (wr_length req) in
  _ ← c_assert (negb (ck_peerIdx ci =? -1));
  p ← get_at (g_PeerInfo (nd_peers nd)) (ck_peerIdx ci);
  let prev := pi_netAddr p in
  '(nd, pValue) ← lookup_temp nd (wr_sha1name req);
  match pValue with
  | Some v =>
      _ ← c_assert (cv_block_length v =? u32 length_);
      PostProcessBodyRequest nd ci true req prev (cv_pBlock v)
  | None =>
      if ev_MemCacheOnly env then
        match GetMemory (nd_cache nd) (wr_sha1name req) with
        | Some v =>
            _ ← c_assert (cv_block_length v =? u32 length_);
            PostProcessBodyRequest nd ci true req prev (cv_pBlock v)
        | None => PostProcessBodyRequest nd ci false req prev []
        end
      else
        d ← SendCacheRequest (nd_disk nd) hc_get ps_bodyRequest (wr_sha1name req) length_ None (-1)
              (ChunkSource (ck_fd ci) (ck_peerIdx ci)) (ChunkRequestOpaque req prev);
        Done (set_disk d nd)
  end.

(** A message whose entries have a fixed size: [numRequests] is at offset 7. *)
Definition message_count (buffer : list Z) : outcome (Z * nat) :=
  tot_len ← ntohl_at buffer 2;
  _ ← c_assert (i32 tot_len <=? Z.of_nat (length buffer));
  n ← ntohl_at buffer 7;
  _ ← c_assert (1 <=? i32 n);
  Done (i32 tot_len, Z.to_nat (i32 n)).

Definition ProcessBodyRequest (nd : node) (ci : ChunkConnection) (buffer : list Z) : outcome (node * Z) :=
  '(tot_len, numRequests) ← message_count buffer;
  nd ← foldM (λ nd i,
      req ← read_request buffer (sizeof_WABodyRequest + i * sizeof_WAOneRequest);
      ProcessOneBodyRequest nd ci req) nd (seq 0 numRequests);
  Done (nd, tot_len).

(** [isHit] as the byte that is sent. *)
Definition PostProcessPeekRequest (nd : node) (ci : ChunkConnection) (isHit : bool) (sha1name : list Z)
    : outcome node :=
  '(response, res_len) ← BuildWAPeekResponse (ev_mem env) sha1name (Z.b2z isHit);
  WriteToChunkPeer nd (ck_peerIdx ci) response res_len (ck_fd ci).

Definition ProcessOnePeekLookup (nd : node) (ci : ChunkConnection) (sha1name : list Z) : outcome node :=
  _ ← c_assert (negb (ck_peerIdx ci =? -1));
  match SearchCache (nd_cache nd) sha1name with
  | Some _ => PostProcessPeekRequest nd ci true sha1name
  | None =>
      if ev_MemCacheOnly env then
        PostProcessPeekRequest nd ci (bool_decide (is_Some (GetMemory (nd_cache nd) sha1name))) sha1name
      else
        d ← SendCacheRequest (nd_disk nd) hc_peek ps_peekRequest sha1name 0 None (-1)
              (ChunkSource (ck_fd ci) (ck_peerIdx ci)) (PeekRequestOpaque sha1name);
        Done (set_disk d nd)
  end.

Definition ProcessPeekRequest (nd : node) (ci : ChunkConnection) (buffer : list Z) : outcome (node * Z) :=
  '(tot_len, numRequests) ← message_count buffer;
  nd ← foldM (λ nd i,
      name ← load buffer (sizeof_WAPeekRequest + i * sizeof_WAOnePeekRequest) SHA1_LEN;
      ProcessOnePeekLookup nd ci name) nd (seq 0 numRequests);
  Done (nd, tot_len).

(** ** Puts *)

(** A chunk is put in the memory cache or on disk. *)
Definition put_chunk (nd : node) (sha1name block : list Z) (blength : Z) : outcome node :=
  if ev_MemCacheOnly env then
    c ← PutMemory (nd_cache nd) sha1name block blength;
    Done (set_cache c nd)
  else
    '(c, d) ← PutDisk (nd_cache nd) (nd_disk nd) sha1name block blength;
    Done (set_disk d (set_cache c nd)).

(** The loop over the puts of a message: the node and the offset. *)
Definition process_put (ci : ChunkConnection) (buffer : list Z) (st : node * nat) (_ : nat)
    : outcome (node * nat) :=
  let '(nd, offset) := st in
  name ← load buffer offset SHA1_LEN;
  len ← ntohl_at buffer (offset + SHA1_LEN);
  let blength := i32 len in
  _ ← (if 0 <=? blength then Done tt else Fault OutOfBounds);
  block ← load buffer (offset + sizeof_WAOnePutRequest) (Z.to_nat blength);
  nd ← put_chunk nd name block blength;
  response ← BuildWAPutResponse (ev_mem env) name;
  nd ← WriteToChunkPeer nd (ck_peerIdx ci) response (Z.of_nat (length response)) (ck_fd ci);
  Done (nd, (offset + sizeof_WAOnePutRequest + Z.to_nat blength)%nat).

Definition ProcessPutRequest (nd : node) (ci : ChunkConnection) (buffer : list Z) : outcome (node * Z) :=
  '(tot_len, numRequests) ← message_count buffer;
  '(nd, _) ← foldM (process_put ci buffer) (nd, sizeof_WAPutRequest) (seq 0 numRequests);
  Done (nd, tot_len).

Definition ProcessPutResponse (nd : node) (buffer : list Z) : outcome (node * Z) :=
  '(tot_len, numResponses) ← message_count buffer;
  c ← foldM (λ c i,
      name ← load buffer (sizeof_WAPutResponse + i * sizeof_WAOnePutResponse) SHA1_LEN;
      PutDone c name) (nd_cache nd) (seq 0 numResponses);
  Done (set_cache c nd, tot_len).

Definition DistributePutRequest (nd : node) (sha1name block : list Z) (length_ dstPxyId : Z) : outcome node :=
  '(ps, idx) ← PickPeerToRedirect (ev_rotl env) (nd_peers nd) sha1name;
  let nd := set_peers' ps nd in
  if idx =? -1 then Fault NiceExit
  else
    p ← get_at (g_PeerInfo (nd_peers nd)) idx;
    if pi_isLocalHost p || (idx =? dstPxyId) then put_chunk nd sha1name block length_
    else
      block ← load block 0 (Z.to_nat length_);
      request ← BuildWAPutRequest (ev_mem env) sha1name block;
      nd ← WriteToChunkPeer nd idx request (Z.of_nat (length request)) 0;
      match GetTempDiskCache (nd_cache nd) sha1name with
      | Some _ => Done nd
      | None =>
          c ← PutTempDiskCache (nd_cache nd) sha1name block length_;
          Done (set_cache c nd)
      end.

(** ** Responses *)

Definition ProcessOneChunkRequest (nd : node) (cri : ChunkRequestInfo) (sha1name block : list Z)
    (streamID : Z) : outcome node :=
  let blength := Z.of_nat (length block) in
  if cri_isRedirected cri then
    response ← BuildWABodyResponse (ev_mem env) sha1name block;
    pi ← peer_by_addr nd (cri_pxyAddr cri);
    p ← get (g_PeerInfo (nd_peers nd)) pi;
    nd ← WriteToChunkPeer nd (pi_idx p) response (Z.of_nat (length response)) streamID;
    if ev_NoCache env then Done nd else put_chunk nd sha1name block blength
  else
    c ← RefPutChunkCallback (nd_cache nd) sha1name block blength;
    let nd := try_reconstruction (set_cache c nd) in
    if cri_isNetwork cri then
      update_peer (cri_peerIdx cri) (λ p, set_load (pi_RTT p)
        (u32 (pi_networkPendingBytes p - cri_length cri)) (pi_diskPendingChunks p) p) nd
    else
      update_peer (cri_peerIdx cri) (λ p, set_load (pi_RTT p) (pi_networkPendingBytes p)
        (u32 (pi_diskPendingChunks p - 1)) p) nd.

(** The loop over the responses of a message: only the first request that waits
    for the chunk is processed. *)
Definition process_response (ci : ChunkConnection) (buffer : list Z) (st : node * nat) (_ : nat)
    : outcome (node * nat) :=
  let '(nd, resp) := st in
  name ← load buffer resp SHA1_LEN;
  block_length ← ntohl_at buffer (resp + SHA1_LEN);
  _ ← c_assert (0 <? block_length);
  block ← load buffer (resp + sizeof_WAOneResponse) (Z.to_nat block_length);
  let next := (resp + sizeof_WAOneResponse + Z.to_nat block_length)%nat in
  match GetChunkRequestList (nd_requests nd) name with
  | None =>
      c ← RefPutChunkCallback (nd_cache nd) name block block_length;
      Done (set_cache c nd, next)
  | Some l =>
      nd ← match l with
           | [] => Done nd
           | req_walk :: _ =>
               _ ← c_assert (u32 (cri_length req_walk) =? block_length);
               ProcessOneChunkRequest nd req_walk name block (ck_fd ci)
           end;
      rq ← DestroyChunkRequestList (nd_requests nd) name;
      _ ← c_assert (bool_decide (GetChunkRequestList rq name = None));
      Done (set_requests rq nd, next)
  end.

Definition ProcessBodyResponse (nd : node) (ci : ChunkConnection) (buffer : list Z) : outcome (node * Z) :=
  '(tot_len, numResponses) ← message_count buffer;
  '(nd, _) ← foldM (process_response ci buffer) (nd, sizeof_WABodyResponse) (seq 0 numResponses);
  Done (nd, tot_len).
End node.
Arguments node : clear implicits.
