(* ===== verification/NodeTheorems.v ===== *)
(** * The node: theorems

    What sending a message to another proxy changes, and the correctness of the
    handlers of [Node]: a chunk that one proxy asks another for arrives in the
    temporary cache of the first, directly or over the proxy that has it. *)

From Stdlib Require Import ZArith Lia.
From stdpp Require Import base list option numbers gmap.
From S2P Require Import Prelude Bytes Rabin Mrc Hashtable Protocol ChunkCache Hrw Peer.
From S2P Require Import Reassemble Receiver ChunkRequest Disk Node.

(** ** Sending to a peer *)

(** What sending keeps of a peer. *)
Record same_peer (p p' : PeerInfo) : Prop := {
  sp_idx : pi_idx p' = pi_idx p;
  sp_addr : pi_netAddr p' = pi_netAddr p;
  sp_local : pi_isLocalHost p' = pi_isLocalHost p;
  sp_hash : pi_addrHash p' = pi_addrHash p;
  sp_load : pi_networkPendingBytes p' = pi_networkPendingBytes p ∧
            pi_diskPendingChunks p' = pi_diskPendingChunks p;
  sp_alive : pi_isAlive p = true → pi_isAlive p' = true
}.

#[export] Instance same_peer_preorder : PreOrder same_peer.
Proof.
  split; [by intros p; split|]. intros p q r [H1 H2 H3 H4 [H5 H6] H7] [K1 K2 K3 K4 [K5 K6] K7].
  split; [congruence..| |tauto]. split; congruence.
Qed.

Section sending.
Context `{Digest} {HT VT AT CT PT : Type} `{!Table (list Z) Z HT} `{!Table (list Z) CacheValue VT}
  `{!Table (list Z) nat AT} `{!Table (list Z) (list ChunkRequestInfo) CT}
  `{!Table (list Z) (list PeekRequestInfo) PT}.
Context (env : Env).
#[local] Abbreviation node := (node HT VT AT CT PT).
#[local] Abbreviation m := (ev_MaxPeerConns env).

Record same_peers (ps ps' : peers AT) : Prop := {
  ss_num : g_NumPeers ps' = g_NumPeers ps;
  ss_local : g_LocalInfo ps' = g_LocalInfo ps;
  ss_first : g_FirstPeerIdx ps' = g_FirstPeerIdx ps;
  ss_map : peerAddrMap ps' = peerAddrMap ps;
  ss_peer : ∀ i p, g_PeerInfo ps !! i = Some p → ∃ p', g_PeerInfo ps' !! i = Some p' ∧ same_peer p p'
}.

#[export] Instance same_peers_preorder : PreOrder same_peers.
Proof.
  split.
  - intros ps. split; [done..|]. intros i p Hp. exists p. by split.
  - intros ps1 ps2 ps3 [H1 H2 H3 H4 H5] [K1 K2 K3 K4 K5]. split; [congruence..|].
    intros i p Hp. destruct (H5 _ _ Hp) as (p2 & Hp2 & S2). destruct (K5 _ _ Hp2) as (p3 & Hp3 & S3).
    exists p3. split; [done|]. by etrans.
Qed.

(** The environment can make connections, and the flows of the peers are used
    in their range. *)
Record net_ok (ps : peers AT) : Prop := {
  no_peers : peers_ok ps;
  no_live : g_NumLivePeers ps ≤ live_peers ps;
  no_range : 0 < m ≤ Z.of_nat MAX_PER_PEER_CONNS;
  no_flows : ∀ i p, g_PeerInfo ps !! i = Some p →
    length (pi_chunkCI p) = MAX_PER_PEER_CONNS ∧ 0 ≤ pi_chunkFlowID p < m;
  no_connect : ∀ i j, ev_connect env i j ≠ -1
}.

Lemma connect_ok (i : nat) (l : list (option Z)) n :
  (∀ i j, ev_connect env i j ≠ -1) → (n ≤ length l)%nat →
  ∃ l', foldM (connect_flow env i) l (seq 0 n) = Done l' ∧ length l' = length l ∧
    ∀ e, (e < n)%nat → ∃ fd, l' !! e = Some (Some fd).
Proof.
  intros Hc Hn. destruct (foldM_total (connect_flow env i)
    (λ done l', length l' = length l ∧ ∀ e, e ∈ done → ∃ fd, l' !! e = Some (Some fd)) l (seq 0 n))
    as (l' & He & Hl & Hs).
  - split; [done|]. intros e He. by apply elem_of_nil in He.
  - intros l1 a l2 s Hsplit [Hl Hs]. assert (a < n)%nat as Ha.
    { apply elem_of_seq_iff with (a := 0%nat) (n := n). rewrite Hsplit. set_solver. }
    destruct (lookup_lt_is_Some_2 s a) as [ci Hci]; [lia|]. unfold connect_flow.
    rewrite (proj2 (get_Done _ _ _) Hci). cbn [mbind outcome_bind]. destruct ci as [fd|].
    + exists s. split_and!; [done|done|]. intros e [He| ->%list_elem_of_singleton]%elem_of_app; eauto.
    + rewrite (proj2 (Z.eqb_neq _ _)) by apply Hc. exists (<[a := Some (ev_connect env i a)]> s).
      split_and!; [|by rewrite length_insert|].
      * apply put_Done. split; [by apply lookup_lt_Some in Hci|done].
      * intros e He. destruct (decide (a = e)) as [->|Hne].
        -- eexists. apply list_lookup_insert_eq. by apply lookup_lt_Some in Hci.
        -- rewrite list_lookup_insert_ne by done.
           apply elem_of_app in He as [He| ->%list_elem_of_singleton]; [eauto|done].
  - exists l'. split_and!; [done|done|]. intros e Hlt. apply Hs. apply elem_of_seq_iff. lia.
Qed.

(** A change of one peer that keeps its index, its liveness and its flows. *)
Lemma net_ok_update ps (i : nat) p p' :
  net_ok ps → g_PeerInfo ps !! i = Some p → Z.of_nat i < g_NumPeers ps →
  pi_idx p' = pi_idx p → pi_isAlive p' = pi_isAlive p →
  length (pi_chunkCI p') = MAX_PER_PEER_CONNS → 0 ≤ pi_chunkFlowID p' < m →
  net_ok (set_peers (<[i := p']> (g_PeerInfo ps)) (g_NumLivePeers ps) ps).
Proof.
  intros [Hok Hlive Hr Hf Hc] Hp Hi Hx Ha Hl Hfl. split; [|  | done | | done].
  - apply peers_ok_set; [done|by rewrite length_insert|]. intros k q Hq.
    apply list_lookup_insert_Some in Hq as [(<- & <- & _)|[Hne Hq]]; [|by exists q].
    exists p. split_and!; [done|done|lia].
  - unfold live_peers, count_peers in *. cbn. rewrite <-(list_insert_id (g_PeerInfo ps) i p Hp) in Hlive.
    rewrite !list_fmap_insert in *. by rewrite Ha.
  - intros k q Hq. apply list_lookup_insert_Some in Hq as [(<- & <- & _)|[Hne Hq]]; [done|eauto].
Qed.

(** A change of one peer that keeps what [same_peer] says. *)
Lemma net_ok_set ps (i : nat) p p' :
  net_ok ps → g_PeerInfo ps !! i = Some p → Z.of_nat i < g_NumPeers ps → same_peer p p' →
  pi_isAlive p' = pi_isAlive p →
  length (pi_chunkCI p') = MAX_PER_PEER_CONNS → 0 ≤ pi_chunkFlowID p' < m →
  let ps' := set_peers (<[i := p']> (g_PeerInfo ps)) (g_NumLivePeers ps) ps in
  net_ok ps' ∧ same_peers ps ps'.
Proof.
  intros Hok Hp Hi Hs Ha Hl Hfl ps'. split; [eapply net_ok_update; eauto; by apply Hs|].
  split; cbn; try done. intros k q Hq. destruct (decide (k = i)) as [->|Hne].
  - exists p'. rewrite list_lookup_insert_eq by eauto using lookup_lt_Some. simplify_eq. done.
  - exists q. rewrite list_lookup_insert_ne by done. by split.
Qed.

Lemma peer_bound ps (i : nat) p : peers_ok ps → g_PeerInfo ps !! i = Some p → (i < MAX_PEER_SIZE)%nat.
Proof. intros Hok Hp. rewrite <-(pk_len _ Hok). eauto using lookup_lt_Some. Qed.

Lemma next_chunk_flow_ok ps (i : nat) p fd0 :
  net_ok ps → g_PeerInfo ps !! i = Some p → Z.of_nat i < g_NumPeers ps →
  pi_chunkCI p !! 0%nat = Some (Some fd0) →
  ∃ flow fd, GetNextChunkFlowID m ps (Z.of_nat i) =
      Done (set_peers (<[i := set_flows (pi_nameFlowID p) (Z.of_nat flow) p]> (g_PeerInfo ps)) (g_NumLivePeers ps) ps,
            Z.of_nat flow) ∧
    Z.of_nat flow < m ∧ pi_chunkCI p !! flow = Some (Some fd).
Proof.
  intros [Hok Hlive Hr Hf Hc] Hp Hi H0. destruct (Hf _ _ Hp) as [Hl Hfl]. unfold MAX_PER_PEER_CONNS in *.
  unfold GetNextChunkFlowID. rewrite get_at_nat, (proj2 (get_Done _ _ _) Hp). cbn [mbind outcome_bind].
  destruct (next_flow_ok (Z.to_nat m) m (pi_chunkCI p) 0 (pi_chunkFlowID p)) as (d & Hd & -> & Hn & Hor); [lia|lia|lia|].
  assert ((∃ fd, pi_chunkCI p !! Z.to_nat (flow_after m (pi_chunkFlowID p) d) = Some (Some fd)) ∧ 0 < d) as [[fd Hfd] Hd0].
  { destruct Hor as [?|[-> Hno]]; [done|]. exfalso.
    set (e := if decide (pi_chunkFlowID p = 0) then m else m - pi_chunkFlowID p).
    assert (0 < e ≤ m) as He by (subst e; case_decide; lia).
    assert (flow_after m (pi_chunkFlowID p) e = 0) as Hz.
    { unfold flow_after. subst e. case_decide as E; [rewrite E, Z.add_0_l; apply Z_mod_same_full|].
      rewrite Zplus_minus. apply Z_mod_same_full. }
    specialize (Hno e ltac:(lia)). rewrite Hz in Hno. change (Z.to_nat 0) with 0%nat in Hno. congruence. }
  cbn [mbind outcome_bind]. rewrite Nat2Z.id, (update_ok _ _ _ _ Hp). cbn [mbind outcome_bind].
  rewrite decide_False by lia.
  pose proof (Z.mod_pos_bound (pi_chunkFlowID p + d) m ltac:(lia)) as Hb. fold (flow_after m (pi_chunkFlowID p) d) in Hb.
  rewrite (proj2 (Z.leb_le _ _)), (proj2 (Z.ltb_lt _ _)) by lia. cbn [andb c_assert mbind outcome_bind].
  unfold get_at. rewrite (proj2 (Z.ltb_ge _ _)), (proj2 (get_Done _ _ _) Hfd) by lia. cbn [mbind outcome_bind].
  rewrite bool_decide_eq_true_2 by done. cbn [c_assert mbind outcome_bind].
  exists (Z.to_nat (flow_after m (pi_chunkFlowID p) d)), fd. rewrite Z2Nat.id by lia. split_and!; [done|lia|done].
Qed.

(** A live peer is written to without changing anything but the flows, its
    liveness and, the first time, its connections. *)
Lemma WriteToChunkPeer_ok (nd : node) (i : nat) p msg len stream :
  net_ok (nd_peers nd) → g_PeerInfo (nd_peers nd) !! i = Some p → Z.of_nat i < g_NumPeers (nd_peers nd) → 0 < len →
  ∃ ps' fd, WriteToChunkPeer env nd (Z.of_nat i) msg len stream =
      Done (add_sent {| sn_fd := fd; sn_msg := msg; sn_len := len; sn_streamID := stream |} (set_peers' ps' nd)) ∧
    net_ok ps' ∧ same_peers (nd_peers nd) ps' ∧
    ∃ p' flow, g_PeerInfo ps' !! i = Some p' ∧ pi_chunkCI p' !! (flow : nat) = Some (Some fd) ∧ pi_isAlive p' = true.
Proof.
  intros Hok Hp Hi Hlen. destruct (no_flows _ Hok _ _ Hp) as [Hl Hfl]. pose proof (no_range _ Hok) as Hr.
  unfold WriteToChunkPeer. rewrite (proj2 (Z.eqb_neq _ _)), (proj2 (Z.ltb_lt _ _)) by lia.
  cbn [negb c_assert mbind outcome_bind]. rewrite get_at_nat, (proj2 (get_Done _ _ _) Hp). cbn [mbind outcome_bind].
  destruct (lookup_lt_is_Some_2 (pi_chunkCI p) 0) as [first Hfirst]; [rewrite Hl; unfold MAX_PER_PEER_CONNS; lia|].
  rewrite (proj2 (get_Done _ _ _) Hfirst). cbn [mbind outcome_bind].
  assert (∃ ps1 p1 fd0, (match first with
       | Some _ => Done nd
       | None =>
           l ← foldM (connect_flow env (Z.to_nat (Z.of_nat i))) (pi_chunkCI p) (seq 0 (Z.to_nat m));
           update_peer (Z.of_nat i) (set_chunkCI l) nd
       end) = Done (set_peers' ps1 nd) ∧ net_ok ps1 ∧ same_peers (nd_peers nd) ps1 ∧ g_PeerInfo ps1 !! i = Some p1 ∧
       pi_chunkCI p1 !! 0%nat = Some (Some fd0)) as (ps1 & p1 & fd0 & -> & Hok1 & Hs1 & Hp1 & Hc1).
  { destruct first as [fd|].
    - exists (nd_peers nd), p, fd. split_and!; [by destruct nd|done|by apply same_peers_preorder|done|done].
    - rewrite Nat2Z.id. destruct (connect_ok i (pi_chunkCI p) (Z.to_nat m) (no_connect _ Hok)) as (l & He & Hll & Hf); [lia|].
      rewrite He. cbn [mbind outcome_bind]. unfold update_peer. rewrite (proj2 (Z.leb_le _ _)) by lia.
      cbn [mbind outcome_bind]. rewrite Nat2Z.id, (update_ok _ _ _ _ Hp). cbn [mbind outcome_bind].
      destruct (Hf 0%nat) as [fd Hfd]; [lia|].
      destruct (net_ok_set (nd_peers nd) i p (set_chunkCI l p)) as [H1 H2]; try done; [by cbn; rewrite Hll|].
      eexists _, (set_chunkCI l p), fd. split_and!; [done|done|done| |done].
      cbn. apply list_lookup_insert_eq. eauto using lookup_lt_Some. }
  cbn [mbind outcome_bind set_peers' nd_peers].
  assert (Z.of_nat i < g_NumPeers ps1) as Hi1 by (rewrite (ss_num _ _ Hs1); done).
  destruct (next_chunk_flow_ok ps1 i p1 fd0 Hok1 Hp1 Hi1 Hc1) as (flow & fd & -> & Hflow & Hfd).
  cbn [mbind outcome_bind]. set (p2 := set_flows (pi_nameFlowID p1) (Z.of_nat flow) p1).
  destruct (no_flows _ Hok1 _ _ Hp1) as [Hl1 _].
  destruct (net_ok_set ps1 i p1 p2) as [Hok2 Hs2]; try done; [cbn; lia|].
  set (ps2 := set_peers (<[i := p2]> (g_PeerInfo ps1)) (g_NumLivePeers ps1) ps1) in *.
  assert (g_PeerInfo ps2 !! i = Some p2) as Hp2 by (apply list_lookup_insert_eq; eauto using lookup_lt_Some).
  rewrite !get_at_nat, (proj2 (get_Done _ _ _) Hp2). cbn [mbind outcome_bind]. rewrite get_at_nat.
  change (pi_chunkCI p2) with (pi_chunkCI p1). rewrite (proj2 (get_Done _ _ _) Hfd). cbn [mbind outcome_bind].
  destruct (UpdatePeerLiveness_ok (ev_now env) ps2 i p2 (no_peers _ Hok2) Hp2 Hi1 (no_live _ Hok2)) as (Hu & Hpk & Hcnt).
  rewrite Nat2Z.id, Hu. cbn [mbind outcome_bind]. eexists _, fd. split; [done|].
  set (p3 := set_ping_time (ev_now env) (set_alive true p2)) in *. split_and!.
  - split; [done| |done| |by apply Hok2].
    + unfold live_peers. cbn [set_peers g_PeerInfo g_NumLivePeers]. rewrite Hcnt. pose proof (no_live _ Hok2). lia.
    + intros k q Hq. cbn in Hq. apply list_lookup_insert_Some in Hq as [(<- & <- & _)|[Hne Hq]].
      * split; [done|cbn; lia].
      * by apply (no_flows _ Hok2 k).
  - etrans; [exact Hs1|]. etrans; [exact Hs2|]. split; cbn; try done. intros k q Hq.
    destruct (decide (k = i)) as [->|Hne].
    + exists p3. rewrite list_lookup_insert_eq by eauto using lookup_lt_Some. split; [done|].
      change (g_PeerInfo ps2 !! i = Some q) in Hq. assert (q = p2) as -> by congruence. by split.
    + exists q. rewrite list_lookup_insert_ne by done. by split.
  - exists p3, flow. split_and!; [|done|done]. cbn. apply list_lookup_insert_eq. eauto using lookup_lt_Some.
Qed.
End sending.

(** ** Reading the messages *)

Section messages.
Context `{Digest}.

Definition body_request (addr name : list Z) (len : Z) : list Z :=
  chunk_header TYPE_WABODYREQUEST (Z.of_nat (11 + (4 + SHA1_LEN + 4))) ++
  be 1 MAGIC_WABODYREQUEST ++ be 4 1 ++ addr ++ name ++ be 4 len.
Definition body_response (name block : list Z) : list Z :=
  chunk_header TYPE_WABODYRESPONSE (Z.of_nat (11 + (SHA1_LEN + 4) + length block)) ++
  be 1 MAGIC_WABODYRESPONSE ++ be 4 1 ++ name ++ be 4 (Z.of_nat (length block)) ++ block.

(** A message of a chunk connection with one entry. *)
Lemma message_count_one t magic body :
  Z.of_nat (11 + length body) < 2 ^ 31 →
  message_count (chunk_header t (Z.of_nat (11 + length body)) ++ be 1 magic ++ be 4 1 ++ body) =
    Done (Z.of_nat (11 + length body), 1%nat).
Proof.
  intros Hl. unfold message_count, chunk_header.
  rewrite <-(app_assoc (be 1 MAGIC_WAHEADER)), <-(app_assoc (be 1 t)), (app_assoc (be 1 MAGIC_WAHEADER)).
  rewrite (ntohl_mid _ (be 4 (Z.of_nat (11 + length body))) _ 2%nat (Z.of_nat (11 + length body)));
    [|done|done|lia].
  cbn [mbind outcome_bind]. rewrite i32_id by lia. rewrite !length_app, !length_be.
  rewrite (proj2 (Z.leb_le _ _)) by lia. cbn [c_assert mbind outcome_bind].
  rewrite <-!app_assoc. rewrite (app_assoc (be 1 t)), (app_assoc (be 1 MAGIC_WAHEADER)), (app_assoc _ (be 1 magic)).
  rewrite (ntohl_mid _ (be 4 1) _ 7%nat 1);
    [|done|by rewrite ?length_app, ?length_be|lia].
  cbn [mbind outcome_bind]. done.
Qed.

Lemma read_request_at p addr name len r :
  length addr = 4%nat → length name = SHA1_LEN → 0 ≤ len < 2 ^ 32 →
  read_request (p ++ addr ++ name ++ be 4 len ++ r) (length p) =
    Done {| wr_orgPxyAddr := addr; wr_sha1name := name; wr_length := len |}.
Proof.
  intros Ha Hn Hl. unfold read_request. rewrite (load_mid p addr _ (length p) 4) by done. cbn [mbind outcome_bind].
  rewrite (app_assoc p addr), (load_mid (p ++ addr) name _ _ SHA1_LEN) by (rewrite ?length_app; lia). cbn [mbind outcome_bind].
  rewrite (app_assoc (p ++ addr) name), (ntohl_mid _ (be 4 len) _ _ len); [done|done|by rewrite ?length_app; lia|done].
Qed.

Lemma length_body_request addr name len :
  length addr = 4%nat → length name = SHA1_LEN → length (body_request addr name len) = (19 + SHA1_LEN)%nat.
Proof.
  intros Ha Hn. unfold body_request. rewrite !length_app, length_chunk_header, !length_be. lia.
Qed.
Lemma length_body_response name block :
  length name = SHA1_LEN → length (body_response name block) = (15 + SHA1_LEN + length block)%nat.
Proof. intros Hn. unfold body_response. rewrite !length_app, length_chunk_header, !length_be. lia. Qed.
End messages.

Section reading.
Context `{Digest} {HT VT AT CT PT : Type} `{!Table (list Z) Z HT} `{!Table (list Z) CacheValue VT}
  `{!Table (list Z) nat AT} `{!Table (list Z) (list ChunkRequestInfo) CT}
  `{!Table (list Z) (list PeekRequestInfo) PT}.
Context (env : Env).
#[local] Abbreviation node := (node HT VT AT CT PT).

Lemma ProcessBodyRequest_one (nd : node) ci addr name len :
  length addr = 4%nat → length name = SHA1_LEN → 0 ≤ len < 2 ^ 32 → Z.of_nat SHA1_LEN < 2 ^ 30 →
  ProcessBodyRequest env nd ci (body_request addr name len) =
    (nd' ← ProcessOneBodyRequest env nd ci {| wr_orgPxyAddr := addr; wr_sha1name := name; wr_length := len |};
     Done (nd', Z.of_nat (length (body_request addr name len)))).
Proof.
  intros Ha Hn Hl Hs. unfold ProcessBodyRequest. rewrite (length_body_request _ _ _ Ha Hn). unfold body_request.
  pose proof (message_count_one TYPE_WABODYREQUEST MAGIC_WABODYREQUEST (addr ++ name ++ be 4 len)) as Hm.
  assert (length (addr ++ name ++ be 4 len) = (4 + SHA1_LEN + 4)%nat) as Hlb by (rewrite !length_app, length_be; lia).
  rewrite Hlb in Hm. rewrite Hm by lia. cbn [mbind outcome_bind seq foldM].
  rewrite (app_assoc (chunk_header _ _)), (app_assoc (chunk_header _ _ ++ _)).
  set (p := (chunk_header _ _ ++ _) ++ _).
  assert (length p = 11%nat) as Hp by (unfold p; rewrite !length_app, length_chunk_header, !length_be; done).
  pose proof (read_request_at p addr name len [] Ha Hn Hl) as Hr. rewrite app_nil_r, Hp in Hr.
  change (sizeof_WABodyRequest + 0 * sizeof_WAOneRequest)%nat with 11%nat. rewrite Hr. cbn [mbind outcome_bind].
  destruct (ProcessOneBodyRequest _ _ _ _); cbn [mbind outcome_bind]; [|done]. do 2 f_equal; lia.
Qed.

Lemma ProcessBodyResponse_one (nd : node) ci name block :
  length name = SHA1_LEN → 0 < Z.of_nat (length block) ≤ MAX_CHUNK_SIZE → Z.of_nat SHA1_LEN < 2 ^ 30 →
  ProcessBodyResponse env nd ci (body_response name block) =
    (nd' ← match GetChunkRequestList (nd_requests nd) name with
     | None =>
         c ← RefPutChunkCallback (nd_cache nd) name block (Z.of_nat (length block));
         Done (set_cache c nd)
     | Some l =>
         nd ← match l with
              | [] => Done nd
              | req_walk :: _ =>
                  _ ← c_assert (u32 (cri_length req_walk) =? Z.of_nat (length block));
                  ProcessOneChunkRequest env nd req_walk name block (ck_fd ci)
              end;
         rq ← DestroyChunkRequestList (nd_requests nd) name;
         _ ← c_assert (bool_decide (GetChunkRequestList rq name = None));
         Done (set_requests rq nd)
     end;
     Done (nd', Z.of_nat (length (body_response name block)))).
Proof.
  intros Hn Hl Hs. unfold MAX_CHUNK_SIZE in Hl. unfold ProcessBodyResponse.
  rewrite (length_body_response _ _ Hn). unfold body_response.
  pose proof (message_count_one TYPE_WABODYRESPONSE MAGIC_WABODYRESPONSE (name ++ be 4 (Z.of_nat (length block)) ++ block)) as Hm.
  assert (length (name ++ be 4 (Z.of_nat (length block)) ++ block) = (SHA1_LEN + 4 + length block)%nat) as Hlb
    by (rewrite !length_app, length_be; lia).
  rewrite Hlb in Hm. replace (11 + (SHA1_LEN + 4) + length block)%nat with (11 + (SHA1_LEN + 4 + length block))%nat by lia.
  rewrite Hm by lia. cbn [mbind outcome_bind seq foldM]. unfold process_response.
  rewrite (app_assoc (chunk_header _ _)), (app_assoc (chunk_header _ _ ++ _)).
  set (p := (chunk_header _ _ ++ _) ++ _).
  assert (length p = 11%nat) as Hp by (unfold p; rewrite !length_app, length_chunk_header, !length_be; done).
  change sizeof_WABodyResponse with 11%nat. rewrite (load_mid p name _ 11 SHA1_LEN) by done. cbn [mbind outcome_bind].
  rewrite (app_assoc p name). rewrite (ntohl_mid (p ++ name) (be 4 (Z.of_nat (length block))) _ _ (Z.of_nat (length block)));
    [|done|rewrite ?length_app; lia|lia].
  cbn [mbind outcome_bind]. rewrite (proj2 (Z.ltb_lt _ _)) by lia. cbn [c_assert mbind outcome_bind].
  rewrite Nat2Z.id, (app_assoc (p ++ name)).
  assert (load (((p ++ name) ++ be 4 (Z.of_nat (length block))) ++ block) (11 + sizeof_WAOneResponse) (length block) =
    Done block) as ->.
  { rewrite <-(app_nil_r block) at 2. apply load_mid; [|done].
    rewrite !length_app, length_be, Hp, Hn. unfold sizeof_WAOneResponse. lia. }
  cbn [mbind outcome_bind].
  destruct (GetChunkRequestList _ _) as [l|].
  - destruct (match l with [] => _ | _ => _ end) as [nd1|]; cbn [mbind outcome_bind]; [|done].
    destruct (DestroyChunkRequestList _ _) as [rq|]; cbn [mbind outcome_bind]; [|done].
    destruct (c_assert _); cbn [mbind outcome_bind]; [|done]. do 2 f_equal; lia.
  - destruct (RefPutChunkCallback _ _ _ _); cbn [mbind outcome_bind]; [|done]. do 2 f_equal; lia.
Qed.
End reading.

(** ** The handlers *)

Section handlers.
Context `{Digest} {HT VT AT CT PT : Type} `{!Table (list Z) Z HT} `{!Table (list Z) CacheValue VT}
  `{!Table (list Z) nat AT} `{!Table (list Z) (list ChunkRequestInfo) CT}
  `{!Table (list Z) (list PeekRequestInfo) PT}.
Context (env : Env).
#[local] Abbreviation node := (node HT VT AT CT PT).

(** A peer of the node. *)
Definition is_peer (nd : node) (i : nat) (p : PeerInfo) : Prop :=
  Z.of_nat i < g_NumPeers (nd_peers nd) ∧ g_PeerInfo (nd_peers nd) !! i = Some p.

(** The node finds the block of a name in the temporary cache or, when chunks
    are kept in memory only, in the memory cache. *)
Definition has_chunk (nd : node) (name block : list Z) : Prop :=
  ∃ v, cv_pBlock v = block ∧ cv_block_length v = Z.of_nat (length block) ∧
    (SearchCache (nd_cache nd) name = Some v ∨
     SearchCache (nd_cache nd) name = None ∧ GetTempDiskCache (nd_cache nd) name = None ∧
     ev_MemCacheOnly env = true ∧ GetMemory (nd_cache nd) name = Some v).

(** The node has the name nowhere in memory, and memory is its only cache. *)
Definition lacks_chunk (nd : node) (name : list Z) : Prop :=
  SearchCache (nd_cache nd) name = None ∧ GetTempDiskCache (nd_cache nd) name = None ∧
  ev_MemCacheOnly env = true ∧ GetMemory (nd_cache nd) name = None.

Lemma answer_hit (nd : node) ci i p req prev block :
  net_ok env (nd_peers nd) → ck_peerIdx ci = Z.of_nat i → is_peer nd i p →
  length (wr_sha1name req) = SHA1_LEN → wr_length req = Z.of_nat (length block) →
  0 < Z.of_nat (length block) ≤ MAX_CHUNK_SIZE →
  ∃ ps' fd, PostProcessBodyRequest env nd ci true req prev block =
      Done (add_sent {| sn_fd := fd; sn_msg := body_response (wr_sha1name req) block;
              sn_len := Z.of_nat (length (body_response (wr_sha1name req) block)); sn_streamID := ck_fd ci |}
            (set_peers' ps' nd)) ∧
    net_ok env ps' ∧ same_peers (nd_peers nd) ps'.
Proof.
  intros Hok Hci [Hi Hp] Hn Hl Hb. unfold MAX_CHUNK_SIZE in Hb. unfold PostProcessBodyRequest.
  rewrite Hl, i32_id, (proj2 (Z.ltb_lt _ _)) by lia. cbn [c_assert mbind outcome_bind].
  rewrite Nat2Z.id, load_Done by lia. cbn [mbind outcome_bind]. rewrite slice_full by done.
  rewrite BuildWABodyResponse_ok by (done || (intros ->; cbn in Hb; lia)). cbn [mbind outcome_bind].
  fold (body_response (wr_sha1name req) block). rewrite Hci.
  destruct (WriteToChunkPeer_ok env nd i p (body_response (wr_sha1name req) block)
    (Z.of_nat (length (body_response (wr_sha1name req) block))) (ck_fd ci) Hok Hp Hi) as (ps' & fd & He & Hok' & Hs & _).
  { rewrite length_body_response by done. lia. }
  exists ps', fd. done.
Qed.

Lemma ProcessOneBodyRequest_hit (nd : node) ci i p addr name block :
  net_ok env (nd_peers nd) → ck_peerIdx ci = Z.of_nat i → is_peer nd i p → has_chunk nd name block →
  length name = SHA1_LEN → 0 < Z.of_nat (length block) ≤ MAX_CHUNK_SIZE →
  ∃ ps' fd, ProcessOneBodyRequest env nd ci
      {| wr_orgPxyAddr := addr; wr_sha1name := name; wr_length := Z.of_nat (length block) |} =
      Done (add_sent {| sn_fd := fd; sn_msg := body_response name block;
              sn_len := Z.of_nat (length (body_response name block)); sn_streamID := ck_fd ci |}
            (set_peers' ps' nd)) ∧
    net_ok env ps' ∧ same_peers (nd_peers nd) ps'.
Proof.
  intros Hok Hci Hp (v & Hv1 & Hv2 & Hfind) Hn Hb. unfold MAX_CHUNK_SIZE in Hb.
  destruct (answer_hit nd ci i p {| wr_orgPxyAddr := addr; wr_sha1name := name;
    wr_length := Z.of_nat (length block) |} (pi_netAddr p) block Hok Hci Hp) as (ps' & fd & He & Hok' & Hs);
    [done|done|done|]. cbn [wr_sha1name] in He.
  exists ps', fd. split; [|done]. unfold ProcessOneBodyRequest. cbn [wr_length wr_sha1name].
  rewrite Hci, (proj2 (Z.eqb_neq _ _)) by lia. cbn [negb c_assert mbind outcome_bind].
  rewrite get_at_nat, (proj2 (get_Done _ _ _) (proj2 Hp)). cbn [mbind outcome_bind].
  rewrite (i32_id (Z.of_nat _)), (u32_id (Z.of_nat _)) by lia. unfold lookup_temp.
  destruct Hfind as [->|(-> & -> & -> & Hm)]; cbn [mbind outcome_bind]; [|rewrite Hm];
    rewrite Hv2, Z.eqb_refl, Hv1; cbn [c_assert mbind outcome_bind]; exact He.
Qed.

Lemma ProcessOneBodyRequest_miss (nd : node) ci i p o q addr name len Q :
  net_ok env (nd_peers nd) → ck_peerIdx ci = Z.of_nat i → is_peer nd i p → lacks_chunk nd name →
  GetPeerInfoByAddr (nd_peers nd) addr = Some o → is_peer nd o q → g_LocalInfo (nd_peers nd) ≠ Some o →
  length addr = 4%nat → length name = SHA1_LEN → 0 < len < 2 ^ 31 →
  requests_ok (nd_requests nd) Q → Z.of_nat (num_waiting Q) + 1 < 2 ^ 31 →
  ∃ ps' rq' fd, ProcessOneBodyRequest env nd ci {| wr_orgPxyAddr := addr; wr_sha1name := name; wr_length := len |} =
      Done (set_requests rq' (set_peers' ps' (add_sent {| sn_fd := fd; sn_msg := body_request addr name len;
              sn_len := Z.of_nat (length (body_request addr name len)); sn_streamID := ck_fd ci |}
            (set_peers' ps' nd)))) ∧
    requests_ok rq' (queue_put Q name {| cri_isRedirected := true; cri_pxyAddr := pi_netAddr p;
      cri_cid := {| srcIP := 0; srcPort := 0; dstIP := 0; dstPort := 0 |}; cri_length := len;
      cri_isNetwork := true; cri_peerIdx := Z.of_nat o |}) ∧
    net_ok env ps' ∧ peerAddrMap ps' = peerAddrMap (nd_peers nd) ∧ g_NumPeers ps' = g_NumPeers (nd_peers nd).
Proof.
  intros Hok Hci Hp (L1 & L2 & L3 & L4) Ho Hq Hloc Ha Hn Hl Hrq Hw.
  unfold ProcessOneBodyRequest. cbn [wr_length wr_sha1name].
  rewrite Hci, (proj2 (Z.eqb_neq _ _)) by lia. cbn [negb c_assert mbind outcome_bind].
  rewrite get_at_nat, (proj2 (get_Done _ _ _) (proj2 Hp)). cbn [mbind outcome_bind].
  unfold lookup_temp. rewrite L1, L2. cbn [mbind outcome_bind]. rewrite L3. cbn [nd_cache]. rewrite L4.
  unfold PostProcessBodyRequest. cbn [wr_length wr_sha1name wr_orgPxyAddr].
  rewrite i32_id, (proj2 (Z.ltb_lt _ _)) by lia. cbn [c_assert mbind outcome_bind].
  rewrite Ho, bool_decide_eq_false_2 by congruence. rewrite BuildWABodyRequest_ok by done. cbn [mbind outcome_bind].
  fold (body_request addr name len). unfold peer_by_addr. rewrite Ho. cbn [mbind outcome_bind].
  destruct Hq as [Hoi Hoq]. rewrite (proj2 (get_Done _ _ _) Hoq). cbn [mbind outcome_bind].
  rewrite (pk_idx _ (no_peers _ _ Hok) o q Hoi Hoq).
  destruct (WriteToChunkPeer_ok env nd o q (body_request addr name len)
    (Z.of_nat (length (body_request addr name len))) (ck_fd ci) Hok Hoq Hoi) as (ps1 & fd & He & Hok1 & Hs & _).
  { rewrite length_body_request by done. lia. }
  rewrite He. cbn [mbind outcome_bind nd_requests nd_peers add_sent set_peers'].
  destruct (ss_peer _ _ Hs _ _ Hoq) as (q1 & Hq1 & Hsq).
  destruct (PutChunkRequest_ok (nd_requests nd) ps1 Q name {| srcIP := 0; srcPort := 0; dstIP := 0; dstPort := 0 |}
    true (pi_netAddr p) len o q1 true Hrq Hq1 Hw) as (rq' & -> & Hrq'). cbn [mbind outcome_bind].
  set (ps2 := set_peers _ _ ps1). exists ps2, rq', fd. split_and!; [done|done| |by apply Hs|by apply Hs].
  destruct (no_flows _ _ Hok1 _ _ Hq1) as [F1 F2]. eapply net_ok_update; [done|exact Hq1| |done..].
  rewrite (ss_num _ _ Hs). lia.
Qed.

(** The load a response takes off the peer. *)
Definition sub_load (cri : ChunkRequestInfo) (p : PeerInfo) : PeerInfo :=
  if cri_isNetwork cri
  then set_load (pi_RTT p) (u32 (pi_networkPendingBytes p - cri_length cri)) (pi_diskPendingChunks p) p
  else set_load (pi_RTT p) (pi_networkPendingBytes p) (u32 (pi_diskPendingChunks p - 1)) p.

(** A response for which the first waiting request is the node's own. *)
Lemma ProcessBodyResponse_own (nd : node) ci name block cri l (j : nat) q Q R :
  requests_ok (nd_requests nd) Q → Q !! name = Some (cri :: l) →
  cri_isRedirected cri = false → cri_length cri = Z.of_nat (length block) →
  cri_peerIdx cri = Z.of_nat j → g_PeerInfo (nd_peers nd) !! j = Some q →
  tmp_is (nd_cache nd) R → Z.of_nat (ref_count R name) < 2 ^ 31 - 1 →
  length name = SHA1_LEN → 0 < Z.of_nat (length block) ≤ MAX_CHUNK_SIZE → Z.of_nat SHA1_LEN < 2 ^ 30 →
  ∃ ht rq', ProcessBodyResponse env nd ci (body_response name block) =
      Done (set_requests rq' (set_peers' (set_peers (<[j := sub_load cri q]> (g_PeerInfo (nd_peers nd)))
              (g_NumLivePeers (nd_peers nd)) (nd_peers nd))
              (try_reconstruction (set_cache (set_tmp ht (nd_cache nd)) nd))),
            Z.of_nat (length (body_response name block))) ∧
    tmp_is (set_tmp ht (nd_cache nd)) (ref_put R name block) ∧ requests_ok rq' (delete name Q).
Proof.
  intros Hrq HQ Hred Hlen Hj Hq Ht Href Hn Hb Hs. rewrite ProcessBodyResponse_one by done.
  unfold MAX_CHUNK_SIZE in Hb. unfold GetChunkRequestList at 1. rewrite (tbl_search_ok _ _ _ (ro_table _ _ Hrq)), HQ.
  rewrite Hlen, u32_id, Z.eqb_refl by lia. cbn [c_assert mbind outcome_bind].
  unfold ProcessOneChunkRequest. rewrite Hred.
  destruct (RefPutChunkCallback_ok (nd_cache nd) R name block (Z.of_nat (length block)) Ht) as (ht & -> & Ht');
    [lia|unfold MAX_CHUNK_SIZE; lia|done|].
  rewrite Nat2Z.id, slice_full in Ht' by done. cbn [mbind outcome_bind].
  assert (∀ f, update_peer (cri_peerIdx cri) f (try_reconstruction (set_cache (set_tmp ht (nd_cache nd)) nd)) =
    Done (set_peers' (set_peers (<[j := f q]> (g_PeerInfo (nd_peers nd)))
      (g_NumLivePeers (nd_peers nd)) (nd_peers nd)) (try_reconstruction (set_cache (set_tmp ht (nd_cache nd)) nd)))) as Hup.
  { intros f. unfold update_peer. rewrite Hj, (proj2 (Z.leb_le _ _)) by lia. cbn [mbind outcome_bind].
    rewrite Nat2Z.id. cbn [nd_peers try_reconstruction set_cache]. by rewrite (update_ok _ _ _ _ Hq). }
  destruct (DestroyChunkRequestList_ok (nd_requests nd) Q name (cri :: l) Hrq HQ) as (rq' & Hd & Hrq').
  exists ht, rq'. split_and!; [|done|done]. unfold sub_load.
  destruct (cri_isNetwork cri); rewrite Hup; cbn [mbind outcome_bind]; cbn [nd_requests set_peers' try_reconstruction set_cache];
    rewrite Hd; cbn [mbind outcome_bind]; unfold GetChunkRequestList;
    rewrite (tbl_search_ok _ _ _ (ro_table _ _ Hrq')), lookup_delete_eq, bool_decide_eq_true_2 by done; done.
Qed.
End handlers.

(** ** Theorems *)

(** *** Two nodes to start from *)

Definition toy_env : Env :=
  {| ev_rotl := toy_rotl; ev_now := 7; ev_connect := λ i j, Z.of_nat (100 + i * 10 + j);
     ev_mem := λ _, 0; ev_MaxPeerConns := 3; ev_MemCacheOnly := true; ev_NoCache := false |}.

Lemma toy_net_ok {AT : Type} `{!Table (list Z) nat AT} (map : AT) (m : gmap (list Z) nat) :
  tbl_is map m → (∀ a i, m !! a = Some i → (i < 3)%nat) → net_ok toy_env (toy_peers map true).
Proof.
  intros Hm Hi. split; [by eapply toy_peers_map_ok| | | |].
  - vm_compute. discriminate.
  - unfold MAX_PER_PEER_CONNS. cbn. lia.
  - intros i p Hp. cbn [toy_peers g_PeerInfo] in Hp. apply lookup_app_Some in Hp as [Hp|[_ Hp]].
    + destruct i as [|[|[|i]]]; cbn in Hp; [injection Hp as <-; split; [done|cbn; lia]..|done].
    + apply lookup_replicate in Hp as [-> _]. split; [done|cbn; lia].
  - intros i j. cbn. lia.
Qed.

Section theorems.
Context `{Digest} {HT VT AT CT PT : Type} `{!Table (list Z) Z HT} `{!Table (list Z) CacheValue VT}
  `{!Table (list Z) nat AT} `{!Table (list Z) (list ChunkRequestInfo) CT}
  `{!Table (list Z) (list PeekRequestInfo) PT}.
#[local] Abbreviation node := (node HT VT AT CT PT).

(** C13: two proxies exchange a chunk.  One asks the other for a chunk that the
    other has in memory; the request is answered with one message on a flow of
    the peer that asked, nothing else of the answering node's caches changes;
    and when that message arrives, the chunk has one more reference in the
    temporary cache of the asking node, under its name and with its bytes, the
    requests for the name are no longer waiting, and a reconstruction is
    triggered. *)
Theorem chunk_exchange (envA envB : Env) (ndA ndB : node) (ciA ciB : ChunkConnection) (addr name block msg : list Z)
    (i j : nat) (pB qA : PeerInfo) (cri : ChunkRequestInfo) (l : list ChunkRequestInfo) (Q : queues) (R : refs) :
  length addr = 4%nat → length name = SHA1_LEN → 0 < Z.of_nat (length block) ≤ MAX_CHUNK_SIZE →
  Z.of_nat SHA1_LEN < 2 ^ 30 →
  BuildWABodyRequest (ev_mem envA) addr name (Z.of_nat (length block)) = Done msg →
  net_ok envB (nd_peers ndB) → ck_peerIdx ciB = Z.of_nat i → is_peer ndB i pB → has_chunk envB ndB name block →
  requests_ok (nd_requests ndA) Q → Q !! name = Some (cri :: l) → cri_isRedirected cri = false →
  cri_length cri = Z.of_nat (length block) → cri_peerIdx cri = Z.of_nat j → g_PeerInfo (nd_peers ndA) !! j = Some qA →
  tmp_is (nd_cache ndA) R → Z.of_nat (ref_count R name) < 2 ^ 31 - 1 →
  ∃ ndB' fd response, ProcessBodyRequest envB ndB ciB msg = Done (ndB', Z.of_nat (length msg)) ∧
    nd_sent ndB' = nd_sent ndB ++ [{| sn_fd := fd; sn_msg := response;
      sn_len := Z.of_nat (length response); sn_streamID := ck_fd ciB |}] ∧
    nd_cache ndB' = nd_cache ndB ∧ nd_requests ndB' = nd_requests ndB ∧
    ∃ ndA', ProcessBodyResponse envA ndA ciA response = Done (ndA', Z.of_nat (length response)) ∧
      tmp_is (nd_cache ndA') (ref_put R name block) ∧ requests_ok (nd_requests ndA') (delete name Q) ∧
      nd_TryReconstruction ndA' = true.
Proof.
  intros Ha Hn Hb Hs Hmsg HnB HciB HpB Hhas HrA HQ Hred Hlen Hj Hq Ht Href.
  rewrite BuildWABodyRequest_ok in Hmsg by done.
  assert (body_request addr name (Z.of_nat (length block)) = msg) as <- by (unfold body_request; congruence).
  destruct (ProcessOneBodyRequest_hit envB ndB ciB i pB addr name block HnB HciB HpB Hhas Hn Hb) as (ps' & fd & He & _).
  destruct (ProcessBodyResponse_own envA ndA ciA name block cri l j qA Q R) as (ht & rq' & Hr & Ht' & Hrq'); try done.
  unfold MAX_CHUNK_SIZE in Hb. eexists _, fd, (body_response name block).
  rewrite ProcessBodyRequest_one by (done || lia). rewrite He. cbn [mbind outcome_bind].
  split_and!; [done|done|done|done|]. eexists. split; [exact Hr|]. split_and!; done.
Qed.

(** The answer to a request of another proxy is passed on and kept. *)
Lemma answer_relayed (env : Env) (nd : node) (cri : ChunkRequestInfo) (name block : list Z) (i : nat) (stream evicted : Z) :
  cri_isRedirected cri = true → GetPeerInfoByAddr (nd_peers nd) (cri_pxyAddr cri) = Some i →
  net_ok env (nd_peers nd) → Z.of_nat i < g_NumPeers (nd_peers nd) → length name = SHA1_LEN →
  0 < Z.of_nat (length block) ≤ MAX_CHUNK_SIZE → Z.of_nat SHA1_LEN < 2 ^ 20 → ev_NoCache env = false →
  lacks_chunk env nd name → mem_inv evicted (nd_cache nd) → g_CacheSize (nd_cache nd) < 2 ^ 30 →
  ∃ ps fd c v, ProcessOneChunkRequest env nd cri name block stream =
      Done (set_cache c (add_sent {| sn_fd := fd; sn_msg := body_response name block;
        sn_len := Z.of_nat (length (body_response name block)); sn_streamID := stream |} (set_peers' ps nd))) ∧
    GetMemory c name = Some v ∧ cv_pBlock v = block.
Proof.
  intros Hred Hfound Hok Hi Hn Hb Hs Hnc (_ & _ & L3 & L4) Hmem Hsize. unfold MAX_CHUNK_SIZE in Hb.
  pose proof (no_peers _ _ Hok) as Hpk. destruct (lookup_lt_is_Some_2 (g_PeerInfo (nd_peers nd)) i) as [p Hp].
  { pose proof (pk_len _ Hpk). pose proof (pk_num _ Hpk). lia. }
  unfold ProcessOneChunkRequest. rewrite Hred.
  rewrite BuildWABodyResponse_ok by (done || (intros ->; cbn in Hb; lia)). cbn [mbind outcome_bind].
  fold (body_response name block). unfold peer_by_addr. rewrite Hfound. cbn [mbind outcome_bind].
  rewrite (proj2 (get_Done _ _ _) Hp). cbn [mbind outcome_bind]. rewrite (pk_idx _ Hpk i p Hi Hp).
  destruct (WriteToChunkPeer_ok env nd i p (body_response name block)
    (Z.of_nat (length (body_response name block))) stream Hok Hp Hi) as (ps & fd & -> & _).
  { rewrite length_body_response by done. lia. }
  cbn [mbind outcome_bind]. rewrite Hnc. unfold put_chunk. rewrite L3. cbn [nd_cache add_sent set_peers'].
  assert (0 < sizeof_CacheKey + sizeof_CacheValue ≤ Z.of_nat SHA1_LEN + 1000) as Hentry.
  { unfold sizeof_CacheKey, sizeof_CacheValue, round_up.
    assert ((((SHA1_LEN + (4 - 1)) / 4 * 4 + 4 + (8 - 1)) / 8 * 8 ≤ SHA1_LEN + 20)%nat); [|lia].
    pose proof (Nat.Div0.mul_div_le (SHA1_LEN + (4 - 1)) 4).
    pose proof (Nat.Div0.mul_div_le ((SHA1_LEN + (4 - 1)) / 4 * 4 + 4 + (8 - 1)) 8). lia. }
  destruct (PutMemory_ok evicted (nd_cache nd) name block (Z.of_nat (length block)) Hmem L4) as
    (ht & keys & size & -> & _ & Hlook & _); [lia|lia|lia|].
  cbn [mbind outcome_bind]. eexists ps, fd, _, _. split; [done|]. split.
  - unfold GetMemory. cbn. by rewrite Hlook, decide_True.
  - cbn. by rewrite Nat2Z.id, slice_full.
Qed.

(** A proxy that does not have the chunk passes the request on.  The
    request, unchanged, goes to the proxy whose address is in it, and the proxy
    that asked is remembered; when the answer comes, it is passed on to that
    proxy, byte for byte, and the chunk is kept in the memory cache. *)
Theorem request_is_forwarded (env : Env) (nd : node) (ci ci' : ChunkConnection) (addr name block : list Z)
    (i o : nat) (p q : PeerInfo) (Q : queues) (evicted : Z) :
  length addr = 4%nat → length name = SHA1_LEN → 0 < Z.of_nat (length block) ≤ MAX_CHUNK_SIZE →
  Z.of_nat SHA1_LEN < 2 ^ 20 →
  net_ok env (nd_peers nd) → ck_peerIdx ci = Z.of_nat i → is_peer nd i p → lacks_chunk env nd name →
  GetPeerInfoByAddr (nd_peers nd) addr = Some o → is_peer nd o q → g_LocalInfo (nd_peers nd) ≠ Some o →
  GetPeerInfoByAddr (nd_peers nd) (pi_netAddr p) = Some i →
  requests_ok (nd_requests nd) Q → Z.of_nat (num_waiting Q) + 1 < 2 ^ 31 → Q !! name = None →
  ev_NoCache env = false → mem_inv evicted (nd_cache nd) → g_CacheSize (nd_cache nd) < 2 ^ 30 →
  let msg := body_request addr name (Z.of_nat (length block)) in
  let response := body_response name block in
  ∃ nd1 fd1, ProcessBodyRequest env nd ci msg = Done (nd1, Z.of_nat (length msg)) ∧
    nd_sent nd1 = nd_sent nd ++ [{| sn_fd := fd1; sn_msg := msg; sn_len := Z.of_nat (length msg);
      sn_streamID := ck_fd ci |}] ∧
    ∃ nd2 fd2, ProcessBodyResponse env nd1 ci' response = Done (nd2, Z.of_nat (length response)) ∧
      nd_sent nd2 = nd_sent nd1 ++ [{| sn_fd := fd2; sn_msg := response; sn_len := Z.of_nat (length response);
        sn_streamID := ck_fd ci' |}] ∧
      (∃ v, GetMemory (nd_cache nd2) name = Some v ∧ cv_pBlock v = block) ∧
      requests_ok (nd_requests nd2) Q.
Proof.
  intros Ha Hn Hb Hs Hok Hci Hp Hlack Ho Hq Hloc Hprev Hrq Hw HQ Hnc Hmem Hsize msg response.
  unfold MAX_CHUNK_SIZE in Hb.
  destruct (ProcessOneBodyRequest_miss env nd ci i p o q addr name (Z.of_nat (length block)) Q) as
    (ps1 & rq1 & fd1 & He & Hrq1 & Hok1 & Hmap & Hnum); try done; [lia|].
  eexists _, fd1. unfold msg. rewrite ProcessBodyRequest_one by (done || lia). rewrite He. cbn [mbind outcome_bind].
  split; [done|]. split; [done|].
  unfold response. rewrite ProcessBodyResponse_one by (done || unfold MAX_CHUNK_SIZE; lia).
  cbn [nd_requests set_requests nd_cache]. unfold GetChunkRequestList at 1.
  rewrite (tbl_search_ok _ _ _ (ro_table _ _ Hrq1)). unfold queue_put at 1. rewrite lookup_insert_eq.
  unfold waiting at 1. rewrite HQ. cbn [default app cri_length].
  rewrite u32_id, Z.eqb_refl by lia. cbn [c_assert mbind outcome_bind].
  set (cri := {| cri_isRedirected := true |}).
  match goal with |- context [ProcessOneChunkRequest env ?n cri _ _ _] =>
    destruct (answer_relayed env n cri name block i (ck_fd ci') evicted) as (ps2 & fd2 & c2 & v & -> & Hv & Hvb) end;
    try done.
  { unfold GetPeerInfoByAddr in *. cbn [nd_peers set_requests set_peers' add_sent cri cri_pxyAddr]. by rewrite Hmap. }
  { cbn [nd_peers set_requests set_peers' add_sent]. rewrite Hnum. apply Hp. }
  cbn [mbind outcome_bind]. cbn [nd_requests add_sent set_peers' set_requests set_cache].
  destruct (DestroyChunkRequestList_ok rq1 _ name (waiting Q name ++ [cri]) Hrq1) as (rq2 & -> & Hrq2).
  { unfold queue_put. by rewrite lookup_insert_eq. }
  cbn [mbind outcome_bind]. unfold GetChunkRequestList. rewrite (tbl_search_ok _ _ _ (ro_table _ _ Hrq2)), lookup_delete_eq.
  rewrite bool_decide_eq_true_2 by done. cbn [c_assert mbind outcome_bind].
  eexists _, fd2. split; [done|]. split; [done|]. split; [by exists v|].
  cbn [nd_requests set_requests]. unfold queue_put in Hrq2. rewrite delete_insert_eq, delete_id in Hrq2 by done. exact Hrq2.
Qed.

(** A proxy can starve the one that asked it.  When a body request for a
    chunk the node is itself waiting for arrives, it is forwarded and put behind
    the node's own request.  The first response is the node's own; the whole
    list is dropped, so that the second response, the answer to the forwarded
    request, is unexpected: it is kept under a second reference in the temporary
    cache that no reconstruction of the node asked for, and nothing is ever sent
    to the proxy that asked. *)
Theorem relay_behind_own_request (env : Env) (nd : node) (ci ci' : ChunkConnection) (addr name block : list Z)
    (i o j : nat) (p q q' : PeerInfo) (Q : queues) (cri : ChunkRequestInfo) (R : refs) :
  length addr = 4%nat → length name = SHA1_LEN → 0 < Z.of_nat (length block) ≤ MAX_CHUNK_SIZE →
  Z.of_nat SHA1_LEN < 2 ^ 20 →
  net_ok env (nd_peers nd) → ck_peerIdx ci = Z.of_nat i → is_peer nd i p → lacks_chunk env nd name →
  GetPeerInfoByAddr (nd_peers nd) addr = Some o → is_peer nd o q → g_LocalInfo (nd_peers nd) ≠ Some o →
  requests_ok (nd_requests nd) Q → Z.of_nat (num_waiting Q) + 1 < 2 ^ 31 → Q !! name = Some [cri] →
  cri_isRedirected cri = false → cri_length cri = Z.of_nat (length block) → cri_peerIdx cri = Z.of_nat j →
  is_peer nd j q' → tmp_is (nd_cache nd) R →
  let msg := body_request addr name (Z.of_nat (length block)) in
  let response := body_response name block in
  let sent fd := {| sn_fd := fd; sn_msg := msg; sn_len := Z.of_nat (length msg); sn_streamID := ck_fd ci |} in
  ∃ nd1 nd2 nd3 fd, ProcessBodyRequest env nd ci msg = Done (nd1, Z.of_nat (length msg)) ∧
    ProcessBodyResponse env nd1 ci' response = Done (nd2, Z.of_nat (length response)) ∧
    ProcessBodyResponse env nd2 ci' response = Done (nd3, Z.of_nat (length response)) ∧
    nd_sent nd3 = nd_sent nd ++ [sent fd] ∧
    requests_ok (nd_requests nd3) (delete name Q) ∧
    tmp_is (nd_cache nd3) (ref_put (ref_put R name block) name block).
Proof.
  intros Ha Hn Hb Hs Hok Hci Hp Hlack Ho Hq Hloc Hrq Hw HQ Hred Hlen Hj Hq' HR msg response sent.
  unfold MAX_CHUNK_SIZE in Hb.
  destruct (ProcessOneBodyRequest_miss env nd ci i p o q addr name (Z.of_nat (length block)) Q) as
    (ps1 & rq1 & fd1 & He & Hrq1 & Hok1 & Hmap & Hnum); try done; [lia|].
  assert (R !! name = None) as HRn.
  { destruct Hlack as (L & _). rewrite (SearchCache_ok _ _ _ HR) in L. by destruct (R !! name). }
  unfold queue_put, waiting in Hrq1. rewrite HQ in Hrq1. cbn [default id app] in Hrq1.
  match type of Hrq1 with requests_ok _ (<[_ := cri :: ?l0]> _) => set (l := l0) in * end.
  set (nd1 := set_requests _ _) in He.
  destruct (lookup_lt_is_Some_2 (g_PeerInfo ps1) j) as [q1 Hq1].
  { pose proof (pk_len _ (no_peers _ _ Hok1)). pose proof (pk_len _ (no_peers _ _ Hok)).
    pose proof (lookup_lt_Some _ _ _ (proj2 Hq')). lia. }
  destruct (ProcessBodyResponse_own env nd1 ci' name block cri l j q1 (<[name := cri :: l]> Q) R)
    as (ht & rq' & Hr & Ht' & Hrq'); try done.
  { by rewrite lookup_insert_eq. }
  { unfold ref_count. rewrite HRn. done. }
  { lia. }
  set (nd2 := set_requests rq' _) in Hr.
  destruct (RefPutChunkCallback_ok (nd_cache nd2) (ref_put R name block) name block (Z.of_nat (length block)) Ht')
    as (ht2 & Hp2 & Ht2); [lia|unfold MAX_CHUNK_SIZE; lia| |].
  { unfold ref_put, ref_count. rewrite HRn. rewrite lookup_insert_eq. done. }
  rewrite Nat2Z.id, slice_full in Ht2 by done. rewrite delete_insert_eq in Hrq'.
  exists nd1, nd2, (set_cache (set_tmp ht2 (nd_cache nd2)) nd2), fd1. split_and!.
  - unfold msg. rewrite ProcessBodyRequest_one by (done || lia). by rewrite He.
  - exact Hr.
  - unfold response. rewrite ProcessBodyResponse_one by (done || unfold MAX_CHUNK_SIZE; lia).
    unfold GetChunkRequestList. cbn [nd_requests nd2 set_requests].
    rewrite (tbl_search_ok _ _ _ (ro_table _ _ Hrq')), lookup_delete_eq. by rewrite Hp2.
  - done.
  - exact Hrq'.
  - exact Ht2.
Qed.
End theorems.

#[local] Existing Instance toy_digest.
#[local] Abbreviation HT := (@hashtable (list Z) Z).
#[local] Abbreviation VT := (@hashtable (list Z) CacheValue).
#[local] Abbreviation AT := (@hashtable (list Z) nat).
#[local] Abbreviation CT := (@hashtable (list Z) (list ChunkRequestInfo)).
#[local] Abbreviation PT := (@hashtable (list Z) (list PeekRequestInfo)).

Definition toy_node (c : cache HT VT) (map : AT) (rq : requests CT PT) : node HT VT AT CT PT :=
  {| nd_cache := c; nd_peers := toy_peers map true; nd_requests := rq; nd_disk := toy_disk; nd_sent := [];
     nd_TryReconstruction := false |}.

Lemma toy_lacks c map rq name : cache_empty 1000 c → lacks_chunk toy_env (toy_node c map rq) name.
Proof.
  intros He. unfold lacks_chunk. cbn [toy_node nd_cache]. rewrite (SearchCache_ok c _ _ (ce_tmp _ _ He)).
  unfold GetTempDiskCache, GetMemory. rewrite (tbl_search_ok _ _ _ (ce_put_tmp _ _ He)).
  destruct (mi_table _ _ (ce_mem _ _ He)) as (m & Hm' & Hdom & _).
  rewrite (tbl_search_ok _ _ _ Hm'). split_and!; [reflexivity..|]. apply not_elem_of_dom. rewrite Hdom.
  destruct (ce_fifos _ _ He) as (-> & _). cbn. apply not_elem_of_empty.
Qed.

Lemma chunk_exchange_witness :
  ∃ (ndA ndB : node HT VT AT CT PT) ndB' fd response ndA',
    ProcessBodyRequest toy_env ndB {| ck_fd := 40; ck_peerIdx := 1 |} (body_request [10; 0; 0; 2] [1; 2] 3) =
      Done (ndB', 21) ∧
    nd_sent ndB' = [{| sn_fd := fd; sn_msg := response; sn_len := Z.of_nat (length response); sn_streamID := 40 |}] ∧
    ProcessBodyResponse toy_env ndA {| ck_fd := 41; ck_peerIdx := 2 |} response =
      Done (ndA', Z.of_nat (length response)) ∧
    tmp_is (nd_cache ndA') (ref_put ∅ [1; 2] [7; 8; 9]).
Proof.
  destruct (toy_cache_ok (HT := HT) (VT := VT)) as [cB HcB].
  destruct (CreateCache_ok (HT := HT) (VT := VT) 1000) as (cA & _ & HeA).
  destruct (CreateChunkRequestTable_ok (CT := CT) (PT := PT)) as (rq0 & _ & Hrq0).
  destruct (tbl_create_ok (T := AT) 1024 ltac:(lia)) as (map & _ & Hm).
  set (cri := {| cri_isRedirected := false; cri_pxyAddr := []; cri_cid := {| srcIP := 0; srcPort := 0; dstIP := 0; dstPort := 0 |};
                cri_length := 3; cri_isNetwork := true; cri_peerIdx := Z.of_nat 2 |}).
  destruct (PutChunkRequest_ok rq0 (toy_peers map true) ∅ [1; 2] (cri_cid cri) false [] 3 2
    (set_alive true (toy_peer 2 false 33)) true Hrq0 eq_refl) as (rq & _ & Hrq); [by vm_compute|].
  destruct (chunk_exchange toy_env toy_env (toy_node cA map rq) (toy_node cB map rq0)
    {| ck_fd := 41; ck_peerIdx := 2 |} {| ck_fd := 40; ck_peerIdx := 1 |} [10; 0; 0; 2] [1; 2] [7; 8; 9]
    (body_request [10; 0; 0; 2] [1; 2] 3) 1 2 (toy_peer 1 false 22) (set_alive true (toy_peer 2 false 33)) cri []
    (queue_put ∅ [1; 2] cri) ∅) as (ndB' & fd & response & H1 & H2 & _ & _ & ndA' & H3 & H4 & _).
  - reflexivity.
  - reflexivity.
  - vm_compute. split; [reflexivity|discriminate].
  - reflexivity.
  - vm_compute. reflexivity.
  - eapply toy_net_ok; [exact Hm|]. by intros a i [=].
  - reflexivity.
  - split; [reflexivity|reflexivity].
  - exists {| cv_pBlock := [7; 8; 9]; cv_block_length := 3; cv_ref_count := 1 |}. split; [reflexivity|].
    split; [reflexivity|]. left. cbn [toy_node nd_cache]. rewrite (SearchCache_ok cB _ _ HcB). reflexivity.
  - exact Hrq.
  - reflexivity.
  - reflexivity.
  - reflexivity.
  - reflexivity.
  - reflexivity.
  - exact (ce_tmp _ _ HeA).
  - reflexivity.
  - exists (toy_node cA map rq), (toy_node cB map rq0), ndB', fd, response, ndA'.
    split; [exact H1|]. split; [exact H2|]. split; [exact H3|exact H4].
Defined.

Lemma request_is_forwarded_witness :
  ∃ (nd nd1 nd2 : node HT VT AT CT PT) v,
    ProcessBodyRequest toy_env nd {| ck_fd := 40; ck_peerIdx := 1 |} (body_request [10; 0; 0; 2] [1; 2] 3) =
      Done (nd1, 21) ∧
    ProcessBodyResponse toy_env nd1 {| ck_fd := 41; ck_peerIdx := 2 |} (body_response [1; 2] [7; 8; 9]) =
      Done (nd2, 20) ∧
    GetMemory (nd_cache nd2) [1; 2] = Some v ∧ cv_pBlock v = [7; 8; 9].
Proof.
  destruct (CreateCache_ok (HT := HT) (VT := VT) 1000) as (c & _ & He).
  destruct (CreateChunkRequestTable_ok (CT := CT) (PT := PT)) as (rq0 & _ & Hrq0).
  destruct (tbl_create_ok (T := AT) 1024 ltac:(lia)) as (map0 & _ & Hm0).
  pose proof (tbl_insert_ok _ _ _ 1%nat (tbl_insert_ok _ _ [10; 0; 0; 2] 2%nat Hm0 eq_refl)
    (eq_refl : <[[10; 0; 0; 2] := 2%nat]> ∅ !! [10; 0; 0; 1] = None)) as Hm.
  set (map := tbl_insert _ _ 1%nat) in Hm.
  destruct (request_is_forwarded toy_env (toy_node c map rq0) {| ck_fd := 40; ck_peerIdx := 1 |}
    {| ck_fd := 41; ck_peerIdx := 2 |} [10; 0; 0; 2] [1; 2] [7; 8; 9] 1 2 (toy_peer 1 false 22)
    (set_alive true (toy_peer 2 false 33)) ∅ 0) as (nd1 & fd1 & H1 & _ & nd2 & fd2 & H2 & _ & (v & H3 & H4) & _).
  - reflexivity.
  - reflexivity.
  - vm_compute. split; [reflexivity|discriminate].
  - reflexivity.
  - eapply toy_net_ok; [exact Hm|]. intros a i.
    intros [[_ <-]|[_ [[_ <-]|[_ [=]]]%lookup_insert_Some]]%lookup_insert_Some; lia.
  - reflexivity.
  - split; reflexivity.
  - exact (toy_lacks c map rq0 [1; 2] He).
  - unfold GetPeerInfoByAddr. cbn [toy_node nd_peers toy_peers peerAddrMap]. by rewrite (tbl_search_ok _ _ _ Hm).
  - split; reflexivity.
  - cbn. discriminate.
  - unfold GetPeerInfoByAddr. cbn [toy_node nd_peers toy_peers peerAddrMap]. by rewrite (tbl_search_ok _ _ _ Hm).
  - exact Hrq0.
  - reflexivity.
  - reflexivity.
  - reflexivity.
  - exact (ce_mem _ _ He).
  - destruct (ce_fifos _ _ He) as (_ & _ & _ & E). cbn [toy_node nd_cache]. rewrite E. reflexivity.
  - exists (toy_node c map rq0), nd1, nd2, v. split; [exact H1|]. split; [exact H2|]. split; [exact H3|exact H4].
Defined.

Lemma relay_behind_own_request_witness :
  ∃ (nd nd1 nd2 nd3 : node HT VT AT CT PT),
    ProcessBodyRequest toy_env nd {| ck_fd := 40; ck_peerIdx := 1 |} (body_request [10; 0; 0; 2] [1; 2] 3) =
      Done (nd1, 21) ∧
    ProcessBodyResponse toy_env nd1 {| ck_fd := 41; ck_peerIdx := 2 |} (body_response [1; 2] [7; 8; 9]) = Done (nd2, 20) ∧
    ProcessBodyResponse toy_env nd2 {| ck_fd := 41; ck_peerIdx := 2 |} (body_response [1; 2] [7; 8; 9]) = Done (nd3, 20) ∧
    length (nd_sent nd3) = 1%nat ∧ tmp_is (nd_cache nd3) {[ [1; 2] := (2%nat, [7; 8; 9]) ]}.
Proof.
  destruct (CreateCache_ok (HT := HT) (VT := VT) 1000) as (c & _ & He).
  destruct (CreateChunkRequestTable_ok (CT := CT) (PT := PT)) as (rq0 & _ & Hrq0).
  destruct (tbl_create_ok (T := AT) 1024 ltac:(lia)) as (map0 & _ & Hm0).
  pose proof (tbl_insert_ok _ _ [10; 0; 0; 2] 2%nat Hm0 eq_refl) as Hm. set (map := tbl_insert _ _ _) in Hm.
  set (cri := {| cri_isRedirected := false; cri_pxyAddr := []; cri_cid := {| srcIP := 0; srcPort := 0; dstIP := 0; dstPort := 0 |};
                cri_length := 3; cri_isNetwork := true; cri_peerIdx := Z.of_nat 2 |}).
  destruct (PutChunkRequest_ok rq0 (toy_peers map true) ∅ [1; 2] (cri_cid cri) false [] 3 2
    (set_alive true (toy_peer 2 false 33)) true Hrq0 eq_refl) as (rq & _ & Hrq); [by vm_compute|].
  destruct (relay_behind_own_request toy_env (toy_node c map rq) {| ck_fd := 40; ck_peerIdx := 1 |}
    {| ck_fd := 41; ck_peerIdx := 2 |} [10; 0; 0; 2] [1; 2] [7; 8; 9] 1 2 2 (toy_peer 1 false 22)
    (set_alive true (toy_peer 2 false 33)) (set_alive true (toy_peer 2 false 33))
    (queue_put ∅ [1; 2] cri) cri ∅) as (nd1 & nd2 & nd3 & fd & H1 & H2 & H3 & H4 & _ & H5).
  - reflexivity.
  - reflexivity.
  - vm_compute. split; [reflexivity|discriminate].
  - reflexivity.
  - eapply toy_net_ok; [exact Hm|]. intros a i [[_ <-]|[_ [=]]]%lookup_insert_Some. lia.
  - reflexivity.
  - split; reflexivity.
  - exact (toy_lacks c map rq [1; 2] He).
  - unfold GetPeerInfoByAddr. cbn [toy_node nd_peers toy_peers peerAddrMap]. by rewrite (tbl_search_ok _ _ _ Hm).
  - split; reflexivity.
  - cbn. discriminate.
  - exact Hrq.
  - reflexivity.
  - reflexivity.
  - reflexivity.
  - reflexivity.
  - reflexivity.
  - split; reflexivity.
  - exact (ce_tmp _ _ He).
  - exists (toy_node c map rq), nd1, nd2, nd3. split; [exact H1|]. split; [exact H2|]. split; [exact H3|].
    split; [by rewrite H4|exact H5].
Defined.
