(* ===== verification/Ils.v ===== *)
(** * Intelligent load shedding

    Models [src/waprox/ils.c]: the chunk requests of all connections are
    gathered and scheduled, from disks to the network while the slowest disk
    takes longer than the network, and sent in their order.  The queues point
    to the names in the reassemble lists of the connections, which the schedule
    changes.  Latencies are single-precision numbers; [ILS] and [ILS_NOHISTORY]
    are defined.  Traces and their timers are not modelled. *)

From Stdlib Require Import ZArith Lia SpecFloat.
From stdpp Require Import base list option numbers gmap sorting.
From S2P Require Import Prelude Bytes Rabin Mrc MrcLevels Hashtable Protocol ChunkCache Hrw Peer.
From S2P Require Import Reassemble ChunkRequest Disk Node.

(** ** Floating-point numbers

    Operands are converted to the type of the operation and each result is
    rounded to its type, to nearest even, as on SSE. *)

Definition float_of_int (z : Z) : spec_float := binary_normalize 24 128 z 0 false.
Definition double_of_int (z : Z) : spec_float := binary_normalize 53 1024 z 0 false.
Definition float_of_double (x : spec_float) : spec_float :=
  match x with
  | S754_finite s m e => binary_normalize 24 128 (cond_Zopp s (Zpos m)) e s
  | _ => x
  end.

(** ** Chunk names and their connections *)

(** The address of a [ChunkNameInfo]: its connection in [g_UserList], the
    address of its [ReassembleInfo], its place in the list of names. *)
Record cni_ptr := {
  cp_user : nat;
  cp_ri : nat;
  cp_name : nat
}.

#[export] Instance cni_ptr_eq_dec : EqDecision cni_ptr.
Proof. solve_decision. Defined.

(** A user connection with its [ConnectionInfo]; the connections on
    [g_UserList] are a list of these. *)
Record User := {
  us_fd : Z;
  us_closed : bool;
  us_recv : RecvState;
  us_numMoves : Z;
  us_moveBytes : Z;
  us_sip : Z;
  us_sport : Z;
  us_dip : Z;
  us_dport : Z
}.

Definition set_recv (rs : RecvState) (u : User) : User :=
  {| us_fd := us_fd u; us_closed := us_closed u; us_recv := rs; us_numMoves := us_numMoves u;
     us_moveBytes := us_moveBytes u; us_sip := us_sip u; us_sport := us_sport u; us_dip := us_dip u;
     us_dport := us_dport u |}.
Definition count_move (len : Z) (u : User) : User :=
  {| us_fd := us_fd u; us_closed := us_closed u; us_recv := us_recv u;
     us_numMoves := u32 (us_numMoves u + 1); us_moveBytes := u32 (us_moveBytes u + len);
     us_sip := us_sip u; us_sport := us_sport u; us_dip := us_dip u; us_dport := us_dport u |}.

(** The identifier of the connection seen from the other side. *)
Definition us_cid (u : User) : ConnectionID :=
  {| srcIP := us_dip u; srcPort := us_dport u; dstIP := us_sip u; dstPort := us_sport u |}.

Definition find_ri (rs : RecvState) (p : nat) : outcome ReassembleInfo :=
  match list_find (λ ri, ri_ptr ri = p) (rs_reassembleList rs) with
  | Some (_, ri) => Done ri
  | None => Fault OutOfBounds
  end.

Definition read_cni (us : list User) (p : cni_ptr) : outcome ChunkNameInfo :=
  u ← get us (cp_user p);
  ri ← find_ri (us_recv u) (cp_ri p);
  get (ri_nameList ri) (cp_name p).

Definition update_user (us : list User) (i : nat) (f : RecvState → outcome RecvState) : outcome (list User) :=
  u ← get us i;
  rs ← f (us_recv u);
  put us i (set_recv rs u).

Definition set_names (names : list ChunkNameInfo) (ri : ReassembleInfo) : ReassembleInfo :=
  {| ri_ptr := ri_ptr ri; ri_seq_no := ri_seq_no ri; ri_numNames := ri_numNames ri;
     ri_numPeekResolved := ri_numPeekResolved ri; ri_getSent := ri_getSent ri; ri_nameList := names |}.
Definition set_getSent (ri : ReassembleInfo) : ReassembleInfo :=
  {| ri_ptr := ri_ptr ri; ri_seq_no := ri_seq_no ri; ri_numNames := ri_numNames ri;
     ri_numPeekResolved := ri_numPeekResolved ri; ri_getSent := true; ri_nameList := ri_nameList ri |}.
Definition set_isNetwork (b : bool) (c : ChunkNameInfo) : ChunkNameInfo :=
  {| cni_isHit := cni_isHit c; cni_inMemory := cni_inMemory c; cni_length := cni_length c;
     cni_peerIdx := cni_peerIdx c; cni_isNetwork := b; cni_sha1name := cni_sha1name c |}.

Definition write_isNetwork (us : list User) (p : cni_ptr) (b : bool) : outcome (list User) :=
  update_user us (cp_user p) (with_ri (cp_ri p) (λ ri,
    names ← update (ri_nameList ri) (cp_name p) (set_isNetwork b); Done (set_names names ri))).

(** ** Queues *)

Definition MAX_ILS_QUEUE : Z := 65536.

(** [il_q] is the part of the array in use; [qlen] is its length. *)
Record ILSQueue := {
  il_q : list cni_ptr;
  il_totBytes : Z;
  il_latency : spec_float
}.

Definition qlen (q : ILSQueue) : Z := Z.of_nat (length (il_q q)).

(** A queue as [calloc] leaves it. *)
Definition no_queue : ILSQueue := {| il_q := []; il_totBytes := 0; il_latency := S754_zero false |}.

Definition set_latency (l : spec_float) (q : ILSQueue) : ILSQueue :=
  {| il_q := il_q q; il_totBytes := il_totBytes q; il_latency := l |}.

Definition CompareChunkSizes (cni1 cni2 : ChunkNameInfo) : Z :=
  if cni_length cni1 <? cni_length cni2 then 1
  else if cni_length cni2 <? cni_length cni1 then -1 else 0.

Definition ILSReset (_ : ILSQueue) : ILSQueue :=
  {| il_q := []; il_totBytes := 0; il_latency := S754_zero false |}.

Definition ILSEnqueue (us : list User) (q : ILSQueue) (p : cni_ptr) (overhead : Z) : outcome ILSQueue :=
  _ ← c_assert (qlen q + 1 <? MAX_ILS_QUEUE);
  cni ← read_cni us p;
  Done {| il_q := il_q q ++ [p]; il_totBytes := u32 (il_totBytes q + u32 (i32 (cni_length cni + overhead)));
          il_latency := il_latency q |}.

(** The last element leaves; the byte count is unsigned, so that the assertion
    that it is not negative holds. *)
Definition ILSDequeue (us : list User) (q : ILSQueue) : outcome (ILSQueue * option cni_ptr) :=
  match last (il_q q) with
  | None => Done (q, None)
  | Some p =>
      cni ← read_cni us p;
      let totBytes := u32 (il_totBytes q - cni_length cni) in
      _ ← c_assert (0 <=? totBytes);
      Done ({| il_q := removelast (il_q q); il_totBytes := totBytes; il_latency := il_latency q |}, Some p)
  end.

(** The parameters of [config.c]. *)
Record IlsConfig := {
  g_SeekLatency : Z;
  g_WanLinkBW : Z;
  g_WanLinkRTT : Z
}.

(** [pendingChunks] and [pendingBytes] are set to 0 by [ILS_NOHISTORY]. *)
Definition ILSUpdateDiskLatency (g : IlsConfig) (q : ILSQueue) (pendingChunks : Z) : ILSQueue :=
  let pendingChunks := 0 in
  set_latency (float_of_int (u32 (g_SeekLatency g * u32 (qlen q + pendingChunks)))) q.

Definition ILSUpdateNetworkLatency (g : IlsConfig) (q : ILSQueue) (pendingBytes : Z) : outcome ILSQueue :=
  _ ← c_assert (0 <? g_WanLinkBW g);
  let pendingBytes := 0 in
  let ms := float_of_double (SFdiv 53 1024
    (SFmul 53 1024 (double_of_int (u32 (il_totBytes q + pendingBytes))) (double_of_int 8))
    (double_of_int (g_WanLinkBW g))) in
  Done (set_latency (SFadd 24 128 ms (float_of_int (g_WanLinkRTT g))) q).

(** The disk queues, one per peer, are allocated once. *)
Record ILS := {
  diskQueue : option (list ILSQueue);
  networkQueue : ILSQueue;
  sendQueue : ILSQueue
}.

(** The queues that [InitILS] has not allocated yet are empty ones. *)
Definition no_ILS : ILS := {| diskQueue := None; networkQueue := no_queue; sendQueue := no_queue |}.

Definition disk_queues (il : ILS) : list ILSQueue := default [] (diskQueue il).
Definition set_disk_queues (l : list ILSQueue) (il : ILS) : ILS :=
  {| diskQueue := Some l; networkQueue := networkQueue il; sendQueue := sendQueue il |}.
Definition set_network (q : ILSQueue) (il : ILS) : ILS :=
  {| diskQueue := diskQueue il; networkQueue := q; sendQueue := sendQueue il |}.
Definition set_send (q : ILSQueue) (il : ILS) : ILS :=
  {| diskQueue := diskQueue il; networkQueue := networkQueue il; sendQueue := q |}.

Definition InitILS (il : ILS) (numPeers : Z) : outcome ILS :=
  let n := Z.to_nat numPeers in
  let l := match diskQueue il with Some l => l | None => replicate n no_queue end in
  l ← foldM (λ l i, update l i ILSReset) l (seq 0 n);
  Done {| diskQueue := Some l; networkQueue := ILSReset (networkQueue il); sendQueue := ILSReset (sendQueue il) |}.

(** ** The schedule *)

(** [qsort] of the C library: a permutation in the order of the comparison,
    when that is a total preorder; the order of equal elements is left open. *)
Definition cmp_ok {A} (cmp : A → A → Z) : Prop :=
  (∀ x y, cmp x y ≤ 0 ∨ cmp y x ≤ 0) ∧ (∀ x y z, cmp x y ≤ 0 → cmp y z ≤ 0 → cmp x z ≤ 0).

Class Qsort := {
  qsort : ∀ {A : Type}, (A → A → Z) → list A → list A;
  qsort_perm : ∀ A (cmp : A → A → Z) l, cmp_ok cmp → qsort cmp l ≡ₚ l;
  qsort_sorted : ∀ A (cmp : A → A → Z) l, cmp_ok cmp → StronglySorted (λ x y, cmp x y ≤ 0) (qsort cmp l)
}.

Fixpoint read_all (us : list User) (l : list cni_ptr) : outcome (list (cni_ptr * ChunkNameInfo)) :=
  match l with
  | [] => Done []
  | p :: l' => c ← read_cni us p; r ← read_all us l'; Done ((p, c) :: r)
  end.

Definition sort_queue `{Qsort} (us : list User) (q : ILSQueue) : outcome ILSQueue :=
  cells ← read_all us (il_q q);
  Done {| il_q := fst <$> qsort (λ x y, CompareChunkSizes x.2 y.2) cells;
          il_totBytes := il_totBytes q; il_latency := il_latency q |}.

(** The first disk queue with the largest latency. *)
Definition max_disk (l : list ILSQueue) (n : nat) : outcome (spec_float * nat) :=
  foldM (λ '(maxLatency, maxPeer) i,
    q ← get l i;
    if SFltb maxLatency (il_latency q) then Done (il_latency q, i) else Done (maxLatency, maxPeer))
    (float_of_int (-1), 0%nat) (seq 0 n).

Section schedule.
Context `{Digest} {AT : Type}.
Context (g : IlsConfig).

(** The loop that moves chunks from the slowest disk to the network. *)
Fixpoint move_chunks (fuel : nat) (ps : peers AT) (networkPendingBytes : Z) (us : list User) (il : ILS)
    (numMove : Z) : outcome (list User * ILS * Z) :=
  match fuel with
  | O => Fault OutOfFuel
  | S fuel' =>
      '(maxLatency, maxPeer) ← max_disk (disk_queues il) (Z.to_nat (g_NumPeers ps));
      if SFleb maxLatency (il_latency (networkQueue il)) then Done (us, il, numMove)
      else
        q ← get (disk_queues il) maxPeer;
        '(q, cni) ← ILSDequeue us q;
        match cni with
        | None => Done (us, il, numMove)
        | Some p =>
            nq ← ILSEnqueue us (networkQueue il) p PerChunkResponseOverhead;
            c ← read_cni us p;
            _ ← c_assert (negb (cni_isNetwork c));
            us ← write_isNetwork us p true;
            us ← update us (cp_user p) (count_move (cni_length c));
            pi ← get (g_PeerInfo ps) maxPeer;
            l ← put (disk_queues il) maxPeer (ILSUpdateDiskLatency g q (pi_diskPendingChunks pi));
            nq ← ILSUpdateNetworkLatency g nq networkPendingBytes;
            move_chunks fuel' ps networkPendingBytes us (set_network nq (set_disk_queues l il)) (i32 (numMove + 1))
        end
  end.

(** Every iteration but the last one takes a chunk from a disk queue. *)
Definition moves_bound (il : ILS) : nat := S (sum_list (length ∘ il_q <$> disk_queues il)).

(** The tests that pending loads, which are unsigned, are negative change
    nothing and are left out. *)
Definition FindBestSchedule `{Qsort} (ps : peers AT) (us : list User) (il : ILS) : outcome (list User * ILS * Z) :=
  let n := Z.to_nat (g_NumPeers ps) in
  l ← foldM (λ l i,
      q ← get l i;
      q ← sort_queue us q;
      p ← get (g_PeerInfo ps) i;
      put l i (ILSUpdateDiskLatency g q (pi_diskPendingChunks p))) (disk_queues il) (seq 0 n);
  nq ← sort_queue us (networkQueue il);
  networkPendingBytes ← foldM (λ b i, p ← get (g_PeerInfo ps) i; Done (u32 (b + pi_networkPendingBytes p))) 0 (seq 0 n);
  nq ← ILSUpdateNetworkLatency g nq networkPendingBytes;
  let il := set_network nq (set_disk_queues l il) in
  move_chunks (moves_bound il) ps networkPendingBytes us il 0.

(** ** Gathering the requests *)

(** The body of the loop over the names of a chunk. *)
Definition populate_name (st : list User * ILS * Z) (p : cni_ptr) : outcome (list User * ILS * Z) :=
  let '(us, il, numChunksScheduled) := st in
  cni ← read_cni us p;
  if cni_inMemory cni then Done (us, il, numChunksScheduled)
  else
    _ ← c_assert (negb (cni_peerIdx cni =? -1));
    us ← write_isNetwork us p (negb (cni_isHit cni));
    il ← (if cni_isHit cni then
            q ← get_at (disk_queues il) (cni_peerIdx cni);
            q ← ILSEnqueue us q p 0;
            l ← put (disk_queues il) (Z.to_nat (cni_peerIdx cni)) q;
            Done (set_disk_queues l il)
          else
            q ← ILSEnqueue us (networkQueue il) p PerChunkResponseOverhead;
            Done (set_network q il));
    q ← ILSEnqueue us (sendQueue il) p 0;
    Done (us, set_send q il, i32 (numChunksScheduled + 1)).

Definition populate_chunk (i : nat) (st : list User * ILS * Z) (ri_p : nat) : outcome (list User * ILS * Z) :=
  let '(us, il, n) := st in
  u ← get us i;
  ri ← find_ri (us_recv u) ri_p;
  _ ← c_assert (ri_numPeekResolved ri =? ri_numNames ri);
  _ ← c_assert (negb (ri_getSent ri));
  us ← update_user us i (with_ri ri_p (λ ri, Done (set_getSent ri)));
  foldM populate_name (us, il, n)
    ((λ k, {| cp_user := i; cp_ri := ri_p; cp_name := k |}) <$> seq 0 (length (ri_nameList ri))).

(** The loop that empties the ready list. *)
Definition unready (rs : RecvState) (ri_p : nat) : outcome RecvState :=
  ri ← find_ri rs ri_p;
  _ ← c_assert (ri_numPeekResolved ri =? ri_numNames ri);
  _ ← c_assert (ri_getSent ri);
  Done (Reassemble.set_lists (rs_reassembleList rs) (drop 1 (rs_readyList rs)) rs).

Definition populate_user (st : list User * ILS * Z) (i : nat) : outcome (list User * ILS * Z) :=
  let '(us, il, n) := st in
  u ← get us i;
  if us_closed u then Done (us, il, n)
  else
    '(us, il, n) ← foldM (populate_chunk i) (us, il, n) (rs_readyList (us_recv u));
    us ← update_user us i (λ rs, foldM unready rs (rs_readyList rs));
    Done (us, il, n).

Definition PopulateILSQueue (us : list User) (il : ILS) : outcome (list User * ILS * Z) :=
  foldM populate_user (us, il, 0) (seq 0 (length us)).
End schedule.

(** ** Sending the requests *)

Inductive ChunkRequestType := cr_local | cr_peer | cr_origin.

Definition count_redirected (len : Z) (p : PeerInfo) : PeerInfo :=
  {| pi_idx := pi_idx p; pi_netAddr := pi_netAddr p; pi_isAlive := pi_isAlive p;
     pi_isLocalHost := pi_isLocalHost p; pi_lastPingTime := pi_lastPingTime p;
     pi_addrHash := pi_addrHash p; pi_numRedirected := u32 (pi_numRedirected p + 1);
     pi_bytesRedirected := u32 (pi_bytesRedirected p + len); pi_RTT := pi_RTT p;
     pi_networkPendingBytes := pi_networkPendingBytes p;
     pi_diskPendingChunks := pi_diskPendingChunks p; pi_nameFlowID := pi_nameFlowID p;
     pi_chunkFlowID := pi_chunkFlowID p; pi_chunkCI := pi_chunkCI p |}.

Section requests.
Context `{Digest} {HT VT AT CT PT : Type} `{!Table (list Z) Z HT} `{!Table (list Z) CacheValue VT}
  `{!Table (list Z) nat AT} `{!Table (list Z) (list ChunkRequestInfo) CT}
  `{!Table (list Z) (list PeekRequestInfo) PT}.
Context (env : Env) (g : IlsConfig).
#[local] Abbreviation node := (node HT VT AT CT PT).

(** [g_LocalInfo], which is dereferenced. *)
Definition local_idx (nd : node) : outcome nat :=
  match g_LocalInfo (nd_peers nd) with Some i => Done i | None => Fault OutOfBounds end.

(** [u] is the connection of the chunk. *)
Definition SendRemoteChunkRequest (nd : node) (u : User) (cni : ChunkNameInfo) (peerIdx : Z) (isNetwork : bool)
    : outcome node :=
  l ← local_idx nd;
  local ← get (g_PeerInfo (nd_peers nd)) l;
  _ ← c_assert (negb (peerIdx =? pi_idx local));
  p ← get_at (g_PeerInfo (nd_peers nd)) peerIdx;
  request ← BuildWABodyRequest (ev_mem env) (pi_netAddr p) (cni_sha1name cni) (cni_length cni);
  _ ← c_assert (0 <=? peerIdx);
  _ ← c_assert (peerIdx <? g_NumPeers (nd_peers nd));
  nd ← update_peer peerIdx (count_redirected (cni_length cni)) nd;
  nd ← WriteToChunkPeer env nd peerIdx request (Z.of_nat (length request)) (us_fd u);
  '(rq, ps) ← PutChunkRequest (nd_requests nd) (nd_peers nd) (cni_sha1name cni) (us_cid u) false
                (pi_netAddr p) (cni_length cni) peerIdx isNetwork;
  Done (set_requests rq (set_peers' ps nd)).

(** The end of [SendLocalChunkRequest]: the chunk goes to the temporary cache. *)
Definition load_local (nd : node) (cni : ChunkNameInfo) (v : CacheValue) : outcome node :=
  c ← RefPutChunkCallback (nd_cache nd) (cni_sha1name cni) (cv_pBlock v) (cv_block_length v);
  l ← local_idx nd;
  nd ← update_peer (Z.of_nat l) (count_redirected (cni_length cni)) (set_cache c nd);
  Done (try_reconstruction nd).

Definition SendLocalChunkRequest (nd : node) (u : User) (cni : ChunkNameInfo) (dstPxyIdx : Z) : outcome node :=
  match GetTempDiskCache (nd_cache nd) (cni_sha1name cni) with
  | Some v => load_local nd cni v
  | None =>
      if ev_MemCacheOnly env then
        match GetMemory (nd_cache nd) (cni_sha1name cni) with
        | Some v => load_local nd cni v
        | None =>
            _ ← c_assert (negb (dstPxyIdx =? -1));
            SendRemoteChunkRequest nd u cni dstPxyIdx true
        end
      else
        d ← SendCacheRequest (nd_disk nd) hc_get ps_nameTreeDelivery (cni_sha1name cni) (cni_length cni) None
              (rs_dstPxyIdx (us_recv u)) (UserSource (us_fd u) (us_cid u) (rs_dstPxyIdx (us_recv u))) NoOpaque;
        l ← local_idx nd;
        update_peer (Z.of_nat l) (λ p, set_load (pi_RTT p) (pi_networkPendingBytes p)
          (u32 (pi_diskPendingChunks p + 1)) p) (set_disk d nd)
  end.

Definition SendChunkRequest (nd : node) (us : list User) (ptr : cni_ptr) (forceNetwork : bool)
    : outcome (node * ChunkRequestType) :=
  u ← get us (cp_user ptr);
  ri ← find_ri (us_recv u) (cp_ri ptr);
  cni ← get (ri_nameList ri) (cp_name ptr);
  _ ← c_assert (ri_getSent ri);
  _ ← c_assert (negb (cni_peerIdx cni =? -1));
  let dst := rs_dstPxyIdx (us_recv u) in
  if forceNetwork then
    nd ← SendRemoteChunkRequest nd u cni dst true;
    Done (nd, cr_origin)
  else
    p ← get_at (g_PeerInfo (nd_peers nd)) (cni_peerIdx cni);
    if pi_isLocalHost p || (cni_peerIdx cni =? dst) then
      nd ← SendLocalChunkRequest nd u cni dst;
      Done (nd, cr_local)
    else
      nd ← SendRemoteChunkRequest nd u cni (cni_peerIdx cni) false;
      Done (nd, cr_peer).

(** The loop that sends the requests: the node and the requests by kind. *)
Definition send_one (us : list User) (st : node * Z * Z * Z) (ptr : cni_ptr) : outcome (node * Z * Z * Z) :=
  let '(nd, numLocal, numPeer, numOrigin) := st in
  cni ← read_cni us ptr;
  '(nd, cr) ← SendChunkRequest nd us ptr (cni_isNetwork cni);
  Done match cr with
       | cr_local => (nd, i32 (numLocal + 1), numPeer, numOrigin)
       | cr_peer => (nd, numLocal, i32 (numPeer + 1), numOrigin)
       | cr_origin => (nd, numLocal, numPeer, i32 (numOrigin + 1))
       end.

(** The flag [g_NewPeekUpdate] and the queues go in and come out. *)
Definition IntelligentLoadShedding `{Qsort} (g_NewPeekUpdate : bool) (nd : node) (us : list User) (il : ILS)
    : outcome (bool * node * list User * ILS * Z) :=
  if negb g_NewPeekUpdate then Done (g_NewPeekUpdate, nd, us, il, 0)
  else
    il ← InitILS il (g_NumPeers (nd_peers nd));
    '(us, il, numChunksScheduled) ← PopulateILSQueue us il;
    '(us, il) ← (if 0 <? numChunksScheduled then
                   '(us, il, _) ← FindBestSchedule g (nd_peers nd) us il;
                   Done (us, il)
                 else Done (us, il));
    _ ← c_assert (qlen (sendQueue il) =? numChunksScheduled);
    '(nd, _, _, _) ← foldM (send_one us) (nd, 0, 0, 0) (il_q (sendQueue il));
    Done (false, nd, us, il, numChunksScheduled).
End requests.
