(* ===== verification/IlsTheorems.v ===== *)
(** * Intelligent load shedding: theorems

    The schedule of [Ils] terminates, keeps every chunk, moves the smallest
    chunks of a disk and stops when the network is the bottleneck; the queues
    that it starts from hold exactly the chunks that connections wait for. *)

From Stdlib Require Import ZArith Lia SpecFloat.
From stdpp Require Import base list option numbers gmap sorting.
From S2P Require Import Prelude Bytes Rabin Mrc MrcLevels Hashtable Protocol ChunkCache Hrw Peer.
From S2P Require Import Reassemble Receiver ChunkRequest Disk Node NodeTheorems Ils.

(** ** The order of floating-point numbers *)

(** The place of a number that is not a NaN in the order, lexicographically. *)
Definition rank (x : spec_float) : option (Z * Z * Z) :=
  match x with
  | S754_nan => None
  | S754_infinity true => Some (-2, 0, 0)
  | S754_finite true m e => Some (-1, - e, - Z.pos m)
  | S754_zero _ => Some (0, 0, 0)
  | S754_finite false m e => Some (1, e, Z.pos m)
  | S754_infinity false => Some (2, 0, 0)
  end.

Definition lex_lt (a b : Z * Z * Z) : Prop :=
  a.1.1 < b.1.1 ∨ a.1.1 = b.1.1 ∧ (a.1.2 < b.1.2 ∨ a.1.2 = b.1.2 ∧ a.2 < b.2).

Lemma SFcompare_rank x y :
  match SFcompare x y with
  | None => rank x = None ∨ rank y = None
  | Some c => ∃ a b, rank x = Some a ∧ rank y = Some b ∧
      match c with Eq => a = b | Lt => lex_lt a b | Gt => lex_lt b a end
  end.
Proof.
  unfold lex_lt. destruct x as [sx|sx| |sx mx ex], y as [sy|sy| |sy my ey];
    try destruct sx; try destruct sy; cbn; auto;
    try (eexists _, _; split_and!; [reflexivity|reflexivity|cbn; auto; lia]).
  all: destruct (Z.compare_spec ex ey) as [->|He|He];
    try (eexists _, _; split_and!; [reflexivity|reflexivity|cbn; lia]).
  all: change (PosDef.Pos.compare_cont Eq mx my) with (mx ?= my)%positive;
    destruct (Pos.compare_spec mx my) as [->|Hm|Hm]; cbn;
    eexists _, _; (split_and!; [reflexivity|reflexivity|cbn; try reflexivity; lia]).
Qed.

Lemma SFltb_rank x y :
  SFltb x y = true ↔ ∃ a b, rank x = Some a ∧ rank y = Some b ∧ lex_lt a b.
Proof.
  unfold SFltb. pose proof (SFcompare_rank x y) as H. destruct (SFcompare x y) as [c|].
  - destruct H as (a & b & Ha & Hb & Hc). rewrite Ha, Hb. unfold lex_lt in *. destruct c; split; try done.
    + subst b. intros (a' & b' & [= <-] & [= <-] & Hl). lia.
    + eauto.
    + intros (a' & b' & [= <-] & [= <-] & Hl). lia.
  - split; [done|]. intros (a & b & Ha & Hb & _). destruct H as [H|H]; congruence.
Qed.

Lemma SFleb_rank x y :
  SFleb x y = true ↔ ∃ a b, rank x = Some a ∧ rank y = Some b ∧ ¬ lex_lt b a.
Proof.
  unfold SFleb. pose proof (SFcompare_rank x y) as H. destruct (SFcompare x y) as [c|].
  - destruct H as (a & b & Ha & Hb & Hc). rewrite Ha, Hb. unfold lex_lt in *. destruct c; split; try done.
    + subst b. intros _. eexists _, _. split_and!; [done|done|lia].
    + intros _. eexists _, _. split_and!; [done|done|lia].
    + intros (a' & b' & [= <-] & [= <-] & Hl). lia.
  - split; [done|]. intros (a & b & Ha & Hb & _). destruct H as [H|H]; congruence.
Qed.

(** What is not above the maximum so far is not above a new one. *)
Lemma SFltb_max m x y : SFltb m x = false → SFltb m y = true → SFltb y x = false.
Proof.
  intros Hx Hy. destruct (SFltb y x) eqn:E; [|done].
  apply SFltb_rank in Hy as (a & b & Ha & Hb & Hl), E as (b' & c & Hb' & Hc & Hl').
  rewrite <-Hx. symmetry. apply SFltb_rank. exists a, c. assert (b' = b) as -> by congruence.
  unfold lex_lt in *. split_and!; [done|done|lia].
Qed.
Lemma SFltb_le m x n : SFltb m x = false → SFleb m n = true → SFltb n x = false.
Proof.
  intros Hx Hn. destruct (SFltb n x) eqn:E; [|done].
  apply SFleb_rank in Hn as (a & b & Ha & Hb & Hl). apply SFltb_rank in E as (b' & c & Hb' & Hc & Hl').
  rewrite <-Hx. symmetry. apply SFltb_rank. exists a, c. assert (b' = b) as -> by congruence.
  unfold lex_lt in *. split_and!; [done|done|lia].
Qed.

(** [max_disk] finds a queue that no other one exceeds. *)
Lemma max_disk_ok l n :
  (n ≤ length l)%nat → ∃ m i, max_disk l n = Done (m, i) ∧
    (∀ j q, (j < n)%nat → l !! j = Some q → SFltb m (il_latency q) = false) ∧
    (i < n ∧ (∃ q, l !! i = Some q ∧ il_latency q = m) ∨ i = 0 ∧ m = float_of_int (-1))%nat.
Proof.
  intros Hn. unfold max_disk.
  match goal with |- context [foldM ?f ?s0 _] =>
    destruct (foldM_total f (λ done '(m, i),
      (∀ j q, j ∈ done → l !! j = Some q → SFltb m (il_latency q) = false) ∧
      (i ∈ done ∧ (∃ q, l !! i = Some q ∧ il_latency q = m) ∨ i = 0%nat ∧ m = float_of_int (-1)))
      s0 (seq 0 n)) as ((m & i) & He & Hm & Hi) end.
  - split; [|by right]. intros j q Hj. by apply not_elem_of_nil in Hj.
  - intros l1 a l2 (m & i) Hsplit [Hm Hi].
    assert (a < length l)%nat as Ha.
    { assert (a ∈ seq 0 n) as Ha%elem_of_seq by (rewrite Hsplit; set_solver). lia. }
    destruct (lookup_lt_is_Some_2 l a Ha) as [q Hq]. rewrite (proj2 (get_Done _ _ _) Hq). cbn [mbind outcome_bind].
    destruct (SFltb m (il_latency q)) eqn:E.
    + eexists (_, _). split; [done|]. split; [|left; split; [set_solver|by exists q]].
      intros j r [Hj| ->%list_elem_of_singleton]%elem_of_app Hr; [by eapply SFltb_max; eauto|].
      assert (r = q) as -> by congruence. destruct (SFltb (il_latency q) (il_latency q)) eqn:E2; [|done].
      apply SFltb_rank in E2 as (x & y & Hx & Hy & Hl). unfold lex_lt in Hl. assert (x = y) as -> by congruence. lia.
    + eexists (_, _). split; [done|]. split; [|destruct Hi as [[H1 H2]|?]; [left; split; [set_solver|done]|by right]].
      intros j r [Hj| ->%list_elem_of_singleton]%elem_of_app Hr; [by eauto|]. by assert (r = q) as -> by congruence.
  - exists m, i. split; [done|]. split.
    + intros j q Hj Hq. eapply Hm; [|done]. apply elem_of_seq. lia.
    + destruct Hi as [[Hi Hq]|?]; [left; split; [apply elem_of_seq in Hi; lia|done]|by right].
Qed.

(** ** Chunk names under changes *)

(** A connection without what a schedule changes. *)
Definition erase_ri (ri : ReassembleInfo) : ReassembleInfo := set_names (set_isNetwork false <$> ri_nameList ri) ri.
Definition erase (u : User) : User :=
  {| us_fd := us_fd u; us_closed := us_closed u;
     us_recv := Reassemble.set_lists (erase_ri <$> rs_reassembleList (us_recv u)) (rs_readyList (us_recv u)) (us_recv u);
     us_numMoves := 0; us_moveBytes := 0; us_sip := us_sip u; us_sport := us_sport u;
     us_dip := us_dip u; us_dport := us_dport u |}.

(** The connections differ in [isNetwork] and in the counters of moves only. *)
Definition same_users (us us' : list User) : Prop := erase <$> us' = erase <$> us.
#[export] Instance same_users_equiv : Equivalence same_users.
Proof.
  unfold same_users. split; [by intros us|by intros us us' H|].
  intros us1 us2 us3 H1 H2. congruence.
Qed.

Lemma find_erase p l :
  list_find (λ ri, ri_ptr ri = p) (erase_ri <$> l) = prod_map id erase_ri <$> list_find (λ ri, ri_ptr ri = p) l.
Proof.
  induction l as [|ri l IH]; [done|]. cbn [fmap list_fmap list_find]. cbn [erase_ri set_names ri_ptr].
  case_decide; [done|]. rewrite IH. by destruct (list_find _ l) as [[i x]|].
Qed.

Lemma read_erase us q : read_cni (erase <$> us) q = set_isNetwork false <$> read_cni us q.
Proof.
  unfold read_cni, get. rewrite list_lookup_fmap. destruct (us !! _) as [u|]; [|done].
  cbn [fmap option_fmap option_map mbind outcome_bind erase us_recv]. unfold find_ri.
  cbn [Reassemble.set_lists rs_reassembleList]. rewrite find_erase.
  destruct (list_find _ _) as [[i ri]|]; [|done]. cbn.
  rewrite list_lookup_fmap. by destruct (ri_nameList ri !! _).
Qed.

Lemma read_same us us' q c :
  same_users us us' → read_cni us q = Done c →
  ∃ c', read_cni us' q = Done c' ∧ set_isNetwork false c' = set_isNetwork false c.
Proof.
  intros Hs Hr. pose proof (read_erase us' q) as H'. rewrite Hs, read_erase, Hr in H'.
  destruct (read_cni us' q) as [c'|]; [|done]. exists c'. injection H' as H'. split; [done|].
  unfold set_isNetwork. congruence.
Qed.

Lemma same_length c c' : set_isNetwork false c' = set_isNetwork false c → cni_length c' = cni_length c.
Proof. by intros [= _ _ -> _ _]. Qed.

Lemma update_ri_find p f l i ri :
  list_find (λ ri, ri_ptr ri = p) l = Some (i, ri) →
  update_ri p f l = (ri' ← f ri; Done (<[i := ri']> l)).
Proof.
  revert i. induction l as [|x l IH]; intros i; [done|]. cbn. destruct (decide (ri_ptr x = p)) as [E|E].
  - intros [= <- <-]. by destruct (f x).
  - destruct (list_find _ l) as [[j y]|] eqn:Ef; [|done]. intros [= <- ->]. rewrite (IH j) by done.
    by destruct (f ri).
Qed.

Lemma find_insert p p' l i ri ri' :
  list_find (λ ri, ri_ptr ri = p) l = Some (i, ri) → ri_ptr ri' = p →
  list_find (λ ri, ri_ptr ri = p') (<[i := ri']> l) =
    if decide (p' = p) then Some (i, ri') else list_find (λ ri, ri_ptr ri = p') l.
Proof.
  revert i. induction l as [|x l IH]; intros i; [done|]. cbn [list_find].
  destruct (decide (ri_ptr x = p)) as [E|E].
  - intros [= <- <-] Hp. cbn. rewrite E, Hp. destruct (decide (p' = p)) as [->|Hne].
    + by rewrite decide_True.
    + by rewrite !(decide_False (P := p = p')).
  - destruct (list_find _ l) as [[j y]|] eqn:Ef; [|done]. intros [= <- ->] Hp.
    change (<[S j := ri']> (x :: l)) with (x :: <[j := ri']> l). cbn [list_find].
    rewrite (IH j eq_refl Hp). destruct (decide (p' = p)) as [->|Hne]; [|done].
    by rewrite (decide_False (P := ri_ptr x = p)).
Qed.

(** A change of a chunk that [read_cni] finds. *)
Lemma update_user_find us i u p k ri f ri' :
  us !! i = Some u → list_find (λ ri, ri_ptr ri = p) (rs_reassembleList (us_recv u)) = Some (k, ri) →
  f ri = Done ri' →
  update_user us i (with_ri p f) =
    Done (<[i := set_recv (Reassemble.set_lists (<[k := ri']> (rs_reassembleList (us_recv u)))
                             (rs_readyList (us_recv u)) (us_recv u)) u]> us).
Proof.
  intros Hu Hk Hf. unfold update_user. rewrite (proj2 (get_Done _ _ _) Hu). cbn [mbind outcome_bind].
  unfold with_ri. rewrite (update_ri_find _ _ _ _ _ Hk), Hf. cbn [mbind outcome_bind].
  apply put_Done. split; [by apply lookup_lt_Some in Hu|done].
Qed.

Lemma find_ri_Done rs p ri :
  find_ri rs p = Done ri ↔ ∃ k, list_find (λ ri, ri_ptr ri = p) (rs_reassembleList rs) = Some (k, ri).
Proof.
  unfold find_ri. destruct (list_find _ _) as [[k x]|]; split.
  - intros [= <-]. eauto.
  - by intros (k' & [= -> ->]).
  - done.
  - by intros (k' & [=]).
Qed.

Lemma find_ptr p l k ri : list_find (λ ri, ri_ptr ri = p) l = Some (k, ri) → ri_ptr ri = p ∧ l !! k = Some ri.
Proof. intros (H1 & H2 & _)%list_find_Some. done. Qed.

Lemma write_isNetwork_ok us p b c :
  read_cni us p = Done c → ∃ us', write_isNetwork us p b = Done us' ∧
    (∀ q, read_cni us' q = if decide (q = p) then Done (set_isNetwork b c) else read_cni us q) ∧
    same_users us us'.
Proof.
  destruct p as [i r k]. unfold read_cni at 1. cbn [cp_user cp_ri cp_name].
  intros (u & Hu%get_Done & (ri & (j & Hj)%find_ri_Done & Hc%get_Done)%bind_Done)%bind_Done.
  destruct (find_ptr _ _ _ _ Hj) as [Hptr Hlk]. unfold write_isNetwork. cbn [cp_user cp_ri cp_name].
  eassert (update (ri_nameList ri) k (set_isNetwork b) = Done _) as Hup by (apply update_Done; eauto).
  erewrite (update_user_find us i u r j ri _ (set_names (<[k := set_isNetwork b c]> (ri_nameList ri)) ri) Hu Hj);
    [|cbv beta; by rewrite Hup].
  eexists. split; [done|]. split.
  - intros [i' r' k']. unfold read_cni. cbn [cp_user cp_ri cp_name]. destruct (decide (i' = i)) as [->|Hi].
    2:{ rewrite get_insert_ne, decide_False by congruence. done. }
    rewrite (get_insert_eq _ _ _ _ Hu), (proj2 (get_Done _ _ _) Hu). cbn [mbind outcome_bind set_recv us_recv].
    unfold find_ri. cbn [Reassemble.set_lists rs_reassembleList]. erewrite find_insert; [|exact Hj|exact Hptr].
    destruct (decide (r' = r)) as [->|Hr]; [|rewrite decide_False by congruence; done]. rewrite Hj.
    cbn [mbind outcome_bind set_names ri_nameList]. destruct (decide (k' = k)) as [->|Hk].
    + rewrite decide_True by done. by eapply get_insert_eq.
    + rewrite get_insert_ne, decide_False by congruence. done.
  - unfold same_users. rewrite list_fmap_insert. apply list_insert_id. rewrite list_lookup_fmap, Hu. cbn. f_equal.
    unfold erase. cbn. f_equal. unfold Reassemble.set_lists. cbn. f_equal. symmetry.
    rewrite list_fmap_insert. apply list_insert_id. rewrite list_lookup_fmap, Hlk. cbn. f_equal.
    unfold erase_ri, set_names. cbn. f_equal. symmetry. rewrite list_fmap_insert. apply list_insert_id.
    rewrite list_lookup_fmap, Hc. done.
Qed.

Lemma count_move_ok us i len u :
  us !! i = Some u → ∃ us', update us i (count_move len) = Done us' ∧
    (∀ q, read_cni us' q = read_cni us q) ∧ same_users us us'.
Proof.
  intros Hu. eexists. split; [apply update_Done; eauto|]. split.
  - intros q. unfold read_cni. destruct (decide (cp_user q = i)) as [->|Hi].
    + by rewrite (get_insert_eq _ _ _ _ Hu), (proj2 (get_Done _ _ _) Hu).
    + by rewrite get_insert_ne.
  - unfold same_users. rewrite list_fmap_insert. apply list_insert_id. by rewrite list_lookup_fmap, Hu.
Qed.

(** ** Latencies are not negative *)

Lemma SF_iter_pos_inv {A} (P : A → Prop) (f : A → A) (n : positive) x : (∀ y, P y → P (f y)) → P x → P (@SpecFloat.iter_pos A f n x).
Proof. intros Hf. revert x. induction n as [n IH|n IH|]; intros x Hx; cbn; auto. Qed.

Lemma shr_pos prec emax m e l :
  0 ≤ m → 0 ≤ shr_m (shr_fexp prec emax m e l).1.
Proof.
  intros Hm. unfold shr_fexp.
  assert (∀ n, 0 ≤ shr_m (shr (shr_record_of_loc m l) e n).1) as H; [|apply H].
  intros n. unfold shr. assert (0 ≤ shr_m (shr_record_of_loc m l)) as H0 by (by destruct l as [|[]]).
  destruct n; cbn [fst]; [done| |done]. apply (SF_iter_pos_inv (λ r, 0 ≤ shr_m r)); [|done].
  intros [y r s]. cbn. destruct y as [|[]|[]]; cbn; lia.
Qed.

Lemma round_pos m l : 0 ≤ m → 0 ≤ round_nearest_even m l.
Proof. unfold round_nearest_even. intros Hm. destruct l as [|[]]; [lia|destruct (Z.even m); lia|lia|lia]. Qed.

Lemma float_nonneg z : 0 ≤ z → ∃ a, rank (float_of_int z) = Some a ∧ 0 ≤ a.1.1.
Proof.
  intros Hz. unfold float_of_int, binary_normalize. destruct z as [|m|m]; [eexists; split; [done|cbn; lia]| |lia].
  unfold binary_round. destruct (shl_align _ _ _) as [mz ez]. unfold binary_round_aux.
  pose proof (shr_pos 24 128 (Z.pos mz) ez loc_Exact ltac:(lia)) as H1.
  destruct (shr_fexp 24 128 (Z.pos mz) ez loc_Exact) as [r1 e1]. cbn [fst] in H1.
  pose proof (shr_pos 24 128 _ e1 loc_Exact (round_pos _ (loc_of_shr_record r1) H1)) as H2.
  destruct (shr_fexp 24 128 _ e1 loc_Exact) as [r2 e2]. cbn [fst] in H2.
  destruct (shr_m r2) as [|m2|m2]; [eexists; split; [done|cbn; lia]| |lia].
  destruct (e2 <=? 128 - 24); eexists; (split; [done|cbn; lia]).
Qed.

Lemma SFltb_minus_one z : 0 ≤ z → SFltb (float_of_int (-1)) (float_of_int z) = true.
Proof.
  intros Hz. destruct (float_nonneg z Hz) as (a & Ha & Hp). apply SFltb_rank.
  exists (-1, 23, - 8388608), a. split; [by vm_compute|]. split; [done|]. left. cbn. lia.
Qed.

(** ** Queues *)

Section queues.
Context `{Digest}.

Definition len_of (us : list User) (p : cni_ptr) : Z :=
  match read_cni us p with Done c => cni_length c | Fault _ => 0 end.

(** A chunk name of the queues. *)
Definition valid_ptr (us : list User) (p : cni_ptr) : Prop :=
  ∃ c, read_cni us p = Done c ∧ 0 < cni_length c ≤ MAX_CHUNK_SIZE.

Record queue_ok (us : list User) (overhead : Z) (q : ILSQueue) : Prop := {
  qo_ptrs : Forall (valid_ptr us) (il_q q);
  qo_bytes : il_totBytes q = u32 (sum_Z ((λ p, len_of us p + overhead) <$> il_q q))
}.

Lemma len_same us us' p : same_users us us' → len_of us' p = len_of us p.
Proof.
  intros Hs. unfold len_of. destruct (read_cni us p) as [c|] eqn:E.
  - destruct (read_same _ _ _ _ Hs E) as (c' & -> & Hc). by apply same_length.
  - destruct (read_cni us' p) as [c'|] eqn:E'; [|done].
    destruct (read_same us' us _ _ ltac:(by symmetry) E') as (c & Ec & _). congruence.
Qed.

Lemma valid_same us us' p : same_users us us' → valid_ptr us p → valid_ptr us' p.
Proof.
  intros Hs (c & Hc & Hl). destruct (read_same _ _ _ _ Hs Hc) as (c' & Hc' & He).
  exists c'. split; [done|]. by rewrite (same_length _ _ He).
Qed.

Lemma queue_same us us' ov q : same_users us us' → queue_ok us ov q → queue_ok us' ov q.
Proof.
  intros Hs [Hp Hb]. split.
  - eapply Forall_impl; [exact Hp|]. intros p. by apply valid_same.
  - rewrite Hb. do 2 f_equal. apply list_fmap_ext. intros i p _. cbn. by rewrite (len_same _ _ _ Hs).
Qed.

Lemma queue_latency us ov x q : queue_ok us ov q → queue_ok us ov (set_latency x q).
Proof. by intros [? ?]; split. Qed.

Lemma u32_add a b : u32 (u32 a + b) = u32 (a + b).
Proof. unfold u32. by rewrite Zplus_mod_idemp_l. Qed.
Lemma u32_add_r a b : u32 (a + u32 b) = u32 (a + b).
Proof. unfold u32. by rewrite Zplus_mod_idemp_r. Qed.

Lemma ILSEnqueue_ok us ov q p :
  queue_ok us ov q → valid_ptr us p → 0 ≤ ov < 2 ^ 30 → qlen q + 1 < MAX_ILS_QUEUE →
  ∃ b, let q' := {| il_q := il_q q ++ [p]; il_totBytes := b; il_latency := il_latency q |} in
    ILSEnqueue us q p ov = Done q' ∧ queue_ok us ov q'.
Proof.
  intros [Hp Hb] (c & Hc & Hl) Hov Hroom. unfold MAX_CHUNK_SIZE in Hl. unfold ILSEnqueue.
  rewrite (proj2 (Z.ltb_lt _ _)), Hc by done. cbn [c_assert mbind outcome_bind].
  eexists. split; [done|]. split; cbn.
  - apply Forall_app. split; [done|]. apply Forall_singleton. exists c. split; [done|]. unfold MAX_CHUNK_SIZE. lia.
  - rewrite fmap_app, sum_Z_app, Hb, u32_add, u32_add_r, i32_id by lia. cbn. unfold len_of. rewrite Hc. f_equal. lia.
Qed.

Lemma ILSDequeue_ok us q l p :
  queue_ok us 0 q → il_q q = l ++ [p] →
  ∃ b, let q' := {| il_q := l; il_totBytes := b; il_latency := il_latency q |} in
    ILSDequeue us q = Done (q', Some p) ∧ queue_ok us 0 q' ∧ valid_ptr us p.
Proof.
  intros [Hp Hb] Hq. unfold ILSDequeue. rewrite Hq, last_snoc, removelast_last in *.
  apply Forall_app in Hp as [Hp (c & Hc & Hl)%Forall_singleton]. rewrite Hc. cbn [mbind outcome_bind].
  pose proof (u32_range (il_totBytes q - cni_length c)) as Hr. rewrite (proj2 (Z.leb_le _ _)) by lia.
  cbn [c_assert mbind outcome_bind]. eexists. split; [done|]. split; [|exists c; done]. split; cbn; [done|].
  rewrite Hb, fmap_app, sum_Z_app, <-Z.add_opp_r, u32_add. f_equal. cbn. unfold len_of at 2. rewrite Hc. unfold sum_Z. lia.
Qed.
End queues.

(** ** The loop *)

Lemma exists_last_dec {A} (l : list A) : l = [] ∨ ∃ l' x, l = l' ++ [x].
Proof. destruct l as [|x l _] using rev_ind; [by left|right; eauto]. Qed.

Lemma concat_insert_last {A B} (f : A → list B) (l : list A) i x y p :
  l !! i = Some x → f x = f y ++ [p] → concat (f <$> l) ≡ₚ p :: concat (f <$> <[i := y]> l).
Proof.
  intros Hi Hf. rewrite <-(take_drop_middle l i x Hi) at 1.
  rewrite insert_take_drop by (by eapply lookup_lt_Some).
  rewrite !fmap_app, !fmap_cons, !concat_app. cbn [concat]. rewrite Hf. solve_Permutation.
Qed.

Definition on_disk (il : ILS) : list cni_ptr := concat (il_q <$> disk_queues il).

Lemma moves_bound_on_disk il : moves_bound il = S (length (on_disk il)).
Proof.
  unfold moves_bound, on_disk. f_equal. induction (disk_queues il) as [|q l IH]; [done|].
  cbn in *. rewrite length_app. lia.
Qed.

Section loop.
Context `{Digest} {AT : Type} (g : IlsConfig).

(** The queues of a schedule: what is on disks can be read, is there once, and
    is not marked for the network, whose queue has room for all of it. *)
Record sched_ok (us : list User) (il : ILS) : Prop := {
  so_disk : Forall (queue_ok us 0) (disk_queues il);
  so_net : queue_ok us PerChunkResponseOverhead (networkQueue il);
  so_nodup : NoDup (on_disk il);
  so_flag : ∀ p c, p ∈ on_disk il → read_cni us p = Done c → cni_isNetwork c = false;
  so_room : qlen (networkQueue il) + Z.of_nat (length (on_disk il)) < MAX_ILS_QUEUE
}.

(** The latencies are those the queues predict. *)
Record latencies_ok (il : ILS) : Prop := {
  lo_disk : Forall (λ q, ∀ n, q = ILSUpdateDiskLatency g q n) (disk_queues il);
  lo_net : ∀ n, ILSUpdateNetworkLatency g (networkQueue il) n = Done (networkQueue il)
}.

Definition settled (il : ILS) : Prop :=
  SFleb (S754_zero false) (il_latency (networkQueue il)) = true →
  Forall (λ q, SFltb (il_latency (networkQueue il)) (il_latency q) = false) (disk_queues il).

(** [k] chunks at the end of every disk queue move. *)
Definition shortened (l l' : list ILSQueue) (moved : list cni_ptr) : Prop :=
  Forall2 (λ q q', ∃ m, il_q q = il_q q' ++ m ∧ Forall (λ p, p ∈ moved) m) l l'.

Lemma shortened_refl l moved : shortened l l moved.
Proof. unfold shortened. induction l; constructor; [|done]. exists []. by rewrite app_nil_r. Qed.

Lemma settled_empty il i q :
  latencies_ok il → disk_queues il !! i = Some q → il_q q = [] →
  (∀ j r, disk_queues il !! j = Some r → SFltb (il_latency q) (il_latency r) = false) → settled il.
Proof.
  intros Hl Hq He Hmax H0. apply Forall_lookup. intros j r Hr.
  assert (il_latency q = S754_zero false) as Hz.
  { rewrite (Forall_lookup_1 _ _ _ _ (lo_disk _ Hl) Hq 0). cbn. unfold qlen. rewrite He. cbn.
    by rewrite Z.mul_0_r. }
  eapply SFltb_le; [by eapply Hmax|]. by rewrite Hz.
Qed.

Lemma disk_latency_above il i q :
  latencies_ok il → disk_queues il !! i = Some q → SFltb (float_of_int (-1)) (il_latency q) = true.
Proof.
  intros Hl Hq. rewrite (Forall_lookup_1 _ _ _ _ (lo_disk _ Hl) Hq 0). cbn. apply SFltb_minus_one.
  pose proof (u32_range (g_SeekLatency g * u32 (qlen q + 0))). lia.
Qed.
Definition flagged (us us' : list User) (moved : list cni_ptr) : Prop :=
  ∀ p c, read_cni us p = Done c →
    read_cni us' p = Done (if decide (p ∈ moved) then set_isNetwork true c else c).

Context (ps : peers AT) (npb : Z).
Context (Hsha : Z.of_nat SHA1_LEN < 2 ^ 20) (Hbw : 0 < g_WanLinkBW g).

Lemma overhead_range : 0 ≤ PerChunkResponseOverhead < 2 ^ 30.
Proof. unfold PerChunkResponseOverhead, sizeof_WABodyResponse, sizeof_WAOneResponse. lia. Qed.

(** An iteration stops, or moves the last chunk of a disk queue. *)
Lemma move_chunks_step fuel us il k :
  sched_ok us il → latencies_ok il → length (disk_queues il) = Z.to_nat (g_NumPeers ps) →
  (0 < Z.to_nat (g_NumPeers ps) ≤ length (g_PeerInfo ps))%nat →
  move_chunks g (S fuel) ps npb us il k = Done (us, il, k) ∧ settled il ∨
  ∃ us1 il1 p, move_chunks g (S fuel) ps npb us il k = move_chunks g fuel ps npb us1 il1 (i32 (k + 1)) ∧
    sched_ok us1 il1 ∧ latencies_ok il1 ∧ length (disk_queues il1) = length (disk_queues il) ∧
    same_users us us1 ∧ flagged us us1 [p] ∧ on_disk il ≡ₚ p :: on_disk il1 ∧
    il_q (networkQueue il1) = il_q (networkQueue il) ++ [p] ∧ sendQueue il1 = sendQueue il ∧
    shortened (disk_queues il) (disk_queues il1) [p].
Proof.
  intros Hok Hlat Hlen Hn. cbn [move_chunks].
  destruct (max_disk_ok (disk_queues il) (Z.to_nat (g_NumPeers ps))) as (m & i & -> & Hmax & Hi); [lia|].
  cbn [mbind outcome_bind]. destruct (SFleb m _) eqn:Em.
  { left. split; [done|]. intros _. apply Forall_lookup. intros j q Hq. eapply SFltb_le; [|done].
    eapply Hmax; [|done]. rewrite <-Hlen. by eapply lookup_lt_Some. }
  assert (∃ q, disk_queues il !! i = Some q ∧ il_latency q = m) as (q & Hq & Hm).
  { destruct Hi as [[_ Hi]|[-> ->]]; [done|]. destruct (lookup_lt_is_Some_2 (disk_queues il) 0) as [q Hq]; [lia|].
    specialize (Hmax 0%nat q ltac:(lia) Hq). by rewrite (disk_latency_above il 0 q Hlat Hq) in Hmax. }
  rewrite (proj2 (get_Done _ _ _) Hq). cbn [mbind outcome_bind].
  pose proof (Forall_lookup_1 _ _ _ _ (so_disk _ _ Hok) Hq) as Hqok.
  destruct (exists_last_dec (il_q q)) as [He|(l & p & He)].
  { left. unfold ILSDequeue. rewrite He. cbn. split; [done|]. eapply settled_empty; [done|exact Hq|done|].
    intros j r Hr. rewrite Hm. eapply Hmax; [|done]. rewrite <-Hlen. by eapply lookup_lt_Some. }
  right. destruct (ILSDequeue_ok us q l p Hqok He) as (b & -> & Hqok' & Hp). cbn [mbind outcome_bind].
  set (q' := {| il_q := l; il_totBytes := b; il_latency := il_latency q |}) in *.
  set (l' := <[i := ILSUpdateDiskLatency g q' 0]> (disk_queues il)).
  assert (on_disk il ≡ₚ p :: concat (il_q <$> l')) as Hperm.
  { unfold on_disk, l'. eapply concat_insert_last; [exact Hq|]. by rewrite He. }
  pose proof (Permutation_length Hperm) as Hplen. cbn in Hplen.
  destruct (ILSEnqueue_ok us PerChunkResponseOverhead (networkQueue il) p (so_net _ _ Hok) Hp overhead_range)
    as (b2 & -> & Hnok).
  { pose proof (so_room _ _ Hok). lia. }
  cbn [mbind outcome_bind]. destruct Hp as (c & Hc & Hcl). rewrite Hc. cbn [mbind outcome_bind].
  assert (p ∈ on_disk il) as Hin by (rewrite Hperm; by left).
  rewrite (so_flag _ _ Hok p c Hin Hc). cbn [negb c_assert mbind outcome_bind].
  destruct (write_isNetwork_ok us p true c Hc) as (us1 & -> & Hread & Hs1). cbn [mbind outcome_bind].
  assert (∃ u, us1 !! cp_user p = Some u) as [u Hu].
  { pose proof (Hread p) as Hr. rewrite decide_True in Hr by done. unfold read_cni in Hr.
    apply bind_Done in Hr as (u & Hu%get_Done & _). eauto. }
  destruct (count_move_ok us1 _ (cni_length c) u Hu) as (us2 & -> & Hread2 & Hs2). cbn [mbind outcome_bind].
  destruct (lookup_lt_is_Some_2 (g_PeerInfo ps) i) as [pi Hpi].
  { apply lookup_lt_Some in Hq. lia. }
  rewrite (proj2 (get_Done _ _ _) Hpi). cbn [mbind outcome_bind].
  rewrite (proj2 (put_Done _ _ _ _) (conj (lookup_lt_Some _ _ _ Hq) eq_refl)). cbn [mbind outcome_bind].
  unfold ILSUpdateNetworkLatency at 1. rewrite (proj2 (Z.ltb_lt _ _)) by done. cbn [c_assert mbind outcome_bind].
  eexists us2, _, p. split; [reflexivity|].
  assert (same_users us us2) as Hs by (by etrans).
  assert (flagged us us2 [p]) as Hflag.
  { intros r d Hr. rewrite Hread2, Hread. destruct (decide (r = p)) as [->|Hne].
    - rewrite decide_True by (by left). congruence.
    - rewrite decide_False by (by intros ->%list_elem_of_singleton). done. }
  split_and!; [| | |done|done|exact Hperm|done|done|].
  - pose proof (so_nodup _ _ Hok) as Hnd. rewrite Hperm in Hnd. apply NoDup_cons in Hnd as [Hnp Hnd].
    split; cbn [disk_queues set_network set_disk_queues diskQueue default networkQueue].
    + apply Forall_insert; [eapply Forall_impl; [apply (so_disk _ _ Hok)|]; intros r; by apply queue_same|].
      apply queue_latency. by apply (queue_same us).
    + apply queue_latency. by apply (queue_same us).
    + exact Hnd.
    + intros r d Hr Hd. destruct (read_same _ us r d ltac:(by symmetry) Hd) as (d0 & Hd0 & _).
      pose proof (Hflag r d0 Hd0) as Hf. rewrite decide_False in Hf; [|by intros ->%list_elem_of_singleton].
      assert (d = d0) as -> by congruence. apply (so_flag _ _ Hok r); [|done]. rewrite Hperm. by right.
    + pose proof (so_room _ _ Hok) as Hroom. unfold qlen in *. unfold on_disk in *.
      cbn [il_q set_latency networkQueue set_network disk_queues diskQueue set_disk_queues default].
      change (<[i := ILSUpdateDiskLatency g q' (pi_diskPendingChunks pi)]> (disk_queues il)) with l'.
      cbn [id]. rewrite length_app. cbn [length]. lia.
  - split; cbn [disk_queues set_network set_disk_queues diskQueue default networkQueue].
    + apply Forall_insert; [apply (lo_disk _ Hlat)|]. done.
    + intros n. unfold ILSUpdateNetworkLatency. by rewrite (proj2 (Z.ltb_lt _ _)) by done.
  - cbn. by rewrite length_insert.
  - unfold shortened. cbn [disk_queues set_network set_disk_queues diskQueue default]. fold l'.
    rewrite <-(list_insert_id _ _ _ Hq) at 1. apply Forall2_insert; [by apply shortened_refl|].
    exists [p]. split; [by rewrite He|]. apply Forall_singleton. by left.
Qed.
Lemma flagged_trans us1 us2 us3 m1 m2 :
  flagged us1 us2 m1 → flagged us2 us3 m2 → flagged us1 us3 (m1 ++ m2).
Proof.
  intros H1 H2 p c Hc. rewrite (H2 p _ (H1 p c Hc)). f_equal.
  destruct (decide (p ∈ m1)), (decide (p ∈ m2)), (decide (p ∈ m1 ++ m2)); set_solver.
Qed.

Lemma shortened_trans l1 l2 l3 m1 m2 :
  shortened l1 l2 m1 → shortened l2 l3 m2 → shortened l1 l3 (m1 ++ m2).
Proof.
  unfold shortened. intros H1. revert l3. induction H1 as [|q1 q2 l1 l2 (a & Ha & Fa) H1 IH]; intros l3 H2;
    inversion H2 as [|? q3 ? l3' (b & Hb & Fb) H3]; subst; constructor; [|by apply IH].
  exists (b ++ a). rewrite Ha, Hb, app_assoc. split; [done|]. rewrite Forall_app. split.
  - eapply Forall_impl; [exact Fb|]. set_solver.
  - eapply Forall_impl; [exact Fa|]. set_solver.
Qed.

(** With the fuel of [FindBestSchedule] the loop ends, and it ends settled. *)
Lemma move_chunks_ok fuel : ∀ us il k,
  (moves_bound il ≤ fuel)%nat → sched_ok us il → latencies_ok il →
  length (disk_queues il) = Z.to_nat (g_NumPeers ps) →
  (0 < Z.to_nat (g_NumPeers ps) ≤ length (g_PeerInfo ps))%nat →
  0 ≤ k ∧ k + Z.of_nat (length (on_disk il)) < 2 ^ 31 →
  ∃ us' il' moved, move_chunks g fuel ps npb us il k = Done (us', il', k + Z.of_nat (length moved)) ∧
    sched_ok us' il' ∧ latencies_ok il' ∧ settled il' ∧
    same_users us us' ∧ flagged us us' moved ∧ on_disk il ≡ₚ moved ++ on_disk il' ∧
    il_q (networkQueue il') = il_q (networkQueue il) ++ moved ∧ sendQueue il' = sendQueue il ∧
    shortened (disk_queues il) (disk_queues il') moved.
Proof.
  induction fuel as [|fuel IH]; intros us il k Hf Hok Hlat Hlen Hn Hk; rewrite moves_bound_on_disk in Hf; [lia|].
  destruct (move_chunks_step fuel us il k Hok Hlat Hlen Hn) as [[He Hs]|(us1 & il1 & p & He & Hok1 & Hlat1 & Hlen1 &
    Hsame & Hflag & Hperm & Hnet & Hsend & Hsh)]; rewrite He.
  - exists us, il, []. rewrite Z.add_0_r, !app_nil_r. split_and!; try done; [|apply shortened_refl].
    intros p c Hc. by rewrite decide_False by apply not_elem_of_nil.
  - pose proof (Permutation_length Hperm) as Hpl. cbn in Hpl.
    destruct (IH us1 il1 (i32 (k + 1))) as (us' & il' & moved & He' & Hok' & Hlat' & Hset & Hsame' & Hflag' & Hperm' &
      Hnet' & Hsend' & Hsh'); try done.
    + rewrite moves_bound_on_disk. lia.
    + congruence.
    + rewrite i32_id by lia. lia.
    + rewrite i32_id in He' by lia. exists us', il', (p :: moved).
      rewrite i32_id, He' by lia. split_and!; try done.
      * do 2 f_equal. cbn [length]. lia.
      * by etrans.
      * by apply (flagged_trans us us1 us' [p]).
      * by rewrite Hperm, Hperm'.
      * by rewrite Hnet', Hnet, <-app_assoc.
      * congruence.
      * by apply (shortened_trans _ (disk_queues il1) _ [p]).
Qed.
End loop.

(** ** Sorting *)

Section sorting.
Context `{Qsort}.

Lemma CompareChunkSizes_ok : cmp_ok (λ x y : cni_ptr * ChunkNameInfo, CompareChunkSizes x.2 y.2).
Proof.
  unfold CompareChunkSizes. split; intros; repeat case_match; repeat match goal with
    | H : (_ <? _) = true |- _ => apply Z.ltb_lt in H | H : (_ <? _) = false |- _ => apply Z.ltb_ge in H end; lia.
Qed.

(** Larger chunks come first. *)
Definition largest_first (us : list User) : list cni_ptr → Prop :=
  StronglySorted (λ p q, len_of us q ≤ len_of us p).

Lemma read_all_ok us l :
  Forall (valid_ptr us) l → ∃ cells, read_all us l = Done cells ∧ fst <$> cells = l ∧
    Forall (λ x, read_cni us x.1 = Done x.2) cells.
Proof.
  induction 1 as [|p l (c & Hc & _) _ (cells & He & Hl & Hall)]; [by exists []|].
  exists ((p, c) :: cells). cbn. rewrite Hc, He. cbn. split_and!; [done|by rewrite Hl|by constructor].
Qed.

Lemma sort_queue_ok us ov q :
  queue_ok us ov q → ∃ l, sort_queue us q = Done {| il_q := l; il_totBytes := il_totBytes q; il_latency := il_latency q |} ∧
    l ≡ₚ il_q q ∧ largest_first us l ∧ queue_ok us ov {| il_q := l; il_totBytes := il_totBytes q; il_latency := il_latency q |}.
Proof.
  intros [Hp Hb]. destruct (read_all_ok us (il_q q) Hp) as (cells & He & Hl & Hall). unfold sort_queue. rewrite He.
  cbn [mbind outcome_bind]. pose proof (qsort_perm _ _ cells CompareChunkSizes_ok) as Hperm.
  pose proof (qsort_sorted _ _ cells CompareChunkSizes_ok) as Hsort.
  set (sorted := qsort _ cells) in *. exists (fst <$> sorted).
  assert (fst <$> sorted ≡ₚ il_q q) as Hq by (by rewrite Hperm, Hl).
  split_and!; [done|done| |].
  - assert (Forall (λ x, read_cni us x.1 = Done x.2) sorted) as Hs by (by rewrite Hperm).
    unfold largest_first. clear Hperm Hq. induction Hsort as [|x l' Hl' IH Hx]; [constructor|].
    apply Forall_cons in Hs as [Hx1 Hs]. cbn. constructor; [by apply IH|].
    rewrite Forall_fmap. apply Forall_forall. intros y Hy. cbn. rewrite Forall_forall in Hx, Hs. specialize (Hx y Hy).
    unfold len_of. rewrite Hx1, (Hs y Hy). unfold CompareChunkSizes in Hx. cbn in Hx.
    destruct (cni_length x.2 <? cni_length y.2) eqn:E; [lia|]. apply Z.ltb_ge in E. done.
  - split; cbn; [by rewrite Hq|]. rewrite Hb. f_equal. apply sum_Z_perm. by rewrite Hq.
Qed.
End sorting.

Section best.
Context `{Digest} `{Qsort} {AT : Type} `{!Table (list Z) nat AT} (g : IlsConfig).

(** A disk queue once it is sorted and its latency is known. *)
Definition ready_queue (us : list User) (q q' : ILSQueue) : Prop :=
  il_q q' ≡ₚ il_q q ∧ largest_first us (il_q q') ∧ queue_ok us 0 q' ∧ ∀ n, q' = ILSUpdateDiskLatency g q' n.

Lemma sort_disks_ok (ps : peers AT) us l n :
  Forall (queue_ok us 0) l → length l = n → (n ≤ length (g_PeerInfo ps))%nat →
  ∃ l', foldM (λ l i,
      q ← get l i;
      q ← sort_queue us q;
      p ← get (g_PeerInfo ps) i;
      put l i (ILSUpdateDiskLatency g q (pi_diskPendingChunks p))) l (seq 0 n) = Done l' ∧
    Forall2 (ready_queue us) l l'.
Proof.
  intros Hok Hlen Hn.
  match goal with |- context [foldM ?f l _] =>
    destruct (foldM_total f (λ done l', length l' = n ∧
      ∀ i q, l !! i = Some q → ∃ q', l' !! i = Some q' ∧
        if decide (i ∈ done) then ready_queue us q q' else q' = q) l (seq 0 n)) as (l' & He & Hl' & Hall) end.
  - split; [done|]. intros i q Hq. exists q. by rewrite decide_False by apply not_elem_of_nil.
  - intros l1 i l2 s Hsplit [Hs Hall].
    assert (i ∈ seq 0 n) as Hi%elem_of_seq by (rewrite Hsplit; set_solver).
    assert (i ∉ l1) as Hni.
    { pose proof (NoDup_seq 0 n) as Hnd. rewrite Hsplit in Hnd. apply NoDup_app in Hnd as (_ & Hnd & _).
      intros H1. apply (Hnd i H1). set_solver. }
    destruct (lookup_lt_is_Some_2 l i) as [q Hq]; [lia|]. destruct (Hall i q Hq) as (q' & Hq' & Hx).
    rewrite decide_False in Hx by done. subst q'. rewrite (proj2 (get_Done _ _ _) Hq'). cbn [mbind outcome_bind].
    destruct (sort_queue_ok us 0 q (Forall_lookup_1 _ _ _ _ Hok Hq)) as (srt & -> & Hperm & Hfirst & Hqok).
    cbn [mbind outcome_bind]. destruct (lookup_lt_is_Some_2 (g_PeerInfo ps) i) as [p Hp]; [lia|].
    rewrite (proj2 (get_Done _ _ _) Hp). cbn [mbind outcome_bind]. eexists. split.
    + apply put_Done. split; [by eapply lookup_lt_Some|done].
    + split; [by rewrite length_insert|]. intros j r Hr. destruct (decide (j = i)) as [->|Hne].
      * rewrite list_lookup_insert_eq by (by eapply lookup_lt_Some). eexists. split; [done|].
        rewrite decide_True by set_solver. assert (r = q) as -> by congruence. split_and!; [done|done| |done].
        by apply queue_latency.
      * rewrite list_lookup_insert_ne by done. destruct (Hall j r Hr) as (r' & Hr' & Hx). exists r'. split; [done|].
        destruct (decide (j ∈ l1)), (decide (j ∈ l1 ++ [i])); set_solver.
  - exists l'. split; [done|]. apply Forall2_same_length_lookup_2; [congruence|]. intros i q q' Hq Hq'.
    destruct (Hall i q Hq) as (r & Hr & Hx). rewrite decide_True in Hx; [by assert (q' = r) as -> by congruence|].
    apply elem_of_seq. apply lookup_lt_Some in Hq. lia.
Qed.

Lemma pending_ok (ps : peers AT) n :
  (n ≤ length (g_PeerInfo ps))%nat →
  ∃ b, foldM (λ b i, p ← get (g_PeerInfo ps) i; Done (u32 (b + pi_networkPendingBytes p))) 0 (seq 0 n) = Done b.
Proof.
  intros Hn. match goal with |- context [foldM ?f _ _] =>
    destruct (foldM_total f (λ _ _, True) 0 (seq 0 n)) as (b & He & _); [done| |by exists b] end.
  intros l1 i l2 s Hsplit _. assert (i ∈ seq 0 n) as Hi%elem_of_seq by (rewrite Hsplit; set_solver).
  destruct (lookup_lt_is_Some_2 (g_PeerInfo ps) i) as [p Hp]; [lia|].
  rewrite (proj2 (get_Done _ _ _) Hp). cbn. eauto.
Qed.

Lemma ready_perm us l l' :
  Forall2 (ready_queue us) l l' → concat (il_q <$> l') ≡ₚ concat (il_q <$> l).
Proof. induction 1 as [|q q' l l' (Hp & _) _ IH]; [done|]. cbn. by rewrite Hp, IH. Qed.

(** What a schedule does with the queues. *)
Record schedule (us : list User) (il : ILS) (us' : list User) (il' : ILS) (moved : list cni_ptr) : Prop := {
  sc_same : same_users us us';
  sc_flagged : flagged us us' moved;
  sc_disk : on_disk il ≡ₚ moved ++ on_disk il';
  sc_net : il_q (networkQueue il') ≡ₚ il_q (networkQueue il) ++ moved;
  sc_send : sendQueue il' = sendQueue il;
  sc_largest : ∀ i q, disk_queues il !! i = Some q → ∃ q' m, disk_queues il' !! i = Some q' ∧
    il_q q ≡ₚ il_q q' ++ m ∧ largest_first us (il_q q' ++ m) ∧ Forall (λ p, p ∈ moved) m;
  sc_length : length (disk_queues il') = length (disk_queues il);
  sc_latencies : latencies_ok g il';
  sc_settled : settled il'
}.

Lemma FindBestSchedule_ok (ps : peers AT) (us : list User) (il : ILS) :
  peers_ok ps → Z.of_nat SHA1_LEN < 2 ^ 20 → 0 < g_WanLinkBW g →
  sched_ok us il → length (disk_queues il) = Z.to_nat (g_NumPeers ps) →
  ∃ us' il' moved, FindBestSchedule g ps us il = Done (us', il', Z.of_nat (length moved)) ∧
    schedule us il us' il' moved.
Proof.
  intros Hps Hsha Hbw Hok Hlen. pose proof (pk_len _ Hps) as Hpl. pose proof (pk_num _ Hps) as Hpn.
  assert (0 < g_NumPeers ps) as Hn0 by (destruct (pk_local _ Hps) as (? & _ & ?); lia).
  assert (Z.to_nat (g_NumPeers ps) ≤ length (g_PeerInfo ps))%nat as Hn by lia.
  unfold FindBestSchedule.
  destruct (sort_disks_ok ps us _ _ (so_disk _ _ Hok) Hlen Hn) as (l & -> & Hl). cbn [mbind outcome_bind].
  destruct (sort_queue_ok us _ _ (so_net _ _ Hok)) as (nl & -> & Hnp & _ & Hnq). cbn [mbind outcome_bind].
  destruct (pending_ok ps _ Hn) as (npb & ->). cbn [mbind outcome_bind].
  unfold ILSUpdateNetworkLatency. rewrite (proj2 (Z.ltb_lt _ _)) by done. cbn [c_assert mbind outcome_bind].
  match goal with |- context [set_network ?x _] => set (nq := x) end.
  set (il1 := set_network nq (set_disk_queues l il)).
  pose proof (ready_perm _ _ _ Hl : on_disk il1 ≡ₚ on_disk il) as Hperm.
  assert (sched_ok us il1) as Hok1.
  { split.
    - cbn. clear -Hl. induction Hl as [|q q' l0 l0' (_ & _ & Hq & _) _ IH]; by constructor.
    - by apply queue_latency.
    - rewrite Hperm. apply Hok.
    - intros p c Hp. rewrite Hperm in Hp. by apply (so_flag _ _ Hok).
    - rewrite (Permutation_length Hperm). pose proof (so_room _ _ Hok). unfold qlen in *. cbn.
      by rewrite (Permutation_length Hnp). }
  assert (latencies_ok g il1) as Hlat1.
  { split.
    - cbn. clear -Hl. induction Hl as [|q q' l0 l0' (_ & _ & _ & Hq) _ IH]; by constructor.
    - intros n. unfold ILSUpdateNetworkLatency. by rewrite (proj2 (Z.ltb_lt _ _)) by done. }
  destruct (move_chunks_ok g ps npb Hsha Hbw (moves_bound il1) us il1 0) as (us' & il' & moved & He & _ & Hlat' & Hset &
    Hsame & Hflag & Hmv & Hnet & Hsend & Hsh); try done.
  { cbn. by rewrite <-(Forall2_length _ _ _ Hl). }
  { lia. }
  { pose proof (so_room _ _ Hok1). unfold qlen, MAX_ILS_QUEUE in *. lia. }
  exists us', il', moved. rewrite He. split; [done|]. split; try done.
  - by rewrite <-Hperm.
  - rewrite Hnet. cbn. by rewrite Hnp.
  - intros i q Hq. destruct (Forall2_lookup_l _ _ _ _ _ Hl Hq) as (q1 & Hq1 & Hp1 & Hf1 & _).
    destruct (Forall2_lookup_l _ _ _ _ _ Hsh Hq1) as (q' & Hq' & m & Hm & Hin). exists q', m.
    rewrite <-Hm. split_and!; [done|by rewrite Hp1|done|done].
  - rewrite <-(Forall2_length _ _ _ Hsh). cbn. by rewrite <-(Forall2_length _ _ _ Hl).
Qed.

(** The schedule.  When every chunk of the queues can be read and is there
    once, [FindBestSchedule] ends.  The chunks it moves, and only these, are
    marked for the network, and are on the network's queue in place of their
    disk's; on every disk the chunks that stay are at least as large as those
    that move.  At the end no disk takes longer than the network, by the
    latencies that the queues predict, unless the predicted latency of the
    network is negative. *)
Theorem FindBestSchedule_balances (ps : peers AT) (us : list User) (il : ILS) :
  peers_ok ps → Z.of_nat SHA1_LEN < 2 ^ 20 → 0 < g_WanLinkBW g →
  sched_ok us il → length (disk_queues il) = Z.to_nat (g_NumPeers ps) →
  ∃ us' il' moved, FindBestSchedule g ps us il = Done (us', il', Z.of_nat (length moved)) ∧
    flagged us us' moved ∧ on_disk il ≡ₚ moved ++ on_disk il' ∧
    il_q (networkQueue il') ≡ₚ il_q (networkQueue il) ++ moved ∧
    (∀ i q, disk_queues il !! i = Some q → ∃ q' m, disk_queues il' !! i = Some q' ∧
       il_q q ≡ₚ il_q q' ++ m ∧ largest_first us (il_q q' ++ m) ∧ Forall (λ p, p ∈ moved) m) ∧
    latencies_ok g il' ∧ settled il'.
Proof.
  intros Hps Hsha Hbw Hok Hlen. destruct (FindBestSchedule_ok ps us il Hps Hsha Hbw Hok Hlen) as (us' & il' & moved & He & []).
  exists us', il', moved. split_and!; done.
Qed.
End best.

(** ** Resetting the queues *)

Lemma reset_ok l n :
  (n ≤ length l)%nat →
  foldM (λ l i, update l i ILSReset) l (seq 0 n) = Done (replicate n no_queue ++ drop n l).
Proof.
  induction n as [|n IH]; intros Hn; [done|]. rewrite seq_S, foldM_app, IH by lia. cbn [mbind outcome_bind foldM plus].
  destruct (lookup_lt_is_Some_2 l n) as [q Hq]; [lia|].
  assert (update (replicate n no_queue ++ drop n l) n ILSReset = Done (replicate (S n) no_queue ++ drop (S n) l)) as ->; [|done].
  rewrite (drop_S l q n Hq). apply update_Done. exists q. split.
  - rewrite lookup_app_r, length_replicate, Nat.sub_diag by (rewrite length_replicate; lia). done.
  - rewrite insert_app_r_alt, length_replicate, Nat.sub_diag by (rewrite length_replicate; lia). cbn.
    change (ILSReset q) with no_queue.
    change (no_queue :: replicate n no_queue ++ drop (S n) l) with (replicate (S n) no_queue ++ drop (S n) l).
    by rewrite replicate_S_end, <-app_assoc.
Qed.

Definition fresh_ILS (n : nat) : ILS :=
  {| diskQueue := Some (replicate n no_queue); networkQueue := no_queue; sendQueue := no_queue |}.

(** Queues for [n] peers, or for none yet. *)
Definition allocated (n : nat) (il : ILS) : Prop :=
  match diskQueue il with Some l => length l = n | None => True end.

Lemma InitILS_ok il n : allocated (Z.to_nat n) il → InitILS il n = Done (fresh_ILS (Z.to_nat n)).
Proof.
  unfold allocated, InitILS, fresh_ILS. destruct (diskQueue il) as [l|]; intros Hl.
  - rewrite reset_ok by lia. cbn [mbind outcome_bind]. by rewrite <-Hl, drop_all, app_nil_r.
  - rewrite reset_ok by (rewrite length_replicate; lia). cbn [mbind outcome_bind].
    by rewrite drop_ge, app_nil_r by (rewrite length_replicate; lia).
Qed.

Lemma InitILS_overrun il l n :
  diskQueue il = Some l → (length l < Z.to_nat n)%nat → InitILS il n = Fault OutOfBounds.
Proof.
  intros Hl Hn. unfold InitILS. rewrite Hl.
  replace (Z.to_nat n) with (length l + S (Z.to_nat n - length l - 1))%nat by lia.
  rewrite seq_app, foldM_app, reset_ok by lia. cbn [mbind outcome_bind seq foldM plus].
  rewrite drop_all, app_nil_r.
  assert (update (replicate (length l) no_queue) (length l) ILSReset = Fault OutOfBounds) as ->; [|done].
  unfold update, get. by rewrite lookup_ge_None_2 by (rewrite length_replicate; lia).
Qed.

Section requests.
Context `{Digest} {HT VT AT CT PT : Type} `{!Table (list Z) Z HT} `{!Table (list Z) CacheValue VT}
  `{!Table (list Z) nat AT} `{!Table (list Z) (list ChunkRequestInfo) CT}
  `{!Table (list Z) (list PeekRequestInfo) PT} `{Qsort}.
Context (env : Env) (g : IlsConfig).
#[local] Abbreviation node := (node HT VT AT CT PT).

(** The disk queues are allocated once, for the peers known then.  A proxy
    that connects from an address that is not configured becomes a peer of its
    own, and the next time that requests are scheduled the queue of that peer,
    past the end of the array, is written to. *)
Theorem unknown_peer_overruns_queues (nd : node) (us : list User) (il : ILS) (addr : list Z) :
  peers_ok (nd_peers nd) → GetPeerInfoByAddr (nd_peers nd) addr = None →
  g_NumPeers (nd_peers nd) < Z.of_nat MAX_PEER_SIZE →
  allocated (Z.to_nat (g_NumPeers (nd_peers nd))) il →
  ∃ il1 ps', InitILS il (g_NumPeers (nd_peers nd)) = Done il1 ∧
    GetPeerIdxFromFD (nd_peers nd) addr = Done (ps', g_NumPeers (nd_peers nd)) ∧
    IntelligentLoadShedding env g true (set_peers' ps' nd) us il1 = Fault OutOfBounds.
Proof.
  intros Hok Ha Hmax Hil. pose proof (pk_num _ Hok) as Hn.
  destruct (AddUnknownPeerInfo_ok (nd_peers nd) addr Hok Hmax Ha) as (ps' & He & _ & Hnum & _).
  exists (fresh_ILS (Z.to_nat (g_NumPeers (nd_peers nd)))), ps'. split_and!; [by apply InitILS_ok|done|].
  unfold IntelligentLoadShedding. cbn [negb nd_peers set_peers'].
  erewrite InitILS_overrun; [done|reflexivity|]. rewrite length_replicate. lia.
Qed.
End requests.

(** ** The theorems at a concrete node *)

(** A sort to evaluate at. *)
Definition toy_qsort : Qsort.
Proof.
  refine {| qsort := λ A cmp, @merge_sort A (λ x y, cmp x y ≤ 0) (λ x y, Z.le_dec (cmp x y) 0) |}.
  - intros A cmp l _. apply merge_sort_Permutation.
  - intros A cmp l [Htot Htrans]. apply StronglySorted_merge_sort; [exact Htrans|exact Htot].
Defined.

(** Two names of three and five bytes, on the disk of peer 1. *)
Definition toy_name (n : list Z) (len : Z) : ChunkNameInfo :=
  {| cni_isHit := true; cni_inMemory := false; cni_length := len; cni_peerIdx := 1; cni_isNetwork := false;
     cni_sha1name := n |}.
Definition toy_user (sent : bool) : User :=
  {| us_fd := 50; us_closed := false;
     us_recv := {| rs_isForward := true; rs_dstPxyIdx := 1; rs_seq_no := 1;
       rs_reassembleList := [{| ri_ptr := 0; ri_seq_no := 0; ri_numNames := 2; ri_numPeekResolved := 2;
                                ri_getSent := sent; ri_nameList := [toy_name [1; 2] 3; toy_name [3; 4] 5] |}];
       rs_readyList := if sent then [] else [0%nat]; rs_next := 1; rs_pendingNames := 2; rs_pendingBytes := 8;
       rs_numHits := 2; rs_numMisses := 0; rs_hitBytes := 8; rs_missBytes := 0; rs_sent := [] |};
     us_numMoves := 0; us_moveBytes := 0; us_sip := 1; us_sport := 2; us_dip := 3; us_dport := 4 |}.
Definition toy_ptr (k : nat) : cni_ptr := {| cp_user := 0; cp_ri := 0; cp_name := k |}.
Definition toy_ils_config : IlsConfig := {| g_SeekLatency := 15; g_WanLinkBW := 1000; g_WanLinkRTT := 20 |}.
Definition toy_ILS : ILS :=
  {| diskQueue := Some [no_queue; {| il_q := [toy_ptr 0; toy_ptr 1]; il_totBytes := 8; il_latency := S754_zero false |}; no_queue];
     networkQueue := no_queue; sendQueue := {| il_q := [toy_ptr 0; toy_ptr 1]; il_totBytes := 8; il_latency := S754_zero false |} |}.

#[local] Existing Instance toy_digest.
#[local] Existing Instance toy_qsort.

(** The smaller chunk goes over the network. *)
Lemma FindBestSchedule_balances_witness :
  ∃ (map : @hashtable (list Z) nat) us' il' moved,
    FindBestSchedule toy_ils_config (toy_peers map true) [toy_user true] toy_ILS = Done (us', il', 1) ∧
    on_disk toy_ILS ≡ₚ moved ++ on_disk il' ∧ il_q (networkQueue il') = [toy_ptr 0].
Proof.
  destruct (tbl_create_ok (K := list Z) (V := nat) (T := @hashtable (list Z) nat) 1024 ltac:(lia)) as (map & _ & Hm).
  assert (∀ k, (k < 2)%nat → valid_ptr [toy_user true] (toy_ptr k)) as Hv.
  { intros [|[|k]] Hk; [eexists; (split; [reflexivity|vm_compute; split; [reflexivity|discriminate]])..|lia]. }
  destruct (FindBestSchedule_balances toy_ils_config (toy_peers map true) [toy_user true] toy_ILS) as
    (us' & il' & moved & H1 & _ & H2 & _ & _ & _ & _).
  - exact (toy_peers_ok map true Hm).
  - reflexivity.
  - reflexivity.
  - split.
    + repeat constructor; apply Hv; lia.
    + split; [constructor|reflexivity].
    + apply NoDup_cons. split; [intros ?%list_elem_of_singleton; discriminate|apply NoDup_singleton].
    + intros p c [->|[->|[]%not_elem_of_nil]%elem_of_cons]%elem_of_cons; intros [= <-]; reflexivity.
    + reflexivity.
  - reflexivity.
  - exists map, us', il', moved. vm_compute in H1. injection H1 as <- <- Hmv. split; [|split; [exact H2|reflexivity]].
    vm_compute. reflexivity.
Defined.

#[local] Abbreviation HT := (@hashtable (list Z) Z).
#[local] Abbreviation VT := (@hashtable (list Z) CacheValue).
#[local] Abbreviation AT := (@hashtable (list Z) nat).
#[local] Abbreviation CT := (@hashtable (list Z) (list ChunkRequestInfo)).
#[local] Abbreviation PT := (@hashtable (list Z) (list PeekRequestInfo)).

Lemma unknown_peer_overruns_queues_witness :
  ∃ (nd : node HT VT AT CT PT) il1 ps',
    InitILS no_ILS 3 = Done il1 ∧ GetPeerIdxFromFD (nd_peers nd) [10; 0; 0; 9] = Done (ps', 3) ∧
    IntelligentLoadShedding toy_env toy_ils_config true (set_peers' ps' nd) [] il1 = Fault OutOfBounds.
Proof.
  destruct (tbl_create_ok (K := list Z) (V := nat) (T := AT) 1024 ltac:(lia)) as (map & _ & Hm).
  destruct (CreateCache_ok (HT := HT) (VT := VT) 1000) as (c & _ & _).
  destruct (CreateChunkRequestTable_ok (CT := CT) (PT := PT)) as (rq & _ & _).
  destruct (unknown_peer_overruns_queues toy_env toy_ils_config (toy_node c map rq) [] no_ILS [10; 0; 0; 9])
    as (il1 & ps' & H1 & H2 & H3).
  - exact (toy_peers_ok map true Hm).
  - unfold GetPeerInfoByAddr. cbn [toy_node nd_peers toy_peers peerAddrMap]. by rewrite (tbl_search_ok _ _ _ Hm).
  - reflexivity.
  - exact I.
  - exists (toy_node c map rq), il1, ps'. split; [exact H1|]. split; [exact H2|exact H3].
Defined.
