(* ===== verification/IlsRequests.v ===== *)
(** * Intelligent load shedding: what is requested

    [PopulateILSQueue] of [Ils] gathers, in the order of the connections and of
    their chunks, the names that are not in memory, and the requests that
    [IntelligentLoadShedding] sends for them account for each of these. *)

From Stdlib Require Import ZArith Lia SpecFloat.
From stdpp Require Import base list option numbers gmap sorting.
From S2P Require Import Prelude Bytes Rabin Mrc MrcLevels Hashtable Protocol ChunkCache Hrw Peer.
From S2P Require Import Reassemble Receiver ChunkRequest Disk Node NodeTheorems Ils IlsTheorems.

(** ** What gathering makes of the connections and of the queues *)

Definition pop_name (c : ChunkNameInfo) : ChunkNameInfo :=
  if cni_inMemory c then c else set_isNetwork (negb (cni_isHit c)) c.
Definition pop_ri (ri : ReassembleInfo) : ReassembleInfo :=
  set_getSent (set_names (pop_name <$> ri_nameList ri) ri).
Definition pop_user (u : User) : User :=
  if us_closed u then u
  else set_recv (Reassemble.set_lists ((λ ri, if ri_getSent ri then ri else pop_ri ri) <$> rs_reassembleList (us_recv u))
                   [] (us_recv u)) u.

(** The names of a chunk, of the ready chunks of a connection, and of all
    connections, with their addresses. *)
Definition names_of_ri (i : nat) (ri : ReassembleInfo) : list (cni_ptr * ChunkNameInfo) :=
  imap (λ k c, ({| cp_user := i; cp_ri := ri_ptr ri; cp_name := k |}, c)) (ri_nameList ri).
Definition names_of_user (i : nat) (u : User) : list (cni_ptr * ChunkNameInfo) :=
  if us_closed u then []
  else concat (names_of_ri i <$> filter (λ ri, ri_getSent ri = false) (rs_reassembleList (us_recv u))).
Definition ready_names (us : list User) : list (cni_ptr * ChunkNameInfo) := concat (imap names_of_user us).

Definition enqueue (ov : Z) (p : cni_ptr) (c : ChunkNameInfo) (q : ILSQueue) : ILSQueue :=
  {| il_q := il_q q ++ [p]; il_totBytes := u32 (il_totBytes q + u32 (i32 (cni_length c + ov)));
     il_latency := il_latency q |}.
Definition add_name `{Digest} (il : ILS) (x : cni_ptr * ChunkNameInfo) : ILS :=
  let (p, c) := x in
  if cni_inMemory c then il
  else
    set_send (enqueue 0 p c (sendQueue il))
      (if cni_isHit c
       then set_disk_queues (alter (enqueue 0 p c) (Z.to_nat (cni_peerIdx c)) (disk_queues il)) il
       else set_network (enqueue PerChunkResponseOverhead p c (networkQueue il)) il).

(** The names that are requested. *)
Definition wanted (l : list (cni_ptr * ChunkNameInfo)) : list (cni_ptr * ChunkNameInfo) :=
  filter (λ x, cni_inMemory x.2 = false) l.

Definition name_ok (n : nat) (c : ChunkNameInfo) : Prop :=
  cni_inMemory c = false → 0 ≤ cni_peerIdx c < Z.of_nat n ∧ 0 < cni_length c ≤ MAX_CHUNK_SIZE.

(** There is room for [m] more names. *)
Definition room (m : nat) (il : ILS) : Prop :=
  qlen (sendQueue il) + Z.of_nat m < MAX_ILS_QUEUE ∧ qlen (networkQueue il) + Z.of_nat m < MAX_ILS_QUEUE ∧
  Forall (λ q, qlen q + Z.of_nat m < MAX_ILS_QUEUE) (disk_queues il).

Definition put_ri (u : User) (j : nat) (ri : ReassembleInfo) : User :=
  set_recv (Reassemble.set_lists (<[j := ri]> (rs_reassembleList (us_recv u))) (rs_readyList (us_recv u)) (us_recv u)) u.

Lemma put_ri_id u j ri : rs_reassembleList (us_recv u) !! j = Some ri → put_ri u j ri = u.
Proof.
  intros Hj. unfold put_ri. rewrite list_insert_id by done. destruct u as [? ? rs]; cbn. by destruct rs.
Qed.
Lemma put_ri_put u j r1 r2 : put_ri (put_ri u j r1) j r2 = put_ri u j r2.
Proof. unfold put_ri. cbn. by rewrite list_insert_insert_eq. Qed.

Lemma alter_insert {A} (f : A → A) (l : list A) i x : l !! i = Some x → alter f i l = <[i := f x]> l.
Proof.
  intros Hx. apply list_eq. intros j. destruct (decide (i = j)) as [<-|Hne].
  - rewrite list_lookup_alter_eq, Hx, list_lookup_insert_eq by (by eapply lookup_lt_Some). done.
  - by rewrite list_lookup_alter_ne, list_lookup_insert_ne.
Qed.

Lemma put_insert_eq {A} (l : list A) i x y z : l !! i = Some x → put (<[i := y]> l) i z = Done (<[i := z]> l).
Proof.
  intros Hx. apply put_Done. rewrite length_insert, list_insert_insert_eq.
  split; [by eapply lookup_lt_Some|done].
Qed.

Lemma wanted_app l1 l2 : wanted (l1 ++ l2) = wanted l1 ++ wanted l2.
Proof. apply filter_app. Qed.

Lemma wanted_one p c : wanted [(p, c)] = if cni_inMemory c then [] else [(p, c)].
Proof. unfold wanted. rewrite filter_cons, filter_nil. cbn. by destruct (cni_inMemory c). Qed.

Section populate.
Context `{Digest}.

Lemma enqueue_ok us p c q ov :
  read_cni us p = Done c → qlen q + 1 < MAX_ILS_QUEUE → ILSEnqueue us q p ov = Done (enqueue ov p c q).
Proof. intros Hc Hq. unfold ILSEnqueue. by rewrite (proj2 (Z.ltb_lt _ _)), Hc by done. Qed.

Lemma read_put us i u j ri k c :
  us !! i = Some u → list_find (λ r, ri_ptr r = ri_ptr ri) (rs_reassembleList (us_recv u)) = Some (j, ri) →
  ri_nameList ri !! k = Some c →
  read_cni us {| cp_user := i; cp_ri := ri_ptr ri; cp_name := k |} = Done c.
Proof.
  intros Hu Hj Hk. unfold read_cni. cbn [cp_user cp_ri cp_name]. rewrite (proj2 (get_Done _ _ _) Hu). cbn [mbind outcome_bind].
  rewrite (proj2 (find_ri_Done _ _ _) (ex_intro _ _ Hj)). cbn [mbind outcome_bind]. by apply get_Done.
Qed.

Lemma write_put us i u j ri k c b :
  us !! i = Some u → list_find (λ r, ri_ptr r = ri_ptr ri) (rs_reassembleList (us_recv u)) = Some (j, ri) →
  ri_nameList ri !! k = Some c →
  write_isNetwork us {| cp_user := i; cp_ri := ri_ptr ri; cp_name := k |} b =
    Done (<[i := put_ri u j (set_names (<[k := set_isNetwork b c]> (ri_nameList ri)) ri)]> us).
Proof.
  intros Hu Hj Hk. unfold write_isNetwork. cbn [cp_user cp_ri cp_name].
  apply (update_user_find us i u (ri_ptr ri) j ri _ _ Hu Hj). rewrite (proj2 (update_Done _ _ _ _) (ex_intro _ c (conj Hk eq_refl))).
  done.
Qed.

Lemma find_put u j ri ri' :
  list_find (λ r, ri_ptr r = ri_ptr ri) (rs_reassembleList (us_recv u)) = Some (j, ri) → ri_ptr ri' = ri_ptr ri →
  list_find (λ r, ri_ptr r = ri_ptr ri) (rs_reassembleList (us_recv (put_ri u j ri'))) = Some (j, ri').
Proof. intros Hj Hp. cbn. erewrite find_insert by done. by rewrite decide_True. Qed.

Lemma populate_name_ok us i u j ri k c il n :
  us !! i = Some u → list_find (λ r, ri_ptr r = ri_ptr ri) (rs_reassembleList (us_recv u)) = Some (j, ri) →
  ri_nameList ri !! k = Some c → name_ok (length (disk_queues il)) c → room 1 il →
  let p := {| cp_user := i; cp_ri := ri_ptr ri; cp_name := k |} in
  populate_name (us, il, n) p =
    Done (<[i := put_ri u j (set_names (<[k := pop_name c]> (ri_nameList ri)) ri)]> us, add_name il (p, c),
          if cni_inMemory c then n else i32 (n + 1)).
Proof.
  intros Hu Hj Hk Hc (Hs & Hnet & Hd) p. unfold populate_name. pose proof (read_put us i u j ri k c Hu Hj Hk) as Hr.
  fold p in Hr. rewrite Hr. cbn [mbind outcome_bind]. unfold add_name, pop_name.
  destruct (cni_inMemory c) eqn:Em.
  { rewrite (list_insert_id (ri_nameList ri)) by done. replace (set_names (ri_nameList ri) ri) with ri by (by destruct ri).
    rewrite put_ri_id by (by apply find_ptr in Hj as [_ ?]). by rewrite list_insert_id. }
  destruct (Hc Em) as [Hi Hlen]. rewrite (proj2 (Z.eqb_neq _ _)) by lia. cbn [negb c_assert mbind outcome_bind].
  unfold p. rewrite (write_put us i u j ri k c _ Hu Hj Hk). cbn [mbind outcome_bind]. fold p.
  set (us' := <[i := _]> us).
  assert (read_cni us' p = Done (set_isNetwork (negb (cni_isHit c)) c)) as Hr'.
  { unfold us', p. change (ri_ptr ri) with (ri_ptr (set_names (<[k := set_isNetwork (negb (cni_isHit c)) c]> (ri_nameList ri)) ri)).
    eapply read_put; [by apply list_lookup_insert_eq; eapply lookup_lt_Some| |].
    - cbn [ri_ptr set_names]. eapply find_put; [exact Hj|done].
    - cbn. apply list_lookup_insert_eq. by eapply lookup_lt_Some. }
  destruct (cni_isHit c) eqn:Eh.
  - unfold get_at. rewrite (proj2 (Z.ltb_ge _ _)) by lia.
    destruct (lookup_lt_is_Some_2 (disk_queues il) (Z.to_nat (cni_peerIdx c))) as [q Hq]; [lia|].
    rewrite (proj2 (get_Done _ _ _) Hq). cbn [mbind outcome_bind].
    rewrite (enqueue_ok _ _ _ _ _ Hr') by (by apply (Forall_lookup_1 _ _ _ _ Hd Hq)). cbn [mbind outcome_bind].
    rewrite (proj2 (put_Done _ _ _ _) (conj (lookup_lt_Some _ _ _ Hq) eq_refl)). cbn [mbind outcome_bind].
    cbn [sendQueue set_disk_queues]. rewrite (enqueue_ok _ _ _ _ _ Hr') by done. cbn [mbind outcome_bind].
    do 2 f_equal. f_equal. unfold set_send, set_disk_queues. cbn. do 2 f_equal.
    symmetry. by rewrite (alter_insert _ _ _ _ Hq).
  - rewrite (enqueue_ok _ _ _ _ _ Hr') by done. cbn [mbind outcome_bind sendQueue set_network].
    rewrite (enqueue_ok _ _ _ _ _ Hr') by done. done.
Qed.
Lemma add_name_disks il x : length (disk_queues (add_name il x)) = length (disk_queues il).
Proof.
  destruct x as [p c]. unfold add_name. destruct (cni_inMemory c); [done|].
  destruct (cni_isHit c); cbn; [|done]. by rewrite length_alter.
Qed.

Lemma room_le m m' il : (m' ≤ m)%nat → room m il → room m' il.
Proof.
  intros Hm (H1 & H2 & H3). split_and!; [lia|lia|]. eapply Forall_impl; [exact H3|]. cbn. lia.
Qed.

Lemma add_name_room m il x : room (S m) il → room m (add_name il x).
Proof.
  intros Hr. pose proof Hr as (H1 & H2 & H3). destruct x as [p c]. unfold add_name.
  destruct (cni_inMemory c); [apply (room_le (S m)); [lia|done]|].
  unfold room, qlen in *. destruct (cni_isHit c); cbn [set_send set_network set_disk_queues sendQueue networkQueue
    disk_queues diskQueue default id enqueue il_q]; rewrite ?length_app; cbn [length].
  - split_and!; [lia|lia|]. apply Forall_lookup. intros j q Hq.
    destruct (decide (j = Z.to_nat (cni_peerIdx c))) as [->|Hne].
    + rewrite list_lookup_alter_eq in Hq. apply fmap_Some in Hq as (q0 & Hq0 & ->).
      pose proof (Forall_lookup_1 _ _ _ _ H3 Hq0). cbn in *. rewrite length_app. cbn. lia.
    + rewrite list_lookup_alter_ne in Hq by done. pose proof (Forall_lookup_1 _ _ _ _ H3 Hq). cbn in *. lia.
  - split_and!; [lia|lia|]. eapply Forall_impl; [exact H3|]. cbn. lia.
Qed.

Lemma add_names_disks l il : length (disk_queues (foldl add_name il l)) = length (disk_queues il).
Proof. revert il. induction l as [|x l IH]; intros il; [done|]. cbn. by rewrite IH, add_name_disks. Qed.
Lemma add_names_room l m il : room (length l + m) il → room m (foldl add_name il l).
Proof. revert il. induction l as [|x l IH]; intros il Hr; [done|]. cbn. by apply IH, add_name_room. Qed.

(** All names of a chunk. *)
Lemma populate_names_ok us i u j ri il n m :
  us !! i = Some u → list_find (λ r, ri_ptr r = ri_ptr ri) (rs_reassembleList (us_recv u)) = Some (j, ri) →
  Forall (name_ok (length (disk_queues il))) (ri_nameList ri) → room (length (ri_nameList ri) + m) il →
  0 ≤ n ∧ n + Z.of_nat (length (ri_nameList ri)) < 2 ^ 31 →
  foldM populate_name (us, il, n)
    ((λ k, {| cp_user := i; cp_ri := ri_ptr ri; cp_name := k |}) <$> seq 0 (length (ri_nameList ri))) =
    Done (<[i := put_ri u j (set_names (pop_name <$> ri_nameList ri) ri)]> us,
          foldl add_name il (names_of_ri i ri), n + Z.of_nat (length (wanted (names_of_ri i ri)))).
Proof.
  intros Hu Hj Hok Hroom Hn. destruct (find_ptr _ _ _ _ Hj) as [_ Hlk].
  assert (∀ l1 l2, ri_nameList ri = l1 ++ l2 →
    foldM populate_name (us, il, n) ((λ k, {| cp_user := i; cp_ri := ri_ptr ri; cp_name := k |}) <$> seq 0 (length l1)) =
    Done (<[i := put_ri u j (set_names ((pop_name <$> l1) ++ l2) ri)]> us,
          foldl add_name il (names_of_ri i (set_names l1 ri)),
          n + Z.of_nat (length (wanted (names_of_ri i (set_names l1 ri)))))) as Hall.
  2:{ specialize (Hall (ri_nameList ri) [] ltac:(by rewrite app_nil_r)). rewrite app_nil_r in Hall. rewrite Hall.
      by replace (set_names (ri_nameList ri) ri) with ri by (by destruct ri). }
  intros l1. induction l1 as [|c l1 IH] using rev_ind; intros l2 Hl.
  { cbn in *. subst l2. rewrite Z.add_0_r. do 2 f_equal. f_equal. symmetry.
    replace (set_names (ri_nameList ri) ri) with ri by (by destruct ri). rewrite put_ri_id by done. by apply list_insert_id. }
  rewrite length_app, Nat.add_1_r, seq_S, fmap_app, foldM_app, (IH (c :: l2)) by (by rewrite Hl, <-app_assoc).
  cbn [mbind outcome_bind fmap list_fmap foldM plus].
  assert (length (names_of_ri i (set_names l1 ri)) = length l1) as Hlen by (unfold names_of_ri; by rewrite length_imap).
  set (ri1 := set_names ((pop_name <$> l1) ++ c :: l2) ri).
  assert (names_of_ri i (set_names (l1 ++ [c]) ri) = names_of_ri i (set_names l1 ri) ++
    [({| cp_user := i; cp_ri := ri_ptr ri; cp_name := length l1 |}, c)]) as Hnames.
  { unfold names_of_ri. cbn [set_names ri_nameList ri_ptr]. rewrite imap_app. cbn. by rewrite Nat.add_0_r. }
  rewrite (populate_name_ok _ i (put_ri u j ri1) j ri1 (length l1) c).
  - cbn [mbind outcome_bind]. do 2 f_equal.
    + f_equal.
      * rewrite list_insert_insert_eq, put_ri_put. do 2 f_equal. unfold ri1, set_names. cbn. f_equal.
        rewrite insert_app_r_alt by (rewrite length_fmap; lia). rewrite length_fmap, Nat.sub_diag. cbn.
        by rewrite fmap_app, <-app_assoc.
      * by rewrite Hnames, foldl_app.
    + rewrite Hnames, wanted_app, length_app, wanted_one.
      assert (length (wanted (names_of_ri i (set_names l1 ri))) ≤ length l1)%nat as Hw.
      { unfold wanted. etrans; [apply length_filter|]. lia. }
      rewrite Hl, !length_app in Hn. cbn [length] in Hn.
      destruct (cni_inMemory c); cbn [length]; [lia|]. rewrite i32_id by lia. lia.
  - apply list_lookup_insert_eq. by eapply lookup_lt_Some.
  - cbn [ri1 set_names ri_ptr]. by apply find_put.
  - cbn. rewrite lookup_app_r, length_fmap, Nat.sub_diag by (rewrite length_fmap; lia). done.
  - rewrite add_names_disks. rewrite Hl, <-app_assoc in Hok.
    apply Forall_app in Hok as [_ Hok]. by apply Forall_cons in Hok as [? _].
  - apply add_names_room. rewrite Hlen. eapply room_le; [|exact Hroom]. rewrite Hl, !length_app. cbn. lia.
Qed.
Lemma populate_chunk_ok us i u j ri il n m :
  us !! i = Some u → list_find (λ r, ri_ptr r = ri_ptr ri) (rs_reassembleList (us_recv u)) = Some (j, ri) →
  ri_numPeekResolved ri = ri_numNames ri → ri_getSent ri = false →
  Forall (name_ok (length (disk_queues il))) (ri_nameList ri) → room (length (ri_nameList ri) + m) il →
  0 ≤ n ∧ n + Z.of_nat (length (ri_nameList ri)) < 2 ^ 31 →
  populate_chunk i (us, il, n) (ri_ptr ri) =
    Done (<[i := put_ri u j (pop_ri ri)]> us, foldl add_name il (names_of_ri i ri),
          n + Z.of_nat (length (wanted (names_of_ri i ri)))).
Proof.
  intros Hu Hj Hres Hsent Hok Hroom Hn. unfold populate_chunk.
  rewrite (proj2 (get_Done _ _ _) Hu). cbn [mbind outcome_bind].
  rewrite (proj2 (find_ri_Done _ _ _) (ex_intro _ _ Hj)). cbn [mbind outcome_bind].
  rewrite Hres, Z.eqb_refl, Hsent. cbn [negb c_assert mbind outcome_bind].
  rewrite (update_user_find us i u (ri_ptr ri) j ri _ (set_getSent ri) Hu Hj eq_refl). cbn [mbind outcome_bind].
  fold (put_ri u j (set_getSent ri)).
  pose proof (populate_names_ok (<[i := put_ri u j (set_getSent ri)]> us) i (put_ri u j (set_getSent ri)) j (set_getSent ri)
    il n m) as Hall. cbn [set_getSent ri_ptr ri_nameList] in Hall. rewrite Hall; [|clear Hall..]; try done.
  - rewrite list_insert_insert_eq, put_ri_put. done.
  - apply list_lookup_insert_eq. by eapply lookup_lt_Some.
  - by apply find_put.
Qed.

Lemma find_middle (l1 l2 : list ReassembleInfo) ri :
  ri_ptr ri ∉ (ri_ptr <$> l1) → list_find (λ r, ri_ptr r = ri_ptr ri) (l1 ++ ri :: l2) = Some (length l1, ri).
Proof.
  intros Hn. apply list_find_Some. split_and!; [|done|].
  - by rewrite lookup_app_r, Nat.sub_diag by lia.
  - intros k r Hk Hlt Hp. rewrite lookup_app_l in Hk by done. apply Hn. rewrite <-Hp.
    apply list_elem_of_fmap. exists r. split; [done|]. by eapply list_elem_of_lookup_2.
Qed.

Definition with_list (u : User) (l : list ReassembleInfo) : User :=
  set_recv (Reassemble.set_lists l (rs_readyList (us_recv u)) (us_recv u)) u.

Definition popped (ri : ReassembleInfo) : ReassembleInfo := if ri_getSent ri then ri else pop_ri ri.

(** The chunk names of a connection that are gathered. *)
Definition unsent (l : list ReassembleInfo) : list ReassembleInfo := filter (λ ri, ri_getSent ri = false) l.

Definition chunk_ready (n : nat) (ri : ReassembleInfo) : Prop :=
  ri_numPeekResolved ri = ri_numNames ri ∧ (ri_getSent ri = false → Forall (name_ok n) (ri_nameList ri)).

Definition num_names (l : list ReassembleInfo) : nat := sum_list (length ∘ ri_nameList <$> l).

Lemma num_names_length i l : length (concat (names_of_ri i <$> l)) = num_names l.
Proof.
  unfold num_names. induction l as [|ri l IH]; [done|]. cbn. rewrite length_app, IH.
  unfold names_of_ri. by rewrite length_imap.
Qed.
Lemma num_names_wanted i l : (length (wanted (concat (names_of_ri i <$> l))) ≤ num_names l)%nat.
Proof. rewrite <-(num_names_length i). apply length_filter. Qed.

Lemma populate_ready_ok us i u l2 : ∀ l1 il n m,
  us !! i = Some u → NoDup (ri_ptr <$> l1 ++ l2) → Forall (chunk_ready (length (disk_queues il))) l2 →
  room (num_names (unsent l2) + m) il → 0 ≤ n ∧ n + Z.of_nat (num_names (unsent l2)) < 2 ^ 31 →
  foldM (populate_chunk i) (<[i := with_list u (l1 ++ l2)]> us, il, n) (ri_ptr <$> unsent l2) =
    Done (<[i := with_list u (l1 ++ (popped <$> l2))]> us, foldl add_name il (concat (names_of_ri i <$> unsent l2)),
          n + Z.of_nat (length (wanted (concat (names_of_ri i <$> unsent l2))))).
Proof.
  induction l2 as [|ri l2 IH]; intros l1 il n m Hu Hnd Hok Hroom Hn; [cbn; by rewrite Z.add_0_r|].
  apply Forall_cons in Hok as [[Hres Hnames] Hok]. unfold unsent in *. rewrite filter_cons in *.
  unfold popped at 1. cbn [fmap list_fmap]. destruct (ri_getSent ri) eqn:Es.
  { rewrite decide_False in * by done. specialize (IH (l1 ++ [ri]) il n m). rewrite <-!app_assoc in IH. by apply IH. }
  rewrite decide_True in * by done. cbn [fmap list_fmap foldM concat].
  cbn [num_names sum_list fmap list_fmap compose] in *. unfold num_names in Hroom, Hn. cbn in Hroom, Hn.
  fold (num_names (filter (λ ri, ri_getSent ri = false) l2)) in Hroom, Hn.
  assert (ri_ptr ri ∉ (ri_ptr <$> l1)) as Hni.
  { rewrite fmap_app in Hnd. apply NoDup_app in Hnd as (_ & Hnd & _). intros Hin. apply (Hnd _ Hin). cbn. set_solver. }
  rewrite (populate_chunk_ok _ i (with_list u (l1 ++ ri :: l2)) (length l1) ri il n
    (num_names (filter (λ ri, ri_getSent ri = false) l2) + m)%nat).
  - cbn [mbind outcome_bind]. rewrite list_insert_insert_eq.
    replace (put_ri (with_list u (l1 ++ ri :: l2)) (length l1) (pop_ri ri)) with (with_list u ((l1 ++ [pop_ri ri]) ++ l2)).
    2:{ unfold put_ri, with_list. cbn. rewrite insert_app_r_alt, Nat.sub_diag by lia. cbn. by rewrite <-app_assoc. }
    rewrite (IH (l1 ++ [pop_ri ri]) _ _ m).
    + rewrite <-app_assoc, foldl_app, wanted_app, length_app. cbn. do 2 f_equal. lia.
    + done.
    + rewrite <-app_assoc. rewrite !fmap_app in *. cbn in *. done.
    + by rewrite add_names_disks.
    + apply add_names_room. unfold names_of_ri. rewrite length_imap. eapply room_le; [|exact Hroom]. lia.
    + assert (length (wanted (names_of_ri i ri)) ≤ length (ri_nameList ri))%nat; [|lia].
      unfold wanted. etrans; [apply length_filter|]. unfold names_of_ri. by rewrite length_imap.
  - apply list_lookup_insert_eq. by eapply lookup_lt_Some.
  - cbn. by apply find_middle.
  - done.
  - done.
  - by apply Hnames.
  - eapply room_le; [|exact Hroom]. lia.
  - lia.
Qed.
Lemma unready_ok ready : ∀ rs,
  rs_readyList rs = ready →
  Forall (λ p, ∃ ri, find_ri rs p = Done ri ∧ ri_numPeekResolved ri = ri_numNames ri ∧ ri_getSent ri = true) ready →
  foldM unready rs ready = Done (Reassemble.set_lists (rs_reassembleList rs) [] rs).
Proof.
  induction ready as [|p ready IH]; intros rs Hr Hall.
  { cbn. rewrite <-Hr. by destruct rs. }
  apply Forall_cons in Hall as [(ri & Hf & Hres & Hs) Hall].
  assert (unready rs p = Done (Reassemble.set_lists (rs_reassembleList rs) (drop 1 (rs_readyList rs)) rs)) as He.
  { unfold unready. rewrite Hf. cbn [mbind outcome_bind]. by rewrite Hres, Z.eqb_refl, Hs. }
  cbn [foldM]. rewrite He. cbn [mbind outcome_bind]. rewrite IH; [done|cbn; by rewrite Hr|].
  eapply Forall_impl; [exact Hall|]. done.
Qed.

(** A connection whose receiving side is in order, with names to request that
    are peers' chunks. *)
Definition user_ok (n : nat) (u : User) : Prop :=
  us_closed u = false → recv_ok (us_recv u) ∧
    Forall (λ ri, ri_getSent ri = false → Forall (name_ok n) (ri_nameList ri)) (rs_reassembleList (us_recv u)).

Definition num_user (u : User) : nat := if us_closed u then 0 else num_names (unsent (rs_reassembleList (us_recv u))).

Lemma populate_user_ok us i u il n m :
  us !! i = Some u → user_ok (length (disk_queues il)) u → room (num_user u + m) il →
  0 ≤ n ∧ n + Z.of_nat (num_user u) < 2 ^ 31 →
  populate_user (us, il, n) i =
    Done (<[i := pop_user u]> us, foldl add_name il (names_of_user i u), n + Z.of_nat (length (wanted (names_of_user i u)))).
Proof.
  unfold user_ok, num_user, pop_user, names_of_user. intros Hu Hok Hroom Hn. unfold populate_user.
  rewrite (proj2 (get_Done _ _ _) Hu). cbn [mbind outcome_bind]. destruct (us_closed u).
  { rewrite list_insert_id by done. cbn. by rewrite Z.add_0_r. }
  destruct (Hok eq_refl) as [[Hfresh Hnd Hres Hready] Hnames]. set (l := rs_reassembleList (us_recv u)) in *.
  rewrite Hready. fold (unsent l).
  assert (with_list u ([] ++ l) = u) as Hid.
  { unfold with_list. destruct u as [? ? rs]; cbn. by destruct rs. }
  pose proof (populate_ready_ok us i u l [] il n m Hu) as Hall. rewrite Hid, list_insert_id in Hall by done.
  rewrite Hall; [|done| |done|done].
  2:{ apply Forall_forall. intros ri Hri. rewrite Forall_forall in Hres, Hnames. split; [by apply Hres|by apply Hnames]. }
  cbn [mbind outcome_bind app]. set (u1 := with_list u (popped <$> l)). unfold update_user.
  rewrite (get_insert_eq _ _ _ _ Hu). cbn [mbind outcome_bind].
  rewrite unready_ok; [|done|].
  - cbn [mbind outcome_bind]. by rewrite (put_insert_eq _ _ _ _ _ Hu).
  - cbn. fold l in Hready. rewrite Hready. rewrite Forall_fmap. apply Forall_forall. intros ri [Hs Hri]%list_elem_of_filter.
    cbn. exists (pop_ri ri). rewrite Forall_forall in Hres. split; [|split; [exact (Hres ri Hri)|done]].
    apply list_elem_of_split in Hri as (l1 & l2 & Hl). apply find_ri_Done. exists (length l1).
    cbn. rewrite Hl, fmap_app, <-(length_fmap popped l1). cbn. unfold popped at 2. rewrite Hs.
    apply (find_middle _ _ (pop_ri ri)). rewrite Hl, fmap_app in Hnd. apply NoDup_app in Hnd as (_ & Hnd & _).
    rewrite <-list_fmap_compose. intros Hin. apply (Hnd (ri_ptr ri)); [|cbn; set_solver].
    apply list_elem_of_fmap in Hin as (r & Hp & Hr). apply list_elem_of_fmap. exists r. split; [|done].
    change (ri_ptr ri) with (ri_ptr (pop_ri ri)). rewrite Hp. cbn. unfold popped. by destruct (ri_getSent r).
Qed.

Lemma num_users_length l k :
  length (concat (imap (λ j u, names_of_user (k + j) u) l)) = sum_list (num_user <$> l).
Proof.
  revert k. induction l as [|u l IH]; intros k; [done|]. cbn [imap concat fmap list_fmap sum_list]. rewrite length_app.
  f_equal.
  - unfold names_of_user, num_user. destruct (us_closed u); [done|]. apply num_names_length.
  - rewrite <-(IH (S k)). do 2 f_equal. apply imap_ext. intros j v _. cbn. f_equal. lia.
Qed.

Lemma sum_list_app l1 l2 : sum_list (l1 ++ l2) = (sum_list l1 + sum_list l2)%nat.
Proof. induction l1 as [|n l1 IH]; cbn; lia. Qed.

(** [PopulateILSQueue]: all names of the chunks whose requests were not sent,
    in the order of the connections. *)
Lemma PopulateILSQueue_ok us il m :
  Forall (user_ok (length (disk_queues il))) us → room (sum_list (num_user <$> us) + m) il →
  PopulateILSQueue us il =
    Done (pop_user <$> us, foldl add_name il (ready_names us), Z.of_nat (length (wanted (ready_names us)))).
Proof.
  intros Hok Hroom. unfold PopulateILSQueue, ready_names.
  assert (Z.of_nat (sum_list (num_user <$> us)) < 2 ^ 31) as Hb.
  { destruct Hroom as [Hr _]. unfold qlen, MAX_ILS_QUEUE in Hr. lia. }
  assert (∀ l1 l2, us = l1 ++ l2 →
    foldM populate_user (us, il, 0) (seq 0 (length l1)) =
    Done ((pop_user <$> l1) ++ l2, foldl add_name il (concat (imap names_of_user l1)),
          Z.of_nat (length (wanted (concat (imap names_of_user l1)))))) as Hall.
  2:{ specialize (Hall us [] ltac:(by rewrite app_nil_r)). by rewrite app_nil_r in Hall. }
  intros l1. induction l1 as [|u l1 IH] using rev_ind; intros l2 Hl.
  { cbn in *. by subst. }
  rewrite length_app, Nat.add_1_r, seq_S, foldM_app, (IH (u :: l2)) by (by rewrite Hl, <-app_assoc).
  cbn [mbind outcome_bind foldM plus].
  pose proof (num_users_length l1 0) as Hlen. change (λ j u, names_of_user (0 + j) u) with names_of_user in Hlen.
  pose proof (num_users_length us 0) as Hlen'. rewrite Hl in Hlen', Hroom, Hb, Hok. rewrite fmap_app, sum_list_app in Hroom, Hb.
  rewrite fmap_app, sum_list_app in Hroom, Hb. cbn in Hroom, Hb.
  assert (length (wanted (concat (imap names_of_user l1))) ≤ sum_list (num_user <$> l1))%nat as Hw.
  { rewrite <-Hlen. apply length_filter. }
  rewrite (populate_user_ok _ _ u _ _ m).
  - rewrite imap_app, concat_app, foldl_app, wanted_app, length_app. cbn [imap concat].
    rewrite app_nil_r, Nat.add_0_r.
    cbn [mbind outcome_bind]. f_equal. f_equal; [|lia]. f_equal. rewrite insert_app_r_alt by (rewrite length_fmap; lia). rewrite length_fmap, Nat.sub_diag. cbn.
    by rewrite fmap_app, <-app_assoc.
  - rewrite lookup_app_r, length_fmap, Nat.sub_diag by (rewrite length_fmap; lia). done.
  - rewrite add_names_disks. apply Forall_app in Hok as [Hok _]. apply Forall_app in Hok as [_ Hok].
    exact (proj1 (Forall_singleton _ _) Hok).
  - apply add_names_room. rewrite Hlen. eapply room_le; [|exact Hroom]. lia.
  - lia.
Qed.
End populate.

(** ** The queues that the schedule starts from *)

Lemma NoDup_fmap_filter {A B} (f : A → B) (P : A → Prop) `{!∀ x, Decision (P x)} (l : list A) :
  NoDup (f <$> l) → NoDup (f <$> filter P l).
Proof.
  induction l as [|x l IH]; [done|]. cbn. intros [Hx Hl]%NoDup_cons.
  case_decide; [|by apply IH]. cbn. apply NoDup_cons. split; [|by apply IH]. intros Hin. apply Hx.
  apply list_elem_of_fmap in Hin as (y & -> & [_ Hy]%list_elem_of_filter). by apply list_elem_of_fmap_2.
Qed.

Lemma alter_on_disk p c i (l : list ILSQueue) :
  (i < length l)%nat → concat (il_q <$> alter (enqueue 0 p c) i l) ≡ₚ concat (il_q <$> l) ++ [p].
Proof.
  intros Hi. destruct (lookup_lt_is_Some_2 l i Hi) as [q Hq]. rewrite (alter_insert _ _ _ _ Hq).
  assert (<[i := enqueue 0 p c q]> l !! i = Some (enqueue 0 p c q)) as Hq' by (by apply list_lookup_insert_eq).
  rewrite (concat_insert_last il_q _ i _ q p Hq') by done.
  rewrite list_insert_insert_eq, list_insert_id by done. solve_Permutation.
Qed.

Section queues.
Context `{Digest}.

Definition is_hit (x : cni_ptr * ChunkNameInfo) : Prop := cni_isHit x.2 = true.
#[local] Instance is_hit_dec x : Decision (is_hit x).
Proof. unfold is_hit. apply _. Defined.

(** The chunk names [L] are in the queues. *)
Record gathered (us : list User) (L : list (cni_ptr * ChunkNameInfo)) (il : ILS) : Prop := {
  ga_send : il_q (sendQueue il) = (wanted L).*1;
  ga_disk : on_disk il ≡ₚ (filter is_hit (wanted L)).*1;
  ga_net : il_q (networkQueue il) = (filter (λ x, ¬ is_hit x) (wanted L)).*1;
  ga_queues : Forall (queue_ok us 0) (disk_queues il) ∧ queue_ok us PerChunkResponseOverhead (networkQueue il)
}.

Lemma enqueue_queue_ok us ov p c q :
  queue_ok us ov q → read_cni us p = Done (pop_name c) → 0 < cni_length c ≤ MAX_CHUNK_SIZE → 0 ≤ ov < 2 ^ 30 →
  queue_ok us ov (enqueue ov p c q).
Proof.
  intros [Hp Hb] Hr Hl Hov. assert (cni_length (pop_name c) = cni_length c) as Hlen
    by (unfold pop_name; by destruct (cni_inMemory c)).
  split; cbn.
  - apply Forall_app. split; [done|]. apply Forall_singleton. exists (pop_name c). by rewrite Hlen.
  - unfold MAX_CHUNK_SIZE in Hl. rewrite fmap_app, sum_Z_app, Hb, u32_add, u32_add_r, i32_id by lia.
    cbn. unfold len_of at 3. rewrite Hr, Hlen. f_equal. lia.
Qed.

Lemma gathered_fresh us n : gathered us [] (fresh_ILS n).
Proof.
  assert (∀ ov, queue_ok us ov no_queue) as Hq by (by split; [constructor|]).
  split; cbn; [done| |done|split; [by apply Forall_replicate|done]].
  unfold on_disk. cbn. by induction n.
Qed.

Lemma add_names_gathered us L il n :
  Z.of_nat SHA1_LEN < 2 ^ 20 → gathered us [] il → length (disk_queues il) = n →
  Forall (λ x, read_cni us x.1 = Done (pop_name x.2) ∧ name_ok n x.2) L →
  gathered us L (foldl add_name il L).
Proof.
  intros Hsha H0 Hn. induction L as [|[p c] L IH] using rev_ind; intros Hall; [done|].
  apply Forall_app in Hall as [Hall [Hr Hok]%Forall_singleton]. destruct (IH Hall) as [Hs Hd Hnet [Hq1 Hq2]].
  rewrite foldl_app. cbn [foldl]. set (il1 := foldl add_name il L) in *.
  assert (length (disk_queues il1) = n) as Hlen by (unfold il1; by rewrite add_names_disks).
  cbn [fst snd] in *. unfold add_name. destruct (cni_inMemory c) eqn:Em.
  { split; rewrite ?wanted_app, ?wanted_one, ?Em, ?app_nil_r; done. }
  destruct (Hok Em) as [Hi Hl]. pose proof (overhead_range Hsha) as Hov.
  assert (wanted (L ++ [(p, c)]) = wanted L ++ [(p, c)]) as Hw by (by rewrite wanted_app, wanted_one, Em).
  destruct (cni_isHit c) eqn:Eh; split; rewrite ?Hw, ?filter_app, ?fmap_app; cbn [set_send set_disk_queues set_network sendQueue networkQueue
    disk_queues diskQueue default id enqueue il_q].
  - by rewrite Hs.
  - change (concat (il_q <$> alter (enqueue 0 p c) (Z.to_nat (cni_peerIdx c)) (disk_queues il1)) ≡ₚ
      (filter is_hit (wanted L)).*1 ++ (filter is_hit [(p, c)]).*1).
    rewrite alter_on_disk by (rewrite Hlen; lia). fold (on_disk il1). rewrite Hd. rewrite filter_cons, decide_True by done. done.
  - rewrite Hnet, filter_cons, decide_False by (intros Hx; by apply Hx). by rewrite filter_nil, app_nil_r.
  - split; [|done]. apply Forall_alter; [done|]. intros q _ Hq. apply enqueue_queue_ok; [done|done|done|lia].
  - by rewrite Hs.
  - change (on_disk il1 ≡ₚ (filter is_hit (wanted L)).*1 ++ (filter is_hit [(p, c)]).*1).
    rewrite Hd, filter_cons, decide_False by (unfold is_hit; cbn; congruence).
    by rewrite filter_nil, app_nil_r.
  - rewrite Hnet, filter_cons, decide_True by (unfold is_hit; cbn; congruence). done.
  - split; [done|]. by apply enqueue_queue_ok.
Qed.

Lemma gathered_sched us L il :
  gathered us L il → NoDup L.*1 → Forall (λ x, read_cni us x.1 = Done (pop_name x.2)) L →
  Z.of_nat (length (wanted L)) < MAX_ILS_QUEUE → sched_ok us il.
Proof.
  intros [Hs Hd Hnet [Hq1 Hq2]] Hnd Hall Hroom. split; [done|done| | |].
  - rewrite Hd. by apply NoDup_fmap_filter, NoDup_fmap_filter.
  - intros p c Hp Hc. rewrite Hd in Hp. apply list_elem_of_fmap in Hp as (x & -> & [Hh Hx]%list_elem_of_filter).
    apply list_elem_of_filter in Hx as [Hm Hx]. rewrite Forall_forall in Hall. rewrite (Hall x Hx) in Hc.
    injection Hc as <-. unfold pop_name. rewrite Hm. cbn. by rewrite Hh.
  - unfold qlen. rewrite Hnet, (Permutation_length Hd), !length_fmap.
    assert (length (wanted L) = length (filter is_hit (wanted L)) + length (filter (λ x, ¬ is_hit x) (wanted L)))%nat; [|lia].
    clear. induction (wanted L) as [|x l IH]; [done|]. rewrite !filter_cons.
    destruct (decide (is_hit x)), (decide (¬ is_hit x)); cbn; try done; lia.
Qed.
Lemma lookup_ready us p c :
  (p, c) ∈ ready_names us ↔ ∃ u ri, us !! cp_user p = Some u ∧ us_closed u = false ∧
    ri ∈ unsent (rs_reassembleList (us_recv u)) ∧ ri_ptr ri = cp_ri p ∧ ri_nameList ri !! cp_name p = Some c.
Proof.
  unfold ready_names. rewrite list_elem_of_In, in_concat. setoid_rewrite <-list_elem_of_In.
  destruct p as [i r k]. cbn [cp_user cp_ri cp_name]. split.
  - intros (l & Hl & Hp). apply elem_of_lookup_imap in Hl as (i' & u & -> & Hu). unfold names_of_user in Hp.
    destruct (us_closed u) eqn:Ec; [by apply not_elem_of_nil in Hp|].
    rewrite list_elem_of_In, in_concat in Hp. setoid_rewrite <-list_elem_of_In in Hp. destruct Hp as (l & Hl & Hp).
    apply list_elem_of_fmap in Hl as (ri & -> & Hri). unfold names_of_ri in Hp.
    apply elem_of_lookup_imap in Hp as (k' & c' & [= -> -> -> ->] & Hk). exists u, ri. done.
  - intros (u & ri & Hu & Hc & Hri & Hr & Hk). exists (names_of_user i u). split.
    + apply elem_of_lookup_imap. eauto.
    + unfold names_of_user. rewrite Hc, list_elem_of_In, in_concat. setoid_rewrite <-list_elem_of_In.
      exists (names_of_ri i ri). split; [by apply list_elem_of_fmap_2|]. unfold names_of_ri.
      apply elem_of_lookup_imap. exists k, c. by rewrite Hr.
Qed.

(** What gathering leaves of a name that is ready. *)
Lemma read_ready n us p c :
  Forall (user_ok n) us → (p, c) ∈ ready_names us →
  read_cni (pop_user <$> us) p = Done (pop_name c) ∧ name_ok n c ∧
  ∃ u ri, us !! cp_user p = Some u ∧ find_ri (us_recv (pop_user u)) (cp_ri p) = Done (pop_ri ri) ∧
    ri_nameList ri !! cp_name p = Some c.
Proof.
  intros Hok (u & ri & Hu & Hc & [Hs Hri]%list_elem_of_filter & Hr & Hk)%lookup_ready.
  destruct (Forall_lookup_1 _ _ _ _ Hok Hu Hc) as [[_ Hnd _ _] Hnames].
  apply list_elem_of_split in Hri as (l1 & l2 & Hl).
  assert (find_ri (us_recv (pop_user u)) (cp_ri p) = Done (pop_ri ri)) as Hf.
  { apply find_ri_Done. exists (length l1). unfold pop_user. rewrite Hc. cbn. rewrite Hl, fmap_app, <-Hr. cbn. rewrite Hs.
    rewrite <-(length_fmap (λ ri, if ri_getSent ri then ri else pop_ri ri) l1). apply (find_middle _ _ (pop_ri ri)).
    rewrite Hl, fmap_app in Hnd. apply NoDup_app in Hnd as (_ & Hnd & _). intros Hin. apply (Hnd (ri_ptr ri)); [|cbn; set_solver].
    rewrite <-list_fmap_compose in Hin. apply list_elem_of_fmap in Hin as (r & Hp & Hr').
    apply list_elem_of_fmap. exists r. split; [|done].
    change (ri_ptr ri) with (ri_ptr (pop_ri ri)). rewrite Hp. cbn. by destruct (ri_getSent r). }
  split_and!.
  - unfold read_cni. rewrite (proj2 (get_Done _ _ (pop_user u))) by (by rewrite list_lookup_fmap, Hu).
    cbn [mbind outcome_bind]. rewrite Hf. cbn [mbind outcome_bind]. apply get_Done. cbn. by rewrite list_lookup_fmap, Hk.
  - rewrite Hl in Hnames. apply Forall_app in Hnames as [_ [Hn _]%Forall_cons]. eapply Forall_lookup_1; [by apply Hn|exact Hk].
  - exists u, ri. done.
Qed.

Lemma names_of_ri_ptrs i ri :
  (names_of_ri i ri).*1 = (λ k, {| cp_user := i; cp_ri := ri_ptr ri; cp_name := k |}) <$> seq 0 (length (ri_nameList ri)).
Proof.
  unfold names_of_ri. apply list_eq. intros j. rewrite !list_lookup_fmap, list_lookup_imap.
  destruct (ri_nameList ri !! j) as [c|] eqn:Ej; cbn.
  - rewrite lookup_seq_lt by (by eapply lookup_lt_Some). done.
  - by rewrite lookup_seq_ge by (by apply lookup_ge_None).
Qed.

(** Addresses of names that differ in the connection or in the chunk differ. *)
Lemma NoDup_names i l :
  NoDup (ri_ptr <$> l) → NoDup (concat (names_of_ri i <$> l)).*1 ∧
  ∀ p, p ∈ (concat (names_of_ri i <$> l)).*1 → cp_user p = i ∧ cp_ri p ∈ ri_ptr <$> l.
Proof.
  induction l as [|ri l IH]; intros Hnd; [split; [constructor|intros p Hp; by apply not_elem_of_nil in Hp]|].
  cbn in *. apply NoDup_cons in Hnd as [Hri Hnd]. destruct (IH Hnd) as [IH1 IH2].
  rewrite fmap_app, names_of_ri_ptrs. split.
  - apply NoDup_app. split; [apply NoDup_fmap_2; [by intros a b [=]|apply NoDup_seq]|]. split; [|done].
    intros p (j & -> & _)%list_elem_of_fmap Hp. apply IH2 in Hp as [_ Hp]. done.
  - intros p [(j & -> & _)%list_elem_of_fmap|Hp]%elem_of_app; cbn; [split; [done|by left]|].
    apply IH2 in Hp as [? ?]. split; [done|by right].
Qed.

Lemma NoDup_names_of_user n i u :
  user_ok n u → NoDup (names_of_user i u).*1 ∧ ∀ p, p ∈ (names_of_user i u).*1 → cp_user p = i.
Proof.
  intros Hu. unfold names_of_user.
  destruct (us_closed u) eqn:Ec; [split; [constructor|intros p Hp; by apply not_elem_of_nil in Hp]|].
  destruct (Hu Ec) as [[_ Hnd _ _] _].
  destruct (NoDup_names i _ (NoDup_fmap_filter ri_ptr (λ ri, ri_getSent ri = false) _ Hnd)) as [H1 H2].
  split; [done|]. intros p Hp. by apply H2.
Qed.

Lemma NoDup_ready_from n l : ∀ k, Forall (user_ok n) l →
  NoDup (concat (imap (λ j u, names_of_user (k + j) u) l)).*1 ∧
  ∀ p, p ∈ (concat (imap (λ j u, names_of_user (k + j) u) l)).*1 → (k ≤ cp_user p)%nat.
Proof.
  induction l as [|u l IH]; intros k Hl; [split; [constructor|intros p Hp; by apply not_elem_of_nil in Hp]|].
  apply Forall_cons in Hl as [Hu Hl]. cbn [imap concat]. rewrite fmap_app, Nat.add_0_r.
  assert (imap ((λ j u, names_of_user (k + j) u) ∘ S) l = imap (λ j u, names_of_user (S k + j) u) l) as ->.
  { apply imap_ext. intros j v _. cbn. f_equal. lia. }
  destruct (IH (S k) Hl) as [IH1 IH2]. destruct (NoDup_names_of_user n k u Hu) as [Hn1 Hn2]. split.
  - apply NoDup_app. split_and!; [done| |done]. intros p Hp Hp'. apply Hn2 in Hp. apply IH2 in Hp'. lia.
  - intros p [Hp|Hp]%elem_of_app; [apply Hn2 in Hp; lia|]. apply IH2 in Hp. lia.
Qed.

Lemma NoDup_ready n us : Forall (user_ok n) us → NoDup (ready_names us).*1.
Proof. intros Hok. apply (NoDup_ready_from n us 0 Hok). Qed.
End queues.

(** ** Sending the requests *)

Section sending.
Context `{Digest} {HT VT AT CT PT : Type} `{!Table (list Z) Z HT} `{!Table (list Z) CacheValue VT}
  `{!Table (list Z) nat AT} `{!Table (list Z) (list ChunkRequestInfo) CT}
  `{!Table (list Z) (list PeekRequestInfo) PT} `{Qsort}.
Context (env : Env) (g : IlsConfig).
#[local] Abbreviation node := (node HT VT AT CT PT).

(** The chunks that the node can serve itself. *)
Definition values_ok (c : cache HT VT) : Prop :=
  ∀ n v, GetTempDiskCache c n = Some v ∨ GetMemory c n = Some v →
    cv_block_length v = Z.of_nat (length (cv_pBlock v)) ∧ 0 < cv_block_length v ≤ MAX_CHUNK_SIZE.

(** A node that keeps chunks in memory only, with [N] peers, the local one being
    [l], the requests [Q] that wait and the references [R]. *)
Record ready_node (N l : nat) (Q : queues) (R : refs) (nd : node) : Prop := {
  rn_net : net_ok env (nd_peers nd);
  rn_num : g_NumPeers (nd_peers nd) = Z.of_nat N;
  rn_local : g_LocalInfo (nd_peers nd) = Some l;
  rn_below : (l < N)%nat;
  rn_addrs : ∀ i p, g_PeerInfo (nd_peers nd) !! i = Some p → length (pi_netAddr p) = 4%nat;
  rn_requests : requests_ok (nd_requests nd) Q;
  rn_tmp : tmp_is (nd_cache nd) R;
  rn_values : values_ok (nd_cache nd)
}.

(** The requests of the node itself that wait for a name, and the references
    that are there already. *)
Definition own_waiting (Q : queues) (n : list Z) : nat :=
  length (filter (λ r, cri_isRedirected r = false) (waiting Q n)).
Definition account (Q : queues) (R : refs) (n : list Z) : nat := (own_waiting Q n + ref_count R n)%nat.

(** A request for a name was made, or answered from the node's own caches. *)
Definition accounted (Q : queues) (R : refs) (n : list Z) (Q' : queues) (R' : refs) : Prop :=
  (∀ n', account Q' R' n' = account Q R n' + if decide (n' = n) then 1 else 0)%nat ∧
  (num_waiting Q' ≤ S (num_waiting Q))%nat ∧ (∀ n', ref_count R' n' ≤ S (ref_count R n'))%nat.

Lemma accounted_put Q R n b : accounted Q R n Q (ref_put R n b).
Proof.
  unfold accounted, account. split_and!; [|lia|]; intros n'; rewrite ref_count_put; [lia|case_decide; lia].
Qed.

Lemma accounted_queue Q R n cri : cri_isRedirected cri = false → accounted Q R n (queue_put Q n cri) R.
Proof.
  intros Hr. unfold accounted, account, own_waiting. split_and!; [|by rewrite num_waiting_put|lia].
  intros n'. rewrite waiting_put. destruct (decide (n' = n)); [|by rewrite app_nil_r, Nat.add_0_r].
  rewrite filter_app, length_app, filter_cons, decide_True by done. cbn. lia.
Qed.

(** A peer keeps what the requests depend on. *)
Lemma ready_peer_update N l Q R (nd : node) ps (i : nat) p p' :
  ready_node N l Q R (set_peers' ps nd) → g_PeerInfo ps !! i = Some p → (i < N)%nat →
  pi_idx p' = pi_idx p → pi_isAlive p' = pi_isAlive p → pi_netAddr p' = pi_netAddr p →
  pi_chunkCI p' = pi_chunkCI p → pi_chunkFlowID p' = pi_chunkFlowID p →
  ready_node N l Q R (set_peers' (set_peers (<[i := p']> (g_PeerInfo ps)) (g_NumLivePeers ps) ps) nd).
Proof.
  intros [Hnet Hnum Hloc Hb Haddr Hrq Htmp Hv] Hp Hi H1 H2 H3 H4 H5. cbn in *.
  destruct (no_flows _ _ Hnet _ _ Hp) as [F1 F2]. split; cbn; try done.
  - eapply net_ok_update; [done|exact Hp|lia|done|done|by rewrite H4|by rewrite H5].
  - intros k q Hq. apply list_lookup_insert_Some in Hq as [(<- & <- & _)|[Hne Hq]]; [rewrite H3|]; eauto.
Qed.

Lemma ready_same_peers N l Q R (nd : node) ps1 ps2 :
  ready_node N l Q R (set_peers' ps1 nd) → net_ok env ps2 → same_peers ps1 ps2 → ready_node N l Q R (set_peers' ps2 nd).
Proof.
  intros [Hnet1 Hnum1 Hloc1 ? Haddr1 ? ? ?] Hnet2 Hs. cbn in *. split; cbn; try done.
  - by rewrite (ss_num _ _ Hs).
  - by rewrite (ss_local _ _ Hs).
  - intros i q Hq. pose proof (pk_len _ (no_peers _ _ Hnet1)) as Hl1. pose proof (pk_len _ (no_peers _ _ Hnet2)) as Hl2.
    apply lookup_lt_Some in Hq as Hq'. destruct (lookup_lt_is_Some_2 (g_PeerInfo ps1) i) as [q0 Hq0]; [lia|].
    destruct (ss_peer _ _ Hs _ _ Hq0) as (q2 & Hq2 & Hx). assert (q = q2) as -> by congruence.
    rewrite (sp_addr _ _ Hx). eauto.
Qed.

Lemma SendRemoteChunkRequest_ok N l Q R (nd : node) u cni (k : nat) net :
  ready_node N l Q R nd → (k < N)%nat → k ≠ l → length (cni_sha1name cni) = SHA1_LEN →
  0 < cni_length cni ≤ MAX_CHUNK_SIZE → Z.of_nat (num_waiting Q) + 1 < 2 ^ 31 → Z.of_nat SHA1_LEN < 2 ^ 20 →
  ∃ nd' Q', SendRemoteChunkRequest env nd u cni (Z.of_nat k) net = Done nd' ∧
    ready_node N l Q' R nd' ∧ accounted Q R (cni_sha1name cni) Q' R ∧ nd_cache nd' = nd_cache nd ∧
    ∃ p fd, g_PeerInfo (nd_peers nd) !! k = Some p ∧
      nd_sent nd' = nd_sent nd ++ [{| sn_fd := fd; sn_msg := body_request (pi_netAddr p) (cni_sha1name cni) (cni_length cni);
        sn_len := Z.of_nat (length (body_request (pi_netAddr p) (cni_sha1name cni) (cni_length cni)));
        sn_streamID := us_fd u |}].
Proof.
  intros Hrn Hk Hkl Hn Hlen Hw Hsha. unfold MAX_CHUNK_SIZE in Hlen. pose proof Hrn as [Hnet Hnum Hloc Hb Haddr Hrq Htmp Hv].
  pose proof (no_peers _ _ Hnet) as Hps. pose proof (pk_len _ Hps) as Hpl. pose proof (pk_num _ Hps) as Hpn.
  destruct (lookup_lt_is_Some_2 (g_PeerInfo (nd_peers nd)) l) as [pl Hl]; [lia|].
  destruct (lookup_lt_is_Some_2 (g_PeerInfo (nd_peers nd)) k) as [p Hp]; [lia|].
  unfold SendRemoteChunkRequest, local_idx. rewrite Hloc. cbn [mbind outcome_bind].
  rewrite (proj2 (get_Done _ _ _) Hl). cbn [mbind outcome_bind]. rewrite (pk_idx _ Hps l pl) by (done || lia).
  rewrite (proj2 (Z.eqb_neq _ _)) by lia. cbn [negb c_assert mbind outcome_bind].
  rewrite get_at_nat, (proj2 (get_Done _ _ _) Hp). cbn [mbind outcome_bind].
  rewrite BuildWABodyRequest_ok by eauto. cbn [mbind outcome_bind].
  fold (body_request (pi_netAddr p) (cni_sha1name cni) (cni_length cni)). set (msg := body_request _ _ _).
  rewrite (proj2 (Z.leb_le _ _)), (proj2 (Z.ltb_lt _ _)) by lia. cbn [c_assert mbind outcome_bind].
  unfold update_peer. rewrite (proj2 (Z.leb_le _ _)) by lia. cbn [mbind outcome_bind].
  rewrite Nat2Z.id, (update_ok _ _ _ _ Hp). cbn [mbind outcome_bind].
  set (ps1 := set_peers _ _ _).
  assert (ready_node N l Q R (set_peers' ps1 nd)) as Hrn1.
  { apply (ready_peer_update N l Q R nd (nd_peers nd) k p); done || by destruct nd. }
  assert (g_PeerInfo ps1 !! k = Some (count_redirected (cni_length cni) p)) as Hp1
    by (apply list_lookup_insert_eq; by eapply lookup_lt_Some).
  destruct (WriteToChunkPeer_ok env (set_peers' ps1 nd) k _ msg (Z.of_nat (length msg)) (us_fd u) (rn_net _ _ _ _ _ Hrn1) Hp1)
    as (ps2 & fd & -> & Hnet2 & Hs2 & _).
  { rewrite (rn_num _ _ _ _ _ Hrn1). lia. }
  { unfold msg. rewrite length_body_request by eauto. lia. }
  cbn [mbind outcome_bind nd_requests nd_peers add_sent set_peers'].
  destruct (ss_peer _ _ Hs2 _ _ Hp1) as (p2 & Hp2 & Hsp).
  destruct (PutChunkRequest_ok (nd_requests nd) ps2 Q (cni_sha1name cni) (us_cid u) false (pi_netAddr p) (cni_length cni) k p2 net
    Hrq Hp2 Hw) as (rq' & -> & Hrq'). cbn [mbind outcome_bind].
  match type of Hrq' with requests_ok _ ?Q' => eexists _, Q' end.
  split; [done|]. split; [|split; [by apply accounted_queue|split; [done|exists p, fd; done]]].
  pose proof (ready_same_peers N l Q R nd ps1 ps2 Hrn1 Hnet2 Hs2) as Hrn2.
  destruct (ready_peer_update N l Q R nd ps2 k p2 (add_load net (cni_length cni) p2) Hrn2 Hp2 Hk)
    as [? ? ? ? ? ? ? ?]; unfold add_load; by destruct net.
Qed.
Lemma load_local_ok N l Q R (nd : node) cni v :
  ready_node N l Q R nd → GetTempDiskCache (nd_cache nd) (cni_sha1name cni) = Some v ∨
    GetMemory (nd_cache nd) (cni_sha1name cni) = Some v →
  Z.of_nat (ref_count R (cni_sha1name cni)) < 2 ^ 31 - 1 →
  ∃ nd', load_local nd cni v = Done nd' ∧ ready_node N l Q (ref_put R (cni_sha1name cni) (cv_pBlock v)) nd' ∧
    nd_sent nd' = nd_sent nd ∧ nd_TryReconstruction nd' = true.
Proof.
  intros Hrn Hf Hr. pose proof Hrn as [Hnet Hnum Hloc Hb Haddr Hrq Htmp Hv].
  destruct (Hv _ _ Hf) as [Hlen Hrange]. unfold MAX_CHUNK_SIZE in Hrange. unfold load_local.
  destruct (RefPutChunkCallback_ok (nd_cache nd) R (cni_sha1name cni) (cv_pBlock v) (cv_block_length v) Htmp)
    as (ht & -> & Ht); [lia|unfold MAX_CHUNK_SIZE; lia|done|].
  rewrite Hlen, Nat2Z.id, slice_full in Ht by done. cbn [mbind outcome_bind].
  unfold local_idx. rewrite Hloc. cbn [mbind outcome_bind]. unfold update_peer. rewrite (proj2 (Z.leb_le _ _)) by lia.
  cbn [mbind outcome_bind nd_peers set_cache]. rewrite Nat2Z.id.
  pose proof (pk_len _ (no_peers _ _ Hnet)) as Hpl. pose proof (pk_num _ (no_peers _ _ Hnet)) as Hpn.
  destruct (lookup_lt_is_Some_2 (g_PeerInfo (nd_peers nd)) l) as [pl Hl]; [lia|].
  rewrite (update_ok _ _ _ _ Hl). cbn [mbind outcome_bind]. eexists. split; [done|].
  split; [|done]. set (nd1 := set_cache _ nd).
  assert (ready_node N l Q (ref_put R (cni_sha1name cni) (cv_pBlock v)) (set_peers' (nd_peers nd) nd1)) as Hrn1.
  { split; cbn; try done. }
  destruct (ready_peer_update N l _ _ nd1 (nd_peers nd) l pl (count_redirected (cni_length cni) pl) Hrn1 Hl Hb)
    as [? ? ? ? ? ? ? ?]; done.
Qed.

(** A chunk name that can be requested from peer [k], for a connection to
    proxy [d]. *)
Definition sendable (N l : nat) (u : User) (c : ChunkNameInfo) : Prop :=
  length (cni_sha1name c) = SHA1_LEN ∧ 0 < cni_length c ≤ MAX_CHUNK_SIZE ∧
  (∃ k : nat, cni_peerIdx c = Z.of_nat k ∧ (k < N)%nat ∧ k ≠ l) ∧
  (∃ d : nat, rs_dstPxyIdx (us_recv u) = Z.of_nat d ∧ (d < N)%nat ∧ d ≠ l).

Context (Hmem : ev_MemCacheOnly env = true) (Hsha : Z.of_nat SHA1_LEN < 2 ^ 20).

Lemma SendChunkRequest_ok N l Q R (nd : node) us ptr u ri c force :
  ready_node N l Q R nd → us !! cp_user ptr = Some u → find_ri (us_recv u) (cp_ri ptr) = Done ri →
  ri_nameList ri !! cp_name ptr = Some c → ri_getSent ri = true → sendable N l u c →
  Z.of_nat (num_waiting Q) + 1 < 2 ^ 31 → Z.of_nat (ref_count R (cni_sha1name c)) < 2 ^ 31 - 1 →
  ∃ nd' cr Q' R', SendChunkRequest env nd us ptr force = Done (nd', cr) ∧ ready_node N l Q' R' nd' ∧
    accounted Q R (cni_sha1name c) Q' R'.
Proof.
  intros Hrn Hu Hri Hc Hs (Hn & Hlen & (k & Hk & HkN & Hkl) & (d & Hd & HdN & Hdl)) Hw Hr.
  unfold SendChunkRequest. rewrite (proj2 (get_Done _ _ _) Hu). cbn [mbind outcome_bind]. rewrite Hri. cbn [mbind outcome_bind].
  rewrite (proj2 (get_Done _ _ _) Hc). cbn [mbind outcome_bind]. rewrite Hs. cbn [c_assert mbind outcome_bind].
  rewrite Hk, Hd. rewrite (proj2 (Z.eqb_neq (Z.of_nat k) (-1))) by lia. cbn [negb c_assert mbind outcome_bind].
  assert (∀ j net, (j < N)%nat → j ≠ l → ∃ nd' Q', SendRemoteChunkRequest env nd u c (Z.of_nat j) net = Done nd' ∧
    ready_node N l Q' R nd' ∧ accounted Q R (cni_sha1name c) Q' R) as Hremote.
  { intros j net Hj Hjl. destruct (SendRemoteChunkRequest_ok N l Q R nd u c j net Hrn Hj Hjl Hn Hlen Hw Hsha)
      as (nd' & Q' & H1 & H2 & H3 & _). eauto 10. }
  destruct force.
  { destruct (Hremote d true HdN Hdl) as (nd' & Q' & -> & H2 & H3). cbn. eauto 10. }
  pose proof (pk_len _ (no_peers _ _ (rn_net _ _ _ _ _ Hrn))) as Hpl. pose proof (pk_num _ (no_peers _ _ (rn_net _ _ _ _ _ Hrn))) as Hpn.
  pose proof (rn_num _ _ _ _ _ Hrn) as Hnum.
  destruct (lookup_lt_is_Some_2 (g_PeerInfo (nd_peers nd)) k) as [p Hp]; [lia|].
  rewrite get_at_nat, (proj2 (get_Done _ _ _) Hp). cbn [mbind outcome_bind].
  destruct (pi_isLocalHost p || (Z.of_nat k =? Z.of_nat d)) eqn:El.
  - unfold SendLocalChunkRequest. rewrite Hmem.
    assert (∀ v, GetTempDiskCache (nd_cache nd) (cni_sha1name c) = Some v ∨ GetMemory (nd_cache nd) (cni_sha1name c) = Some v →
      ∃ nd' cr Q' R', (nd ← load_local nd c v; Done (nd, cr_local)) = Done (nd', cr) ∧ ready_node N l Q' R' nd' ∧
        accounted Q R (cni_sha1name c) Q' R') as Hlocal.
    { intros v Hv. destruct (load_local_ok N l Q R nd c v Hrn Hv Hr) as (nd' & -> & Hrn' & _). cbn.
      eexists _, _, _, _. split; [done|]. split; [exact Hrn'|]. apply accounted_put. }
    destruct (GetTempDiskCache _ _) as [v|] eqn:Et; [apply Hlocal; by left|].
    destruct (GetMemory _ _) as [v|] eqn:Em; [apply Hlocal; by right|].
    rewrite (proj2 (Z.eqb_neq _ _)) by lia. cbn [negb c_assert mbind outcome_bind].
    destruct (Hremote d true HdN Hdl) as (nd' & Q' & -> & H2 & H3). cbn. eauto 10.
  - destruct (Hremote k false HkN Hkl) as (nd' & Q' & -> & H2 & H3). cbn. eauto 10.
Qed.

Definition sendable_at (N l : nat) (us : list User) (ptr : cni_ptr) (c : ChunkNameInfo) : Prop :=
  ∃ u ri c', us !! cp_user ptr = Some u ∧ find_ri (us_recv u) (cp_ri ptr) = Done ri ∧
    ri_nameList ri !! cp_name ptr = Some c' ∧ ri_getSent ri = true ∧ sendable N l u c' ∧
    cni_sha1name c' = cni_sha1name c.

Lemma send_all_ok N l us L : ∀ (nd : node) Q R a b c,
  ready_node N l Q R nd → Forall (λ x, sendable_at N l us x.1 x.2) L →
  Z.of_nat (num_waiting Q) + Z.of_nat (length L) < 2 ^ 31 - 1 →
  (∀ n, Z.of_nat (ref_count R n) + Z.of_nat (length L) < 2 ^ 31 - 1) →
  ∃ nd' a' b' c' Q' R', foldM (send_one env us) (nd, a, b, c) L.*1 = Done (nd', a', b', c') ∧ ready_node N l Q' R' nd' ∧
    ∀ n, account Q' R' n = (account Q R n + cnt n L.*2)%nat.
Proof.
  induction L as [|[p x] L IH]; intros nd Q R a b c Hrn Hall Hw Hr.
  { eexists _, _, _, _, _, _. split; [done|]. split; [done|]. intros n. cbn. lia. }
  apply Forall_cons in Hall as [(u & ri & c' & Hu & Hri & Hc & Hs & Hok & Hname) Hall]. cbn [fst snd length] in *.
  assert (∃ nd1 a1 b1 c1 Q1 R1, send_one env us (nd, a, b, c) p = Done (nd1, a1, b1, c1) ∧ ready_node N l Q1 R1 nd1 ∧
    accounted Q R (cni_sha1name x) Q1 R1) as (nd1 & a1 & b1 & c1 & Q1 & R1 & He & Hrn1 & Hacc & Hq & Hr1).
  { unfold send_one. unfold read_cni. rewrite (proj2 (get_Done _ _ _) Hu). cbn [mbind outcome_bind]. rewrite Hri.
    cbn [mbind outcome_bind]. rewrite (proj2 (get_Done _ _ _) Hc). cbn [mbind outcome_bind].
    destruct (SendChunkRequest_ok N l Q R nd us p u ri c' (cni_isNetwork c') Hrn Hu Hri Hc Hs Hok)
      as (nd1 & cr & Q1 & R1 & -> & Hrn1 & Hacc); [lia|specialize (Hr (cni_sha1name c')); lia|].
    cbn [mbind outcome_bind]. rewrite Hname in Hacc. destruct cr; eauto 20. }
  cbn [fmap list_fmap foldM fst]. rewrite He. cbn [mbind outcome_bind].
  destruct (IH nd1 Q1 R1 a1 b1 c1 Hrn1 Hall) as (nd' & a' & b' & c2 & Q' & R' & He' & Hrn' & Hacc').
  - lia.
  - intros n. specialize (Hr n). specialize (Hr1 n). lia.
  - eexists _, _, _, _, _, _. split; [exact He'|]. split; [done|]. intros n. rewrite Hacc', Hacc. cbn [fmap list_fmap snd].
    rewrite cnt_cons. destruct (decide (n = cni_sha1name x)) as [->|Hne].
    + rewrite decide_True by done. lia.
    + rewrite decide_False by congruence. lia.
Qed.
(** A name in connections that differ in what schedules change. *)
Lemma find_same us us' i u r ri k c :
  same_users us us' → us !! i = Some u → find_ri (us_recv u) r = Done ri → ri_nameList ri !! k = Some c →
  ∃ u' ri' c', us' !! i = Some u' ∧ find_ri (us_recv u') r = Done ri' ∧ ri_nameList ri' !! k = Some c' ∧
    ri_getSent ri' = ri_getSent ri ∧ rs_dstPxyIdx (us_recv u') = rs_dstPxyIdx (us_recv u) ∧
    set_isNetwork false c' = set_isNetwork false c.
Proof.
  intros Hs Hu (j & Hj)%find_ri_Done Hc.
  assert ((erase <$> us') !! i = Some (erase u)) as Hu' by (by rewrite Hs, list_lookup_fmap, Hu).
  rewrite list_lookup_fmap in Hu'. apply fmap_Some in Hu' as (u' & Hu' & He).
  pose proof (f_equal (λ v, rs_reassembleList (us_recv v)) He) as Hl. cbn in Hl.
  pose proof (f_equal (λ v, rs_dstPxyIdx (us_recv v)) He) as Hd. cbn in Hd.
  pose proof (find_erase r (rs_reassembleList (us_recv u'))) as Hf. rewrite <-Hl, find_erase, Hj in Hf.
  destruct (list_find _ (rs_reassembleList (us_recv u'))) as [[j' ri']|] eqn:Ej; [|done]. injection Hf as Hf _ _ _ _ Hg Hnames.
  assert ((set_isNetwork false <$> ri_nameList ri') !! k = Some (set_isNetwork false c)) as Hk
    by (by rewrite <-Hnames, list_lookup_fmap, Hc).
  rewrite list_lookup_fmap in Hk. apply fmap_Some in Hk as (c' & Hk & Hc').
  exists u', ri', c'. split_and!; [done|apply find_ri_Done; eauto|done|done|done|done].
Qed.

(** What gathering and scheduling leave of a name that can be requested. *)
Lemma sendable_ready N l us us' :
  Forall (user_ok N) us → same_users (pop_user <$> us) us' →
  (∀ p c u, (p, c) ∈ wanted (ready_names us) → us !! cp_user p = Some u → sendable N l u c) →
  Forall (λ x, sendable_at N l us' x.1 x.2) (wanted (ready_names us)).
Proof.
  intros Hok Hsame Hsend. apply Forall_forall. intros [p c] Hp. pose proof Hp as [Hm Hin]%list_elem_of_filter.
  destruct (read_ready N us p c Hok Hin) as (_ & _ & u & ri & Hu & Hri & Hc).
  pose proof (Hsend p c u Hp Hu) as (S1 & S2 & S3 & S4).
  destruct (find_same (pop_user <$> us) us' (cp_user p) (pop_user u) (cp_ri p) (pop_ri ri) (cp_name p) (pop_name c) Hsame)
    as (u' & ri' & c' & H1 & H2 & H3 & H4 & H5 & H6); [by rewrite list_lookup_fmap, Hu|done|cbn; by rewrite list_lookup_fmap, Hc|].
  assert (cni_sha1name c' = cni_sha1name c ∧ cni_length c' = cni_length c ∧ cni_peerIdx c' = cni_peerIdx c) as (E1 & E2 & E3).
  { unfold pop_name in H6. cbn in Hm. rewrite Hm in H6. by injection H6 as _ _ -> -> ->. }
  assert (rs_dstPxyIdx (us_recv (pop_user u)) = rs_dstPxyIdx (us_recv u)) as E4
    by (unfold pop_user; by destruct (us_closed u)).
  exists u', ri', c'. cbn [fst snd]. split_and!; try done. unfold sendable. rewrite E1, E2, E3, H5, E4. done.
Qed.

End sending.

#[local] Existing Instance toy_digest.
#[local] Existing Instance toy_qsort.
#[local] Abbreviation HT := (@hashtable (list Z) Z).
#[local] Abbreviation VT := (@hashtable (list Z) CacheValue).
#[local] Abbreviation AT := (@hashtable (list Z) nat).
#[local] Abbreviation CT := (@hashtable (list Z) (list ChunkRequestInfo)).
#[local] Abbreviation PT := (@hashtable (list Z) (list PeekRequestInfo)).

Lemma toy_user_ok : Forall (user_ok 3) [toy_user false].
Proof.
  apply Forall_singleton. intros _. split.
  - split; cbn; [repeat constructor|apply NoDup_singleton|repeat constructor|reflexivity].
  - apply Forall_singleton. intros _. repeat constructor; vm_compute; congruence.
Qed.

