(* ===== verification/Connection.v ===== *)
(** * User connections

    Models the user connections of [src/waprox/connection.c] and
    [src/waprox/waprox.c]: their tables, their states, the control messages
    they queue for the other proxy, the flow control of [ProcessUserData] and
    [ProcessNameAck], and how they close.  [Sender] and [Receiver] are the two
    halves of a connection.  A connection is named by its descriptor, which is
    unique among the live ones.  HTTP proxy connections, whose target comes
    from a header, and the sockets themselves are not modelled. *)

From Stdlib Require Import ZArith Lia SpecFloat.
From stdpp Require Import base list option numbers gmap.
From S2P Require Import Prelude Bytes Rabin Mrc MrcLevels MrcTree MrcResolve MrcCandidates MrcTheorems.
From S2P Require Import Protocol Hashtable ChunkCache Sender Hrw Peer Reassemble Ils.

Inductive connectionStatus := cs_active | cs_block | cs_done | cs_finsent | cs_closed.

#[export] Instance connectionStatus_eq_dec : EqDecision connectionStatus.
Proof. solve_decision. Defined.

Definition MAX_NUM_CI : Z := 1024 * 5.
Definition MIN_RABIN_BUFSIZE : Z := 64 * 1024 * 3.
Definition MAX_WINDOW_SIZE : Z := 60 * 1024 * 1024.

(** ** The table of connections *)

Definition sum_bytes (l : list Z) : Z := foldl (λ h b, i32 (h + b)) 0 l.

(** The sum of the bytes of the four fields, in the order of the loops; the
    fields are little endian. *)
Definition conn_hash_from_key_fn (key : ConnectionID) : Z :=
  let interleave (l1 l2 : list Z) := concat (zip_with (λ a b, [a; b]) l1 l2) in
  u32 (sum_bytes (interleave (le 4 (srcIP key)) (le 4 (dstIP key)) ++
                  interleave (le 2 (srcPort key)) (le 2 (dstPort key)))).

Definition conn_keys_equal_fn (k1 k2 : ConnectionID) : bool :=
  (srcIP k1 =? srcIP k2) && (srcPort k1 =? srcPort k2) &&
  (dstIP k1 =? dstIP k2) && (dstPort k1 =? dstPort k2).

Lemma conn_keys_equal_fn_ok k1 k2 : conn_keys_equal_fn k1 k2 = true ↔ k1 = k2.
Proof.
  unfold conn_keys_equal_fn. destruct k1, k2. cbn. rewrite !andb_true_iff, !Z.eqb_eq.
  split; [by intros [[[-> ->] ->] ->]|by intros [= -> -> -> ->]].
Qed.

#[export] Instance ConnectionID_eq_dec : EqDecision ConnectionID.
Proof. solve_decision. Defined.
#[export] Instance ConnectionID_countable : Countable ConnectionID.
Proof.
  refine (inj_countable' (λ c, (srcIP c, srcPort c, dstIP c, dstPort c))
    (λ '(a, b, c, d), {| srcIP := a; srcPort := b; dstIP := c; dstPort := d |}) _).
  by intros [].
Defined.

#[export] Instance conn_table : Table ConnectionID Z (@hashtable ConnectionID Z) :=
  hashtable_Table conn_hash_from_key_fn conn_keys_equal_fn conn_keys_equal_fn_ok.

(** ** The window, in double precision *)

(** [0.8] and [0.2] as the compiler reads them. *)
Definition double_0_8 : spec_float := S754_finite false 7205759403792794 (-53).
Definition double_0_2 : spec_float := S754_finite false 7205759403792794 (-55).

Definition double_mul (x y : spec_float) : spec_float := SFmul 53 1024 x y.

(** Conversion of a double to [int], towards zero. *)
Definition int_of_double (x : spec_float) : Z :=
  match x with
  | S754_finite s m e =>
      cond_Zopp s (if 0 <=? e then Zpos m * 2 ^ e else Zpos m / 2 ^ (- e))
  | _ => 0
  end.

(** [numSent > maxWindowSize * 0.8]. *)
Definition over_window (numSent maxWindowSize : Z) : bool :=
  SFltb (double_mul (double_of_int maxWindowSize) double_0_8) (double_of_int numSent).

(** [int threshold = maxWindowSize * 0.2]. *)
Definition resume_threshold (maxWindowSize : Z) : Z :=
  int_of_double (double_mul (double_of_int maxWindowSize) double_0_2).

(** ** State *)

(** [UserConnectionInfo]: the sending half, the receiving half, and the fields
    of the flow control and of the closing; the stream a control message is
    queued with is the descriptor. *)
Record UserInfo := {
  ui_uci : UserConnection;
  ui_recv : RecvState;
  ui_nameFlowId : Z;
  ui_bytesRX : Z;
  ui_closeBytes : Z;
  ui_maxWindowSize : Z;
  ui_numSent : Z;
  ui_lastAcked : Z;
  ui_lastCumulativeAck : Z;
  ui_controlMsgList : list (list Z)
}.

(** [ci_bufRead] is the part of the buffer in use; its length is [lenRead]. *)
Record ConnectionInfo := {
  ci_fd : Z;
  ci_status : connectionStatus;
  ci_isAbnormal : bool;
  ci_bufRead : list Z;
  ci_uci : UserInfo
}.

Definition set_sender (u : UserConnection) (ui : UserInfo) : UserInfo :=
  {| ui_uci := u; ui_recv := ui_recv ui; ui_nameFlowId := ui_nameFlowId ui; ui_bytesRX := ui_bytesRX ui;
     ui_closeBytes := ui_closeBytes ui; ui_maxWindowSize := ui_maxWindowSize ui; ui_numSent := ui_numSent ui;
     ui_lastAcked := ui_lastAcked ui; ui_lastCumulativeAck := ui_lastCumulativeAck ui;
     ui_controlMsgList := ui_controlMsgList ui |}.
Definition set_receiver (rs : RecvState) (ui : UserInfo) : UserInfo :=
  {| ui_uci := ui_uci ui; ui_recv := rs; ui_nameFlowId := ui_nameFlowId ui; ui_bytesRX := ui_bytesRX ui;
     ui_closeBytes := ui_closeBytes ui; ui_maxWindowSize := ui_maxWindowSize ui; ui_numSent := ui_numSent ui;
     ui_lastAcked := ui_lastAcked ui; ui_lastCumulativeAck := ui_lastCumulativeAck ui;
     ui_controlMsgList := ui_controlMsgList ui |}.
Definition set_nameFlowId (flow : Z) (ui : UserInfo) : UserInfo :=
  {| ui_uci := ui_uci ui; ui_recv := ui_recv ui; ui_nameFlowId := flow; ui_bytesRX := ui_bytesRX ui;
     ui_closeBytes := ui_closeBytes ui; ui_maxWindowSize := ui_maxWindowSize ui; ui_numSent := ui_numSent ui;
     ui_lastAcked := ui_lastAcked ui; ui_lastCumulativeAck := ui_lastCumulativeAck ui;
     ui_controlMsgList := ui_controlMsgList ui |}.
Definition set_written (bytesRX closeBytes : Z) (ui : UserInfo) : UserInfo :=
  {| ui_uci := ui_uci ui; ui_recv := ui_recv ui; ui_nameFlowId := ui_nameFlowId ui; ui_bytesRX := bytesRX;
     ui_closeBytes := closeBytes; ui_maxWindowSize := ui_maxWindowSize ui; ui_numSent := ui_numSent ui;
     ui_lastAcked := ui_lastAcked ui; ui_lastCumulativeAck := ui_lastCumulativeAck ui;
     ui_controlMsgList := ui_controlMsgList ui |}.
Definition set_window (numSent lastAcked lastCumulativeAck : Z) (ui : UserInfo) : UserInfo :=
  {| ui_uci := ui_uci ui; ui_recv := ui_recv ui; ui_nameFlowId := ui_nameFlowId ui; ui_bytesRX := ui_bytesRX ui;
     ui_closeBytes := ui_closeBytes ui; ui_maxWindowSize := ui_maxWindowSize ui; ui_numSent := numSent;
     ui_lastAcked := lastAcked; ui_lastCumulativeAck := lastCumulativeAck;
     ui_controlMsgList := ui_controlMsgList ui |}.
Definition set_messages (msgs : list (list Z)) (ui : UserInfo) : UserInfo :=
  {| ui_uci := ui_uci ui; ui_recv := ui_recv ui; ui_nameFlowId := ui_nameFlowId ui; ui_bytesRX := ui_bytesRX ui;
     ui_closeBytes := ui_closeBytes ui; ui_maxWindowSize := ui_maxWindowSize ui; ui_numSent := ui_numSent ui;
     ui_lastAcked := ui_lastAcked ui; ui_lastCumulativeAck := ui_lastCumulativeAck ui;
     ui_controlMsgList := msgs |}.

Definition set_status (s : connectionStatus) (ci : ConnectionInfo) : ConnectionInfo :=
  {| ci_fd := ci_fd ci; ci_status := s; ci_isAbnormal := ci_isAbnormal ci; ci_bufRead := ci_bufRead ci;
     ci_uci := ci_uci ci |}.
Definition set_abnormal (b : bool) (ci : ConnectionInfo) : ConnectionInfo :=
  {| ci_fd := ci_fd ci; ci_status := ci_status ci; ci_isAbnormal := b; ci_bufRead := ci_bufRead ci;
     ci_uci := ci_uci ci |}.
Definition set_bufRead (b : list Z) (ci : ConnectionInfo) : ConnectionInfo :=
  {| ci_fd := ci_fd ci; ci_status := ci_status ci; ci_isAbnormal := ci_isAbnormal ci; ci_bufRead := b;
     ci_uci := ci_uci ci |}.
Definition set_uci (ui : UserInfo) (ci : ConnectionInfo) : ConnectionInfo :=
  {| ci_fd := ci_fd ci; ci_status := ci_status ci; ci_isAbnormal := ci_isAbnormal ci;
     ci_bufRead := ci_bufRead ci; ci_uci := ui |}.

Definition set_bytesTX (n : Z) (u : UserConnection) : UserConnection :=
  {| uci_conn := uci_conn u; uci_rctx := uci_rctx u; uci_numChunks := uci_numChunks u; uci_bytesTX := n;
     uci_chunkBufferList := uci_chunkBufferList u; uci_numChunkBuffers := uci_numChunkBuffers u |}.
Definition set_buffers (l : list ChunkBuffer) (n : Z) (u : UserConnection) : UserConnection :=
  {| uci_conn := uci_conn u; uci_rctx := uci_rctx u; uci_numChunks := uci_numChunks u;
     uci_bytesTX := uci_bytesTX u; uci_chunkBufferList := l; uci_numChunkBuffers := n |}.

(** What [ProcessUserData] and its callees get from the configuration. *)
Record UserEnv := {
  ue_mem : nat → Z;
  ue_rotl : Z → Z → Z;
  ue_mrc : MRCParams;
  ue_config : Config;
  ue_BufferTimeout : Z;
  ue_GenerateNameHint : bool;
  ue_MaxPeerConns : Z
}.

(** The address fields and the identifier of a connection. *)
Definition ci_conn (ci : ConnectionInfo) : ConnectionID := uci_conn (ui_uci (ci_uci ci)).

(** ** Control messages of a connection *)

(** [QueueControlData]. *)
Definition QueueControlData (ui : UserInfo) (msg : list Z) : outcome UserInfo :=
  _ ← c_assert (0 <? length msg)%nat;
  Done (set_messages (ui_controlMsgList ui ++ [msg]) ui).

Definition SendWACloseConnection (env : UserEnv) (ci : ConnectionInfo) (bytesTX : Z) : outcome ConnectionInfo :=
  let c := ci_conn ci in
  if (dstIP c =? 0) || (dstPort c =? 0) then Done ci
  else
    msg ← BuildWACloseConnection (ue_mem env) (srcIP c) (srcPort c) (dstIP c) (dstPort c) bytesTX;
    ui ← QueueControlData (ci_uci ci) msg;
    Done (set_uci ui ci).

Definition SendWANameAck (env : UserEnv) (ci : ConnectionInfo) (ack : Z) : outcome ConnectionInfo :=
  let c := ci_conn ci in
  msg ← BuildWANameAck (ue_mem env) (srcIP c) (srcPort c) (dstIP c) (dstPort c) ack;
  ui ← QueueControlData (ci_uci ci) msg;
  Done (set_uci ui ci).

(** Takes what was processed out of the read buffer. *)
Definition AdjustReadBuffer (ci : ConnectionInfo) (num_processed : Z) : outcome ConnectionInfo :=
  _ ← c_assert (0 <=? num_processed);
  if Z.of_nat (length (ci_bufRead ci)) <? num_processed then Fault OutOfBounds
  else Done (set_bufRead (drop (Z.to_nat num_processed) (ci_bufRead ci)) ci).

Section users.
Context `{Digest} {HT VT AT MT : Type} `{!Table (list Z) Z HT} `{!Table (list Z) CacheValue VT}
  `{!Table (list Z) nat AT} `{!Table ConnectionID Z MT}.
Context (env : UserEnv).
#[local] Abbreviation globals := (globals HT VT).
#[local] Abbreviation peers := (peers AT).

(** The globals of the user connections.  [px_userList] and [px_numUsers] are
    [userList] and [numUsers] of [g_PeerInfo]; [px_master] holds the cells of
    [g_MasterCIsetByFD] that are not [NULL]. *)
Record proxy := {
  px_gl : globals;
  px_peers : peers;
  px_putq : PutQueue;
  px_userList : list (list Z);
  px_numUsers : list Z;
  px_master : gmap Z ConnectionInfo;
  px_ConnMap : MT;
  px_PseudoConnMap : MT;
  px_UserList : list Z;
  px_NumUserConns : Z;
  px_NumBlocked : Z;
  px_DeadConnList : list Z;
  px_NumDeadConns : Z;
  px_TryReconstruction : bool
}.

Definition set_globals (gl : globals) (w : proxy) : proxy :=
  {| px_gl := gl; px_peers := px_peers w; px_putq := px_putq w; px_userList := px_userList w;
     px_numUsers := px_numUsers w; px_master := px_master w; px_ConnMap := px_ConnMap w;
     px_PseudoConnMap := px_PseudoConnMap w; px_UserList := px_UserList w;
     px_NumUserConns := px_NumUserConns w; px_NumBlocked := px_NumBlocked w;
     px_DeadConnList := px_DeadConnList w; px_NumDeadConns := px_NumDeadConns w;
     px_TryReconstruction := px_TryReconstruction w |}.
Definition set_delivery (c : cache HT VT) (ps : peers) (q : PutQueue) (try : bool) (w : proxy) : proxy :=
  {| px_gl := {| gl_cache := c; gl_pNames := gl_pNames (px_gl w); gl_pli := gl_pli (px_gl w) |};
     px_peers := ps; px_putq := q; px_userList := px_userList w;
     px_numUsers := px_numUsers w; px_master := px_master w; px_ConnMap := px_ConnMap w;
     px_PseudoConnMap := px_PseudoConnMap w; px_UserList := px_UserList w;
     px_NumUserConns := px_NumUserConns w; px_NumBlocked := px_NumBlocked w;
     px_DeadConnList := px_DeadConnList w; px_NumDeadConns := px_NumDeadConns w;
     px_TryReconstruction := try |}.
Definition set_master (m : gmap Z ConnectionInfo) (w : proxy) : proxy :=
  {| px_gl := px_gl w; px_peers := px_peers w; px_putq := px_putq w; px_userList := px_userList w;
     px_numUsers := px_numUsers w; px_master := m; px_ConnMap := px_ConnMap w;
     px_PseudoConnMap := px_PseudoConnMap w; px_UserList := px_UserList w;
     px_NumUserConns := px_NumUserConns w; px_NumBlocked := px_NumBlocked w;
     px_DeadConnList := px_DeadConnList w; px_NumDeadConns := px_NumDeadConns w;
     px_TryReconstruction := px_TryReconstruction w |}.
Definition set_maps (conn pseudo : MT) (w : proxy) : proxy :=
  {| px_gl := px_gl w; px_peers := px_peers w; px_putq := px_putq w; px_userList := px_userList w;
     px_numUsers := px_numUsers w; px_master := px_master w; px_ConnMap := conn;
     px_PseudoConnMap := pseudo; px_UserList := px_UserList w;
     px_NumUserConns := px_NumUserConns w; px_NumBlocked := px_NumBlocked w;
     px_DeadConnList := px_DeadConnList w; px_NumDeadConns := px_NumDeadConns w;
     px_TryReconstruction := px_TryReconstruction w |}.
Definition set_userList (l : list Z) (n : Z) (w : proxy) : proxy :=
  {| px_gl := px_gl w; px_peers := px_peers w; px_putq := px_putq w; px_userList := px_userList w;
     px_numUsers := px_numUsers w; px_master := px_master w; px_ConnMap := px_ConnMap w;
     px_PseudoConnMap := px_PseudoConnMap w; px_UserList := l;
     px_NumUserConns := n; px_NumBlocked := px_NumBlocked w;
     px_DeadConnList := px_DeadConnList w; px_NumDeadConns := px_NumDeadConns w;
     px_TryReconstruction := px_TryReconstruction w |}.
Definition set_peer_users (ps : peers) (l : list (list Z)) (n : list Z) (w : proxy) : proxy :=
  {| px_gl := px_gl w; px_peers := ps; px_putq := px_putq w; px_userList := l;
     px_numUsers := n; px_master := px_master w; px_ConnMap := px_ConnMap w;
     px_PseudoConnMap := px_PseudoConnMap w; px_UserList := px_UserList w;
     px_NumUserConns := px_NumUserConns w; px_NumBlocked := px_NumBlocked w;
     px_DeadConnList := px_DeadConnList w; px_NumDeadConns := px_NumDeadConns w;
     px_TryReconstruction := px_TryReconstruction w |}.
Definition set_blocked (n : Z) (w : proxy) : proxy :=
  {| px_gl := px_gl w; px_peers := px_peers w; px_putq := px_putq w; px_userList := px_userList w;
     px_numUsers := px_numUsers w; px_master := px_master w; px_ConnMap := px_ConnMap w;
     px_PseudoConnMap := px_PseudoConnMap w; px_UserList := px_UserList w;
     px_NumUserConns := px_NumUserConns w; px_NumBlocked := n;
     px_DeadConnList := px_DeadConnList w; px_NumDeadConns := px_NumDeadConns w;
     px_TryReconstruction := px_TryReconstruction w |}.
Definition set_dead_list (l : list Z) (n : Z) (w : proxy) : proxy :=
  {| px_gl := px_gl w; px_peers := px_peers w; px_putq := px_putq w; px_userList := px_userList w;
     px_numUsers := px_numUsers w; px_master := px_master w; px_ConnMap := px_ConnMap w;
     px_PseudoConnMap := px_PseudoConnMap w; px_UserList := px_UserList w;
     px_NumUserConns := px_NumUserConns w; px_NumBlocked := px_NumBlocked w;
     px_DeadConnList := l; px_NumDeadConns := n;
     px_TryReconstruction := px_TryReconstruction w |}.

(** The structure of a connection; a pointer to a freed one dangles. *)
Definition get_ci (w : proxy) (fd : Z) : outcome ConnectionInfo :=
  match px_master w !! fd with Some ci => Done ci | None => Fault OutOfBounds end.
Definition put_ci (ci : ConnectionInfo) (w : proxy) : proxy :=
  set_master (<[ci_fd ci := ci]> (px_master w)) w.

Definition SearchConnection (ht : MT) (sip sport dip dport : Z) : option Z :=
  tbl_search ht {| srcIP := sip; srcPort := sport; dstIP := dip; dstPort := dport |}.
Definition PutConnection (ht : MT) (ci : ConnectionInfo) : MT := tbl_insert ht (ci_conn ci) (ci_fd ci).
Definition RemoveConnection (ht : MT) (sip sport dip dport : Z) : MT * bool :=
  let '(ht, v) := tbl_remove ht {| srcIP := sip; srcPort := sport; dstIP := dip; dstPort := dport |} in
  (ht, match v with Some _ => true | None => false end).

(** The connection of a message of the other proxy: source and destination are
    exchanged; then as they are. *)
Definition GetDestinationConnection (ht : MT) (c : ConnectionID) : outcome (option Z) :=
  _ ← c_assert (negb (srcIP c =? 0) && negb (srcPort c =? 0) && negb (dstIP c =? 0) && negb (dstPort c =? 0));
  match SearchConnection ht (dstIP c) (dstPort c) (srcIP c) (srcPort c) with
  | Some fd => Done (Some fd)
  | None => Done (SearchConnection ht (srcIP c) (srcPort c) (dstIP c) (dstPort c))
  end.

(** ** Data of the user *)

(** One message for the data that start at [buffer]: [None] when it waits for
    more. *)
Definition next_message (forceProcess : bool) (gl : globals) (ci : ConnectionInfo) (buffer : list Z)
    : outcome (option (globals * UserConnection * list Z * Z)) :=
  let u := ui_uci (ci_uci ci) in
  let c := uci_conn u in
  let buf_len := Z.of_nat (length buffer) in
  let isForward := rs_isForward (ui_recv (ci_uci ci)) in
  if (negb (g_ClientChunking (ue_config env)) && isForward) ||
     (negb (g_ServerChunking (ue_config env)) && negb isForward) then
    msg ← BuildWARawMessage (ue_mem env) (srcIP c) (srcPort c) (dstIP c) (dstPort c) buffer;
    Done (Some (gl, u, msg, buf_len))
  else if bool_decide (ci_status ci = cs_active) && (0 <? ue_BufferTimeout env) && negb forceProcess &&
          (buf_len <? MIN_RABIN_BUFSIZE) then Done None
  else
    '(gl, u, msg, one_process) ←
      ProcessOneRabinChunking2 (ue_mem env) (ue_mrc env) (g_SkipFirstChunk (ue_config env)) gl u buffer buf_len;
    Done (Some (gl, u, msg, one_process)).

(** The loop of [ProcessUserData]: the globals, [g_NumBlocked], the connection
    and [src_off], which is also [num_processed]. *)
Fixpoint user_loop (fuel : nat) (forceProcess : bool) (g_NumUserConns : Z) (gl : globals) (g_NumBlocked : Z)
    (ci : ConnectionInfo) (src_off : Z) : outcome (globals * Z * ConnectionInfo * Z) :=
  if Z.of_nat (length (ci_bufRead ci)) <=? src_off then Done (gl, g_NumBlocked, ci, src_off)
  else
    match fuel with
    | O => Fault OutOfFuel
    | S fuel =>
        next ← next_message forceProcess gl ci (drop (Z.to_nat src_off) (ci_bufRead ci));
        match next with
        | None =>
            let ui := ci_uci ci in
            Done (gl, g_NumBlocked, set_uci (set_window (ui_numSent ui) (ui_lastAcked ui) 0 ui) ci, src_off)
        | Some (gl, u, msg, one_process) =>
            ui ← QueueControlData (set_sender u (ci_uci ci)) msg;
            let ui := set_sender (set_bytesTX (u32 (uci_bytesTX u + one_process)) u)
                        (set_window (u32 (ui_numSent ui + one_process)) (ui_lastAcked ui)
                           (ui_lastCumulativeAck ui) ui) in
            let ci := set_uci ui ci in
            if over_window (ui_numSent ui) (ui_maxWindowSize ui) then
              let g_NumBlocked := u32 (g_NumBlocked + 1) in
              _ ← c_assert (g_NumBlocked <=? u32 g_NumUserConns);
              Done (gl, g_NumBlocked, set_status cs_block ci, src_off + one_process)
            else user_loop fuel forceProcess g_NumUserConns gl g_NumBlocked ci (src_off + one_process)
        end
    end.

(** [ProcessUserData] of a connection that is not an HTTP proxy's. *)
Definition ProcessUserData (w : proxy) (fd : Z) (forceProcess : bool) : outcome (proxy * Z) :=
  ci ← get_ci w fd;
  if (dstIP (ci_conn ci) =? 0) && (dstPort (ci_conn ci) =? 0) then Done (w, 0)
  else if decide (ci_status ci = cs_block) then Done (w, 0)
  else
    '(gl, blocked, ci, num_processed) ←
      user_loop (S (length (ci_bufRead ci))) forceProcess (px_NumUserConns w) (px_gl w) (px_NumBlocked w) ci 0;
    ci ← (if decide (ci_status ci = cs_done) then
            let remain := Z.of_nat (length (ci_bufRead ci)) - num_processed in
            ci ← SendWACloseConnection env ci (u32 (uci_bytesTX (ui_uci (ci_uci ci)) + remain));
            Done (set_status cs_finsent ci)
          else Done ci);
    Done (put_ci ci (set_blocked blocked (set_globals gl w)), num_processed).

(** ** Closing *)

Definition SetDead (w : proxy) (fd : Z) (abnormal : bool) : outcome proxy :=
  ci ← get_ci w fd;
  if decide (ci_status ci = cs_closed) then Done w
  else
    let ci := set_abnormal abnormal (set_status cs_closed ci) in
    ci ← (if abnormal then SendWACloseConnection env (set_uci (set_messages [] (ci_uci ci)) ci) 0
          else Done ci);
    let n := px_NumDeadConns w + 1 in
    _ ← c_assert (n <? MAX_NUM_CI);
    Done (set_dead_list (px_DeadConnList w ++ [fd]) n (put_ci ci w)).

(** [CloseConnection] of a user connection. *)
Definition CloseConnection (w : proxy) (fd : Z) : outcome proxy :=
  ci ← get_ci w fd;
  if decide (ci_status ci = cs_closed) then Done w
  else
    let ci := set_status cs_done ci in
    let w := put_ci ci w in
    if (0 <? length (ci_bufRead ci))%nat then
      '(w, num_processed) ← ProcessUserData w fd true;
      ci ← get_ci w fd;
      ci ← AdjustReadBuffer ci num_processed;
      Done (put_ci ci w)
    else
      ci ← SendWACloseConnection env ci (uci_bytesTX (ui_uci (ci_uci ci)));
      let w := put_ci (set_status cs_finsent ci) w in
      if 0 <? ui_numSent (ci_uci ci) then Done w else SetDead w fd false.

(** [ProcessReadBuffer] of a user connection; the time of the access is not
    modelled. *)
Definition ProcessReadBuffer (w : proxy) (fd : Z) : outcome (proxy * Z) :=
  '(w, num_processed) ← ProcessUserData w fd false;
  if num_processed =? -1 then w ← SetDead w fd true; Done (w, num_processed)
  else if num_processed =? 0 then Done (w, num_processed)
  else
    ci ← get_ci w fd;
    ci ← AdjustReadBuffer ci num_processed;
    Done (put_ci ci w, num_processed).

(** What follows the writing of [bytesSent] bytes to the user. *)
Definition PostWrite (w : proxy) (fd : Z) (bytesSent : Z) (eventTriggered : bool) : outcome proxy :=
  _ ← c_assert (0 <? bytesSent);
  ci ← get_ci w fd;
  let bytesRX := u32 (ui_bytesRX (ci_uci ci) + bytesSent) in
  let closeBytes := ui_closeBytes (ci_uci ci) in
  ci ← SendWANameAck env (set_uci (set_written bytesRX closeBytes (ci_uci ci)) ci) bytesRX;
  let w := put_ci ci w in
  if eventTriggered && negb (closeBytes =? 0) && (bytesRX =? closeBytes) then SetDead w fd false
  else Done w.

(** ** Control messages of the other proxy *)

(** The acknowledgement, for the connection it was found for. *)
Definition ack_connection (w : proxy) (fd : Z) (ack : Z) : outcome proxy :=
  ci ← get_ci w fd;
  let ui := ci_uci ci in
  let u := ui_uci ui in
  _ ← c_assert (ui_lastAcked ui <=? ack);
  _ ← c_assert (ack <=? uci_bytesTX u);
  let bytesAcked := u32 (ack - ui_lastAcked ui) in
  let numSent := u32 (ui_numSent ui - bytesAcked) in
  let ui := set_window numSent ack (u32 (ui_lastCumulativeAck ui + bytesAcked)) ui in
  let threshold := resume_threshold (ui_maxWindowSize ui) in
  let resume := bool_decide (ci_status ci = cs_block) &&
                (u32 threshold <=? u32 (ui_maxWindowSize ui - numSent)) in
  let status := if resume then cs_active else ci_status ci in
  let blocked := if resume then u32 (px_NumBlocked w - 1) else px_NumBlocked w in
  '(c, rest, numDestroyed) ←
    DestroyChunkBufferList (ue_GenerateNameHint env) (gl_cache (px_gl w)) (uci_chunkBufferList u) ack true;
  let u := set_buffers rest (u32 (uci_numChunkBuffers u - Z.of_nat numDestroyed)) u in
  let ci := set_status status (set_uci (set_sender u ui) ci) in
  let w := put_ci ci (set_blocked blocked (set_globals
             {| gl_cache := c; gl_pNames := gl_pNames (px_gl w); gl_pli := gl_pli (px_gl w) |} w)) in
  if bool_decide (status = cs_finsent) && (numSent =? 0) then SetDead w fd false else Done w.

Definition ProcessNameAck (w : proxy) (buffer : list Z) : outcome (proxy * Z) :=
  let num_processed := Z.of_nat sizeof_WANameAck in
  ack ← ntohl_at buffer 19;
  c ← read_connID buffer;
  target ← GetDestinationConnection (px_ConnMap w) c;
  w ← match target with None => Done w | Some fd => ack_connection w fd ack end;
  _ ← c_assert (num_processed <=? Z.of_nat (length buffer));
  Done (w, num_processed).

Definition ProcessCloseConnection (w : proxy) (buffer : list Z) : outcome (proxy * Z) :=
  c ← read_connID buffer;
  bytesTX ← ntohl_at buffer 19;
  target ← GetDestinationConnection (px_ConnMap w) c;
  w ← match target with
      | None => Done w
      | Some fd =>
          ci ← get_ci w fd;
          if bytesTX =? 0 then SetDead w fd true
          else if ui_bytesRX (ci_uci ci) =? bytesTX then SetDead w fd false
          else Done (put_ci (set_uci (set_written (ui_bytesRX (ci_uci ci)) bytesTX (ci_uci ci)) ci) w)
      end;
  Done (w, Z.of_nat sizeof_WACloseConnection).

Definition ProcessRawMessage (w : proxy) (buffer : list Z) : outcome (proxy * Z) :=
  c ← read_connID buffer;
  n ← ntohl_at buffer 19;
  let msg_len := i32 n in
  _ ← c_assert (0 <? msg_len);
  len ← ntohl_at buffer 2;
  let tot_length := i32 len in
  _ ← c_assert (tot_length <=? Z.of_nat (length buffer));
  target ← GetDestinationConnection (px_ConnMap w) c;
  w ← match target with
      | None => Done w
      | Some fd =>
          ci ← get_ci w fd;
          data ← load buffer sizeof_WARawMessage (Z.to_nat msg_len);
          let rs := ui_recv (ci_uci ci) in
          let rs := set_sent (rs_sent rs ++ [data]) rs in
          let rs := set_stats (rs_numHits rs) (rs_numMisses rs) (rs_hitBytes rs)
                      (u32 (rs_missBytes rs + msg_len)) rs in
          let g := ue_config env in
          q ← (if negb (g_NoCache g) &&
                  ((g_ClientChunking g && negb (rs_isForward rs)) || (g_ServerChunking g && rs_isForward rs))
               then QueuePutMessage g (gl_cache (px_gl w)) (px_putq w) data (rs_dstPxyIdx rs) (rs_seq_no rs) None
               else Done (px_putq w));
          let rs := set_seq (u32 (rs_seq_no rs + 1)) (rs_next rs) rs in
          Done (put_ci (set_uci (set_receiver rs (ci_uci ci)) ci)
                  (set_delivery (gl_cache (px_gl w)) (px_peers w) q (px_TryReconstruction w) w))
      end;
  Done (w, tot_length).

(** [ProcessNameTreeDelivery2]; a chunk that came with its contents asks for a
    reconstruction. *)
Definition ProcessNameTreeDelivery2 (w : proxy) (buffer : list Z) : outcome (proxy * Z) :=
  len ← ntohl_at buffer 2;
  let tot_length := i32 len in
  numTrees ← ntohl_at buffer 19;
  _ ← c_assert (tot_length <=? Z.of_nat (length buffer));
  _ ← c_assert (0 <=? i32 numTrees);
  _ ← c_assert (i32 numTrees =? 1);
  c ← read_connID buffer;
  target ← GetDestinationConnection (px_ConnMap w) c;
  match target with
  | None => Done (w, tot_length)
  | Some fd =>
      ci ← get_ci w fd;
      '(cc, ps, rs, tot_length) ←
        deliver_names (ue_rotl env) (gl_cache (px_gl w)) (px_peers w) (ui_recv (ci_uci ci)) buffer;
      '(_, try, _) ← read_name_delivery (λ acc chunk,
        Done (acc || match wc_content chunk with Some _ => true | None => false end)) false buffer;
      Done (put_ci (set_uci (set_receiver rs (ci_uci ci)) ci)
              (set_delivery cc ps (px_putq w) (px_TryReconstruction w || try) w), tot_length)
  end.

(** ** Opening *)

Definition zero_ctx : RabinCtx :=
  {| rp := {| moduloT := replicate 256 0; regionT := replicate 256 0; region_buf := replicate 256 0;
              region_size := 0; region_pos := 0; shift := 0; ir_poly := 0 |};
     mask := 0; finger := 0; bsize := 0; min_size := 0; max_size := 0 |}.

(** [CreateNewConnectionInfo] of a socket, for [ct_user], and
    [CreateUserConnectionInfo]; the connection is not in a table yet. *)
Definition CreateUserConnection (w : proxy) (newfd : Z) (isForward : bool) : outcome proxy :=
  _ ← (if (0 <=? newfd) && (newfd <? MAX_NUM_CI) then Done tt else Fault OutOfBounds);
  _ ← c_assert (match px_master w !! newfd with None => true | Some _ => false end);
  rctx ← InitRabinCtx zero_ctx (g_MinChunkSize (ue_mrc env)) WAPROX_RABIN_WINDOW WAPROX_MRC_MIN WAPROX_MRC_MAX;
  let u := {| uci_conn := {| srcIP := 0; srcPort := 0; dstIP := 0; dstPort := 0 |}; uci_rctx := rctx;
              uci_numChunks := 0; uci_bytesTX := 0; uci_chunkBufferList := []; uci_numChunkBuffers := 0 |} in
  let rs := {| rs_isForward := isForward; rs_dstPxyIdx := -1; rs_seq_no := 0; rs_reassembleList := [];
               rs_readyList := []; rs_next := 0; rs_pendingNames := 0; rs_pendingBytes := 0;
               rs_numHits := 0; rs_numMisses := 0; rs_hitBytes := 0; rs_missBytes := 0; rs_sent := [] |} in
  let ui := {| ui_uci := u; ui_recv := rs; ui_nameFlowId := -1; ui_bytesRX := 0; ui_closeBytes := 0;
               ui_maxWindowSize := MAX_WINDOW_SIZE; ui_numSent := 0; ui_lastAcked := 0;
               ui_lastCumulativeAck := 0; ui_controlMsgList := [] |} in
  Done (set_userList (px_UserList w ++ [newfd]) (px_NumUserConns w + 1)
          (put_ci {| ci_fd := newfd; ci_status := cs_active; ci_isAbnormal := false; ci_bufRead := [];
                     ci_uci := ui |} w)).

Definition set_conn (c : ConnectionID) (ci : ConnectionInfo) : ConnectionInfo :=
  let u := ui_uci (ci_uci ci) in
  set_uci (set_sender {| uci_conn := c; uci_rctx := uci_rctx u; uci_numChunks := uci_numChunks u;
                         uci_bytesTX := uci_bytesTX u; uci_chunkBufferList := uci_chunkBufferList u;
                         uci_numChunkBuffers := uci_numChunkBuffers u |} (ci_uci ci)) ci.

Definition set_dstPxyIdx (idx : Z) (rs : RecvState) : RecvState :=
  {| rs_isForward := rs_isForward rs; rs_dstPxyIdx := idx; rs_seq_no := rs_seq_no rs;
     rs_reassembleList := rs_reassembleList rs; rs_readyList := rs_readyList rs;
     rs_next := rs_next rs; rs_pendingNames := rs_pendingNames rs;
     rs_pendingBytes := rs_pendingBytes rs; rs_numHits := rs_numHits rs; rs_numMisses := rs_numMisses rs;
     rs_hitBytes := rs_hitBytes rs; rs_missBytes := rs_missBytes rs; rs_sent := rs_sent rs |}.

(** The connection joins a destination proxy and the table. *)
Definition join_peer (w : proxy) (ci : ConnectionInfo) (idx : Z) : outcome (proxy * ConnectionInfo) :=
  '(ps, flow) ← GetNextControlFlowID (ue_MaxPeerConns env) (px_peers w) idx;
  l ← update (px_userList w) (Z.to_nat idx) (λ l, l ++ [ci_fd ci]);
  n ← update (px_numUsers w) (Z.to_nat idx) (λ n, n + 1);
  let ui := ci_uci ci in
  let ci := set_uci (set_nameFlowId flow (set_receiver (set_dstPxyIdx idx (ui_recv ui)) ui)) ci in
  Done (set_maps (PutConnection (px_ConnMap w) ci) (px_PseudoConnMap w) (set_peer_users ps l n w), ci).

(** [newfd] is what [MakeConnection] returns. *)
Definition ProcessOpenConnection (w : proxy) (peerIdx newfd : Z) (buffer : list Z) : outcome (proxy * Z) :=
  c ← read_connID buffer;
  _ ← c_assert (negb (srcIP c =? 0) && negb (srcPort c =? 0) && negb (dstIP c =? 0) && negb (dstPort c =? 0));
  _ ← c_assert (match SearchConnection (px_ConnMap w) (dstIP c) (dstPort c) (srcIP c) (srcPort c) with
                | None => true | Some _ => false end);
  if 0 <? newfd then
    w ← CreateUserConnection w newfd false;
    ci ← get_ci w newfd;
    let ci := set_conn {| srcIP := dstIP c; srcPort := dstPort c; dstIP := srcIP c; dstPort := srcPort c |} ci in
    '(w, ci) ← join_peer w ci peerIdx;
    Done (put_ci ci w, Z.of_nat sizeof_WAOpenConnection)
  else Fault NiceExit.

(** [OpenUserConnection] of a connection whose addresses are known. *)
Definition OpenUserConnection (w : proxy) (fd : Z) : outcome proxy :=
  ci ← get_ci w fd;
  let c := ci_conn ci in
  _ ← c_assert (negb (dstIP c =? 0));
  _ ← c_assert (negb (dstPort c =? 0));
  idx ← PickDestinationProxy (px_peers w);
  if idx =? -1 then Fault NiceExit
  else
    '(w, ci) ← join_peer w ci idx;
    msg ← BuildWAOpenConnection (ue_mem env) (srcIP c) (srcPort c) (dstIP c) (dstPort c);
    ui ← QueueControlData (ci_uci ci) msg;
    let w := put_ci (set_uci ui ci) w in
    '(w, num_processed) ← ProcessUserData w fd true;
    ci ← get_ci w fd;
    ci ← AdjustReadBuffer ci num_processed;
    Done (put_ci ci w).

(** The branch of [InitUserConnection] for a fixed destination, once the new
    connection was accepted. *)
Definition InitUserConnection (w : proxy) (fd : Z) (sip sport : Z) (fixedIP g_FixedDestPort : Z) : outcome proxy :=
  ci ← get_ci w fd;
  let ci := set_conn {| srcIP := sip; srcPort := sport; dstIP := fixedIP; dstPort := g_FixedDestPort |} ci in
  OpenUserConnection (put_ci ci w) fd.

(** ** The end of a connection *)

Definition DestroyReassembleList (l : list ReassembleInfo) : outcome unit :=
  foldM (λ _ ri, DestroyReassembleInfo ri) tt l.

(** [DestroyUserConnectionInfo] and what [DestroyConnectionInfo] does of
    memory; the log of the session is not modelled. *)
Definition DestroyUserConnectionInfo (w : proxy) (fd : Z) : outcome proxy :=
  ci ← get_ci w fd;
  let ui := ci_uci ci in
  let c := ci_conn ci in
  let '(conn, _) := RemoveConnection (px_ConnMap w) (srcIP c) (srcPort c) (dstIP c) (dstPort c) in
  let '(pseudo, _) := RemoveConnection (px_PseudoConnMap w) (srcIP c) (srcPort c) (dstIP c) (dstPort c) in
  _ ← DestroyReassembleList (rs_reassembleList (ui_recv ui));
  '(cc, rest, numDestroyed) ←
    DestroyChunkBufferList (ue_GenerateNameHint env) (gl_cache (px_gl w)) (uci_chunkBufferList (ui_uci ui)) 0
      (negb (ci_isAbnormal ci));
  _ ← c_assert (u32 (uci_numChunkBuffers (ui_uci ui) - Z.of_nat numDestroyed) =? 0);
  let w := set_maps conn pseudo (set_globals
             {| gl_cache := cc; gl_pNames := gl_pNames (px_gl w); gl_pli := gl_pli (px_gl w) |} w) in
  let w := set_userList (filter (λ x, x ≠ fd) (px_UserList w)) (px_NumUserConns w - 1) w in
  _ ← c_assert (0 <=? px_NumUserConns w);
  let idx := rs_dstPxyIdx (ui_recv ui) in
  w ← (if idx =? -1 then Done w
       else
         l ← update (px_userList w) (Z.to_nat idx) (filter (λ x, x ≠ fd));
         n ← update (px_numUsers w) (Z.to_nat idx) (λ n, n - 1);
         m ← get_at n idx;
         _ ← c_assert (0 <=? m);
         Done (set_peer_users (px_peers w) l n w));
  _ ← c_assert (length (ui_controlMsgList ui) =? 0)%nat;
  Done (if decide (ci_status ci = cs_block) then set_blocked (u32 (px_NumBlocked w - 1)) w else w).

Definition DestroyConnectionInfo (w : proxy) (fd : Z) : outcome proxy :=
  w ← DestroyUserConnectionInfo w fd;
  Done (set_master (delete fd (px_master w)) w).

(** The first loop of [CleanUpClosedConnections], for user connections: the
    connections to destroy and those that wait. *)
Definition dead_to_destroy (w : proxy) (st : list Z * list Z) (fd : Z) : outcome (list Z * list Z) :=
  let '(free, wait) := st in
  ci ← get_ci w fd;
  match ui_controlMsgList (ci_uci ci) with
  | _ :: _ => Done (free, wait ++ [fd])
  | [] =>
      if decide (ci_status ci = cs_closed) then Done (free ++ [fd], wait) else Fault AssertFailed
  end.

Definition destroy_one (w : proxy) (fd : Z) : outcome proxy :=
  w ← DestroyConnectionInfo w fd;
  let n := px_NumDeadConns w - 1 in
  _ ← c_assert (0 <=? n);
  Done (set_dead_list (px_DeadConnList w) n w).

Definition CleanUpClosedConnections (w : proxy) : outcome (proxy * Z) :=
  '(free, wait) ← foldM (dead_to_destroy w) ([], []) (px_DeadConnList w);
  _ ← c_assert (Z.of_nat (length free) <? MAX_NUM_CI);
  w ← foldM destroy_one (set_dead_list wait (px_NumDeadConns w) w) free;
  Done (w, Z.of_nat (length free)).
End users.
Arguments proxy : clear implicits.
