(* ===== verification/ConnectionTheorems.v ===== *)
(** * User connections: theorems

    The flow control of [Connection]: [ProcessUserData] sends a prefix of what
    it read, the window bounds what is not acknowledged, acknowledgements give
    it back; and what happens to [g_NumBlocked] and to the state of a connection
    that closes while it is blocked. *)

From Stdlib Require Import ZArith Lia SpecFloat.
From stdpp Require Import base list option numbers sets gmap.
From S2P Require Import Prelude Bytes Rabin Mrc MrcLevels MrcTree MrcResolve MrcCandidates MrcTheorems.
From S2P Require Import Protocol Hashtable ChunkCache Sender Hrw Peer Reassemble Receiver Ils Connection.

(** ** The window *)

Lemma digits2_log2 p : Zpos (digits2_pos p) = Z.log2 (Zpos p) + 1.
Proof.
  assert (∀ q b, Z.log2 (2 * Zpos q + Z.b2z b) = Z.log2 (Zpos q) + 1) as Hlog.
  { intros q b. destruct b; cbn [Z.b2z]; [rewrite Z.log2_succ_double|rewrite Z.add_0_r, Z.log2_double]; lia. }
  induction p as [p IH|p IH|]; cbn [digits2_pos]; [| |done].
  - pose proof (Hlog p true) as Hl. cbn [Z.b2z] in Hl. change (Zpos p~1) with (2 * Zpos p + 1). lia.
  - pose proof (Hlog p false) as Hl. cbn [Z.b2z] in Hl. rewrite Z.add_0_r in Hl. change (Zpos p~0) with (2 * Zpos p). lia.
Qed.

Lemma iter_xO p d : Zpos (Pos.iter xO p d) = Zpos p * 2 ^ Zpos d.
Proof.
  induction d as [|d IH] using Pos.peano_ind; [cbn; lia|].
  rewrite Pos.iter_succ. change (Zpos (xO (Pos.iter xO p d))) with (2 * Zpos (Pos.iter xO p d)).
  rewrite IH, Pos2Z.inj_succ, Z.pow_succ_r by lia. lia.
Qed.

Lemma fexp_double e : -1000 ≤ e → fexp 53 1024 e = e - 53.
Proof. intros. unfold fexp, emin. lia. Qed.

(** Integers below 2^53 are doubles. *)
Lemma double_of_int_pos n :
  0 < n < 2 ^ 53 → ∃ m, double_of_int n = S754_finite false m (Z.log2 n - 52) ∧
    Zpos m = n * 2 ^ (52 - Z.log2 n).
Proof.
  intros Hn. destruct n as [|p|]; [lia| |lia].
  assert (0 ≤ Z.log2 (Zpos p) ≤ 52) as Hl.
  { split; [apply Z.log2_nonneg|]. assert (Z.log2 (Zpos p) < 53); [|lia]. apply Z.log2_lt_pow2; lia. }
  assert (∃ m, shl_align p 0 (fexp 53 1024 (Zpos (digits2_pos p) + 0)) = (m, Z.log2 (Zpos p) - 52) ∧
    Zpos m = Zpos p * 2 ^ (52 - Z.log2 (Zpos p))) as (m & Hm & Hv).
  { rewrite digits2_log2, fexp_double by lia. unfold shl_align.
    destruct (Z.log2 (Zpos p) + 1 + 0 - 53 - 0) as [|d|d] eqn:E.
    - exists p. replace (52 - Z.log2 (Zpos p)) with 0 by lia. split; [f_equal; lia|lia].
    - lia.
    - eexists. split; [f_equal; lia|]. rewrite iter_xO. do 2 f_equal. lia. }
  exists m. split; [|done]. unfold double_of_int. cbn [binary_normalize]. unfold binary_round. rewrite Hm.
  assert (Z.log2 (Zpos m) = 52) as Hlm.
  { rewrite Hv. rewrite <-Z.shiftl_mul_pow2, Z.log2_shiftl by lia. lia. }
  assert (∀ l, shr_fexp 53 1024 (Zpos m) (Z.log2 (Zpos p) - 52) l =
    (shr_record_of_loc (Zpos m) l, Z.log2 (Zpos p) - 52)) as Hs.
  { intros l. unfold shr_fexp. cbn [Zdigits2]. rewrite digits2_log2, Hlm, fexp_double by lia.
    unfold shr. by replace (52 + 1 + _ - 53 - _) with 0 by lia. }
  unfold binary_round_aux. rewrite Hs. cbn [shr_record_of_loc shr_m loc_of_shr_record round_nearest_even].
  rewrite Hs. cbn [shr_record_of_loc shr_m].
  by rewrite (proj2 (Z.leb_le _ (1024 - 53))) by lia.
Qed.

(** Four fifths of [MAX_WINDOW_SIZE]. *)
Definition HIGH : Z := 50331648.

Lemma over_window_ok n : 0 ≤ n < 2 ^ 32 → over_window n MAX_WINDOW_SIZE = (HIGH <? n).
Proof.
  intros Hn. unfold over_window.
  assert (double_mul (double_of_int MAX_WINDOW_SIZE) double_0_8 = S754_finite false 6755399441055744 (-27)) as ->
    by reflexivity.
  destruct (decide (n = 0)) as [->|Hne]; [reflexivity|].
  destruct (double_of_int_pos n) as (m & -> & Hm); [lia|].
  pose proof (Z.log2_spec n) as Hl. unfold SFltb. cbn [SFcompare].
  change (PosDef.Pos.compare_cont Eq 6755399441055744 m) with (6755399441055744 ?= Zpos m). rewrite Hm.
  destruct (Z.lt_trichotomy (Z.log2 n) 25) as [Hlt|[Heq|Hgt]].
  - rewrite (proj2 (Z.compare_gt_iff _ _)) by lia. symmetry. apply Z.ltb_ge. unfold HIGH.
    assert (2 ^ Z.succ (Z.log2 n) ≤ 2 ^ 25) by (apply Z.pow_le_mono_r; lia). lia.
  - rewrite Heq, Z.compare_refl. change (2 ^ (52 - 25)) with (2 ^ 27). unfold HIGH.
    destruct (Z.compare_spec 6755399441055744 (n * 2 ^ 27)) as [E|E|E]; symmetry;
      rewrite ?Z.ltb_lt, ?Z.ltb_ge; lia.
  - rewrite (proj2 (Z.compare_lt_iff _ _)) by lia. symmetry. apply Z.ltb_lt. unfold HIGH.
    assert (2 ^ 26 ≤ 2 ^ Z.log2 n) by (apply Z.pow_le_mono_r; lia). lia.
Qed.

Lemma resume_ok n :
  0 ≤ n ≤ MAX_WINDOW_SIZE →
  (u32 (resume_threshold MAX_WINDOW_SIZE) <=? u32 (MAX_WINDOW_SIZE - n)) = (n <=? HIGH).
Proof.
  intros Hn. change (u32 (resume_threshold MAX_WINDOW_SIZE)) with 12582912. unfold MAX_WINDOW_SIZE, HIGH in *.
  rewrite u32_id by lia. apply eq_true_iff_eq. rewrite !Z.leb_le. lia.
Qed.

(** ** What a chunk changes of its connection *)

Lemma GetRabinChunkSizeEx_sizes cap rctx src n mn mx r rctx' bs rb :
  GetRabinChunkSizeEx cap rctx src n mn mx r = Done (rctx', bs, rb) →
  min_size rctx' = min_size rctx ∧ max_size rctx' = max_size rctx.
Proof.
  unfold GetRabinChunkSizeEx. intros Hd. inv_done. destruct x as [[rp' f] bs']. inv_done.
  subst rctx'. by destruct r.
Qed.

Lemma DoPreMRC_sizes g names pli rctx psrc n pm :
  DoPreMRC g names pli rctx psrc n = Done pm →
  min_size (pm_rctx pm) = min_size rctx ∧ max_size (pm_rctx pm) = max_size rctx.
Proof.
  unfold DoPreMRC. destruct (_ <=? _); [done|]. intros Hd. inv_done.
  destruct x1 as [[rctx' bs] rb]. inv_done. destruct x7 as [st' lv]. inv_done. subst pm. cbn [pm_rctx].
  by eapply GetRabinChunkSizeEx_sizes.
Qed.

Section fields.
Context `{Digest} {HT VT : Type} `{!Table (list Z) Z HT} `{!Table (list Z) CacheValue VT}.

Record chunk_fields (u u' : UserConnection) (rb : Z) : Prop := {
  cf_conn : uci_conn u' = uci_conn u;
  cf_bytesTX : uci_bytesTX u' = uci_bytesTX u;
  cf_numChunks : uci_numChunks u' = uci_numChunks u + 1;
  cf_buffers : ∃ cb, uci_chunkBufferList u' = uci_chunkBufferList u ++ [cb] ∧
    cb_seq_no cb = uci_bytesTX u ∧ cb_length cb = rb;
  cf_count : uci_numChunkBuffers u' = uci_numChunkBuffers u + 1;
  cf_min : min_size (uci_rctx u') = min_size (uci_rctx u);
  cf_max : max_size (uci_rctx u') = max_size (uci_rctx u)
}.

Lemma ProcessOneRabinChunking2_fields mem g skip (gl gl' : globals HT VT) u u' psrc n msg rb :
  skip = false ∨ 1 ≤ uci_numChunks u →
  ProcessOneRabinChunking2 mem g skip gl u psrc n = Done (gl', u', msg, rb) → chunk_fields u u' rb.
Proof.
  intros Hskip. unfold ProcessOneRabinChunking2.
  assert (skip && (uci_numChunks u + 1 <=? 1) = false) as Hs.
  { destruct Hskip as [->| ]; [done|]. by rewrite (proj2 (Z.leb_gt _ _)), andb_false_r by lia. }
  intros Hd. inv_done. cbn [uci_numChunks] in Hd. rewrite Hs in Hd.
  repeat (inv_done; match goal with Hd : (match ?p with (_, _) => _ end) = Done _ |- _ => destruct p end).
  inv_done.
  match goal with H : DoPreMRC _ _ _ _ _ _ = _ |- _ => destruct (DoPreMRC_sizes _ _ _ _ _ _ _ H) as [Hmin Hmax] end.
  subst. split; cbn; try done.
  eexists. split; [done|].
  match goal with H : CreateNewChunkBuffer2 _ _ _ _ _ _ _ _ _ = _ |- _ => revert H end.
  unfold CreateNewChunkBuffer2, CreateNewChunkBuffer. intros Hc. inv_done. by subst.
Qed.
End fields.

(** ** Invariant of the flow control *)

(** The buffers [l] hold the bytes from [a] to [b] of the stream. *)
Fixpoint runs (a : Z) (l : list ChunkBuffer) (b : Z) : Prop :=
  match l with
  | [] => a = b
  | cb :: l' => cb_seq_no cb = a ∧ 0 < cb_length cb ∧ runs (a + cb_length cb) l' b
  end.

Lemma runs_snoc l cb : ∀ a b,
  runs a l b → cb_seq_no cb = b → 0 < cb_length cb → runs a (l ++ [cb]) (b + cb_length cb).
Proof.
  induction l as [|x l IH]; intros a b; cbn [runs app].
  - intros -> H1 H2. by subst.
  - intros (H1 & H2 & H3) H4 H5. split_and!; [done|done|]. by apply IH.
Qed.

Lemma runs_drop k : ∀ l a b, runs a l b → ∃ a', a ≤ a' ∧ runs a' (drop k l) b.
Proof.
  induction k as [|k IH]; intros [|cb l] a b Hr; cbn [drop]; try (exists a; split; [lia|done]).
  destruct Hr as (H1 & H2 & H3). destruct (IH _ _ _ H3) as (a' & Ha & Hr'). exists a'. split; [lia|done].
Qed.

Lemma runs_bounds l : ∀ a b,
  runs a l b → a ≤ b ∧ Forall (λ cb, a < cb_seq_no cb + cb_length cb ≤ b ∧ a ≤ cb_seq_no cb) l.
Proof.
  induction l as [|cb l IH]; intros a b; cbn [runs].
  - intros ->. split; [lia|constructor].
  - intros (H1 & H2 & H3). destruct (IH _ _ H3) as [Hle Hf]. split; [lia|]. constructor; [lia|].
    eapply Forall_impl; [exact Hf|]. cbn. lia.
Qed.

(** When the first buffer ends after [k], all do. *)
Lemma runs_after k cb l a b :
  runs a (cb :: l) b → k < cb_seq_no cb + cb_length cb →
  Forall (λ cb, k < cb_seq_no cb + cb_length cb) (cb :: l).
Proof.
  intros (H1 & H2 & H3) Hk. constructor; [done|]. destruct (runs_bounds _ _ _ H3) as [_ Hf].
  eapply Forall_impl; [exact Hf|]. cbn. lia.
Qed.

(** [HIGH] and the chunk that goes over it. *)
Record flow_ok (ci : ConnectionInfo) : Prop := {
  fl_window : ui_maxWindowSize (ci_uci ci) = MAX_WINDOW_SIZE;
  fl_sum : ui_lastAcked (ci_uci ci) + ui_numSent (ci_uci ci) = uci_bytesTX (ui_uci (ci_uci ci));
  fl_acked : 0 ≤ ui_lastAcked (ci_uci ci);
  fl_sent : 0 ≤ ui_numSent (ci_uci ci) ≤ HIGH + MAX_CHUNK_SIZE;
  fl_total : uci_bytesTX (ui_uci (ci_uci ci)) < 2 ^ 32;
  fl_active : ci_status ci = cs_active → ui_numSent (ci_uci ci) ≤ HIGH;
  fl_block : ci_status ci = cs_block → HIGH < ui_numSent (ci_uci ci);
  fl_runs : ∃ a, 0 ≤ a ∧ runs a (uci_chunkBufferList (ui_uci (ci_uci ci))) (uci_bytesTX (ui_uci (ci_uci ci)));
  fl_unacked : Forall (λ cb, ui_lastAcked (ci_uci ci) < cb_seq_no cb + cb_length cb)
                 (uci_chunkBufferList (ui_uci (ci_uci ci)));
  fl_count : uci_numChunkBuffers (ui_uci (ci_uci ci)) =
             Z.of_nat (length (uci_chunkBufferList (ui_uci (ci_uci ci))))
}.

(** ** The messages for a part of the stream *)

Record message_of `{Digest} (c : ConnectionID) (psrc msg : list Z) (cs : list OneCandidate) (rb : Z) : Prop := {
  mo_msg : msg = name_delivery c psrc cs;
  mo_in : ∃ names, Forall (candidate_in psrc names) cs;
  mo_cut : consecutive 0 cs rb;
  mo_size : 0 < rb ≤ Z.of_nat (length psrc) ∧ rb ≤ MAX_CHUNK_SIZE;
  mo_names : ∃ hint disk, Forall (candidate_ok hint disk psrc true) cs
}.

(** [ms] are the messages for the bytes of [buf] from [off] to [b]. *)
Fixpoint carries `{Digest} (c : ConnectionID) (buf : list Z) (off : Z) (ms : list (list Z)) (b : Z) : Prop :=
  match ms with
  | [] => off = b
  | m :: ms' => ∃ cs rb, message_of c (drop (Z.to_nat off) buf) m cs rb ∧ carries c buf (off + rb) ms' b
  end.

(** The chunk boundaries of the buffer fit from every place on. *)
Definition stream_ok (g : MRCParams) (rctx : RabinCtx) (buf : list Z) : Prop :=
  ∀ off, (off < length buf)%nat →
    mrc_call_ok g rctx (drop off buf) (Z.of_nat (length buf - off)).

Lemma stream_ok_ctx g rctx rctx' buf :
  rabin_ok WAPROX_RABIN_WINDOW (rp rctx') → min_size rctx' = min_size rctx → max_size rctx' = max_size rctx →
  stream_ok g rctx buf → stream_ok g rctx' buf.
Proof.
  intros Hr Hmin Hmax Hs off Hoff. destruct (Hs off Hoff) as [H1 H2 H3 H4 H5 H6]. split; try done; try congruence.
  intros mn Hmn. specialize (H6 mn Hmn). unfold chunk_boundaries, scan_bytes in *. by rewrite Hmin, Hmax.
Qed.

(** Chunks are made of the data of the connection. *)
Definition chunking (env : UserEnv) (ci : ConnectionInfo) : Prop :=
  (if rs_isForward (ui_recv (ci_uci ci)) then g_ClientChunking (ue_config env)
   else g_ServerChunking (ue_config env)) = true.

(** The data that stay wait for more. *)
Definition waits (env : UserEnv) (force : bool) (ci : ConnectionInfo) (n : Z) : Prop :=
  ci_status ci = cs_active ∧ 0 < ue_BufferTimeout env ∧ force = false ∧
  Z.of_nat (length (ci_bufRead ci)) - n < MIN_RABIN_BUFSIZE.

Section flow.
Context `{Digest} {HT VT : Type} `{!Table (list Z) Z HT} `{!Table (list Z) CacheValue VT}.
Context (env : UserEnv).

(** What the loop needs of the sender. *)
Record loop_ok (gl : globals HT VT) (ci : ConnectionInfo) (R : refs) (off : Z) : Prop := {
  lp_sender : sender_ok (ue_mrc env) gl (ui_uci (ci_uci ci)) R;
  lp_flow : flow_ok ci;
  lp_stream : stream_ok (ue_mrc env) (uci_rctx (ui_uci (ci_uci ci))) (ci_bufRead ci);
  lp_skip : g_SkipFirstChunk (ue_config env) = false ∨ 1 ≤ uci_numChunks (ui_uci (ci_uci ci));
  lp_chunking : chunking env ci;
  lp_total : uci_bytesTX (ui_uci (ci_uci ci)) + (Z.of_nat (length (ci_bufRead ci)) - off) < 2 ^ 32;
  lp_refs : ∀ n, Z.of_nat (ref_count R n) + (Z.of_nat (length (ci_bufRead ci)) - off) + MAX_CHUNK_SIZE < 2 ^ 31
}.

Lemma occ_length n (cs : list OneCandidate) : (occ n cs ≤ length cs)%nat.
Proof. unfold occ. apply length_filter. Qed.

Definition waits_bool (force : bool) (ci : ConnectionInfo) (n : Z) : bool :=
  bool_decide (ci_status ci = cs_active) && (0 <? ue_BufferTimeout env) && negb force &&
  (Z.of_nat (length (ci_bufRead ci)) - n <? MIN_RABIN_BUFSIZE).

Lemma waits_bool_spec force ci n : waits_bool force ci n = true → waits env force ci n.
Proof.
  unfold waits_bool, waits. rewrite !andb_true_iff, Z.ltb_lt, Z.ltb_lt, bool_decide_eq_true, negb_true_iff. tauto.
Qed.

Lemma raw_false ci :
  chunking env ci →
  (negb (g_ClientChunking (ue_config env)) && rs_isForward (ui_recv (ci_uci ci))) ||
  (negb (g_ServerChunking (ue_config env)) && negb (rs_isForward (ui_recv (ci_uci ci)))) = false.
Proof. unfold chunking. destruct (rs_isForward _); intros ->; cbn; by rewrite ?andb_false_r. Qed.

Lemma next_message_ok force gl ci R off :
  loop_ok gl ci R off → params_ok (ue_mrc env) → 0 ≤ off < Z.of_nat (length (ci_bufRead ci)) →
  let u := ui_uci (ci_uci ci) in
  let buffer := drop (Z.to_nat off) (ci_bufRead ci) in
  if waits_bool force ci off then next_message env force gl ci buffer = Done None
  else ∃ gl' u' msg rb cs R', next_message env force gl ci buffer = Done (Some (gl', u', msg, rb)) ∧
    message_of (uci_conn u) buffer msg cs rb ∧ sender_ok (ue_mrc env) gl' u' R' ∧ chunk_fields u u' rb ∧
    rabin_ok WAPROX_RABIN_WINDOW (rp (uci_rctx u')) ∧ 0 < rb ≤ Z.of_nat (length (ci_bufRead ci)) - off ∧
    rb ≤ MAX_CHUNK_SIZE ∧ ∀ n, Z.of_nat (ref_count R' n) ≤ Z.of_nat (ref_count R n) + rb.
Proof.
  intros [Hs Hf Hst Hskip Hck Ht Hr] Hg Hoff u buffer. unfold next_message. rewrite (raw_false _ Hck).
  assert (Z.of_nat (length buffer) = Z.of_nat (length (ci_bufRead ci)) - off) as Hlen
    by (unfold buffer; rewrite length_drop; lia). rewrite Hlen.
  change (bool_decide _ && _ && _ && _) with (waits_bool force ci off).
  destruct (waits_bool force ci off); [done|].
  assert (mrc_call_ok (ue_mrc env) (uci_rctx u) buffer (Z.of_nat (length (ci_bufRead ci)) - off)) as Hc.
  { specialize (Hst (Z.to_nat off)). replace (Z.of_nat _ - off) with (Z.of_nat (length (ci_bufRead ci) - Z.to_nat off)) by lia.
    apply Hst. lia. }
  destruct (sender_step (ue_mem env) (ue_mrc env) (g_SkipFirstChunk (ue_config env)) gl u R buffer
    (Z.of_nat (length (ci_bufRead ci)) - off) Hskip Hs Hg Hc) as
    (gl' & u' & msg & rb & R' & cs & He & Hrb & Hmax & Hs' & Hrab & Hmsg & Hin & Hcut & Hcand & Href).
  { intros n. specialize (Hr n). lia. }
  fold u. rewrite He. cbn [mbind outcome_bind]. exists gl', u', msg, rb, cs, R'. split_and!; try done; try lia.
  - split; try done; [by eexists|lia|by eexists _, _].
  - by eapply ProcessOneRabinChunking2_fields.
  - intros n. rewrite Href. pose proof (occ_length n cs). destruct (consecutive_bounds _ _ _ Hcut) as (_ & _ & _ & Hle). lia.
Qed.

(** The connection after a message for [rb] bytes. *)
Definition sent_one (u' : UserConnection) (msg : list Z) (rb : Z) (ci : ConnectionInfo) : ConnectionInfo :=
  let ui := set_messages (ui_controlMsgList (ci_uci ci) ++ [msg]) (set_sender u' (ci_uci ci)) in
  set_uci (set_sender (set_bytesTX (u32 (uci_bytesTX u' + rb)) u')
             (set_window (u32 (ui_numSent ui + rb)) (ui_lastAcked ui) (ui_lastCumulativeAck ui) ui)) ci.

Lemma over_sent_one u' msg rb ci :
  flow_ok ci → 0 < rb → rb ≤ MAX_CHUNK_SIZE → ui_numSent (ci_uci ci) ≤ HIGH →
  over_window (ui_numSent (ci_uci (sent_one u' msg rb ci))) (ui_maxWindowSize (ci_uci (sent_one u' msg rb ci))) =
  (HIGH <? ui_numSent (ci_uci ci) + rb).
Proof.
  intros Hf Hrb Hmax Hhigh. pose proof (fl_sent _ Hf) as Hsent. unfold MAX_CHUNK_SIZE, HIGH in Hsent, Hmax, Hhigh.
  cbn. rewrite (fl_window _ Hf), u32_id by lia. apply over_window_ok. lia.
Qed.

Lemma sent_one_loop gl' u' msg rb ci R R' off gl st :
  loop_ok gl ci R off → 0 ≤ off → ui_numSent (ci_uci ci) ≤ HIGH →
  sender_ok (ue_mrc env) gl' u' R' → chunk_fields (ui_uci (ci_uci ci)) u' rb →
  rabin_ok WAPROX_RABIN_WINDOW (rp (uci_rctx u')) →
  0 < rb ≤ Z.of_nat (length (ci_bufRead ci)) - off → rb ≤ MAX_CHUNK_SIZE →
  (∀ n, Z.of_nat (ref_count R' n) ≤ Z.of_nat (ref_count R n) + rb) →
  (st = cs_active → ui_numSent (ci_uci ci) + rb ≤ HIGH) → (st = cs_block → HIGH < ui_numSent (ci_uci ci) + rb) →
  let ci' := set_status st (sent_one u' msg rb ci) in
  loop_ok gl' ci' R' (off + rb) ∧ ui_numSent (ci_uci ci') = ui_numSent (ci_uci ci) + rb ∧
  uci_bytesTX (ui_uci (ci_uci ci')) = uci_bytesTX (ui_uci (ci_uci ci)) + rb.
Proof.
  intros [Hs Hf Hst Hskip Hck Ht Hr] Hoff Hhigh Hs' [F1 F2 F3 (cb & F4 & F5 & F6) F7 F8 F9] Hrab Hrb Hmax Href Hact Hblk ci'.
  destruct Hf as [L1 L2 L3 L4 L5 L6 L7 (a & L8a & L8) L9 L10]. unfold HIGH, MAX_CHUNK_SIZE in *.
  pose proof (runs_bounds _ _ _ L8) as [Hab _].
  assert (ui_numSent (ci_uci ci') = ui_numSent (ci_uci ci) + rb) as EN.
  { cbn. apply u32_id. lia. }
  assert (uci_bytesTX (ui_uci (ci_uci ci')) = uci_bytesTX (ui_uci (ci_uci ci)) + rb) as EB.
  { cbn. rewrite F2. apply u32_id. lia. }
  split_and!; [|done|done]. split.
  - destruct Hs'. by split.
  - split; rewrite ?EN, ?EB; cbn [ci' ci_uci ci_status set_status sent_one set_uci set_sender set_window set_messages ui_uci
      ui_lastAcked ui_maxWindowSize set_bytesTX uci_chunkBufferList uci_numChunkBuffers]; try done; unfold HIGH, MAX_CHUNK_SIZE; try lia.
    + exists a. split; [done|]. rewrite F4, <-F6. apply runs_snoc; [done|congruence|lia].
    + rewrite F4. apply Forall_app. split; [done|]. constructor; [|constructor]. lia.
    + rewrite F4, F7, L10, length_app. cbn. lia.
  - cbn. by eapply stream_ok_ctx.
  - cbn. destruct Hskip; [by left|right; lia].
  - done.
  - rewrite EB. cbn [ci' ci_bufRead set_status sent_one set_uci]. lia.
  - intros n. specialize (Href n). specialize (Hr n). cbn [ci' ci_bufRead set_status sent_one set_uci]. unfold MAX_CHUNK_SIZE in *. lia.
Qed.

(** What the loop changes of a connection. *)
Record user_same (ci ci' : ConnectionInfo) : Prop := {
  us_same_fd : ci_fd ci' = ci_fd ci;
  us_same_abnormal : ci_isAbnormal ci' = ci_isAbnormal ci;
  us_same_buf : ci_bufRead ci' = ci_bufRead ci;
  us_same_conn : ci_conn ci' = ci_conn ci;
  us_same_recv : ui_recv (ci_uci ci') = ui_recv (ci_uci ci);
  us_same_flow : ui_nameFlowId (ci_uci ci') = ui_nameFlowId (ci_uci ci);
  us_same_acked : ui_lastAcked (ci_uci ci') = ui_lastAcked (ci_uci ci)
}.

Lemma user_same_trans ci1 ci2 ci3 : user_same ci1 ci2 → user_same ci2 ci3 → user_same ci1 ci3.
Proof. intros [] []. split; congruence. Qed.

Record loop_result (force : bool) (nb : Z) (ci : ConnectionInfo) (off : Z)
    (gl' : globals HT VT) (nb' : Z) (ci' : ConnectionInfo) (n : Z) (ms : list (list Z)) (R' : refs) : Prop := {
  lr_ok : loop_ok gl' ci' R' n;
  lr_same : user_same ci ci';
  lr_carries : carries (ci_conn ci) (ci_bufRead ci) off ms n;
  lr_queue : ui_controlMsgList (ci_uci ci') = ui_controlMsgList (ci_uci ci) ++ ms;
  lr_range : off ≤ n ≤ Z.of_nat (length (ci_bufRead ci));
  lr_numSent : ui_numSent (ci_uci ci') = ui_numSent (ci_uci ci) + (n - off);
  lr_bytesTX : uci_bytesTX (ui_uci (ci_uci ci')) = uci_bytesTX (ui_uci (ci_uci ci)) + (n - off);
  lr_end : (ci_status ci' = cs_block ∧ nb' = nb + 1 ∧ HIGH < ui_numSent (ci_uci ci')) ∨
           (ci_status ci' = ci_status ci ∧ nb' = nb ∧ ui_numSent (ci_uci ci') ≤ HIGH ∧
            (n = Z.of_nat (length (ci_bufRead ci)) ∨ waits env force ci n))
}.

Lemma loop_ok_wait gl ci R off :
  loop_ok gl ci R off →
  loop_ok gl (set_uci (set_window (ui_numSent (ci_uci ci)) (ui_lastAcked (ci_uci ci)) 0 (ci_uci ci)) ci) R off.
Proof. intros [H1 H2 H3 H4 H5 H6 H7]. split; try done. destruct H2. by split. Qed.

Lemma QueueControlData_ok ui msg :
  (0 < length msg)%nat → QueueControlData ui msg = Done (set_messages (ui_controlMsgList ui ++ [msg]) ui).
Proof. intros Hl. unfold QueueControlData. by rewrite (proj2 (Nat.ltb_lt _ _)). Qed.

Lemma name_delivery_length c psrc cs : (18 ≤ length (name_delivery c psrc cs))%nat.
Proof. unfold name_delivery, control_header. rewrite !length_app, !length_be. lia. Qed.

(** One turn of the loop. *)
Lemma user_loop_step fuel force NU gl nb ci off gl' u' msg cs rb :
  flow_ok ci → ui_numSent (ci_uci ci) ≤ HIGH → off < Z.of_nat (length (ci_bufRead ci)) →
  next_message env force gl ci (drop (Z.to_nat off) (ci_bufRead ci)) = Done (Some (gl', u', msg, rb)) →
  message_of (uci_conn (ui_uci (ci_uci ci))) (drop (Z.to_nat off) (ci_bufRead ci)) msg cs rb →
  user_loop env (S fuel) force NU gl nb ci off =
    (if HIGH <? ui_numSent (ci_uci ci) + rb then
       _ ← c_assert (u32 (nb + 1) <=? u32 NU);
       Done (gl', u32 (nb + 1), set_status cs_block (sent_one u' msg rb ci), off + rb)
     else user_loop env fuel force NU gl' nb (sent_one u' msg rb ci) (off + rb)).
Proof.
  intros Hf Hhigh Hlt He Hmsg. cbn [user_loop]. rewrite (proj2 (Z.leb_gt _ _)), He by lia.
  cbn [mbind outcome_bind]. rewrite QueueControlData_ok
    by (rewrite (mo_msg _ _ _ _ _ Hmsg); pose proof (name_delivery_length (uci_conn (ui_uci (ci_uci ci)))
          (drop (Z.to_nat off) (ci_bufRead ci)) cs); lia).
  cbn [mbind outcome_bind]. change (ui_controlMsgList (set_sender u' (ci_uci ci))) with (ui_controlMsgList (ci_uci ci)).
  destruct (mo_size _ _ _ _ _ Hmsg) as [Hrb Hmax].
  pose proof (over_sent_one u' msg rb ci Hf (proj1 Hrb) Hmax Hhigh) as Hover.
  cbn [sent_one ci_uci set_uci] in Hover. by rewrite Hover.
Qed.

Lemma user_loop_ok fuel force NU : ∀ gl nb ci R off,
  loop_ok gl ci R off → params_ok (ue_mrc env) → ci_status ci ≠ cs_block →
  ui_numSent (ci_uci ci) ≤ HIGH → 0 ≤ off ≤ Z.of_nat (length (ci_bufRead ci)) →
  Z.of_nat (length (ci_bufRead ci)) - off < Z.of_nat fuel → 0 ≤ nb < NU → NU < 2 ^ 31 →
  ∃ gl' nb' ci' n ms R', user_loop env fuel force NU gl nb ci off = Done (gl', nb', ci', n) ∧
    loop_result force nb ci off gl' nb' ci' n ms R'.
Proof.
  induction fuel as [|fuel IH]; intros gl nb ci R off Hok Hg Hst Hhigh Hoff Hfuel Hnb HNU; [lia|].
  assert (user_same ci ci) as Hrefl by by split.
  destruct (Z.leb_spec (Z.of_nat (length (ci_bufRead ci))) off) as [Hle|Hlt].
  { cbn [user_loop]. rewrite (proj2 (Z.leb_le _ off)) by lia.
    exists gl, nb, ci, off, [], R. split; [done|]. split; try done; try lia; [by rewrite app_nil_r|].
    right. split_and!; [done|done|done|left; lia]. }
  pose proof (next_message_ok force gl ci R off Hok Hg (conj (proj1 Hoff) Hlt)) as Hnext.
  destruct (waits_bool force ci off) eqn:Ew.
  { cbn zeta in Hnext. cbn [user_loop]. rewrite (proj2 (Z.leb_gt _ off)), Hnext by lia. cbn [mbind outcome_bind].
    eexists gl, nb, _, off, [], R. split; [done|]. split; try done; cbn; try lia.
    - by apply loop_ok_wait.
    - by rewrite app_nil_r.
    - right. split_and!; [done|done|done|right]. by apply waits_bool_spec. }
  destruct Hnext as (gl' & u' & msg & rb & cs & R' & He & Hmsg & Hs' & Hfields & Hrab & Hrb & Hmax & Href).
  rewrite (user_loop_step _ _ _ _ _ _ _ _ _ _ _ _ (lp_flow _ _ _ _ Hok) Hhigh Hlt He Hmsg).
  assert (user_same ci (sent_one u' msg rb ci)) as Hsame.
  { split; try done. cbn. by rewrite (cf_conn _ _ _ Hfields). }
  pose proof (λ st, sent_one_loop gl' u' msg rb ci R R' off gl st Hok (proj1 Hoff) Hhigh Hs' Hfields Hrab Hrb
    Hmax Href) as Hnew.
  destruct (Z.ltb_spec HIGH (ui_numSent (ci_uci ci) + rb)) as [Hov|Hov].
  - rewrite (u32_id (nb + 1)), (u32_id NU), (proj2 (Z.leb_le (nb + 1) NU)) by lia. cbn [c_assert mbind outcome_bind].
    destruct (Hnew cs_block) as (Hok' & EN & EB); [done|done|].
    eexists gl', (nb + 1), _, (off + rb), [msg], R'. split; [done|]. fold (sent_one u' msg rb ci).
    split; [done| | |done|cbn [sent_one set_uci ci_bufRead]; lia|lia|lia|left; by rewrite EN].
    + destruct Hsame. by split.
    + cbn [carries]. by exists cs, rb.
  - destruct (Hnew (ci_status ci)) as (Hok' & EN & EB); [done|done|].
    change (set_status (ci_status ci) (sent_one u' msg rb ci)) with (sent_one u' msg rb ci) in *.
    destruct (IH gl' nb (sent_one u' msg rb ci) R' (off + rb)) as
      (gl2 & nb2 & ci2 & n & ms & R2 & Hloop & [K1 K2 K3 K4 K5 K6 K7 K8]); try done.
    { by rewrite EN. }
    { cbn [sent_one set_uci ci_bufRead]. lia. }
    { cbn [sent_one set_uci ci_bufRead]. lia. }
    exists gl2, nb2, ci2, n, (msg :: ms), R2. split; [exact Hloop|].
    cbn [sent_one set_uci ci_bufRead ci_status] in K5, K8.
    split; [done|by eapply user_same_trans| | |lia|lia|lia|].
    + cbn [carries]. exists cs, rb. split; [done|]. by rewrite (us_same_conn _ _ Hsame) in K3.
    + rewrite K4. cbn. by rewrite <-app_assoc.
    + destruct K8 as [?|(H1 & H2 & H3 & H4)]; [by left|]. right. split_and!; try done.
Qed.

(** When the count of blocked connections is not below that of the connections,
    the window is not passed. *)
Lemma user_loop_aborts fuel force NU nb : ∀ gl ci R off,
  loop_ok gl ci R off → params_ok (ue_mrc env) → ci_status ci ≠ cs_block →
  (ci_status ci = cs_active → force = true) →
  ui_numSent (ci_uci ci) ≤ HIGH → 0 ≤ off ≤ Z.of_nat (length (ci_bufRead ci)) →
  HIGH < ui_numSent (ci_uci ci) + (Z.of_nat (length (ci_bufRead ci)) - off) →
  Z.of_nat (length (ci_bufRead ci)) - off < Z.of_nat fuel → 0 ≤ NU ≤ nb → nb + 1 < 2 ^ 32 →
  user_loop env fuel force NU gl nb ci off = Fault AssertFailed.
Proof.
  induction fuel as [|fuel IH]; intros gl ci R off Hok Hg Hst Hforce Hhigh Hoff Hfull Hfuel HNU Hnb; [lia|].
  pose proof (next_message_ok force gl ci R off Hok Hg) as Hnext. cbn zeta in Hnext.
  assert (waits_bool force ci off = false) as Ew.
  { destruct (waits_bool force ci off) eqn:E; [|done]. apply waits_bool_spec in E as (Ha & _ & Hf & _).
    by rewrite Hforce in Hf. }
  rewrite Ew in Hnext. destruct Hnext as (gl' & u' & msg & rb & cs & R' & He & Hmsg & Hs' & Hfields & Hrab & Hrb & Hmax & Href);
    [lia|].
  assert (off < Z.of_nat (length (ci_bufRead ci))) as Hlt by lia.
  rewrite (user_loop_step _ _ _ _ _ _ _ _ _ _ _ _ (lp_flow _ _ _ _ Hok) Hhigh Hlt He Hmsg).
  destruct (Z.ltb_spec HIGH (ui_numSent (ci_uci ci) + rb)) as [Hov|Hov].
  { by rewrite (u32_id (nb + 1)), (u32_id NU), (proj2 (Z.leb_gt (nb + 1) NU)) by lia. }
  destruct (sent_one_loop gl' u' msg rb ci R R' off gl (ci_status ci) Hok (proj1 Hoff) Hhigh Hs' Hfields Hrab Hrb
    Hmax Href) as (Hok' & EN & EB); [done|done|].
  change (set_status (ci_status ci) (sent_one u' msg rb ci)) with (sent_one u' msg rb ci) in *.
  eapply IH; try done; cbn [sent_one set_uci ci_bufRead] in *; try lia; rewrite EN; lia.
Qed.

(** ** Acknowledgements *)

(** The connection after [ack], before it is closed; [k] buffers are gone. *)
Definition acked (ack : Z) (k : nat) (ci : ConnectionInfo) : ConnectionInfo :=
  let ui := ci_uci ci in
  let u := ui_uci ui in
  let numSent := uci_bytesTX u - ack in
  set_status (if bool_decide (ci_status ci = cs_block) && (numSent <=? HIGH) then cs_active else ci_status ci)
    (set_uci (set_sender (set_buffers (drop k (uci_chunkBufferList u))
                            (u32 (uci_numChunkBuffers u - Z.of_nat k)) u)
                (set_window numSent ack (u32 (ui_lastCumulativeAck ui + (ack - ui_lastAcked ui))) ui)) ci).

Lemma unacked_runs ack a cb l b :
  0 < ack < 2 ^ 32 → 0 ≤ a → b < 2 ^ 32 → runs a (cb :: l) b → unacked ack cb →
  Forall (λ cb, ack < cb_seq_no cb + cb_length cb) (cb :: l).
Proof.
  intros Ha Ha0 Hb Hr [_ Hu]. eapply runs_after; [done|]. destruct (runs_bounds _ _ _ Hr) as [_ Hf].
  apply Forall_cons_1 in Hf as [Hf _]. rewrite !u32_id in Hu by lia. lia.
Qed.

Lemma acked_flow ack k ci :
  flow_ok ci → 0 < ack → ui_lastAcked (ci_uci ci) ≤ ack ≤ uci_bytesTX (ui_uci (ci_uci ci)) →
  (k ≤ length (uci_chunkBufferList (ui_uci (ci_uci ci))))%nat →
  (∀ cb, head (drop k (uci_chunkBufferList (ui_uci (ci_uci ci)))) = Some cb → unacked ack cb) →
  flow_ok (acked ack k ci) ∧
  (ack = uci_bytesTX (ui_uci (ci_uci ci)) → uci_chunkBufferList (ui_uci (ci_uci (acked ack k ci))) = []).
Proof.
  intros [L1 L2 L3 L4 L5 L6 L7 (a & L8a & L8) L9 L10] Hpos Hack Hk Hhd.
  destruct (runs_drop k _ _ _ L8) as (a' & Ha' & Hr).
  assert (Forall (λ cb, ack < cb_seq_no cb + cb_length cb) (drop k (uci_chunkBufferList (ui_uci (ci_uci ci))))) as Hun.
  { destruct (drop k _) as [|cb l] eqn:E; [constructor|].
    eapply unacked_runs; [| | |exact Hr|by apply Hhd]; lia. }
  split.
  - split; cbn; try done; try lia.
    + intros Hs. destruct (Z.leb_spec (uci_bytesTX (ui_uci (ci_uci ci)) - ack) HIGH); [lia|].
      rewrite andb_false_r in Hs. specialize (L6 Hs). lia.
    + intros Hs. destruct (Z.leb_spec (uci_bytesTX (ui_uci (ci_uci ci)) - ack) HIGH); [|lia].
      destruct (decide (ci_status ci = cs_block)); [by rewrite bool_decide_true in Hs by done|].
      by rewrite bool_decide_false in Hs by done.
    + exists a'. split; [lia|done].
    + rewrite L10, length_drop, u32_id; [lia|].
      assert (∀ (l : list ChunkBuffer) a b, runs a l b → Z.of_nat (length l) ≤ b - a) as Hlen.
      { clear. induction l as [|cb l IH]; intros a b; cbn [runs length]; [lia|]. intros (_ & H1 & H2).
        specialize (IH _ _ H2). lia. }
      specialize (Hlen _ _ _ L8). lia.
  - intros ->. cbn. destruct (drop k _) as [|cb l]; [done|]. apply Forall_cons_1 in Hun as [Hun _].
    destruct (runs_bounds _ _ _ Hr) as [_ Hf]. apply Forall_cons_1 in Hf as [Hf _]. lia.
Qed.
End flow.

(** The connection as the other side names it. *)
Definition reversed (c : ConnectionID) : ConnectionID :=
  {| srcIP := dstIP c; srcPort := dstPort c; dstIP := srcIP c; dstPort := srcPort c |}.

Lemma reversed_ok c : conn_ok c → conn_ok (reversed c).
Proof. intros (H1 & H2 & H3 & H4). unfold conn_ok. cbn. lia. Qed.

Section world.
Context `{Digest} {HT VT AT MT : Type} `{!Table (list Z) Z HT} `{!Table (list Z) CacheValue VT}
  `{!Table (list Z) nat AT} `{!Table ConnectionID Z MT}.
Context (env : UserEnv).
#[local] Abbreviation proxy := (proxy HT VT AT MT).

(** The connection of a descriptor, with an invariant of its own. *)
Record live (w : proxy) (fd : Z) (ci : ConnectionInfo) : Prop := {
  lv_master : px_master w !! fd = Some ci;
  lv_fd : ci_fd ci = fd
}.

Lemma get_ci_live (w : proxy) fd ci : live w fd ci → get_ci w fd = Done ci.
Proof. intros [Hm _]. unfold get_ci. by rewrite Hm. Qed.

Lemma live_put (w : proxy) ci : live (put_ci ci w) (ci_fd ci) ci.
Proof. split; [|done]. cbn. by rewrite lookup_insert_eq. Qed.

Lemma ProcessUserData_ok (w : proxy) fd ci force R :
  live w fd ci → ci_status ci ≠ cs_block → ci_status ci ≠ cs_done → ui_numSent (ci_uci ci) ≤ HIGH →
  conn_ok (ci_conn ci) → loop_ok env (px_gl w) ci R 0 →
  params_ok (ue_mrc env) → 0 ≤ px_NumBlocked w < px_NumUserConns w → px_NumUserConns w < 2 ^ 31 →
  ∃ gl' nb' ci' n ms R',
    ProcessUserData env w fd force = Done (put_ci ci' (set_blocked nb' (set_globals gl' w)), n) ∧
    loop_result env force (px_NumBlocked w) ci 0 gl' nb' ci' n ms R'.
Proof.
  intros Hl Hst Hst' Hhigh (Hc & _ & Hd & Hp) Hok Hg Hnb HNU. unfold ProcessUserData. rewrite (get_ci_live _ _ _ Hl).
  cbn [mbind outcome_bind]. rewrite (proj2 (Z.eqb_neq (dstIP _) 0)) by lia. cbn [andb].
  rewrite decide_False by done.
  destruct (user_loop_ok env (S (length (ci_bufRead ci))) force (px_NumUserConns w) (px_gl w) (px_NumBlocked w) ci R 0)
    as (gl' & nb' & ci' & n & ms & R' & He & Hres); try done; try lia.
  rewrite He. cbn [mbind outcome_bind].
  rewrite decide_False by (destruct (lr_end _ _ _ _ _ _ _ _ _ _ _ Hres) as [(-> & _)|(-> & _)]; done).
  cbn [mbind outcome_bind]. by exists gl', nb', ci', n, ms, R'.
Qed.

Lemma SetDead_normal (w : proxy) fd ci :
  live w fd ci → ci_status ci ≠ cs_closed → px_NumDeadConns w + 1 < MAX_NUM_CI →
  SetDead env w fd false =
    Done (set_dead_list (px_DeadConnList w ++ [fd]) (px_NumDeadConns w + 1)
            (put_ci (set_abnormal false (set_status cs_closed ci)) w)).
Proof.
  intros Hl Hst Hn. unfold SetDead. rewrite (get_ci_live _ _ _ Hl). cbn [mbind outcome_bind].
  rewrite decide_False by done. cbn [mbind outcome_bind]. by rewrite (proj2 (Z.ltb_lt _ _)) by lia.
Qed.

(** The proxy after an acknowledgement. *)
Definition after_ack (c : cache HT VT) (nb : Z) (ci : ConnectionInfo) (w : proxy) : proxy :=
  put_ci ci (set_blocked nb (set_globals
    {| gl_cache := c; gl_pNames := gl_pNames (px_gl w); gl_pli := gl_pli (px_gl w) |} w)).

Lemma ack_connection_ok (w : proxy) fd ci R ack :
  live w fd ci → flow_ok ci → sender_ok (ue_mrc env) (px_gl w) (ui_uci (ci_uci ci)) R →
  (∀ n, Z.of_nat (ref_count R n) < 2 ^ 31) →
  0 < ack → ui_lastAcked (ci_uci ci) ≤ ack ≤ uci_bytesTX (ui_uci (ci_uci ci)) →
  (ci_status ci = cs_block → 0 < px_NumBlocked w < 2 ^ 32) →
  ∃ c' k R', let ci' := acked ack k ci in
    let resumed := bool_decide (ci_status ci = cs_block) && (uci_bytesTX (ui_uci (ci_uci ci)) - ack <=? HIGH) in
    let w' := after_ack c' (if resumed then px_NumBlocked w - 1 else px_NumBlocked w) ci' w in
    ack_connection env w fd ack =
      (if bool_decide (ci_status ci' = cs_finsent) && (uci_bytesTX (ui_uci (ci_uci ci)) - ack =? 0)
       then SetDead env w' fd false else Done w') ∧
    sender_ok (ue_mrc env) (px_gl w') (ui_uci (ci_uci ci')) R' ∧ flow_ok ci' ∧
    (∀ n, (ref_count R' n ≤ ref_count R n)%nat) ∧
    (ack = uci_bytesTX (ui_uci (ci_uci ci)) → uci_chunkBufferList (ui_uci (ci_uci ci')) = []).
Proof.
  intros Hl Hf Hs Href Hpos Hack Hnb.
  destruct (DestroyChunkBufferList_ok (ue_GenerateNameHint env) (uci_chunkBufferList (ui_uci (ci_uci ci)))
    (gl_cache (px_gl w)) R ack true (so_tmp _ _ _ _ Hs) (so_buffers _ _ _ _ Hs) (so_hints _ _ _ _ Hs)
    (so_held _ _ _ _ Hs) Href) as (c' & R' & k & He & Hk & _ & Ht & Hh & Hc & _ & Hhd).
  destruct (acked_flow ack k ci Hf Hpos Hack Hk Hhd) as [Hf' Hall].
  exists c', k, R'. cbn zeta. pose proof (fl_window _ Hf) as Hw. pose proof (fl_sum _ Hf) as Hsum.
  pose proof (fl_acked _ Hf). pose proof (fl_total _ Hf) as Htot. pose proof (fl_sent _ Hf) as Hsent.
  unfold HIGH, MAX_CHUNK_SIZE in Hsent. split_and!; [|split| |intros n; rewrite Hc; lia|].
  - unfold ack_connection. rewrite (get_ci_live _ _ _ Hl). cbn [mbind outcome_bind].
    rewrite (proj2 (Z.leb_le (ui_lastAcked _) ack)), (proj2 (Z.leb_le ack _)) by lia.
    cbn [c_assert mbind outcome_bind]. rewrite He.
    cbn [mbind outcome_bind ui_maxWindowSize set_window].
    rewrite (u32_id (ack - _)), (u32_id (ui_numSent _ - _)) by lia.
    replace (ui_numSent (ci_uci ci) - (ack - ui_lastAcked (ci_uci ci))) with
      (uci_bytesTX (ui_uci (ci_uci ci)) - ack) by lia.
    rewrite Hw, resume_ok by (unfold MAX_WINDOW_SIZE; lia).
    assert ((if bool_decide (ci_status ci = cs_block) && (uci_bytesTX (ui_uci (ci_uci ci)) - ack <=? HIGH)
             then u32 (px_NumBlocked w - 1) else px_NumBlocked w) =
            (if bool_decide (ci_status ci = cs_block) && (uci_bytesTX (ui_uci (ci_uci ci)) - ack <=? HIGH)
             then px_NumBlocked w - 1 else px_NumBlocked w)) as ->.
    { destruct (bool_decide (ci_status ci = cs_block)) eqn:Eb; [|done]. apply bool_decide_eq_true_1 in Eb.
      cbn [andb]. destruct (_ <=? _); [|done]. apply u32_id. specialize (Hnb Eb). lia. }
    done.
  - cbn. by destruct Hs.
  - cbn. by destruct Hs.
  - done.
  - done.
  - cbn. apply Forall_drop. by destruct Hs.
  - cbn. intros n. rewrite Hc. pose proof (so_held _ _ _ _ Hs n) as Hheld.
    rewrite <-(take_drop k (uci_chunkBufferList _)) in Hheld. unfold held in *. rewrite sum_list_with_app in Hheld. lia.
  - cbn. by destruct Hs.
  - exact Hf'.
  - exact Hall.
Qed.

(** What the acknowledgement leaves: the connection, which ends when it was
    closing and everything is acknowledged. *)
Definition ack_finished (ack : Z) (ci : ConnectionInfo) : bool :=
  bool_decide (ci_status ci = cs_finsent) && (uci_bytesTX (ui_uci (ci_uci ci)) - ack =? 0).
Definition ack_resumed (ack : Z) (ci : ConnectionInfo) : bool :=
  bool_decide (ci_status ci = cs_block) && (uci_bytesTX (ui_uci (ci_uci ci)) - ack <=? HIGH).

Lemma ack_connection_done (w : proxy) fd ci R ack :
  live w fd ci → ci_status ci ≠ cs_closed → flow_ok ci →
  sender_ok (ue_mrc env) (px_gl w) (ui_uci (ci_uci ci)) R → (∀ n, Z.of_nat (ref_count R n) < 2 ^ 31) →
  0 < ack → ui_lastAcked (ci_uci ci) ≤ ack ≤ uci_bytesTX (ui_uci (ci_uci ci)) →
  (ci_status ci = cs_block → 0 < px_NumBlocked w < 2 ^ 32) → px_NumDeadConns w + 1 < MAX_NUM_CI →
  ∃ w' ci' k R', ack_connection env w fd ack = Done w' ∧ live w' fd ci' ∧
    ci_uci ci' = ci_uci (acked ack k ci) ∧ flow_ok ci' ∧
    sender_ok (ue_mrc env) (px_gl w') (ui_uci (ci_uci ci')) R' ∧
    (uci_bytesTX (ui_uci (ci_uci ci)) - ack = 0 → uci_chunkBufferList (ui_uci (ci_uci ci')) = []) ∧
    ci_status ci' = (if ack_resumed ack ci then cs_active
                     else if ack_finished ack ci then cs_closed else ci_status ci) ∧
    px_NumBlocked w' = (if ack_resumed ack ci then px_NumBlocked w - 1 else px_NumBlocked w) ∧
    px_DeadConnList w' = (if ack_finished ack ci then px_DeadConnList w ++ [fd] else px_DeadConnList w).
Proof.
  intros Hl Hst Hf Hs Href Hpos Hack Hnb Hdead.
  destruct (ack_connection_ok w fd ci R ack Hl Hf Hs Href Hpos Hack Hnb) as (c' & k & R' & He & Hs' & Hf' & _ & Hall).
  cbn zeta in He, Hs'. fold (ack_resumed ack ci) in He, Hs'.
  set (nb' := if ack_resumed ack ci then px_NumBlocked w - 1 else px_NumBlocked w) in *.
  assert (live (after_ack c' nb' (acked ack k ci) w) fd (acked ack k ci)) as Hl'.
  { rewrite <-(lv_fd _ _ _ Hl). apply (live_put (set_blocked _ (set_globals _ w)) (acked ack k ci)). }
  assert (ci_status (acked ack k ci) = if ack_resumed ack ci then cs_active else ci_status ci) as Hst' by done.
  assert (bool_decide (ci_status (acked ack k ci) = cs_finsent) && (uci_bytesTX (ui_uci (ci_uci ci)) - ack =? 0) =
    ack_finished ack ci) as Hfin.
  { rewrite Hst'. unfold ack_finished, ack_resumed. destruct (decide (ci_status ci = cs_block)) as [Eb|Eb].
    - rewrite Eb. by destruct (_ <=? HIGH).
    - by rewrite (bool_decide_false _ Eb). }
  rewrite Hfin in He. destruct (ack_finished ack ci) eqn:Ef.
  - assert (ack_resumed ack ci = false) as Er.
    { unfold ack_finished, ack_resumed in *. apply andb_prop in Ef as [Ef _]. apply bool_decide_eq_true_1 in Ef. by rewrite Ef. }
    rewrite Er in *. rewrite (SetDead_normal _ _ _ Hl') in He by (by rewrite ?Hst').
    eexists _, (set_abnormal false (set_status cs_closed (acked ack k ci))), k, R'. split; [exact He|].
    split_and!; try done.
    + rewrite <-(lv_fd _ _ _ Hl). destruct (live_put (after_ack c' nb' (acked ack k ci) w)
        (set_abnormal false (set_status cs_closed (acked ack k ci)))) as [H1 H2]. by split.
    + by destruct Hf'; split.
    + intros. apply Hall. lia.
  - eexists _, (acked ack k ci), k, R'. split; [exact He|]. split_and!; try done. intros. apply Hall. lia.
Qed.

(** The other side's name of a connection leads to it. *)
Lemma found_reversed (w : proxy) ci conns fd :
  conn_ok (ci_conn ci) → tbl_is (px_ConnMap w) conns → conns !! ci_conn ci = Some fd →
  GetDestinationConnection (px_ConnMap w) (reversed (ci_conn ci)) = Done (Some fd).
Proof.
  intros (C1 & C2 & C3 & C4) Hmap Hfind. unfold GetDestinationConnection. cbn [reversed srcIP srcPort dstIP dstPort].
  rewrite !(proj2 (Z.eqb_neq _ 0)) by lia. cbn [negb andb c_assert mbind outcome_bind].
  unfold SearchConnection. rewrite (tbl_search_ok _ _ _ Hmap).
  replace {| srcIP := srcIP (ci_conn ci); srcPort := srcPort (ci_conn ci);
             dstIP := dstIP (ci_conn ci); dstPort := dstPort (ci_conn ci) |} with (ci_conn ci) by by destruct (ci_conn ci).
  by rewrite Hfind.
Qed.

(** The message finds its connection. *)
Lemma ProcessNameAck_found mem (w : proxy) fd ci conns ack msg rest :
  conn_ok (ci_conn ci) → tbl_is (px_ConnMap w) conns → conns !! ci_conn ci = Some fd → 0 ≤ ack < 2 ^ 32 →
  BuildWANameAck mem (dstIP (ci_conn ci)) (dstPort (ci_conn ci)) (srcIP (ci_conn ci)) (srcPort (ci_conn ci)) ack =
    Done msg →
  ProcessNameAck env w (msg ++ rest) = (w' ← ack_connection env w fd ack; Done (w', Z.of_nat (length msg))).
Proof.
  intros Hc Hmap Hfind Hack Hmsg. pose proof (BuildWANameAck_ok mem _ ack (reversed_ok _ Hc)) as Hb.
  change (BuildWANameAck mem _ _ _ _ _) with
    (BuildWANameAck mem (srcIP (reversed (ci_conn ci))) (srcPort (reversed (ci_conn ci)))
      (dstIP (reversed (ci_conn ci))) (dstPort (reversed (ci_conn ci))) ack) in Hmsg.
  assert (msg = control_header (reversed (ci_conn ci)) TYPE_WANAMEACK 23 ++ be 1 MAGIC_WANAMEACK ++ be 4 ack) as -> by congruence.
  unfold ProcessNameAck.
  assert (length (control_header (reversed (ci_conn ci)) TYPE_WANAMEACK 23 ++ be 1 MAGIC_WANAMEACK ++ be 4 ack) = 23%nat) as Hlen.
  { by rewrite !length_app, length_control_header, !length_be. }
  rewrite (proj2 (Z.leb_le _ _)) by (rewrite length_app, Hlen; unfold sizeof_WANameAck; lia). rewrite Hlen.
  rewrite <-!app_assoc, (app_assoc (control_header _ _ _)).
  rewrite (ntohl_mid (control_header (reversed (ci_conn ci)) TYPE_WANAMEACK 23 ++ be 1 MAGIC_WANAMEACK) _ rest 19 ack)
    by (done || rewrite ?length_app, ?length_control_header, ?length_be; lia).
  cbn [mbind outcome_bind]. rewrite <-!app_assoc, read_connID_ok by (by apply reversed_ok). cbn [mbind outcome_bind].
  rewrite (found_reversed w ci conns fd Hc Hmap Hfind). cbn [mbind outcome_bind]. by destruct (ack_connection env w fd ack).
Qed.

(** The message of a close finds its connection. *)
Lemma ProcessCloseConnection_found mem (w : proxy) fd ci conns n msg rest :
  live w fd ci → conn_ok (ci_conn ci) → tbl_is (px_ConnMap w) conns → conns !! ci_conn ci = Some fd → 0 ≤ n < 2 ^ 32 →
  BuildWACloseConnection mem (dstIP (ci_conn ci)) (dstPort (ci_conn ci)) (srcIP (ci_conn ci)) (srcPort (ci_conn ci)) n =
    Done msg →
  ProcessCloseConnection env w (msg ++ rest) =
    (w' ← (if n =? 0 then SetDead env w fd true
           else if ui_bytesRX (ci_uci ci) =? n then SetDead env w fd false
           else Done (put_ci (set_uci (set_written (ui_bytesRX (ci_uci ci)) n (ci_uci ci)) ci) w));
     Done (w', Z.of_nat (length msg))).
Proof.
  intros Hl Hc Hmap Hfind Hn Hmsg. pose proof (BuildWACloseConnection_ok mem _ n (reversed_ok _ Hc)) as Hb.
  change (BuildWACloseConnection mem _ _ _ _ _) with
    (BuildWACloseConnection mem (srcIP (reversed (ci_conn ci))) (srcPort (reversed (ci_conn ci)))
      (dstIP (reversed (ci_conn ci))) (dstPort (reversed (ci_conn ci))) n) in Hmsg.
  assert (msg = control_header (reversed (ci_conn ci)) TYPE_WACLOSECONNECTION 23 ++ be 1 MAGIC_WACLOSECONNECTION ++ be 4 n)
    as -> by congruence.
  unfold ProcessCloseConnection.
  assert (length (control_header (reversed (ci_conn ci)) TYPE_WACLOSECONNECTION 23 ++ be 1 MAGIC_WACLOSECONNECTION ++ be 4 n) = 23%nat) as ->.
  { by rewrite !length_app, length_control_header, !length_be. }
  rewrite <-!app_assoc, read_connID_ok by (by apply reversed_ok). cbn [mbind outcome_bind].
  rewrite (app_assoc (control_header _ _ _)).
  rewrite (ntohl_mid (control_header (reversed (ci_conn ci)) TYPE_WACLOSECONNECTION 23 ++ be 1 MAGIC_WACLOSECONNECTION) _ rest 19 n)
    by (done || rewrite ?length_app, ?length_control_header, ?length_be; lia).
  cbn [mbind outcome_bind]. rewrite (found_reversed w ci conns fd Hc Hmap Hfind).
  cbn [mbind outcome_bind]. rewrite (get_ci_live _ _ _ Hl). cbn [mbind outcome_bind].
  destruct (n =? 0); [by destruct (SetDead _ _ _ _)|]. destruct (_ =? _); [by destruct (SetDead _ _ _ _)|done].
Qed.

(** ** Tearing down *)

Lemma DestroyReassembleList_ok l :
  Forall (λ ri, ri_nameList ri ≠ []) l → DestroyReassembleList l = Done tt.
Proof.
  unfold DestroyReassembleList. induction 1 as [|ri l Hn _ IH]; [done|]. cbn [foldM].
  assert (DestroyReassembleInfo ri = Done tt) as -> by (unfold DestroyReassembleInfo; by destruct (ri_nameList ri)).
  done.
Qed.

(** A connection that can be destroyed: its queue is empty, its buffers are
    counted, and its destination proxy knows it. *)
Record destroyable (w : proxy) (ci : ConnectionInfo) (R : refs) : Prop := {
  ds_sender : sender_ok (ue_mrc env) (px_gl w) (ui_uci (ci_uci ci)) R;
  ds_refs : ∀ n, Z.of_nat (ref_count R n) < 2 ^ 31;
  ds_count : uci_numChunkBuffers (ui_uci (ci_uci ci)) = Z.of_nat (length (uci_chunkBufferList (ui_uci (ci_uci ci))));
  ds_names : Forall (λ ri, ri_nameList ri ≠ []) (rs_reassembleList (ui_recv (ci_uci ci)));
  ds_queue : ui_controlMsgList (ci_uci ci) = [];
  ds_users : 0 < px_NumUserConns w;
  ds_peer : ∃ i l n, rs_dstPxyIdx (ui_recv (ci_uci ci)) = Z.of_nat i ∧ px_userList w !! i = Some l ∧
    px_numUsers w !! i = Some n ∧ 0 < n
}.

Lemma DestroyConnectionInfo_ok (w : proxy) fd ci R :
  live w fd ci → destroyable w ci R →
  ∃ w', DestroyConnectionInfo env w fd = Done w' ∧
    px_master w' = delete fd (px_master w) ∧ px_NumUserConns w' = px_NumUserConns w - 1 ∧
    px_NumBlocked w' = (if decide (ci_status ci = cs_block) then u32 (px_NumBlocked w - 1) else px_NumBlocked w) ∧
    px_DeadConnList w' = px_DeadConnList w ∧ px_NumDeadConns w' = px_NumDeadConns w.
Proof.
  intros Hl [Hs Href Hcount Hnames Hq Hu (i & l & n & Hi & Hul & Hnu & Hn)].
  unfold DestroyConnectionInfo, DestroyUserConnectionInfo. rewrite (get_ci_live _ _ _ Hl).
  cbn [mbind outcome_bind]. unfold RemoveConnection.
  destruct (tbl_remove (px_ConnMap w) _) as [conn v]. destruct (tbl_remove (px_PseudoConnMap w) _) as [pseudo v'].
  rewrite DestroyReassembleList_ok by done. cbn [mbind outcome_bind].
  destruct (DestroyChunkBufferList_ok (ue_GenerateNameHint env) (uci_chunkBufferList (ui_uci (ci_uci ci)))
    (gl_cache (px_gl w)) R 0 (negb (ci_isAbnormal ci)) (so_tmp _ _ _ _ Hs) (so_buffers _ _ _ _ Hs)
    (so_hints _ _ _ _ Hs) (so_held _ _ _ _ Hs) Href) as (c' & R' & k & He & Hk & _ & _ & _ & _ & _ & Hhd).
  rewrite He. cbn [mbind outcome_bind].
  assert (k = length (uci_chunkBufferList (ui_uci (ci_uci ci)))) as ->.
  { destruct (drop k (uci_chunkBufferList (ui_uci (ci_uci ci)))) as [|cb rest] eqn:E.
    - apply (f_equal length) in E. rewrite length_drop in E. cbn in E. lia.
    - by destruct (Hhd cb eq_refl). }
  rewrite Hcount, Z.sub_diag. cbn [c_assert mbind outcome_bind px_NumUserConns set_userList set_maps set_globals Z.eqb u32].
  change (u32 0 =? 0) with true. cbn [c_assert mbind outcome_bind].
  rewrite (proj2 (Z.leb_le 0 _)) by lia. cbn [c_assert mbind outcome_bind].
  rewrite Hi, (proj2 (Z.eqb_neq _ (-1))) by lia. rewrite Nat2Z.id.
  cbn [px_userList px_numUsers set_userList set_maps set_globals].
  rewrite (proj2 (update_Done _ _ _ _) (ex_intro _ l (conj Hul eq_refl))). cbn [mbind outcome_bind].
  rewrite (proj2 (update_Done _ _ _ _) (ex_intro _ n (conj Hnu eq_refl))). cbn [mbind outcome_bind].
  rewrite get_at_nat, (get_insert_eq _ _ _ n) by done. cbn [mbind outcome_bind].
  rewrite (proj2 (Z.leb_le 0 _)) by lia. cbn [c_assert mbind outcome_bind]. rewrite Hq. cbn [length Nat.eqb c_assert mbind outcome_bind].
  eexists. split; [done|]. by case_decide.
Qed.

(** The list of dead connections with one connection on it. *)
Lemma CleanUp_single (w : proxy) fd ci R :
  live w fd ci → destroyable w ci R → ci_status ci = cs_closed →
  px_DeadConnList w = [fd] → 0 < px_NumDeadConns w →
  ∃ w', CleanUpClosedConnections env w = Done (w', 1) ∧ px_master w' = delete fd (px_master w) ∧
    px_NumUserConns w' = px_NumUserConns w - 1 ∧ px_NumBlocked w' = px_NumBlocked w ∧
    px_DeadConnList w' = [].
Proof.
  intros Hl Hd Hst Hdead Hn. unfold CleanUpClosedConnections. rewrite Hdead. cbn [foldM].
  unfold dead_to_destroy at 1. rewrite (get_ci_live _ _ _ Hl). cbn [mbind outcome_bind].
  rewrite (ds_queue _ _ _ Hd), decide_True by done. cbn [app length mbind outcome_bind].
  change (Z.of_nat 1 <? MAX_NUM_CI) with true. cbn [c_assert mbind outcome_bind foldM].
  destruct (DestroyConnectionInfo_ok (set_dead_list [] (px_NumDeadConns w) w) fd ci R) as
    (w' & He & Hm & Hu & Hb & Hdl & Hdn).
  { by destruct Hl. }
  { destruct Hd. by split. }
  unfold destroy_one at 1. rewrite He. cbn [mbind outcome_bind].
  rewrite Hdn. cbn [px_NumDeadConns set_dead_list]. rewrite (proj2 (Z.leb_le 0 _)) by lia.
  cbn [c_assert mbind outcome_bind]. eexists. split; [done|].
  cbn [px_master px_NumUserConns px_NumBlocked px_DeadConnList set_dead_list] in *.
  rewrite Hst in Hb. by rewrite decide_False in Hb.
Qed.

Lemma CleanUp_not_closed (w : proxy) fd ci :
  live w fd ci → ui_controlMsgList (ci_uci ci) = [] → ci_status ci ≠ cs_closed →
  px_DeadConnList w = [fd] → CleanUpClosedConnections env w = Fault AssertFailed.
Proof.
  intros Hl Hq Hst Hdead. unfold CleanUpClosedConnections. rewrite Hdead. cbn [foldM].
  unfold dead_to_destroy at 1. rewrite (get_ci_live _ _ _ Hl). cbn [mbind outcome_bind].
  rewrite Hq. by rewrite decide_False.
Qed.
End world.

(** ** A small proxy *)

Definition toy_user_env : UserEnv :=
  {| ue_mem := λ _, 7; ue_rotl := toy_rotl; ue_mrc := toy_params; ue_config := toy_config;
     ue_BufferTimeout := 0; ue_GenerateNameHint := true; ue_MaxPeerConns := 2 |}.

(** A connection that has sent [n] bytes, of which none is acknowledged. *)
Definition toy_connection (st : connectionStatus) (n : Z) (buf : list Z) : ConnectionInfo :=
  {| ci_fd := 5; ci_status := st; ci_isAbnormal := false; ci_bufRead := buf;
     ci_uci := {| ui_uci := {| uci_conn := {| srcIP := 1; srcPort := 2; dstIP := 3; dstPort := 4 |};
                               uci_rctx := mrc_ctx; uci_numChunks := 0; uci_bytesTX := n;
                               uci_chunkBufferList := []; uci_numChunkBuffers := 0 |};
                  ui_recv := set_dstPxyIdx 1 (set_lists [] [] (toy_recv 3)); ui_nameFlowId := 0; ui_bytesRX := 10;
                  ui_closeBytes := 0; ui_maxWindowSize := MAX_WINDOW_SIZE; ui_numSent := n;
                  ui_lastAcked := 0; ui_lastCumulativeAck := 0; ui_controlMsgList := [] |} |}.

Lemma toy_flow st n buf :
  0 ≤ n ≤ HIGH + MAX_CHUNK_SIZE → (st = cs_active → n ≤ HIGH) → (st = cs_block → HIGH < n) →
  flow_ok (toy_connection st n buf).
Proof.
  unfold HIGH, MAX_CHUNK_SIZE. intros Hn Ha Hb. split; cbn; try done; try lia.
  exists n. split; [lia|done].
Qed.

Definition short_src : list Z := take 40 toy_src.

Lemma toy_stream_ok k st n :
  (k ≤ 120)%nat →
  forallb (λ off, Z.of_nat (length (chunk_boundaries WAPROX_RABIN_WINDOW mrc_ctx (drop off (take k toy_src))
    (Z.min (Z.of_nat (k - off)) MAX_CHUNK_SIZE) 31 (g_ChunkSize toy_params - 1))) <=? g_ChunkSize toy_params)
    (seq 0 k) = true →
  stream_ok toy_params (uci_rctx (ui_uci (ci_uci (toy_connection st n (take k toy_src))))) (take k toy_src).
Proof.
  cbn [toy_connection ci_uci ui_uci uci_rctx]. intros Hk Hall off Hoff.
  pose proof toy_call_ok as [H1 H2 H3 H4 H5 H6].
  assert (length (take k toy_src) = k) as Hlen by (rewrite length_take; change (length toy_src) with 120%nat; lia).
  rewrite Hlen in *. split; [exact H1|exact H2|exact H3|apply Forall_drop, Forall_take, H4|rewrite length_drop, Hlen; lia|].
  intros mn Hmn. injection Hmn as <-. rewrite forallb_forall in Hall. apply Z.leb_le, Hall, in_seq. lia.
Qed.

(** A proxy with one connection, towards the first peer. *)
Definition toy_proxy {HT VT AT MT : Type} (c : cache HT VT) (am : AT) (cm : MT) (ci : ConnectionInfo)
    (nb : Z) : proxy HT VT AT MT :=
  {| px_gl := {| gl_cache := c; gl_pNames := toy_names; gl_pli := toy_pli |}; px_peers := toy_peers am true;
     px_putq := toy_queue; px_userList := [[]; [5]; []]; px_numUsers := [0; 1; 0]; px_master := {[5 := ci]};
     px_ConnMap := cm; px_PseudoConnMap := cm; px_UserList := [5]; px_NumUserConns := 1; px_NumBlocked := nb;
     px_DeadConnList := []; px_NumDeadConns := 0; px_TryReconstruction := false |}.

Lemma toy_live {HT VT AT MT : Type} (c : cache HT VT) (am : AT) (cm : MT) st n buf nb :
  live (toy_proxy c am cm (toy_connection st n buf) nb) 5 (toy_connection st n buf).
Proof. split; [|done]. cbn. apply lookup_singleton_eq. Qed.

Definition toy_conns : gmap ConnectionID Z := <[{| srcIP := 1; srcPort := 2; dstIP := 3; dstPort := 4 |} := 5]> ∅.

(** The tables of the proxy. *)
Lemma toy_tables {AT MT : Type} `{!Table (list Z) nat AT} `{!Table ConnectionID Z MT} :
  ∃ (am : AT) (cm : MT), tbl_is am ∅ ∧
    tbl_is cm toy_conns.
Proof.
  destruct (tbl_create_ok (T := AT) 16) as (am & _ & Ha); [lia|].
  destruct (tbl_create_ok (T := MT) 16) as (cm & _ & Hc); [lia|].
  eexists am, _. split; [exact Ha|]. by apply tbl_insert_ok.
Qed.

#[local] Existing Instance toy_digest.

Lemma toy_sender_ok {HT VT : Type} `{!Table (list Z) Z HT} `{!Table (list Z) CacheValue VT} (c : cache HT VT) st n buf :
  cache_empty 1000 c →
  sender_ok toy_params {| gl_cache := c; gl_pNames := toy_names; gl_pli := toy_pli |}
    (ui_uci (ci_uci (toy_connection st n buf))) ∅.
Proof.
  intros He. split; [reflexivity|reflexivity|exact (ce_tmp _ _ He)|exact (ce_send _ _ He)|constructor|done|].
  unfold conn_ok. cbn. lia.
Qed.

Lemma toy_loop_of {HT VT : Type} `{!Table (list Z) Z HT} `{!Table (list Z) CacheValue VT} (c : cache HT VT) st n buf :
  cache_empty 1000 c → 0 ≤ n ≤ HIGH → st ≠ cs_block → (length buf ≤ 120)%nat →
  stream_ok toy_params (uci_rctx (ui_uci (ci_uci (toy_connection st n buf)))) buf →
  loop_ok toy_user_env {| gl_cache := c; gl_pNames := toy_names; gl_pli := toy_pli |} (toy_connection st n buf) ∅ 0.
Proof.
  intros He Hn Hst Hlen Hs. unfold HIGH in Hn. split; [by apply toy_sender_ok| |exact Hs|by left|reflexivity| |].
  - apply toy_flow; [unfold HIGH, MAX_CHUNK_SIZE in *; lia|unfold HIGH; lia|done].
  - cbn [toy_connection ci_uci ui_uci uci_bytesTX ci_bufRead]. lia.
  - intros m. change (ref_count ∅ m) with 0%nat. cbn [toy_connection ci_bufRead]. unfold MAX_CHUNK_SIZE. lia.
Qed.

Lemma toy_loop_ok {HT VT : Type} `{!Table (list Z) Z HT} `{!Table (list Z) CacheValue VT} (c : cache HT VT) st n :
  cache_empty 1000 c → 0 ≤ n ≤ HIGH → st ≠ cs_block →
  loop_ok toy_user_env {| gl_cache := c; gl_pNames := toy_names; gl_pli := toy_pli |}
    (toy_connection st n short_src) ∅ 0.
Proof.
  intros He Hn Hst. assert (length short_src = 40%nat) as Hlen by reflexivity. apply toy_loop_of; [exact He|lia|exact Hst|lia|].
  apply (toy_stream_ok 40); [lia|]. vm_compute. reflexivity.
Qed.

(** ** Theorems *)

(** C14: [ProcessUserData] on an active connection returns, and what it sends is
    a prefix of the read buffer: every message is a name tree message of the
    connection for the next chunk of the stream, in order, and they are queued
    behind those that wait.  It sends everything, or stops because the window
    is four fifths full - the connection then is blocked and counted, and no
    more than one chunk is above the mark -, or because fewer than
    [MIN_RABIN_BUFSIZE] bytes are left of a stream that may wait.  The
    invariants of the sender and of the flow control hold again. *)
Theorem ProcessUserData_sends `{Digest} {HT VT AT MT : Type} `{!Table (list Z) Z HT}
    `{!Table (list Z) CacheValue VT} `{!Table (list Z) nat AT} `{!Table ConnectionID Z MT}
    (env : UserEnv) (w : proxy HT VT AT MT) (fd : Z) (ci : ConnectionInfo) (force : bool) (R : refs) :
  live w fd ci → ci_status ci = cs_active → conn_ok (ci_conn ci) → loop_ok env (px_gl w) ci R 0 →
  params_ok (ue_mrc env) → 0 ≤ px_NumBlocked w < px_NumUserConns w → px_NumUserConns w < 2 ^ 31 →
  ∃ w' ci' n ms R', ProcessUserData env w fd force = Done (w', n) ∧
    live w' fd ci' ∧ loop_ok env (px_gl w') ci' R' n ∧
    carries (ci_conn ci) (ci_bufRead ci) 0 ms n ∧ 0 ≤ n ≤ Z.of_nat (length (ci_bufRead ci)) ∧
    ui_controlMsgList (ci_uci ci') = ui_controlMsgList (ci_uci ci) ++ ms ∧
    uci_bytesTX (ui_uci (ci_uci ci')) = uci_bytesTX (ui_uci (ci_uci ci)) + n ∧
    ui_numSent (ci_uci ci') = ui_numSent (ci_uci ci) + n ∧ ui_numSent (ci_uci ci') ≤ HIGH + MAX_CHUNK_SIZE ∧
    ((ci_status ci' = cs_block ∧ HIGH < ui_numSent (ci_uci ci') ∧ px_NumBlocked w' = px_NumBlocked w + 1) ∨
     (ci_status ci' = cs_active ∧ ui_numSent (ci_uci ci') ≤ HIGH ∧ px_NumBlocked w' = px_NumBlocked w ∧
      (n = Z.of_nat (length (ci_bufRead ci)) ∨
       0 < ue_BufferTimeout env ∧ force = false ∧ Z.of_nat (length (ci_bufRead ci)) - n < MIN_RABIN_BUFSIZE))).
Proof.
  intros Hl Hst Hc Hok Hg Hnb HNU.
  destruct (ProcessUserData_ok env w fd ci force R Hl) as
    (gl' & nb' & ci' & n & ms & R' & He & [K1 K2 K3 K4 K5 K6 K7 K8]); try done.
  { by rewrite Hst. }
  { by rewrite Hst. }
  { by apply (fl_active _ (lp_flow _ _ _ _ _ Hok)). }
  pose proof (fl_sent _ (lp_flow _ _ _ _ _ K1)) as Hsent. pose proof (us_same_fd _ _ K2) as Hfd.
  rewrite (lv_fd _ _ _ Hl) in Hfd. rewrite Z.sub_0_r in *.
  eexists _, ci', n, ms, R'. split; [exact He|]. split_and!; try done; try lia.
  - rewrite <-Hfd. apply live_put.
  - destruct K8 as [(H1 & H2 & H3)|(H1 & H2 & H3 & H4)]; [by left|right].
    split_and!; [congruence|done|done|]. destruct H4 as [?|(_ & ? & ? & ?)]; auto.
Qed.

(** C15: an acknowledgement of the other side, as [BuildWANameAck] makes it,
    gives the window back: what is not acknowledged is what was sent after
    [ack], and the buffers that remain are those that end after [ack]; a blocked
    connection resumes exactly when the window is below the mark again, a
    closing one ends when everything is acknowledged, and then no connection is
    blocked and no buffer left.  No assertion fails. *)
Theorem ProcessNameAck_releases `{Digest} {HT VT AT MT : Type} `{!Table (list Z) Z HT}
    `{!Table (list Z) CacheValue VT} `{!Table (list Z) nat AT} `{!Table ConnectionID Z MT}
    (env : UserEnv) (mem : nat → Z) (w : proxy HT VT AT MT) (fd : Z) (ci : ConnectionInfo) (R : refs)
    (conns : gmap ConnectionID Z) (ack : Z) (msg rest : list Z) :
  live w fd ci → ci_status ci ≠ cs_closed → conn_ok (ci_conn ci) →
  tbl_is (px_ConnMap w) conns → conns !! ci_conn ci = Some fd →
  flow_ok ci → sender_ok (ue_mrc env) (px_gl w) (ui_uci (ci_uci ci)) R →
  (∀ n, Z.of_nat (ref_count R n) < 2 ^ 31) →
  0 < ack → ui_lastAcked (ci_uci ci) ≤ ack ≤ uci_bytesTX (ui_uci (ci_uci ci)) →
  (ci_status ci = cs_block → 0 < px_NumBlocked w < 2 ^ 32) → px_NumDeadConns w + 1 < MAX_NUM_CI →
  BuildWANameAck mem (dstIP (ci_conn ci)) (dstPort (ci_conn ci)) (srcIP (ci_conn ci)) (srcPort (ci_conn ci)) ack =
    Done msg →
  ∃ w' ci' R', ProcessNameAck env w (msg ++ rest) = Done (w', Z.of_nat (length msg)) ∧
    live w' fd ci' ∧ flow_ok ci' ∧ sender_ok (ue_mrc env) (px_gl w') (ui_uci (ci_uci ci')) R' ∧
    ui_numSent (ci_uci ci') = uci_bytesTX (ui_uci (ci_uci ci)) - ack ∧
    (∃ k, uci_chunkBufferList (ui_uci (ci_uci ci')) = drop k (uci_chunkBufferList (ui_uci (ci_uci ci)))) ∧
    Forall (λ cb, ack < cb_seq_no cb + cb_length cb) (uci_chunkBufferList (ui_uci (ci_uci ci'))) ∧
    (uci_bytesTX (ui_uci (ci_uci ci)) - ack = 0 → uci_chunkBufferList (ui_uci (ci_uci ci')) = []) ∧
    ci_status ci' = (if ack_resumed ack ci then cs_active
                     else if ack_finished ack ci then cs_closed else ci_status ci) ∧
    px_NumBlocked w' = (if ack_resumed ack ci then px_NumBlocked w - 1 else px_NumBlocked w) ∧
    px_DeadConnList w' = (if ack_finished ack ci then px_DeadConnList w ++ [fd] else px_DeadConnList w).
Proof.
  intros Hl Hst Hc Hmap Hfind Hf Hs Href Hpos Hack Hnb Hdead Hmsg.
  destruct (ack_connection_done env w fd ci R ack Hl Hst Hf Hs Href Hpos Hack Hnb Hdead) as
    (w' & ci' & k & R' & He & H1 & H2 & H3 & H4 & H5 & H6 & H7 & H8).
  pose proof (fl_total _ Hf) as Htot. pose proof (fl_unacked _ H3) as Hun.
  exists w', ci', R'. rewrite (ProcessNameAck_found env mem w fd ci conns ack) by (done || lia).
  rewrite He. split; [done|]. rewrite H2 in Hun |- *. split_and!; try done; [by rewrite <-H2|by exists k|by rewrite <-H2].
Qed.

Lemma ProcessUserData_sends_witness :
  ∃ (c : cache (@hashtable (list Z) Z) (@hashtable (list Z) CacheValue)) (am : @hashtable (list Z) nat)
    (cm : @hashtable ConnectionID Z) w' ci' ms,
    ProcessUserData toy_user_env (toy_proxy c am cm (toy_connection cs_active 0 short_src) 0) 5 false = Done (w', 40) ∧
    live w' 5 ci' ∧ carries {| srcIP := 1; srcPort := 2; dstIP := 3; dstPort := 4 |} short_src 0 ms 40 ∧
    ui_controlMsgList (ci_uci ci') = ms ∧ ci_status ci' = cs_active.
Proof.
  destruct (CreateCache_ok 1000) as (c & _ & He). destruct toy_tables as (am & cm & _ & _).
  assert (length short_src = 40%nat) as Hlen by reflexivity.
  destruct (ProcessUserData_sends toy_user_env (toy_proxy c am cm (toy_connection cs_active 0 short_src) 0) 5
    (toy_connection cs_active 0 short_src) false ∅ (toy_live _ _ _ _ _ _ _) eq_refl) as
    (w' & ci' & n & ms & R' & H1 & H2 & _ & H3 & Hn & H4 & _ & Hs & _ & H5).
  - unfold conn_ok. cbn. lia.
  - apply toy_loop_ok; [exact He|unfold HIGH; lia|discriminate].
  - exact toy_params_ok.
  - cbn. lia.
  - cbn. lia.
  - cbn [toy_connection ci_bufRead ci_uci ui_numSent] in Hn, Hs, H5. rewrite Hlen in Hn, H5. unfold HIGH in H5.
    assert (n = 40 ∧ ci_status ci' = cs_active) as [-> Hst].
    { destruct H5 as [(_ & H5 & _)|(H5 & _ & _ & [->|(H6 & _)])]; [exfalso; lia|split; [reflexivity|exact H5]|].
      cbn in H6. lia. }
    exists c, am, cm, w', ci', ms. split_and!; [exact H1|exact H2|exact H3|exact H4|exact Hst].
Defined.

Lemma toy_ack_ok ack : ∃ msg, BuildWANameAck (λ _, 7) 3 4 1 2 ack = Done msg ∧ length msg = 23%nat.
Proof.
  eexists. split; [apply (BuildWANameAck_ok (λ _, 7) {| srcIP := 3; srcPort := 4; dstIP := 1; dstPort := 2 |});
    unfold conn_ok; cbn; lia|]. by rewrite !length_app, length_control_header, !length_be.
Qed.

Lemma ProcessNameAck_releases_witness :
  ∃ (c : cache (@hashtable (list Z) Z) (@hashtable (list Z) CacheValue)) (am : @hashtable (list Z) nat)
    (cm : @hashtable ConnectionID Z) msg w' ci',
    BuildWANameAck (λ _, 7) 3 4 1 2 1 = Done msg ∧
    ProcessNameAck toy_user_env (toy_proxy c am cm (toy_connection cs_block (HIGH + 1) []) 1) (msg ++ []) =
      Done (w', Z.of_nat (length msg)) ∧
    live w' 5 ci' ∧ ci_status ci' = cs_active ∧ px_NumBlocked w' = 0.
Proof.
  destruct (CreateCache_ok 1000) as (c & _ & He). destruct toy_tables as (am & cm & _ & Hcm).
  destruct (toy_ack_ok 1) as (msg & Hmsg & _).
  destruct (ProcessNameAck_releases toy_user_env (λ _, 7) (toy_proxy c am cm (toy_connection cs_block (HIGH + 1) []) 1) 5
    (toy_connection cs_block (HIGH + 1) []) ∅ toy_conns 1 msg [] (toy_live _ _ _ _ _ _ _)) as
    (w' & ci' & R' & H1 & H2 & _ & _ & _ & _ & _ & _ & H3 & H4 & _).
  - discriminate.
  - unfold conn_ok. cbn. lia.
  - exact Hcm.
  - apply lookup_insert_eq.
  - apply toy_flow; [unfold HIGH, MAX_CHUNK_SIZE; lia|discriminate|unfold HIGH; lia].
  - apply toy_sender_ok, He.
  - intros n. change (ref_count ∅ n) with 0%nat. lia.
  - lia.
  - cbn. unfold HIGH. lia.
  - intros _. cbn. lia.
  - cbn. unfold MAX_NUM_CI. lia.
  - exact Hmsg.
  - exists c, am, cm, msg, w', ci'. exact (conj Hmsg (conj H1 (conj H2 (conj H3 H4)))).
Defined.

(** [g_NumBlocked] leaks.  When the other side closes a connection that is
    blocked, [SetDead] changes its state to [cs_closed], so that
    [DestroyUserConnectionInfo], which tests for [cs_block], does not subtract
    it: the connection is gone and counted no more among the users, but it is
    still counted as blocked. *)
Theorem closing_blocked_leaks `{Digest} {HT VT AT MT : Type} `{!Table (list Z) Z HT}
    `{!Table (list Z) CacheValue VT} `{!Table (list Z) nat AT} `{!Table ConnectionID Z MT}
    (env : UserEnv) (mem : nat → Z) (w : proxy HT VT AT MT) (fd : Z) (ci : ConnectionInfo) (R : refs)
    (conns : gmap ConnectionID Z) (msg rest : list Z) :
  live w fd ci → ci_status ci = cs_block → conn_ok (ci_conn ci) →
  tbl_is (px_ConnMap w) conns → conns !! ci_conn ci = Some fd → destroyable env w ci R →
  px_DeadConnList w = [] → px_NumDeadConns w = 0 → 0 < ui_bytesRX (ci_uci ci) < 2 ^ 32 →
  BuildWACloseConnection mem (dstIP (ci_conn ci)) (dstPort (ci_conn ci)) (srcIP (ci_conn ci)) (srcPort (ci_conn ci))
    (ui_bytesRX (ci_uci ci)) = Done msg →
  ∃ w1 w2, ProcessCloseConnection env w (msg ++ rest) = Done (w1, Z.of_nat (length msg)) ∧
    CleanUpClosedConnections env w1 = Done (w2, 1) ∧
    px_master w2 = delete fd (px_master w) ∧ px_NumUserConns w2 = px_NumUserConns w - 1 ∧
    px_NumBlocked w2 = px_NumBlocked w.
Proof.
  intros Hl Hst Hc Hmap Hfind Hd Hdl Hdn Hrx Hmsg.
  assert (SetDead env w fd false = Done (set_dead_list [fd] 1 (put_ci (set_abnormal false (set_status cs_closed ci)) w))) as Hdead.
  { rewrite (SetDead_normal env w fd ci Hl); [by rewrite Hdl, Hdn|by rewrite Hst|]. rewrite Hdn. unfold MAX_NUM_CI. lia. }
  destruct (CleanUp_single env (set_dead_list [fd] 1 (put_ci (set_abnormal false (set_status cs_closed ci)) w)) fd
    (set_abnormal false (set_status cs_closed ci)) R) as (w2 & H1 & H2 & H3 & H4 & _); try done.
  - rewrite <-(lv_fd _ _ _ Hl). destruct (live_put w (set_abnormal false (set_status cs_closed ci))). by split.
  - destruct Hd. by split.
  - eexists _, w2. split; [|split; [exact H1|]].
    + rewrite (ProcessCloseConnection_found env mem w fd ci conns (ui_bytesRX (ci_uci ci)) msg rest Hl Hc Hmap Hfind) by (done || lia).
      rewrite (proj2 (Z.eqb_neq _ 0)), Z.eqb_refl, Hdead by lia. done.
    + rewrite H2, H3, H4. cbn. rewrite (lv_fd _ _ _ Hl), delete_insert_eq. done.
Qed.

Lemma toy_close_ok n : ∃ msg, BuildWACloseConnection (λ _, 7) 3 4 1 2 n = Done msg.
Proof.
  eexists. apply (BuildWACloseConnection_ok (λ _, 7) {| srcIP := 3; srcPort := 4; dstIP := 1; dstPort := 2 |}).
  unfold conn_ok. cbn. lia.
Qed.

Lemma toy_destroyable {HT VT AT MT : Type} `{!Table (list Z) Z HT} `{!Table (list Z) CacheValue VT}
    (c : cache HT VT) (am : AT) (cm : MT) st n buf nb :
  cache_empty 1000 c →
  destroyable toy_user_env (toy_proxy c am cm (toy_connection st n buf) nb) (toy_connection st n buf) ∅.
Proof.
  intros He. split; [by apply toy_sender_ok| |reflexivity|constructor|reflexivity|cbn; lia|].
  - intros m. change (ref_count ∅ m) with 0%nat. lia.
  - exists 1%nat, [5], 1. split_and!; [reflexivity|reflexivity|reflexivity|lia].
Qed.

Lemma closing_blocked_leaks_witness :
  ∃ (c : cache (@hashtable (list Z) Z) (@hashtable (list Z) CacheValue)) (am : @hashtable (list Z) nat)
    (cm : @hashtable ConnectionID Z) msg w1 w2,
    BuildWACloseConnection (λ _, 7) 3 4 1 2 10 = Done msg ∧
    ProcessCloseConnection toy_user_env (toy_proxy c am cm (toy_connection cs_block (HIGH + 1) []) 1) (msg ++ []) =
      Done (w1, Z.of_nat (length msg)) ∧
    CleanUpClosedConnections toy_user_env w1 = Done (w2, 1) ∧ px_NumUserConns w2 = 0 ∧ px_NumBlocked w2 = 1.
Proof.
  destruct (CreateCache_ok 1000) as (c & _ & He). destruct toy_tables as (am & cm & _ & Hcm).
  destruct (toy_close_ok 10) as (msg & Hmsg).
  destruct (closing_blocked_leaks toy_user_env (λ _, 7) (toy_proxy c am cm (toy_connection cs_block (HIGH + 1) []) 1) 5
    (toy_connection cs_block (HIGH + 1) []) ∅ toy_conns msg [] (toy_live _ _ _ _ _ _ _) eq_refl) as
    (w1 & w2 & H1 & H2 & _ & H3 & H4).
  - unfold conn_ok. cbn. lia.
  - exact Hcm.
  - apply lookup_insert_eq.
  - apply toy_destroyable, He.
  - reflexivity.
  - reflexivity.
  - cbn. lia.
  - exact Hmsg.
  - exists c, am, cm, msg, w1, w2. exact (conj Hmsg (conj H1 (conj H2 (conj H3 H4)))).
Defined.

(** Once the count of blocked connections is not below the count of user
    connections - as after a leak - the next connection that fills its window
    stops the process: the assertion of [ProcessUserData] on the count fails. *)
Theorem full_window_aborts `{Digest} {HT VT AT MT : Type} `{!Table (list Z) Z HT}
    `{!Table (list Z) CacheValue VT} `{!Table (list Z) nat AT} `{!Table ConnectionID Z MT}
    (env : UserEnv) (w : proxy HT VT AT MT) (fd : Z) (ci : ConnectionInfo) (R : refs) :
  live w fd ci → ci_status ci = cs_active → conn_ok (ci_conn ci) → loop_ok env (px_gl w) ci R 0 →
  params_ok (ue_mrc env) → HIGH < ui_numSent (ci_uci ci) + Z.of_nat (length (ci_bufRead ci)) →
  0 ≤ px_NumUserConns w ≤ px_NumBlocked w → px_NumBlocked w + 1 < 2 ^ 32 →
  ProcessUserData env w fd true = Fault AssertFailed.
Proof.
  intros Hl Hst (Hc & _ & Hd & Hp) Hok Hg Hfull HNU Hnb. unfold ProcessUserData. rewrite (get_ci_live _ _ _ Hl).
  cbn [mbind outcome_bind]. rewrite (proj2 (Z.eqb_neq (dstIP _) 0)) by lia. cbn [andb].
  rewrite decide_False by by rewrite Hst.
  rewrite (user_loop_aborts env _ true (px_NumUserConns w) (px_NumBlocked w) (px_gl w) ci R 0); try done; try lia.
  - by rewrite Hst.
  - by apply (fl_active _ (lp_flow _ _ _ _ _ Hok)).
Qed.

Lemma full_window_aborts_witness :
  ∃ (c : cache (@hashtable (list Z) Z) (@hashtable (list Z) CacheValue)) (am : @hashtable (list Z) nat)
    (cm : @hashtable ConnectionID Z),
    ProcessUserData toy_user_env (toy_proxy c am cm (toy_connection cs_active HIGH short_src) 1) 5 true =
      Fault AssertFailed.
Proof.
  destruct (CreateCache_ok 1000) as (c & _ & He). destruct toy_tables as (am & cm & _ & _).
  assert (length short_src = 40%nat) as Hlen by reflexivity. exists c, am, cm.
  apply (full_window_aborts toy_user_env _ 5 (toy_connection cs_active HIGH short_src) ∅ (toy_live _ _ _ _ _ _ _) eq_refl).
  - unfold conn_ok. cbn. lia.
  - apply toy_loop_ok; [exact He|unfold HIGH; lia|discriminate].
  - exact toy_params_ok.
  - cbn [toy_connection ci_bufRead ci_uci ui_numSent]. rewrite Hlen. lia.
  - cbn. lia.
  - cbn. lia.
Defined.
