(* ===== verification/NameSchedule.v ===== *)
(** * The schedule of control messages

    Models [ScheduleNameDelivery] and [WriteToNamePeer] of
    [src/waprox/waprox.c]: the control messages of the connections towards a
    proxy are handed to the control flows, one message of each connection in
    turn, until none is left.  Making the connections of a flow and sending are
    I/O; what is handed over is collected. *)

From Stdlib Require Import ZArith Lia SpecFloat.
From stdpp Require Import base list option numbers sets gmap.
From S2P Require Import Prelude Bytes Rabin Mrc MrcLevels MrcTree MrcResolve MrcCandidates MrcTheorems.
From S2P Require Import Protocol Hashtable ChunkCache Sender Hrw Peer Reassemble Receiver Ils Connection.
From S2P Require Import ConnectionTheorems.

(** A message for a control flow of a peer; [nm_fd] is the stream. *)
Record NameMessage := {
  nm_peer : Z;
  nm_flow : Z;
  nm_msg : list Z;
  nm_fd : Z
}.

Section schedule.
Context `{Digest} {HT VT AT MT : Type} `{!Table (list Z) Z HT} `{!Table (list Z) CacheValue VT}
  `{!Table (list Z) nat AT} `{!Table ConnectionID Z MT}.
Context (env : UserEnv) (now : Z).
#[local] Abbreviation proxy := (proxy HT VT AT MT).

Definition WriteToNamePeer (ps : peers AT) (peerIdx flowId : Z) (msg : list Z) : outcome (peers AT) :=
  local ← match g_LocalInfo ps with Some l => get (g_PeerInfo ps) l | None => Fault OutOfBounds end;
  _ ← c_assert (negb (peerIdx =? pi_idx local));
  _ ← c_assert (negb (peerIdx =? -1));
  _ ← c_assert ((0 <=? flowId) && (flowId <? ue_MaxPeerConns env));
  _ ← c_assert (0 <? length msg)%nat;
  _ ← get_at (g_PeerInfo ps) peerIdx;
  UpdatePeerLiveness now ps (Z.to_nat peerIdx).

(** The loop over the connections of a peer: the last result is [stop]. *)
Fixpoint schedule_round (w : proxy) (out : list NameMessage) (userList : list Z)
    (numUsers numFinished : Z) : outcome (proxy * list NameMessage * bool) :=
  match userList with
  | [] => Done (w, out, false)
  | fd :: rest =>
      ci ← get_ci w fd;
      let ui := ci_uci ci in
      match ui_controlMsgList ui with
      | [] =>
          let numFinished := numFinished + 1 in
          if numUsers =? numFinished then Done (w, out, true)
          else schedule_round w out rest numUsers numFinished
      | msg :: msgs =>
          ps ← WriteToNamePeer (px_peers w) (rs_dstPxyIdx (ui_recv ui)) (ui_nameFlowId ui) msg;
          let w := put_ci (set_uci (set_messages msgs ui) ci) (set_peer_users ps (px_userList w) (px_numUsers w) w) in
          let m := {| nm_peer := rs_dstPxyIdx (ui_recv ui); nm_flow := ui_nameFlowId ui; nm_msg := msg; nm_fd := fd |} in
          schedule_round w (out ++ [m]) rest numUsers numFinished
      end
  end.

Fixpoint schedule_peer (fuel : nat) (w : proxy) (out : list NameMessage) (i : nat)
    : outcome (proxy * list NameMessage) :=
  match fuel with
  | O => Fault OutOfFuel
  | S fuel =>
      userList ← get (px_userList w) i;
      numUsers ← get (px_numUsers w) i;
      '(w, out, stop) ← schedule_round w out userList numUsers 0;
      if (stop : bool) then Done (w, out) else schedule_peer fuel w out i
  end.

(** One more turn than the longest queue, for the turn that finds them empty. *)
Definition schedule_bound (w : proxy) : nat :=
  S (foldr Nat.max 0%nat ((λ p, length (ui_controlMsgList (ci_uci p.2))) <$> map_to_list (px_master w))).

Definition ScheduleNameDelivery (w : proxy) : outcome (proxy * list NameMessage) :=
  foldM (λ st i,
    let '(w, out) := st in
    numUsers ← get (px_numUsers w) i;
    if numUsers =? 0 then Done (w, out) else schedule_peer (schedule_bound w) w out i)
    (w, []) (seq 0 (Z.to_nat (g_NumPeers (px_peers w)))).

(** ** Correctness *)

(** A connection without its first [k] control messages. *)
Definition drop_messages (k : nat) (ci : ConnectionInfo) : ConnectionInfo :=
  set_uci (set_messages (drop k (ui_controlMsgList (ci_uci ci))) (ci_uci ci)) ci.

Definition pops (k : nat) (fds : list Z) (m : gmap Z ConnectionInfo) : gmap Z ConnectionInfo :=
  map_imap (λ fd ci, Some (if decide (fd ∈ fds) then drop_messages k ci else ci)) m.

Lemma pops_lookup k fds m fd :
  pops k fds m !! fd = (λ ci, if decide (fd ∈ fds) then drop_messages k ci else ci) <$> m !! fd.
Proof. unfold pops. rewrite map_lookup_imap. by destruct (m !! fd). Qed.

Lemma drop_messages_0 ci : drop_messages 0 ci = ci.
Proof. by destruct ci as [? ? ? ? []]. Qed.
Lemma drop_messages_add j k ci : drop_messages j (drop_messages k ci) = drop_messages (k + j) ci.
Proof. unfold drop_messages. cbn. by rewrite drop_drop. Qed.

Lemma pops_add j k fds m : pops j fds (pops k fds m) = pops (k + j) fds m.
Proof.
  apply map_eq. intros fd. rewrite !pops_lookup. destruct (m !! fd) as [ci|]; [|done]. cbn. f_equal.
  case_decide; [|done]. by rewrite drop_messages_add.
Qed.

Lemma pops_nil k m : pops k [] m = m.
Proof.
  apply map_eq. intros fd. rewrite pops_lookup. destruct (m !! fd) as [ci|]; [|done]. done.
Qed.

Lemma pops_snoc k fds m fd ci :
  m !! fd = Some ci → fd ∉ fds → <[fd := drop_messages k ci]> (pops k fds m) = pops k (fds ++ [fd]) m.
Proof.
  intros Hci Hn. apply map_eq. intros x. destruct (decide (x = fd)) as [->|Hne].
  - rewrite lookup_insert_eq, pops_lookup, Hci. cbn. rewrite decide_True by set_solver. done.
  - rewrite lookup_insert_ne, !pops_lookup by done. destruct (m !! x); [|done]. cbn. f_equal.
    destruct (decide (x ∈ fds)); [rewrite decide_True by set_solver|rewrite decide_False by set_solver]; done.
Qed.

(** The message at place [k] of the queue of a connection. *)
Definition message_at (m : gmap Z ConnectionInfo) (k : nat) (fd : Z) : option NameMessage :=
  ci ← m !! fd;
  msg ← ui_controlMsgList (ci_uci ci) !! k;
  Some {| nm_peer := rs_dstPxyIdx (ui_recv (ci_uci ci)); nm_flow := ui_nameFlowId (ci_uci ci);
          nm_msg := msg; nm_fd := fd |}.

(** The peers accept messages. *)
Definition peers_ready (ps : peers AT) : Prop := peers_ok ps ∧ g_NumLivePeers ps ≤ live_peers ps.

Record same_shape (ps ps' : peers AT) : Prop := {
  sh_num : g_NumPeers ps' = g_NumPeers ps;
  sh_local : g_LocalInfo ps' = g_LocalInfo ps
}.

(** A connection that can send to its peer. *)
Record can_send (ps : peers AT) (ci : ConnectionInfo) : Prop := {
  cs_peer : ∃ i, rs_dstPxyIdx (ui_recv (ci_uci ci)) = Z.of_nat i ∧ Z.of_nat i < g_NumPeers ps ∧
    g_LocalInfo ps ≠ Some i;
  cs_flow : 0 ≤ ui_nameFlowId (ci_uci ci) < ue_MaxPeerConns env;
  cs_msgs : Forall (λ m, m ≠ []) (ui_controlMsgList (ci_uci ci))
}.

Lemma can_send_shape ps ps' ci : same_shape ps ps' → can_send ps ci → can_send ps' ci.
Proof. intros [Hn Hl] [H1 H2 H3]. split; [by rewrite Hn, Hl|done|done]. Qed.

Lemma can_send_drop ps k ci : can_send ps ci → can_send ps (drop_messages k ci).
Proof. intros [H1 H2 H3]. split; [done|done|]. cbn. by apply Forall_drop. Qed.

Lemma WriteToNamePeer_ok ps ci msg :
  peers_ready ps → can_send ps ci → msg ≠ [] →
  ∃ ps', WriteToNamePeer ps (rs_dstPxyIdx (ui_recv (ci_uci ci))) (ui_nameFlowId (ci_uci ci)) msg = Done ps' ∧
    peers_ready ps' ∧ same_shape ps ps'.
Proof.
  intros [Hok Hlive] [(i & Hi & Hlt & Hloc) Hflow _] Hmsg. unfold WriteToNamePeer.
  destruct (pk_local _ Hok) as (l & Hl & Hll). rewrite Hl. pose proof (pk_len _ Hok) as Hlen. pose proof (pk_num _ Hok) as Hnum.
  destruct (lookup_lt_is_Some_2 (g_PeerInfo ps) l) as [pl Hpl]; [lia|].
  destruct (lookup_lt_is_Some_2 (g_PeerInfo ps) i) as [p Hp]; [lia|].
  rewrite (proj2 (get_Done _ _ _) Hpl). cbn [mbind outcome_bind]. rewrite (pk_idx _ Hok l pl Hll Hpl), Hi.
  assert (i ≠ l) by congruence.
  rewrite (proj2 (Z.eqb_neq _ (Z.of_nat l))), (proj2 (Z.eqb_neq _ (-1))) by lia. cbn [negb c_assert mbind outcome_bind].
  rewrite (proj2 (Z.leb_le 0 _)), (proj2 (Z.ltb_lt (ui_nameFlowId _) _)) by lia. cbn [andb c_assert mbind outcome_bind].
  destruct msg as [|x msg]; [done|]. change (0 <? length (x :: msg))%nat with true. cbn [c_assert mbind outcome_bind].
  rewrite get_at_nat, (proj2 (get_Done _ _ _) Hp), Nat2Z.id. cbn [mbind outcome_bind].
  destruct (UpdatePeerLiveness_ok now ps i p Hok Hp Hlt Hlive) as (-> & Hok' & Hc).
  eexists. split; [done|]. split; [|by split]. split; [done|].
  unfold live_peers in *. cbn [g_NumLivePeers g_PeerInfo set_peers]. rewrite Hc. lia.
Qed.

(** The proxy with other connections and peers. *)
Definition sched (w : proxy) (m : gmap Z ConnectionInfo) (ps : peers AT) : proxy :=
  set_master m (set_peer_users ps (px_userList w) (px_numUsers w) w).

Definition empty_queue (m : gmap Z ConnectionInfo) (fd : Z) : Prop := message_at m 0 fd = None.
#[local] Instance empty_queue_dec m fd : Decision (empty_queue m fd) := _.

Definition sendable (ps : peers AT) (m : gmap Z ConnectionInfo) (fd : Z) : Prop :=
  ∃ ci, m !! fd = Some ci ∧ ci_fd ci = fd ∧ can_send ps ci.

Lemma drop_messages_1 ci msgs :
  tail (ui_controlMsgList (ci_uci ci)) = msgs → set_uci (set_messages msgs (ci_uci ci)) ci = drop_messages 1 ci.
Proof. intros <-. unfold drop_messages. by destruct (ui_controlMsgList _). Qed.

Lemma filter_full {A} (P : A → Prop) `{∀ x, Decision (P x)} (l : list A) :
  length (filter P l) = length l ↔ Forall P l.
Proof.
  induction l as [|x l IH]; [done|]. rewrite filter_cons, Forall_cons. pose proof (length_filter P l).
  case_decide; cbn [length]; [rewrite <-IH; split; [intros; split; [done|lia]|intros [_ ->]; done]|].
  split; [lia|by intros []].
Qed.

Lemma schedule_round_ok w m l2 : ∀ l1 ps out,
  NoDup (l1 ++ l2) → peers_ready ps → Forall (sendable ps m) (l1 ++ l2) →
  ∃ ps', schedule_round (sched w (pops 1 l1 m) ps) out l2 (Z.of_nat (length (l1 ++ l2)))
      (Z.of_nat (length (filter (empty_queue m) l1))) =
    Done (sched w (pops 1 (l1 ++ l2) m) ps', out ++ omap (message_at m 0) l2,
          bool_decide (l2 ≠ [] ∧ Forall (empty_queue m) (l1 ++ l2))) ∧ peers_ready ps' ∧ same_shape ps ps'.
Proof.
  induction l2 as [|fd l2 IH]; intros l1 ps out Hnd Hps Hall.
  { exists ps. cbn [schedule_round]. rewrite !app_nil_r. rewrite bool_decide_false by by intros [].
    split_and!; [done|done|by split]. }
  assert (Hfd : sendable ps m fd) by (rewrite Forall_forall in Hall; apply Hall; set_solver).
  destruct Hfd as (ci & Hci & Hfd & Hcan).
  assert (fd ∉ l1) as Hn by (apply NoDup_app in Hnd as (_ & Hnd & _); intros Hin; apply (Hnd fd Hin); set_solver).
  assert (pops 1 l1 m !! fd = Some ci) as Hcur by (rewrite pops_lookup, Hci; cbn; by rewrite decide_False).
  cbn [schedule_round]. unfold get_ci at 1. cbn [sched px_master set_master set_peer_users].
  rewrite Hcur. cbn [mbind outcome_bind].
  assert (l1 ++ fd :: l2 = (l1 ++ [fd]) ++ l2) as Happ by by rewrite <-app_assoc.
  rewrite Happ in *. destruct (ui_controlMsgList (ci_uci ci)) as [|msg msgs] eqn:Eq.
  - assert (message_at m 0 fd = None) as Hm by (unfold message_at; rewrite Hci; cbn; by rewrite Eq).
    assert (length (filter (empty_queue m) (l1 ++ [fd])) = S (length (filter (empty_queue m) l1))) as Hcnt.
    { rewrite filter_app, length_app, filter_cons_True by done. cbn. lia. }
    assert (pops 1 (l1 ++ [fd]) m = pops 1 l1 m) as Hpop.
    { rewrite <-(pops_snoc 1 l1 m fd ci Hci Hn), <-(drop_messages_1 ci []) by by rewrite Eq.
      rewrite <-Eq. assert (set_uci (set_messages (ui_controlMsgList (ci_uci ci)) (ci_uci ci)) ci = ci) as ->
        by (by destruct ci as [? ? ? ? []]). by rewrite insert_id. }
    replace (Z.of_nat (length (filter (empty_queue m) l1)) + 1) with (Z.of_nat (length (filter (empty_queue m) (l1 ++ [fd])))) by lia.
    rewrite <-Hpop. cbn [omap list_omap]. rewrite Hm.
    destruct (Z.eqb_spec (Z.of_nat (length ((l1 ++ [fd]) ++ l2))) (Z.of_nat (length (filter (empty_queue m) (l1 ++ [fd]))))) as [E|E].
    + assert (length (filter (empty_queue m) (l1 ++ [fd])) ≤ length (l1 ++ [fd]))%nat as Hle by apply length_filter.
      rewrite length_app in E. destruct l2 as [|x l2]; [|cbn [length] in E; lia]. exists ps. rewrite !app_nil_r in *.
      cbn [omap list_omap]. rewrite ?app_nil_r, bool_decide_true; [split_and!; [done|done|by split]|].
      split; [done|]. apply (filter_full (empty_queue m)). cbn [length] in E. lia.
    + destruct (IH (l1 ++ [fd]) ps out Hnd Hps Hall) as (ps' & He & Hps' & Hsh). exists ps'. rewrite He.
      split_and!; [|done|done]. do 2 f_equal. apply bool_decide_ext. split; [by intros [_ ?]|].
      intros [_ Hf]. split; [|done]. intros ->. rewrite app_nil_r in *. apply E. f_equal.
      symmetry. by apply (filter_full (empty_queue m)).
  - assert (msg ≠ []) as Hmsg by (pose proof (cs_msgs _ _ Hcan) as Hf; rewrite Eq in Hf; by apply Forall_cons_1 in Hf as [? _]).
    cbn [px_peers]. destruct (WriteToNamePeer_ok ps ci msg Hps Hcan Hmsg) as (ps1 & He & Hps1 & Hsh1).
    change (px_peers (sched w (pops 1 l1 m) ps)) with ps. rewrite He. cbn [mbind outcome_bind].
    assert (message_at m 0 fd = Some {| nm_peer := rs_dstPxyIdx (ui_recv (ci_uci ci)); nm_flow := ui_nameFlowId (ci_uci ci);
      nm_msg := msg; nm_fd := fd |}) as Hm by (unfold message_at; rewrite Hci; cbn; by rewrite Eq).
    assert (Z.of_nat (length (filter (empty_queue m) l1)) = Z.of_nat (length (filter (empty_queue m) (l1 ++ [fd])))) as ->.
    { rewrite filter_app, filter_cons_False by (unfold empty_queue; by rewrite Hm). cbn. by rewrite app_nil_r. }
    cbn [omap list_omap]. rewrite Hm.
    rewrite (drop_messages_1 ci msgs) by by rewrite Eq.
    destruct (IH (l1 ++ [fd]) ps1 (out ++ [{| nm_peer := rs_dstPxyIdx (ui_recv (ci_uci ci));
      nm_flow := ui_nameFlowId (ci_uci ci); nm_msg := msg; nm_fd := fd |}]) Hnd Hps1) as (ps' & He' & Hps' & Hsh).
    { eapply Forall_impl; [exact Hall|]. intros x (cx & ? & ? & ?). exists cx. split_and!; [done|done|].
      by eapply can_send_shape. }
    exists ps'. rewrite <-(pops_snoc 1 l1 m fd ci Hci Hn) in He'. rewrite <-(app_assoc out) in He'. cbn [app] in He'.
    split_and!; [|done|by destruct Hsh1, Hsh; split; congruence].
    assert (bool_decide (fd :: l2 ≠ [] ∧ Forall (empty_queue m) ((l1 ++ [fd]) ++ l2)) =
            bool_decide (l2 ≠ [] ∧ Forall (empty_queue m) ((l1 ++ [fd]) ++ l2))) as ->.
    { rewrite !bool_decide_false; [done| |]; intros [_ Hf]; rewrite Forall_forall in Hf;
        specialize (Hf fd); unfold empty_queue in Hf; rewrite Hm in Hf; discriminate Hf; set_solver. }
    rewrite <-He'. f_equal. unfold put_ci, sched. cbn [px_master set_master set_peer_users ci_fd drop_messages set_uci].
    by rewrite Hfd.
Qed.

(** ** The turns of a peer *)

(** [n] turns: one message of each connection, in the order of the list. *)
Definition turns (m : gmap Z ConnectionInfo) (users : list Z) (n : nat) : list NameMessage :=
  concat ((λ k, omap (message_at m k) users) <$> seq 0 n).

Definition queue_length (m : gmap Z ConnectionInfo) (fd : Z) : nat :=
  match m !! fd with Some ci => length (ui_controlMsgList (ci_uci ci)) | None => 0 end.

Lemma message_at_pops m k users j fd :
  message_at (pops k users m) j fd = message_at m (if decide (fd ∈ users) then k + j else j) fd.
Proof.
  unfold message_at. rewrite pops_lookup. destruct (m !! fd) as [ci|]; [|done]. cbn.
  case_decide; [|done]. cbn. by rewrite lookup_drop.
Qed.

Lemma message_at_None m k fd : message_at m k fd = None ↔ (queue_length m fd ≤ k)%nat.
Proof.
  unfold message_at, queue_length. destruct (m !! fd) as [ci|]; cbn; [|split; [lia|done]].
  destruct (ui_controlMsgList (ci_uci ci) !! k) eqn:E; cbn.
  - apply lookup_lt_Some in E. split; [done|lia].
  - apply lookup_ge_None in E. by split.
Qed.

Lemma omap_None {A B} (f : A → option B) l : (∀ x, x ∈ l → f x = None) → omap f l = [].
Proof.
  induction l as [|x l IH]; intros Hf; [done|]. cbn [omap list_omap]. rewrite Hf by set_solver.
  apply IH. intros y Hy. apply Hf. set_solver.
Qed.

(** Turns after the longest queue do nothing. *)
Lemma turns_enough m users k n :
  Forall (λ fd, (queue_length m fd ≤ k)%nat) users → turns m users (k + n) = turns m users k.
Proof.
  intros Hf. unfold turns. rewrite seq_app, fmap_app, concat_app. rewrite <-(app_nil_r (concat _)) at 2. f_equal.
  cbn [Nat.add]. induction (seq k n) as [|j l IH] eqn:El in n, k, Hf |- *; [done|].
  destruct n as [|n]; [done|]. injection El as <- El. cbn [fmap list_fmap concat].
  rewrite omap_None; [|intros x Hx; apply message_at_None; rewrite Forall_forall in Hf; by apply Hf].
  apply (IH (S k) n); [|done]. eapply Forall_impl; [exact Hf|]. cbn. lia.
Qed.

Lemma pops_enough m users k n :
  Forall (λ fd, (queue_length m fd ≤ k)%nat) users → pops (k + n) users m = pops k users m.
Proof.
  intros Hf. apply map_eq. intros fd. rewrite !pops_lookup. destruct (m !! fd) as [ci|] eqn:E; [|done]. cbn. f_equal.
  case_decide as Hin; [|done]. rewrite Forall_forall in Hf. specialize (Hf fd Hin). unfold queue_length in Hf.
  rewrite E in Hf. unfold drop_messages. by rewrite !drop_ge by lia.
Qed.

Lemma sendable_pops ps m k fds fd : sendable ps m fd → sendable ps (pops k fds m) fd.
Proof.
  intros (ci & Hci & Hfd & Hcan). unfold sendable. rewrite pops_lookup, Hci. cbn. eexists. split; [done|].
  case_decide; [|done]. split; [done|]. by apply can_send_drop.
Qed.

Lemma sendable_shape ps ps' m fd : same_shape ps ps' → sendable ps m fd → sendable ps' m fd.
Proof. intros Hs (ci & ? & ? & ?). exists ci. split_and!; [done|done|]. by eapply can_send_shape. Qed.

Lemma same_shape_trans ps1 ps2 ps3 : same_shape ps1 ps2 → same_shape ps2 ps3 → same_shape ps1 ps3.
Proof. intros [] []. split; congruence. Qed.

Lemma schedule_peer_ok w m i users n fuel : ∀ k ps out,
  px_userList w !! i = Some users → px_numUsers w !! i = Some n → n = Z.of_nat (length users) → users ≠ [] →
  NoDup users → peers_ready ps → Forall (sendable ps m) users →
  (0 < fuel)%nat → Forall (λ fd, (queue_length m fd < k + fuel)%nat) users →
  ∃ ps', schedule_peer fuel (sched w (pops k users m) ps) (out ++ turns m users k) i =
      Done (sched w (pops (k + fuel) users m) ps', out ++ turns m users (k + fuel)) ∧
    peers_ready ps' ∧ same_shape ps ps'.
Proof.
  induction fuel as [|fuel IH]; intros k ps out Hu Hn -> Hne Hnd Hps Hall Hpos Hq; [lia|]. cbn [schedule_peer].
  change (px_userList (sched w (pops k users m) ps)) with (px_userList w).
  change (px_numUsers (sched w (pops k users m) ps)) with (px_numUsers w).
  rewrite (proj2 (get_Done _ _ _) Hu), (proj2 (get_Done _ _ _) Hn). cbn [mbind outcome_bind].
  destruct (schedule_round_ok w (pops k users m) users [] ps (out ++ turns m users k) Hnd Hps) as (ps1 & He & Hps1 & Hsh1).
  { eapply Forall_impl; [exact Hall|]. intros fd. apply sendable_pops. }
  change ([] ++ users) with users in He. change (filter _ []) with (@nil Z) in He. cbn [length] in He.
  rewrite pops_nil, pops_add in He. change (Z.of_nat 0) with 0 in He. rewrite He. cbn [mbind outcome_bind].
  assert (omap (message_at (pops k users m) 0) users = omap (message_at m k) users) as ->.
  { apply list_omap_ext, Forall_Forall2_diag, Forall_forall. intros fd Hin. rewrite message_at_pops, decide_True by done.
    by rewrite Nat.add_0_r. }
  assert ((out ++ turns m users k) ++ omap (message_at m k) users = out ++ turns m users (k + 1)) as ->.
  { unfold turns. rewrite seq_app, fmap_app, concat_app. cbn [seq Nat.add fmap list_fmap concat].
    by rewrite app_nil_r, app_assoc. }
  assert (∀ fd, fd ∈ users → empty_queue (pops k users m) fd ↔ (queue_length m fd ≤ k)%nat) as Hemp.
  { intros fd Hin. unfold empty_queue. rewrite message_at_pops, decide_True, Nat.add_0_r by done. apply message_at_None. }
  destruct (bool_decide _) eqn:Eb.
  - apply bool_decide_eq_true_1 in Eb as [_ Hall0]. exists ps1. split_and!; [|done|done].
    assert (Forall (λ fd, (queue_length m fd ≤ k + 1)%nat) users) as Hk1.
    { rewrite Forall_forall in Hall0 |- *. intros fd Hin. specialize (Hall0 fd Hin). apply Hemp in Hall0; [lia|done]. }
    replace (k + S fuel)%nat with (k + 1 + fuel)%nat by lia. by rewrite (pops_enough m users (k + 1) fuel), (turns_enough m users (k + 1) fuel).
  - apply bool_decide_eq_false_1 in Eb.
    assert (∃ fd, fd ∈ users ∧ (k < queue_length m fd)%nat) as (fd & Hin & Hlt).
    { destruct (decide (Exists (λ fd, (k < queue_length m fd)%nat) users)) as [Hex|Hno].
      - by apply Exists_exists in Hex.
      - exfalso. apply Eb. split; [done|]. apply not_Exists_Forall in Hno; [|apply _].
        rewrite Forall_forall in Hno |- *. intros fd Hin. apply Hemp; [done|]. specialize (Hno fd Hin). cbn in Hno. lia. }
    assert (0 < fuel)%nat as Hfuel.
    { rewrite Forall_forall in Hq. specialize (Hq fd Hin). cbn in Hq. lia. }
    destruct (IH (k + 1)%nat ps1 out Hu Hn eq_refl Hne Hnd Hps1) as (ps' & He' & Hps' & Hsh'); [|done| |].
    + eapply Forall_impl; [exact Hall|]. intros x. by apply sendable_shape.
    + eapply Forall_impl; [exact Hq|]. cbn. lia.
    + exists ps'. rewrite He'. split_and!; [by replace (k + S fuel)%nat with (k + 1 + fuel)%nat by lia|done|].
      by eapply same_shape_trans.
Qed.

(** ** All peers *)

Lemma pops_app k l1 l2 m : NoDup (l1 ++ l2) → pops k (l1 ++ l2) m = pops k l2 (pops k l1 m).
Proof.
  intros (_ & Hd & _)%NoDup_app. apply map_eq. intros fd. rewrite !pops_lookup. destruct (m !! fd) as [ci|]; [|done].
  cbn. f_equal. destruct (decide (fd ∈ l1)) as [H1|H1].
  - rewrite (decide_True (P := fd ∈ l1 ++ l2)) by set_solver. by rewrite decide_False by by apply Hd.
  - destruct (decide (fd ∈ l2)); [by rewrite decide_True by set_solver|by rewrite decide_False by set_solver].
Qed.

Lemma pops_0 fds m : pops 0 fds m = m.
Proof.
  apply map_eq. intros fd. rewrite pops_lookup. destruct (m !! fd) as [ci|]; [|done]. cbn.
  case_decide; [|done]. by rewrite drop_messages_0.
Qed.

Lemma turns_ext m m' users n :
  (∀ k fd, fd ∈ users → message_at m k fd = message_at m' k fd) → turns m users n = turns m' users n.
Proof.
  intros He. unfold turns. f_equal. apply list_fmap_ext. intros _ k _.
  apply list_omap_ext, Forall_Forall2_diag, Forall_forall. auto.
Qed.

Lemma turns_two m users j k :
  Forall (λ fd, (queue_length m fd ≤ j)%nat) users → Forall (λ fd, (queue_length m fd ≤ k)%nat) users →
  turns m users j = turns m users k.
Proof.
  intros Hj Hk. rewrite <-(turns_enough m users j k Hj), <-(turns_enough m users k j Hk). by rewrite Nat.add_comm.
Qed.

Lemma pops_two m users j k :
  Forall (λ fd, (queue_length m fd ≤ j)%nat) users → Forall (λ fd, (queue_length m fd ≤ k)%nat) users →
  pops j users m = pops k users m.
Proof.
  intros Hj Hk. rewrite <-(pops_enough m users j k Hj), <-(pops_enough m users k j Hk). by rewrite Nat.add_comm.
Qed.

Lemma schedule_bound_above w fd : (queue_length (px_master w) fd < schedule_bound w)%nat.
Proof.
  unfold schedule_bound, queue_length. destruct (px_master w !! fd) as [ci|] eqn:E; [|lia].
  apply elem_of_map_to_list in E. induction (map_to_list (px_master w)) as [|[x c] l IH]; [by apply not_elem_of_nil in E|].
  apply elem_of_cons in E as [[= <- <-]|E]; cbn in *; [lia|]. specialize (IH E). lia.
Qed.

Lemma queue_length_pops m k fds fd : fd ∉ fds → queue_length (pops k fds m) fd = queue_length m fd.
Proof. intros Hn. unfold queue_length. rewrite pops_lookup. destruct (m !! fd); [|done]. cbn. by rewrite decide_False. Qed.

(** The lists of the peers are lists of connections that can send. *)
Record well_listed (w : proxy) : Prop := {
  wl_lists : ∀ i, (i < Z.to_nat (g_NumPeers (px_peers w)))%nat →
    ∃ l, px_userList w !! i = Some l ∧ px_numUsers w !! i = Some (Z.of_nat (length l));
  wl_nodup : NoDup (concat (take (Z.to_nat (g_NumPeers (px_peers w))) (px_userList w)));
  wl_send : Forall (sendable (px_peers w) (px_master w))
    (concat (take (Z.to_nat (g_NumPeers (px_peers w))) (px_userList w)));
  wl_peers : peers_ready (px_peers w)
}.

Definition scheduled (w : proxy) (n : nat) : list NameMessage :=
  concat ((λ l, turns (px_master w) l (schedule_bound w)) <$> take n (px_userList w)).

(** The step of the loop over the peers. *)
Lemma schedule_one w j l ps (w0 := sched w (pops (schedule_bound w) (concat (take j (px_userList w))) (px_master w)) ps) :
  well_listed w → px_userList w !! j = Some l → (j < Z.to_nat (g_NumPeers (px_peers w)))%nat →
  peers_ready ps → same_shape (px_peers w) ps → l ≠ [] →
  ∃ ps', schedule_peer (schedule_bound w0) w0 (scheduled w j) j =
    Done (sched w (pops (schedule_bound w) (concat (take (S j) (px_userList w))) (px_master w)) ps', scheduled w (S j)) ∧
    peers_ready ps' ∧ same_shape (px_peers w) ps'.
Proof.
  intros [Hl Hnd Hs _] Hj Hlt Hps Hsh Hne. set (m := px_master w) in *. set (B := schedule_bound w) in *.
  set (before := concat (take j (px_userList w))) in *. set (M := pops B before m) in *.
  assert (concat (take (S j) (px_userList w)) = before ++ l) as Hsplit.
  { rewrite (take_S_r _ _ _ Hj), concat_app. cbn. by rewrite app_nil_r. }
  assert (∃ after, concat (take (Z.to_nat (g_NumPeers (px_peers w))) (px_userList w)) = (before ++ l) ++ after) as [after Ha].
  { exists (concat (drop (S j) (take (Z.to_nat (g_NumPeers (px_peers w))) (px_userList w)))).
    rewrite <-Hsplit, <-concat_app. f_equal. rewrite <-(take_drop (S j) (take _ _)) at 1. f_equal.
    rewrite take_take. f_equal. lia. }
  rewrite Ha in Hnd, Hs. apply NoDup_app in Hnd as (Hnd & _ & _). apply Forall_app in Hs as [Hs _].
  apply Forall_app in Hs as [_ Hs]. pose proof Hnd as Hnd'. apply NoDup_app in Hnd' as (_ & Hdis & Hndl).
  assert (∀ fd, fd ∈ l → fd ∉ before) as Hout by (intros fd H1 H2; by apply (Hdis fd)).
  destruct (Hl j Hlt) as (l' & Hl1 & Hl2). assert (l' = l) as -> by congruence.
  assert (Forall (λ fd, (queue_length M fd < schedule_bound w0)%nat) l) as Hq0.
  { apply Forall_forall. intros fd _. apply (schedule_bound_above w0). }
  assert (Forall (λ fd, (queue_length M fd ≤ B)%nat) l) as HqB.
  { apply Forall_forall. intros fd Hin. unfold M. rewrite queue_length_pops by auto.
    pose proof (schedule_bound_above w fd). fold m B in H0. lia. }
  destruct (schedule_peer_ok w M j l _ (schedule_bound w0) 0 ps (scheduled w j) Hj Hl2 eq_refl Hne Hndl Hps)
    as (ps' & He & Hps' & Hsh'); [|unfold schedule_bound; lia|exact Hq0|].
  { eapply Forall_impl; [exact Hs|]. intros fd Hfd. apply sendable_pops. by eapply sendable_shape. }
  exists ps'. split_and!; [|done|by eapply same_shape_trans].
  change (turns M l 0) with (@nil NameMessage) in He. rewrite app_nil_r, pops_0 in He.
  change (sched w M ps) with w0 in He. rewrite He. cbn [Nat.add].
  rewrite (turns_two M l (schedule_bound w0) B), (pops_two M l (schedule_bound w0) B) by
    (done || (eapply Forall_impl; [exact Hq0|cbn; lia])).
  do 2 f_equal.
  - f_equal. rewrite Hsplit, pops_app by done. done.
  - unfold scheduled. rewrite (take_S_r _ _ _ Hj), fmap_app, concat_app. cbn [fmap list_fmap concat]. rewrite app_nil_r.
    f_equal. apply turns_ext. intros k fd Hin. unfold M. rewrite message_at_pops. by rewrite decide_False by auto.
Qed.

Lemma ScheduleNameDelivery_ok w :
  well_listed w →
  let n := Z.to_nat (g_NumPeers (px_peers w)) in
  ∃ ps', ScheduleNameDelivery w =
      Done (sched w (pops (schedule_bound w) (concat (take n (px_userList w))) (px_master w)) ps', scheduled w n) ∧
    peers_ready ps' ∧ same_shape (px_peers w) ps'.
Proof.
  intros Hw n. unfold ScheduleNameDelivery. fold n.
  match goal with |- context [foldM ?f ?s0 _] =>
    destruct (foldM_total f (λ l1 st, ∃ ps, st =
      (sched w (pops (schedule_bound w) (concat (take (length l1) (px_userList w))) (px_master w)) ps,
       scheduled w (length l1)) ∧ peers_ready ps ∧ same_shape (px_peers w) ps) s0 (seq 0 n))
      as (st & He & ps & -> & Hps & Hsh) end.
  - exists (px_peers w). cbn [length take concat]. rewrite pops_nil.
    split_and!; [by destruct w|exact (wl_peers _ Hw)|by split].
  - intros l1 j l2 st Hsplit (ps & -> & Hps & Hsh).
    assert (j = length l1 ∧ (j < n)%nat) as [Hj Hlt].
    { assert (seq 0 n !! length l1 = Some j) as Hk by (rewrite Hsplit; by apply list_lookup_middle).
      apply lookup_seq in Hk. lia. }
    destruct (wl_lists _ Hw j Hlt) as (l & Hl & Hn). rewrite length_app. cbn [length]. rewrite Nat.add_1_r, <-Hj.
    change (px_numUsers (sched w _ ps)) with (px_numUsers w). rewrite (proj2 (get_Done _ _ _) Hn).
    cbn [mbind outcome_bind]. destruct (Z.eqb_spec (Z.of_nat (length l)) 0) as [E|E].
    + destruct l as [|x l]; [|cbn in E; lia]. eexists. split; [done|]. exists ps. split_and!; [|done|done].
      unfold scheduled. rewrite (take_S_r _ _ _ Hl), concat_app, fmap_app, concat_app. cbn [fmap list_fmap concat].
      rewrite !app_nil_r. f_equal. unfold turns.
      assert (concat ((λ k, omap (message_at (px_master w) k) []) <$> seq 0 (schedule_bound w)) = []) as ->.
      { generalize (seq 0 (schedule_bound w)). induction l as [|k ks IH]; [done|]. exact IH. }
      by rewrite app_nil_r.
    + destruct (schedule_one w j l ps Hw Hl Hlt Hps Hsh) as (ps' & He & Hps' & Hsh'); [by destruct l|].
      rewrite He. eexists. split; [done|]. exists ps'. by split_and!.
  - rewrite length_seq in He. exists ps. by split_and!.
Qed.

(** What a connection sends, in the order of its queue. *)
Lemma turns_of m users fd n ci :
  NoDup users → fd ∈ users → m !! fd = Some ci →
  nm_msg <$> filter (λ x, nm_fd x = fd) (turns m users n) = take n (ui_controlMsgList (ci_uci ci)).
Proof.
  intros Hnd Hin Hci. unfold turns.
  assert (∀ k, nm_msg <$> filter (λ x, nm_fd x = fd) (omap (message_at m k) users) =
    option_list (ui_controlMsgList (ci_uci ci) !! k)) as Hone.
  { intros k. apply list_elem_of_split in Hin as (l1 & l2 & ->). apply NoDup_app in Hnd as (_ & H1 & H2).
    apply NoDup_cons in H2 as [H2 _].
    assert (∀ l, fd ∉ l → filter (λ x, nm_fd x = fd) (omap (message_at m k) l) = []) as Hno.
    { induction l as [|y l IH]; intros Hl; [done|]. cbn [omap list_omap].
      destruct (message_at m k y) as [x|] eqn:E; [|apply IH; set_solver].
      rewrite filter_cons_False, IH; [done|set_solver|]. unfold message_at in E. destruct (m !! y); [|done]. cbn in E.
      destruct (_ !! k); [|done]. injection E as <-. cbn. set_solver. }
    rewrite omap_app, filter_app, Hno by (intros Hl; by apply (H1 fd Hl), list_elem_of_here). cbn [omap list_omap app].
    unfold message_at at 1. rewrite Hci. cbn. destruct (ui_controlMsgList (ci_uci ci) !! k) as [msg|]; cbn.
    - by rewrite decide_True, Hno.
    - by rewrite Hno. }
  induction n as [|n IH]; [done|]. rewrite seq_S, fmap_app, concat_app, filter_app, fmap_app, IH.
  cbn [Nat.add fmap list_fmap concat]. rewrite app_nil_r, Hone.
  destruct (ui_controlMsgList (ci_uci ci) !! n) as [msg|] eqn:E; cbn [option_list].
  - by rewrite (take_S_r _ _ _ E).
  - rewrite app_nil_r. apply lookup_ge_None in E. by rewrite !take_ge by lia.
Qed.
End schedule.

(** ** Theorems *)

Section flushes.
Context `{Digest} {HT VT AT MT : Type} `{!Table (list Z) Z HT} `{!Table (list Z) CacheValue VT}
  `{!Table (list Z) nat AT} `{!Table ConnectionID Z MT}.
Context (env : UserEnv) (now : Z).
#[local] Abbreviation proxy := (proxy HT VT AT MT).

(** The connections of all peers. *)
Definition listed (w : proxy) : list Z :=
  concat (take (Z.to_nat (g_NumPeers (px_peers w))) (px_userList w)).

Lemma turns_other m users n fd : fd ∉ users → filter (λ x, nm_fd x = fd) (turns m users n) = [].
Proof.
  intros Hn. unfold turns. generalize (seq 0 n). induction l as [|k l IH]; [done|].
  cbn [fmap list_fmap concat]. rewrite filter_app, IH, app_nil_r. clear IH.
  induction users as [|y users IH]; [done|]. cbn [omap list_omap].
  destruct (message_at m k y) as [x|] eqn:E; [|apply IH; set_solver].
  rewrite filter_cons_False, IH; [done|set_solver|]. unfold message_at in E. destruct (m !! y); [|done]. cbn in E.
  destruct (_ !! k); [|done]. injection E as <-. cbn. set_solver.
Qed.

Lemma scheduled_of m n lists fd ci :
  NoDup (concat lists) → fd ∈ concat lists → m !! fd = Some ci →
  nm_msg <$> filter (λ x, nm_fd x = fd) (concat ((λ l, turns m l n) <$> lists)) =
    take n (ui_controlMsgList (ci_uci ci)).
Proof.
  induction lists as [|l lists IH]; intros Hnd Hin Hci; [by apply not_elem_of_nil in Hin|].
  cbn [concat fmap list_fmap] in *. apply NoDup_app in Hnd as (H1 & H2 & H3).
  rewrite filter_app, fmap_app. apply elem_of_app in Hin as [Hin|Hin].
  - rewrite (turns_of m l fd n ci) by done.
    assert (∀ ls, fd ∉ concat ls → filter (λ x, nm_fd x = fd) (concat ((λ l, turns m l n) <$> ls)) = []) as ->.
    { clear. induction ls as [|l ls IH]; intros Hn; [done|]. cbn [concat fmap list_fmap] in *.
      rewrite filter_app, turns_other, IH by set_solver. done. }
    + by rewrite app_nil_r.
    + by apply H2.
  - rewrite turns_other by (intros Hl; by apply (H2 fd Hl)). by apply IH.
Qed.
End flushes.

(** C16: [ScheduleNameDelivery] terminates - its loop has no bound of its own -
    and flushes every queue: when the list and the count of the users of each
    peer agree, it hands over, peer by peer and turn by turn, one message of
    each connection that has any, in the order of the list; the messages of a
    connection come in the order of its queue, all of them and once, and
    afterwards its queue is empty.  Nothing else changes but the liveness of
    peers. *)
Theorem ScheduleNameDelivery_flushes `{Digest} {HT VT AT MT : Type} `{!Table (list Z) Z HT}
    `{!Table (list Z) CacheValue VT} `{!Table (list Z) nat AT} `{!Table ConnectionID Z MT}
    (env : UserEnv) (now : Z) (w : proxy HT VT AT MT) :
  well_listed env w →
  ∃ ps' w' out, ScheduleNameDelivery env now w = Done (w', out) ∧
    out = scheduled w (Z.to_nat (g_NumPeers (px_peers w))) ∧ w' = sched w (px_master w') ps' ∧
    (∀ fd ci, fd ∈ listed w → px_master w !! fd = Some ci →
       nm_msg <$> filter (λ x, nm_fd x = fd) out = ui_controlMsgList (ci_uci ci) ∧
       px_master w' !! fd = Some (set_uci (set_messages [] (ci_uci ci)) ci)) ∧
    ∀ fd, fd ∉ listed w → px_master w' !! fd = px_master w !! fd.
Proof.
  intros Hw. destruct (ScheduleNameDelivery_ok env now w Hw) as (ps' & He & _ & _).
  eexists ps', _, _. split; [exact He|]. split; [done|]. split; [done|]. fold (listed w).
  assert (∀ fd ci, px_master w !! fd = Some ci → (length (ui_controlMsgList (ci_uci ci)) ≤ schedule_bound w)%nat) as Hb.
  { intros fd ci Hci. pose proof (schedule_bound_above w fd) as Hq. unfold queue_length in Hq. rewrite Hci in Hq. lia. }
  split.
  - intros fd ci Hin Hci. split.
    + unfold scheduled. rewrite (scheduled_of (px_master w) _ _ fd ci (wl_nodup _ _ Hw) Hin Hci).
      apply take_ge. by eapply Hb.
    + cbn [sched px_master set_master]. rewrite pops_lookup, Hci. cbn. rewrite decide_True by done.
      unfold drop_messages. rewrite drop_ge; [done|]. by eapply Hb.
  - intros fd Hn. cbn [sched px_master set_master]. rewrite pops_lookup. destruct (px_master w !! fd); [|done]. cbn.
    by rewrite decide_False.
Qed.

(** [toy_connection] with messages that wait. *)
Definition toy_waiting (st : connectionStatus) (n : Z) (buf : list Z) (msgs : list (list Z)) : ConnectionInfo :=
  set_uci (set_messages msgs (ci_uci (toy_connection st n buf))) (toy_connection st n buf).

Lemma toy_well_listed {HT VT AT MT : Type} `{!Table (list Z) nat AT} (c : cache HT VT) (am : AT) (cm : MT) st n buf msgs nb :
  tbl_is am ∅ → Forall (λ m, m ≠ []) msgs →
  well_listed toy_user_env (toy_proxy c am cm (toy_waiting st n buf msgs) nb).
Proof.
  intros Ha Hm. split.
  - intros i Hi. change (Z.to_nat (g_NumPeers (px_peers _))) with 3%nat in Hi.
    destruct i as [|[|[|i]]]; [exists []|exists [5]|exists []|lia]; split; reflexivity.
  - change (NoDup [5]). apply NoDup_singleton.
  - change (Forall (sendable toy_user_env (toy_peers am true) (px_master (toy_proxy c am cm (toy_waiting st n buf msgs) nb))) [5]).
    constructor; [|constructor]. exists (toy_waiting st n buf msgs). split; [apply lookup_singleton_eq|]. split; [done|].
    split; [|cbn; lia|exact Hm]. exists 1%nat. split_and!; [done|cbn; lia|discriminate].
  - split; [by apply toy_peers_ok|]. vm_compute. discriminate.
Qed.

#[local] Existing Instance toy_digest.

Lemma ScheduleNameDelivery_flushes_witness :
  ∃ (c : cache (@hashtable (list Z) Z) (@hashtable (list Z) CacheValue)) (am : @hashtable (list Z) nat)
    (cm : @hashtable ConnectionID Z) w' out,
    ScheduleNameDelivery toy_user_env 0 (toy_proxy c am cm (toy_waiting cs_active 0 [] [[9]; [8]]) 0) = Done (w', out) ∧
    nm_msg <$> filter (λ x, nm_fd x = 5) out = [[9]; [8]].
Proof.
  destruct (CreateCache_ok 1000) as (c & _ & He). destruct toy_tables as (am & cm & Ha & _).
  destruct (ScheduleNameDelivery_flushes toy_user_env 0 (toy_proxy c am cm (toy_waiting cs_active 0 [] [[9]; [8]]) 0))
    as (ps & w' & out & H1 & _ & _ & H2 & _).
  - apply toy_well_listed; [exact Ha|]. repeat constructor; discriminate.
  - exists c, am, cm, w', out. split; [exact H1|].
    refine (proj1 (H2 5 (toy_waiting cs_active 0 [] [[9]; [8]]) _ _)).
    + change (5 ∈ [5]). apply list_elem_of_here.
    + apply lookup_singleton_eq.
Defined.

(** ** A closed connection with data left *)

Lemma carries_nonempty `{Digest} c buf ms : ∀ off b, carries c buf off ms b → Forall (λ m, m ≠ []) ms.
Proof.
  induction ms as [|m ms IH]; intros off b Hc; [constructor|]. destruct Hc as (cs & rb & Hm & Hc).
  constructor; [|by eapply IH]. rewrite (mo_msg _ _ _ _ _ Hm). intros E.
  pose proof (name_delivery_length c (drop (Z.to_nat off) buf) cs) as Hl. rewrite E in Hl. cbn in Hl. lia.
Qed.

(** A closed connection comes back and stops the process.  The loop over
    the connections processes what is left in the read buffer of one that is
    closed; when that fills the window, [ProcessUserData] overwrites [cs_closed]
    with [cs_block].  Once the control messages are flushed, the assertion of
    [CleanUpClosedConnections] that every connection on the list of dead ones is
    closed fails. *)
Theorem closed_connection_revives `{Digest} {HT VT AT MT : Type} `{!Table (list Z) Z HT}
    `{!Table (list Z) CacheValue VT} `{!Table (list Z) nat AT} `{!Table ConnectionID Z MT}
    (env : UserEnv) (now : Z) (w : proxy HT VT AT MT) (fd : Z) (ci : ConnectionInfo) (R : refs) :
  live w fd ci → ci_status ci = cs_closed → px_DeadConnList w = [fd] → conn_ok (ci_conn ci) →
  loop_ok env (px_gl w) ci R 0 → params_ok (ue_mrc env) → ui_numSent (ci_uci ci) ≤ HIGH →
  HIGH < ui_numSent (ci_uci ci) + Z.of_nat (length (ci_bufRead ci)) →
  0 ≤ px_NumBlocked w < px_NumUserConns w → px_NumUserConns w < 2 ^ 31 →
  well_listed env w → fd ∈ listed w →
  ∃ w1 n w2 out, ProcessReadBuffer env w fd = Done (w1, n) ∧
    ScheduleNameDelivery env now w1 = Done (w2, out) ∧
    CleanUpClosedConnections env w2 = Fault AssertFailed.
Proof.
  intros Hl Hst Hdead Hc Hok Hg Hhigh Hfull Hnb HNU Hw Hin.
  destruct (ProcessUserData_ok env w fd ci false R Hl) as (gl' & nb' & ci' & n & ms & R' & He & [K1 K2 K3 K4 K5 K6 K7 K8]);
    try done; [by rewrite Hst|by rewrite Hst|].
  assert (ci_status ci' = cs_block ∧ 0 < n) as [Hst' Hn].
  { destruct K8 as [(H1 & _ & H2)|(_ & _ & H2 & [H3|[H3 _]])]; [split; [done|lia]|lia|by rewrite Hst in H3]. }
  set (ci1 := set_bufRead (drop (Z.to_nat n) (ci_bufRead ci')) ci').
  set (w1 := put_ci ci1 (put_ci ci' (set_blocked nb' (set_globals gl' w)))).
  assert (ci_fd ci' = fd) as Hfd by (rewrite (us_same_fd _ _ K2); exact (lv_fd _ _ _ Hl)).
  assert (ProcessReadBuffer env w fd = Done (w1, n)) as Hread.
  { unfold ProcessReadBuffer. rewrite He. cbn [mbind outcome_bind].
    rewrite (proj2 (Z.eqb_neq n (-1))), (proj2 (Z.eqb_neq n 0)) by lia.
    rewrite <-Hfd, (get_ci_live _ _ _ (live_put _ ci')). cbn [mbind outcome_bind]. unfold AdjustReadBuffer.
    rewrite (proj2 (Z.leb_le 0 n)) by lia. cbn [c_assert mbind outcome_bind].
    rewrite (proj2 (Z.ltb_ge _ _)); [done|]. rewrite (us_same_buf _ _ K2). lia. }
  assert (well_listed env w1) as Hw1.
  { destruct Hw as [W1 W2 W3 W4]. split; [done|done| |done].
    eapply Forall_impl; [exact W3|]. intros x (cx & Hx & Hxfd & Hcan). cbn [px_peers px_master w1 put_ci set_master set_blocked set_globals] in *.
    unfold sendable. destruct (decide (x = fd)) as [->|Hne].
    - exists ci1. cbn [ci_fd ci1 set_bufRead]. rewrite Hfd, lookup_insert_eq. split_and!; [done|done|].
      assert (cx = ci) as -> by (destruct Hl as [Hl _]; congruence).
      destruct Hcan as [C1 C2 C3]. split; cbn [ci_uci ci1 set_bufRead];
        rewrite ?(us_same_recv _ _ K2), ?(us_same_flow _ _ K2), ?K4; [done|done|].
      apply Forall_app. split; [done|]. by eapply carries_nonempty.
    - exists cx. cbn [ci_fd ci1 set_bufRead]. rewrite Hfd, !lookup_insert_ne by done. done. }
  destruct (ScheduleNameDelivery_ok env now w1 Hw1) as (ps' & Hs & _ & _).
  eexists w1, n, _, _. split; [exact Hread|]. split; [exact Hs|].
  assert (px_master w1 !! fd = Some ci1) as Hm1.
  { cbn. rewrite Hfd. apply lookup_insert_eq. }
  apply (CleanUp_not_closed env _ fd (set_uci (set_messages [] (ci_uci ci1)) ci1)); [|done|cbn; by rewrite Hst'|done].
  split; [|done]. cbn [sched px_master set_master]. rewrite pops_lookup, Hm1. cbn [fmap option_fmap option_map].
  change (concat _) with (listed w). rewrite decide_True by done. unfold drop_messages. rewrite drop_ge; [done|].
  pose proof (schedule_bound_above w1 fd) as Hq. unfold queue_length in Hq. rewrite Hm1 in Hq. lia.
Qed.

Lemma closed_connection_revives_witness :
  ∃ (c : cache (@hashtable (list Z) Z) (@hashtable (list Z) CacheValue)) (am : @hashtable (list Z) nat)
    (cm : @hashtable ConnectionID Z) w1 n w2 out,
    ProcessReadBuffer toy_user_env
      (set_dead_list [5] 1 (toy_proxy c am cm (toy_waiting cs_closed HIGH short_src []) 0)) 5 = Done (w1, n) ∧
    ScheduleNameDelivery toy_user_env 0 w1 = Done (w2, out) ∧
    CleanUpClosedConnections toy_user_env w2 = Fault AssertFailed.
Proof.
  destruct (CreateCache_ok 1000) as (c & _ & He). destruct toy_tables as (am & cm & Ha & _).
  assert (length short_src = 40%nat) as Hlen by reflexivity. exists c, am, cm.
  apply (closed_connection_revives toy_user_env 0 _ 5 (toy_connection cs_closed HIGH short_src) ∅).
  - split; [apply lookup_singleton_eq|reflexivity].
  - reflexivity.
  - reflexivity.
  - unfold conn_ok. cbn. lia.
  - apply toy_loop_ok; [exact He|unfold HIGH; lia|discriminate].
  - exact toy_params_ok.
  - cbn. lia.
  - cbn [toy_connection ci_bufRead ci_uci ui_numSent]. rewrite Hlen. lia.
  - cbn. lia.
  - cbn. lia.
  - destruct (toy_well_listed c am cm cs_closed HIGH short_src [] 0 Ha) as [W1 W2 W3 W4]; [constructor|].
    split; [exact W1|exact W2|exact W3|exact W4].
  - change (5 ∈ [5]). apply list_elem_of_here.
Defined.
