(* ===== verification/Stream.v ===== *)
(** * The flow of control messages between proxies

    [ProcessControlData], [EventReadCB], [ProcessReadBuffer] and
    [CloseConnection] of [src/waprox/waprox.c] for a control connection: the
    bytes that [read] returns, however they are cut, are handled as the messages
    the other proxy wrote, as long as each fits the read buffer; a longer one
    is lost with its connection.  The handlers are those of [Connection]. *)

From Stdlib Require Import ZArith Lia SpecFloat.
From stdpp Require Import base list option numbers sets gmap.
From S2P Require Import Prelude Bytes Rabin Mrc MrcLevels MrcTree MrcResolve MrcCandidates MrcTheorems.
From S2P Require Import Protocol Hashtable ChunkCache Sender Hrw Peer Reassemble Receiver Ils Connection.
From S2P Require Import ConnectionTheorems.

(** [1.1] as the compiler reads it, and [RECV_BUFSIZE], a double. *)
Definition double_1_1 : spec_float := S754_finite false 4953959590107546 (-52).
Definition RECV_BUFSIZE : spec_float := double_mul (double_of_int MIN_RABIN_BUFSIZE) double_1_1.

(** [RECV_BUFSIZE - lenRead], in units of the last digit of [RECV_BUFSIZE]: the
    difference of a double and a smaller integer is exact. *)
Definition recv_unit : Z := match RECV_BUFSIZE with S754_finite _ _ e => 2 ^ (- e) | _ => 1 end.
Definition recv_left (lenRead : Z) : Z :=
  match RECV_BUFSIZE with S754_finite false m _ => Zpos m - lenRead * recv_unit | _ => 0 end.
(** The count [read] gets. *)
Definition recv_room (lenRead : Z) : Z := Z.quot (recv_left lenRead) recv_unit.

(** The connection to another proxy. *)
Record PeerConnection := {
  pc_fd : Z;
  pc_peerIdx : Z;
  pc_status : connectionStatus;
  pc_isAbnormal : bool;
  pc_bufRead : list Z
}.
Definition set_pc (s : connectionStatus) (abnormal : bool) (buf : list Z) (pc : PeerConnection) : PeerConnection :=
  {| pc_fd := pc_fd pc; pc_peerIdx := pc_peerIdx pc; pc_status := s; pc_isAbnormal := abnormal; pc_bufRead := buf |}.

Section stream.
Context `{Digest} {HT VT AT MT : Type} `{!Table (list Z) Z HT} `{!Table (list Z) CacheValue VT}
  `{!Table (list Z) nat AT} `{!Table ConnectionID Z MT}.
(** [connect] is what [MakeConnection] returns for a connection. *)
Context (env : UserEnv) (connect : ConnectionID → Z).
#[local] Abbreviation proxy := (proxy HT VT AT MT).

Definition handle_control (w : proxy) (peerIdx msgType : Z) (buffer : list Z) : outcome (proxy * Z) :=
  if msgType =? TYPE_WAOPENCONNECTION then
    c ← read_connID buffer;
    ProcessOpenConnection env w peerIdx (connect c) buffer
  else if msgType =? TYPE_WANAMEDELIVERY then ProcessNameTreeDelivery2 env w buffer
  else if msgType =? TYPE_WANAMEACK then ProcessNameAck env w buffer
  else if msgType =? TYPE_WACLOSECONNECTION then ProcessCloseConnection env w buffer
  else if msgType =? TYPE_WARAWMESSAGE then ProcessRawMessage env w buffer
  else Fault AssertFailed.

(** The loop; [num] is [num_processed]. *)
Fixpoint control_loop (fuel : nat) (w : proxy) (peerIdx : Z) (buffer : list Z) (num : Z) : outcome (proxy * Z) :=
  if (length buffer =? 0)%nat then Done (w, num)
  else
    match fuel with
    | O => Fault OutOfFuel
    | S fuel =>
        '(hdr, msgType) ← VerifyControlHeader buffer;
        if hdr =? 0 then Done (w, num)
        else if hdr =? -1 then Done (w, -1)
        else
          match msgType with
          | None => Fault AssertFailed
          | Some t =>
              '(w, one_process) ← handle_control w peerIdx t buffer;
              if one_process =? 0 then Done (w, num)
              else if one_process =? -1 then Done (w, -1)
              else if one_process <? 0 then Fault OutOfBounds
              else control_loop fuel w peerIdx (drop (Z.to_nat one_process) buffer) (num + one_process)
          end
    end.

Definition ProcessControlData (w : proxy) (pc : PeerConnection) (buffer : list Z) : outcome (proxy * Z) :=
  control_loop (S (length buffer)) w (pc_peerIdx pc) buffer 0.

(** [SetDead] of a control connection. *)
Definition SetDeadPeer (w : proxy) (pc : PeerConnection) (abnormal : bool) : outcome (proxy * PeerConnection) :=
  if decide (pc_status pc = cs_closed) then Done (w, pc)
  else
    let n := px_NumDeadConns w + 1 in
    _ ← c_assert (n <? MAX_NUM_CI);
    Done (set_dead_list (px_DeadConnList w ++ [pc_fd pc]) n w, set_pc cs_closed abnormal (pc_bufRead pc) pc).

Definition ClosePeerConnection (w : proxy) (pc : PeerConnection) : outcome (proxy * PeerConnection) :=
  if decide (pc_status pc = cs_closed) then Done (w, pc)
  else
    let pc := set_pc cs_done (pc_isAbnormal pc) (pc_bufRead pc) pc in
    '(w, _) ← ProcessControlData w pc (pc_bufRead pc);
    SetDeadPeer w pc false.

(** [read] returned [data]; its error is not modelled. *)
Definition EventReadCB (w : proxy) (pc : PeerConnection) (data : list Z) : outcome (proxy * PeerConnection) :=
  _ ← c_assert (0 <? recv_left (Z.of_nat (length (pc_bufRead pc))));
  match data with
  | [] => ClosePeerConnection w pc
  | _ => Done (w, set_pc (pc_status pc) (pc_isAbnormal pc) (pc_bufRead pc ++ data) pc)
  end.

Definition ProcessPeerReadBuffer (w : proxy) (pc : PeerConnection) : outcome (proxy * PeerConnection) :=
  '(w, num) ← ProcessControlData w pc (pc_bufRead pc);
  if num =? -1 then SetDeadPeer w pc true
  else if num =? 0 then Done (w, pc)
  else
    _ ← c_assert (0 <? num);
    if Z.of_nat (length (pc_bufRead pc)) <? num then Fault OutOfBounds
    else Done (w, set_pc (pc_status pc) (pc_isAbnormal pc) (drop (Z.to_nat num) (pc_bufRead pc)) pc).

(** What [ProcessReadWrite] does with a connection that can be read. *)
Definition read_turn (w : proxy) (pc : PeerConnection) (data : list Z) : outcome (proxy * PeerConnection) :=
  '(w, pc) ← EventReadCB w pc data;
  if bool_decide (pc_status pc ≠ cs_block) && (0 <? length (pc_bufRead pc))%nat
  then ProcessPeerReadBuffer w pc else Done (w, pc).

(** The turns of a connection on which [wire] arrives.  [AddCIEvents] waits for
    it while it is active; each [read] returns at least one byte and at most as
    many as it is asked for, and [k] says how many are there: [ks] is how the
    network cuts the bytes. *)
Fixpoint read_turns (w : proxy) (pc : PeerConnection) (wire : list Z) (ks : list nat)
    : outcome (proxy * PeerConnection * list Z) :=
  match ks with
  | [] => Done (w, pc, wire)
  | k :: ks =>
      if (length wire =? 0)%nat || negb (bool_decide (pc_status pc = cs_active)) then Done (w, pc, wire)
      else
        let n := (k `min` Z.to_nat (recv_room (Z.of_nat (length (pc_bufRead pc)))))%nat in
        '(w, pc) ← read_turn w pc (take n wire);
        read_turns w pc (drop n wire) ks
  end.
End stream.

(** ** The handlers do not look past their message *)

Class ReadsWithin {A} (f : list Z → outcome A) : Prop :=
  reads_within : ∀ b r x, f b = Done x → f (b ++ r) = Done x.

Lemma within_const {A} (x : outcome A) : ReadsWithin (λ _, x).
Proof. by intros b r y. Qed.

Lemma within_load off n : ReadsWithin (λ b, load b off n).
Proof.
  intros b r x. unfold load. destruct (Nat.leb_spec (off + n) (length b)); [|done].
  intros [= <-]. rewrite (proj2 (Nat.leb_le _ _)) by (rewrite length_app; lia). by rewrite slice_app_l by lia.
Qed.

Lemma within_bind {A B} (f : list Z → outcome A) (g : A → list Z → outcome B) :
  ReadsWithin f → (∀ x, ReadsWithin (g x)) → ReadsWithin (λ b, x ← f b; g x b).
Proof.
  intros Hf Hg b r y. destruct (f b) as [x|] eqn:E; [|done]. rewrite (Hf b r x E). cbn. apply Hg.
Qed.

Lemma within_long z : ReadsWithin (λ b, c_assert (z <=? Z.of_nat (length b))).
Proof.
  intros b r x. destruct (Z.leb_spec z (Z.of_nat (length b))); [|done].
  intros [= <-]. by rewrite (proj2 (Z.leb_le _ _)) by (rewrite length_app; lia).
Qed.

Lemma within_load_u8 off : ReadsWithin (λ b, load_u8 b off).
Proof. apply (within_bind (λ b, load b off 1)); [apply within_load|]. intros. apply within_const. Qed.
Lemma within_ntohs_at off : ReadsWithin (λ b, ntohs_at b off).
Proof. apply (within_bind (λ b, load b off 2)); [apply within_load|]. intros. apply within_const. Qed.
Lemma within_ntohl_at off : ReadsWithin (λ b, ntohl_at b off).
Proof. apply (within_bind (λ b, load b off 4)); [apply within_load|]. intros. apply within_const. Qed.

Create HintDb within.
#[local] Hint Resolve within_const within_load within_load_u8 within_ntohs_at within_ntohl_at within_long : within.

(** Goes through a handler; a case that does not depend on the buffer is
    analysed. *)
Ltac within :=
  cbv zeta;
  lazymatch goal with
  | |- ReadsWithin (λ b, mbind _ _) => eapply within_bind; [within|let x := fresh "x" in intros x; cbv beta; within]
  | |- ReadsWithin (λ b, match ?x with _ => _ end) => destruct x; within
  | |- ReadsWithin _ => auto with within
  end.

Lemma within_read_connID : ReadsWithin read_connID.
Proof. unfold read_connID. within. Qed.
#[local] Hint Resolve within_read_connID : within.

Lemma within_read_chunk `{Digest} off : ReadsWithin (λ b, read_chunk b off).
Proof. unfold read_chunk. within. Qed.
#[local] Hint Resolve within_read_chunk : within.

Lemma within_read_names `{Digest} {S} (f : S → WAOneChunk → outcome S) s off n :
  ReadsWithin (λ b, read_names f s b off n).
Proof.
  unfold read_names. revert s off. generalize (seq 0 n).
  induction l as [|i l IH]; intros s off; cbn [foldM]; [within|].
  eapply within_bind; [within|]. intros [s' off']. apply IH.
Qed.
#[local] Hint Resolve within_read_names : within.

Lemma within_read_name_delivery `{Digest} {S} (f : S → WAOneChunk → outcome S) s :
  ReadsWithin (read_name_delivery f s).
Proof. unfold read_name_delivery. within. Qed.
#[local] Hint Resolve within_read_name_delivery : within.

Section handlers.
Context `{Digest} {HT VT AT MT : Type} `{!Table (list Z) Z HT} `{!Table (list Z) CacheValue VT}
  `{!Table (list Z) nat AT} `{!Table ConnectionID Z MT}.
Context (env : UserEnv) (connect : ConnectionID → Z).
#[local] Abbreviation proxy := (proxy HT VT AT MT).

Lemma within_deliver_names rotl (c : cache HT VT) (ps : peers AT) rs : ReadsWithin (deliver_names rotl c ps rs).
Proof. unfold deliver_names. destruct (CreateNewReassembleInfo rs (rs_seq_no rs)) as [rs' p]. within. Qed.
#[local] Hint Resolve within_deliver_names : within.

Lemma within_handlers (w : proxy) peerIdx newfd :
  ReadsWithin (ProcessOpenConnection env w peerIdx newfd) ∧ ReadsWithin (ProcessNameTreeDelivery2 env w) ∧
  ReadsWithin (ProcessNameAck env w) ∧ ReadsWithin (ProcessCloseConnection env w) ∧ ReadsWithin (ProcessRawMessage env w).
Proof.
  unfold ProcessOpenConnection, ProcessNameTreeDelivery2, ProcessNameAck, ProcessCloseConnection, ProcessRawMessage.
  split_and!; within.
Qed.

Lemma within_handle (w : proxy) peerIdx t : ReadsWithin (handle_control env connect w peerIdx t).
Proof.
  assert (ReadsWithin (λ b, c ← read_connID b; ProcessOpenConnection env w peerIdx (connect c) b)) as Ho.
  { eapply within_bind; [apply within_read_connID|]. intros c. apply (within_handlers w peerIdx (connect c)). }
  destruct (within_handlers w peerIdx 0) as (_ & H2 & H3 & H4 & H5). unfold handle_control.
  repeat (destruct (_ =? _); [assumption|]). apply within_const.
Qed.
End handlers.

(** ** The room in the buffer *)

(** The capacity in whole bytes; [RECV_BUFSIZE] is eight tenths more. *)
Definition ROOM : Z := 216268.

Lemma recv_room_ok n : 0 ≤ n ≤ ROOM → 0 < recv_left n ∧ recv_room n = ROOM - n.
Proof.
  intros Hn. unfold ROOM in *. unfold recv_room.
  assert (recv_left n = 216268 * 2 ^ 35 + 27487790695 - n * 2 ^ 35) as -> by reflexivity.
  change recv_unit with (2 ^ 35). split; [lia|]. rewrite Z.quot_div_nonneg by lia.
  symmetry. apply (Z.div_unique _ _ _ 27487790695); lia.
Qed.

(** ** The messages of a flow *)

Section flow.
Context `{Digest} {HT VT AT MT : Type} `{!Table (list Z) Z HT} `{!Table (list Z) CacheValue VT}
  `{!Table (list Z) nat AT} `{!Table ConnectionID Z MT}.
Context (env : UserEnv) (connect : ConnectionID → Z).
#[local] Abbreviation proxy := (proxy HT VT AT MT).

(** The messages [ms], one by one and whole, take the proxy from [w] to [w']. *)
Fixpoint accepted (w : proxy) (peerIdx : Z) (ms : list (list Z)) (w' : proxy) : Prop :=
  match ms with
  | [] => w = w'
  | m :: ms' => ∃ t w1, m ≠ [] ∧ framed VerifyControlHeader t m ∧
      handle_control env connect w peerIdx t m = Done (w1, Z.of_nat (length m)) ∧ accepted w1 peerIdx ms' w'
  end.

Lemma wait_step fuel (w : proxy) idx t m j num :
  framed VerifyControlHeader t m → (j < length m)%nat →
  control_loop env connect (S fuel) w idx (take j m) num = Done (w, num).
Proof.
  intros [Hw _] Hj. cbn [control_loop]. destruct (Nat.eqb_spec (length (take j m)) 0); [done|].
  by rewrite (Hw j Hj).
Qed.

Lemma message_step fuel (w w1 : proxy) idx t m b num :
  framed VerifyControlHeader t m → m ≠ [] → handle_control env connect w idx t m = Done (w1, Z.of_nat (length m)) →
  control_loop env connect (S fuel) w idx (m ++ b) num =
    control_loop env connect fuel w1 idx b (num + Z.of_nat (length m)).
Proof.
  intros [_ Hf] Hne Hh. assert (0 < length m)%nat by (destruct m; [done|cbn; lia]). cbn [control_loop].
  rewrite (proj2 (Nat.eqb_neq _ 0)) by (rewrite length_app; lia). rewrite Hf. cbn [mbind outcome_bind].
  change (1 =? 0) with false. change (1 =? -1) with false. cbv iota.
  rewrite (within_handle env connect w idx t m b _ Hh). cbn [mbind outcome_bind].
  rewrite (proj2 (Z.eqb_neq _ 0)), (proj2 (Z.eqb_neq _ (-1))), (proj2 (Z.ltb_ge _ 0)) by lia.
  by rewrite Nat2Z.id, drop_app_length.
Qed.

(** The place the handling of the first [j] bytes reaches: [d] bytes are
    processed, [rest] begins with the message that is not whole. *)
Definition inside (rest : list (list Z)) (j : nat) : Prop :=
  match rest with [] => j = 0%nat | m :: _ => (j < length m)%nat end.

Lemma control_prefix idx ms w' : ∀ (w : proxy) j num fuel,
  accepted w idx ms w' → (j ≤ length (concat ms))%nat → (j < fuel)%nat →
  ∃ w1 d rest, control_loop env connect fuel w idx (take j (concat ms)) num = Done (w1, num + Z.of_nat d) ∧
    (d ≤ j)%nat ∧ drop d (concat ms) = concat rest ∧ accepted w1 idx rest w' ∧ inside rest (j - d) ∧
    ∃ ms1, ms = ms1 ++ rest.
Proof.
  induction ms as [|m ms IH]; intros w j num fuel Ha Hj Hfuel.
  { exists w, 0%nat, []. cbn in Hj. assert (j = 0%nat) as -> by lia. destruct fuel; [lia|].
    cbn. rewrite Z.add_0_r. split_and!; try done. by exists []. }
  destruct Ha as (t & w1 & Hne & Hf & Hh & Ha). cbn [concat] in *. rewrite length_app in Hj.
  destruct fuel as [|fuel]; [lia|]. destruct (decide (j < length m)%nat) as [Hlt|Hge].
  - exists w, 0%nat, (m :: ms). rewrite take_app_le, (wait_step fuel w idx t) by (done || lia). rewrite Z.add_0_r.
    split_and!; [done|lia|done|by exists t, w1|cbn; lia|by exists []].
  - assert (take j (m ++ concat ms) = m ++ take (j - length m) (concat ms)) as ->
      by (rewrite take_app, (take_ge m) by lia; done).
    rewrite (message_step fuel w w1 idx t) by done.
    assert (0 < length m)%nat by (destruct m; [done|cbn; lia]).
    destruct (IH w1 (j - length m)%nat (num + Z.of_nat (length m)) fuel Ha) as
      (w2 & d & rest & He & Hd & Hdrop & Hr & Hin & ms1 & ->); [lia|lia|].
    exists w2, (length m + d)%nat, rest. rewrite He. split_and!; [do 2 f_equal; lia|lia| |done| |by exists (m :: ms1)].
    + by rewrite drop_app_add.
    + by replace (j - (length m + d))%nat with (j - length m - d)%nat by lia.
Qed.

(** What is in the read buffer is handled as far as it goes. *)
Lemma process_turn (w w' : proxy) pc ms j :
  accepted w (pc_peerIdx pc) ms w' → (j ≤ length (concat ms))%nat → pc_bufRead pc = take j (concat ms) →
  ∃ w1 d rest, ProcessPeerReadBuffer env connect w pc =
      Done (w1, set_pc (pc_status pc) (pc_isAbnormal pc) (take (j - d) (concat rest)) pc) ∧
    (d ≤ j)%nat ∧ drop d (concat ms) = concat rest ∧ accepted w1 (pc_peerIdx pc) rest w' ∧ inside rest (j - d) ∧
    ∃ ms1, ms = ms1 ++ rest.
Proof.
  intros Ha Hj Hb. unfold ProcessPeerReadBuffer, ProcessControlData. rewrite Hb.
  destruct (control_prefix (pc_peerIdx pc) ms w' w j 0 (S (length (take j (concat ms)))) Ha Hj) as
    (w1 & d & rest & He & Hd & Hdrop & Hr & Hin & Hex); [rewrite length_take; lia|].
  rewrite He, Z.add_0_l. cbn [mbind outcome_bind]. exists w1, d, rest. split_and!; try done.
  rewrite (proj2 (Z.eqb_neq (Z.of_nat d) (-1))) by lia. destruct (Z.eqb_spec (Z.of_nat d) 0) as [E|E].
  - assert (d = 0%nat) as -> by lia. rewrite drop_0 in Hdrop. rewrite Nat.sub_0_r, <-Hdrop, <-Hb. by destruct pc.
  - rewrite (proj2 (Z.ltb_lt 0 _)) by lia. cbn [c_assert mbind outcome_bind].
    rewrite (proj2 (Z.ltb_ge _ _)) by (rewrite length_take; lia). do 3 f_equal.
    rewrite Nat2Z.id, <-Hdrop. replace (take (j - d) (drop d (concat ms))) with (drop d (take j (concat ms))); [done|].
    by rewrite skipn_firstn_comm.
Qed.

Lemma read_turns_ok (w' : proxy) ks : ∀ (w : proxy) pc ms j,
  pc_status pc = cs_active → accepted w (pc_peerIdx pc) ms w' → (j ≤ length (concat ms))%nat → inside ms j →
  pc_bufRead pc = take j (concat ms) → Forall (λ m, Z.of_nat (length m) ≤ ROOM) ms →
  Forall (λ k, (0 < k)%nat) ks → (length (concat ms) - j ≤ length ks)%nat →
  read_turns env connect w pc (drop j (concat ms)) ks =
    Done (w', set_pc (pc_status pc) (pc_isAbnormal pc) [] pc, []).
Proof.
  assert (∀ (w : proxy) pc ms j, accepted w (pc_peerIdx pc) ms w' → inside ms j → (length (concat ms) ≤ j)%nat →
    pc_bufRead pc = take j (concat ms) → ms = [] ∧ w = w' ∧ pc = set_pc (pc_status pc) (pc_isAbnormal pc) [] pc) as Hend.
  { intros w pc [|m ms] j Ha Hin Hj Hb; cbn in Hb.
    - rewrite take_nil in Hb. split; [done|]. split; [done|]. destruct pc. cbn in *. by subst.
    - cbn in Hin, Hj. rewrite length_app in Hj. lia. }
  induction ks as [|k ks IH]; intros w pc ms j Hst Ha Hj Hin Hb Hsz Hks Hlen; cbn [read_turns length] in *.
  { destruct (Hend w pc ms j Ha Hin ltac:(lia) Hb) as (-> & -> & <-). cbn [concat]. by rewrite drop_nil. }
  apply Forall_cons_1 in Hks as [Hk Hks].
  destruct (Nat.eqb_spec (length (drop j (concat ms))) 0) as [E|E]; cbn [orb].
  { rewrite length_drop in E. destruct (Hend w pc ms j Ha Hin ltac:(lia) Hb) as (-> & -> & <-). cbn [concat]. by rewrite drop_nil. }
  rewrite bool_decide_eq_true_2 by done. cbn [negb]. rewrite length_drop in E.
  assert (Z.of_nat (length (pc_bufRead pc)) = Z.of_nat j) as Hbl by (rewrite Hb, length_take; lia).
  assert (0 ≤ Z.of_nat j < ROOM) as Hroom.
  { destruct ms as [|m ms]; cbn in Hin, E; [lia|]. apply Forall_cons_1 in Hsz as [Hm _]. lia. }
  destruct (recv_room_ok (Z.of_nat j)) as [Hleft Hr]; [lia|]. rewrite Hbl, Hr.
  set (n := (k `min` Z.to_nat (ROOM - Z.of_nat j))%nat). assert (0 < n)%nat as Hn by (subst n; lia).
  assert (take n (drop j (concat ms)) ≠ []) as Hd.
  { intros E0. apply (f_equal length) in E0. rewrite length_take, length_drop in E0. cbn in E0. lia. }
  unfold read_turn, EventReadCB. rewrite Hbl, (proj2 (Z.ltb_lt _ _)) by done. cbn [c_assert mbind outcome_bind].
  destruct (take n (drop j (concat ms))) as [|x data] eqn:Edata; [done|]. rewrite <-Edata. cbn [mbind outcome_bind].
  rewrite Hb. assert (take j (concat ms) ++ take n (drop j (concat ms)) = take (j + n) (concat ms)) as ->
    by (by rewrite take_take_drop).
  set (pc1 := set_pc (pc_status pc) (pc_isAbnormal pc) (take (j + n) (concat ms)) pc).
  cbn [pc1 set_pc pc_status pc_bufRead]. rewrite Hst, bool_decide_eq_true_2 by done.
  rewrite (proj2 (Nat.ltb_lt 0 _)) by (rewrite length_take; lia). cbn [andb].
  set (j2 := ((j + n) `min` length (concat ms))%nat).
  assert (take (j + n) (concat ms) = take j2 (concat ms)) as Ej2.
  { subst j2. destruct (Nat.min_spec (j + n) (length (concat ms))) as [[_ ->]|[? ->]]; [done|].
    by rewrite !take_ge by lia. }
  destruct (process_turn w w' pc1 ms j2 Ha) as (w1 & d & rest & He & Hdj & Hdrop & Hr1 & Hin1 & ms1 & Hms); [lia|done|].
  rewrite He. cbn [mbind outcome_bind].
  assert (drop n (drop j (concat ms)) = drop (j2 - d) (concat rest)) as ->.
  { rewrite <-Hdrop, !drop_drop. subst j2. destruct (Nat.min_spec (j + n) (length (concat ms))) as [[? ->]|[? ->]].
    - f_equal. lia.
    - rewrite !drop_ge; [done|lia|lia]. }
  assert (length (concat rest) = length (concat ms) - d)%nat as Hrest by (rewrite <-Hdrop; apply length_drop).
  rewrite (IH w1 _ rest (j2 - d)%nat); try done.
  - cbn. by rewrite Hst.
  - lia.
  - rewrite Hms in Hsz. by apply Forall_app in Hsz as [_ ?].
  - lia.
Qed.
Lemma any_segmentation (w w' : proxy) pc ms ks :
  pc_status pc = cs_active → pc_bufRead pc = [] → accepted w (pc_peerIdx pc) ms w' →
  Forall (λ m, Z.of_nat (length m) ≤ ROOM) ms → Forall (λ k, (0 < k)%nat) ks → (length (concat ms) ≤ length ks)%nat →
  read_turns env connect w pc (concat ms) ks = Done (w', pc, []).
Proof.
  intros Hst Hb Ha Hsz Hks Hlen.
  pose proof (read_turns_ok w' ks w pc ms 0 Hst Ha) as Hr. rewrite drop_0 in Hr. rewrite Hr; try done.
  - do 3 f_equal. destruct pc. cbn in *. by subst.
  - lia.
  - destruct ms as [|m ms]; [done|]. destruct Ha as (t & w1 & Hne & _). by destruct m; [|cbn; lia].
  - lia.
Qed.

(** ** A message that does not fit *)

Definition dead_peer (w : proxy) (pc : PeerConnection) : proxy :=
  set_dead_list (px_DeadConnList w ++ [pc_fd pc]) (px_NumDeadConns w + 1) w.

Lemma wait_turn (w : proxy) pc t m j :
  framed VerifyControlHeader t m → (j < length m)%nat → pc_bufRead pc = take j m →
  ProcessPeerReadBuffer env connect w pc = Done (w, pc) ∧
  ProcessControlData env connect w pc (take j m) = Done (w, 0).
Proof.
  intros Hf Hj Hb. assert (ProcessControlData env connect w pc (take j m) = Done (w, 0)) as Hp.
  { unfold ProcessControlData. by rewrite (wait_step _ _ _ t) by done. }
  split; [|done]. unfold ProcessPeerReadBuffer. by rewrite Hb, Hp.
Qed.

Lemma long_message_turns (w : proxy) pc t m rest ks : ∀ j,
  framed VerifyControlHeader t m → ROOM < Z.of_nat (length m) → px_NumDeadConns w + 1 < MAX_NUM_CI →
  pc_status pc = cs_active → Z.of_nat j ≤ ROOM → Forall (λ k, (0 < k)%nat) ks →
  ROOM - Z.of_nat j < Z.of_nat (length ks) →
  read_turns env connect w (set_pc cs_active (pc_isAbnormal pc) (take j m) pc) (drop j (m ++ rest)) ks =
    Done (dead_peer w pc, set_pc cs_closed false (take (Z.to_nat ROOM) m) pc, drop (Z.to_nat ROOM) (m ++ rest)).
Proof.
  assert (0 < ROOM) as HR by (unfold ROOM; lia).
  induction ks as [|k ks IH]; intros j Hf Hm Hdead Hst Hj Hks Hlen; cbn [read_turns length] in *; [lia|].
  apply Forall_cons_1 in Hks as [Hk Hks]. cbn [set_pc pc_status pc_bufRead].
  rewrite (proj2 (Nat.eqb_neq _ 0)) by (rewrite length_drop, length_app; lia).
  rewrite bool_decide_eq_true_2 by done. cbn [negb orb].
  assert (Z.of_nat (length (take j m)) = Z.of_nat j) as Hbl by (rewrite length_take; lia).
  destruct (recv_room_ok (Z.of_nat j)) as [Hleft Hr]; [lia|]. rewrite Hbl, Hr.
  set (n := (k `min` Z.to_nat (ROOM - Z.of_nat j))%nat).
  assert (take n (drop j (m ++ rest)) = take n (drop j m)) as Etake.
  { rewrite drop_app_le by lia. apply take_app_le. rewrite length_drop. lia. }
  rewrite Etake. unfold read_turn, EventReadCB. cbn [set_pc pc_bufRead pc_status pc_isAbnormal].
  rewrite Hbl, (proj2 (Z.ltb_lt _ _)) by done. cbn [c_assert mbind outcome_bind].
  destruct (decide (n = 0%nat)) as [En|En].
  - (* the buffer is full *)
    assert (j = Z.to_nat ROOM) as -> by lia. rewrite En, take_0, drop_0.
    destruct (wait_turn w (set_pc cs_done (pc_isAbnormal pc) (take (Z.to_nat ROOM) m) pc) t m (Z.to_nat ROOM))
      as [_ Hp]; [done|lia|done|].
    unfold ClosePeerConnection. cbn [set_pc pc_status pc_bufRead pc_isAbnormal]. rewrite decide_False by done.
    change (set_pc cs_done _ _ (set_pc cs_active _ _ pc)) with (set_pc cs_done (pc_isAbnormal pc) (take (Z.to_nat ROOM) m) pc).
    rewrite Hp. cbn [mbind outcome_bind]. unfold SetDeadPeer. cbn [set_pc pc_status pc_fd pc_bufRead].
    rewrite decide_False by done. rewrite (proj2 (Z.ltb_lt _ _)) by done. cbn [c_assert mbind outcome_bind].
    cbn [pc_status pc_bufRead set_pc]. rewrite (bool_decide_eq_true_2 (cs_closed ≠ cs_block)) by done.
    rewrite (proj2 (Nat.ltb_lt 0 _)) by (rewrite length_take; lia). cbn [andb].
    fold (dead_peer w pc).
    destruct (wait_turn (dead_peer w pc) (set_pc cs_closed false (take (Z.to_nat ROOM) m) pc) t m (Z.to_nat ROOM))
      as [Hw _]; [done|lia|done|].
    match goal with |- context [ProcessPeerReadBuffer env connect _ ?pc'] =>
      change pc' with (set_pc cs_closed false (take (Z.to_nat ROOM) m) pc) end.
    rewrite Hw. cbn [mbind outcome_bind]. destruct ks as [|k' ks]; [done|]. cbn [read_turns set_pc pc_status].
    by rewrite orb_true_r.
  - assert (0 < length (take n (drop j m)))%nat as Hpos by (rewrite length_take, length_drop; lia).
    destruct (take n (drop j m)) as [|x data] eqn:Edata; [cbn in Hpos; lia|]. rewrite <-Edata.
    cbn [mbind outcome_bind set_pc pc_status pc_bufRead]. rewrite (bool_decide_eq_true_2 (cs_active ≠ cs_block)) by done.
    rewrite take_take_drop. rewrite (proj2 (Nat.ltb_lt 0 (length (take (j + n) m)))) by (rewrite length_take; lia). cbn [andb].
    match goal with |- context [ProcessPeerReadBuffer env connect _ ?pc'] =>
      change pc' with (set_pc cs_active (pc_isAbnormal pc) (take (j + n) m) pc) end.
    destruct (wait_turn w (set_pc cs_active (pc_isAbnormal pc) (take (j + n) m) pc) t m (j + n)%nat)
      as [Hw _]; [done|lia|done|].
    rewrite Hw. cbn [mbind outcome_bind]. rewrite drop_drop. apply IH; try done; lia.
Qed.
End flow.

(** ** Theorems *)

(** C17: the network may cut the flow of control messages as it likes.  For a
    flow of messages that are framed, are handled one by one without a fault and
    fit the read buffer, any sequence of reads of at least one byte each -
    single bytes, or pieces that end inside a header and begin inside another
    message - leads to the same state as handling the messages one by one:
    everything is read, nothing is left in the buffer, and the connection stays
    active.  In particular no [read] is asked for 0 bytes, whose result would be
    taken for the end of the stream. *)
Theorem control_flow_any_segmentation `{Digest} {HT VT AT MT : Type} `{!Table (list Z) Z HT}
    `{!Table (list Z) CacheValue VT} `{!Table (list Z) nat AT} `{!Table ConnectionID Z MT}
    (env : UserEnv) (connect : ConnectionID → Z) (w w' : proxy HT VT AT MT) (pc : PeerConnection)
    (ms : list (list Z)) (ks : list nat) :
  pc_status pc = cs_active → pc_bufRead pc = [] → accepted env connect w (pc_peerIdx pc) ms w' →
  Forall (λ m, Z.of_nat (length m) ≤ ROOM) ms → Forall (λ k, (0 < k)%nat) ks → (length (concat ms) ≤ length ks)%nat →
  read_turns env connect w pc (concat ms) ks = Done (w', pc, []).
Proof. apply any_segmentation. Qed.

#[local] Existing Instance toy_digest.

Definition toy_peer_conn : PeerConnection :=
  {| pc_fd := 9; pc_peerIdx := 1; pc_status := cs_active; pc_isAbnormal := false; pc_bufRead := [] |}.

Lemma control_flow_any_segmentation_witness :
  ∃ (c : cache (@hashtable (list Z) Z) (@hashtable (list Z) CacheValue)) (am : @hashtable (list Z) nat)
    (cm : @hashtable ConnectionID Z) msg w',
    read_turns toy_user_env (λ _, 7) (toy_proxy c am cm (toy_connection cs_active 0 []) 0) toy_peer_conn
      (msg ++ msg) (replicate 46 1%nat) = Done (w', toy_peer_conn, []) ∧
    (λ ci, ui_closeBytes (ci_uci ci)) <$> px_master w' !! 5 = Some 20.
Proof.
  destruct (CreateCache_ok 1000) as (c & _ & _). destruct toy_tables as (am & cm & _ & Hm).
  set (id := {| srcIP := 3; srcPort := 4; dstIP := 1; dstPort := 2 |}).
  set (msg := control_header id TYPE_WACLOSECONNECTION 23 ++ be 1 MAGIC_WACLOSECONNECTION ++ be 4 20).
  assert (framed VerifyControlHeader TYPE_WACLOSECONNECTION msg) as Hf.
  { apply framed_control; [reflexivity|lia|]. set_solver. }
  assert (length msg = 23%nat) as Hlen by reflexivity.
  set (ci := toy_connection cs_active 0 []). set (ci' := set_uci (set_written 10 20 (ci_uci ci)) ci).
  set (w := toy_proxy c am cm ci 0).
  assert (∀ (w0 : proxy (@hashtable (list Z) Z) (@hashtable (list Z) CacheValue) (@hashtable (list Z) nat)
    (@hashtable ConnectionID Z)) ci0, live w0 5 ci0 → ci_conn ci0 = ci_conn ci → px_ConnMap w0 = cm → ui_bytesRX (ci_uci ci0) = 10 →
    handle_control toy_user_env (λ _, 7) w0 1 TYPE_WACLOSECONNECTION msg =
      Done (put_ci (set_uci (set_written 10 20 (ci_uci ci0)) ci0) w0, Z.of_nat (length msg))) as Hh.
  { intros w0 ci0 Hl Hid Hcm Hrx. unfold handle_control. cbn [Z.eqb Pos.eqb TYPE_WACLOSECONNECTION TYPE_WAOPENCONNECTION TYPE_WANAMEDELIVERY TYPE_WANAMEACK].
    assert (conn_ok (ci_conn ci0)) as Hc by (rewrite Hid; unfold conn_ok; cbn; lia).
    assert (tbl_is (px_ConnMap w0) toy_conns) as Hmap by (rewrite Hcm; exact Hm).
    assert (toy_conns !! ci_conn ci0 = Some 5) as Hfind by (rewrite Hid; apply lookup_insert_eq).
    pose proof (ProcessCloseConnection_found toy_user_env (λ _, 7) w0 5 ci0 toy_conns 20 msg [] Hl Hc Hmap Hfind) as Hp.
    rewrite app_nil_r in Hp. rewrite Hp; [|lia|].
    - rewrite Hrx. reflexivity.
    - rewrite Hid. apply (BuildWACloseConnection_ok (λ _, 7) id 20). unfold conn_ok. cbn. lia. }
  exists c, am, cm, msg. eexists. split.
  - assert (msg ++ msg = concat [msg; msg]) as -> by (cbn [concat]; rewrite app_nil_r; reflexivity).
    apply (control_flow_any_segmentation toy_user_env (λ _, 7) w (put_ci ci' (put_ci ci' w)) toy_peer_conn [msg; msg]).
    + reflexivity.
    + reflexivity.
    + exists TYPE_WACLOSECONNECTION, (put_ci ci' w). split; [discriminate|]. split; [exact Hf|].
      split; [apply (Hh w ci); [apply toy_live|reflexivity|reflexivity|reflexivity]|].
      exists TYPE_WACLOSECONNECTION, (put_ci ci' (put_ci ci' w)). split; [discriminate|]. split; [exact Hf|].
      split; [|reflexivity]. apply (Hh (put_ci ci' w) ci'); [apply (live_put w ci')|reflexivity|reflexivity|reflexivity].
    + repeat constructor; rewrite Hlen; unfold ROOM; lia.
    + apply Forall_replicate. lia.
    + cbn [concat]. rewrite app_nil_r, length_app, length_replicate, Hlen. lia.
  - change (px_master (put_ci ci' (put_ci ci' w)) !! 5) with (<[5 := ci']> (px_master (put_ci ci' w)) !! 5).
    rewrite lookup_insert_eq. reflexivity.
Defined.

(** A control message that is longer than the read buffer is lost, with its
    connection and with all that follows it.  Each read returns at least one
    byte, the message waits, and when the buffer is full its last eight tenths of
    a byte let the check pass that there is room: [read] is asked for 0 bytes,
    its result is taken for the end of the stream, and the connection is closed.
    Nothing of the message was handled. *)
Theorem long_message_closes `{Digest} {HT VT AT MT : Type} `{!Table (list Z) Z HT}
    `{!Table (list Z) CacheValue VT} `{!Table (list Z) nat AT} `{!Table ConnectionID Z MT}
    (env : UserEnv) (connect : ConnectionID → Z) (w : proxy HT VT AT MT) (pc : PeerConnection)
    (t : Z) (m rest : list Z) (ks : list nat) :
  framed VerifyControlHeader t m → ROOM < Z.of_nat (length m) → px_NumDeadConns w + 1 < MAX_NUM_CI →
  pc_status pc = cs_active → pc_bufRead pc = [] → Forall (λ k, (0 < k)%nat) ks → ROOM < Z.of_nat (length ks) →
  ∃ w' pc', read_turns env connect w pc (m ++ rest) ks = Done (w', pc', drop (Z.to_nat ROOM) (m ++ rest)) ∧
    pc_status pc' = cs_closed ∧ pc_isAbnormal pc' = false ∧ pc_bufRead pc' = take (Z.to_nat ROOM) m ∧
    px_DeadConnList w' = px_DeadConnList w ++ [pc_fd pc] ∧ px_master w' = px_master w ∧ px_gl w' = px_gl w.
Proof.
  intros Hf Hm Hdead Hst Hb Hks Hlen.
  pose proof (long_message_turns env connect w pc t m rest ks 0 Hf Hm Hdead Hst) as Hl.
  rewrite take_0, drop_0 in Hl. assert (set_pc cs_active (pc_isAbnormal pc) [] pc = pc) as E.
  { destruct pc. cbn in *. by subst. }
  rewrite E in Hl. rewrite Hl; [|unfold ROOM; lia|done|lia]. eexists _, _. split; [done|]. by split_and!.
Qed.

Lemma long_framed : ∃ m, framed VerifyControlHeader TYPE_WARAWMESSAGE m ∧ ROOM < Z.of_nat (length m).
Proof.
  assert (TYPE_WARAWMESSAGE ∈ [TYPE_WAOPENCONNECTION; TYPE_WANAMEDELIVERY; TYPE_WACLOSECONNECTION; TYPE_WANAMEACK;
    TYPE_WARAWMESSAGE]) as Ht by set_solver.
  exists (control_header {| srcIP := 3; srcPort := 4; dstIP := 1; dstPort := 2 |} TYPE_WARAWMESSAGE (ROOM + 19) ++
    replicate (S (Z.to_nat ROOM)) 0). split.
  - apply framed_control; [rewrite length_replicate; unfold ROOM; lia|unfold ROOM; lia|exact Ht].
  - rewrite length_app, length_replicate. lia.
Qed.

Lemma long_message_closes_witness :
  ∃ (c : cache (@hashtable (list Z) Z) (@hashtable (list Z) CacheValue)) (am : @hashtable (list Z) nat)
    (cm : @hashtable ConnectionID Z) m w' pc',
    read_turns toy_user_env (λ _, 7) (toy_proxy c am cm (toy_connection cs_active 0 []) 0) toy_peer_conn
      (m ++ []) (replicate (S (Z.to_nat ROOM)) 1%nat) = Done (w', pc', drop (Z.to_nat ROOM) (m ++ [])) ∧
    pc_status pc' = cs_closed ∧ px_DeadConnList w' = [9].
Proof.
  destruct (CreateCache_ok 1000) as (c & _ & _). destruct toy_tables as (am & cm & _ & _).
  destruct long_framed as (m & Hf & Hm).
  destruct (long_message_closes toy_user_env (λ _, 7) (toy_proxy c am cm (toy_connection cs_active 0 []) 0) toy_peer_conn
    TYPE_WARAWMESSAGE m [] (replicate (S (Z.to_nat ROOM)) 1%nat)) as (w' & pc' & H1 & H2 & _ & _ & H3 & _).
  - exact Hf.
  - exact Hm.
  - cbn. unfold MAX_NUM_CI. lia.
  - reflexivity.
  - reflexivity.
  - apply Forall_replicate. lia.
  - rewrite length_replicate. lia.
  - exists c, am, cm, m, w', pc'. split_and!; [exact H1|exact H2|exact H3].
Defined.
