(* ===== verification/Transfer.v ===== *)
(** * From one proxy to the other

    Composes [ConnectionTheorems], [Stream] and [Receiver]: the messages that
    [ProcessUserData] of one proxy queues for a connection are delivered, in
    order and however they are cut, to the connection at the other proxy; once the blocks that came
    without contents are in its temporary cache, [ReconstructOriginalData] sends
    its user the bytes the first user wrote. *)

From Stdlib Require Import ZArith Lia.
From stdpp Require Import base list option numbers sets gmap.
From S2P Require Import Prelude Bytes Rabin Mrc MrcLevels MrcTree MrcResolve MrcCandidates MrcTheorems.
From S2P Require Import Protocol Hashtable ChunkCache Sender Hrw Peer Reassemble Receiver Ils Connection.
From S2P Require Import ConnectionTheorems Stream.

(** ** The pieces of a stream *)

(** [names] are the names of consecutive pieces of [buf], from [a] to [b]; the
    small ones came with their contents. *)
Fixpoint spells `{Digest} (buf : list Z) (a : Z) (names : list ChunkNameInfo) (b : Z) : Prop :=
  match names with
  | [] => a = b
  | w :: names' =>
      0 < cni_length w ∧ cni_sha1name w = Calc_SHA1Sig (slice buf (Z.to_nat a) (Z.to_nat (cni_length w))) ∧
      (cni_length w ≤ WAPROX_MIN_CHUNK_SIZE → cni_inMemory w = true) ∧
      spells buf (a + cni_length w) names' b
  end.

(** The same for the chunks of a connection. *)
Fixpoint chunks_spell `{Digest} (buf : list Z) (a : Z) (l : list ReassembleInfo) (b : Z) : Prop :=
  match l with
  | [] => a = b
  | ri :: l' => ∃ m, a < m ≤ a + MAX_CHUNK_SIZE ∧ m ≤ Z.of_nat (length buf) ∧
      spells buf a (ri_nameList ri) m ∧ chunks_spell buf m l' b
  end.

Definition all_names (l : list ReassembleInfo) : list ChunkNameInfo := concat (ri_nameList <$> l).

Definition in_memory (names : list ChunkNameInfo) : list ChunkNameInfo :=
  filter (λ w, cni_inMemory w = true) names.

(** Under the name of a piece of [buf], a block is that piece. *)
Definition honest `{Digest} (buf : list Z) (R : refs) : Prop :=
  ∀ o n k b, (o + n ≤ length buf)%nat → R !! Calc_SHA1Sig (slice buf o n) = Some (k, b) → b = slice buf o n.

(** The digest tells the pieces of [buf] apart. *)
Definition distinguishes `{Digest} (buf : list Z) : Prop :=
  ∀ o n o' n', (o + n ≤ length buf)%nat → (o' + n' ≤ length buf)%nat →
    Calc_SHA1Sig (slice buf o n) = Calc_SHA1Sig (slice buf o' n') → slice buf o n = slice buf o' n'.

(** Every name is referenced as often as it occurs. *)
Definition enough (R : refs) (names : list ChunkNameInfo) : Prop :=
  ∀ n, (cnt n names ≤ ref_count R n)%nat.

Section pieces.
Context `{Digest}.

Lemma spells_le buf names : ∀ a b, spells buf a names b → a ≤ b ∧ sum_Z (cni_length <$> names) = b - a.
Proof.
  induction names as [|w names IH]; intros a b; cbn [spells fmap list_fmap].
  - intros ->. cbn. lia.
  - intros (Hl & _ & _ & Hs). destruct (IH _ _ Hs) as [H1 H2].
    change (sum_Z (_ :: _)) with (cni_length w + sum_Z (cni_length <$> names)). lia.
Qed.

Lemma spells_forall buf names : ∀ a b, spells buf a names b →
  Forall (λ x, 0 < cni_length x ∧ (cni_length x ≤ WAPROX_MIN_CHUNK_SIZE → cni_inMemory x = true)) names.
Proof.
  induction names as [|w names IH]; intros a b; [constructor|]. intros (H1 & _ & H3 & H4).
  constructor; [done|by eapply IH].
Qed.

Lemma chunks_spell_app buf l1 l2 : ∀ a b c,
  chunks_spell buf a l1 b → chunks_spell buf b l2 c → chunks_spell buf a (l1 ++ l2) c.
Proof.
  induction l1 as [|ri l1 IH]; intros a b c; cbn [chunks_spell app]; [by intros ->|].
  intros (m & H1 & H2 & H3 & H4) Hc. exists m. split_and!; [lia|lia|lia|done|]. by eapply IH.
Qed.

Lemma chunks_spell_names buf l : ∀ a b, chunks_spell buf a l b → spells buf a (all_names l) b.
Proof.
  induction l as [|ri l IH]; intros a b; [done|]. intros (m & _ & _ & Hs & Hl). specialize (IH _ _ Hl).
  unfold all_names in *. cbn [fmap list_fmap concat]. revert a Hs. generalize (ri_nameList ri).
  induction l0 as [|w l0 IHl]; intros a; cbn [spells app]; [by intros ->|].
  intros (H1 & H2 & H3 & H4). split_and!; [done|done|done|by apply IHl].
Qed.

Lemma chunks_spell_nonempty buf l : ∀ a b, chunks_spell buf a l b → Forall (λ ri, ri_nameList ri ≠ []) l.
Proof.
  induction l as [|ri l IH]; intros a b; [constructor|]. intros (m & Hm & _ & Hs & Hl).
  constructor; [|by eapply IH]. intros E. rewrite E in Hs. cbn in Hs. lia.
Qed.

Lemma cnt_concat n l ri : ri ∈ l → (cnt n (ri_nameList ri) ≤ cnt n (all_names l))%nat.
Proof.
  intros (l1 & l2 & ->)%list_elem_of_split. unfold all_names. rewrite fmap_app, concat_app, cnt_app.
  cbn [fmap list_fmap concat]. rewrite cnt_app. lia.
Qed.

Lemma enough_available R names : enough R names → available R names.
Proof. intros He. apply Forall_forall. intros w _. apply He. Qed.

Lemma enough_flush R l1 l2 : enough R (l1 ++ l2) → enough (flush_refs R l1) l2.
Proof. intros He n. specialize (He n). rewrite cnt_app in He. rewrite ref_count_flush_refs. lia. Qed.

Lemma flush_refs_block n k b l : ∀ R, flush_refs R l !! n = Some (k, b) → ∃ k', R !! n = Some (k', b).
Proof.
  revert k. induction l as [|w l IH]; intros k R Hn; [eauto|].
  destruct (IH _ _ Hn) as (k1 & Hk). apply ref_flush_block in Hk as (k2 & Hk2 & _). eauto.
Qed.

Lemma honest_flush buf R l : honest buf R → honest buf (flush_refs R l).
Proof. intros Hh o n k b Hb (k' & Hk)%flush_refs_block. by eapply Hh. Qed.

(** The blocks of the names are the piece. *)
Lemma spelled_blocks buf R names : ∀ a b,
  spells buf a names b → 0 ≤ a → b ≤ Z.of_nat (length buf) → honest buf R →
  Forall (λ w, (0 < ref_count R (cni_sha1name w))%nat) names →
  blocks R names = slice buf (Z.to_nat a) (Z.to_nat (b - a)).
Proof.
  induction names as [|w names IH]; intros a b Hs Ha Hb Hh Hf; cbn [spells] in Hs.
  { subst. by rewrite Z.sub_diag. }
  destruct Hs as (Hl & Hn & _ & Hs). apply Forall_cons_1 in Hf as [Hw Hf].
  destruct (spells_le _ _ _ _ Hs) as [Hle _].
  unfold blocks. cbn [fmap list_fmap concat]. change (concat _) with (blocks R names).
  rewrite (IH _ _ Hs) by (done || lia). unfold block_of. unfold ref_count in Hw. rewrite Hn in Hw |- *.
  destruct (R !! _) as [[k blk]|] eqn:E; [|lia]. apply Hh in E as ->; [|lia].
  replace (Z.to_nat (b - a)) with (Z.to_nat (cni_length w) + Z.to_nat (b - (a + cni_length w)))%nat by lia.
  rewrite slice_split. do 2 f_equal. lia.
Qed.

Lemma enough_positive R names : enough R names → Forall (λ w, (0 < ref_count R (cni_sha1name w))%nat) names.
Proof.
  intros He. apply Forall_forall. intros w Hw. pose proof (cnt_self w names Hw). specialize (He (cni_sha1name w)). lia.
Qed.

Lemma spelled_fits buf R ri a b :
  spells buf a (ri_nameList ri) b → 0 ≤ a → b ≤ Z.of_nat (length buf) → b - a ≤ MAX_CHUNK_SIZE →
  honest buf R → fits R ri.
Proof.
  intros Hs Ha Hb Hmax Hh. destruct (spells_le _ _ _ _ Hs) as [_ Hsum]. split; [|lia]. clear Hsum.
  revert a Hs Ha Hmax. induction (ri_nameList ri) as [|x l IH]; intros a Hs Ha Hmax w Hw;
    [by apply not_elem_of_nil in Hw|].
  destruct Hs as (Hl & Hn & _ & Hs). destruct (spells_le _ _ _ _ Hs) as [Hle _]. unfold MAX_CHUNK_SIZE in *.
  apply elem_of_cons in Hw as [->|Hw]; [|eapply IH; [exact Hs|lia|lia|exact Hw]].
  split; [lia|]. intros k blk Hk. rewrite Hn in Hk. apply Hh in Hk as ->; [|lia]. rewrite length_slice; lia.
Qed.

(** A receiver that has enough sends everything. *)
Lemma release_everything buf l : ∀ R a b,
  chunks_spell buf a l b → 0 ≤ a → Forall (λ ri, ri_getSent ri = true) l →
  honest buf R → enough R (all_names l) →
  ∃ R', release R l = (R', l, []) ∧ concat (data_of R l) = slice buf (Z.to_nat a) (Z.to_nat (b - a)) ∧
    ∀ n, ref_count R' n = (ref_count R n - cnt n (all_names l))%nat.
Proof.
  induction l as [|ri l IH]; intros R a b Hs Ha Hg Hh He; cbn [release data_of concat].
  { exists R. cbn in Hs. subst. rewrite Z.sub_diag. split_and!; [done|done|]. intros n. cbn. lia. }
  pose proof (Forall_inv (chunks_spell_nonempty _ _ _ _ Hs)) as Hne.
  destruct Hs as (m & Hm & Hmb & Hs & Hl). apply Forall_cons_1 in Hg as [Hg Hgs].
  change (all_names (ri :: l)) with (ri_nameList ri ++ all_names l) in *.
  assert (enough R (ri_nameList ri)) as Hri by (intros n; specialize (He n); rewrite cnt_app in He; lia).
  rewrite decide_True by (split_and!; [done|done|by apply enough_available]).
  destruct (IH (flush_refs R (ri_nameList ri)) m b Hl) as (R' & Hr & Hd & Hc);
    [lia|done|by apply honest_flush|by apply enough_flush|].
  rewrite Hr. exists R'. split_and!; [done| |].
  - rewrite Hd, (spelled_blocks buf R _ a m Hs) by (lia || done || by apply enough_positive).
    destruct (spells_le _ _ _ _ (chunks_spell_names _ _ _ _ Hl)) as [Hle _].
    replace (Z.to_nat (b - a)) with (Z.to_nat (m - a) + Z.to_nat (b - m))%nat by lia.
    rewrite slice_split. do 2 f_equal. lia.
  - intros n. rewrite Hc, ref_count_flush_refs, cnt_app. lia.
Qed.

Lemma chunks_fit buf l : ∀ R a b,
  chunks_spell buf a l b → 0 ≤ a → honest buf R → Forall (fits R) l.
Proof.
  induction l as [|ri l IH]; intros R a b Hs Ha Hh; [constructor|]. destruct Hs as (m & Hm & Hmb & Hs & Hl).
  constructor; [|eapply IH; [exact Hl|lia|done]]. eapply spelled_fits; [exact Hs|lia|lia|lia|done].
Qed.
End pieces.

(** ** Delivery *)

Section delivery.
Context `{Digest} {HT VT AT MT : Type} `{!Table (list Z) Z HT} `{!Table (list Z) CacheValue VT}
  `{!Table (list Z) nat AT} `{!Table ConnectionID Z MT}.
Context (env : UserEnv) (conns : gmap ConnectionID Z).
#[local] Abbreviation proxy := (proxy HT VT AT MT).

(** A proxy that can receive for the connection [ci]. *)
Record receiving (w : proxy) (fd : Z) (ci : ConnectionInfo) (R : refs) : Prop := {
  rc_live : live w fd ci;
  rc_conn : conn_ok (ci_conn ci);
  rc_map : tbl_is (px_ConnMap w) conns;
  rc_find : conns !! ci_conn ci = Some fd;
  rc_tmp : tmp_is (gl_cache (px_gl w)) R;
  rc_peers : peers_ok (px_peers w);
  rc_eligible : ∃ i p, eligible (px_peers w) i p;
  rc_recv : recv_ok (ui_recv (ci_uci ci));
  rc_counters : counters_ok (ui_recv (ci_uci ci))
}.

(** The connection with another receiving side. *)
Definition with_receiver (rs : RecvState) (ci : ConnectionInfo) : ConnectionInfo :=
  set_uci (set_receiver rs (ci_uci ci)) ci.

(** The header of a name tree message. *)
Lemma name_delivery_header c psrc pNames cs :
  conn_ok c → Forall (candidate_in psrc pNames) cs →
  28 + Z.of_nat (length (concat (encode_candidate psrc <$> cs))) < 2 ^ 31 →
  let msg := name_delivery c psrc cs in
  ntohl_at msg 2 = Done (Z.of_nat (length msg)) ∧ ntohl_at msg 19 = Done 1 ∧ read_connID msg = Done c ∧
  Z.of_nat (length msg) < 2 ^ 31.
Proof.
  intros Hc Hin Hlen msg. unfold msg, name_delivery. set (body := concat _) in *.
  rewrite !length_app, length_control_header, !length_be. split_and!; [| |by apply read_connID_ok|lia].
  - by rewrite header_length by lia.
  - rewrite (app_assoc (control_header _ _ _)). apply ntohl_mid; [done| |lia].
    by rewrite length_app, length_control_header.
Qed.

Lemma deliver_message (w : proxy) fd ci R psrc pNames cs :
  receiving w fd ci R → Forall chunk_ok (chunk_of psrc <$> cs) →
  (∀ n, Z.of_nat (ref_count R n) + Z.of_nat (length cs) < 2 ^ 31) →
  Forall (candidate_in psrc pNames) cs →
  28 + Z.of_nat (length (concat (encode_candidate psrc <$> cs))) < 2 ^ 31 →
  ∃ w' rs' ri, ProcessNameTreeDelivery2 env w (name_delivery (reversed (ci_conn ci)) psrc cs) =
      Done (w', Z.of_nat (length (name_delivery (reversed (ci_conn ci)) psrc cs))) ∧
    receiving w' fd (with_receiver rs' ci) (put_contents R (chunk_of psrc <$> cs)) ∧
    delivered (px_peers w) R (chunk_of psrc <$> cs) (ui_recv (ci_uci ci)) (gl_cache (px_gl w')) rs' ri ∧
    px_putq w' = px_putq w.
Proof.
  intros [Hl Hc Hmap Hfind Ht Hps Hel Hrs Hcnt] Hck Href Hin Hlen.
  destruct (deliver_names_message (ue_rotl env) (gl_cache (px_gl w)) R (px_peers w) (ui_recv (ci_uci ci))
    (reversed (ci_conn ci)) psrc pNames cs) as (c' & ws & rs' & ri & He & Hps' & Hd & Hs);
    try done; [by apply reversed_ok|].
  destruct (name_delivery_header _ psrc pNames cs (reversed_ok _ Hc) Hin Hlen) as (E1 & E2 & E3 & E4).
  set (msg := name_delivery (reversed (ci_conn ci)) psrc cs) in *.
  unfold ProcessNameTreeDelivery2. rewrite E1, E2. cbn [mbind outcome_bind].
  rewrite (i32_id (Z.of_nat (length msg))), Z.leb_refl by lia. change (i32 1) with 1. cbn [c_assert mbind outcome_bind].
  change (0 <=? 1) with true. rewrite Z.eqb_refl. cbn [c_assert mbind outcome_bind]. rewrite E3.
  cbn [mbind outcome_bind]. rewrite (found_reversed w ci conns fd Hc Hmap Hfind). cbn [mbind outcome_bind].
  rewrite (get_ci_live _ _ _ Hl). cbn [mbind outcome_bind]. rewrite He. cbn [mbind outcome_bind].
  unfold msg. rewrite (read_name_delivery_ok _ _ _ _ pNames) by (done || by apply reversed_ok).
  assert (∀ l acc, ∃ try, foldM (λ (acc : bool) chunk,
    Done (acc || match wc_content chunk with Some _ => true | None => false end)) acc l = Done try) as Htry.
  { induction l as [|x l IH]; intros acc; cbn; [eauto|apply IH]. }
  destruct (Htry (chunk_of psrc <$> cs) false) as [try ->]. cbn [mbind outcome_bind].
  fold (with_receiver rs' ci). eexists _, rs', ri. split; [done|]. split_and!; [|exact Hd|done].
  pose proof (live_put (set_delivery c' (set_weights ws (px_peers w)) (px_putq w) (px_TryReconstruction w || try) w)
    (with_receiver rs' ci)) as Hl'. cbn [with_receiver ci_fd set_uci] in Hl'. rewrite (lv_fd _ _ _ Hl) in Hl'.
  split; [exact Hl'|exact Hc|exact Hmap|exact Hfind|exact (de_tmp _ _ _ _ _ _ _ Hd)|exact Hps'|exact Hel
    |exact (de_ok _ _ _ _ _ _ _ Hd)|exact (de_counters _ _ _ _ _ _ _ Hd)].
Qed.

(** What the candidates of a chunk become. *)
Lemma named_spells (ps : peers AT) hint disk buf off cs : ∀ a rb cnis,
  consecutive a cs rb → 0 ≤ a → 0 ≤ off → Forall (candidate_ok hint disk (drop (Z.to_nat off) buf) true) cs →
  Forall2 (named ps) cnis (chunk_of (drop (Z.to_nat off) buf) <$> cs) → spells buf (off + a) cnis (off + rb).
Proof.
  induction cs as [|x cs IH]; intros a rb cnis Hc Ha Hoff Hok Hn; cbn [consecutive] in Hc.
  - apply Forall2_nil_inv_r in Hn as ->. cbn. lia.
  - destruct Hc as (<- & Hl & Hc). apply Forall_cons_1 in Hok as [[Hname Hhit] Hok].
    cbn [fmap list_fmap] in Hn. apply Forall2_cons_inv_r in Hn as (w & cnis' & Hw & Hn & ->).
    destruct Hw as (W1 & W2 & _ & W3 & _). cbn [chunk_of wc_sha1name wc_length wc_content] in W1, W2, W3.
    cbn [spells]. rewrite W1, W2. split_and!.
    + done.
    + rewrite Hname. unfold slice. rewrite drop_drop. do 3 f_equal. lia.
    + intros Hmin. rewrite W3. unfold has_content. by rewrite (proj2 (Z.leb_le _ _) Hmin), orb_true_r.
    + rewrite <-Z.add_assoc. eapply IH; [exact Hc|lia|done|done|done].
Qed.

Lemma candidates_chunk_ok psrc pNames cs rb :
  consecutive 0 cs rb → rb ≤ MAX_CHUNK_SIZE → Forall (candidate_in psrc pNames) cs → Forall chunk_ok (chunk_of psrc <$> cs).
Proof.
  intros Hc Hmax Hin. destruct (consecutive_bounds _ _ _ Hc) as (_ & Hb & _ & _). apply Forall_fmap.
  rewrite Forall_forall in Hin, Hb |- *. intros x Hx. destruct (Hin x Hx), (Hb x Hx) as (H1 & H2 & H3).
  unfold chunk_ok. cbn [compose chunk_of wc_length wc_sha1name wc_content].
  split_and!; [lia|lia|lia|]. intros b. destruct (has_content x); [|done]. intros [= <-].
  rewrite length_slice; lia.
Qed.

(** The contents that came are references of pieces of the stream. *)
Lemma put_contents_named (ps : peers AT) chunks : ∀ R cnis,
  Forall2 (named ps) cnis chunks →
  ∀ n, ref_count (put_contents R chunks) n = (ref_count R n + cnt n (in_memory cnis))%nat.
Proof.
  induction chunks as [|ch chunks IH]; intros R cnis Hn n.
  - apply Forall2_nil_inv_r in Hn as ->. cbn. lia.
  - apply Forall2_cons_inv_r in Hn as (w & cnis' & (W1 & _ & _ & W3 & _) & Hn & ->).
    rewrite put_contents_cons, (IH _ _ Hn). unfold put_contents, in_memory. cbn [foldl]. rewrite filter_cons.
    destruct (wc_content ch) as [b|].
    + rewrite decide_True by done. rewrite ref_count_put, cnt_cons, W1.
      destruct (decide (n = _)), (decide (_ = n)); subst; try done; lia.
    + rewrite decide_False by congruence. done.
Qed.

Lemma honest_put buf R o n :
  (o + n ≤ length buf)%nat → distinguishes buf → honest buf R →
  honest buf (ref_put R (Calc_SHA1Sig (slice buf o n)) (slice buf o n)).
Proof.
  intros Hb Hd Hh o' n' k b Hb'. unfold ref_put.
  destruct (decide (Calc_SHA1Sig (slice buf o n) = Calc_SHA1Sig (slice buf o' n'))) as [E|E].
  - rewrite E. destruct (R !! Calc_SHA1Sig (slice buf o' n')) as [[j b']|] eqn:Er; rewrite lookup_insert_eq; intros [= <- <-].
    + by eapply Hh.
    + by apply Hd.
  - destruct (R !! Calc_SHA1Sig (slice buf o n)) as [[j b']|]; rewrite lookup_insert_ne by done; apply Hh; done.
Qed.

Lemma honest_contents hint disk buf off cs : ∀ a rb R,
  consecutive a cs rb → 0 ≤ a → 0 ≤ off → off + rb ≤ Z.of_nat (length buf) →
  Forall (candidate_ok hint disk (drop (Z.to_nat off) buf) true) cs →
  distinguishes buf → honest buf R → honest buf (put_contents R (chunk_of (drop (Z.to_nat off) buf) <$> cs)).
Proof.
  induction cs as [|x cs IH]; intros a rb R Hc Ha Hoff Hb Hok Hd Hh; cbn [consecutive] in Hc; [done|].
  destruct Hc as (<- & Hl & Hc). destruct (consecutive_bounds _ _ _ Hc) as (Hle & _).
  apply Forall_cons_1 in Hok as [[Hname _] Hok].
  cbn [fmap list_fmap]. rewrite put_contents_cons. eapply IH; [exact Hc|lia|lia|lia|done|done|].
  unfold put_contents. cbn [foldl chunk_of wc_content wc_sha1name]. destruct (has_content x); [|done].
  rewrite Hname. unfold slice. rewrite drop_drop. apply honest_put; [lia|done|done].
Qed.

Lemma carries_le c buf ms : ∀ off b, carries c buf off ms b → off ≤ b.
Proof.
  induction ms as [|m ms IH]; intros off b; cbn [carries]; [lia|].
  intros (cs & rb & Hm & Hc). destruct (mo_size _ _ _ _ _ Hm). specialize (IH _ _ Hc). lia.
Qed.

(** The messages of a connection arrive in the order they were sent. *)
Definition deliver_all (w : proxy) (ms : list (list Z)) : outcome proxy :=
  foldM (λ w m, '(w, _) ← ProcessNameTreeDelivery2 env w m; Done w) w ms.

(** The receiver after the bytes from [off] to [b] arrived as the chunks [l]. *)
Record arrived (buf : list Z) (off b : Z) (R R' : refs) (rs rs' : RecvState) (l : list ReassembleInfo) : Prop := {
  ar_list : rs_reassembleList rs' = rs_reassembleList rs ++ l;
  ar_spell : chunks_spell buf off l b;
  ar_refs : ∀ n, ref_count R' n = (ref_count R n + cnt n (in_memory (all_names l)))%nat;
  ar_honest : distinguishes buf → honest buf R → honest buf R';
  ar_sent : rs_sent rs' = rs_sent rs;
  ar_names : rs_pendingNames rs' = u32 (rs_pendingNames rs + Z.of_nat (length (all_names l)));
  ar_bytes : rs_pendingBytes rs' = u32 (rs_pendingBytes rs + (b - off))
}.

Lemma arrived_one buf off R (w : proxy) fd ci m cs rb :
  receiving w fd ci R → message_of (reversed (ci_conn ci)) (drop (Z.to_nat off) buf) m cs rb →
  0 ≤ off → off + rb ≤ Z.of_nat (length buf) → Z.of_nat SHA1_LEN ≤ 4096 →
  (∀ n, Z.of_nat (ref_count R n) + rb < 2 ^ 31) →
  ∃ w' rs' ri R', ProcessNameTreeDelivery2 env w m = Done (w', Z.of_nat (length m)) ∧
    framed VerifyControlHeader TYPE_WANAMEDELIVERY m ∧ receiving w' fd (with_receiver rs' ci) R' ∧ px_putq w' = px_putq w ∧
    arrived buf off (off + rb) R R' (ui_recv (ci_uci ci)) rs' [ri] ∧
    ∀ n, Z.of_nat (ref_count R' n) ≤ Z.of_nat (ref_count R n) + rb.
Proof.
  intros Hr [Hm [pNames Hin] Hcut [Hrb Hmax] (hint & disk & Hok)] Hoff Hb Hsha Href.
  pose proof (encode_size _ _ _ _ Hcut Hin) as Hsz.
  destruct (consecutive_bounds _ _ _ Hcut) as (_ & _ & Hsum & Hn).
  destruct (deliver_message w fd ci R (drop (Z.to_nat off) buf) pNames cs Hr) as (w' & rs' & ri & He & Hr' & Hd & Hq).
  - by eapply candidates_chunk_ok.
  - intros n. specialize (Href n). lia.
  - done.
  - unfold MAX_CHUNK_SIZE in Hmax. nia.
  - rewrite <-Hm in He. eexists w', rs', ri, _. split; [exact He|]. split.
    { rewrite Hm. apply framed_control; [|unfold MAX_CHUNK_SIZE in Hmax; nia|set_solver].
      rewrite !length_app, !length_be. lia. }
    split; [exact Hr'|]. split; [exact Hq|].
    pose proof (de_names _ _ _ _ _ _ _ Hd) as Hnm.
    pose proof (put_contents_named _ _ R _ Hnm) as Hcount.
    assert (all_names [ri] = ri_nameList ri) as Hall by apply app_nil_r.
    assert (length (ri_nameList ri) = length cs) as Hlen by (rewrite (Forall2_length _ _ _ Hnm); apply length_fmap).
    split.
    + split; [apply (de_list _ _ _ _ _ _ _ Hd)| | | |apply (de_sent _ _ _ _ _ _ _ Hd)| |].
      * exists (off + rb). split; [lia|]. split; [lia|]. split; [|done].
        rewrite <-(Z.add_0_r off) at 1. by eapply named_spells.
      * by rewrite Hall.
      * intros Hdis Hh. by eapply honest_contents.
      * by rewrite (de_pendingNames _ _ _ _ _ _ _ Hd), Hall, Hlen, length_fmap.
      * rewrite (de_pendingBytes _ _ _ _ _ _ _ Hd). do 2 f_equal. rewrite <-list_fmap_compose.
        change (wc_length ∘ chunk_of (drop (Z.to_nat off) buf)) with ca_length. lia.
    + intros n. rewrite Hcount. pose proof (cnt_le n (in_memory (ri_nameList ri))).
      pose proof (length_filter (λ w, cni_inMemory w = true) (ri_nameList ri)) as Hf.
      fold (in_memory (ri_nameList ri)) in Hf. lia.
Qed.

Lemma arrived_trans buf a b c R1 R2 R3 rs1 rs2 rs3 l1 l2 :
  arrived buf a b R1 R2 rs1 rs2 l1 → arrived buf b c R2 R3 rs2 rs3 l2 → arrived buf a c R1 R3 rs1 rs3 (l1 ++ l2).
Proof.
  assert (∀ x y : list ReassembleInfo, all_names (x ++ y) = all_names x ++ all_names y) as Hall
    by (intros x y; unfold all_names; by rewrite fmap_app, concat_app).
  intros [A1 A2 A3 A4 A5 A6 A7] [B1 B2 B3 B4 B5 B6 B7]. split.
  - by rewrite B1, A1, app_assoc.
  - by eapply chunks_spell_app.
  - intros n. rewrite B3, A3, Hall. unfold in_memory. rewrite filter_app, cnt_app. lia.
  - auto.
  - congruence.
  - rewrite B6, A6, u32_add_add, Hall, length_app. do 2 f_equal. lia.
  - rewrite B7, A7, u32_add_add. do 2 f_equal. lia.
Qed.

Lemma deliver_all_ok buf b ms : ∀ (w : proxy) fd ci R off,
  receiving w fd ci R → carries (reversed (ci_conn ci)) buf off ms b →
  0 ≤ off → b ≤ Z.of_nat (length buf) → Z.of_nat SHA1_LEN ≤ 4096 →
  (∀ n, Z.of_nat (ref_count R n) + (b - off) < 2 ^ 31) →
  ∃ w' rs' l R', deliver_all w ms = Done w' ∧ (∀ connect idx, accepted env connect w idx ms w') ∧ receiving w' fd (with_receiver rs' ci) R' ∧
    px_putq w' = px_putq w ∧ arrived buf off b R R' (ui_recv (ci_uci ci)) rs' l.
Proof.
  induction ms as [|m ms IH]; intros w fd ci R off Hr Hc Hoff Hb Hsha Href; cbn [carries] in Hc.
  - subst. exists w, (ui_recv (ci_uci ci)), [], R.
    assert (with_receiver (ui_recv (ci_uci ci)) ci = ci) as ->.
    { destruct ci as [? ? ? ? ui]. by destruct ui. }
    split; [done|]. split; [done|]. split; [done|]. split; [done|]. destruct (rc_counters _ _ _ _ Hr).
    split; cbn; rewrite ?app_nil_r, ?Z.sub_diag, ?Z.add_0_r, ?u32_id by done; try done.
  - destruct Hc as (cs & rb & Hm & Hc). pose proof (carries_le _ _ _ _ _ Hc) as Hle.
    destruct (mo_size _ _ _ _ _ Hm) as [Hrb _].
    destruct (arrived_one buf off R w fd ci m cs rb Hr Hm) as (w1 & rs1 & ri & R1 & He1 & Hf1 & Hr1 & Hq1 & Ha1 & Hn1); try done.
    { lia. }
    { intros n. specialize (Href n). lia. }
    destruct (IH w1 fd (with_receiver rs1 ci) R1 (off + rb) Hr1 Hc) as (w2 & rs2 & l & R2 & He2 & Hacc & Hr2 & Hq2 & Ha2); try done.
    { lia. }
    { intros n. specialize (Href n). specialize (Hn1 n). lia. }
    exists w2, rs2, ([ri] ++ l), R2. split.
    { unfold deliver_all. cbn [foldM]. rewrite He1. exact He2. }
    split.
    { intros connect idx. exists TYPE_WANAMEDELIVERY, w1. split; [|by split_and!].
      intros ->. rewrite (mo_msg _ _ _ _ _ Hm) in Hf1. discriminate (f_equal length (mo_msg _ _ _ _ _ Hm)). }
    split; [exact Hr2|]. split; [congruence|]. eapply arrived_trans; [exact Ha1|exact Ha2].
Qed.
End delivery.

(** ** The theorem *)

Lemma reversed_reversed c : reversed (reversed c) = c.
Proof. by destruct c. Qed.

(** The connection when the requests for its chunks were made. *)
Definition asked (rs : RecvState) : RecvState :=
  Reassemble.set_lists (set_getSent <$> rs_reassembleList rs) [] rs.

Lemma all_names_asked l : all_names (set_getSent <$> l) = all_names l.
Proof. unfold all_names. by rewrite <-list_fmap_compose. Qed.

Lemma chunks_spell_asked `{Digest} buf l : ∀ a b, chunks_spell buf a l b → chunks_spell buf a (set_getSent <$> l) b.
Proof.
  induction l as [|ri l IH]; intros a b; [done|]. intros (m & H1 & H2 & H3 & H4). exists m. split_and!; [lia|lia|lia|exact H3|exact (IH _ _ H4)].
Qed.

(** What the receiver sends when its cache has enough. *)
Lemma reconstruct_everything `{Digest} {HT VT : Type} `{!Table (list Z) Z HT} `{!Table (list Z) CacheValue VT}
    (g : Config) (c : cache HT VT) (q : PutQueue) (rs : RecvState) (R : refs) buf n :
  tmp_is c R → refs_small R → honest buf R → chunks_spell buf 0 (rs_reassembleList rs) n →
  n ≤ Z.of_nat (length buf) →
  enough R (all_names (rs_reassembleList rs)) →
  rs_pendingNames rs = u32 (Z.of_nat (length (all_names (rs_reassembleList rs)))) → rs_pendingBytes rs = u32 n →
  ∃ c' q' rs' R', ReconstructOriginalData g c q (asked rs) = Done (c', q', rs') ∧
    concat (rs_sent rs') = concat (rs_sent rs) ++ take (Z.to_nat n) buf ∧
    rs_reassembleList rs' = [] ∧ rs_pendingNames rs' = 0 ∧ rs_pendingBytes rs' = 0 ∧ tmp_is c' R' ∧
    ∀ x, ref_count R' x = (ref_count R x - cnt x (all_names (rs_reassembleList rs)))%nat.
Proof.
  intros Ht Hsm Hh Hsp Hn He Hpn Hpb. set (l := rs_reassembleList rs) in *.
  pose proof (chunks_spell_asked _ _ _ _ Hsp) as Hsp'.
  destruct (release_everything buf (set_getSent <$> l) R 0 n Hsp') as (R' & Hr & Hd & Hc);
    [lia|apply Forall_fmap, Forall_true; done|done|by rewrite all_names_asked|].
  pose proof (reconstruct_ok g (set_getSent <$> l) c q (asked rs) R Ht Hsm) as Hrec.
  rewrite Hr in Hrec. destruct Hrec as (c' & q' & He' & Ht' & _).
  - split; cbn [asked Reassemble.set_lists rs_pendingNames rs_pendingBytes]; rewrite ?Hpn, ?Hpb; apply u32_range.
  - eapply chunks_fit; [exact Hsp'|lia|done].
  - done.
  - assert (concat (data_of R (set_getSent <$> l)) = take (Z.to_nat n) buf) as Hsl.
    { rewrite Hd, Z.sub_0_r. unfold slice. by rewrite drop_0. }
    rewrite Hsl in He'.
    assert (names_of (set_getSent <$> l) = length (all_names l)) as Hno.
    { clear. unfold names_of, all_names. induction l as [|ri l IH]; [done|]. cbn. rewrite length_app, <-IH. done. }
    destruct (spells_le _ _ _ _ (chunks_spell_names _ _ _ _ Hsp)) as [H0 _].
    eexists c', q', _, R'. split; [exact He'|].
    cbn [asked Reassemble.set_lists set_sent set_pending rs_sent rs_reassembleList rs_pendingNames rs_pendingBytes].
    rewrite concat_app, Hsl, Hno, Hpn, Hpb, length_take. rewrite all_names_asked in Hc.
    split_and!; try done.
    + unfold u32. rewrite Zminus_mod_idemp_l, Z.sub_diag. done.
    + unfold u32. rewrite Zminus_mod_idemp_l.
      replace (n - Z.of_nat (Z.to_nat n `min` length buf)) with 0 by lia. done.
Qed.


(** Ten bytes, whose digests differ. *)
Definition tiny_src : list Z := take 10 toy_src.

(** The other end of [toy_connection], which has received nothing. *)
Definition toy_other : ConnectionInfo :=
  let ci := toy_connection cs_active 0 [] in
  set_conn {| srcIP := 3; srcPort := 4; dstIP := 1; dstPort := 2 |}
    (with_receiver (set_pending 0 0 (ui_recv (ci_uci ci))) ci).

Definition other_conns : gmap ConnectionID Z := <[{| srcIP := 3; srcPort := 4; dstIP := 1; dstPort := 2 |} := 5]> ∅.

Lemma other_table {MT : Type} `{!Table ConnectionID Z MT} : ∃ cm : MT, tbl_is cm other_conns.
Proof.
  destruct (tbl_create_ok (T := MT) 16) as (cm & _ & Hc); [lia|]. eexists. by apply tbl_insert_ok.
Qed.

#[local] Existing Instance toy_digest.

Lemma tiny_distinguishes : distinguishes tiny_src.
Proof.
  assert (forallb (λ '(o, n, (o', n')), negb (bool_decide (Calc_SHA1Sig (slice tiny_src o n) = Calc_SHA1Sig (slice tiny_src o' n')))
    || bool_decide (slice tiny_src o n = slice tiny_src o' n'))
    (list_prod (list_prod (seq 0 11) (seq 0 11)) (list_prod (seq 0 11) (seq 0 11))) = true) as Hall
    by (vm_compute; reflexivity).
  rewrite forallb_forall in Hall. intros o n o' n' H1 H2 He. change (length tiny_src) with 10%nat in H1, H2.
  specialize (Hall (o, n, (o', n'))). cbn beta iota in Hall. rewrite (bool_decide_eq_true_2 _ He) in Hall.
  apply (bool_decide_eq_true_1 _). apply Hall. rewrite !in_prod_iff, !in_seq. lia.
Qed.

Lemma toy_receiving {HT VT AT MT : Type} `{!Table (list Z) Z HT} `{!Table (list Z) CacheValue VT}
    `{!Table (list Z) nat AT} `{!Table ConnectionID Z MT} (c : cache HT VT) (am : AT) (cm : MT) :
  cache_empty 1000 c → tbl_is am ∅ → tbl_is cm other_conns →
  receiving other_conns (toy_proxy c am cm toy_other 0) 5 toy_other ∅.
Proof.
  intros He Ha Hm. split.
  - split; [apply lookup_singleton_eq|reflexivity].
  - unfold conn_ok. cbn. lia.
  - exact Hm.
  - unfold other_conns. apply lookup_insert_eq.
  - exact (ce_tmp _ _ He).
  - by apply toy_peers_ok.
  - exists 1%nat, (toy_peer 1 false 22). split_and!; [cbn; lia|reflexivity|reflexivity|discriminate].
  - split; [constructor|constructor|constructor|reflexivity].
  - split; cbn; lia.
Qed.

Lemma in_memory_all names : Forall (λ x, cni_inMemory x = true) names → in_memory names = names.
Proof.
  unfold in_memory. induction 1 as [|x l Hx _ IH]; [done|]. by rewrite filter_cons_True, IH.
Qed.

Lemma lengths_sum names :
  Forall (λ x, 0 < cni_length x) names → Z.of_nat (length names) ≤ sum_Z (cni_length <$> names) ∧
  Forall (λ x, cni_length x ≤ sum_Z (cni_length <$> names)) names.
Proof.
  induction 1 as [|x l Hx _ [I1 I2]]; [done|]. cbn [fmap list_fmap length].
  change (sum_Z (cni_length x :: (cni_length <$> l))) with (cni_length x + sum_Z (cni_length <$> l)).
  split; [lia|]. constructor; [lia|]. eapply Forall_impl; [exact I2|]. cbn. lia.
Qed.

