(* ===== verification/HcHash.v ===== *)
(** * HashCache: the hash functions

    [src/HashCache/src/basic_mmh.c], which places a URL in the cache from the
    words of its digest ([getLocation.c]), and [lookup] of lookupa.c, the hash of
    the tables.  The program is built for 32 bits ([-m32]), so [unsigned long]
    has 32 bits and [unsigned long long] has 64. *)

From Stdlib Require Import ZArith Lia.
From stdpp Require Import base list option numbers.
From S2P Require Import Prelude.

Lemma i64_small z : - 2 ^ 63 ≤ z < 2 ^ 63 → i64 (u64 z) = z.
Proof.
  intros. unfold i64, u64. rewrite Zplus_mod_idemp_l, Z.mod_small; lia.
Qed.

(** ** basic_mmh *)

Definition mmh_sum (rands URLSHA1 : list Z) (size : nat) : outcome Z :=
  foldM (λ sum i, r ← get rands i; x ← get URLSHA1 i; Done (u64 (sum + u64 (r * x)))) 0 (seq 0 size).

Definition basic_mmh (rands URLSHA1 : list Z) (size : nat) : outcome Z :=
  sum ← mmh_sum rands URLSHA1 size;
  let stmp := i64 (u64 (Z.land sum 0xffffffff - u64 (Z.shiftr sum 32 * 15))) in
  let utmp := u64 (Z.land stmp 0xffffffff - Z.shiftr stmp 32 * 15) in
  let ret := Z.land utmp 0xffffffff in
  Done (if 0x10000000f <? utmp then u32 (ret - 15) else ret).

(** The hash that it computes: the inner product modulo a prime. *)
Definition MMH_PRIME : Z := 2 ^ 32 + 15.

Definition inner_product (rs xs : list Z) : Z := sum_Z (zip_with Z.mul rs xs).

Lemma inner_product_nonneg rs xs :
  Forall (λ x, 0 ≤ x) rs → Forall (λ x, 0 ≤ x) xs → 0 ≤ inner_product rs xs.
Proof.
  intros Hr. revert xs. induction Hr as [|r rs Hr0 Hr IH]; intros xs Hx; [done|].
  destruct Hx as [|x xs Hx0 Hx]; [done|]. unfold inner_product in *. cbn. specialize (IH xs Hx).
  fold (sum_Z (zip_with Z.mul rs xs)). nia.
Qed.

Lemma mmh_sum_ok rands URLSHA1 size :
  (size ≤ length rands)%nat → (size ≤ length URLSHA1)%nat →
  mmh_sum rands URLSHA1 size = Done (u64 (inner_product (take size rands) (take size URLSHA1))).
Proof.
  intros Hr Hx. unfold mmh_sum. induction size as [|n IH].
  - rewrite !take_0. done.
  - rewrite seq_S, foldM_app, IH by lia. cbn [mbind outcome_bind foldM].
    destruct (lookup_lt_is_Some_2 rands n) as [r Hrn]; [lia|].
    destruct (lookup_lt_is_Some_2 URLSHA1 n) as [x Hxn]; [lia|]. cbn [Nat.add].
    unfold get. rewrite Hrn, Hxn. cbn [mbind outcome_bind]. f_equal.
    rewrite (take_S_r _ _ r), (take_S_r _ _ x) by done. unfold inner_product.
    rewrite zip_with_app by (rewrite !length_take; lia). rewrite sum_Z_app. cbn.
    unfold u64. rewrite Z.add_0_r, <-Zplus_mod. done.
Qed.

Lemma land_u32 z : Z.land z 0xffffffff = z mod 2 ^ 32.
Proof. apply (Z.land_ones z 32). lia. Qed.

(** The two reductions of [basic_mmh] on a 64-bit sum. *)
Lemma reduce_twice s :
  0 ≤ s < 2 ^ 64 →
  let stmp := i64 (u64 (Z.land s 0xffffffff - u64 (Z.shiftr s 32 * 15))) in
  let utmp := u64 (Z.land stmp 0xffffffff - Z.shiftr stmp 32 * 15) in
  let ret := Z.land utmp 0xffffffff in
  (if 0x10000000f <? utmp then u32 (ret - 15) else ret) =
  if decide (s mod MMH_PRIME = 0 ∧ 2 ^ 32 ≤ 15 * (s / MMH_PRIME)) then 15 else u32 (s mod MMH_PRIME).
Proof.
  intros Hs. cbn zeta. rewrite !land_u32, !Z.shiftr_div_pow2 by done.
  assert (0 ≤ s / 2 ^ 32 < 2 ^ 32) as Hhi.
  { split; [apply Z.div_pos; lia|]. apply Z.div_lt_upper_bound; lia. }
  pose proof (Z.mod_pos_bound s (2 ^ 32) ltac:(lia)) as Hlo.
  rewrite (u64_id (s / 2 ^ 32 * 15)) by lia.
  rewrite (i64_small (s mod 2 ^ 32 - s / 2 ^ 32 * 15)) by lia.
  pose proof (Z.div_mod s (2 ^ 32) ltac:(lia)) as Hsd.
  set (hi := s / 2 ^ 32) in *. set (lo := s mod 2 ^ 32) in *.
  set (t := lo - hi * 15) in *.
  pose proof (Z.div_mod t (2 ^ 32) ltac:(lia)) as Htd.
  pose proof (Z.mod_pos_bound t (2 ^ 32) ltac:(lia)) as Htl.
  assert (- 15 ≤ t / 2 ^ 32 ≤ 0) as Hth.
  { split; [apply Z.div_le_lower_bound; lia|]. apply Z.lt_succ_r, Z.div_lt_upper_bound; lia. }
  set (k := t / 2 ^ 32) in *. set (tl := t mod 2 ^ 32) in *.
  rewrite (u64_id (tl - k * 15)) by lia.
  assert (s = (hi + k) * MMH_PRIME + (tl - k * 15)) as Hsp by (unfold MMH_PRIME; lia).
  set (u := tl - k * 15) in *. assert (0 ≤ u < 2 ^ 32 + 225) as Hu by lia.
  assert (MMH_PRIME = 4294967311) as HP by reflexivity.
  unfold u32. destruct (Z.ltb_spec 0x10000000f u) as [Hgt|Hle].
  - assert (s mod MMH_PRIME = u - MMH_PRIME) as ->.
    { symmetry. apply (Z.mod_unique_pos _ _ (hi + k + 1)); lia. }
    rewrite decide_False by lia.
    assert (u mod 2 ^ 32 = u - 2 ^ 32) as ->.
    { symmetry. apply (Z.mod_unique_pos _ _ 1); lia. }
    f_equal. lia.
  - destruct (decide (u = MMH_PRIME)) as [Heq|Hne].
    + assert (s / MMH_PRIME = hi + k + 1) as Hq.
      { symmetry. apply (Z.div_unique_pos _ _ _ 0); lia. }
      assert (s mod MMH_PRIME = 0) as Hm.
      { symmetry. apply (Z.mod_unique_pos _ _ (hi + k + 1)); lia. }
      rewrite decide_True; [|rewrite Hq; lia]. rewrite Heq. done.
    + assert (s mod MMH_PRIME = u) as Hm.
      { symmetry. apply (Z.mod_unique_pos _ _ (hi + k)); lia. }
      assert (s / MMH_PRIME = hi + k) as Hq.
      { symmetry. apply (Z.div_unique_pos _ _ _ u); lia. }
      rewrite decide_False; [by rewrite Hm|]. rewrite Hm, Hq. lia.
Qed.

(** [basic_mmh] is the hash it is named after: the inner product of the keys
    and the words, modulo the prime 2^32 + 15 and then modulo 2^32, of the sum as
    64 bits hold it.  There is one exception: its last comparison is with [>], so
    that the multiples of the prime from 2^32 / 15 times the prime on, which
    should hash to 0, hash to 15. *)
Theorem basic_mmh_remainder (rands URLSHA1 : list Z) (size : nat) :
  (size ≤ length rands)%nat → (size ≤ length URLSHA1)%nat →
  let s := u64 (inner_product (take size rands) (take size URLSHA1)) in
  basic_mmh rands URLSHA1 size =
    Done (if decide (s mod MMH_PRIME = 0 ∧ 2 ^ 32 ≤ 15 * (s / MMH_PRIME)) then 15 else u32 (s mod MMH_PRIME)).
Proof.
  intros Hr Hx s. unfold basic_mmh. rewrite mmh_sum_ok by done. cbn [mbind outcome_bind].
  fold s. by rewrite (reduce_twice s (u64_range _)).
Qed.

Lemma basic_mmh_remainder_witness :
  basic_mmh [12945; 87969; 986751; 144325; 4789857] [1; 2; 3; 4; 5] 5 = Done 27675721 ∧
  basic_mmh [2 ^ 32 - 1; 16] [286331154; 286331154] 2 = Done 15.
Proof.
  split.
  - rewrite (basic_mmh_remainder _ _ 5) by (cbn; lia). vm_compute. reflexivity.
  - rewrite (basic_mmh_remainder _ _ 2) by (cbn; lia). vm_compute. reflexivity.
Defined.

(** ** lookupa.c *)

(** [x -= y; x -= z; x ^= w], on 32 bits; a left shift loses its high bits. *)
Definition sub2_xor (x y z w : Z) : Z := Z.lxor (u32 (u32 (x - y) - z)) w.

Definition mix_step (s1 s2 s3 : Z) (abc : Z * Z * Z) : Z * Z * Z :=
  let '(a, b, c) := abc in
  let a := sub2_xor a b c (Z.shiftr c s1) in
  let b := sub2_xor b c a (u32 (Z.shiftl a s2)) in
  let c := sub2_xor c a b (Z.shiftr b s3) in
  (a, b, c).

Definition mix (abc : Z * Z * Z) : Z * Z * Z :=
  mix_step 3 10 15 (mix_step 12 16 5 (mix_step 13 8 13 abc)).

(** [k[i] << shift] is added to a register when the key has more than [i] bytes
    left; the cases of the [switch] fall through. *)
Definition add_byte (k : list Z) (len : Z) (i : nat) (shift reg : Z) : outcome Z :=
  if Z.of_nat i <? len then x ← get k i; Done (u32 (reg + u32 (Z.shiftl x shift))) else Done reg.

Definition add_word (k : list Z) (len : Z) (i : nat) (reg : Z) : outcome Z :=
  reg ← add_byte k len (i + 3) 24 reg;
  reg ← add_byte k len (i + 2) 16 reg;
  reg ← add_byte k len (i + 1) 8 reg;
  add_byte k len i 0 reg.

(** The last bytes; the low byte of [c] is for the length. *)
Definition lookup_tail (k : list Z) (len length : Z) (abc : Z * Z * Z) : outcome Z :=
  let '(a, b, c) := abc in
  let c := u32 (c + length) in
  c ← add_byte k len 10 24 c;
  c ← add_byte k len 9 16 c;
  c ← add_byte k len 8 8 c;
  b ← add_word k len 4 b;
  a ← add_word k len 0 a;
  Done (mix (a, b, c)).2.

Fixpoint lookup_loop (fuel : nat) (k : list Z) (len length : Z) (abc : Z * Z * Z) : outcome Z :=
  if 12 <=? len then
    match fuel with
    | O => Fault OutOfFuel
    | S fuel =>
        let '(a, b, c) := abc in
        a ← add_word k len 0 a;
        b ← add_word k len 4 b;
        c ← add_word k len 8 c;
        lookup_loop fuel (drop 12 k) (len - 12) length (mix (a, b, c))
    end
  else lookup_tail k len length abc.

Definition GOLDEN : Z := 0x9e3779b9.

Definition lookup_hash (k : list Z) (length level : Z) : outcome Z :=
  lookup_loop (Z.to_nat length) k length length (GOLDEN, GOLDEN, level).

(** *** [mix] can be run backward *)

Definition word (z : Z) : Prop := 0 ≤ z < 2 ^ 32.
Definition words (abc : Z * Z * Z) : Prop := word abc.1.1 ∧ word abc.1.2 ∧ word abc.2.

Definition xor_add2 (x y z w : Z) : Z := u32 (u32 (Z.lxor x w + z) + y).

Definition unmix_step (s1 s2 s3 : Z) (abc : Z * Z * Z) : Z * Z * Z :=
  let '(a, b, c) := abc in
  let c := xor_add2 c a b (Z.shiftr b s3) in
  let b := xor_add2 b c a (u32 (Z.shiftl a s2)) in
  let a := xor_add2 a b c (Z.shiftr c s1) in
  (a, b, c).

Definition unmix (abc : Z * Z * Z) : Z * Z * Z :=
  unmix_step 13 8 13 (unmix_step 12 16 5 (unmix_step 3 10 15 abc)).

Lemma word_u32 z : word (u32 z).
Proof. apply u32_range. Qed.

Lemma word_shiftr z s : word z → 0 ≤ s → word (Z.shiftr z s).
Proof.
  unfold word. intros Hz Hs. rewrite Z.shiftr_div_pow2 by done.
  pose proof (Z.pow_pos_nonneg 2 s). split; [apply Z.div_pos; lia|].
  apply Z.div_lt_upper_bound; [lia|]. nia.
Qed.

Lemma word_lxor x y : word x → word y → word (Z.lxor x y).
Proof. by apply lxor_range. Qed.

Lemma word_sub2_xor x y z w : word w → word (sub2_xor x y z w).
Proof. intros Hw. apply word_lxor; [apply word_u32|done]. Qed.

Lemma u32_add_l a b : u32 (u32 a + b) = u32 (a + b).
Proof. apply Zplus_mod_idemp_l. Qed.
Lemma u32_sub_l a b : u32 (u32 a - b) = u32 (a - b).
Proof. apply Zminus_mod_idemp_l. Qed.

Lemma xor_add2_cancel x y z w : word x → xor_add2 (sub2_xor x y z w) y z w = x.
Proof.
  intros Hx. unfold xor_add2, sub2_xor. rewrite lxor_nilpotent_r, u32_add_l, u32_sub_l.
  rewrite <-Z.add_assoc, u32_add_l. replace (x - y - z + (z + y)) with x by lia. by apply Z.mod_small.
Qed.

Lemma sub2_xor_cancel x y z w : word x → word w → sub2_xor (xor_add2 x y z w) y z w = x.
Proof.
  intros Hx Hw. unfold xor_add2, sub2_xor.
  rewrite u32_add_l, !u32_sub_l, <-Z.sub_add_distr, u32_sub_l.
  replace (Z.lxor x w + z + y - (y + z)) with (Z.lxor x w) by lia.
  rewrite u32_id; [by apply lxor_nilpotent_r|]. by apply word_lxor.
Qed.

Section Steps.
Context (s1 s2 s3 : Z) (H1 : 0 ≤ s1) (H3 : 0 ≤ s3).
Implicit Types abc : Z * Z * Z.

Lemma mix_step_words abc : words abc → words (mix_step s1 s2 s3 abc).
Proof.
  destruct abc as [[a b] c]. intros (Ha & Hb & Hc). cbn.
  assert (word (sub2_xor a b c (Z.shiftr c s1))) by (by apply word_sub2_xor, word_shiftr).
  assert (word (sub2_xor b c (sub2_xor a b c (Z.shiftr c s1))
    (u32 (Z.shiftl (sub2_xor a b c (Z.shiftr c s1)) s2)))) by apply word_sub2_xor, word_u32.
  split_and!; [done|done|]. by apply word_sub2_xor, word_shiftr.
Qed.

Lemma unmix_step_words abc : words (unmix_step s1 s2 s3 abc).
Proof. destruct abc as [[a b] c]. split_and!; apply word_u32. Qed.

Lemma unmix_mix_step abc : words abc → unmix_step s1 s2 s3 (mix_step s1 s2 s3 abc) = abc.
Proof.
  destruct abc as [[a b] c]. intros (Ha & Hb & Hc). cbn in *.
  rewrite !xor_add2_cancel by done. done.
Qed.

Lemma mix_unmix_step abc : words abc → mix_step s1 s2 s3 (unmix_step s1 s2 s3 abc) = abc.
Proof.
  destruct abc as [[a b] c]. intros (Ha & Hb & Hc). cbn in *.
  rewrite !sub2_xor_cancel; [done|..]; try done; try apply word_u32; try (by apply word_shiftr);
    apply word_shiftr; [apply word_u32|done].
Qed.
End Steps.

(** [mix], of which the comment says that it is reversible, is: on 32-bit
    words it is a bijection, [unmix] runs it backward. *)
Theorem mix_reversible (abc : Z * Z * Z) :
  words abc → words (mix abc) ∧ unmix (mix abc) = abc ∧ mix (unmix abc) = abc.
Proof.
  intros Hw. unfold mix, unmix.
  assert (words (mix_step 13 8 13 abc)) as Hw1 by (by apply mix_step_words).
  assert (words (mix_step 12 16 5 (mix_step 13 8 13 abc))) as Hw2 by (by apply mix_step_words).
  split_and!; [by apply mix_step_words| |].
  - by rewrite !unmix_mix_step.
  - rewrite mix_unmix_step; [|done|done|apply unmix_step_words].
    rewrite mix_unmix_step; [|done|done|apply unmix_step_words]. by apply mix_unmix_step.
Qed.

Lemma mix_reversible_witness :
  words (mix (1, 2, 3)) ∧ unmix (mix (1, 2, 3)) = (1, 2, 3) ∧ mix (unmix (1, 2, 3)) = (1, 2, 3).
Proof. apply (mix_reversible (1, 2, 3)). repeat split; discriminate. Defined.

(** *** [lookup] returns for every key *)

Lemma add_byte_ok k len i shift reg :
  len ≤ Z.of_nat (length k) → word reg → ∃ reg', add_byte k len i shift reg = Done reg' ∧ word reg'.
Proof.
  intros Hl Hr. unfold add_byte. destruct (Z.ltb_spec (Z.of_nat i) len); [|by exists reg].
  destruct (lookup_lt_is_Some_2 k i) as [x Hx]; [lia|]. unfold get. rewrite Hx. cbn [mbind outcome_bind].
  eexists. split; [done|]. apply word_u32.
Qed.

Lemma add_word_ok k len i reg :
  len ≤ Z.of_nat (length k) → word reg → ∃ reg', add_word k len i reg = Done reg' ∧ word reg'.
Proof.
  intros Hl Hr. unfold add_word.
  destruct (add_byte_ok k len (i + 3) 24 reg Hl Hr) as (r1 & -> & H1).
  cbn [mbind outcome_bind]. destruct (add_byte_ok k len (i + 2) 16 r1 Hl H1) as (r2 & -> & H2).
  cbn [mbind outcome_bind]. destruct (add_byte_ok k len (i + 1) 8 r2 Hl H2) as (r3 & -> & H3).
  cbn [mbind outcome_bind]. by apply add_byte_ok.
Qed.

Lemma mix_words abc : words abc → words (mix abc).
Proof. intros Hw. by repeat apply mix_step_words. Qed.

Lemma lookup_tail_ok k len n abc :
  len ≤ Z.of_nat (length k) → words abc → ∃ h, lookup_tail k len n abc = Done h ∧ word h.
Proof.
  destruct abc as [[a b] c]. intros Hl (Ha & Hb & Hc). unfold lookup_tail.
  destruct (add_byte_ok k len 10 24 (u32 (c + n)) Hl (word_u32 _)) as (c1 & -> & Hc1). cbn [mbind outcome_bind].
  destruct (add_byte_ok k len 9 16 c1 Hl Hc1) as (c2 & -> & Hc2). cbn [mbind outcome_bind].
  destruct (add_byte_ok k len 8 8 c2 Hl Hc2) as (c3 & -> & Hc3). cbn [mbind outcome_bind].
  destruct (add_word_ok k len 4 b Hl Hb) as (b1 & -> & Hb1). cbn [mbind outcome_bind].
  destruct (add_word_ok k len 0 a Hl Ha) as (a1 & -> & Ha1). cbn [mbind outcome_bind].
  eexists. split; [done|]. by apply (mix_words (a1, b1, c3)).
Qed.

Lemma lookup_loop_ok fuel k len n abc :
  0 ≤ len ≤ Z.of_nat (length k) → len ≤ Z.of_nat fuel → words abc →
  ∃ h, lookup_loop fuel k len n abc = Done h ∧ word h.
Proof.
  revert k len abc. induction fuel as [|fuel IH]; intros k len abc Hl Hf Hw; cbn [lookup_loop];
    (destruct (Z.leb_spec 12 len); [|apply lookup_tail_ok; [lia|done]]); [lia|].
  destruct abc as [[a b] c], Hw as (Ha & Hb & Hc).
  destruct (add_word_ok k len 0 a ltac:(lia) Ha) as (a1 & -> & Ha1). cbn [mbind outcome_bind].
  destruct (add_word_ok k len 4 b ltac:(lia) Hb) as (b1 & -> & Hb1). cbn [mbind outcome_bind].
  destruct (add_word_ok k len 8 c ltac:(lia) Hc) as (c1 & -> & Hc1). cbn [mbind outcome_bind].
  apply IH; [rewrite length_drop; lia|lia|]. by apply (mix_words (a1, b1, c1)).
Qed.

(** [lookup] reads only its key, and returns a 32-bit word. *)
Lemma lookup_hash_ok k n level :
  0 ≤ n ≤ Z.of_nat (length k) → word level → ∃ h, lookup_hash k n level = Done h ∧ word h.
Proof. intros Hn Hl. apply lookup_loop_ok; [lia|lia|]. split_and!; [done|done|exact Hl]. Qed.
