(* ===== verification/HcList.v ===== *)
(** * HashCache: doubly linked lists

    [src/HashCache/src/list.c] at the level of its pointers.  A list owns the
    elements it allocated; an address is a [positive], [NULL] is [None], and an
    access through [NULL] or through an element that was freed is a fault.
    [malloc] is any function that returns an address not in use.  A list is
    passed by its record, so the tests for a [NULL] list do not appear, and the
    counters that [printListStats] prints are left out. *)

From Stdlib Require Import ZArith Lia.
From stdpp Require Import base list option numbers gmap sets sorting.
From S2P Require Import Prelude Rearrange.

Class Malloc := {
  malloc : gset positive → positive;
  malloc_fresh X : malloc X ∉ X
}.

Abbreviation ptr := (option positive).

Record element (D : Type) := mk_element {
  el_value : Z;
  el_data : D;
  el_next : ptr;
  el_prev : ptr
}.
Arguments mk_element {_} _ _ _ _.
Arguments el_value {_} _.
Arguments el_data {_} _.
Arguments el_next {_} _.
Arguments el_prev {_} _.

(** [l_cells] are the elements of the list that are allocated. *)
Record llist (D : Type) := mk_llist {
  l_head : ptr;
  l_tail : ptr;
  l_size : Z;
  l_iterator : ptr;
  l_cells : gmap positive (element D)
}.
Arguments mk_llist {_} _ _ _ _ _.
Arguments l_head {_} _.
Arguments l_tail {_} _.
Arguments l_size {_} _.
Arguments l_iterator {_} _.
Arguments l_cells {_} _.

(** [struct temp]: what [sort] sorts. *)
Record temp := mk_temp { tmp_value : Z; tmp_ptr : ptr }.

Section Operations.
Context {D : Type} `{Malloc}.
Implicit Types (L : llist D) (p q : ptr).

(** ** Memory *)

Definition deref L p : outcome (element D) :=
  match p ≫= (λ a, l_cells L !! a) with Some e => Done e | None => Fault OutOfBounds end.

Definition set_cells (m : gmap positive (element D)) L : llist D :=
  mk_llist (l_head L) (l_tail L) (l_size L) (l_iterator L) m.
Definition set_head p L : llist D :=
  mk_llist p (l_tail L) (l_size L) (l_iterator L) (l_cells L).
Definition set_tail p L : llist D :=
  mk_llist (l_head L) p (l_size L) (l_iterator L) (l_cells L).
Definition set_size n L : llist D :=
  mk_llist (l_head L) (l_tail L) n (l_iterator L) (l_cells L).
Definition set_iterator p L : llist D :=
  mk_llist (l_head L) (l_tail L) (l_size L) p (l_cells L).

(** A write to a field of the element at [p]. *)
Definition modify L p (f : element D → element D) : outcome (llist D) :=
  match p with
  | None => Fault OutOfBounds
  | Some a => e ← deref L p; Done (set_cells (<[a := f e]> (l_cells L)) L)
  end.

Definition with_next q (e : element D) := mk_element (el_value e) (el_data e) q (el_prev e).
Definition with_prev q (e : element D) := mk_element (el_value e) (el_data e) (el_next e) q.
Definition with_data (d : D) (e : element D) := mk_element (el_value e) d (el_next e) (el_prev e).

Definition free_element L p : outcome (llist D) :=
  match p with
  | None => Done L
  | Some a => _ ← deref L p; Done (set_cells (delete a (l_cells L)) L)
  end.

Definition new_address L : positive := malloc (dom (l_cells L)).

(** [malloc] of an element, with its fields as the callers set them. *)
Definition new_element L (value : Z) (data : D) : llist D :=
  set_cells (<[new_address L := mk_element value data None None]> (l_cells L)) L.

(** ** Operations *)

Definition create : llist D := mk_llist None None 0 None ∅.

Definition addToHead L (value : Z) (data : D) : outcome (llist D) :=
  let newOne := Some (new_address L) in
  let L := new_element L value data in
  if l_size L =? 0 then
    Done (set_size (l_size L + 1) (set_head newOne (set_tail newOne L)))
  else
    L ← modify L newOne (with_next (l_head L));
    L ← modify L (l_head L) (with_prev newOne);
    let L := set_head newOne L in
    Done (set_size (l_size L + 1) L).

Definition addToTail L (value : Z) (data : D) : outcome (llist D) :=
  let newOne := Some (new_address L) in
  let L := new_element L value data in
  if l_size L =? 0 then
    Done (set_size (l_size L + 1) (set_tail newOne (set_head newOne L)))
  else
    L ← modify L newOne (with_next None);
    L ← modify L newOne (with_prev (l_tail L));
    L ← modify L (l_tail L) (with_next newOne);
    let L := set_tail newOne L in
    Done (set_size (l_size L + 1) L).

(** The loop of [addSorted]: [present] and [previous] at its end. *)
Fixpoint find_place (fuel : nat) L (value : Z) (present previous : ptr) : outcome (ptr * ptr) :=
  match present with
  | None => Done (present, previous)
  | Some _ =>
      e ← deref L present;
      if el_value e <? value then
        match fuel with
        | O => Fault OutOfFuel
        | S fuel => find_place fuel L value (el_next e) present
        end
      else Done (present, previous)
  end.

Definition addSorted L (data : D) (value : Z) : outcome (llist D) :=
  let present := l_head L in
  let newOne := Some (new_address L) in
  let L := new_element L value data in
  L ← match l_head L with
      | None => Done (set_tail newOne (set_head newOne L))
      | Some _ =>
          '(present, previous) ← find_place (size (l_cells L)) L value present None;
          match present with
          | None =>
              L ← modify L (l_tail L) (with_next newOne);
              L ← modify L newOne (with_prev (l_tail L));
              Done (set_tail newOne L)
          | Some _ =>
              e ← deref L present;
              if value <=? el_value e then
                match previous with
                | None =>
                    L ← modify L (l_head L) (with_prev newOne);
                    L ← modify L newOne (with_next (l_head L));
                    Done (set_head newOne L)
                | Some _ =>
                    L ← modify L previous (with_next newOne);
                    L ← modify L newOne (with_next present);
                    L ← modify L present (with_prev newOne);
                    modify L newOne (with_prev previous)
                end
              else Done L
          end
      end;
  Done (set_size (l_size L + 1) L).

(** The loop of [delete]; after freeing the element it reads its [next]. *)
Fixpoint delete_loop (fuel : nat) L (value : Z) (present previous : ptr) : outcome (llist D) :=
  match present with
  | None => Done L
  | Some _ =>
      match fuel with
      | O => Fault OutOfFuel
      | S fuel =>
          e ← deref L present;
          L ← (if el_value e =? value then
                 L ← modify L previous (with_next (el_next e));
                 free_element L present
               else Done L);
          e ← deref L present;
          delete_loop fuel L value (el_next e) present
      end
  end.

(** [delete]. *)
Definition ldelete L (value : Z) : outcome (llist D) :=
  L ← delete_loop (S (size (l_cells L))) L value (l_head L) (l_head L);
  Done (set_size (l_size L - 1) L).

Definition deleteHead L : outcome (llist D) :=
  match l_head L with
  | None => Done L
  | Some _ =>
      if l_size L =? 1 then
        L ← free_element L (l_tail L);
        Done (set_size (l_size L - 1) (set_head None (set_tail None L)))
      else
        let tmp := l_head L in
        e ← deref L (l_head L);
        let L := set_head (el_next e) L in
        L ← modify L (l_head L) (with_prev None);
        L ← free_element L tmp;
        Done (set_size (l_size L - 1) L)
  end.

Definition deleteTail L : outcome (llist D) :=
  match l_head L with
  | None => Done L
  | Some _ =>
      if l_size L =? 1 then
        L ← free_element L (l_head L);
        Done (set_size (l_size L - 1) (set_tail None (set_head None L)))
      else
        let tmp := l_tail L in
        e ← deref L (l_tail L);
        let L := set_tail (el_prev e) L in
        L ← modify L (l_tail L) (with_next None);
        L ← free_element L tmp;
        Done (set_size (l_size L - 1) L)
  end.

(** [None] stands for the pointer [-1] that these return on an empty list. *)
Definition getHeadData L : outcome (option D) :=
  match l_head L with
  | None => Done None
  | Some _ => e ← deref L (l_head L); Done (Some (el_data e))
  end.

Definition getTailData L : outcome (option D) :=
  match l_tail L with
  | None => Done None
  | Some _ => e ← deref L (l_tail L); Done (Some (el_data e))
  end.

Definition getHeadValue L : outcome Z :=
  match l_head L with
  | None => Done (-1)
  | Some _ => e ← deref L (l_head L); Done (el_value e)
  end.

Definition getTailValue L : outcome Z :=
  match l_head L with
  | None => Done (-1)
  | Some _ => e ← deref L (l_tail L); Done (el_value e)
  end.

Definition getSize L : Z := l_size L.

(** The loop of [copy]. *)
Fixpoint copy_loop (fuel : nat) L (present : ptr) (copy : llist D) : outcome (llist D) :=
  match present with
  | None => Done copy
  | Some _ =>
      match fuel with
      | O => Fault OutOfFuel
      | S fuel =>
          e ← deref L present;
          copy ← addToTail copy (el_value e) (el_data e);
          copy_loop fuel L (el_next e) copy
      end
  end.

Definition copy L : outcome (llist D) :=
  copy_loop (size (l_cells L)) L (l_head L) create.

(** The loop of [ldestroy]; [free(L)] ends the list. *)
Fixpoint destroy_loop (fuel : nat) L (present : ptr) : outcome (llist D) :=
  match present with
  | None => Done L
  | Some _ =>
      match fuel with
      | O => Fault OutOfFuel
      | S fuel =>
          e ← deref L present;
          L ← free_element L present;
          destroy_loop fuel L (el_next e)
      end
  end.

Definition ldestroy L : outcome (llist D) :=
  if l_size L =? 0 then Done L
  else destroy_loop (S (size (l_cells L))) L (l_head L).

(** ** The iterator *)

(** [None] is [NULL]. *)
Definition getPresentData L : outcome (option D) :=
  match l_iterator L with
  | None => Done None
  | Some _ => e ← deref L (l_iterator L); Done (Some (el_data e))
  end.

Definition setPresentData L (dat : D) : outcome (llist D) :=
  match l_iterator L with
  | None => Done L
  | Some _ => modify L (l_iterator L) (with_data dat)
  end.

Definition getPresentValue L : outcome Z :=
  match l_iterator L with
  | None => Done (-1)
  | Some _ => e ← deref L (l_iterator L); Done (el_value e)
  end.

Definition notEnd L : bool :=
  negb (bool_decide (l_iterator L = None) || (l_size L =? 0)).

Definition startIter L : llist D := set_iterator (l_head L) L.
Definition endIter L : llist D := set_iterator (l_tail L) L.

Definition move L : outcome (llist D) :=
  match l_iterator L with
  | None => Done L
  | Some _ => e ← deref L (l_iterator L); Done (set_iterator (el_next e) L)
  end.

Definition getIter L : ptr := l_iterator L.
Definition setIter L (data : ptr) : llist D := set_iterator data L.

Definition deletePresent L : outcome (llist D) :=
  match l_iterator L with
  | None => Done L
  | Some _ =>
      if l_size L =? 0 then Done L
      else if (l_size L =? 1) && negb (bool_decide (l_iterator L = l_head L)) then Done L
      else if (l_size L =? 1) && bool_decide (l_iterator L = l_head L) then
        L ← free_element L (l_head L);
        let L := set_iterator None (set_head None (set_tail None L)) in
        Done (set_size (l_size L - 1) L)
      else if bool_decide (l_iterator L = l_head L) then
        e ← deref L (l_head L);
        let L := set_head (el_next e) L in
        L ← modify L (l_head L) (with_prev None);
        L ← free_element L (l_iterator L);
        let L := set_size (l_size L - 1) L in
        Done (set_iterator (l_head L) L)
      else if bool_decide (l_iterator L = l_tail L) then
        e ← deref L (l_tail L);
        let L := set_tail (el_prev e) L in
        L ← modify L (l_tail L) (with_next None);
        L ← free_element L (l_iterator L);
        let L := set_size (l_size L - 1) L in
        Done (set_iterator None L)
      else
        let temp := l_iterator L in
        e ← deref L (l_iterator L);
        L ← modify L (el_prev e) (with_next (el_next e));
        e ← deref L (l_iterator L);
        L ← modify L (el_next e) (with_prev (el_prev e));
        e ← deref L (l_iterator L);
        let L := set_iterator (el_next e) L in
        L ← free_element L temp;
        Done (set_size (l_size L - 1) L)
  end.

(** The [next] of the element moved keeps pointing into the list. *)
Definition movePresentToTail L : outcome (llist D) :=
  if l_size L =? 1 then Done L
  else if bool_decide (l_iterator L = l_head L) then
    let pres := l_iterator L in
    e ← deref L (l_head L);
    let next := el_next e in
    let L := set_head next L in
    L ← modify L next (with_prev None);
    L ← modify L (l_tail L) (with_next pres);
    L ← modify L pres (with_prev (l_tail L));
    Done (set_tail pres L)
  else if bool_decide (l_tail L = l_iterator L) then Done L
  else
    let pres := l_iterator L in
    e ← deref L pres;
    let prev := el_prev e in
    let next := el_next e in
    L ← modify L (l_tail L) (with_next pres);
    L ← modify L prev (with_next next);
    L ← modify L next (with_prev prev);
    L ← modify L pres (with_prev (l_tail L));
    Done (set_tail pres L).

(** ** Sorting *)

(** The two inner loops of [quicksort]. *)
Fixpoint scan_right (fuel : nat) (locations : list temp) (pivotValue left right : Z) : outcome Z :=
  x ← get_at locations right;
  if (pivotValue <=? tmp_value x) && (left <? right) then
    match fuel with
    | O => Fault OutOfFuel
    | S fuel => scan_right fuel locations pivotValue left (right - 1)
    end
  else Done right.

Fixpoint scan_left (fuel : nat) (locations : list temp) (pivotValue left right : Z) : outcome Z :=
  x ← get_at locations left;
  if (tmp_value x <=? pivotValue) && (left <? right) then
    match fuel with
    | O => Fault OutOfFuel
    | S fuel => scan_left fuel locations pivotValue (left + 1) right
    end
  else Done left.

(** [locations[to] = locations[from]], field by field. *)
Definition move_location (locations : list temp) (to from : Z) : outcome (list temp) :=
  x ← get_at locations from;
  put locations (Z.to_nat to) x.

Fixpoint partition_loop (fuel : nat) (locations : list temp) (pivotValue left right : Z)
    : outcome (list temp * Z * Z) :=
  if left <? right then
    match fuel with
    | O => Fault OutOfFuel
    | S fuel =>
        right ← scan_right (length locations) locations pivotValue left right;
        '(locations, left) ← (if left =? right then Done (locations, left)
          else locations ← move_location locations left right; Done (locations, left + 1));
        left ← scan_left (length locations) locations pivotValue left right;
        '(locations, right) ← (if left =? right then Done (locations, right)
          else locations ← move_location locations right left; Done (locations, right - 1));
        partition_loop fuel locations pivotValue left right
    end
  else Done (locations, left, right).

Fixpoint quicksort_fuel (fuel : nat) (locations : list temp) (left right : Z) : outcome (list temp) :=
  match fuel with
  | O => Fault OutOfFuel
  | S fuel =>
      let lHold := left in
      let rHold := right in
      pivotItem ← get_at locations left;
      '(locations, left, _) ←
        partition_loop (length locations) locations (tmp_value pivotItem) left right;
      locations ← put locations (Z.to_nat left) pivotItem;
      let pivot := left in
      locations ← (if lHold <? pivot then quicksort_fuel fuel locations lHold (pivot - 1)
                   else Done locations);
      if pivot <? rHold then quicksort_fuel fuel locations (pivot + 1) rHold
      else Done locations
  end.

Definition quicksort (locations : list temp) (left right : Z) : outcome (list temp) :=
  quicksort_fuel (length locations) locations left right.

(** The loop that fills [locations]. *)
Fixpoint collect (fuel : nat) L (present : ptr) : outcome (list temp) :=
  match present with
  | None => Done []
  | Some _ =>
      match fuel with
      | O => Fault OutOfFuel
      | S fuel =>
          e ← deref L present;
          locations ← collect fuel L (el_next e);
          Done (mk_temp (el_value e) present :: locations)
      end
  end.

Definition link (locations : list temp) L (i : nat) : outcome (llist D) :=
  x ← get locations i;
  y ← get locations (S i);
  L ← modify L (tmp_ptr x) (with_next (tmp_ptr y));
  modify L (tmp_ptr y) (with_prev (tmp_ptr x)).

Definition sort L : outcome (llist D) :=
  if l_size L =? 0 then Done L
  else
    locations ← collect (Z.to_nat (l_size L)) L (l_head L);
    locations ← quicksort locations 0 (l_size L - 1);
    first ← get locations 0;
    last ← get_at locations (l_size L - 1);
    let L := set_iterator None (set_tail (tmp_ptr last) (set_head (tmp_ptr first) L)) in
    L ← foldM (link locations) L (seq 0 (Z.to_nat (l_size L - 1)));
    L ← modify L (tmp_ptr first) (with_prev None);
    modify L (tmp_ptr last) (with_next None).
End Operations.

(** ** What a list holds

    [item]s are the elements in order, with their addresses.  [chain m pp xs qn]
    says that the elements of [xs] are linked both ways in [m], that the [prev]
    of the first is [pp] and that the [next] of the last is [qn]. *)

Record item (D : Type) := mk_item { it_at : positive; it_value : Z; it_data : D }.
Arguments mk_item {_} _ _ _.
Arguments it_at {_} _.
Arguments it_value {_} _.
Arguments it_data {_} _.

Section Representation.
Context {D : Type}.
Implicit Types (L : llist D) (xs ys : list (item D)) (x y : item D) (m : gmap positive (element D)).

Definition addrs xs : list positive := it_at <$> xs.
Definition first xs (qn : ptr) : ptr := match xs with [] => qn | x :: _ => Some (it_at x) end.
Fixpoint final (pp : ptr) xs : ptr :=
  match xs with [] => pp | x :: xs => final (Some (it_at x)) xs end.

Fixpoint chain m (pp : ptr) xs (qn : ptr) : Prop :=
  match xs with
  | [] => True
  | x :: xs =>
      m !! it_at x = Some (mk_element (it_value x) (it_data x) (first xs qn) pp) ∧
      chain m (Some (it_at x)) xs qn
  end.

(** [tn] is the [next] of the last element: [NULL] in a list that is closed, but
    [movePresentToTail] leaves it pointing into the list. *)
Record rep L xs (tn : ptr) : Prop := {
  rep_nodup : NoDup (addrs xs);
  rep_head : l_head L = first xs None;
  rep_tail : l_tail L = final None xs;
  rep_size : l_size L = Z.of_nat (length xs);
  rep_chain : chain (l_cells L) None xs tn;
  rep_dom : dom (l_cells L) = list_to_set (addrs xs)
}.

Lemma first_app xs ys qn : first (xs ++ ys) qn = (first xs (first ys qn)).
Proof. by destruct xs. Qed.
Lemma final_app pp xs ys : final pp (xs ++ ys) = final (final pp xs) ys.
Proof. revert pp. induction xs as [|x xs IH]; intros pp; [done|]. apply IH. Qed.
Lemma final_snoc pp xs x : final pp (xs ++ [x]) = Some (it_at x).
Proof. by rewrite final_app. Qed.
Lemma addrs_app xs ys : addrs (xs ++ ys) = addrs xs ++ addrs ys.
Proof. apply fmap_app. Qed.

Lemma final_cases xs : (xs = [] ∧ ∀ pp, final pp xs = pp) ∨
  ∃ ys y, xs = ys ++ [y] ∧ ∀ pp, final pp xs = Some (it_at y).
Proof.
  destruct xs as [|y ys] using rev_ind; [by left|right].
  exists ys, y. split; [done|]. intros pp. apply final_snoc.
Qed.

Lemma addrs_cons x xs : addrs (x :: xs) = it_at x :: addrs xs.
Proof. done. Qed.
Lemma addrs_nil : addrs [] = [].
Proof. done. Qed.

Lemma addrs_perm xs ys : xs ≡ₚ ys → list_to_set (addrs xs) =@{gset positive} list_to_set (addrs ys).
Proof. intros Hp. apply list_to_set_perm_L. unfold addrs. by rewrite Hp. Qed.

Lemma apart_cons (l k : list positive) a :
  (∀ b, b ∈ l → b ∉ (a :: k)) ↔ ((a ∉ l) ∧ ∀ b, b ∈ l → b ∉ k).
Proof.
  split.
  - intros Hb. split; [intros Ha; apply (Hb a Ha); by left|].
    intros b Hl Hk. apply (Hb b Hl). by right.
  - intros [Ha Hb] b Hl. rewrite not_elem_of_cons. split; [by intros ->|by apply Hb].
Qed.
Lemma apart_nil (l : list positive) : (∀ b, b ∈ l → b ∉ []) ↔ True.
Proof. split; [done|]. intros _ b _. apply not_elem_of_nil. Qed.
Lemma apart_app (l1 l2 k : list positive) :
  (∀ b, b ∈ l1 ++ l2 → b ∉ k) ↔ ((∀ b, b ∈ l1 → b ∉ k) ∧ ∀ b, b ∈ l2 → b ∉ k).
Proof. setoid_rewrite elem_of_app. naive_solver. Qed.
Lemma apart_app_r (l k1 k2 : list positive) :
  (∀ b, b ∈ l → b ∉ (k1 ++ k2)) ↔ ((∀ b, b ∈ l → b ∉ k1) ∧ ∀ b, b ∈ l → b ∉ k2).
Proof. setoid_rewrite not_elem_of_app. firstorder. Qed.
Lemma apart_one (a : positive) (k : list positive) : (∀ b, b ∈ [a] → b ∉ k) ↔ (a ∉ k).
Proof. setoid_rewrite list_elem_of_singleton. naive_solver. Qed.

Lemma chain_app m pp xs ys qn :
  chain m pp (xs ++ ys) qn ↔ chain m pp xs (first ys qn) ∧ chain m (final pp xs) ys qn.
Proof.
  revert pp. induction xs as [|x xs IH]; intros pp; cbn; [tauto|].
  rewrite first_app, IH. tauto.
Qed.

Lemma chain_ext m m' pp xs qn :
  (∀ a, a ∈ addrs xs → m' !! a = m !! a) → chain m pp xs qn → chain m' pp xs qn.
Proof.
  revert pp. induction xs as [|x xs IH]; intros pp Hm; cbn; [done|].
  intros [Hx Hc]. split.
  - rewrite Hm; [done|]. by left.
  - apply IH; [|done]. intros a Ha. apply Hm. by right.
Qed.

Lemma chain_insert m a e pp xs qn : a ∉ addrs xs → chain m pp xs qn → chain (<[a := e]> m) pp xs qn.
Proof.
  intros Ha. apply chain_ext. intros b Hb. rewrite lookup_insert_ne; [done|]. by intros ->.
Qed.

Lemma chain_delete m a pp xs qn : a ∉ addrs xs → chain m pp xs qn → chain (delete a m) pp xs qn.
Proof.
  intros Ha. apply chain_ext. intros b Hb. rewrite lookup_delete_ne; [done|]. by intros ->.
Qed.

Lemma rep_fresh `{Malloc} L xs tn : rep L xs tn → new_address L ∉ addrs xs.
Proof.
  intros Hr Hin. apply (malloc_fresh (dom (l_cells L))). unfold new_address in Hin.
  rewrite (rep_dom _ _ _ Hr) at 2. by apply elem_of_list_to_set.
Qed.

Lemma rep_cells_size L xs tn : rep L xs tn → size (l_cells L) = length xs.
Proof.
  intros Hr. rewrite <-size_dom, (rep_dom _ _ _ Hr), size_list_to_set by apply Hr.
  unfold addrs. by rewrite length_fmap.
Qed.

Lemma rep_nil L tn : rep L [] tn → l_head L = None ∧ l_tail L = None ∧ l_size L = 0 ∧ l_cells L = ∅.
Proof.
  intros Hr. split_and!; [apply (rep_head _ _ _ Hr)|apply (rep_tail _ _ _ Hr)|apply (rep_size _ _ _ Hr)|].
  apply dom_empty_iff_L. apply (rep_dom _ _ _ Hr).
Qed.

Lemma rep_iterator L xs tn p : rep L xs tn → rep (set_iterator p L) xs tn.
Proof. by intros []; split. Qed.

Lemma deref_ok L a e : l_cells L !! a = Some e → deref L (Some a) = Done e.
Proof. intros He. unfold deref. cbn. by rewrite He. Qed.

Lemma modify_ok L a e f :
  l_cells L !! a = Some e → modify L (Some a) f = Done (set_cells (<[a := f e]> (l_cells L)) L).
Proof. intros He. unfold modify. by rewrite (deref_ok _ _ _ He). Qed.

Lemma free_ok L a e :
  l_cells L !! a = Some e → free_element L (Some a) = Done (set_cells (delete a (l_cells L)) L).
Proof. intros He. unfold free_element. by rewrite (deref_ok _ _ _ He). Qed.
End Representation.

Create Rewrite HintDb addrs.
#[export] Hint Rewrite @addrs_app @addrs_cons @addrs_nil @app_nil_r @app_nil_l : addrs.
Create HintDb linked.
#[export] Hint Resolve chain_insert chain_delete not_elem_of_nil : linked.
#[export] Hint Extern 2 (_ ∉ _ :: _) => (rewrite not_elem_of_cons; split) : linked.

(** That the addresses of some elements differ, as the separate facts. *)
Ltac separate H :=
  let K := fresh "Hap" in
  pose proof H as K; autorewrite with addrs in K;
  repeat match type of K with
  | context [NoDup (_ ++ _)] => rewrite NoDup_app in K
  | context [NoDup (_ :: _)] => rewrite NoDup_cons in K
  | context [_ ∈ _ ++ _] => rewrite apart_app in K
  | context [_ ∈ [_]] => rewrite apart_one in K
  | context [_ ∉ _ :: _] => first [rewrite apart_cons in K | rewrite not_elem_of_cons in K]
  | context [_ ∉ _ ++ _] => first [rewrite apart_app_r in K | rewrite not_elem_of_app in K]
  | context [_ ∉ []] => rewrite apart_nil in K
  end;
  destruct_and? K.

(** One step of an operation whose elements are known. *)
Ltac cells :=
  cbn [l_cells set_cells set_head set_tail set_size set_iterator new_element];
  first [eassumption | by simplify_map_eq].
Ltac same_dom :=
  rewrite ?dom_delete_L; repeat rewrite dom_insert_lookup_L by (eexists; cells); try done.
Ltac run_step :=
  match goal with
  | |- context [modify _ (Some _) _] => erewrite modify_ok by cells
  | |- context [deref _ (Some _)] => erewrite deref_ok by cells
  | |- context [free_element _ (Some _)] => erewrite free_ok by cells
  end; cbn [mbind outcome_bind].
Ltac run := repeat (run_step; cbn [el_prev el_next with_next with_prev l_iterator l_head l_tail l_size
  set_cells set_head set_tail set_size set_iterator new_element]).

Section Insertion.
Context {D : Type} `{Malloc}.
Implicit Types (L : llist D) (xs ys : list (item D)) (x y : item D).

Lemma rep_create tn : rep (D := D) create [] tn.
Proof. by split; try constructor. Qed.

Lemma addToTail_ok L xs tn v d :
  rep L xs tn →
  ∃ L', addToTail L v d = Done L' ∧ rep L' (xs ++ [mk_item (new_address L) v d]) None ∧
    l_iterator L' = l_iterator L.
Proof.
  intros Hr. pose proof (rep_fresh _ _ _ Hr) as Hf. destruct Hr as [Hn Hh Ht Hs Hc Hd].
  unfold addToTail. change (l_size (new_element L v d)) with (l_size L).
  set (a := new_address L) in *.
  destruct xs as [|t ys _] using rev_ind.
  - rewrite Hs. cbn. eexists. split; [done|]. split; [|done]. split; cbn.
    + repeat constructor. set_solver.
    + done.
    + done.
    + lia.
    + by rewrite lookup_insert_eq.
    + rewrite dom_insert_L, Hd. set_solver.
  - rewrite length_app in Hs. cbn in Hs. rewrite (proj2 (Z.eqb_neq _ _)) by lia.
    rewrite final_snoc in Ht. change (l_tail (new_element L v d)) with (l_tail L).
    pose proof Hn as Hnd. separate Hn. separate Hf.
    apply chain_app in Hc as [Hc1 [Hct _]]. cbn in Hct.
    run. cbn [l_tail set_cells new_element]. rewrite Ht. run. eexists. split; [done|]. split; [|done].
    split; cbn.
    + rewrite addrs_app. apply NoDup_app. split; [done|]. split; [|apply NoDup_singleton].
      autorewrite with addrs. set_solver.
    + rewrite Hh, !first_app. by destruct ys.
    + by rewrite final_snoc.
    + rewrite !length_app. cbn. lia.
    + rewrite <-app_assoc. apply chain_app. split; [auto 10 with linked|]. cbn.
      split_and!; [by simplify_map_eq|by simplify_map_eq|done].
    + rewrite !addrs_app, !dom_insert_L, Hd. set_solver.
Qed.

Lemma addToHead_ok L xs tn v d :
  rep L xs tn →
  ∃ L' tn', addToHead L v d = Done L' ∧ rep L' (mk_item (new_address L) v d :: xs) tn' ∧
    (xs = [] ∨ tn = None → tn' = None) ∧ l_iterator L' = l_iterator L.
Proof.
  intros Hr. pose proof (rep_fresh _ _ _ Hr) as Hf. destruct Hr as [Hn Hh Ht Hs Hc Hd].
  unfold addToHead. change (l_size (new_element L v d)) with (l_size L).
  set (a := new_address L) in *.
  destruct xs as [|t ys].
  - rewrite Hs. cbn. eexists _, None. split; [done|]. split_and!; [|done..]. split; cbn.
    + repeat constructor. set_solver.
    + done.
    + done.
    + lia.
    + by rewrite lookup_insert_eq.
    + rewrite dom_insert_L, Hd. set_solver.
  - rewrite (proj2 (Z.eqb_neq _ _)) by (cbn in Hs; lia).
    cbn [first] in Hh. change (l_head (new_element L v d)) with (l_head L).
    pose proof Hn as Hnd. pose proof Hf as Hfd. separate Hn. separate Hf.
    destruct Hc as [Hct Hc1]. cbn in Hct.
    run. cbn [l_head set_cells new_element]. rewrite Hh. run. eexists _, tn. split; [done|].
    split_and!; [|intuition congruence|done].
    split; cbn.
    + by constructor.
    + done.
    + rewrite Ht. done.
    + cbn in Hs. lia.
    + split_and!; [by simplify_map_eq|by simplify_map_eq|]. auto 10 with linked.
    + rewrite !dom_insert_L, Hd. cbn. set_solver.
Qed.
End Insertion.

Section Deletion.
Context {D : Type} `{Malloc}.
Implicit Types (L : llist D) (xs ys l r : list (item D)) (x y : item D).

(** The [next] of the last element after the last has been removed. *)
Definition end_after r (tn : ptr) : ptr := match r with [] => None | _ => tn end.

Lemma rep_split L l x r tn :
  rep L (l ++ x :: r) tn →
  NoDup (addrs (l ++ x :: r)) ∧ l_size L = Z.of_nat (length l) + 1 + Z.of_nat (length r) ∧
  l_head L = first l (Some (it_at x)) ∧ l_tail L = final (Some (it_at x)) r ∧
  chain (l_cells L) None l (Some (it_at x)) ∧
  l_cells L !! it_at x = Some (mk_element (it_value x) (it_data x) (first r tn) (final None l)) ∧
  chain (l_cells L) (Some (it_at x)) r tn ∧
  dom (l_cells L) = list_to_set (addrs l) ∪ {[ it_at x ]} ∪ list_to_set (addrs r).
Proof.
  intros [Hn Hh Ht Hs Hc Hd]. apply chain_app in Hc as [Hc1 [Hx Hc2]].
  split_and!; try done.
  - rewrite Hs, length_app. cbn. lia.
  - by rewrite Hh, first_app.
  - by rewrite Ht, final_app.
  - rewrite Hd. autorewrite with addrs. rewrite list_to_set_app_L. cbn. clear. set_solver.
Qed.

Lemma rep_cut L l x r tn L' tn' :
  rep L (l ++ x :: r) tn →
  l_head L' = first (l ++ r) None → l_tail L' = final None (l ++ r) → l_size L' = l_size L - 1 →
  chain (l_cells L') None l (first r tn') → chain (l_cells L') (final None l) r tn' →
  dom (l_cells L') = dom (l_cells L) ∖ {[ it_at x ]} →
  rep L' (l ++ r) tn'.
Proof.
  intros Hr Hh Ht Hs Hc1 Hc2 Hd.
  apply rep_split in Hr as (Hn & Hs0 & _ & _ & _ & _ & _ & Hd0). separate Hn.
  split; try done.
  - rewrite addrs_app. by apply NoDup_app.
  - rewrite Hs, Hs0, length_app. lia.
  - apply chain_app. done.
  - rewrite addrs_app, list_to_set_app_L, Hd, Hd0. set_solver.
Qed.

Lemma deleteHead_ok L x r tn :
  rep L (x :: r) tn →
  ∃ L', deleteHead L = Done L' ∧ rep L' r (end_after r tn) ∧ l_iterator L' = l_iterator L.
Proof.
  intros Hr. pose proof (rep_split L [] x r tn Hr) as (Hn & Hs & Hh & Ht & _ & Hx & Hc & _).
  cbn in Hh, Hs. unfold deleteHead. rewrite Hh. destruct r as [|y r].
  - rewrite Hs. cbn. cbn in Ht. rewrite Ht. run. eexists. split; [done|]. split; [|done].
    apply (rep_cut L [] x [] tn _ None Hr); cbn; try done. same_dom.
  - rewrite (proj2 (Z.eqb_neq _ _)) by (cbn in Hs; lia).
    destruct Hc as [Hy Hc]. cbn [first] in Hx. separate Hn.
    run. eexists. split; [done|]. split; [|done].
    apply (rep_cut L [] x (y :: r) tn _ tn Hr); cbn; try done.
    + split; [by simplify_map_eq|auto 10 with linked].
    + same_dom.
Qed.

Lemma deleteTail_ok L l x tn :
  rep L (l ++ [x]) tn →
  ∃ L', deleteTail L = Done L' ∧ rep L' l None ∧ l_iterator L' = l_iterator L.
Proof.
  intros Hr. pose proof (rep_split L l x [] tn Hr) as (Hn & Hs & Hh & Ht & Hc & Hx & _).
  cbn in Ht. unfold deleteTail. destruct l as [|y l _] using rev_ind.
  - cbn in Hh. rewrite Hh. rewrite Hs. cbn. run. eexists. split; [done|]. split; [|done].
    apply (rep_cut L [] x [] tn _ None Hr); cbn; try done. same_dom.
  - assert (∃ z, l_head L = Some z) as [z Hz] by (rewrite Hh; destruct l; eauto).
    rewrite Hz. rewrite length_app in Hs. cbn in Hs. rewrite (proj2 (Z.eqb_neq _ _)) by lia.
    rewrite final_snoc in Hx. apply chain_app in Hc as [Hc [Hy _]]. cbn in Hy. separate Hn.
    rewrite Ht. run. eexists. split; [done|]. split; [|done].
    rewrite <-(app_nil_r (l ++ [y])). apply (rep_cut L (l ++ [y]) x [] tn _ None Hr); cbn; try done.
    + rewrite app_nil_r. rewrite Hh. by destruct l.
    + by rewrite app_nil_r, final_snoc.
    + apply chain_app. split; [auto 10 with linked|]. split; [by simplify_map_eq|done].
    + same_dom.
Qed.

Lemma first_ne l x (a : positive) : first l (Some (it_at x)) = Some a → a ∉ addrs l → a = it_at x.
Proof. destruct l as [|y l]; cbn; [by intros [= <-]|]. intros [= <-] Hn. destruct Hn. by left. Qed.

Lemma final_ne l x (a : positive) : final (Some (it_at x)) l = Some a → a ∉ addrs l → a = it_at x.
Proof.
  destruct (final_cases l) as [[-> Hf]|(l' & y & -> & Hf)]; rewrite Hf; [by intros [= <-]|].
  intros [= <-]. rewrite addrs_app. intros Hn. destruct Hn. apply elem_of_app. right. by left.
Qed.

Lemma deletePresent_ok L l x r tn :
  rep L (l ++ x :: r) tn → l_iterator L = Some (it_at x) →
  ∃ L', deletePresent L = Done L' ∧ rep L' (l ++ r) (end_after r tn) ∧ l_iterator L' = first r None.
Proof.
  intros Hr Hi. pose proof (rep_split _ _ _ _ _ Hr) as (Hn & Hs & Hh & Ht & Hcl & Hx & Hcr & _).
  unfold deletePresent. rewrite Hi, (proj2 (Z.eqb_neq _ 0)) by lia.
  destruct l as [|z l _] using rev_ind.
  - cbn in Hh. rewrite Hh. rewrite bool_decide_true by done. cbn [negb]. rewrite andb_false_r, andb_true_r.
    destruct r as [|y r].
    + rewrite Hs. cbn. run. eexists. split; [done|]. split; [|done].
      apply (rep_cut L [] x [] tn _ None Hr); cbn; try done. same_dom.
    + rewrite (proj2 (Z.eqb_neq _ _)) by (cbn in Hs; lia). cbn [first] in Hx.
      destruct Hcr as [Hy Hcr]. separate Hn. run. rewrite Hi. run.
      eexists. split; [done|]. split; [|done].
      apply (rep_cut L [] x (y :: r) tn _ tn Hr); cbn; try done.
      * split; [by simplify_map_eq|auto 10 with linked].
      * same_dom.
  - rewrite length_app in Hs. cbn in Hs. rewrite (proj2 (Z.eqb_neq _ 1)) by lia. cbn [andb].
    rewrite final_snoc in Hx. apply chain_app in Hcl as [Hcl [Hz _]]. cbn in Hz. separate Hn.
    rewrite bool_decide_false.
    2: { intros Heq. symmetry in Heq. rewrite Hh, first_app in Heq. cbn in Heq.
         by apply first_ne in Heq. }
    destruct r as [|y r].
    + cbn in Ht. rewrite Ht. rewrite bool_decide_true by done. run. rewrite Hi. run.
      eexists. split; [done|]. split; [|done].
      apply (rep_cut L (l ++ [z]) x [] tn _ None Hr); cbn; try done.
      * rewrite Hh, app_nil_r. by destruct l.
      * by rewrite app_nil_r, final_snoc.
      * apply chain_app. split; [auto 10 with linked|]. split; [by simplify_map_eq|done].
      * same_dom.
    + destruct Hcr as [Hy Hcr]. separate Hn.
      rewrite bool_decide_false.
      2: { intros Heq. symmetry in Heq. rewrite Ht in Heq. cbn in Heq.
           by apply final_ne in Heq. }
      cbn [first] in Hx. run. rewrite Hi. run. rewrite Hi. run.
      eexists. split; [done|]. split; [|done].
      apply (rep_cut L (l ++ [z]) x (y :: r) tn _ tn Hr); cbn; try done.
      * rewrite Hh, !first_app. by destruct l.
      * rewrite Ht, final_app. done.
      * apply chain_app. split; [auto 10 with linked|]. split; [by simplify_map_eq|done].
      * rewrite final_snoc. split; [by simplify_map_eq|auto 10 with linked].
      * same_dom.
Qed.

Lemma rep_move L l x r tn L' tn' :
  rep L (l ++ x :: r) tn →
  l_head L' = first (l ++ r ++ [x]) None → l_tail L' = Some (it_at x) → l_size L' = l_size L →
  chain (l_cells L') None (l ++ r ++ [x]) tn' → dom (l_cells L') = dom (l_cells L) →
  rep L' (l ++ r ++ [x]) tn'.
Proof.
  intros Hr Hh Ht Hs Hc Hd.
  assert (l ++ x :: r ≡ₚ l ++ r ++ [x]) as Hp by solve_Permutation. split; try done.
  - unfold addrs. rewrite <-Hp. apply Hr.
  - by rewrite Ht, !final_app.
  - rewrite Hs, <-Hp. apply Hr.
  - rewrite Hd, (rep_dom _ _ _ Hr). by apply addrs_perm.
Qed.

(** The element under the iterator becomes the last; its [next] stays. *)
Lemma movePresentToTail_ok L l x r tn :
  rep L (l ++ x :: r) tn → l_iterator L = Some (it_at x) →
  ∃ L', movePresentToTail L = Done L' ∧ rep L' (l ++ r ++ [x]) (first r tn) ∧
    l_iterator L' = Some (it_at x).
Proof.
  intros Hr Hi. pose proof (rep_split _ _ _ _ _ Hr) as (Hn & Hs & Hh & Ht & Hcl & Hx & Hcr & Hd).
  unfold movePresentToTail.
  destruct (Z.eqb_spec (l_size L) 1) as [Hone|Hmany].
  { destruct l; [|cbn in Hs; lia]. destruct r; [|cbn in Hs; lia]. by exists L. }
  destruct r as [|t r _] using rev_ind.
  - cbn in Ht. rewrite Hi. rewrite bool_decide_false.
    2: { intros Heq. symmetry in Heq. rewrite Hh in Heq. destruct l as [|z l]; [cbn in Hs; lia|].
         separate Hn. cbn in Heq. injection Heq. by auto. }
    rewrite Ht, bool_decide_true by done. by exists L.
  - rewrite final_snoc in Ht.
    apply chain_app in Hcr as [Hcr [Hct _]]. cbn in Hct.
    destruct l as [|z l _] using rev_ind.
    + cbn in Hh. rewrite Hi, Hh, bool_decide_true by done. destruct r as [|y r].
      * cbn in Hx. separate Hn. run. rewrite Ht. run. rewrite Ht. run.
        eexists. split; [done|]. split; [|done].
        apply (rep_move L [] x [t] tn _ _ Hr); cbn; try done.
        -- split_and!; [by simplify_map_eq..|done].
        -- same_dom.
      * destruct Hcr as [Hy Hcr]. cbn in Hx. separate Hn. run. rewrite Ht. run. rewrite Ht. run.
        eexists. split; [done|]. split; [|done].
        apply (rep_move L [] x (y :: r ++ [t]) tn _ _ Hr); cbn; try done.
        -- split; [rewrite !first_app in *; cbn; by simplify_map_eq|].
           rewrite <-app_assoc. apply chain_app. split; [auto 10 with linked|].
           cbn. split_and!; [by simplify_map_eq..|done].
        -- same_dom.
    + rewrite final_snoc in Hx. rewrite first_app in Hh. cbn in Hh.
      apply chain_app in Hcl as [Hcl [Hz _]]. cbn in Hz. separate Hn.
      rewrite Hi, bool_decide_false.
      2: { intros Heq. symmetry in Heq. rewrite Hh in Heq. by apply first_ne in Heq. }
      rewrite bool_decide_false by (rewrite Ht; congruence).
      destruct r as [|y r].
      * cbn in Hx, Hcr. separate Hn. run. rewrite Ht. run. rewrite Ht. run.
        eexists. split; [done|]. split; [|done].
        apply (rep_move L (l ++ [z]) x [t] tn _ _ Hr); cbn; try done.
        -- rewrite Hh, !first_app. by destruct l.
        -- rewrite <-app_assoc. apply chain_app. split; [auto 10 with linked|].
           cbn. split_and!; [by simplify_map_eq..|done].
        -- same_dom.
      * destruct Hcr as [Hy Hcr]. cbn in Hx. separate Hn. run. rewrite Ht. run. rewrite Ht. run.
        eexists. split; [done|]. split; [|done].
        apply (rep_move L (l ++ [z]) x (y :: r ++ [t]) tn _ _ Hr); cbn; try done.
        -- rewrite Hh, !first_app. by destruct l.
        -- rewrite <-app_assoc. apply chain_app. split; [auto 10 with linked|].
           cbn. split_and!; [by simplify_map_eq|rewrite !first_app in *; cbn; by simplify_map_eq|].
           rewrite <-app_assoc. apply chain_app. split; [auto 10 with linked|].
           cbn. split_and!; [by simplify_map_eq..|done].
        -- same_dom.
Qed.
End Deletion.

Section Reading.
Context {D : Type} `{Malloc}.
Implicit Types (L : llist D) (xs ys l r : list (item D)) (x y : item D).

Lemma rep_deref L l x r tn :
  rep L (l ++ x :: r) tn →
  deref L (Some (it_at x)) = Done (mk_element (it_value x) (it_data x) (first r tn) (final None l)).
Proof. intros Hr. apply rep_split in Hr as (_ & _ & _ & _ & _ & Hx & _). by apply deref_ok. Qed.

Lemma getHeadData_ok L x r tn : rep L (x :: r) tn → getHeadData L = Done (Some (it_data x)).
Proof.
  intros Hr. unfold getHeadData. rewrite (rep_head _ _ _ Hr). cbn [first].
  by rewrite (rep_deref L [] x r tn Hr).
Qed.

Lemma getTailData_ok L l x tn : rep L (l ++ [x]) tn → getTailData L = Done (Some (it_data x)).
Proof.
  intros Hr. unfold getTailData. rewrite (rep_tail _ _ _ Hr), final_snoc.
  by rewrite (rep_deref L l x [] tn Hr).
Qed.

Lemma getPresentData_ok L l x r tn :
  rep L (l ++ x :: r) tn → l_iterator L = Some (it_at x) → getPresentData L = Done (Some (it_data x)).
Proof. intros Hr Hi. unfold getPresentData. rewrite Hi. by rewrite (rep_deref L l x r tn Hr). Qed.

Lemma move_ok L l x r tn :
  rep L (l ++ x :: r) tn → l_iterator L = Some (it_at x) →
  move L = Done (set_iterator (first r tn) L).
Proof. intros Hr Hi. unfold move. rewrite Hi. by rewrite (rep_deref L l x r tn Hr). Qed.

Lemma setPresentData_ok L l x r tn d :
  rep L (l ++ x :: r) tn → l_iterator L = Some (it_at x) →
  ∃ L', setPresentData L d = Done L' ∧ rep L' (l ++ mk_item (it_at x) (it_value x) d :: r) tn ∧
    l_iterator L' = l_iterator L.
Proof.
  intros Hr Hi. pose proof (rep_split _ _ _ _ _ Hr) as (Hn & Hs & Hh & Ht & Hcl & Hx & Hcr & Hd).
  unfold setPresentData. rewrite Hi. run. eexists. split; [done|]. split; [|done].
  separate Hn. destruct Hr as [Hn' Hh' Ht' Hs' Hc' Hd']. split; cbn.
  - by rewrite addrs_app in *.
  - by rewrite Hh', !first_app.
  - by rewrite Ht', !final_app.
  - by rewrite Hs', !length_app.
  - apply chain_app. split; [auto 10 with linked|]. split; [by simplify_map_eq|auto 10 with linked].
  - rewrite dom_insert_lookup_L by (eexists; eassumption). by rewrite Hd', !addrs_app.
Qed.

Lemma notEnd_ok L xs tn : rep L xs tn → xs ≠ [] → notEnd L = negb (bool_decide (l_iterator L = None)).
Proof.
  intros Hr Hne. unfold notEnd. rewrite (rep_size _ _ _ Hr), (proj2 (Z.eqb_neq _ _)), orb_false_r; [done|].
  destruct xs; [done|cbn; lia].
Qed.

(** ** Sorted insertion *)

Lemma find_place_ok L l r v fuel :
  chain (l_cells L) (final None l) r None → (length r ≤ fuel)%nat →
  ∃ l1 l2, r = l1 ++ l2 ∧ Forall (λ x, it_value x < v) l1 ∧
    (∀ x l2', l2 = x :: l2' → v ≤ it_value x) ∧
    find_place fuel L v (first r None) (final None l) = Done (first l2 None, final None (l ++ l1)).
Proof.
  revert l fuel. induction r as [|x r IH]; intros l fuel Hc Hf.
  { exists [], []. rewrite !app_nil_r. destruct fuel; by split_and!. }
  destruct fuel as [|fuel]; [cbn in Hf; lia|]. destruct Hc as [Hx Hc]. cbn [find_place first].
  rewrite (deref_ok _ _ _ Hx). cbn [mbind outcome_bind el_value el_next].
  destruct (Z.ltb_spec (it_value x) v) as [Hlt|Hge].
  - destruct (IH (l ++ [x]) fuel) as (l1 & l2 & -> & Hl1 & Hl2 & Hp); [by rewrite final_snoc|cbn in Hf; lia|].
    exists (x :: l1), l2. split_and!; [done|by constructor|done|].
    rewrite final_snoc in Hp. rewrite Hp. by rewrite <-app_assoc.
  - exists [], (x :: r). rewrite app_nil_r. split_and!; [done|done| |done]. by intros ? ? [= <- <-].
Qed.

Lemma rep_insert L l r tn a v d L' :
  rep L (l ++ r) tn → a ∉ addrs (l ++ r) →
  l_head L' = first (l ++ mk_item a v d :: r) None → l_tail L' = final None (l ++ mk_item a v d :: r) →
  l_size L' = l_size L + 1 →
  chain (l_cells L') None (l ++ mk_item a v d :: r) tn → dom (l_cells L') = {[ a ]} ∪ dom (l_cells L) →
  rep L' (l ++ mk_item a v d :: r) tn.
Proof.
  intros Hr Ha Hh Ht Hs Hc Hd. split; try done.
  - rewrite addrs_app, addrs_cons. unfold addrs. rewrite <-Permutation_middle, <-fmap_app.
    constructor; [done|]. apply Hr.
  - rewrite Hs, (rep_size _ _ _ Hr), !length_app. cbn. lia.
  - rewrite Hd, (rep_dom _ _ _ Hr). autorewrite with addrs. rewrite !list_to_set_app_L. cbn. clear. set_solver.
Qed.

Lemma addSorted_ok L xs v d :
  rep L xs None →
  ∃ L' l r, addSorted L d v = Done L' ∧ xs = l ++ r ∧ Forall (λ x, it_value x < v) l ∧
    (∀ x r', r = x :: r' → v ≤ it_value x) ∧
    rep L' (l ++ mk_item (new_address L) v d :: r) None ∧ l_iterator L' = l_iterator L.
Proof.
  intros Hr. pose proof (rep_fresh _ _ _ Hr) as Hf. pose proof (rep_head _ _ _ Hr) as Hh.
  pose proof (rep_tail _ _ _ Hr) as Ht. pose proof (rep_chain _ _ _ Hr) as Hc.
  unfold addSorted. set (a := new_address L) in *.
  change (l_head (new_element L v d)) with (l_head L).
  destruct xs as [|x0 xs0] eqn:Hxs.
  - rewrite Hh. cbn. eexists _, [], []. split_and!; try done.
    apply (rep_insert L [] [] None a v d); cbn; try done; [by rewrite lookup_insert_eq|].
    by rewrite dom_insert_L.
  - rewrite Hh. cbn [first]. change (Some (it_at x0)) with (first (x0 :: xs0) None).
    assert (xs ≠ []) as Hne by (by rewrite Hxs). rewrite <-Hxs in *. clear Hxs x0 xs0.
    destruct (find_place_ok (new_element L v d) [] xs v (size (l_cells (new_element L v d))))
      as (l & r & -> & Hl & Hrv & Hp).
    { cbn. by apply chain_insert. }
    { cbn. rewrite map_size_insert_None.
      - rewrite (rep_cells_size _ _ _ Hr). lia.
      - apply not_elem_of_dom. rewrite (rep_dom _ _ _ Hr). by rewrite elem_of_list_to_set. }
    cbn [app final] in Hp. rewrite Hp. cbn [mbind outcome_bind]. clear Hp.
    apply chain_app in Hc as [Hcl Hcr]. pose proof (rep_nodup _ _ _ Hr) as Hn.
    rewrite first_app in Hh. rewrite final_app in Ht. rewrite first_app.
    destruct r as [|y r], (final_cases l) as [[-> _]|(l' & z & -> & Hz)]; [done| | |].
    + cbn [first final] in *. rewrite Hz in Ht. apply chain_app in Hcl as [Hcl [Hcz _]]. cbn in Hcz.
      separate Hn. separate Hf.
      change (l_tail (new_element L v d)) with (l_tail L). rewrite Ht. run. rewrite Ht. run.
      eexists _, (l' ++ [z]), []. split_and!; [done..| |done].
      apply (rep_insert L _ [] None a v d); cbn; try done.
      * rewrite Hh. rewrite !first_app. by destruct l'.
      * by rewrite final_snoc.
      * rewrite <-app_assoc. apply chain_app. split; [auto 10 with linked|].
        cbn. split_and!; [by simplify_map_eq..|done].
      * same_dom. apply dom_insert_L.
    + cbn [first final app] in *. destruct Hcr as [Hy Hcr]. separate Hn. separate Hf. run.
      rewrite (proj2 (Z.leb_le _ _)) by (by eapply Hrv).
      change (l_head (new_element L v d)) with (l_head L). rewrite ?Hh. run. rewrite ?Hh. run.
      eexists _, [], (y :: r). split_and!; [done..| |done].
      apply (rep_insert L [] (y :: r) None a v d); cbn; try done.
      * split_and!; [by simplify_map_eq..|auto 10 with linked].
      * same_dom. apply dom_insert_L.
    + cbn [first final] in *. destruct Hcr as [Hy Hcr]. rewrite Hz in *.
      apply chain_app in Hcl as [Hcl [Hcz _]]. cbn in Hcz. separate Hn. separate Hf. run.
      rewrite (proj2 (Z.leb_le _ _)) by (by eapply Hrv). run.
      eexists _, (l' ++ [z]), (y :: r). split_and!; [done..| |done].
      apply (rep_insert L _ (y :: r) None a v d); cbn; try done.
      * rewrite Hh. rewrite !first_app. by destruct l'.
      * rewrite Ht, final_app. done.
      * rewrite <-app_assoc. apply chain_app. split; [auto 10 with linked|].
        cbn. split_and!; [by simplify_map_eq..|auto 10 with linked].
      * same_dom. apply dom_insert_L.
Qed.
End Reading.

Section Traversal.
Context {D : Type} `{Malloc}.
Implicit Types (L : llist D) (xs ys l r : list (item D)) (x y : item D).

Definition contents xs : list (Z * D) := (λ x, (it_value x, it_data x)) <$> xs.

Lemma contents_app xs ys : contents (xs ++ ys) = contents xs ++ contents ys.
Proof. apply fmap_app. Qed.

Lemma addrs_split xs (a : positive) : a ∈ addrs xs → ∃ l x r, xs = l ++ x :: r ∧ a = it_at x.
Proof.
  intros Ha. apply list_elem_of_fmap in Ha as (x & -> & Hx).
  apply list_elem_of_split in Hx as (l & r & ->). by exists l, x, r.
Qed.

Lemma copy_loop_ok L r C ys pp fuel :
  chain (l_cells L) pp r None → rep C ys None → (length r ≤ fuel)%nat →
  ∃ C' zs, copy_loop fuel L (first r None) C = Done C' ∧ rep C' zs None ∧
    contents zs = contents (ys ++ r).
Proof.
  revert C ys pp fuel. induction r as [|x r IH]; intros C ys pp fuel Hc HC Hf.
  { exists C, ys. rewrite app_nil_r. destruct fuel; by split_and!. }
  destruct fuel as [|fuel]; [cbn in Hf; lia|]. destruct Hc as [Hx Hc]. cbn [copy_loop first].
  rewrite (deref_ok _ _ _ Hx). cbn [mbind outcome_bind el_value el_data el_next].
  destruct (addToTail_ok C ys None (it_value x) (it_data x) HC) as (C1 & -> & HC1 & _).
  cbn [mbind outcome_bind].
  destruct (IH C1 _ _ fuel Hc HC1) as (C' & zs & -> & HC' & Hzs); [cbn in Hf; lia|].
  exists C', zs. split_and!; [done|done|]. rewrite Hzs, !contents_app, <-app_assoc. done.
Qed.

(** [copy] returns a new list with the same values and data. *)
Lemma copy_ok L xs :
  rep L xs None → ∃ C ys, copy L = Done C ∧ rep C ys None ∧ contents ys = contents xs.
Proof.
  intros Hr. unfold copy. rewrite (rep_head _ _ _ Hr).
  apply (copy_loop_ok L xs create [] None); [apply Hr|apply rep_create|].
  by rewrite (rep_cells_size _ _ _ Hr).
Qed.

(** On a list whose last element points into the list, [copy] does not end. *)
Lemma copy_loop_ring L xs a C ys tn fuel b :
  rep L xs (Some a) → a ∈ addrs xs → rep C ys tn → b ∈ addrs xs →
  copy_loop fuel L (Some b) C = Fault OutOfFuel.
Proof.
  intros Hr Ha. revert C ys tn b. induction fuel as [|fuel IH]; intros C ys tn b HC Hb; [done|].
  apply addrs_split in Hb as (l & x & r & -> & ->). cbn [copy_loop].
  rewrite (rep_deref _ _ _ _ _ Hr). cbn [mbind outcome_bind el_value el_data el_next].
  destruct (addToTail_ok C ys tn (it_value x) (it_data x) HC) as (C1 & -> & HC1 & _).
  cbn [mbind outcome_bind]. destruct r as [|y r]; cbn [first].
  - by eapply IH.
  - eapply IH; [exact HC1|]. rewrite addrs_app. apply elem_of_app. right. right. by left.
Qed.

Lemma destroy_loop_ok L r pp tn fuel :
  NoDup (addrs r) → chain (l_cells L) pp r tn → dom (l_cells L) = list_to_set (addrs r) →
  (length r < fuel)%nat →
  match tn with
  | None => ∃ L', destroy_loop fuel L (first r None) = Done L' ∧ l_cells L' = ∅
  | Some _ => destroy_loop fuel L (first r tn) = Fault OutOfBounds
  end.
Proof.
  revert L pp fuel. induction r as [|x r IH]; intros L pp fuel Hn Hc Hd Hf; (destruct fuel as [|fuel]; [cbn in Hf; lia|]).
  - apply dom_empty_iff_L in Hd. destruct tn as [a|]; cbn; [|by exists L].
    unfold deref. cbn. by rewrite Hd, lookup_empty.
  - destruct Hc as [Hx Hc]. separate Hn.
    specialize (IH (set_cells (delete (it_at x) (l_cells L)) L) (Some (it_at x)) fuel).
    assert (∀ p, destroy_loop (S fuel) L (first (x :: r) p) =
      destroy_loop fuel (set_cells (delete (it_at x) (l_cells L)) L) (first r tn)) as Heq.
    { intros p. cbn [destroy_loop first]. rewrite (deref_ok _ _ _ Hx). cbn [mbind outcome_bind el_next].
      by rewrite (free_ok _ _ _ Hx). }
    assert (dom (l_cells (set_cells (delete (it_at x) (l_cells L)) L)) = list_to_set (addrs r)) as Hd'.
    { cbn. rewrite dom_delete_L, Hd. autorewrite with addrs. cbn. set_solver. }
    destruct tn as [a|]; rewrite !Heq; (apply IH; [done|cbn; auto with linked|done|cbn in Hf; lia]).
Qed.

(** [ldestroy] frees every element of a closed list, and faults otherwise. *)
Lemma ldestroy_ok L xs tn :
  rep L xs tn → xs ≠ [] →
  match tn with
  | None => ∃ L', ldestroy L = Done L' ∧ l_cells L' = ∅
  | Some _ => ldestroy L = Fault OutOfBounds
  end.
Proof.
  intros Hr Hne. unfold ldestroy. rewrite (rep_size _ _ _ Hr), (proj2 (Z.eqb_neq _ _)).
  2: { destruct xs; [done|cbn; lia]. }
  rewrite (rep_head _ _ _ Hr). assert (first xs tn = first xs None) as Hfx by (by destruct xs).
  pose proof (destroy_loop_ok L xs None tn (S (size (l_cells L))) (rep_nodup _ _ _ Hr)
    (rep_chain _ _ _ Hr) (rep_dom _ _ _ Hr)) as Hd.
  rewrite (rep_cells_size _ _ _ Hr) in *. destruct tn as [a|]; rewrite ?Hfx in Hd; apply Hd; lia.
Qed.

Lemma delete_loop_absent L l r v fuel :
  rep L (l ++ r) None → Forall (λ x, it_value x ≠ v) r → (length r ≤ fuel)%nat →
  ∀ previous, delete_loop fuel L v (first r None) previous = Done L.
Proof.
  revert l fuel. induction r as [|x r IH]; intros l fuel Hr Hv Hf previous; [by destruct fuel|].
  destruct fuel as [|fuel]; [cbn in Hf; lia|]. cbn [delete_loop first].
  apply Forall_cons in Hv as [Hx Hv].
  rewrite (rep_deref _ _ _ _ _ Hr). cbn [mbind outcome_bind el_value el_next].
  rewrite (proj2 (Z.eqb_neq _ _)) by done. cbn [mbind outcome_bind].
  rewrite (rep_deref _ _ _ _ _ Hr). cbn [mbind outcome_bind el_value el_next].
  apply (IH (l ++ [x])); [by rewrite <-app_assoc|done|cbn in Hf; lia].
Qed.

Lemma delete_loop_present L pp l x r v fuel :
  rep L (pp ++ l ++ x :: r) None → Forall (λ y, it_value y ≠ v) l → it_value x = v → (length l < fuel)%nat →
  delete_loop fuel L v (first l (Some (it_at x))) (if decide (pp = []) then first l (Some (it_at x)) else final None pp)
    = Fault OutOfBounds.
Proof.
  revert pp fuel. induction l as [|y l IH]; intros pp fuel Hr Hv Hx Hf; (destruct fuel as [|fuel]; [cbn in Hf; lia|]).
  - cbn [app first] in *. cbn [delete_loop].
    rewrite (rep_deref _ _ _ _ _ Hr). cbn [mbind outcome_bind el_value el_next].
    rewrite Hx, Z.eqb_refl. pose proof (rep_split _ _ _ _ _ Hr) as (Hn & _ & _ & _ & Hc & Hcx & _).
    destruct (decide (pp = [])) as [->|Hpp].
    + run. unfold deref. cbn. by rewrite lookup_delete_eq.
    + destruct (final_cases pp) as [[-> _]|(pp' & z & -> & ->)]; [done|].
      apply chain_app in Hc as [_ [Hz _]]. separate Hn.
      run. unfold deref. cbn. by rewrite lookup_delete_eq.
  - apply Forall_cons in Hv as [Hy Hv]. cbn [first app] in *. cbn [delete_loop].
    rewrite (rep_deref _ _ _ _ _ Hr). cbn [mbind outcome_bind el_value el_next].
    rewrite (proj2 (Z.eqb_neq _ _)) by done. cbn [mbind outcome_bind].
    rewrite (rep_deref _ _ _ _ _ Hr). cbn [mbind outcome_bind el_value el_next].
    rewrite cons_middle, app_assoc in Hr.
    specialize (IH (pp ++ [y]) fuel). rewrite final_snoc, decide_False in IH by (by destruct pp).
    rewrite first_app. apply IH; [done|done|done|cbn in Hf; lia].
Qed.
End Traversal.

(** ** [quicksort] *)

Section Quicksort.
Implicit Types (ws locations : list temp) (p : temp).

Definition before (x y : temp) : Prop := tmp_value x ≤ tmp_value y.
#[local] Instance before_preorder : PreOrder before.
Proof. split; [intros x|intros x y z]; unfold before; lia. Qed.

Lemma scan_right_ok fuel ws v left right :
  0 ≤ left ≤ right → right < Z.of_nat (length ws) → right - left ≤ Z.of_nat fuel →
  ∃ right', scan_right fuel ws v left right = Done right' ∧ left ≤ right' ≤ right ∧
    on_range ws (right' + 1) right (λ x, v ≤ tmp_value x) ∧
    (right' = left ∨ ∃ x, ws !! Z.to_nat right' = Some x ∧ tmp_value x < v).
Proof.
  revert right. induction fuel as [|fuel IH]; intros right Hl Hr Hf; cbn [scan_right];
    (destruct (lookup_at ws right) as (x & -> & Hx); [lia|]); cbn [mbind outcome_bind];
    (destruct (Z.leb_spec v (tmp_value x)); cbn [andb];
      [destruct (Z.ltb_spec left right)|]).
  1: lia.
  2,5: exists right; split_and!; [done|lia|lia|apply on_range_empty; lia|right; by exists x].
  1,3: exists right; split_and!; [done|lia|lia|apply on_range_empty; lia|left; lia].
  destruct (IH (right - 1)) as (right' & -> & Hr' & Hw & Hs); [lia|lia|lia|].
  exists right'. split_and!; [done|lia|lia| |done].
  apply (on_range_app _ _ (right - 1)); [done|].
  replace (right - 1 + 1) with right by lia. by apply (on_range_one _ _ x); [lia|..].
Qed.

Lemma scan_left_ok fuel ws v left right :
  0 ≤ left ≤ right → right < Z.of_nat (length ws) → right - left ≤ Z.of_nat fuel →
  ∃ left', scan_left fuel ws v left right = Done left' ∧ left ≤ left' ≤ right ∧
    on_range ws left (left' - 1) (λ x, tmp_value x ≤ v) ∧
    (left' = right ∨ ∃ x, ws !! Z.to_nat left' = Some x ∧ v < tmp_value x).
Proof.
  revert left. induction fuel as [|fuel IH]; intros left Hl Hr Hf; cbn [scan_left];
    (destruct (lookup_at ws left) as (x & -> & Hx); [lia|]); cbn [mbind outcome_bind];
    (destruct (Z.leb_spec (tmp_value x) v); cbn [andb];
      [destruct (Z.ltb_spec left right)|]).
  1: lia.
  2,5: exists left; split_and!; [done|lia|lia|apply on_range_empty; lia|right; by exists x].
  1,3: exists left; split_and!; [done|lia|lia|apply on_range_empty; lia|left; lia].
  destruct (IH (left + 1)) as (left' & -> & Hr' & Hw & Hs); [lia|lia|lia|].
  exists left'. split_and!; [done|lia|lia| |done].
  apply (on_range_app _ _ left); [|done]. by apply (on_range_one _ _ x); [lia|..].
Qed.

(** The state of the partition: the entry at [hole] is [p]'s place. *)
Record split_state (lo hi : Z) p ws locations (left right hole : Z) : Prop := {
  ss_range : lo ≤ left ∧ left ≤ right ∧ right ≤ hi;
  ss_perm : rearranged lo hi ws (<[Z.to_nat hole := p]> locations);
  ss_low : on_range locations lo (left - 1) (λ x, before x p);
  ss_high : on_range locations (right + 1) hi (λ x, before p x)
}.

(** Moving the entry at [from] into the hole leaves a hole at [from]. *)
Lemma move_location_ok lo hi p ws locations (hole from : Z) :
  0 ≤ lo → lo ≤ hole ≤ hi → lo ≤ from ≤ hi → hi < Z.of_nat (length locations) → hole ≠ from →
  rearranged lo hi ws (<[Z.to_nat hole := p]> locations) →
  ∃ x, locations !! Z.to_nat from = Some x ∧
    move_location locations hole from = Done (<[Z.to_nat hole := x]> locations) ∧
    rearranged lo hi ws (<[Z.to_nat from := p]> (<[Z.to_nat hole := x]> locations)).
Proof.
  intros H0 Hh Hf Hlen Hne Hra. destruct (lookup_at locations from) as (x & Hg & Hx); [lia|].
  exists x. split_and!; [done| |].
  - unfold move_location. rewrite Hg. cbn [mbind outcome_bind]. unfold put. by rewrite decide_True by lia.
  - apply (rearranged_trans _ _ _ _ _ Hra).
    rewrite <-(list_insert_insert_eq locations (Z.to_nat hole) x p) at 1.
    apply rearranged_swap; [| |lia|lia].
    + apply list_lookup_insert_eq. lia.
    + by rewrite list_lookup_insert_ne by lia.
Qed.

Lemma partition_loop_ok fuel lo hi p ws locations left right :
  0 ≤ lo → hi < Z.of_nat (length locations) →
  split_state lo hi p ws locations left right left → right - left ≤ Z.of_nat fuel →
  ∃ locations' m, partition_loop fuel locations (tmp_value p) left right = Done (locations', m, m) ∧
    split_state lo hi p ws locations' m m m ∧ length locations' = length locations.
Proof.
  revert locations left right. induction fuel as [|fuel IH];
    intros locations left right H0 Hlen [(Hl & Hlr & Hr) Hperm Hlow Hhigh] Hf; cbn [partition_loop];
    (destruct (Z.ltb_spec left right) as [Hlt|Hge];
      [|assert (right = left) as -> by lia; by exists locations, left; split_and!; [|split|]]).
  { lia. }
  destruct (scan_right_ok (length locations) locations (tmp_value p) left right)
    as (right1 & -> & Hr1 & Hw1 & Hs1); [lia|lia|lia|]. cbn [mbind outcome_bind].
  assert (on_range locations (right1 + 1) hi (λ x, before p x)) as Hhigh1.
  { apply (on_range_app _ _ right); [exact Hw1|exact Hhigh]. }
  destruct (Z.eqb_spec left right1) as [<-|Hne1]; cbn [mbind outcome_bind].
  { destruct (scan_left_ok (length locations) locations (tmp_value p) left left)
      as (left2 & -> & Hl2 & _ & _); [lia|lia|lia|].
    assert (left2 = left) as -> by lia. cbn [mbind outcome_bind]. rewrite Z.eqb_refl. cbn [mbind outcome_bind].
    apply IH; [done|done|split; [lia|done..]|lia]. }
  destruct Hs1 as [->|(x & Hx & Hxv)]; [done|].
  destruct (move_location_ok lo hi p ws locations left right1) as (x' & Hx' & -> & Hperm1); try done; [lia|lia|].
  simplify_eq. cbn [mbind outcome_bind].
  set (loc1 := <[Z.to_nat left := x]> locations) in *.
  assert (length loc1 = length locations) as Hlen1 by apply length_insert.
  assert (on_range loc1 (right1 + 1) hi (λ x, before p x)) as Hhigh2 by (apply on_range_insert; [done|lia]).
  assert (on_range loc1 lo left (λ x, before x p)) as Hlow1.
  { apply (on_range_app _ _ (left - 1)); [apply on_range_insert; [done|lia]|].
    replace (left - 1 + 1) with left by lia. apply (on_range_one _ _ x); [lia| |unfold before; lia].
    apply list_lookup_insert_eq. lia. }
  destruct (scan_left_ok (length loc1) loc1 (tmp_value p) (left + 1) right1)
    as (left2 & -> & Hl2 & Hw2 & Hs2); [lia|lia|lia|]. cbn [mbind outcome_bind].
  assert (on_range loc1 lo (left2 - 1) (λ x, before x p)) as Hlow2.
  { apply (on_range_app _ _ left); [done|exact Hw2]. }
  destruct (Z.eqb_spec left2 right1) as [->|Hne2]; cbn [mbind outcome_bind].
  { rewrite <-Hlen1. apply IH; [done|lia|split; [lia|done..]|lia]. }
  destruct Hs2 as [->|(y & Hy & Hyv)]; [done|].
  destruct (move_location_ok lo hi p ws loc1 right1 left2) as (y' & Hy' & -> & Hperm2); try done; [lia|lia|lia|].
  simplify_eq. cbn [mbind outcome_bind]. set (loc2 := <[Z.to_nat right1 := y]> loc1) in *.
  assert (length loc2 = length locations) as Hlen2 by (unfold loc2; by rewrite length_insert).
  rewrite <-Hlen2. apply IH; [done|lia| |lia]. split; [lia|done| |].
  - apply on_range_insert; [done|lia].
  - apply (on_range_app _ _ right1); [|apply on_range_insert; [done|lia]].
    replace (right1 - 1 + 1) with right1 by lia.
    apply (on_range_one _ _ y); [lia| |unfold before; lia]. apply list_lookup_insert_eq. lia.
Qed.

Lemma quicksort_fuel_ok fuel : ∀ ws lo hi,
  0 ≤ lo ≤ hi → hi < Z.of_nat (length ws) → hi - lo < Z.of_nat fuel →
  ∃ ws', quicksort_fuel fuel ws lo hi = Done ws' ∧ rearranged lo hi ws ws' ∧
    sorted_between before ws' lo hi.
Proof.
  induction fuel as [|fuel IH]; intros ws lo hi Hlo Hhi Hf; [lia|]. cbn [quicksort_fuel].
  destruct (lookup_at ws lo) as (p & -> & Hp); [lia|]. cbn [mbind outcome_bind].
  destruct (partition_loop_ok (length ws) lo hi p ws ws lo hi) as (loc & m & -> & [Hm Hperm Hlow Hhigh] & Hlen);
    [lia|lia| |lia|].
  { split; [lia| |apply on_range_empty; lia|apply on_range_empty; lia].
    rewrite list_insert_id by done. apply rearranged_refl. }
  cbn [mbind outcome_bind]. unfold put. rewrite decide_True by lia. cbn [mbind outcome_bind].
  set (ws1 := <[Z.to_nat m := p]> loc) in *.
  assert (length ws1 = length ws) as Hlen1 by (unfold ws1; by rewrite length_insert).
  assert (ws1 !! Z.to_nat m = Some p) as Hpm by (apply list_lookup_insert_eq; lia).
  assert (∃ ws2, (if lo <? m then quicksort_fuel fuel ws1 lo (m - 1) else Done ws1) = Done ws2 ∧
    rearranged lo (m - 1) ws1 ws2 ∧ sorted_between before ws2 lo (m - 1)) as (ws2 & -> & Hra2 & Hs2).
  { destruct (Z.ltb_spec lo m); [apply IH; lia|]. exists ws1.
    split_and!; [done|apply rearranged_refl|apply sorted_between_small; [apply _|lia]]. }
  cbn [mbind outcome_bind]. pose proof (rearranged_length _ _ _ _ Hra2) as Hlen2.
  assert (∃ ws3, (if m <? hi then quicksort_fuel fuel ws2 (m + 1) hi else Done ws2) = Done ws3 ∧
    rearranged (m + 1) hi ws2 ws3 ∧ sorted_between before ws3 (m + 1) hi) as (ws3 & -> & Hra3 & Hs3).
  { destruct (Z.ltb_spec m hi); [apply IH; lia|]. exists ws2.
    split_and!; [done|apply rearranged_refl|apply sorted_between_small; [apply _|lia]]. }
  destruct (sorted_between_join before ws1 ws2 ws3 lo hi m p) as [Hra13 Hs];
    [lia|lia|done| | |done|done|done|done|].
  - apply on_range_insert; [done|lia].
  - apply on_range_insert; [done|lia].
  - exists ws3. split_and!; [done| |done]. by apply (rearranged_trans _ _ _ ws1).
Qed.

Lemma quicksort_ok ws lo hi :
  0 ≤ lo ≤ hi → hi < Z.of_nat (length ws) →
  ∃ ws', quicksort ws lo hi = Done ws' ∧ rearranged lo hi ws ws' ∧ sorted_between before ws' lo hi.
Proof. intros Hlo Hhi. apply quicksort_fuel_ok; lia. Qed.
End Quicksort.

(** ** [sort] *)

Section Sorting.
Context {D : Type} `{Malloc}.
Implicit Types (L : llist D) (xs ys l r : list (item D)) (x y : item D).

Definition location x : temp := mk_temp (it_value x) (Some (it_at x)).

Lemma collect_ok L pp r fuel :
  chain (l_cells L) pp r None → (length r ≤ fuel)%nat →
  collect fuel L (first r None) = Done (location <$> r).
Proof.
  revert pp fuel. induction r as [|x r IH]; intros pp fuel Hc Hf; [by destruct fuel|].
  destruct fuel as [|fuel]; [cbn in Hf; lia|]. destruct Hc as [Hx Hc]. cbn [collect first].
  rewrite (deref_ok _ _ _ Hx). cbn [mbind outcome_bind el_value el_next].
  rewrite (IH _ _ Hc) by (cbn in Hf; lia). done.
Qed.

(** The element of [x] holds its value and data, however it is linked. *)
Definition holds (m : gmap positive (element D)) x : Prop :=
  ∃ nx pv, m !! it_at x = Some (mk_element (it_value x) (it_data x) nx pv).

Lemma chain_holds m pp xs qn : chain m pp xs qn → Forall (holds m) xs.
Proof.
  revert pp. induction xs as [|x xs IH]; intros pp; [constructor|]. intros [Hx Hc].
  constructor; [by eexists _, _|by eapply IH].
Qed.

Lemma holds_insert m r a e : Forall (holds m) r → a ∉ addrs r → Forall (holds (<[a := e]> m)) r.
Proof.
  intros Hr. induction Hr as [|y r (nx & pv & Hy) Hr IH]; intros Ha; [constructor|].
  rewrite addrs_cons, not_elem_of_cons in Ha. destruct Ha as [Hne Ha]. constructor; [|by apply IH].
  exists nx, pv. by rewrite lookup_insert_ne.
Qed.

(** What [sort] keeps of a list while it links the elements again. *)
Record same_list L L' : Prop := {
  sl_head : l_head L' = l_head L;
  sl_tail : l_tail L' = l_tail L;
  sl_size : l_size L' = l_size L;
  sl_iterator : l_iterator L' = l_iterator L;
  sl_dom : dom (l_cells L') = dom (l_cells L)
}.

Lemma link_loop_ok r : ∀ l x L pp qn,
  NoDup (addrs (l ++ x :: r)) → chain (l_cells L) pp (l ++ [x]) qn → Forall (holds (l_cells L)) r →
  ∃ L' qn', foldM (link (location <$> l ++ x :: r)) L (seq (length l) (length r)) = Done L' ∧
    chain (l_cells L') pp (l ++ x :: r) qn' ∧ same_list L L'.
Proof.
  induction r as [|y r IH]; intros l x L pp qn Hn Hc Hh; [by exists L, qn|].
  cbn [length seq foldM]. apply Forall_cons in Hh as [(nx & pv & Hy) Hh].
  apply chain_app in Hc as [Hl [Hx _]]. separate Hn.
  assert (get (location <$> l ++ x :: y :: r) (length l) = Done (location x)) as Hgx.
  { apply get_Done. by rewrite list_lookup_fmap, list_lookup_middle. }
  assert (get (location <$> l ++ x :: y :: r) (S (length l)) = Done (location y)) as Hgy.
  { apply get_Done. rewrite list_lookup_fmap, lookup_app_r by lia.
    by replace (S (length l) - length l)%nat with 1%nat by lia. }
  unfold link at 2. rewrite Hgx. cbn [mbind outcome_bind]. rewrite Hgy. cbn [mbind outcome_bind tmp_ptr location].
  clear Hgx Hgy. run.
  match goal with |- context [foldM _ ?M _] => set (L1 := M) end.
  destruct (IH (l ++ [x]) y L1 pp nx) as (L' & qn' & Hf & Hc' & Hs).
  - by rewrite <-app_assoc.
  - rewrite <-app_assoc. apply chain_app. split; [cbn; auto with linked|].
    cbn. split_and!; [by simplify_map_eq..|done].
  - cbn. apply holds_insert; [|done]. by apply holds_insert.
  - exists L', qn'. rewrite length_app in Hf. cbn in Hf. rewrite Nat.add_1_r, <-app_assoc in Hf.
    rewrite <-app_assoc in Hc'. split_and!; [exact Hf|exact Hc'|].
    destruct Hs as [S1 S2 S3 S4 S5]. split; [rewrite ?S1, ?S2, ?S3, ?S4, ?S5; cbn..]; try done.
    same_dom.
Qed.

(** Ending the list at both sides. *)
Lemma close_ok L pp ys qn :
  NoDup (addrs ys) → chain (l_cells L) pp ys qn → ys ≠ [] →
  ∃ L', (L1 ← modify L (first ys None) (with_prev None); modify L1 (final None ys) (with_next None)) = Done L' ∧
    chain (l_cells L') None ys None ∧ same_list L L'.
Proof.
  intros Hn Hc Hne. destruct (final_cases ys) as [[-> _]|(l & z & -> & ->)]; [done|].
  apply chain_app in Hc as [Hl [Hz _]]. cbn in Hz. destruct l as [|x l].
  - cbn [app first]. run. eexists. split; [done|]. split; [by cbn; simplify_map_eq|].
    split; try done. cbn. same_dom.
  - destruct Hl as [Hx Hl]. cbn [app first]. separate Hn. run. eexists. split; [done|]. split.
    + cbn. split; [rewrite first_app in *; cbn in *; by simplify_map_eq|].
      apply chain_app. split; [auto 10 with linked|]. cbn. by simplify_map_eq.
    + split; try done. cbn. same_dom.
Qed.

Lemma sorted_locations ys n :
  n = Z.of_nat (length ys) - 1 → sorted_between before (location <$> ys) 0 n →
  StronglySorted (λ x y, it_value x ≤ it_value y) ys.
Proof.
  intros -> Hs. apply StronglySorted_of_lookup. intros i j x y Hij Hi Hj.
  pose proof (lookup_lt_Some _ _ _ Hj).
  apply (Hs i j (location x) (location y)); [lia|lia|lia|by rewrite list_lookup_fmap, Hi|by rewrite list_lookup_fmap, Hj].
Qed.

Lemma sort_ok L xs :
  rep L xs None →
  ∃ L' ys, sort L = Done L' ∧ rep L' ys None ∧ ys ≡ₚ xs ∧
    StronglySorted (λ x y, it_value x ≤ it_value y) ys.
Proof.
  intros Hr. unfold sort. rewrite (rep_size _ _ _ Hr). destruct xs as [|x0 xs0] eqn:Hxs.
  { exists L, []. split_and!; [done|done|done|constructor]. }
  rewrite <-Hxs in *. assert (0 < length xs)%nat as Hlen by (rewrite Hxs; cbn; lia). clear Hxs x0 xs0.
  rewrite (proj2 (Z.eqb_neq _ _)) by lia. rewrite Nat2Z.id, (rep_head _ _ _ Hr).
  rewrite (collect_ok L None xs) by (done || apply Hr). cbn [mbind outcome_bind].
  destruct (quicksort_ok (location <$> xs) 0 (Z.of_nat (length xs) - 1)) as (ws & -> & Hra & Hs);
    [lia|rewrite length_fmap; lia|]. cbn [mbind outcome_bind].
  destruct (Permutation_map_inv location xs (symmetry (ra_perm _ _ _ _ Hra))) as (ys & -> & Hp).
  change (map location ys) with (location <$> ys) in *. clear Hra.
  pose proof (Permutation_length Hp) as Hlp. rewrite Hlp in *. apply (sorted_locations ys) in Hs; [|done].
  cbn [l_size set_iterator set_tail set_head]. rewrite (rep_size _ _ _ Hr), Hlp.
  assert (NoDup (addrs ys)) as Hn by (unfold addrs; rewrite <-Hp; apply Hr).
  assert (Forall (holds (l_cells L)) ys) as Hh.
  { rewrite <-Hp. eapply chain_holds, Hr. }
  destruct (final_cases ys) as [[-> _]|(l & z & Hys & Hfin)]; [cbn in Hlen; lia|].
  assert (get_at (location <$> ys) (Z.of_nat (length ys) - 1) = Done (location z)) as ->.
  { replace (Z.of_nat (length ys) - 1) with (Z.of_nat (length l)) by (rewrite Hys, length_app; cbn; lia).
    rewrite get_at_nat. apply get_Done. by rewrite Hys, list_lookup_fmap, list_lookup_middle. }
  clear Hys. destruct ys as [|x r]; [cbn in Hlen; lia|].
  change (get (location <$> x :: r) 0) with (Done (location x)). cbn [mbind outcome_bind tmp_ptr location].
  replace (Z.to_nat (Z.of_nat (length (x :: r)) - 1)) with (length r) by (cbn; lia).
  match goal with |- context [foldM _ ?M _] => set (L1 := M) end.
  apply Forall_cons in Hh as [(nx & pv & Hx) Hh].
  destruct (link_loop_ok r [] x L1 pv nx Hn) as (L2 & qn & Hf & Hc & Hs2); [done|exact Hh|].
  cbn [length app] in Hf, Hc. rewrite Hf. cbn [mbind outcome_bind].
  destruct (close_ok L2 pv (x :: r) qn Hn Hc) as (L3 & Hcl & Hc3 & Hs3); [done|].
  rewrite Hfin in Hcl. cbn [first] in Hcl. exists L3, (x :: r). split_and!; [exact Hcl| |done|done].
  destruct Hs2, Hs3. split; try congruence.
  - rewrite sl_head1, sl_head0. done.
  - rewrite sl_tail1, sl_tail0. by rewrite Hfin.
  - rewrite sl_size1, sl_size0. cbn. rewrite (rep_size _ _ _ Hr), Hlp. done.
  - rewrite sl_dom1, sl_dom0. cbn. rewrite (rep_dom _ _ _ Hr).
    exact (addrs_perm _ _ Hp).
Qed.
End Sorting.

(** ** The abstract list

    What a user of the list sees of it: the sequence of its values and data.
    [sort] need not keep the order of equal values. *)

Section Abstract.
Context {D : Type} `{Malloc}.
Implicit Types (L : llist D) (xs : list (item D)) (s : list (Z * D)).

Inductive list_op :=
  | OpAddToHead (value : Z) (data : D)
  | OpAddToTail (value : Z) (data : D)
  | OpAddSorted (value : Z) (data : D)
  | OpDeleteHead
  | OpDeleteTail
  | OpSort
  | OpCopy.

Definition run_op L (o : list_op) : outcome (llist D) :=
  match o with
  | OpAddToHead v d => addToHead L v d
  | OpAddToTail v d => addToTail L v d
  | OpAddSorted v d => addSorted L d v
  | OpDeleteHead => deleteHead L
  | OpDeleteTail => deleteTail L
  | OpSort => sort L
  | OpCopy => copy L
  end.

(** Insertion before the first value that is not smaller. *)
Fixpoint insert_sorted (v : Z) (d : D) s : list (Z * D) :=
  match s with
  | [] => [(v, d)]
  | x :: s' => if x.1 <? v then x :: insert_sorted v d s' else (v, d) :: s
  end.

Inductive seq_step : list_op → relation (list (Z * D)) :=
  | SeqAddToHead v d s : seq_step (OpAddToHead v d) s ((v, d) :: s)
  | SeqAddToTail v d s : seq_step (OpAddToTail v d) s (s ++ [(v, d)])
  | SeqAddSorted v d s : seq_step (OpAddSorted v d) s (insert_sorted v d s)
  | SeqDeleteHead s : seq_step OpDeleteHead s (tail s)
  | SeqDeleteTail s : seq_step OpDeleteTail s (take (pred (length s)) s)
  | SeqSort s s' : s' ≡ₚ s → StronglySorted (λ x y, x.1 ≤ y.1) s' → seq_step OpSort s s'
  | SeqCopy s : seq_step OpCopy s s.

Inductive seq_run : list list_op → relation (list (Z * D)) :=
  | SeqNil s : seq_run [] s s
  | SeqCons o ops s s' s'' : seq_step o s s' → seq_run ops s' s'' → seq_run (o :: ops) s s''.

Lemma insert_sorted_app v d s1 s2 :
  Forall (λ x, x.1 < v) s1 → (∀ x s2', s2 = x :: s2' → v ≤ x.1) →
  insert_sorted v d (s1 ++ s2) = s1 ++ (v, d) :: s2.
Proof.
  intros Hs1 Hs2. induction Hs1 as [|x s1 Hx Hs1 IH]; cbn.
  - destruct s2 as [|y s2]; [done|]. cbn. specialize (Hs2 _ _ eq_refl).
    by rewrite (proj2 (Z.ltb_ge _ _)).
  - rewrite (proj2 (Z.ltb_lt _ _)) by done. by rewrite IH.
Qed.

Lemma run_op_ok L xs o :
  rep L xs None →
  ∃ L' xs', run_op L o = Done L' ∧ rep L' xs' None ∧ seq_step o (contents xs) (contents xs').
Proof.
  intros Hr. destruct o as [v d|v d|v d| | | |]; cbn [run_op].
  - destruct (addToHead_ok L xs None v d Hr) as (L' & tn' & He & Hr' & Htn & _).
    rewrite (Htn (or_intror eq_refl)) in Hr'. eexists L', _. split_and!; [done|exact Hr'|]. constructor.
  - destruct (addToTail_ok L xs None v d Hr) as (L' & He & Hr' & _).
    eexists L', _. split_and!; [done|exact Hr'|]. rewrite contents_app. constructor.
  - destruct (addSorted_ok L xs v d Hr) as (L' & l & r & He & -> & Hl & Hrv & Hr' & _).
    eexists L', _. split_and!; [done|exact Hr'|]. rewrite !contents_app. cbn.
    rewrite <-insert_sorted_app; [constructor| |].
    + apply Forall_fmap. exact Hl.
    + intros x s2' Heq. destruct r as [|y r]; [done|]. injection Heq as <- _. by eapply Hrv.
  - destruct xs as [|x xs].
    + exists L, []. split_and!; [|done|apply SeqDeleteHead]. unfold deleteHead.
      by rewrite (rep_head _ _ _ Hr).
    + destruct (deleteHead_ok L x xs None Hr) as (L' & He & Hr' & _).
      exists L', xs. split_and!; [done| |exact (SeqDeleteHead (contents (x :: xs)))]. by destruct xs.
  - destruct xs as [|x xs _] using rev_ind.
    + exists L, []. split_and!; [|done|apply SeqDeleteTail]. unfold deleteTail.
      by rewrite (rep_head _ _ _ Hr).
    + destruct (deleteTail_ok L xs x None Hr) as (L' & He & Hr' & _).
      exists L', xs. split_and!; [done|done|].
      assert (contents xs = take (pred (length (contents (xs ++ [x])))) (contents (xs ++ [x]))) as ->.
      { rewrite contents_app, length_app, Nat.add_1_r. cbn [pred]. by rewrite take_app_length. }
      constructor.
  - destruct (sort_ok L xs Hr) as (L' & ys & He & Hr' & Hp & Hs).
    exists L', ys. split_and!; [done|done|]. constructor.
    + unfold contents. by rewrite Hp.
    + clear -Hs. induction Hs as [|y ys Hys IH Hy]; constructor; [done|]. by apply Forall_fmap.
  - destruct (copy_ok L xs Hr) as (C & ys & He & Hr' & Hc).
    exists C, ys. split_and!; [done|done|]. rewrite Hc. constructor.
Qed.

Lemma run_ops_ok ops : ∀ L xs, rep L xs None →
  ∃ L' xs', foldM run_op L ops = Done L' ∧ rep L' xs' None ∧ seq_run ops (contents xs) (contents xs').
Proof.
  induction ops as [|o ops IH]; intros L xs Hr.
  - exists L, xs. split_and!; [done|done|constructor].
  - destruct (run_op_ok L xs o Hr) as (L1 & xs1 & He & Hr1 & Hs). cbn [foldM]. rewrite He. cbn [mbind outcome_bind].
    destruct (IH L1 xs1 Hr1) as (L' & xs' & He' & Hr' & Hs').
    exists L', xs'. split_and!; [done|done|]. by econstructor.
Qed.

(** C19: the pointer-level list implements a sequence: whatever operations are
    run on a new list - insertions at the ends and in order, deletions at the
    ends, [sort] and [copy] - they all return, the pointers make a closed doubly
    linked list that owns exactly its elements, and its values and data are those
    that the operations give on a sequence. *)
Theorem list_refines_sequence (ops : list list_op) :
  ∃ L xs, foldM run_op create ops = Done L ∧ rep L xs None ∧ seq_run ops [] (contents xs).
Proof. apply (run_ops_ok ops create []). apply rep_create. Qed.
End Abstract.

(** An allocator: one above the largest address in use. *)
Definition bump_malloc : Malloc.
Proof.
  refine {| malloc X := Pos.succ (foldr Pos.max 1%positive (elements X)) |}.
  intros X Hin. apply elem_of_elements in Hin.
  assert (∀ a l, a ∈ l → (a ≤ foldr Pos.max 1 l)%positive) as Hmax.
  { intros a l Ha. induction Ha as [a l|a b l _ IH]; cbn; lia. }
  specialize (Hmax _ _ Hin). lia.
Defined.

(** ** Two operations that break the list *)

(** [movePresentToTail] leaves the [next] of the element it moves pointing
    into the list.  The list is then a ring: [copy] does not end on it whatever
    the fuel, and [ldestroy] comes back to an element that it has freed.  Only the
    next insertion at the tail closes the list again. *)
Theorem movePresentToTail_ring {D} `{Malloc} (L : llist D) l x r :
  rep L (l ++ x :: r) None → l_iterator L = Some (it_at x) → r ≠ [] →
  ∃ L', movePresentToTail L = Done L' ∧ rep L' (l ++ r ++ [x]) (first r None) ∧
    (∀ fuel, copy_loop fuel L' (l_head L') create = Fault OutOfFuel) ∧
    ldestroy L' = Fault OutOfBounds ∧
    ∀ v d, ∃ L'' y, addToTail L' v d = Done L'' ∧ rep L'' ((l ++ r ++ [x]) ++ [y]) None.
Proof.
  intros Hr Hi Hne. destruct (movePresentToTail_ok L l x r None Hr Hi) as (L' & He & Hr' & _).
  destruct r as [|y r]; [done|]. cbn [first] in Hr'. set (ys := l ++ (y :: r) ++ [x]) in *.
  assert (it_at y ∈ addrs ys) as Hy.
  { unfold ys. rewrite addrs_app. apply elem_of_app. right. by left. }
  assert (ys ≠ []) as Hys by (unfold ys; by destruct l).
  exists L'. split_and!; [done|done| | |].
  - intros fuel. rewrite (rep_head _ _ _ Hr').
    assert (∃ b, first ys None = Some b ∧ b ∈ addrs ys) as (b & -> & Hb).
    { clearbody ys. destruct ys as [|z ys]; [done|]. exists (it_at z). split; [done|by left]. }
    exact (copy_loop_ring L' ys _ create [] None fuel b Hr' Hy (rep_create None) Hb).
  - apply (ldestroy_ok L' ys (Some (it_at y)) Hr' Hys).
  - intros v d. destruct (addToTail_ok L' ys _ v d Hr') as (L'' & He' & Hr'' & _).
    exists L'', (mk_item (new_address L') v d). done.
Qed.

Definition toy_list : llist Z :=
  match foldM (λ L v, addToTail (H := bump_malloc) L v (10 * v)) create [1; 2; 3] with
  | Done L => startIter L
  | Fault _ => create
  end.

Lemma toy_list_rep : rep toy_list [mk_item 2 1 10; mk_item 3 2 20; mk_item 4 3 30] None.
Proof.
  split; try reflexivity.
  - apply NoDup_ListNoDup. repeat constructor; cbn; intuition discriminate.
  - repeat split; reflexivity.
Qed.

Lemma movePresentToTail_ring_witness :
  ∃ L', movePresentToTail toy_list = Done L' ∧ l_tail L' = Some 2%positive ∧ ldestroy L' = Fault OutOfBounds.
Proof.
  destruct (movePresentToTail_ring (H := bump_malloc) toy_list [] (mk_item 2 1 10)
    [mk_item 3 2 20; mk_item 4 3 30]) as (L' & He & Hr & _ & Hd & _).
  - exact toy_list_rep.
  - reflexivity.
  - discriminate.
  - exists L'. split; [exact He|]. split; [exact (rep_tail _ _ _ Hr)|exact Hd].
Defined.

Lemma first_match {D} (xs : list (item D)) v :
  v ∈ it_value <$> xs → ∃ l x r, xs = l ++ x :: r ∧ Forall (λ y, it_value y ≠ v) l ∧ it_value x = v.
Proof.
  induction xs as [|y xs IH]; intros Hin; [by apply not_elem_of_nil in Hin|].
  destruct (decide (it_value y = v)) as [Hy|Hy]; [by exists [], y, xs|].
  cbn in Hin. apply elem_of_cons in Hin as [|Hin]; [done|].
  destruct (IH Hin) as (l & x & r & -> & Hl & Hx). exists (y :: l), x, r. split_and!; [done|by constructor|done].
Qed.

(** [delete] removes nothing: on a value that is in the list it reads the
    element that it has just freed, and on one that is not it counts one element
    less than the list has. *)
Theorem delete_never_deletes {D} `{Malloc} (L : llist D) xs v :
  rep L xs None →
  ldelete L v = if decide (v ∈ it_value <$> xs) then Fault OutOfBounds
                else Done (set_size (Z.of_nat (length xs) - 1) L).
Proof.
  intros Hr. unfold ldelete. rewrite (rep_cells_size _ _ _ Hr), (rep_head _ _ _ Hr).
  case_decide as Hv.
  - destruct (first_match xs v Hv) as (l & x & r & -> & Hl & Hx).
    rewrite first_app. cbn [first].
    pose proof (delete_loop_present L [] l x r v (S (length (l ++ x :: r))) Hr Hl Hx) as Hd.
    rewrite decide_True in Hd by done. rewrite Hd; [done|]. rewrite length_app. lia.
  - rewrite (delete_loop_absent L [] xs v _ Hr); [by rewrite <-(rep_size _ _ _ Hr)| |lia].
    apply Forall_forall. intros x Hx Heq. apply Hv. apply list_elem_of_fmap. by exists x.
Qed.

Lemma delete_never_deletes_witness :
  ldelete toy_list 2 = Fault OutOfBounds ∧ ldelete toy_list 5 = Done (set_size 2 toy_list).
Proof.
  split.
  - exact (delete_never_deletes (H := bump_malloc) toy_list _ 2 toy_list_rep).
  - exact (delete_never_deletes (H := bump_malloc) toy_list _ 5 toy_list_rep).
Defined.
