(* ===== verification/HcHashtab.v ===== *)
(** * HashCache: hash tables

    [src/HashCache/src/hashtab.c]: chained tables with a current position.
    [hfind] and [hadd] move the position, [hstuff] reads it, [hdel] deletes there;
    [hfirst] and [hnext] walk over the table.  A key is the bytes it points to,
    which no user changes while they are in the table; an item is known by its
    key, which no other item of the table has, and the allocator of the items
    (recycle.c) is [malloc] here.  The counters of [printHashtableStats] are left
    out. *)

From Stdlib Require Import ZArith Lia.
From stdpp Require Import base list option numbers gmap sets.
From S2P Require Import Prelude HcHash.

Record hitem (V : Type) := mk_hitem { h_key : list Z; h_stuff : V; h_hval : Z }.
Arguments mk_hitem {_} _ _ _.
Arguments h_key {_} _.
Arguments h_stuff {_} _.
Arguments h_hval {_} _.

Record htab (V : Type) := mk_htab {
  t_table : list (list (hitem V));
  t_logsize : nat;
  t_mask : Z;
  t_count : Z;
  t_apos : nat;
  t_ipos : option (hitem V)
}.
Arguments mk_htab {_} _ _ _ _ _ _.
Arguments t_table {_} _.
Arguments t_logsize {_} _.
Arguments t_mask {_} _.
Arguments t_count {_} _.
Arguments t_apos {_} _.
Arguments t_ipos {_} _.

Section Operations.
Context {V : Type}.
Implicit Types (t : htab V) (h : hitem V) (b : list (hitem V)) (key : list Z).

Definition set_table (table : list (list (hitem V))) t : htab V :=
  mk_htab table (t_logsize t) (t_mask t) (t_count t) (t_apos t) (t_ipos t).
Definition set_count n t : htab V :=
  mk_htab (t_table t) (t_logsize t) (t_mask t) n (t_apos t) (t_ipos t).
Definition set_position (apos : nat) (ipos : option (hitem V)) t : htab V :=
  mk_htab (t_table t) (t_logsize t) (t_mask t) (t_count t) apos ipos.

(** [lookup(key, keyl, 0)]. *)
Definition hash_key key : outcome Z := lookup_hash key (Z.of_nat (length key)) 0.

Definition bucket_of (mask x : Z) : nat := Z.to_nat (Z.land x mask).

Definition hcreate (logsize : nat) : htab V :=
  let len := (2 ^ logsize)%nat in
  mk_htab (replicate len []) logsize (Z.of_nat len - 1) 0 0 None.

(** The first of the indices with an item in its bucket. *)
Fixpoint next_bucket t (indices : list nat) : outcome (option (nat * hitem V)) :=
  match indices with
  | [] => Done None
  | i :: indices =>
      b ← get (t_table t) i;
      match b with [] => next_bucket t indices | h :: _ => Done (Some (i, h)) end
  end.

Definition hnbucket t : outcome (bool * htab V) :=
  let oldapos := t_apos t in
  let last := (2 ^ t_logsize t)%nat in
  r ← next_bucket t (seq (S oldapos) (last - S oldapos));
  match r with
  | Some (i, h) => Done (true, set_position i (Some h) t)
  | None =>
      r ← next_bucket t (seq 0 (S oldapos));
      match r with
      | Some (i, h) => Done (false, set_position i (Some h) t)
      | None => Done (false, t)
      end
  end.

Definition hfirst t : outcome (bool * htab V) :=
  '(_, t) ← hnbucket (set_position (Z.to_nat (t_mask t)) (t_ipos t) t);
  Done (bool_decide (is_Some (t_ipos t)), t).

(** The item after [h] in its bucket. *)
Fixpoint item_next b (h : hitem V) : option (hitem V) :=
  match b with
  | [] => None
  | h' :: b => if decide (h_key h' = h_key h) then head b else item_next b h
  end.

Definition hnext t : outcome (bool * htab V) :=
  match t_ipos t with
  | None => Done (false, t)
  | Some h =>
      b ← get (t_table t) (t_apos t);
      match item_next b h with
      | Some h' => Done (true, set_position (t_apos t) (Some h') t)
      | None => hnbucket (set_position (t_apos t) None t)
      end
  end.

Definition hcount t : Z := t_count t.

Definition hstuff t : outcome V :=
  match t_ipos t with Some h => Done (h_stuff h) | None => Fault OutOfBounds end.

(** The move of one item of the old table. *)
Definition rehash (newmask : Z) (table : list (list (hitem V))) h : outcome (list (list (hitem V))) :=
  update table (bucket_of newmask (h_hval h)) (cons h).

Definition hgrow t : outcome (htab V) :=
  let logsize := S (t_logsize t) in
  let newsize := (2 ^ logsize)%nat in
  let newmask := Z.of_nat newsize - 1 in
  table ← foldM (rehash newmask) (replicate newsize []) (mjoin (reverse (t_table t)));
  let t := mk_htab table logsize newmask (t_count t) (t_apos t) (t_ipos t) in
  '(_, t) ← hfirst t;
  Done t.

Definition same_item (x : Z) key h : bool :=
  (x =? h_hval h) && bool_decide (key = h_key h).

Definition hfind t key : outcome (bool * htab V) :=
  x ← hash_key key;
  let y := bucket_of (t_mask t) x in
  b ← get (t_table t) y;
  match list_find (λ h, same_item x key h = true) b with
  | Some (_, h) => Done (true, set_position y (Some h) t)
  | None => Done (false, t)
  end.

Definition hadd t key (stuff : V) : outcome (bool * htab V) :=
  x ← hash_key key;
  let y := bucket_of (t_mask t) x in
  b ← get (t_table t) y;
  match list_find (λ h, same_item x key h = true) b with
  | Some (_, h) => Done (false, set_position y (Some h) t)
  | None =>
      let t := set_count (t_count t + 1) t in
      '(t, y) ← (if Z.of_nat (2 ^ t_logsize t) <? t_count t then
                   t ← hgrow t; Done (t, bucket_of (t_mask t) x)
                 else Done (t, y));
      let h := mk_hitem key stuff x in
      table ← update (t_table t) y (cons h);
      Done (true, set_position y (Some h) (set_table table t))
  end.

(** The bucket without [h]; the walk of [hdel] does not test for its end. *)
Fixpoint unlink b h : outcome (list (hitem V)) :=
  match b with
  | [] => Fault OutOfBounds
  | h' :: b =>
      if decide (h_key h' = h_key h) then Done b
      else b ← unlink b h; Done (h' :: b)
  end.

Definition hdel t : outcome (bool * htab V) :=
  match t_ipos t with
  | None => Done (false, t)
  | Some h =>
      b ← get (t_table t) (t_apos t);
      b' ← unlink b h;
      table ← put (t_table t) (t_apos t) b';
      let t := set_count (t_count t - 1) (set_table table t) in
      match item_next b h with
      | Some h' => Done (true, set_position (t_apos t) (Some h') t)
      | None => '(_, t) ← hnbucket (set_position (t_apos t) None t); Done (true, t)
      end
  end.

(** [if (hfirst(t)) do ... while (hnext(t))]: the items it visits. *)
Fixpoint visit_loop (fuel : nat) t (visited : list (hitem V)) : outcome (list (hitem V)) :=
  match fuel with
  | O => Fault OutOfFuel
  | S fuel =>
      match t_ipos t with
      | None => Fault OutOfBounds
      | Some h =>
          '(more, t) ← hnext t;
          if (more : bool) then visit_loop fuel t (visited ++ [h]) else Done (visited ++ [h])
      end
  end.

Definition visit t : outcome (list (hitem V)) :=
  '(some, t) ← hfirst t;
  if (some : bool) then visit_loop (Z.to_nat (t_count t)) t [] else Done [].
End Operations.

(** ** What a table holds *)

Section Invariant.
Context {V : Type}.
Implicit Types (t : htab V) (h : hitem V) (b : list (hitem V)) (key : list Z).
Implicit Types (T : list (list (hitem V))).

Definition items t : list (hitem V) := mjoin (t_table t).
Definition entries t : gmap (list Z) V := list_to_map ((λ h, (h_key h, h_stuff h)) <$> items t).

(** Every item is in the bucket of its hash. *)
Definition placed (mask : Z) T : Prop :=
  ∀ y b h, T !! y = Some b → h ∈ b → hash_key (h_key h) = Done (h_hval h) ∧ bucket_of mask (h_hval h) = y.

Record htab_ok t : Prop := {
  ok_len : length (t_table t) = (2 ^ t_logsize t)%nat;
  ok_mask : t_mask t = Z.of_nat (2 ^ t_logsize t) - 1;
  ok_placed : placed (t_mask t) (t_table t);
  ok_keys : NoDup (h_key <$> items t);
  ok_count : t_count t = Z.of_nat (length (items t));
  ok_apos : (t_apos t < 2 ^ t_logsize t)%nat;
  (** the current position has an item as long as the table has one *)
  ok_position : match t_ipos t with
    | Some h => ∃ b, t_table t !! t_apos t = Some b ∧ h ∈ b
    | None => items t = []
    end
}.

Lemma pow2_pos n : (0 < 2 ^ n)%nat.
Proof. induction n; cbn; lia. Qed.

Lemma bucket_of_lt n x : (bucket_of (Z.of_nat (2 ^ n) - 1) x < 2 ^ n)%nat.
Proof.
  unfold bucket_of. pose proof (pow2_pos n).
  assert (Z.of_nat (2 ^ n) = 2 ^ Z.of_nat n) as Hp by apply Nat2Z.inj_pow.
  rewrite Hp. replace (2 ^ Z.of_nat n - 1) with (Z.ones (Z.of_nat n)) by (rewrite Z.ones_equiv; lia).
  rewrite Z.land_ones by lia. pose proof (Z.mod_pos_bound x (2 ^ Z.of_nat n)). lia.
Qed.

Lemma join_cons b T : mjoin (b :: T) = b ++ mjoin T.
Proof. done. Qed.

Lemma join_split T i b :
  T !! i = Some b → ∃ r, mjoin T ≡ₚ b ++ r ∧ ∀ b', mjoin (<[i := b']> T) ≡ₚ b' ++ r.
Proof.
  intros Hi. exists (mjoin (take i T) ++ mjoin (drop (S i) T)). split.
  - rewrite <-(take_drop_middle T i b Hi) at 1. rewrite join_app, join_cons. solve_Permutation.
  - intros b'. rewrite insert_take_drop by eauto using lookup_lt_Some.
    rewrite join_app, join_cons. solve_Permutation.
Qed.

Lemma join_perm T1 T2 : T1 ≡ₚ T2 → mjoin T1 ≡ₚ mjoin T2.
Proof.
  induction 1 as [|b T1 T2 _ IH|b1 b2 T|T1 T2 T3 _ IH1 _ IH2]; [done| | |by rewrite IH1].
  - by rewrite !join_cons, IH.
  - rewrite !join_cons. solve_Permutation.
Qed.

Lemma elem_of_join T h : h ∈ mjoin T ↔ ∃ y b, T !! y = Some b ∧ h ∈ b.
Proof.
  rewrite list_elem_of_join. split.
  - intros (b & Hh & Hb). apply list_elem_of_lookup in Hb as [y Hy]. eauto.
  - intros (y & b & Hy & Hh). exists b. split; [done|]. by eapply list_elem_of_lookup_2.
Qed.

Lemma join_nil T : mjoin T = [] ↔ ∀ y b, T !! y = Some b → b = [].
Proof.
  split.
  - intros HT y b Hy. destruct b as [|h b]; [done|].
    assert (h ∈ mjoin T) as Hin by (apply elem_of_join; exists y, (h :: b); split; [done|by left]).
    rewrite HT in Hin. by apply not_elem_of_nil in Hin.
  - intros Hb. destruct (mjoin T) as [|h l] eqn:HT; [done|].
    assert (h ∈ mjoin T) as Hin by (rewrite HT; by left).
    apply elem_of_join in Hin as (y & b & Hy & Hin). rewrite (Hb y b Hy) in Hin.
    by apply not_elem_of_nil in Hin.
Qed.

Lemma entries_lookup t key v :
  htab_ok t → entries t !! key = Some v ↔ ∃ h, h ∈ items t ∧ h_key h = key ∧ h_stuff h = v.
Proof.
  intros Hok. unfold entries. rewrite <-elem_of_list_to_map.
  - rewrite list_elem_of_fmap. split.
    + intros (h & Heq & Hh). exists h. split; [done|]. by simplify_eq.
    + intros (h & Hh & <- & <-). by exists h.
  - rewrite <-list_fmap_compose. exact (ok_keys _ Hok).
Qed.

Lemma entries_None t key : htab_ok t → entries t !! key = None ↔ key ∉ h_key <$> items t.
Proof.
  intros Hok. rewrite eq_None_not_Some. apply not_iff_compat. split.
  - intros [v Hv]. apply entries_lookup in Hv as (h & Hh & <- & _); [|done].
    apply list_elem_of_fmap. by exists h.
  - intros Hin. apply list_elem_of_fmap in Hin as (h & -> & Hh). exists (h_stuff h).
    apply entries_lookup; [done|]. by exists h.
Qed.

Lemma entries_size t : htab_ok t → t_count t = Z.of_nat (size (entries t)).
Proof.
  intros Hok. unfold entries. rewrite map_size_list_to_map.
  - rewrite (ok_count _ Hok). by rewrite length_fmap.
  - rewrite <-list_fmap_compose. exact (ok_keys _ Hok).
Qed.

Lemma items_hcreate n : items (hcreate (V := V) n) = [].
Proof. apply join_nil. intros y b Hb. by apply lookup_replicate in Hb as [-> _]. Qed.

Lemma hcreate_ok n : htab_ok (hcreate (V := V) n) ∧ entries (hcreate (V := V) n) = ∅.
Proof.
  pose proof (items_hcreate n) as Hi. split; [|unfold entries; by rewrite Hi]. split; rewrite ?Hi; try done; cbn.
  - apply length_replicate.
  - intros y b h Hb Hh. apply lookup_replicate in Hb as [-> _]. by apply not_elem_of_nil in Hh.
  - constructor.
  - apply pow2_pos.
Qed.

(** ** The walk over the buckets *)

Lemma seq_prefix a n l1 i l2 : seq a n = l1 ++ i :: l2 → ∀ j, j ∈ l1 ↔ (a ≤ j < i)%nat.
Proof.
  intros Hs j. assert (seq a n !! length l1 = Some i) as Hi by (rewrite Hs; by rewrite list_lookup_middle).
  apply lookup_seq in Hi as [-> Hn].
  assert (l1 = seq a (length l1)) as Hl.
  { rewrite <-(take_app_length l1 ((a + length l1)%nat :: l2)) at 1. rewrite <-Hs, take_seq. f_equal. lia. }
  rewrite Hl at 1. apply elem_of_seq_iff.
Qed.


Lemma next_bucket_ok t idx :
  Forall (λ i, i < length (t_table t))%nat idx →
  ∃ r, next_bucket t idx = Done r ∧
    match r with
    | Some (i, h) => ∃ l1 l2 b, idx = l1 ++ i :: l2 ∧ t_table t !! i = Some (h :: b) ∧
        Forall (λ j, t_table t !! j = Some []) l1
    | None => Forall (λ j, t_table t !! j = Some []) idx
    end.
Proof.
  induction 1 as [|i idx Hi _ (r & IHe & IH)]; [by exists None|]. cbn [next_bucket].
  destruct (lookup_lt_is_Some_2 _ _ Hi) as [b Hb]. unfold get. rewrite Hb. cbn [mbind outcome_bind].
  destruct b as [|h b].
  - exists r. split; [done|]. destruct r as [[j h]|]; [|by constructor].
    destruct IH as (l1 & l2 & b & -> & Hj & Hl). exists (i :: l1), l2, b. split_and!; [done|done|by constructor].
  - exists (Some (i, h)). split; [done|]. exists [], idx, b. by split_and!.
Qed.

(** Where [hnbucket] goes from the bucket at [p]. *)
Definition bucket_after T (p : nat) (more : bool) (i : nat) (h : hitem V) : Prop :=
  (∃ b, T !! i = Some (h :: b)) ∧
  if more then (p < i)%nat ∧ ∀ j, (p < j < i)%nat → T !! j = Some []
  else (∀ j, (p < j < length T)%nat → T !! j = Some []) ∧ ∀ j, (j < i)%nat → T !! j = Some [].

Lemma hnbucket_ok t :
  length (t_table t) = (2 ^ t_logsize t)%nat → (t_apos t < 2 ^ t_logsize t)%nat →
  (items t = [] ∧ hnbucket t = Done (false, t)) ∨
  ∃ more i h, hnbucket t = Done (more, set_position i (Some h) t) ∧
    bucket_after (t_table t) (t_apos t) more i h.
Proof.
  intros Hlen Hap. unfold hnbucket.
  destruct (next_bucket_ok t (seq (S (t_apos t)) (2 ^ t_logsize t - S (t_apos t)))) as (r & -> & Hr).
  { apply Forall_forall. intros i Hi. apply elem_of_seq_iff in Hi. lia. }
  cbn [mbind outcome_bind]. destruct r as [[i h]|].
  - right. exists true, i, h. split; [done|]. destruct Hr as (l1 & l2 & b & Hs & Hi & Hl).
    split; [by exists b|].
    assert (i ∈ seq (S (t_apos t)) (2 ^ t_logsize t - S (t_apos t))) as Hin.
    { rewrite Hs. apply elem_of_app. right. by left. }
    apply elem_of_seq_iff in Hin. split; [lia|]. intros j Hj.
    rewrite Forall_forall in Hl. apply Hl, (seq_prefix _ _ _ _ _ Hs). lia.
  - assert (∀ j, (t_apos t < j < length (t_table t))%nat → t_table t !! j = Some []) as Hafter.
    { intros j Hj. rewrite Forall_forall in Hr. apply Hr, elem_of_seq_iff. lia. }
    destruct (next_bucket_ok t (seq 0 (S (t_apos t)))) as (r & -> & Hr').
    { apply Forall_forall. intros i Hi. apply elem_of_seq_iff in Hi. lia. }
    cbn [mbind outcome_bind]. destruct r as [[i h]|].
    + right. exists false, i, h. split; [done|]. destruct Hr' as (l1 & l2 & b & Hs & Hi & Hl).
      split; [by exists b|]. split; [done|]. intros j Hj.
      rewrite Forall_forall in Hl. apply Hl, (seq_prefix _ _ _ _ _ Hs). lia.
    + left. split; [|done]. apply join_nil. intros y b Hy.
      pose proof (lookup_lt_Some _ _ _ Hy). destruct (decide (t_apos t < y)%nat).
      * rewrite Hafter in Hy by lia. by injection Hy.
      * rewrite Forall_forall in Hr'. rewrite Hr' in Hy by (apply elem_of_seq_iff; lia). by injection Hy.
Qed.

(** The fields of the invariant that do not speak of the position. *)
Record contents_ok t : Prop := {
  co_len : length (t_table t) = (2 ^ t_logsize t)%nat;
  co_mask : t_mask t = Z.of_nat (2 ^ t_logsize t) - 1;
  co_placed : placed (t_mask t) (t_table t);
  co_keys : NoDup (h_key <$> items t);
  co_count : t_count t = Z.of_nat (length (items t))
}.

Lemma contents_position t i h :
  contents_ok t → (∃ b, t_table t !! i = Some b ∧ h ∈ b) → htab_ok (set_position i (Some h) t).
Proof.
  intros [] (b & Hb & Hh). split; try done; cbn.
  - rewrite <-co_len0. by eapply lookup_lt_Some.
  - by exists b.
Qed.

Lemma ok_contents t : htab_ok t → contents_ok t.
Proof. by intros []. Qed.

Lemma hnbucket_keeps t :
  contents_ok t → (t_apos t < 2 ^ t_logsize t)%nat → (items t = [] → t_ipos t = None) →
  ∃ more t', hnbucket t = Done (more, t') ∧ htab_ok t' ∧ t_table t' = t_table t.
Proof.
  intros Hc Hap Hnone.
  destruct (hnbucket_ok t (co_len _ Hc) Hap) as [[Hi ->]|(more & i & h & -> & [b Hb] & _)].
  - exists false, t. split_and!; [done| |done]. destruct Hc. split; try done. by rewrite Hnone.
  - exists more, (set_position i (Some h) t). split_and!; [done| |done].
    apply contents_position; [done|]. exists (h :: b). split; [done|by left].
Qed.

Lemma hfirst_ok t :
  contents_ok t → (items t = [] → t_ipos t = None) →
  ∃ more t', hfirst t = Done (more, t') ∧ htab_ok t' ∧ t_table t' = t_table t.
Proof.
  intros Hc Hnone. unfold hfirst. pose proof (pow2_pos (t_logsize t)).
  destruct (hnbucket_keeps (set_position (Z.to_nat (t_mask t)) (t_ipos t) t)) as (more & t' & -> & Hok & Ht').
  - by destruct Hc.
  - cbn. rewrite (co_mask _ Hc). lia.
  - done.
  - cbn [mbind outcome_bind]. by eexists _, t'.
Qed.

(** ** Growing *)

Lemma placed_insert mask T i b h :
  placed mask T → T !! i = Some b → hash_key (h_key h) = Done (h_hval h) → bucket_of mask (h_hval h) = i →
  placed mask (<[i := h :: b]> T).
Proof.
  intros Hp Hi Hh Hb y b' h' Hy Hin.
  destruct (decide (y = i)) as [->|Hne].
  - rewrite list_lookup_insert_eq in Hy by (by eapply lookup_lt_Some). injection Hy as <-.
    apply elem_of_cons in Hin as [->|Hin]; [done|]. by apply (Hp i b).
  - rewrite list_lookup_insert_ne in Hy by done. by apply (Hp y b').
Qed.

Lemma rehash_all n l :
  (∀ h, h ∈ l → hash_key (h_key h) = Done (h_hval h)) →
  ∃ T, foldM (rehash (Z.of_nat (2 ^ n) - 1)) (replicate (2 ^ n) []) l = Done T ∧
    length T = (2 ^ n)%nat ∧ mjoin T ≡ₚ l ∧ placed (Z.of_nat (2 ^ n) - 1) T.
Proof.
  intros Hl. apply (foldM_total _ (λ done T, length T = (2 ^ n)%nat ∧ mjoin T ≡ₚ done ∧ placed (Z.of_nat (2 ^ n) - 1) T)).
  - destruct (hcreate_ok n) as [Hok Hm]. split_and!; [apply length_replicate| |].
    + change (items (hcreate (V := V) n) ≡ₚ []). by rewrite items_hcreate.
    + exact (ok_placed _ Hok).
  - intros l1 h l2 T -> (Hlen & Hp & Hpl).
    destruct (lookup_lt_is_Some_2 T (bucket_of (Z.of_nat (2 ^ n) - 1) (h_hval h))) as [b Hb].
    { rewrite Hlen. apply bucket_of_lt. }
    eexists. split; [apply update_Done; by exists b|]. split_and!.
    + by rewrite length_insert.
    + destruct (join_split T _ _ Hb) as (r & Hr & Hr'). rewrite (Hr' (h :: b)), <-Hp, Hr. solve_Permutation.
    + apply placed_insert; [done|done| |done]. apply Hl. apply elem_of_app. right. by left.
Qed.

Lemma hgrow_ok t :
  placed (t_mask t) (t_table t) →
  ∃ T apos ipos, hgrow t = Done (mk_htab T (S (t_logsize t)) (Z.of_nat (2 ^ S (t_logsize t)) - 1) (t_count t) apos ipos) ∧
    length T = (2 ^ S (t_logsize t))%nat ∧ mjoin T ≡ₚ items t ∧ placed (Z.of_nat (2 ^ S (t_logsize t)) - 1) T.
Proof.
  intros Hpl. unfold hgrow. destruct (rehash_all (S (t_logsize t)) (mjoin (reverse (t_table t)))) as (T & -> & Hlen & Hp & Hpl').
  { intros h Hh. rewrite (join_perm _ _ (reverse_Permutation _)) in Hh.
    apply elem_of_join in Hh as (y & b & Hy & Hh). by apply (Hpl y b). }
  cbn [mbind outcome_bind]. rewrite (join_perm _ _ (reverse_Permutation _)) in Hp.
  unfold hfirst. set (t1 := set_position _ _ _).
  destruct (hnbucket_ok t1) as [[_ ->]|(more & i & h & -> & _)]; [exact Hlen| | |].
  - cbn. pose proof (pow2_pos (S (t_logsize t))). cbn in *. lia.
  - cbn [mbind outcome_bind]. eexists T, _, _. by split_and!.
  - cbn [mbind outcome_bind]. eexists T, _, _. by split_and!.
Qed.

(** ** The operations *)

Lemma hash_key_ok key : ∃ x, hash_key key = Done x.
Proof.
  destruct (lookup_hash_ok key (Z.of_nat (length key)) 0) as (x & Hx & _); [lia|done|by exists x].
Qed.

Lemma bucket_lookup t x : htab_ok t → ∃ b, t_table t !! bucket_of (t_mask t) x = Some b.
Proof. intros Hok. apply lookup_lt_is_Some. rewrite (ok_len _ Hok), (ok_mask _ Hok). apply bucket_of_lt. Qed.

Lemma find_in_bucket t key x b :
  htab_ok t → hash_key key = Done x → t_table t !! bucket_of (t_mask t) x = Some b →
  match list_find (λ h, same_item x key h = true) b with
  | Some (_, h) => h ∈ b ∧ h_key h = key
  | None => key ∉ h_key <$> items t
  end.
Proof.
  intros Hok Hx Hb. destruct (list_find _ b) as [[i h]|] eqn:Hf.
  - apply list_find_Some in Hf as (Hi & Hs & _). split; [by eapply list_elem_of_lookup_2|].
    unfold same_item in Hs. apply andb_prop in Hs as [_ Hs]. by apply bool_decide_eq_true_1 in Hs.
  - apply list_find_None in Hf. intros Hin. apply list_elem_of_fmap in Hin as (h & Hk & Hh).
    apply elem_of_join in Hh as (y & b' & Hy & Hh).
    destruct (ok_placed _ Hok y b' h Hy Hh) as [Hhash Hbk].
    rewrite <-Hk, Hx in Hhash. injection Hhash as Hxh. subst y. rewrite <-Hxh in Hy. simplify_eq.
    rewrite Forall_forall in Hf. apply (Hf h Hh). unfold same_item.
    rewrite Z.eqb_refl. by apply bool_decide_eq_true_2.
Qed.

(** [hfind] finds exactly the keys of the table, and moves there. *)
Lemma hfind_ok t key :
  htab_ok t →
  match entries t !! key with
  | Some v => ∃ t' h, hfind t key = Done (true, t') ∧ htab_ok t' ∧ t_table t' = t_table t ∧
      t_ipos t' = Some h ∧ h_key h = key ∧ h_stuff h = v
  | None => hfind t key = Done (false, t)
  end.
Proof.
  intros Hok. destruct (hash_key_ok key) as [x Hx]. destruct (bucket_lookup t x Hok) as [b Hb].
  pose proof (find_in_bucket t key x b Hok Hx Hb) as Hf.
  assert (hfind t key = match list_find (λ h, same_item x key h = true) b with
    | Some (_, h) => Done (true, set_position (bucket_of (t_mask t) x) (Some h) t)
    | None => Done (false, t) end) as ->.
  { unfold hfind. rewrite Hx. cbn [mbind outcome_bind]. unfold get. by rewrite Hb. }
  destruct (list_find _ b) as [[i h]|].
  - destruct Hf as [Hh Hk]. assert (entries t !! key = Some (h_stuff h)) as ->.
    { apply entries_lookup; [done|]. exists h. split_and!; [|done|done]. apply elem_of_join. eauto. }
    eexists _, h. split_and!; try done. apply contents_position; [by apply ok_contents|]. eauto.
  - apply (entries_None _ _ Hok) in Hf. by rewrite Hf.
Qed.

Lemma hstuff_ok t h : t_ipos t = Some h → hstuff t = Done (h_stuff h).
Proof. intros Hi. unfold hstuff. by rewrite Hi. Qed.

(** The table with a new item at the head of its bucket. *)
Lemma entries_insert t t' key v x :
  htab_ok t → key ∉ h_key <$> items t → items t' ≡ₚ mk_hitem key v x :: items t → htab_ok t' →
  entries t' = <[key := v]> (entries t).
Proof.
  intros Hok Hn Hp Hok'. apply map_eq. intros k. apply option_eq. intros w.
  rewrite entries_lookup by done. setoid_rewrite Hp. setoid_rewrite elem_of_cons.
  destruct (decide (k = key)) as [->|Hne].
  - rewrite lookup_insert_eq. split.
    + intros (h & [->|Hh] & Hk & <-); [done|]. destruct Hn. apply list_elem_of_fmap. by exists h.
    + intros [= <-]. exists (mk_hitem key v x). auto.
  - rewrite lookup_insert_ne, entries_lookup by done. split.
    + intros (h & [->|Hh] & Hk & Hs); [cbn in Hk; congruence|]. by exists h.
    + intros (h & Hh & Hk & Hs). exists h. auto.
Qed.

Lemma hadd_ok t key v :
  htab_ok t →
  match entries t !! key with
  | Some _ => ∃ t' h, hadd t key v = Done (false, t') ∧ htab_ok t' ∧ t_table t' = t_table t ∧
      t_ipos t' = Some h ∧ h_key h = key
  | None => ∃ t' h, hadd t key v = Done (true, t') ∧ htab_ok t' ∧ entries t' = <[key := v]> (entries t) ∧
      t_ipos t' = Some h ∧ h_key h = key ∧ h_stuff h = v
  end.
Proof.
  intros Hok. destruct (hash_key_ok key) as [x Hx]. destruct (bucket_lookup t x Hok) as [b Hb].
  pose proof (find_in_bucket t key x b Hok Hx Hb) as Hf.
  unfold hadd. rewrite Hx. cbn [mbind outcome_bind]. unfold get at 1 2. rewrite Hb. cbn [mbind outcome_bind].
  destruct (list_find _ b) as [[i h]|].
  { destruct Hf as [Hh Hk]. assert (entries t !! key = Some (h_stuff h)) as ->.
    { apply entries_lookup; [done|]. exists h. split_and!; [|done|done]. apply elem_of_join. eauto. }
    eexists _, h. split_and!; try done. apply contents_position; [by apply ok_contents|]. eauto. }
  rewrite (proj2 (entries_None _ _ Hok) Hf).
  assert (∃ T n apos ipos, (if Z.of_nat (2 ^ t_logsize (set_count (t_count t + 1) t)) <? t_count (set_count (t_count t + 1) t) then
            t0 ← hgrow (set_count (t_count t + 1) t); Done (t0, bucket_of (t_mask t0) x)
          else Done (set_count (t_count t + 1) t, bucket_of (t_mask t) x)) =
    Done (mk_htab T n (Z.of_nat (2 ^ n) - 1) (t_count t + 1) apos ipos, bucket_of (Z.of_nat (2 ^ n) - 1) x) ∧
    length T = (2 ^ n)%nat ∧ mjoin T ≡ₚ items t ∧ placed (Z.of_nat (2 ^ n) - 1) T) as
    (T & n & apos & ipos & -> & Hlen & Hp & Hpl).
  { destruct (_ <? _).
    - destruct (hgrow_ok (set_count (t_count t + 1) t)) as (T & apos & ipos & -> & HT); [apply Hok|].
      cbn [mbind outcome_bind]. by exists T, (S (t_logsize t)), apos, ipos.
    - exists (t_table t), (t_logsize t), (t_apos t), (t_ipos t). destruct Hok as [H1 H2 H3 H4 H5 H6 H7].
      rewrite H2 in *. split_and!; try done. unfold set_count. by rewrite H2. }
  cbn [mbind outcome_bind t_table].
  destruct (lookup_lt_is_Some_2 T (bucket_of (Z.of_nat (2 ^ n) - 1) x)) as [b' Hb'].
  { rewrite Hlen. apply bucket_of_lt. }
  destruct (join_split T _ _ Hb') as (r & Hr & Hr').
  set (h := mk_hitem key v x). specialize (Hr' (h :: b')).
  assert (mjoin (<[bucket_of (Z.of_nat (2 ^ n) - 1) x := h :: b']> T) ≡ₚ h :: items t) as Hp'.
  { rewrite Hr', <-Hp, Hr. solve_Permutation. }
  rewrite (proj2 (update_Done T _ _ _) (ex_intro _ b' (conj Hb' eq_refl))). cbn [mbind outcome_bind].
  match goal with |- ∃ t' h', Done (true, ?M) = _ ∧ _ => assert (htab_ok M) as HM end.
  { apply contents_position.
    - split; cbn.
      + by rewrite length_insert.
      + done.
      + by apply placed_insert.
      + unfold items. cbn. rewrite Hp'. cbn. constructor; [done|]. apply Hok.
      + unfold items. cbn. rewrite Hp'. cbn. rewrite (ok_count _ Hok). lia.
    - cbn. exists (h :: b'). split; [|by left]. apply list_lookup_insert_eq. by eapply lookup_lt_Some. }
  eexists _, h. split_and!; [done|exact HM| |done|done|done].
  by apply (entries_insert _ _ _ _ x).
Qed.

Lemma keys_nodup_bucket t i b : htab_ok t → t_table t !! i = Some b → NoDup (h_key <$> b).
Proof.
  intros Hok Hb. destruct (join_split _ _ _ Hb) as (r & Hr & _).
  pose proof (ok_keys _ Hok) as Hn. unfold items in Hn. rewrite Hr, fmap_app in Hn.
  by apply NoDup_app in Hn as [Hn _].
Qed.

Lemma unlink_ok l1 h l2 :
  NoDup (h_key <$> l1 ++ h :: l2) →
  unlink (l1 ++ h :: l2) h = Done (l1 ++ l2) ∧ item_next (l1 ++ h :: l2) h = head l2.
Proof.
  induction l1 as [|h' l1 IH]; intros Hn; cbn.
  - by rewrite !decide_True.
  - cbn in Hn. apply NoDup_cons in Hn as [Hh' Hn].
    assert (h_key h' ≠ h_key h) as Hne.
    { intros Heq. apply Hh'. rewrite Heq, fmap_app. apply elem_of_app. right. by left. }
    rewrite !decide_False by done. destruct (IH Hn) as [-> ->]. done.
Qed.

Lemma hdel_ok t h :
  htab_ok t → t_ipos t = Some h →
  ∃ t', hdel t = Done (true, t') ∧ htab_ok t' ∧ entries t' = delete (h_key h) (entries t).
Proof.
  intros Hok Hi. pose proof (ok_position _ Hok) as Hpos. rewrite Hi in Hpos. destruct Hpos as (b & Hb & Hh).
  apply list_elem_of_split in Hh as (l1 & l2 & ->).
  destruct (unlink_ok l1 h l2 (keys_nodup_bucket _ _ _ Hok Hb)) as [Hu Hnx].
  unfold hdel. rewrite Hi. unfold get. rewrite Hb. cbn [mbind outcome_bind]. rewrite Hu, Hnx. cbn [mbind outcome_bind].
  rewrite (proj2 (put_Done _ _ _ _) (conj (lookup_lt_Some _ _ _ Hb) eq_refl)). cbn [mbind outcome_bind].
  set (t1 := set_count _ _).
  assert (items t ≡ₚ h :: items t1) as Hp.
  { destruct (join_split _ _ _ Hb) as (r & Hr & Hr'). unfold items, t1. cbn.
    rewrite (Hr' (l1 ++ l2)), Hr. solve_Permutation. }
  assert (contents_ok t1) as Hc.
  { split.
    - cbn. rewrite length_insert. apply Hok.
    - apply Hok.
    - intros y b' h' Hy Hh'. cbn in Hy. destruct (decide (y = t_apos t)) as [->|Hne].
      + rewrite list_lookup_insert_eq in Hy by (by eapply lookup_lt_Some). injection Hy as <-.
        apply (ok_placed _ Hok _ _ _ Hb). set_solver.
      + rewrite list_lookup_insert_ne in Hy by done. by apply (ok_placed _ Hok y b').
    - pose proof (ok_keys _ Hok) as Hn. rewrite Hp in Hn. cbn in Hn. by apply NoDup_cons in Hn as [_ Hn].
    - cbn. rewrite (ok_count _ Hok), Hp. cbn. lia. }
  assert (∃ t', (match head l2 with
      | Some h' => Done (true, set_position (t_apos t1) (Some h') t1)
      | None => '(_, t0) ← hnbucket (set_position (t_apos t1) None t1); Done (true, t0) end) = Done (true, t') ∧
    htab_ok t' ∧ t_table t' = t_table t1) as (t' & -> & Hok' & Ht').
  { destruct l2 as [|h' l2]; cbn [head].
    - destruct (hnbucket_keeps (set_position (t_apos t1) None t1)) as (more & t' & -> & Hok' & Ht').
      + by destruct Hc.
      + cbn. apply Hok.
      + done.
      + cbn [mbind outcome_bind]. by exists t'.
    - eexists. split_and!; [done| |done]. apply contents_position; [done|].
      exists (l1 ++ h' :: l2). split; [|set_solver]. cbn. apply list_lookup_insert_eq. by eapply lookup_lt_Some. }
  exists t'. split_and!; [done|done|].
  assert (items t' = items t1) as Hit by (unfold items; by rewrite Ht'). rewrite <-Hit in Hp.
  pose proof (ok_keys _ Hok) as Hn. rewrite Hp in Hn. cbn in Hn. apply NoDup_cons in Hn as [Hn _].
  apply map_eq. intros k. apply option_eq. intros w. destruct (decide (k = h_key h)) as [->|Hne].
  - rewrite lookup_delete_eq. split; [|done]. intros Hw. apply (entries_lookup _ _ _ Hok') in Hw as (h' & Hh' & Hk & _).
    destruct Hn. apply list_elem_of_fmap. by exists h'.
  - rewrite lookup_delete_ne, !entries_lookup by done. setoid_rewrite Hp. setoid_rewrite elem_of_cons.
    split; [intros (h' & ? & ? & ?); exists h'; auto|]. intros (h' & [->|?] & ? & ?); [done|]. by exists h'.
Qed.

Lemma hdel_empty t : t_ipos t = None → hdel t = Done (false, t).
Proof. intros Hi. unfold hdel. by rewrite Hi. Qed.

(** ** Walking over the table *)

Lemma join_empty T a n : (∀ j, (a ≤ j < a + n)%nat → T !! j = Some []) → mjoin (take n (drop a T)) = [].
Proof.
  intros HT. apply join_nil. intros y b Hy. apply lookup_take_Some in Hy as [Hy Hlt].
  rewrite lookup_drop in Hy. rewrite HT in Hy by lia. by injection Hy.
Qed.

Lemma join_skip T a i b :
  (a ≤ i)%nat → (∀ j, (a ≤ j < i)%nat → T !! j = Some []) → T !! i = Some b →
  mjoin (drop a T) = b ++ mjoin (drop (S i) T).
Proof.
  intros Hai HT Hi. rewrite <-(take_drop (i - a) (drop a T)), join_app, join_empty.
  - rewrite drop_drop. replace (a + (i - a))%nat with i by lia. by rewrite (drop_S _ _ _ Hi).
  - intros j Hj. apply HT. lia.
Qed.

Lemma visit_loop_ok fuel : ∀ t l1 h l2 visited,
  htab_ok t → t_table t !! t_apos t = Some (l1 ++ h :: l2) → t_ipos t = Some h →
  (length (h :: l2 ++ mjoin (drop (S (t_apos t)) (t_table t))) ≤ fuel)%nat →
  visit_loop fuel t visited = Done (visited ++ h :: l2 ++ mjoin (drop (S (t_apos t)) (t_table t))).
Proof.
  induction fuel as [|fuel IH]; intros t l1 h l2 visited Hok Hb Hi Hf; [cbn in Hf; lia|].
  cbn [visit_loop]. rewrite Hi. unfold hnext. rewrite Hi. unfold get. rewrite Hb. cbn [mbind outcome_bind].
  destruct (unlink_ok l1 h l2 (keys_nodup_bucket _ _ _ Hok Hb)) as [_ ->].
  destruct l2 as [|h' l2]; cbn [head].
  - destruct (hnbucket_ok (set_position (t_apos t) None t)) as [[Hit _]|(more & i & h' & -> & (b & Hib) & Hm)].
    + apply Hok.
    + apply Hok.
    + exfalso. apply (not_elem_of_nil h). change (items _) with (items t) in Hit. rewrite <-Hit.
      apply elem_of_join. exists (t_apos t), (l1 ++ [h]). split; [done|set_solver].
    + cbn [mbind outcome_bind]. cbn in Hm, Hib. destruct more.
      * destruct Hm as [Hgt Hbetween]. pose proof (join_skip (t_table t) (S (t_apos t)) i (h' :: b) ltac:(lia)
          ltac:(intros j Hj; apply Hbetween; lia) Hib) as Hj.
        rewrite (IH _ [] h' b); cbn [t_table t_apos set_position app].
        -- rewrite Hj, <-app_assoc. done.
        -- apply (contents_position t); [by apply ok_contents|]. exists (h' :: b). split; [done|by left].
        -- done.
        -- done.
        -- cbn [app] in Hf. rewrite Hj in Hf. cbn in Hf |- *. lia.
      * destruct Hm as [Hafter _]. cbn [app].
        assert (mjoin (drop (S (t_apos t)) (t_table t)) = []) as ->; [|done].
        apply join_nil. intros y b' Hy. rewrite lookup_drop in Hy.
        pose proof (lookup_lt_Some _ _ _ Hy). rewrite Hafter in Hy by lia. by injection Hy.
  - cbn [mbind outcome_bind]. rewrite (IH _ (l1 ++ [h]) h' l2); cbn [t_table t_apos set_position].
    + by rewrite <-app_assoc.
    + apply (contents_position t); [by apply ok_contents|]. exists (l1 ++ h :: h' :: l2). split; [done|set_solver].
    + by rewrite <-app_assoc.
    + done.
    + cbn in Hf |- *. lia.
Qed.

Lemma visit_ok t : htab_ok t → visit t = Done (items t).
Proof.
  intros Hok. unfold visit, hfirst. set (t1 := set_position _ _ t).
  pose proof (pow2_pos (t_logsize t)).
  assert (t_apos t1 = (2 ^ t_logsize t - 1)%nat) as Hap by (cbn; rewrite (ok_mask _ Hok); lia).
  destruct (hnbucket_ok t1) as [[Hit ->]|(more & i & h & -> & (b & Hib) & Hm)].
  - apply Hok.
  - rewrite Hap. cbn. lia.
  - change (items t1) with (items t) in Hit. cbn [mbind outcome_bind].
    pose proof (ok_position _ Hok) as Hpos. assert (t_ipos t1 = None) as ->.
    { cbn. destruct (t_ipos t) as [h|]; [|done]. destruct Hpos as (b & Hb & Hh).
      exfalso. apply (not_elem_of_nil h). rewrite <-Hit. apply elem_of_join. eauto. }
    rewrite bool_decide_eq_false_2 by (by intros [? ?]). by rewrite Hit.
  - cbn [mbind outcome_bind t_ipos set_position]. rewrite bool_decide_eq_true_2 by eauto.
    cbn in Hib. destruct more.
    { destruct Hm as [Hgt _]. apply lookup_lt_Some in Hib. rewrite (ok_len _ Hok) in Hib. lia. }
    destruct Hm as [_ Hbefore].
    pose proof (join_skip (t_table t) 0 i (h :: b) ltac:(lia) ltac:(intros j Hj; apply Hbefore; lia) Hib) as Hj.
    rewrite drop_0 in Hj. change (mjoin (t_table t)) with (items t) in Hj.
    rewrite (visit_loop_ok _ _ [] h b); cbn [t_table t_apos t_ipos set_position app t_count].
    + by rewrite Hj.
    + apply (contents_position t); [by apply ok_contents|]. exists (h :: b). split; [done|by left].
    + done.
    + done.
    + unfold t1. cbn [t_count t_table set_position]. rewrite (ok_count _ Hok), Nat2Z.id, Hj. done.
Qed.
End Invariant.

(** ** The abstract table

    How the users of a table call it, and what they see. *)

Section Abstract.
Context {V : Type}.
Implicit Types (t : htab V) (m : gmap (list Z) V) (key : list Z).

Inductive tab_op :=
  | TabAdd (key : list Z) (stuff : V)
  | TabFind (key : list Z)
  | TabDelete (key : list Z)
  | TabCount
  | TabVisit.

Inductive tab_reply :=
  | ReplyDone (result : bool)
  | ReplyStuff (stuff : option V)
  | ReplyCount (count : Z)
  | ReplyAll (all : list (list Z * V)).

Definition run_tab (t : htab V) (o : tab_op) : outcome (htab V * tab_reply) :=
  match o with
  | TabAdd key stuff => '(r, t) ← hadd t key stuff; Done (t, ReplyDone r)
  | TabFind key =>
      '(r, t) ← hfind t key;
      if (r : bool) then v ← hstuff t; Done (t, ReplyStuff (Some v)) else Done (t, ReplyStuff None)
  | TabDelete key =>
      '(r, t) ← hfind t key;
      if (r : bool) then '(r, t) ← hdel t; Done (t, ReplyDone r) else Done (t, ReplyDone false)
  | TabCount => Done (t, ReplyCount (hcount t))
  | TabVisit => l ← visit t; Done (t, ReplyAll ((λ h, (h_key h, h_stuff h)) <$> l))
  end.

Fixpoint run_tabs (t : htab V) (ops : list tab_op) : outcome (htab V * list tab_reply) :=
  match ops with
  | [] => Done (t, [])
  | o :: ops =>
      '(t, r) ← run_tab t o;
      '(t, rs) ← run_tabs t ops;
      Done (t, r :: rs)
  end.

(** An operation on a finite map; [TabVisit] shows every entry once, in any order. *)
Inductive map_step : tab_op → gmap (list Z) V → gmap (list Z) V → tab_reply → Prop :=
  | MapAdd key v m : m !! key = None → map_step (TabAdd key v) m (<[key := v]> m) (ReplyDone true)
  | MapAddThere key v w m : m !! key = Some w → map_step (TabAdd key v) m m (ReplyDone false)
  | MapFind key m : map_step (TabFind key) m m (ReplyStuff (m !! key))
  | MapDelete key m : map_step (TabDelete key) m (delete key m) (ReplyDone (bool_decide (is_Some (m !! key))))
  | MapCount m : map_step TabCount m m (ReplyCount (Z.of_nat (size m)))
  | MapVisit m l : l ≡ₚ map_to_list m → map_step TabVisit m m (ReplyAll l).

Inductive map_run : list tab_op → gmap (list Z) V → gmap (list Z) V → list tab_reply → Prop :=
  | MapNil m : map_run [] m m []
  | MapCons o ops m m' m'' r rs :
      map_step o m m' r → map_run ops m' m'' rs → map_run (o :: ops) m m'' (r :: rs).

Lemma entries_visit t : htab_ok t → (λ h, (h_key h, h_stuff h)) <$> items t ≡ₚ map_to_list (entries t).
Proof.
  intros Hok. unfold entries. rewrite map_to_list_to_map; [done|].
  rewrite <-list_fmap_compose. exact (ok_keys _ Hok).
Qed.

Lemma run_tab_ok t o :
  htab_ok t → ∃ t' r, run_tab t o = Done (t', r) ∧ htab_ok t' ∧ map_step o (entries t) (entries t') r.
Proof.
  intros Hok. destruct o as [key v|key|key| |]; cbn [run_tab].
  - pose proof (hadd_ok t key v Hok) as Ha. destruct (entries t !! key) as [w|] eqn:Hk.
    + destruct Ha as (t' & h & -> & Hok' & Ht & _). exists t', (ReplyDone false). split_and!; [done|done|].
      assert (entries t' = entries t) as -> by (unfold entries, items; by rewrite Ht). by econstructor.
    + destruct Ha as (t' & h & -> & Hok' & He & _). exists t', (ReplyDone true). split_and!; [done|done|]. rewrite He. by constructor.
  - pose proof (hfind_ok t key Hok) as Hf. destruct (entries t !! key) as [w|] eqn:Hk.
    + destruct Hf as (t' & h & -> & Hok' & Ht & Hi & _ & <-). cbn [mbind outcome_bind].
      rewrite (hstuff_ok _ _ Hi). cbn [mbind outcome_bind]. eexists t', _. split_and!; [done|done|].
      assert (entries t' = entries t) as -> by (unfold entries, items; by rewrite Ht). rewrite <-Hk. constructor.
    + rewrite Hf. eexists t, _. split_and!; [done|done|]. rewrite <-Hk. constructor.
  - pose proof (hfind_ok t key Hok) as Hf. destruct (entries t !! key) as [w|] eqn:Hk.
    + destruct Hf as (t1 & h & -> & Hok1 & Ht & Hi & <- & _). cbn [mbind outcome_bind].
      destruct (hdel_ok t1 h Hok1 Hi) as (t' & -> & Hok' & He). eexists t', _. split_and!; [done|done|]. rewrite He.
      assert (entries t1 = entries t) as -> by (unfold entries, items; by rewrite Ht).
      rewrite <-(bool_decide_eq_true_2 (is_Some (entries t !! h_key h))) by (by rewrite Hk). constructor.
    + rewrite Hf. eexists t, _. split_and!; [done|done|].
      rewrite <-(bool_decide_eq_false_2 (is_Some (entries t !! key))) by (rewrite Hk; by intros [? ?]).
      rewrite <-(delete_id (entries t) key Hk) at 2. constructor.
  - eexists t, _. split_and!; [done|done|]. unfold hcount. rewrite (entries_size _ Hok). constructor.
  - rewrite (visit_ok _ Hok). eexists t, _. split_and!; [done|done|]. constructor. by apply entries_visit.
Qed.

Lemma run_tabs_ok ops : ∀ t, htab_ok t →
  ∃ t' rs, run_tabs t ops = Done (t', rs) ∧ htab_ok t' ∧ map_run ops (entries t) (entries t') rs.
Proof.
  induction ops as [|o ops IH]; intros t Hok; cbn [run_tabs].
  - exists t, []. split_and!; [done|done|constructor].
  - destruct (run_tab_ok t o Hok) as (t1 & r & -> & Hok1 & Hs). cbn [mbind outcome_bind].
    destruct (IH t1 Hok1) as (t' & rs & -> & Hok' & Hr). cbn [mbind outcome_bind].
    exists t', (r :: rs). split_and!; [done|done|]. by econstructor.
Qed.

(** C20: the chained table is a finite map: whatever its users call, from a new
    table of any size, the calls return, the table keeps its invariant - every
    item in the bucket of its hash, no key twice, the count, and a current
    position as long as there is an item - and the replies are those of a finite
    map.  The walk with [hfirst] and [hnext] meets every entry exactly once. *)
Theorem hashtab_refines_map (logsize : nat) (ops : list tab_op) :
  ∃ t rs, run_tabs (hcreate logsize) ops = Done (t, rs) ∧ htab_ok t ∧ map_run ops ∅ (entries t) rs.
Proof.
  destruct (hcreate_ok (V := V) logsize) as [Hok He].
  destruct (run_tabs_ok ops _ Hok) as (t & rs & H1 & H2 & H3). rewrite He in H3. eauto.
Qed.
End Abstract.
