(* ===== verification/HcIndex.v ===== *)
(** * HashCache: the index in memory

    [src/HashCache/src/index.c] as the Makefile builds it ([FULL], [COMPLETE_LOG],
    eight ways): a set of the cache has eight entries, each with the hash of an
    object and the place of its first block in the log, and a rank from 0 to 7 in
    a packed word, 7 for the entry used last.  With it the users of the ranks,
    [getBestMatchByIndex] (proxy.c) and [getFreeLocation] (loop.c).  The counters
    of [printSetStats] and the dump of the index to disk are left out. *)

From Stdlib Require Import ZArith Lia.
From stdpp Require Import base list option numbers gmap sets.
From S2P Require Import Prelude.

Definition WAYS : Z := 8.
Definition LWAYS : Z := 3.
Definition ways : list nat := seq 0 8.

(** ** The packed ranks *)

(** The tables that [initIndex] fills. *)
Fixpoint clock_shift (i : nat) : Z :=
  match i with O => (WAYS - 1) * LWAYS | S i => clock_shift i - LWAYS end.
Fixpoint clock_mask (i : nat) : Z :=
  match i with O => u64 (Z.shiftl (WAYS - 1) (clock_shift 0)) | S i => Z.shiftr (clock_mask i) LWAYS end.
Definition clockShifts : list Z := clock_shift <$> ways.
Definition clockMasks : list Z := clock_mask <$> ways.

(** [clocks] has three bytes, and is accessed as a word of eight. *)
Definition getInteger (location : Z) (where_ : Z) : outcome Z :=
  mask ← get_at clockMasks where_;
  shift ← get_at clockShifts where_;
  Done (u32 (Z.shiftr (Z.land location mask) shift)).

Definition setInteger (location : Z) (where_ : Z) (value : Z) : outcome Z :=
  mask ← get_at clockMasks where_;
  shift ← get_at clockShifts where_;
  let n := u64 (Z.shiftl value shift) in
  let t := Z.land (Z.lxor location n) mask in
  Done (Z.lxor location t).

Definition decInteger (location : Z) (where_ : Z) : outcome Z :=
  value ← getInteger location where_;
  setInteger location where_ (u32 (-1 + value)).

Definition incInteger (location : Z) (where_ : Z) : outcome Z :=
  value ← getInteger location where_;
  setInteger location where_ (u32 (1 + value)).

(** ** Sets *)

Record setHeader := mk_setHeader {
  sh_headers : list Z;
  sh_clocks : Z;
  sh_logOffset : list Z;
  sh_logVersion : list Z;
  sh_logLen : list Z
}.

Definition with_clocks (c : Z) (s : setHeader) : setHeader :=
  mk_setHeader (sh_headers s) c (sh_logOffset s) (sh_logVersion s) (sh_logLen s).
Definition with_headers (h : list Z) (s : setHeader) : setHeader :=
  mk_setHeader h (sh_clocks s) (sh_logOffset s) (sh_logVersion s) (sh_logLen s).

(** One pass of the loop of [updateClocks]. *)
Definition age (cut : Z) (clocks : Z) (i : nat) : outcome Z :=
  present ← getInteger clocks (Z.of_nat i);
  if cut <? present then decInteger clocks (Z.of_nat i)
  else if present =? cut then setInteger clocks (Z.of_nat i) (WAYS - 1)
  else Done clocks.

Definition updateClocks (s : setHeader) (match_ : Z) : outcome setHeader :=
  cut ← getInteger (sh_clocks s) match_;
  if (match_ <? 0) || (WAYS - 1 <? match_) then Fault NiceExit
  else if cut =? WAYS - 1 then Done s
  else
    clocks ← foldM (age cut) (sh_clocks s) ways;
    Done (with_clocks clocks s).

Definition setMatch (s : setHeader) (match_ : Z) (presentHeader : Z) : outcome setHeader :=
  headers ← put (sh_headers s) (Z.to_nat match_) presentHeader;
  updateClocks (with_headers headers s) match_.

(** [logVersion] and [logLen] are arrays of [char]. *)
Definition setRem (s : setHeader) (match_ remOffset version remLen : Z) : outcome setHeader :=
  offs ← put (sh_logOffset s) (Z.to_nat match_) remOffset;
  vers ← put (sh_logVersion s) (Z.to_nat match_) (i8 version);
  lens ← put (sh_logLen s) (Z.to_nat match_) (i8 remLen);
  Done (mk_setHeader (sh_headers s) (sh_clocks s) offs vers lens).

(** One pass of the loop of [discardHeaders]. *)
Definition rejuvenate (cut : Z) (clocks : Z) (i : nat) : outcome Z :=
  present ← getInteger clocks (Z.of_nat i);
  if present <? cut then incInteger clocks (Z.of_nat i)
  else
    present ← getInteger clocks (Z.of_nat i);
    if present =? cut then setInteger clocks (Z.of_nat i) 0 else Done clocks.

(** The set that [discardHeaders] changes. *)
Definition discard_set (s : setHeader) (match_ : Z) : outcome setHeader :=
  cut ← getInteger (sh_clocks s) match_;
  if (match_ <? 0) || (WAYS - 1 <? match_) then Fault NiceExit
  else if cut =? 0 then Done s
  else
    headers ← put (sh_headers s) (Z.to_nat match_) (u32 (-1));
    clocks ← foldM (rejuvenate cut) (sh_clocks s) ways;
    Done (with_clocks clocks (with_headers headers s)).

(** ** The index *)

Record index := { ix_numSets : Z; ix_headers : list setHeader }.

Definition getSetFromHash (ix : index) (hash : Z) : Z := u32 hash mod ix_numSets ix.

(** A set as [initIndex] leaves it. *)
Definition init_clocks : outcome Z :=
  foldM (λ c j, setInteger c (Z.of_nat j) (Z.of_nat j)) 0 ways.

Definition initIndex (indexSize : Z) : outcome index :=
  let numSets := indexSize / WAYS in
  let numSets := if numSets * WAYS <? indexSize then numSets + WAYS else numSets in
  clocks ← init_clocks;
  let s := mk_setHeader (replicate 8 0) clocks (replicate 8 (-1)) (replicate 8 (i8 (-1))) (replicate 8 (i8 (-1))) in
  Done {| ix_numSets := numSets; ix_headers := replicate (Z.to_nat numSets) s |}.

Definition updateHeaders (ix : index) (hash matchNum header remOffset remLen version : Z) : outcome index :=
  let setNum := getSetFromHash ix hash in
  if ix_numSets ix <? setNum then Fault NiceExit
  else if (matchNum <? 0) || (WAYS - 1 <? matchNum) then Fault NiceExit
  else
    s ← get_at (ix_headers ix) setNum;
    s ← setMatch s matchNum header;
    s ← setRem s matchNum remOffset version remLen;
    headers ← put (ix_headers ix) (Z.to_nat setNum) s;
    Done {| ix_numSets := ix_numSets ix; ix_headers := headers |}.

Definition discardHeaders (ix : index) (hash match_ : Z) : outcome index :=
  let setNum := getSetFromHash ix hash in
  s ← get_at (ix_headers ix) setNum;
  s ← discard_set s match_;
  headers ← put (ix_headers ix) (Z.to_nat setNum) s;
  Done {| ix_numSets := ix_numSets ix; ix_headers := headers |}.

Definition getSetHeader (ix : index) (hash : Z) : outcome setHeader :=
  let setNum := getSetFromHash ix hash in
  if ix_numSets ix <? setNum then Fault NiceExit else get_at (ix_headers ix) setNum.

Definition getClock (s : setHeader) (i : nat) : outcome Z := getInteger (sh_clocks s) (Z.of_nat i).
Definition getFirstBlockOffset (s : setHeader) (match_ : nat) : outcome Z := get (sh_logOffset s) match_.
Definition getFirstBlockVersion (s : setHeader) (match_ : nat) : outcome Z := get (sh_logVersion s) match_.
Definition getFirstBlockLen (s : setHeader) (match_ : nat) : outcome Z := get (sh_logLen s) match_.

(** The best way so far, and its rank. *)
Definition best_match_step (hash : Z) (s : setHeader) (st : Z * Z) (i : nat) : outcome (Z * Z) :=
  let '(best, bestTime) := st in
  c ← getClock s i;
  h ← get (sh_headers s) i;
  Done (if (bestTime <? c) && (hash =? h) then (Z.of_nat i, c) else (best, bestTime)).

Definition getBestMatchByIndex (hash : Z) (s : setHeader) : outcome Z :=
  '(best, _) ← foldM (best_match_step hash s) (-1, 0) ways;
  Done best.

(** [lockOn] of locks.c is given by the ways that are locked. *)
Definition free_step (lockOn : nat → bool) (s : setHeader) (st : Z * Z) (i : nat) : outcome (Z * Z) :=
  let '(bestMatch, bestTime) := st in
  present ← getClock s i;
  Done (if lockOn i then (bestMatch, bestTime)
        else if present <? bestTime then (Z.of_nat i, present) else (bestMatch, bestTime)).

Definition getFreeLocation (lockOn : nat → bool) (s : setHeader) : outcome Z :=
  '(best, _) ← foldM (free_step lockOn s) (-1, WAYS + 1) ways;
  Done best.

(** ** The ranks as numbers *)

Definition shift_of (i : nat) : Z := 21 - 3 * Z.of_nat i.
Definition rank (w : Z) (i : nat) : Z := Z.land (Z.shiftr w (shift_of i)) 7.

(** [w'] has rank [v] at [i], and is otherwise [w], beyond the ranks too. *)
Record ranked_at (w : Z) (i : nat) (v : Z) (w' : Z) : Prop := {
  ra_nonneg : 0 ≤ w';
  ra_here : rank w' i = v;
  ra_else : ∀ j : nat, (j < 8)%nat → j ≠ i → rank w' j = rank w j;
  ra_frame : ∀ n, 24 ≤ n → Z.testbit w' n = Z.testbit w n
}.

Lemma clock_tables (i : nat) : (i < 8)%nat →
  get_at clockShifts (Z.of_nat i) = Done (shift_of i) ∧
  get_at clockMasks (Z.of_nat i) = Done (Z.shiftl 7 (shift_of i)) ∧ 0 ≤ shift_of i ≤ 21.
Proof. intros Hi. do 8 (destruct i as [|i]; [by split_and!|]). lia. Qed.

Lemma rank_range w i : 0 ≤ rank w i < 8.
Proof.
  unfold rank. change 7 with (Z.ones 3). rewrite Z.land_ones by lia.
  apply (Z.mod_pos_bound _ (2 ^ 3)). lia.
Qed.

Lemma testbit_seven n : 0 ≤ n → Z.testbit 7 n = (n <? 3).
Proof.
  intros Hn. change 7 with (Z.ones 3). rewrite Z.testbit_ones by lia.
  by rewrite (proj2 (Z.leb_le _ _) Hn).
Qed.

Lemma testbit_rank w i n :
  (i < 8)%nat → 0 ≤ n → Z.testbit (rank w i) n = Z.testbit w (n + shift_of i) && (n <? 3).
Proof.
  intros Hi Hn. destruct (clock_tables i Hi) as (_ & _ & Hs). unfold rank.
  by rewrite Z.land_spec, Z.shiftr_spec, testbit_seven.
Qed.

Lemma getInteger_ok w (i : nat) : (i < 8)%nat → getInteger w (Z.of_nat i) = Done (rank w i).
Proof.
  intros Hi. destruct (clock_tables i Hi) as (H1 & H2 & Hs). unfold getInteger. rewrite H1, H2.
  cbn [mbind outcome_bind]. rewrite Z.shiftr_land, Z.shiftr_shiftl_l by lia.
  rewrite Z.sub_diag, Z.shiftl_0_r. f_equal. apply u32_id.
  pose proof (rank_range w i). unfold rank in *. lia.
Qed.

Lemma setInteger_ok w (i : nat) v :
  (i < 8)%nat → 0 ≤ w → 0 ≤ v → ∃ w', setInteger w (Z.of_nat i) v = Done w' ∧ ranked_at w i (v mod 8) w'.
Proof.
  intros Hi Hw Hv. destruct (clock_tables i Hi) as (H1 & H2 & Hs). unfold setInteger. rewrite H1, H2.
  cbn [mbind outcome_bind]. eexists. split; [done|].
  set (s := shift_of i) in *. set (n := u64 (Z.shiftl v s)). set (w' := Z.lxor _ _).
  assert (∀ m, 0 ≤ m → Z.testbit w' m =
    if (s <=? m) && (m <? s + 3) then Z.testbit v (m - s) else Z.testbit w m) as Hbits.
  { intros m Hm. unfold w', n. rewrite Z.lxor_spec, Z.land_spec, Z.lxor_spec, testbit_u64, !Z.shiftl_spec by done.
    destruct (Z.leb_spec s m); cbn [andb].
    - rewrite testbit_seven by lia. destruct (Z.ltb_spec m (s + 3)).
      + rewrite (proj2 (Z.ltb_lt (m - s) 3)), (proj2 (Z.ltb_lt m 64)) by lia. cbn [andb].
        by destruct (Z.testbit w m), (Z.testbit v (m - s)).
      + rewrite (proj2 (Z.ltb_ge (m - s) 3)) by lia. by rewrite andb_false_r, xorb_false_r.
    - rewrite (Z.testbit_neg_r 7) by lia. by rewrite andb_false_r, xorb_false_r. }
  split.
  - unfold w'. apply Z.lxor_nonneg. split; [|done]. intros _. apply Z.land_nonneg. right.
    by apply Z.shiftl_nonneg.
  - apply Z.bits_inj'. intros m Hm. rewrite testbit_rank, Hbits by (fold s; lia). fold s.
    change 8 with (2 ^ 3). destruct (Z.ltb_spec m 3).
    + rewrite (proj2 (Z.leb_le _ _)), (proj2 (Z.ltb_lt _ _)) by lia. cbn [andb].
      rewrite Z.mod_pow2_bits_low by lia. rewrite andb_true_r. f_equal. lia.
    + rewrite Z.mod_pow2_bits_high by lia. by rewrite andb_false_r.
  - intros j Hj Hne. apply Z.bits_inj'. intros m Hm. rewrite !testbit_rank by done.
    destruct (clock_tables j Hj) as (_ & _ & Hsj).
    destruct (Z.ltb_spec m 3); [|by rewrite !andb_false_r]. rewrite !andb_true_r, Hbits by lia.
    destruct (_ && _) eqn:Hin; [|done]. exfalso. apply andb_prop in Hin as [Ha%Z.leb_le Hb%Z.ltb_lt].
    unfold s, shift_of in *. lia.
  - intros m Hm. rewrite Hbits by lia. by rewrite (proj2 (Z.ltb_ge m (s + 3))), andb_false_r by lia.
Qed.

(** A loop over the ways that changes the rank of each by [g]. *)
Lemma rank_loop (step : Z → nat → outcome Z) (g : Z → Z) w :
  (∀ w1 i, (i < 8)%nat → 0 ≤ w1 → ∃ w2, step w1 i = Done w2 ∧ ranked_at w1 i (g (rank w1 i)) w2) →
  0 ≤ w →
  ∃ w', foldM step w ways = Done w' ∧ 0 ≤ w' ∧ (∀ i, (i < 8)%nat → rank w' i = g (rank w i)) ∧
    ∀ n, 24 ≤ n → Z.testbit w' n = Z.testbit w n.
Proof.
  intros Hstep Hw.
  destruct (foldM_total step (λ processed w1, 0 ≤ w1 ∧ (∀ n, 24 ≤ n → Z.testbit w1 n = Z.testbit w n) ∧
    ∀ i, (i < 8)%nat → rank w1 i = if decide (i < length processed)%nat then g (rank w i) else rank w i) w ways)
    as (w' & Hf & Hw' & Hfr & Hr).
  - split_and!; [done|done|]. intros i Hi. by rewrite decide_False by (cbn; lia).
  - intros l1 i l2 w1 Heq (Hw1 & Hfr & Hr).
    assert (i = length l1) as ->.
    { assert (ways !! length l1 = Some i) as Hi by (rewrite Heq; by rewrite list_lookup_middle).
      apply lookup_seq in Hi as [-> _]. done. }
    assert (length l1 < 8)%nat as Hi.
    { apply (f_equal length) in Heq. rewrite length_app in Heq. cbn in Heq. lia. }
    destruct (Hstep w1 (length l1) Hi Hw1) as (w2 & Hs & [H0 Hh He Hf]).
    exists w2. split; [done|]. split_and!; [done|intros n Hn; by rewrite Hf, Hfr|].
    intros j Hj. rewrite length_app. cbn. destruct (decide (j = length l1)) as [->|Hne].
    + rewrite decide_True by lia. rewrite Hh, Hr by done. by rewrite decide_False by lia.
    + rewrite He, Hr by done. destruct (decide (j < length l1)%nat).
      * by rewrite !decide_True by lia.
      * by rewrite !decide_False by lia.
  - exists w'. split_and!; [done|done| |done]. intros i Hi. rewrite Hr by done. by rewrite decide_True by done.
Qed.

(** The ranks of a set are 0 to 7, each once. *)
Definition clocks_ok (w : Z) : Prop :=
  0 ≤ w ∧ ∀ i j : nat, (i < 8)%nat → (j < 8)%nat → rank w i = rank w j → i = j.

Lemma clocks_ok_perm w : clocks_ok w → rank w <$> ways ≡ₚ Z.of_nat <$> ways.
Proof.
  intros [_ Hinj]. apply submseteq_length_Permutation.
  - apply NoDup_submseteq.
    + apply NoDup_fmap_2_strong; [|apply NoDup_seq]. intros i j Hi Hj.
      apply elem_of_seq_iff in Hi, Hj. apply Hinj; lia.
    + intros r Hr. apply list_elem_of_fmap in Hr as (i & -> & _). pose proof (rank_range w i).
      apply list_elem_of_fmap. exists (Z.to_nat (rank w i)). split; [lia|]. apply elem_of_seq_iff. lia.
  - by rewrite !length_fmap.
Qed.

(** What a use of the way [m] does to the ranks, and what [discardHeaders] does. *)
Definition used (cut r : Z) : Z := if cut <? r then r - 1 else if r =? cut then 7 else r.
Definition discarded (cut r : Z) : Z := if r <? cut then r + 1 else if r =? cut then 0 else r.

Lemma used_inj cut a b : a < 8 → b < 8 → used cut a = used cut b → a = b.
Proof.
  intros Ha Hb. unfold used.
  destruct (Z.ltb_spec cut a), (Z.ltb_spec cut b), (Z.eqb_spec a cut), (Z.eqb_spec b cut); lia.
Qed.

Lemma discarded_inj cut a b : 0 ≤ a → 0 ≤ b → discarded cut a = discarded cut b → a = b.
Proof.
  intros Ha Hb. unfold discarded.
  destruct (Z.ltb_spec a cut), (Z.ltb_spec b cut), (Z.eqb_spec a cut), (Z.eqb_spec b cut); lia.
Qed.

Lemma age_step cut w i :
  (i < 8)%nat → 0 ≤ w → 0 ≤ cut →
  ∃ w', age cut w i = Done w' ∧ ranked_at w i (used cut (rank w i)) w'.
Proof.
  intros Hi Hw Hc. pose proof (rank_range w i) as Hr. unfold age. rewrite getInteger_ok by done.
  cbn [mbind outcome_bind]. unfold used. destruct (Z.ltb_spec cut (rank w i)).
  - unfold decInteger. rewrite getInteger_ok by done. cbn [mbind outcome_bind].
    rewrite u32_id by lia. destruct (setInteger_ok w i (-1 + rank w i)) as (w' & -> & Hra); [done|done|lia|].
    rewrite Z.mod_small in Hra by lia. exists w'. split; [done|]. by replace (rank w i - 1) with (-1 + rank w i) by lia.
  - destruct (Z.eqb_spec (rank w i) cut).
    + by apply (setInteger_ok w i 7).
    + exists w. split; [done|]. by split.
Qed.

Lemma rejuvenate_step cut w i :
  (i < 8)%nat → 0 ≤ w → cut < 8 →
  ∃ w', rejuvenate cut w i = Done w' ∧ ranked_at w i (discarded cut (rank w i)) w'.
Proof.
  intros Hi Hw Hc. pose proof (rank_range w i) as Hr. unfold rejuvenate. rewrite getInteger_ok by done.
  cbn [mbind outcome_bind]. unfold discarded. destruct (Z.ltb_spec (rank w i) cut).
  - unfold incInteger. rewrite getInteger_ok by done. cbn [mbind outcome_bind].
    rewrite u32_id by lia. destruct (setInteger_ok w i (1 + rank w i)) as (w' & -> & Hra); [done|done|lia|].
    rewrite Z.mod_small in Hra by lia. exists w'. split; [done|]. by replace (rank w i + 1) with (1 + rank w i) by lia.
  - destruct (Z.eqb_spec (rank w i) cut).
    + by apply (setInteger_ok w i 0).
    + exists w. split; [done|]. by split.
Qed.

(** The word after a change of every rank. *)
Record reranked (w : Z) (g : Z → Z) (w' : Z) : Prop := {
  rr_nonneg : 0 ≤ w';
  rr_rank : ∀ i, (i < 8)%nat → rank w' i = g (rank w i);
  rr_frame : ∀ n, 24 ≤ n → Z.testbit w' n = Z.testbit w n
}.

Lemma updateClocks_ok s (m : nat) :
  (m < 8)%nat → clocks_ok (sh_clocks s) →
  ∃ w', updateClocks s (Z.of_nat m) = Done (with_clocks w' s) ∧
    reranked (sh_clocks s) (used (rank (sh_clocks s) m)) w' ∧ clocks_ok w'.
Proof.
  intros Hm [Hw Hinj]. set (w := sh_clocks s) in *. pose proof (rank_range w m) as Hrm.
  assert (∀ w', reranked w (used (rank w m)) w' → clocks_ok w') as Hok.
  { intros w' [H0 Hr _]. split; [done|]. intros i j Hi Hj Heq. rewrite !Hr in Heq by done.
    apply Hinj; [done|done|]. pose proof (rank_range w i). pose proof (rank_range w j).
    apply (used_inj (rank w m)); [lia|lia|done]. }
  unfold updateClocks. fold w. rewrite getInteger_ok by done. cbn [mbind outcome_bind].
  rewrite (proj2 (Z.ltb_ge _ _)), (proj2 (Z.ltb_ge _ _)) by (unfold WAYS; lia). cbn [orb].
  destruct (Z.eqb_spec (rank w m) (WAYS - 1)) as [Hseven|Hseven].
  - assert (reranked w (used (rank w m)) w) as Hrr.
    { split; [done| |done]. intros i Hi. pose proof (rank_range w i). unfold used, WAYS in *.
      rewrite (proj2 (Z.ltb_ge _ _)) by lia. destruct (Z.eqb_spec (rank w i) (rank w m)); lia. }
    exists w. split_and!; [by destruct s|done|by apply Hok].
  - destruct (rank_loop (age (rank w m)) (used (rank w m)) w) as (w' & -> & H0 & Hr & Hfr); [|done|].
    + intros w1 i Hi Hw1. apply age_step; [done|done|lia].
    + cbn [mbind outcome_bind]. exists w'. split_and!; [done|done|]. by apply Hok.
Qed.

Lemma discard_set_ok s (m : nat) :
  (m < 8)%nat → clocks_ok (sh_clocks s) → length (sh_headers s) = 8%nat →
  ∃ w' headers, discard_set s (Z.of_nat m) = Done (with_clocks w' (with_headers headers s)) ∧
    reranked (sh_clocks s) (discarded (rank (sh_clocks s) m)) w' ∧ clocks_ok w' ∧
    headers = if decide (rank (sh_clocks s) m = 0) then sh_headers s else <[m := u32 (-1)]> (sh_headers s).
Proof.
  intros Hm [Hw Hinj] Hlen. set (w := sh_clocks s) in *. pose proof (rank_range w m) as Hrm.
  assert (∀ w', reranked w (discarded (rank w m)) w' → clocks_ok w') as Hok.
  { intros w' [H0 Hr _]. split; [done|]. intros i j Hi Hj Heq. rewrite !Hr in Heq by done.
    apply Hinj; [done|done|]. pose proof (rank_range w i). pose proof (rank_range w j).
    apply (discarded_inj (rank w m)); [lia|lia|done]. }
  unfold discard_set. fold w. rewrite getInteger_ok by done. cbn [mbind outcome_bind].
  rewrite (proj2 (Z.ltb_ge _ _)), (proj2 (Z.ltb_ge _ _)) by (unfold WAYS; lia). cbn [orb].
  destruct (Z.eqb_spec (rank w m) 0) as [Hzero|Hzero].
  - assert (reranked w (discarded (rank w m)) w) as Hrr.
    { split; [done| |done]. intros i Hi. pose proof (rank_range w i). unfold discarded in *.
      rewrite (proj2 (Z.ltb_ge _ _)) by lia. destruct (Z.eqb_spec (rank w i) (rank w m)); lia. }
    exists w, (sh_headers s). split_and!; [by destruct s|done|by apply Hok|by rewrite decide_True].
  - unfold put. rewrite decide_True by lia. cbn [mbind outcome_bind].
    destruct (rank_loop (rejuvenate (rank w m)) (discarded (rank w m)) w) as (w' & -> & H0 & Hr & Hfr); [|done|].
    + intros w1 i Hi Hw1. apply rejuvenate_step; [done|done|lia].
    + cbn [mbind outcome_bind]. exists w', (<[m := u32 (-1)]> (sh_headers s)).
      rewrite Nat2Z.id. split_and!; [done|done|by apply Hok|by rewrite decide_False].
Qed.

(** ** Sets and the index *)

Record set_ok (s : setHeader) : Prop := {
  so_headers : length (sh_headers s) = 8%nat;
  so_offsets : length (sh_logOffset s) = 8%nat;
  so_versions : length (sh_logVersion s) = 8%nat;
  so_lens : length (sh_logLen s) = 8%nat;
  so_clocks : clocks_ok (sh_clocks s)
}.

Record index_ok (ix : index) : Prop := {
  io_sets : 0 < ix_numSets ix;
  io_length : Z.of_nat (length (ix_headers ix)) = ix_numSets ix;
  io_ok : Forall set_ok (ix_headers ix)
}.

Lemma init_clocks_ok :
  ∃ w, init_clocks = Done w ∧ clocks_ok w ∧ ∀ i, (i < 8)%nat → rank w i = Z.of_nat i.
Proof.
  exists 342391. split; [by vm_compute|].
  assert (∀ i, (i < 8)%nat → rank 342391 i = Z.of_nat i) as Hr.
  { intros i Hi. do 8 (destruct i as [|i]; [by vm_compute|]). lia. }
  split; [|done]. split; [done|]. intros i j Hi Hj. rewrite !Hr by done. lia.
Qed.

Lemma initIndex_ok indexSize : 0 < indexSize → ∃ ix, initIndex indexSize = Done ix ∧ index_ok ix.
Proof.
  intros Hs. unfold initIndex. destruct init_clocks_ok as (w & -> & Hw & _). cbn [mbind outcome_bind].
  set (n := indexSize / WAYS). set (m := if n * WAYS <? indexSize then n + WAYS else n).
  assert (0 < m) as Hm.
  { unfold m, n, WAYS. pose proof (Z.div_mod indexSize 8). pose proof (Z.mod_pos_bound indexSize 8).
    destruct (Z.ltb_spec (indexSize / 8 * 8) indexSize); lia. }
  eexists. split; [done|]. split; cbn.
  - done.
  - rewrite length_replicate. lia.
  - apply Forall_replicate. by split.
Qed.

Lemma getSetFromHash_range ix hash : index_ok ix → 0 ≤ getSetFromHash ix hash < ix_numSets ix.
Proof. intros Hok. apply Z.mod_pos_bound, (io_sets _ Hok). Qed.

Lemma set_lookup ix hash :
  index_ok ix → ∃ s, get_at (ix_headers ix) (getSetFromHash ix hash) = Done s ∧
    ix_headers ix !! Z.to_nat (getSetFromHash ix hash) = Some s ∧ set_ok s.
Proof.
  intros Hok. pose proof (getSetFromHash_range ix hash Hok) as Hr. pose proof (io_length _ Hok) as Hl.
  destruct (lookup_lt_is_Some_2 (ix_headers ix) (Z.to_nat (getSetFromHash ix hash))) as [s Hs]; [lia|].
  exists s. split_and!; [|done|].
  - unfold get_at. rewrite (proj2 (Z.ltb_ge _ _)) by lia. by apply get_Done.
  - pose proof (io_ok _ Hok) as Hf. rewrite Forall_lookup in Hf. by apply (Hf _ _ Hs).
Qed.

(** The operations on one set. *)
Inductive set_op :=
  | Store (m : nat) (header remOffset remLen version : Z)
  | Use (m : nat).

Definition way (o : set_op) : nat := match o with Store m _ _ _ _ => m | Use m => m end.

Definition run_set (s : setHeader) (o : set_op) : outcome setHeader :=
  match o with
  | Store m header remOffset remLen version =>
      s ← setMatch s (Z.of_nat m) header; setRem s (Z.of_nat m) remOffset version remLen
  | Use m => updateClocks s (Z.of_nat m)
  end.

(** What an operation leaves of a set. *)
Record set_after (s : setHeader) (o : set_op) (s' : setHeader) : Prop := {
  sa_ok : set_ok s';
  sa_rank : ∀ i, (i < 8)%nat →
    rank (sh_clocks s') i = used (rank (sh_clocks s) (way o)) (rank (sh_clocks s) i);
  sa_headers : sh_headers s' = match o with Store m h _ _ _ => <[m := h]> (sh_headers s) | Use _ => sh_headers s end;
  sa_offset : sh_logOffset s' = match o with Store m _ r _ _ => <[m := r]> (sh_logOffset s) | Use _ => sh_logOffset s end;
  sa_version : sh_logVersion s' = match o with Store m _ _ _ v => <[m := i8 v]> (sh_logVersion s) | Use _ => sh_logVersion s end;
  sa_len : sh_logLen s' = match o with Store m _ _ l _ => <[m := i8 l]> (sh_logLen s) | Use _ => sh_logLen s end
}.

Lemma run_set_ok s o : set_ok s → (way o < 8)%nat → ∃ s', run_set s o = Done s' ∧ set_after s o s'.
Proof.
  intros [H1 H2 H3 H4 H5] Hm. destruct o as [m h r l v|m]; cbn [run_set way] in *.
  - unfold setMatch, put. rewrite Nat2Z.id, decide_True by lia. cbn [mbind outcome_bind].
    destruct (updateClocks_ok (with_headers (<[m := h]> (sh_headers s)) s) m Hm H5) as (w' & -> & [_ Hr _] & Hw').
    cbn [mbind outcome_bind]. unfold setRem, put. rewrite Nat2Z.id.
    rewrite decide_True by (cbn; lia). cbn [mbind outcome_bind]. rewrite decide_True by (cbn; lia).
    cbn [mbind outcome_bind]. rewrite decide_True by (cbn; lia). cbn [mbind outcome_bind].
    eexists. split; [done|]. split; try done. split; cbn; rewrite ?length_insert; done.
  - destruct (updateClocks_ok s m Hm H5) as (w' & -> & [_ Hr _] & Hw').
    eexists. split; [done|]. split; try done; by split.
Qed.

(** ** The least recently used *)

(** The entry of the way [m], when the ways [recent] were used since. *)
Definition recency (w : Z) (m : nat) (recent : gset nat) : Prop :=
  rank w m = 7 - Z.of_nat (size recent) ∧
  ∀ i, (i < 8)%nat → i ≠ m → (i ∈ recent ↔ rank w m < rank w i).

Lemma recency_used w w' m u recent :
  clocks_ok w → (m < 8)%nat → (u < 8)%nat → u ≠ m →
  (∀ i, (i < 8)%nat → rank w' i = used (rank w u) (rank w i)) →
  recency w m recent → recency w' m ({[ u ]} ∪ recent).
Proof.
  intros [_ Hinj] Hm Hu Hne Hr [Hsize Hrec]. pose proof (Hrec u Hu Hne) as Huse.
  assert (rank w u ≠ rank w m) as Hdiff by (intros Heq; apply Hne; by apply Hinj).
  split.
  - rewrite Hr by done. unfold used. destruct (decide (u ∈ recent)) as [Hin|Hin].
    + replace ({[ u ]} ∪ recent) with recent by set_solver. apply Huse in Hin.
      rewrite (proj2 (Z.ltb_ge _ _)), (proj2 (Z.eqb_neq _ _)) by lia. done.
    + rewrite size_union by set_solver. rewrite size_singleton.
      assert (rank w u < rank w m) by (apply not_iff_compat in Huse; apply Huse in Hin; lia).
      rewrite (proj2 (Z.ltb_lt _ _)) by done. lia.
  - intros i Hi Him. specialize (Hrec i Hi Him). rewrite !Hr by done.
    assert (rank w i ≠ rank w m) by (intros Heq; apply Him; by apply Hinj).
    pose proof (rank_range w i). pose proof (rank_range w m). pose proof (rank_range w u).
    rewrite elem_of_union, elem_of_singleton, Hrec. unfold used.
    destruct (decide (i = u)) as [->|Hiu].
    + rewrite Z.ltb_irrefl, Z.eqb_refl. split; [|by left]. intros _.
      destruct (Z.ltb_spec (rank w u) (rank w m)); [lia|]. rewrite (proj2 (Z.eqb_neq _ _)) by done. lia.
    + assert (rank w i ≠ rank w u) by (intros Heq; apply Hiu; by apply Hinj).
      rewrite (proj2 (Z.eqb_neq (rank w i) _)), (proj2 (Z.eqb_neq (rank w m) _)) by done.
      destruct (Z.ltb_spec (rank w u) (rank w m)), (Z.ltb_spec (rank w u) (rank w i)); lia.
Qed.

(** The header an operation stores. *)
Definition stores (o : set_op) : option Z := match o with Store _ h _ _ _ => Some h | Use _ => None end.

Lemma run_uses hash m ops : ∀ s recent,
  set_ok s → (m < 8)%nat → recency (sh_clocks s) m recent →
  (∀ i, i ≠ m → sh_headers s !! i ≠ Some hash) →
  Forall (λ o, (way o < 8)%nat ∧ way o ≠ m ∧ stores o ≠ Some hash) ops →
  ∃ s', foldM run_set s ops = Done s' ∧ set_ok s' ∧
    recency (sh_clocks s') m (list_to_set (way <$> ops) ∪ recent) ∧
    (∀ i, i ≠ m → sh_headers s' !! i ≠ Some hash) ∧
    sh_headers s' !! m = sh_headers s !! m ∧ sh_logOffset s' !! m = sh_logOffset s !! m ∧
    sh_logVersion s' !! m = sh_logVersion s !! m ∧ sh_logLen s' !! m = sh_logLen s !! m.
Proof.
  induction ops as [|o ops IH]; intros s recent Hs Hm Hrec Hothers Hops.
  - exists s. split_and!; try done. replace (list_to_set _ ∪ recent) with recent by set_solver. done.
  - apply Forall_cons in Hops as [(Ho & Hne & Hst) Hops]. cbn [foldM].
    destruct (run_set_ok s o Hs Ho) as (s1 & -> & [Hok1 Hr1 Hh1 Ho1 Hv1 Hl1]). cbn [mbind outcome_bind].
    destruct (IH s1 ({[ way o ]} ∪ recent)) as (s' & -> & Hok' & Hrec' & Hoth & Hh & Hoff & Hv & Hl);
      [done|done| | |done|].
    + by eapply recency_used; [apply Hs|..].
    + intros i Hi. rewrite Hh1. destruct o as [u h r l v|u]; [|by apply Hothers]. cbn in Hst.
      destruct (decide (u = i)) as [->|Hui]; [|rewrite list_lookup_insert_ne by done; by apply Hothers].
      intros Heq. apply Hst. apply list_lookup_insert_Some in Heq. destruct Heq as [(_ & -> & _)|[? _]]; done.
    + exists s'. split_and!; [done|done| |done| | | |].
      * replace (list_to_set (way <$> o :: ops) ∪ recent) with (list_to_set (way <$> ops) ∪ ({[ way o ]} ∪ recent))
          by (cbn; set_solver). done.
      * rewrite Hh, Hh1. destruct o; [cbn in Hne; by rewrite list_lookup_insert_ne|done].
      * rewrite Hoff, Ho1. destruct o; [cbn in Hne; by rewrite list_lookup_insert_ne|done].
      * rewrite Hv, Hv1. destruct o; [cbn in Hne; by rewrite list_lookup_insert_ne|done].
      * rewrite Hl, Hl1. destruct o; [cbn in Hne; by rewrite list_lookup_insert_ne|done].
Qed.

(** ** The users of the ranks *)

(** The way [m] is the latest of those with the header [hash], rank 0 aside. *)
Definition best_of (hash : Z) (s : setHeader) (m : nat) : Prop :=
  (m < 8)%nat ∧ sh_headers s !! m = Some hash ∧ 0 < rank (sh_clocks s) m ∧
  ∀ i, (i < 8)%nat → sh_headers s !! i = Some hash → rank (sh_clocks s) i ≤ rank (sh_clocks s) m.

Lemma ways_split l1 i l2 : ways = l1 ++ i :: l2 → i = length l1 ∧ (i < 8)%nat.
Proof.
  intros Heq. assert (ways !! length l1 = Some i) as Hi by (rewrite Heq; by rewrite list_lookup_middle).
  apply lookup_seq in Hi as [-> Hi]. cbn in *. lia.
Qed.

Lemma best_ok hash s :
  set_ok s → ∃ b, getBestMatchByIndex hash s = Done b ∧
    ((b = -1 ∧ ∀ i, (i < 8)%nat → sh_headers s !! i = Some hash → rank (sh_clocks s) i = 0) ∨
     ∃ m : nat, b = Z.of_nat m ∧ best_of hash s m).
Proof.
  intros [H1 _ _ _ _]. unfold getBestMatchByIndex.
  destruct (foldM_total (best_match_step hash s) (λ processed st,
    (st = (-1, 0) ∧ ∀ i, (i < length processed)%nat → sh_headers s !! i = Some hash → rank (sh_clocks s) i = 0) ∨
    ∃ m : nat, st = (Z.of_nat m, rank (sh_clocks s) m) ∧ (m < 8)%nat ∧ sh_headers s !! m = Some hash ∧
      0 < rank (sh_clocks s) m ∧
      ∀ i, (i < length processed)%nat → sh_headers s !! i = Some hash → rank (sh_clocks s) i ≤ rank (sh_clocks s) m)
    (-1, 0) ways) as ([b t] & -> & Hb).
  - left. split; [done|]. intros i Hi. cbn in Hi. lia.
  - intros l1 i l2 st Heq Hinv. apply ways_split in Heq as [-> Hi]. set (i := length l1) in *.
    destruct (lookup_lt_is_Some_2 (sh_headers s) i) as [h Hh]; [lia|].
    assert (∀ j, (j < length (l1 ++ [i]))%nat → (j < i)%nat ∨ j = i) as Hnext.
    { intros j. rewrite length_app. cbn. fold i. lia. }
    pose proof (rank_range (sh_clocks s) i). unfold best_match_step, getClock.
    destruct Hinv as [[-> Hinv]|(m & -> & Hm & Hhm & Hpos & Hinv)].
    all: rewrite getInteger_ok by done; cbn [mbind outcome_bind]; unfold get; rewrite Hh;
      cbn [mbind outcome_bind]; (eexists; split; [done|]).
    + destruct (Z.ltb_spec 0 (rank (sh_clocks s) i)) as [Hr|Hr]; cbn [andb].
      * destruct (Z.eqb_spec hash h) as [<-|Hne].
        -- right. exists i. split_and!; [done|done|done|done|]. intros j Hj%Hnext Hjh.
           destruct Hj as [Hj| ->]; [rewrite (Hinv j) by done; lia|lia].
        -- left. split; [done|]. intros j [Hj| ->]%Hnext Hjh; [by apply Hinv|congruence].
      * left. split; [done|]. intros j [Hj| ->]%Hnext Hjh; [by apply Hinv|lia].
    + right. destruct (Z.ltb_spec (rank (sh_clocks s) m) (rank (sh_clocks s) i)) as [Hr|Hr]; cbn [andb].
      * destruct (Z.eqb_spec hash h) as [<-|Hne].
        -- exists i. split_and!; [done|done|done|lia|]. intros j [Hj| ->]%Hnext Hjh; [|lia].
           specialize (Hinv j Hj Hjh). lia.
        -- exists m. split_and!; [done|done|done|done|].
           intros j [Hj| ->]%Hnext Hjh; [by apply Hinv|congruence].
      * exists m. split_and!; [done|done|done|done|].
        intros j [Hj| ->]%Hnext Hjh; [by apply Hinv|lia].
  - cbn [mbind outcome_bind]. exists b. split; [done|]. cbn [length ways seq] in Hb.
    destruct Hb as [[[= -> ->] Hb]|(m & [= -> ->] & Hm & Hhm & Hpos & Hb)]; [by left|right].
    by exists m.
Qed.

(** The unlocked way that was not used for longest. *)
Definition free_of (lockOn : nat → bool) (s : setHeader) (m : nat) : Prop :=
  (m < 8)%nat ∧ lockOn m = false ∧
  ∀ i, (i < 8)%nat → lockOn i = false → rank (sh_clocks s) m ≤ rank (sh_clocks s) i.

Lemma free_search_ok lockOn s :
  ∃ b, getFreeLocation lockOn s = Done b ∧
    ((b = -1 ∧ ∀ i, (i < 8)%nat → lockOn i = true) ∨ ∃ m : nat, b = Z.of_nat m ∧ free_of lockOn s m).
Proof.
  unfold getFreeLocation.
  destruct (foldM_total (free_step lockOn s) (λ processed st,
    (st = (-1, WAYS + 1) ∧ ∀ i, (i < length processed)%nat → lockOn i = true) ∨
    ∃ m : nat, st = (Z.of_nat m, rank (sh_clocks s) m) ∧ (m < 8)%nat ∧ lockOn m = false ∧
      ∀ i, (i < length processed)%nat → lockOn i = false → rank (sh_clocks s) m ≤ rank (sh_clocks s) i)
    (-1, WAYS + 1) ways) as ([b t] & -> & Hb).
  - left. split; [done|]. intros i Hi. cbn in Hi. lia.
  - intros l1 i l2 st Heq Hinv. apply ways_split in Heq as [-> Hi]. set (i := length l1) in *.
    assert (∀ j, (j < length (l1 ++ [i]))%nat → (j < i)%nat ∨ j = i) as Hnext.
    { intros j. rewrite length_app. cbn. fold i. lia. }
    pose proof (rank_range (sh_clocks s) i). unfold free_step, getClock.
    destruct Hinv as [[-> Hinv]|(m & -> & Hm & Hlm & Hinv)].
    all: rewrite getInteger_ok by done; cbn [mbind outcome_bind]; (eexists; split; [done|]);
      destruct (lockOn i) eqn:Hl.
    + left. split; [done|]. intros j [Hj| ->]%Hnext; [by apply Hinv|done].
    + right. exists i. rewrite (proj2 (Z.ltb_lt _ _)) by (unfold WAYS; lia). split_and!; [done|done|done|].
      intros j [Hj| ->]%Hnext Hjl; [by rewrite (Hinv j Hj) in Hjl|lia].
    + right. exists m. split_and!; [done|done|done|]. intros j [Hj| ->]%Hnext Hjl; [by apply Hinv|congruence].
    + right. destruct (Z.ltb_spec (rank (sh_clocks s) i) (rank (sh_clocks s) m)) as [Hr|Hr].
      * exists i. split_and!; [done|done|done|]. intros j [Hj| ->]%Hnext Hjl; [|lia].
        specialize (Hinv j Hj Hjl). lia.
      * exists m. split_and!; [done|done|done|]. intros j [Hj| ->]%Hnext Hjl; [by apply Hinv|lia].
  - cbn [mbind outcome_bind]. exists b. split; [done|]. cbn [length ways seq] in Hb.
    destruct Hb as [[[= -> ->] Hb]|(m & [= -> ->] & Hm & Hlm & Hb)]; [by left|right].
    by exists m.
Qed.

(** ** The operations on the index *)

(** A hit: the pointer that [getSetHeader] returns is given to [updateClocks]. *)
Definition touch (ix : index) (hash match_ : Z) : outcome index :=
  s ← getSetHeader ix hash;
  s ← updateClocks s match_;
  headers ← put (ix_headers ix) (Z.to_nat (getSetFromHash ix hash)) s;
  Done {| ix_numSets := ix_numSets ix; ix_headers := headers |}.

Inductive index_op :=
  | On (hash : Z) (o : set_op)
  | Discard (hash : Z) (m : nat).

Definition run_index (ix : index) (o : index_op) : outcome index :=
  match o with
  | On hash (Store m header remOffset remLen version) =>
      updateHeaders ix hash (Z.of_nat m) header remOffset remLen version
  | On hash (Use m) => touch ix hash (Z.of_nat m)
  | Discard hash m => discardHeaders ix hash (Z.of_nat m)
  end.

Definition op_way (o : index_op) : nat := match o with On _ o => way o | Discard _ m => m end.

Lemma put_set ix hash s :
  index_ok ix → set_ok s →
  ∃ ix', (headers ← put (ix_headers ix) (Z.to_nat (getSetFromHash ix hash)) s;
          Done {| ix_numSets := ix_numSets ix; ix_headers := headers |}) = Done ix' ∧
    index_ok ix' ∧ ix_numSets ix' = ix_numSets ix ∧
    ix_headers ix' = <[Z.to_nat (getSetFromHash ix hash) := s]> (ix_headers ix).
Proof.
  intros [H0 H1 H2] Hs. pose proof (Z.mod_pos_bound (u32 hash) (ix_numSets ix) H0) as Hr.
  unfold put, getSetFromHash. rewrite decide_True by lia. cbn [mbind outcome_bind]. eexists. split; [done|]. split_and!; [|done|done].
  split; cbn; [done|by rewrite length_insert|]. by apply Forall_insert.
Qed.

(** An operation on the index is the operation on the set of its hash. *)
Lemma run_index_on ix hash o :
  index_ok ix → (way o < 8)%nat →
  ∃ s s' ix', ix_headers ix !! Z.to_nat (getSetFromHash ix hash) = Some s ∧ set_ok s ∧
    run_set s o = Done s' ∧ set_after s o s' ∧ run_index ix (On hash o) = Done ix' ∧ index_ok ix' ∧
    ix_numSets ix' = ix_numSets ix ∧
    ix_headers ix' = <[Z.to_nat (getSetFromHash ix hash) := s']> (ix_headers ix).
Proof.
  intros Hix Ho. destruct (set_lookup ix hash Hix) as (s & Hget & Hs & Hok).
  destruct (run_set_ok s o Hok Ho) as (s' & Hrun & Hafter).
  destruct (put_set ix hash s' Hix) as (ix' & Hput & Hix' & Hn & Hh); [by destruct Hafter|].
  pose proof (getSetFromHash_range ix hash Hix).
  exists s, s', ix'. split_and!; try done. destruct o as [m h r l v|m]; cbn [run_index run_set way] in *.
  - unfold updateHeaders. rewrite (proj2 (Z.ltb_ge _ _)), (proj2 (Z.ltb_ge _ _)), (proj2 (Z.ltb_ge _ _))
      by (unfold WAYS; lia). cbn [orb]. rewrite Hget. cbn [mbind outcome_bind].
    apply bind_Done in Hrun as (s1 & -> & Hrem). cbn [mbind outcome_bind]. by rewrite Hrem.
  - unfold touch, getSetHeader. rewrite (proj2 (Z.ltb_ge _ _)) by lia. rewrite Hget.
    cbn [mbind outcome_bind]. by rewrite Hrun.
Qed.

Lemma run_index_ok ix o : index_ok ix → (op_way o < 8)%nat → ∃ ix', run_index ix o = Done ix' ∧ index_ok ix'.
Proof.
  intros Hix Ho. destruct o as [hash o|hash m]; cbn [op_way] in Ho.
  - destruct (run_index_on ix hash o Hix Ho) as (_ & _ & ix' & _ & _ & _ & _ & Hrun & Hok & _). by exists ix'.
  - cbn [run_index]. unfold discardHeaders. destruct (set_lookup ix hash Hix) as (s & -> & _ & Hok).
    cbn [mbind outcome_bind].
    destruct (discard_set_ok s m Ho) as (w & headers & -> & _ & Hw & Hh); [apply Hok..|]. cbn [mbind outcome_bind].
    edestruct (put_set ix hash (with_clocks w (with_headers headers s)) Hix) as (ix' & -> & Hix' & _).
    + destruct Hok. split; cbn; [|done..]. rewrite Hh. by case_decide; rewrite ?length_insert.
    + by exists ix'.
Qed.

(** The operations of a history that meet the set of [hash]. *)
Definition in_set (ix : index) (hash : Z) (ops : list (Z * set_op)) : list set_op :=
  snd <$> filter (λ p, getSetFromHash ix p.1 = getSetFromHash ix hash) ops.

Lemma run_index_project hash ops : ∀ ix s,
  index_ok ix → ix_headers ix !! Z.to_nat (getSetFromHash ix hash) = Some s →
  Forall (λ p, (way p.2 < 8)%nat) ops →
  ∃ ix' s', foldM run_index ix (uncurry On <$> ops) = Done ix' ∧ index_ok ix' ∧
    ix_numSets ix' = ix_numSets ix ∧ ix_headers ix' !! Z.to_nat (getSetFromHash ix hash) = Some s' ∧
    foldM run_set s (in_set ix hash ops) = Done s'.
Proof.
  induction ops as [|[h o] ops IH]; intros ix s Hix Hs Hops; [by exists ix, s|].
  apply Forall_cons in Hops as [Ho Hops].
  destruct (run_index_on ix h o Hix Ho) as (s0 & s1 & ix1 & Hs0 & _ & Hrun & _ & Hrix & Hix1 & Hn & Hh).
  assert (∀ a, getSetFromHash ix1 a = getSetFromHash ix a) as Hset by (intros a; unfold getSetFromHash; by rewrite Hn).
  assert (in_set ix1 hash ops = in_set ix hash ops) as Hin.
  { unfold in_set. f_equal. apply list_filter_iff. intros p. by rewrite !Hset. }
  cbn [fmap list_fmap uncurry foldM]. rewrite Hrix. cbn [mbind outcome_bind].
  destruct (decide (getSetFromHash ix h = getSetFromHash ix hash)) as [Heq|Hne].
  - destruct (IH ix1 s1) as (ix' & s' & H1 & H2 & H3 & H4 & H5); [done| |done|].
    + rewrite Hset, Hh, Heq. apply list_lookup_insert_eq. eapply lookup_lt_Some. by rewrite <-Heq.
    + exists ix', s'. rewrite Hset in H4. rewrite Hin in H5. split_and!; [done|done|congruence|done|].
      unfold in_set. rewrite filter_cons_True by done. cbn [fmap list_fmap snd foldM].
      rewrite Heq, Hs in Hs0. injection Hs0 as <-. by rewrite Hrun.
  - destruct (IH ix1 s) as (ix' & s' & H1 & H2 & H3 & H4 & H5); [done| |done|].
    + rewrite Hset, Hh. rewrite list_lookup_insert_ne; [done|].
      pose proof (getSetFromHash_range ix h Hix). pose proof (getSetFromHash_range ix hash Hix). lia.
    + exists ix', s'. rewrite Hset in H4. rewrite Hin in H5. split_and!; [done|done|congruence|done|].
      unfold in_set. by rewrite filter_cons_False by done.
Qed.

Lemma stored_recency w w' m :
  (m < 8)%nat → (∀ i, (i < 8)%nat → rank w' i = used (rank w m) (rank w i)) → recency w' m ∅.
Proof.
  intros Hm Hr. assert (rank w' m = 7) as H7.
  { rewrite Hr by done. unfold used. by rewrite Z.ltb_irrefl, Z.eqb_refl. }
  split; [by rewrite H7|]. intros i Hi _. pose proof (rank_range w' i). split; [set_solver|lia].
Qed.

(** The lookup of the header that only the way [m] has. *)
Lemma recency_best hash s m recent :
  set_ok s → (m < 8)%nat → recency (sh_clocks s) m recent →
  (∀ i, i ≠ m → sh_headers s !! i ≠ Some hash) → sh_headers s !! m = Some hash →
  getBestMatchByIndex hash s = Done (if decide (size recent < 7)%nat then Z.of_nat m else -1).
Proof.
  intros Hs Hm [Hsize _] Hoth Hhm. pose proof (rank_range (sh_clocks s) m) as Hr.
  destruct (best_ok hash s Hs) as (b & -> & [[-> Hb]|(m' & -> & _ & Hm' & Hpos & _)]); f_equal.
  - rewrite (Hb m Hm Hhm) in Hsize. by rewrite decide_False by lia.
  - destruct (decide (m' = m)) as [->|Hne]; [|by destruct (Hoth m' Hne)].
    by rewrite decide_True by lia.
Qed.

(** A cache of one set. *)
Definition first_index : index :=
  match initIndex 8 with Done ix => ix | Fault _ => {| ix_numSets := 0; ix_headers := [] |} end.

Lemma first_index_ok : index_ok first_index.
Proof. destruct (initIndex_ok 8 ltac:(lia)) as (ix & Heq & Hok). unfold first_index. by rewrite Heq. Qed.

Lemma first_set_ok s : ix_headers first_index !! 0%nat = Some s → set_ok s.
Proof. apply (proj1 (Forall_lookup _ _) (io_ok _ first_index_ok)). Qed.

(** ** Claims *)

(** C21: whatever is cached, used and discarded, in any order, the index that
    [initIndex] makes serves every operation, the arrays of its sets keep their
    eight entries, and the packed ranks of a set stay a permutation of 0 to 7. *)
Theorem index_keeps_ranks (indexSize : Z) (ops : list index_op) :
  0 < indexSize → Forall (λ o, (op_way o < 8)%nat) ops →
  ∃ ix, (ix0 ← initIndex indexSize; foldM run_index ix0 ops) = Done ix ∧
    Forall (λ s, length (sh_headers s) = 8%nat ∧ length (sh_logOffset s) = 8%nat ∧
      length (sh_logVersion s) = 8%nat ∧ length (sh_logLen s) = 8%nat ∧
      rank (sh_clocks s) <$> ways ≡ₚ Z.of_nat <$> ways) (ix_headers ix).
Proof.
  intros Hn Hops. destruct (initIndex_ok indexSize Hn) as (ix0 & -> & H0). cbn [mbind outcome_bind].
  destruct (foldM_total run_index (λ _, index_ok) ix0 ops H0) as (ix & Hrun & [_ _ Hok]).
  - intros l1 o l2 ix -> Hix. apply run_index_ok; [done|].
    apply Forall_app in Hops as [_ [Ho _]%Forall_cons]. done.
  - exists ix. split; [done|]. eapply Forall_impl; [done|]. intros s [? ? ? ? Hc].
    split_and!; [done|done|done|done|]. by apply clocks_ok_perm.
Qed.

Lemma index_keeps_ranks_witness : ∃ ix,
  (ix0 ← initIndex 8; foldM run_index ix0 [On 5 (Store 3 5 40 2 0); On 9 (Use 3); Discard 5 3]) = Done ix ∧
  Forall (λ s, length (sh_headers s) = 8%nat ∧ length (sh_logOffset s) = 8%nat ∧
      length (sh_logVersion s) = 8%nat ∧ length (sh_logLen s) = 8%nat ∧
      rank (sh_clocks s) <$> ways ≡ₚ Z.of_nat <$> ways) (ix_headers ix).
Proof. apply index_keeps_ranks; [lia|]. repeat constructor; cbn; lia. Defined.

(** An object stored at a way is found there by its hash, with the offset it
    was stored with and the version and length cut to a [char], as long as
    fewer than seven other ways of its set were stored or used since; after the
    seventh the entry is still in the set, but is not found any more: of the
    eight ways, a lookup can reach seven. *)
Lemma stored_entry_is_found (ix : index) (hash : Z) (m : nat) (off len ver : Z) (ops : list (Z * set_op)) :
  index_ok ix → (m < 8)%nat →
  (∀ s i, ix_headers ix !! Z.to_nat (getSetFromHash ix hash) = Some s → i ≠ m → sh_headers s !! i ≠ Some hash) →
  Forall (λ p, (way p.2 < 8)%nat ∧ stores p.2 ≠ Some hash ∧
    (getSetFromHash ix p.1 = getSetFromHash ix hash → way p.2 ≠ m)) ops →
  ∃ ix' s, foldM run_index ix (On hash (Store m hash off len ver) :: (uncurry On <$> ops)) = Done ix' ∧
    index_ok ix' ∧ getSetHeader ix' hash = Done s ∧
    getBestMatchByIndex hash s =
      Done (if decide (size (list_to_set (way <$> in_set ix hash ops) : gset nat) < 7)%nat then Z.of_nat m else -1) ∧
    sh_headers s !! m = Some hash ∧ getFirstBlockOffset s m = Done off ∧
    getFirstBlockVersion s m = Done (i8 ver) ∧ getFirstBlockLen s m = Done (i8 len).
Proof.
  intros Hix Hm Hfree Hops.
  destruct (run_index_on ix hash (Store m hash off len ver) Hix Hm)
    as (s0 & s1 & ix1 & Hs0 & Hok0 & _ & [Hok1 Hr1 Hh1 Ho1 Hv1 Hl1] & Hrix & Hix1 & Hn & Hh).
  assert (∀ a, getSetFromHash ix1 a = getSetFromHash ix a) as Hset by (intros a; unfold getSetFromHash; by rewrite Hn).
  destruct (run_index_project hash ops ix1 s1) as (ix' & s & Hrun & Hix' & Hn' & Hs & Hin); [done| | |].
  { rewrite Hset, Hh. apply list_lookup_insert_eq. by eapply lookup_lt_Some. }
  { eapply Forall_impl; [exact Hops|]. by intros p (? & _). }
  assert (in_set ix1 hash ops = in_set ix hash ops) as Heq.
  { unfold in_set. f_equal. apply list_filter_iff. intros p. by rewrite !Hset. }
  rewrite Heq in Hin. cbn [way] in *.
  destruct (run_uses hash m (in_set ix hash ops) s1 ∅ Hok1 Hm) as
    (s' & Hrun' & Hok' & Hrec & Hoth & Hhm & Hom & Hvm & Hlm).
  { by apply stored_recency with (sh_clocks s0); [|apply Hr1]. }
  { intros i Hi. rewrite Hh1, list_lookup_insert_ne by done. by apply Hfree. }
  { unfold in_set. apply Forall_fmap, Forall_forall. intros p [Hp1 Hp2]%list_elem_of_filter.
    rewrite Forall_forall in Hops. destruct (Hops p Hp2) as (? & ? & ?). cbn. split_and!; [done|by apply H1|done]. }
  rewrite Hrun' in Hin. injection Hin as <-. destruct Hok0 as [L1 L2 L3 L4 _].
  exists ix', s'. split_and!.
  - cbn [foldM]. rewrite Hrix. done.
  - done.
  - unfold getSetHeader. pose proof (getSetFromHash_range ix' hash Hix') as Hr.
    destruct (set_lookup ix' hash Hix') as (s2 & Hget & Hs2 & _).
    rewrite (proj2 (Z.ltb_ge _ _)) by lia. rewrite Hget.
    assert (getSetFromHash ix' hash = getSetFromHash ix1 hash) as Hsame by (unfold getSetFromHash; by rewrite Hn').
    rewrite Hsame in Hs2. congruence.
  - rewrite union_empty_r_L in Hrec. by apply recency_best; [..|rewrite Hhm, Hh1; apply list_lookup_insert_eq; lia].
  - rewrite Hhm, Hh1. apply list_lookup_insert_eq. lia.
  - unfold getFirstBlockOffset. apply get_Done. rewrite Hom, Ho1. apply list_lookup_insert_eq. lia.
  - unfold getFirstBlockVersion. apply get_Done. rewrite Hvm, Hv1. apply list_lookup_insert_eq. lia.
  - unfold getFirstBlockLen. apply get_Done. rewrite Hlm, Hl1. apply list_lookup_insert_eq. lia.
Qed.

(** The way that a new object takes is one without a lock and the least
    recently used of those; only when all eight are locked there is none.  It
    is never the way of the entry used last, unless it is the only one free. *)
Theorem free_location_is_least_recent (lockOn : nat → bool) (s : setHeader) :
  set_ok s →
  getFreeLocation lockOn s = Done (-1) ∧ (∀ i, (i < 8)%nat → lockOn i = true) ∨
  ∃ m, getFreeLocation lockOn s = Done (Z.of_nat m) ∧ (m < 8)%nat ∧ lockOn m = false ∧
    ∀ i, (i < 8)%nat → lockOn i = false → i ≠ m →
      rank (sh_clocks s) m < rank (sh_clocks s) i ∧ rank (sh_clocks s) m < 7.
Proof.
  intros Hs. destruct (free_search_ok lockOn s) as (b & -> & [[-> Hb]|(m & -> & Hm & Hl & Hb)]); [by left|right].
  exists m. split_and!; [done|done|done|]. intros i Hi Hli Hne. specialize (Hb i Hi Hli).
  destruct Hs as [_ _ _ _ [_ Hinj]]. pose proof (rank_range (sh_clocks s) i).
  assert (rank (sh_clocks s) m ≠ rank (sh_clocks s) i) by (intros Heq; apply Hne; symmetry; by apply Hinj).
  lia.
Qed.

Lemma free_location_is_least_recent_witness : ∃ s, ix_headers first_index !! 0%nat = Some s ∧
  (getFreeLocation (λ i, bool_decide (i = 0%nat)) s = Done (-1) ∧
     (∀ i, (i < 8)%nat → bool_decide (i = 0%nat) = true) ∨
   ∃ m, getFreeLocation (λ i, bool_decide (i = 0%nat)) s = Done (Z.of_nat m) ∧ (m < 8)%nat ∧
     bool_decide (m = 0%nat) = false ∧
     ∀ i, (i < 8)%nat → bool_decide (i = 0%nat) = false → i ≠ m →
       rank (sh_clocks s) m < rank (sh_clocks s) i ∧ rank (sh_clocks s) m < 7).
Proof.
  eexists. split; [reflexivity|]. apply (free_location_is_least_recent (λ i, bool_decide (i = 0%nat))).
  apply first_set_ok. reflexivity.
Defined.
