(* ===== verification/HcLog.v ===== *)
(** * HashCache: the log on the disks

    [src/HashCache/src/hcfs.c] with [COMPLETE_LOG]: the blocks of all disks are
    numbered together, block [b] is on disk [b mod numDisks]; batches of blocks
    are allocated on one disk after the other, and when one of them is full the
    whole log starts again with the next version.  [checkVersion] guesses from
    the version and the place of a block whether it is still there.  With it the
    test of a hit in proxy.c that [joinFlow] makes.
    Opening and formatting the files is left out. *)

From Stdlib Require Import ZArith Lia.
From stdpp Require Import base list option numbers gmap sets.
From S2P Require Import Prelude HcIndex.

Definition THRESHOLD : Z := 1000.
Definition CYCLE_CHUNKS : Z := 16.
Definition FILE_BLOCK_SIZE : Z := 2048.

(** ** State and operations *)

(** What [initHCFS] fixes. *)
Record disks := { numDisks : Z; REM_FILE_SIZE : Z; hcFds : list Z }.

Record hcfs := mk_hcfs {
  presentRemVersion : Z;
  presentRemOffsets : list Z;
  presentDisk : Z;
  allocStart : Z;
  logFileLength : list Z
}.

(** The sizes and the empty log; [size] is in gigabytes. *)
Definition initHCFS (size numDisksGiven : Z) (fds : list Z) : disks * hcfs :=
  let cacheSize := Z.quot (i32 (i32 (size * 1024) * 1024)) (FILE_BLOCK_SIZE / 1024) in
  let offsets := Z.of_nat <$> seq 0 (Z.to_nat numDisksGiven) in
  ({| numDisks := numDisksGiven;
      REM_FILE_SIZE := i32 (Z.quot cacheSize numDisksGiven * numDisksGiven); hcFds := fds |},
   mk_hcfs 0 offsets 0 0 offsets).

Definition whichRem (dk : disks) (remOffset : Z) : Z :=
  if numDisks dk =? 1 then 0 else Z.rem remOffset (numDisks dk).

Definition checkVersion (st : hcfs) (version offset : Z) : outcome Z :=
  if version =? presentRemVersion st then Done 0
  else if version =? presentRemVersion st - 1 then
    first ← get_at (presentRemOffsets st) 0;
    Done (if first + THRESHOLD <? offset then 0 else -1)
  else Done (-1).

(** An allocation: where it starts, how many blocks it has, its version and disk. *)
Record allocation := {
  al_start : Z; al_blocks : Z; al_version : Z; al_disk : Z; al_left : Z
}.

Definition getFromOneDisk (dk : disks) (st : hcfs) (numBlocks : Z) : outcome (hcfs * allocation) :=
  let disk := presentDisk st in
  let step := i32 (numBlocks * numDisks dk) in
  offset ← get_at (presentRemOffsets st) disk;
  let full := REM_FILE_SIZE dk <? i32 (offset + step) in
  let version := if full then i32 (presentRemVersion st + 1) else presentRemVersion st in
  let offsets := if full then Z.of_nat <$> seq 0 (Z.to_nat (numDisks dk)) else presentRemOffsets st in
  let used := i32 (allocStart st + numBlocks) in
  start ← get_at offsets disk;
  offsets ← put offsets (Z.to_nat disk) (i32 (start + step));
  let left := if 0 <? CYCLE_CHUNKS - used then CYCLE_CHUNKS - used else 0 in
  let '(next, used) := if CYCLE_CHUNKS <=? used then (disk + 1, 0) else (disk, used) in
  let next := if numDisks dk <=? next then 0 else next in
  Done (mk_hcfs version offsets next used (logFileLength st),
        {| al_start := start; al_blocks := numBlocks; al_version := version; al_disk := disk; al_left := left |}).

Definition beginAllocCycle (dk : disks) (st : hcfs) : hcfs :=
  if allocStart st =? 0 then st
  else
    let next := presentDisk st + 1 in
    let next := if numDisks dk <=? next then 0 else next in
    mk_hcfs (presentRemVersion st) (presentRemOffsets st) next 0 (logFileLength st).

Definition setLogFileLength (dk : disks) (st : hcfs) (len : Z) : outcome hcfs :=
  let k := whichRem dk len in
  present ← get_at (logFileLength st) k;
  if (present <? REM_FILE_SIZE dk) && (present <? len) then
    lens ← put (logFileLength st) (Z.to_nat k) len;
    Done (mk_hcfs (presentRemVersion st) (presentRemOffsets st) (presentDisk st) (allocStart st) lens)
  else Done st.

Definition checkLogFileLength (dk : disks) (st : hcfs) (len : Z) : outcome bool :=
  present ← get_at (logFileLength st) (whichRem dk len);
  Done (negb (present <=? len)).

(** The place of a block on its disk; [convertRelToAbsRead] and
    [convertRelToAbsWrite] differ in the length only. *)
Record absLocs := { ab_offset : Z; ab_objFd : Z; ab_mapsize : Z; ab_remOffset : Z }.

Definition convertRelToAbsRead (dk : disks) (remOffset readLen : Z) : outcome absLocs :=
  let k := whichRem dk remOffset in
  fd ← get_at (hcFds dk) k;
  Done {| ab_offset := i64 (Z.quot (remOffset - k) (numDisks dk) * FILE_BLOCK_SIZE); ab_objFd := fd;
          ab_mapsize := readLen; ab_remOffset := remOffset |}.

Definition convertRelToAbsWrite (dk : disks) (remOffset writeLen : Z) : outcome absLocs :=
  let k := whichRem dk remOffset in
  fd ← get_at (hcFds dk) k;
  Done {| ab_offset := i64 (Z.quot (remOffset - k) (numDisks dk) * FILE_BLOCK_SIZE); ab_objFd := fd;
          ab_mapsize := if writeLen =? -1 then FILE_BLOCK_SIZE else writeLen; ab_remOffset := remOffset |}.

(** ** Hits *)

(** The end of [joinFlow] in proxy.c: from the index to the decision to read. *)
Inductive search := Miss | Hit (match_ remOffset version totalLen : Z).

Definition search_index (ix : index) (dk : disks) (st : hcfs) (hash : Z) : outcome (index * search) :=
  s ← getSetHeader ix hash;
  best ← getBestMatchByIndex hash s;
  if best =? -1 then Done (ix, Miss)
  else
    offset ← getFirstBlockOffset s (Z.to_nat best);
    version ← getFirstBlockVersion s (Z.to_nat best);
    len ← getFirstBlockLen s (Z.to_nat best);
    fresh ← checkVersion st version offset;
    if fresh =? -1 then Done (ix, Miss)
    else
      written ← (if 0 <? len then checkLogFileLength dk st offset else Done true);
      if (len <=? 0) || (negb written && (presentRemVersion st =? 0)) then Done (ix, Miss)
      else
        ix ← touch ix hash best;
        Done (ix, Hit best offset version len).

(** ** Sequences of allocations *)

(** The blocks of an allocation. *)
Definition blocks_of (dk : disks) (a : allocation) : list Z :=
  (λ k : nat, al_start a + Z.of_nat k * numDisks dk) <$> seq 0 (Z.to_nat (al_blocks a)).

Inductive log_op := Begin | Alloc (numBlocks : Z).

Definition run_log (dk : disks) (r : hcfs * list allocation) (o : log_op) : outcome (hcfs * list allocation) :=
  match o with
  | Begin => Done (beginAllocCycle dk r.1, r.2)
  | Alloc n => '(st, a) ← getFromOneDisk dk r.1 n; Done (st, r.2 ++ [a])
  end.

Lemma elem_of_blocks dk a b :
  b ∈ blocks_of dk a ↔ ∃ k, 0 ≤ k < al_blocks a ∧ b = al_start a + k * numDisks dk.
Proof.
  unfold blocks_of. rewrite list_elem_of_fmap. split.
  - intros (k & -> & Hk%elem_of_seq_iff). exists (Z.of_nat k). lia.
  - intros (k & Hk & ->). exists (Z.to_nat k). rewrite Z2Nat.id by lia. split; [done|]. apply elem_of_seq_iff. lia.
Qed.

Section allocations.
Context (dk : disks) (room : Z).
#[local] Abbreviation D := (numDisks dk).
#[local] Abbreviation R := (REM_FILE_SIZE dk).
Hypothesis Hdisks : 0 < D.
Hypothesis Hfits : D + room * D ≤ R.
Hypothesis Hint : R + D + room * D < 2 ^ 31.
Hypothesis Hroom : 0 < room < 2 ^ 30.

Record log_ok (st : hcfs) : Prop := {
  lo_length : Z.of_nat (length (presentRemOffsets st)) = D;
  lo_offsets : ∀ d o, presentRemOffsets st !! d = Some o →
    Z.of_nat d ≤ o ≤ R + Z.of_nat d ∧ o mod D = Z.of_nat d;
  lo_disk : 0 ≤ presentDisk st < D;
  lo_start : 0 ≤ allocStart st < CYCLE_CHUNKS;
  lo_version : 0 ≤ presentRemVersion st
}.

(** What an allocation is, by itself. *)
Record alloc_ok (a : allocation) : Prop := {
  ao_blocks : 0 ≤ al_blocks a;
  ao_start : 0 ≤ al_start a;
  ao_end : al_start a + al_blocks a * D ≤ R;
  ao_disk : al_start a mod D = al_disk a
}.

Lemma alloc_block a b : alloc_ok a → b ∈ blocks_of dk a →
  al_start a ≤ b < al_start a + al_blocks a * D ∧ 0 ≤ b < R ∧ b mod D = al_disk a ∧ al_start a ≤ b.
Proof using Hdisks.
  intros [? ? ? Hd] (k & Hk & ->)%elem_of_blocks. rewrite Z_mod_plus_full. clear Hfits Hint. split_and!; nia.
Qed.

Lemma start_offsets d o : (Z.of_nat <$> seq 0 (Z.to_nat D)) !! d = Some o → o = Z.of_nat d ∧ Z.of_nat d < D.
Proof.
  rewrite list_lookup_fmap_Some. intros (n & -> & [-> Hn]%lookup_seq). lia.
Qed.

Lemma start_offsets_ok d o :
  (Z.of_nat <$> seq 0 (Z.to_nat D)) !! d = Some o → Z.of_nat d ≤ o ≤ R + Z.of_nat d ∧ o mod D = Z.of_nat d.
Proof.
  intros [-> Hd]%start_offsets. rewrite Z.mod_small by lia. nia.
Qed.

(** One allocation: the disk continues, or the log starts again. *)
Lemma getFromOneDisk_ok st n :
  log_ok st → 0 ≤ n ≤ room → presentRemVersion st + 1 < 2 ^ 31 →
  ∃ st' a offsets, getFromOneDisk dk st n = Done (st', a) ∧ log_ok st' ∧ alloc_ok a ∧
    al_blocks a = n ∧ al_version a = presentRemVersion st' ∧ logFileLength st' = logFileLength st ∧
    presentRemOffsets st' = <[Z.to_nat (al_disk a) := al_start a + n * D]> offsets ∧
    offsets !! Z.to_nat (al_disk a) = Some (al_start a) ∧
    ((presentRemVersion st' = presentRemVersion st ∧ offsets = presentRemOffsets st) ∨
     (presentRemVersion st' = presentRemVersion st + 1 ∧ offsets = Z.of_nat <$> seq 0 (Z.to_nat D))).
Proof.
  intros [Hl Ho Hd Hs Hv] Hn Hver. unfold getFromOneDisk.
  set (d := Z.to_nat (presentDisk st)).
  destruct (lookup_lt_is_Some_2 (presentRemOffsets st) d) as [o Hoo]; [unfold d; lia|].
  destruct (Ho d o Hoo) as [Hod Hom]. assert (Z.of_nat d = presentDisk st) as Hdd by (unfold d; lia).
  assert (n * D ≤ room * D) as Hnr by nia. assert (0 ≤ n * D) as Hnp by nia.
  assert (∀ (l : list Z) x, l !! d = Some x → get_at l (presentDisk st) = Done x) as Hget.
  { intros l x Hx. unfold get_at. rewrite (proj2 (Z.ltb_ge _ _)) by lia. by apply get_Done. }
  rewrite (Hget _ o) by done. cbn [mbind outcome_bind].
  rewrite (i32_id (n * D)), (i32_id (o + _)), (i32_id (presentRemVersion st + 1)),
    (i32_id (allocStart st + n)) by (unfold CYCLE_CHUNKS in *; lia).
  set (full := R <? o + n * D).
  set (offsets := if full then Z.of_nat <$> seq 0 (Z.to_nat D) else presentRemOffsets st).
  assert (∀ i x, offsets !! i = Some x → Z.of_nat i ≤ x ≤ R + Z.of_nat i ∧ x mod D = Z.of_nat i) as Hoff.
  { intros i x. unfold offsets. destruct full; [apply start_offsets_ok|apply Ho]. }
  assert (Z.of_nat (length offsets) = D) as Hlen.
  { unfold offsets. destruct full; [|done]. rewrite length_fmap, length_seq. lia. }
  assert (∃ start, offsets !! d = Some start ∧ start + n * D ≤ R) as (start & Hst & Hend).
  { unfold offsets, full. destruct (Z.ltb_spec R (o + n * D)).
    - destruct (lookup_lt_is_Some_2 (Z.of_nat <$> seq 0 (Z.to_nat D)) d) as [x Hx].
      { rewrite length_fmap, length_seq. unfold d. lia. }
      exists x. split; [done|]. apply start_offsets in Hx as [-> ?]. lia.
    - exists o. split; [done|lia]. }
  destruct (Hoff d start Hst) as [Hsr Hsm].
  rewrite (Hget _ start) by done. cbn [mbind outcome_bind].
  unfold put. fold d. rewrite decide_True by (unfold d; lia). cbn [mbind outcome_bind].
  rewrite (i32_id (start + n * D)) by lia.
  set (used := allocStart st + n).
  set (next := if CYCLE_CHUNKS <=? used then (presentDisk st + 1, 0) else (presentDisk st, used)).
  assert (0 ≤ next.2 < CYCLE_CHUNKS) as Hnext.
  { unfold next, used, CYCLE_CHUNKS in *. destruct (Z.leb_spec 16 (allocStart st + n)); cbn; lia. }
  assert (0 ≤ next.1 ≤ D) as Hnext1.
  { unfold next. destruct (CYCLE_CHUNKS <=? used); cbn; lia. }
  destruct next as [nd nu]. cbn [fst snd] in *.
  eexists _, _, offsets. split; [reflexivity|]. cbn. fold d. split_and!.
  - split; cbn; [by rewrite length_insert| | |done|by destruct full; lia].
    + intros i x [(<- & <- & _)|[_ Hx]]%list_lookup_insert_Some; [|by apply Hoff].
      rewrite Z_mod_plus_full. lia.
    + destruct (Z.leb_spec D nd); lia.
  - split; cbn; [lia|lia|done|lia].
  - done.
  - by destruct full.
  - done.
  - done.
  - done.
  - unfold offsets. destruct full; [by right|by left].
Qed.

(** The allocations made so far, and what the offsets say of them. *)
Record history (st : hcfs) (allocs : list allocation) : Prop := {
  hi_log : log_ok st;
  hi_ok : Forall (λ a, alloc_ok a ∧ al_version a ≤ presentRemVersion st) allocs;
  hi_behind : ∀ a o, a ∈ allocs → al_version a = presentRemVersion st →
    presentRemOffsets st !! Z.to_nat (al_disk a) = Some o → al_start a + al_blocks a * D ≤ o;
  hi_pairs : ∀ i j a b, (i < j)%nat → allocs !! i = Some a → allocs !! j = Some b →
    al_version a ≤ al_version b ∧ (al_version a = al_version b → ∀ x, x ∈ blocks_of dk a → x ∉ blocks_of dk b)
}.

Lemma disk_index a : alloc_ok a → 0 ≤ al_disk a < D.
Proof. intros [_ _ _ <-]. by apply Z.mod_pos_bound. Qed.

Lemma history_alloc st allocs n :
  history st allocs → 0 ≤ n ≤ room → presentRemVersion st + 1 < 2 ^ 31 →
  ∃ st' a, getFromOneDisk dk st n = Done (st', a) ∧ history st' (allocs ++ [a]) ∧ al_blocks a = n ∧
    presentRemVersion st ≤ presentRemVersion st' ≤ presentRemVersion st + 1.
Proof.
  intros [Hlog Hok Hbeh Hpairs] Hn Hv.
  destruct (getFromOneDisk_ok st n Hlog Hn Hv) as
    (st' & a & offsets & Hrun & Hlog' & Ha & Hblocks & Hver & _ & Hoff & Hstart & Hcase).
  rewrite Forall_forall in Hok. exists st', a. split; [done|]. split; [split|split; [done|destruct Hcase as [[-> _]|[-> _]]; lia]].
  - done.
  - apply Forall_app. split; [|apply Forall_singleton; split; [done|lia]].
    apply Forall_forall. intros b Hb. destruct (Hok b Hb). split; [done|]. destruct Hcase as [[-> _]|[-> _]]; lia.
  - intros b o [Hb| ->%list_elem_of_singleton]%elem_of_app Hbv Ho.
    + destruct Hcase as [[Heq ->]|[Heq ->]]; [|destruct (Hok b Hb); lia].
      rewrite Hoff in Ho. apply list_lookup_insert_Some in Ho. destruct Ho as [(Hd & <- & _)|[_ Ho]].
      * destruct (Hok b Hb) as [Hbok _]. pose proof (disk_index a Ha). pose proof (disk_index b Hbok).
        assert (al_start b + al_blocks b * D ≤ al_start a); [|nia].
        apply (Hbeh b (al_start a) Hb); [congruence|]. by rewrite <-Hd.
      * apply (Hbeh b o Hb); [congruence|done].
    + rewrite Hoff in Ho. rewrite list_lookup_insert_eq in Ho by (by eapply lookup_lt_Some).
      injection Ho as <-. by rewrite Hblocks.
  - intros i j b c Hij Hi Hj. apply lookup_snoc_Some in Hj as [[Hjl Hj]|[-> <-]].
    + rewrite lookup_app_l in Hi by lia. by apply (Hpairs i j).
    + rewrite lookup_app_l in Hi by lia. apply list_elem_of_lookup_2 in Hi. destruct (Hok b Hi) as [Hbok Hbv].
      split; [destruct Hcase as [[Heq _]|[Heq _]]; lia|]. intros Hsame x Hxb Hxa.
      destruct (alloc_block b x Hbok Hxb) as (Hb1 & _ & Hb2 & _).
      destruct (alloc_block a x Ha Hxa) as (Ha1 & _ & Ha2 & _).
      destruct Hcase as [[Heq ->]|[Heq _]]; [|lia].
      assert (al_start b + al_blocks b * D ≤ al_start a); [|lia].
      apply (Hbeh b); [done|congruence|]. by rewrite <-Hb2, Ha2.
Qed.

Lemma begin_ok st :
  log_ok st → log_ok (beginAllocCycle dk st) ∧
  presentRemVersion (beginAllocCycle dk st) = presentRemVersion st ∧
  presentRemOffsets (beginAllocCycle dk st) = presentRemOffsets st.
Proof.
  intros [Hl Ho Hd Hs Hv]. unfold beginAllocCycle. destruct (allocStart st =? 0); [done|].
  split_and!; [|done|done]. split; cbn; [done|done| |unfold CYCLE_CHUNKS; lia|done].
  destruct (Z.leb_spec D (presentDisk st + 1)); lia.
Qed.

Lemma history_begin st allocs : history st allocs → history (beginAllocCycle dk st) allocs.
Proof.
  intros [Hlog Hok Hbeh Hpairs]. destruct (begin_ok st Hlog) as (Hlog' & Hv & Ho).
  split; [done|by rewrite Hv|by rewrite Hv, Ho|done].
Qed.

Lemma history_start : history (mk_hcfs 0 (Z.of_nat <$> seq 0 (Z.to_nat D)) 0 0 (Z.of_nat <$> seq 0 (Z.to_nat D))) [].
Proof.
  split; [|constructor|set_solver|done].
  split; cbn; [rewrite length_fmap, length_seq; lia|apply start_offsets_ok|lia|unfold CYCLE_CHUNKS; lia|done].
Qed.

Lemma run_log_ok ops : ∀ st allocs,
  history st allocs → presentRemVersion st + Z.of_nat (length ops) < 2 ^ 31 →
  Forall (λ o, match o with Begin => True | Alloc n => 0 ≤ n ≤ room end) ops →
  ∃ st' more, foldM (run_log dk) (st, allocs) ops = Done (st', allocs ++ more) ∧ history st' (allocs ++ more) ∧
    presentRemVersion st' ≤ presentRemVersion st + Z.of_nat (length ops).
Proof.
  induction ops as [|o ops IH]; intros st allocs Hh Hv Hops.
  - exists st, []. rewrite app_nil_r. split_and!; [done|done|cbn; lia].
  - apply Forall_cons in Hops as [Ho Hops]. cbn [length] in Hv. destruct o as [|n]; cbn [foldM run_log fst snd].
    + cbn [mbind outcome_bind].
      assert (presentRemVersion (beginAllocCycle dk st) = presentRemVersion st) as Heq.
      { unfold beginAllocCycle. by destruct (_ =? _). }
      destruct (IH (beginAllocCycle dk st) allocs) as (st' & more & -> & Hh' & Hv'); [by apply history_begin|lia|done|].
      exists st', more. split_and!; [done|done|cbn; lia].
    + destruct (history_alloc st allocs n Hh Ho) as (st1 & a & -> & Hh1 & _ & Hv1); [lia|]. cbn [mbind outcome_bind].
      destruct (IH st1 (allocs ++ [a])) as (st' & more & -> & Hh' & Hv'); [done|lia|done|].
      exists st', (a :: more). rewrite <-app_assoc in Hh'. rewrite <-app_assoc. split_and!; [done|done|cbn; lia].
Qed.

(** A block that [checkVersion] accepts is not in a later allocation, if no disk
    is ahead of the first by more than the threshold. *)
Lemma accepted_block st allocs i j a b x :
  history st allocs → (i < j)%nat → allocs !! i = Some a → allocs !! j = Some b → x ∈ blocks_of dk a →
  (∀ first d o, presentRemOffsets st !! 0%nat = Some first → presentRemOffsets st !! d = Some o →
    o ≤ first + THRESHOLD + 1) →
  checkVersion st (al_version a) x = Done 0 → x ∉ blocks_of dk b.
Proof.
  intros [Hlog Hok Hbeh Hpairs] Hij Hi Hj Hx Hdrift Hcheck Hxb.
  destruct (Hpairs i j a b Hij Hi Hj) as [Hle Hdis]. rewrite Forall_lookup in Hok.
  destruct (Hok i a Hi) as [Ha Hav], (Hok j b Hj) as [Hb Hbv]. unfold checkVersion in Hcheck.
  destruct (Z.eqb_spec (al_version a) (presentRemVersion st)) as [Heq|Hne].
  { apply (Hdis ltac:(lia) x); done. }
  destruct (Z.eqb_spec (al_version a) (presentRemVersion st - 1)) as [Heq|Hne']; [|done].
  destruct (decide (al_version b = presentRemVersion st)) as [Hbc|Hbo].
  2: { apply (Hdis ltac:(lia) x); done. }
  inv_done. destruct (Z.ltb_spec (x0 + THRESHOLD) x) as [Hlt|]; [|done].
  assert (presentRemOffsets st !! 0%nat = Some x0) as H0.
  { unfold get_at in H. cbn in H. by apply get_Done in H. }
  destruct (alloc_block b x Hb Hxb) as (Hb1 & _ & Hb2 & _). pose proof (disk_index b Hb).
  destruct (lookup_lt_is_Some_2 (presentRemOffsets st) (Z.to_nat (al_disk b))) as [o Ho].
  { pose proof (lo_length _ Hlog). lia. }
  pose proof (Hbeh b o (list_elem_of_lookup_2 _ _ _ Hj) Hbc Ho). specialize (Hdrift x0 _ o H0 Ho). lia.
Qed.
End allocations.

(** ** Addresses *)

Lemma whichRem_ok dk b : 0 < numDisks dk → 0 ≤ b → whichRem dk b = b mod numDisks dk.
Proof.
  intros Hd Hb. unfold whichRem. destruct (Z.eqb_spec (numDisks dk) 1) as [->|]; [by rewrite Z.mod_1_r|].
  by apply Z.rem_mod_nonneg.
Qed.

Lemma disk_address dk b : 0 < numDisks dk → 0 ≤ b → Z.quot (b - b mod numDisks dk) (numDisks dk) = b / numDisks dk.
Proof.
  intros Hd Hb. pose proof (Z.div_mod b (numDisks dk)) as Heq. pose proof (Z.mod_pos_bound b (numDisks dk) Hd).
  pose proof (Z.div_pos b (numDisks dk) Hb Hd).
  replace (b - b mod numDisks dk) with (b / numDisks dk * numDisks dk) by lia. apply Z.quot_mul. lia.
Qed.

(** ** Searches *)

Lemma touch_ok ix hash m s :
  index_ok ix → (m < 8)%nat → getSetHeader ix hash = Done s → ∃ ix', touch ix hash (Z.of_nat m) = Done ix'.
Proof.
  intros Hix Hm _. destruct (run_index_ok ix (On hash (Use m)) Hix Hm) as (ix' & Hrun & _). by exists ix'.
Qed.

Definition fresh (st : hcfs) (version offset : Z) : bool :=
  match checkVersion st version offset with Done r => r =? 0 | Fault _ => false end.

(** A search of a set where the lookup, and the entry it finds, are known. *)
Lemma search_index_ok ix dk st hash s best off ver len written first :
  index_ok ix → getSetHeader ix hash = Done s → getBestMatchByIndex hash s = Done best →
  (best = -1 ∨ ∃ m : nat, best = Z.of_nat m ∧ (m < 8)%nat ∧ getFirstBlockOffset s m = Done off ∧
    getFirstBlockVersion s m = Done ver ∧ getFirstBlockLen s m = Done len) →
  presentRemOffsets st !! 0%nat = Some first → checkLogFileLength dk st off = Done written →
  ∃ ix' r, search_index ix dk st hash = Done (ix', r) ∧
    r = if bool_decide (best ≠ -1) && fresh st ver off && (0 <? len) &&
           (written || negb (presentRemVersion st =? 0)) then Hit best off ver len else Miss.
Proof.
  intros Hix Hs Hbest Hcase Hfirst Hwritten. unfold search_index. rewrite Hs. cbn [mbind outcome_bind].
  rewrite Hbest. cbn [mbind outcome_bind]. destruct Hcase as [->|(m & -> & Hm & Hoff & Hver & Hlen)]; [by exists ix, Miss|].
  rewrite (proj2 (Z.eqb_neq _ _)) by lia. rewrite Nat2Z.id, Hoff, Hver, Hlen. cbn [mbind outcome_bind].
  rewrite bool_decide_true by lia. cbn [andb].
  assert (checkVersion st ver off = Done 0 ∨ checkVersion st ver off = Done (-1)) as [Hc|Hc].
  { unfold checkVersion. destruct (_ =? _); [by left|]. destruct (_ =? _); [|by right].
    unfold get_at, get. cbn. change (Z.to_nat 0) with 0%nat. rewrite Hfirst. cbn. destruct (_ <? _); [by left|by right]. }
  all: unfold fresh; rewrite Hc; cbn [mbind outcome_bind andb Z.eqb].
  -
    destruct (Z.ltb_spec 0 len) as [Hl|Hl]; cbn [andb].
    + rewrite Hwritten. cbn [mbind outcome_bind]. rewrite (proj2 (Z.leb_gt _ _)) by lia. cbn [orb].
      destruct (touch_ok ix hash m s Hix Hm Hs) as (ix' & Ht).
      destruct written, (presentRemVersion st =? 0); cbn [andb negb orb]; rewrite ?Ht; cbn [mbind outcome_bind];
        first [by exists ix', (Hit (Z.of_nat m) off ver len)|by exists ix, Miss].
    + cbn [mbind outcome_bind]. rewrite (proj2 (Z.leb_le _ _)) by lia. by exists ix, Miss.
  - by exists ix, Miss.
Qed.

(** The search for what was stored, after other uses of its set. *)
Lemma search_stored ix dk st hash m off len ver ops first written :
  index_ok ix → (m < 8)%nat →
  (∀ s i, ix_headers ix !! Z.to_nat (getSetFromHash ix hash) = Some s → i ≠ m → sh_headers s !! i ≠ Some hash) →
  Forall (λ p, (way p.2 < 8)%nat ∧ stores p.2 ≠ Some hash ∧
    (getSetFromHash ix p.1 = getSetFromHash ix hash → way p.2 ≠ m)) ops →
  presentRemOffsets st !! 0%nat = Some first → checkLogFileLength dk st off = Done written →
  ∃ ix' ix'', foldM run_index ix (On hash (Store m hash off len ver) :: (uncurry On <$> ops)) = Done ix' ∧
    search_index ix' dk st hash = Done (ix'',
      if bool_decide (size (list_to_set (way <$> in_set ix hash ops) : gset nat) < 7)%nat && fresh st (i8 ver) off &&
         (0 <? i8 len) && (written || negb (presentRemVersion st =? 0))
      then Hit (Z.of_nat m) off (i8 ver) (i8 len) else Miss).
Proof.
  intros Hix Hm Hfree Hops Hfirst Hwritten.
  destruct (stored_entry_is_found ix hash m off len ver ops Hix Hm Hfree Hops) as
    (ix' & s & Hrun & Hix' & Hs & Hbest & _ & Hoff & Hver & Hlen).
  edestruct (search_index_ok ix' dk st hash s _ off (i8 ver) (i8 len) written first Hix' Hs Hbest) as
    (ix'' & r & Hsearch & ->); [|done|done|].
  { case_decide; [right; by exists m|by left]. }
  exists ix', ix''. split; [done|]. rewrite Hsearch. repeat f_equal.
  case_decide; [by rewrite !bool_decide_true by lia|by rewrite !bool_decide_false by lia].
Qed.

(** ** Claims *)

(** C22: whatever batches are allocated, of up to [room] blocks each, and
    however the cycles are cut, every allocation lies inside of the log, all of
    its blocks are on the disk it is reported for, versions never go back, and
    two allocations of the same version have no block in common. *)
Theorem log_allocations_are_disjoint (dk : disks) (room : Z) (ops : list log_op) :
  0 < numDisks dk → 0 < room < 2 ^ 30 → numDisks dk + room * numDisks dk ≤ REM_FILE_SIZE dk →
  REM_FILE_SIZE dk + numDisks dk + room * numDisks dk < 2 ^ 31 → Z.of_nat (length ops) < 2 ^ 31 →
  Forall (λ o, match o with Begin => True | Alloc n => 0 ≤ n ≤ room end) ops →
  let offsets := Z.of_nat <$> seq 0 (Z.to_nat (numDisks dk)) in
  ∃ st allocs, foldM (run_log dk) (mk_hcfs 0 offsets 0 0 offsets, []) ops = Done (st, allocs) ∧
    (∀ a b, a ∈ allocs → b ∈ blocks_of dk a → 0 ≤ b < REM_FILE_SIZE dk ∧ whichRem dk b = al_disk a) ∧
    (∀ i j a b, (i < j)%nat → allocs !! i = Some a → allocs !! j = Some b →
      al_version a ≤ al_version b ∧
      (al_version a = al_version b → ∀ x, x ∈ blocks_of dk a → x ∉ blocks_of dk b)).
Proof.
  intros Hd Hroom Hfit Hint Hlen Hops offsets.
  destruct (run_log_ok dk room Hd Hfit Hint Hroom ops (mk_hcfs 0 offsets 0 0 offsets) []) as
    (st & allocs & Hrun & [_ Hok _ Hpairs] & _); [by apply history_start with room|done|done|].
  rewrite Forall_forall in Hok. exists st, allocs. split_and!; [done| |done].
  intros a b Ha Hb. destruct (Hok a Ha) as [Haok _].
  destruct (alloc_block dk Hd a b Haok Hb) as (_ & Hr & Hm & _).
  split; [done|]. rewrite whichRem_ok by lia. done.
Qed.

Lemma log_allocations_are_disjoint_witness :
  let dk := {| numDisks := 2; REM_FILE_SIZE := 20; hcFds := [7; 8] |} in
  let offsets := Z.of_nat <$> seq 0 (Z.to_nat (numDisks dk)) in
  ∃ st allocs, foldM (run_log dk) (mk_hcfs 0 offsets 0 0 offsets, []) [Alloc 5; Begin; Alloc 6; Begin; Alloc 6] =
      Done (st, allocs) ∧
    (∀ a b, a ∈ allocs → b ∈ blocks_of dk a → 0 ≤ b < REM_FILE_SIZE dk ∧ whichRem dk b = al_disk a) ∧
    (∀ i j a b, (i < j)%nat → allocs !! i = Some a → allocs !! j = Some b →
      al_version a ≤ al_version b ∧
      (al_version a = al_version b → ∀ x, x ∈ blocks_of dk a → x ∉ blocks_of dk b)).
Proof.
  apply (log_allocations_are_disjoint {| numDisks := 2; REM_FILE_SIZE := 20; hcFds := [7; 8] |} 7);
    cbn; [lia|lia|lia|lia|lia|]. repeat constructor; lia.
Defined.

(** C23: [checkVersion] accepts a block only if no later allocation took it, as
    long as no disk is ahead of the first one by more than the threshold; a
    log on one disk always meets that. *)
Theorem checkVersion_is_sound (dk : disks) (room : Z) (ops : list log_op) (st : hcfs) (allocs : list allocation)
    (i j : nat) (a b : allocation) (x : Z) :
  0 < numDisks dk → 0 < room < 2 ^ 30 → numDisks dk + room * numDisks dk ≤ REM_FILE_SIZE dk →
  REM_FILE_SIZE dk + numDisks dk + room * numDisks dk < 2 ^ 31 → Z.of_nat (length ops) < 2 ^ 31 →
  Forall (λ o, match o with Begin => True | Alloc n => 0 ≤ n ≤ room end) ops →
  let offsets := Z.of_nat <$> seq 0 (Z.to_nat (numDisks dk)) in
  foldM (run_log dk) (mk_hcfs 0 offsets 0 0 offsets, []) ops = Done (st, allocs) →
  (numDisks dk = 1 ∨ ∀ first d o, presentRemOffsets st !! 0%nat = Some first → presentRemOffsets st !! d = Some o →
    o ≤ first + THRESHOLD + 1) →
  (i < j)%nat → allocs !! i = Some a → allocs !! j = Some b → x ∈ blocks_of dk a →
  checkVersion st (al_version a) x = Done 0 → x ∉ blocks_of dk b.
Proof.
  intros Hd Hroom Hfit Hint Hlen Hops offsets Hrun Hdrift Hij Hi Hj Hx Hcheck.
  destruct (run_log_ok dk room Hd Hfit Hint Hroom ops (mk_hcfs 0 offsets 0 0 offsets) []) as
    (st' & more & Hrun' & Hh & _); [by apply history_start with room|done|done|].
  rewrite Hrun in Hrun'. injection Hrun' as -> ->.
  apply (accepted_block dk room Hd Hroom st' _ i j a b x Hh); [done|done|done|done| |done].
  destruct Hdrift as [Hone|Hdrift]; [|done]. intros first d o H0 Ho. pose proof (lo_length _ _ (hi_log _ _ _ Hh)) as Hl.
  apply lookup_lt_Some in Ho as Hdl. assert (d = 0%nat) as -> by lia. rewrite H0 in Ho. injection Ho as <-.
  unfold THRESHOLD. lia.
Qed.

Lemma checkVersion_is_sound_witness :
  let dk := {| numDisks := 1; REM_FILE_SIZE := 3000; hcFds := [7] |} in
  let a start n version := {| al_start := start; al_blocks := n; al_version := version; al_disk := 0; al_left := 0 |} in
  checkVersion (mk_hcfs 1 [700] 0 0 [0]) 0 2000 = Done 0 ∧ 2000 ∉ blocks_of dk (a 0 700 1).
Proof.
  intros dk a. split; [done|].
  apply (checkVersion_is_sound dk 1200 [Alloc 1200; Alloc 1200; Begin; Alloc 700] (mk_hcfs 1 [700] 0 0 [0])
    [a 0 1200 0; a 1200 1200 0; a 0 700 1] 1 2 (a 1200 1200 0) (a 0 700 1) 2000);
    try (cbn; lia); try reflexivity; try by left.
  - repeat constructor; lia.
  - apply elem_of_blocks. exists 800. cbn. lia.
Defined.

(** With more than one disk it also accepts blocks that are overwritten:
    batches of 1 block for the first disk and of 200 for the second take the
    second ahead by more than the threshold, which is held against the first. *)
Theorem checkVersion_accepts_overwritten :
  let dk := {| numDisks := 2; REM_FILE_SIZE := 10000; hcFds := [7; 8] |} in
  let ops := mjoin (replicate 31 [Begin; Alloc 1; Begin; Alloc 200]) in
  ∃ st allocs a b, foldM (run_log dk) (mk_hcfs 0 [0; 1] 0 0 [0; 1], []) ops = Done (st, allocs) ∧
    allocs !! 11%nat = Some a ∧ allocs !! 59%nat = Some b ∧
    2001 ∈ blocks_of dk a ∧ 2001 ∈ blocks_of dk b ∧ checkVersion st (al_version a) 2001 = Done 0.
Proof.
  eexists _, _, _, _. split; [vm_compute; reflexivity|]. split; [reflexivity|]. split; [reflexivity|].
  split_and!.
  - apply elem_of_blocks. exists 0. cbn. lia.
  - apply elem_of_blocks. exists 0. cbn. lia.
  - vm_compute. reflexivity.
Qed.

(** C24: a batch that [getFromOneDisk] allocated is written in one piece: the
    descriptor is that of its disk, block [k] of the buffer goes to the place
    where [convertRelToAbsRead] looks for the block, and two blocks never share
    a descriptor and an offset. *)
Theorem batch_is_read_where_written (dk : disks) (a : allocation) (k : Z) :
  0 < numDisks dk → NoDup (hcFds dk) → Z.of_nat (length (hcFds dk)) = numDisks dk → REM_FILE_SIZE dk < 2 ^ 31 →
  alloc_ok dk a → 0 ≤ k < al_blocks a →
  ∃ fd w r, hcFds dk !! Z.to_nat (al_disk a) = Some fd ∧
    convertRelToAbsWrite dk (al_start a) (al_blocks a * FILE_BLOCK_SIZE) = Done w ∧
    convertRelToAbsRead dk (al_start a + k * numDisks dk) FILE_BLOCK_SIZE = Done r ∧
    ab_objFd w = fd ∧ ab_objFd r = fd ∧ ab_mapsize w = al_blocks a * FILE_BLOCK_SIZE ∧
    ab_offset r = ab_offset w + k * FILE_BLOCK_SIZE ∧
    ∀ x other, 0 ≤ x < REM_FILE_SIZE dk → convertRelToAbsRead dk x FILE_BLOCK_SIZE = Done other →
      ab_objFd other = ab_objFd r → ab_offset other = ab_offset r → x = al_start a + k * numDisks dk.
Proof.
  intros Hd Hnodup Hlen Hint [Hb Hs He Hdisk] Hk. set (D := numDisks dk) in *.
  assert (∀ x, 0 ≤ x < REM_FILE_SIZE dk → ∃ fd, hcFds dk !! Z.to_nat (x mod D) = Some fd ∧
    get_at (hcFds dk) (whichRem dk x) = Done fd ∧
    i64 (Z.quot (x - whichRem dk x) D * FILE_BLOCK_SIZE) = x / D * FILE_BLOCK_SIZE) as Haddr.
  { intros x Hx. pose proof (Z.mod_pos_bound x D Hd) as Hm. rewrite whichRem_ok by (fold D; lia). fold D.
    destruct (lookup_lt_is_Some_2 (hcFds dk) (Z.to_nat (x mod D))) as [fd Hfd]; [lia|].
    exists fd. split_and!; [done| |].
    - unfold get_at. rewrite (proj2 (Z.ltb_ge _ _)) by lia. by apply get_Done.
    - unfold D. rewrite disk_address by (fold D; lia). fold D.
      pose proof (Z.div_pos x D ltac:(lia) Hd). pose proof (Z.div_le_upper_bound x D x Hd ltac:(nia)).
      apply i64_id. unfold FILE_BLOCK_SIZE. lia. }
  assert (0 ≤ al_start a + k * D < REM_FILE_SIZE dk) as Hr by nia.
  destruct (Haddr (al_start a)) as (fd & Hfd & Hget & Hoff); [nia|].
  destruct (Haddr _ Hr) as (fd' & Hfd' & Hget' & Hoff'). rewrite Z_mod_plus_full in Hfd'.
  assert (fd' = fd) as -> by congruence.
  exists fd. rewrite <-Hdisk. unfold convertRelToAbsWrite, convertRelToAbsRead. fold D. rewrite Hget, Hget'.
  cbn [mbind outcome_bind].
  eexists _, _. split; [done|]. split; [reflexivity|]. split; [reflexivity|]. cbn [ab_objFd ab_mapsize ab_offset].
  split_and!; [done|done| | |].
  - rewrite (proj2 (Z.eqb_neq _ _)) by (unfold FILE_BLOCK_SIZE; lia). done.
  - rewrite Hoff, Hoff', Z.div_add by lia. lia.
  - intros x other Hx Hother Hsame Hofs. destruct (Haddr x Hx) as (fd2 & Hfd2 & Hget2 & Hoff2).
    rewrite Hget2 in Hother. injection Hother as <-. cbn in Hsame, Hofs. subst fd2.
    rewrite Hoff2, Hoff' in Hofs.
    pose proof (NoDup_lookup _ _ _ _ Hnodup Hfd2 Hfd) as Heq.
    pose proof (Z.mod_pos_bound x D Hd). pose proof (Z.mod_pos_bound (al_start a) D Hd).
    assert (x mod D = (al_start a + k * D) mod D) as Hmod by (rewrite Z_mod_plus_full; lia).
    pose proof (Z.div_mod x D ltac:(lia)) as H1. pose proof (Z.div_mod (al_start a + k * D) D ltac:(lia)) as H2.
    unfold FILE_BLOCK_SIZE in Hofs. nia.
Qed.

Lemma batch_is_read_where_written_witness :
  let dk := {| numDisks := 2; REM_FILE_SIZE := 20; hcFds := [7; 8] |} in
  let a := {| al_start := 5; al_blocks := 3; al_version := 0; al_disk := 1; al_left := 0 |} in
  ∃ fd w r, hcFds dk !! Z.to_nat (al_disk a) = Some fd ∧
    convertRelToAbsWrite dk (al_start a) (al_blocks a * FILE_BLOCK_SIZE) = Done w ∧
    convertRelToAbsRead dk (al_start a + 2 * numDisks dk) FILE_BLOCK_SIZE = Done r ∧
    ab_objFd w = fd ∧ ab_objFd r = fd ∧ ab_mapsize w = al_blocks a * FILE_BLOCK_SIZE ∧
    ab_offset r = ab_offset w + 2 * FILE_BLOCK_SIZE ∧
    ∀ x other, 0 ≤ x < REM_FILE_SIZE dk → convertRelToAbsRead dk x FILE_BLOCK_SIZE = Done other →
      ab_objFd other = ab_objFd r → ab_offset other = ab_offset r → x = al_start a + 2 * numDisks dk.
Proof.
  intros dk a. apply (batch_is_read_where_written dk a 2); cbn; try lia.
  - repeat constructor; set_solver.
  - by split.
Defined.

(** C25: what [updateHeaders] stored is found by the search of the next request,
    with the offset it was stored with, exactly if fewer than seven other ways
    of its set were used since, [checkVersion] accepts the version and the log
    has been written that far; version and length are those kept in a [char],
    and otherwise the object is fetched again. *)
Theorem stored_object_is_hit (ix : index) (dk : disks) (st : hcfs) (hash : Z) (m : nat) (off len ver : Z)
    (ops : list (Z * set_op)) (first : Z) (written : bool) :
  index_ok ix → (m < 8)%nat →
  (∀ s i, ix_headers ix !! Z.to_nat (getSetFromHash ix hash) = Some s → i ≠ m → sh_headers s !! i ≠ Some hash) →
  Forall (λ p, (way p.2 < 8)%nat ∧ stores p.2 ≠ Some hash ∧
    (getSetFromHash ix p.1 = getSetFromHash ix hash → way p.2 ≠ m)) ops →
  presentRemOffsets st !! 0%nat = Some first → checkLogFileLength dk st off = Done written →
  ∃ ix' ix'' r, foldM run_index ix (On hash (Store m hash off len ver) :: (uncurry On <$> ops)) = Done ix' ∧
    search_index ix' dk st hash = Done (ix'', r) ∧
    (r = Hit (Z.of_nat m) off (i8 ver) (i8 len) ↔
      ((size (list_to_set (way <$> in_set ix hash ops) : gset nat) < 7)%nat ∧
       checkVersion st (i8 ver) off = Done 0 ∧ 0 < i8 len ∧ (written = true ∨ presentRemVersion st ≠ 0))) ∧
    (r = Miss ∨ r = Hit (Z.of_nat m) off (i8 ver) (i8 len)).
Proof.
  intros Hix Hm Hfree Hops Hfirst Hwritten.
  destruct (search_stored ix dk st hash m off len ver ops first written Hix Hm Hfree Hops Hfirst Hwritten) as
    (ix' & ix'' & Hrun & Hsearch).
  eexists ix', ix'', _. split; [done|]. split; [done|].
  set (near := bool_decide _). assert (near = true ↔ (size (list_to_set (way <$> in_set ix hash ops) : gset nat) < 7)%nat)
    as <- by apply bool_decide_eq_true.
  assert (fresh st (i8 ver) off = true ↔ checkVersion st (i8 ver) off = Done 0) as <-.
  { unfold fresh. destruct (checkVersion st (i8 ver) off) as [r|]; [|done]. rewrite Z.eqb_eq. split; congruence. }
  rewrite <-Z.ltb_lt.
  assert (presentRemVersion st ≠ 0 ↔ negb (presentRemVersion st =? 0) = true) as ->.
  { rewrite negb_true_iff. by rewrite Z.eqb_neq. }
  destruct near, (fresh st (i8 ver) off), (0 <? i8 len), written, (presentRemVersion st =? 0); cbn; naive_solver.
Qed.

Lemma stored_object_is_hit_witness :
  let dk := {| numDisks := 1; REM_FILE_SIZE := 3000; hcFds := [7] |} in
  let st := mk_hcfs 1 [700] 0 0 [3000] in
  ∃ ix' ix'' r, foldM run_index first_index (On 5 (Store 3 5 2000 2 0) :: (uncurry On <$> [(13, Use 1); (6, Use 2)])) = Done ix' ∧
    search_index ix' dk st 5 = Done (ix'', r) ∧ r = Hit 3 2000 0 2.
Proof.
  intros dk st.
  destruct (stored_object_is_hit first_index dk st 5 3 2000 2 0 [(13, Use 1); (6, Use 2)] 700 true)
    as (ix' & ix'' & r & Hrun & Hsearch & Hiff & _).
  - apply first_index_ok.
  - lia.
  - intros s i [= <-] _. do 8 (destruct i as [|i]; [done|]). done.
  - repeat constructor; cbn; try lia; done.
  - reflexivity.
  - reflexivity.
  - exists ix', ix'', r. split; [exact Hrun|]. split; [exact Hsearch|]. apply Hiff.
    split_and!; [vm_compute; lia|reflexivity|vm_compute; reflexivity|by left].
Defined.

(** The fields kept in a [char] lose the object: stored in a batch with 128
    to 255 blocks from it to the end, or after the log has started again 129
    times, it is not found by any later search, even by the next one. *)
Theorem wide_fields_never_hit (ix : index) (dk : disks) (st : hcfs) (hash : Z) (m : nat) (off len ver : Z)
    (first : Z) (written : bool) :
  index_ok ix → (m < 8)%nat →
  (∀ s i, ix_headers ix !! Z.to_nat (getSetFromHash ix hash) = Some s → i ≠ m → sh_headers s !! i ≠ Some hash) →
  presentRemOffsets st !! 0%nat = Some first → checkLogFileLength dk st off = Done written →
  128 ≤ len < 256 ∨ 129 ≤ presentRemVersion st →
  ∃ ix' ix'', updateHeaders ix hash (Z.of_nat m) hash off len ver = Done ix' ∧
    search_index ix' dk st hash = Done (ix'', Miss).
Proof.
  intros Hix Hm Hfree Hfirst Hwritten Hwide.
  destruct (search_stored ix dk st hash m off len ver [] first written Hix Hm Hfree (Forall_nil_2 _) Hfirst Hwritten) as
    (ix' & ix'' & Hrun & Hsearch).
  cbn [foldM run_index] in Hrun. inv_done. cbn in Hrun. injection Hrun as ->.
  exists ix', ix''. split; [done|]. rewrite Hsearch.
  assert (fresh st (i8 ver) off = true → 0 < i8 len → False) as Hno.
  { assert (- 2 ^ 7 ≤ i8 ver < 2 ^ 7) as Hv by (unfold i8; pose proof (Z.mod_pos_bound (ver + 2 ^ 7) (2 ^ 8)); lia).
    intros Hfresh Hlen. destruct Hwide as [Hwide|Hwide].
    - revert Hlen. unfold i8. pose proof (Z.mod_pos_bound (len + 2 ^ 7) (2 ^ 8)).
      replace (len + 2 ^ 7) with ((len - 2 ^ 7) + 1 * 2 ^ 8) by lia. rewrite Z_mod_plus_full, Z.mod_small by lia. lia.
    - revert Hfresh. unfold fresh, checkVersion. rewrite !(proj2 (Z.eqb_neq _ _)) by lia. done. }
  destruct (fresh _ _ _), (Z.ltb_spec 0 (i8 len)); rewrite ?andb_false_r; try done. by destruct Hno.
Qed.

Lemma wide_fields_never_hit_witness :
  let dk := {| numDisks := 1; REM_FILE_SIZE := 3000; hcFds := [7] |} in
  ∃ ix' ix'', updateHeaders first_index 5 3 5 2000 200 1 = Done ix' ∧
    search_index ix' dk (mk_hcfs 1 [2200] 0 0 [3000]) 5 = Done (ix'', Miss).
Proof.
  apply (wide_fields_never_hit first_index {| numDisks := 1; REM_FILE_SIZE := 3000; hcFds := [7] |}
    (mk_hcfs 1 [2200] 0 0 [3000]) 5 3 2000 200 1 2200 true); [apply first_index_ok|lia| |reflexivity|reflexivity|lia].
  intros s i [= <-] _. do 8 (destruct i as [|i]; [done|]). done.
Defined.
