(* ===== verification/HcLocks.v ===== *)
(** * HashCache: locks on the entries of the index

    [src/HashCache/src/locks.c].  A location is a set and a way; the table
    [locks] of the code is the finite map that [HcHashtab] shows a hash table
    to be.  What the operations return is -1 for an error, and 1 when a write
    lock meets a read lock. *)

From Stdlib Require Import ZArith Lia.
From stdpp Require Import base list option numbers gmap.
From S2P Require Import Prelude.

Record countLock := { reads : Z; write : Z }.

Abbreviation location := (Z * Z)%type.
Abbreviation locks := (gmap location countLock).

Definition addReadLock (l : locks) (p : location) : locks * Z :=
  match l !! p with
  | Some c => (<[p := {| reads := i32 (reads c + 1); write := write c |}]> l, 0)
  | None => (<[p := {| reads := 1; write := 0 |}]> l, 0)
  end.

Definition addWriteLock (l : locks) (p : location) : locks * Z :=
  match l !! p with
  | Some c => (l, if reads c =? 0 then 0 else 1)
  | None => (<[p := {| reads := 0; write := 1 |}]> l, 0)
  end.

Definition removeReadLock (l : locks) (p : location) : locks * Z :=
  match l !! p with
  | Some c =>
      if reads c =? 0 then (l, -1)
      else
        let r := i32 (reads c - 1) in
        if (r =? 0) && (write c =? 0) then (delete p l, 0) else (<[p := {| reads := r; write := write c |}]> l, 0)
  | None => (l, -1)
  end.

Definition removeWriteLock (l : locks) (p : location) : locks * Z :=
  match l !! p with
  | Some c =>
      if write c =? 0 then (l, -1)
      else
        let w := i32 (write c - 1) in
        if (w =? 0) && (reads c =? 0) then (delete p l, 0) else (<[p := {| reads := reads c; write := w |}]> l, -1)
  | None => (l, -1)
  end.

Definition lockOn (l : locks) (p : location) : bool := bool_decide (is_Some (l !! p)).
Definition lockCount (l : locks) : Z := i32 (Z.of_nat (size l)).

(** ** Specification: each location has readers and perhaps a writer *)

Inductive lock_op := AddRead (p : location) | AddWrite (p : location) | RemoveRead (p : location) | RemoveWrite (p : location).

Definition run_lock (l : locks) (o : lock_op) : locks * Z :=
  match o with
  | AddRead p => addReadLock l p
  | AddWrite p => addWriteLock l p
  | RemoveRead p => removeReadLock l p
  | RemoveWrite p => removeWriteLock l p
  end.

Definition holders : Type := location → nat * bool.

Definition set_holders (h : holders) (p : location) (v : nat * bool) : holders :=
  λ q, if decide (q = p) then v else h q.

(** A second writer is let in without a trace, and a reader is let in beside a
    writer. *)
Definition spec_lock (h : holders) (o : lock_op) : holders * Z :=
  match o with
  | AddRead p => let '(r, w) := h p in (set_holders h p (S r, w), 0)
  | AddWrite p =>
      match h p with
      | (0%nat, _) => (set_holders h p (0%nat, true), 0)
      | (S _, _) => (h, 1)
      end
  | RemoveRead p =>
      match h p with
      | (0%nat, _) => (h, -1)
      | (S r, w) => (set_holders h p (r, w), 0)
      end
  | RemoveWrite p =>
      match h p with
      | (_, false) => (h, -1)
      | (r, true) => (set_holders h p (r, false), if decide (r = 0%nat) then 0 else -1)
      end
  end.

Fixpoint run_locks (l : locks) (ops : list lock_op) : locks * list Z :=
  match ops with
  | [] => (l, [])
  | o :: ops => let '(l, r) := run_lock l o in let '(l, rs) := run_locks l ops in (l, r :: rs)
  end.

Fixpoint spec_locks (h : holders) (ops : list lock_op) : holders * list Z :=
  match ops with
  | [] => (h, [])
  | o :: ops => let '(h, r) := spec_lock h o in let '(h, rs) := spec_locks h ops in (h, r :: rs)
  end.

(** The entry of a location with given holders. *)
Definition entry_of (v : nat * bool) : option countLock :=
  match v with
  | (0%nat, false) => None
  | (r, w) => Some {| reads := Z.of_nat r; write := if w then 1 else 0 |}
  end.

Definition agree (l : locks) (h : holders) (n : Z) : Prop :=
  ∀ p, l !! p = entry_of (h p) ∧ Z.of_nat (h p).1 ≤ n.

Lemma agree_set l h n p v l' :
  agree l h n → l' !! p = entry_of v → (∀ q, q ≠ p → l' !! q = l !! q) → Z.of_nat v.1 ≤ n + 1 →
  agree l' (set_holders h p v) (n + 1).
Proof.
  intros Hag Hp Hq Hn q. unfold set_holders. case_decide as Hd; [by subst|].
  destruct (Hag q). rewrite Hq by done. split; [done|lia].
Qed.

Lemma agree_mono l h n : agree l h n → agree l h (n + 1).
Proof. intros Hag p. destruct (Hag p). split; [done|lia]. Qed.

#[local] Ltac settle l Hp :=
  eexists _, _, _; split; [reflexivity|]; split; [reflexivity|];
  first [ by apply agree_mono
        | apply agree_set with l;
          [ done
          | rewrite ?lookup_insert_eq, ?lookup_delete_eq, ?Hp; cbn [entry_of]; first [done|(do 2 f_equal; lia)]
          | (intros q Hq; rewrite ?lookup_insert_ne, ?lookup_delete_ne by (by intros ->); reflexivity)
          | cbn; lia ] ].

Lemma run_lock_ok l h n o :
  agree l h n → 0 ≤ n → n + 1 < 2 ^ 31 →
  ∃ l' h' r, run_lock l o = (l', r) ∧ spec_lock h o = (h', r) ∧ agree l' h' (n + 1).
Proof.
  intros Hag H0 Hn. destruct o as [p|p|p|p]; cbn [run_lock spec_lock];
    destruct (Hag p) as [Hp Hle]; unfold addReadLock, addWriteLock, removeReadLock, removeWriteLock; rewrite Hp;
    destruct (h p) as [[|[|r]] w] eqn:Hh; cbn [fst] in Hle; cbn [entry_of]; destruct w; cbn [reads write].
  all: rewrite ?i32_id by lia; rewrite ?(proj2 (Z.eqb_neq (Z.of_nat (S _)) 0)), ?(proj2 (Z.eqb_neq (Z.of_nat (S _) - 1) 0)) by lia.
  all: settle l Hp.
Qed.

Lemma run_locks_ok ops : ∀ l h n,
  agree l h n → 0 ≤ n → n + Z.of_nat (length ops) < 2 ^ 31 →
  ∃ l' h' rs, run_locks l ops = (l', rs) ∧ spec_locks h ops = (h', rs) ∧ agree l' h' (n + Z.of_nat (length ops)).
Proof.
  induction ops as [|o ops IH]; intros l h n Hag H0 Hn.
  - exists l, h, []. cbn [length]. rewrite Z.add_0_r. done.
  - cbn [length] in Hn. destruct (run_lock_ok l h n o Hag H0) as (l1 & h1 & r & Hr & Hs & Hag1); [lia|].
    destruct (IH l1 h1 (n + 1) Hag1) as (l' & h' & rs & Hrs & Hss & Hag'); [lia|lia|].
    exists l', h', (r :: rs). cbn [run_locks spec_locks length]. rewrite Hr, Hs, Hrs, Hss.
    split_and!; [done|done|]. by replace (n + Z.of_nat (S (length ops))) with (n + 1 + Z.of_nat (length ops)) by lia.
Qed.

(** C26: any sequence of lock operations returns what counting the readers of
    each location and noting its writer gives, and afterwards a location is
    locked exactly if it has a reader or a writer; the entries of others are
    gone, so that the table holds nothing that is not locked. *)
Theorem locks_refine_holders (ops : list lock_op) :
  Z.of_nat (length ops) < 2 ^ 31 →
  let h := (spec_locks (λ _, (0%nat, false)) ops).1 in
  ∃ l, run_locks ∅ ops = (l, (spec_locks (λ _, (0%nat, false)) ops).2) ∧
    ∀ p, lockOn l p = bool_decide (h p ≠ (0%nat, false)) ∧
      (∀ c, l !! p = Some c → reads c = Z.of_nat (h p).1 ∧ write c = if (h p).2 then 1 else 0).
Proof.
  intros Hn h. destruct (run_locks_ok ops ∅ (λ _, (0%nat, false)) 0) as (l & h' & rs & Hr & Hs & Hag); [|lia|lia|].
  - intros p. by rewrite lookup_empty.
  - subst h. rewrite Hr, Hs. exists l. split; [done|]. intros p. destruct (Hag p) as [Hp _]. unfold lockOn. rewrite Hp.
    cbn [fst]. destruct (h' p) as [[|r] [|]]; cbn; (split; [done|]); intros c; by intros [= <-].
Qed.

Lemma locks_refine_holders_witness :
  let ops := [AddRead (1, 2); AddWrite (1, 2); AddRead (1, 2); RemoveRead (1, 2); RemoveWrite (1, 2); AddWrite (3, 0)] in
  let h := (spec_locks (λ _, (0%nat, false)) ops).1 in
  ∃ l, run_locks ∅ ops = (l, [0; 1; 0; 0; -1; 0]) ∧
    ∀ p, lockOn l p = bool_decide (h p ≠ (0%nat, false)) ∧
      (∀ c, l !! p = Some c → reads c = Z.of_nat (h p).1 ∧ write c = if (h p).2 then 1 else 0).
Proof.
  apply (locks_refine_holders [AddRead (1, 2); AddWrite (1, 2); AddRead (1, 2); RemoveRead (1, 2); RemoveWrite (1, 2);
    AddWrite (3, 0)]). cbn. lia.
Defined.

(** A write lock does not exclude: a second writer is told that it has the
    lock, the first of them to finish takes it away from both, and the other is
    told of an error; a reader that comes after a writer makes the removal of
    the write lock report an error too. *)
Theorem write_locks_do_not_exclude (p : location) :
  (let '(l, rs) := run_locks ∅ [AddWrite p; AddWrite p; RemoveWrite p] in
   rs = [0; 0; 0] ∧ lockOn l p = false ∧ (removeWriteLock l p).2 = -1) ∧
  (run_locks ∅ [AddWrite p; AddRead p; RemoveWrite p]).2 = [0; 0; -1].
Proof.
  set (held := {[ p := {| reads := 0; write := 1 |} ]} : locks).
  set (both := {[ p := {| reads := 1; write := 1 |} ]} : locks).
  assert (addWriteLock ∅ p = (held, 0)) as H1 by (unfold addWriteLock; by rewrite lookup_empty).
  assert (addWriteLock held p = (held, 0)) as H2 by (unfold addWriteLock, held; by rewrite lookup_singleton_eq).
  assert (removeWriteLock held p = (∅, 0)) as H3.
  { unfold removeWriteLock, held. rewrite lookup_singleton_eq. cbn [reads write]. by rewrite delete_singleton_eq. }
  assert (addReadLock held p = (both, 0)) as H4.
  { unfold addReadLock, held. rewrite lookup_singleton_eq. cbn [reads write]. by rewrite insert_singleton_eq. }
  assert ((removeWriteLock both p).2 = -1) as H5 by (unfold removeWriteLock, both; by rewrite lookup_singleton_eq).
  cbn [run_locks run_lock]. rewrite H1, H2, H3, H4. split.
  - split_and!; [done|unfold lockOn; by rewrite lookup_empty|unfold removeWriteLock; by rewrite lookup_empty].
  - destruct (removeWriteLock both p) as [l r]. cbn in H5. by subst.
Qed.
