(* ===== verification/HcWriter.v ===== *)
(** * HashCache: writing batches of objects

    [formDiskBatches] and the flush of [checkBatchWritesNow] in
    [src/HashCache/src/proxy.c], with [checkForFreeBlocks] of loop.c: a batch of
    complete objects gets its blocks from the log, each object an entry of the
    index and a write lock, and each block a tail that says where it belongs;
    the blocks of a disk are collected and written in one request.  A block is
    modelled by its tail.  The copies that repair the blocks of a dirty object
    ([USE_DIRTY_CACHE]) are left out. *)

From Stdlib Require Import ZArith Lia.
From stdpp Require Import base list option numbers gmap sets.
From S2P Require Import Prelude HcIndex HcLocks HcLog.

Definition MAX_BATCH_SIZE : Z := 200.
Definition writeBufferSize (dk : disks) : Z := numDisks dk * 512.

(** A response that is complete, with the number of its blocks. *)
Record web_object := { ob_hash : Z; ob_count : nat }.
Record relOb := { ro_urls : list web_object; ro_size : Z }.

Record tail := mk_tail { t_pres : Z; t_version : Z; t_next : Z; t_block : Z; t_length : Z }.

(** A response that waits for its write, with the way it was given, or -1. *)
Record placed := { pl_hash : Z; pl_match : Z }.

Record writer := mk_writer {
  w_log : hcfs;
  w_index : index;
  w_locks : locks;
  blockLists : list (list tail);
  presentResponseBatch : list (list placed);
  totalBatchOffsets : list Z;
  presentBatchVersion : Z;
  versionChange : bool;
  totalBlocksUsed : Z
}.

#[export] Instance tail_eq_dec : EqDecision tail.
Proof. solve_decision. Defined.

(** ** A batch *)

Definition checkForFreeBlocks (ix : index) (l : locks) (hash : Z) : outcome (locks * Z * Z) :=
  s ← getSetHeader ix hash;
  m ← getFreeLocation (λ i, lockOn l (getSetFromHash ix hash, Z.of_nat i)) s;
  if m =? -1 then Done (l, 1, -1)
  else
    let '(l, status) := addWriteLock l (getSetFromHash ix hash, m) in
    Done (l, if status =? 1 then -1 else 0, m).

Definition determineSmartLength (actLength remResponses leftOnDisk : Z) : Z := remResponses.

(** The loop over the blocks of an object. *)
Fixpoint object_tails (dk : disks) (a : allocation) (total size : Z) (thisStart thisUsed count : Z) (n : nat) : list tail :=
  match n with
  | O => []
  | S n =>
      {| t_pres := thisStart; t_version := al_version a; t_next := i32 (thisStart + numDisks dk); t_block := count;
         t_length := determineSmartLength total (size - thisUsed) (al_left a) |} ::
      object_tails dk a total size (i32 (thisStart + numDisks dk)) (thisUsed + 1) (count + 1) n
  end.

Record placing := mk_placing {
  p_index : index; p_locks : locks; p_start : Z; p_used : Z; p_tails : list tail; p_responses : list placed
}.

(** One pass of the loop over the objects of a batch. *)
Definition place_object (dk : disks) (a : allocation) (size : Z) (p : placing) (o : web_object) : outcome placing :=
  let total := Z.of_nat (ob_count o) in
  '(ix, l, m) ←
    (if total =? 0 then Done (p_index p, p_locks p, -1)
     else
       '(l, status, m) ← checkForFreeBlocks (p_index p) (p_locks p) (ob_hash o);
       if status =? 0 then
         ix ← updateHeaders (p_index p) (ob_hash o) m (ob_hash o) (p_start p)
                (determineSmartLength total (size - p_used p) (al_left a)) (al_version a);
         Done (ix, l, m)
       else Done (p_index p, l, m));
  let ts := object_tails dk a total size (p_start p) (p_used p) 0 (ob_count o) in
  Done (mk_placing ix l (default (p_start p) (t_next <$> last ts)) (p_used p + total) (p_tails p ++ ts)
          ({| pl_hash := ob_hash o; pl_match := m |} :: p_responses p)).

Definition process_batch (dk : disks) (w : writer) (b : relOb) : outcome writer :=
  '(log, a) ← getFromOneDisk dk (beginAllocCycle dk (w_log w)) (ro_size b);
  let disk := al_disk a in
  offset ← get_at (totalBatchOffsets w) disk;
  offsets ← (if offset =? -1 then put (totalBatchOffsets w) (Z.to_nat disk) (al_start a) else Done (totalBatchOffsets w));
  let batchVersion := if offset =? -1 then al_version a else presentBatchVersion w in
  let change := if batchVersion =? al_version a then versionChange w else true in
  responses ← get_at (presentResponseBatch w) disk;
  p ← foldM (place_object dk a (ro_size b))
        (mk_placing (w_index w) (w_locks w) (al_start a) 0 [] responses) (ro_urls b);
  blocks ← get_at (blockLists w) disk;
  lists ← put (blockLists w) (Z.to_nat disk) (blocks ++ p_tails p);
  waiting ← put (presentResponseBatch w) (Z.to_nat disk) (p_responses p);
  Done (mk_writer log (p_index p) (p_locks p) lists waiting offsets batchVersion change
          (totalBlocksUsed w + ro_size b)).

(** ** The queue *)

(** Moves objects to a new batch until that is large enough. *)
Fixpoint split_off (urls : list web_object) (newSize size : Z) : list web_object * list web_object * Z * Z :=
  match urls with
  | [] => ([], [], newSize, size)
  | o :: rest =>
      if newSize <? MAX_BATCH_SIZE then
        let '(moved, rest', newSize, size) :=
          split_off rest (newSize + Z.of_nat (ob_count o)) (size - Z.of_nat (ob_count o)) in
        (o :: moved, rest', newSize, size)
      else ([], urls, newSize, size)
  end.

(** The [do] loop; the new batches go to the end of the queue. *)
Fixpoint split_batch (fuel : nat) (b : relOb) : outcome (relOb * list relOb) :=
  match fuel with
  | O => Fault OutOfFuel
  | S fuel =>
      let '(moved, rest', newSize, size) := split_off (ro_urls b) 0 (ro_size b) in
      let b' := {| ro_urls := rest'; ro_size := size |} in
      let new := {| ro_urls := moved; ro_size := newSize |} in
      if MAX_BATCH_SIZE <? size then
        '(b', more) ← split_batch fuel b';
        Done (b', new :: more)
      else Done (b', [new])
  end.

(** [formDiskBatches]: the state, what is left of the queue, and
    [diskBatchesReady]. *)
Fixpoint formDiskBatches (fuel : nat) (dk : disks) (w : writer) (queue : list relOb) : outcome (writer * list relOb * bool) :=
  match fuel with
  | O => Fault OutOfFuel
  | S fuel =>
      match queue with
      | [] => Done (w, [], false)
      | b :: queue =>
          '(b, more) ← (if writeBufferSize dk <? ro_size b then split_batch (S (length (ro_urls b))) b else Done (b, []));
          if writeBufferSize dk <? totalBlocksUsed w + ro_size b then Done (w, b :: queue ++ more, true)
          else
            w ← process_batch dk w b;
            formDiskBatches fuel dk w (queue ++ more)
      end
  end.

(** ** The flush *)

Record write_request := { wr_remOffset : Z; wr_blocks : list tail; wr_version : Z; wr_list : list placed }.

Definition disk_requests (w : writer) : list write_request :=
  omap (λ i, blocks ← blockLists w !! i; offset ← totalBatchOffsets w !! i; responses ← presentResponseBatch w !! i;
             match blocks with
             | [] => None
             | _ => Some {| wr_remOffset := offset; wr_blocks := blocks; wr_version := presentBatchVersion w;
                            wr_list := responses |}
             end) (seq 0 (length (blockLists w))).

(** When the batches are ready, or late, and no write is under way. *)
Definition flush (w : writer) : writer * list write_request :=
  (mk_writer (w_log w) (w_index w) (w_locks w) ((λ _, []) <$> blockLists w) (zip_with (λ blocks responses, if versionChange w || negb (bool_decide (blocks = [])) then [] else responses)
        (blockLists w) (presentResponseBatch w))
     ((λ _, -1) <$> totalBatchOffsets w) (presentBatchVersion w) false 0,
   if versionChange w then [] else disk_requests w).

(** ** Placing the objects of a batch *)

Definition blocks_in (urls : list web_object) : Z := sum_Z ((λ o, Z.of_nat (ob_count o)) <$> urls).

(** The tails [ts] lay an allocation out, for a batch of [size] blocks. *)
Definition laid (dk : disks) (a : allocation) (size : Z) (ts : list tail) : Prop :=
  ∀ (k : nat) t, ts !! k = Some t →
    t_pres t = al_start a + Z.of_nat k * numDisks dk ∧ t_next t = t_pres t + numDisks dk ∧
    t_version t = al_version a ∧ t_length t = size - Z.of_nat k.

Lemma object_tails_lookup dk a total size n : ∀ start used count k t,
  0 < numDisks dk → 0 ≤ start → start + Z.of_nat n * numDisks dk < 2 ^ 31 →
  object_tails dk a total size start used count n !! k = Some t →
  t = mk_tail (start + Z.of_nat k * numDisks dk) (al_version a) (start + Z.of_nat (S k) * numDisks dk)
        (count + Z.of_nat k) (size - used - Z.of_nat k).
Proof.
  induction n as [|n IH]; intros start used count k t Hd Hs Hn Hk; [done|]. cbn [object_tails] in Hk.
  rewrite i32_id in Hk by nia. destruct k as [|k]; cbn in Hk.
  - injection Hk as <-. unfold determineSmartLength. f_equal; lia.
  - apply IH in Hk; [|done|lia|nia]. rewrite Hk. f_equal; lia.
Qed.

Lemma object_tails_length dk a total size n : ∀ start used count,
  length (object_tails dk a total size start used count n) = n.
Proof. induction n; intros; cbn; [done|by f_equal]. Qed.

Lemma object_tails_next dk a total size start used n :
  0 < numDisks dk → 0 ≤ start → start + Z.of_nat n * numDisks dk < 2 ^ 31 →
  default start (t_next <$> last (object_tails dk a total size start used 0 n)) = start + Z.of_nat n * numDisks dk.
Proof.
  intros Hd Hs Hn. destruct n as [|n]; [cbn; lia|]. destruct (last _) as [t|] eqn:Hl.
  - rewrite last_lookup, object_tails_length in Hl. apply object_tails_lookup in Hl; [|done..]. subst t. cbn. lia.
  - apply last_None in Hl. apply (f_equal length) in Hl. by rewrite object_tails_length in Hl.
Qed.

Lemma laid_app dk a size ts1 start used n total :
  0 < numDisks dk → laid dk a size ts1 → Z.of_nat (length ts1) = used → start = al_start a + used * numDisks dk →
  0 ≤ start → start + Z.of_nat n * numDisks dk < 2 ^ 31 →
  laid dk a size (ts1 ++ object_tails dk a total size start used 0 n).
Proof.
  intros Hd Hlaid Hused Hstart H0 Hn k t [Hk|[Hk Hkk]]%lookup_app_Some; [by apply Hlaid|].
  apply object_tails_lookup in Hkk; [|done..]. subst t. cbn. nia.
Qed.

(** The entries that the objects of a batch get, given their ways. *)
Fixpoint entries (dk : disks) (a : allocation) (size used : Z) (urls : list web_object) (ms : list Z) : list index_op :=
  match urls, ms with
  | o :: urls, m :: ms =>
      (if m =? -1 then []
       else [On (ob_hash o) (Store (Z.to_nat m) (ob_hash o) (al_start a + used * numDisks dk) (size - used) (al_version a))]) ++
      entries dk a size (used + Z.of_nat (ob_count o)) urls ms
  | _, _ => []
  end.

Lemma blocks_in_app us vs : blocks_in (us ++ vs) = blocks_in us + blocks_in vs.
Proof. unfold blocks_in. by rewrite fmap_app, sum_Z_app. Qed.
Lemma blocks_in_cons o us : blocks_in (o :: us) = Z.of_nat (ob_count o) + blocks_in us.
Proof. done. Qed.

Lemma entries_app dk a size us : ∀ ms u vs ns, length us = length ms →
  entries dk a size u (us ++ vs) (ms ++ ns) = entries dk a size u us ms ++ entries dk a size (u + blocks_in us) vs ns.
Proof.
  induction us as [|o us IH]; intros [|m ms] u vs ns Hl; try done.
  - cbn [app entries]. unfold blocks_in. cbn [fmap list_fmap]. f_equal. cbn. lia.
  - cbn [app entries]. rewrite blocks_in_cons, (IH ms) by (cbn in Hl; lia). rewrite <-app_assoc. do 3 f_equal. lia.
Qed.

(** The locations of the responses that have one. *)
Definition held (numSets : Z) (rs : list placed) : list location :=
  omap (λ r, if pl_match r =? -1 then None else Some (u32 (pl_hash r) mod numSets, pl_match r)) rs.

Lemma checkForFreeBlocks_ok ix l hash :
  index_ok ix → ∃ l' status m, checkForFreeBlocks ix l hash = Done (l', status, m) ∧
    ((status = 1 ∧ m = -1 ∧ l' = l) ∨
     ∃ n : nat, status = 0 ∧ m = Z.of_nat n ∧ (n < 8)%nat ∧ l !! (getSetFromHash ix hash, m) = None ∧
       l' = <[(getSetFromHash ix hash, m) := {| reads := 0; write := 1 |}]> l).
Proof.
  intros Hix. unfold checkForFreeBlocks, getSetHeader. pose proof (getSetFromHash_range ix hash Hix).
  rewrite (proj2 (Z.ltb_ge _ _)) by lia. destruct (set_lookup ix hash Hix) as (s & -> & _ & _). cbn [mbind outcome_bind].
  destruct (free_search_ok (λ i, lockOn l (getSetFromHash ix hash, Z.of_nat i)) s) as (m & -> & [[-> _]|(n & -> & Hn & Hfree & _)]);
    cbn [mbind outcome_bind].
  - eexists _, _, _. split; [done|]. by left.
  - rewrite (proj2 (Z.eqb_neq _ _)) by lia. unfold lockOn in Hfree. apply bool_decide_eq_false in Hfree.
    unfold addWriteLock. destruct (l !! _) eqn:Hl; [by destruct Hfree|]. eexists _, _, _. split; [done|]. right.
    by exists n.
Qed.

Section place.
Context (dk : disks) (a : allocation) (size : Z).
Hypothesis Hdisks : 0 < numDisks dk.
Hypothesis Hstart : 0 ≤ al_start a.
Hypothesis Hend : al_start a + size * numDisks dk < 2 ^ 31.

Record placing_ok (numSets : Z) (p : placing) : Prop := {
  po_index : index_ok (p_index p);
  po_sets : ix_numSets (p_index p) = numSets;
  po_start : p_start p = al_start a + p_used p * numDisks dk;
  po_length : Z.of_nat (length (p_tails p)) = p_used p;
  po_laid : laid dk a size (p_tails p)
}.

(** What an object adds to the locks. *)
Definition takes (numSets : Z) (l : locks) (r : placed) (l' : locks) : Prop :=
  (held numSets [r] = [] ∧ l' = l) ∨
  ∃ p, held numSets [r] = [p] ∧ l !! p = None ∧ l' = <[p := {| reads := 0; write := 1 |}]> l.

Lemma place_object_ok numSets p o :
  placing_ok numSets p → (0 < ob_count o)%nat → p_used p + Z.of_nat (ob_count o) ≤ size →
  ∃ p' r, place_object dk a size p o = Done p' ∧ placing_ok numSets p' ∧
    p_used p' = p_used p + Z.of_nat (ob_count o) ∧ p_responses p' = r :: p_responses p ∧ pl_hash r = ob_hash o ∧
    foldM run_index (p_index p) (entries dk a size (p_used p) [o] [pl_match r]) = Done (p_index p') ∧
    takes numSets (p_locks p) r (p_locks p').
Proof.
  intros [Hix Hsets Hst Hlen Hlaid] Hpos Hroom.
  assert (p_start p + Z.of_nat (ob_count o) * numDisks dk < 2 ^ 31) as Hb by nia.
  assert (0 ≤ p_start p) as H0 by nia.
  set (ts := object_tails dk a (Z.of_nat (ob_count o)) size (p_start p) (p_used p) 0 (ob_count o)).
  assert (∀ ix' l' m, index_ok ix' → ix_numSets ix' = numSets →
    placing_ok numSets (mk_placing ix' l' (default (p_start p) (t_next <$> last ts)) (p_used p + Z.of_nat (ob_count o))
      (p_tails p ++ ts) ({| pl_hash := ob_hash o; pl_match := m |} :: p_responses p))) as Hok.
  { intros ix' l' m H1 H2. split; cbn; [done|done| | |].
    - unfold ts. rewrite object_tails_next by done. lia.
    - rewrite length_app. unfold ts. rewrite object_tails_length. lia.
    - unfold ts. by apply laid_app. }
  unfold place_object. rewrite (proj2 (Z.eqb_neq (Z.of_nat _) 0)) by lia.
  destruct (checkForFreeBlocks_ok (p_index p) (p_locks p) (ob_hash o) Hix) as
    (l' & status & m & -> & [(-> & -> & ->)|(n & -> & -> & Hn & Hfree & ->)]); cbn [mbind outcome_bind Z.eqb].
  - eexists _, {| pl_hash := ob_hash o; pl_match := -1 |}. split; [reflexivity|].
    split_and!; [by apply Hok|done|done|done|done|by left].
  - destruct (run_index_on (p_index p) (ob_hash o) (Store n (ob_hash o) (p_start p) (size - p_used p) (al_version a)) Hix Hn)
      as (s & s' & ix' & _ & _ & _ & _ & Hrun & Hix' & Hn' & _). cbn [run_index] in Hrun.
    unfold determineSmartLength. rewrite Hrun. cbn [mbind outcome_bind].
    eexists _, {| pl_hash := ob_hash o; pl_match := Z.of_nat n |}. split; [reflexivity|].
    split_and!; [by apply Hok; [|congruence]|done|done|done| |].
    + cbn [entries pl_match app]. rewrite (proj2 (Z.eqb_neq _ _)) by lia. rewrite <-Hst, Nat2Z.id. cbn [app foldM run_index].
      by rewrite Hrun.
    + right. unfold held. cbn. rewrite (proj2 (Z.eqb_neq _ _)) by lia. unfold getSetFromHash in *. rewrite Hsets in *.
      by eexists.
Qed.

(** What the objects of a batch add to the locks. *)
Inductive takes_all (numSets : Z) : locks → list placed → locks → Prop :=
  | takes_nil l : takes_all numSets l [] l
  | takes_snoc l rs l1 r l2 : takes_all numSets l rs l1 → takes numSets l1 r l2 → takes_all numSets l (r :: rs) l2.

Lemma place_objects_ok numSets urls : ∀ p,
  placing_ok numSets p → Forall (λ o, (0 < ob_count o)%nat) urls → p_used p + blocks_in urls ≤ size →
  ∃ p' rs, foldM (place_object dk a size) p urls = Done p' ∧ placing_ok numSets p' ∧
    p_used p' = p_used p + blocks_in urls ∧ p_responses p' = rs ++ p_responses p ∧
    pl_hash <$> reverse rs = ob_hash <$> urls ∧
    foldM run_index (p_index p) (entries dk a size (p_used p) urls (pl_match <$> reverse rs)) = Done (p_index p') ∧
    takes_all numSets (p_locks p) rs (p_locks p').
Proof.
  induction urls as [|o urls IH] using rev_ind; intros p Hp Hpos Hroom.
  - exists p, []. split_and!; try done; [unfold blocks_in; cbn; lia|constructor].
  - apply Forall_app in Hpos as [Hpos [Ho _]%Forall_cons].
    assert (blocks_in (urls ++ [o]) = blocks_in urls + Z.of_nat (ob_count o)) as Hsum.
    { rewrite blocks_in_app. unfold blocks_in at 2. cbn. lia. }
    rewrite Hsum in *.
    destruct (IH p Hp Hpos) as (p1 & rs & Hrun & Hp1 & Hused & Hresp & Hhash & Hent & Htakes); [lia|].
    destruct (place_object_ok numSets p1 o Hp1 Ho) as (p' & r & Hrun' & Hp' & Hused' & Hresp' & Hhash' & Hent' & Htake);
      [lia|].
    exists p', (r :: rs). rewrite foldM_app, Hrun. cbn [mbind outcome_bind foldM]. rewrite Hrun'.
    split_and!; [done|done|lia|by rewrite Hresp', Hresp| | |by eapply takes_snoc].
    + rewrite reverse_cons, !fmap_app, Hhash. cbn. by rewrite Hhash'.
    + rewrite reverse_cons, fmap_app.
      rewrite entries_app.
      * rewrite foldM_app, Hent. cbn [mbind outcome_bind]. by rewrite <-Hused.
      * rewrite length_fmap. apply (f_equal length) in Hhash. by rewrite !length_fmap in Hhash.
Qed.
End place.

(** ** Locks that a batch takes *)

Lemma held_place_cons numSets r rs : held numSets (r :: rs) = held numSets [r] ++ held numSets rs.
Proof. unfold held. cbn. by destruct (_ =? _). Qed.

Lemma held_app numSets rs1 rs2 : held numSets (rs1 ++ rs2) = held numSets rs1 ++ held numSets rs2.
Proof. apply omap_app. Qed.

Lemma takes_all_ok numSets l rs l' :
  takes_all numSets l rs l' →
  (∀ p, is_Some (l !! p) → is_Some (l' !! p)) ∧ NoDup (held numSets rs) ∧
  ∀ p, p ∈ held numSets rs → l !! p = None ∧ is_Some (l' !! p).
Proof.
  induction 1 as [l|l rs l1 r l2 _ (Hkeep & Hnodup & Hheld) Htake].
  - split_and!; [done|constructor|]. intros p Hp. by apply elem_of_nil in Hp.
  - rewrite held_place_cons. destruct Htake as [[-> ->]|(p & -> & Hp & ->)]; [done|]. cbn [app].
    assert (∀ q, is_Some (l1 !! q) → is_Some (<[p := {| reads := 0; write := 1 |}]> l1 !! q)) as Hmore.
    { intros q Hq. destruct (decide (p = q)) as [->|Hne]; [by rewrite lookup_insert_eq|by rewrite lookup_insert_ne]. }
    split_and!; [auto| |].
    + constructor; [|done]. intros Hin. destruct (Hheld p Hin) as [_ [c Hc]]. congruence.
    + intros q [->|Hq]%elem_of_cons.
      * split; [|by rewrite lookup_insert_eq]. apply eq_None_not_Some. intros Hl. destruct (Hkeep p Hl). congruence.
      * destruct (Hheld q Hq). auto.
Qed.

Lemma mjoin_insert {A} (ls : list (list A)) i old new :
  ls !! i = Some old → mjoin (<[i := new ++ old]> ls) ≡ₚ new ++ mjoin ls.
Proof.
  intros Hi. rewrite <-(take_drop_middle ls i old Hi) at 2. rewrite insert_take_drop by (by eapply lookup_lt_Some).
  rewrite !join_app. cbn. rewrite <-!app_assoc. by rewrite !app_assoc, (Permutation_app_comm (mjoin _) new).
Qed.

(** ** Batches *)

Section batches.
Context (dk : disks) (room : Z).
Hypothesis Hdisks : 0 < numDisks dk.
Hypothesis Hfits : numDisks dk + room * numDisks dk ≤ REM_FILE_SIZE dk.
Hypothesis Hint : REM_FILE_SIZE dk + numDisks dk + room * numDisks dk < 2 ^ 31.
Hypothesis Hroom : 0 < room < 2 ^ 30.

Record writer_ok (w : writer) : Prop := {
  wo_log : log_ok dk (w_log w);
  wo_index : index_ok (w_index w);
  wo_lists : Z.of_nat (length (blockLists w)) = numDisks dk;
  wo_responses : Z.of_nat (length (presentResponseBatch w)) = numDisks dk;
  wo_offsets : Z.of_nat (length (totalBatchOffsets w)) = numDisks dk
}.

(** A batch of objects that have blocks, counted right. *)
Record batch_ok (b : relOb) : Prop := {
  bo_size : ro_size b = blocks_in (ro_urls b);
  bo_counts : Forall (λ o, (0 < ob_count o)%nat) (ro_urls b);
  bo_room : 0 ≤ ro_size b ≤ room
}.

(** The effect of a batch. *)
Record batch_done (w : writer) (b : relOb) (a : allocation) (ts : list tail) (rs : list placed) (w' : writer) : Prop := {
  bd_alloc : getFromOneDisk dk (beginAllocCycle dk (w_log w)) (ro_size b) = Done (w_log w', a);
  bd_ok : alloc_ok dk a;
  bd_version : al_version a = presentRemVersion (w_log w');
  bd_log : ∃ offsets, presentRemOffsets (w_log w') = <[Z.to_nat (al_disk a) := al_start a + ro_size b * numDisks dk]> offsets ∧
    offsets !! Z.to_nat (al_disk a) = Some (al_start a) ∧
    ((presentRemVersion (w_log w') = presentRemVersion (w_log w) ∧ offsets = presentRemOffsets (w_log w)) ∨
     presentRemVersion (w_log w') = presentRemVersion (w_log w) + 1);
  bd_laid : laid dk a (ro_size b) ts;
  bd_length : Z.of_nat (length ts) = ro_size b;
  bd_lists : ∃ blocks, blockLists w !! Z.to_nat (al_disk a) = Some blocks ∧
    blockLists w' = <[Z.to_nat (al_disk a) := blocks ++ ts]> (blockLists w);
  bd_responses : ∃ waiting, presentResponseBatch w !! Z.to_nat (al_disk a) = Some waiting ∧
    presentResponseBatch w' = <[Z.to_nat (al_disk a) := rs ++ waiting]> (presentResponseBatch w);
  bd_offsets : ∃ offset, totalBatchOffsets w !! Z.to_nat (al_disk a) = Some offset ∧
    totalBatchOffsets w' = (if offset =? -1 then <[Z.to_nat (al_disk a) := al_start a]> (totalBatchOffsets w)
                            else totalBatchOffsets w) ∧
    presentBatchVersion w' = (if offset =? -1 then al_version a else presentBatchVersion w) ∧
    versionChange w' = (if presentBatchVersion w' =? al_version a then versionChange w else true);
  bd_hashes : pl_hash <$> reverse rs = ob_hash <$> ro_urls b;
  bd_entries : foldM run_index (w_index w) (entries dk a (ro_size b) 0 (ro_urls b) (pl_match <$> reverse rs)) = Done (w_index w');
  bd_locks : takes_all (ix_numSets (w_index w)) (w_locks w) rs (w_locks w');
  bd_sets : ix_numSets (w_index w') = ix_numSets (w_index w);
  bd_used : totalBlocksUsed w' = totalBlocksUsed w + ro_size b
}.

Lemma process_batch_ok w b :
  writer_ok w → batch_ok b → presentRemVersion (w_log w) + 1 < 2 ^ 31 →
  ∃ w' a ts rs, process_batch dk w b = Done w' ∧ writer_ok w' ∧ batch_done w b a ts rs w'.
Proof.
  intros [Hlog Hix Hbl Hpr Hto] [Hsize Hcounts Hbr] Hv.
  destruct (begin_ok dk Hdisks (w_log w) Hlog) as (Hlog0 & Hv0 & Ho0).
  destruct (getFromOneDisk_ok dk room Hdisks Hfits Hint Hroom (beginAllocCycle dk (w_log w)) (ro_size b) Hlog0 Hbr) as
    (log & a & news & Hget & Hlog' & Ha & Hblocks & Hver & _ & Hnew & Hst & Hcase); [by rewrite Hv0|].
  pose proof (disk_index dk Hdisks a Ha) as Hd. pose proof (ao_start _ _ Ha). pose proof (ao_end _ _ Ha) as Hend.
  rewrite Hblocks in Hend.
  destruct (lookup_lt_is_Some_2 (blockLists w) (Z.to_nat (al_disk a))) as [blocks Hblocks']; [lia|].
  destruct (lookup_lt_is_Some_2 (presentResponseBatch w) (Z.to_nat (al_disk a))) as [waiting Hwaiting]; [lia|].
  destruct (lookup_lt_is_Some_2 (totalBatchOffsets w) (Z.to_nat (al_disk a))) as [offset Hoffset]; [lia|].
  assert (∀ A (l : list A) x, l !! Z.to_nat (al_disk a) = Some x → get_at l (al_disk a) = Done x) as Hat.
  { intros A l x Hx. unfold get_at. rewrite (proj2 (Z.ltb_ge _ _)) by lia. by apply get_Done. }
  destruct (place_objects_ok dk a (ro_size b) Hdisks (ao_start _ _ Ha) ltac:(lia) (ix_numSets (w_index w)) (ro_urls b)
    (mk_placing (w_index w) (w_locks w) (al_start a) 0 [] waiting)) as
    (p & rs & Hplace & [Hpi Hps _ Hpl Hplaid] & Hused & Hresp & Hhash & Hent & Htakes).
  { split; cbn; [done|done|lia|done|intros k t Hk; done]. }
  { done. }
  { cbn. lia. }
  cbn [p_used p_responses p_index p_locks] in *.
  unfold process_batch. rewrite Hget. cbn [mbind outcome_bind]. rewrite (Hat _ _ _ Hoffset), (Hat _ _ _ Hwaiting), (Hat _ _ _ Hblocks').
  cbn [mbind outcome_bind]. unfold put.
  set (offsets := if offset =? -1 then <[Z.to_nat (al_disk a) := al_start a]> (totalBatchOffsets w) else totalBatchOffsets w).
  assert ((if offset =? -1 then if decide (Z.to_nat (al_disk a) < length (totalBatchOffsets w))%nat
             then Done (<[Z.to_nat (al_disk a) := al_start a]> (totalBatchOffsets w)) else Fault OutOfBounds
           else Done (totalBatchOffsets w)) = Done offsets) as ->.
  { unfold offsets. destruct (offset =? -1); [|done]. by rewrite decide_True by lia. }
  cbn [mbind outcome_bind]. rewrite Hplace. cbn [mbind outcome_bind].
  rewrite !decide_True by lia. cbn [mbind outcome_bind].
  eexists _, a, (p_tails p), rs. split; [reflexivity|]. split.
  - split; cbn; rewrite ?length_insert; [done..|]. unfold offsets. destruct (offset =? -1); by rewrite ?length_insert.
  - split; cbn; [done|done|done| |done|lia|by exists blocks|exists waiting; by rewrite Hresp|by exists offset|done|done|done|done|done].
    exists news. split_and!; [done|done|]. rewrite Hv0, Ho0 in Hcase. destruct Hcase as [[H1 H2]|[H1 _]]; [by left|by right].
Qed.

(** What waits for a disk is one piece of the log, and the next allocation of
    the disk continues it. *)
Definition in_place (w : writer) : Prop :=
  ∀ i blocks offset next, blockLists w !! i = Some blocks → totalBatchOffsets w !! i = Some offset →
    presentRemOffsets (w_log w) !! i = Some next →
    (offset = -1 ∧ blocks = []) ∨
    (0 ≤ offset ∧ presentBatchVersion w = presentRemVersion (w_log w) ∧
     offset + Z.of_nat (length blocks) * numDisks dk = next ∧
     ∀ k t, blocks !! k = Some t → t_pres t = offset + Z.of_nat k * numDisks dk ∧ t_version t = presentRemVersion (w_log w)).

Lemma batch_in_place w b a ts rs w' :
  writer_ok w → batch_done w b a ts rs w' →
  (numDisks dk = 1 ∨ presentRemVersion (w_log w') = presentRemVersion (w_log w)) →
  versionChange w = true ∨ in_place w → versionChange w' = true ∨ in_place w'.
Proof.
  intros Hw Hdone Hsame Hold. destruct Hdone as [_ Ha Hver (news & Hnext & Hst & Hcase) Hlaid Hlen
    (blocks & Hb & Hb') _ (offset & Ho & Ho' & Hpv & Hvc) _ _ _ _ _].
  pose proof (disk_index dk Hdisks a Ha) as Hd. set (d := Z.to_nat (al_disk a)) in *.
  destruct (Z.eqb_spec (presentBatchVersion w') (al_version a)) as [Heq|Hne]; [|by left].
  destruct Hold as [Hold|Hold]; [left; congruence|right]. intros i bl off nxt Hbl Hoff Hnxt.
  rewrite Hb' in Hbl. rewrite Hnext in Hnxt. destruct (decide (i = d)) as [->|Hi].
  - rewrite list_lookup_insert_eq in Hbl by (by eapply lookup_lt_Some). injection Hbl as <-.
    rewrite list_lookup_insert_eq in Hnxt by (by eapply lookup_lt_Some). injection Hnxt as <-.
    right. destruct (Z.eqb_spec offset (-1)) as [->|Hoff1].
    + rewrite Ho' in Hoff. rewrite list_lookup_insert_eq in Hoff by (by eapply lookup_lt_Some). injection Hoff as <-.
      assert (blocks = []) as ->.
      { destruct (lookup_lt_is_Some_2 (presentRemOffsets (w_log w)) d) as [n Hn].
        { pose proof (lo_length _ _ (wo_log _ Hw)). lia. }
        destruct (Hold d blocks (-1) n Hb Ho Hn) as [[_ ?]|[? _]]; [done|lia]. }
      cbn [app]. split_and!; [apply Ha|by rewrite Hpv|lia|].
      intros k t Hk. destruct (Hlaid k t Hk) as (-> & _ & -> & _). done.
    + rewrite Ho' in Hoff. rewrite Ho in Hoff. injection Hoff as <-.
      destruct (lookup_lt_is_Some_2 (presentRemOffsets (w_log w)) d) as [n Hn].
      { pose proof (lo_length _ _ (wo_log _ Hw)). lia. }
      destruct (Hold d blocks offset n Hb Ho Hn) as [[? _]|(H0 & Hpvr & Hpiece & Hblocks)]; [lia|].
      destruct Hcase as [[Hv ->]|Hv]; [|exfalso; lia].
      rewrite Hst in Hn. injection Hn as <-.
      split_and!; [done|congruence|rewrite length_app; lia|].
      intros k t [Hk|[Hk Hkk]]%lookup_app_Some.
      * destruct (Hblocks k t Hk) as [-> ->]. split; [done|congruence].
      * destruct (Hlaid _ t Hkk) as (-> & _ & -> & _). split; [|done]. rewrite <-Hpiece, Nat2Z.inj_sub by done. lia.
  - assert (numDisks dk = 1 → False) as Hnot1.
    { intros H1. apply lookup_lt_Some in Hbl. rewrite length_insert in Hbl. pose proof (wo_lists _ Hw). lia. }
    destruct Hsame as [?|Hsame]; [done|]. destruct Hcase as [[_ ->]|Hv]; [|lia].
    rewrite list_lookup_insert_ne in Hbl by done. rewrite list_lookup_insert_ne in Hnxt by done.
    assert (totalBatchOffsets w !! i = Some off) as Hoff0.
    { rewrite Ho' in Hoff. destruct (offset =? -1); [by rewrite list_lookup_insert_ne in Hoff|done]. }
    destruct (Hold i bl off nxt Hbl Hoff0 Hnxt) as [?|(H0 & Hpvr & Hpiece & Hblocks)]; [by left|right].
    rewrite Hsame. split_and!; [done|congruence|done|done].
Qed.

(** The responses that wait have locations of their own, all locked. *)
Definition waiting_ok (l0 : locks) (w : writer) : Prop :=
  let places := held (ix_numSets (w_index w)) (mjoin (presentResponseBatch w)) in
  NoDup places ∧ (∀ p, is_Some (l0 !! p) → is_Some (w_locks w !! p)) ∧
  ∀ p, p ∈ places → l0 !! p = None ∧ is_Some (w_locks w !! p).

Lemma batch_waiting l0 w b a ts rs w' : batch_done w b a ts rs w' → waiting_ok l0 w → waiting_ok l0 w'.
Proof.
  intros Hdone (Hnodup & Hkeep & Hheld). destruct Hdone as [_ _ _ _ _ _ _ (old & Hold & Hnew) _ _ _ Htakes Hsets _].
  destruct (takes_all_ok _ _ _ _ Htakes) as (Hkeep' & Hnodup' & Hheld').
  unfold waiting_ok. rewrite Hsets, Hnew.
  assert (held (ix_numSets (w_index w)) (mjoin (<[Z.to_nat (al_disk a) := rs ++ old]> (presentResponseBatch w))) ≡ₚ
    held (ix_numSets (w_index w)) rs ++ held (ix_numSets (w_index w)) (mjoin (presentResponseBatch w))) as Hperm.
  { rewrite <-held_app. unfold held. by rewrite (mjoin_insert _ _ _ rs Hold). }
  split_and!; [|auto|].
  - rewrite Hperm. apply NoDup_app. split_and!; [done| |done]. intros p Hp1 Hp2.
    destruct (Hheld' p Hp1) as [Hnone _]. destruct (Hheld p Hp2) as [_ [c Hc]]. congruence.
  - intros p. rewrite Hperm. intros [Hp|Hp]%elem_of_app.
    + destruct (Hheld' p Hp) as [Hnone Hsome]. split; [|done]. apply eq_None_not_Some. intros Hl.
      destruct (Hkeep p Hl). congruence.
    + destruct (Hheld p Hp). auto.
Qed.

Lemma process_batches_ok bs : ∀ w,
  writer_ok w → Forall batch_ok bs → presentRemVersion (w_log w) + Z.of_nat (length bs) < 2 ^ 31 →
  ∃ w', foldM (process_batch dk) w bs = Done w' ∧ writer_ok w' ∧
    presentRemVersion (w_log w) ≤ presentRemVersion (w_log w') ∧
    ((numDisks dk = 1 ∨ presentRemVersion (w_log w') = presentRemVersion (w_log w)) →
     versionChange w = true ∨ in_place w → versionChange w' = true ∨ in_place w') ∧
    (∀ l0, waiting_ok l0 w → waiting_ok l0 w').
Proof.
  induction bs as [|b bs IH]; intros w Hw Hbs Hv.
  - exists w. split_and!; done || lia.
  - apply Forall_cons in Hbs as [Hb Hbs]. cbn [length] in Hv.
    destruct (process_batch_ok w b Hw Hb) as (w1 & a & ts & rs & Hrun & Hw1 & Hdone); [lia|].
    destruct (bd_log _ _ _ _ _ _ Hdone) as (news & _ & _ & Hver).
    destruct (IH w1 Hw1 Hbs) as (w' & Hrun' & Hw' & Hle & Hplace & Hwait); [destruct Hver as [[? _]|?]; lia|].
    exists w'. cbn [foldM]. rewrite Hrun. cbn [mbind outcome_bind]. split_and!; [done|done|destruct Hver as [[? _]|?]; lia| |].
    + intros Hsame Hold. apply Hplace.
      * destruct Hsame as [?|?]; [by left|right]. destruct Hver as [[? _]|?]; lia.
      * apply (batch_in_place w b a ts rs w1 Hw Hdone); [|done].
        destruct Hsame as [?|?]; [by left|right]. destruct Hver as [[? _]|?]; lia.
    + intros l0 Hl0. apply Hwait. by eapply batch_waiting.
Qed.
End batches.

(** ** Splitting *)

(** Objects of up to 312 blocks, the limit for a length known beforehand being
    128 and for one that is not 128 when it is checked. *)
Definition small (o : web_object) : Prop := (0 < ob_count o <= 312)%nat.

Definition queued (q : list relOb) : Z := sum_Z (ro_size <$> q).

Lemma blocks_nonneg urls : 0 ≤ blocks_in urls.
Proof. apply sum_Z_nonneg, Forall_fmap, Forall_forall. intros o _. cbn. lia. Qed.

Lemma split_off_ok urls : ∀ newSize size,
  Forall small urls → newSize < MAX_BATCH_SIZE →
  ∃ moved rest, split_off urls newSize size = (moved, rest, newSize + blocks_in moved, size - blocks_in moved) ∧
    urls = moved ++ rest ∧ newSize + blocks_in moved < MAX_BATCH_SIZE + 312 ∧ (urls ≠ [] → moved ≠ []).
Proof.
  induction urls as [|o urls IH]; intros ns sz Hsmall Hns.
  - exists [], []. unfold blocks_in. cbn. split_and!; [by rewrite Z.add_0_r, Z.sub_0_r|done|lia|done].
  - apply Forall_cons in Hsmall as [Ho Hsmall]. unfold small in Ho. cbn [split_off].
    rewrite (proj2 (Z.ltb_lt _ _)) by done.
    destruct (decide (ns + Z.of_nat (ob_count o) < MAX_BATCH_SIZE)) as [Hlt|Hge].
    + destruct (IH (ns + Z.of_nat (ob_count o)) (sz - Z.of_nat (ob_count o)) Hsmall Hlt) as (moved & rest & -> & -> & Hb & _).
      exists (o :: moved), rest. rewrite blocks_in_cons. split_and!; [f_equal; [f_equal; lia|lia]|done|lia|done].
    + exists [o], urls. assert (split_off urls (ns + Z.of_nat (ob_count o)) (sz - Z.of_nat (ob_count o)) =
        ([], urls, ns + Z.of_nat (ob_count o), sz - Z.of_nat (ob_count o))) as ->.
      { destruct urls; [done|]. cbn [split_off]. by rewrite (proj2 (Z.ltb_ge _ _)) by lia. }
      rewrite blocks_in_cons. unfold blocks_in. cbn. split_and!; [f_equal; [f_equal; lia|lia]|done|lia|done].
Qed.

(** A batch of small objects, counted right. *)
Definition counted (b : relOb) : Prop := ro_size b = blocks_in (ro_urls b) ∧ Forall small (ro_urls b).

Lemma split_batch_ok fuel : ∀ b,
  counted b → 0 < ro_size b → (length (ro_urls b) < fuel)%nat →
  ∃ b' more, split_batch fuel b = Done (b', more) ∧ counted b' ∧ ro_size b' ≤ MAX_BATCH_SIZE ∧
    Forall (λ m, counted m ∧ ro_size m < MAX_BATCH_SIZE + 312) more ∧
    ro_size b' + queued more = ro_size b ∧ (length more ≤ length (ro_urls b))%nat.
Proof.
  induction fuel as [|fuel IH]; intros [urls size] [Hsize Hsmall] Hpos Hfuel; [lia|]. cbn [ro_urls ro_size] in *.
  cbn [split_batch ro_urls ro_size].
  destruct (split_off_ok urls 0 size Hsmall) as (moved & rest & -> & -> & Hb & Hne); [unfold MAX_BATCH_SIZE; lia|].
  assert (moved ++ rest ≠ []) as Hnil by (intros Heq; rewrite Heq in Hsize; unfold blocks_in in Hsize; cbn in Hsize; lia).
  specialize (Hne Hnil). rewrite blocks_in_app in Hsize. apply Forall_app in Hsmall as [Hm Hr]. rewrite Z.add_0_l in *.
  assert (0 < length moved)%nat as Hlm by (destruct moved; [done|cbn; lia]). rewrite length_app in *.
  assert (counted {| ro_urls := moved; ro_size := blocks_in moved |}) as Hcm by done.
  assert (counted {| ro_urls := rest; ro_size := size - blocks_in moved |}) as Hcr
    by (split; [cbn [ro_size ro_urls]; lia|done]).
  destruct (Z.ltb_spec MAX_BATCH_SIZE (size - blocks_in moved)) as [Hmore|Hdone].
  - destruct (IH {| ro_urls := rest; ro_size := size - blocks_in moved |} Hcr) as
      (b' & more & -> & Hb' & Hmax & Hall & Hq & Hlen); cbn [ro_size ro_urls] in *; [unfold MAX_BATCH_SIZE in *; lia|lia|].
    cbn [mbind outcome_bind]. exists b', ({| ro_urls := moved; ro_size := blocks_in moved |} :: more).
    split_and!; [done|done|done|by constructor| |cbn; lia].
    unfold queued in *. change (sum_Z (ro_size <$> ?x :: more)) with (ro_size x + sum_Z (ro_size <$> more)).
    cbn [ro_size]. lia.
  - exists {| ro_urls := rest; ro_size := size - blocks_in moved |}, [{| ro_urls := moved; ro_size := blocks_in moved |}].
    split_and!; [done|done|done|by constructor| |cbn; lia].
    unfold queued. cbn [fmap list_fmap ro_size]. unfold sum_Z. cbn [foldr]. lia.
Qed.

(** How many batches a queue can become. *)
Definition weight (dk : disks) (q : list relOb) : nat :=
  sum_list ((λ b, if writeBufferSize dk <? ro_size b then S (length (ro_urls b)) else 1%nat) <$> q).

Lemma weight_app dk q1 q2 : weight dk (q1 ++ q2) = (weight dk q1 + weight dk q2)%nat.
Proof. unfold weight. rewrite fmap_app. induction (_ <$> q1) as [|x l IH]; cbn; lia. Qed.

Lemma queued_app q1 q2 : queued (q1 ++ q2) = queued q1 + queued q2.
Proof. unfold queued. by rewrite fmap_app, sum_Z_app. Qed.

Section queue.
Context (dk : disks).
Hypothesis Hdisks : 0 < numDisks dk.
Hypothesis Hfits : numDisks dk + writeBufferSize dk * numDisks dk ≤ REM_FILE_SIZE dk.
Hypothesis Hint : REM_FILE_SIZE dk + numDisks dk + writeBufferSize dk * numDisks dk < 2 ^ 31.
Hypothesis Hroom : writeBufferSize dk < 2 ^ 30.

Lemma batch_room : 512 ≤ writeBufferSize dk.
Proof. unfold writeBufferSize. lia. Qed.

(** What the loop does to the head of the queue before it is placed. *)
Lemma split_head b :
  counted b → ∃ b' more,
    (if writeBufferSize dk <? ro_size b then split_batch (S (length (ro_urls b))) b else Done (b, [])) = Done (b', more) ∧
    counted b' ∧ ro_size b' ≤ writeBufferSize dk ∧ Forall (λ m, counted m ∧ ro_size m ≤ writeBufferSize dk) more ∧
    ro_size b' + queued more = ro_size b ∧ (S (weight dk more) ≤ weight dk [b])%nat.
Proof.
  intros Hb. pose proof batch_room. assert (∀ q, Forall (λ m, counted m ∧ ro_size m ≤ writeBufferSize dk) q → weight dk q = length q) as Hw.
  { induction 1 as [|m q [_ Hm] _ IH]; [done|]. unfold weight in *. cbn. rewrite (proj2 (Z.ltb_ge _ _)) by done. lia. }
  destruct (Z.ltb_spec (writeBufferSize dk) (ro_size b)) as [Hbig|Hfit].
  - destruct (split_batch_ok (S (length (ro_urls b))) b Hb) as (b' & more & -> & Hb' & Hmax & Hall & Hq & Hlen); [lia|lia|].
    assert (Forall (λ m, counted m ∧ ro_size m ≤ writeBufferSize dk) more) as Hall'.
    { eapply Forall_impl; [done|]. intros m [? ?]. split; [done|]. unfold MAX_BATCH_SIZE in *. lia. }
    exists b', more. split_and!; [done|done|unfold MAX_BATCH_SIZE in *; lia|done|done|].
    rewrite Hw by done. unfold weight. cbn. rewrite (proj2 (Z.ltb_lt _ _)) by done. lia.
  - exists b, []. split_and!; [done|done|done|constructor|unfold queued; cbn; lia|].
    unfold weight. cbn. destruct (_ <? _); lia.
Qed.

Lemma formDiskBatches_ok fuel : ∀ w q,
  writer_ok dk w → Forall counted q → (weight dk q < fuel)%nat →
  presentRemVersion (w_log w) + Z.of_nat (weight dk q) < 2 ^ 31 → totalBlocksUsed w ≤ writeBufferSize dk →
  ∃ w' left ready, formDiskBatches fuel dk w q = Done (w', left, ready) ∧ writer_ok dk w' ∧ Forall counted left ∧
    (ready = false → left = []) ∧ totalBlocksUsed w' + queued left = totalBlocksUsed w + queued q ∧
    totalBlocksUsed w' ≤ writeBufferSize dk.
Proof.
  pose proof batch_room as H512.
  induction fuel as [|fuel IH]; intros w q Hw Hq Hfuel Hv Hused; [lia|]. destruct q as [|b q].
  { exists w, [], false. by split_and!. }
  apply Forall_cons in Hq as [Hb Hq]. change (b :: q) with ([b] ++ q) in Hfuel, Hv. rewrite weight_app in Hfuel, Hv.
  cbn [formDiskBatches]. destruct (split_head b Hb) as (b' & more & -> & Hb' & Hfit & Hmore & Hsum & Hweight).
  cbn [mbind outcome_bind].
  assert (Forall counted (q ++ more)) as Hrest.
  { apply Forall_app. split; [done|]. eapply Forall_impl; [done|]. by intros m [? _]. }
  assert (queued (b :: q) = ro_size b + queued q) as Hqb by done.
  destruct (Z.ltb_spec (writeBufferSize dk) (totalBlocksUsed w + ro_size b')) as [Hfull|Hroom'].
  - exists w, (b' :: q ++ more), true. split_and!; [done|done|by constructor|done| |done].
    change (queued (b' :: q ++ more)) with (ro_size b' + queued (q ++ more)). rewrite queued_app. lia.
  - assert (batch_ok (writeBufferSize dk) b') as Hbok.
    { destruct Hb' as [Hs Hsm]. split; [done| |].
      - eapply Forall_impl; [done|]. intros o. unfold small. lia.
      - rewrite Hs. pose proof (blocks_nonneg (ro_urls b')). lia. }
    destruct (process_batch_ok dk (writeBufferSize dk) Hdisks Hfits Hint ltac:(lia) w b' Hw Hbok) as
      (w1 & a & ts & rs & Hrun & Hw1 & Hdone); [lia|]. rewrite Hrun. cbn [mbind outcome_bind].
    pose proof (bd_used _ _ _ _ _ _ _ Hdone) as Hused1. destruct (bd_log _ _ _ _ _ _ _ Hdone) as (news & _ & _ & Hver).
    destruct (IH w1 (q ++ more) Hw1 Hrest) as (w' & left & ready & -> & Hw' & Hleft & Hready & Hcons & Hle).
    + rewrite weight_app. lia.
    + rewrite weight_app. destruct Hver as [[-> _]| ->]; lia.
    + lia.
    + exists w', left, ready. split_and!; [done|done|done|done| |done]. rewrite Hcons, queued_app. lia.
Qed.
End queue.

(** The writer as [initHCFS] and init.c leave it; the arrays of lists have one
    more there, which nothing uses. *)
Definition start_writer (dk : disks) (ix : index) : writer :=
  let offsets := Z.of_nat <$> seq 0 (Z.to_nat (numDisks dk)) in
  let n := Z.to_nat (numDisks dk) in
  mk_writer (mk_hcfs 0 offsets 0 0 offsets) ix ∅ (replicate n []) (replicate n []) (replicate n (-1)) 0 false 0.

Lemma start_writer_ok dk room ix :
  0 < numDisks dk → numDisks dk + room * numDisks dk ≤ REM_FILE_SIZE dk →
  REM_FILE_SIZE dk + numDisks dk + room * numDisks dk < 2 ^ 31 → 0 < room < 2 ^ 30 →
  index_ok ix → writer_ok dk (start_writer dk ix).
Proof.
  intros. split; cbn; rewrite ?length_replicate; [|done|lia..]. by destruct (history_start dk room) as [Hlog _ _ _].
Qed.

(** Nothing waits to be written. *)
Definition flushed (w : writer) : Prop :=
  Forall (λ blocks, blocks = []) (blockLists w) ∧ Forall (λ rs, rs = []) (presentResponseBatch w) ∧
  Forall (λ o, o = -1) (totalBatchOffsets w) ∧ versionChange w = false.

Lemma flushed_in_place dk w : flushed w → in_place dk w.
Proof.
  intros (Hb & _ & Ho & _) i blocks offset next Hbl Hof _. left.
  split; [exact (proj1 (Forall_lookup _ _) Ho _ _ Hof)|exact (proj1 (Forall_lookup _ _) Hb _ _ Hbl)].
Qed.

Lemma flushed_waiting w : flushed w → waiting_ok (w_locks w) w.
Proof.
  intros (_ & Hr & _ & _). unfold waiting_ok. assert (mjoin (presentResponseBatch w) = []) as ->.
  { induction Hr as [|x l -> _ IH]; cbn; done. }
  split_and!; [constructor|done|]. intros p Hp. by apply elem_of_nil in Hp.
Qed.

Lemma start_writer_flushed dk ix : flushed (start_writer dk ix).
Proof. by split_and!; [apply Forall_replicate..|]. Qed.

(** Two disks, with a set, and a batch of two objects. *)
Definition two_disks : disks := {| numDisks := 2; REM_FILE_SIZE := 40; hcFds := [7; 8] |}.
Definition two_objects : relOb :=
  {| ro_urls := [{| ob_hash := 5; ob_count := 2 |}; {| ob_hash := 6; ob_count := 3 |}]; ro_size := 5 |}.

Lemma two_objects_ok : batch_ok 10 two_objects.
Proof. split; [done| |cbn; lia]. repeat constructor. Qed.

Lemma two_disks_ok : writer_ok two_disks (start_writer two_disks first_index).
Proof. apply start_writer_ok with 10; [done|done|done|done|apply first_index_ok]. Qed.

(** ** Claims *)





(** The objects whose writes are pending have entries of their own in the
    index: no two share a set and way, none has the way of an object that was
    locked before, and all of them are locked. *)
Theorem pending_writes_have_distinct_entries (dk : disks) (room : Z) (w : writer) (bs : list relOb) :
  0 < numDisks dk → numDisks dk + room * numDisks dk ≤ REM_FILE_SIZE dk →
  REM_FILE_SIZE dk + numDisks dk + room * numDisks dk < 2 ^ 31 → 0 < room < 2 ^ 30 →
  writer_ok dk w → flushed w → Forall (batch_ok room) bs → presentRemVersion (w_log w) + Z.of_nat (length bs) < 2 ^ 31 →
  ∃ w', foldM (process_batch dk) w bs = Done w' ∧
    let places := held (ix_numSets (w_index w')) (mjoin (presentResponseBatch w')) in
    NoDup places ∧ ∀ p, p ∈ places → lockOn (w_locks w) p = false ∧ lockOn (w_locks w') p = true.
Proof.
  intros Hd Hfit Hint Hroom Hw Hflushed Hbs Hv.
  destruct (process_batches_ok dk room Hd Hfit Hint Hroom bs w Hw Hbs Hv) as (w' & Hrun & _ & _ & _ & Hwait).
  destruct (Hwait _ (flushed_waiting w Hflushed)) as (Hnodup & _ & Hheld).
  exists w'. split; [done|]. split; [done|]. intros p Hp. destruct (Hheld p Hp) as [Hnone Hsome].
  unfold lockOn. split; [by rewrite Hnone|by apply bool_decide_eq_true].
Qed.

Lemma pending_writes_have_distinct_entries_witness :
  let w := start_writer two_disks first_index in
  ∃ w', foldM (process_batch two_disks) w [two_objects; two_objects] = Done w' ∧
    let places := held (ix_numSets (w_index w')) (mjoin (presentResponseBatch w')) in
    NoDup places ∧ ∀ p, p ∈ places → lockOn (w_locks w) p = false ∧ lockOn (w_locks w') p = true.
Proof.
  apply (pending_writes_have_distinct_entries two_disks 10); try done; [apply two_disks_ok|apply start_writer_flushed|].
  repeat constructor; apply two_objects_ok.
Defined.

(** When the log starts again between the batches of a flush, objects are
    found in the index that were not written.  With two disks the change can go
    unseen, because the first batch of the second disk sets the version that
    the next ones are compared with: an object that the index has at block 0
    is written at block 12.  With one disk the change is seen and nothing of
    the flush is written, but its objects stay in the index. *)
Theorem version_change_loses_writes :
  let dk n := {| numDisks := n; REM_FILE_SIZE := 40; hcFds := [7; 8] |} in
  let object h n := {| ro_urls := [{| ob_hash := h; ob_count := n |}]; ro_size := Z.of_nat n |} in
  (∃ w w' ix r t, foldM (process_batch (dk 2)) (start_writer (dk 2) first_index) [object 1 3%nat; object 2 15%nat] = Done w ∧
     foldM (process_batch (dk 2)) (flush w).1 [object 3 3%nat; object 4 8%nat; object 5 3%nat] = Done w' ∧
     search_index (w_index w') (dk 2) (w_log w') 5 = Done (ix, Hit 4 0 1 3) ∧
     r ∈ (flush w').2 ∧ wr_blocks r !! 3%nat = Some t ∧ t_pres t = 0 ∧ wr_remOffset r + 3 * 2 = 12) ∧
  (∃ w w' ix, foldM (process_batch (dk 1)) (start_writer (dk 1) first_index) [object 1 30%nat] = Done w ∧
     foldM (process_batch (dk 1)) (flush w).1 [object 2 5%nat; object 3 8%nat] = Done w' ∧
     (flush w').2 = [] ∧ search_index (w_index w') (dk 1) (w_log w') 3 = Done (ix, Hit 2 0 1 8)).
Proof.
  split.
  - eexists _, _, _, _, _. split; [vm_compute; reflexivity|]. split; [vm_compute; reflexivity|].
    split; [vm_compute; reflexivity|]. split; [vm_compute; left|]. split_and!; reflexivity.
  - eexists _, _, _. split; [vm_compute; reflexivity|]. split; [vm_compute; reflexivity|].
    split; vm_compute; reflexivity.
Qed.

(** [formDiskBatches] ends: batches that are too large for the write buffer
    are split, each split is into batches that are not, and every turn of the
    loop removes one.  No block is lost between the queue and the buffer, and
    what is placed fits in the buffer; only a full buffer leaves a queue. *)
Theorem formDiskBatches_terminates (dk : disks) (w : writer) (q : list relOb) (fuel : nat) :
  0 < numDisks dk → numDisks dk + writeBufferSize dk * numDisks dk ≤ REM_FILE_SIZE dk →
  REM_FILE_SIZE dk + numDisks dk + writeBufferSize dk * numDisks dk < 2 ^ 31 → writeBufferSize dk < 2 ^ 30 →
  writer_ok dk w → Forall counted q → (weight dk q < fuel)%nat →
  presentRemVersion (w_log w) + Z.of_nat (weight dk q) < 2 ^ 31 → totalBlocksUsed w ≤ writeBufferSize dk →
  ∃ w' left ready, formDiskBatches fuel dk w q = Done (w', left, ready) ∧ writer_ok dk w' ∧
    (ready = false → left = []) ∧ totalBlocksUsed w' + queued left = totalBlocksUsed w + queued q ∧
    totalBlocksUsed w' ≤ writeBufferSize dk.
Proof.
  intros Hd Hfit Hint Hroom Hw Hq Hfuel Hv Hused.
  destruct (formDiskBatches_ok dk Hd Hfit Hint Hroom fuel w q Hw Hq Hfuel Hv Hused) as
    (w' & left & ready & Hrun & Hw' & _ & Hready & Hcons & Hle).
  by exists w', left, ready.
Qed.

Lemma formDiskBatches_terminates_witness :
  let dk := {| numDisks := 1; REM_FILE_SIZE := 4000; hcFds := [7] |} in
  let q := [{| ro_urls := replicate 6 {| ob_hash := 5; ob_count := 100 |}; ro_size := 600 |}] in
  ∃ w' left ready, formDiskBatches 8 dk (start_writer dk first_index) q = Done (w', left, ready) ∧ writer_ok dk w' ∧
    (ready = false → left = []) ∧ totalBlocksUsed w' + queued left = 0 + 600 ∧ totalBlocksUsed w' ≤ 512.
Proof.
  apply (formDiskBatches_terminates {| numDisks := 1; REM_FILE_SIZE := 4000; hcFds := [7] |}
    (start_writer {| numDisks := 1; REM_FILE_SIZE := 4000; hcFds := [7] |} first_index)
    [{| ro_urls := replicate 6 {| ob_hash := 5; ob_count := 100 |}; ro_size := 600 |}] 8); try done.
  - apply start_writer_ok with 512; try done. apply first_index_ok.
  - repeat constructor; cbn; lia.
  - vm_compute. lia.
Defined.
