(* ===== verification/HcHoc.v ===== *)
(** * HashCache: the hot object cache

    [src/HashCache/src/hoc.c]: blocks that were read from the log are kept in
    memory under their number, in the order of their last use, and counted
    locks keep a block that is being read or written from being reused.  A hot
    object is modelled by its number in the order of allocation; the list
    [allBlocks] and the table [whichBlocks] are the sequence and the finite map
    that [HcList] and [HcHashtab] show them to be, with an object in the place
    of the list element that the table leads to. *)

From Stdlib Require Import ZArith Lia.
From stdpp Require Import base list option numbers gmap sets.
From S2P Require Import Prelude.

(** 1024 * 1024 / FILE_BLOCK_SIZE *)
Definition EXPAND_SIZE : nat := 512.

Record hotObject (D : Type) := mk_hotObject { block : D; readLocks : Z; writeLocks : Z; thisKey : Z }.
Arguments mk_hotObject {_} _ _ _ _.
Arguments block {_} _.
Arguments readLocks {_} _.
Arguments writeLocks {_} _.
Arguments thisKey {_} _.

Record hoc (D : Type) := mk_hoc {
  hotObjects : list (hotObject D);
  allBlocks : list nat;
  freeList : list nat;
  whichBlocks : gmap Z nat;
  expandCount : Z;
  globalReadLocks : Z;
  globalWriteLocks : Z
}.
Arguments mk_hoc {_} _ _ _ _ _ _ _.
Arguments hotObjects {_} _.
Arguments allBlocks {_} _.
Arguments freeList {_} _.
Arguments whichBlocks {_} _.
Arguments expandCount {_} _.
Arguments globalReadLocks {_} _.
Arguments globalWriteLocks {_} _.

Section ops.
(** [garbage] is what [malloc] finds in a block and in a key. *)
Context {D : Type} (garbage : D) (garbageKey : Z) (expandLimit : Z) (numDisks : Z).

Implicit Types h : hoc D.

Definition with_objects (os : list (hotObject D)) h : hoc D :=
  mk_hoc os (allBlocks h) (freeList h) (whichBlocks h) (expandCount h) (globalReadLocks h) (globalWriteLocks h).
Definition with_blocks (all : list nat) (tab : gmap Z nat) h : hoc D :=
  mk_hoc (hotObjects h) all (freeList h) tab (expandCount h) (globalReadLocks h) (globalWriteLocks h).
Definition with_free (free : list nat) h : hoc D :=
  mk_hoc (hotObjects h) (allBlocks h) free (whichBlocks h) (expandCount h) (globalReadLocks h) (globalWriteLocks h).
Definition count_locks (r w : Z) h : hoc D :=
  mk_hoc (hotObjects h) (allBlocks h) (freeList h) (whichBlocks h) (expandCount h)
    (i32 (globalReadLocks h + r)) (i32 (globalWriteLocks h + w)).

(** [deletePresent] and [movePresentToTail] at the element of an object. *)
Definition without (id : nat) (l : list nat) : list nat := filter (λ x, x ≠ id) l.
Definition to_tail (id : nat) (l : list nat) : list nat := without id l ++ [id].

Definition newObject : hotObject D := mk_hotObject garbage 0 0 garbageKey.

Definition expandHOC h : hoc D :=
  let n := length (hotObjects h) in
  mk_hoc (hotObjects h ++ replicate EXPAND_SIZE newObject) (allBlocks h) (reverse (seq n EXPAND_SIZE) ++ freeList h)
    (whichBlocks h) (i32 (expandCount h + 1)) (globalReadLocks h) (globalWriteLocks h).

#[local] Arguments expandHOC : simpl never.

Definition initHOC : hoc D := expandHOC (mk_hoc [] [] [] ∅ 0 0 0).

Definition head_of (l : list nat) : outcome nat := match l with [] => Fault OutOfBounds | id :: _ => Done id end.

(** The [while] loop, with the attempts that are left. *)
Fixpoint deleteLRU (attempts : nat) h : outcome (hoc D * option nat) :=
  match attempts with
  | O => Done (h, None)
  | S attempts =>
      oldest ← head_of (allBlocks h);
      o ← get (hotObjects h) oldest;
      match whichBlocks h !! thisKey o with
      | None => Fault NiceExit
      | Some id =>
          o ← get (hotObjects h) id;
          if (0 <? readLocks o) || (0 <? writeLocks o) then
            deleteLRU attempts (with_blocks (to_tail id (allBlocks h)) (whichBlocks h) h)
          else Done (with_blocks (without id (allBlocks h)) (delete (thisKey o) (whichBlocks h)) h, Some id)
      end
  end.

Definition take_free h : outcome (hoc D * nat) :=
  id ← head_of (freeList h); Done (with_free (tail (freeList h)) h, id).

Definition getOldHOB h : outcome (hoc D * nat) :=
  if (0 <? length (freeList h))%nat then take_free h
  else if expandCount h <? expandLimit then take_free (expandHOC h)
  else
    '(h, old) ← deleteLRU 3 h;
    match old with
    | Some id => Done (h, id)
    | None => take_free (expandHOC h)
    end.

(** Puts an object under a key at the tail of the list. *)
Definition enter (id : nat) (key : Z) h : hoc D := with_blocks (allBlocks h ++ [id]) (<[key := id]> (whichBlocks h)) h.

Definition insertBlock (dat : D) (remOffset : Z) h : outcome (hoc D * nat) :=
  match whichBlocks h !! remOffset with
  | Some id => Done (with_blocks (to_tail id (allBlocks h)) (whichBlocks h) h, id)
  | None =>
      '(h, id) ← getOldHOB h;
      objects ← update (hotObjects h) id (λ o, mk_hotObject dat (readLocks o) (writeLocks o) remOffset);
      let h := enter id remOffset (with_objects objects h) in
      o ← get (hotObjects h) id;
      if (0 <? readLocks o) || (0 <? writeLocks o) then Fault NiceExit
      else
        objects ← update (hotObjects h) id (λ o, mk_hotObject (block o) 0 0 (thisKey o));
        Done (with_objects objects h, id)
  end.

Definition getBlock (remOffset : Z) h : outcome (hoc D * option nat) :=
  match whichBlocks h !! remOffset with
  | Some id =>
      objects ← update (hotObjects h) id (λ o, mk_hotObject (block o) (i8 (readLocks o + 1)) (writeLocks o) (thisKey o));
      Done (count_locks 1 0 (with_objects objects (with_blocks (to_tail id (allBlocks h)) (whichBlocks h) h)), Some id)
  | None => Done (h, None)
  end.

Definition doneReading (remOffset : Z) h : outcome (hoc D * Z) :=
  match whichBlocks h !! remOffset with
  | Some id =>
      objects ← update (hotObjects h) id (λ o, mk_hotObject (block o) (i8 (readLocks o - 1)) (writeLocks o) (thisKey o));
      Done (count_locks (-1) 0 (with_objects objects h), 0)
  | None => Done (h, -1)
  end.

Definition doneWriting (remOffset : Z) h : outcome (hoc D * Z) :=
  match whichBlocks h !! remOffset with
  | Some id =>
      objects ← update (hotObjects h) id (λ o, mk_hotObject (block o) 0 0 (thisKey o));
      let h := count_locks 0 (-1) (with_objects objects h) in
      let h := with_blocks (without id (allBlocks h)) (delete remOffset (whichBlocks h)) h in
      Done (with_free (freeList h ++ [id]) h, 0)
  | None => Done (h, -1)
  end.

(** One pass of the loop of [getKBlocks], with the objects found so far. *)
Definition getKBlocks_step (offset : Z) (r : hoc D * list nat) (i : nat) : outcome (hoc D * list nat) :=
  let '(h, blockList) := r in
  let key := i32 (offset + Z.of_nat i * numDisks) in
  '(h, id) ←
    (match whichBlocks h !! key with
     | Some id => Done (h, id)
     | None =>
         '(h, id) ← getOldHOB h;
         objects ← update (hotObjects h) id (λ o, mk_hotObject (block o) (readLocks o) (writeLocks o) key);
         Done (enter id key (with_objects objects h), id)
     end);
  objects ← update (hotObjects h) id (λ o, mk_hotObject (block o) (readLocks o) (i8 (writeLocks o + 1)) (thisKey o));
  Done (count_locks 0 1 (with_objects objects h), blockList ++ [id]).

Definition getKBlocks (k : nat) (offset : Z) h : outcome (hoc D * list nat) :=
  foldM (getKBlocks_step offset) (h, []) (seq 0 k).
End ops.

(** ** Sequences of operations *)

Inductive hoc_op (D : Type) :=
  | Insert (dat : D) (k : Z)
  | Get (k : Z)
  | DoneR (k : Z)
  | DoneW (k : Z)
  | GetK (n : nat) (offset : Z).
Arguments Insert {_} _ _.
Arguments Get {_} _.
Arguments DoneR {_} _.
Arguments DoneW {_} _.
Arguments GetK {_} _ _.

#[local] Arguments expandHOC : simpl never.

Section theory.
Context {D : Type} (garbage : D) (garbageKey : Z) (expandLimit : Z) (numDisks : Z).

Implicit Types h : hoc D.

Definition run_hoc h (o : hoc_op D) : outcome (hoc D) :=
  match o with
  | Insert dat k => fst <$> insertBlock garbage garbageKey expandLimit dat k h
  | Get k => fst <$> getBlock k h
  | DoneR k => fst <$> doneReading k h
  | DoneW k => fst <$> doneWriting k h
  | GetK n offset => fst <$> getKBlocks garbage garbageKey expandLimit numDisks n offset h
  end.

Definition unlocked (o : hotObject D) : Prop := readLocks o ≤ 0 ∧ writeLocks o ≤ 0.

(** The state, with the objects [out] taken out of both lists. *)
Record hoc_wf (out : list nat) h : Prop := {
  hw_all : allBlocks h ++ out ++ freeList h ≡ₚ seq 0 (length (hotObjects h));
  hw_tab : ∀ k id, whichBlocks h !! k = Some id ↔ id ∈ allBlocks h ∧ thisKey <$> hotObjects h !! id = Some k;
  hw_free : ∀ id o, id ∈ out ++ freeList h → hotObjects h !! id = Some o → unlocked o;
  hw_some : (0 < length (hotObjects h))%nat
}.

Lemma wf_nodup out h : hoc_wf out h → NoDup (allBlocks h ++ out ++ freeList h).
Proof. intros Hw. rewrite (hw_all _ _ Hw). apply NoDup_seq. Qed.

Lemma wf_object out h id :
  hoc_wf out h → id ∈ allBlocks h ++ out ++ freeList h → ∃ o, hotObjects h !! id = Some o.
Proof. intros Hw. rewrite (hw_all _ _ Hw). intros Hid%elem_of_seq_iff. apply lookup_lt_is_Some_2. lia. Qed.

Lemma without_perm id l : NoDup l → id ∈ l → l ≡ₚ id :: without id l.
Proof.
  intros Hn Hin. apply list_elem_of_split in Hin as (l1 & l2 & ->).
  apply NoDup_app in Hn as (Hn1 & Hd & Hn2). apply NoDup_cons in Hn2 as [Hid Hn2].
  unfold without. rewrite filter_app, filter_cons_False by (by intros []).
  assert (∀ l : list nat, id ∉ l → filter (λ x, x ≠ id) l = l) as Hf.
  { induction l as [|x l IH]; intros Hx; [done|]. rewrite not_elem_of_cons in Hx. destruct Hx as [Hx1 Hx2].
    rewrite filter_cons_True by done. by rewrite IH. }
  rewrite !Hf; [by rewrite Permutation_middle|done|]. intros Hin. apply (Hd id Hin). by left.
Qed.

Lemma to_tail_perm id l : NoDup l → id ∈ l → to_tail id l ≡ₚ l.
Proof. intros Hn Hin. unfold to_tail. rewrite Permutation_app_comm. cbn. by rewrite <-without_perm. Qed.

Lemma wf_to_tail out h id :
  hoc_wf out h → id ∈ allBlocks h → hoc_wf out (with_blocks (to_tail id (allBlocks h)) (whichBlocks h) h).
Proof.
  intros Hw Hin. assert (to_tail id (allBlocks h) ≡ₚ allBlocks h) as Hp.
  { apply to_tail_perm; [|done]. apply wf_nodup in Hw. by apply NoDup_app in Hw as [? _]. }
  destruct Hw as [Hall Htab Hfree Hsome]. split; cbn; [by rewrite Hp| |done|done].
  intros k i. rewrite Htab. by rewrite Hp.
Qed.

(** A change of an object that keeps its key, and the locks of a free one. *)
Lemma wf_update out h id o f :
  hoc_wf out h → hotObjects h !! id = Some o → thisKey (f o) = thisKey o →
  (id ∈ allBlocks h ∨ unlocked (f o)) → hoc_wf out (with_objects (<[id := f o]> (hotObjects h)) h).
Proof.
  intros Hw Ho Hkey Hid. pose proof (wf_nodup _ _ Hw) as Hn. destruct Hw as [Hall Htab Hfree Hsome].
  split; cbn; rewrite ?length_insert; [done| | |done].
  - intros k i. rewrite Htab. destruct (decide (i = id)) as [->|Hne].
    + rewrite list_lookup_insert_eq, Ho by (by eapply lookup_lt_Some). cbn. by rewrite Hkey.
    + by rewrite list_lookup_insert_ne.
  - intros i o' Hi Ho'. destruct (decide (i = id)) as [->|Hne].
    + rewrite list_lookup_insert_eq in Ho' by (by eapply lookup_lt_Some). injection Ho' as <-.
      destruct Hid as [Hid|Hid]; [|done]. apply NoDup_app in Hn as (_ & Hn & _). by destruct (Hn id Hid).
    + rewrite list_lookup_insert_ne in Ho' by done. by apply (Hfree i).
Qed.

Lemma wf_count out h r w : hoc_wf out h → hoc_wf out (count_locks r w h).
Proof. by intros [? ? ? ?]. Qed.

Lemma wf_expand out h : hoc_wf out h → hoc_wf out (expandHOC garbage garbageKey h).
Proof.
  intros Hw. assert (∀ id, id ∈ allBlocks h ++ out ++ freeList h → (id < length (hotObjects h))%nat) as Hlt.
  { intros id. rewrite (hw_all _ _ Hw). intros Hid%elem_of_seq_iff. lia. }
  destruct Hw as [Hall Htab Hfree Hsome]. split; unfold expandHOC; cbn [allBlocks freeList hotObjects whichBlocks].
  - rewrite length_app, length_replicate, seq_app, <-Hall. rewrite reverse_Permutation. cbn [plus].
    by rewrite (Permutation_app_comm (seq _ _)), !app_assoc.
  - intros k id. rewrite Htab. split; intros [Hid Hk]; (split; [done|]).
    + by rewrite lookup_app_l by (apply Hlt, elem_of_app; by left).
    + by rewrite lookup_app_l in Hk by (apply Hlt, elem_of_app; by left).
  - intros id o Hid Ho. rewrite lookup_app in Ho. destruct (hotObjects h !! id) as [o'|] eqn:Hold.
    + injection Ho as ->. apply (Hfree id); [|done]. rewrite !elem_of_app, elem_of_reverse, elem_of_seq_iff in Hid.
      apply lookup_lt_Some in Hold. rewrite elem_of_app. destruct Hid as [?|[?|?]]; [by left|lia|by right].
    + apply lookup_replicate in Ho as [-> _]. done.
  - rewrite length_app. lia.
Qed.

(** A block in the cache, with its contents and its readers. *)
Definition holds h (k : Z) (id : nat) (d : D) (r : Z) : Prop :=
  whichBlocks h !! k = Some id ∧ ∃ o, hotObjects h !! id = Some o ∧ block o = d ∧ readLocks o = r.

(** What taking an object for reuse leaves: every block with readers, and
    nothing under keys that were free. *)
Definition spares h h' : Prop :=
  (∀ k id d r, 0 < r → holds h k id d r → holds h' k id d r) ∧
  (∀ k, whichBlocks h !! k = None → whichBlocks h' !! k = None).

Lemma spares_refl h : spares h h.
Proof. by split. Qed.
Lemma spares_trans h1 h2 h3 : spares h1 h2 → spares h2 h3 → spares h1 h3.
Proof. intros [H1 H2] [H3 H4]. split; auto. Qed.

Lemma deleteLRU_ok attempts : ∀ h,
  hoc_wf [] h → allBlocks h ≠ [] →
  ∃ h' old, deleteLRU attempts h = Done (h', old) ∧ hotObjects h' = hotObjects h ∧ freeList h' = freeList h ∧
    spares h h' ∧ match old with None => hoc_wf [] h' | Some id => hoc_wf [id] h' end.
Proof.
  induction attempts as [|attempts IH]; intros h Hw Hne; cbn [deleteLRU].
  { exists h, None. split_and!; done || apply spares_refl. }
  destruct (allBlocks h) as [|id rest] eqn:Hall; [done|]. cbn [head_of mbind outcome_bind].
  assert (id ∈ allBlocks h) as Hin by (rewrite Hall; by left).
  destruct (wf_object [] h id Hw) as [o Ho]; [apply elem_of_app; by left|].
  assert (whichBlocks h !! thisKey o = Some id) as Ht by (apply (hw_tab _ _ Hw); by rewrite Ho).
  rewrite (proj2 (get_Done _ _ _) Ho). cbn [mbind outcome_bind]. rewrite Ht, (proj2 (get_Done _ _ _) Ho).
  cbn [mbind outcome_bind]. destruct ((0 <? readLocks o) || (0 <? writeLocks o)) eqn:Hl.
  - rewrite <-Hall. destruct (IH (with_blocks (to_tail id (allBlocks h)) (whichBlocks h) h)) as
      (h' & old & -> & Hobj & Hfree & Hsp & Hold); [by apply wf_to_tail|by cbn; unfold to_tail; intros ?%app_nil; naive_solver|].
    exists h', old. by split_and!.
  - rewrite <-Hall. apply orb_false_iff in Hl as [Hr%Z.ltb_ge Hwl%Z.ltb_ge].
    assert (NoDup (allBlocks h)) as Hn by (pose proof (wf_nodup _ _ Hw) as Hn; by apply NoDup_app in Hn as [? _]).
    eexists _, (Some id). split; [done|]. cbn. split_and!; [done|done| |].
    + split; cbn; [|intros k Hk; apply lookup_delete_None; by right].
      intros k i d r Hpos [Hki (oi & Hoi & Hd & Hri)]. split; [|by exists oi]. cbn. rewrite lookup_delete_ne; [done|].
      intros <-. rewrite Ht in Hki. injection Hki as <-. rewrite Ho in Hoi. injection Hoi as <-. lia.
    + pose proof (without_perm id _ Hn Hin) as Hp. destruct Hw as [Hall' Htab Hfree Hsome]. split; cbn; [| | |done].
      * rewrite <-Hall'. cbn. rewrite Hp at 2. symmetry. apply (Permutation_middle (without id (allBlocks h)) (freeList h) id).
      * intros k i. rewrite lookup_delete_Some, Htab. unfold without. rewrite list_elem_of_filter. split.
        -- intros (Hk & Hi & Hki). split_and!; [|done|done]. intros ->. rewrite Ho in Hki. injection Hki. done.
        -- intros ((Hi & Hii) & Hki). split_and!; [|done|done]. intros <-. apply Hi.
           assert (whichBlocks h !! thisKey o = Some i) as Ht2 by (by apply Htab). congruence.
      * intros i oi [->|Hi]%elem_of_cons Hoi; [|by apply (Hfree i)]. rewrite Ho in Hoi. injection Hoi as <-. done.
Qed.

Lemma take_free_ok h :
  hoc_wf [] h → freeList h ≠ [] → ∃ h' id, take_free h = Done (h', id) ∧ hoc_wf [id] h' ∧ spares h h' ∧
    hotObjects h' = hotObjects h ∧ whichBlocks h' = whichBlocks h ∧ allBlocks h' = allBlocks h.
Proof.
  intros [Hall Htab Hfree Hsome] Hne. unfold take_free. destruct (freeList h) as [|id rest] eqn:Hf; [done|].
  cbn [head_of mbind outcome_bind]. eexists _, id. split; [done|]. split_and!; [|by split|done..].
  split; cbn; [by rewrite <-Hall|done|exact Hfree|done].
Qed.

Lemma getOldHOB_ok h :
  hoc_wf [] h → ∃ h' id, getOldHOB garbage garbageKey expandLimit h = Done (h', id) ∧ hoc_wf [id] h' ∧ spares h h'.
Proof.
  intros Hw. unfold getOldHOB.
  assert (spares h (expandHOC garbage garbageKey h)) as Hexp.
  { split; [|done]. intros k id d r _ [Hk (o & Ho & Hd & Hr)]. split; [done|]. exists o.
    unfold expandHOC. cbn [hotObjects]. by rewrite lookup_app_l by (by eapply lookup_lt_Some). }
  assert (∀ h, freeList (expandHOC garbage garbageKey h) ≠ []) as Hnew.
  { intros h0. unfold expandHOC. cbn [freeList]. intros [Heq _]%app_nil. apply (f_equal length) in Heq.
    by rewrite length_reverse, length_seq in Heq. }
  destruct (Nat.ltb_spec 0 (length (freeList h))) as [Hpos|Hzero].
  { destruct (take_free_ok h Hw) as (h' & id & -> & Hw' & Hsp & _); [by intros Heq; rewrite Heq in Hpos; cbn in Hpos; lia|].
    by exists h', id. }
  destruct (expandCount h <? expandLimit).
  { destruct (take_free_ok _ (wf_expand [] h Hw) (Hnew h)) as (h' & id & -> & Hw' & Hsp & _).
    exists h', id. split_and!; [done|done|]. by eapply spares_trans. }
  destruct (freeList h) as [|? ?] eqn:Hf; [|cbn in Hzero; lia].
  destruct (deleteLRU_ok 3 h Hw) as (h1 & old & -> & Hobj & Hfree & Hsp & Hold).
  { intros Heq. pose proof (hw_all _ _ Hw) as Hp. rewrite Heq, Hf in Hp. cbn in Hp. apply Permutation_nil_l in Hp.
    pose proof (hw_some _ _ Hw). destruct (length (hotObjects h)); [lia|done]. }
  cbn [mbind outcome_bind]. destruct old as [id|]; [by exists h1, id|].
  destruct (take_free_ok _ (wf_expand [] h1 Hold) (Hnew h1)) as (h' & id & -> & Hw' & Hsp' & _).
  exists h', id. split_and!; [done|done|]. eapply spares_trans; [done|]. eapply spares_trans; [|done].
  split; [|done]. intros k i d r _ [Hk (o & Ho & Hd & Hr)]. split; [done|]. exists o.
  unfold expandHOC. cbn [hotObjects]. by rewrite lookup_app_l by (by eapply lookup_lt_Some).
Qed.

Lemma wf_enter h id k o o' :
  hoc_wf [id] h → hotObjects h !! id = Some o → whichBlocks h !! k = None → thisKey o' = k →
  hoc_wf [] (enter id k (with_objects (<[id := o']> (hotObjects h)) h)).
Proof.
  intros Hw Ho Hk Hkey. pose proof (wf_nodup _ _ Hw) as Hn. destruct Hw as [Hall Htab Hfree Hsome].
  apply NoDup_app in Hn as (_ & Hout & Hn). cbn in Hn. apply NoDup_cons in Hn as [Hidf _].
  assert (id ∉ allBlocks h) as Hid by (intros Hin; apply (Hout id Hin); by left).
  split; unfold enter; cbn [allBlocks freeList hotObjects whichBlocks with_blocks with_objects]; rewrite ?length_insert.
  - rewrite <-Hall. by rewrite <-app_assoc.
  - intros k' i. rewrite elem_of_app, list_elem_of_singleton. destruct (decide (i = id)) as [->|Hne].
    + rewrite list_lookup_insert_eq by (by eapply lookup_lt_Some). cbn. rewrite Hkey.
      destruct (decide (k = k')) as [->|Hkk]; [rewrite lookup_insert_eq; naive_solver|].
      rewrite lookup_insert_ne by done. rewrite Htab. naive_solver.
    + rewrite list_lookup_insert_ne by done.
      destruct (decide (k = k')) as [->|Hkk]; [rewrite lookup_insert_eq|rewrite lookup_insert_ne, Htab by done; naive_solver].
      split; [intros [= ->]; done|]. intros [[Hi|Hi] Hki]; [|done].
      assert (whichBlocks h !! k' = Some i) by (by apply Htab). congruence.
  - intros i oi Hi Hoi. rewrite list_lookup_insert_ne in Hoi by (by intros ->). apply (Hfree i); [|done].
    apply elem_of_app. by right.
  - done.
Qed.

Lemma table_inj out h k k' id :
  hoc_wf out h → whichBlocks h !! k = Some id → whichBlocks h !! k' = Some id → k = k'.
Proof. intros Hw [_ H1]%(hw_tab _ _ Hw) [_ H2]%(hw_tab _ _ Hw). congruence. Qed.

Lemma holds_update out h k id o f k' id' d r :
  hoc_wf out h → whichBlocks h !! k = Some id → hotObjects h !! id = Some o → k' ≠ k →
  holds h k' id' d r → holds (with_objects (<[id := f o]> (hotObjects h)) h) k' id' d r.
Proof.
  intros Hw Hk Ho Hne [Hk' (o' & Ho' & Hd & Hr)]. split; [done|]. exists o'. cbn.
  rewrite list_lookup_insert_ne; [done|]. intros ->. apply Hne. by apply (table_inj out h k' k id').
Qed.

Lemma table_object h k id :
  hoc_wf [] h → whichBlocks h !! k = Some id → id ∈ allBlocks h ∧ ∃ o, hotObjects h !! id = Some o ∧ thisKey o = k.
Proof.
  intros Hw [Hin Hk]%(hw_tab _ _ Hw). split; [done|].
  destruct (hotObjects h !! id) as [o|]; [|done]. exists o. split; [done|]. cbn in Hk. by injection Hk.
Qed.

Lemma update_object (h : hoc D) id o f : hotObjects h !! id = Some o → update (hotObjects h) id f = Done (<[id := f o]> (hotObjects h)).
Proof. intros Ho. apply update_Done. by exists o. Qed.

Lemma getBlock_ok h k :
  hoc_wf [] h → ∃ h' r, getBlock k h = Done (h', r) ∧ hoc_wf [] h' ∧ r = whichBlocks h !! k ∧
    whichBlocks h' = whichBlocks h ∧
    (∀ k' id d n, k' ≠ k → holds h k' id d n → holds h' k' id d n) ∧
    (∀ id d n, holds h k id d n → holds h' k id d (i8 (n + 1))).
Proof.
  intros Hw. unfold getBlock. destruct (whichBlocks h !! k) as [id|] eqn:Hk.
  - destruct (table_object h k id Hw Hk) as (Hin & o & Ho & Hkey). rewrite (update_object _ _ _ _ Ho). cbn [mbind outcome_bind].
    eexists _, (Some id). split; [done|].
    set (f := λ o : hotObject D, mk_hotObject (block o) (i8 (readLocks o + 1)) (writeLocks o) (thisKey o)).
    change (<[id := mk_hotObject (block o) (i8 (readLocks o + 1)) (writeLocks o) (thisKey o)]> (hotObjects h))
      with (<[id := f o]> (hotObjects h)).
    split_and!; [|done|done| |].
    + apply wf_count, (wf_update [] (with_blocks _ _ h)); [by apply wf_to_tail|done|done|left]. cbn.
      apply elem_of_app. right. by left.
    + intros k' i d n Hne Hh. by apply (holds_update [] h k id o f).
    + intros i d n [Hki (oi & Hoi & Hd & Hn)]. rewrite Hk in Hki. injection Hki as <-. rewrite Ho in Hoi. injection Hoi as <-.
      split; [done|]. exists (f o). cbn. rewrite list_lookup_insert_eq by (by eapply lookup_lt_Some). by subst.
  - exists h, None. split_and!; try done. intros i d n [Hki _]. congruence.
Qed.

Lemma doneReading_ok h k :
  hoc_wf [] h → ∃ h' r, doneReading k h = Done (h', r) ∧ hoc_wf [] h' ∧
    (∀ k' id d n, k' ≠ k → holds h k' id d n → holds h' k' id d n).
Proof.
  intros Hw. unfold doneReading. destruct (whichBlocks h !! k) as [id|] eqn:Hk.
  - destruct (table_object h k id Hw Hk) as (Hin & o & Ho & Hkey). rewrite (update_object _ _ _ _ Ho). cbn [mbind outcome_bind].
    eexists _, 0. split; [done|].
    set (f := λ o : hotObject D, mk_hotObject (block o) (i8 (readLocks o - 1)) (writeLocks o) (thisKey o)).
    change (<[id := mk_hotObject (block o) (i8 (readLocks o - 1)) (writeLocks o) (thisKey o)]> (hotObjects h))
      with (<[id := f o]> (hotObjects h)).
    split.
    + apply wf_count, wf_update; [done|done|done|by left].
    + intros k' i d n Hne Hh. by apply (holds_update [] h k id o f).
  - exists h, (-1). by split_and!.
Qed.

Lemma doneWriting_ok h k :
  hoc_wf [] h → ∃ h' r, doneWriting k h = Done (h', r) ∧ hoc_wf [] h' ∧
    (∀ k' id d n, k' ≠ k → holds h k' id d n → holds h' k' id d n).
Proof.
  intros Hw. unfold doneWriting. destruct (whichBlocks h !! k) as [id|] eqn:Hk; [|exists h, (-1); by split_and!].
  destruct (table_object h k id Hw Hk) as (Hin & o & Ho & Hkey). rewrite (update_object _ _ _ _ Ho). cbn [mbind outcome_bind].
  eexists _, 0. split; [done|].
  set (f := λ o : hotObject D, mk_hotObject (block o) 0 0 (thisKey o)).
  change (<[id := mk_hotObject (block o) 0 0 (thisKey o)]> (hotObjects h)) with (<[id := f o]> (hotObjects h)).
  assert (hoc_wf [] (with_objects (<[id := f o]> (hotObjects h)) h)) as Hw1 by (apply wf_update; [done|done|done|by left]).
  assert (NoDup (allBlocks h)) as Hn by (pose proof (wf_nodup _ _ Hw) as Hn; by apply NoDup_app in Hn as [? _]).
  pose proof (without_perm id _ Hn Hin) as Hp. split.
  - destruct Hw1 as [Hall Htab Hfree Hsome]. cbn in *. split; cbn; [| | |done].
    + rewrite <-Hall. transitivity ((id :: without id (allBlocks h)) ++ freeList h); [|by rewrite <-Hp].
      rewrite app_assoc. symmetry. apply Permutation_cons_append.
    + intros k' i. rewrite lookup_delete_Some, Htab. unfold without. rewrite list_elem_of_filter. split.
      * intros (Hkk & Hi & Hki). split_and!; [|done|done]. intros ->.
        rewrite list_lookup_insert_eq in Hki by (by eapply lookup_lt_Some). cbn in Hki. congruence.
      * intros ((Hi & Hii) & Hki). split_and!; [|done|done]. intros <-. apply Hi.
        assert (whichBlocks h !! k = Some i) as Ht2 by (by apply Htab). congruence.
    + intros i oi [Hi| ->%list_elem_of_singleton]%elem_of_app Hoi; [by apply (Hfree i)|].
      rewrite list_lookup_insert_eq in Hoi by (by eapply lookup_lt_Some). by injection Hoi as <-.
  - intros k' i d n Hne Hh. apply (holds_update [] h k id o f) in Hh; [|done..].
    destruct Hh as [Hk' Ho']. split; [|done]. cbn in *. by rewrite lookup_delete_ne.
Qed.

(** Taking an object and putting it under a key that is free. *)
Lemma fetch_ok h k (f : hotObject D → hotObject D) :
  hoc_wf [] h → whichBlocks h !! k = None → (∀ o, unlocked o → unlocked (f o) ∧ thisKey (f o) = k) →
  ∃ h1 id o, getOldHOB garbage garbageKey expandLimit h = Done (h1, id) ∧ hotObjects h1 !! id = Some o ∧
    let h2 := enter id k (with_objects (<[id := f o]> (hotObjects h1)) h1) in
    hoc_wf [] h2 ∧ unlocked (f o) ∧ (∀ k' i d n, 0 < n → holds h k' i d n → holds h2 k' i d n).
Proof.
  intros Hw Hk Hf. destruct (getOldHOB_ok h Hw) as (h1 & id & Hget & Hw1 & Hsp1 & Hsp2).
  destruct (wf_object [id] h1 id Hw1) as [o Ho]; [apply elem_of_app; right; by left|].
  assert (unlocked o) as Hun by (apply (hw_free _ _ Hw1 id); [by left|done]). destruct (Hf o Hun) as [Hun' Hkey].
  exists h1, id, o. split; [done|]. split; [done|]. cbn zeta. split_and!; [|done|].
  - by apply (wf_enter h1 id k o); [..|apply Hsp2|].
  - intros k' i d n Hn Hh. destruct (Hsp1 k' i d n Hn Hh) as [Hki (oi & Hoi & Hd & Hr)]. split; cbn.
    + rewrite lookup_insert_ne; [done|]. intros <-. by rewrite (Hsp2 _ Hk) in Hki.
    + exists oi. rewrite list_lookup_insert_ne; [done|]. intros <-. rewrite Ho in Hoi. injection Hoi as ->.
      destruct Hun as [Hun _]. lia.
Qed.

Lemma insertBlock_ok h dat k :
  hoc_wf [] h → ∃ h' id, insertBlock garbage garbageKey expandLimit dat k h = Done (h', id) ∧ hoc_wf [] h' ∧
    whichBlocks h' !! k = Some id ∧
    (∀ k' i d n, 0 < n → holds h k' i d n → holds h' k' i d n) ∧
    (whichBlocks h !! k = None → holds h' k id dat 0) ∧
    (∀ i, whichBlocks h !! k = Some i → id = i ∧ hotObjects h' = hotObjects h).
Proof.
  intros Hw. unfold insertBlock. destruct (whichBlocks h !! k) as [id|] eqn:Hk.
  - destruct (table_object h k id Hw Hk) as (Hin & o & Ho & Hkey).
    eexists _, id. split; [done|]. split_and!; [by apply wf_to_tail|done| |done|by intros i [= ->]].
    by intros k' i d n _ Hh.
  - set (f := λ o : hotObject D, mk_hotObject dat (readLocks o) (writeLocks o) k).
    destruct (fetch_ok h k f Hw Hk) as (h1 & id & o & -> & Ho & Hw2 & Hun & Hkeep); [done|].
    cbn [mbind outcome_bind]. rewrite (update_object _ _ _ _ Ho). cbn [mbind outcome_bind].
    set (h2 := enter id k _) in *. set (g := λ o : hotObject D, mk_hotObject (block o) 0 0 (thisKey o)).
    assert (hotObjects h2 !! id = Some (f o)) as Ho2 by (cbn; rewrite list_lookup_insert_eq; [done|by eapply lookup_lt_Some]).
    rewrite (proj2 (get_Done _ _ _) Ho2). cbn [mbind outcome_bind]. destruct Hun as [Hr Hwr].
    rewrite (proj2 (Z.ltb_ge _ _) Hr), (proj2 (Z.ltb_ge _ _) Hwr). cbn [orb].
    rewrite (update_object _ _ _ _ Ho2). cbn [mbind outcome_bind].
    change (mk_hotObject (block (f o)) 0 0 (thisKey (f o))) with (g (f o)).
    eexists _, id. split; [done|].
    assert (whichBlocks h2 !! k = Some id) as Hk2 by (cbn; by rewrite lookup_insert_eq).
    split_and!; [|done| | |done].
    + apply wf_update; [done|done|done|left]. cbn. apply elem_of_app. right. by left.
    + intros k' i d n Hn Hh. destruct (decide (k' = k)) as [->|Hne].
      * destruct Hh as [Hki _]. congruence.
      * apply (holds_update [] h2 k id (f o) g); [done|done|done|done|]. by apply Hkeep.
    + intros _. split; [done|]. exists (g (f o)). cbn [hotObjects with_objects].
      rewrite list_lookup_insert_eq; [done|by eapply lookup_lt_Some].
Qed.

Lemma getKBlocks_step_ok offset h ids i :
  hoc_wf [] h → ∃ h' id, getKBlocks_step garbage garbageKey expandLimit numDisks offset (h, ids) i = Done (h', ids ++ [id]) ∧
    hoc_wf [] h' ∧ (∀ k' i d n, 0 < n → holds h k' i d n → holds h' k' i d n).
Proof.
  intros Hw. cbn [getKBlocks_step]. set (k := i32 _).
  set (g := λ o : hotObject D, mk_hotObject (block o) (readLocks o) (i8 (writeLocks o + 1)) (thisKey o)).
  assert (∀ h2 id o, hoc_wf [] h2 → whichBlocks h2 !! k = Some id → hotObjects h2 !! id = Some o →
    hoc_wf [] (count_locks 0 1 (with_objects (<[id := g o]> (hotObjects h2)) h2)) ∧
    (∀ k' i d n, holds h2 k' i d n → holds (count_locks 0 1 (with_objects (<[id := g o]> (hotObjects h2)) h2)) k' i d n)) as Hg.
  { intros h2 id o Hw2 Hk2 Ho2. split.
    - apply wf_count, wf_update; [done|done|done|left]. by apply (table_object h2 k).
    - intros k' j d n Hh. destruct (decide (k' = k)) as [->|Hne]; [|by apply (holds_update [] h2 k id o g)].
      destruct Hh as [Hkj (oj & Hoj & Hd & Hn)]. rewrite Hk2 in Hkj. injection Hkj as <-. rewrite Ho2 in Hoj.
      injection Hoj as <-. split; [done|]. exists (g o). cbn. rewrite list_lookup_insert_eq by (by eapply lookup_lt_Some).
      by subst. }
  destruct (whichBlocks h !! k) as [id|] eqn:Hk; cbn [mbind outcome_bind].
  - destruct (table_object h k id Hw Hk) as (Hin & o & Ho & Hkey). rewrite (update_object _ _ _ _ Ho).
    cbn [mbind outcome_bind]. destruct (Hg h id o Hw Hk Ho) as [Hw' Hkeep]. eexists _, id. split; [done|].
    split; [done|]. intros k' j d n _. apply Hkeep.
  - set (f := λ o : hotObject D, mk_hotObject (block o) (readLocks o) (writeLocks o) k).
    destruct (fetch_ok h k f Hw Hk) as (h1 & id & o & -> & Ho & Hw2 & Hun & Hkeep); [done|].
    cbn [mbind outcome_bind]. rewrite (update_object _ _ _ _ Ho). cbn [mbind outcome_bind].
    change (mk_hotObject (block o) (readLocks o) (writeLocks o) k) with (f o). set (h2 := enter id k _) in *.
    assert (hotObjects h2 !! id = Some (f o)) as Ho2 by (cbn; rewrite list_lookup_insert_eq; [done|by eapply lookup_lt_Some]).
    assert (whichBlocks h2 !! k = Some id) as Hk2 by (cbn; by rewrite lookup_insert_eq).
    rewrite (update_object _ _ _ _ Ho2). cbn [mbind outcome_bind]. destruct (Hg h2 id (f o) Hw2 Hk2 Ho2) as [Hw' Hkeep'].
    eexists _, id. split; [done|]. split; [done|]. intros k' j d n Hn Hh. by apply Hkeep', Hkeep.
Qed.

Lemma getKBlocks_ok n offset h :
  hoc_wf [] h → ∃ h' ids, getKBlocks garbage garbageKey expandLimit numDisks n offset h = Done (h', ids) ∧
    length ids = n ∧ hoc_wf [] h' ∧ (∀ k' i d n, 0 < n → holds h k' i d n → holds h' k' i d n).
Proof.
  intros Hw. unfold getKBlocks.
  destruct (foldM_total (getKBlocks_step garbage garbageKey expandLimit numDisks offset) (λ done r,
    length r.2 = length done ∧ hoc_wf [] r.1 ∧ (∀ k' i d n, 0 < n → holds h k' i d n → holds r.1 k' i d n))
    (h, []) (seq 0 n)) as ([h' ids] & Hrun & Hlen & Hw' & Hkeep); [done| |].
  - intros l1 i l2 [h1 ids] _ (Hlen & Hw1 & Hkeep). cbn [fst snd] in *.
    destruct (getKBlocks_step_ok offset h1 ids i Hw1) as (h2 & id & Hrun & Hw2 & Hkeep2).
    exists (h2, ids ++ [id]). split_and!; [exact Hrun|cbn; rewrite !length_app; cbn; lia|done|cbn; auto].
  - exists h', ids. rewrite length_seq in Hlen. by split_and!.
Qed.

Lemma run_hoc_ok h o : hoc_wf [] h → ∃ h', run_hoc h o = Done h' ∧ hoc_wf [] h'.
Proof.
  intros Hw. destruct o as [dat k|k|k|k|n offset]; cbn [run_hoc].
  - destruct (insertBlock_ok h dat k Hw) as (h' & ? & -> & ? & _). by exists h'.
  - destruct (getBlock_ok h k Hw) as (h' & ? & -> & ? & _). by exists h'.
  - destruct (doneReading_ok h k Hw) as (h' & ? & -> & ? & _). by exists h'.
  - destruct (doneWriting_ok h k Hw) as (h' & ? & -> & ? & _). by exists h'.
  - destruct (getKBlocks_ok n offset h Hw) as (h' & ? & -> & _ & ? & _). by exists h'.
Qed.

(** An operation that ends no reading and no writing of [k]. *)
Definition no_end (k : Z) (o : hoc_op D) : Prop := match o with DoneR k' | DoneW k' => k' ≠ k | _ => True end.

Lemma run_hoc_holds h o k id d n :
  hoc_wf [] h → no_end k o → 0 < n < 127 → holds h k id d n →
  ∃ h' n', run_hoc h o = Done h' ∧ hoc_wf [] h' ∧ n ≤ n' ≤ n + 1 ∧ holds h' k id d n'.
Proof.
  intros Hw Ho Hn Hh. destruct o as [dat k'|k'|k'|k'|m offset]; cbn [run_hoc no_end] in *.
  - destruct (insertBlock_ok h dat k' Hw) as (h' & ? & -> & Hw' & _ & Hkeep & _). exists h', n.
    split_and!; [done|done|lia|lia|]. apply Hkeep; [lia|done].
  - destruct (getBlock_ok h k' Hw) as (h' & ? & -> & Hw' & _ & _ & Hkeep & Hmine). destruct (decide (k = k')) as [<-|Hne].
    + exists h', (n + 1). split_and!; [done|done|lia|lia|]. specialize (Hmine id d n Hh).
      assert (i8 (n + 1) = n + 1) as <-; [|done]. unfold i8. rewrite Z.mod_small; lia.
    + exists h', n. split_and!; [done|done|lia|lia|]. by apply Hkeep.
  - destruct (doneReading_ok h k' Hw) as (h' & ? & -> & Hw' & Hkeep). exists h', n. split_and!; [done|done|lia|lia|]. by apply Hkeep.
  - destruct (doneWriting_ok h k' Hw) as (h' & ? & -> & Hw' & Hkeep). exists h', n. split_and!; [done|done|lia|lia|]. by apply Hkeep.
  - destruct (getKBlocks_ok m offset h Hw) as (h' & ? & -> & _ & Hw' & Hkeep). exists h', n. split_and!; [done|done|lia|lia|].
    apply Hkeep; [lia|done].
Qed.

Lemma run_hocs_holds ops : ∀ h k id d n,
  hoc_wf [] h → Forall (no_end k) ops → 0 < n → n + Z.of_nat (length ops) ≤ 127 → holds h k id d n →
  ∃ h' n', foldM run_hoc h ops = Done h' ∧ 0 < n' ∧ holds h' k id d n'.
Proof.
  induction ops as [|o ops IH]; intros h k id d n Hw Hops Hn Hlen Hh; [by exists h, n|].
  apply Forall_cons in Hops as [Ho Hops]. cbn [length] in Hlen. cbn [foldM].
  destruct (run_hoc_holds h o k id d n Hw Ho) as (h1 & n1 & -> & Hw1 & Hn1 & Hh1); [lia|done|].
  destruct (IH h1 k id d n1 Hw1 Hops) as (h' & n' & Hrun & Hn' & Hh'); [lia|lia|done|].
  exists h', n'. by split_and!.
Qed.

Lemma init_wf : hoc_wf [] (initHOC garbage garbageKey).
Proof.
  split; unfold initHOC, expandHOC; cbn [allBlocks freeList hotObjects whichBlocks app length].
  - rewrite length_replicate, app_nil_r, reverse_Permutation. done.
  - intros k id. rewrite lookup_empty. split; [done|]. by intros [?%elem_of_nil _].
  - intros id o _ [-> _]%lookup_replicate. done.
  - rewrite length_replicate. unfold EXPAND_SIZE. lia.
Qed.

(** C29: the hot object cache never stops the process: from [initHOC] every
    sequence of operations goes through, whatever its limit.  No block is lost
    or handed out twice, since those in use and those that are free are all
    that were allocated, each once, and the table finds exactly the blocks in
    use, under their own keys. *)
Theorem hoc_serves_every_sequence (ops : list (hoc_op D)) :
  ∃ h, foldM run_hoc (initHOC garbage garbageKey) ops = Done h ∧
    allBlocks h ++ freeList h ≡ₚ seq 0 (length (hotObjects h)) ∧
    ∀ k id, whichBlocks h !! k = Some id ↔ id ∈ allBlocks h ∧ thisKey <$> hotObjects h !! id = Some k.
Proof.
  destruct (foldM_total run_hoc (λ _ h, hoc_wf [] h) (initHOC garbage garbageKey) ops init_wf) as (h & Hrun & [Hall Htab _ _]).
  - intros l1 o l2 h _ Hw. by apply run_hoc_ok.
  - by exists h.
Qed.

(** A block that [getBlock] gave to a reader stays: until the reading or a
    writing of it is ended, it is found under its key with the same contents,
    and its memory is not reused, while there are no more than 127 readers. *)
Theorem read_block_stays (before after : list (hoc_op D)) (h h1 : hoc D) (k : Z) (id : nat) (d : D) (n : Z) :
  foldM run_hoc (initHOC garbage garbageKey) before = Done h →
  holds h k id d n → 0 ≤ n → n + 1 + Z.of_nat (length after) ≤ 127 →
  getBlock k h = Done (h1, Some id) → Forall (no_end k) after →
  ∃ h', foldM run_hoc h1 after = Done h' ∧ whichBlocks h' !! k = Some id ∧ block <$> hotObjects h' !! id = Some d.
Proof.
  intros Hbefore Hh Hn Hlen Hget Hafter.
  assert (hoc_wf [] h) as Hw.
  { destruct (foldM_total run_hoc (λ _ h, hoc_wf [] h) (initHOC garbage garbageKey) before init_wf) as (h0 & Hrun & Hw).
    - intros l1 o l2 h0 _ Hw0. by apply run_hoc_ok.
    - rewrite Hbefore in Hrun. by injection Hrun as ->. }
  destruct (getBlock_ok h k Hw) as (h1' & r & Hget' & Hw1 & _ & _ & _ & Hmine). rewrite Hget in Hget'. injection Hget' as <- _.
  specialize (Hmine id d n Hh). assert (i8 (n + 1) = n + 1) as Hi by (unfold i8; rewrite Z.mod_small; lia). rewrite Hi in Hmine.
  destruct (run_hocs_holds after h1 k id d (n + 1) Hw1 Hafter) as (h' & n' & Hrun & _ & Hk & o & Ho & Hd & _); [lia|lia|done|].
  exists h'. split_and!; [done|done|]. rewrite Ho. cbn. by rewrite Hd.
Qed.

(** A new block takes the object of [getOldHOB]. *)
Lemma insert_new h h1 id dat k :
  hoc_wf [] h → whichBlocks h !! k = None → getOldHOB garbage garbageKey expandLimit h = Done (h1, id) →
  ∃ h', insertBlock garbage garbageKey expandLimit dat k h = Done (h', id) ∧ holds h' k id dat 0.
Proof.
  intros Hw Hk Hget. destruct (insertBlock_ok h dat k Hw) as (h' & id' & Hins & Hw' & _ & _ & Hnew & _).
  specialize (Hnew Hk). assert (id' = id) as ->; [|by exists h'].
  unfold insertBlock in Hins. rewrite Hk, Hget in Hins. cbn [mbind outcome_bind] in Hins.
  apply bind_Done in Hins as (os & _ & Hins). apply bind_Done in Hins as (o & _ & Hins).
  destruct (_ || _); [done|]. apply bind_Done in Hins as (os' & _ & Hins). by injection Hins.
Qed.

(** Three ways to lose what a reader or a writer has.  The count of readers
    is a [char]: the 128th reader makes it -128, and a block with that count is
    taken for a new one when its turn comes.  [doneWriting] frees a block
    whatever its readers, and the next new block overwrites it.  And a block
    that is read from the disk again does not replace the old one. *)
Theorem hoc_locks_fail (h : hoc D) (k k' : Z) (id : nat) (d dat : D) (n : Z) :
  hoc_wf [] h → holds h k id d n → whichBlocks h !! k' = None → freeList h = [] →
  (n = 127 → ∃ h1, getBlock k h = Done (h1, Some id) ∧ holds h1 k id d (-128)) ∧
  (n = -128 → ∀ o rest, hotObjects h !! id = Some o → writeLocks o ≤ 0 → allBlocks h = id :: rest →
     expandLimit ≤ expandCount h →
     ∃ h', insertBlock garbage garbageKey expandLimit dat k' h = Done (h', id) ∧ holds h' k' id dat 0) ∧
  (∃ h1 h', doneWriting k h = Done (h1, 0) ∧
     insertBlock garbage garbageKey expandLimit dat k' h1 = Done (h', id) ∧ holds h' k' id dat 0) ∧
  (∃ h1, insertBlock garbage garbageKey expandLimit dat k h = Done (h1, id) ∧ holds h1 k id d n).
Proof.
  intros Hw Hh Hk' Hfree. pose proof Hh as [Hk (o & Ho & Hd & Hn)]. split_and!.
  - intros ->. destruct (getBlock_ok h k Hw) as (h1 & r & Hget & _ & -> & _ & _ & Hmine). exists h1.
    rewrite Hk in Hget. split; [done|]. exact (Hmine id d 127 Hh).
  - intros -> o' rest Ho' Hwl Hall Hlimit. rewrite Ho in Ho'. injection Ho' as <-.
    destruct (table_object h k id Hw Hk) as (_ & o' & Ho' & Hkey). rewrite Ho in Ho'. injection Ho' as <-.
    eapply insert_new; [done|done|]. unfold getOldHOB. rewrite Hfree. cbn [length Nat.ltb Nat.leb].
    rewrite (proj2 (Z.ltb_ge _ _) Hlimit). cbn [deleteLRU]. rewrite Hall. cbn [head_of mbind outcome_bind].
    rewrite (proj2 (get_Done _ _ _) Ho). cbn [mbind outcome_bind]. rewrite Hkey, Hk, (proj2 (get_Done _ _ _) Ho).
    cbn [mbind outcome_bind]. rewrite Hn, (proj2 (Z.ltb_ge _ _) Hwl). done.
  - destruct (doneWriting_ok h k Hw) as (h1 & r & Hdone & Hw1 & _). unfold doneWriting in *. rewrite Hk in *.
    rewrite (update_object _ _ _ _ Ho) in *. cbn [mbind outcome_bind] in *. injection Hdone as <- <-.
    match type of Hw1 with hoc_wf [] ?s => set (h1 := s) in * end.
    destruct (insert_new h1 (with_free [] h1) id dat k' Hw1) as (h' & Hins & Hh').
    + cbn. apply lookup_delete_None. by right.
    + assert (freeList h1 = [id]) as Hf by (cbn; by rewrite Hfree).
      unfold getOldHOB, take_free. rewrite Hf. done.
    + by exists h1, h'.
  - destruct (insertBlock_ok h dat k Hw) as (h1 & id' & Hins & _ & Hk1 & _ & _ & Hsame).
    destruct (Hsame id Hk) as [-> Hobj]. exists h1. split; [done|]. split; [done|]. exists o. by rewrite Hobj.
Qed.
End theory.

(** A cache with a block, and with a reader of it. *)
Definition one_block : hoc Z :=
  match foldM (run_hoc 0 0 1 1) (initHOC 0 0) [Insert 42 5] with Done h => h | Fault _ => initHOC 0 0 end.
Definition one_reader : hoc Z := match getBlock 5 one_block with Done (h, _) => h | Fault _ => one_block end.

Lemma read_block_stays_witness : ∃ h',
  foldM (run_hoc 0 0 1 1) one_reader [Insert 43 6; GetK 2 5; DoneR 6; Insert 44 5] = Done h' ∧
  whichBlocks h' !! 5 = Some 511%nat ∧ block <$> hotObjects h' !! 511%nat = Some 42.
Proof.
  apply (read_block_stays 0 0 1 1 [Insert 42 5] [Insert 43 6; GetK 2 5; DoneR 6; Insert 44 5] one_block one_reader 5 511 42 0).
  - vm_compute. reflexivity.
  - split; [vm_compute; reflexivity|]. eexists. split; [vm_compute; reflexivity|]. by split.
  - lia.
  - cbn. lia.
  - vm_compute. reflexivity.
  - repeat constructor. cbn. lia.
Defined.

(** A cache of one block, with 127 readers. *)
Definition crowded : hoc Z := mk_hoc [mk_hotObject 42 127 0 5] [0%nat] [] {[ 5 := 0%nat ]} 1 127 0.

Lemma crowded_wf : hoc_wf [] crowded.
Proof.
  split; [done| | |cbn; lia].
  - intros k id. cbn. rewrite lookup_singleton_Some, list_elem_of_singleton. split.
    + by intros [<- <-].
    + intros [-> Hk]. cbn in Hk. injection Hk as <-. done.
  - intros id o Hid. by apply elem_of_nil in Hid.
Qed.

Lemma hoc_locks_fail_witness :
  (∃ h1, getBlock 5 crowded = Done (h1, Some 0%nat) ∧ holds h1 5 0 42 (-128)) ∧
  ∃ h1 h', doneWriting 5 crowded = Done (h1, 0) ∧ insertBlock 0 0 1 99 6 h1 = Done (h', 0%nat) ∧ holds h' 6 0 99 0.
Proof.
  destruct (hoc_locks_fail 0 0 1 crowded 5 6 0 42 99 127) as (H1 & _ & H2 & _).
  - apply crowded_wf.
  - split; [reflexivity|]. eexists. split; [reflexivity|]. by split.
  - reflexivity.
  - reflexivity.
  - split; [by apply H1|exact H2].
Defined.
