(* ===== verification/HcElevator.v ===== *)
(** * HashCache: scheduling the requests of a disk

    [src/HashCache/src/elevator.c], with the read branch of the handler of disk
    replies and [schedulePendingDiskRequests] in loop.c: requests wait in
    [currentList] until a sweep sorts them by their place and merges neighbours,
    and one merged request is with the helper at a time.  The sort is the one of
    [HcList]; the other lists are sequences.  The clock is given by whether the
    time between sweeps has passed. *)

From Stdlib Require Import ZArith Lia.
From stdpp Require Import base list option numbers gmap sorting.
From S2P Require Import Prelude HcList HcLog.

Definition NUMBER_CUTOFF : Z := 15.
(** 256 * 1024 / FILE_BLOCK_SIZE *)
Definition READ_BUFFER_SIZE : Z := 128.

Inductive request_type := READ | WRITE | READ_MERGE.

Record diskRequest := mk_diskRequest {
  dr_type : request_type;
  dr_remOffset : Z;
  dr_writeLen : Z;
  dr_entry : nat
}.

Record eleRequest := mk_eleRequest {
  requests : list diskRequest;
  mergedType : request_type;
  mergedOffset : Z;
  mergedLen : Z;
  curEnd : Z
}.

Record elevator := mk_elevator {
  currentList : list diskRequest;
  sortedList : list eleRequest;
  scheduled : bool
}.

#[export] Instance request_type_eq_dec : EqDecision request_type.
Proof. solve_decision. Defined.

(** ** A sweep *)

Section sweep.
Context `{Malloc} (numDisks bufferSize : Z).

(** The elements of a list, from the head. *)
Fixpoint read_out (fuel : nat) (L : llist diskRequest) (p : ptr) : outcome (list diskRequest) :=
  match fuel with
  | O => Done []
  | S fuel => e ← deref L p; rest ← read_out fuel L (el_next e); Done (el_data e :: rest)
  end.

Definition sort_requests (current : list diskRequest) : outcome (list diskRequest) :=
  L ← foldM (λ L p, addToHead L (dr_remOffset p) p) create current;
  L ← sort L;
  read_out (Z.to_nat (l_size L)) L (l_head L).

Definition createEleRequest : eleRequest := mk_eleRequest [] READ 0 0 0.

(** What [checkContinuity] returns, and the merged request it starts. *)
Definition checkContinuity (e : eleRequest) (p : diskRequest) : eleRequest * request_type :=
  if (length (requests e) =? 0)%nat then
    let e := mk_eleRequest [] (dr_type p) (dr_remOffset p) 0
               (i32 (dr_remOffset p + numDisks * Z.quot (dr_writeLen p) FILE_BLOCK_SIZE)) in
    (e, if decide (dr_type p = WRITE) then WRITE else READ_MERGE)
  else if decide (dr_type p = WRITE) then (e, WRITE)
  else if bufferSize <? i32 (mergedLen e + dr_writeLen p) then (e, READ)
  else (e, if i32 (curEnd e + numDisks) =? dr_remOffset p then READ_MERGE else READ).

Definition mergeRequest (e : eleRequest) (p : diskRequest) : eleRequest :=
  mk_eleRequest (requests e ++ [p]) (mergedType e) (mergedOffset e) (i32 (mergedLen e + dr_writeLen p)) (curEnd e).

(** The inner loop: the merged request, and what is left of the sorted list. *)
Fixpoint fill (e : eleRequest) (l : list diskRequest) : eleRequest * list diskRequest :=
  match l with
  | [] => (e, [])
  | p :: l' =>
      let '(e1, code) := checkContinuity e p in
      if decide (code = READ_MERGE) then fill (mergeRequest e1 p) l'
      else if (length (requests e1) =? 0)%nat then (mergeRequest e1 p, l')
      else (e1, l)
  end.

Fixpoint merge_all (fuel : nat) (l : list diskRequest) : outcome (list eleRequest) :=
  match l, fuel with
  | [], _ => Done []
  | _, O => Fault OutOfFuel
  | _, S fuel =>
      let '(e, rest) := fill createEleRequest l in
      more ← merge_all fuel rest;
      Done (e :: more)
  end.

Definition formSchedule (el : elevator) : outcome elevator :=
  sorted ← sort_requests (currentList el);
  merged ← merge_all (length sorted) sorted;
  Done (mk_elevator [] merged (scheduled el)).

(** ** Dispatching *)

(** [late]: no less than [TIME_CUTOFF] since the last sweep.  What is returned
    is what was written to the helper. *)
Definition scheduleNextRequest (late : bool) (el : elevator) : outcome (elevator * option eleRequest) :=
  if (length (sortedList el) =? 0)%nat && (Z.of_nat (length (currentList el)) <? NUMBER_CUTOFF) && negb late
  then Done (el, None)
  else
    el ← (if (length (sortedList el) =? 0)%nat then formSchedule el else Done el);
    match sortedList el with
    | [] => Done (el, None)
    | e :: rest =>
        if scheduled el then Done (el, None)
        else Done (mk_elevator (currentList el) rest true, Some e)
    end.

Definition addRequest (late : bool) (p : diskRequest) (el : elevator) : outcome (elevator * option eleRequest) :=
  scheduleNextRequest late (mk_elevator (currentList el ++ [p]) (sortedList el) (scheduled el)).

Definition returnElevator (el : elevator) : elevator := mk_elevator (currentList el) (sortedList el) false.

(** What [schedulePendingDiskRequests] makes of a read of so many blocks. *)
Definition pending_request (p : diskRequest) : diskRequest :=
  let len := if READ_BUFFER_SIZE <? dr_writeLen p then READ_BUFFER_SIZE else dr_writeLen p in
  mk_diskRequest (dr_type p) (dr_remOffset p) (i32 (len * FILE_BLOCK_SIZE)) (dr_entry p).

(** The blocks that the helper reads for a merged request. *)
Definition blocks_read (e : eleRequest) : list Z :=
  (λ i : nat, mergedOffset e + Z.of_nat i * numDisks) <$> seq 0 (Z.to_nat (Z.quot (mergedLen e) FILE_BLOCK_SIZE)).

(** The reply to a read: every response of every merged request goes on at the
    place of the reply. *)
Definition read_reply (e : eleRequest) : list (nat * Z) :=
  (λ p, (dr_entry p, mergedOffset e)) <$> requests e.
End sweep.

(** ** The sort and the merging *)

Section theory.
Context `{Malloc} (numDisks bufferSize : Z).

Definition by_place (p q : diskRequest) : Prop := dr_remOffset p ≤ dr_remOffset q.

(** Items that carry a request under its place. *)
Definition item_of (x : item diskRequest) : Prop := it_value x = dr_remOffset (it_data x).

Lemma load_ok current : ∀ L xs,
  rep L xs None → Forall item_of xs →
  ∃ L' ys, foldM (λ L p, addToHead L (dr_remOffset p) p) L current = Done L' ∧ rep L' ys None ∧ Forall item_of ys ∧
    it_data <$> ys = reverse current ++ (it_data <$> xs).
Proof.
  induction current as [|p current IH]; intros L xs Hr Hx; [by exists L, xs|]. cbn [foldM].
  destruct (addToHead_ok L xs None (dr_remOffset p) p Hr) as (L1 & tn & -> & Hr1 & Htn & _).
  rewrite (Htn (or_intror eq_refl)) in Hr1. cbn [mbind outcome_bind].
  destruct (IH L1 _ Hr1) as (L' & ys & -> & Hr' & Hy & Hd); [by constructor|].
  exists L', ys. split_and!; [done|done|done|]. rewrite Hd, reverse_cons, <-app_assoc. done.
Qed.

Lemma read_out_ok L l r :
  rep L (l ++ r) None → read_out (length r) L (first r None) = Done (it_data <$> r).
Proof.
  revert l. induction r as [|x r IH]; intros l Hr; [done|]. cbn [length read_out first].
  rewrite (rep_deref _ _ _ _ _ Hr). cbn [mbind outcome_bind el_next el_data].
  rewrite (IH (l ++ [x])); [done|]. by rewrite <-app_assoc.
Qed.

Lemma sort_requests_ok current :
  ∃ l, sort_requests current = Done l ∧ l ≡ₚ current ∧ StronglySorted by_place l.
Proof.
  unfold sort_requests. destruct (load_ok current create [] (rep_create None)) as (L & xs & -> & Hr & Hx & Hd); [done|].
  cbn [mbind outcome_bind]. destruct (sort_ok L xs Hr) as (L' & ys & -> & Hr' & Hp & Hs). cbn [mbind outcome_bind].
  exists (it_data <$> ys). rewrite (rep_size _ _ _ Hr'), Nat2Z.id, (rep_head _ _ _ Hr').
  rewrite (read_out_ok L' [] ys Hr'). split_and!; [done| |].
  - rewrite Hp, Hd. cbn. by rewrite app_nil_r, reverse_Permutation.
  - assert (Forall item_of ys) as Hy by (by rewrite Hp). clear - Hs Hy.
    induction Hs as [|x ys Hs IH Hall]; [constructor|]. apply Forall_cons in Hy as [Hx Hy]. constructor; [by apply IH|].
    apply Forall_forall. intros q (y & -> & Hin)%list_elem_of_fmap.
    pose proof (proj1 (Forall_forall _ _) Hall y Hin). pose proof (proj1 (Forall_forall _ _) Hy y Hin).
    unfold by_place, item_of in *. lia.
Qed.

(** What a merged request is, once it has requests. *)
Record merged (e : eleRequest) (p : diskRequest) (qs : list diskRequest) : Prop := {
  me_requests : requests e = p :: qs;
  me_offset : mergedOffset e = dr_remOffset p;
  me_end : curEnd e = i32 (dr_remOffset p + numDisks * Z.quot (dr_writeLen p) FILE_BLOCK_SIZE);
  me_next : Forall (λ q, dr_type q ≠ WRITE ∧ dr_remOffset q = i32 (curEnd e + numDisks)) qs;
  me_len : mergedLen e = foldl (λ n q, i32 (n + dr_writeLen q)) 0 (p :: qs)
}.

Lemma fill_merged l : ∀ e p qs,
  merged e p qs → ∃ e' taken rest, fill numDisks bufferSize e l = (e', rest) ∧ l = taken ++ rest ∧ merged e' p (qs ++ taken).
Proof.
  induction l as [|q l IH]; intros e p qs He; [exists e, [], []; by rewrite !app_nil_r|].
  cbn [fill]. unfold checkContinuity. rewrite (me_requests _ _ _ He). cbn [length Nat.eqb].
  assert (∃ e' taken rest, (e, q :: l) = (e', rest) ∧ q :: l = taken ++ rest ∧ merged e' p (qs ++ taken)) as Hstop.
  { exists e, [], (q :: l). by rewrite !app_nil_r. }
  assert ((length (requests e) =? 0)%nat = false) as Hz by (by rewrite (me_requests _ _ _ He)).
  destruct (decide (dr_type q = WRITE)) as [Hw|Hw].
  { rewrite decide_False by done. by rewrite Hz. }
  destruct (bufferSize <? _).
  { rewrite decide_False by done. by rewrite Hz. }
  destruct (Z.eqb_spec (i32 (curEnd e + numDisks)) (dr_remOffset q)) as [Heq|Hne].
  2: { rewrite decide_False by done. by rewrite Hz. }
  rewrite decide_True by done.
  destruct (IH (mergeRequest e q) p (qs ++ [q])) as (e' & taken & rest & -> & -> & He').
  - destruct He as [H1 H2 H3 H4 H5]. split; cbn; [by rewrite H1|done|done| |].
    + apply Forall_app. split; [done|]. by constructor.
    + rewrite H5. cbn [foldl]. by rewrite foldl_app.
  - exists e', (q :: taken), rest. rewrite <-app_assoc in He'. done.
Qed.

Lemma fill_ok p l :
  ∃ e taken rest, fill numDisks bufferSize createEleRequest (p :: l) = (e, rest) ∧ l = taken ++ rest ∧ merged e p taken.
Proof.
  cbn [fill]. unfold checkContinuity. cbn [length Nat.eqb requests createEleRequest].
  set (e1 := mk_eleRequest [] _ _ _ _).
  assert (merged (mergeRequest e1 p) p []) as He by (by split).
  destruct (decide (dr_type p = WRITE)) as [Hw|Hw].
  - rewrite decide_False by done. cbn [requests length Nat.eqb]. exists (mergeRequest e1 p), [], l. done.
  - rewrite decide_True by done. by apply (fill_merged l) in He.
Qed.

Lemma merge_all_ok fuel : ∀ l,
  (length l ≤ fuel)%nat →
  ∃ es, merge_all numDisks bufferSize fuel l = Done es ∧ mjoin (requests <$> es) = l ∧
    Forall (λ e, ∃ p qs, merged e p qs) es ∧ (length es ≤ length l)%nat.
Proof.
  induction fuel as [|fuel IH]; intros [|p l] Hl; try (by exists []); [cbn in Hl; lia|].
  cbn [merge_all]. destruct (fill_ok p l) as (e & taken & rest & -> & -> & He). cbn [length] in Hl. rewrite length_app in Hl.
  destruct (IH rest) as (es & -> & Hes & Hall & Hlen); [lia|]. cbn [mbind outcome_bind].
  exists (e :: es). split_and!; [done| |constructor; [by exists p, taken|done]|cbn; rewrite length_app; lia].
  change (requests e ++ mjoin (requests <$> es) = p :: taken ++ rest). by rewrite Hes, (me_requests _ _ _ He).
Qed.

Lemma formSchedule_ok el :
  ∃ es, formSchedule numDisks bufferSize el = Done (mk_elevator [] es (scheduled el)) ∧
    mjoin (requests <$> es) ≡ₚ currentList el ∧ StronglySorted by_place (mjoin (requests <$> es)) ∧
    Forall (λ e, ∃ p qs, merged e p qs) es ∧ (length es ≤ length (currentList el))%nat ∧
    (currentList el ≠ [] → es ≠ []).
Proof.
  unfold formSchedule. destruct (sort_requests_ok (currentList el)) as (l & -> & Hp & Hs). cbn [mbind outcome_bind].
  destruct (merge_all_ok (length l) l) as (es & -> & Hes & Hall & Hlen); [lia|]. cbn [mbind outcome_bind].
  exists es. rewrite Hes. split_and!; [done|done|done|done|by rewrite Hp in Hlen|].
  intros Hne ->. apply Hne. cbn in Hes. subst l. symmetry in Hp. by apply Permutation_nil_r in Hp.
Qed.

(** ** Sequences of operations *)

Inductive el_op := Add (late : bool) (p : diskRequest) | Tick (late : bool) | Reply.

Definition run_el (st : elevator * list eleRequest) (o : el_op) : outcome (elevator * list eleRequest) :=
  '(el, out) ←
    (match o with
     | Add late p => addRequest numDisks bufferSize late p st.1
     | Tick late => scheduleNextRequest numDisks bufferSize late st.1
     | Reply => Done (returnElevator st.1, None)
     end);
  Done (el, st.2 ++ option_list out).

Definition added (ops : list el_op) : list diskRequest :=
  omap (λ o, match o with Add _ p => Some p | _ => None end) ops.

(** All the requests of a state, and those that were sent. *)
Definition inside (el : elevator) : list diskRequest := mjoin (requests <$> sortedList el) ++ currentList el.

Definition el_ok (el : elevator) : Prop := Forall (λ e, ∃ p qs, merged e p qs) (sortedList el).

(** The number of requests to send before the elevator is empty, at most. *)
Definition load (el : elevator) : nat := (length (sortedList el) + length (currentList el))%nat.

Lemma scheduleNextRequest_ok late el :
  el_ok el → ∃ el' out, scheduleNextRequest numDisks bufferSize late el = Done (el', out) ∧ el_ok el' ∧
    inside el ≡ₚ mjoin (requests <$> option_list out) ++ inside el' ∧
    Forall (λ e, ∃ p qs, merged e p qs) (option_list out) ∧
    (scheduled el = true → out = None ∧ scheduled el' = true) ∧
    (scheduled el = false → scheduled el' = bool_decide (is_Some out)) ∧
    (length (option_list out) + load el' ≤ load el)%nat ∧
    (late = true → scheduled el = false → load el ≠ 0%nat → is_Some out).
Proof.
  intros Hok. unfold scheduleNextRequest.
  assert (∀ el1, el_ok el1 → ∃ el' out,
    (match sortedList el1 with
     | [] => Done (el1, None)
     | e :: rest => if scheduled el1 then Done (el1, None) else Done (mk_elevator (currentList el1) rest true, Some e)
     end) = Done (el', out) ∧ el_ok el' ∧ inside el1 ≡ₚ mjoin (requests <$> option_list out) ++ inside el' ∧
    Forall (λ e, ∃ p qs, merged e p qs) (option_list out) ∧
    (scheduled el1 = true → out = None ∧ scheduled el' = true) ∧
    (scheduled el1 = false → scheduled el' = bool_decide (is_Some out)) ∧
    (length (option_list out) + load el' ≤ load el1)%nat ∧
    (scheduled el1 = false → sortedList el1 ≠ [] → is_Some out)) as Hsend.
  { intros [cur sorted sch] Hok1. unfold el_ok, inside, load in *. cbn in *. destruct sorted as [|e rest].
    - exists (mk_elevator cur [] sch), None. split_and!; done || constructor.
    - destruct sch.
      + exists (mk_elevator cur (e :: rest) true), None. split_and!; done || constructor.
      + apply Forall_cons in Hok1 as [He Hok1]. exists (mk_elevator cur rest true), (Some e). cbn.
        split_and!; [done|done|by rewrite app_nil_r, app_assoc|by constructor|done|done|lia|by eexists]. }
  destruct (Nat.eqb_spec (length (sortedList el)) 0) as [Hz|Hnz]; cbn [andb].
  2: { cbn [mbind outcome_bind]. destruct (Hsend el Hok) as (el' & out & -> & H1 & H2 & H3 & H4 & H5 & H6 & H7).
       exists el', out. split_and!; [done|done|done|done|done|done|done|].
       intros _ Hs _. apply H7; [done|]. intros Heq. by rewrite Heq in Hnz. }
  apply nil_length_inv in Hz. destruct ((Z.of_nat (length (currentList el)) <? NUMBER_CUTOFF) && negb late) eqn:Hwait.
  - exists el, None. split_and!; try done; try constructor.
    intros -> _ _. by rewrite andb_false_r in Hwait.
  - destruct (formSchedule_ok el) as (es & -> & Hp & _ & Hall & Hlen & Hne). cbn [mbind outcome_bind].
    destruct (Hsend (mk_elevator [] es (scheduled el)) Hall) as (el' & out & -> & H1 & H2 & H3 & H4 & H5 & H6 & H7).
    exists el', out. unfold inside, load in *. cbn in *. rewrite Hz in *. cbn. split_and!; [done|done| |done|done|done|lia|].
    + rewrite <-H2, app_nil_r. by rewrite Hp.
    + intros _ Hs Hl. apply H7; [done|]. apply Hne. intros Heq. by rewrite Heq in Hl.
Qed.

Lemma run_el_ok st o :
  el_ok st.1 → Forall (λ e, ∃ p qs, merged e p qs) st.2 →
  ∃ st', run_el st o = Done st' ∧ el_ok st'.1 ∧ Forall (λ e, ∃ p qs, merged e p qs) st'.2 ∧
    mjoin (requests <$> st'.2) ++ inside st'.1 ≡ₚ mjoin (requests <$> st.2) ++ inside st.1 ++ added [o].
Proof.
  destruct st as [el sent]. cbn [fst snd]. intros Hok Hsent.
  assert (∀ el0 extra, el_ok el0 → inside el0 ≡ₚ inside el ++ extra → ∀ late, ∃ el' out,
    scheduleNextRequest numDisks bufferSize late el0 = Done (el', out) ∧ el_ok el' ∧
    Forall (λ e, ∃ p qs, merged e p qs) (sent ++ option_list out) ∧
    mjoin (requests <$> sent ++ option_list out) ++ inside el' ≡ₚ mjoin (requests <$> sent) ++ inside el ++ extra) as Hs.
  { intros el0 extra Hok0 Hin late. destruct (scheduleNextRequest_ok late el0 Hok0) as (el' & out & Hrun & Hok' & Hp & Hm & _).
    exists el', out. split_and!; [done|done|by apply Forall_app|]. by rewrite fmap_app, join_app, <-app_assoc, <-Hp, Hin. }
  destruct o as [late p|late|]; unfold run_el, added; cbn [fst snd omap list_omap].
  - destruct (Hs (mk_elevator (currentList el ++ [p]) (sortedList el) (scheduled el)) [p]) with late as
      (el' & out & Hrun & H1 & H2 & H3); [done|unfold inside; cbn; by rewrite app_assoc|].
    unfold addRequest. rewrite Hrun. cbn [mbind outcome_bind]. eexists. split; [done|]. done.
  - destruct (Hs el [] Hok) with late as (el' & out & Hrun & H1 & H2 & H3); [by rewrite app_nil_r|].
    rewrite Hrun. cbn [mbind outcome_bind]. eexists. split; [done|]. done.
  - cbn [mbind outcome_bind]. eexists. split; [done|]. cbn. rewrite !app_nil_r. done.
Qed.

Lemma run_els_ok ops : ∀ st,
  el_ok st.1 → Forall (λ e, ∃ p qs, merged e p qs) st.2 →
  ∃ st', foldM run_el st ops = Done st' ∧ el_ok st'.1 ∧ Forall (λ e, ∃ p qs, merged e p qs) st'.2 ∧
    mjoin (requests <$> st'.2) ++ inside st'.1 ≡ₚ mjoin (requests <$> st.2) ++ inside st.1 ++ added ops.
Proof.
  induction ops as [|o ops IH]; intros st Hok Hsent.
  - exists st. split_and!; [done|done|done|]. cbn. by rewrite app_nil_r.
  - cbn [foldM]. destruct (run_el_ok st o Hok Hsent) as (st1 & -> & Hok1 & Hsent1 & Hp1). cbn [mbind outcome_bind].
    destruct (IH st1 Hok1 Hsent1) as (st' & -> & Hok' & Hsent' & Hp'). exists st'. split_and!; [done|done|done|].
    rewrite Hp', app_assoc, Hp1, <-!app_assoc. f_equiv. f_equiv. unfold added. by destruct o.
Qed.

(** A reply of the helper, and a look at the clock when a sweep is due. *)
Lemma round_ok el : el_ok el →
  ∃ el' out, scheduleNextRequest numDisks bufferSize true (returnElevator el) = Done (el', out) ∧ el_ok el' ∧
    inside el ≡ₚ mjoin (requests <$> option_list out) ++ inside el' ∧ (load el' ≤ pred (load el))%nat.
Proof.
  intros Hok. destruct (scheduleNextRequest_ok true (returnElevator el) Hok) as
    (el' & out & Hrun & Hok' & Hp & _ & _ & _ & Hload & Hsome).
  exists el', out. split_and!; [done|done|done|]. change (load (returnElevator el)) with (load el) in *.
  destruct (decide (load el = 0%nat)) as [Hz|Hnz]; [lia|].
  destruct (Hsome eq_refl eq_refl Hnz) as [e ->]. cbn in Hload. lia.
Qed.

Lemma load_empty el : load el = 0%nat → sortedList el = [] ∧ currentList el = [].
Proof. unfold load. destruct (sortedList el), (currentList el); by intros. Qed.

Lemma rounds_ok n : ∀ el sent,
  el_ok el → (load el ≤ n)%nat →
  ∃ el' sent', foldM run_el (el, sent) (mjoin (replicate n [Reply; Tick true])) = Done (el', sent') ∧
    mjoin (requests <$> sent') ≡ₚ mjoin (requests <$> sent) ++ inside el ∧ load el' = 0%nat.
Proof.
  induction n as [|n IH]; intros el sent Hok Hn.
  - exists el, sent. split_and!; [done| |lia]. destruct (load_empty el) as [Hs Hc]; [lia|].
    unfold inside. rewrite Hs, Hc. cbn. by rewrite app_nil_r.
  - destruct (round_ok el Hok) as (el1 & out & Hrun & Hok1 & Hp & Hl).
    destruct (IH el1 (sent ++ option_list out) Hok1) as (el' & sent' & Hrun' & Hp' & Hnil); [lia|].
    exists el', sent'. split_and!; [|by rewrite Hp', fmap_app, join_app, <-app_assoc, <-Hp|done].
    change (mjoin (replicate (S n) [Reply; Tick true])) with ([Reply; Tick true] ++ mjoin (replicate n [Reply; Tick true])).
    rewrite foldM_app. cbn [foldM].
    assert (run_el (el, sent) Reply = Done (returnElevator el, sent)) as -> by (unfold run_el; cbn; by rewrite app_nil_r).
    cbn [mbind outcome_bind].
    assert (run_el (returnElevator el, sent) (Tick true) = Done (el1, sent ++ option_list out)) as ->
      by (unfold run_el; cbn [fst snd]; by rewrite Hrun).
    exact Hrun'.
Qed.

(** C30: no request is lost or sent twice: whatever requests, replies and looks
    at the clock come in, every operation goes through, and the requests that
    were added are those in the merged requests that were sent, and those
    that wait in a sweep or for the next. *)
Theorem elevator_keeps_requests (ops : list el_op) :
  ∃ el sent, foldM run_el (mk_elevator [] [] false, []) ops = Done (el, sent) ∧
    mjoin (requests <$> sent) ++ mjoin (requests <$> sortedList el) ++ currentList el ≡ₚ added ops.
Proof.
  destruct (run_els_ok ops (mk_elevator [] [] false, [])) as ([el sent] & Hrun & _ & _ & Hp); [constructor|constructor|].
  exists el, sent. split; [done|]. exact Hp.
Qed.

(** C31: every request is sent in the end: from any state that the operations
    reach, as many rounds as there are requests waiting, of a reply and of a
    look at the clock when a sweep is due, send them all. *)
Theorem elevator_sends_all (ops : list el_op) (el : elevator) (sent : list eleRequest) (n : nat) :
  foldM run_el (mk_elevator [] [] false, []) ops = Done (el, sent) →
  (length (sortedList el) + length (currentList el) ≤ n)%nat →
  ∃ el' sent', foldM run_el (el, sent) (mjoin (replicate n [Reply; Tick true])) = Done (el', sent') ∧
    mjoin (requests <$> sent') ≡ₚ added ops ∧ sortedList el' = [] ∧ currentList el' = [].
Proof.
  intros Hrun Hn.
  destruct (run_els_ok ops (mk_elevator [] [] false, [])) as (st & Hrun0 & Hok & _ & Hp); [constructor|constructor|].
  rewrite Hrun in Hrun0. injection Hrun0 as <-. cbn [fst snd] in *.
  destruct (rounds_ok n el sent Hok Hn) as (el' & sent' & Hrounds & Hp' & Hnil).
  destruct (load_empty el' Hnil) as [Hs Hc]. exists el', sent'. split_and!; [done| |done|done]. by rewrite Hp', Hp.
Qed.

(** What a sweep merges goes wrong.  [curEnd] is the place after the end of
    the first request, and the next is merged when it is one block further: a
    request that continues the first is never merged with it.  The merged read
    does not reach the last block of the second request, and both go on at the
    place of the first when the reply comes. *)
Theorem merged_reads_go_wrong (el el' : elevator) (e : eleRequest) (p q : diskRequest) (rest : list diskRequest) (m n : Z) :
  formSchedule numDisks bufferSize el = Done el' → e ∈ sortedList el' → requests e = p :: q :: rest →
  0 < numDisks → 0 < m → 0 < n → dr_writeLen p = m * FILE_BLOCK_SIZE → dr_writeLen q = n * FILE_BLOCK_SIZE →
  0 ≤ dr_remOffset p → dr_remOffset p + (m + n + 1) * numDisks < 2 ^ 31 → (m + n) * FILE_BLOCK_SIZE < 2 ^ 31 →
  dr_remOffset q = dr_remOffset p + m * numDisks + numDisks ∧
  (dr_entry q, dr_remOffset p) ∈ read_reply e ∧
  (rest = [] → dr_remOffset q + (n - 1) * numDisks ∉ blocks_read numDisks e).
Proof.
  intros Hform He Hreq Hd Hm Hn Hlp Hlq H0 Hplace Hlen.
  destruct (formSchedule_ok el) as (es & Hform' & _ & _ & Hall & _). rewrite Hform in Hform'. injection Hform' as ->.
  cbn [sortedList] in He. destruct (proj1 (Forall_forall _ _) Hall e He) as (p' & qs & [H1 H2 H3 H4 H5]).
  rewrite Hreq in H1. injection H1 as <- <-. apply Forall_cons in H4 as [[_ Hq] _].
  assert (numDisks * Z.quot (dr_writeLen p) FILE_BLOCK_SIZE = m * numDisks) as Hmd.
  { rewrite Hlp, Z.quot_mul by (unfold FILE_BLOCK_SIZE; lia). lia. }
  assert (0 < m * numDisks) by nia. assert (m * numDisks + numDisks ≤ (m + n + 1) * numDisks) by nia.
  rewrite Hmd in H3. rewrite H3, (i32_id (dr_remOffset p + m * numDisks)), i32_id in Hq by lia.
  split_and!; [done| |].
  - unfold read_reply. rewrite H2, Hreq. apply list_elem_of_fmap. exists q. split; [done|]. right. by left.
  - intros ->. unfold blocks_read. intros (i & Hi & Hin%elem_of_seq_iff)%list_elem_of_fmap.
    cbn [foldl] in H5. rewrite H5, Hlp, Hlq in Hin. unfold FILE_BLOCK_SIZE in *. rewrite (i32_id (0 + m * 2048)), i32_id in Hin by lia.
    replace (0 + m * 2048 + n * 2048) with ((m + n) * 2048) in Hin by lia. rewrite Z.quot_mul in Hin by lia. nia.
Qed.
End theory.

(** Reads of two blocks at 0 and 3, one disk: merged, with a block in between. *)
Definition two_reads : elevator :=
  mk_elevator [mk_diskRequest READ 3 4096 1; mk_diskRequest READ 0 4096 0] [] false.

(** The request that they become. *)
Definition read_merged : eleRequest :=
  mk_eleRequest [mk_diskRequest READ 0 4096 0; mk_diskRequest READ 3 4096 1] READ 0 8192 2.

Lemma merged_reads_go_wrong_witness :
  formSchedule (H := bump_malloc) 1 1048576 two_reads = Done (mk_elevator [] [read_merged] false) ∧
  (1%nat, 0) ∈ read_reply read_merged ∧ 4 ∉ blocks_read 1 read_merged.
Proof.
  split; [vm_compute; reflexivity|].
  destruct (merged_reads_go_wrong (H := bump_malloc) 1 1048576 two_reads (mk_elevator [] [read_merged] false) read_merged
    (mk_diskRequest READ 0 4096 0) (mk_diskRequest READ 3 4096 1) [] 2 2) as (_ & H1 & H2);
    [vm_compute; reflexivity|left|reflexivity|lia|lia|lia|reflexivity|reflexivity|cbn; lia|cbn; lia|unfold FILE_BLOCK_SIZE; lia|].
  split; [exact H1|exact (H2 eq_refl)].
Defined.

Lemma elevator_sends_all_witness :
  let p := mk_diskRequest READ 3 4096 1 in let q := mk_diskRequest READ 9 4096 2 in
  let el := mk_elevator [q] [] true in let sent := [mk_eleRequest [p] READ 3 4096 5] in
  foldM (run_el (H := bump_malloc) 1 1048576) (mk_elevator [] [] false, []) [Add true p; Add false q] = Done (el, sent) ∧
  ∃ el' sent', foldM (run_el (H := bump_malloc) 1 1048576) (el, sent) (mjoin (replicate 1 [Reply; Tick true])) = Done (el', sent') ∧
    mjoin (requests <$> sent') ≡ₚ [p; q] ∧ sortedList el' = [] ∧ currentList el' = [].
Proof.
  intros p q el sent. split; [vm_compute; reflexivity|].
  apply (elevator_sends_all (H := bump_malloc) 1 1048576 [Add true p; Add false q] el sent 1); [vm_compute; reflexivity|cbn; lia].
Defined.
