(* ===== verification/HcLexer.v ===== *)
(** * HashCache: the lexer of HTTP messages

    [getNextToken] and [eat] in [src/HashCache/src/http.c], with the C library
    functions that read a token.  The lexer works on global variables, which
    are the fields of [lexer]: the memory of the message as signed characters,
    [buf] as an offset into it, and positions relative to [buf]. *)

From Stdlib Require Import ZArith Lia.
From stdpp Require Import base list option numbers gmap sets.
From S2P Require Import Prelude.

(** ** Constants *)

Definition INIT : Z := 1.
Definition HEADER : Z := 2.
Definition RAW : Z := 3.
Definition LINE : Z := 4.
Definition ENTITY : Z := 5.
Definition LINEEND : Z := 6.

Definition TOKEN : Z := 1.
Definition LF : Z := 2.
Definition CR : Z := 3.
Definition CRLF : Z := 4.
Definition SP : Z := 5.
Definition LWS : Z := 6.
Definition BUFEND : Z := 8.
Definition NONE : Z := 9.
Definition ERROR : Z := 10.
Definition BODY : Z := 11.

Definition CHAR : Z := 99.
Definition LFEED : Z := 10.
Definition CRETURN : Z := 13.
Definition SPACE : Z := 32.
Definition TAB : Z := 9.
Definition EQUALS : Z := 61.
Definition COLON : Z := 58.
Definition SEMICOLON : Z := 59.
Definition QUOTE : Z := 34.
Definition COMMA : Z := 44.
Definition EOF : Z := -1.

Definition ctrlNames : list Z :=
  [61; 34; 92; 60; 62; 47; 40; 41; 123; 125; 59; 58; 64; 44; 91; 93; 63; 32; 9].

Definition isCtrl (present : Z) : bool := existsb (Z.eqb present) ctrlNames.

(** ** State *)

Record lexer := mk_lexer {
  mem : list Z;
  buf : nat;
  processed : nat;
  end_ : nat;
  start : Z;
  state : Z;
  token : nat;
  toklen : nat;
  tokenType : Z
}.

Definition advance (lx : lexer) : lexer :=
  mk_lexer (mem lx) (buf lx) (S (processed lx)) (end_ lx) (start lx) (state lx) (token lx) (S (toklen lx)) (tokenType lx).
(** [buf[ processed ] = '\0'], at a place that has just been read. *)
Definition blank (lx : lexer) : lexer :=
  mk_lexer (<[(buf lx + processed lx)%nat := 0]> (mem lx)) (buf lx) (processed lx) (end_ lx) (start lx) (state lx)
    (token lx) (toklen lx) (tokenType lx).
Definition goto (s : Z) (lx : lexer) : lexer :=
  mk_lexer (mem lx) (buf lx) (processed lx) (end_ lx) (start lx) s (token lx) (toklen lx) (tokenType lx).
Definition mode (m s : Z) (lx : lexer) : lexer :=
  mk_lexer (mem lx) (buf lx) (processed lx) (end_ lx) m s (token lx) (toklen lx) (tokenType lx).
Definition typed (t : Z) (lx : lexer) : lexer :=
  mk_lexer (mem lx) (buf lx) (processed lx) (end_ lx) (start lx) (state lx) (token lx) (toklen lx) t.

(** Another turn of the loop, or a return. *)
Inductive verdict := Go (lx : lexer) | Return (lx : lexer) (status : Z).

(** ** One character *)

(** A [case] of several labels. *)
Definition one_of (present : Z) (labels : list Z) : bool := existsb (Z.eqb present) labels.

Definition lex_init (present : Z) (lx : lexer) : verdict :=
  if state lx =? NONE then
    if present =? CHAR then Go (goto TOKEN (advance lx))
    else if one_of present [SPACE; TAB] then Go (goto SP (advance (blank lx)))
    else if present =? CRETURN then Go (goto CR (advance (blank lx)))
    else if present =? LFEED then Go (goto LF (advance (blank lx)))
    else if one_of present [COLON; SEMICOLON; QUOTE; EQUALS; COMMA] then Return (typed present (advance lx)) 0
    else Return (typed ERROR lx) 0
  else if state lx =? TOKEN then
    if present =? CHAR then Go (advance lx) else Return (typed TOKEN (goto NONE lx)) 0
  else if state lx =? SP then
    if one_of present [SPACE; TAB] then Go (advance (blank lx))
    else if present =? CRETURN then Go (goto CR (advance (blank lx)))
    else if present =? LFEED then Go (goto LF (advance (blank lx)))
    else Return (typed SP (goto NONE lx)) 0
  else if state lx =? CR then
    if present =? LFEED then Go (goto LF (advance (blank lx))) else Return (typed ERROR lx) (-1)
  else if state lx =? LF then
    if one_of present [SPACE; TAB] then Go (goto LWS (advance (blank lx)))
    else Return (typed CRLF (goto NONE lx)) 0
  else Go lx.

Definition lex_header (present : Z) (lx : lexer) : verdict :=
  if one_of (state lx) [NONE; TOKEN] then
    if present =? EOF then Return (typed BUFEND lx) 0
    else if present =? CRETURN then Go (goto CR (advance lx))
    else if present =? LFEED then Go (goto LF (advance lx))
    else Go (goto TOKEN (advance lx))
  else if state lx =? CR then
    if present =? LFEED then Go (goto LF (advance lx))
    else if present =? EOF then Return (typed BUFEND lx) 0
    else Return (typed ERROR lx) 0
  else if state lx =? LF then
    if one_of present [SPACE; TAB] then Go (goto TOKEN (advance lx))
    else if present =? EOF then Return (typed BUFEND lx) 0
    else Return (typed TOKEN (mode LINE NONE lx)) 0
  else Go lx.

Definition lex_raw (present : Z) (lx : lexer) : verdict :=
  if state lx =? NONE then
    if present =? SPACE then Return (goto NONE (typed SP (advance (blank lx)))) 0
    else if present =? TAB then Return (typed ERROR lx) (-1)
    else Go (goto TOKEN (advance lx))
  else if state lx =? TOKEN then
    if present =? SPACE then Return (typed TOKEN (goto NONE lx)) 0
    else if present =? CRETURN then Return (typed TOKEN (mode INIT NONE lx)) 0
    else if present =? TAB then Return (typed ERROR lx) (-1)
    else Go (advance lx)
  else Go lx.

Definition lex_line (present : Z) (lx : lexer) : verdict :=
  if state lx =? NONE then
    if present =? CRETURN then Go (goto CR (advance lx)) else Go (mode HEADER NONE lx)
  else if state lx =? CR then
    if present =? LFEED then Return (mode HEADER NONE (typed CRLF (advance lx))) 0
    else Go (mode HEADER NONE lx)
  else Go lx.

(** The last [case] of this is [LFEED], the character, not the state [LF]. *)
Definition lex_entity (present : Z) (lx : lexer) : verdict :=
  if state lx =? NONE then
    if present =? CRETURN then Go (goto CR (advance lx))
    else if present =? EOF then Return (typed BODY (goto NONE lx)) 0
    else Go (advance lx)
  else if state lx =? CR then
    if present =? LFEED then Go (goto LF (advance lx))
    else if present =? EOF then Return (typed BUFEND (goto NONE lx)) 0
    else Go (advance lx)
  else if state lx =? LFEED then
    if present =? SPACE then Go (goto NONE (advance lx))
    else if present =? EOF then Return (typed BUFEND (goto NONE lx)) 0
    else Return (typed BODY (goto NONE lx)) 0
  else Go lx.

Definition lex_lineend (present : Z) (lx : lexer) : verdict :=
  if state lx =? NONE then
    if present =? CRETURN then Go (goto CR (advance lx))
    else if present =? EOF then Return (typed BUFEND (goto NONE lx)) 0
    else Go (advance lx)
  else if state lx =? CR then
    if present =? LFEED then Return (typed TOKEN (goto LF (advance lx))) 0
    else if present =? EOF then Return (typed BUFEND (goto NONE lx)) 0
    else Go (advance lx)
  else Go lx.

Definition classify (c : Z) : Z :=
  if (31 <? c) && (c <? 127) && negb (isCtrl c) then CHAR else c.

Definition lex_char (present : Z) (lx : lexer) : verdict :=
  if start lx =? INIT then lex_init present lx
  else if start lx =? HEADER then lex_header present lx
  else if start lx =? RAW then lex_raw present lx
  else if start lx =? LINE then lex_line present lx
  else if start lx =? ENTITY then lex_entity present lx
  else if start lx =? LINEEND then lex_lineend present lx
  else if start lx =? BODY then Return (typed BODY lx) 0
  else Return (typed ERROR lx) 0.

(** ** Tokens *)

Fixpoint lex_loop (fuel : nat) (lx : lexer) : outcome (lexer * Z) :=
  match fuel with
  | O => Fault OutOfFuel
  | S fuel =>
      if (end_ lx <? processed lx)%nat then Done (lx, BUFEND)
      else
        c ← get (mem lx) (buf lx + processed lx);
        match lex_char (classify c) lx with
        | Go lx => lex_loop fuel lx
        | Return lx status => Done (lx, status)
        end
  end.

Definition begin_token (lx : lexer) : lexer :=
  mk_lexer (mem lx) (buf lx) (processed lx) (end_ lx) (start lx) (state lx) (buf lx + processed lx) 0 LWS.

(** A turn of the loop moves on, or changes from [LINE] to [HEADER]. *)
Definition getNextToken (lx : lexer) : outcome (lexer * Z) :=
  lex_loop (2 * length (mem lx) + 4) (begin_token lx).

(** Back to before the token, which [eat] has not found. *)
Definition step_back (tempStart tempState : Z) (lx : lexer) : lexer :=
  mk_lexer (mem lx) (buf lx) (processed lx - toklen lx) (end_ lx) tempStart tempState (token lx) (toklen lx) (tokenType lx).

(** [None] is the length -1. *)
Definition eat (type : Z) (len : option nat) (lx : lexer) : outcome (lexer * Z) :=
  let tempStart := start lx in
  let tempState := state lx in
  '(lx, status) ← getNextToken lx;
  if status =? -1 then Done (lx, -1)
  else if negb (tokenType lx =? type) then Done (step_back tempStart tempState lx, -1)
  else
    match len with
    | Some n => if (n =? toklen lx)%nat then Done (lx, 0) else Done (lx, -1)
    | None => Done (lx, 0)
    end.

(** ** Reading a token *)

(** [strncmp( p, s, strlen( s ) ) == 0] *)
Fixpoint starts_with (m : list Z) (p : nat) (s : list Z) : outcome bool :=
  match s with
  | [] => Done true
  | c :: s => x ← get m p; if x =? c then starts_with m (S p) s else Done false
  end.

Definition isdigit (c : Z) : bool := (48 <=? c) && (c <=? 57).
Definition isspace (c : Z) : bool := (c =? 32) || ((9 <=? c) && (c <=? 13)).

Fixpoint digits (cs : list Z) (acc : Z) : outcome Z :=
  match cs with
  | [] => Fault OutOfBounds
  | c :: cs => if isdigit c then digits cs (10 * acc + (c - 48)) else Done acc
  end.

(** [strtol], which stops at the largest and the smallest [long]. *)
Definition clamp (n : Z) : Z := Z.max (- 2 ^ 31) (Z.min (2 ^ 31 - 1) n).

Fixpoint atoi (cs : list Z) : outcome Z :=
  match cs with
  | [] => Fault OutOfBounds
  | c :: cs' =>
      if isspace c then atoi cs'
      else if c =? 45 then n ← digits cs' 0; Done (clamp (- n))
      else if c =? 43 then n ← digits cs' 0; Done (clamp n)
      else n ← digits cs 0; Done (clamp n)
  end.

(** * Lexing known text *)

(** The text at a place of the memory. *)
Definition text_at (m : list Z) (p : nat) (cs : list Z) : Prop := ∀ i c, cs !! i = Some c → m !! (p + i)%nat = Some c.

Lemma text_at_nil m p : text_at m p [].
Proof. by intros i c. Qed.

Lemma text_at_cons m p c cs : text_at m p (c :: cs) ↔ m !! p = Some c ∧ text_at m (S p) cs.
Proof.
  split.
  - intros H. split; [by rewrite <- (H 0%nat c eq_refl), Nat.add_0_r|].
    intros i d Hi. rewrite <- (H (S i) d Hi). f_equal. lia.
  - intros [H0 H] [|i] d Hi; cbn in Hi; [injection Hi as <-; by rewrite Nat.add_0_r|].
    rewrite <- (H i d Hi). f_equal. lia.
Qed.

Lemma text_at_app m p cs ds : text_at m p (cs ++ ds) ↔ text_at m p cs ∧ text_at m (p + length cs) ds.
Proof.
  revert p. induction cs as [|c cs IH]; intros p; cbn [app length].
  - rewrite Nat.add_0_r. split; [|tauto]. intros ?. split; [apply text_at_nil|done].
  - rewrite !text_at_cons, IH. replace (S p + length cs)%nat with (p + S (length cs))%nat by lia. tauto.
Qed.

Lemma text_at_take m p cs : text_at m p cs ↔ take (length cs) (drop p m) = cs.
Proof.
  split.
  - intros H. apply list_eq. intros i. destruct (cs !! i) as [c|] eqn:Hc.
    + rewrite lookup_take_lt by (by eapply lookup_lt_Some). rewrite lookup_drop. auto.
    + apply lookup_ge_None in Hc. by apply lookup_take_ge.
  - intros <- i c Hi. apply lookup_take_Some in Hi as [Hi _]. by rewrite lookup_drop in Hi.
Qed.

Lemma text_at_length m p cs : cs ≠ [] → text_at m p cs → (p + length cs ≤ length m)%nat.
Proof.
  intros Hn H. destruct cs as [|c cs _] using rev_ind; [done|].
  assert (m !! (p + length cs)%nat = Some c) as Hl%lookup_lt_Some by (apply H; by rewrite lookup_app_r, Nat.sub_diag).
  rewrite length_app. cbn. lia.
Qed.

Lemma text_at_insert m p cs q (x : Z) :
  text_at m p cs → (q < p)%nat ∨ (p + length cs ≤ q)%nat → text_at (<[q := x]> m) p cs.
Proof.
  intros H Hq i c Hi. rewrite list_lookup_insert_ne; [auto|]. apply lookup_lt_Some in Hi. lia.
Qed.

(** The lexer comes to this result in so many turns. *)
Definition lexes (n : nat) (lx : lexer) (r : lexer * Z) : Prop := ∀ f, lex_loop (n + f) lx = Done r.

Lemma lexes_go n lx r c lx' :
  (processed lx ≤ end_ lx)%nat → mem lx !! (buf lx + processed lx)%nat = Some c →
  lex_char (classify c) lx = Go lx' → lexes n lx' r → lexes (S n) lx r.
Proof.
  intros He Hc Hstep H f. cbn [lex_loop plus]. destruct (Nat.ltb_spec (end_ lx) (processed lx)); [lia|].
  rewrite (proj2 (get_Done _ _ _) Hc). cbn [mbind outcome_bind]. rewrite Hstep. apply H.
Qed.

Lemma lexes_return lx c lx' status :
  (processed lx ≤ end_ lx)%nat → mem lx !! (buf lx + processed lx)%nat = Some c →
  lex_char (classify c) lx = Return lx' status → lexes 1 lx (lx', status).
Proof.
  intros He Hc Hstep f. cbn [lex_loop plus]. destruct (Nat.ltb_spec (end_ lx) (processed lx)); [lia|].
  rewrite (proj2 (get_Done _ _ _) Hc). cbn [mbind outcome_bind]. by rewrite Hstep.
Qed.

Lemma getNextToken_lexes n lx r :
  lexes n (begin_token lx) r → (n ≤ 2 * length (mem lx) + 4)%nat → getNextToken lx = Done r.
Proof.
  intros H Hn. unfold getNextToken. rewrite <- (H (2 * length (mem lx) + 4 - n)%nat). f_equal. lia.
Qed.

(** [n] times [advance]. *)
Definition skip (n : nat) (lx : lexer) : lexer :=
  mk_lexer (mem lx) (buf lx) (processed lx + n) (end_ lx) (start lx) (state lx) (token lx) (toklen lx + n) (tokenType lx).

(** A run of characters at which the lexer only advances. *)
Lemma lexes_run n cs lx r :
  (∀ lx' c, c ∈ cs → start lx' = start lx → state lx' = state lx → lex_char (classify c) lx' = Go (advance lx')) →
  text_at (mem lx) (buf lx + processed lx) cs → (processed lx + length cs ≤ S (end_ lx))%nat →
  lexes n (skip (length cs) lx) r → lexes (length cs + n) lx r.
Proof.
  revert lx. induction cs as [|c cs IH]; intros lx Hstep Ht He Hn; cbn [length] in *.
  - destruct lx. unfold skip in Hn. cbn in Hn. by rewrite !Nat.add_0_r in Hn.
  - apply text_at_cons in Ht as [Hc Ht]. cbn [plus]. eapply lexes_go; [lia|exact Hc|apply Hstep; [left|done..]|].
    apply IH; cbn.
    + intros lx' d Hd H1 H2. apply Hstep; [by right|done..].
    + by rewrite Nat.add_succ_r.
    + lia.
    + destruct lx. unfold skip, advance in *. cbn in *. by rewrite !Nat.add_succ_r in Hn.
Qed.

(** ** Classes of characters *)

Lemma classify_cases c : classify c = CHAR ∨ classify c = c.
Proof. unfold classify. case_match; tauto. Qed.

Lemma classify_ne c k : k ≠ CHAR → c ≠ k → classify c ≠ k.
Proof. intros Hk Hc. destruct (classify_cases c) as [-> | ->]; [by intros <-|done]. Qed.

(** What a line is made of: no line end, and nothing that is taken for [EOF]. *)
Definition line_char (c : Z) : Prop := c ≠ CRETURN ∧ c ≠ LFEED ∧ c ≠ EOF.

(** What [INIT] makes a token of. *)
Definition word_char (c : Z) : Prop := classify c = CHAR.
#[export] Instance word_char_dec c : Decision (word_char c) := Z.eq_dec _ _.
#[export] Instance line_char_dec c : Decision (line_char c).
Proof. unfold line_char. apply _. Defined.

Lemma word_line c : word_char c → line_char c.
Proof. intros H. split_and!; intros ->; by cbv in H. Qed.

Lemma eqb_ne (a b : Z) : a ≠ b → (a =? b) = false.
Proof. apply Z.eqb_neq. Qed.

(** Decides the comparisons of a [lex_] function at a character that is known
    not to be any of those that matter. *)
#[local] Ltac settle_char c :=
  repeat match goal with
    | |- context [Z.eqb (classify c) ?k] => rewrite (eqb_ne (classify c) k) by (apply classify_ne; [done|cbv in *; tauto])
    end.

Lemma header_step c lx : line_char c → start lx = HEADER → state lx = NONE ∨ state lx = TOKEN →
  lex_char (classify c) lx = Go (goto TOKEN (advance lx)).
Proof.
  intros Hc Hs Ht. unfold line_char in Hc. unfold lex_char, lex_header. rewrite Hs. cbn.
  destruct Ht as [-> | ->]; cbn; settle_char c; done.
Qed.

Lemma raw_step c lx : c ≠ SPACE → c ≠ TAB → c ≠ CRETURN → start lx = RAW → state lx = TOKEN →
  lex_char (classify c) lx = Go (advance lx).
Proof.
  intros H1 H2 H3 Hs Ht. unfold lex_char, lex_raw. rewrite Hs, Ht. cbn. settle_char c. done.
Qed.

Lemma goto_same s lx : state lx = s → goto s (advance lx) = advance lx.
Proof. destruct lx. cbn. by intros ->. Qed.

(** ** Tokens of known text *)

#[local] Arguments lex_char : simpl never.
#[local] Arguments classify : simpl never.

(** The lexer's fields at the start of a token. *)
#[local] Ltac at_token H :=
  apply (getNextToken_lexes H); [unfold begin_token; cbn [mem buf processed end_ start state token toklen tokenType]|].

#[local] Ltac turn c := eapply (lexes_go _ _ _ c); cbn; [lia|eauto| |].
#[local] Ltac done_at c := eapply (lexes_return _ c); cbn; [lia|eauto|].

(** A prefix of a line, in [HEADER] mode, takes the lexer to its end. *)
Lemma header_run n m b p e s tok tl ty line r :
  s = NONE ∨ s = TOKEN → Forall line_char line → text_at m (b + p) line → (p + length line ≤ S e)%nat → line ≠ [] →
  lexes n (mk_lexer m b (p + length line) e HEADER TOKEN tok (tl + length line) ty) r →
  lexes (length line + n) (mk_lexer m b p e HEADER s tok tl ty) r.
Proof.
  intros Hs Hl Ht He Hn H. destruct line as [|c line]; [done|]. apply Forall_cons_1 in Hl as [Hc Hl].
  apply text_at_cons in Ht as [H0 Ht]. cbn [length plus] in *. rewrite !Nat.add_succ_r in H.
  eapply lexes_go; cbn; [lia|exact H0|by apply header_step|].
  apply lexes_run.
  - intros lx c' Hin H1 H2. cbn in *. rewrite <- (goto_same TOKEN lx) by done.
    apply header_step; [exact (proj1 (Forall_forall _ _) Hl _ Hin)|done|by right].
  - cbn. by rewrite Nat.add_succ_r.
  - cbn. lia.
  - exact H.
Qed.

(** [LINE] gives way to [HEADER] at anything but a carriage return. *)
Lemma line_to_header n m b p e tok tl ty c r :
  c ≠ CRETURN → m !! (b + p)%nat = Some c → (p ≤ e)%nat →
  lexes n (mk_lexer m b p e HEADER NONE tok tl ty) r → lexes (S n) (mk_lexer m b p e LINE NONE tok tl ty) r.
Proof.
  intros Hc H0 He H. turn c; [|exact H]. unfold lex_char, lex_line. cbn.
  destruct (classify_cases c) as [-> | ->]; [done|]. by rewrite eqb_ne.
Qed.

Lemma header_line m b p e s tok tl ty line d :
  s = HEADER ∨ s = LINE → line ≠ [] → Forall line_char line → text_at m (b + p) (line ++ [CRETURN; LFEED; d]) →
  d ≠ SPACE → d ≠ TAB → d ≠ EOF → (p + length line + 2 ≤ e)%nat →
  getNextToken (mk_lexer m b p e s NONE tok tl ty) =
    Done (mk_lexer m b (p + length line + 2) e LINE NONE (b + p) (length line + 2) TOKEN, 0).
Proof.
  intros Hs Hn Hl Ht Hd1 Hd2 Hd3 He.
  assert (b + p + length line + 3 ≤ length m)%nat as Hm.
  { apply text_at_length in Ht; [rewrite length_app in Ht; cbn in Ht; lia|by destruct line]. }
  apply text_at_app in Ht as [Ht (H1 & (H2 & (H3 & _)%text_at_cons)%text_at_cons)%text_at_cons].
  assert (lexes (length line + 3) (mk_lexer m b p e HEADER NONE (b + p) 0 LWS)
    (mk_lexer m b (p + length line + 2) e LINE NONE (b + p) (length line + 2) TOKEN, 0)) as H.
  { apply header_run; [by left|done..|lia|done|].
    turn CRETURN; [by rewrite Nat.add_assoc|done|].
    turn LFEED; [by rewrite <- H2; f_equal; lia|done|].
    replace (length line + 2)%nat with (S (S (length line))) by lia. rewrite !Nat.add_succ_r, Nat.add_0_r.
    done_at d; [by rewrite <- H3; f_equal; lia|].
    unfold lex_char, lex_header. cbn. settle_char d. done. }
  at_token (if decide (s = HEADER) then (length line + 3)%nat else S (length line + 3)).
  - destruct Hs as [-> | ->]; cbn; [done|]. destruct line as [|c line]; [done|].
    apply Forall_cons_1 in Hl as [(Hc & _) _]. apply text_at_cons in Ht as [H0 _].
    apply (line_to_header _ _ _ _ _ _ _ _ c); [done..|lia|done].
  - cbn. case_decide; lia.
Qed.

(** The text ends inside of a line: what was read of it is to be read again. *)
Definition unfinished (m : list Z) (n : nat) (r : outcome (lexer * Z)) : Prop :=
  ∃ lx, r = Done (lx, 0) ∧ tokenType lx = BUFEND ∧ toklen lx = n ∧ mem lx = m.

Lemma header_eof m b p e st tok tl ty :
  st ∈ [NONE; TOKEN; CR; LF] → m !! (b + p)%nat = Some EOF → (p ≤ e)%nat →
  ∃ lx, lexes 1 (mk_lexer m b p e HEADER st tok tl ty) (lx, 0) ∧ tokenType lx = BUFEND ∧ toklen lx = tl ∧ mem lx = m.
Proof.
  intros Hst H0 He. exists (typed BUFEND (mk_lexer m b p e HEADER st tok tl ty)). split; [|done].
  done_at EOF. unfold lex_char, lex_header. cbn.
  repeat (apply elem_of_cons in Hst as [-> |Hst]; [done|]). by apply elem_of_nil in Hst.
Qed.

Lemma header_partial m b p e s tok tl ty line ends :
  s = HEADER ∨ s = LINE → Forall line_char line → ends `prefix_of` [CRETURN; LFEED] → (line = [] → ends = []) →
  text_at m (b + p) (line ++ ends ++ [EOF]) → e = (p + length (line ++ ends))%nat →
  unfinished m (length (line ++ ends)) (getNextToken (mk_lexer m b p e s NONE tok tl ty)).
Proof.
  intros Hs Hl Hends Hn Ht He.
  assert (b + p + length (line ++ ends) < length m)%nat as Hm.
  { apply text_at_length in Ht; [|by destruct line, ends]. rewrite !length_app in *. cbn in Ht. lia. }
  assert (∃ lx, lexes (length (line ++ ends) + 1) (mk_lexer m b p e HEADER NONE (b + p) 0 LWS) (lx, 0) ∧
    tokenType lx = BUFEND ∧ toklen lx = length (line ++ ends) ∧ mem lx = m) as (lx & H & Hty & Hlen & Hmem).
  { destruct (decide (line = [])) as [-> |Hne].
    { rewrite Hn in * by done. cbn in Ht |- *. apply (header_eof m b p e NONE); [by left| |lia].
      apply text_at_cons in Ht as [H0 _]. done. }
    rewrite app_assoc in Ht. apply text_at_app in Ht as [[Ht Hx]%text_at_app (H0 & _)%text_at_cons].
    rewrite length_app in *.
    assert (p + length line + length ends = e)%nat as He' by lia.
    assert (∃ st, st ∈ [TOKEN; CR; LF] ∧ ∀ n r,
      lexes n (mk_lexer m b (p + length line + length ends) e HEADER st (b + p) (length line + length ends) LWS) r →
      lexes (length ends + n) (mk_lexer m b (p + length line) e HEADER TOKEN (b + p) (length line) LWS) r)
      as (st & Hst & Hrun).
    { destruct Hends as [more Hends]. destruct ends as [|c1 [|c2 [|? ?]]]; cbn in *; try discriminate.
      - exists TOKEN. split; [by left|]. intros n r. by rewrite !Nat.add_0_r.
      - injection Hends as <- _. apply text_at_cons in Hx as [Hx _]. exists CR. split; [by right; left|].
        intros n r Hr. rewrite !(Nat.add_1_r) in Hr.
        turn CRETURN; [by rewrite Nat.add_assoc|done|exact Hr].
      - injection Hends as <- <- _. apply text_at_cons in Hx as [Hx1 [Hx2 _]%text_at_cons].
        exists LF. split; [by right; right; left|]. intros n r Hr.
        replace (p + length line + 2)%nat with (S (S (p + length line))) in Hr by lia.
        replace (length line + 2)%nat with (S (S (length line))) in Hr by lia.
        turn CRETURN; [by rewrite Nat.add_assoc|done|].
        turn LFEED; [by rewrite <- Hx2; f_equal; lia|done|]. exact Hr. }
    destruct (header_eof m b (p + length line + length ends) e st (b + p) (length line + length ends) LWS)
      as (lx & Hlx & H1 & H2 & H3); [by right|by rewrite <- H0; f_equal; lia|lia|].
    exists lx. split; [|done]. rewrite <- Nat.add_assoc. apply header_run; [by left|done..|lia|done|].
    apply Hrun, Hlx. }
  exists lx. split; [|done]. at_token (if decide (s = HEADER) then (length (line ++ ends) + 1)%nat else S (length (line ++ ends) + 1)).
  - destruct Hs as [-> | ->]; cbn; [done|].
    destruct line as [|c line].
    + rewrite Hn in Ht by done. apply text_at_cons in Ht as [H0 _].
      apply (line_to_header _ _ _ _ _ _ _ _ EOF); [done|exact H0|lia|done].
    + apply Forall_cons_1 in Hl as [(Hc & _) _]. apply text_at_cons in Ht as [H0 _].
      apply (line_to_header _ _ _ _ _ _ _ _ c); [done..|lia|done].
  - cbn. case_decide; lia.
Qed.

(** The empty line that ends a head, complete or not. *)
Lemma empty_line m b p e tok tl ty :
  text_at m (b + p) [CRETURN; LFEED] → (p + 1 ≤ e)%nat →
  getNextToken (mk_lexer m b p e LINE NONE tok tl ty) = Done (mk_lexer m b (p + 2) e HEADER NONE (b + p) 2 CRLF, 0).
Proof.
  intros [H1 [H2 _]%text_at_cons]%text_at_cons He. rewrite Nat.add_succ_r, Nat.add_1_r.
  at_token 2%nat; [|cbn; lia]. turn CRETURN; [done|]. done_at LFEED; [by rewrite <- H2; f_equal; lia|]. done.
Qed.

Lemma empty_line_partial m b p tok tl ty :
  text_at m (b + p) [CRETURN; EOF] →
  unfinished m 1 (getNextToken (mk_lexer m b p (S p) LINE NONE tok tl ty)).
Proof.
  intros [H1 [H2 _]%text_at_cons]%text_at_cons.
  destruct (header_eof m b (S p) (S p) NONE (b + p) 1 LWS) as (lx & Hlx & Hlex); [by left|by rewrite <- H2; f_equal; lia|lia|].
  exists lx. split; [|done]. at_token 3%nat; [|cbn; lia]. turn CRETURN; [done|].
  turn EOF; [by rewrite <- H2; f_equal; lia|done|exact Hlx].
Qed.

(** ** Tokens of the request line *)

Definition raw_char (c : Z) : Prop := c ≠ SPACE ∧ c ≠ TAB ∧ c ≠ CRETURN.
#[export] Instance raw_char_dec c : Decision (raw_char c).
Proof. unfold raw_char. apply _. Defined.

Lemma raw_token m b p e tok tl ty cs d :
  cs ≠ [] → Forall raw_char cs → text_at m (b + p) (cs ++ [d]) → d = SPACE ∨ d = CRETURN → (p + length cs ≤ e)%nat →
  getNextToken (mk_lexer m b p e RAW NONE tok tl ty) =
    Done (mk_lexer m b (p + length cs) e (if decide (d = SPACE) then RAW else INIT) NONE (b + p) (length cs) TOKEN, 0).
Proof.
  intros Hn Hl Ht Hd He. destruct cs as [|c cs]; [done|].
  assert (b + p + length (c :: cs) < length m)%nat as Hm.
  { apply text_at_length in Ht; [|done]. rewrite length_app in Ht. cbn in *. lia. }
  apply text_at_app in Ht as [[H0 Ht]%text_at_cons (H1 & _)%text_at_cons].
  apply Forall_cons_1 in Hl as [(Hc1 & Hc2 & _) Hl]. cbn [length] in *.
  at_token (S (length cs + 1)); [|cbn; lia].
  turn c; [unfold lex_char, lex_raw; cbn; by settle_char c|].
  apply lexes_run.
  - intros lx c' Hin H1' H2'. destruct (proj1 (Forall_forall _ _) Hl _ Hin) as (? & ? & ?). by apply raw_step.
  - cbn. by rewrite Nat.add_succ_r.
  - cbn. lia.
  - unfold skip. cbn. rewrite <- (Nat.add_succ_r p).
    done_at d; [by rewrite <- H1; f_equal; lia|].
    unfold lex_char, lex_raw. cbn. by destruct Hd as [-> | ->].
Qed.

Lemma raw_space m b p e tok tl ty :
  text_at m (b + p) [SPACE] → (p ≤ e)%nat →
  getNextToken (mk_lexer m b p e RAW NONE tok tl ty) =
    Done (mk_lexer (<[(b + p)%nat := 0]> m) b (S p) e RAW NONE (b + p) 1 SP, 0).
Proof.
  intros [H0 _]%text_at_cons He. at_token 1%nat; [|cbn; lia]. done_at SPACE. done.
Qed.

(** ** Tokens of a header *)

Lemma init_word m b p e tok tl ty cs d :
  cs ≠ [] → Forall word_char cs → text_at m (b + p) (cs ++ [d]) → ¬ word_char d → (p + length cs ≤ e)%nat →
  getNextToken (mk_lexer m b p e INIT NONE tok tl ty) =
    Done (mk_lexer m b (p + length cs) e INIT NONE (b + p) (length cs) TOKEN, 0).
Proof.
  intros Hn Hl Ht Hd He. destruct cs as [|c cs]; [done|].
  assert (b + p + length (c :: cs) < length m)%nat as Hm.
  { apply text_at_length in Ht; [|done]. rewrite length_app in Ht. cbn in *. lia. }
  apply text_at_app in Ht as [[H0 Ht]%text_at_cons (H1 & _)%text_at_cons].
  apply Forall_cons_1 in Hl as [Hc Hl]. cbn [length] in *. unfold word_char in *.
  at_token (S (length cs + 1)); [|cbn; lia].
  turn c; [by rewrite Hc|].
  apply lexes_run.
  - intros lx c' Hin H1' H2'. rewrite (proj1 (Forall_forall _ _) Hl _ Hin). unfold lex_char, lex_init.
    rewrite H1'. cbn. by rewrite H2'.
  - cbn. by rewrite Nat.add_succ_r.
  - cbn. lia.
  - unfold skip. cbn. rewrite <- (Nat.add_succ_r p).
    done_at d; [by rewrite <- H1; f_equal; lia|].
    unfold lex_char, lex_init. cbn. by rewrite eqb_ne.
Qed.

Lemma init_mark m b p e tok tl ty c :
  c ∈ [COLON; SEMICOLON; QUOTE; EQUALS; COMMA] → text_at m (b + p) [c] → (p ≤ e)%nat →
  getNextToken (mk_lexer m b p e INIT NONE tok tl ty) = Done (mk_lexer m b (S p) e INIT NONE (b + p) 1 c, 0).
Proof.
  intros Hc [H0 _]%text_at_cons He. at_token 1%nat; [|cbn; lia]. done_at c.
  repeat (apply elem_of_cons in Hc as [-> |Hc]; [done|]). by apply elem_of_nil in Hc.
Qed.

Lemma init_space m b p e tok tl ty d :
  text_at m (b + p) [SPACE; d] → d ≠ SPACE → d ≠ TAB → line_char d → (S p ≤ e)%nat →
  getNextToken (mk_lexer m b p e INIT NONE tok tl ty) =
    Done (mk_lexer (<[(b + p)%nat := 0]> m) b (S p) e INIT NONE (b + p) 1 SP, 0).
Proof.
  intros [H0 [H1 _]%text_at_cons]%text_at_cons Hd1 Hd2 (Hd3 & Hd4 & _) He. at_token 2%nat; [|cbn; lia].
  turn SPACE; [done|]. done_at d; [rewrite list_lookup_insert_ne by lia; by rewrite <- H1; f_equal; lia|].
  unfold lex_char, lex_init. cbn. by settle_char d.
Qed.

Lemma init_crlf m b p e tok tl ty d :
  text_at m (b + p) [CRETURN; LFEED; d] → d ≠ SPACE → d ≠ TAB → (p + 2 ≤ e)%nat →
  getNextToken (mk_lexer m b p e INIT NONE tok tl ty) =
    Done (mk_lexer (<[(b + S p)%nat := 0]> (<[(b + p)%nat := 0]> m)) b (S (S p)) e INIT NONE (b + p) 2 CRLF, 0).
Proof.
  intros [H0 [H1 [H2 _]%text_at_cons]%text_at_cons]%text_at_cons Hd1 Hd2 He.
  at_token 3%nat; [|cbn; lia].
  turn CRETURN; [done|].
  turn LFEED; [rewrite list_lookup_insert_ne by lia; by rewrite <- H1; f_equal; lia|done|].
  done_at d; [rewrite !list_lookup_insert_ne by lia; by rewrite <- H2; f_equal; lia|].
  unfold lex_char, lex_init. cbn. by settle_char d.
Qed.

(** [eat] of a token that is there, and of one that is not. *)
Lemma eat_found type len lx lx' :
  getNextToken lx = Done (lx', 0) → tokenType lx' = type → (∀ n, len = Some n → toklen lx' = n) →
  eat type len lx = Done (lx', 0).
Proof.
  intros H Ht Hl. unfold eat. rewrite H. cbn. rewrite Ht, Z.eqb_refl. cbn.
  destruct len as [n|]; [|done]. by rewrite (Hl n), Nat.eqb_refl.
Qed.

Lemma eat_missing type len lx lx' :
  getNextToken lx = Done (lx', 0) → tokenType lx' ≠ type →
  eat type len lx = Done (step_back (start lx) (state lx) lx', -1).
Proof. intros H Ht. unfold eat. rewrite H. cbn. by rewrite eqb_ne. Qed.

(** * The lexer returns *)

(** The states of each mode in which the lexer knows what to do; [ENTITY], which
    is set only when a request is complete, is not among the modes. *)
Definition usable : list (Z * Z) :=
  [(INIT, NONE); (INIT, TOKEN); (INIT, SP); (INIT, CR); (INIT, LF);
   (HEADER, NONE); (HEADER, TOKEN); (HEADER, CR); (HEADER, LF);
   (RAW, NONE); (RAW, TOKEN); (LINE, NONE); (LINE, CR); (LINEEND, NONE); (LINEEND, CR); (BODY, NONE)].

(** From [p] on no line end is followed by a blank, which would continue the line. *)
Definition unfolded (p : nat) (m : list Z) : Prop :=
  ∀ i c, (p ≤ i)%nat → m !! i = Some LFEED → m !! S i = Some c → c ≠ SPACE ∧ c ≠ TAB.

(** What holds from the start of a token on. *)
Record within (lx0 lx : lexer) : Prop := {
  in_buf : buf lx = buf lx0;
  in_end : end_ lx = end_ lx0;
  in_token : token lx = (buf lx0 + processed lx0)%nat;
  in_toklen : processed lx = (processed lx0 + toklen lx)%nat;
  in_length : length (mem lx) = length (mem lx0);
  in_mem : ∀ i, (i < buf lx0 + processed lx0)%nat ∨ (buf lx0 + processed lx ≤ i)%nat → mem lx !! i = mem lx0 !! i
}.

Record turning (lx0 lx : lexer) : Prop := {
  tu_within : within lx0 lx;
  tu_usable : (start lx, state lx) ∈ usable;
  tu_start : start lx = INIT → start lx0 = INIT;
  tu_lf : start lx = INIT → state lx = LF →
    ∃ i, processed lx = S i ∧ (processed lx0 ≤ i)%nat ∧ mem lx0 !! (buf lx0 + i)%nat = Some LFEED
}.

Definition turns_left (lx : lexer) : nat := (2 * (S (end_ lx) - processed lx) + (if (start lx =? LINE)%Z then 1 else 0))%nat.

#[local] Arguments turns_left : simpl never.

Lemma within_advance lx0 lx : within lx0 lx → within lx0 (advance lx).
Proof. intros [? ? ? ? ? Hm]. split; cbn; [done..|lia|done|]. intros i Hi. apply Hm. lia. Qed.

Lemma within_blank lx0 lx : within lx0 lx → within lx0 (advance (blank lx)).
Proof.
  intros [? ? ? ? ? Hm]. split; cbn; [done..|lia|by rewrite length_insert|].
  intros i Hi. rewrite list_lookup_insert_ne by lia. apply Hm. lia.
Qed.

Lemma within_set lx0 lx lx' :
  within lx0 lx → mem lx' = mem lx → buf lx' = buf lx → processed lx' = processed lx → end_ lx' = end_ lx →
  token lx' = token lx → toklen lx' = toklen lx → within lx0 lx'.
Proof. intros [] H1 H2 H3 H4 H5 H6. split; by rewrite ?H1, ?H2, ?H3, ?H4, ?H5, ?H6. Qed.

#[local] Ltac within_step :=
  match goal with
  | H : within ?lx0 ?lx |- within ?lx0 (advance (blank ?lx)) => by apply within_blank
  | H : within ?lx0 ?lx |- within ?lx0 (advance ?lx) => by apply within_advance
  | H : within ?lx0 ?lx |- within ?lx0 ?lx' =>
      first [ done | by apply (within_set _ lx) | by apply (within_set _ (advance lx)); [apply within_advance|..]
            | by apply (within_set _ (advance (blank lx))); [apply within_blank|..] ]
  end.

(** Decides which state it is. *)
#[local] Ltac known_states :=
  repeat match goal with
    | |- context [Z.eqb ?a ?b] =>
        let v := eval vm_compute in (Z.eqb a b) in
        match v with true => change (Z.eqb a b) with true | false => change (Z.eqb a b) with false end
    | |- context [one_of ?a [NONE; TOKEN]] =>
        let v := eval vm_compute in (one_of a [NONE; TOKEN]) in
        match v with true => change (one_of a [NONE; TOKEN]) with true | false => change (one_of a [NONE; TOKEN]) with false end
    end; cbv beta iota.

(** One turn: either the token ends, or the lexer stays in a usable state and
    comes closer to the end. *)
Lemma lex_char_turn lx0 lx c :
  turning lx0 lx → (start lx0 = INIT → unfolded (buf lx0 + processed lx0) (mem lx0)) → (processed lx ≤ end_ lx)%nat →
  mem lx !! (buf lx + processed lx)%nat = Some c →
  match lex_char (classify c) lx with
  | Go lx' => turning lx0 lx' ∧ (turns_left lx' < turns_left lx)%nat
  | Return lx' _ => within lx0 lx'
  end.
Proof.
  intros [Hw Hu Hi Hlf] Hf He Hc.
  assert (mem lx0 !! (buf lx0 + processed lx)%nat = Some c) as Hc0.
  { destruct Hw as [Hb ? ? ? ? Hm]. rewrite <- Hm by lia. by rewrite <- Hb. }
  assert (classify c = LFEED → c = LFEED) as Hcl by (destruct (classify_cases c) as [-> | ->]; done).
  assert (start lx = INIT → state lx = LF → one_of (classify c) [SPACE; TAB] = false) as Hno.
  { intros Hs Hst. destruct (Hlf Hs Hst) as (i & Hp & Hi0 & Hl). specialize (Hf (Hi Hs)).
    rewrite Hp in Hc0. rewrite Nat.add_succ_r in Hc0. destruct (Hf (buf lx0 + i)%nat c) as [H1 H2]; [lia|done..|].
    cbn. by rewrite !eqb_ne by (by apply classify_ne). }
  repeat (apply elem_of_cons in Hu as [Hu|Hu]; [injection Hu as Hs Hst; unfold lex_char; rewrite Hs; cbn;
    unfold lex_init, lex_header, lex_raw, lex_line, lex_lineend; rewrite ?Hst, ?Hs; known_states|]).
  all: try (rewrite Hno by done).
  all: repeat match goal with |- context [if ?b then _ else _] => destruct b eqn:? end.
  all: try within_step.
  all: try (by apply elem_of_nil in Hu).
  all: split; [|unfold turns_left; cbn; rewrite ?Hs; cbn; lia].
  all: apply Build_turning; cbn; rewrite ?Hs, ?Hst; [within_step|set_solver|by auto|try done].
  all: intros _ _; exists (processed lx); split; [done|]; split; [destruct Hw; lia|]; rewrite Hc0, Hcl; [done|by apply Z.eqb_eq].
Qed.

Lemma lex_loop_returns lx0 fuel lx :
  turning lx0 lx → (start lx0 = INIT → unfolded (buf lx0 + processed lx0) (mem lx0)) → (buf lx0 + end_ lx0 < length (mem lx0))%nat →
  (turns_left lx < fuel)%nat →
  ∃ lx' status, lex_loop fuel lx = Done (lx', status) ∧ within lx0 lx'.
Proof.
  intros Ht Hf He. revert lx Ht. induction fuel as [|fuel IH]; intros lx Ht Hfuel; [lia|]. cbn [lex_loop].
  destruct (Nat.ltb_spec (end_ lx) (processed lx)) as [|Hle]; [by eexists _, _; split; [|apply Ht]|].
  assert (is_Some (mem lx !! (buf lx + processed lx)%nat)) as [c Hc].
  { apply lookup_lt_is_Some. destruct Ht as [[Hb Hend _ _ Hlen _] _ _ _]. rewrite Hlen, Hb. rewrite Hend in Hle. lia. }
  rewrite (proj2 (get_Done _ _ _) Hc). cbn [mbind outcome_bind].
  pose proof (lex_char_turn lx0 lx c Ht Hf Hle Hc) as H. destruct (lex_char (classify c) lx) as [lx'|lx' status].
  - destruct H as [Ht' Hlt]. apply IH; [done|lia].
  - by eexists _, _.
Qed.

(** C32: the lexer returns, in every mode that is used, unless a header is
    folded: whatever the bytes, it reads on from where it stands, reports as
    many characters as it has read, and changes nothing but these, in which it
    may clear separators. *)
Theorem getNextToken_returns (lx : lexer) :
  state lx = NONE → start lx ∈ [INIT; HEADER; RAW; LINE; LINEEND; BODY] →
  (start lx = INIT → unfolded (buf lx + processed lx) (mem lx)) → (buf lx + end_ lx < length (mem lx))%nat →
  ∃ lx' status, getNextToken lx = Done (lx', status) ∧
    token lx' = (buf lx + processed lx)%nat ∧ processed lx' = (processed lx + toklen lx')%nat ∧
    length (mem lx') = length (mem lx) ∧
    ∀ i, (i < token lx')%nat ∨ (token lx' + toklen lx' ≤ i)%nat → mem lx' !! i = mem lx !! i.
Proof.
  intros Hst Hs Hf He.
  destruct (lex_loop_returns lx (2 * length (mem lx) + 4) (begin_token lx)) as (lx' & status & Hrun & Hw); [|done..| |].
  - split; cbn; [split; cbn; [done..|lia|done|done]| |done|by rewrite Hst].
    rewrite Hst. repeat (apply elem_of_cons in Hs as [-> |Hs]; [set_solver|]). by apply elem_of_nil in Hs.
  - unfold turns_left. cbn. case_match; lia.
  - exists lx', status. split; [exact Hrun|]. destruct Hw as [Hb _ Ht Hl Hlen Hm]. split_and!; [done|lia|done|].
    intros i Hi. apply Hm. rewrite Ht in Hi. lia.
Qed.

Lemma getNextToken_returns_witness :
  ∃ lx' status, getNextToken (mk_lexer [65; 65; 13; 10; 66; -1] 0 0 5 HEADER NONE 0 0 LWS) = Done (lx', status) ∧
    token lx' = 0%nat ∧ processed lx' = toklen lx' ∧ length (mem lx') = 6%nat ∧
    ∀ i, (i < token lx')%nat ∨ (token lx' + toklen lx' ≤ i)%nat → mem lx' !! i = [65; 65; 13; 10; 66; -1] !! i.
Proof.
  apply (getNextToken_returns (mk_lexer [65; 65; 13; 10; 66; -1] 0 0 5 HEADER NONE 0 0 LWS)); cbn; [done|set_solver|done|lia].
Defined.

(** The lexer turns for ever. *)
Definition hangs (lx : lexer) : Prop := ∀ fuel, lex_loop fuel lx = Fault OutOfFuel.

Lemma hangs_go lx c lx' :
  (processed lx ≤ end_ lx)%nat → mem lx !! (buf lx + processed lx)%nat = Some c →
  lex_char (classify c) lx = Go lx' → hangs lx' → hangs lx.
Proof.
  intros Hp Hc Hstep H [|fuel]; [done|]. cbn [lex_loop]. destruct (Nat.ltb_spec (end_ lx) (processed lx)); [lia|].
  rewrite (proj2 (get_Done _ _ _) Hc). cbn [mbind outcome_bind]. rewrite Hstep. apply H.
Qed.

(** No [case] of [INIT] handles the state [LWS]. *)
Lemma hangs_lws lx :
  start lx = INIT → state lx = LWS → (processed lx ≤ end_ lx)%nat → is_Some (mem lx !! (buf lx + processed lx)%nat) → hangs lx.
Proof.
  intros Hs Hst Hp [c Hc] fuel. induction fuel as [|fuel IH]; [done|]. cbn [lex_loop].
  destruct (Nat.ltb_spec (end_ lx) (processed lx)); [lia|]. rewrite (proj2 (get_Done _ _ _) Hc). cbn [mbind outcome_bind].
  unfold lex_char, lex_init. rewrite Hs, Hst. exact IH.
Qed.

(** A folded header line, in [INIT], takes the lexer to that state. *)
Lemma folded_line_hangs m b p e tok tl ty d x :
  text_at m (b + p) [CRETURN; LFEED; d; x] → d = SPACE ∨ d = TAB → (p + 3 ≤ e)%nat →
  getNextToken (mk_lexer m b p e INIT NONE tok tl ty) = Fault OutOfFuel.
Proof.
  intros [H0 [H1 [H2 [H3 _]%text_at_cons]%text_at_cons]%text_at_cons]%text_at_cons Hd He.
  assert (hangs (begin_token (mk_lexer m b p e INIT NONE tok tl ty))) as H; [|apply H].
  set (m1 := <[(b + p)%nat := 0]> m). set (m2 := <[(b + S p)%nat := 0]> m1). set (m3 := <[(b + S (S p))%nat := 0]> m2).
  apply (hangs_go _ CRETURN (mk_lexer m1 b (S p) e INIT CR (b + p) 1 LWS)); cbn [processed end_ mem buf begin_token]; [lia|done..|].
  apply (hangs_go _ LFEED (mk_lexer m2 b (S (S p)) e INIT LF (b + p) 2 LWS)); cbn [processed end_ mem buf]; [lia| |done|].
  { unfold m1. rewrite list_lookup_insert_ne by lia. rewrite <- H1. f_equal. lia. }
  apply (hangs_go _ d (mk_lexer m3 b (S (S (S p))) e INIT LWS (b + p) 3 LWS)); cbn [processed end_ mem buf]; [lia| |by destruct Hd as [-> | ->]|].
  { unfold m2, m1. rewrite !list_lookup_insert_ne by lia. rewrite <- H2. f_equal. lia. }
  apply hangs_lws; cbn; [done..|lia|]. exists x. unfold m3, m2, m1. rewrite !list_lookup_insert_ne by lia. rewrite <- H3. f_equal. lia.
Qed.
