(* ===== verification/HcRequest.v ===== *)
(** * HashCache: parsing requests

    The request side of [src/HashCache/src/http.c] ([parseRequestLine],
    [parseHTTPHeader], [parseRequest]) and of httpHeaders.c.  A header is
    parsed by a function of a table, which goes on with the lexer where the
    name of the header ended.  Pointers into the buffer of the request are
    offsets; the lists of the blocks of a request, which are handed on with its
    entity, are left out.  [mktime], of the C library, depends on the time zone and is a
    parameter. *)

From Stdlib Require Import ZArith Lia Ascii String.
From stdpp Require Import base list option numbers gmap sets.
From S2P Require Import Prelude HcLexer.

(** ** Constants *)

Definition BAD_REQUEST : Z := 1.
Definition ENTITY_COMPLETE : Z := 2.
Definition COME_BACK : Z := 3.
Definition ENTITY_INCOMPLETE : Z := 4.
Definition GOOD_REQUEST_LINE : Z := 6.
Definition CLOSED : Z := 10.
Definition BUFF_FULL : Z := 12.

Definition REQUEST_LINE : Z := 114.
Definition HTTP_HEADER : Z := 104.
Definition ENTITY_FETCH : Z := 101.

Definition GET : Z := 103.
Definition HEAD : Z := 104.
Definition POST : Z := 112.
Definition PUT : Z := 117.
Definition WAPROX_GET : Z := 101.
Definition WAPROX_PUT : Z := 120.

Definition PRESENT : Z := 1.
Definition ABSENT : Z := 2.

Definition CLEN : Z := 1.
Definition CHUN : Z := 2.
Definition CONN : Z := 3.

Definition SMALL_BUFF_SIZE : nat := 4095.

(** The characters of a literal. *)
Definition chars (s : string) : list Z := (λ a, Z.of_N (N_of_ascii a)) <$> list_ascii_of_string s.
#[local] Coercion chars : string >-> list.

(** ** Tables *)

(** The names of [hNames1] to [hNames7], with the numbers that [httpInit] gives
    them. *)
Definition hNames : list (list Z) :=
  chars <$>
  ["Cache-Control";
   "Accept"; "Accept-Charset"; "Accept-Encoding"; "Accept-Language"; "Accept-Ranges"; "Age"; "Allow"; "Authorization";
   "Connection"; "Content-Encoding"; "Content-Language"; "Content-Length"; "Content-length"; "Content-Location";
   "Content-MD5"; "Content-Range"; "Content-Type";
   "Date"; "ETag"; "Expect"; "Expires"; "From"; "Host"; "If-Match"; "If-Modified-Since"; "If-None-Match"; "If-Range";
   "If-Unmodified-Since"; "Last-Modified";
   "Location"; "Max-Forwards"; "Pragma"; "Proxy-Authenticate"; "Proxy-Authorization"; "Range"; "Referer";
   "Retry-After"; "Server"; "TE"; "Trailer"; "Transfer-Encoding"; "Upgrade"; "User-Agent"; "Vary"; "Via"; "Warning";
   "WWW-Authenticate";
   "Response-Time"; "Request-Time"; "Proxy-Connection"; "Keep-Alive"]%string.

Definition ccNames : list (list Z) :=
  chars <$>
  ["no-cache"; "no-store"; "max-age"; "max-stale"; "min-fresh"; "no-transform"; "only-if-cached"; "public"; "private";
   "must-revalidate"; "proxy-revalidate"; "s-maxage"]%string.

Definition numbers : list Z := (λ n, Z.of_nat n) <$> (seq 1 13 ++ seq 13 39).

(** [hfind] in a table of [addToTab]. *)
Fixpoint find_name (names : list (list Z)) (values : list Z) (key : list Z) : option Z :=
  match names, values with
  | n :: names, v :: values => if decide (n = key) then Some v else find_name names values key
  | _, _ => None
  end.

Definition hTab (key : list Z) : option Z := find_name hNames numbers key.
Definition ccTab (key : list Z) : option Z := find_name ccNames numbers key.

Definition token_text (lx : lexer) : list Z := take (toklen lx) (drop (token lx) (mem lx)).
Definition token_number (lx : lexer) : outcome Z := atoi (drop (token lx) (mem lx)).

(** ** The request *)

Record cache_control_request := mk_cc {
  no_cache : Z;
  no_store : Z;
  max_age : Z;
  max_stale : Z;
  min_fresh : Z;
  no_transform : Z;
  only_if_cached : Z
}.

(** What the head of a request determines. *)
Record head := mk_head {
  status : Z;
  method : Z;
  URL : option nat;
  majVersion : Z;
  minVersion : Z;
  headers : list nat;
  cc : option cache_control_request;
  age_value : Z;
  conn : option nat;
  pconn : option nat;
  kl : option nat;
  te : option nat;
  con_len : Z;
  if_mod_since_value : Z;
  if_unmod_since_value : Z
}.

Definition set_status x h :=
  let '(mk_head _ a b c d e f g i j k l m n o) := h in mk_head x a b c d e f g i j k l m n o.
Definition set_method x h :=
  let '(mk_head s _ b c d e f g i j k l m n o) := h in mk_head s x b c d e f g i j k l m n o.
Definition set_URL x h :=
  let '(mk_head s a _ c d e f g i j k l m n o) := h in mk_head s a x c d e f g i j k l m n o.
Definition set_version x y h :=
  let '(mk_head s a b _ _ e f g i j k l m n o) := h in mk_head s a b x y e f g i j k l m n o.
Definition add_header p h :=
  let '(mk_head s a b c d e f g i j k l m n o) := h in mk_head s a b c d (e ++ [p]) f g i j k l m n o.
Definition set_cc x h :=
  let '(mk_head s a b c d e _ g i j k l m n o) := h in mk_head s a b c d e x g i j k l m n o.
Definition set_age x h :=
  let '(mk_head s a b c d e f _ i j k l m n o) := h in mk_head s a b c d e f x i j k l m n o.
Definition set_conn x h :=
  let '(mk_head s a b c d e f g _ j k l m n o) := h in mk_head s a b c d e f g x j k l m n o.
Definition set_pconn x h :=
  let '(mk_head s a b c d e f g i _ k l m n o) := h in mk_head s a b c d e f g i x k l m n o.
Definition set_kl x h :=
  let '(mk_head s a b c d e f g i j _ l m n o) := h in mk_head s a b c d e f g i j x l m n o.
Definition set_te x h :=
  let '(mk_head s a b c d e f g i j k _ m n o) := h in mk_head s a b c d e f g i j k x m n o.
Definition set_con_len x h :=
  let '(mk_head s a b c d e f g i j k l _ n o) := h in mk_head s a b c d e f g i j k l x n o.
Definition set_if_mod x h :=
  let '(mk_head s a b c d e f g i j k l m _ o) := h in mk_head s a b c d e f g i j k l m x o.
Definition set_if_unmod x h :=
  let '(mk_head s a b c d e f g i j k l m n _) := h in mk_head s a b c d e f g i j k l m n x.

Definition bad (h : head) : head := set_status BAD_REQUEST h.

(** A function of the table [requestHeaderFunctions]. *)
Definition parser : Type := lexer → head → outcome (lexer * head * Z).

(** ** The request line *)

Definition methods : list (list Z * Z) :=
  [(chars "GET", GET); (chars "HEAD", HEAD); (chars "POST", POST); (chars "PUT", PUT);
   (chars "WAPROX-GET", WAPROX_GET); (chars "WAPROX-PUT", WAPROX_PUT)].

Definition versions : list (list Z * (Z * Z)) :=
  [(chars "HTTP/0.9", (0, 9)); (chars "HTTP/1.0", (1, 0)); (chars "HTTP/1.1", (1, 1))].

(** The first of the literals that the text at [p] starts with. *)
Fixpoint recognise {A} (m : list Z) (p : nat) (table : list (list Z * A)) : outcome (option A) :=
  match table with
  | [] => Done None
  | (s, x) :: table => found ← starts_with m p s; if (found : bool) then Done (Some x) else recognise m p table
  end.

Definition parseRequestLine : parser := λ lx h,
  '(lx, st) ← getNextToken lx;
  if st =? -1 then Done (lx, bad h, -1) else
  m ← recognise (mem lx) (token lx) methods;
  match m with
  | None => Done (lx, bad h, 0)
  | Some m =>
      let h := set_method m h in
      '(lx, st) ← eat SP (Some 1%nat) lx;
      if st =? -1 then Done (lx, bad h, 0) else
      '(lx, st) ← getNextToken lx;
      if st =? -1 then Done (lx, bad h, -1) else
      if negb (tokenType lx =? TOKEN) then Done (lx, bad h, 0) else
      let h := set_URL (Some (token lx)) h in
      '(lx, st) ← eat SP (Some 1%nat) lx;
      if st =? -1 then Done (lx, bad h, 0) else
      '(lx, st) ← getNextToken lx;
      if st =? -1 then Done (lx, bad h, -1) else
      v ← recognise (mem lx) (token lx) versions;
      match v with
      | None => Done (lx, bad h, 0)
      | Some (major, minor) =>
          let h := set_status GOOD_REQUEST_LINE (set_version major minor h) in
          '(lx, st) ← getNextToken lx;
          if st =? -1 then Done (lx, bad h, -1)
          else if negb (tokenType lx =? CRLF) then Done (lx, h, -1)
          else Done (lx, h, 0)
      end
  end.

(** ** Headers with one value *)

(** The colon, a space for those functions that ask for one, and the token after
    it; [false] when the function gives up. *)
Definition value_token (space : bool) (lx : lexer) (h : head) : outcome (lexer * head * bool) :=
  '(lx, st) ← eat COLON (Some 1%nat) lx;
  if st =? -1 then Done (lx, bad h, false) else
  '(lx, h) ← (if space then '(lx, st) ← eat SP None lx; Done (lx, if st =? -1 then bad h else h) else Done (lx, h));
  '(lx, st) ← getNextToken lx;
  if st =? -1 then Done (lx, bad h, false) else Done (lx, h, true).

Definition with_value (space : bool) (store : lexer → head → outcome head) : parser := λ lx h,
  '(lx, h, ok) ← value_token space lx h;
  if (ok : bool) then h ← store lx h; Done (lx, h, 0) else Done (lx, h, -1).

Definition parseRequestConnection : parser := with_value false (λ lx h, Done (set_conn (Some (token lx)) h)).
Definition parseRequestProxyConnection : parser := with_value false (λ lx h, Done (set_pconn (Some (token lx)) h)).
Definition parseRequestKeepAlive : parser := with_value false (λ lx h, Done (set_kl (Some (token lx)) h)).
Definition parseRequestTE : parser := with_value true (λ lx h, Done (set_te (Some (token lx)) h)).
Definition parseRequestContentLength : parser :=
  with_value true (λ lx h, n ← token_number lx; Done (set_con_len n h)).

Definition parseRequestAge : parser := λ lx h,
  '(lx, st) ← eat COLON (Some 1%nat) lx;
  if st =? -1 then Done (lx, bad h, -1) else
  '(lx, st) ← getNextToken lx;
  let h := if st =? -1 then bad h else h in
  n ← token_number lx;
  Done (lx, set_age n h, 0).

(** The headers that are kept as they are. *)
Definition keep_header : parser := λ lx h, Done (lx, add_header (buf lx) h, 0).

(** ** Cache-Control *)

Definition no_directives : cache_control_request := mk_cc ABSENT ABSENT (-1) (-1) (-1) ABSENT ABSENT.

Definition set_max_age x c :=
  mk_cc (no_cache c) (no_store c) x (max_stale c) (min_fresh c) (no_transform c) (only_if_cached c).
Definition set_max_stale x c :=
  mk_cc (no_cache c) (no_store c) (max_age c) x (min_fresh c) (no_transform c) (only_if_cached c).
Definition set_min_fresh x c :=
  mk_cc (no_cache c) (no_store c) (max_age c) (max_stale c) x (no_transform c) (only_if_cached c).

(** What follows a directive with an argument. *)
Inductive argument := Number (n : Z) | NoArgument | GivesUp (is_bad : bool) (ret : Z).

Definition cc_argument (optional : bool) (lx : lexer) : outcome (lexer * argument) :=
  '(lx, st) ← getNextToken lx;
  if st =? -1 then Done (lx, GivesUp false (-1)) else
  if negb (tokenType lx =? EQUALS) then
    if optional then Done (step_back (start lx) (state lx) lx, NoArgument) else Done (lx, GivesUp true 0)
  else
    '(lx, st) ← getNextToken lx;
    if st =? -1 then Done (lx, GivesUp false (-1)) else
    if negb (tokenType lx =? TOKEN) then Done (lx, GivesUp true 0)
    else n ← token_number lx; Done (lx, Number n).

(** The directive with this number of [ccTab]: how it changes what is known, and
    what became of its argument. *)
Definition cc_directive (d : Z) (lx : lexer) (c : cache_control_request) : outcome (lexer * cache_control_request * argument) :=
  if d =? 1 then Done (lx, mk_cc 1 (no_store c) (max_age c) (max_stale c) (min_fresh c) (no_transform c) (only_if_cached c), NoArgument)
  else if d =? 2 then Done (lx, mk_cc (no_cache c) 1 (max_age c) (max_stale c) (min_fresh c) (no_transform c) (only_if_cached c), NoArgument)
  else if d =? 3 then
    '(lx, a) ← cc_argument false lx; Done (lx, match a with Number n => set_max_age n c | _ => c end, a)
  else if d =? 4 then
    '(lx, a) ← cc_argument true lx; Done (lx, match a with Number n => set_max_stale n c | _ => c end, a)
  else if d =? 5 then
    '(lx, a) ← cc_argument false lx; Done (lx, match a with Number n => set_min_fresh n c | _ => c end, a)
  else if d =? 6 then Done (lx, mk_cc (no_cache c) (no_store c) (max_age c) (max_stale c) (min_fresh c) 1 (only_if_cached c), NoArgument)
  else if d =? 7 then Done (lx, mk_cc (no_cache c) (no_store c) (max_age c) (max_stale c) (min_fresh c) (no_transform c) 1, NoArgument)
  else Done (lx, c, NoArgument).

Fixpoint cc_loop (fuel : nat) (lx : lexer) (h : head) (c : cache_control_request) : outcome (lexer * head * Z) :=
  match fuel with
  | O => Fault OutOfFuel
  | S fuel =>
      '(lx, st) ← getNextToken lx;
      if st =? -1 then Done (lx, set_cc (Some c) h, -1)
      else if one_of (tokenType lx) [LWS; COMMA; SP] then cc_loop fuel lx h c
      else if tokenType lx =? CRLF then Done (mode LINE NONE lx, set_status COME_BACK (set_cc (Some c) h), 0)
      else
        match ccTab (token_text lx) with
        | None => cc_loop fuel lx h c
        | Some d =>
            '(lx, c, a) ← cc_directive d lx c;
            match a with
            | GivesUp is_bad ret => Done (lx, (if is_bad then bad else id) (set_cc (Some c) h), ret)
            | _ => cc_loop fuel lx h c
            end
        end
  end.

(** A turn consumes a token, unless it hangs. *)
Definition parseRequestCacheControl : parser := λ lx h,
  let h := set_cc (Some no_directives) h in
  '(lx, st) ← eat COLON (Some 1%nat) lx;
  if st =? -1 then Done (lx, bad h, 0) else cc_loop (S (end_ lx)) lx h no_directives.

(** ** Dates *)

Record tm := mk_tm { tm_mday : Z; tm_mon : Z; tm_year : Z; tm_hour : Z; tm_min : Z; tm_sec : Z }.

(** A letter, in either case. *)
Definition letter (c : Z) (s : string) : bool := one_of c (chars s).

(** [months]: the characters that decide which month a name is. *)
Definition months (m : list Z) (p : nat) : outcome Z :=
  c ← get m p;
  if letter c "jJ" then
    d ← get m (p + 3);
    if letter d "eE" then Done 5 else if letter d "uU" then Done 0 else if letter d "yY" then Done 6 else Done 0
  else if letter c "fF" then Done 1
  else if letter c "mM" then
    d ← get m (p + 2);
    if letter d "rR" then Done 2 else if letter d "yY" then Done 4 else Done 2
  else if letter c "aA" then
    d ← get m (p + 1);
    if letter d "pP" then Done 3 else if letter d "uU" then Done 7 else Done 3
  else if letter c "sS" then Done 8
  else if letter c "oO" then Done 9
  else if letter c "nN" then Done 10
  else if letter c "dD" then Done 11
  else Done 0.

Section dates.
Variable mktime : tm → Z.

(** The result: the time, when it is assigned, and the value returned. *)
Abbreviation date := (outcome (lexer * option Z * Z)).

Definition need (lx : lexer) (k : lexer → date) : date :=
  '(lx, st) ← getNextToken lx; if st =? -1 then Done (lx, None, -1) else k lx.
Definition need_colon (lx : lexer) (k : lexer → date) : date :=
  '(lx, st) ← eat COLON (Some 1%nat) lx; if st =? -1 then Done (lx, None, -1) else k lx.
Definition spaces (lx : lexer) (k : lexer → date) : date := '(lx, _) ← eat SP None lx; k lx.
Definition number (lx : lexer) (k : Z → date) : date := n ← token_number lx; k n.

(** hh:mm:ss, at the token of the hour. *)
Definition clock (lx : lexer) (k : lexer → Z → Z → Z → date) : date :=
  number lx (λ hour, need_colon lx (λ lx, need lx (λ lx, number lx (λ minute,
    need_colon lx (λ lx, need lx (λ lx, number lx (λ sec, k lx hour minute sec))))))).

Definition first_format (lx : lexer) : date :=
  number lx (λ mday, spaces lx (λ lx, need lx (λ lx,
    '(lx, _) ← (if tokenType lx =? COMMA then '(lx, _) ← eat SP None lx; getNextToken lx else Done (lx, 0));
    mon ← months (mem lx) (token lx);
    spaces lx (λ lx, need lx (λ lx, number lx (λ year,
      spaces lx (λ lx, need lx (λ lx, clock lx (λ lx hour minute sec,
        Done (lx, Some (mktime (mk_tm mday mon (i32 (year - 1900)) hour minute sec)), 0)))))))))).

Definition second_format (lx : lexer) : date :=
  mon ← months (mem lx) (token lx);
  spaces lx (λ lx, need lx (λ lx, number lx (λ mday,
    spaces lx (λ lx, need lx (λ lx, clock lx (λ lx hour minute sec,
      spaces lx (λ lx, need lx (λ lx, number lx (λ year,
        Done (lx, Some (mktime (mk_tm mday mon (i32 (year - 1900)) hour minute sec)), 0)))))))))).

Definition parseDate (lx : lexer) : date :=
  spaces lx (λ lx, need lx (λ lx, need lx (λ lx,
    '(lx, _) ← (if tokenType lx =? COMMA then eat SP (Some 1%nat) lx else Done (lx, 0));
    need lx (λ lx,
      if (toklen lx =? 2)%nat then first_format lx
      else if (toklen lx =? 3)%nat then second_format lx
      else Done (lx, None, 0))))).

Definition with_date (store : Z → head → head) : parser := λ lx h,
  '(lx, st) ← eat COLON (Some 1%nat) lx;
  if st =? -1 then Done (lx, bad h, -1) else
  '(lx, st) ← eat SP None lx;
  let h := if st =? -1 then bad h else h in
  '(lx, t, st) ← parseDate lx;
  Done (lx, match t with Some t => store t h | None => h end, st).

Definition parseRequestIfModifiedSince : parser := with_date set_if_mod.
(** This one sets [BAD_RESPONSE], 7, when there is no space. *)
Definition parseRequestIfUnmodifiedSince : parser := λ lx h,
  '(lx, st) ← eat COLON (Some 1%nat) lx;
  if st =? -1 then Done (lx, bad h, -1) else
  '(lx, st) ← eat SP None lx;
  let h := if st =? -1 then set_status 7 h else h in
  '(lx, t, st) ← parseDate lx;
  Done (lx, match t with Some t => set_if_unmod t h | None => h end, st).

(** ** The head of a request *)

(** [requestHeaderFunctions], of the numbers in http.h. *)
Definition requestHeaderFunctions (hVal : Z) : parser :=
  if hVal =? 1 then parseRequestCacheControl
  else if hVal =? 7 then parseRequestAge
  else if hVal =? 10 then parseRequestConnection
  else if hVal =? 13 then parseRequestContentLength
  else if hVal =? 41 then parseRequestTE
  else if hVal =? 25 then parseRequestIfModifiedSince
  else if hVal =? 28 then parseRequestIfUnmodifiedSince
  else if hVal =? 50 then parseRequestProxyConnection
  else if hVal =? 51 then parseRequestKeepAlive
  else keep_header.

Definition parseHTTPHeader : parser := λ lx h,
  '(lx, st) ← getNextToken lx;
  if st =? -1 then Done (lx, bad h, -1) else
  if negb (tokenType lx =? TOKEN) then Done (lx, bad h, 0) else
  empty ← starts_with (mem lx) (buf lx + processed lx) [COLON; SPACE; CRETURN; LFEED];
  if (empty : bool) then Done (lx, add_header (buf lx) h, 0) else
  match hTab (token_text lx) with
  | None => Done (lx, add_header (buf lx) h, 0)
  | Some hVal =>
      if (51 <? hVal) || (hVal <? 0) then Done (lx, h, -1)
      else
        '(lx, h, st) ← requestHeaderFunctions hVal lx h;
        if st =? -1 then Done (lx, bad h, -1) else Done (lx, h, 0)
  end.

(** ** The request and its reader *)

Record request := mk_request {
  rq_mem : list Z;
  rq_stage : Z;
  rq_start : Z;
  rq_state : Z;
  rq_rewind : Z;
  rq_prevUsed : nat;
  rq_used : nat;
  rq_len : nat;
  rq_head : head;
  rq_entityLen : Z;
  rq_rcvd : Z;
  rq_etype : Z
}.

(** What the last call left: stage, lexer, and how far to go back. *)
Definition leave (stage s st rewind : Z) (len : nat) (lx : lexer) (h : head) (q : request) : request :=
  mk_request (mem lx) stage s st rewind (rq_prevUsed q) (rq_used q) len h (rq_entityLen q) (rq_rcvd q) (rq_etype q).
Definition set_entity (len rcvd etype : Z) (q : request) : request :=
  mk_request (rq_mem q) (rq_stage q) (rq_start q) (rq_state q) (rq_rewind q) (rq_prevUsed q) (rq_used q) (rq_len q)
    (rq_head q) len rcvd etype.

(** [initHTTPRequest], of what the memory that was allocated contains. *)
Definition initHTTPRequest (q : request) : request :=
  let h := rq_head q in
  mk_request (rq_mem q) REQUEST_LINE HEADER NONE (-1) (rq_prevUsed q) 0 (rq_len q)
    (mk_head BAD_REQUEST (method h) None (majVersion h) (minVersion h) [] None (age_value h) None (pconn h) (kl h) None (-1) (-1) (-1))
    (rq_entityLen q) (rq_rcvd q) 0.

(** *** The entity *)

Definition hex_value (c : Z) : option Z :=
  if isdigit c then Some (c - 48)
  else if (97 <=? c) && (c <=? 102) then Some (c - 87)
  else if (65 <=? c) && (c <=? 70) then Some (c - 55)
  else None.

Fixpoint hex_digits (cs : list Z) (acc : option Z) : outcome (option Z) :=
  match cs with
  | [] => Fault OutOfBounds
  | c :: cs =>
      match hex_value c with
      | Some d => hex_digits cs (Some (16 * default 0 acc + d))
      | None => Done acc
      end
  end.

(** [sscanf( s, "%x", ... )] on unsigned digits. *)
Fixpoint scan_hex (cs : list Z) : outcome (option Z) :=
  match cs with
  | [] => Fault OutOfBounds
  | c :: cs' => if isspace c then scan_hex cs' else n ← hex_digits cs None; Done (fmap (M:=option) (λ n, i32 (Z.min n (2 ^ 32 - 1))) n)
  end.

(** The loop that looks for the end of the last chunk. *)
Fixpoint skip_to_crlf (fuel : nat) (lx : lexer) : outcome (lexer * Z) :=
  match fuel with
  | O => Fault OutOfFuel
  | S fuel =>
      '(lx, st) ← getNextToken lx;
      if st =? -1 then Done (lx, -1) else if tokenType lx =? CRLF then Done (lx, 0) else skip_to_crlf fuel lx
  end.

Definition fetch_entity (lx : lexer) (h : head) (q : request) : outcome (request * Z) :=
  let total := Z.of_nat (end_ lx) - Z.of_nat (processed lx) in
  let keep h q := leave ENTITY_FETCH (rq_start q) (rq_state q) (rq_rewind q) (rq_len q) lx h q in
  if rq_etype q =? CONN then
    if negb (tokenType lx =? BODY) then Done (keep (bad h) q, 0)
    else Done (keep (set_status ENTITY_INCOMPLETE h) (set_entity (rq_entityLen q) (rq_rcvd q + total) (rq_etype q) q), 0)
  else if rq_etype q =? CLEN then
    if negb (tokenType lx =? BODY) then Done (keep (bad h) q, 0)
    else if con_len h - rq_rcvd q <=? total then
      Done (keep (set_status ENTITY_COMPLETE h) (set_entity (rq_entityLen q) (con_len h) (rq_etype q) q), 0)
    else
      Done (leave ENTITY_FETCH BODY NONE (rq_rewind q) (rq_len q) lx h
              (set_entity (rq_entityLen q) (rq_rcvd q + total) (rq_etype q) q), 0)
  else if rq_etype q =? CHUN then
    size ← (if rq_entityLen q =? -1 then scan_hex (drop (token lx) (mem lx)) else Done None);
    let q := match size with
             | Some n => set_entity n 0 (rq_etype q) q
             | None => if rq_entityLen q =? -1 then set_entity (-1) 0 (rq_etype q) q else q
             end in
    if bool_decide (size = Some 0) then
      '(lx, st) ← skip_to_crlf (S (end_ lx)) lx;
      Done (leave ENTITY_FETCH (rq_start q) (rq_state q)
              (if st =? -1 then rq_rewind q else Z.of_nat (end_ lx) - Z.of_nat (processed lx)) (rq_len q) lx
              (set_status ENTITY_COMPLETE h) q, st)
    else if total <? rq_entityLen q - rq_rcvd q then
      Done (keep h (set_entity (rq_entityLen q) (rq_rcvd q + total) (rq_etype q) q), 0)
    else Done (keep h (set_entity (-1) (rq_rcvd q) (rq_etype q) q), 0)
  else Done (keep (set_status ENTITY_COMPLETE h) q, 0).

(** How the end of the entity will be known. *)
Definition entity_type (m : list Z) (h : head) (q : request) : outcome Z :=
  if 0 <=? con_len h then Done CLEN
  else
    closes ← match conn h with Some p => starts_with m p (chars "close") | None => Done false end;
    if (closes : bool) then Done CONN
    else
      chunked ← match te h with Some p => starts_with m p (chars "chunked") | None => Done false end;
      Done (if (chunked : bool) then CHUN else rq_etype q).

(** *** The loop *)

(** The line that was found is parsed with [buf] at its beginning. *)
Definition sub_lexer (m : Z) (lx : lexer) : lexer :=
  mk_lexer (mem lx) (token lx) 0 (end_ lx) m NONE (token lx) (toklen lx) (tokenType lx).
Definition resume (lx lx' : lexer) : lexer :=
  mk_lexer (mem lx') (buf lx) (processed lx) (end_ lx') LINE NONE (token lx') (toklen lx') (tokenType lx').

Fixpoint request_loop (fuel : nat) (lx : lexer) (q : request) : outcome (request * Z) :=
  match fuel with
  | O => Fault OutOfFuel
  | S fuel =>
      let s0 := start lx in
      let st0 := state lx in
      let stage := rq_stage q in
      let stop h r lx code := Done (leave stage s0 st0 r (end_ lx) lx h q, code) in
      '(lx, st) ← getNextToken lx;
      if st =? -1 then stop (bad (rq_head q)) (rq_rewind q) lx (-1)
      else if tokenType lx =? BUFEND then stop (set_status COME_BACK (rq_head q)) (Z.of_nat (toklen lx)) lx 0
      else if stage =? REQUEST_LINE then
        '(lx', h, st) ← parseRequestLine (sub_lexer RAW lx) (rq_head q);
        let lx := resume lx lx' in
        if (status h =? BAD_REQUEST) || (st =? -1) then stop (bad h) (rq_rewind q) lx (-1)
        else request_loop fuel lx (leave HTTP_HEADER s0 st0 (rq_rewind q) (rq_len q) lx h q)
      else if stage =? HTTP_HEADER then
        if tokenType lx =? CRLF then
          let h := set_status ENTITY_INCOMPLETE (rq_head q) in
          if one_of (method h) [GET; HEAD] then
            Done (leave ENTITY_FETCH s0 st0 (Z.of_nat (end_ lx) - Z.of_nat (processed lx)) (rq_len q) lx
                    (set_status ENTITY_COMPLETE h) (set_entity 0 (rq_rcvd q) (rq_etype q) q), 0)
          else
            etype ← entity_type (mem lx) h q;
            if method h =? WAPROX_PUT then
              Done (leave ENTITY_FETCH s0 st0 (rq_rewind q) (rq_prevUsed q + processed lx) lx
                      (set_status ENTITY_COMPLETE h)
                      (if etype =? CHUN then set_entity (-1) 0 etype q else set_entity (rq_entityLen q) (rq_rcvd q) etype q), 0)
            else
              request_loop fuel (mode BODY NONE lx)
                (leave ENTITY_FETCH s0 st0 (rq_rewind q) (rq_len q) lx h (set_entity (-1) 0 etype q))
        else
          '(lx', h, st) ← parseHTTPHeader (sub_lexer INIT lx) (rq_head q);
          let lx := resume lx lx' in
          if (status h =? BAD_REQUEST) || (st =? -1) then stop (bad h) (rq_rewind q) lx 0
          else request_loop fuel lx (leave HTTP_HEADER s0 st0 (rq_rewind q) (rq_len q) lx h q)
      else if stage =? ENTITY_FETCH then
        fetch_entity lx (rq_head q) (leave stage s0 st0 (rq_rewind q) (rq_len q) lx (rq_head q) q)
      else stop (bad (rq_head q)) (rq_rewind q) lx (if stage =? ENTITY_COMPLETE then -1 else 0)
  end.

(** What [read] returned. *)
Inductive read_result := Read (bs : list Z) | WouldBlock | ReadError.

Definition set_lengths (rewind : Z) (prevUsed used : nat) (q : request) : request :=
  mk_request (rq_mem q) (rq_stage q) (rq_start q) (rq_state q) rewind prevUsed used (rq_len q) (rq_head q)
    (rq_entityLen q) (rq_rcvd q) (rq_etype q).
Definition set_head (h : head) (q : request) : request :=
  mk_request (rq_mem q) (rq_stage q) (rq_start q) (rq_state q) (rq_rewind q) (rq_prevUsed q) (rq_used q) (rq_len q) h
    (rq_entityLen q) (rq_rcvd q) (rq_etype q).

(** [xs] over the memory from [p] on. *)
Definition splice_at (m : list Z) (p : nat) (xs : list Z) : list Z := take p m ++ xs ++ drop (p + length xs) m.

(** [read] is asked for no more than there is room for. *)
Definition parseRequest (r : read_result) (q : request) : outcome (request * Z) :=
  if (SMALL_BUFF_SIZE <=? rq_used q)%nat then Done (set_head (set_status BUFF_FULL (rq_head q)) q, 0)
  else
    let back := if 0 <? rq_rewind q then Z.to_nat (rq_rewind q) else 0%nat in
    let base := (rq_used q - back)%nat in
    match r with
    | WouldBlock => Done (set_head (set_status COME_BACK (rq_head q)) (set_lengths (rq_rewind q) base (rq_used q) q), 0)
    | ReadError => Done (set_head (bad (rq_head q)) (set_lengths (rq_rewind q) base (rq_used q) q), -1)
    | Read bs =>
        let bs := take (SMALL_BUFF_SIZE - rq_used q) bs in
        let used := (rq_used q + length bs)%nat in
        let e := (back + length bs)%nat in
        let m := splice_at (rq_mem q) (rq_used q) (bs ++ [EOF]) in
        if (length bs =? 0)%nat then
          Done (set_head (set_status CLOSED (rq_head q))
                  (mk_request m (rq_stage q) (rq_start q) (rq_state q) (rq_rewind q) base used (rq_len q) (rq_head q)
                     (rq_entityLen q) (rq_rcvd q) (rq_etype q)), 0)
        else
          request_loop (S e) (mk_lexer m base 0 e (rq_start q) (rq_state q) 0 0 NONE)
            (mk_request m (rq_stage q) (rq_start q) (rq_state q) 0 base used e (rq_head q)
               (rq_entityLen q) (rq_rcvd q) (rq_etype q))
    end.

(** The calls for the pieces in which a request arrives. *)
Fixpoint receive_request (pieces : list (list Z)) (q : request) : outcome request :=
  match pieces with
  | [] => Done q
  | bs :: pieces =>
      '(q, _) ← parseRequest (Read bs) q;
      if (status (rq_head q) =? COME_BACK) && negb (bool_decide (pieces = [])) then receive_request pieces q else Done q
  end.
End dates.
