(* ===== verification/HcHead.v ===== *)
(** * HashCache: the head of a request is read as it was written

    The text of a request head, as a client writes it, and what
    [parseRequest] makes of it: the same fields, in whatever pieces it
    arrives. *)

From Stdlib Require Import ZArith Lia Ascii String.
From stdpp Require Import base list option numbers gmap sets.
From S2P Require Import Prelude HcLexer HcRequest.

#[local] Coercion chars : string >-> list.

(** ** What a client writes *)

Definition crlf : list Z := [CRETURN; LFEED].

Inductive directive :=
  | NoCache | NoStore | NoTransform | OnlyIfCached
  | MaxAge (ds : list Z) | MaxStale (ds : list Z) | MinFresh (ds : list Z).

(** A header field: one of those that the proxy understands, or another. *)
Inductive field :=
  | Kept (name value : list Z)
  | ContentLength (ds : list Z)
  | TransferEncoding (v : list Z)
  | Connection (v : list Z)
  | CacheControl (d : directive) (ds : list directive).

Definition directive_name (d : directive) : list Z :=
  chars match d with
  | NoCache => "no-cache" | NoStore => "no-store" | NoTransform => "no-transform" | OnlyIfCached => "only-if-cached"
  | MaxAge _ => "max-age" | MaxStale _ => "max-stale" | MinFresh _ => "min-fresh"
  end%string.

Definition directive_text (d : directive) : list Z :=
  directive_name d ++ match d with MaxAge ds | MaxStale ds | MinFresh ds => EQUALS :: ds | _ => [] end.

(** The directives, each after a space, with commas between them. *)
Fixpoint directives_text (d : directive) (ds : list directive) : list Z :=
  SPACE :: directive_text d ++ match ds with [] => [] | d :: ds => COMMA :: directives_text d ds end.

Definition field_text (f : field) : list Z :=
  match f with
  | Kept name value => name ++ [COLON; SPACE] ++ value
  | ContentLength ds => chars "Content-Length" ++ [COLON; SPACE] ++ ds
  | TransferEncoding v => chars "Transfer-Encoding" ++ [COLON; SPACE] ++ v
  | Connection v => chars "Connection" ++ [COLON; SPACE] ++ v
  | CacheControl d ds => chars "Cache-Control" ++ [COLON] ++ directives_text d ds
  end.

Definition request_line (mname url vname : list Z) : list Z := mname ++ [SPACE] ++ url ++ [SPACE] ++ vname.

Definition head_text (mname url vname : list Z) (fs : list field) : list Z :=
  request_line mname url vname ++ crlf ++ mjoin ((λ f, field_text f ++ crlf) <$> fs) ++ crlf.

(** ** Which texts are meant *)

Definition number_text (ds : list Z) : Prop := ds ≠ [] ∧ Forall (λ c, isdigit c = true) ds.

(** The value of a number, as far as an [int] can hold it. *)
Definition un_decimal (ds : list Z) : Z := clamp (foldl (λ a c, 10 * a + (c - 48)) 0 ds).

Definition valid_directive (d : directive) : Prop :=
  match d with MaxAge ds | MaxStale ds | MinFresh ds => number_text ds | _ => True end.

(** The headers that have a function of their own. *)
Definition special : list Z := [1; 7; 10; 13; 41; 25; 28; 50; 51].

Definition valid_field (f : field) : Prop :=
  match f with
  | Kept name value =>
      name ≠ [] ∧ Forall word_char name ∧ Forall line_char value ∧ (∀ n, hTab name = Some n → n ∉ special)
  | ContentLength ds => number_text ds
  | TransferEncoding v => v ≠ [] ∧ Forall word_char v
  | Connection v => (∃ c v', v = c :: v' ∧ c ≠ SPACE ∧ c ≠ TAB) ∧ Forall line_char v
  | CacheControl d ds => Forall valid_directive (d :: ds)
  end.

Definition valid_url (url : list Z) : Prop := url ≠ [] ∧ Forall (λ c, raw_char c ∧ line_char c) url.

(** ** What the proxy makes of it *)

Definition apply_directive (c : cache_control_request) (d : directive) : cache_control_request :=
  match d with
  | NoCache => mk_cc PRESENT (no_store c) (max_age c) (max_stale c) (min_fresh c) (no_transform c) (only_if_cached c)
  | NoStore => mk_cc (no_cache c) PRESENT (max_age c) (max_stale c) (min_fresh c) (no_transform c) (only_if_cached c)
  | NoTransform => mk_cc (no_cache c) (no_store c) (max_age c) (max_stale c) (min_fresh c) PRESENT (only_if_cached c)
  | OnlyIfCached => mk_cc (no_cache c) (no_store c) (max_age c) (max_stale c) (min_fresh c) (no_transform c) PRESENT
  | MaxAge ds => set_max_age (un_decimal ds) c
  | MaxStale ds => set_max_stale (un_decimal ds) c
  | MinFresh ds => set_min_fresh (un_decimal ds) c
  end.

(** The field, whose line is at [p]: what it changes in the head. *)
Definition effect (p : nat) (f : field) (h : head) : head :=
  match f with
  | Kept _ _ => add_header p h
  | ContentLength ds => set_con_len (un_decimal ds) h
  | TransferEncoding _ => set_te (Some (p + 19)%nat) h
  | Connection _ => set_conn (Some (p + 11)%nat) h
  | CacheControl d ds => set_cc (Some (foldl apply_directive no_directives (d :: ds))) h
  end.

(** A line that does not continue the line before it. *)
Definition begins (p : nat) (m : list Z) : Prop := ∃ c, m !! p = Some c ∧ c ≠ SPACE ∧ c ≠ TAB.

(** What stays readable in the buffer at [p]; of the [Connection] header it is
    an empty string, because the token that its pointer is set to is the space. *)
Definition readable (p : nat) (f : field) (m : list Z) : Prop :=
  match f with
  | Kept _ _ => text_at m p (field_text f ++ crlf)
  | TransferEncoding v => text_at m (p + 19) (v ++ [CRETURN])
  | Connection _ => text_at m (p + 11) [0]
  | _ => True
  end.

(** ** Small facts *)

Lemma digit_word c : isdigit c = true → word_char c.
Proof.
  unfold isdigit. intros H. apply andb_true_iff in H as [H1%Z.leb_le H2%Z.leb_le].
  assert (c ∈ (λ n, 48 + Z.of_nat n) <$> seq 0 10) as Hc.
  { apply list_elem_of_fmap. exists (Z.to_nat (c - 48)). split; [lia|apply elem_of_seq_iff; lia]. }
  cbn in Hc. repeat (apply elem_of_cons in Hc as [-> |Hc]; [done|]). by apply elem_of_nil in Hc.
Qed.

Lemma number_words ds : number_text ds → Forall word_char ds.
Proof. intros [_ H]. eapply Forall_impl; [exact H|]. apply digit_word. Qed.

Lemma text_at_drop m p cs : text_at m p cs → drop p m = cs ++ drop (p + length cs) m.
Proof.
  intros H%text_at_take. rewrite <- (take_drop (length cs) (drop p m)) at 1. by rewrite H, drop_drop.
Qed.

Lemma digits_run ds x rest acc :
  Forall (λ c, isdigit c = true) ds → isdigit x = false →
  digits (ds ++ x :: rest) acc = Done (foldl (λ a c, 10 * a + (c - 48)) acc ds).
Proof.
  intros Hd Hx. revert acc. induction Hd as [|c ds Hc _ IH]; intros acc; cbn; [by rewrite Hx|by rewrite Hc].
Qed.

Lemma atoi_number m p ds x :
  number_text ds → isdigit x = false → text_at m p (ds ++ [x]) → atoi (drop p m) = Done (un_decimal ds).
Proof.
  intros [Hn Hd] Hx Ht. rewrite (text_at_drop _ _ _ Ht), <- app_assoc. cbn [app].
  destruct ds as [|c ds]; [done|]. rewrite <- app_comm_cons. cbn [atoi].
  pose proof (Forall_cons_1 _ _ _ Hd) as [Hc _]. unfold isdigit in Hc. apply andb_true_iff in Hc as [H1%Z.leb_le H2%Z.leb_le].
  unfold isspace. rewrite (eqb_ne c 32), (eqb_ne c 45), (eqb_ne c 43) by lia.
  replace (c <=? 13) with false by (symmetry; apply Z.leb_gt; lia). rewrite andb_false_r. cbn [orb].
  rewrite app_comm_cons, digits_run by done. done.
Qed.

(** The characters that a literal needs. *)
#[local] Ltac split_text H :=
  repeat lazymatch type of H with
    | text_at _ _ (_ ++ _) => let H1 := fresh "Ht" in apply text_at_app in H as [H1 H]; split_text H1
    | text_at _ _ (_ :: _) => let H1 := fresh "Hc" in apply text_at_cons in H as [H1 H]
    | text_at _ _ [] => clear H
    end.

Lemma hTab_range name n : hTab name = Some n → 0 ≤ n ≤ 51.
Proof.
  assert (∀ names values, find_name names values name = Some n → n ∈ values) as H.
  { intros names. induction names as [|x names IH]; intros [|v values]; cbn; try done.
    case_decide; [intros [= ->]; by left|]. intros Hf. right. by apply IH. }
  intros Hn%H. unfold numbers in Hn. apply list_elem_of_fmap in Hn as (k & -> & Hk).
  apply elem_of_app in Hk as [Hk|Hk]; apply elem_of_seq_iff in Hk; lia.
Qed.

Lemma set_status_same h : set_status (status h) h = h.
Proof. by destruct h. Qed.
Lemma set_status_twice s s' h : set_status s (set_status s' h) = set_status s h.
Proof. by destruct h. Qed.
Lemma status_set_status s h : status (set_status s h) = s.
Proof. by destruct h. Qed.
Lemma effect_status p f h s : effect p f (set_status s h) = set_status s (effect p f h).
Proof. by destruct f, h. Qed.
Lemma status_effect p f h : status (effect p f h) = status h.
Proof. by destruct f, h. Qed.

(** [m'] is [m] but for [n] characters from [p] on. *)
Definition changed (p n : nat) (m m' : list Z) : Prop :=
  length m' = length m ∧ ∀ i, (i < p)%nat ∨ (p + n ≤ i)%nat → m' !! i = m !! i.

Lemma changed_refl p n m : changed p n m m.
Proof. done. Qed.
Lemma changed_insert p n m m' i (x : Z) :
  changed p n m m' → (p ≤ i < p + n)%nat → changed p n m (<[i := x]> m').
Proof.
  intros [Hl H] Hi. split; [by rewrite length_insert|]. intros j Hj. rewrite list_lookup_insert_ne by lia. by apply H.
Qed.
Lemma changed_trans p n m m' m'' : changed p n m m' → changed p n m' m'' → changed p n m m''.
Proof. intros [H1 H2] [H3 H4]. split; [by rewrite H3|]. intros i Hi. by rewrite H4, H2. Qed.
Lemma changed_weaken p n p' n' m m' : changed p n m m' → (p' ≤ p)%nat → (p + n ≤ p' + n')%nat → changed p' n' m m'.
Proof. intros [Hl H] H1 H2. split; [done|]. intros i Hi. apply H. lia. Qed.
Lemma changed_text p n m m' q cs :
  changed p n m m' → text_at m q cs → (q + length cs ≤ p)%nat ∨ (p + n ≤ q)%nat → text_at m' q cs.
Proof.
  intros [_ H] Ht Hq i c Hi. rewrite H; [by apply Ht|]. apply lookup_lt_Some in Hi. lia.
Qed.

(** ** Headers *)

Lemma starts_with_text m p cs s :
  text_at m p cs → (length s ≤ length cs)%nat → starts_with m p s = Done (bool_decide (take (length s) cs = s)).
Proof.
  revert p cs. induction s as [|c s IH]; intros p cs Ht Hl; [done|]. destruct cs as [|x cs]; [cbn in Hl; lia|].
  apply text_at_cons in Ht as [H0 Ht]. cbn in *. rewrite (proj2 (get_Done _ _ _) H0). cbn.
  destruct (Z.eqb_spec x c) as [-> |Hne].
  - rewrite (IH _ cs) by (done || lia). f_equal. apply bool_decide_ext. split; [by intros ->|by intros [= ->]].
  - symmetry. f_equal. apply bool_decide_false. by intros [= -> _].
Qed.

Section head.
Context (mktime : tm → Z).

(** The lexer in a line at [p] of the memory, [q] characters on. *)
Abbreviation in_line m p q e := (mk_lexer m p q e INIT NONE).

(** The name of a header, with what the proxy does next. *)
Lemma parse_name m p e tok tl ty name rest h :
  name ≠ [] → Forall word_char name → text_at m p (name ++ COLON :: rest) → (3 ≤ length rest)%nat → (length name ≤ e)%nat →
  parseHTTPHeader mktime (in_line m p 0 e tok tl ty) h =
    if bool_decide (take 3 rest = [SPACE; CRETURN; LFEED])
    then Done (in_line m p (length name) e p (length name) TOKEN, add_header p h, 0)
    else match hTab name with
         | None => Done (in_line m p (length name) e p (length name) TOKEN, add_header p h, 0)
         | Some hVal =>
             '(lx, h, st) ← requestHeaderFunctions mktime hVal (in_line m p (length name) e p (length name) TOKEN) h;
             if st =? -1 then Done (lx, bad h, -1) else Done (lx, h, 0)
         end.
Proof.
  intros Hn Hw Ht Hrest He.
  pose proof (proj1 (text_at_app _ _ _ _) Ht) as [Htn Htc].
  assert (getNextToken (in_line m p 0 e tok tl ty) = Done (in_line m p (length name) e p (length name) TOKEN, 0)) as Htok.
  { pose proof (init_word m p 0 e tok tl ty name COLON Hn Hw) as H. rewrite Nat.add_0_r in H. apply H; [|done|lia].
    apply text_at_app. split; [done|]. apply text_at_cons in Htc as [Hc _]. apply text_at_cons. split; [done|apply text_at_nil]. }
  unfold parseHTTPHeader. rewrite Htok. cbn [mbind outcome_bind Z.eqb]. cbn [tokenType negb mem buf processed].
  change (0 =? -1) with false. change (TOKEN =? TOKEN) with true. cbn [negb].
  rewrite (starts_with_text _ _ _ _ Htc) by (cbn; lia). cbn [mbind outcome_bind].
  replace (bool_decide (take (length [COLON; SPACE; CRETURN; LFEED]) (COLON :: rest) = [COLON; SPACE; CRETURN; LFEED]))
    with (bool_decide (take 3 rest = [SPACE; CRETURN; LFEED]))
    by (apply bool_decide_ext; cbn; split; [by intros ->|by intros [= ->]]).
  case_bool_decide; [done|].
  assert (token_text (in_line m p (length name) e p (length name) TOKEN) = name) as ->.
  { unfold token_text. cbn. by apply text_at_take. }
  destruct (hTab name) as [hVal|] eqn:Htab; [|done].
  apply hTab_range in Htab. replace ((51 <? hVal) || (hVal <? 0)) with false by lia. done.
Qed.

(** The colon after the name. *)
Lemma eat_colon m p q e tok tl ty :
  text_at m (p + q) [COLON] → (q ≤ e)%nat →
  eat COLON (Some 1%nat) (in_line m p q e tok tl ty) = Done (in_line m p (S q) e (p + q) 1 COLON, 0).
Proof. intros Ht He. apply eat_found; [apply init_mark; [set_solver|done..]|done|by intros n [= <-]]. Qed.

(** Colon, space and a word: what [with_value true] hands to its function. *)
Lemma value_of_header m p q e tok tl ty v x h :
  v ≠ [] → Forall word_char v → ¬ word_char x → text_at m (p + q) (COLON :: SPACE :: v ++ [x]) → (q + 2 + length v ≤ e)%nat →
  value_token true (in_line m p q e tok tl ty) h =
    Done (in_line (<[(p + S q)%nat := 0]> m) p (q + 2 + length v) e (p + (q + 2)) (length v) TOKEN, h, true).
Proof.
  intros Hn Hw Hx [H1 [H2 Ht]%text_at_cons]%text_at_cons He.
  destruct v as [|c v]; [done|]. pose proof (Forall_cons_1 _ _ _ Hw) as [Hc _].
  pose proof (proj1 (text_at_cons _ _ _ _) Ht) as [H3 _].
  unfold value_token. rewrite eat_colon; [|apply text_at_cons; split; [done|apply text_at_nil]|lia]. cbn [mbind outcome_bind].
  change (0 =? -1) with false. cbv iota.
  rewrite (eat_found SP None _ (in_line (<[(p + S q)%nat := 0]> m) p (S (S q)) e (p + S q) 1 SP)); [|apply (init_space _ _ _ _ _ _ _ c)|done|done].
  - cbn [mbind outcome_bind]. change (0 =? -1) with false. cbv iota.
    rewrite (init_word _ _ _ _ _ _ _ (c :: v) x); [|done|done| |done|lia].
    + cbn [mbind outcome_bind]. change (0 =? -1) with false. cbv iota. by replace (q + 2)%nat with (S (S q)) by lia.
    + apply text_at_insert; [by rewrite !Nat.add_succ_r|lia].
  - rewrite Nat.add_succ_r. apply text_at_cons. split; [done|]. apply text_at_cons. split; [done|apply text_at_nil].
  - by intros ->.
  - by intros ->.
  - by apply word_line.
  - lia.
Qed.

(** A line at [p] is taken care of: the function returns with the effect of the
    field, and changes no other part of the memory. *)
Definition handled (p n e : nat) (m : list Z) (f : field) (h : head) (r : outcome (lexer * head * Z)) : Prop :=
  ∃ lx s, r = Done (lx, set_status s (effect p f h), 0) ∧ (s = status h ∨ s = COME_BACK) ∧
    end_ lx = e ∧ changed p n m (mem lx) ∧ readable p f (mem lx) ∧ mem lx !! p = m !! p.

Lemma kept_function n : n ∉ special → requestHeaderFunctions mktime n = keep_header.
Proof.
  intros Hn. unfold special in Hn. unfold requestHeaderFunctions.
  rewrite !not_elem_of_cons in Hn. destruct Hn as (? & ? & ? & ? & ? & ? & ? & ? & ? & _).
  by rewrite !eqb_ne.
Qed.

Lemma handle_kept m p e tok tl ty name value d h :
  valid_field (Kept name value) → text_at m p (field_text (Kept name value) ++ [CRETURN; LFEED; d]) →
  (length (field_text (Kept name value)) + 2 ≤ e)%nat →
  handled p (length (field_text (Kept name value)) + 2) e m (Kept name value) h
    (parseHTTPHeader mktime (in_line m p 0 e tok tl ty) h).
Proof.
  intros (Hn & Hw & _ & Hk) Ht He. cbn [field_text] in *. rewrite length_app in He.
  exists (in_line m p (length name) e p (length name) TOKEN), (status h). cbn [effect mem end_].
  assert (set_status (status h) (add_header p h) = add_header p h) as -> by (by destruct h).
  split_and!; [|by left|done|apply changed_refl| |done].
  2: { unfold readable, crlf. change [CRETURN; LFEED; d] with ([CRETURN; LFEED] ++ [d]) in Ht. rewrite app_assoc in Ht.
       by apply text_at_app in Ht as [Ht _]. }
  rewrite <- !app_assoc in Ht. cbn [app] in Ht.
  rewrite (parse_name _ _ _ _ _ _ name (SPACE :: value ++ [CRETURN; LFEED; d])) by (done || lia || (cbn; rewrite length_app; cbn; lia)).
  case_bool_decide; [done|]. destruct (hTab name) as [hVal|] eqn:Htab; [|done].
  by rewrite (kept_function _ (Hk _ eq_refl)).
Qed.

(** The value of a header that is not kept does not begin with a line end. *)
Lemma not_empty v rest c :
  v ≠ [] → Forall (λ c, c ≠ CRETURN) v → c :: v ++ rest ≠ [] → take 3 (c :: v ++ rest) ≠ [SPACE; CRETURN; LFEED].
Proof. intros Hn Hv _. destruct v as [|x v]; [done|]. apply Forall_cons_1 in Hv as [Hx _]. cbn. by intros [= _ -> _]. Qed.

Lemma words_no_cr v : Forall word_char v → Forall (λ c, c ≠ CRETURN) v.
Proof. intros H. eapply Forall_impl; [exact H|]. by intros c (? & _)%word_line. Qed.

(** The headers whose value is a word. *)
Lemma handle_word m p e tok tl ty name v d h hVal store :
  name ≠ [] → Forall word_char name → hTab name = Some hVal →
  requestHeaderFunctions mktime hVal = with_value true store → v ≠ [] → Forall word_char v →
  text_at m p (name ++ [COLON; SPACE] ++ v ++ [CRETURN; LFEED; d]) → (length name + 2 + length v + 2 ≤ e)%nat →
  let lx := in_line (<[(p + S (length name))%nat := 0]> m) p (length name + 2 + length v) e
              (p + (length name + 2)) (length v) TOKEN in
  parseHTTPHeader mktime (in_line m p 0 e tok tl ty) h = (h ← store lx h; Done (lx, h, 0)).
Proof.
  intros Hn Hw Htab Hf Hv Hvw Ht He lx.
  rewrite (parse_name _ _ _ _ _ _ name (SPACE :: v ++ [CRETURN; LFEED; d])) by (done || lia || (cbn; rewrite length_app; cbn; lia)).
  rewrite bool_decide_false by (apply not_empty; [done|by apply words_no_cr|done]).
  rewrite Htab, Hf. unfold with_value. rewrite (value_of_header _ _ _ _ _ _ _ v CRETURN); [|done..| |lia].
  - cbn [mbind outcome_bind]. fold lx. destruct (store lx h) as [h'|]; done.
  - apply text_at_app in Ht as [_ Ht]. cbn [app] in Ht.
    change (COLON :: SPACE :: v ++ [CRETURN]) with ((COLON :: SPACE :: v) ++ [CRETURN]).
    change (COLON :: SPACE :: v ++ [CRETURN; LFEED; d]) with ((COLON :: SPACE :: v) ++ [CRETURN; LFEED; d]) in Ht.
    apply text_at_app in Ht as [H1 [H2 _]%text_at_cons]. apply text_at_app. split; [done|].
    apply text_at_cons. split; [done|apply text_at_nil].
Qed.

Lemma handle_length m p e tok tl ty ds d h :
  valid_field (ContentLength ds) → text_at m p (field_text (ContentLength ds) ++ [CRETURN; LFEED; d]) →
  (length (field_text (ContentLength ds)) + 2 ≤ e)%nat →
  handled p (length (field_text (ContentLength ds)) + 2) e m (ContentLength ds) h
    (parseHTTPHeader mktime (in_line m p 0 e tok tl ty) h).
Proof.
  intros Hds Ht He. cbn [field_text] in *. rewrite <- !app_assoc in Ht. rewrite !length_app in He |- *.
  change (length (chars "Content-Length")) with 14%nat in *. cbn [length] in *. unfold handled.
  rewrite (handle_word _ _ _ _ _ _ (chars "Content-Length") ds d h 13 (λ lx h, n ← token_number lx; Done (set_con_len n h)));
    [|done|by apply (bool_decide_unpack _)|done|done|apply Hds|by apply number_words|done|cbn; lia].
  change (length (chars "Content-Length")) with 14%nat. unfold token_number. cbn [mem token].
  assert (text_at (<[(p + 15)%nat := 0]> m) (p + 16) (ds ++ [CRETURN])) as Hv.
  { apply text_at_insert; [|lia]. apply text_at_app in Ht as [_ Ht]. cbn [app] in Ht.
    apply text_at_cons in Ht as [_ [_ Ht]%text_at_cons].
    change (p + length (chars "Content-Length"))%nat with (p + 14)%nat in Ht.
    replace (S (S (p + 14))) with (p + 16)%nat in Ht by lia.
    apply text_at_app in Ht as [H1 [H2 _]%text_at_cons]. apply text_at_app. split; [done|].
    apply text_at_cons. split; [done|apply text_at_nil]. }
  rewrite (atoi_number _ _ ds CRETURN) by done. cbn [mbind outcome_bind].
  eexists _, (status h). split; [f_equal; f_equal; f_equal; cbn; by destruct h|].
  cbn [mem]. split_and!; [by left|done| |done|by rewrite list_lookup_insert_ne by lia].
  apply changed_insert; [apply changed_refl|lia].
Qed.

Lemma handle_te m p e tok tl ty v d h :
  valid_field (TransferEncoding v) → text_at m p (field_text (TransferEncoding v) ++ [CRETURN; LFEED; d]) →
  (length (field_text (TransferEncoding v)) + 2 ≤ e)%nat →
  handled p (length (field_text (TransferEncoding v)) + 2) e m (TransferEncoding v) h
    (parseHTTPHeader mktime (in_line m p 0 e tok tl ty) h).
Proof.
  intros [Hv Hw] Ht He. cbn [field_text] in *. rewrite <- !app_assoc in Ht. rewrite !length_app in He |- *.
  change (length (chars "Transfer-Encoding")) with 17%nat in *. cbn [length] in *. unfold handled.
  rewrite (handle_word _ _ _ _ _ _ (chars "Transfer-Encoding") v d h 41 (λ lx h, Done (set_te (Some (token lx)) h)));
    [|done|by apply (bool_decide_unpack _)|done|done|done|done|done|cbn; lia].
  change (length (chars "Transfer-Encoding")) with 17%nat. cbn [mbind outcome_bind token].
  eexists _, (status h). split; [f_equal; f_equal; f_equal; cbn; by destruct h|].
  cbn [mem]. split_and!; [by left|done|apply changed_insert; [apply changed_refl|lia]| |by rewrite list_lookup_insert_ne by lia].
  cbn [readable]. apply text_at_insert; [|lia]. apply text_at_app in Ht as [_ Ht]. cbn [app] in Ht.
  apply text_at_cons in Ht as [_ [_ Ht]%text_at_cons].
  change (p + length (chars "Transfer-Encoding"))%nat with (p + 17)%nat in Ht.
  replace (S (S (p + 17))) with (p + 19)%nat in Ht by lia.
  apply text_at_app in Ht as [H1 [H2 _]%text_at_cons]. apply text_at_app. split; [done|].
  apply text_at_cons. split; [done|apply text_at_nil].
Qed.

Lemma handle_connection m p e tok tl ty v d h :
  valid_field (Connection v) → text_at m p (field_text (Connection v) ++ [CRETURN; LFEED; d]) →
  (length (field_text (Connection v)) + 2 ≤ e)%nat →
  handled p (length (field_text (Connection v)) + 2) e m (Connection v) h
    (parseHTTPHeader mktime (in_line m p 0 e tok tl ty) h).
Proof.
  intros [(c & v' & -> & Hc1 & Hc2) Hl] Ht He. cbn [field_text] in *. rewrite <- !app_assoc in Ht. rewrite !length_app in He |- *.
  change (length (chars "Connection")) with 10%nat in *. cbn [length] in *. unfold handled.
  pose proof (Forall_cons_1 _ _ _ Hl) as [Hlc _].
  rewrite (parse_name _ _ _ _ _ _ (chars "Connection") (SPACE :: (c :: v') ++ [CRETURN; LFEED; d]));
    [|done|by apply (bool_decide_unpack _)|done|cbn; rewrite length_app; cbn; lia|cbn; lia].
  rewrite bool_decide_false by (apply not_empty; [done| |done]; eapply Forall_impl; [exact Hl|]; by intros ? (? & _)).
  change (hTab (chars "Connection")) with (Some 10). cbv iota.
  change (requestHeaderFunctions mktime 10) with parseRequestConnection.
  change (length (chars "Connection")) with 10%nat.
  apply text_at_app in Ht as [_ Ht]. cbn [app] in Ht. change (p + length (chars "Connection"))%nat with (p + 10)%nat in Ht.
  apply text_at_cons in Ht as [H1 [H2 [H3 _]%text_at_cons]%text_at_cons].
  unfold parseRequestConnection, with_value, value_token.
  rewrite eat_colon; [|apply text_at_cons; split; [done|apply text_at_nil]|lia]. cbn [mbind outcome_bind].
  change (0 =? -1) with false. cbv iota.
  rewrite (init_space _ _ _ _ _ _ _ c); [|by rewrite Nat.add_succ_r; apply text_at_cons; split; [done|]; apply text_at_cons; split; [done|apply text_at_nil]|done..|lia].
  cbn [mbind outcome_bind]. change (0 =? -1) with false. cbv iota. cbn [token].
  eexists _, (status h). split; [f_equal; f_equal; f_equal; cbn; by destruct h|].
  cbn [mem]. split_and!; [by left|done|apply changed_insert; [apply changed_refl|lia]| |by rewrite list_lookup_insert_ne by lia].
  cbn [readable]. apply text_at_cons. split; [|apply text_at_nil].
  assert (p + 11 < length m)%nat.
  { apply lookup_lt_Some in H3. lia. }
  by rewrite list_lookup_insert_eq.
Qed.

(** ** Cache-Control *)

(** The characters a directive is followed by. *)
Lemma directive_name_words d : Forall word_char (directive_name d) ∧ directive_name d ≠ [].
Proof. destruct d; (split; [by apply (bool_decide_unpack _)|done]). Qed.

(** The token of a directive's name, and its number. *)
Definition directive_number (d : directive) : Z :=
  match d with NoCache => 1 | NoStore => 2 | MaxAge _ => 3 | MaxStale _ => 4 | MinFresh _ => 5 | NoTransform => 6 | OnlyIfCached => 7 end.

Lemma ccTab_directive d : ccTab (directive_name d) = Some (directive_number d).
Proof. by destruct d. Qed.

(** A number after an equals sign. *)
Lemma argument_found m p q e tok tl ty optional ds x :
  number_text ds → ¬ word_char x → text_at m (p + q) (EQUALS :: ds ++ [x]) → (q + 1 + length ds ≤ e)%nat →
  cc_argument optional (in_line m p q e tok tl ty) =
    Done (in_line m p (q + 1 + length ds) e (p + S q) (length ds) TOKEN, Number (un_decimal ds)).
Proof.
  intros Hds Hx Ht He. assert (isdigit x = false) as Hxd.
  { destruct (isdigit x) eqn:Hd; [|done]. by apply digit_word in Hd. }
  apply text_at_cons in Ht as [H0 Ht]. unfold cc_argument.
  rewrite (init_mark _ _ _ _ _ _ _ EQUALS); [|set_solver|apply text_at_cons; split; [done|apply text_at_nil]|lia].
  cbn [mbind outcome_bind tokenType]. change (0 =? -1) with false. change (EQUALS =? EQUALS) with true. cbn [negb].
  rewrite (init_word _ _ _ _ _ _ _ ds x); [|apply Hds|by apply number_words|by rewrite Nat.add_succ_r|done|lia].
  cbn [mbind outcome_bind tokenType]. change (0 =? -1) with false. change (TOKEN =? TOKEN) with true. cbn [negb].
  unfold token_number. cbn [mem token]. rewrite (atoi_number _ _ ds x); [|done..|by rewrite Nat.add_succ_r].
  cbn [mbind outcome_bind]. by replace (S q + length ds)%nat with (q + 1 + length ds)%nat by lia.
Qed.

(** What [cc_directive] does, from the end of the directive's name. *)
Lemma directive_ok m p q e tok tl ty d x c :
  valid_directive d → ¬ word_char x →
  text_at m (p + q) (directive_text d ++ [x]) → (q + length (directive_text d) ≤ e)%nat →
  ∃ tok' tl' ty' a, cc_directive (directive_number d) (in_line m p (q + length (directive_name d)) e tok tl ty) c =
    Done (in_line m p (q + length (directive_text d)) e tok' tl' ty', apply_directive c d, a) ∧ (∀ b r, a ≠ GivesUp b r).
Proof.
  intros Hd Hx Ht He. unfold directive_text in *.
  assert (∀ optional ds, number_text ds →
    text_at m (p + q) ((directive_name d ++ EQUALS :: ds) ++ [x]) → (q + length (directive_name d ++ EQUALS :: ds) ≤ e)%nat →
    cc_argument optional (in_line m p (q + length (directive_name d)) e tok tl ty) =
      Done (in_line m p (q + length (directive_name d ++ EQUALS :: ds)) e (p + S (q + length (directive_name d))) (length ds) TOKEN,
        Number (un_decimal ds))) as Harg.
  { intros optional ds Hds Ht' He'. rewrite <- app_assoc in Ht'. apply text_at_app in Ht' as [_ Ht'].
    rewrite length_app in *. cbn [length] in *.
    rewrite (argument_found _ _ _ _ _ _ _ _ ds x); [|done..| |lia].
    - do 2 f_equal. f_equal. lia.
    - by rewrite Nat.add_assoc. }
  destruct d; cbn [directive_number]; unfold cc_directive.
  1-4: rewrite app_nil_r; by eexists tok, tl, ty, NoArgument.
  all: cbn [valid_directive] in Hd; cbn [Z.eqb Pos.eqb]; rewrite (Harg _ _ Hd Ht He); cbn [mbind outcome_bind];
    eexists _, _, _, _; split; [done|done].
Qed.

Lemma directives_text_length d ds : (9 ≤ length (directives_text d ds))%nat.
Proof.
  destruct ds; cbn [directives_text length]; rewrite !length_app; destruct d; cbn; lia.
Qed.

(** The turns of the loop for a space and a directive, and for a comma. *)
Lemma cc_one fuel m p q e tok tl ty d x h c :
  valid_directive d → ¬ word_char x → text_at m (p + q) (SPACE :: directive_text d ++ [x]) →
  (q + 1 + length (directive_text d) ≤ e)%nat →
  ∃ tok' tl' ty', cc_loop (S (S fuel)) (in_line m p q e tok tl ty) h c =
    cc_loop fuel (in_line (<[(p + q)%nat := 0]> m) p (q + 1 + length (directive_text d)) e tok' tl' ty') h (apply_directive c d).
Proof.
  intros Hd Hx Ht He. destruct (directive_name_words d) as [Hw Hne].
  assert (∃ y rest, directive_text d ++ [x] = directive_name d ++ y :: rest ∧ ¬ word_char y) as (y & rest & Htext & Hy).
  { unfold directive_text. destruct d; rewrite ?app_nil_r, <- ?app_assoc; by eexists _, _. }
  assert (length (directive_name d) ≤ length (directive_text d))%nat as Hlen by (unfold directive_text; rewrite length_app; lia).
  pose proof Ht as Ht0. apply text_at_cons in Ht as [H0 Ht]. rewrite <- Nat.add_succ_r in Ht.
  set (m1 := <[(p + q)%nat := 0]> m).
  assert (text_at m1 (p + S q) (directive_text d ++ [x])) as Ht1 by (apply text_at_insert; [done|lia]).
  pose proof Ht1 as Ht2. rewrite Htext in Ht2.
  destruct (directive_name d) as [|n0 ns] eqn:Hname; [done|]. pose proof (Forall_cons_1 _ _ _ Hw) as [Hn0 _].
  cbn [cc_loop].
  rewrite (init_space _ _ _ _ _ _ _ n0); [|..|lia].
  2: { rewrite Htext in Ht. apply text_at_cons. split; [done|]. apply text_at_cons in Ht as [Hn _]. apply text_at_cons.
       split; [by rewrite <- Nat.add_succ_r|apply text_at_nil]. }
  2,3: by intros ->.
  2: by apply word_line.
  cbn [mbind outcome_bind tokenType]. change (0 =? -1) with false. change (one_of SP [LWS; COMMA; SP]) with true. cbv iota.
  fold m1.
  assert (text_at m1 (p + S q) ((n0 :: ns) ++ [y])) as Hnt.
  { change (y :: rest) with ([y] ++ rest) in Ht2. rewrite app_assoc in Ht2. by apply text_at_app in Ht2 as [? _]. }
  rewrite (init_word _ _ _ _ _ _ _ (n0 :: ns) y) by (done || lia).
  cbn [mbind outcome_bind tokenType]. change (0 =? -1) with false. change (one_of TOKEN [LWS; COMMA; SP]) with false.
  change (TOKEN =? CRLF) with false. cbv iota.
  assert (token_text (in_line m1 p (S q + length (n0 :: ns)) e (p + S q) (length (n0 :: ns)) TOKEN) = directive_name d) as ->.
  { rewrite Hname. unfold token_text. cbn [toklen token mem]. apply text_at_take. by apply text_at_app in Hnt as [? _]. }
  rewrite ccTab_directive, <- Hname.
  destruct (directive_ok m1 p (S q) e (p + S q) (length (directive_name d)) TOKEN d x c Hd Hx Ht1)
    as (tok' & tl' & ty' & a & -> & Ha); [lia|]. cbn [mbind outcome_bind].
  exists tok', tl', ty'. replace (q + 1 + length (directive_text d))%nat with (S q + length (directive_text d))%nat by lia.
  destruct a; [done|done|by destruct (Ha is_bad ret)].
Qed.

Lemma cc_loop_ok d ds fuel m p q e tok tl ty y h c :
  Forall valid_directive (d :: ds) → text_at m (p + q) (directives_text d ds ++ [CRETURN; LFEED; y]) →
  y ≠ SPACE → y ≠ TAB → (q + length (directives_text d ds) + 2 ≤ e)%nat → (length (directives_text d ds) ≤ fuel)%nat →
  ∃ lx, cc_loop fuel (in_line m p q e tok tl ty) h c =
      Done (lx, set_status COME_BACK (set_cc (Some (foldl apply_directive c (d :: ds))) h), 0) ∧
    end_ lx = e ∧ changed (p + q) (length (directives_text d ds) + 2) m (mem lx).
Proof.
  intros Hall Ht Hy1 Hy2. revert d fuel m q tok tl ty c Hall Ht.
  induction ds as [|d' ds IH]; intros d fuel m q tok tl ty c [Hd Hall]%Forall_cons_1 Ht He Hfuel.
  - pose proof (directives_text_length d []). cbn [directives_text] in *. rewrite app_nil_r in *. cbn [length] in *.
    destruct fuel as [|[|[|fuel]]]; try lia. cbn [app] in Ht.
    destruct (cc_one (S fuel) m p q e tok tl ty d CRETURN h c) as (tok' & tl' & ty' & ->); [done|done| |lia|].
    { change (SPACE :: directive_text d ++ [CRETURN; LFEED; y]) with ((SPACE :: directive_text d) ++ [CRETURN] ++ [LFEED; y]) in Ht.
      rewrite app_assoc in Ht. by apply text_at_app in Ht as [? _]. }
    cbn [cc_loop].
    rewrite (init_crlf _ _ _ _ _ _ _ y); [|..|done|done|lia].
    2: { apply text_at_insert; [|lia]. apply text_at_cons in Ht as [_ [_ Ht]%text_at_app].
         by replace (p + (q + 1 + length (directive_text d)))%nat with (S (p + q) + length (directive_text d))%nat by lia. }
    cbn [mbind outcome_bind tokenType]. change (0 =? -1) with false. change (one_of CRLF [LWS; COMMA; SP]) with false.
    change (CRLF =? CRLF) with true. cbv iota. eexists. split; [done|]. split; [done|]. cbn [mode mem].
    repeat apply changed_insert; [apply changed_refl|lia..].
  - pose proof (directives_text_length d' ds). cbn [directives_text] in Ht, He, Hfuel |- *. fold directives_text in *.
    cbn [length] in *. rewrite length_app in *. cbn [length] in *.
    destruct fuel as [|[|[|fuel]]]; try lia. rewrite <- app_comm_cons, <- app_assoc in Ht. cbn [app] in Ht.
    destruct (cc_one (S fuel) m p q e tok tl ty d COMMA h c) as (tok' & tl' & ty' & ->); [done|done| |lia|].
    { change (SPACE :: directive_text d ++ COMMA :: directives_text d' ds ++ [CRETURN; LFEED; y])
        with ((SPACE :: directive_text d) ++ [COMMA] ++ directives_text d' ds ++ [CRETURN; LFEED; y]) in Ht.
      rewrite app_assoc in Ht. by apply text_at_app in Ht as [? _]. }
    apply text_at_cons in Ht as [_ [_ [Hcomma Ht]%text_at_cons]%text_at_app].
    set (m1 := <[(p + q)%nat := 0]> m). set (q1 := (q + 1 + length (directive_text d))%nat).
    replace (S (p + q) + length (directive_text d))%nat with (p + q1)%nat in Ht, Hcomma by (unfold q1; lia).
    cbn [cc_loop].
    rewrite (init_mark _ _ _ _ _ _ _ COMMA); [|set_solver| |unfold q1; lia].
    2: { apply text_at_cons. split; [|apply text_at_nil]. unfold m1. rewrite list_lookup_insert_ne by (unfold q1; lia). done. }
    cbn [mbind outcome_bind tokenType]. change (0 =? -1) with false. change (one_of COMMA [LWS; COMMA; SP]) with true. cbv iota.
    destruct (IH d' fuel m1 (S q1) (p + q1)%nat 1%nat COMMA (apply_directive c d) Hall) as (lx & Hrun & Hend & Hch).
    + rewrite Nat.add_succ_r. apply text_at_insert; [done|unfold q1; lia].
    + unfold q1. lia.
    + assert (1 ≤ length (directive_text d))%nat by (unfold directive_text; rewrite length_app; destruct d; cbn; lia). lia.
    + exists lx. split; [exact Hrun|]. split; [done|].
      apply (changed_trans _ _ _ m1); [apply changed_insert; [apply changed_refl|lia]|].
      eapply changed_weaken; [exact Hch|unfold q1; lia..].
Qed.

Lemma handle_cache m p e tok tl ty dir ds d h :
  valid_field (CacheControl dir ds) → text_at m p (field_text (CacheControl dir ds) ++ [CRETURN; LFEED; d]) →
  d ≠ SPACE → d ≠ TAB → (length (field_text (CacheControl dir ds)) + 2 ≤ e)%nat →
  handled p (length (field_text (CacheControl dir ds)) + 2) e m (CacheControl dir ds) h
    (parseHTTPHeader mktime (in_line m p 0 e tok tl ty) h).
Proof.
  intros Hall Ht Hd1 Hd2 He. cbn [field_text] in *. rewrite <- !app_assoc in Ht. rewrite !length_app in He |- *.
  pose proof (directives_text_length dir ds) as Hlen.
  change (length (chars "Cache-Control")) with 13%nat in *. cbn [length] in *. unfold handled.
  rewrite (parse_name _ _ _ _ _ _ (chars "Cache-Control") (directives_text dir ds ++ [CRETURN; LFEED; d]));
    [|done|by apply (bool_decide_unpack _)|done|rewrite length_app; cbn; lia|cbn; lia].
  rewrite bool_decide_false by (destruct ds, dir; cbn; done).
  change (hTab (chars "Cache-Control")) with (Some 1). cbv iota.
  change (requestHeaderFunctions mktime 1) with parseRequestCacheControl.
  change (length (chars "Cache-Control")) with 13%nat.
  apply text_at_app in Ht as [_ Ht]. cbn [app] in Ht. change (p + length (chars "Cache-Control"))%nat with (p + 13)%nat in Ht.
  apply text_at_cons in Ht as [H1 Ht]. unfold parseRequestCacheControl.
  rewrite eat_colon; [|apply text_at_cons; split; [done|apply text_at_nil]|lia]. cbn [mbind outcome_bind].
  change (0 =? -1) with false. cbv iota. cbn [end_].
  destruct (cc_loop_ok dir ds (S e) m p 14 e (p + 13) 1 COLON d (set_cc (Some no_directives) h) no_directives)
    as (lx & Hrun & Hend & Hch); [done|by rewrite Nat.add_succ_r|done|done|lia|lia|].
  rewrite Hrun. cbn [mbind outcome_bind]. change (0 =? -1) with false. cbv iota.
  exists lx, COME_BACK. split; [by destruct h|]. split_and!; [by right|done| |done|].
  - eapply changed_weaken; [exact Hch|lia..].
  - destruct Hch as [_ Hch]. apply Hch. lia.
Qed.

(** ** Any field *)

Lemma handle_field m p e tok tl ty f d h :
  valid_field f → text_at m p (field_text f ++ [CRETURN; LFEED; d]) → d ≠ SPACE → d ≠ TAB →
  (length (field_text f) + 2 ≤ e)%nat →
  handled p (length (field_text f) + 2) e m f h (parseHTTPHeader mktime (in_line m p 0 e tok tl ty) h).
Proof.
  intros Hf Ht Hd1 Hd2 He. destruct f.
  - by apply (handle_kept _ _ _ _ _ _ _ _ d).
  - by apply (handle_length _ _ _ _ _ _ _ d).
  - by apply (handle_te _ _ _ _ _ _ _ d).
  - by apply (handle_connection _ _ _ _ _ _ _ d).
  - by apply (handle_cache _ _ _ _ _ _ _ _ d).
Qed.

(** ** The request line *)

(** [starts_with] on text of which enough is known. *)
Fixpoint compare_text (cs s : list Z) {struct s} : option bool :=
  match s, cs with
  | [], _ => Some true
  | _ :: _, [] => None
  | c :: s, x :: cs => if x =? c then compare_text cs s else Some false
  end.

Lemma compare_text_ok m p cs s b : text_at m p cs → compare_text cs s = Some b → starts_with m p s = Done b.
Proof.
  revert p cs. induction s as [|c s IH]; intros p cs Ht H; [by injection H as <-|]. destruct cs as [|x cs]; [done|].
  apply text_at_cons in Ht as [H0 Ht]. cbn in *. rewrite (proj2 (get_Done _ _ _) H0). cbn.
  destruct (x =? c); [by apply (IH _ cs)|by injection H as <-].
Qed.

Fixpoint recognise_text {A} (cs : list Z) (table : list (list Z * A)) : option A :=
  match table with
  | [] => None
  | (s, x) :: table =>
      match compare_text cs s with Some true => Some x | Some false => recognise_text cs table | None => None end
  end.

Lemma recognise_text_ok {A} m p cs (table : list (list Z * A)) x :
  text_at m p cs → recognise_text cs table = Some x → recognise m p table = Done (Some x).
Proof.
  intros Ht. induction table as [|[s y] table IH]; [done|]. cbn. intros H.
  destruct (compare_text cs s) as [[|]|] eqn:Hc; [| |done]; rewrite (compare_text_ok _ _ _ _ _ Ht Hc); cbn; [by simplify_eq|auto].
Qed.

Lemma recognise_all {A} (table : list (list Z * A)) m p s x c :
  Forall (λ y, recognise_text (y.1 ++ [c]) table = Some y.2) table →
  (s, x) ∈ table → text_at m p (s ++ [c]) → recognise m p table = Done (Some x).
Proof. intros Hall Hin Ht. rewrite Forall_forall in Hall. by apply (recognise_text_ok _ _ _ _ _ Ht), (Hall _ Hin). Qed.

Lemma names_raw {A} (table : list (list Z * A)) s x :
  Forall (λ y, y.1 ≠ [] ∧ Forall raw_char y.1 ∧ Forall line_char y.1) table → (s, x) ∈ table →
  s ≠ [] ∧ Forall raw_char s ∧ Forall line_char s.
Proof. intros Hall Hin. rewrite Forall_forall in Hall. exact (Hall _ Hin). Qed.

Lemma methods_raw s x : (s, x) ∈ methods → s ≠ [] ∧ Forall raw_char s ∧ Forall line_char s.
Proof. by apply names_raw, (bool_decide_unpack _). Qed.
Lemma versions_raw s x : (s, x) ∈ versions → s ≠ [] ∧ Forall raw_char s ∧ Forall line_char s.
Proof. by apply names_raw, (bool_decide_unpack _). Qed.

(** What the request line tells, of a request at the beginning of the memory. *)
Definition line_effect (M : Z) (v : Z * Z) (url_at : nat) (h : head) : head :=
  set_status GOOD_REQUEST_LINE (set_version v.1 v.2 (set_URL (Some url_at) (set_method M h))).

Lemma request_line_read m p e tok tl ty mname M url vname v d h :
  (mname, M) ∈ methods → (vname, v) ∈ versions → valid_url url →
  text_at m p (request_line mname url vname ++ [CRETURN; LFEED; d]) → d ≠ SPACE → d ≠ TAB →
  (length (request_line mname url vname) + 2 ≤ e)%nat →
  ∃ lx, parseRequestLine (mk_lexer m p 0 e RAW NONE tok tl ty) h =
      Done (lx, line_effect M v (p + length mname + 1) h, 0) ∧ end_ lx = e ∧
    changed p (length (request_line mname url vname) + 2) m (mem lx) ∧
    text_at (mem lx) (p + length mname + 1) (url ++ [0]).
Proof.
  intros Hm Hv [Hun Hu] Ht Hd1 Hd2 He.
  destruct (methods_raw _ _ Hm) as (Hmn & Hmr & _). destruct (versions_raw _ _ Hv) as (Hvn & Hvr & _).
  assert (Forall raw_char url) as Hur by (eapply Forall_impl; [exact Hu|by intros ? [? _]]).
  unfold request_line in *. rewrite !length_app in *. cbn [length] in *. rewrite <- !app_assoc in Ht. cbn [app] in Ht.
  set (lm := length mname) in *. set (lu := length url) in *. set (lv := length vname) in *.
  apply text_at_app in Ht as [Ht1 [Hc1 [Ht2 [Hc2 [Ht3 Hend]%text_at_app]%text_at_cons]%text_at_app]%text_at_cons].
  fold lm in Hc1, Ht2, Hc2, Ht3, Hend. fold lu in Hc2, Ht3, Hend. fold lv in Hend.
  pose proof Hend as [Hc3 [Hc4 [Hc5 _]%text_at_cons]%text_at_cons]%text_at_cons.
  unfold parseRequestLine.
  assert (text_at m p (mname ++ [SPACE])) as Hmt.
  { apply text_at_app. split; [done|]. apply text_at_cons. split; [done|apply text_at_nil]. }
  rewrite (raw_token _ _ _ _ _ _ _ mname SPACE);
    [|done|done|by rewrite Nat.add_0_r|by left|cbn; lia].
  cbn [mbind outcome_bind mem token]. change (0 =? -1) with false. cbv iota. rewrite Nat.add_0_r.
  rewrite (recognise_all methods _ _ mname M SPACE) by (done || by apply (bool_decide_unpack _)).
  cbn [mbind outcome_bind]. fold lm. rewrite decide_True by done. cbn [plus].
  set (m1 := <[(p + lm)%nat := 0]> m).
  rewrite (eat_found SP (Some 1%nat) _ (mk_lexer m1 p (S lm) e RAW NONE (p + lm) 1 SP));
    [|apply raw_space; [apply text_at_cons; split; [done|apply text_at_nil]|lia]|done|by intros n [= <-]].
  cbn [mbind outcome_bind]. change (0 =? -1) with false. cbv iota.
  assert (text_at m1 (p + S lm) (url ++ [SPACE])) as Hut.
  { rewrite Nat.add_succ_r. apply text_at_app. fold lu. split; [apply text_at_insert; [done|lia]|].
    apply text_at_insert; [apply text_at_cons; split; [done|apply text_at_nil]|lia]. }
  rewrite (raw_token _ _ _ _ _ _ _ url SPACE); [|done|done|done|by left|fold lu; lia].
  cbn [mbind outcome_bind mem token tokenType]. change (0 =? -1) with false. change (TOKEN =? TOKEN) with true. cbn [negb].
  fold lu. rewrite decide_True by done.
  set (q2 := (S lm + lu)%nat). set (m2 := <[(p + q2)%nat := 0]> m1).
  assert (p + q2 = S (p + lm) + lu)%nat as Hq2 by (unfold q2; lia).
  rewrite (eat_found SP (Some 1%nat) _ (mk_lexer m2 p (S q2) e RAW NONE (p + q2) 1 SP));
    [|apply raw_space; [|unfold q2; lia]|done|by intros n [= <-]].
  2: { apply text_at_insert; [rewrite Hq2; apply text_at_cons; split; [done|apply text_at_nil]|lia]. }
  cbn [mbind outcome_bind]. change (0 =? -1) with false. cbv iota.
  assert (∀ k cs, (S (S (p + lm) + lu) ≤ k)%nat → text_at m k cs → text_at m2 k cs) as Hm2.
  { intros k cs Hk H. by apply text_at_insert; [apply text_at_insert|]; [|lia..]. }
  assert (text_at m2 (p + S q2) (vname ++ [CRETURN])) as Hvt.
  { rewrite Nat.add_succ_r, Hq2. apply text_at_app. fold lv. split; [by apply Hm2|].
    apply Hm2; [lia|]. apply text_at_cons. split; [done|apply text_at_nil]. }
  rewrite (raw_token _ _ _ _ _ _ _ vname CRETURN); [|done|done|done|by right|fold lv; unfold q2; lia].
  cbn [mbind outcome_bind mem token tokenType]. change (0 =? -1) with false. cbv iota.
  rewrite (recognise_all versions _ _ vname v CRETURN) by (done || by apply (bool_decide_unpack _)).
  cbn [mbind outcome_bind]. rewrite decide_False by done. fold lv. destruct v as [major minor].
  rewrite (init_crlf _ _ _ _ _ _ _ d); [| |done|done|unfold q2; lia].
  2: { replace (p + (S q2 + lv))%nat with (S (S (p + lm) + lu) + lv)%nat by (unfold q2; lia). apply Hm2; [lia|done]. }
  cbn [mbind outcome_bind tokenType]. change (0 =? -1) with false. change (CRLF =? CRLF) with true. cbn [negb].
  replace (p + lm + 1)%nat with (p + S lm)%nat by lia.
  eexists. split; [done|]. split; [done|]. cbn [mem]. replace (p + S q2)%nat with (S (p + q2)) by lia. split.
  - repeat apply changed_insert; [apply changed_refl|unfold q2; lia..].
  - repeat (apply text_at_insert; [|rewrite length_app; cbn; fold lu; unfold q2; lia]).
    apply text_at_app in Hut as [Hut _]. apply text_at_app. fold lu. split; [apply text_at_insert; [done|fold lu; unfold q2; lia]|].
    apply text_at_cons. split; [|apply text_at_nil].
    replace (p + S lm + lu)%nat with (p + q2)%nat by (unfold q2; lia). unfold m2.
    rewrite list_lookup_insert_eq; [done|]. unfold m1. rewrite length_insert. rewrite Hq2. by apply lookup_lt_Some in Hc2.
Qed.

(** ** The text that has arrived *)

(** A part of a line and what follows it: more than the line, or no more than
    the line end. *)
Lemma prefix_cases A line rest :
  A `prefix_of` line ++ [CRETURN; LFEED] ++ rest →
  (∃ A', A' ≠ [] ∧ A = line ++ [CRETURN; LFEED] ++ A' ∧ A' `prefix_of` rest) ∨
  (∃ l ends, A = l ++ ends ∧ l `prefix_of` line ∧ ends `prefix_of` [CRETURN; LFEED] ∧ (l = [] → line ≠ [] → ends = [])).
Proof.
  revert A. induction line as [|c line IH]; intros A H.
  - cbn [app] in *. destruct A as [|a A].
    { right. exists [], []. split_and!; try done; apply prefix_nil. }
    assert (a = CRETURN) as -> by (by eapply prefix_cons_inv_1). apply prefix_cons_inv_2 in H.
    destruct A as [|b A].
    { right. exists [], [CRETURN]. split_and!; try done; by apply (bool_decide_unpack _). }
    assert (b = LFEED) as -> by (by eapply prefix_cons_inv_1). apply prefix_cons_inv_2 in H.
    destruct A as [|x A]; [|left; by exists (x :: A)].
    right. exists [], [CRETURN; LFEED]. by split_and!.
  - cbn [app] in H. destruct A as [|a A].
    { right. exists [], []. split_and!; try done; apply prefix_nil. }
    assert (a = c) as -> by (by eapply prefix_cons_inv_1). apply prefix_cons_inv_2 in H.
    destruct (IH A H) as [(A' & ? & -> & ?)|(l & ends & -> & ? & ? & Hn)]; [left; by exists A'|].
    right. exists (c :: l), ends. split_and!; [done|by apply prefix_cons|done|done].
Qed.

(** ** The lines of the fields *)

Definition lines (fs : list field) : list Z := mjoin ((λ f, field_text f ++ crlf) <$> fs).

(** What fields whose lines begin at [p] tell, and what stays readable of them. *)
Fixpoint effects (p : nat) (fs : list field) (h : head) : head :=
  match fs with [] => h | f :: fs => effects (p + length (field_text f) + 2) fs (effect p f h) end.
Fixpoint readables (p : nat) (fs : list field) (m : list Z) : Prop :=
  match fs with [] => True | f :: fs => (begins p m ∧ readable p f m) ∧ readables (p + length (field_text f) + 2) fs m end.

Lemma lines_cons f fs : lines (f :: fs) = field_text f ++ crlf ++ lines fs.
Proof. unfold lines. cbn. by rewrite <- app_assoc. Qed.

Lemma effects_status s p fs h : effects p fs (set_status s h) = set_status s (effects p fs h).
Proof. revert p h. induction fs as [|f fs IH]; intros p h; cbn; [done|]. by rewrite effect_status, IH. Qed.

Lemma effects_method p fs h : method (effects p fs h) = method h.
Proof. revert p h. induction fs as [|f fs IH]; intros p h; cbn; [done|]. rewrite IH. by destruct f, h. Qed.

Lemma effects_URL p fs h : URL (effects p fs h) = URL h.
Proof. revert p h. induction fs as [|f fs IH]; intros p h; cbn; [done|]. rewrite IH. by destruct f, h. Qed.

Lemma lines_app fs1 fs2 : lines (fs1 ++ fs2) = lines fs1 ++ lines fs2.
Proof. unfold lines. by rewrite fmap_app, join_app. Qed.

Lemma length_lines_cons p f fs : (p + length (lines (f :: fs)) = p + length (field_text f) + 2 + length (lines fs))%nat.
Proof. rewrite lines_cons, !length_app. cbn. lia. Qed.

Lemma effects_app p fs1 fs2 h : effects p (fs1 ++ fs2) h = effects (p + length (lines fs1)) fs2 (effects p fs1 h).
Proof.
  revert p h. induction fs1 as [|f fs1 IH]; intros p h; [cbn; by rewrite Nat.add_0_r|].
  rewrite length_lines_cons. apply IH.
Qed.

Lemma readables_app p fs1 fs2 m : readables p (fs1 ++ fs2) m ↔ readables p fs1 m ∧ readables (p + length (lines fs1)) fs2 m.
Proof.
  revert p. induction fs1 as [|f fs1 IH]; intros p; [cbn; rewrite Nat.add_0_r; tauto|].
  rewrite length_lines_cons. cbn [app readables]. rewrite IH. tauto.
Qed.

(** The memories do not differ before [n]. *)
Definition agree (n : nat) (m m' : list Z) : Prop := length m' = length m ∧ ∀ i, (i < n)%nat → m' !! i = m !! i.

Lemma changed_agree p n m m' : changed p n m m' → agree p m m'.
Proof. intros [Hl H]. split; [done|]. intros i Hi. apply H. lia. Qed.
Lemma agree_trans n m m' m'' : agree n m m' → agree n m' m'' → agree n m m''.
Proof. intros [H1 H2] [H3 H4]. split; [by rewrite H3|]. intros i Hi. by rewrite H4, H2. Qed.
Lemma agree_weaken n n' m m' : agree n m m' → (n' ≤ n)%nat → agree n' m m'.
Proof. intros [Hl H] Hn. split; [done|]. intros i Hi. apply H. lia. Qed.
Lemma agree_text n m m' p cs : agree n m m' → text_at m p cs → (p + length cs ≤ n)%nat → text_at m' p cs.
Proof. intros [_ H] Ht Hn i c Hi. rewrite H; [by apply Ht|]. apply lookup_lt_Some in Hi. lia. Qed.

Lemma readable_agree p f n m m' :
  valid_field f → agree n m m' → (p + length (field_text f) + 2 ≤ n)%nat → readable p f m → readable p f m'.
Proof.
  intros Hf Hag Hn. destruct f; cbn [readable field_text] in *; try done; intros H; apply (agree_text _ _ _ _ _ Hag H);
    rewrite ?length_app in *; cbn [length crlf] in *; try lia.
  - change (length (chars "Transfer-Encoding")) with 17%nat in *. lia.
  - change (length (chars "Connection")) with 10%nat in *. destruct Hf as [(c & v' & -> & _) _]. cbn in *. lia.
Qed.

Lemma begins_agree p n m m' : agree n m m' → (p < n)%nat → begins p m → begins p m'.
Proof. intros [_ Hag] Hn (c & Hc & H). exists c. by rewrite Hag. Qed.

Lemma readables_agree p fs n m m' :
  Forall valid_field fs → agree n m m' → (p + length (lines fs) ≤ n)%nat → readables p fs m → readables p fs m'.
Proof.
  intros Hfs Hag. revert p. induction Hfs as [|f fs Hf Hfs IH]; intros p Hn; [done|]. rewrite lines_cons in Hn.
  rewrite !length_app in Hn. cbn in Hn. intros [[Hb H1] H2]. split; [split; [apply (begins_agree _ n m); [done|lia|done]|by apply (readable_agree _ _ n m); [..|lia|]]|].
  apply IH; [lia|done].
Qed.

#[local] Ltac name_first := do 2 (apply Forall_app; split; [by apply (bool_decide_unpack _)|]).

(** The lines of the fields as the lexer meets them. *)
Lemma field_line f :
  valid_field f → Forall line_char (field_text f) ∧
    ∃ c cs, field_text f = c :: cs ∧ c ≠ SPACE ∧ c ≠ TAB ∧ c ≠ EOF.
Proof.
  assert (∀ ds, number_text ds → Forall line_char ds) as Hnum.
  { intros ds H. eapply Forall_impl; [by apply number_words|apply word_line]. }
  assert (∀ d, valid_directive d → Forall line_char (directive_text d)) as Hdir.
  { intros d Hd. apply Forall_app. split; [eapply Forall_impl; [apply directive_name_words|apply word_line]|].
    destruct d; try done; (apply Forall_cons; split; [by apply (bool_decide_unpack _)|by apply Hnum]). }
  assert (∀ ds d, Forall valid_directive (d :: ds) → Forall line_char (directives_text d ds)) as Hdirs.
  { induction ds as [|d' ds IH]; intros d [Hd Hds]%Forall_cons_1; cbn [directives_text];
      (apply Forall_cons; split; [by apply (bool_decide_unpack _)|]); apply Forall_app; (split; [by apply Hdir|]); [done|].
    apply Forall_cons. split; [by apply (bool_decide_unpack _)|]. by apply IH. }
  destruct f as [name value|ds|v|v|d ds]; cbn [valid_field field_text]; intros Hf;
    try (split; [|by eexists _, _]).
  - destruct Hf as (Hn & Hw & Hv & _). split.
    + apply Forall_app. split; [eapply Forall_impl; [exact Hw|apply word_line]|].
      apply Forall_app. split; [by apply (bool_decide_unpack _)|done].
    + destruct name as [|c name]; [done|]. apply Forall_cons_1 in Hw as [Hc _]. exists c, (name ++ [COLON; SPACE] ++ value).
      split_and!; [done|by intros ->..].
  - name_first. by apply Hnum.
  - name_first. eapply Forall_impl; [apply Hf|apply word_line].
  - name_first. apply Hf.
  - name_first. by apply Hdirs.
Qed.

(** What follows a line does not continue it. *)
Lemma lines_head fs A a :
  Forall valid_field fs → a :: A `prefix_of` lines fs ++ crlf → a ≠ SPACE ∧ a ≠ TAB ∧ a ≠ EOF.
Proof.
  intros [|f fs' Hf _] H.
  - apply prefix_cons_inv_1 in H as ->. done.
  - destruct (field_line f Hf) as (_ & c & cs & Heq & Hc). rewrite lines_cons, Heq in H.
    by apply prefix_cons_inv_1 in H as ->.
Qed.

(** ** One call *)

(** The request between two calls of [parseRequest]: at [pos] a line begins of
    which [unread] has arrived. *)
Record reading (stage start : Z) (pos : nat) (unread : list Z) (h : head) (q : request) : Prop := {
  rd_stage : rq_stage q = stage;
  rd_start : rq_start q = start;
  rd_state : rq_state q = NONE;
  rd_rewind : (if 0 <? rq_rewind q then Z.to_nat (rq_rewind q) else 0%nat) = length unread;
  rd_used : rq_used q = (pos + length unread)%nat;
  rd_text : text_at (rq_mem q) pos unread;
  rd_head : rq_head q = set_status (status (rq_head q)) h
}.

Lemma reading_status stage s st pos unread h q :
  reading stage s pos unread (set_status st h) q → reading stage s pos unread h q.
Proof. intros [? ? ? ? ? ? Hh]. split; [done..|]. by rewrite set_status_twice in Hh. Qed.

(** The text ends in a line: the next call reads the line again. *)
Lemma request_loop_partial fuel lx q A :
  unfinished (mem lx) (length A) (getNextToken lx) → rq_used q = (buf lx + processed lx + length A)%nat →
  text_at (mem lx) (buf lx + processed lx) A → state lx = NONE →
  ∃ q', request_loop mktime (S fuel) lx q = Done (q', 0) ∧ rq_mem q' = mem lx ∧ status (rq_head q') = COME_BACK ∧
    reading (rq_stage q) (start lx) (buf lx + processed lx) A (rq_head q) q'.
Proof.
  intros (lx' & Hrun & Hty & Hlen & Hmem) Hused Ht Hst. eexists. split; [|split; [|split]].
  - cbn [request_loop]. rewrite Hrun. cbn [mbind outcome_bind]. change (0 =? -1) with false. cbv iota.
    rewrite Hty. change (BUFEND =? BUFEND) with true. cbv iota. reflexivity.
  - done.
  - cbn. by destruct (rq_head q).
  - split; cbn; [done..|by rewrite Hst| |done|by rewrite Hmem|].
    + rewrite Hlen. case_match; lia.
    + by destruct (rq_head q).
Qed.

(** The end of the text, in the way in which it is known at a line. *)
Lemma partial_line m b p e s tok tl ty line l ends :
  s = HEADER ∨ s = LINE → Forall line_char line → line ≠ [] →
  l `prefix_of` line → ends `prefix_of` [CRETURN; LFEED] → (l = [] → line ≠ [] → ends = []) →
  text_at m (b + p) ((l ++ ends) ++ [EOF]) → e = (p + length (l ++ ends))%nat →
  unfinished m (length (l ++ ends)) (getNextToken (mk_lexer m b p e s NONE tok tl ty)).
Proof.
  intros Hs Hline Hn [more Hl] Hends Hle Ht He. apply header_partial; [done| |done|auto|by rewrite <- app_assoc in Ht|done].
  rewrite Hl in Hline. by apply Forall_app in Hline as [? _].
Qed.

(** The empty line, or its beginning. *)
Lemma last_line fuel m b p e tok tl ty A q :
  A `prefix_of` crlf → text_at m (b + p) (A ++ [EOF]) → e = (p + length A)%nat → rq_used q = (b + e)%nat →
  rq_stage q = HTTP_HEADER → method (rq_head q) ∈ [GET; HEAD] →
  ∃ q', request_loop mktime (S fuel) (mk_lexer m b p e LINE NONE tok tl ty) q = Done (q', 0) ∧ rq_mem q' = m ∧
    (A = crlf ∧ rq_head q' = set_status ENTITY_COMPLETE (rq_head q) ∨
     A ≠ crlf ∧ status (rq_head q') = COME_BACK ∧ reading HTTP_HEADER LINE (b + p) A (rq_head q) q').
Proof.
  intros HA Ht He Hused Hstage Hm.
  destruct (decide (A = crlf)) as [-> |Hne].
  - apply text_at_app in Ht as [Ht _]. unfold crlf in *. cbn [length] in He. cbn [request_loop].
    rewrite empty_line by (done || lia). cbn [mbind outcome_bind tokenType]. change (0 =? -1) with false.
    change (CRLF =? BUFEND) with false. change (CRLF =? CRLF) with true. rewrite Hstage.
    change (HTTP_HEADER =? REQUEST_LINE) with false. change (HTTP_HEADER =? HTTP_HEADER) with true. cbv iota.
    assert (one_of (method (set_status ENTITY_INCOMPLETE (rq_head q))) [GET; HEAD] = true) as ->.
    { replace (method (set_status ENTITY_INCOMPLETE (rq_head q))) with (method (rq_head q)) by (by destruct (rq_head q)).
      unfold one_of. apply existsb_exists. exists (method (rq_head q)). split; [by apply list_elem_of_In|apply Z.eqb_refl]. }
    eexists. split; [done|]. split; [done|]. left. split; [done|]. cbn. by destruct (rq_head q).
  - assert (unfinished m (length A) (getNextToken (mk_lexer m b p e LINE NONE tok tl ty))) as Hun.
    { destruct A as [|a [|a' A]].
      - apply (header_partial m b p e LINE tok tl ty [] []); by auto using prefix_nil.
      - apply prefix_cons_inv_1 in HA as ->. cbn in He. rewrite Nat.add_1_r in He. subst e. by apply empty_line_partial.
      - destruct HA as [more HA]. injection HA as <- <- Hnil. by destruct A. }
    destruct (request_loop_partial fuel (mk_lexer m b p e LINE NONE tok tl ty) q A) as (q' & ? & ? & ? & Hrd); [done|cbn; lia| |done|].
    { by apply text_at_app in Ht as [? _]. }
    exists q'. split; [done|]. split; [done|]. right. split; [done|]. split; [done|]. rewrite Hstage in Hrd. exact Hrd.
Qed.

(** A line that is there as a whole, and the beginning of the next. *)
Lemma whole_line fuel m b p e tok tl ty f c A q :
  valid_field f → text_at m (b + p) (field_text f ++ [CRETURN; LFEED; c] ++ A) → c ≠ SPACE → c ≠ TAB → c ≠ EOF →
  (p + length (field_text f) + 2 ≤ e)%nat → rq_stage q = HTTP_HEADER → status (rq_head q) ≠ BAD_REQUEST →
  ∃ lx s, let b' := (p + length (field_text f) + 2)%nat in
    request_loop mktime (S fuel) (mk_lexer m b p e LINE NONE tok tl ty) q =
      request_loop mktime fuel (mk_lexer (mem lx) b b' e LINE NONE (token lx) (toklen lx) (tokenType lx))
        (leave HTTP_HEADER LINE NONE (rq_rewind q) (rq_len q)
          (mk_lexer (mem lx) b b' e LINE NONE (token lx) (toklen lx) (tokenType lx)) (set_status s (effect (b + p) f (rq_head q))) q) ∧
    s ≠ BAD_REQUEST ∧ changed (b + p) (length (field_text f) + 2) m (mem lx) ∧
    begins (b + p) (mem lx) ∧ readable (b + p) f (mem lx).
Proof.
  intros Hf Ht Hc1 Hc2 Hc3 He Hstage Hbad. destruct (field_line f Hf) as (Hline & c0 & cs & Heq & Hc0 & Hc0' & _).
  assert (text_at m (b + p) (field_text f ++ [CRETURN; LFEED; c])) as Ht'.
  { rewrite app_assoc in Ht. by apply text_at_app in Ht as [? _]. }
  destruct (handle_field m (b + p) e (b + p) (length (field_text f) + 2) TOKEN f c (rq_head q) Hf Ht' Hc1 Hc2)
    as (lx & s & Hrun & Hs & Hend & Hch & Hr & Hfirst); [lia|].
  assert (s ≠ BAD_REQUEST) as Hsb by (destruct Hs as [-> | ->]; done).
  assert (begins (b + p) (mem lx)) as Hb.
  { exists c0. rewrite Hfirst. rewrite Heq in Ht. by apply text_at_cons in Ht as [-> _]. }
  exists lx, s. split; [|done]. cbn [request_loop].
  rewrite (header_line _ _ _ _ LINE _ _ _ (field_text f) c); [|by right|by rewrite Heq|done..|lia].
  cbn [mbind outcome_bind tokenType]. change (0 =? -1) with false. change (TOKEN =? BUFEND) with false.
  change (TOKEN =? CRLF) with false. rewrite Hstage.
  change (HTTP_HEADER =? REQUEST_LINE) with false. change (HTTP_HEADER =? HTTP_HEADER) with true. cbv iota.
  unfold sub_lexer. cbn [mem buf processed end_ token toklen tokenType]. rewrite Hrun. cbn [mbind outcome_bind].
  change (0 =? -1) with false. rewrite status_set_status, (eqb_ne s) by done. cbn [orb start state].
  unfold resume. rewrite Hend. done.
Qed.

(** The rest of the head, as far as it has arrived. *)
Lemma header_lines fs fuel m b p e tok tl ty A q :
  Forall valid_field fs → A `prefix_of` lines fs ++ crlf → text_at m (b + p) (A ++ [EOF]) → e = (p + length A)%nat →
  (length A < fuel)%nat → rq_used q = (b + e)%nat → rq_stage q = HTTP_HEADER → method (rq_head q) ∈ [GET; HEAD] →
  status (rq_head q) ≠ BAD_REQUEST →
  ∃ q', request_loop mktime fuel (mk_lexer m b p e LINE NONE tok tl ty) q = Done (q', 0) ∧
    agree (b + p) m (rq_mem q') ∧
    (A = lines fs ++ crlf ∧ rq_head q' = set_status ENTITY_COMPLETE (effects (b + p) fs (rq_head q)) ∧
       readables (b + p) fs (rq_mem q') ∧ text_at (rq_mem q') (b + p + length (lines fs)) crlf ∨
     A ≠ lines fs ++ crlf ∧ ∃ fs1 fs2 unread, fs = fs1 ++ fs2 ∧ A = lines fs1 ++ unread ∧ readables (b + p) fs1 (rq_mem q') ∧
       status (rq_head q') = COME_BACK ∧
       reading HTTP_HEADER LINE (b + p + length (lines fs1)) unread (effects (b + p) fs1 (rq_head q)) q').
Proof.
  intros Hfs. revert fuel m p tok tl ty A q. induction Hfs as [|f fs Hf Hfs IH];
    intros fuel m p tok tl ty A q HA Ht He Hfuel Hused Hstage Hm Hbad; (destruct fuel as [|fuel]; [lia|]).
  { destruct (last_line fuel m b p e tok tl ty A q) as (q' & ? & Hmem & H); [done..|]. exists q'.
    split; [done|]. split; [by rewrite Hmem|]. destruct H as [[-> H]|(Hno & Hst & H)].
    { left. split_and!; [done..|]. rewrite Hmem. cbn. rewrite Nat.add_0_r. by apply text_at_app in Ht as [Ht _]. }
    right. split; [done|]. exists [], [], A. cbn. rewrite Nat.add_0_r. done. }
  destruct (field_line f Hf) as (Hline & c0 & cs & Heq & _).
  assert (field_text f ≠ []) as Hne by by rewrite Heq.
  rewrite lines_cons, <- !app_assoc in HA. apply prefix_cases in HA as [(A' & HA' & -> & Hpre)|(l & ends & -> & Hl & Hends & Hle)].
  - destruct A' as [|c A']; [done|]. destruct (lines_head _ _ _ Hfs Hpre) as (Hc1 & Hc2 & Hc3).
    rewrite !length_app in *. cbn [length] in *. rewrite <- !app_assoc in Ht.
    destruct (whole_line fuel m b p e tok tl ty f c (A' ++ [EOF]) q) as (lx & s & Hrun & Hsb & Hch & Hb & Hr); [done..|lia|done|done|].
    cbv zeta in Hrun. rewrite Hrun. set (b' := (p + length (field_text f) + 2)%nat) in *. clear Hrun.
    match goal with |- context [request_loop mktime fuel ?lx0 ?q0] => set (lx1 := lx0); set (q1 := q0) end.
    assert (rq_head q1 = set_status s (effect (b + p) f (rq_head q))) as Hq1 by done.
    apply text_at_app in Ht as [_ [_ [_ Ht]%text_at_cons]%text_at_cons].
    replace (S (S (b + p + length (field_text f)))) with (b + b')%nat in Ht by (unfold b'; lia).
    destruct (IH fuel (mem lx) b' (token lx) (toklen lx) (tokenType lx) (c :: A') q1) as (q' & Hrun & Hag & H); [done| |cbn; unfold b'; lia|cbn; lia|done|done| |by rewrite Hq1, status_set_status|].
    { apply (changed_text _ _ _ _ _ _ Hch); [done|unfold b'; lia]. }
    { rewrite Hq1. by destruct f, (rq_head q). }
    exists q'. split; [exact Hrun|]. replace (b + b')%nat with (b + p + length (field_text f) + 2)%nat in * by (unfold b'; lia).
    assert (begins (b + p) (rq_mem q') ∧ readable (b + p) f (rq_mem q')) as Hr'.
    { split; [by apply (begins_agree _ _ _ _ Hag); [lia|]|by apply (readable_agree _ _ _ _ _ Hf Hag); [lia|]]. }
    split; [apply (agree_trans _ _ (mem lx)); [by eapply changed_agree|by eapply agree_weaken; [exact Hag|lia]]|].
    rewrite Hq1 in H. destruct H as [(-> & Hh & Hrs & Hend)|(Hno & fs1 & fs2 & unread & -> & HA1 & Hrs & Hst & Hrd)].
    + left. rewrite length_lines_cons, lines_cons, <- !app_assoc. split; [done|]. cbn [effects readables].
      rewrite effects_status, set_status_twice in Hh. done.
    + right. rewrite !lines_cons, <- !app_assoc. split; [by intros Heq'; simplify_list_eq|].
      exists (f :: fs1), fs2, unread. rewrite HA1, lines_cons, <- !app_assoc. cbn [effects readables].
      split_and!; [done|done|apply Hr'|apply Hr'|done|done|].
      rewrite !length_app. cbn [length crlf].
      replace (b + p + (length (field_text f) + (2 + length (lines fs1))))%nat
        with (b + p + length (field_text f) + 2 + length (lines fs1))%nat by lia.
      destruct Hrd as [? ? ? ? ? ? Hhead]. split; [done..|]. rewrite Hhead, effects_status, set_status_twice. by rewrite status_set_status.
  - destruct (request_loop_partial fuel (mk_lexer m b p e LINE NONE tok tl ty) q (l ++ ends)) as (q' & Hrun & Hmem & Hst & Hrd).
    { cbn [mem]. apply (partial_line m b p e LINE tok tl ty (field_text f)); auto. }
    { cbn. lia. }
    { by apply text_at_app in Ht as [? _]. }
    { done. }
    exists q'. split; [done|]. split; [by rewrite Hmem|]. right. split.
    { intros Heq'%(f_equal length). apply prefix_length in Hl, Hends. rewrite lines_cons, !length_app in Heq'. cbn in *. lia. }
    exists [], (f :: fs), (l ++ ends). cbn [lines fmap list_fmap mjoin effects readables].
    rewrite Nat.add_0_r. rewrite Hstage in Hrd. done.
Qed.

Lemma request_line_chars mname M url vname v :
  (mname, M) ∈ methods → (vname, v) ∈ versions → valid_url url → Forall line_char (request_line mname url vname).
Proof.
  intros Hm Hv [_ Hu]. destruct (methods_raw _ _ Hm) as (_ & _ & Hl1). destruct (versions_raw _ _ Hv) as (_ & _ & Hl2).
  apply Forall_app. split; [done|]. apply Forall_cons. split; [by apply (bool_decide_unpack _)|].
  apply Forall_app. split; [eapply Forall_impl; [exact Hu|by intros ? [_ ?]]|].
  apply Forall_cons. split; [by apply (bool_decide_unpack _)|done].
Qed.

(** The same for the request line, which is at the beginning. *)
Lemma whole_request_line fuel m b e tok tl ty mname M url vname v c A q :
  (mname, M) ∈ methods → (vname, v) ∈ versions → valid_url url →
  text_at m (b + 0) (request_line mname url vname ++ [CRETURN; LFEED; c] ++ A) → c ≠ SPACE → c ≠ TAB → c ≠ EOF →
  (length (request_line mname url vname) + 2 ≤ e)%nat → rq_stage q = REQUEST_LINE →
  ∃ lx, let b' := (length (request_line mname url vname) + 2)%nat in
    let h := line_effect M v (b + length mname + 1) (rq_head q) in
    request_loop mktime (S fuel) (mk_lexer m b 0 e HEADER NONE tok tl ty) q =
      request_loop mktime fuel (mk_lexer (mem lx) b b' e LINE NONE (token lx) (toklen lx) (tokenType lx))
        (leave HTTP_HEADER HEADER NONE (rq_rewind q) (rq_len q)
          (mk_lexer (mem lx) b b' e LINE NONE (token lx) (toklen lx) (tokenType lx)) h q) ∧
    changed b b' m (mem lx) ∧ text_at (mem lx) (b + length mname + 1) (url ++ [0]).
Proof.
  intros Hm Hv Hurl Ht Hc1 Hc2 Hc3 He Hstage. set (line := request_line mname url vname) in *.
  assert (Forall line_char line) as Hline by (by eapply request_line_chars).
  assert (line ≠ []) as Hne by (destruct (methods_raw _ _ Hm) as (Hn & _); by destruct mname).
  assert (text_at m (b + 0) (line ++ [CRETURN; LFEED; c])) as Ht'.
  { rewrite app_assoc in Ht. by apply text_at_app in Ht as [? _]. }
  destruct (request_line_read m b e b (length line + 2) TOKEN mname M url vname v c (rq_head q)) as (lx & Hrun & Hend & Hch & Hr);
    [done..|by rewrite Nat.add_0_r in Ht'|done|done|done|].
  exists lx. split; [|done]. cbn [request_loop].
  rewrite (header_line _ _ _ _ HEADER _ _ _ line c); [|by left|done..].
  cbn [mbind outcome_bind tokenType]. change (0 =? -1) with false. change (TOKEN =? BUFEND) with false. rewrite Hstage.
  change (REQUEST_LINE =? REQUEST_LINE) with true. cbv iota.
  unfold sub_lexer. cbn [mem buf processed end_ token toklen tokenType]. rewrite Nat.add_0_r. rewrite Hrun. cbn [mbind outcome_bind].
  change (0 =? -1) with false. unfold line_effect. rewrite status_set_status. change (GOOD_REQUEST_LINE =? BAD_REQUEST) with false.
  cbn [orb start state]. unfold resume. rewrite Hend. done.
Qed.

(** A call of [parseRequest] goes on with what is unread. *)
Lemma parseRequest_call stage s pos unread h q bs :
  reading stage s pos unread h q → bs ≠ [] → (pos + length (unread ++ bs) ≤ 4095)%nat → length (rq_mem q) = 4096%nat →
  ∃ m' q0, parseRequest mktime (Read bs) q =
      request_loop mktime (S (length (unread ++ bs))) (mk_lexer m' pos 0 (length (unread ++ bs)) s NONE 0 0 NONE) q0 ∧
    text_at m' (pos + 0) ((unread ++ bs) ++ [EOF]) ∧ agree pos (rq_mem q) m' ∧
    rq_stage q0 = stage ∧ rq_head q0 = rq_head q ∧ rq_used q0 = (pos + length (unread ++ bs))%nat.
Proof.
  intros [Hstage Hstart Hstate Hback Hused Ht _] Hne Hlen Hmem. rewrite length_app in *.
  assert (1 ≤ length bs)%nat by (destruct bs; cbn; [done|lia]).
  set (m' := splice_at (rq_mem q) (rq_used q) (bs ++ [EOF])).
  assert (length m' = 4096%nat) as Hm'.
  { unfold m', splice_at. rewrite !length_app, length_take, length_drop, ?length_app. cbn. lia. }
  assert (agree (rq_used q) (rq_mem q) m') as Hag.
  { split; [by rewrite Hm'|]. intros i Hi. unfold m', splice_at. rewrite lookup_app_l by (rewrite length_take; lia). by apply lookup_take_lt. }
  eexists m', _. split.
  - unfold parseRequest. change SMALL_BUFF_SIZE with 4095%nat. destruct (Nat.leb_spec 4095 (rq_used q)); [lia|].
    rewrite Hback, Hstart, Hstate. rewrite take_ge by lia. rewrite (proj2 (Nat.eqb_neq (length bs) 0)) by lia. cbv zeta. fold m'.
    replace (rq_used q - length unread)%nat with pos by lia. reflexivity.
  - split_and!; [|by eapply agree_weaken; [exact Hag|lia]|done|done|cbn; lia].
    rewrite Nat.add_0_r, <- app_assoc. apply text_at_app. split; [by apply (agree_text _ _ _ _ _ Hag); [|lia]|].
    rewrite <- Hused. apply text_at_take. unfold m', splice_at.
    rewrite drop_app_le, drop_ge by (rewrite length_take; lia). cbn [app]. by rewrite take_app_le, take_ge by lia.
Qed.

Lemma read_rest pieces fs pos unread h q :
  Forall valid_field fs → reading HTTP_HEADER LINE pos unread h q → pieces ≠ [] → Forall (.≠ []) pieces →
  unread ++ mjoin pieces = lines fs ++ crlf → (pos + length (lines fs ++ crlf) ≤ 4095)%nat → length (rq_mem q) = 4096%nat →
  method h ∈ [GET; HEAD] → status (rq_head q) ≠ BAD_REQUEST →
  ∃ q', receive_request mktime pieces q = Done q' ∧ agree pos (rq_mem q) (rq_mem q') ∧
    rq_head q' = set_status ENTITY_COMPLETE (effects pos fs h) ∧ readables pos fs (rq_mem q') ∧
    text_at (rq_mem q') (pos + length (lines fs)) crlf.
Proof.
  revert fs pos unread h q. induction pieces as [|bs pieces IH]; intros fs pos unread h q Hfs Hrd Hp Hne Htext Hlen Hmem Hm Hbad; [done|].
  apply Forall_cons_1 in Hne as [Hbs Hne]. cbn [mjoin list_join] in Htext. rewrite app_assoc in Htext.
  assert (unread ++ bs `prefix_of` lines fs ++ crlf) as HA by (rewrite <- Htext; by eexists).
  destruct (parseRequest_call _ _ _ _ _ _ bs Hrd Hbs) as (m' & q0 & Hcall & Ht & Hag & Hstage & Hhead & Hused).
  { apply prefix_length in HA. lia. }
  { done. }
  pose proof (rd_head _ _ _ _ _ _ Hrd) as Hh.
  assert (method (rq_head q) = method h) as Hmeth by (rewrite Hh; by destruct h).
  destruct (header_lines fs (S (length (unread ++ bs))) m' pos 0 (length (unread ++ bs)) 0 0 NONE (unread ++ bs) q0)
    as (q1 & Hrun & Hag1 & H); [done..|lia|lia|done|by rewrite Hhead, Hmeth|by rewrite Hhead|].
  rewrite Nat.add_0_r in *. rewrite Hhead in H. cbn [receive_request]. rewrite Hcall, Hrun. cbn [mbind outcome_bind].
  assert (agree pos (rq_mem q) (rq_mem q1)) as Hag' by (by eapply agree_trans).
  destruct H as [(HA1 & Hh1 & Hrs & Hend)|(Hno & fs1 & fs2 & unread' & -> & HA1 & Hrs & Hst & Hrd1)].
  - exists q1. rewrite Hh1, status_set_status. change (ENTITY_COMPLETE =? COME_BACK) with false. cbn [andb].
    split; [done|]. split; [done|]. split; [|done]. by rewrite Hh, effects_status, set_status_twice.
  - rewrite Hst. change (COME_BACK =? COME_BACK) with true.
    destruct (decide (pieces = [])) as [-> |Hpne].
    { cbn [mjoin list_join] in Htext. rewrite app_nil_r in Htext. done. }
    rewrite bool_decide_false by done. cbn [negb andb].
    apply Forall_app in Hfs as [Hfs1 Hfs2]. rewrite lines_app, HA1, <- !app_assoc in *. apply app_inv_head in Htext.
    rewrite length_app in Hlen.
    destruct (IH fs2 (pos + length (lines fs1))%nat unread' (effects pos fs1 h) q1) as (q2 & Hrun2 & Hag2 & Hh2 & Hrs2 & Hend2); [done| |done|done|done|lia| |by rewrite effects_method|by rewrite Hst|].
    { apply (reading_status _ _ (status (rq_head q))). by rewrite <- effects_status, <- Hh. }
    { destruct Hag' as [Hl _]. by rewrite Hl. }
    exists q2. split; [exact Hrun2|]. split; [eapply agree_trans; [exact Hag'|eapply agree_weaken; [exact Hag2|lia]]|].
    rewrite effects_app, readables_app, length_app, Nat.add_assoc. split; [done|]. split; [|done].
    split; [|done]. by apply (readables_agree _ _ _ _ _ Hfs1 Hag2).
Qed.

Section whole.
Context (mname url vname : list Z) (M : Z) (v : Z * Z) (fs : list field).
Context (Hmethod : (mname, M) ∈ methods) (Hversion : (vname, v) ∈ versions) (Hurl : valid_url url).
Context (Hfields : Forall valid_field fs) (Hget : M ∈ [GET; HEAD]).

(** Where the fields begin. *)
Abbreviation line := (request_line mname url vname).
Abbreviation fields_at := (length (request_line mname url vname) + 2)%nat.
Abbreviation url_at := (length mname + 1)%nat.

(** What is known when the request is complete. *)
Definition complete (h : head) (q : request) : Prop :=
  rq_head q = set_status ENTITY_COMPLETE (effects fields_at fs (line_effect M v url_at h)) ∧
  text_at (rq_mem q) url_at (url ++ [0]) ∧ readables fields_at fs (rq_mem q) ∧
  text_at (rq_mem q) (fields_at + length (lines fs)) crlf.

(** A call that gets beyond the request line. *)
Lemma call_beyond pieces bs unread A h q :
  reading REQUEST_LINE HEADER 0 unread h q → bs ≠ [] → Forall (.≠ []) pieces → unread ++ bs = line ++ [CRETURN; LFEED] ++ A → A ≠ [] →
  A ++ mjoin pieces = lines fs ++ crlf → (fields_at + length (lines fs ++ crlf) ≤ 4095)%nat → length (rq_mem q) = 4096%nat →
  ∃ q', receive_request mktime (bs :: pieces) q = Done q' ∧ complete h q'.
Proof.
  intros Hrd Hbs Hne HA HAne Htext Hlen Hmem.
  assert (A `prefix_of` lines fs ++ crlf) as Hpre by (rewrite <- Htext; by eexists).
  assert (length (unread ++ bs) = fields_at + length A)%nat as HlenA by (rewrite HA, !length_app; cbn; lia).
  destruct A as [|c A]; [done|]. destruct (lines_head _ _ _ Hfields Hpre) as (Hc1 & Hc2 & Hc3).
  pose proof (prefix_length _ _ Hpre) as Hl.
  destruct (parseRequest_call _ _ _ _ _ _ bs Hrd Hbs) as (m' & q0 & Hcall & Ht & [Hml _] & Hstage & Hhead & Hused); [lia|done|].
  pose proof Ht as Ht0. rewrite HA, <- !app_assoc in Ht.
  destruct (whole_request_line (length (unread ++ bs)) m' 0 (length (unread ++ bs)) 0 0 NONE mname M url vname v c (A ++ [EOF]) q0)
    as (lx & Hrun & Hch & Hut); [done..|lia|done|].
  cbv zeta in Hrun. rewrite Hrun in Hcall. clear Hrun.
  assert (text_at m' (0 + fields_at) ((c :: A) ++ [EOF])) as Hrest.
  { apply text_at_app in Ht as [_ [_ [_ Ht]%text_at_cons]%text_at_cons].
    by replace (S (S (0 + 0 + length line))) with (0 + fields_at)%nat in Ht by lia. }
  match type of Hcall with _ = request_loop mktime _ _ ?q0 => set (q2 := q0) in * end.
  assert (rq_head q2 = line_effect M v url_at (rq_head q)) as Hq2 by (cbn; by rewrite Hhead).
  destruct (header_lines fs (length (unread ++ bs)) (mem lx) 0 fields_at (length (unread ++ bs)) (token lx) (toklen lx) (tokenType lx) (c :: A) q2)
    as (q1 & Hrun & Hag & H); [done|done| |lia|lia|cbn; lia|done|rewrite Hq2; by destruct (rq_head q)|rewrite Hq2; by destruct (rq_head q)|].
  { by eapply changed_text; [exact Hch|exact Hrest|lia]. }
  rewrite Hrun in Hcall. rewrite Hq2 in H. cbn [plus] in *. cbn [receive_request]. rewrite Hcall. cbn [mbind outcome_bind].
  assert (text_at (rq_mem q1) url_at (url ++ [0])) as Hut1.
  { apply (agree_text _ _ _ _ _ Hag Hut). unfold request_line. rewrite !length_app. cbn. lia. }
  assert (∀ h', line_effect M v url_at (set_status h' h) = line_effect M v url_at h) as Hle by (intros; by destruct h).
  rewrite (rd_head _ _ _ _ _ _ Hrd), Hle in H.
  destruct H as [(HA1 & Hh1 & Hrs & Hend)|(Hno & fs1 & fs2 & unread' & Hfs & HA1 & Hrs & Hst & Hrd1)].
  - exists q1. rewrite Hh1, status_set_status. change (ENTITY_COMPLETE =? COME_BACK) with false. done.
  - rewrite Hst. change (COME_BACK =? COME_BACK) with true.
    destruct (decide (pieces = [])) as [-> |Hpne].
    { cbn [mjoin list_join] in Htext. rewrite app_nil_r in Htext. done. }
    rewrite bool_decide_false by done. cbn [negb andb]. pose proof Hfields as Hfields'. rewrite Hfs in Hfields', Htext.
    apply Forall_app in Hfields' as [Hfs1 Hfs2]. rewrite lines_app, HA1, <- !app_assoc in Htext. apply app_inv_head in Htext.
    assert (length (lines fs ++ crlf) = length (lines fs1) + length (lines fs2 ++ crlf))%nat as Hll
      by (rewrite Hfs, lines_app, !length_app; lia).
    destruct (read_rest pieces fs2 (fields_at + length (lines fs1))%nat unread' (effects fields_at fs1 (line_effect M v url_at h)) q1)
      as (q3 & Hrun3 & Hag3 & Hh3 & Hrs3 & Hend3); [done..|lia| |rewrite effects_method; by destruct h|by rewrite Hst|].
    { destruct Hag as [Hl1 _], Hch as [Hl2 _]. by rewrite Hl1, Hl2, Hml. }
    exists q3. split; [exact Hrun3|]. split; [by rewrite Hfs, effects_app|]. split.
    + apply (agree_text _ _ _ _ _ Hag3 Hut1). unfold request_line. rewrite !length_app. cbn. lia.
    + rewrite Hfs, readables_app, lines_app, length_app, Nat.add_assoc. split; [|done]. split; [|done].
      by eapply readables_agree; [|exact Hag3|lia|].
Qed.

(** All calls, from the request line on. *)
Lemma read_all pieces unread h q :
  reading REQUEST_LINE HEADER 0 unread h q → pieces ≠ [] → Forall (.≠ []) pieces →
  unread ++ mjoin pieces = line ++ [CRETURN; LFEED] ++ lines fs ++ crlf → (fields_at + length (lines fs ++ crlf) ≤ 4095)%nat →
  length (rq_mem q) = 4096%nat → ∃ q', receive_request mktime pieces q = Done q' ∧ complete h q'.
Proof.
  revert unread q. induction pieces as [|bs pieces IH]; intros unread q Hrd Hp Hne Htext Hlen Hmem; [done|].
  apply Forall_cons_1 in Hne as [Hbs Hne]. cbn [mjoin list_join] in Htext. rewrite app_assoc in Htext.
  assert (unread ++ bs `prefix_of` line ++ [CRETURN; LFEED] ++ lines fs ++ crlf) as Hpre by (rewrite <- Htext; by eexists).
  destruct (prefix_cases _ _ _ Hpre) as [(A & HAne & HA & HA')|(l & ends & HA & Hl & Hends & Hle)].
  { rewrite HA, <- !app_assoc in Htext. apply app_inv_head in Htext. cbn [app] in Htext. injection Htext as Htext.
    by apply (call_beyond pieces bs unread A h q). }
  assert (length (unread ++ bs) ≤ fields_at)%nat as HlenA.
  { rewrite HA, length_app. apply prefix_length in Hl, Hends. cbn in Hends. lia. }
  destruct (parseRequest_call _ _ _ _ _ _ bs Hrd Hbs) as (m' & q0 & Hcall & Ht & Hag & Hstage & Hhead & Hused); [rewrite length_app in Hlen; lia|done|].
  destruct (methods_raw _ _ Hmethod) as (Hmn & _ & Hml). destruct (versions_raw _ _ Hversion) as (_ & _ & Hvl).
  destruct (request_loop_partial (length (unread ++ bs)) (mk_lexer m' 0 0 (length (unread ++ bs)) HEADER NONE 0 0 NONE) q0 (unread ++ bs))
    as (q1 & Hrun & Hm1 & Hst & Hrd1).
  { cbn [mem]. rewrite HA in *. apply (partial_line m' 0 0 _ HEADER 0 0 NONE line); auto; [by eapply request_line_chars|by destruct mname]. }
  { cbn. lia. }
  { by apply text_at_app in Ht as [? _]. }
  { done. }
  rewrite Hrun in Hcall. cbn [receive_request]. rewrite Hcall. cbn [mbind outcome_bind]. rewrite Hst. change (COME_BACK =? COME_BACK) with true.
  destruct (decide (pieces = [])) as [-> |Hpne].
  { cbn [mjoin list_join] in Htext. rewrite app_nil_r in Htext. rewrite Htext, !length_app in HlenA. cbn in HlenA. lia. }
  rewrite bool_decide_false by done. cbn [negb andb]. apply (IH (unread ++ bs)); try done.
  - rewrite Hstage, Hhead in Hrd1. apply (reading_status _ _ (status (rq_head q))).
    by rewrite <- (rd_head _ _ _ _ _ _ Hrd).
  - rewrite Hm1. destruct Hag as [Hl' _]. cbn [mem]. by rewrite Hl'.
Qed.
End whole.

End head.

Lemma request_head_read mktime pieces mname M url vname v fs q0 :
  (mname, M) ∈ methods → M ∈ [GET; HEAD] → (vname, v) ∈ versions → valid_url url → Forall valid_field fs →
  Forall (.≠ []) pieces → mjoin pieces = head_text mname url vname fs → (length (mjoin pieces) ≤ SMALL_BUFF_SIZE)%nat →
  length (rq_mem q0) = S SMALL_BUFF_SIZE →
  ∃ q, receive_request mktime pieces (initHTTPRequest q0) = Done q ∧
    complete mname url vname M v fs (rq_head (initHTTPRequest q0)) q.
Proof.
  intros Hm Hget Hv Hurl Hfs Hne Htext Hlen Hmem.
  assert (mjoin pieces = request_line mname url vname ++ [CRETURN; LFEED] ++ lines fs ++ crlf) as Htext' by exact Htext.
  apply (read_all _ mname url vname M v fs Hm Hv Hurl Hfs Hget pieces []); try done.
  - by intros ->; destruct mname as [|? ?].
  - rewrite Htext', !length_app in Hlen. rewrite length_app. cbn in *. unfold SMALL_BUFF_SIZE in *. lia.
Qed.



(** * A header that is not read *)

(** A character for which [INIT] has no case: the lexer reports an error and
    stays where it is. *)
Definition stuck (x : Z) : Prop :=
  ¬ word_char x ∧ x ∉ [SPACE; TAB; CRETURN; LFEED; COLON; SEMICOLON; QUOTE; EQUALS; COMMA].
#[export] Instance stuck_dec x : Decision (stuck x).
Proof. unfold stuck. apply _. Defined.

Lemma init_stuck m b p e tok tl ty x :
  stuck x → text_at m (b + p) [x] → (p ≤ e)%nat →
  getNextToken (mk_lexer m b p e INIT NONE tok tl ty) = Done (mk_lexer m b p e INIT NONE (b + p) 0 ERROR, 0).
Proof.
  intros [Hw Hx] [H0 _]%text_at_cons He. apply (getNextToken_lexes 1); [|lia]. apply (lexes_return _ x); cbn [begin_token processed end_ mem buf]; [done..|].
  destruct (classify_cases x) as [Hc|Hc]; [done|]. rewrite Hc. rewrite !not_elem_of_cons in Hx.
  destruct Hx as (? & ? & ? & ? & ? & ? & ? & ? & ? & _). unfold lex_char, lex_init. cbn [start state begin_token].
  change (INIT =? INIT) with true. change (NONE =? NONE) with true. cbv iota.
  assert (x ≠ CHAR) as Hn by (intros ->; by apply Hw).
  unfold one_of. cbn [existsb]. by rewrite !eqb_ne.
Qed.

(** More turns do not change what the loop has returned. *)
Lemma cc_loop_more fuel lx h c : cc_loop fuel lx h c ≠ Fault OutOfFuel → cc_loop (S fuel) lx h c = cc_loop fuel lx h c.
Proof.
  revert lx h c. induction fuel as [|fuel IH]; intros lx h c Hn; [done|].
  change (cc_loop (S (S fuel)) lx h c) with
    ('(lx, st) ← getNextToken lx;
      if st =? -1 then Done (lx, set_cc (Some c) h, -1)
      else if one_of (tokenType lx) [LWS; COMMA; SP] then cc_loop (S fuel) lx h c
      else if tokenType lx =? CRLF then Done (mode LINE NONE lx, set_status COME_BACK (set_cc (Some c) h), 0)
      else
        match ccTab (token_text lx) with
        | None => cc_loop (S fuel) lx h c
        | Some d =>
            '(lx, c, a) ← cc_directive d lx c;
            match a with
            | GivesUp is_bad ret => Done (lx, (if is_bad then bad else id) (set_cc (Some c) h), ret)
            | _ => cc_loop (S fuel) lx h c
            end
        end).
  cbn [cc_loop] in *. destruct (getNextToken lx) as [[lx1 st]|]; cbn [mbind outcome_bind] in *; [|done].
  destruct (st =? -1); [done|]. destruct (one_of _ _); [by apply IH|]. destruct (tokenType lx1 =? CRLF); [done|].
  destruct (ccTab (token_text lx1)) as [d|]; [|by apply IH].
  destruct (cc_directive d lx1 c) as [[[lx2 c2] a]|]; cbn [mbind outcome_bind] in *; [|done].
  destruct a; [by apply IH..|done].
Qed.

Lemma cc_loop_stays n fuel lx h c : cc_loop (n + fuel) lx h c = Fault OutOfFuel → cc_loop fuel lx h c = Fault OutOfFuel.
Proof.
  induction n as [|n IH]; [done|]. intros H. apply IH. revert H. cbn [plus].
  destruct (cc_loop (n + fuel) lx h c) as [r|[]] eqn:Hr; try done; rewrite cc_loop_more; by rewrite Hr.
Qed.

Lemma cc_loop_stuck fuel m p q e tok tl ty x h c :
  stuck x → text_at m (p + q) [x] → (q ≤ e)%nat → cc_loop fuel (mk_lexer m p q e INIT NONE tok tl ty) h c = Fault OutOfFuel.
Proof.
  intros Hx Ht He. revert tok tl ty. induction fuel as [|fuel IH]; intros tok tl ty; [done|]. cbn [cc_loop].
  rewrite (init_stuck _ _ _ _ _ _ _ x) by done. cbn [mbind outcome_bind tokenType]. change (0 =? -1) with false.
  change (one_of ERROR [LWS; COMMA; SP]) with false. change (ERROR =? CRLF) with false. cbv iota.
  change (ccTab (token_text (mk_lexer m p q e INIT NONE (p + q) 0 ERROR))) with (None : option Z). apply IH.
Qed.

(** C34: a character that is not part of a token, such as a slash or a letter
    outside of ASCII, makes [parseRequestCacheControl] turn for ever, whatever
    directives it follows; the proxy has one thread. *)
Theorem cache_control_hangs fuel m p q e tok tl ty d ds x h c :
  Forall valid_directive (d :: ds) → stuck x → text_at m (p + q) (directives_text d ds ++ [x]) →
  (q + length (directives_text d ds) ≤ e)%nat →
  cc_loop fuel (mk_lexer m p q e INIT NONE tok tl ty) h c = Fault OutOfFuel.
Proof.
  intros Hall Hx. destruct Hx as [Hxw Hxn]. revert d fuel m q tok tl ty c Hall.
  induction ds as [|d' ds IH]; intros d fuel m q tok tl ty c [Hd Hall]%Forall_cons_1 Ht He.
  - cbn [directives_text] in *. rewrite app_nil_r in *. cbn [length] in *. apply (cc_loop_stays 2).
    destruct (cc_one fuel m p q e tok tl ty d x h c) as (tok' & tl' & ty' & Hrun); [done|done|done|lia|].
    cbn [plus]. rewrite Hrun. apply (cc_loop_stuck _ _ _ _ _ _ _ _ x); [done| |lia].
    apply text_at_insert; [|lia]. apply text_at_cons in Ht as [_ [_ Ht]%text_at_app].
    by replace (p + (q + 1 + length (directive_text d)))%nat with (S (p + q) + length (directive_text d))%nat by lia.
  - cbn [directives_text] in Ht, He. fold directives_text in *. rewrite <- app_comm_cons, <- app_assoc in Ht.
    cbn [length app] in *. rewrite length_app in He. cbn [length] in He. apply (cc_loop_stays 3).
    destruct (cc_one (S fuel) m p q e tok tl ty d COMMA h c) as (tok' & tl' & ty' & Hrun); [done|done| |lia|].
    { change (SPACE :: directive_text d ++ COMMA :: directives_text d' ds ++ [x])
        with ((SPACE :: directive_text d) ++ [COMMA] ++ directives_text d' ds ++ [x]) in Ht.
      rewrite app_assoc in Ht. by apply text_at_app in Ht as [? _]. }
    cbn [plus]. rewrite Hrun. clear Hrun.
    apply text_at_cons in Ht as [_ [_ [Hcomma Ht]%text_at_cons]%text_at_app].
    set (m1 := <[(p + q)%nat := 0]> m). set (q1 := (q + 1 + length (directive_text d))%nat).
    replace (S (p + q) + length (directive_text d))%nat with (p + q1)%nat in Ht, Hcomma by (unfold q1; lia).
    cbn [cc_loop]. rewrite (init_mark _ _ _ _ _ _ _ COMMA); [|set_solver| |unfold q1; lia].
    2: { apply text_at_cons. split; [|apply text_at_nil]. unfold m1. by rewrite list_lookup_insert_ne by (unfold q1; lia). }
    cbn [mbind outcome_bind tokenType]. change (0 =? -1) with false. change (one_of COMMA [LWS; COMMA; SP]) with true. cbv iota.
    apply (IH d'); [done| |unfold q1; lia].
    rewrite Nat.add_succ_r. apply text_at_insert; [done|unfold q1; lia].
Qed.

Lemma cache_control_hangs_witness :
  cc_loop 1000 (mk_lexer (chars " no-cache, max-age=3/4") 0 0 30 INIT NONE 0 0 LWS)
    (mk_head 0 0 None 0 0 [] None 0 None None None None 0 0 0) no_directives = Fault OutOfFuel.
Proof.
  apply (cache_control_hangs _ _ _ _ _ _ _ _ NoCache [MaxAge (chars "3")] 47).
  - repeat (apply Forall_cons; split); [done|split; [done|by apply (bool_decide_unpack _)]|done].
  - by apply (bool_decide_unpack _).
  - by apply text_at_take.
  - by apply (bool_decide_unpack _).
Defined.
