(* ===== verification/HcResponse.v ===== *)
(** * HashCache: parsing responses

    The response side of [src/HashCache/src/http.c] ([parseResponseLine],
    [parseHTTPHeader], [parseResponse]) and of httpHeaders.c.  The list of all
    blocks of a response, which only serves to free them, is left out; a block
    that is to be sent is also to be written, so that [toWrite] is [toSend]. *)

From Stdlib Require Import ZArith Lia Ascii String.
From stdpp Require Import base list option numbers gmap sets.
From S2P Require Import Prelude HcLexer HcRequest.

#[local] Coercion chars : string >-> list.

(** ** Constants *)

Definition BAD_RESPONSE : Z := 7.
Definition GOOD_RESPONSE_LINE : Z := 11.
Definition RESPONSE_LINE : Z := 114.

Definition ADDL_HEAD_SIZE : Z := 200.

(** Of the sizes of a block header and a block tailer on a 32-bit machine. *)
Definition ACTUAL_BLOCK_SIZE : Z := 2048 - 112 - 28.
Definition HTTP_ACT_BLOCK_SIZE : Z := 8192 / 2048 * ACTUAL_BLOCK_SIZE.

(** ** The head of a response *)

Record cache_control_response := mk_ccr {
  cr_public : Z;
  cr_private : Z;
  cr_no_cache : Z;
  cr_no_store : Z;
  cr_no_transform : Z;
  cr_must_revalidate : Z;
  cr_proxy_revalidate : Z;
  cr_max_age : Z;
  cr_s_maxage : Z
}.

Record response_head := mk_rhead {
  r_status : Z;
  r_majVersion : Z;
  r_minVersion : Z;
  r_code : Z;
  r_message : option nat;
  r_headers : list nat;
  r_cc : option cache_control_response;
  r_last_modified : Z;
  r_age : Z;
  r_date : Z;
  r_expires : Z;
  r_response_time : Z;
  r_request_time : Z;
  r_conn : option nat;
  r_pconn : option nat;
  r_te : option nat;
  r_con_len : Z
}.

Definition rset_status x h :=
  let '(mk_rhead _ a b c d e f g i j k l m n o p q) := h in mk_rhead x a b c d e f g i j k l m n o p q.
Definition rset_version x y h :=
  let '(mk_rhead s _ _ c d e f g i j k l m n o p q) := h in mk_rhead s x y c d e f g i j k l m n o p q.
Definition rset_code x h :=
  let '(mk_rhead s a b _ d e f g i j k l m n o p q) := h in mk_rhead s a b x d e f g i j k l m n o p q.
Definition rset_message x h :=
  let '(mk_rhead s a b c _ e f g i j k l m n o p q) := h in mk_rhead s a b c x e f g i j k l m n o p q.
Definition radd_header x h :=
  let '(mk_rhead s a b c d e f g i j k l m n o p q) := h in mk_rhead s a b c d (e ++ [x]) f g i j k l m n o p q.
Definition rset_cc x h :=
  let '(mk_rhead s a b c d e _ g i j k l m n o p q) := h in mk_rhead s a b c d e x g i j k l m n o p q.
Definition rset_last_modified x h :=
  let '(mk_rhead s a b c d e f _ i j k l m n o p q) := h in mk_rhead s a b c d e f x i j k l m n o p q.
Definition rset_age x h :=
  let '(mk_rhead s a b c d e f g _ j k l m n o p q) := h in mk_rhead s a b c d e f g x j k l m n o p q.
Definition rset_date x h :=
  let '(mk_rhead s a b c d e f g i _ k l m n o p q) := h in mk_rhead s a b c d e f g i x k l m n o p q.
Definition rset_expires x h :=
  let '(mk_rhead s a b c d e f g i j _ l m n o p q) := h in mk_rhead s a b c d e f g i j x l m n o p q.
Definition rset_response_time x h :=
  let '(mk_rhead s a b c d e f g i j k _ m n o p q) := h in mk_rhead s a b c d e f g i j k x m n o p q.
Definition rset_request_time x h :=
  let '(mk_rhead s a b c d e f g i j k l _ n o p q) := h in mk_rhead s a b c d e f g i j k l x n o p q.
Definition rset_conn x h :=
  let '(mk_rhead s a b c d e f g i j k l m _ o p q) := h in mk_rhead s a b c d e f g i j k l m x o p q.
Definition rset_pconn x h :=
  let '(mk_rhead s a b c d e f g i j k l m n _ p q) := h in mk_rhead s a b c d e f g i j k l m n x p q.
Definition rset_te x h :=
  let '(mk_rhead s a b c d e f g i j k l m n o _ q) := h in mk_rhead s a b c d e f g i j k l m n o x q.
Definition rset_con_len x h :=
  let '(mk_rhead s a b c d e f g i j k l m n o p _) := h in mk_rhead s a b c d e f g i j k l m n o p x.

Definition rbad (h : response_head) : response_head := rset_status BAD_RESPONSE h.

(** A function of the table [responseHeaderFunctions]. *)
Definition response_parser : Type := lexer → response_head → outcome (lexer * response_head * Z).

(** ** The response line *)

Definition response_versions : list (list Z * (Z * Z)) :=
  [(chars "HTTP/1.1", (1, 1)); (chars "HTTP/1.0", (1, 0)); (chars "HTTP/0.9", (0, 9))].

Definition set_mem (m : list Z) (lx : lexer) : lexer :=
  mk_lexer m (buf lx) (processed lx) (end_ lx) (start lx) (state lx) (token lx) (toklen lx) (tokenType lx).

Definition parseResponseLine : response_parser := λ lx h,
  '(lx, st) ← getNextToken lx;
  if st =? -1 then Done (lx, rbad h, -1) else
  v ← recognise (mem lx) (token lx) response_versions;
  match v with
  | None => Done (lx, rbad h, 0)
  | Some (major, minor) =>
      let h := rset_version major minor h in
      '(lx, st) ← eat SP (Some 1%nat) lx;
      if st =? -1 then Done (lx, rbad h, 0) else
      '(lx, st) ← getNextToken lx;
      if st =? -1 then Done (lx, rbad h, -1) else
      if negb (tokenType lx =? TOKEN) then Done (lx, rbad h, 0) else
      n ← token_number lx;
      let h := rset_code n h in
      '(lx, st) ← eat SP (Some 1%nat) lx;
      if st =? -1 then Done (lx, rbad h, 0) else
      '(lx, st) ← getNextToken (mode HEADER NONE lx);
      let lx := mode LINE NONE lx in
      if st =? -1 then Done (lx, rbad h, -1) else
      let h := rset_status GOOD_RESPONSE_LINE (rset_message (Some (token lx)) h) in
      m ← put (mem lx) (token lx + toklen lx - 2) 0;
      Done (set_mem m lx, h, 0)
  end.

(** ** Headers *)

(** The colon, the space and the token after it, which all the functions but
    those of dates and directives ask for. *)
Definition response_value (store : lexer → response_head → outcome response_head) : response_parser := λ lx h,
  '(lx, st) ← eat COLON (Some 1%nat) lx;
  if st =? -1 then Done (lx, rbad h, -1) else
  '(lx, st) ← eat SP None lx;
  let h := if st =? -1 then rbad h else h in
  '(lx, st) ← getNextToken lx;
  if st =? -1 then Done (lx, rbad h, -1) else
  h ← store lx h; Done (lx, h, 0).

Definition store_number (set : Z → response_head → response_head) (lx : lexer) (h : response_head) : outcome response_head :=
  n ← token_number lx; Done (set n h).

Definition parseResponseAge : response_parser := response_value (store_number rset_age).
Definition parseResponseConnection : response_parser := response_value (λ lx h, Done (rset_conn (Some (token lx)) h)).
Definition parseResponseProxyConnection : response_parser := response_value (λ lx h, Done (rset_pconn (Some (token lx)) h)).
Definition parseResponseContentLength : response_parser := response_value (store_number rset_con_len).
Definition parseResponseTE : response_parser := response_value (λ lx h, Done (rset_te (Some (token lx)) h)).
Definition parseResponseResponseTime : response_parser := response_value (store_number rset_response_time).
Definition parseResponseRequestTime : response_parser := response_value (store_number rset_request_time).

Definition keep_response_header : response_parser := λ lx h, Done (lx, radd_header (buf lx) h, 0).

(** *** Cache-Control *)

Definition no_response_directives : cache_control_response :=
  mk_ccr ABSENT ABSENT ABSENT ABSENT ABSENT ABSENT ABSENT (-1) (-1).

(** The directive with this number of [ccTab]. *)
Definition response_directive (d : Z) (lx : lexer) (c : cache_control_response)
    : outcome (lexer * cache_control_response * argument) :=
  let '(mk_ccr pub priv nc ns nt mr pr ma sm) := c in
  if d =? 8 then Done (lx, mk_ccr 1 priv nc ns nt mr pr ma sm, NoArgument)
  else if d =? 9 then Done (lx, mk_ccr pub 1 nc ns nt mr pr ma sm, NoArgument)
  else if d =? 1 then Done (lx, mk_ccr pub priv 1 ns nt mr pr ma sm, NoArgument)
  else if d =? 2 then Done (lx, mk_ccr pub priv nc 1 nt mr pr ma sm, NoArgument)
  else if d =? 6 then Done (lx, mk_ccr pub priv nc ns 1 mr pr ma sm, NoArgument)
  else if d =? 10 then Done (lx, mk_ccr pub priv nc ns nt 1 pr ma sm, NoArgument)
  else if d =? 11 then Done (lx, mk_ccr pub priv nc ns nt mr 1 ma sm, NoArgument)
  else if d =? 3 then
    '(lx, a) ← cc_argument false lx; Done (lx, match a with Number n => mk_ccr pub priv nc ns nt mr pr n sm | _ => c end, a)
  else if d =? 12 then
    '(lx, a) ← cc_argument false lx; Done (lx, match a with Number n => mk_ccr pub priv nc ns nt mr pr ma n | _ => c end, a)
  else Done (lx, c, NoArgument).

Fixpoint response_cc_loop (fuel : nat) (lx : lexer) (h : response_head) (c : cache_control_response)
    : outcome (lexer * response_head * Z) :=
  match fuel with
  | O => Fault OutOfFuel
  | S fuel =>
      '(lx, st) ← getNextToken lx;
      if st =? -1 then Done (lx, rbad (rset_cc (Some c) h), -1)
      else if one_of (tokenType lx) [LWS; COMMA; SP] then response_cc_loop fuel lx h c
      else if tokenType lx =? CRLF then Done (mode LINE NONE lx, rset_status COME_BACK (rset_cc (Some c) h), 0)
      else
        match ccTab (token_text lx) with
        | None => response_cc_loop fuel lx h c
        | Some d =>
            '(lx, c, a) ← response_directive d lx c;
            match a with
            | GivesUp is_bad ret => Done (lx, (if is_bad then rbad else id) (rset_cc (Some c) h), ret)
            | _ => response_cc_loop fuel lx h c
            end
        end
  end.

Definition parseResponseCacheControl : response_parser := λ lx h,
  let h := rset_cc (Some no_response_directives) h in
  '(lx, st) ← eat COLON (Some 1%nat) lx;
  if st =? -1 then Done (lx, rbad h, 0) else response_cc_loop (S (end_ lx)) lx h no_response_directives.

(** ** A response and its reader *)

(** What of a buffer is a part of the response: from [rstart] to [end] it is to
    be sent. *)
Record bufBlock := mk_bufBlock { b_buf : nat; b_start : Z; b_rstart : Z; b_end : Z }.

Record response := mk_response {
  p_mem : list Z;
  p_stage : Z;
  p_start : Z;
  p_state : Z;
  p_rewind : Z;
  p_len : Z;
  p_used : Z;
  p_block : Z;
  p_head : response_head;
  p_entityLen : Z;
  p_rcvd : Z;
  p_etype : Z;
  p_toSend : list bufBlock;
  p_unWritten : Z;
  p_downloaded : Z
}.

Definition pset_head h p :=
  let '(mk_response m s st te r l u b _ el rc et ts uw d) := p in mk_response m s st te r l u b h el rc et ts uw d.
Definition pset_mem x p :=
  let '(mk_response _ s st te r l u b h el rc et ts uw d) := p in mk_response x s st te r l u b h el rc et ts uw d.
Definition pset_mode x y p :=
  let '(mk_response m s _ _ r l u b h el rc et ts uw d) := p in mk_response m s x y r l u b h el rc et ts uw d.
Definition pset_rewind x p :=
  let '(mk_response m s st te _ l u b h el rc et ts uw d) := p in mk_response m s st te x l u b h el rc et ts uw d.
Definition pset_len x p :=
  let '(mk_response m s st te r _ u b h el rc et ts uw d) := p in mk_response m s st te r x u b h el rc et ts uw d.
Definition pset_used x p :=
  let '(mk_response m s st te r l _ b h el rc et ts uw d) := p in mk_response m s st te r l x b h el rc et ts uw d.
Definition pset_stage x p :=
  let '(mk_response m _ st te r l u b h el rc et ts uw d) := p in mk_response m x st te r l u b h el rc et ts uw d.
Definition pset_entity x y p :=
  let '(mk_response m s st te r l u b h _ _ et ts uw d) := p in mk_response m s st te r l u b h x y et ts uw d.
Definition pset_etype x p :=
  let '(mk_response m s st te r l u b h el rc _ ts uw d) := p in mk_response m s st te r l u b h el rc x ts uw d.
Definition padd_toSend x n p :=
  let '(mk_response m s st te r l u b h el rc et ts uw d) := p in mk_response m s st te r l u b h el rc et (ts ++ [x]) uw (d + n).
Definition padd_unWritten n p :=
  let '(mk_response m s st te r l u b h el rc et ts uw d) := p in mk_response m s st te r l u b h el rc et ts (uw + n) d.

Definition pset_status (s : Z) (p : response) : response := pset_head (rset_status s (p_head p)) p.

(** The fields of [initHTTPResponse]; [p] is what the memory that was allocated
    contains, and the time is that of the request. *)
Definition initHTTPResponse (request_time : Z) (p : response) : response :=
  let h := p_head p in
  mk_response (p_mem p) RESPONSE_LINE HEADER NONE (-1) 0 0 1
    (mk_rhead BAD_RESPONSE (r_majVersion h) (r_minVersion h) (r_code h) (r_message h) [] None (-1) (-1) (r_date h) (-1)
       (r_response_time h) request_time None (r_pconn h) None (-1))
    (-1) 0 (p_etype p) [] 0 0.

Section responses.
Variable mktime : tm → Z.

(** [eat]s the colon and a space, and parses the date. *)
Definition response_date (k : lexer → response_head → option Z → Z → outcome (lexer * response_head * Z)) : response_parser :=
  λ lx h,
  '(lx, st) ← eat COLON (Some 1%nat) lx;
  if st =? -1 then Done (lx, rbad h, -1) else
  '(lx, st) ← eat SP None lx;
  let h := if st =? -1 then rbad h else h in
  '(lx, t, st) ← parseDate mktime lx;
  k lx h t st.

Definition parseResponseExpires : response_parser := response_date (λ lx h t st,
  let h := match t with Some t => rset_expires t h | None => h end in
  Done (lx, if st =? -1 then rbad h else h, st)).

Definition parseResponseDate : response_parser := response_date (λ lx h t st,
  let h := match t with Some t => rset_date t h | None => h end in
  let h := rset_response_time (r_date h) h in
  Done (lx, if st =? -1 then rbad h else h, st)).

Definition parseResponseLM : response_parser := response_date (λ lx h t st,
  Done (lx, match t with Some t => rset_last_modified t h | None => h end, st)).

Definition responseHeaderFunctions (hVal : Z) : response_parser :=
  if hVal =? 1 then parseResponseCacheControl
  else if hVal =? 7 then parseResponseAge
  else if hVal =? 18 then parseResponseDate
  else if hVal =? 21 then parseResponseExpires
  else if hVal =? 29 then parseResponseLM
  else if hVal =? 10 then parseResponseConnection
  else if hVal =? 13 then parseResponseContentLength
  else if hVal =? 41 then parseResponseTE
  else if hVal =? 48 then parseResponseResponseTime
  else if hVal =? 49 then parseResponseRequestTime
  else if hVal =? 50 then parseResponseProxyConnection
  else keep_response_header.

Definition parseResponseHeader : response_parser := λ lx h,
  '(lx, st) ← getNextToken lx;
  if st =? -1 then Done (lx, rbad h, -1) else
  if negb (tokenType lx =? TOKEN) then Done (lx, rbad h, 0) else
  empty ← starts_with (mem lx) (buf lx + processed lx) [COLON; SPACE; CRETURN; LFEED];
  if (empty : bool) then Done (lx, radd_header (buf lx) h, 0) else
  match hTab (token_text lx) with
  | None => Done (lx, radd_header (buf lx) h, 0)
  | Some hVal =>
      if (51 <? hVal) || (hVal <? 0) then Done (lx, h, -1)
      else
        '(lx, h, st) ← responseHeaderFunctions hVal lx h;
        if st =? -1 then Done (lx, rbad h, -1) else Done (lx, h, 0)
  end.

(** *** The entity *)

(** [processed], which may become negative, is moved by [n]: the lexer only
    uses the sums of [buf] and the positions, so that it may start earlier. *)
Definition move_by (n : Z) (lx : lexer) : outcome lexer :=
  let z := Z.of_nat (processed lx) + n in
  if 0 <=? z then
    Done (mk_lexer (mem lx) (buf lx) (Z.to_nat z) (end_ lx) (start lx) (state lx) (token lx) (toklen lx) (tokenType lx))
  else
    let k := Z.to_nat (- z) in
    if (buf lx <? k)%nat then Fault OutOfBounds
    else Done (mk_lexer (mem lx) (buf lx - k) 0 (end_ lx + k) (start lx) (state lx) (token lx) (toklen lx) (tokenType lx)).

(** The loop that looks for the end of the last chunk. *)
Fixpoint skip_trailer (fuel : nat) (lx : lexer) : outcome (lexer * Z) :=
  match fuel with
  | O => Fault OutOfFuel
  | S fuel =>
      '(lx, st) ← getNextToken (mode LINE (state lx) lx);
      if st =? -1 then Done (lx, -1) else if tokenType lx =? CRLF then Done (lx, 0) else skip_trailer fuel lx
  end.

(** How the end of the entity will be known, and how the lexer reads it. *)
Definition response_entity_type (m : list Z) (h : response_head) : outcome (Z * Z) :=
  if 0 <=? r_con_len h then Done (CLEN, BODY)
  else
    closes ← match r_conn h with Some p => starts_with m p (chars "close") | None => Done false end;
    if (closes : bool) then Done (CONN, BODY)
    else
      chunked ← match r_te h with Some p => starts_with m p (chars "chunked") | None => Done false end;
      Done (if (chunked : bool) then (CHUN, LINEEND) else (CONN, BODY)).

(** A turn either goes on with the loop or returns. *)
Inductive turn := Next (lx : lexer) (p : response) | Leave (p : response) (code : Z).

Definition available (lx : lexer) : Z := Z.of_nat (end_ lx) - Z.of_nat (processed lx).

Definition chunk_data (lx : lexer) (p : response) : outcome turn :=
  let total := available lx in
  let left := p_entityLen p - p_rcvd p in
  if total <? left then
    Done (Leave (pset_mem (mem lx) (pset_mode BODY NONE (pset_entity (p_entityLen p) (p_rcvd p + total) p))) 0)
  else
    lx ← move_by (2 + left) (mode LINEEND NONE lx);
    Done (Next lx (pset_entity (-1) (p_rcvd p) p)).

Definition response_entity (lx : lexer) (p : response) : outcome turn :=
  let leave p := Done (Leave (pset_mem (mem lx) p) 0) in
  let total := available lx in
  if p_etype p =? CONN then
    if negb (tokenType lx =? BODY) then leave (pset_status BAD_RESPONSE p)
    else leave (pset_status ENTITY_INCOMPLETE (pset_entity (p_entityLen p) (p_rcvd p + total) p))
  else if p_etype p =? CLEN then
    if negb (tokenType lx =? BODY) then leave (pset_status BAD_RESPONSE p)
    else if r_con_len (p_head p) - p_rcvd p <=? total then
      leave (pset_status ENTITY_COMPLETE (pset_entity (p_entityLen p) (r_con_len (p_head p)) p))
    else leave (pset_mode BODY NONE (pset_entity (p_entityLen p) (p_rcvd p + total) p))
  else if p_etype p =? CHUN then
    if p_entityLen p =? -1 then
      size ← scan_hex (drop (token lx) (mem lx));
      let p := pset_entity (default (-1) size) 0 p in
      let lx := mode BODY NONE lx in
      if p_entityLen p =? 0 then
        '(lx, st) ← skip_trailer (S (S (end_ lx))) lx;
        let p := pset_mem (mem lx) (pset_status ENTITY_COMPLETE p) in
        if st =? -1 then Done (Leave p (-1)) else Done (Leave (pset_rewind (available lx) p) 0)
      else chunk_data lx p
    else chunk_data lx p
  else if tokenType lx =? CRLF then leave (pset_status ENTITY_COMPLETE p)
  else Done (Next lx p).

(** *** The loop *)

(** What of the buffer belongs to the entity is to be sent, once in a call. *)
Definition stream_from (rstart : Z) (block : bufBlock) (p : response) : response :=
  padd_toSend (mk_bufBlock (b_buf block) (b_start block) rstart (b_end block)) (b_end block - rstart) p.

Fixpoint response_loop (fuel : nat) (lx : lexer) (block : bufBlock) (stream : bool) (p : response) : outcome (response * Z) :=
  match fuel with
  | O => Fault OutOfFuel
  | S fuel =>
      let p := pset_mode (start lx) (state lx) p in
      '(lx, st) ← getNextToken lx;
      let stop p code := Done (pset_mem (mem lx) p, code) in
      if st =? -1 then stop (pset_status BAD_RESPONSE p) (-1)
      else if tokenType lx =? BUFEND then
        stop (pset_rewind (Z.of_nat (toklen lx)) (pset_status COME_BACK (pset_len (Z.of_nat (end_ lx)) p))) 0
      else if p_stage p =? RESPONSE_LINE then
        '(lx', h, st) ← parseResponseLine (sub_lexer RAW lx) (p_head p);
        let lx := resume lx lx' in
        let p := pset_mem (mem lx) (pset_head h p) in
        if (r_status h =? BAD_RESPONSE) || (st =? -1) then Done (pset_status BAD_RESPONSE p, 0)
        else response_loop fuel lx block stream (pset_stage HTTP_HEADER p)
      else if p_stage p =? HTTP_HEADER then
        if tokenType lx =? CRLF then
          let p := if stream then stream_from (Z.of_nat (processed lx)) block p else p in
          '(etype, m) ← response_entity_type (mem lx) (p_head p);
          response_loop fuel (mode m NONE lx) block false
            (pset_entity (-1) 0 (pset_etype etype (pset_stage ENTITY_FETCH (pset_status ENTITY_INCOMPLETE p))))
        else
          '(lx', h, st) ← parseResponseHeader (sub_lexer INIT lx) (p_head p);
          let lx := resume lx lx' in
          let p := pset_mem (mem lx) (pset_head h p) in
          if (r_status h =? BAD_RESPONSE) || (st =? -1) then Done (pset_status BAD_RESPONSE p, 0)
          else response_loop fuel lx block stream p
      else if p_stage p =? ENTITY_FETCH then
        let p := if stream then stream_from 0 block p else p in
        t ← response_entity lx p;
        match t with
        | Leave p code => Done (p, code)
        | Next lx p => response_loop fuel lx block false p
        end
      else if p_stage p =? BODY then stop p BODY
      else stop (pset_status BAD_RESPONSE p) 0
  end.

(** ** Calls *)

(** What a call is to parse: what [read] gives, or a buffer of the caller's. *)
Inductive data := Net (r : read_result) | Given (bs : list Z).

(** What has been read: the bytes, and the length that [read] reports. *)
Definition arrived (room : Z) (d : data) : list Z * Z :=
  match d with
  | Net (Read bs) => let bs := take (Z.to_nat room) bs in (bs, Z.of_nat (length bs))
  | Net _ => ([], -1)
  | Given bs => (bs, Z.of_nat (length bs))
  end.

(** [memcpy], or [read], into the buffer. *)
Definition store_at (m : list Z) (p : nat) (xs : list Z) : outcome (list Z) :=
  if (length m <? p + length xs)%nat then Fault OutOfBounds else Done (splice_at m p xs).

Definition response_room (p : response) : Z :=
  if p_block p =? 1 then HTTP_ACT_BLOCK_SIZE - ADDL_HEAD_SIZE - p_used p else HTTP_ACT_BLOCK_SIZE - p_used p.

Definition response_full (p : response) : bool :=
  if p_block p =? 1 then HTTP_ACT_BLOCK_SIZE - ADDL_HEAD_SIZE <=? p_used p
  else (1 <? p_block p) && (HTTP_ACT_BLOCK_SIZE <=? p_used p).

(** Turns: each character, and each chunk, takes at most two. *)
Definition parseResponse (d : data) (p : response) : outcome (response * Z) :=
  if response_full p then Done (pset_status BUFF_FULL p, 0)
  else
    let back := if 0 <? p_rewind p then p_rewind p else 0 in
    let '(bs, n) := arrived (response_room p) d in
    if p_used p <? back then Fault OutOfBounds else
    match d with
    | Net WouldBlock =>
        let p := pset_status COME_BACK p in
        Done (if 0 <? p_rewind p then pset_used (p_used p + back) (pset_rewind 0 p) else p, 0)
    | _ =>
        let base := Z.to_nat (p_used p - back) in
        let end_ := n + back in
        m ← store_at (p_mem p) (Z.to_nat (p_used p)) bs;
        m ← (if end_ =? -1 then Done m else put m (Z.to_nat (p_used p + n)) EOF);
        let p := pset_mem m (pset_used (p_used p + match d with Given _ => n | Net _ => end_ end) (padd_unWritten end_ (pset_rewind 0 p))) in
        let block := mk_bufBlock base back 0 end_ in
        if match d with Net _ => n <=? 0 | Given _ => false end then
          if (p_etype p =? CONN) && negb (p_stage p =? RESPONSE_LINE) then Done (pset_status ENTITY_COMPLETE p, 0)
          else Done (pset_status BAD_RESPONSE p, -1)
        else
          let e := Z.to_nat end_ in
          response_loop (2 * S e) (mk_lexer m base 0 e (p_start p) (p_state p) 0 0 NONE) block true p
    end.

(** Calls for the pieces in which a response arrives, until it is complete or
    is given up. *)
Fixpoint read_response (pieces : list (list Z)) (p : response) : outcome response :=
  match pieces with
  | [] => Done p
  | bs :: pieces =>
      '(p, code) ← parseResponse (Net (Read bs)) p;
      if (code =? -1) || one_of (r_status (p_head p)) [BAD_RESPONSE; ENTITY_COMPLETE; BUFF_FULL] then Done p
      else read_response pieces p
  end.
End responses.
