(* ===== verification/HcBody.v ===== *)
(** * HashCache: the entity of a response

    What of an entity is handed on to the client, when it is taken for
    complete, and the chunked entities at which the proxy hangs. *)

From Stdlib Require Import ZArith Lia Ascii String.
From stdpp Require Import base list option numbers gmap sets.
From S2P Require Import Prelude HcLexer HcRequest HcHead HcResponse.

#[local] Coercion chars : string >-> list.

(** ** What is handed on *)

(** The bytes of a block that are to be sent. *)
Definition block_bytes (m : list Z) (b : bufBlock) : list Z :=
  take (Z.to_nat (b_end b - b_rstart b)) (drop (b_buf b + Z.to_nat (b_rstart b)) m).

Definition sent (p : response) : list Z := mjoin (block_bytes (p_mem p) <$> p_toSend p).

#[local] Arguments sent : simpl never.

(** The blocks lie in the part of the buffer that is used. *)
Definition in_use (n : nat) (b : bufBlock) : Prop := 0 ≤ b_rstart b ≤ b_end b ∧ (b_buf b + Z.to_nat (b_end b) ≤ n)%nat.

Lemma block_bytes_agree n m m' b : agree n m m' → in_use n b → block_bytes m' b = block_bytes m b.
Proof.
  intros [Hl H] [Hr Hb]. unfold block_bytes. apply list_eq. intros i.
  destruct (decide (i < Z.to_nat (b_end b - b_rstart b))%nat).
  - rewrite !lookup_take_lt, !lookup_drop by done. apply H. lia.
  - by rewrite !lookup_take_ge by lia.
Qed.

Lemma sent_agree n p m :
  agree n (p_mem p) m → Forall (in_use n) (p_toSend p) → mjoin (block_bytes m <$> p_toSend p) = sent p.
Proof.
  intros Hag Hin. unfold sent. f_equal. apply list_fmap_ext. intros i b Hi. apply (block_bytes_agree n); [done|].
  exact (proj1 (Forall_lookup _ _) Hin i b Hi).
Qed.

(** ** The bytes of a call *)

(** [xs] and the mark after it, in the memory of a response. *)
Definition received (m : list Z) (p : nat) (xs : list Z) : list Z := <[(p + length xs)%nat := EOF]> (splice_at m p xs).

Lemma splice_at_length m p xs : (p + length xs ≤ length m)%nat → length (splice_at m p xs) = length m.
Proof. intros H. unfold splice_at. rewrite !length_app, length_take, length_drop. lia. Qed.

Lemma splice_at_agree m p xs : (p + length xs ≤ length m)%nat → agree p m (splice_at m p xs).
Proof.
  intros H. split; [by apply splice_at_length|]. intros i Hi. unfold splice_at.
  rewrite lookup_app_l by (rewrite length_take; lia). by apply lookup_take_lt.
Qed.

Lemma splice_at_text m p xs : (p + length xs ≤ length m)%nat → text_at (splice_at m p xs) p xs.
Proof.
  intros H. apply text_at_take. unfold splice_at. rewrite drop_app_le, drop_ge by (rewrite length_take; lia). cbn [app].
  by rewrite take_app_le, take_ge by lia.
Qed.

Lemma received_agree m p xs : (p + length xs < length m)%nat → agree p m (received m p xs).
Proof.
  intros H. apply (agree_trans _ _ (splice_at m p xs)); [apply splice_at_agree; lia|].
  split; [apply length_insert|]. intros i Hi. apply list_lookup_insert_ne. lia.
Qed.

Lemma received_length m p xs : (p + length xs < length m)%nat → length (received m p xs) = length m.
Proof. by intros [? _]%received_agree. Qed.

Lemma received_text m p xs : (p + length xs < length m)%nat → text_at (received m p xs) p (xs ++ [EOF]).
Proof.
  intros H. apply text_at_app. split; [apply text_at_insert; [apply splice_at_text; lia|by right]|].
  apply text_at_cons. split; [|apply text_at_nil]. unfold received. apply list_lookup_insert_eq.
  rewrite splice_at_length by lia. done.
Qed.

Section responses.
Context (mktime : tm → Z).

(** A response in the middle of its entity, with a position of the lexer in
    which a call begins. *)
Record fetching (etype : Z) (s : Z) (p : response) : Prop := {
  fe_stage : p_stage p = ENTITY_FETCH;
  fe_etype : p_etype p = etype;
  fe_start : p_start p = s;
  fe_state : p_state p = NONE;
  fe_rewind : p_rewind p ≤ 0;
  fe_block : 1 ≤ p_block p;
  fe_used : 0 ≤ p_used p;
  fe_mem : Z.of_nat (length (p_mem p)) = 8193;
  fe_sent : Forall (in_use (Z.to_nat (p_used p))) (p_toSend p)
}.

(** The response at the beginning of the loop, after these bytes have come. *)
Definition loaded (bs : list Z) (p : response) : response :=
  pset_mem (received (p_mem p) (Z.to_nat (p_used p)) bs)
    (pset_used (p_used p + Z.of_nat (length bs)) (padd_unWritten (Z.of_nat (length bs)) (pset_rewind 0 p))).

Lemma parseResponse_call etype s p bs :
  fetching etype s p → bs ≠ [] → Z.of_nat (length bs) ≤ response_room p →
  parseResponse mktime (Net (Read bs)) p =
    response_loop mktime (2 * S (length bs))
      (mk_lexer (received (p_mem p) (Z.to_nat (p_used p)) bs) (Z.to_nat (p_used p)) 0 (length bs) s NONE 0 0 NONE)
      (mk_bufBlock (Z.to_nat (p_used p)) 0 0 (Z.of_nat (length bs))) true (loaded bs p).
Proof.
  intros [Hstage Het Hst Hs Hrw Hbl Hus Hlen Hin] Hne Hroom.
  assert (1 ≤ length bs)%nat as Hl by (destruct bs; cbn; [done|lia]).
  assert (p_used p + Z.of_nat (length bs) ≤ 7632) as Hbound.
  { unfold response_room in Hroom. change HTTP_ACT_BLOCK_SIZE with 7632 in Hroom. change ADDL_HEAD_SIZE with 200 in Hroom.
    case_match; lia. }
  unfold parseResponse.
  assert (response_full p = false) as ->.
  { unfold response_full, response_room in *. change HTTP_ACT_BLOCK_SIZE with 7632 in *. change ADDL_HEAD_SIZE with 200 in *.
    destruct (p_block p =? 1); [lia|]. apply andb_false_intro2. lia. }
  rewrite (proj2 (Z.ltb_ge 0 (p_rewind p))) by done. cbn [arrived].
  rewrite take_ge by lia. rewrite (proj2 (Z.ltb_ge (p_used p) 0)) by done.
  rewrite Z.sub_0_r, Z.add_0_r. rewrite (proj2 (Z.eqb_neq _ _)) by lia.
  unfold store_at. rewrite (proj2 (Nat.ltb_ge _ _)) by lia. cbn [mbind outcome_bind].
  unfold put. rewrite decide_True by (rewrite splice_at_length; lia). cbn [mbind outcome_bind].
  rewrite (proj2 (Z.leb_gt _ _)) by lia. rewrite Nat2Z.id.
  replace (Z.to_nat (p_used p + Z.of_nat (length bs))) with (Z.to_nat (p_used p) + length bs)%nat by lia.
  destruct p. cbn in Hst, Hs. by subst.
Qed.

(** In [BODY], the lexer leaves the bytes alone. *)
Lemma body_token m b p e tok tl ty :
  (p ≤ e)%nat → (b + p < length m)%nat →
  getNextToken (mk_lexer m b p e BODY NONE tok tl ty) = Done (mk_lexer m b p e BODY NONE (b + p) 0 BODY, 0).
Proof.
  intros He Hm. destruct (lookup_lt_is_Some_2 _ _ Hm) as [c Hc].
  apply (getNextToken_lexes 1); [|lia]. by apply (lexes_return _ c).
Qed.
Lemma call_bound etype s p (bs : list Z) :
  fetching etype s p → Z.of_nat (length bs) ≤ response_room p → (Z.to_nat (p_used p) + length bs < length (p_mem p))%nat.
Proof.
  intros [] Hroom. unfold response_room in Hroom. change HTTP_ACT_BLOCK_SIZE with 7632 in Hroom.
  change ADDL_HEAD_SIZE with 200 in Hroom. case_match; lia.
Qed.

(** The block is handed on, whatever becomes of the response. *)
Lemma sent_block bs p etype s p' :
  fetching etype s p → Z.of_nat (length bs) ≤ response_room p →
  p_mem p' = received (p_mem p) (Z.to_nat (p_used p)) bs →
  p_toSend p' = p_toSend p ++ [mk_bufBlock (Z.to_nat (p_used p)) 0 0 (Z.of_nat (length bs))] →
  sent p' = sent p ++ bs ∧ Forall (in_use (Z.to_nat (p_used p + Z.of_nat (length bs)))) (p_toSend p').
Proof.
  intros Hf Hroom Hm Hs. pose proof (call_bound _ _ _ _ Hf Hroom) as Hlt. destruct Hf.
  split.
  - unfold sent at 1. rewrite Hm, Hs, fmap_app, join_app. f_equal.
    + apply (sent_agree (Z.to_nat (p_used p))); [by apply received_agree|done].
    + cbn. rewrite app_nil_r. unfold block_bytes. cbn. rewrite Z.sub_0_r, Nat2Z.id, Nat.add_0_r.
      pose proof (received_text _ _ _ Hlt) as [Ht _]%text_at_app. by apply text_at_take in Ht.
  - rewrite Hs. apply Forall_app. split.
    + eapply Forall_impl; [eassumption|]. intros b [? ?]. split; [done|lia].
    + apply Forall_cons. split; [|done]. split; cbn; lia.
Qed.

(** ** An entity of known length *)

(** A call hands its bytes on, and the entity is complete with the last. *)
Lemma length_call p bs :
  fetching CLEN BODY p → bs ≠ [] → Z.of_nat (length bs) ≤ response_room p →
  let n := Z.of_nat (length bs) in
  let left := r_con_len (p_head p) - p_rcvd p in
  ∃ p', parseResponse mktime (Net (Read bs)) p = Done (p', 0) ∧ sent p' = sent p ++ bs ∧ p_used p' = p_used p + n ∧
    p_block p' = p_block p ∧ r_con_len (p_head p') = r_con_len (p_head p) ∧
    (left ≤ n ∧ r_status (p_head p') = ENTITY_COMPLETE ∧ p_rcvd p' = r_con_len (p_head p) ∨
     n < left ∧ r_status (p_head p') = r_status (p_head p) ∧ p_rcvd p' = p_rcvd p + n ∧ fetching CLEN BODY p').
Proof.
  intros Hf Hne Hroom n left. rewrite (parseResponse_call CLEN BODY) by done.
  assert (Z.to_nat (p_used p) + length bs < length (p_mem p))%nat as Hlt by (by apply (call_bound CLEN BODY)).
  assert (1 ≤ length bs)%nat as Hl by (destruct bs; cbn; [done|lia]).
  pose proof (λ p', sent_block bs p CLEN BODY p' Hf Hroom) as Hsent.
  replace (2 * S (length bs))%nat with (S (S (2 * length bs))) by lia. cbn [response_loop].
  rewrite body_token by (rewrite ?(received_length _ _ _ Hlt); lia).
  cbn [mbind outcome_bind tokenType]. change (0 =? -1) with false. change (BODY =? BUFEND) with false. cbv iota.
  destruct p as [m stg st ste rw len us bl h el rc et ts uw dn]. destruct Hf. cbn in *. subst stg et st ste.
  change (ENTITY_FETCH =? RESPONSE_LINE) with false. change (ENTITY_FETCH =? HTTP_HEADER) with false.
  change (ENTITY_FETCH =? ENTITY_FETCH) with true. cbv iota. cbn.
  change (CLEN =? CONN) with false. change (CLEN =? CLEN) with true. change (BODY =? BODY) with true. cbn.
  unfold available. cbn. rewrite !Z.sub_0_r. fold n.
  destruct (Z.leb_spec (r_con_len h - rc) n); cbn; eexists; (split; [done|]); cbn; fold n.
  - split_and!; [by apply Hsent|done|done|by destruct h|]. left. split_and!; [done|by destruct h|done].
  - match goal with |- context [fetching CLEN BODY ?q] => destruct (Hsent q eq_refl eq_refl) as [Hs1 Hs2] end.
    split_and!; [done..|]. right. split_and!; [done..|].
    apply Build_fetching; cbn; try done; [lia|by rewrite (received_length _ _ _ Hlt)].
Qed.


(** ** A chunked entity *)

(** The digits of a size, and the data. *)
Definition chunk : Type := list Z * list Z.

Definition un_hex (ds : list Z) : Z := foldl (λ a c, 16 * a + default 0 (hex_value c)) 0 ds.

Definition valid_chunk (c : chunk) : Prop :=
  c.1 ≠ [] ∧ Forall (λ x, is_Some (hex_value x)) c.1 ∧ un_hex c.1 = Z.of_nat (length c.2) ∧ un_hex c.1 < 2 ^ 31 ∧ c.2 ≠ [].

Definition chunk_text (c : chunk) : list Z := c.1 ++ crlf ++ c.2 ++ crlf.
Definition last_chunk : list Z := chars "0" ++ crlf ++ crlf.

(** The pieces in which an entity may come: a piece ends within the data of a
    chunk, or between chunks.  Of the chunk that has begun [s] is to come. *)
Definition rest_of (s : list Z) : list Z := match s with [] => [] | _ => s ++ crlf end.

Inductive well_cut : list Z → list chunk → list (list Z) → Prop :=
  | cut_end s cs : well_cut s cs [rest_of s ++ mjoin (chunk_text <$> cs) ++ last_chunk]
  | cut_between s cs1 cs2 pieces :
      rest_of s ++ mjoin (chunk_text <$> cs1) ≠ [] → well_cut [] cs2 pieces →
      well_cut s (cs1 ++ cs2) ((rest_of s ++ mjoin (chunk_text <$> cs1)) :: pieces)
  | cut_within s cs1 ds d1 d2 cs2 pieces :
      d2 ≠ [] → well_cut d2 cs2 pieces →
      well_cut s (cs1 ++ (ds, d1 ++ d2) :: cs2) ((rest_of s ++ mjoin (chunk_text <$> cs1) ++ ds ++ crlf ++ d1) :: pieces)
  | cut_same d1 d2 cs pieces :
      d1 ≠ [] → d2 ≠ [] → well_cut d2 cs pieces → well_cut (d1 ++ d2) cs (d1 :: pieces).

(** *** Sizes *)

Lemma hex_digit_range x : is_Some (hex_value x) → 48 ≤ x ≤ 102 ∧ 0 ≤ default 0 (hex_value x) < 16 ∧ isspace x = false.
Proof.
  unfold hex_value, isdigit, isspace. intros [d Hd]. revert Hd. repeat case_match; intros [= <-]; cbn; split_and!; lia.
Qed.

Lemma hex_digits_run ds x rest acc :
  Forall (λ c, is_Some (hex_value c)) ds → hex_value x = None →
  hex_digits (ds ++ x :: rest) (Some acc) = Done (Some (foldl (λ a c, 16 * a + default 0 (hex_value c)) acc ds)).
Proof.
  intros Hd Hx. revert acc. induction Hd as [|c ds [d Hc] _ IH]; intros acc; cbn; [by rewrite Hx|]. rewrite Hc. apply IH.
Qed.

Lemma scan_hex_number m p ds x :
  ds ≠ [] → Forall (λ c, is_Some (hex_value c)) ds → hex_value x = None → 0 ≤ un_hex ds < 2 ^ 31 →
  text_at m p (ds ++ [x]) → scan_hex (drop p m) = Done (Some (un_hex ds)).
Proof.
  intros Hn Hd Hx Hr Ht. rewrite (text_at_drop _ _ _ Ht), <- app_assoc. cbn [app]. destruct ds as [|c ds]; [done|].
  pose proof (Forall_cons_1 _ _ _ Hd) as [Hc Hds]. destruct (hex_digit_range c Hc) as (_ & _ & Hs).
  rewrite <- app_comm_cons. cbn [scan_hex]. rewrite Hs. cbn [hex_digits]. destruct Hc as [d Hc]. rewrite Hc.
  rewrite hex_digits_run by done. cbn [mbind outcome_bind fmap option_fmap option_map default].
  unfold un_hex in Hr |- *. cbn [foldl] in Hr |- *. rewrite Hc in *. cbn [default] in *. do 2 f_equal.
  change (id d) with d in *. rewrite Z.min_l by lia. apply i32_id. lia.
Qed.

(** The line of a size. *)
Lemma size_line m b p e tok tl ty ds :
  Forall (λ c, is_Some (hex_value c)) ds → text_at m (b + p) (ds ++ crlf) → (p + length ds + 1 ≤ e)%nat →
  getNextToken (mk_lexer m b p e LINEEND NONE tok tl ty) =
    Done (mk_lexer m b (p + length ds + 2) e LINEEND LF (b + p) (length ds + 2) TOKEN, 0).
Proof.
  intros Hd Ht He. assert (b + p + length ds + 2 ≤ length m)%nat as Hm.
  { apply text_at_length in Ht; [rewrite length_app in Ht; cbn in Ht; lia|by destruct ds]. }
  apply text_at_app in Ht as [Ht [H1 [H2 _]%text_at_cons]%text_at_cons].
  apply (getNextToken_lexes (length ds + 2)); [|cbn; lia]. unfold begin_token. cbn [mem buf processed end_ start state token toklen tokenType].
  apply lexes_run.
  - intros lx c Hin Hs Hst. destruct (hex_digit_range c) as [Hc _]; [exact (proj1 (Forall_forall _ _) Hd _ Hin)|].
    unfold lex_char, lex_lineend. rewrite Hs. cbn. rewrite Hst. cbn.
    by rewrite !(eqb_ne (classify c)) by (apply classify_ne; [done|unfold CRETURN, EOF; lia]).
  - done.
  - cbn. lia.
  - unfold skip. cbn. eapply (lexes_go 1 _ _ CRETURN); cbn; [lia|by rewrite Nat.add_assoc|done|].
    replace (length ds + 2)%nat with (S (S (length ds))) by lia. rewrite <- Nat.add_assoc, Nat.add_comm with (n := length ds) (m := 2%nat).
    eapply (lexes_return _ LFEED); cbn; [lia|by rewrite <- H2; f_equal; lia|].
    unfold lex_char, lex_lineend. cbn. unfold goto, typed, advance. cbn. do 2 f_equal. lia.
Qed.

(** *** Turns of the loop *)

(** The response in the loop, but for the position in the entity. *)
Record same (p p' : response) : Prop := {
  sm_stage : p_stage p' = p_stage p;
  sm_etype : p_etype p' = p_etype p;
  sm_used : p_used p' = p_used p;
  sm_block : p_block p' = p_block p;
  sm_head : p_head p' = p_head p;
  sm_toSend : p_toSend p' = p_toSend p;
  sm_rewind : p_rewind p' = p_rewind p
}.

Lemma same_trans p p' p'' : same p p' → same p' p'' → same p p''.
Proof. intros [] []. split; congruence. Qed.

(** A response within a chunked entity: [left] more bytes of the data are to
    come, or a size is next. *)
Definition in_chunks (left : option Z) (p : response) : Prop :=
  p_stage p = ENTITY_FETCH ∧ p_etype p = CHUN ∧
  match left with
  | None => p_entityLen p = -1
  | Some n => p_entityLen p - p_rcvd p = n ∧ 0 ≤ p_rcvd p ∧ 0 < n
  end.

(** The block is handed on in the first turn. *)
Lemma stream_first fuel lx lx' block p :
  p_stage p = ENTITY_FETCH → getNextToken lx = Done (lx', 0) → tokenType lx' ≠ BUFEND →
  response_loop mktime (S fuel) lx block true p = response_loop mktime (S fuel) lx block false (stream_from 0 block p).
Proof.
  intros Hs Hrun Hty. cbn [response_loop]. rewrite Hrun. cbn [mbind outcome_bind]. change (0 =? -1) with false.
  rewrite (eqb_ne _ _ Hty). destruct p. cbn in Hs. subst. done.
Qed.

Lemma entity_turn fuel lx lx' block p left :
  in_chunks left p → getNextToken lx = Done (lx', 0) → tokenType lx' ≠ BUFEND →
  response_loop mktime (S fuel) lx block false p =
    (t ← response_entity lx' (pset_mode (start lx) (state lx) p);
     match t with Leave p code => Done (p, code) | Next lx p => response_loop mktime fuel lx block false p end).
Proof.
  intros (Hs & _) Hrun Hty. cbn [response_loop]. rewrite Hrun. cbn [mbind outcome_bind]. change (0 =? -1) with false.
  rewrite (eqb_ne _ _ Hty). destruct p. cbn in Hs. by subst.
Qed.

(** The end of the data of a chunk. *)
Lemma data_turn fuel m b e tok tl ty block p n :
  in_chunks (Some (Z.of_nat n)) p → (n + 2 ≤ e)%nat → (b + e < length m)%nat →
  ∃ tok' tl' ty' p', response_loop mktime (S fuel) (mk_lexer m b 0 e BODY NONE tok tl ty) block false p =
      response_loop mktime fuel (mk_lexer m b (n + 2) e LINEEND NONE tok' tl' ty') block false p' ∧
    same p p' ∧ in_chunks None p'.
Proof.
  intros Hin He Hm. erewrite entity_turn; [|exact Hin|apply body_token; lia|done].
  destruct Hin as (Hs & Het & Hleft & Hrc & Hn).
  destruct p as [? ? ? ? ? ? ? ? ? el rc ? ? ? ?]. cbn in *. subst. unfold response_entity. cbn.
  change (CHUN =? CONN) with false. change (CHUN =? CLEN) with false. change (CHUN =? CHUN) with true. cbv iota.
  rewrite (eqb_ne el) by lia. unfold chunk_data, available. cbn. rewrite Hleft, (proj2 (Z.ltb_ge _ _)) by lia.
  unfold move_by. cbn. rewrite (proj2 (Z.leb_le _ _)) by lia. cbn. eexists _, _, _, _. split.
  - do 2 f_equal. lia.
  - done.
Qed.

(** A size. *)
Lemma size_turn fuel m b p e tok tl ty block pr ds left :
  in_chunks None pr → ds ≠ [] → Forall (λ c, is_Some (hex_value c)) ds → un_hex ds = Z.of_nat left → (0 < left)%nat →
  un_hex ds < 2 ^ 31 → text_at m (b + p) (ds ++ crlf) → (p + length ds + 2 ≤ e)%nat →
  let lx := mk_lexer m b (p + length ds + 2) e BODY NONE (b + p) (length ds + 2) TOKEN in
  ∃ pr', response_loop mktime (S fuel) (mk_lexer m b p e LINEEND NONE tok tl ty) block false pr =
      (t ← chunk_data lx pr';
       match t with Leave p code => Done (p, code) | Next lx p => response_loop mktime fuel lx block false p end) ∧
    same pr pr' ∧ in_chunks (Some (Z.of_nat left)) pr' ∧ p_rcvd pr' = 0.
Proof.
  intros Hin Hn Hd Hleft Hpos Hmax Ht He lx. erewrite entity_turn; [|exact Hin|apply size_line; [done|done|lia]|done].
  destruct Hin as (Hs & Het & Hel). eexists (pset_entity (Z.of_nat left) 0 (pset_mode LINEEND NONE pr)).
  destruct pr as [? ? ? ? ? ? ? ? ? el rc ? ? ? ?]. cbn in Hs, Het, Hel. subst.
  split; [|by split; [|split; [split_and!; cbn; [done|done|lia|lia|lia]|]]].
  unfold response_entity. cbn [p_etype pset_mode]. change (CHUN =? CONN) with false. change (CHUN =? CLEN) with false.
  change (CHUN =? CHUN) with true. cbv iota. cbn [p_entityLen]. change (-1 =? -1) with true. cbv iota. cbn [token mem].
  assert (scan_hex (drop (b + p) m) = Done (Some (un_hex ds))) as ->.
  { apply (scan_hex_number _ _ _ CRETURN); [done|done|done|lia|].
    apply text_at_app in Ht as [H1 [H2 _]%text_at_cons]. apply text_at_app. split; [done|].
    apply text_at_cons. split; [done|apply text_at_nil]. }
  cbn [mbind outcome_bind]. rewrite Hleft. cbn [default pset_entity p_entityLen]. change (id (Z.of_nat left)) with (Z.of_nat left).
  rewrite (eqb_ne (Z.of_nat left)) by lia. done.
Qed.

(** A chunk that is there as a whole. *)
Lemma chunk_turn fuel m b p e tok tl ty block pr c :
  in_chunks None pr → valid_chunk c → text_at m (b + p) (chunk_text c) → (p + length (chunk_text c) ≤ e)%nat → Z.of_nat e < 2 ^ 31 →
  ∃ tok' tl' ty' pr', response_loop mktime (S fuel) (mk_lexer m b p e LINEEND NONE tok tl ty) block false pr =
      response_loop mktime fuel (mk_lexer m b (p + length (chunk_text c)) e LINEEND NONE tok' tl' ty') block false pr' ∧
    same pr pr' ∧ in_chunks None pr'.
Proof.
  intros Hin (Hn & Hd & Hv & _ & Hne) Ht He Hmax. destruct c as [ds data]. cbn [fst snd] in *. unfold chunk_text in *. cbn [fst snd] in *.
  rewrite !length_app in *. cbn [length crlf] in *. assert (1 ≤ length data)%nat by (destruct data; cbn; [done|lia]).
  rewrite app_assoc in Ht. apply text_at_app in Ht as [Ht _].
  destruct (size_turn fuel m b p e tok tl ty block pr ds (length data)) as (pr1 & -> & Hsame & Hin1 & Hrc); [done..|lia|done|lia|].
  unfold chunk_data. cbn zeta. destruct Hin1 as (Hs & Het & Hleft & _). rewrite Hleft. unfold available. cbn [end_ processed].
  rewrite (proj2 (Z.ltb_ge _ _)) by lia. unfold move_by. cbn [mode processed]. rewrite (proj2 (Z.leb_le _ _)) by lia.
  cbn [mbind outcome_bind]. cbn [mem buf end_ start state token toklen tokenType mode].
  eexists _, _, _, (pset_entity (-1) (p_rcvd pr1) pr1). split.
  - replace (Z.to_nat (Z.of_nat (p + length ds + 2) + (2 + Z.of_nat (length data))))
      with (p + (length ds + (2 + (length data + 2))))%nat by lia. done.
  - destruct pr1. cbn in *. split; [|done]. by destruct Hsame; split.
Qed.

Lemma chunks_run cs fuel m b p e tok tl ty block pr :
  in_chunks None pr → Forall valid_chunk cs → text_at m (b + p) (mjoin (chunk_text <$> cs)) →
  (p + length (mjoin (chunk_text <$> cs)) ≤ e)%nat → Z.of_nat e < 2 ^ 31 →
  ∃ tok' tl' ty' pr', response_loop mktime (length cs + fuel) (mk_lexer m b p e LINEEND NONE tok tl ty) block false pr =
      response_loop mktime fuel (mk_lexer m b (p + length (mjoin (chunk_text <$> cs))) e LINEEND NONE tok' tl' ty') block false pr' ∧
    same pr pr' ∧ in_chunks None pr'.
Proof.
  intros Hin Hall. revert p tok tl ty pr Hin. induction Hall as [|c cs Hc Hall IH]; intros p tok tl ty pr Hin Ht He Hmax.
  - cbn. rewrite Nat.add_0_r. by eexists _, _, _, pr.
  - change (mjoin (chunk_text <$> c :: cs)) with (chunk_text c ++ mjoin (chunk_text <$> cs)) in *. rewrite length_app in *.
    apply text_at_app in Ht as [Ht1 Ht2]. cbn [length plus].
    destruct (chunk_turn (length cs + fuel) m b p e tok tl ty block pr c) as (tok1 & tl1 & ty1 & pr1 & -> & Hs1 & Hin1); [done|done|done|lia|done|].
    destruct (IH (p + length (chunk_text c))%nat tok1 tl1 ty1 pr1) as (tok2 & tl2 & ty2 & pr2 & -> & Hs2 & Hin2);
      [done|by rewrite <- Nat.add_assoc in Ht2 || by rewrite Nat.add_assoc|lia|done|].
    exists tok2, tl2, ty2, pr2. rewrite Nat.add_assoc. split; [done|]. split; [by eapply same_trans|done].
Qed.

(** *** The end of a piece *)

(** What a call leaves: [left] more bytes of the data are to come. *)
Definition left_to_come (d : list Z) : option Z := match d with [] => None | _ => Some (Z.of_nat (length d)) end.

Record between (m : list Z) (d : list Z) (p p' : response) : Prop := {
  bt_mem : p_mem p' = m;
  bt_chunks : in_chunks (left_to_come d) p';
  bt_start : p_start p' = match d with [] => LINEEND | _ => BODY end;
  bt_state : p_state p' = NONE;
  bt_used : p_used p' = p_used p;
  bt_block : p_block p' = p_block p;
  bt_toSend : p_toSend p' = p_toSend p;
  bt_rewind : p_rewind p ≤ 0 → p_rewind p' ≤ 0;
  bt_status : r_status (p_head p') = r_status (p_head p) ∨ r_status (p_head p') = COME_BACK
}.

Lemma between_same m d p p1 p' : same p p1 → between m d p1 p' → between m d p p'.
Proof. intros [] []. split; try congruence. intros ?. apply bt_rewind0. congruence. Qed.

(** The piece ends between chunks. *)
Lemma ends_between fuel m b e tok tl ty block p :
  in_chunks None p → m !! (b + e)%nat = Some EOF →
  ∃ p', response_loop mktime (S fuel) (mk_lexer m b e e LINEEND NONE tok tl ty) block false p = Done (p', 0) ∧ between m [] p p'.
Proof.
  intros (Hs & Het & Hel) Hm. assert (b + e < length m)%nat by (by apply lookup_lt_Some in Hm).
  assert (getNextToken (mk_lexer m b e e LINEEND NONE tok tl ty) = Done (mk_lexer m b e e LINEEND NONE (b + e) 0 BUFEND, 0)) as Hrun.
  { apply (getNextToken_lexes 1); [|lia]. by apply (lexes_return _ EOF). }
  cbn [response_loop]. rewrite Hrun. cbn [mbind outcome_bind tokenType]. change (0 =? -1) with false.
  change (BUFEND =? BUFEND) with true. cbv iota. eexists. split; [done|].
  destruct p as [? ? ? ? ? ? ? ? h ? ? ? ? ? ?]. cbn in *. subst. split; cbn; try done. right. by destruct h.
Qed.

(** The piece ends within the data of a chunk. *)
Lemma ends_within fuel m b p e tok tl ty block pr ds d1 d2 :
  in_chunks None pr → ds ≠ [] → Forall (λ c, is_Some (hex_value c)) ds → un_hex ds = Z.of_nat (length (d1 ++ d2)) → d2 ≠ [] →
  un_hex ds < 2 ^ 31 → text_at m (b + p) (ds ++ crlf) → e = (p + length ds + 2 + length d1)%nat →
  ∃ p', response_loop mktime (S fuel) (mk_lexer m b p e LINEEND NONE tok tl ty) block false pr = Done (p', 0) ∧ between m d2 pr p'.
Proof.
  intros Hin Hn Hd Hv Hd2 Hmax Ht He. rewrite length_app in Hv. assert (1 ≤ length d2)%nat by (destruct d2; cbn; [done|lia]).
  destruct (size_turn fuel m b p e tok tl ty block pr ds (length d1 + length d2)) as (pr1 & -> & Hsame & Hin1 & Hrc); [done|done|done|lia|lia|done|done|lia|].
  unfold chunk_data. cbn zeta. destruct Hin1 as (Hs & Het & Hleft & _). rewrite Hleft. unfold available. cbn [end_ processed].
  rewrite (proj2 (Z.ltb_lt _ _)) by lia. cbn [mbind outcome_bind mem].
  eexists. split; [done|]. apply (between_same _ _ _ pr1); [done|].
  destruct pr1 as [? ? ? ? ? ? ? ? h el rc ? ? ? ?]. cbn in *. subst.
  destruct d2 as [|x d2]; [done|]. split; cbn in *; try done; [|by left]. unfold in_chunks. cbn. split_and!; try done; lia.
Qed.

(** The piece ends within the data, in which it has begun. *)
Lemma ends_same fuel m b e tok tl ty block p d :
  in_chunks (Some (Z.of_nat e + Z.of_nat (length d))) p → d ≠ [] → (b + e < length m)%nat →
  ∃ p', response_loop mktime (S fuel) (mk_lexer m b 0 e BODY NONE tok tl ty) block false p = Done (p', 0) ∧ between m d p p'.
Proof.
  intros Hin Hd Hm. assert (1 ≤ length d)%nat by (destruct d; cbn; [done|lia]).
  erewrite entity_turn; [|exact Hin|apply body_token; lia|done].
  destruct Hin as (Hs & Het & Hleft & Hrc & Hn).
  destruct p as [? ? ? ? ? ? ? ? ? el rc ? ? ? ?]. cbn in *. subst. unfold response_entity. cbn.
  change (CHUN =? CONN) with false. change (CHUN =? CLEN) with false. change (CHUN =? CHUN) with true. cbv iota.
  rewrite (eqb_ne el) by lia. unfold chunk_data, available. cbn. rewrite (proj2 (Z.ltb_lt _ _)) by lia. cbn.
  eexists. split; [done|]. destruct d as [|x d]; [done|]. split; cbn in *; try done; [|by left]. unfold in_chunks. cbn. split_and!; try done; lia.
Qed.

(** The last chunk. *)
Lemma ends_last fuel m b p e tok tl ty block pr :
  in_chunks None pr → text_at m (b + p) last_chunk → e = (p + length last_chunk)%nat →
  ∃ p', response_loop mktime (S fuel) (mk_lexer m b p e LINEEND NONE tok tl ty) block false pr = Done (p', 0) ∧
    p_mem p' = m ∧ p_toSend p' = p_toSend pr ∧ r_status (p_head p') = ENTITY_COMPLETE ∧ p_rewind p' = 0.
Proof.
  intros Hin Ht He. change (length last_chunk) with 5%nat in He. change last_chunk with ([48] ++ crlf ++ crlf) in Ht.
  pose proof Ht as [Ht1 Ht2]%text_at_app.
  pose proof Ht as Ht'. rewrite app_assoc in Ht'. apply text_at_app in Ht' as [Hsize Hend]. cbn [length app crlf] in Hend.
  erewrite entity_turn; [|exact Hin|apply (size_line _ _ _ _ _ _ _ [48]); [by apply (bool_decide_unpack _)|done|cbn; lia]|done].
  destruct Hin as (Hs & Het & Hel). unfold response_entity. destruct pr as [? ? ? ? ? ? ? ? h el rc ? ? ? ?]. cbn in Hs, Het, Hel. subst.
  cbn [p_etype pset_mode]. change (CHUN =? CONN) with false. change (CHUN =? CLEN) with false. change (CHUN =? CHUN) with true. cbv iota.
  cbn [p_entityLen]. change (-1 =? -1) with true. cbv iota. cbn [token mem].
  assert (scan_hex (drop (b + p) m) = Done (Some (un_hex [48]))) as ->.
  { apply (scan_hex_number _ _ _ CRETURN); [done|by apply (bool_decide_unpack _)|done|done|].
    apply text_at_app. split; [done|].
    apply text_at_app in Ht2 as [[H2 _]%text_at_cons _]. apply text_at_cons. split; [done|apply text_at_nil]. }
  cbn [mbind outcome_bind]. change (un_hex [48]) with 0. cbn [default pset_entity p_entityLen]. change (id 0 =? 0) with true. cbv iota.
  cbn [skip_trailer mode state mem buf processed end_ token toklen tokenType length].
  unfold mode. cbn [mem buf processed end_ start state token toklen tokenType].
  rewrite (empty_line m b); [|by replace (b + (p + 1 + 2))%nat with (b + p + 3)%nat by lia|lia].
  cbn [mbind outcome_bind tokenType]. change (0 =? -1) with false. change (CRLF =? CRLF) with true. cbv iota.
  cbn [mbind outcome_bind mem]. change (0 =? -1) with false. cbv iota. eexists. split; [done|]. cbn. split_and!; [done|done|by destruct h|].
  unfold available. cbn. lia.
Qed.

(** *** Calls *)

(** Between two calls, [d] is what is to come of the data of a chunk. *)
Definition expecting (d : list Z) (p : response) : Prop :=
  fetching CHUN (match d with [] => LINEEND | _ => BODY end) p ∧ in_chunks (left_to_come d) p ∧
  r_status (p_head p) ∈ [ENTITY_INCOMPLETE; COME_BACK].

Lemma chunks_length cs : Forall valid_chunk cs → (length cs ≤ length (mjoin (chunk_text <$> cs)))%nat.
Proof.
  induction 1 as [|c cs [Hn _] Hall IH]; [done|]. change (mjoin (chunk_text <$> c :: cs)) with (chunk_text c ++ mjoin (chunk_text <$> cs)).
  rewrite length_app. destruct c as [[|x ds] data]; [done|]. cbn. lia.
Qed.

(** The lexer at the end of the chunks that are there. *)
Lemma call_chunks d cs tail p bs :
  expecting d p → Forall valid_chunk cs → bs = rest_of d ++ mjoin (chunk_text <$> cs) ++ tail → bs ≠ [] →
  (d = [] → cs = [] → ∃ ds tail', tail = (ds ++ crlf) ++ tail' ∧ Forall (λ c, is_Some (hex_value c)) ds) →
  Z.of_nat (length bs) ≤ response_room p →
  let m := received (p_mem p) (Z.to_nat (p_used p)) bs in
  let block := mk_bufBlock (Z.to_nat (p_used p)) 0 0 (Z.of_nat (length bs)) in
  ∃ fuel tok tl ty pr, parseResponse mktime (Net (Read bs)) p =
      response_loop mktime (S fuel) (mk_lexer m (Z.to_nat (p_used p)) (length (rest_of d ++ mjoin (chunk_text <$> cs))) (length bs)
        LINEEND NONE tok tl ty) block false pr ∧
    same (stream_from 0 block (loaded bs p)) pr ∧ in_chunks None pr.
Proof.
  intros (Hf & Hin & _) Hcs Hbs Hne Hfirst Hroom m block.
  pose proof (call_bound _ _ _ _ Hf Hroom) as Hlt. pose proof (received_length _ _ _ Hlt) as Hml. fold m in Hml.
  pose proof (received_text _ _ _ Hlt) as [Ht _]%text_at_app. fold m in Ht. rewrite Hbs in Ht.
  apply text_at_app in Ht as [Ht1 [Ht2 Ht3]%text_at_app].
  assert (length bs = length (rest_of d) + (length (mjoin (chunk_text <$> cs)) + length tail))%nat as Hl by (by rewrite Hbs, !length_app).
  assert (Z.of_nat (length bs) < 2 ^ 31) as Hmax by (destruct Hf; lia).
  pose proof (chunks_length cs Hcs) as Hcl. rewrite (parseResponse_call CHUN _ p bs Hf Hne Hroom).
  set (s := match d with [] => LINEEND | _ => BODY end). set (p1 := stream_from 0 block (loaded bs p)).
  assert (in_chunks (left_to_come d) p1) as Hin1 by (by destruct p).
  assert (∃ lx', getNextToken (mk_lexer m (Z.to_nat (p_used p)) 0 (length bs) s NONE 0 0 NONE) = Done (lx', 0) ∧ tokenType lx' ≠ BUFEND)
    as (lx' & Hrun & Hty).
  { unfold s. destruct d as [|x d].
    - assert (∃ ds tail', bs = (ds ++ crlf) ++ tail' ∧ Forall (λ c, is_Some (hex_value c)) ds) as (ds & tail' & Heq & Hds).
      { destruct cs as [|c cs]; [rewrite Hbs; by apply Hfirst|]. apply Forall_cons_1 in Hcs as [(_ & Hds & _) _].
        exists c.1, (c.2 ++ crlf ++ mjoin (chunk_text <$> cs) ++ tail). split; [|done]. rewrite Hbs. cbn. unfold chunk_text.
        by rewrite <- !app_assoc. }
      pose proof (received_text _ _ _ Hlt) as [Ht _]%text_at_app. fold m in Ht. rewrite Heq in Ht. apply text_at_app in Ht as [Ht _].
      eexists. split; [apply (size_line _ _ _ _ _ _ _ ds Hds)|done].
      + by rewrite Nat.add_0_r.
      + rewrite Heq, !length_app. cbn. lia.
    - eexists. split; [apply body_token; lia|done]. }
  replace (2 * S (length bs))%nat with (S (S (2 * length bs))) by lia.
  rewrite (stream_first _ _ _ _ (loaded bs p) ltac:(by destruct p, Hf) Hrun Hty). fold block. fold p1. unfold s.
  destruct d as [|x d].
  - replace (S (S (2 * length bs))) with (length cs + S (S (2 * length bs) - length cs))%nat by lia.
    cbn [rest_of length] in *. rewrite Nat.add_0_r in Ht2.
    destruct (chunks_run cs (S (S (2 * length bs) - length cs)) m (Z.to_nat (p_used p)) 0 (length bs) 0 0 NONE block p1)
      as (tok & tl & ty & pr & -> & Hsame & Hin2); [done|done|by rewrite Nat.add_0_r|lia|done|].
    eexists _, tok, tl, ty, pr. done.
  - change (rest_of (x :: d)) with ((x :: d) ++ crlf) in *. rewrite length_app in *. change (length crlf) with 2%nat in *.
    destruct (data_turn (S (2 * length bs)) m (Z.to_nat (p_used p)) (length bs) 0 0 NONE block p1 (length (x :: d)))
      as (tok1 & tl1 & ty1 & pr1 & -> & Hsame1 & Hin2); [exact Hin1|lia|lia|].
    replace (S (2 * length bs)) with (length cs + S (2 * length bs - length cs))%nat by lia.
    destruct (chunks_run cs (S (2 * length bs - length cs)) m (Z.to_nat (p_used p)) (length (x :: d) + 2) (length bs) tok1 tl1 ty1 block pr1)
      as (tok & tl & ty & pr & -> & Hsame & Hin3); [done|done|done|lia|done|].
    eexists _, tok, tl, ty, pr. rewrite length_app. change (length crlf) with 2%nat.
    split; [done|]. split; [by eapply same_trans|done].
Qed.

(** What a call that does not complete the entity leaves. *)
Lemma between_expecting d d' p p1 pr p' bs :
  expecting d p → Z.of_nat (length bs) ≤ response_room p →
  let block := mk_bufBlock (Z.to_nat (p_used p)) 0 0 (Z.of_nat (length bs)) in
  p1 = stream_from 0 block (loaded bs p) → same p1 pr →
  between (received (p_mem p) (Z.to_nat (p_used p)) bs) d' pr p' →
  expecting d' p' ∧ sent p' = sent p ++ bs ∧ response_room p' = response_room p - Z.of_nat (length bs).
Proof.
  intros (Hf & Hin & Hst) Hroom block -> [] []. pose proof (call_bound _ _ _ _ Hf Hroom) as Hlt.
  destruct (sent_block bs p _ _ p' Hf Hroom) as [Hsent Hused]; [done|rewrite bt_toSend0, sm_toSend0; by destruct p|].
  assert (p_used p' = p_used p + Z.of_nat (length bs)) as Hu by (rewrite bt_used0, sm_used0; by destruct p).
  assert (p_block p' = p_block p) as Hb by (rewrite bt_block0, sm_block0; by destruct p).
  split_and!; [split_and!| |].
  - pose proof (received_length _ _ _ Hlt). destruct bt_chunks0 as (? & ? & _).
    split; [done|done|done|done| |by rewrite Hb; destruct Hf|rewrite Hu; destruct Hf; lia|by rewrite bt_mem0, H; destruct Hf|by rewrite Hu].
    apply bt_rewind0. rewrite sm_rewind0. by destruct p.
  - done.
  - destruct bt_status0 as [-> | ->]; [|set_solver]. rewrite sm_head0. by destruct p.
  - done.
  - unfold response_room. rewrite Hb, Hu. destruct (p_block p =? 1); lia.
Qed.

Lemma expecting_goes_on d p : expecting d p → one_of (r_status (p_head p)) [BAD_RESPONSE; ENTITY_COMPLETE; BUFF_FULL] = false.
Proof. intros (_ & _ & H). repeat (apply elem_of_cons in H as [-> |H]; [done|]). by apply elem_of_nil in H. Qed.

(** A call within the data of a chunk. *)
Lemma same_call d1 d2 p :
  expecting (d1 ++ d2) p → d1 ≠ [] → d2 ≠ [] → Z.of_nat (length d1) ≤ response_room p →
  ∃ p', parseResponse mktime (Net (Read d1)) p = Done (p', 0) ∧ expecting d2 p' ∧ sent p' = sent p ++ d1 ∧
    response_room p' = response_room p - Z.of_nat (length d1).
Proof.
  intros Hex Hd1 Hd2 Hroom. pose proof Hex as (Hf & Hin & _).
  assert (match d1 ++ d2 with [] => LINEEND | _ => BODY end = BODY) as Hs by by destruct d1. rewrite Hs in Hf.
  assert (left_to_come (d1 ++ d2) = Some (Z.of_nat (length d1) + Z.of_nat (length d2))) as Hl.
  { destruct d1; [done|]. cbn [app left_to_come]. rewrite <- Nat2Z.inj_add, <- length_app. done. }
  pose proof (call_bound _ _ _ _ Hf Hroom) as Hlt. pose proof (received_length _ _ _ Hlt) as Hml.
  rewrite (parseResponse_call CHUN BODY p d1 Hf Hd1 Hroom).
  set (m := received (p_mem p) (Z.to_nat (p_used p)) d1) in *.
  set (block := mk_bufBlock (Z.to_nat (p_used p)) 0 0 (Z.of_nat (length d1))).
  replace (2 * S (length d1))%nat with (S (S (2 * length d1))) by lia.
  rewrite (stream_first _ _ _ block (loaded d1 p) ltac:(by destruct p, Hf) (body_token m (Z.to_nat (p_used p)) 0 (length d1) 0 0 NONE ltac:(lia) ltac:(lia)) ltac:(done)).
  fold block.
  set (p1 := stream_from 0 block (loaded d1 p)).
  destruct (ends_same (S (2 * length d1)) m (Z.to_nat (p_used p)) (length d1) 0 0 NONE block p1 d2) as (p' & -> & Hbt); [|done|lia|].
  { rewrite Hl in Hin. by destruct p. }
  exists p'. split; [done|]. by apply (between_expecting (d1 ++ d2) d2 p p1 p1 p' d1).
Qed.


(** ** Entities at which the proxy hangs *)

(** At the end of the input, the loop for the end of the last chunk does not
    leave its place. *)
Lemma skip_trailer_hangs fuel m b e s tok tl ty :
  m !! (b + e)%nat = Some EOF → skip_trailer fuel (mk_lexer m b e e s NONE tok tl ty) = Fault OutOfFuel.
Proof.
  intros Hm. assert (b + e < length m)%nat by (by apply lookup_lt_Some in Hm).
  revert s tok tl ty. induction fuel as [|fuel IH]; intros s tok tl ty; [done|]. cbn [skip_trailer mode mem buf processed end_ state token toklen tokenType].
  destruct (header_eof m b e e NONE (b + e) 0 LWS) as (lx & Hlx & Hty & Htl & Hmem); [by left|done|lia|].
  assert (lx = mk_lexer m b e e HEADER NONE (b + e) 0 BUFEND) as ->.
  { assert (lexes 1 (mk_lexer m b e e HEADER NONE (b + e) 0 LWS) (mk_lexer m b e e HEADER NONE (b + e) 0 BUFEND, 0)) as H2
      by (by apply (lexes_return _ EOF)).
    specialize (Hlx 0%nat). rewrite (H2 0%nat) in Hlx. by injection Hlx. }
  unfold mode. cbn [mem buf processed end_ state token toklen tokenType].
  assert (getNextToken (mk_lexer m b e e LINE NONE tok tl ty) = Done (mk_lexer m b e e HEADER NONE (b + e) 0 BUFEND, 0)) as ->.
  { apply (getNextToken_lexes 2); [|lia]. by apply (line_to_header _ _ _ _ _ _ _ _ EOF). }
  cbn [mbind outcome_bind tokenType]. change (0 =? -1) with false. change (BUFEND =? CRLF) with false. cbv iota. apply IH.
Qed.

Definition endless_size : list Z := chars "fffffff4".

End responses.

(** ** Examples *)

(** A response at the beginning of its entity, in an empty buffer. *)
Definition example_response (etype s len : Z) : response :=
  mk_response (replicate (Z.to_nat 8193) 0) ENTITY_FETCH s NONE 0 0 0 1
    (mk_rhead ENTITY_INCOMPLETE 1 1 200 None [] None (-1) (-1) 0 (-1) 0 0 None None None len) (-1) 0 etype [] 0 0.

Lemma example_fetching etype s len : fetching etype s (example_response etype s len).
Proof.
  split; [done..| |by apply Forall_nil]. cbn [p_mem example_response]. rewrite length_replicate. by rewrite Z2Nat.id.
Qed.




(** ** Where the network cuts *)

Definition allocated : response :=
  mk_response (replicate (Z.to_nat 8193) 0) 0 0 0 0 0 0 0 (mk_rhead 0 0 0 0 None [] None 0 0 0 0 0 0 None None None 0) 0 0 0 [] 0 0.

Definition outcome_of (pieces : list (list Z)) : option (Z * list Z) :=
  match read_response (λ _, 0) pieces (initHTTPResponse 0 allocated) with
  | Done p => Some (r_status (p_head p), sent p)
  | Fault _ => None
  end.

(** The pieces in which the network delivers a response matter: one whose
    lines are cut in two places is never understood, because the bytes that are
    read again are counted twice; the digits of a size that are read again are
    handed on twice; and a cut before the line end of a chunk loses the place. *)
Theorem cuts_matter :
  let head := chars "HTTP/1.1 200 OK" ++ crlf in
  let plain := [head ++ chars "Cont"; chars "ent-Le"; chars "ngth: 2" ++ crlf ++ crlf ++ chars "ab"] in
  let chunked := head ++ chars "Transfer-Encoding: chunked" ++ crlf ++ crlf in
  let part := chars "1" ++ crlf ++ chars "a" in
  let last := chars "1" ++ crlf ++ chars "b" ++ crlf ++ last_chunk in
  outcome_of [mjoin plain] = Some (ENTITY_COMPLETE, chars "ab") ∧
  outcome_of plain = Some (COME_BACK, []) ∧
  outcome_of [chunked ++ part ++ crlf ++ last] = Some (ENTITY_COMPLETE, part ++ crlf ++ last) ∧
  outcome_of [chunked ++ part ++ crlf ++ chars "1"; drop 1 last] = Some (ENTITY_COMPLETE, part ++ crlf ++ chars "1" ++ last) ∧
  outcome_of [chunked ++ part; crlf ++ last] ≠ Some (ENTITY_COMPLETE, part ++ crlf ++ last).
Proof. vm_compute. done. Qed.
