(* ===== verification/HcPolicy.v ===== *)
(** * HashCache: locators, and what may be served from the cache

    [parseURL], [checkCachability], [checkExpiry], [checkIfAcceptsCached] and
    [checkCompatibility] in [src/HashCache/src/http.c].  The time of the day is
    an argument. *)

From Stdlib Require Import ZArith Lia Ascii String.
From stdpp Require Import base list option numbers gmap sets.
From S2P Require Import Prelude HcLexer HcRequest HcHead HcResponse.

#[local] Coercion chars : string >-> list.

(** ** Locators *)

Definition NO_HTTP : Z := 110.
Definition GOOD_INFO : Z := 103.

Record URLInfo := mk_URLInfo {
  server : option (list Z);
  port : Z;
  absPath : option nat;
  info_status : Z
}.

Fixpoint strlen (cs : list Z) : outcome nat :=
  match cs with
  | [] => Fault OutOfBounds
  | c :: cs => if c =? 0 then Done 0%nat else n ← strlen cs; Done (S n)
  end.

(** [strncpy] fills the rest with zeros. *)
Fixpoint strncpy (n : nat) (cs : list Z) : outcome (list Z) :=
  match n, cs with
  | O, _ => Done []
  | S n, [] => Fault OutOfBounds
  | S n, c :: cs => if c =? 0 then Done (replicate (S n) 0) else r ← strncpy n cs; Done (c :: r)
  end.

(** The loop for the end of the name of the server; the condition on [i] comes
    last. *)
Fixpoint server_end (fuel : nat) (m : list Z) (p len i : nat) : outcome nat :=
  match fuel with
  | O => Fault OutOfFuel
  | S fuel =>
      c ← get m (p + i);
      if negb (c =? 47) && negb (c =? 58) && (i <=? len)%nat then server_end fuel m p len (S i) else Done i
  end.

(** [strtol] with the place where it stops. *)
Fixpoint digits_end (cs : list Z) (acc : Z) (n : nat) : outcome (Z * nat) :=
  match cs with
  | [] => Fault OutOfBounds
  | c :: cs => if isdigit c then digits_end cs (10 * acc + (c - 48)) (S n) else Done (acc, n)
  end.

Fixpoint strtol (cs : list Z) (n : nat) : outcome (Z * nat) :=
  let number k cs f := '(v, e) ← digits_end cs 0 0; Done (clamp (f v), if (e =? 0)%nat then 0%nat else (n + k + e)%nat) in
  match cs with
  | [] => Fault OutOfBounds
  | c :: cs' =>
      if isspace c then strtol cs' (S n)
      else if c =? 45 then number 1%nat cs' Z.opp
      else if c =? 43 then number 1%nat cs' id
      else number 0%nat cs id
  end.

Definition parseURL (m : list Z) (p : nat) (info : URLInfo) : outcome (URLInfo * Z) :=
  http ← starts_with m p (chars "http://");
  if negb http then Done (mk_URLInfo (server info) (port info) (absPath info) NO_HTTP, -1)
  else
    len ← strlen (drop p m);
    i ← server_end (S (S len)) m p len 7;
    let info := if (i =? len)%nat then mk_URLInfo (server info) 80 None (info_status info) else info in
    name ← strncpy (i - 7) (drop (p + 7) m);
    let info := mk_URLInfo (Some (name ++ [0])) (port info) (absPath info) (info_status info) in
    c ← get m (p + i);
    if c =? 58 then
      '(n, e) ← strtol (drop (p + S i) m) 0;
      if n <=? 0 then Done (info, -1)
      else
        d ← get m (p + S i + e);
        Done (mk_URLInfo (server info) n (if d =? 47 then Some (p + S i + e)%nat else None) GOOD_INFO, 0)
    else
      Done (mk_URLInfo (server info) 80 (if c =? 47 then Some (p + i)%nat else None) GOOD_INFO, 0).

(** ** Policy *)

(** The fields of a response that the checks use. *)
Record cached := mk_cached {
  c_method : Z;
  c_URL_length : Z;
  c_head : response_head
}.

Definition URL_SIZE : Z := 100.

(** Whether the response becomes [cacheable]. *)
Definition checkCachability (c : cached) : bool :=
  let h := c_head c in
  if c_method c =? WAPROX_PUT then true
  else if URL_SIZE - 1 <? c_URL_length c then false
  else if negb (r_con_len h <? 1000000) then false
  else if negb (one_of (r_code h) [200; 203; 206; 300; 301]) then false
  else
    match r_cc h with
    | None => true
    | Some cc =>
        if (cr_private cc =? PRESENT) || (cr_no_cache cc =? PRESENT) || (cr_no_store cc =? PRESENT) then false
        else if cr_public cc =? PRESENT then true
        else if negb (cr_max_age cc =? -1) then true
        else if negb (cr_s_maxage cc =? -1) then true
        else (cr_must_revalidate cc =? PRESENT) || (cr_proxy_revalidate cc =? PRESENT)
    end.

(** The age that both of the checks compute. *)
Definition current_age (now : Z) (h : response_head) : Z :=
  let apparent_age := Z.max 0 (i32 (r_response_time h - r_date h)) in
  let corrected_received_age := Z.max apparent_age (r_age h) in
  let response_delay := i32 (r_response_time h - r_request_time h) in
  let corrected_initial_age := i32 (corrected_received_age + response_delay) in
  let resident_time := i32 (now - r_response_time h) in
  i32 (corrected_initial_age + resident_time).

(** The lifetime that the headers give, or the one of a response without. *)
Definition stated_lifetime (h : response_head) (otherwise : Z) : Z :=
  match r_cc h with
  | Some cc =>
      if negb (cr_max_age cc =? -1) then cr_max_age cc
      else if negb (r_expires h =? -1) then i32 (r_expires h - r_date h) else otherwise
  | None => if negb (r_expires h =? -1) then i32 (r_expires h - r_date h) else otherwise
  end.

(** The head, with its new age, and whether the response may be used. *)
Definition checkExpiry (now : Z) (h : response_head) : response_head * Z :=
  let age := current_age now h in
  let lifetime := stated_lifetime h (-1) in
  let lifetime := if (lifetime <=? 0) && negb (r_last_modified h =? -1) then i32 (now - r_last_modified h) else lifetime in
  (rset_age age h,
   if (lifetime <=? 0) && (r_last_modified h =? -1) then 0
   else if age <? lifetime then 0 else -1).

Definition checkIfAcceptsCached (cc : option cache_control_request) : Z :=
  match cc with
  | None => 0
  | Some cc =>
      if no_cache cc =? PRESENT then -1
      else if max_stale cc =? 0 then 0
      else if only_if_cached cc =? 0 then 0
      else if no_store cc =? PRESENT then -1
      else 0
  end.

Definition checkCompatibility (now : Z) (cc : option cache_control_request) (h : response_head) : Z :=
  let age := current_age now h in
  if match cc with Some cc => negb (max_age cc =? -1) && (age <=? max_age cc) | None => false end then 0
  else
    let lifetime := stated_lifetime h 0 in
    let lifetime := if lifetime <=? 0 then Z.quot (i32 (now - r_last_modified h)) 10 else lifetime in
    if match cc with Some cc => negb (min_fresh cc =? -1) && (i32 (age + min_fresh cc) <=? lifetime) | None => false end then 0
    else if match cc with Some cc => lifetime <=? i32 (age + max_stale cc) | None => false end then 0
    else if lifetime <=? age then 0
    else 0.

(** A cached response is used for a request ([joinFlow], and the match that
    follows in the loop). *)
Definition may_serve (now : Z) (cc : option cache_control_request) (h : response_head) : bool :=
  negb (checkIfAcceptsCached cc =? -1) && negb ((checkExpiry now h).2 =? -1) &&
  negb (checkCompatibility now cc (checkExpiry now h).1 =? -1).

(** ** Locators are read as they are written *)

Definition host_char (c : Z) : Prop := c ≠ 0 ∧ c ≠ 47 ∧ c ≠ 58.
#[export] Instance host_char_dec c : Decision (host_char c).
Proof. unfold host_char. apply _. Defined.

(** A locator with its path, and with its port if it has one. *)
Definition url_text (host : list Z) (o : option (list Z)) (path : list Z) : list Z :=
  chars "http://" ++ host ++ match o with Some ds => 58 :: ds | None => [] end ++ 47 :: path.

Definition port_of (o : option (list Z)) : Z := match o with Some ds => un_decimal ds | None => 80 end.
Definition path_at (host : list Z) (o : option (list Z)) : nat :=
  (7 + length host + match o with Some ds => S (length ds) | None => 0 end)%nat.

Definition valid_port (o : option (list Z)) : Prop := match o with Some ds => number_text ds ∧ 0 < un_decimal ds | None => True end.

Lemma strlen_text m p cs : text_at m p (cs ++ [0]) → Forall (.≠ 0) cs → strlen (drop p m) = Done (length cs).
Proof.
  intros Ht Hc. rewrite (text_at_drop _ _ _ Ht), <- app_assoc. cbn [app]. clear Ht.
  generalize (drop (p + length (cs ++ [0])) m). intros rest. induction Hc as [|c cs Hc _ IH]; [done|]. cbn [app strlen length]. rewrite eqb_ne by done. by rewrite IH.
Qed.

Lemma strncpy_text m p cs : text_at m p cs → Forall (.≠ 0) cs → strncpy (length cs) (drop p m) = Done cs.
Proof.
  intros Ht Hc. rewrite (text_at_drop _ _ _ Ht). clear Ht.
  generalize (drop (p + length cs) m). intros rest. induction Hc as [|c cs Hc _ IH]; [by destruct rest|]. cbn [app strncpy length]. rewrite eqb_ne by done. by rewrite IH.
Qed.

(** The loop runs over the name of the server. *)
Lemma server_end_text fuel m p len i host c :
  text_at m (p + i) (host ++ [c]) → Forall host_char host → (i + length host ≤ len)%nat → c = 47 ∨ c = 58 →
  (length host < fuel)%nat → server_end fuel m p len i = Done (i + length host)%nat.
Proof.
  intros Ht Hh. revert i fuel Ht. induction Hh as [|x host (Hx0 & Hx1 & Hx2) _ IH]; intros i fuel Ht Hlen Hc Hfuel;
    (destruct fuel as [|fuel]; [cbn in Hfuel; lia|]); cbn [length] in *; apply text_at_cons in Ht as [H0 Ht];
    cbn [server_end]; rewrite (proj2 (get_Done _ _ _) H0); cbn [mbind outcome_bind].
  - rewrite Nat.add_0_r. by destruct Hc as [-> | ->].
  - rewrite !eqb_ne by done. rewrite (proj2 (Nat.leb_le _ _)) by lia. cbn [negb andb].
    rewrite IH; [f_equal; lia|by rewrite Nat.add_succ_r|lia|done|lia].
Qed.

Lemma digits_end_text ds x rest acc n :
  Forall (λ c, isdigit c = true) ds → isdigit x = false →
  digits_end (ds ++ x :: rest) acc n = Done (foldl (λ a c, 10 * a + (c - 48)) acc ds, (n + length ds)%nat).
Proof.
  intros Hd Hx. revert acc n. induction Hd as [|c ds Hc _ IH]; intros acc n; cbn [app digits_end foldl length].
  - by rewrite Hx, Nat.add_0_r.
  - rewrite Hc, IH. do 2 f_equal. lia.
Qed.

Lemma strtol_text m p ds x :
  number_text ds → isdigit x = false → text_at m p (ds ++ [x]) → strtol (drop p m) 0 = Done (un_decimal ds, length ds).
Proof.
  intros [Hn Hd] Hx Ht. rewrite (text_at_drop _ _ _ Ht), <- app_assoc. cbn [app].
  destruct ds as [|c ds]; [done|]. rewrite <- app_comm_cons. cbn [strtol].
  pose proof (Forall_cons_1 _ _ _ Hd) as [Hc _]. unfold isdigit in Hc. apply andb_true_iff in Hc as [H1%Z.leb_le H2%Z.leb_le].
  unfold isspace. rewrite (eqb_ne c 32), (eqb_ne c 45), (eqb_ne c 43) by lia.
  replace (c <=? 13) with false by (symmetry; apply Z.leb_gt; lia). rewrite andb_false_r. cbn [orb].
  rewrite app_comm_cons, digits_end_text by done. done.
Qed.

Lemma parseURL_text m p host o path info :
  text_at m p (url_text host o path ++ [0]) → Forall host_char host → Forall (.≠ 0) path → valid_port o →
  parseURL m p info = Done (mk_URLInfo (Some (host ++ [0])) (port_of o) (Some (p + path_at host o)%nat) GOOD_INFO, 0).
Proof.
  intros Ht Hh Hpath Ho. assert (Forall (.≠ 0) host) as Hh0 by (eapply Forall_impl; [exact Hh|by intros ? (? & _)]).
  assert (Forall (.≠ 0) (url_text host o path)) as Hz.
  { unfold url_text. apply Forall_app. split; [by apply (bool_decide_unpack _)|]. apply Forall_app. split; [done|].
    apply Forall_app. split; [|by apply Forall_cons]. destruct o as [ds|]; [|done]. apply Forall_cons. split; [done|].
    destruct Ho as [[_ Hd] _]. eapply Forall_impl; [exact Hd|]. by intros c Hc ->. }
  unfold parseURL. rewrite (strlen_text _ _ _ Ht Hz). unfold url_text in Ht. rewrite <- !app_assoc in Ht.
  apply text_at_app in Ht as [Ht1 Ht]. change (length (chars "http://")) with 7%nat in Ht.
  rewrite (starts_with_text _ _ _ _ Ht1) by done. rewrite bool_decide_true by done. cbn [mbind outcome_bind negb].
  assert (∃ c rest, match o with Some ds => 58 :: ds | None => [] end ++ (47 :: path) ++ [0] = c :: rest ∧ (c = 47 ∨ c = 58)) as (c & rest & Heq & Hc).
  { destruct o; eexists _, _; (split; [done|]); [by right|by left]. }
  pose proof Ht as Hth. rewrite Heq in Hth. change (c :: rest) with ([c] ++ rest) in Hth. rewrite app_assoc in Hth.
  apply text_at_app in Hth as [Hth _]. apply text_at_app in Ht as [Hhost Ht].
  set (len := length (url_text host o path)).
  assert (7 + length host < len)%nat as Hlen by (unfold len, url_text; rewrite !length_app; destruct o; cbn; lia).
  rewrite (server_end_text _ _ _ _ _ host c) by (done || lia). cbn [mbind outcome_bind].
  rewrite (proj2 (Nat.eqb_neq _ _)) by lia. replace (7 + length host - 7)%nat with (length host) by lia.
  rewrite strncpy_text by done. cbn [mbind outcome_bind]. rewrite <- Nat.add_assoc in Ht. unfold path_at, port_of.
  destruct o as [ds|]; cbn [app] in Ht; apply text_at_cons in Ht as [H0 Ht]; rewrite (proj2 (get_Done _ _ _) H0); cbn [mbind outcome_bind].
  - change (58 =? 58) with true. cbv iota. rewrite <- Nat.add_succ_r in Ht. destruct Ho as [Hds Hpos].
    rewrite (strtol_text _ _ ds 47); [|done|done|].
    2: { change (47 :: path ++ [0]) with ([47] ++ path ++ [0]) in Ht. rewrite app_assoc in Ht. by apply text_at_app in Ht as [? _]. }
    cbn [mbind outcome_bind]. rewrite (proj2 (Z.leb_gt _ _)) by done.
    apply text_at_app in Ht as [_ [H1 _]%text_at_cons]. rewrite (proj2 (get_Done _ _ _) H1). cbn [mbind outcome_bind].
    change (47 =? 47) with true.
    by replace (p + (7 + length host + S (length ds)))%nat with (p + S (7 + length host) + length ds)%nat by lia.
  - change (47 =? 58) with false. change (47 =? 47) with true. cbv iota.
    by replace (p + (7 + length host + 0))%nat with (p + (7 + length host))%nat by lia.
Qed.

(** Where the path is. *)
Lemma url_path_at m u host o path :
  text_at m u (url_text host o path ++ [0]) → text_at m (u + path_at host o) ((47 :: path) ++ [0]).
Proof.
  unfold url_text, path_at. rewrite <- !app_assoc. intros [_ [_ Hu]%text_at_app]%text_at_app. apply text_at_app in Hu as [_ Hu].
  change (length (chars "http://")) with 7%nat in Hu.
  assert (∀ a b cs, a = b → text_at m a cs → text_at m b cs) as Hmove by (by intros ? ? ? ->).
  eapply Hmove; [|exact Hu]. destruct o; cbn; lia.
Qed.

(** From the bytes of a request, whatever pieces they come in, to the server,
    the port and the path that it asks for. *)
Theorem request_is_located mktime pieces mname M host o path vname v fs q0 info :
  (mname, M) ∈ methods → M ∈ [GET; HEAD] → (vname, v) ∈ versions → valid_url (url_text host o path) → Forall valid_field fs →
  Forall (.≠ []) pieces → mjoin pieces = head_text mname (url_text host o path) vname fs →
  (length (mjoin pieces) ≤ SMALL_BUFF_SIZE)%nat → length (rq_mem q0) = S SMALL_BUFF_SIZE →
  Forall host_char host → Forall (.≠ 0) path → valid_port o →
  ∃ q u, receive_request mktime pieces (initHTTPRequest q0) = Done q ∧ URL (rq_head q) = Some u ∧
    parseURL (rq_mem q) u info = Done (mk_URLInfo (Some (host ++ [0])) (port_of o) (Some (u + path_at host o)%nat) GOOD_INFO, 0) ∧
    text_at (rq_mem q) (u + path_at host o) ((47 :: path) ++ [0]).
Proof.
  intros Hm Hget Hv Hurl Hfs Hne Htext Hlen Hmem Hhost Hpath Hport.
  destruct (request_head_read mktime pieces mname M _ vname v fs q0 Hm Hget Hv Hurl Hfs Hne Htext Hlen Hmem) as (q & Hrun & Hhead & Hu & _).
  exists q, (length mname + 1)%nat. split; [done|]. split; [|split].
  - rewrite Hhead. transitivity (URL (effects (length (request_line mname (url_text host o path) vname) + 2) fs
      (line_effect M v (length mname + 1) (rq_head (initHTTPRequest q0))))); [by destruct (effects _ _ _)|by rewrite effects_URL].
  - by apply (parseURL_text _ _ _ _ path).
  - by apply (url_path_at _ _ host).
Qed.

Lemma request_is_located_witness :
  let q0 := mk_request (replicate 4096 0) 0 0 0 0 0 0 0 (mk_head 0 0 None 0 0 [] None 0 None None None None 0 0 0) 0 0 0 in
  ∃ q u, receive_request (λ _, 0) [chars "GET http://a:8"; chars "0/b HTTP/1.0" ++ crlf ++ crlf] (initHTTPRequest q0) = Done q ∧
    URL (rq_head q) = Some u ∧
    parseURL (rq_mem q) u (mk_URLInfo None 0 None 0) = Done (mk_URLInfo (Some (chars "a" ++ [0])) 80 (Some (u + 11)%nat) GOOD_INFO, 0) ∧
    text_at (rq_mem q) (u + 11) ((47 :: chars "b") ++ [0]).
Proof.
  intros q0. apply (request_is_located _ _ (chars "GET") GET (chars "a") (Some (chars "80")) (chars "b") (chars "HTTP/1.0") (1, 0) []);
    [by apply (bool_decide_unpack _)|by apply (bool_decide_unpack _)|by apply (bool_decide_unpack _)|by apply (bool_decide_unpack _)|by apply Forall_nil|by apply (bool_decide_unpack _)|done|by apply (bool_decide_unpack _)|apply length_replicate|by apply (bool_decide_unpack _)|by apply (bool_decide_unpack _)|].
  split; [split; [done|by apply (bool_decide_unpack _)]|done].
Defined.

(** Without a path, the character after the terminator decides. *)
Lemma server_end_none fuel m p len i host x :
  text_at m (p + i) (host ++ [0; x]) → Forall host_char host → (i + length host = len)%nat →
  (length host + 1 < fuel)%nat → server_end fuel m p len i = Done (S len).
Proof.
  intros Ht Hh. revert i fuel Ht. induction Hh as [|y host (Hx0 & Hx1 & Hx2) _ IH]; intros i fuel Ht Hlen Hfuel;
    (destruct fuel as [|fuel]; [cbn in Hfuel; lia|]); cbn [length app] in *; apply text_at_cons in Ht as [H0 Ht];
    cbn [server_end]; rewrite (proj2 (get_Done _ _ _) H0); cbn [mbind outcome_bind].
  - change (0 =? 47) with false. change (0 =? 58) with false. rewrite (proj2 (Nat.leb_le _ _)) by lia. cbn [negb andb].
    destruct fuel as [|fuel]; [lia|]. cbn [server_end]. apply text_at_cons in Ht as [H1 _]. rewrite Nat.add_succ_r.
    rewrite (proj2 (get_Done _ _ _) H1). cbn [mbind outcome_bind]. rewrite (proj2 (Nat.leb_gt _ _)) by lia.
    rewrite andb_false_r. do 2 f_equal. lia.
  - rewrite !eqb_ne by done. rewrite (proj2 (Nat.leb_le _ _)) by lia. cbn [negb andb].
    apply IH; [by rewrite Nat.add_succ_r|lia|lia].
Qed.

(** ** What is served from the cache *)

Lemma checkCompatibility_accepts now cc h : checkCompatibility now cc h = 0.
Proof. unfold checkCompatibility. repeat case_match; reflexivity. Qed.

(** The conditions on the request that count. *)
Definition accepts_cached (cc : option cache_control_request) : Prop :=
  match cc with
  | None => True
  | Some cc => no_cache cc ≠ PRESENT ∧ (no_store cc = PRESENT → max_stale cc = 0 ∨ only_if_cached cc = 0)
  end.

Lemma checkIfAcceptsCached_spec cc : checkIfAcceptsCached cc ≠ -1 ↔ accepts_cached cc.
Proof.
  destruct cc as [[nc ns ma ms mf nt oc]|]; cbn; [|done].
  destruct (Z.eqb_spec nc PRESENT); [split; [done|tauto]|]. destruct (Z.eqb_spec ms 0); [split; [|done]; auto|].
  destruct (Z.eqb_spec oc 0); [split; [|done]; auto|]. destruct (Z.eqb_spec ns PRESENT); split; try done; try tauto.
Qed.

(** Times within seventeen years of each other, for which nothing overflows; of
    those that a response may lack, -1 says that it does. *)
Definition near (base t : Z) : Prop := base ≤ t < base + 2 ^ 29.
Record near_times (base now : Z) (h : response_head) : Prop := {
  nt_base : 0 ≤ base ≤ 2 ^ 31 - 2 ^ 29;
  nt_now : near base now;
  nt_date : near base (r_date h);
  nt_response : near base (r_response_time h);
  nt_request : near base (r_request_time h);
  nt_age : -1 ≤ r_age h < 2 ^ 29;
  nt_expires : r_expires h = -1 ∨ near base (r_expires h);
  nt_modified : r_last_modified h = -1 ∨ near base (r_last_modified h)
}.

(** The age of RFC 2616, in the way in which the delay is counted. *)
Definition age_of (now : Z) (h : response_head) : Z :=
  Z.max (Z.max 0 (r_response_time h - r_date h)) (r_age h) + (now - r_request_time h).

(** The lifetime that the header gives; 0, or less, when it gives none. *)
Definition lifetime_of (h : response_head) : Z :=
  match r_cc h with
  | Some cc =>
      if decide (cr_max_age cc = -1) then if decide (r_expires h = -1) then -1 else r_expires h - r_date h else cr_max_age cc
  | None => if decide (r_expires h = -1) then -1 else r_expires h - r_date h
  end.

Lemma current_age_of base now h : near_times base now h → current_age now h = age_of now h.
Proof.
  intros [? [] [] [] [] ? _ _]. unfold current_age, age_of.
  rewrite (i32_id (r_response_time h - r_date h)) by lia. rewrite (i32_id (r_response_time h - r_request_time h)) by lia.
  rewrite (i32_id (now - r_response_time h)) by lia.
  rewrite (i32_id (Z.max _ _ + _)) by lia. rewrite i32_id by lia. lia.
Qed.

Lemma stated_lifetime_of base now h : near_times base now h → stated_lifetime h (-1) = lifetime_of h.
Proof.
  intros [? _ [] _ _ _ Hex _]. unfold stated_lifetime, lifetime_of, near in *.
  destruct (r_cc h) as [cc|].
  - destruct (Z.eqb_spec (cr_max_age cc) (-1)); [rewrite decide_True by done|by rewrite decide_False].
    destruct (Z.eqb_spec (r_expires h) (-1)); [by rewrite decide_True|rewrite decide_False by done]. cbn [negb]. apply i32_id. lia.
  - destruct (Z.eqb_spec (r_expires h) (-1)); [by rewrite decide_True|rewrite decide_False by done]. cbn [negb]. apply i32_id. lia.
Qed.



(** A response that is to be stored for no time at all is stored, and served
    for ever. *)
Lemma max_age_zero_is_served now cc h c r :
  c_head c = h → c_method c ≠ WAPROX_PUT → c_URL_length c ≤ 99 → r_con_len h < 1000000 → r_code h = 200 →
  r_cc h = Some r → cr_private r = ABSENT → cr_no_cache r = ABSENT → cr_no_store r = ABSENT → cr_max_age r = 0 →
  r_last_modified h = -1 → accepts_cached cc → checkCachability c = true ∧ may_serve now cc h = true.
Proof.
  intros Hc Hm Hu Hlen Hcode Hr H1 H2 H3 H4 Hlm Hacc. split.
  - unfold checkCachability. rewrite Hc, Hcode, Hr, H1, H2, H3, H4. rewrite (eqb_ne _ _ Hm).
    rewrite (proj2 (Z.ltb_ge _ _)) by (unfold URL_SIZE; lia). rewrite (proj2 (Z.ltb_lt _ _)) by done. cbn. by destruct (cr_public r =? PRESENT).
  - unfold may_serve. rewrite checkCompatibility_accepts, (proj2 (Z.eqb_neq _ _) (proj2 (checkIfAcceptsCached_spec cc) Hacc)).
    unfold checkExpiry, stated_lifetime. rewrite Hr, H4, Hlm. done.
Qed.
