(* ===== verification/HcForward.v ===== *)
(** * HashCache: the heads that the proxy writes

    [hdrCpy], [formRequestLine], [formSendRequestHeader], [formResponseLine],
    [formSendHeader], [formWriteHeader] and [checkHeaderLen] in
    [src/HashCache/src/proxy.c].  The text is put together in [genBuffer], of
    which the first [genBufferLen] characters are modelled; what is written
    beyond its end faults.  [sprintf], [gmtime] and [asctime] are those of the C
    library; the time of the day is an argument. *)

From Stdlib Require Import ZArith Lia Ascii String.
From stdpp Require Import base list option numbers gmap sets.
From S2P Require Import Prelude HcLexer HcRequest HcHead HcResponse HcPolicy.

#[local] Coercion chars : string >-> list.

(** ** The buffer *)

(** [char genBuffer[ 20000 ]] *)
Definition GEN_BUFFER_SIZE : Z := 20000.

Definition gen_room (n : Z) (g : list Z) : bool := Z.of_nat (length g) + n <? GEN_BUFFER_SIZE.

(** [sprintf] at the end of what is there, with its final 0. *)
Definition emit (text g : list Z) : outcome (list Z) :=
  if gen_room (Z.of_nat (length text)) g then Done (g ++ text) else Fault OutOfBounds.

(** [%d] and [%ld]; a number has 20 digits at most. *)
Fixpoint put_digits (fuel : nat) (n : Z) (acc : list Z) : list Z :=
  match fuel with
  | O => acc
  | S fuel => if n <? 10 then 48 + n :: acc else put_digits fuel (n / 10) (48 + n mod 10 :: acc)
  end.
Definition put_number (n : Z) : list Z := if n <? 0 then 45 :: put_digits 20 (- n) [] else put_digits 20 n [].

(** [%s] *)
Definition put_string (cs : list Z) : outcome (list Z) := n ← strlen cs; Done (take n cs).

(** ** Times *)

(** [gmtime]: the date of a number of days after 1970, counted in years that
    begin in March, and the time of the day. *)
Definition civil (days : Z) : Z * Z * Z :=
  let z := days + 719468 in
  let era := z / 146097 in
  let doe := z mod 146097 in
  let yoe := (doe - doe / 1460 + doe / 36524 - doe / 146096) / 365 in
  let doy := doe - (365 * yoe + yoe / 4 - yoe / 100) in
  let mp := (5 * doy + 2) / 153 in
  let m := if mp <? 10 then mp + 2 else mp - 10 in
  (yoe + era * 400 + (if m <=? 1 then 1 else 0), m, doy - (153 * mp + 2) / 5 + 1).

Definition gmtime (t : Z) : tm * Z :=
  let '(y, m, d) := civil (t / 86400) in
  let s := t mod 86400 in
  (mk_tm d m (y - 1900) (s / 3600) (s / 60 mod 60) (s mod 60), (t / 86400 + 4) mod 7).

Definition day_names : list (list Z) := chars <$> ["Sun"; "Mon"; "Tue"; "Wed"; "Thu"; "Fri"; "Sat"]%string.
Definition month_names : list (list Z) :=
  chars <$> ["Jan"; "Feb"; "Mar"; "Apr"; "May"; "Jun"; "Jul"; "Aug"; "Sep"; "Oct"; "Nov"; "Dec"]%string.

Definition name_of (names : list (list Z)) (n : Z) : list Z := default (chars "???") (names !! Z.to_nat n).
Definition two_digits (n : Z) : list Z := [48 + n / 10; 48 + n mod 10].

(** [asctime], without the newline that its callers replace:
    "%.3s %.3s%3d %.2d:%.2d:%.2d %d". *)
Definition asctime (x : tm * Z) : list Z :=
  let '(t, wday) := x in
  name_of day_names wday ++ SPACE :: name_of month_names (tm_mon t) ++
  SPACE :: (if tm_mday t <? 10 then [SPACE; 48 + tm_mday t] else two_digits (tm_mday t)) ++
  SPACE :: two_digits (tm_hour t) ++ COLON :: two_digits (tm_min t) ++ COLON :: two_digits (tm_sec t) ++
  SPACE :: put_number (tm_year t + 1900).

Definition date_text (t : Z) : list Z := asctime (gmtime t).

(** ** Copying a header *)

(** [hdrCpy], of a header at the beginning of [src] to the end of [g]: what is
    copied, and -1 when there is too much of it.  A line that is continued is
    copied with the lines that continue it. *)
Fixpoint hdrCpy (fuel : nat) (src : list Z) (i : nat) (g : list Z) (copied : list Z) : outcome (list Z * Z) :=
  match fuel with
  | O => Fault OutOfFuel
  | S fuel =>
      if negb (gen_room (Z.of_nat i) g) then Fault OutOfBounds else
      c ← get src i;
      if negb (c =? CRETURN) then
        if 3000 <? Z.of_nat i then Done (copied ++ [c], -1) else hdrCpy fuel src (S i) g (copied ++ [c])
      else
        d ← get src (i + 1);
        if negb (d =? LFEED) then hdrCpy fuel src (S i) g (copied ++ [c])
        else
          e ← get src (i + 2);
          if (e =? SPACE) || (e =? TAB) then
            if gen_room (Z.of_nat (i + 2)) g then hdrCpy fuel src (i + 3) g (copied ++ [c; d; e]) else Fault OutOfBounds
          else Done (copied, Z.of_nat i)
  end.

(** [genBufferLen += hdrCpy( ... )], also when the result is -1. *)
Definition copy_header (m : list Z) (p : nat) (g : list Z) : outcome (list Z) :=
  '(copied, n) ← hdrCpy (S (length m)) (drop p m) 0 g [];
  Done (if n =? -1 then take (length g - 1) g else g ++ copied).

(** A header and the end of its line. *)
Definition copy_line (m : list Z) (g : list Z) (p : nat) : outcome (list Z) := g ← copy_header m p g; emit crlf g.

(** ** Requests *)

(** A request as it is sent to a server: [info] and [dnsInfo] with it, and
    [connType]. *)
Record sending := mk_sending {
  s_request : request;
  s_info : URLInfo;
  s_connType : Z;
  s_presentHost : Z * Z * Z * Z
}.

Definition NEWCONN : Z := 110.
Definition OLDCONN : Z := 111.

Definition inet_ntoa (a : Z * Z * Z * Z) : list Z :=
  let '(a, b, c, d) := a in put_number a ++ 46 :: put_number b ++ 46 :: put_number c ++ 46 :: put_number d.

Definition formRequestLine (x : sending) : outcome (list Z) :=
  g ← (if s_connType x =? NEWCONN then
         emit (chars "X-WaproxTarget: " ++ inet_ntoa (s_presentHost x) ++ COLON :: put_number (port (s_info x)) ++ crlf) []
       else Done []);
  path ← (match absPath (s_info x) with Some p => put_string (drop p (rq_mem (s_request x))) | None => Done (chars "/") end);
  emit (chars (if method (rq_head (s_request x)) =? GET then "GET"%string else "POST"%string) ++ SPACE :: path ++ SPACE :: chars "HTTP/1.0" ++ crlf) g.

(** Writes a header when there is something to write. *)
Definition emit_if (b : bool) (text g : list Z) : outcome (list Z) := if b then emit text g else Done g.

(** [rcc] and [last_modified] are of the response that is asked for: they are
    set when a copy of it is in the cache. *)
Definition formSendRequestHeader (x : sending) (rcc : option cache_control_response) (last_modified : Z) : outcome (list Z) :=
  let h := rq_head (s_request x) in
  g ← formRequestLine x;
  g ← emit (chars "Connection: Keep-Alive" ++ crlf) g;
  g ← emit_if (0 <=? con_len h) (chars "Content-Length: " ++ put_number (con_len h) ++ crlf) g;
  g ← emit_if (0 <? if_mod_since_value h) (chars "If-Modified-Since: " ++ date_text (if_mod_since_value h) ++ crlf) g;
  g ← emit_if (0 <? if_unmod_since_value h) (chars "If-Unmodified-Since: " ++ date_text (if_unmod_since_value h) ++ crlf) g;
  g ← emit_if match rcc with
              | Some c => ((cr_must_revalidate c =? PRESENT) || (cr_proxy_revalidate c =? PRESENT)) && (0 <? last_modified)
              | None => false
              end (chars "If-Modified-Since: " ++ date_text last_modified ++ crlf) g;
  g ← foldM (copy_line (rq_mem (s_request x))) g (headers h);
  g ← emit_if match cc h with Some c => no_cache c =? PRESENT | None => false end (chars "Cache-Control: no-cache" ++ crlf) g;
  emit crlf g.

(** ** Responses *)

(** A response as it is sent to a client or written to the log: [method] is that
    of its request.  [redir_location] and [warning], which no header function
    of the table sets, are left out. *)
Definition formResponseLine (M : Z) (p : response) : outcome (list Z) :=
  let h := p_head p in
  message ← (match r_message h with Some a => put_string (drop a (p_mem p)) | None => Fault OutOfBounds end);
  if M =? WAPROX_GET then
    emit (chars "HTTP/" ++ put_number (r_majVersion h) ++ 46 :: put_number (r_minVersion h) ++ SPACE :: put_number (r_code h) ++
      SPACE :: message ++ crlf) []
  else emit (chars "HTTP/1.0 " ++ put_number (r_code h) ++ SPACE :: message ++ crlf) [].

(** The directives with the comma after each, of which the last is taken back. *)
Definition directive_list (c : cache_control_response) : list Z :=
  (if cr_private c =? PRESENT then chars "private," else []) ++
  (if cr_public c =? PRESENT then chars "public," else []) ++
  (if 0 <? cr_max_age c then chars "max-age=" ++ put_number (cr_max_age c) ++ [COMMA] else []) ++
  (if 0 <? cr_s_maxage c then chars "s-maxage=" ++ put_number (cr_s_maxage c) ++ [COMMA] else []) ++
  (if cr_no_cache c =? PRESENT then chars "no-cache," else []) ++
  (if cr_no_store c =? PRESENT then chars "no-store," else []) ++
  (if cr_no_transform c =? PRESENT then chars "no-transform," else []) ++
  (if cr_must_revalidate c =? PRESENT then chars "must-revalidate," else []) ++
  (if cr_proxy_revalidate c =? PRESENT then chars "proxy-revalidate," else []).

Definition take_back (n : nat) (g : list Z) : list Z := take (length g - n) g.

Definition emit_cache_control (c : option cache_control_response) (g : list Z) : outcome (list Z) :=
  match c with
  | None => Done g
  | Some c => g ← emit (chars "Cache-Control: " ++ directive_list c) g; emit crlf (take_back 1 g)
  end.

(** Here a header of which there is too much leaves an empty line. *)
Definition copy_response_line (m : list Z) (g : list Z) (a : nat) : outcome (list Z) :=
  '(copied, n) ← hdrCpy (S (length m)) (drop a m) 0 g [];
  emit crlf (if n <? 0 then g else g ++ copied).

Definition formSendHeader (now M : Z) (p : response) : outcome (list Z) :=
  let h := p_head p in
  g ← formResponseLine M p;
  if M =? WAPROX_GET then
    g ← emit_if (0 <=? r_con_len h) (chars "Content-Length: " ++ put_number (r_con_len h) ++ crlf) g;
    emit crlf g
  else
    g ← emit_if (0 <? r_age h) (chars "Age: " ++ put_number (r_age h) ++ crlf) g;
    g ← emit (if p_etype p =? CONN then chars "Connection: close" ++ crlf
              else chars "Content-Length: " ++ put_number (r_con_len h) ++ crlf) g;
    g ← emit_cache_control (r_cc h) g;
    g ← emit_if ((M =? WAPROX_PUT) && (0 <=? r_con_len h)) (chars "Content-Length: " ++ put_number (r_con_len h) ++ crlf) g;
    g ← emit (chars "Date: " ++ date_text now ++ chars " GMT" ++ crlf) g;
    g ← emit_if (0 <? r_expires h) (chars "Expires: " ++ date_text (r_expires h) ++ chars " GMT" ++ crlf) g;
    g ← emit_if (0 <? r_last_modified h) (chars "Last-Modified: " ++ date_text (r_last_modified h) ++ chars " GMT" ++ crlf) g;
    g ← emit_if (bool_decide (r_te h ≠ None)) (chars "Transfer-Encoding: chunked" ++ crlf) g;
    g ← foldM (copy_response_line (p_mem p)) g (r_headers h);
    emit crlf g.

(** What is written in front of an object in the log. *)
Definition formWriteHeader (now M : Z) (p : response) : outcome (list Z) :=
  let h := p_head p in
  g ← formSendHeader now M p;
  g ← emit (chars "Response-Time: " ++ put_number (r_response_time h) ++ crlf) (take_back 2 g);
  g ← emit (chars "Request-Time: " ++ put_number (r_request_time h) ++ crlf) g;
  emit crlf g.

Definition checkHeaderLen (now M : Z) (p : response) : outcome (list Z * Z) :=
  g ← formWriteHeader now M p; Done (g, if 3000 <? Z.of_nat (length g) then -1 else 0).

(** ** Numbers *)

Lemma put_digits_value fuel n acc :
  0 ≤ n < 10 ^ Z.of_nat fuel → (0 < fuel)%nat →
  ∃ ds, put_digits fuel n acc = ds ++ acc ∧ number_text ds ∧ foldl (λ a c, 10 * a + (c - 48)) 0 ds = n.
Proof.
  revert n acc. induction fuel as [|fuel IH]; intros n acc Hn Hf; [lia|]. cbn [put_digits].
  destruct (Z.ltb_spec n 10) as [Hlt|Hge].
  - exists [48 + n]. split; [done|]. split; [|cbn; lia]. split; [done|]. apply Forall_singleton. unfold isdigit. lia.
  - destruct (IH (n / 10) (48 + n mod 10 :: acc)) as (ds & -> & [Hne Hds] & Hv).
    + split; [apply Z.div_pos; lia|]. apply Z.div_lt_upper_bound; [lia|].
      rewrite <- Z.pow_succ_r, <- Nat2Z.inj_succ by lia. apply Hn.
    + destruct fuel; [cbn in Hn; lia|lia].
    + exists (ds ++ [48 + n mod 10]). rewrite <- app_assoc. pose proof (Z.mod_pos_bound n 10). split; [done|]. split.
      * split; [by destruct ds|]. apply Forall_app. split; [done|]. apply Forall_singleton. unfold isdigit. lia.
      * rewrite foldl_app, Hv. cbn. pose proof (Z.div_mod n 10). lia.
Qed.

(** A number that an [int] holds is read as it is written. *)
Lemma put_number_text n : 0 ≤ n < 2 ^ 31 → number_text (put_number n) ∧ un_decimal (put_number n) = n.
Proof.
  intros Hn. unfold put_number. rewrite (proj2 (Z.ltb_ge _ _)) by lia.
  destruct (put_digits_value 20 n []) as (ds & -> & Hds & Hv); [lia..|]. rewrite app_nil_r. split; [done|].
  unfold un_decimal, clamp. rewrite Hv. lia.
Qed.

(** ** Copies *)

Lemma emit_ok text g : Z.of_nat (length g + length text) < GEN_BUFFER_SIZE → emit text g = Done (g ++ text).
Proof. intros H. unfold emit, gen_room. by rewrite (proj2 (Z.ltb_lt _ _)) by lia. Qed.

Lemma put_string_text m p cs : text_at m p (cs ++ [0]) → Forall (.≠ 0) cs → put_string (drop p m) = Done cs.
Proof.
  intros Ht Hz. unfold put_string. rewrite (strlen_text _ _ _ Ht Hz). cbn [mbind outcome_bind]. f_equal.
  by apply text_at_app in Ht as [Ht%text_at_take _].
Qed.

Lemma hdrCpy_line src line : ∀ fuel i g copied d,
  text_at src i (line ++ [CRETURN; LFEED; d]) → Forall (.≠ CRETURN) line → d ≠ SPACE → d ≠ TAB →
  (i + length line ≤ 3001)%nat → Z.of_nat (length g + i + length line) < GEN_BUFFER_SIZE → (length line < fuel)%nat →
  hdrCpy fuel src i g copied = Done (copied ++ line, Z.of_nat (i + length line)).
Proof.
  induction line as [|c line IH]; intros fuel i g copied d Ht Hc Hd1 Hd2 Hlen Hroom Hfuel; (destruct fuel as [|fuel]; [cbn in Hfuel; lia|]);
    cbn [length hdrCpy app] in *; apply text_at_cons in Ht as [H0 Ht]; unfold gen_room at 1; rewrite (proj2 (Z.ltb_lt _ _)) by lia;
    cbn [negb]; rewrite (proj2 (get_Done _ _ _) H0); cbn [mbind outcome_bind].
  - change (CRETURN =? CRETURN) with true. cbn [negb]. apply text_at_cons in Ht as [H1 [H2 _]%text_at_cons].
    replace (i + 1)%nat with (S i) by lia. rewrite (proj2 (get_Done _ _ _) H1). cbn [mbind outcome_bind].
    change (LFEED =? LFEED) with true. cbn [negb]. replace (i + 2)%nat with (S (S i)) by lia.
    rewrite (proj2 (get_Done _ _ _) H2). cbn [mbind outcome_bind]. rewrite !eqb_ne by done. cbn [orb].
    by rewrite app_nil_r, Nat.add_0_r.
  - apply Forall_cons_1 in Hc as [Hc Hcs]. rewrite eqb_ne by done. cbn [negb]. rewrite (proj2 (Z.ltb_ge _ _)) by lia.
    rewrite (IH _ _ _ _ d) by (done || lia). rewrite <- app_assoc. do 2 f_equal. lia.
Qed.

Lemma text_at_shift m p cs : text_at m p cs → text_at (drop p m) 0 cs.
Proof. intros H i c Hi. rewrite lookup_drop. by apply H. Qed.

Lemma copy_line_ok m g p line d :
  text_at m p (line ++ [CRETURN; LFEED; d]) → Forall line_char line → d ≠ SPACE → d ≠ TAB →
  (length line ≤ 3000)%nat → Z.of_nat (length g + length line + 2) < GEN_BUFFER_SIZE →
  copy_line m g p = Done (g ++ line ++ crlf).
Proof.
  intros Ht Hl Hd1 Hd2 Hlen Hroom. unfold copy_line, copy_header.
  assert (p + length line < length m)%nat as Hin.
  { apply text_at_app in Ht as [_ [Ht _]%text_at_cons]. apply lookup_lt_Some in Ht. done. }
  rewrite (hdrCpy_line _ line _ _ _ _ d); [|by apply text_at_shift|by eapply Forall_impl; [exact Hl|]; intros ? (? & _)|done..|lia|lia|lia].
  cbn [mbind outcome_bind]. rewrite eqb_ne by lia. cbn [app]. rewrite emit_ok.
  - by rewrite <- app_assoc.
  - rewrite length_app. cbn. lia.
Qed.

(** ** The headers that are kept *)

Definition is_kept (f : field) : bool := match f with Kept _ _ => true | _ => false end.

(** Where they are, among fields whose lines begin at [p]. *)
Fixpoint kept_at (p : nat) (fs : list field) : list nat :=
  match fs with
  | [] => []
  | f :: fs => (if is_kept f then [p] else []) ++ kept_at (p + length (field_text f) + 2) fs
  end.

Lemma effects_headers p fs h : headers (effects p fs h) = headers h ++ kept_at p fs.
Proof.
  revert p h. induction fs as [|f fs IH]; intros p h; cbn [effects kept_at]; [by rewrite app_nil_r|].
  rewrite IH, app_assoc. f_equal. destruct f, h; cbn; by rewrite ?app_nil_r.
Qed.

Lemma next_begins p fs m : readables p fs m → text_at m (p + length (lines fs)) crlf → begins p m.
Proof.
  destruct fs as [|f fs]; cbn [readables]; [|by intros [[? _] _]]. intros _ Ht. cbn in Ht. rewrite Nat.add_0_r in Ht.
  apply text_at_cons in Ht as [Ht _]. by exists CRETURN.
Qed.

Lemma copied_lines m fs p g :
  Forall valid_field fs → readables p fs m → text_at m (p + length (lines fs)) crlf →
  Forall (λ f, (length (field_text f) ≤ 3000)%nat) fs → Z.of_nat (length g + length (lines fs)) < GEN_BUFFER_SIZE →
  foldM (copy_line m) g (kept_at p fs) = Done (g ++ lines (filter is_kept fs)).
Proof.
  intros Hfs. revert p g. induction Hfs as [|f fs Hf Hfs IH]; intros p g Hr Hend Hlen Hroom.
  { cbn. by rewrite app_nil_r. }
  apply Forall_cons_1 in Hlen as [Hl Hlen]. rewrite length_lines_cons in Hend. cbn [readables kept_at] in *.
  rewrite lines_cons, !length_app in Hroom. cbn [crlf length] in Hroom. destruct Hr as [[_ Hr] Hrs].
  destruct (next_begins _ _ _ Hrs Hend) as (d & Hd & Hd1 & Hd2).
  assert (is_kept f = false ∨ is_kept f = true) as [Hk|Hk] by (by destruct f; [right|left..]); rewrite Hk.
  - rewrite filter_cons, decide_False by (rewrite Hk; tauto). cbn [app]. apply IH; [done..|lia].
  - rewrite filter_cons, decide_True by (by rewrite Hk). cbn [app foldM].
    rewrite (copy_line_ok _ _ _ (field_text f) d); [|  |by apply field_line|done..|lia].
    + cbn [mbind outcome_bind]. rewrite IH; [|done..|rewrite !length_app; cbn; lia].
      by rewrite lines_cons, <- !app_assoc.
    + destruct f; try done. cbn [readable] in Hr.
      change [CRETURN; LFEED; d] with (crlf ++ [d]). rewrite app_assoc. apply text_at_app. split; [done|].
      rewrite length_app, Nat.add_assoc. apply text_at_cons. split; [done|apply text_at_nil].
Qed.

(** ** A request is forwarded *)

Definition asks_afresh (c : option cache_control_request) : bool :=
  match c with Some c => no_cache c =? PRESENT | None => false end.

(** The line in front of the first request of a connection, for the proxy at
    the near end. *)
Definition target_line (x : sending) : list Z :=
  if s_connType x =? NEWCONN then
    chars "X-WaproxTarget: " ++ inet_ntoa (s_presentHost x) ++ COLON :: put_number (port (s_info x)) ++ crlf
  else [].

(** The fields of the request that is sent for one with the fields [fs]. *)
Definition forwarded (h : head) (fs : list field) : list field :=
  Connection (chars "Keep-Alive") :: (if 0 <=? con_len h then [ContentLength (put_number (con_len h))] else []) ++
  filter is_kept fs ++ (if asks_afresh (cc h) then [CacheControl NoCache []] else []).

Definition sent_method (M : Z) : list Z := chars (if M =? GET then "GET"%string else "POST"%string).

Lemma length_put_digits fuel n acc : (length (put_digits fuel n acc) ≤ fuel + length acc)%nat.
Proof.
  revert n acc. induction fuel as [|fuel IH]; intros n acc; cbn; [lia|]. case_match; cbn; [lia|]. rewrite IH. cbn. lia.
Qed.
Lemma length_put_number n : (length (put_number n) ≤ 21)%nat.
Proof.
  pose proof (length_put_digits 20 n []). pose proof (length_put_digits 20 (- n) []). unfold put_number.
  cbn [length] in *. case_match; cbn [length]; lia.
Qed.

Lemma length_lines_kept fs : (length (lines (filter is_kept fs)) ≤ length (lines fs))%nat.
Proof.
  induction fs as [|f fs IH]; [done|]. rewrite filter_cons. case_decide; rewrite !lines_cons, !length_app; lia.
Qed.

Lemma emit_if_ok b text g :
  Z.of_nat (length g + length text) < GEN_BUFFER_SIZE → emit_if b text g = Done (g ++ if b then text else []).
Proof. intros H. destruct b; cbn [emit_if]; [by apply emit_ok|by rewrite app_nil_r]. Qed.

Lemma formRequestLine_ok x p path :
  absPath (s_info x) = Some p → put_string (drop p (rq_mem (s_request x))) = Done path → (length path ≤ 4095)%nat →
  formRequestLine x =
    Done (target_line x ++ request_line (sent_method (method (rq_head (s_request x)))) path (chars "HTTP/1.0") ++ crlf) ∧
  (length (target_line x ++ request_line (sent_method (method (rq_head (s_request x)))) path (chars "HTTP/1.0") ++ crlf) ≤ 4400)%nat.
Proof.
  intros Hp Hs Hlen. unfold formRequestLine. rewrite Hp, Hs.
  assert (length (target_line x) ≤ 200)%nat as Htl.
  { unfold target_line, inet_ntoa. destruct (s_presentHost x) as [[[a b] c] d]. case_match; [|cbn; lia].
    rewrite ?length_app, ?app_comm_cons, ?length_app. cbn [length].
    pose proof (length_put_number a). pose proof (length_put_number b). pose proof (length_put_number c).
    pose proof (length_put_number d). pose proof (length_put_number (port (s_info x))). change (length (chars "X-WaproxTarget: ")) with 16%nat.
    change (length crlf) with 2%nat. repeat (rewrite ?length_app; cbn [length]). lia. }
  assert ((if s_connType x =? NEWCONN
           then emit (chars "X-WaproxTarget: " ++ inet_ntoa (s_presentHost x) ++ COLON :: put_number (port (s_info x)) ++ crlf) []
           else Done []) = Done (target_line x)) as ->.
  { unfold target_line in *. case_match; [|done]. rewrite emit_ok; [done|]. change (length (@nil Z)) with 0%nat. unfold GEN_BUFFER_SIZE. lia. }
  cbn [mbind outcome_bind].
  assert (length (sent_method (method (rq_head (s_request x)))) ≤ 4)%nat as Hm by (unfold sent_method; case_match; cbn; lia).
  unfold request_line. rewrite <- !app_assoc. split.
  - fold (sent_method (method (rq_head (s_request x)))). rewrite emit_ok; [done|].
    repeat (rewrite ?length_app; cbn [length]). change (length (chars "HTTP/1.0")) with 8%nat.
    change (length crlf) with 2%nat. unfold GEN_BUFFER_SIZE. lia.
  - repeat (rewrite ?length_app; cbn [length app]). change (length (chars "HTTP/1.0")) with 8%nat.
    change (length crlf) with 2%nat. lia.
Qed.

Lemma formSendRequestHeader_ok x p path fs at_ lm :
  absPath (s_info x) = Some p → put_string (drop p (rq_mem (s_request x))) = Done path → (length path ≤ 4095)%nat →
  let h := rq_head (s_request x) in
  if_mod_since_value h ≤ 0 → if_unmod_since_value h ≤ 0 → headers h = kept_at at_ fs →
  Forall valid_field fs → readables at_ fs (rq_mem (s_request x)) →
  text_at (rq_mem (s_request x)) (at_ + length (lines fs)) crlf →
  Forall (λ f, (length (field_text f) ≤ 3000)%nat) fs → (length (lines fs) ≤ 4095)%nat →
  formSendRequestHeader x None lm =
    Done (target_line x ++ head_text (sent_method (method h)) path (chars "HTTP/1.0") (forwarded h fs)).
Proof.
  intros Hp Hs Hlen h Hm Hu Hh Hfs Hr Hend Hlines Htotal. unfold formSendRequestHeader. fold h.
  destruct (formRequestLine_ok x p path Hp Hs Hlen) as [-> Hgl]. fold h in Hgl |- *.
  set (g := target_line x ++ request_line (sent_method (method h)) path (chars "HTTP/1.0") ++ crlf) in *.
  pose proof (length_put_number (con_len h)) as Hcl. pose proof (length_lines_kept fs) as Hkl.
  cbn [mbind outcome_bind]. unfold GEN_BUFFER_SIZE in *.
  rewrite emit_ok by (cbn; unfold GEN_BUFFER_SIZE; lia). cbn [mbind outcome_bind].
  rewrite emit_if_ok.
  2: { repeat (rewrite ?length_app; cbn [length]). change (length (chars "Content-Length: ")) with 16%nat.
       change (length (chars "Connection: Keep-Alive")) with 22%nat. change (length crlf) with 2%nat. unfold GEN_BUFFER_SIZE. lia. }
  cbn [mbind outcome_bind]. rewrite (proj2 (Z.ltb_ge _ _) Hm), (proj2 (Z.ltb_ge _ _) Hu). cbn [emit_if mbind outcome_bind].
  set (length_line := if 0 <=? con_len h then _ else _).
  assert (length length_line ≤ 40)%nat as Hll.
  { unfold length_line. case_match; [|cbn; lia]. repeat (rewrite ?length_app; cbn [length]).
    change (length (chars "Content-Length: ")) with 16%nat. change (length crlf) with 2%nat. lia. }
  rewrite Hh, (copied_lines _ fs at_); [|done..|].
  2: { repeat (rewrite ?length_app; cbn [length]). change (length (chars "Connection: Keep-Alive")) with 22%nat.
       change (length crlf) with 2%nat. unfold GEN_BUFFER_SIZE. lia. }
  cbn [mbind outcome_bind].
  set (g2 := (_ ++ lines (filter is_kept fs))).
  assert (Z.of_nat (length g2) ≤ 9000) as Hg2.
  { unfold g2. repeat (rewrite ?length_app; cbn [length]). change (length (chars "Connection: Keep-Alive")) with 22%nat.
    change (length crlf) with 2%nat. lia. }
  rewrite emit_if_ok by (cbn; unfold GEN_BUFFER_SIZE; lia). cbn [mbind outcome_bind].
  rewrite emit_ok.
  2: { rewrite length_app. case_match; cbn; unfold GEN_BUFFER_SIZE; lia. }
  f_equal. unfold g2, g, head_text, forwarded. rewrite <- !app_assoc. do 3 f_equal.
  fold (lines (Connection (chars "Keep-Alive") :: (if 0 <=? con_len h then [ContentLength (put_number (con_len h))] else []) ++
    filter is_kept fs ++ (if asks_afresh (cc h) then [CacheControl NoCache []] else []))).
  rewrite lines_cons, !lines_app, <- !app_assoc.
  change (field_text (Connection (chars "Keep-Alive"))) with (chars "Connection: Keep-Alive").
  do 2 f_equal. f_equal; [|f_equal; f_equal; unfold asks_afresh; by repeat case_match].
  unfold length_line. case_match; [|done].
  rewrite lines_cons. cbn [lines]. by rewrite app_nil_r.
Qed.

Lemma effects_unmod p fs h :
  if_mod_since_value (effects p fs h) = if_mod_since_value h ∧ if_unmod_since_value (effects p fs h) = if_unmod_since_value h.
Proof.
  revert p h. induction fs as [|f fs IH]; intros p h; [done|]. cbn [effects]. destruct (IH (p + length (field_text f) + 2)%nat (effect p f h)) as [-> ->].
  by destruct f, h.
Qed.

Lemma effects_length p fs h : -1 ≤ con_len h < 2 ^ 31 → Forall valid_field fs → -1 ≤ con_len (effects p fs h) < 2 ^ 31.
Proof.
  intros Hh Hfs. revert p h Hh. induction Hfs as [|f fs Hf _ IH]; intros p h Hh; [done|]. cbn [effects]. apply IH.
  destruct f; try (by destruct h). cbn. replace (con_len (set_con_len (un_decimal ds) h)) with (un_decimal ds) by (by destruct h).
  destruct Hf as [_ Hd]. unfold un_decimal, clamp.
  assert (∀ a, 0 ≤ a → 0 ≤ foldl (λ a c, 10 * a + (c - 48)) a ds) as Hpos.
  { induction Hd as [|c ds Hc _ IHd]; intros a Ha; [done|]. cbn. apply IHd. unfold isdigit in Hc. lia. }
  specialize (Hpos 0). lia.
Qed.

(** Headers that are kept tell nothing else. *)
Lemma effects_kept p fs h :
  con_len (effects p (filter is_kept fs) h) = con_len h ∧ cc (effects p (filter is_kept fs) h) = cc h.
Proof.
  revert p h. induction fs as [|f fs IH]; intros p h; [done|]. rewrite filter_cons. case_decide as Hk; [|apply IH].
  cbn [effects]. destruct (IH (p + length (field_text f) + 2)%nat (effect p f h)) as [-> ->]. by destruct f, h.
Qed.

(** What the next reader makes of the fields of a request that was sent on. *)
Lemma effects_forwarded p h0 h fs :
  -1 ≤ con_len h0 < 2 ^ 31 → con_len h = -1 → cc h = None →
  con_len (effects p (forwarded h0 fs) h) = con_len h0 ∧ asks_afresh (cc (effects p (forwarded h0 fs) h)) = asks_afresh (cc h0).
Proof.
  intros Hh0 Hh Hc. unfold forwarded. cbn [effects]. rewrite effects_app.
  set (h1 := effects _ (if 0 <=? con_len h0 then _ else _) _).
  assert (con_len h1 = con_len h0 ∧ cc h1 = None) as [H1 H2].
  { unfold h1. destruct (Z.leb_spec 0 (con_len h0)).
    - destruct (put_number_text (con_len h0)) as [_ Hv]; [lia|]. cbn [effects effect]. rewrite Hv. by destruct h.
    - cbn [effects effect]. destruct h. cbn in *. split; [lia|done]. }
  rewrite effects_app.
  match goal with |- context [effects ?q (filter ?k fs) h1] =>
    pose proof (effects_kept q fs h1) as [H3 H4]; revert H3 H4; generalize (effects q (filter k fs) h1) end.
  intros h2 H3 H4. rewrite H1 in H3. rewrite H2 in H4.
  destruct (asks_afresh (cc h0)); cbn [effects effect].
  - destruct h2. cbn in *. done.
  - rewrite H4. done.
Qed.

Lemma forwarded_valid h fs : -1 ≤ con_len h < 2 ^ 31 → Forall valid_field fs → Forall valid_field (forwarded h fs).
Proof.
  intros Hh Hfs. unfold forwarded. apply Forall_cons. split.
  { split; [by eexists _, _|by apply (bool_decide_unpack _)]. }
  apply Forall_app. split.
  { destruct (Z.leb_spec 0 (con_len h)); [|done]. apply Forall_singleton. apply put_number_text. lia. }
  apply Forall_app. split; [apply Forall_forall; intros f [_ Hf]%list_elem_of_filter; by eapply Forall_forall|]. case_match; [|done]. apply Forall_singleton. by apply Forall_singleton.
Qed.

Lemma head_parts mname host o path vname fs n :
  (length (head_text mname (url_text host o path) vname fs) ≤ n)%nat → (length (47%Z :: path) ≤ n ∧ length (lines fs) ≤ n)%nat.
Proof. unfold head_text, request_line, url_text. fold (lines fs). rewrite !length_app. cbn [length]. lia. Qed.

Lemma path_valid host o path : valid_url (url_text host o path) → valid_url (47 :: path).
Proof. intros [_ [_ [_ [_ H]%Forall_app]%Forall_app]%Forall_app]. by split. Qed.

Lemma con_len_status s h : con_len (set_status s h) = con_len h.
Proof. by destruct h. Qed.
Lemma cc_status s h : cc (set_status s h) = cc h.
Proof. by destruct h. Qed.


