(* ===== verification/HcDate.v ===== *)
(** * HashCache: dates are read as they are written

    The dates that [formSendHeader] writes, with [gmtime] and [asctime], and
    what [parseDate] in [src/HashCache/src/httpHeaders.c] makes of them. *)

From Stdlib Require Import ZArith Lia Ascii String.
From stdpp Require Import base list option numbers gmap sets.
From S2P Require Import Prelude HcLexer HcRequest HcHead HcForward.

#[local] Coercion chars : string >-> list.

(** The month that [months] takes a month for: June and July become January. *)
Definition misread_month (m : Z) : Z := if one_of m [5; 6] then 0 else m.
Definition misread (x : tm) : tm :=
  mk_tm (tm_mday x) (misread_month (tm_mon x)) (tm_year x) (tm_hour x) (tm_min x) (tm_sec x).

(** ** The calendar *)

Lemma civil_range days : 0 ≤ days < 24856 →
  let '(y, m, d) := civil days in 1600 ≤ y ≤ 2401 ∧ 0 ≤ m ≤ 11 ∧ 1 ≤ d ≤ 31.
Proof.
  intros H. unfold civil. set (z := days + 719468). set (doe := z mod 146097).
  assert (0 ≤ doe < 146097) as Hdoe by (apply Z.mod_pos_bound; lia).
  assert (4 ≤ z / 146097 ≤ 5) as Hera by (unfold z; Z.to_euclidean_division_equations; lia).
  set (yoe := (doe - doe / 1460 + doe / 36524 - doe / 146096) / 365).
  assert (0 ≤ yoe < 400 ∧ 0 ≤ doe - (365 * yoe + yoe / 4 - yoe / 100) ≤ 365) as [Hyoe Hdoy].
  { unfold yoe. Z.to_euclidean_division_equations. lia. }
  set (doy := doe - (365 * yoe + yoe / 4 - yoe / 100)) in *. clearbody doy yoe.
  destruct (Z.ltb_spec ((5 * doy + 2) / 153) 10); split_and!; try (case_match; lia);
    Z.to_euclidean_division_equations; lia.
Qed.

(** The fields of a date that a [time_t] of 32 bits can hold. *)
Record in_calendar (x : tm * Z) : Prop := {
  ic_wday : 0 ≤ snd x ≤ 6;
  ic_mday : 1 ≤ tm_mday (fst x) ≤ 31;
  ic_mon : 0 ≤ tm_mon (fst x) ≤ 11;
  ic_year : -300 ≤ tm_year (fst x) ≤ 501;
  ic_hour : 0 ≤ tm_hour (fst x) < 24;
  ic_min : 0 ≤ tm_min (fst x) < 60;
  ic_sec : 0 ≤ tm_sec (fst x) < 60
}.

Lemma gmtime_range t : 0 ≤ t < 2 ^ 31 → in_calendar (gmtime t).
Proof.
  intros Ht. unfold gmtime. pose proof (civil_range (t / 86400)) as Hc. destruct (civil (t / 86400)) as [[y m] d].
  destruct Hc as (Hy & Hm & Hd); [Z.to_euclidean_division_equations; lia|].
  pose proof (Z.mod_pos_bound t 86400). split; cbn; try lia; Z.to_euclidean_division_equations; lia.
Qed.

(** ** Lexing *)

(** A number of two digits. *)
Lemma two_digits_text n : 0 ≤ n < 100 → number_text (two_digits n) ∧ un_decimal (two_digits n) = n.
Proof.
  intros Hn. unfold two_digits. assert (0 ≤ n / 10 < 10 ∧ 0 ≤ n mod 10 < 10 ∧ n = 10 * (n / 10) + n mod 10) as (H1 & H2 & H3).
  { Z.to_euclidean_division_equations. lia. }
  split.
  - split; [done|]. apply Forall_cons. split; [unfold isdigit; lia|]. apply Forall_singleton. unfold isdigit. lia.
  - unfold un_decimal, clamp. cbn. lia.
Qed.

Lemma word_no_space c : word_char c → c ≠ SPACE ∧ c ≠ TAB.
Proof. intros H. split; intros ->; by cbv in H. Qed.

Section lexing.
Abbreviation in_line m p q e := (mk_lexer m p q e INIT NONE).

(** Spaces before a word are one token, and become zeros. *)
Lemma init_two_spaces m b p e tok tl ty d :
  text_at m (b + p) [SPACE; SPACE; d] → word_char d → (S (S p) ≤ e)%nat →
  getNextToken (in_line m b p e tok tl ty) =
    Done (in_line (<[(b + S p)%nat := 0]> (<[(b + p)%nat := 0]> m)) b (S (S p)) e (b + p) 2 SP, 0).
Proof.
  intros Ht Hd He. assert (b + p + 3 ≤ length m)%nat as Hm by (apply text_at_length in Ht; [exact Ht|done]).
  apply text_at_cons in Ht as [H0 [H1 [H2 _]%text_at_cons]%text_at_cons].
  apply (getNextToken_lexes 3); [unfold begin_token; cbn [mem buf processed end_ start state token toklen tokenType]|cbn; lia].
  eapply (lexes_go _ _ _ SPACE); [cbn; lia|exact H0|reflexivity|].
  eapply (lexes_go _ _ _ SPACE); [cbn; lia| |reflexivity|].
  { cbn. rewrite list_lookup_insert_ne by lia. by rewrite Nat.add_succ_r. }
  eapply (lexes_return _ d); [cbn; lia| |].
  { cbn. rewrite !list_lookup_insert_ne by lia. by rewrite !Nat.add_succ_r. }
  unfold word_char in Hd. by rewrite Hd.
Qed.

Lemma eat_space m b p e tok tl ty d :
  text_at m (b + p) [SPACE; d] → word_char d → (S p ≤ e)%nat →
  eat SP None (in_line m b p e tok tl ty) = Done (in_line (<[(b + p)%nat := 0]> m) b (S p) e (b + p) 1 SP, 0).
Proof.
  intros Ht Hd He. destruct (word_no_space d Hd). apply eat_found; [apply (init_space _ _ _ _ _ _ _ d); auto using word_line|done|done].
Qed.

Lemma init_spaces_eaten m b p e tok tl ty d :
  text_at m (b + p) [SPACE; SPACE; d] → word_char d → (S (S p) ≤ e)%nat →
  eat SP None (in_line m b p e tok tl ty) =
    Done (in_line (<[(b + S p)%nat := 0]> (<[(b + p)%nat := 0]> m)) b (S (S p)) e (b + p) 2 SP, 0).
Proof. intros Ht Hd He. apply eat_found; [by apply (init_two_spaces _ _ _ _ _ _ _ d)|done|done]. Qed.

(** No space where one is looked for. *)
Lemma no_space m b p e tok tl ty cs d :
  cs ≠ [] → Forall word_char cs → text_at m (b + p) (cs ++ [d]) → ¬ word_char d → (p + length cs ≤ e)%nat →
  eat SP None (in_line m b p e tok tl ty) = Done (in_line m b p e (b + p) (length cs) TOKEN, -1).
Proof.
  intros Hn Hw Ht Hd He. rewrite (eat_missing _ _ _ _ (init_word _ _ _ _ _ _ _ cs d Hn Hw Ht Hd He)) by done.
  unfold step_back. cbn. by replace (p + length cs - length cs)%nat with p by lia.
Qed.

Lemma eat_mark_colon m b p e tok tl ty :
  text_at m (b + p) [COLON] → (p ≤ e)%nat →
  eat COLON (Some 1%nat) (in_line m b p e tok tl ty) = Done (in_line m b (S p) e (b + p) 1 COLON, 0).
Proof. intros Ht He. apply eat_found; [apply init_mark; [set_solver|done..]|done|by intros n [= <-]]. Qed.

(** ** A date *)

Lemma not_word_space : ¬ word_char SPACE.
Proof. by cbv. Qed.
Lemma not_word_colon : ¬ word_char COLON.
Proof. by cbv. Qed.

Lemma months_name m p mon :
  0 ≤ mon ≤ 11 → text_at m p (name_of month_names mon ++ [SPACE]) → months m p = Done (misread_month mon).
Proof.
  intros Hmon Ht.
  assert (mon ∈ (λ n, Z.of_nat n) <$> seq 0 12) as Hin.
  { apply list_elem_of_fmap. exists (Z.to_nat mon). split; [lia|apply elem_of_seq_iff; lia]. }
  cbn in Hin. repeat (apply elem_of_cons in Hin as [-> |Hin]; [|]); [..|by apply elem_of_nil in Hin].
  all: match type of Ht with text_at _ _ ?l => let l' := eval vm_compute in l in change (text_at m p l') in Ht end;
    pose proof (Ht 0%nat _ eq_refl) as H0; pose proof (Ht 1%nat _ eq_refl) as H1; pose proof (Ht 2%nat _ eq_refl) as H2;
    pose proof (Ht 3%nat _ eq_refl) as H3; rewrite Nat.add_0_r in H0; unfold months, get; rewrite H0;
    cbn [mbind outcome_bind]; rewrite ?H1, ?H2, ?H3; reflexivity.
Qed.

(** What is left of the text after a token. *)
Lemma text_left m p q w rest : text_at m (p + q) (w ++ rest) → text_at m (p + (q + length w)) rest.
Proof. intros [_ H]%text_at_app. by rewrite Nat.add_assoc. Qed.

Lemma text_first m p w d rest : text_at m p (w ++ d :: rest) → text_at m p (w ++ [d]).
Proof. change (d :: rest) with ([d] ++ rest). rewrite app_assoc. by intros [? _]%text_at_app. Qed.

Lemma space_read m p q e tok tl ty d rest :
  text_at m (p + q) (SPACE :: d :: rest) → word_char d → (S q ≤ e)%nat →
  ∃ m', eat SP None (in_line m p q e tok tl ty) = Done (in_line m' p (S q) e (p + q) 1 SP, 0) ∧
    text_at m' (p + S q) (d :: rest) ∧ changed (p + q) 1 m m'.
Proof.
  intros Ht Hd He. exists (<[(p + q)%nat := 0]> m). split_and!.
  - apply (eat_space _ _ _ _ _ _ _ d); [by apply (text_first _ _ [SPACE] d rest)|done..].
  - apply text_at_insert; [|lia]. apply text_at_cons in Ht as [_ Ht]. by rewrite Nat.add_succ_r.
  - apply changed_insert; [apply changed_refl|lia].
Qed.

(** The day of the month, which is padded with a space. *)
Definition day_text (d : Z) : list Z := if d <? 10 then [SPACE; 48 + d] else two_digits d.

Lemma gap_read m p q e tok tl ty mday rest :
  text_at m (p + q) (SPACE :: day_text mday ++ SPACE :: rest) → 1 ≤ mday ≤ 31 → (q + 3 ≤ e)%nat →
  ∃ m' q' tok' tl' ds, eat SP None (in_line m p q e tok tl ty) = Done (in_line m' p q' e tok' tl' SP, 0) ∧
    text_at m' (p + q') (ds ++ SPACE :: rest) ∧ (q' + length ds = q + 3)%nat ∧ number_text ds ∧ un_decimal ds = mday ∧
    changed (p + q) 2 m m'.
Proof.
  intros Ht Hd He. unfold day_text in Ht. destruct (Z.ltb_spec mday 10) as [Hlt|Hge].
  - assert (number_text [48 + mday]) as Hn by (split; [done|]; apply Forall_singleton; unfold isdigit; lia).
    assert (word_char (48 + mday)) as Hw by (apply digit_word; unfold isdigit; lia).
    eexists _, (S (S q)), _, _, [48 + mday]. split_and!; [apply (init_spaces_eaten m p q e tok tl ty (48 + mday)); [|done|lia]| |cbn; lia|done| |].
    + by apply (text_first _ _ [SPACE; SPACE] (48 + mday) (SPACE :: rest)).
    + repeat (apply text_at_insert; [|lia]). apply (text_left _ _ q [SPACE; SPACE]) in Ht. cbn [length] in Ht.
      by replace (q + 2)%nat with (S (S q)) in Ht by lia.
    + unfold un_decimal, clamp. cbn. lia.
    + repeat apply changed_insert; [apply changed_refl|lia..].
  - destruct (two_digits_text mday) as [Hn Hv]; [lia|].
    destruct (space_read m p q e tok tl ty (48 + mday / 10) ((48 + mday mod 10) :: SPACE :: rest)) as (m' & H1 & H2 & H3);
      [done| |lia|].
    { destruct Hn as [_ [Hn0 _]%Forall_cons_1]. by apply digit_word. }
    exists m', (S q), (p + q)%nat, 1%nat, (two_digits mday). split_and!; [done|done|cbn; lia|apply Hn|done|].
    eapply changed_weaken; [exact H3|lia..].
Qed.

Lemma number_read m p q e tok ds x (k : Z → outcome (lexer * option Z * Z)) ty :
  text_at m tok (ds ++ [x]) → number_text ds → isdigit x = false →
  number (in_line m p q e tok (length ds) ty) k = k (un_decimal ds).
Proof. intros Ht Hd Hx. unfold number, token_number. cbn [mem token]. by rewrite (atoi_number _ _ ds x). Qed.

(** The next token is a number. *)
Lemma need_number m p q e tok tl ty ds x rest k :
  text_at m (p + q) (ds ++ x :: rest) → number_text ds → ¬ word_char x → (q + length ds ≤ e)%nat →
  need (in_line m p q e tok tl ty) k = k (in_line m p (q + length ds) e (p + q) (length ds) TOKEN) ∧
  (∀ k', number (in_line m p (q + length ds) e (p + q) (length ds) TOKEN) k' = k' (un_decimal ds)) ∧
  text_at m (p + (q + length ds)) (x :: rest).
Proof.
  intros Ht Hn Hx He. pose proof (text_first _ _ _ _ _ Ht) as Hf. split_and!.
  - unfold need. by rewrite (init_word _ _ _ _ _ _ _ ds x) by (try apply Hn; auto using number_words).
  - intros k'. apply (number_read _ _ _ _ _ _ x); [done|done|]. destruct (isdigit x) eqn:Hd; [|done]. by apply digit_word in Hd.
  - by apply text_left.
Qed.

Lemma colon_read m p q e tok tl ty rest k :
  text_at m (p + q) (COLON :: rest) → (q ≤ e)%nat →
  need_colon (in_line m p q e tok tl ty) k = k (in_line m p (S q) e (p + q) 1 COLON) ∧ text_at m (p + S q) rest.
Proof.
  intros Ht He. split.
  - unfold need_colon. by rewrite eat_mark_colon by (try apply (text_first _ _ [] COLON rest); done).
  - apply text_at_cons in Ht as [_ Ht]. by rewrite Nat.add_succ_r.
Qed.

Lemma clock_read m p q e tok h mi s rest x k :
  text_at m (p + q) (two_digits h ++ COLON :: two_digits mi ++ COLON :: two_digits s ++ x :: rest) → ¬ word_char x →
  tok = (p + q)%nat → 0 ≤ h < 24 → 0 ≤ mi < 60 → 0 ≤ s < 60 → (q + 8 ≤ e)%nat →
  clock (in_line m p (q + 2) e tok 2 TOKEN) k = k (in_line m p (q + 8) e (p + (q + 6)) 2 TOKEN) h mi s ∧
  text_at m (p + (q + 8)) (x :: rest).
Proof.
  intros Ht Hx -> Hh Hmi Hs He. destruct (two_digits_text h) as [Hh1 Hh2]; [lia|].
  destruct (two_digits_text mi) as [Hm1 Hm2]; [lia|]. destruct (two_digits_text s) as [Hs1 Hs2]; [lia|].
  unfold clock. rewrite (number_read _ _ _ _ _ (two_digits h) COLON); [|by apply text_first in Ht|done|done].
  apply text_left in Ht. change (length (two_digits h)) with 2%nat in Ht. rewrite Hh2.
  match goal with |- need_colon _ ?k' = _ ∧ _ => destruct (colon_read m p (q + 2) e (p + q) 2 TOKEN _ k' Ht) as [-> Ht1]; [lia|] end.
  match goal with |- need _ ?k' = _ ∧ _ =>
    destruct (need_number m p (S (q + 2)) e (p + (q + 2)) 1 COLON (two_digits mi) COLON _ k' Ht1) as (-> & Hn & Ht2); [done|apply not_word_colon|cbn; lia|] end.
  rewrite Hn, Hm2. clear Hn. change (length (two_digits mi)) with 2%nat in *.
  match goal with |- need_colon ?lx ?k' = _ ∧ _ => destruct (colon_read m p (S (q + 2) + 2) e (p + S (q + 2)) 2 TOKEN _ k' Ht2) as [-> Ht3]; [lia|] end.
  match goal with |- need _ ?k' = _ ∧ _ =>
    destruct (need_number m p (S (S (q + 2) + 2)) e (p + (S (q + 2) + 2)) 1 COLON (two_digits s) x rest k' Ht3) as (-> & Hn & Ht4); [done|done|cbn; lia|] end.
  rewrite Hn, Hs2. change (length (two_digits s)) with 2%nat in *.
  replace (S (S (q + 2) + 2) + 2)%nat with (q + 8)%nat in * by lia. by replace (p + S (S (q + 2) + 2))%nat with (p + (q + 6))%nat by lia.
Qed.

Lemma spaces_gap m p q e tok tl ty m' q' tok' tl' ty' st k :
  eat SP None (in_line m p q e tok tl ty) = Done (in_line m' p q' e tok' tl' ty', st) →
  spaces (in_line m p q e tok tl ty) k = k (in_line m' p q' e tok' tl' ty').
Proof. intros H. unfold spaces. by rewrite H. Qed.

Lemma day_name_words n : 0 ≤ n ≤ 6 → name_of day_names n ≠ [] ∧ Forall word_char (name_of day_names n) ∧ length (name_of day_names n) = 3%nat.
Proof.
  intros Hn. assert (n ∈ (λ n, Z.of_nat n) <$> seq 0 7) as Hin.
  { apply list_elem_of_fmap. exists (Z.to_nat n). split; [lia|apply elem_of_seq_iff; lia]. }
  cbn in Hin. repeat (apply elem_of_cons in Hin as [-> |Hin]; [|]); [..|by apply elem_of_nil in Hin];
    by apply (bool_decide_unpack _).
Qed.

Lemma month_name_words n : 0 ≤ n ≤ 11 →
  name_of month_names n ≠ [] ∧ Forall word_char (name_of month_names n) ∧ length (name_of month_names n) = 3%nat.
Proof.
  intros Hn. assert (n ∈ (λ n, Z.of_nat n) <$> seq 0 12) as Hin.
  { apply list_elem_of_fmap. exists (Z.to_nat n). split; [lia|apply elem_of_seq_iff; lia]. }
  cbn in Hin. repeat (apply elem_of_cons in Hin as [-> |Hin]; [|]); [..|by apply elem_of_nil in Hin];
    by apply (bool_decide_unpack _).
Qed.

Definition clock_text (t : tm) : list Z := two_digits (tm_hour t) ++ COLON :: two_digits (tm_min t) ++ COLON :: two_digits (tm_sec t).

(** Month, day, time and year, from the token of the month on. *)
Lemma second_format_read mktime m p q e tok x rest :
  in_calendar x → tok = (p + q)%nat →
  text_at m (p + q) (name_of month_names (tm_mon (fst x)) ++ SPACE :: day_text (tm_mday (fst x)) ++ SPACE ::
    clock_text (fst x) ++ SPACE :: put_number (tm_year (fst x) + 1900) ++ SPACE :: rest) →
  (q + 16 + length (put_number (tm_year (fst x) + 1900)) ≤ e)%nat →
  ∃ lx, second_format mktime (in_line m p (q + 3) e tok 3 TOKEN) = Done (lx, Some (mktime (misread (fst x))), 0) ∧
    end_ lx = e ∧ changed (p + q) 16 m (mem lx).
Proof.
  intros Hx -> Ht He. destruct x as [x wday]. destruct Hx as [_ Hd Hm Hy Hh Hmi Hs]. cbn [fst snd] in *.
  destruct (month_name_words (tm_mon x) Hm) as (_ & _ & Hl3). unfold second_format. cbn [mem token].
  rewrite (months_name _ _ (tm_mon x) Hm) by (by apply text_first in Ht). cbn [mbind outcome_bind].
  apply text_left in Ht. rewrite Hl3 in Ht.
  destruct (gap_read m p (q + 3) e (p + q) 3 TOKEN (tm_mday x) (clock_text x ++ SPACE :: put_number (tm_year x + 1900) ++ SPACE :: rest))
    as (m1 & q1 & tok1 & tl1 & ds & Hgap & Ht1 & Hq1 & Hds & Hday & Hch1); [done|lia|lia|].
  rewrite (spaces_gap _ _ _ _ _ _ _ _ _ _ _ _ _ _ Hgap).
  match goal with |- context [need _ ?k'] =>
    destruct (need_number m1 p q1 e tok1 tl1 SP ds SPACE _ k' Ht1) as (-> & Hn & Ht2); [done|apply not_word_space|lia|] end.
  rewrite Hn, Hday. clear Hn. replace (q1 + length ds)%nat with (q + 6)%nat in * by lia.
  destruct (two_digits_text (tm_hour x)) as [Hhd _]; [lia|].
  destruct (space_read m1 p (q + 6) e (p + q1) (length ds) TOKEN (48 + tm_hour x / 10)
      (48 + tm_hour x mod 10 :: COLON :: two_digits (tm_min x) ++ COLON :: two_digits (tm_sec x) ++ SPACE :: put_number (tm_year x + 1900) ++ SPACE :: rest))
    as (m2 & Hsp & Ht3 & Hch2); [| |lia|].
  { unfold clock_text in Ht2. rewrite <- !app_assoc in Ht2. cbn [app] in Ht2. rewrite <- !app_assoc in Ht2. exact Ht2. }
  { destruct Hhd as [_ [Hc _]%Forall_cons_1]. by apply digit_word. }
  rewrite (spaces_gap _ _ _ _ _ _ _ _ _ _ _ _ _ _ Hsp).
  replace (S (q + 6)) with (q + 7)%nat in * by lia.
  match goal with |- context [need _ ?k'] =>
    destruct (need_number m2 p (q + 7) e (p + (q + 6)) 1 SP (two_digits (tm_hour x)) COLON _ k' Ht3) as (-> & _ & _);
      [done|apply not_word_colon|cbn; lia|] end.
  change (length (two_digits (tm_hour x))) with 2%nat.
  match goal with |- context [clock _ ?k'] =>
    destruct (clock_read m2 p (q + 7) e (p + (q + 7)) (tm_hour x) (tm_min x) (tm_sec x) (put_number (tm_year x + 1900) ++ SPACE :: rest) SPACE k' Ht3)
      as [-> Ht4]; [apply not_word_space|lia|done..|lia|] end.
  destruct (put_number_text (tm_year x + 1900)) as [Hyd Hyv]; [lia|].
  destruct (put_number (tm_year x + 1900)) as [|y ys] eqn:Hyear; [by destruct Hyd|].
  replace (q + 7 + 8)%nat with (q + 15)%nat in * by lia.
  destruct (space_read m2 p (q + 15) e (p + (q + 7 + 6)) 2 TOKEN y (ys ++ SPACE :: rest)) as (m3 & Hsp2 & Ht5 & Hch3); [done| |lia|].
  { destruct Hyd as [_ [Hc _]%Forall_cons_1]. by apply digit_word. }
  rewrite (spaces_gap _ _ _ _ _ _ _ _ _ _ _ _ _ _ Hsp2).
  match goal with |- context [need _ ?k'] =>
    destruct (need_number m3 p (S (q + 15)) e (p + (q + 15)) 1 SP (y :: ys) SPACE rest k' Ht5) as (-> & Hn & _);
      [done|apply not_word_space|lia|] end.
  rewrite Hn, Hyv. eexists. split; [|split].
  - unfold misread. replace (tm_year x + 1900 - 1900) with (tm_year x) by lia. by rewrite i32_id by lia.
  - done.
  - cbn [mem]. repeat (eapply changed_trans; [|eapply changed_weaken; [eassumption|lia..]]). apply changed_refl.
Qed.

(** A date is read back, but for its month. *)
Lemma parseDate_read mktime m p q e tok tl ty t rest :
  0 ≤ t < 2 ^ 31 → text_at m (p + q) (date_text t ++ SPACE :: rest) → (q + length (date_text t) ≤ e)%nat →
  ∃ lx, parseDate mktime (in_line m p q e tok tl ty) = Done (lx, Some (mktime (misread (gmtime t).1)), 0) ∧
    end_ lx = e ∧ changed (p + q) (length (date_text t)) m (mem lx).
Proof.
  intros Hr Ht He. apply gmtime_range in Hr. unfold date_text in *. destruct (gmtime t) as [x wday] eqn:Hx. pose proof Hr as [Hw _ Hm _ _ _ _].
  unfold asctime in *. fold (day_text (tm_mday x)) in *. cbn [fst snd] in *.
  destruct (day_name_words wday Hw) as (Hn1 & Hn2 & Hl). destruct (month_name_words (tm_mon x) Hm) as (Hm1 & Hm2 & Hlm).
  repeat (rewrite <- ?app_assoc in Ht; cbn [app] in Ht).
  repeat (rewrite length_app in He; cbn [length] in He). repeat (rewrite length_app; cbn [length]).
  assert (length (day_text (tm_mday x)) = 2%nat) as Hld by (unfold day_text; by case_match).
  change (length (two_digits (tm_hour x))) with 2%nat in *. change (length (two_digits (tm_min x))) with 2%nat in *.
  change (length (two_digits (tm_sec x))) with 2%nat in *. rewrite Hl, Hlm, Hld in *.
  unfold parseDate.
  rewrite (spaces_gap _ _ _ _ _ _ _ m q (p + q) 3%nat TOKEN (-1)).
  2: { rewrite (no_space _ _ _ _ _ _ _ (name_of day_names wday) SPACE); [by rewrite Hl|done|done|by apply text_first in Ht|apply not_word_space|lia]. }
  unfold need at 1. rewrite (init_word _ _ _ _ _ _ _ (name_of day_names wday) SPACE);
    [|done|done|by apply text_first in Ht|apply not_word_space|lia].
  cbn [mbind outcome_bind]. change (0 =? -1) with false. cbv iota. apply text_left in Ht. rewrite Hl in *.
  destruct (name_of month_names (tm_mon x)) as [|c name] eqn:Hname; [done|]. pose proof (Forall_cons_1 _ _ _ Hm2) as [Hc _].
  destruct (word_no_space c Hc). unfold need at 1.
  rewrite (init_space _ _ _ _ _ _ _ c); [|by apply (text_first _ _ [SPACE] c) in Ht|done|done|by apply word_line|lia].
  cbn [mbind outcome_bind tokenType]. change (0 =? -1) with false. change (SP =? COMMA) with false. cbv iota. cbn [mbind outcome_bind].
  set (m1 := <[_ := 0]> m).
  assert (text_at m1 (p + S (q + 3)) (name_of month_names (tm_mon x) ++ SPACE :: day_text (tm_mday x) ++ SPACE ::
    clock_text x ++ SPACE :: put_number (tm_year x + 1900) ++ SPACE :: rest)) as Ht1.
  { rewrite Hname. unfold clock_text. repeat (rewrite <- ?app_assoc; cbn [app]). apply text_at_insert; [|lia].
    apply text_at_cons in Ht as [_ Ht]. rewrite <- Nat.add_succ_r in Ht. exact Ht. }
  unfold need at 1. rewrite (init_word _ _ _ _ _ _ _ (c :: name) SPACE);
    [|done|done|rewrite <- Hname; by apply text_first in Ht1|apply not_word_space|lia].
  cbn [mbind outcome_bind toklen]. change (0 =? -1) with false. rewrite Hlm. change (3 =? 2)%nat with false. change (3 =? 3)%nat with true. cbv iota.
  destruct (second_format_read mktime m1 p (S (q + 3)) e (p + S (q + 3)) (x, wday) rest) as (lx & Hrun & Hend & Hch); [done|done|exact Ht1| |].
  { cbn [fst]. lia. }
  exists lx. split; [exact Hrun|]. split; [done|].
  apply (changed_trans _ _ _ m1); [apply changed_insert; [apply changed_refl|lia]|].
  eapply changed_weaken; [exact Hch|lia|lia].
Qed.
End lexing.
