(* ===== verification/HcStored.v ===== *)
(** * HashCache: the head of a response is read back as it was stored

    The text that [formWriteHeader] puts in front of an object in the log, and
    what [parseResponse] makes of it when the object is read. *)

From Stdlib Require Import ZArith Lia Ascii String.
From stdpp Require Import base list option numbers gmap sets.
From S2P Require Import Prelude HcLexer HcRequest HcHead HcResponse HcBody HcPolicy HcForward HcDate.

#[local] Coercion chars : string >-> list.

(** ** What is stored *)

Inductive rdirective :=
  | Private | Public | RNoCache | RNoStore | RNoTransform | MustRevalidate | ProxyRevalidate
  | RMaxAge (n : Z) | SMaxAge (n : Z).

Inductive numbered := NAge | NLength | NResponseTime | NRequestTime.
Inductive dated := DDate | DExpires | DModified.

Inductive rfield :=
  | RKept (name value : list Z)
  | RNumber (k : numbered) (n : Z)
  | RClose
  | RChunked
  | RDirectives (ds : list rdirective)
  | RDated (k : dated) (t : Z).

Definition rdirective_name (d : rdirective) : list Z :=
  chars match d with
  | Private => "private" | Public => "public" | RNoCache => "no-cache" | RNoStore => "no-store"
  | RNoTransform => "no-transform" | MustRevalidate => "must-revalidate" | ProxyRevalidate => "proxy-revalidate"
  | RMaxAge _ => "max-age" | SMaxAge _ => "s-maxage"
  end%string.

Definition rdirective_text (d : rdirective) : list Z :=
  rdirective_name d ++ match d with RMaxAge n | SMaxAge n => EQUALS :: put_number n | _ => [] end.

(** The directives after the first. *)
Definition more_directives (ds : list rdirective) : list Z := mjoin ((λ d, COMMA :: rdirective_text d) <$> ds).

Definition number_name (k : numbered) : list Z :=
  chars match k with
  | NAge => "Age" | NLength => "Content-Length" | NResponseTime => "Response-Time" | NRequestTime => "Request-Time"
  end%string.
Definition date_name (k : dated) : list Z :=
  chars match k with DDate => "Date" | DExpires => "Expires" | DModified => "Last-Modified" end%string.

Definition rfield_text (f : rfield) : list Z :=
  match f with
  | RKept name value => name ++ [COLON; SPACE] ++ value
  | RNumber k n => number_name k ++ [COLON; SPACE] ++ put_number n
  | RClose => chars "Connection" ++ [COLON; SPACE] ++ chars "close"
  | RChunked => chars "Transfer-Encoding" ++ [COLON; SPACE] ++ chars "chunked"
  | RDirectives ds =>
      chars "Cache-Control" ++ [COLON] ++ match ds with [] => [] | d :: ds => SPACE :: rdirective_text d ++ more_directives ds end
  | RDated k t => date_name k ++ [COLON; SPACE] ++ date_text t ++ SPACE :: chars "GMT"
  end.

Definition rlines (fs : list rfield) : list Z := mjoin ((λ f, rfield_text f ++ crlf) <$> fs).

(** The headers of a response that have a function of their own. *)
Definition rspecial : list Z := [1; 7; 18; 21; 29; 10; 13; 41; 48; 49; 50].

Definition rvalid_directive (d : rdirective) : Prop :=
  match d with RMaxAge n | SMaxAge n => 0 ≤ n < 2 ^ 31 | _ => True end.

Definition rvalid (f : rfield) : Prop :=
  match f with
  | RKept name value =>
      name ≠ [] ∧ Forall word_char name ∧ Forall line_char value ∧ (∀ n, hTab name = Some n → n ∉ rspecial)
  | RNumber _ n => - 2 ^ 31 ≤ n < 2 ^ 31
  | RDirectives ds => Forall rvalid_directive ds
  | RDated _ t => 0 ≤ t < 2 ^ 31
  | _ => True
  end.

(** ** What is read *)

Definition apply_rdirective (c : cache_control_response) (d : rdirective) : cache_control_response :=
  let '(mk_ccr pub priv nc ns nt mr pr ma sm) := c in
  match d with
  | Private => mk_ccr pub PRESENT nc ns nt mr pr ma sm
  | Public => mk_ccr PRESENT priv nc ns nt mr pr ma sm
  | RNoCache => mk_ccr pub priv PRESENT ns nt mr pr ma sm
  | RNoStore => mk_ccr pub priv nc PRESENT nt mr pr ma sm
  | RNoTransform => mk_ccr pub priv nc ns PRESENT mr pr ma sm
  | MustRevalidate => mk_ccr pub priv nc ns nt PRESENT pr ma sm
  | ProxyRevalidate => mk_ccr pub priv nc ns nt mr PRESENT ma sm
  | RMaxAge n => mk_ccr pub priv nc ns nt mr pr n sm
  | SMaxAge n => mk_ccr pub priv nc ns nt mr pr ma n
  end.

Lemma put_number_words n : - 2 ^ 31 ≤ n < 2 ^ 31 → put_number n ≠ [] ∧ Forall word_char (put_number n).
Proof.
  intros Hn. unfold put_number. case_match; [|].
  - destruct (put_digits_value 20 (- n) []) as (ds & -> & Hds & _); [lia..|]. rewrite app_nil_r. split; [done|].
    apply Forall_cons. split; [by cbv|by apply number_words].
  - destruct (put_digits_value 20 n []) as (ds & -> & Hds & _); [lia..|]. rewrite app_nil_r. split; [apply Hds|by apply number_words].
Qed.

Lemma line_chars_of ws : Forall word_char ws → Forall line_char ws.
Proof. intros H. eapply Forall_impl; [exact H|apply word_line]. Qed.

Lemma date_line_chars t : 0 ≤ t < 2 ^ 31 → Forall line_char (date_text t).
Proof.
  intros Ht%gmtime_range. unfold date_text, asctime. destruct (gmtime t) as [x wday]. destruct Ht as [Hw Hd Hm Hy Hh Hmi Hs].
  cbn [fst snd] in *. destruct (day_name_words _ Hw) as (_ & H1 & _). destruct (month_name_words _ Hm) as (_ & H2 & _).
  assert (∀ n, 0 ≤ n < 100 → Forall line_char (two_digits n)) as H2d.
  { intros n [H _]%two_digits_text. by apply line_chars_of, number_words. }
  destruct (put_number_words (tm_year x + 1900)) as [_ H3]; [lia|].
  repeat first [apply Forall_app; split | apply Forall_cons; split]; try (by apply (bool_decide_unpack _));
    try (by apply line_chars_of); try (apply H2d; lia);
    try (apply word_line, digit_word; unfold isdigit; Z.to_euclidean_division_equations; lia).
  case_match; [|apply H2d; lia]. repeat (apply Forall_cons; split); [by apply (bool_decide_unpack _)| |done].
  apply word_line, digit_word. unfold isdigit. lia.
Qed.

Section reading.
Context (mktime : tm → Z).

(** A date comes back with June and July as January. *)
Definition date_back (t : Z) : Z := mktime (misread (gmtime t).1).

Definition reffect (p : nat) (f : rfield) (h : response_head) : response_head :=
  match f with
  | RKept _ _ => radd_header p h
  | RNumber NAge n => rset_age n h
  | RNumber NLength n => rset_con_len n h
  | RNumber NResponseTime n => rset_response_time n h
  | RNumber NRequestTime n => rset_request_time n h
  | RClose => rset_conn (Some (p + 12)%nat) h
  | RChunked => rset_te (Some (p + 19)%nat) h
  | RDirectives ds => rset_cc (Some (foldl apply_rdirective no_response_directives ds)) h
  | RDated DDate t => rset_response_time (date_back t) (rset_date (date_back t) h)
  | RDated DExpires t => rset_expires (date_back t) h
  | RDated DModified t => rset_last_modified (date_back t) h
  end.

Definition rreadable (p : nat) (f : rfield) (m : list Z) : Prop :=
  match f with
  | RKept _ _ => text_at m p (rfield_text f ++ crlf)
  | RClose => text_at m (p + 12) (chars "close")
  | RChunked => text_at m (p + 19) (chars "chunked")
  | _ => True
  end.

Fixpoint reffects (p : nat) (fs : list rfield) (h : response_head) : response_head :=
  match fs with [] => h | f :: fs => reffects (p + length (rfield_text f) + 2) fs (reffect p f h) end.
Fixpoint rreadables (p : nat) (fs : list rfield) (m : list Z) : Prop :=
  match fs with [] => True | f :: fs => rreadable p f m ∧ rreadables (p + length (rfield_text f) + 2) fs m end.

(** ** One header *)

Abbreviation in_line m p q e := (mk_lexer m p q e INIT NONE).

Lemma r_status_set s h : r_status (rset_status s h) = s.
Proof. by destruct h. Qed.
Lemma rset_status_same h : rset_status (r_status h) h = h.
Proof. by destruct h. Qed.
Lemma rset_status_twice s s' h : rset_status s (rset_status s' h) = rset_status s h.
Proof. by destruct h. Qed.
Lemma reffect_status p f s h : reffect p f (rset_status s h) = rset_status s (reffect p f h).
Proof. by destruct f as [| []| | | |[]], h. Qed.
Lemma status_reffect p f h : r_status (reffect p f h) = r_status h.
Proof. by destruct f as [| []| | | |[]], h. Qed.

(** The name of a header, and what is done next. *)
Lemma rparse_name m p e tok tl ty name rest h :
  name ≠ [] → Forall word_char name → text_at m p (name ++ COLON :: rest) → (3 ≤ length rest)%nat → (length name ≤ e)%nat →
  parseResponseHeader mktime (in_line m p 0 e tok tl ty) h =
    if bool_decide (take 3 rest = [SPACE; CRETURN; LFEED])
    then Done (in_line m p (length name) e p (length name) TOKEN, radd_header p h, 0)
    else match hTab name with
         | None => Done (in_line m p (length name) e p (length name) TOKEN, radd_header p h, 0)
         | Some hVal =>
             '(lx, h, st) ← responseHeaderFunctions mktime hVal (in_line m p (length name) e p (length name) TOKEN) h;
             if st =? -1 then Done (lx, rbad h, -1) else Done (lx, h, 0)
         end.
Proof.
  intros Hn Hw Ht Hrest He. pose proof (proj1 (text_at_app _ _ _ _) Ht) as [Htn Htc]. unfold parseResponseHeader.
  rewrite (init_word m p 0 e tok tl ty name COLON Hn Hw); [|by rewrite Nat.add_0_r; apply text_first in Ht|apply not_word_colon|lia].
  cbn [mbind outcome_bind tokenType mem buf processed plus]. change (0 =? -1) with false. change (TOKEN =? TOKEN) with true. cbn [negb].
  rewrite (starts_with_text _ _ _ _ Htc) by (cbn; lia). cbn [mbind outcome_bind]. rewrite Nat.add_0_r.
  replace (bool_decide (take (length [COLON; SPACE; CRETURN; LFEED]) (COLON :: rest) = [COLON; SPACE; CRETURN; LFEED]))
    with (bool_decide (take 3 rest = [SPACE; CRETURN; LFEED]))
    by (apply bool_decide_ext; cbn; split; [by intros ->|by intros [= ->]]).
  case_bool_decide; [done|].
  assert (token_text (in_line m p (length name) e p (length name) TOKEN) = name) as ->.
  { unfold token_text. cbn. by apply text_at_take. }
  destruct (hTab name) as [hVal|] eqn:Htab; [|done].
  apply hTab_range in Htab. by replace ((51 <? hVal) || (hVal <? 0)) with false by lia.
Qed.

Definition rhandled (p n e : nat) (m : list Z) (f : rfield) (h : response_head) (r : outcome (lexer * response_head * Z)) : Prop :=
  ∃ lx s, r = Done (lx, rset_status s (reffect p f h), 0) ∧ (s = r_status h ∨ s = COME_BACK) ∧
    end_ lx = e ∧ changed p n m (mem lx) ∧ rreadable p f (mem lx).

Lemma rkept_function n : n ∉ rspecial → responseHeaderFunctions mktime n = keep_response_header.
Proof.
  intros Hn. unfold rspecial in Hn. unfold responseHeaderFunctions.
  rewrite !not_elem_of_cons in Hn. destruct Hn as (? & ? & ? & ? & ? & ? & ? & ? & ? & ? & ? & _).
  by rewrite !eqb_ne.
Qed.

Lemma rhandle_kept m p e tok tl ty name value d h :
  rvalid (RKept name value) → text_at m p (rfield_text (RKept name value) ++ [CRETURN; LFEED; d]) →
  (length (rfield_text (RKept name value)) + 2 ≤ e)%nat →
  rhandled p (length (rfield_text (RKept name value)) + 2) e m (RKept name value) h
    (parseResponseHeader mktime (in_line m p 0 e tok tl ty) h).
Proof.
  intros (Hn & Hw & _ & Hk) Ht He. cbn [rfield_text] in *. rewrite length_app in He.
  exists (in_line m p (length name) e p (length name) TOKEN), (r_status h). cbn [reffect mem end_].
  assert (rset_status (r_status h) (radd_header p h) = radd_header p h) as -> by (by destruct h).
  split_and!; [|by left|done|apply changed_refl|].
  2: { change [CRETURN; LFEED; d] with (crlf ++ [d]) in Ht. rewrite app_assoc in Ht. by apply text_at_app in Ht as [Ht _]. }
  rewrite <- !app_assoc in Ht. cbn [app] in Ht.
  rewrite (rparse_name _ _ _ _ _ _ name (SPACE :: value ++ [CRETURN; LFEED; d])) by (done || lia || (cbn; rewrite length_app; cbn; lia)).
  case_bool_decide; [done|]. destruct (hTab name) as [hVal|] eqn:Htab; [|done].
  by rewrite (rkept_function _ (Hk _ eq_refl)).
Qed.

(** The headers whose value is a word. *)
Lemma rhandle_word m p e tok tl ty name v d h hVal store :
  name ≠ [] → Forall word_char name → hTab name = Some hVal →
  responseHeaderFunctions mktime hVal = response_value store → v ≠ [] → Forall word_char v →
  text_at m p (name ++ [COLON; SPACE] ++ v ++ [CRETURN; LFEED; d]) → (length name + 2 + length v + 2 ≤ e)%nat →
  let m' := <[(p + S (length name))%nat := 0]> m in
  let lx := in_line m' p (length name + 2 + length v) e (p + (length name + 2)) (length v) TOKEN in
  parseResponseHeader mktime (in_line m p 0 e tok tl ty) h = (h ← store lx h; Done (lx, h, 0)) ∧
  text_at m' (p + (length name + 2)) (v ++ [CRETURN]).
Proof.
  intros Hn Hw Htab Hf Hv Hvw Ht He m' lx. pose proof Ht as Ht0. rewrite <- (Nat.add_0_r p) in Ht0.
  apply (text_left _ p 0 name) in Ht0. cbn [app plus] in Ht0. destruct v as [|c v]; [done|].
  pose proof (Forall_cons_1 _ _ _ Hvw) as [Hc _]. pose proof Ht0 as Ht1.
  apply text_at_cons in Ht1 as [_ Ht1]. rewrite <- Nat.add_succ_r in Ht1.
  assert (text_at m' (p + (length name + 2)) ((c :: v) ++ [CRETURN])) as Hval.
  { apply text_at_cons in Ht1 as [_ Ht1]. rewrite <- Nat.add_succ_r in Ht1. replace (S (S (length name))) with (length name + 2)%nat in Ht1 by lia.
    apply text_at_insert; [|lia]. by apply text_first in Ht1. }
  split; [|done].
  rewrite (rparse_name _ _ _ _ _ _ name (SPACE :: (c :: v) ++ [CRETURN; LFEED; d])) by (done || lia || (cbn; rewrite length_app; cbn; lia)).
  rewrite bool_decide_false by (apply not_empty; [done|by apply words_no_cr|done]).
  rewrite Htab, Hf. unfold response_value. rewrite eat_mark_colon; [|by apply (text_first _ _ []) in Ht0|lia].
  cbn [mbind outcome_bind]. change (0 =? -1) with false. cbv iota.
  rewrite (eat_space _ _ _ _ _ _ _ c); [|by apply (text_first _ _ [SPACE]) in Ht1|done|lia].
  cbn [mbind outcome_bind]. change (0 =? -1) with false. cbv iota. fold m'.
  rewrite (init_word _ _ _ _ _ _ _ (c :: v) CRETURN); [|done|done| |by cbv|lia].
  - cbn [mbind outcome_bind]. change (0 =? -1) with false. cbv iota.
    replace (S (S (length name))) with (length name + 2)%nat by lia. fold lx. by destruct (store lx h).
  - by replace (S (S (length name))) with (length name + 2)%nat by lia.
Qed.

(** [atoi] reads what [%d] writes, negative numbers too. *)
Lemma atoi_put_number m p n x :
  - 2 ^ 31 ≤ n < 2 ^ 31 → isdigit x = false → text_at m p (put_number n ++ [x]) → atoi (drop p m) = Done n.
Proof.
  intros Hn Hx Ht. destruct (Z.leb_spec 0 n) as [Hpos|Hneg].
  - destruct (put_number_text n) as [Hd Hv]; [lia|]. rewrite (atoi_number _ _ _ x Hd Hx Ht). by rewrite Hv.
  - unfold put_number in Ht. rewrite (proj2 (Z.ltb_lt _ _)) in Ht by done.
    destruct (put_digits_value 20 (- n) []) as (ds & Heq & [_ Hds] & Hv); [lia..|]. rewrite Heq, app_nil_r in Ht.
    rewrite (text_at_drop _ _ _ Ht), <- app_assoc. cbn [app atoi]. change (isspace 45) with false. change (45 =? 45) with true. cbv iota.
    rewrite digits_run by done. cbn [mbind outcome_bind]. rewrite Hv. f_equal. unfold clamp. lia.
Qed.

Lemma number_names k : number_name k ≠ [] ∧ Forall word_char (number_name k) ∧
  hTab (number_name k) = Some match k with NAge => 7 | NLength => 13 | NResponseTime => 48 | NRequestTime => 49 end.
Proof. by destruct k; (split; [done|split; [by apply (bool_decide_unpack _)|]]). Qed.

Lemma rhandle_number m p e tok tl ty k n d h :
  rvalid (RNumber k n) → text_at m p (rfield_text (RNumber k n) ++ [CRETURN; LFEED; d]) →
  (length (rfield_text (RNumber k n)) + 2 ≤ e)%nat →
  rhandled p (length (rfield_text (RNumber k n)) + 2) e m (RNumber k n) h
    (parseResponseHeader mktime (in_line m p 0 e tok tl ty) h).
Proof.
  intros Hn Ht He. cbn [rfield_text rvalid] in *. rewrite <- !app_assoc in Ht. rewrite !length_app in He |- *. cbn [length] in *.
  destruct (number_names k) as (H1 & H2 & H3). destruct (put_number_words n Hn) as [H4 H5].
  set (set_n := match k with NAge => rset_age | NLength => rset_con_len | NResponseTime => rset_response_time | NRequestTime => rset_request_time end).
  destruct (rhandle_word m p e tok tl ty (number_name k) (put_number n) d h _ (store_number set_n) H1 H2 H3) as [Hrun Hval];
    [by destruct k|done|done|done|lia|].
  unfold rhandled. rewrite Hrun. unfold store_number, token_number. cbn [mem token]. rewrite (atoi_put_number _ _ n CRETURN) by done.
  cbn [mbind outcome_bind]. eexists _, (r_status h). split; [f_equal; f_equal; f_equal; by destruct k, h|].
  split_and!; [by left|done| |done]. cbn [mem]. apply changed_insert; [apply changed_refl|lia].
Qed.

(** The headers of which the place of the value is kept. *)
Lemma rhandle_place m p e tok tl ty name v hVal (set_p : option nat → response_head → response_head) f d h :
  name ≠ [] → Forall word_char name → hTab name = Some hVal → v ≠ [] → Forall word_char v →
  responseHeaderFunctions mktime hVal = response_value (λ lx h, Done (set_p (Some (token lx)) h)) →
  rfield_text f = name ++ [COLON; SPACE] ++ v → (∀ h, reffect p f h = set_p (Some (p + (length name + 2))%nat) h) →
  (∀ q h, r_status (set_p q h) = r_status h) →
  (∀ m', text_at m' (p + (length name + 2)) v → rreadable p f m') →
  text_at m p (rfield_text f ++ [CRETURN; LFEED; d]) → (length (rfield_text f) + 2 ≤ e)%nat →
  rhandled p (length (rfield_text f) + 2) e m f h (parseResponseHeader mktime (in_line m p 0 e tok tl ty) h).
Proof.
  intros H1 H2 H3 H4 H5 Hf Htext Heff Hst Hread Ht He. rewrite Htext, <- !app_assoc in Ht. rewrite Htext, !length_app in *. cbn [length] in *.
  destruct (rhandle_word m p e tok tl ty name v d h hVal _ H1 H2 H3 Hf H4 H5 Ht) as [Hrun Hval]; [lia|].
  unfold rhandled. rewrite Hrun. cbn [mbind outcome_bind token]. eexists _, (r_status h). split.
  { rewrite Heff. set (h' := set_p _ h). rewrite <- (Hst (Some (p + (length name + 2))%nat) h). fold h'. by rewrite rset_status_same. }
  cbn [mem]. split_and!; [by left|done| |].
  - apply changed_insert; [apply changed_refl|lia].
  - apply Hread. by apply text_at_app in Hval as [? _].
Qed.

Lemma rhandle_date m p e tok tl ty k t d h :
  rvalid (RDated k t) → text_at m p (rfield_text (RDated k t) ++ [CRETURN; LFEED; d]) →
  (length (rfield_text (RDated k t)) + 2 ≤ e)%nat →
  rhandled p (length (rfield_text (RDated k t)) + 2) e m (RDated k t) h
    (parseResponseHeader mktime (in_line m p 0 e tok tl ty) h).
Proof.
  intros Hn Ht He. cbn [rfield_text rvalid] in *. repeat (rewrite <- ?app_assoc in Ht; cbn [app] in Ht).
  repeat (rewrite length_app in He; cbn [length] in He). repeat (rewrite length_app; cbn [length]).
  change (length (chars "GMT")) with 3%nat in *.
  set (hVal := match k with DDate => 18 | DExpires => 21 | DModified => 29 end).
  assert (date_name k ≠ [] ∧ Forall word_char (date_name k) ∧ hTab (date_name k) = Some hVal) as (H1 & H2 & H3).
  { by destruct k; (split; [done|split; [by apply (bool_decide_unpack _)|]]). }
  assert (∃ c cs, date_text t = c :: cs ∧ word_char c) as (c & cs & Hdt & Hc).
  { apply gmtime_range in Hn as [Hw _ _ _ _ _ _]. unfold date_text, asctime. destruct (gmtime t) as [x wday]. cbn [snd] in Hw.
    destruct (day_name_words wday Hw) as (Hne & Hws & _). destruct (name_of day_names wday) as [|c cs]; [done|].
    apply Forall_cons_1 in Hws as [Hc _]. by eexists _, _. }
  pose proof Ht as Ht0. rewrite <- (Nat.add_0_r p) in Ht0. apply (text_left _ p 0) in Ht0. cbn [plus] in Ht0.
  unfold rhandled.
  rewrite (rparse_name _ _ _ _ _ _ (date_name k) (SPACE :: date_text t ++ SPACE :: chars "GMT" ++ [CRETURN; LFEED; d]));
    [|done|done|done|cbn; rewrite length_app; cbn; lia|lia].
  rewrite bool_decide_false by (rewrite Hdt; cbn; intros [= -> _]; by cbv in Hc).
  rewrite H3.
  assert (∃ k', responseHeaderFunctions mktime hVal = response_date mktime k' ∧
    ∀ lx h t', k' lx h (Some t') 0 = Done (lx, match k with DDate => rset_response_time t' (rset_date t' h)
      | DExpires => rset_expires t' h | DModified => rset_last_modified t' h end, 0)) as (k' & -> & Hk').
  { destruct k; (eexists; split; [reflexivity|]); intros lx h0 t'; cbn; by destruct h0. }
  unfold response_date.
  rewrite eat_mark_colon; [|by apply (text_first _ _ []) in Ht0|lia].
  cbn [mbind outcome_bind]. change (0 =? -1) with false. cbv iota.
  apply text_at_cons in Ht0 as [_ Ht0]. rewrite <- Nat.add_succ_r in Ht0. rewrite Hdt in Ht0.
  destruct (space_read m p (S (length (date_name k))) e (p + length (date_name k)) 1 COLON c (cs ++ SPACE :: chars "GMT" ++ [CRETURN; LFEED; d]) Ht0 Hc)
    as (m1 & Hsp & Ht1 & Hch1); [lia|].
  rewrite Hsp. cbn [mbind outcome_bind]. change (0 =? -1) with false. cbv iota. rewrite app_comm_cons, <- Hdt in Ht1.
  destruct (parseDate_read mktime m1 p (S (S (length (date_name k)))) e (p + S (length (date_name k))) 1 SP t _ Hn Ht1) as (lx & Hrun & Hend & Hch2); [lia|].
  rewrite Hrun. cbn [mbind outcome_bind]. rewrite Hk'. cbn [mbind outcome_bind]. change (0 =? -1) with false. cbv iota.
  exists lx, (r_status h). split; [f_equal; f_equal; f_equal; by destruct k, h|]. split_and!; [by left|done| |done].
  eapply changed_trans; eapply changed_weaken; [exact Hch1|lia|lia|exact Hch2|lia|lia].
Qed.

(** ** Cache-Control *)

Definition rdirective_number (d : rdirective) : Z :=
  match d with
  | Private => 9 | Public => 8 | RNoCache => 1 | RNoStore => 2 | RNoTransform => 6 | MustRevalidate => 10 | ProxyRevalidate => 11
  | RMaxAge _ => 3 | SMaxAge _ => 12
  end.

Lemma rdirective_names d : rdirective_name d ≠ [] ∧ Forall word_char (rdirective_name d) ∧
  ccTab (rdirective_name d) = Some (rdirective_number d).
Proof. by destruct d; (split; [done|split; [by apply (bool_decide_unpack _)|]]). Qed.

(** A turn for the name of a directive, and what follows it. *)
Lemma rcc_turn fuel m p q e tok tl ty d x rest h c :
  rvalid_directive d → ¬ word_char x → text_at m (p + q) (rdirective_text d ++ x :: rest) →
  (q + length (rdirective_text d) ≤ e)%nat →
  ∃ tok' tl' ty', response_cc_loop (S fuel) (in_line m p q e tok tl ty) h c =
    response_cc_loop fuel (in_line m p (q + length (rdirective_text d)) e tok' tl' ty') h (apply_rdirective c d).
Proof.
  intros Hd Hx Ht He. destruct (rdirective_names d) as (H1 & H2 & H3).
  assert (∃ y rest', rdirective_text d ++ x :: rest = rdirective_name d ++ y :: rest' ∧ ¬ word_char y) as (y & rest' & Heq & Hy).
  { unfold rdirective_text. destruct d; rewrite ?app_nil_r, <- ?app_assoc; cbn [app]; by eexists _, _. }
  assert (length (rdirective_name d) ≤ length (rdirective_text d))%nat as Hlen by (unfold rdirective_text; rewrite length_app; lia).
  pose proof Ht as Ht0. rewrite Heq in Ht0. cbn [response_cc_loop].
  rewrite (init_word _ _ _ _ _ _ _ (rdirective_name d) y) by (done || lia || by apply text_first in Ht0).
  cbn [mbind outcome_bind tokenType]. change (0 =? -1) with false. change (one_of TOKEN [LWS; COMMA; SP]) with false.
  change (TOKEN =? CRLF) with false. cbv iota.
  assert (token_text (in_line m p (q + length (rdirective_name d)) e (p + q) (length (rdirective_name d)) TOKEN) = rdirective_name d) as ->.
  { unfold token_text. cbn [toklen token mem]. apply text_at_take. by apply text_at_app in Ht0 as [? _]. }
  rewrite H3.
  assert (∀ n, 0 ≤ n < 2 ^ 31 → rdirective_text d = rdirective_name d ++ EQUALS :: put_number n →
    cc_argument false (in_line m p (q + length (rdirective_name d)) e (p + q) (length (rdirective_name d)) TOKEN) =
      Done (in_line m p (q + length (rdirective_text d)) e (p + S (q + length (rdirective_name d))) (length (put_number n)) TOKEN, Number n)) as Harg.
  { intros n Hn Htext. destruct (put_number_text n Hn) as [Hds Hv]. rewrite Htext in Ht, He |- *. rewrite length_app in *. cbn [length] in *.
    rewrite <- app_assoc in Ht. cbn [app] in Ht. apply text_left in Ht. rewrite app_comm_cons in Ht.
    rewrite (argument_found _ _ _ _ _ _ _ _ (put_number n) x); [|done|done|by apply text_first in Ht|lia].
    rewrite Hv. by replace (q + length (rdirective_name d) + 1 + length (put_number n))%nat with
      (q + (length (rdirective_name d) + S (length (put_number n))))%nat by lia. }
  unfold response_directive. destruct c as [pub priv nc ns nt mr pr ma sm]. unfold rdirective_text in *.
  destruct d; cbn [rdirective_number Z.eqb Pos.eqb apply_rdirective].
  1-7: cbn [mbind outcome_bind]; rewrite app_nil_r; by eexists _, _, _.
  all: rewrite (Harg n Hd eq_refl); cbn [mbind outcome_bind]; by eexists _, _, _.
Qed.

(** The directives after the first, to the end of the line. *)
Lemma rcc_more ds : ∀ fuel m p q e tok tl ty y h c,
  Forall rvalid_directive ds → text_at m (p + q) (more_directives ds ++ [CRETURN; LFEED; y]) → y ≠ SPACE → y ≠ TAB →
  (q + length (more_directives ds) + 2 ≤ e)%nat → (2 * length ds < fuel)%nat →
  ∃ lx, response_cc_loop fuel (in_line m p q e tok tl ty) h c =
      Done (lx, rset_status COME_BACK (rset_cc (Some (foldl apply_rdirective c ds)) h), 0) ∧
    end_ lx = e ∧ changed (p + q) (length (more_directives ds) + 2) m (mem lx).
Proof.
  induction ds as [|d ds IH]; intros fuel m p q e tok tl ty y h c Hv Ht Hy1 Hy2 He Hf.
  - destruct fuel as [|fuel]; [lia|]. cbn [response_cc_loop]. cbn in Ht, He.
    rewrite (init_crlf _ _ _ _ _ _ _ y) by (done || lia).
    cbn [mbind outcome_bind tokenType]. change (0 =? -1) with false. change (one_of CRLF [LWS; COMMA; SP]) with false.
    change (CRLF =? CRLF) with true. cbv iota. eexists. split; [done|]. split; [done|]. cbn [mode mem].
    repeat apply changed_insert; [apply changed_refl|lia..].
  - apply Forall_cons_1 in Hv as [Hd Hv]. destruct fuel as [|fuel]; cbn [length] in Hf; [lia|].
    change (more_directives (d :: ds)) with (COMMA :: rdirective_text d ++ more_directives ds) in *.
    cbn [length] in *. rewrite length_app in *. cbn [app] in Ht. rewrite <- app_assoc in Ht.
    assert (∃ x rest, more_directives ds ++ [CRETURN; LFEED; y] = x :: rest ∧ ¬ word_char x) as (x & rest & Heq & Hx).
    { destruct ds; by eexists _, _. }
    cbn [response_cc_loop].
    rewrite (init_mark _ _ _ _ _ _ _ COMMA); [|set_solver|by apply (text_first _ _ []) in Ht|lia].
    cbn [mbind outcome_bind tokenType]. change (0 =? -1) with false. change (one_of COMMA [LWS; COMMA; SP]) with true. cbv iota.
    apply text_at_cons in Ht as [_ Ht]. rewrite <- Nat.add_succ_r in Ht.
    pose proof Ht as Ht1. rewrite Heq in Ht1. destruct fuel as [|fuel]; [lia|].
    destruct (rcc_turn fuel m p (S q) e (p + q) 1 COMMA d x rest h c Hd Hx Ht1) as (tok' & tl' & ty' & ->); [lia|].
    apply text_left in Ht.
    destruct (IH fuel m p (S q + length (rdirective_text d))%nat e tok' tl' ty' y h (apply_rdirective c d) Hv Ht Hy1 Hy2)
      as (lx & Hrun & Hend & Hch); [lia|lia|].
    exists lx. split; [exact Hrun|]. split; [done|]. eapply changed_weaken; [exact Hch|lia..].
Qed.

Lemma rdirective_length d : (6 ≤ length (rdirective_text d))%nat.
Proof. unfold rdirective_text. rewrite length_app. destruct d; cbn; lia. Qed.
Lemma more_length ds : (7 * length ds ≤ length (more_directives ds))%nat.
Proof.
  induction ds as [|d ds IH]; [done|]. change (more_directives (d :: ds)) with (COMMA :: rdirective_text d ++ more_directives ds).
  cbn [length]. rewrite length_app. pose proof (rdirective_length d). lia.
Qed.

Lemma rhandle_directives m p e tok tl ty ds d h :
  rvalid (RDirectives ds) → text_at m p (rfield_text (RDirectives ds) ++ [CRETURN; LFEED; d]) → d ≠ SPACE → d ≠ TAB →
  (length (rfield_text (RDirectives ds)) + 2 ≤ e)%nat →
  rhandled p (length (rfield_text (RDirectives ds)) + 2) e m (RDirectives ds) h
    (parseResponseHeader mktime (in_line m p 0 e tok tl ty) h).
Proof.
  intros Hv Ht Hd1 Hd2 He. cbn [rfield_text rvalid] in *. repeat (rewrite <- ?app_assoc in Ht; cbn [app] in Ht).
  rewrite !length_app in He |- *. change (length (chars "Cache-Control")) with 13%nat in *. cbn [length] in *. unfold rhandled.
  rewrite (rparse_name _ _ _ _ _ _ (chars "Cache-Control") (match ds with [] => [] | d :: ds => SPACE :: rdirective_text d ++ more_directives ds end ++ [CRETURN; LFEED; d]));
    [|done|by apply (bool_decide_unpack _)|done|rewrite length_app; cbn; lia|cbn; lia].
  rewrite bool_decide_false by (destruct ds as [|[]]; cbn; done).
  change (hTab (chars "Cache-Control")) with (Some 1). cbv iota.
  change (responseHeaderFunctions mktime 1) with parseResponseCacheControl.
  change (length (chars "Cache-Control")) with 13%nat. unfold parseResponseCacheControl.
  rewrite <- (Nat.add_0_r p) in Ht. apply (text_left _ p 0 (chars "Cache-Control")) in Ht. change (0 + length (chars "Cache-Control"))%nat with 13%nat in Ht.
  rewrite eat_mark_colon; [|by apply (text_first _ _ []) in Ht|lia]. cbn [mbind outcome_bind].
  change (0 =? -1) with false. cbv iota. cbn [end_]. apply text_at_cons in Ht as [_ Ht]. rewrite <- Nat.add_succ_r in Ht.
  assert (∃ lx, response_cc_loop (S e) (in_line m p 14 e (p + 13) 1 COLON) (rset_cc (Some no_response_directives) h) no_response_directives =
      Done (lx, rset_status COME_BACK (rset_cc (Some (foldl apply_rdirective no_response_directives ds)) h), 0) ∧
    end_ lx = e ∧ changed p (13 + (1 + length (match ds with [] => [] | d :: ds => SPACE :: rdirective_text d ++ more_directives ds end)) + 2) m (mem lx))
    as (lx & Hrun & Hend & Hch).
  { destruct ds as [|d1 ds].
    - destruct (rcc_more [] (S e) m p 14 e (p + 13) 1 COLON d (rset_cc (Some no_response_directives) h) no_response_directives)
        as (lx & Hrun & Hend & Hch); [done|exact Ht|done|done|cbn in *; lia|cbn; lia|].
      exists lx. rewrite Hrun. split; [by destruct h|]. split; [done|]. eapply changed_weaken; [exact Hch|cbn; lia..].
    - apply Forall_cons_1 in Hv as [Hv1 Hv]. cbn [length app] in *. rewrite !length_app in *. pose proof (more_length ds). pose proof (rdirective_length d1).
      cbn [response_cc_loop]. rewrite <- app_assoc in Ht.
      destruct (rdirective_names d1) as (Hn1 & Hn2 & _).
      assert (∃ c cs, rdirective_text d1 = c :: cs ∧ word_char c) as (c & cs & Hc & Hcw).
      { unfold rdirective_text. destruct (rdirective_name d1) as [|c cs]; [done|]. apply Forall_cons_1 in Hn2 as [? _]. by eexists _, _. }
      pose proof Ht as Ht1. rewrite Hc in Ht1. destruct (word_no_space c Hcw).
      rewrite (init_space _ _ _ _ _ _ _ c); [|by apply (text_first _ _ [SPACE]) in Ht1|done|done|by apply word_line|lia].
      cbn [mbind outcome_bind tokenType]. change (0 =? -1) with false. change (one_of SP [LWS; COMMA; SP]) with true. cbv iota.
      set (m1 := <[(p + 14)%nat := 0]> m).
      assert (text_at m1 (p + 15) (rdirective_text d1 ++ more_directives ds ++ [CRETURN; LFEED; d])) as Ht2.
      { apply text_at_insert; [|lia]. apply text_at_cons in Ht as [_ Ht]. by rewrite <- Nat.add_succ_r in Ht. }
      assert (∃ x rest, more_directives ds ++ [CRETURN; LFEED; d] = x :: rest ∧ ¬ word_char x) as (x & rest & Heq & Hx).
      { destruct ds; by eexists _, _. }
      pose proof Ht2 as Ht3. rewrite Heq in Ht3.
      assert (∃ k, e = S k) as [k He'] by (exists (e - 1)%nat; lia). replace (response_cc_loop e) with (response_cc_loop (S k)) by (by rewrite He').
      destruct (rcc_turn k m1 p 15 e (p + 14) 1 SP d1 x rest (rset_cc (Some no_response_directives) h) no_response_directives Hv1 Hx Ht3)
        as (tok' & tl' & ty' & ->); [lia|].
      apply text_left in Ht2.
      destruct (rcc_more ds k m1 p (15 + length (rdirective_text d1)) e tok' tl' ty' d (rset_cc (Some no_response_directives) h) (apply_rdirective no_response_directives d1) Hv Ht2 Hd1 Hd2)
        as (lx & Hrun & Hend & Hch); [lia|lia|].
      exists lx. rewrite Hrun. split; [by destruct h|]. split; [done|].
      apply (changed_trans _ _ _ m1); [apply changed_insert; [apply changed_refl|lia]|]. eapply changed_weaken; [exact Hch|lia..]. }
  rewrite Hrun. cbn [mbind outcome_bind]. change (0 =? -1) with false. cbv iota.
  exists lx, COME_BACK. split; [by destruct h|]. split_and!; [by right|done|exact Hch|done].
Qed.

(** ** All headers *)

Lemma rhandle_field m p e tok tl ty f d h :
  rvalid f → text_at m p (rfield_text f ++ [CRETURN; LFEED; d]) → d ≠ SPACE → d ≠ TAB →
  (length (rfield_text f) + 2 ≤ e)%nat →
  rhandled p (length (rfield_text f) + 2) e m f h (parseResponseHeader mktime (in_line m p 0 e tok tl ty) h).
Proof.
  intros Hf Ht Hd1 Hd2 He. destruct f.
  - by apply (rhandle_kept _ _ _ _ _ _ _ _ d).
  - by apply (rhandle_number _ _ _ _ _ _ _ _ d).
  - apply (rhandle_place _ _ _ _ _ _ (chars "Connection") (chars "close") 10 rset_conn _ d);
      try done; [by apply (bool_decide_unpack _)..|by intros ? []].
  - apply (rhandle_place _ _ _ _ _ _ (chars "Transfer-Encoding") (chars "chunked") 41 rset_te _ d);
      try done; [by apply (bool_decide_unpack _)..|by intros ? []].
  - by apply (rhandle_directives _ _ _ _ _ _ _ d).
  - by apply (rhandle_date _ _ _ _ _ _ _ _ d).
Qed.

Lemma rdirective_chars d : rvalid_directive d → Forall line_char (rdirective_text d).
Proof.
  intros Hd. destruct (rdirective_names d) as (_ & H & _). apply Forall_app. split; [by apply line_chars_of|].
  destruct d; try done; (apply Forall_cons; split; [by apply (bool_decide_unpack _)|]); apply line_chars_of, put_number_words; cbn in Hd; lia.
Qed.

Lemma rfield_line f : rvalid f → Forall line_char (rfield_text f) ∧ ∃ c cs, rfield_text f = c :: cs ∧ c ≠ SPACE ∧ c ≠ TAB ∧ c ≠ EOF.
Proof.
  assert (Forall line_char [COLON; SPACE]) as Hcs by (by apply (bool_decide_unpack _)).
  destruct f as [name value|k n| | |ds|k t]; cbn [rvalid rfield_text]; intros Hf.
  - destruct Hf as (Hn & Hw & Hv & _). split.
    { apply Forall_app; split; [by apply line_chars_of|]. by apply Forall_app. }
    destruct name as [|c name]; [done|]. apply Forall_cons_1 in Hw as [Hc _]. destruct (word_no_space c Hc).
    eexists _, _. split; [done|]. split_and!; [done|done|]. by apply word_line.
  - destruct (number_names k) as (Hne & Hw & _). split.
    + apply Forall_app; split; [by apply line_chars_of|]. apply Forall_app; split; [done|]. by apply line_chars_of, put_number_words.
    + destruct k; by eexists _, _.
  - split; [by apply (bool_decide_unpack _)|by eexists _, _].
  - split; [by apply (bool_decide_unpack _)|by eexists _, _].
  - split; [|by eexists _, _]. do 2 (apply Forall_app; split; [by apply (bool_decide_unpack _)|]).
    destruct ds as [|d ds]; [done|]. apply Forall_cons_1 in Hf as [Hd Hds]. apply Forall_cons. split; [by apply (bool_decide_unpack _)|].
    apply Forall_app. split; [by apply rdirective_chars|]. induction Hds as [|d' ds Hd' _ IH]; [done|].
    change (more_directives (d' :: ds)) with (COMMA :: rdirective_text d' ++ more_directives ds).
    apply Forall_cons. split; [by apply (bool_decide_unpack _)|]. apply Forall_app. split; [by apply rdirective_chars|done].
  - split; [|destruct k; by eexists _, _]. apply Forall_app; split; [destruct k; by apply (bool_decide_unpack _)|].
    apply Forall_app; split; [done|]. apply Forall_app; split; [by apply date_line_chars|by apply (bool_decide_unpack _)].
Qed.

Lemma rwhole_line fuel m b q e tok tl ty f c rest block stream p :
  rvalid f → text_at m (b + q) (rfield_text f ++ CRETURN :: LFEED :: c :: rest) → c ≠ SPACE → c ≠ TAB → c ≠ EOF →
  (q + length (rfield_text f) + 2 ≤ e)%nat → p_stage p = HTTP_HEADER → r_status (p_head p) ≠ BAD_RESPONSE →
  ∃ lx s, response_loop mktime (S fuel) (mk_lexer m b q e LINE NONE tok tl ty) block stream p =
      response_loop mktime fuel (mk_lexer (mem lx) b (q + length (rfield_text f) + 2) e LINE NONE (token lx) (toklen lx) (tokenType lx))
        block stream (pset_mem (mem lx) (pset_head (rset_status s (reffect (b + q) f (p_head p))) (pset_mode LINE NONE p))) ∧
    s ≠ BAD_RESPONSE ∧ changed (b + q) (length (rfield_text f) + 2) m (mem lx) ∧ rreadable (b + q) f (mem lx).
Proof.
  intros Hf Ht Hc1 Hc2 Hc3 He Hstage Hbad. destruct (rfield_line f Hf) as (Hline & c0 & cs & Heq & _).
  assert (text_at m (b + q) (rfield_text f ++ [CRETURN; LFEED; c])) as Ht'.
  { change (CRETURN :: LFEED :: c :: rest) with ([CRETURN; LFEED; c] ++ rest) in Ht. rewrite app_assoc in Ht. by apply text_at_app in Ht as [? _]. }
  destruct (rhandle_field m (b + q) e (b + q) (length (rfield_text f) + 2) TOKEN f c (p_head p) Hf Ht' Hc1 Hc2)
    as (lx & s & Hrun & Hs & Hend & Hch & Hr); [lia|].
  assert (s ≠ BAD_RESPONSE) as Hsb by (destruct Hs as [-> | ->]; done).
  exists lx, s. split; [|done]. cbn [response_loop].
  rewrite (header_line _ _ _ _ LINE _ _ _ (rfield_text f) c); [|by right|by rewrite Heq|done..].
  cbn [mbind outcome_bind tokenType]. change (0 =? -1) with false. change (TOKEN =? BUFEND) with false. cbv iota.
  replace (p_stage (pset_mode _ _ p)) with HTTP_HEADER by (by destruct p).
  change (HTTP_HEADER =? RESPONSE_LINE) with false. change (HTTP_HEADER =? HTTP_HEADER) with true. cbv iota.
  change (TOKEN =? CRLF) with false. cbv iota. cbn [start state].
  unfold sub_lexer. cbn [mem buf processed end_ token toklen tokenType].
  replace (p_head (pset_mode LINE NONE p)) with (p_head p) by (by destruct p). rewrite Hrun. cbn [mbind outcome_bind].
  change (0 =? -1) with false. rewrite r_status_set, (eqb_ne s) by done. cbn [orb].
  unfold resume. rewrite Hend. done.
Qed.

Lemma rlines_cons f fs : rlines (f :: fs) = rfield_text f ++ crlf ++ rlines fs.
Proof. unfold rlines. cbn. by rewrite <- app_assoc. Qed.

Lemma rlines_app fs gs : rlines (fs ++ gs) = rlines fs ++ rlines gs.
Proof. unfold rlines. by rewrite fmap_app, join_app. Qed.

Lemma rlines_length p f fs : (p + length (rlines (f :: fs)) = p + length (rfield_text f) + 2 + length (rlines fs))%nat.
Proof. rewrite rlines_cons, !length_app. cbn. lia. Qed.

Lemma reffects_status s p fs h : reffects p fs (rset_status s h) = rset_status s (reffects p fs h).
Proof. revert p h. induction fs as [|f fs IH]; intros p h; cbn [reffects]; [done|]. by rewrite reffect_status, IH. Qed.

Lemma rreadable_changed p f m m' q n :
  changed q n m m' → (p + length (rfield_text f) + 2 ≤ q)%nat → rreadable p f m → rreadable p f m'.
Proof.
  intros Hch Hq. destruct f; cbn [rreadable rfield_text] in *; try done; intros Ht; eapply changed_text; try exact Ht; try exact Hch; left.
  - rewrite length_app. change (length crlf) with 2%nat. lia.
  - cbn in *. lia.
  - cbn in *. lia.
Qed.

(** A response after some turns in which only its head was read. *)
Definition moved_on (p p' : response) : Prop := ∃ m a z h, p' = pset_mem m (pset_head h (pset_mode a z p)).

Lemma moved_on_refl p : moved_on p p.
Proof. exists (p_mem p), (p_start p), (p_state p), (p_head p). by destruct p. Qed.
Lemma moved_on_trans p1 p2 p3 : moved_on p1 p2 → moved_on p2 p3 → moved_on p1 p3.
Proof. intros (? & ? & ? & ? & ->) (m & a & z & h & ->). exists m, a, z, h. by destruct p1. Qed.
Lemma moved_on_step m a z h p : moved_on p (pset_mem m (pset_head h (pset_mode a z p))).
Proof. by eexists _, _, _, _. Qed.

Lemma rlines_first fs rest : Forall rvalid fs →
  ∃ c cs, rlines fs ++ crlf ++ rest = c :: cs ∧ c ≠ SPACE ∧ c ≠ TAB ∧ c ≠ EOF.
Proof.
  intros [|f fs' Hf _]; [by eexists _, _|]. destruct (rfield_line f Hf) as (_ & c & cs & Heq & ?).
  rewrite rlines_cons, Heq, <- !app_assoc. by eexists _, _.
Qed.

Lemma rheader_lines fs block stream b e rest : ∀ fuel m q tok tl ty p,
  Forall rvalid fs → text_at m (b + q) (rlines fs ++ crlf ++ rest) → (q + length (rlines fs) ≤ e)%nat →
  p_stage p = HTTP_HEADER → r_status (p_head p) ≠ BAD_RESPONSE →
  ∃ m' s tok' tl' ty' p', response_loop mktime (length fs + fuel) (mk_lexer m b q e LINE NONE tok tl ty) block stream p =
      response_loop mktime fuel (mk_lexer m' b (q + length (rlines fs)) e LINE NONE tok' tl' ty') block stream p' ∧
    s ≠ BAD_RESPONSE ∧ moved_on p p' ∧ p_head p' = rset_status s (reffects (b + q) fs (p_head p)) ∧
    changed (b + q) (length (rlines fs)) m m' ∧ rreadables (b + q) fs m'.
Proof.
  induction fs as [|f fs IH]; intros fuel m q tok tl ty p Hfs Ht He Hstage Hbad.
  - exists m, (r_status (p_head p)), tok, tl, ty, p. cbn [length rlines fmap list_fmap mjoin plus reffects rreadables].
    rewrite Nat.add_0_r, rset_status_same. split_and!; [done|done|apply moved_on_refl|done|apply changed_refl|done].
  - apply Forall_cons_1 in Hfs as [Hf Hfs]. rewrite rlines_cons, <- !app_assoc in Ht. cbn [app crlf] in Ht. rewrite rlines_length in He.
    destruct (rlines_first fs rest Hfs) as (c & cs & Heq & Hc1 & Hc2 & Hc3).
    unfold crlf in Heq. cbn [app] in Heq. rewrite Heq in Ht. cbn [length plus].
    destruct (rwhole_line (length fs + fuel) m b q e tok tl ty f c cs block stream p) as (lx & s & Hrun & Hs & Hch & Hr); [done..|lia|done|done|].
    rewrite Hrun. set (p1 := pset_mem _ _). set (q' := (q + length (rfield_text f) + 2)%nat) in *.
    assert (moved_on p p1) as Hadv by apply moved_on_step.
    assert (p_head p1 = rset_status s (reffect (b + q) f (p_head p))) as Hh1 by (unfold p1; by destruct p).
    assert (p_stage p1 = HTTP_HEADER) as Hst1 by (unfold p1; by destruct p).
    assert (text_at (mem lx) (b + q') (rlines fs ++ crlf ++ rest)) as Ht1.
    { unfold crlf. cbn [app]. rewrite Heq. eapply changed_text; [exact Hch| |unfold q'; lia].
      apply (text_left _ _ _ (rfield_text f)) in Ht. apply (text_left _ _ _ [CRETURN; LFEED]) in Ht. exact Ht. }
    destruct (IH fuel (mem lx) q' (token lx) (toklen lx) (tokenType lx) p1 Hfs Ht1) as (m' & s' & tok' & tl' & ty' & p' & Hrun' & Hs' & Hadv' & Hh' & Hch' & Hr');
      [unfold q'; lia|done|by rewrite Hh1, r_status_set|].
    exists m', s', tok', tl', ty', p'. rewrite Hrun', rlines_length. fold q'. split_and!; [done|done|by eapply moved_on_trans| | |].
    + rewrite Hh', Hh1, reffects_status, rset_status_twice. cbn [reffects].
      by replace (b + q + length (rfield_text f) + 2)%nat with (b + q')%nat by (unfold q'; lia).
    + pose proof (rlines_length 0 f fs) as Hl. cbn [plus] in Hl. rewrite Hl.
      eapply changed_trans; eapply changed_weaken; [exact Hch|lia|lia|exact Hch'|unfold q'; lia|unfold q'; lia].
    + cbn [rreadables]. replace (b + q + length (rfield_text f) + 2)%nat with (b + q')%nat by (unfold q'; lia). split; [|done].
      eapply rreadable_changed; [exact Hch'|unfold q'; lia|exact Hr].
Qed.

(** ** The status line *)

Definition status_line (code : Z) (message : list Z) : list Z := chars "HTTP/1.0" ++ SPACE :: put_number code ++ SPACE :: message.

(** Where the message is. *)
Definition reason_at (code : Z) : nat := (9 + length (put_number code) + 1)%nat.

Definition good_line (code : Z) (at_ : nat) (h : response_head) : response_head :=
  rset_status GOOD_RESPONSE_LINE (rset_message (Some at_) (rset_code code (rset_version 1 0 h))).

Lemma raw_words ws : Forall word_char ws → Forall raw_char ws.
Proof. intros H. eapply Forall_impl; [exact H|]. intros c Hc. destruct (word_no_space c Hc). split_and!; [done..|]. by intros ->. Qed.

Lemma raw_eat m b p e tok tl ty rest :
  text_at m (b + p) (SPACE :: rest) → (p ≤ e)%nat →
  eat SP (Some 1%nat) (mk_lexer m b p e RAW NONE tok tl ty) = Done (mk_lexer (<[(b + p)%nat := 0]> m) b (S p) e RAW NONE (b + p) 1 SP, 0).
Proof. intros Ht He. apply eat_found; [apply raw_space; [by apply (text_first _ _ []) in Ht|done]|done|by intros n [= <-]]. Qed.

Lemma rstatus_line_read m p e tok tl ty code message d h :
  0 ≤ code < 2 ^ 31 → message ≠ [] → Forall line_char message → d ≠ SPACE → d ≠ TAB → d ≠ EOF →
  text_at m p (status_line code message ++ [CRETURN; LFEED; d]) → (length (status_line code message) + 2 ≤ e)%nat →
  ∃ lx, parseResponseLine (mk_lexer m p 0 e RAW NONE tok tl ty) h = Done (lx, good_line code (p + reason_at code) h, 0) ∧
    end_ lx = e ∧ changed p (length (status_line code message) + 2) m (mem lx) ∧ text_at (mem lx) (p + reason_at code) (message ++ [0]).
Proof.
  intros Hcode Hmne Hm Hd1 Hd2 Hd3 Ht He. unfold status_line in *. repeat (rewrite <- ?app_assoc in Ht; cbn [app] in Ht).
  repeat (rewrite length_app in He; cbn [length] in He). repeat (rewrite length_app; cbn [length]).
  change (length (chars "HTTP/1.0")) with 8%nat in *. destruct (put_number_text code Hcode) as [Hn Hv].
  unfold parseResponseLine. rewrite <- (Nat.add_0_r p) in Ht.
  rewrite (raw_token _ _ _ _ _ _ _ (chars "HTTP/1.0") SPACE); [|done|by apply (bool_decide_unpack _)|by apply text_first in Ht|by left|cbn; lia].
  cbn [mbind outcome_bind]. change (0 =? -1) with false. cbv iota. cbn [mem token]. rewrite decide_True by done. change (length (chars "HTTP/1.0")) with 8%nat.
  pose proof Ht as [Hver _]%text_at_app. unfold response_versions. cbn [recognise].
  rewrite !(starts_with_text _ _ _ _ Hver) by done.
  cbn [mbind outcome_bind]. rewrite bool_decide_false by done. rewrite bool_decide_true by done. cbn [mbind outcome_bind].
  apply text_left in Ht. change (0 + length (chars "HTTP/1.0"))%nat with 8%nat in Ht. cbn [plus].
  rewrite (raw_eat _ _ _ _ _ _ _ _ Ht) by lia.
  cbn [mbind outcome_bind]. change (0 =? -1) with false. cbv iota. set (m1 := <[(p + 8)%nat := 0]> m).
  apply text_at_cons in Ht as [_ Ht]. rewrite <- Nat.add_succ_r in Ht. apply (text_at_insert _ _ _ (p + 8) 0) in Ht; [|lia]. fold m1 in Ht.
  rewrite (raw_token _ _ _ _ _ _ _ (put_number code) SPACE); [|apply Hn|by apply raw_words, number_words|by apply text_first in Ht|by left|lia].
  cbn [mbind outcome_bind tokenType]. change (0 =? -1) with false. change (TOKEN =? TOKEN) with true. cbn [negb]. cbv iota.
  unfold token_number. cbn [mem token]. rewrite (atoi_number _ _ (put_number code) SPACE) by (done || by apply text_first in Ht).
  cbn [mbind outcome_bind]. rewrite Hv, decide_True by done. apply text_left in Ht.
  rewrite (raw_eat _ _ _ _ _ _ _ _ Ht) by lia.
  cbn [mbind outcome_bind]. change (0 =? -1) with false. cbv iota. set (m2 := <[_ := 0]> m1).
  apply text_at_cons in Ht as [_ Ht]. rewrite <- Nat.add_succ_r in Ht.
  apply (text_at_insert _ _ _ (p + (9 + length (put_number code))) 0) in Ht; [|lia]. fold m2 in Ht.
  unfold mode. cbn [mem buf processed end_ start state token toklen tokenType].
  rewrite (header_line _ _ _ _ HEADER _ _ _ message d); [|by left|done..|lia].
  cbn [mbind outcome_bind mem buf processed end_ start state token toklen tokenType]. change (0 =? -1) with false. cbv iota.
  replace (p + S (9 + length (put_number code)) + (length message + 2) - 2)%nat with (p + S (9 + length (put_number code)) + length message)%nat by lia.
  pose proof Ht as [Hmsg [Hcr _]%text_at_cons]%text_at_app.
  unfold put. rewrite decide_True by (by apply lookup_lt_Some in Hcr). cbn [mbind outcome_bind].
  eexists. split; [unfold good_line, reason_at; do 6 f_equal; lia|]. cbn [set_mem mem end_]. split; [done|]. split.
  - repeat apply changed_insert; [apply changed_refl|lia..].
  - unfold reason_at. replace (9 + length (put_number code) + 1)%nat with (S (9 + length (put_number code))) by lia.
    apply text_at_app. split; [apply text_at_insert; [done|lia]|]. apply text_at_cons. split; [|apply text_at_nil].
    apply list_lookup_insert_eq. by apply lookup_lt_Some in Hcr.
Qed.
End reading.

(** ** The text that is stored *)

Definition directives_of (c : cache_control_response) : list rdirective :=
  (if cr_private c =? PRESENT then [Private] else []) ++
  (if cr_public c =? PRESENT then [Public] else []) ++
  (if 0 <? cr_max_age c then [RMaxAge (cr_max_age c)] else []) ++
  (if 0 <? cr_s_maxage c then [SMaxAge (cr_s_maxage c)] else []) ++
  (if cr_no_cache c =? PRESENT then [RNoCache] else []) ++
  (if cr_no_store c =? PRESENT then [RNoStore] else []) ++
  (if cr_no_transform c =? PRESENT then [RNoTransform] else []) ++
  (if cr_must_revalidate c =? PRESENT then [MustRevalidate] else []) ++
  (if cr_proxy_revalidate c =? PRESENT then [ProxyRevalidate] else []).

(** The fields that are stored of a response with the headers [ks], in order. *)
Definition written (now : Z) (p : response) (ks : list (list Z * list Z)) : list rfield :=
  let h := p_head p in
  (if 0 <? r_age h then [RNumber NAge (r_age h)] else []) ++
  (if p_etype p =? CONN then [RClose] else [RNumber NLength (r_con_len h)]) ++
  (match r_cc h with Some c => [RDirectives (directives_of c)] | None => [] end) ++
  [RDated DDate now] ++
  (if 0 <? r_expires h then [RDated DExpires (r_expires h)] else []) ++
  (if 0 <? r_last_modified h then [RDated DModified (r_last_modified h)] else []) ++
  (if bool_decide (r_te h ≠ None) then [RChunked] else []) ++
  ((λ k, RKept k.1 k.2) <$> ks) ++
  [RNumber NResponseTime (r_response_time h); RNumber NRequestTime (r_request_time h)].

Definition stored_text (now : Z) (p : response) (message : list Z) (ks : list (list Z * list Z)) : list Z :=
  status_line (r_code (p_head p)) message ++ crlf ++ rlines (written now p ks) ++ crlf.

Lemma rlines_one f : rlines [f] = rfield_text f ++ crlf.
Proof. unfold rlines. cbn. by rewrite app_nil_r. Qed.

Lemma directive_list_text c : directive_list c = mjoin ((λ d, rdirective_text d ++ [COMMA]) <$> directives_of c).
Proof.
  unfold directive_list, directives_of. rewrite !fmap_app, !join_app.
  repeat (f_equal; [case_match; [|done]; cbn; rewrite ?app_nil_r, ?app_comm_cons, ?app_assoc; done|]).
  case_match; done.
Qed.

(** The comma that is taken back is the last. *)
Lemma commas_text d ds :
  mjoin ((λ d, rdirective_text d ++ [COMMA]) <$> d :: ds) = (rdirective_text d ++ more_directives ds) ++ [COMMA].
Proof.
  revert d. induction ds as [|d' ds IH]; intros d; [unfold more_directives; cbn; by rewrite !app_nil_r|].
  change (mjoin ((λ d, rdirective_text d ++ [COMMA]) <$> d :: d' :: ds))
    with ((rdirective_text d ++ [COMMA]) ++ mjoin ((λ d, rdirective_text d ++ [COMMA]) <$> d' :: ds)).
  rewrite IH. change (more_directives (d' :: ds)) with (COMMA :: rdirective_text d' ++ more_directives ds).
  by repeat (rewrite <- ?app_assoc; cbn [app]).
Qed.

Lemma take_back_app n g xs : length xs = n → take_back n (g ++ xs) = g.
Proof. intros <-. unfold take_back. rewrite length_app. by rewrite Nat.add_sub, take_app_length. Qed.

Lemma emit_cache_control_ok c g :
  let text := rlines match c with Some c => [RDirectives (directives_of c)] | None => [] end in
  Z.of_nat (length g + length text) < GEN_BUFFER_SIZE → emit_cache_control c g = Done (g ++ text).
Proof.
  destruct c as [c|]; intros text Hroom; cbn [emit_cache_control]; [|by rewrite app_nil_r].
  unfold text in *. rewrite rlines_one in *. rewrite directive_list_text. rewrite !length_app in Hroom. cbn [rfield_text] in *.
  rewrite !length_app in Hroom. change (length (chars "Cache-Control")) with 13%nat in Hroom. change (length crlf) with 2%nat in Hroom.
  cbn [length] in Hroom.
  destruct (directives_of c) as [|d ds].
  - change (chars "Cache-Control: " ++ mjoin ((λ d, rdirective_text d ++ [COMMA]) <$> [])) with ((chars "Cache-Control" ++ [COLON]) ++ [SPACE]).
    rewrite emit_ok by (cbn; lia). cbn [mbind outcome_bind]. rewrite app_assoc, take_back_app by done.
    rewrite emit_ok by (rewrite length_app; cbn; lia). by rewrite <- app_assoc.
  - rewrite commas_text. cbn [length] in Hroom. rewrite length_app in Hroom.
    change (chars "Cache-Control: ") with ((chars "Cache-Control" ++ [COLON]) ++ [SPACE]).
    rewrite emit_ok by (repeat (rewrite length_app; cbn [length]); change (length (chars "Cache-Control")) with 13%nat; lia).
    cbn [mbind outcome_bind]. rewrite !app_assoc, take_back_app by done.
    rewrite emit_ok by (repeat (rewrite length_app; cbn [length]); change (length (chars "Cache-Control")) with 13%nat; change (length crlf) with 2%nat; lia).
    by repeat (rewrite <- ?app_assoc; cbn [app]).
Qed.

(** A header that is kept where it arrived. *)
Definition kept_in (m : list Z) (a : nat) (k : list Z * list Z) : Prop :=
  ∃ d, text_at m a (rfield_text (RKept k.1 k.2) ++ [CRETURN; LFEED; d]) ∧ d ≠ SPACE ∧ d ≠ TAB.

Lemma copy_response_lines m hs ks g :
  Forall2 (kept_in m) hs ks → Forall (λ k, rvalid (RKept k.1 k.2)) ks →
  Z.of_nat (length (rlines ((λ k, RKept k.1 k.2) <$> ks))) ≤ 3000 →
  Z.of_nat (length g + length (rlines ((λ k, RKept k.1 k.2) <$> ks))) < GEN_BUFFER_SIZE →
  foldM (copy_response_line m) g hs = Done (g ++ rlines ((λ k, RKept k.1 k.2) <$> ks)).
Proof.
  intros H. revert g. induction H as [|a k hs ks (d & Ht & Hd1 & Hd2) _ IH]; intros g Hv Hlen Hroom; [by rewrite app_nil_r|].
  apply Forall_cons_1 in Hv as [Hk Hv]. rewrite fmap_cons, rlines_cons in *. rewrite !length_app in *. change (length crlf) with 2%nat in *.
  destruct (rfield_line _ Hk) as [Hline _]. set (line := rfield_text (RKept k.1 k.2)) in *.
  assert (a + length line < length m)%nat as Hin.
  { pose proof Ht as [_ [Hc _]%text_at_cons]%text_at_app. by apply lookup_lt_Some in Hc. }
  assert (copy_response_line m g a = Done (g ++ line ++ crlf)) as Hone.
  { unfold copy_response_line.
    rewrite (hdrCpy_line _ line _ _ _ _ d); [|by apply text_at_shift|by eapply Forall_impl; [exact Hline|]; intros ? (? & _)|done..|lia|lia|lia].
    cbn [mbind outcome_bind plus app]. rewrite (proj2 (Z.ltb_ge _ _)) by lia.
    rewrite emit_ok by (rewrite length_app; change (length crlf) with 2%nat; lia). by rewrite <- app_assoc. }
  cbn [foldM]. rewrite Hone. cbn [mbind outcome_bind].
  rewrite IH; [|done|lia|rewrite !length_app; change (length crlf) with 2%nat; lia]. by rewrite <- !app_assoc.
Qed.

#[local] Ltac measure g H :=
  match goal with g := ?a ++ ?b |- _ => assert (length g = length a + length b)%nat as H by apply length_app end.

Lemma formWriteHeader_ok now M p message a ks :
  let h := p_head p in
  M ≠ WAPROX_GET → M ≠ WAPROX_PUT → r_message h = Some a → text_at (p_mem p) a (message ++ [0]) → Forall (.≠ 0) message →
  Forall2 (kept_in (p_mem p)) (r_headers h) ks → Forall (λ k, rvalid (RKept k.1 k.2)) ks →
  Z.of_nat (length (stored_text now p message ks)) ≤ 3000 →
  formWriteHeader now M p = Done (stored_text now p message ks).
Proof.
  intros h HM1 HM2 Ha Hmsg Hz Hks Hv Hlen. unfold stored_text, written in *. fold h in Hlen |- *.
  rewrite !rlines_app in *. repeat rewrite length_app in Hlen.
  unfold formWriteHeader, formSendHeader, formResponseLine. fold h. rewrite Ha, (put_string_text _ _ _ Hmsg Hz). cbn [mbind outcome_bind].
  rewrite (eqb_ne M WAPROX_GET), (eqb_ne M WAPROX_PUT) by done. cbn [andb].
  change (chars "HTTP/1.0 " ++ put_number (r_code h) ++ SPACE :: message ++ crlf) with
    (chars "HTTP/1.0" ++ (SPACE :: put_number (r_code h)) ++ SPACE :: message ++ crlf).
  replace (chars "HTTP/1.0" ++ (SPACE :: put_number (r_code h)) ++ SPACE :: message ++ crlf)
    with (status_line (r_code h) message ++ crlf) by (unfold status_line; by repeat (rewrite <- ?app_assoc; cbn [app])).
  set (g1 := status_line (r_code h) message ++ crlf).
  assert (∀ (b : bool) f text g, text = rfield_text f ++ crlf →
    Z.of_nat (length g + length (rlines (if b then [f] else []))) < GEN_BUFFER_SIZE →
    emit_if b text g = Done (g ++ rlines (if b then [f] else []))) as Hemit.
  { intros b f text g -> Hroom. destruct b; cbn [emit_if]; [|by rewrite app_nil_r]. rewrite rlines_one in *. by apply emit_ok. }
  assert (length g1 = length (status_line (r_code h) message) + 2)%nat as Hg1 by (unfold g1; by rewrite length_app).
  change (length crlf) with 2%nat in Hlen. unfold GEN_BUFFER_SIZE in *.
  rewrite emit_ok by (cbn [length]; unfold GEN_BUFFER_SIZE; lia). cbn [mbind outcome_bind app].
  rewrite (Hemit _ (RNumber NAge (r_age h))) by (done || lia). cbn [mbind outcome_bind]. set (g2 := g1 ++ _).
  measure g2 Hg2.
  replace (if p_etype p =? CONN then chars "Connection: close" ++ crlf else chars "Content-Length: " ++ put_number (r_con_len h) ++ crlf)
    with (rlines (if p_etype p =? CONN then [RClose] else [RNumber NLength (r_con_len h)])) by (destruct (p_etype p =? CONN); by rewrite rlines_one).
  rewrite emit_ok by (unfold GEN_BUFFER_SIZE; lia). cbn [mbind outcome_bind]. set (g3 := g2 ++ _).
  measure g3 Hg3.
  rewrite emit_cache_control_ok by (unfold GEN_BUFFER_SIZE; lia). cbn [mbind outcome_bind emit_if]. set (g4 := g3 ++ _).
  measure g4 Hg4.
  assert (∀ k t, (date_name k ++ [COLON; SPACE]) ++ date_text t ++ chars " GMT" ++ crlf = rfield_text (RDated k t) ++ crlf) as Hdate.
  { intros k t. cbn [rfield_text]. by rewrite <- !app_assoc. }
  replace (chars "Date: " ++ date_text now ++ chars " GMT" ++ crlf) with (rlines [RDated DDate now]) by (rewrite rlines_one; symmetry; apply (Hdate DDate)).
  rewrite emit_ok by (unfold GEN_BUFFER_SIZE; lia). cbn [mbind outcome_bind]. set (g5 := g4 ++ _).
  measure g5 Hg5.
  rewrite (Hemit _ (RDated DExpires (r_expires h))) by ((apply (Hdate DExpires)) || lia). cbn [mbind outcome_bind]. set (g6 := g5 ++ _).
  measure g6 Hg6.
  rewrite (Hemit _ (RDated DModified (r_last_modified h))) by ((apply (Hdate DModified)) || lia). cbn [mbind outcome_bind]. set (g7 := g6 ++ _).
  measure g7 Hg7.
  rewrite (Hemit _ RChunked) by (done || lia). cbn [mbind outcome_bind]. set (g8 := g7 ++ _).
  measure g8 Hg8.
  rewrite (copy_response_lines _ _ ks) by (done || unfold GEN_BUFFER_SIZE; lia). cbn [mbind outcome_bind]. set (g9 := g8 ++ _).
  measure g9 Hg9.
  change ([RNumber NResponseTime (r_response_time h); RNumber NRequestTime (r_request_time h)])
    with ([RNumber NResponseTime (r_response_time h)] ++ [RNumber NRequestTime (r_request_time h)]) in *.
  rewrite rlines_app, length_app in Hlen.
  rewrite emit_ok by (change (length crlf) with 2%nat; unfold GEN_BUFFER_SIZE; lia). cbn [mbind outcome_bind].
  rewrite take_back_app by done.
  replace (chars "Response-Time: " ++ put_number (r_response_time h) ++ crlf) with (rlines [RNumber NResponseTime (r_response_time h)]) by (by rewrite rlines_one).
  rewrite emit_ok by (unfold GEN_BUFFER_SIZE; lia). cbn [mbind outcome_bind].
  replace (chars "Request-Time: " ++ put_number (r_request_time h) ++ crlf) with (rlines [RNumber NRequestTime (r_request_time h)]) by (by rewrite rlines_one).
  rewrite emit_ok by (rewrite length_app; unfold GEN_BUFFER_SIZE; lia). cbn [mbind outcome_bind].
  rewrite emit_ok by (rewrite !length_app; change (length crlf) with 2%nat; unfold GEN_BUFFER_SIZE; lia). f_equal.
  unfold g9, g8, g7, g6, g5, g4, g3, g2, g1. rewrite rlines_app. by repeat (rewrite <- ?app_assoc; cbn [app]).
Qed.

(** ** The stored text is read *)

Section round_trip.
Context (mktime : tm → Z).

Definition head_bytes (code : Z) (message : list Z) (fs : list rfield) : list Z :=
  status_line code message ++ crlf ++ rlines fs ++ crlf.

Lemma rlines_count fs : (length fs ≤ length (rlines fs))%nat.
Proof. induction fs as [|f fs IH]; [done|]. rewrite rlines_cons, !length_app. cbn. lia. Qed.

Lemma status_line_chars code message : 0 ≤ code < 2 ^ 31 → Forall line_char message → Forall line_char (status_line code message).
Proof.
  intros Hc Hm. destruct (put_number_words code) as [_ Hw]; [lia|]. unfold status_line.
  apply Forall_app; split; [by apply (bool_decide_unpack _)|]. apply Forall_cons; split; [by apply (bool_decide_unpack _)|].
  apply Forall_app; split; [by apply line_chars_of|]. by apply Forall_cons; split; [apply (bool_decide_unpack _)|].
Qed.

(** The turn for the status line. *)
Lemma rwhole_status_line fuel m e block stream p code message c rest :
  0 ≤ code < 2 ^ 31 → message ≠ [] → Forall line_char message → c ≠ SPACE → c ≠ TAB → c ≠ EOF →
  text_at m 0 (status_line code message ++ CRETURN :: LFEED :: c :: rest) → (length (status_line code message) + 2 ≤ e)%nat →
  p_stage p = RESPONSE_LINE →
  ∃ lx, response_loop mktime (S fuel) (mk_lexer m 0 0 e HEADER NONE 0 0 NONE) block stream p =
      response_loop mktime fuel (mk_lexer (mem lx) 0 (length (status_line code message) + 2) e LINE NONE (token lx) (toklen lx) (tokenType lx))
        block stream (pset_stage HTTP_HEADER (pset_mem (mem lx) (pset_head (good_line code (reason_at code) (p_head p)) (pset_mode HEADER NONE p)))) ∧
    changed 0 (length (status_line code message) + 2) m (mem lx) ∧ text_at (mem lx) (reason_at code) (message ++ [0]).
Proof.
  intros Hcode Hmne Hm Hc1 Hc2 Hc3 Ht He Hstage.
  assert (text_at m 0 (status_line code message ++ [CRETURN; LFEED; c])) as Ht'.
  { change (CRETURN :: LFEED :: c :: rest) with ([CRETURN; LFEED; c] ++ rest) in Ht. rewrite app_assoc in Ht. by apply text_at_app in Ht as [? _]. }
  destruct (rstatus_line_read m 0 e 0 (length (status_line code message) + 2) TOKEN code message c (p_head p)) as (lx & Hrun & Hend & Hch & Hmsg); [done..|].
  exists lx. split; [|done]. cbn [response_loop].
  rewrite (header_line _ _ _ _ HEADER _ _ _ (status_line code message) c); [|by left|done|by apply status_line_chars|exact Ht'|done..|lia].
  cbn [mbind outcome_bind tokenType]. change (0 =? -1) with false. change (TOKEN =? BUFEND) with false. cbv iota.
  replace (p_stage (pset_mode _ _ p)) with RESPONSE_LINE by (by destruct p).
  change (RESPONSE_LINE =? RESPONSE_LINE) with true. cbv iota. cbn [start state].
  unfold sub_lexer. cbn [mem buf processed end_ token toklen tokenType plus].
  replace (p_head (pset_mode HEADER NONE p)) with (p_head p) by (by destruct p). rewrite Hrun. cbn [mbind outcome_bind plus].
  change (0 =? -1) with false. unfold good_line at 1. rewrite r_status_set. change (GOOD_RESPONSE_LINE =? BAD_RESPONSE) with false. cbn [orb].
  unfold resume. rewrite Hend. done.
Qed.

(** The empty line and the entity, of which the length is known. *)
Lemma rlast_turns fuel m q e tok tl ty block p body :
  text_at m q (crlf ++ body ++ [EOF]) → e = (q + 2 + length body)%nat → p_stage p = HTTP_HEADER → 0 ≤ r_con_len (p_head p) →
  ∃ p', response_loop mktime (S (S fuel)) (mk_lexer m 0 q e LINE NONE tok tl ty) block true p = Done (p', 0) ∧
    p_head p' = rset_status (if r_con_len (p_head p) <=? Z.of_nat (length body) then ENTITY_COMPLETE else ENTITY_INCOMPLETE) (p_head p) ∧
    p_mem p' = m ∧ p_toSend p' = p_toSend p ++ [mk_bufBlock (b_buf block) (b_start block) (Z.of_nat (q + 2)) (b_end block)].
Proof.
  intros Ht -> Hstage Hlen. pose proof Ht as [Hcr Hbody]%text_at_app.
  assert (0 + (q + 2) < length m)%nat as Hin.
  { apply text_at_length in Ht; [|done]. rewrite !length_app in Ht. cbn in Ht. lia. }
  cbn [response_loop]. rewrite empty_line by (done || lia). cbn [mbind outcome_bind tokenType]. change (0 =? -1) with false.
  change (CRLF =? BUFEND) with false. cbv iota. replace (p_stage (pset_mode _ _ p)) with HTTP_HEADER by (by destruct p).
  change (HTTP_HEADER =? RESPONSE_LINE) with false. change (HTTP_HEADER =? HTTP_HEADER) with true. change (CRLF =? CRLF) with true. cbv iota.
  assert (∀ m0 h, 0 ≤ r_con_len h → response_entity_type m0 h = Done (CLEN, BODY)) as Htype.
  { intros m0 h Hl. unfold response_entity_type. by rewrite (proj2 (Z.leb_le _ _)). }
  rewrite Htype by (by destruct p). cbn [mbind outcome_bind]. unfold mode. cbn [mem buf processed end_ start state token toklen tokenType].
  rewrite body_token by lia. cbn [mbind outcome_bind tokenType]. change (0 =? -1) with false. change (BODY =? BUFEND) with false. cbv iota.
  destruct p as [m0 stg st ste rw len us bl h el rc et ts uw dn]. cbn in Hstage, Hlen. cbn -[Z.of_nat].
  change (ENTITY_FETCH =? RESPONSE_LINE) with false. change (ENTITY_FETCH =? HTTP_HEADER) with false.
  change (ENTITY_FETCH =? ENTITY_FETCH) with true. cbv iota. cbn -[Z.of_nat].
  change (CLEN =? CONN) with false. change (CLEN =? CLEN) with true. change (BODY =? BODY) with true. cbn -[Z.of_nat].
  unfold available. cbn -[Z.of_nat].
  replace (Z.of_nat (q + 2 + length body) - Z.of_nat (q + 2)) with (Z.of_nat (length body)) by lia. 
  replace (r_con_len (rset_status ENTITY_INCOMPLETE h)) with (r_con_len h) by (by destruct h). rewrite Z.sub_0_r.
  destruct (r_con_len h <=? Z.of_nat (length body)); cbn -[Z.of_nat]; eexists; (split; [done|]); cbn -[Z.of_nat]; by destruct h.
Qed.
(** Where the headers begin. *)
Definition headers_at (code : Z) (message : list Z) : nat := (length (status_line code message) + 2)%nat.

Lemma given_is_stored bs qt p00 :
  length (p_mem p00) = Z.to_nat 8193 → Z.of_nat (length bs) ≤ 8192 →
  parseResponse mktime (Given bs) (initHTTPResponse qt p00) =
    response_loop mktime (2 * S (length bs)) (mk_lexer (received (p_mem p00) 0 bs) 0 0 (length bs) HEADER NONE 0 0 NONE)
      (mk_bufBlock 0 0 0 (Z.of_nat (length bs))) true (loaded bs (initHTTPResponse qt p00)).
Proof.
  intros Hm Hbs. unfold parseResponse.
  change (response_full (initHTTPResponse qt p00)) with false. cbn -[Z.of_nat Nat.mul Z.add Z.sub]. change (0 <? 0) with false.
  unfold store_at. rewrite (proj2 (Nat.ltb_ge _ _)) by lia. cbn [mbind outcome_bind]. rewrite Z.add_0_r.
  rewrite (proj2 (Z.eqb_neq _ _)) by lia. unfold put. rewrite decide_True by (rewrite splice_at_length; lia).
  cbn -[Z.of_nat Nat.mul Z.add response_loop]. by rewrite Z.add_0_l, !Nat2Z.id.
Qed.

(** A head that was stored, with the beginning of its entity. *)
Lemma head_is_read code message fs body qt p00 :
  let h := reffects mktime (headers_at code message) fs (good_line code (reason_at code) (p_head (initHTTPResponse qt p00))) in
  let bs := head_bytes code message fs ++ body in
  0 ≤ code < 2 ^ 31 → message ≠ [] → Forall line_char message → Forall rvalid fs → 0 ≤ r_con_len h →
  length (p_mem p00) = Z.to_nat 8193 → Z.of_nat (length bs) ≤ 8192 →
  ∃ p', parseResponse mktime (Given bs) (initHTTPResponse qt p00) = Done (p', 0) ∧
    p_head p' = rset_status (if r_con_len h <=? Z.of_nat (length body) then ENTITY_COMPLETE else ENTITY_INCOMPLETE) h ∧
    text_at (p_mem p') (reason_at code) (message ++ [0]) ∧ rreadables (headers_at code message) fs (p_mem p') ∧ sent p' = body.
Proof.
  intros h bs Hcode Hne Hmsg Hfs Hlen Hm Hbs. rewrite given_is_stored by done.
  set (p0 := loaded bs (initHTTPResponse qt p00)). set (m := received (p_mem p00) 0 bs).
  assert (text_at m 0 (bs ++ [EOF])) as Ht by (apply received_text; lia).
  set (n := headers_at code message) in *.
  assert (length bs = n + length (rlines fs) + 2 + length body)%nat as Hl.
  { unfold bs, head_bytes, n, headers_at. rewrite !length_app. change (length crlf) with 2%nat. lia. }
  unfold bs, head_bytes in Ht. rewrite <- !app_assoc in Ht. pose proof (rlines_count fs) as Hcount.
  destruct (rlines_first fs (body ++ [EOF]) Hfs) as (c & cs & Heq & Hc1 & Hc2 & Hc3).
  pose proof Ht as Ht1. rewrite Heq in Ht1.
  assert (∃ k, 2 * S (length bs) = S (length fs + S (S k)))%nat as [k ->] by (exists (2 * S (length bs) - 3 - length fs)%nat; lia).
  destruct (rwhole_status_line (length fs + S (S k)) m (length bs) (mk_bufBlock 0 0 0 (Z.of_nat (length bs))) true p0 code message c cs)
    as (lx & -> & Hch & Hmt); [done..|unfold n, headers_at in Hl; lia|done|].
  change (length (status_line code message) + 2)%nat with n in *.
  set (p1 := pset_stage HTTP_HEADER _).
  apply (text_left _ 0 0) in Ht. apply (text_left _ 0 _ crlf) in Ht. cbn [plus] in Ht. change (length (status_line code message) + length crlf)%nat with n in Ht.
  assert (text_at (mem lx) (0 + n) (rlines fs ++ crlf ++ body ++ [EOF])) as Ht2.
  { eapply changed_text; [exact Hch| |lia]. exact Ht. }
  destruct (rheader_lines mktime fs (mk_bufBlock 0 0 0 (Z.of_nat (length bs))) true 0 (length bs) (body ++ [EOF]) (S (S k))
      (mem lx) n (token lx) (toklen lx) (tokenType lx) p1) as (m' & s & tok & tl & ty & p2 & -> & Hs & Hadv & Hh & Hch2 & Hr);
    [done|done|lia|done|done|].
  assert (p_head p1 = good_line code (reason_at code) (p_head (initHTTPResponse qt p00))) as Hh1 by done.
  rewrite Hh1 in Hh. change (0 + n)%nat with n in *. fold h in Hh.
  apply (text_left _ 0 n) in Ht2. cbn [plus] in Ht2.
  assert (text_at m' (n + length (rlines fs)) (crlf ++ body ++ [EOF])) as Ht3.
  { eapply changed_text; [exact Hch2|exact Ht2|lia]. }
  destruct Hadv as (m2 & a & z & h2 & Hp2).
  assert (r_con_len (p_head p2) = r_con_len h) as Hcl by (rewrite Hh; by destruct h).
  destruct (rlast_turns k m' (n + length (rlines fs)) (length bs) tok tl ty (mk_bufBlock 0 0 0 (Z.of_nat (length bs))) p2 body)
    as (p' & -> & Hh' & Hm' & Hs'); [done|lia|by rewrite Hp2|by rewrite Hcl|].
  exists p'. split; [done|]. rewrite Hh', Hcl, Hh, rset_status_twice. split; [done|]. rewrite Hm'. split_and!.
  - eapply changed_text; [exact Hch2|exact Hmt|]. left. unfold n, headers_at, status_line, reason_at. rewrite !length_app.
    change (length (chars "HTTP/1.0")) with 8%nat. cbn [length]. rewrite !length_app. cbn [length]. lia.
  - exact Hr.
  - apply (text_left _ 0 _ crlf) in Ht3. apply text_at_app in Ht3 as [Ht3 _]. cbn [plus] in Ht3. change (length crlf) with 2%nat in Ht3.
    assert (length bs = n + length (rlines fs) + 2 + length body)%nat as Hl2 by exact Hl.
    unfold sent. rewrite Hm', Hs'. replace (p_toSend p2) with (@nil bufBlock) by (by rewrite Hp2). cbn [app fmap list_fmap mjoin list_join].
    rewrite app_nil_r. unfold block_bytes. cbn [b_buf b_rstart b_end plus]. rewrite Nat2Z.id. apply text_at_take in Ht3. etrans; [|exact Ht3]. f_equal. lia.
Qed.
(** ** What is remembered *)

(** What was stored of the directives. *)
Definition directives_back (c : cache_control_response) : cache_control_response :=
  let flag x := if x =? PRESENT then PRESENT else ABSENT in
  let seconds n := if 0 <? n then n else -1 in
  mk_ccr (flag (cr_public c)) (flag (cr_private c)) (flag (cr_no_cache c)) (flag (cr_no_store c)) (flag (cr_no_transform c))
    (flag (cr_must_revalidate c)) (flag (cr_proxy_revalidate c)) (seconds (cr_max_age c)) (seconds (cr_s_maxage c)).

(** A head without its places in the buffer, and its status. *)
Definition plain (h : response_head) : response_head :=
  let '(mk_rhead _ maj min code _ _ cc lm age date exp resp req conn pconn te len) := h in
  mk_rhead 0 maj min code None [] cc lm age date exp resp req (const O <$> conn) (const O <$> pconn) (const O <$> te) len.

(** The head that is read from what was stored, [p] being the head there was
    in the memory that is used. *)
Definition head_back (now : Z) (h p : response_head) : response_head :=
  mk_rhead 0 1 0 (r_code h) None [] (directives_back <$> r_cc h)
    (if 0 <? r_last_modified h then date_back mktime (r_last_modified h) else -1)
    (if 0 <? r_age h then r_age h else -1) (date_back mktime now)
    (if 0 <? r_expires h then date_back mktime (r_expires h) else -1)
    (r_response_time h) (r_request_time h) None (const O <$> r_pconn p) (const O <$> r_te h) (r_con_len h).

(** What can be stored. *)
Record storable (now : Z) (h : response_head) (ks : list (list Z * list Z)) : Prop := {
  so_code : 0 ≤ r_code h < 2 ^ 31;
  so_length : 0 ≤ r_con_len h < 2 ^ 31;
  so_age : r_age h < 2 ^ 31;
  so_now : 0 ≤ now < 2 ^ 31;
  so_expires : r_expires h < 2 ^ 31;
  so_modified : r_last_modified h < 2 ^ 31;
  so_response_time : - 2 ^ 31 ≤ r_response_time h < 2 ^ 31;
  so_request_time : - 2 ^ 31 ≤ r_request_time h < 2 ^ 31;
  so_directives c : r_cc h = Some c → cr_max_age c < 2 ^ 31 ∧ cr_s_maxage c < 2 ^ 31;
  so_kept : Forall (λ k, rvalid (RKept k.1 k.2)) ks
}.

Lemma directives_kept c : foldl apply_rdirective no_response_directives (directives_of c) = directives_back c.
Proof.
  unfold directives_of, directives_back. rewrite !foldl_app.
  repeat (case_match; cbn [foldl apply_rdirective no_response_directives]); reflexivity.
Qed.

Lemma directives_valid c : cr_max_age c < 2 ^ 31 → cr_s_maxage c < 2 ^ 31 → Forall rvalid_directive (directives_of c).
Proof.
  intros H1 H2. unfold directives_of. repeat (apply Forall_app; split); case_match; try (by apply Forall_nil); apply Forall_singleton; try exact I; cbn; lia.
Qed.

Lemma written_valid now p ks : storable now (p_head p) ks → Forall rvalid (written now p ks).
Proof.
  intros [Hco Hl Ha Hn He Hm Hr Hq Hc Hk]. unfold written. repeat (apply Forall_app; split).
  - case_match; [|done]. apply Forall_singleton. cbn. lia.
  - case_match; apply Forall_singleton; [done|]. cbn. lia.
  - destruct (r_cc (p_head p)) as [c|]; [|done]. apply Forall_singleton. destruct (Hc c eq_refl). by apply directives_valid.
  - by apply Forall_singleton.
  - case_match; [|done]. apply Forall_singleton. cbn. lia.
  - case_match; [|done]. apply Forall_singleton. cbn. lia.
  - case_match; [|done]. by apply Forall_singleton.
  - apply Forall_fmap. eapply Forall_impl; [exact Hk|done].
  - apply Forall_cons. split; [done|]. by apply Forall_singleton.
Qed.

Lemma plain_effect p f h : plain (reffect mktime p f h) = plain (reffect mktime 0 f (plain h)).
Proof. by destruct f as [| []| | | |[]], h as [? ? ? ? ? ? ? ? ? ? ? ? ? [] [] [] ?]. Qed.

Lemma plain_effects fs : ∀ p h, plain (reffects mktime p fs h) = foldl (λ h f, plain (reffect mktime 0 f h)) (plain h) fs.
Proof. induction fs as [|f fs IH]; intros p h; cbn; [done|]. by rewrite IH, plain_effect. Qed.

Lemma plain_idem h : plain (plain h) = plain h.
Proof. by destruct h as [? ? ? ? ? ? ? ? ? ? ? ? ? [] [] [] ?]. Qed.

Lemma plain_kept (ks : list (list Z * list Z)) h :
  foldl (λ h f, plain (reffect mktime 0 f h)) (plain h) ((λ k, RKept k.1 k.2) <$> ks) = plain h.
Proof. induction ks as [|k ks IH]; [done|]. cbn [fmap list_fmap foldl]. rewrite <- IH at 2. f_equal. by destruct h as [? ? ? ? ? ? ? ? ? ? ? ? ? [] [] [] ?]. Qed.
Lemma plain_written now p ks at_ a qt p00 : p_etype p ≠ CONN →
  plain (reffects mktime at_ (written now p ks) (good_line (r_code (p_head p)) a (p_head (initHTTPResponse qt p00)))) =
  head_back now (p_head p) (p_head p00).
Proof.
  intros Het. rewrite plain_effects. unfold written. rewrite !foldl_app, (eqb_ne (p_etype p)) by done. unfold head_back.
  destruct (p_head p) as [st maj min code msg hs c lm age date exp resp req conn pconn te len].
  cbn [r_age r_cc r_expires r_last_modified r_te r_code r_con_len r_response_time r_request_time].
  destruct p00 as [? ? ? ? ? ? ? ? [? ? ? ? ? ? ? ? ? ? ? ? ? ? pc ? ?] ? ? ? ? ? ?].
  set (kept := (λ k, RKept k.1 k.2) <$> ks).
  assert (∀ h, foldl (λ h f, plain (reffect mktime 0 f h)) (plain h) kept = plain h) as Hkept by apply plain_kept. clearbody kept.
  destruct c as [c|], te as [te|]; rewrite ?bool_decide_true, ?bool_decide_false by naive_solver;
  repeat (case_match; cbn [foldl]);
  match goal with |- context [foldl _ ?x kept] => replace x with (plain x) by (cbn; by destruct pc) end;
  rewrite Hkept; cbn; rewrite ?directives_kept; by destruct pc.
Qed.

(** The headers that are kept, and where. *)
Definition kept_of (fs : list rfield) : list (list Z * list Z) :=
  omap (λ f, match f with RKept name value => Some (name, value) | _ => None end) fs.

Definition kept_at (m : list Z) (a : nat) (k : list Z * list Z) : Prop := text_at m a (rfield_text (RKept k.1 k.2) ++ crlf).

Lemma effect_headers p f h :
  r_headers (reffect mktime p f h) = r_headers h ++ match f with RKept _ _ => [p] | _ => [] end.
Proof. destruct f as [| []| | | |[]], h; cbn; by rewrite ?app_nil_r. Qed.

Lemma headers_back m fs : ∀ p h ks, rreadables p fs m → Forall2 (kept_at m) (r_headers h) ks →
  Forall2 (kept_at m) (r_headers (reffects mktime p fs h)) (ks ++ kept_of fs).
Proof.
  induction fs as [|f fs IH]; intros p h ks Hr Hks; [by rewrite app_nil_r|]. destruct Hr as [Hf Hr]. cbn [reffects].
  assert (kept_of (f :: fs) = match f with RKept name value => [(name, value)] | _ => [] end ++ kept_of fs) as -> by (by destruct f).
  rewrite app_assoc. apply IH; [done|]. rewrite effect_headers. apply Forall2_app; [done|]. destruct f; try by apply Forall2_nil.
  by apply Forall2_cons.
Qed.

Lemma kept_of_written now p ks : kept_of (written now p ks) = ks.
Proof.
  unfold kept_of, written. rewrite !omap_app.
  assert (omap (λ f, match f with RKept name value => Some (name, value) | _ => None end) ((λ k : list Z * list Z, RKept k.1 k.2) <$> ks) = ks) as ->.
  { induction ks as [|[] ks IH]; [done|]. cbn. by f_equal. }
  repeat case_match; cbn; by rewrite app_nil_r.
Qed.

Lemma effects_message p fs h : r_message (reffects mktime p fs h) = r_message h.
Proof.
  revert p h. induction fs as [|f fs IH]; intros p h; [done|]. cbn [reffects]. rewrite IH. by destruct f as [| []| | | |[]], h.
Qed.

End round_trip.

